(* ===== verification/_CoqProject ===== *)
-Q . S2P
Prelude.v
Core.v
Canonical.v
Trace.v
Wire.v
WireText.v
WireRoundTrip.v
WireDecoding.v
WireNumbers.v
Encoding.v
Calendar.v
Messages.v
MessageRoundTrip.v
Contracts.v
ContractDocuments.v
ContractRoundTrip.v
SyncWire.v
SyncWireIntegrity.v
JsonLoads.v
JsonRoundTrip.v
Application.v
Maintenance.v
Replay.v
Signatures.v
Cursors.v
CursorTokens.v
Idempotency.v
Leases.v
Inbox.v
UnitOfWork.v
Quarantine.v
Outbox.v
OutboxHistories.v
Resilience.v
AsyncOutbox.v
AsyncOutboxHistories.v
Messaging.v
Operations.v
Coroutines.v
Relay.v
RelayHistories.v
Consumer.v
ConsumerHistories.v
Checkpoints.v
Receipts.v
Jobs.v
JobsHistories.v
Processes.v
EventSourcing.v
Projections.v
Graph.v
Generations.v
Batches.v
BatchHistories.v
Database.v
DatabaseModel.v
Django.v
DjangoIdempotency.v
DjangoLeases.v
DjangoCheckpoints.v
DjangoInbox.v
DjangoReplay.v
DjangoOutbox.v
RelayRows.v
DjangoRelay.v
DjangoEvents.v
DjangoReceipts.v
DjangoBatches.v
DjangoTransactions.v
DjangoMaintenance.v
SqlAlchemy.v
SqlIdempotency.v
SqlReceipts.v
SqlRequests.v
SqlOutbox.v
SqlInbox.v
SqlUnit.v
SqlMaintenance.v
SqlJobs.v
