(* ===== verification/Prelude.v ===== *)
(** * A verification library for pytitect

    Pytitect ([src/src/pytitect/], paths below are relative to it) is a library of
    coordination contracts for services that retry: idempotent requests, leases with fencing
    tokens, inbox and outbox, checkpoints, receipts, jobs, process managers, event sourcing,
    projections and the sync protocol's batches. Each contract is a store port (a Python
    [Protocol]), a reference store that keeps the state in dictionaries behind one lock, often
    a coordinator that drives the port, and a conformance harness; the Django and the
    SQLAlchemy adapters implement the same ports over a shared PostgreSQL database. On top of
    them stand an exact JSON wire format, message envelopes with their codecs, the documents
    and cursors of the sync protocol, signed HTTP requests, and an asynchronous runtime: a relay that publishes the outbox and a
    consumer that decides each message in a unit of work. This library models those components
    and proves what makes them correct.

    ** How the code is represented

    - A Python block is a term of the state-and-exception monad [M] of this file: it ends with
      a value or an exception and a new state, and an exception keeps the assignments made
      before it. Field assignments that precede a possible exception are separate steps.
    - Text is a list of code points ([pystr]); a [datetime] is a wall clock with an offset and
      [dt_add] raises outside the calendar; a [timedelta] is a count of microseconds;
      dictionaries are association lists in insertion order ([dict]) and [OrderedDict]'s
      [move_to_end] is [d_move_to_end]; [sorted] is a stable insertion sort.
    - A reference store's lock makes each call atomic, so concurrent use is a sequence of
      calls. The history theorems quantify over every sequence of calls with every argument
      and every clock reading, unless a hypothesis says otherwise.
    - A coroutine ([co] of [Coroutines]) is a tree of steps: what runs between two [await]s is
      one step on the shared state, and before a step the rest of the program may have done
      anything the relation [env] allows. A task pool runs at most [workers] coroutines and
      interleaves them in every order. A timeout or a cancellation is an exception of the
      awaited call; an [asyncio.Lock] makes the section it guards one step.
    - A port is a type class, a reference store an instance; coordinators and harnesses are
      written against the class. [zoom] runs a store as one component of a larger state.
    - [with transaction.atomic()] is the class [Atomic]; its laws say that a raising body
      leaves no trace. [catch] and [embed] treat the private control exceptions
      ([_RollbackBatch], [_RollbackStaleCheckpoint]).
    - The database behind a store is an interface ([Database]): one operation per statement
      the store issues, a reading of the database's own clock, [transaction.atomic], and laws that state what PostgreSQL
      documents under Read Committed isolation. Before each statement other sessions may
      commit (a relation [rely] on the rows), rows this session has locked stay as they are,
      a block that raises is undone. [wp] reasons about one run; [linearizes] states that a
      call acts in one step on the rows of one instant of its run; a guarantee over histories
      takes [rely] to be the calls of all sessions. [DatabaseModel] is a concrete database on
      which the laws hold, and every witness about a database store runs on it.
    - [SqlAlchemy] adds the statements of the SQLAlchemy stores and their sessions: a block
      that begins, commits or rolls back ([begin], or the four methods of [AsyncSession]). A
      commit may raise after it took effect or without it, and both are runs of the model. An
      attribute set on a loaded row is the write its session flushes.
    - The bridge that runs a synchronous operation for a coroutine ([AsyncSyncBridge]) lets
      other transactions commit first and runs the operation once.
    - Not code of the repository, hence parameters: [uuid.uuid4] ([Uuid4], distinct non-empty
      draws), the clock, SHA-256, [float.__repr__] and [float], the C library's [log] and [pow]
      of the retry policies, [str.casefold], [str.lower], the digits of other scripts
      ([unicode_decimal]), the package [rfc8785], the library that checks signatures,
      HMAC and AES-GCM, the order of text in the database's collation, the length of a JSON
      column's text, transactions, and the callbacks, codecs and broker clients a service supplies.

    ** Files

    - [Prelude]: text, exceptions, the monad, transactions, lenses, ordering and sorting,
      dictionaries, time, and the tactics ([run], [sym], [time_facts]) and hints.
    - [Core] ([core.py]): deadlines, limits, identifiers, [validate_json], canonical encoding,
      fingerprints. [Canonical] ([security/canonical.py]): [validate_ijson], [canonical_json],
      and the interpreter's limits on recursion ([Recursion]).
    - [Trace] ([trace.py]): trace contexts; rendering and reading headers round-trips.
    - [Wire] ([wire.py]): number tokens, the bounded encoder, the incremental UTF-8 decoder, the
      parser with its one-character lookahead, and the conversions to ordinary JSON values.
      [WireText]: UTF-8 over any cut into chunks, the values the limits admit, the text of a
      value. [WireRoundTrip]: every document is read back from its encoding. [WireDecoding]:
      every input ends with a well-formed document, a syntax error or a limit error.
      [WireNumbers]: integers of any size and ordinary JSON values come back unchanged.
    - [Encoding] ([security/encoding.py], [digest.py]): base64url, key thumbprints, [Content-Digest].
    - [Calendar]: the proleptic Gregorian calendar behind [datetime.isoformat] and
      [datetime.fromisoformat]. [Messages] ([messaging/model.py], [exact.py], [codecs.py],
      [registry.py]): message values, both codecs and the registries. [MessageRoundTrip]: an
      exact message is read back from its encoding. [Application] ([application.py]): commands,
      queries, decisions, contexts and the registries that dispatch them.
    - [Contracts], [ContractDocuments], [ContractRoundTrip] ([sync/contracts.py]): the manifest,
      page and receipt documents of the sync protocol, their checks and their decoders; a
      document is read back from its JSON value under limits no stricter than the default. [SyncWire], [SyncWireIntegrity]
      ([sync/wire.py]): the versioned envelopes and their integrity digests, which bind the
      content.
    - [JsonLoads], [JsonRoundTrip] ([security/canonical.py], [parse_ijson]): the scanner of
      [json.loads]; every payload is decided, as a value, as invalid or, where it nests deeper
      than the interpreter's limits, by [RecursionError]; canonical text within them is read back.
    - [Cursors], [CursorTokens] ([sync/cursors.py]): a cursor token is read back in its context
      until it expires, and only issued tokens are accepted where their tags are not forged.
    - [Replay] ([security/replay.py]): replay windows. [Signatures]
      ([security/signatures.py]): signature bases, the checks of a signed request on every
      branch, and a signature is accepted once.
    - [Maintenance] ([maintenance.py]): plans and summaries of the purge operations.
    - [Idempotency] ([idempotency.py]): reservations. Results are replayed, running reservations
      exclude others, uncertain outcomes stay, stale tokens do nothing, [reserve] refines a finite-map specification, and the harness passes.
    - [Leases] ([leases.py]): fencing tokens strictly increase, leases exclude, fenced commits
      run exactly under the current authority.
    - [Inbox] ([inbox.py]): a completed message is never accepted again, deliveries exclude.
    - [UnitOfWork] ([aio/uow.py]): the unit of work that publishes decisions and inbox entries
      together. [Quarantine] ([aio/quarantine.py]): the store of rejected deliveries.
    - [Outbox], [OutboxHistories] ([outbox.py]): claims, settlements, retry delays, archival and
      the one-round dispatcher.
    - [Resilience] ([aio/resilience.py]): monotonic deadlines, the retry budget and its
      composition with the retry policy. [AsyncOutbox], [AsyncOutboxHistories] ([aio/stores.py]):
      the outbox with byte budgets, deferrals and uncertain publications.
    - [Messaging] ([messaging/results.py], [routing.py]), [Operations] ([operations.py],
      [aio/observation.py]): publication results, routes, readiness, backlog, observations.
    - [Coroutines]: coroutines and task pools; a pool run ends with one result per job.
      [Relay], [RelayHistories] ([aio/runtime.py], [AsyncRelay]): a round accounts for every
      claim, and an uncertain publication is not published again. [Consumer],
      [ConsumerHistories] ([AsyncConsumer], [AsyncCommandRuntime], [AsyncQueryRuntime]): each
      message has at most one committed decision and is acknowledged only with one.
    - [Checkpoints] ([checkpoints.py]): the atomic coordinator applies every item exactly once
      whatever attempts fail; the deferred one never moves a checkpoint another worker moved.
    - [Receipts] ([receipts.py]): the receipt state machine, compare-and-set, reconciliation.
    - [Jobs], [JobsHistories] ([jobs.py]): fenced claims, retries, recurring schedules, runner.
    - [Processes] ([processes.py]): decisions, effects and timers of process managers.
    - [EventSourcing] ([event_sourcing.py]): gap-free streams over one log, paging.
    - [Projections] ([projections.py]): stored projections equal the fold of the log.
    - [Graph] ([sync/graph.py]): topological order and closure of dataset graphs.
    - [Generations] ([sync/generations.py]): generation guards exclude late writers.
    - [Batches], [BatchHistories] ([sync/batches.py]): the batch store and the coordinator over
      a batch store, an item store ([Idempotency]) and a transaction; every item is mutated
      exactly once whatever attempts fail or are taken over.
    - [Database], [DatabaseModel]: the database interface and a database. [Django]
      ([django/stores.py]): the checks the stores share, and linearization.
      [DjangoIdempotency]: every request linearizes, and a recorded result is the one replayed.
      [DjangoLeases] (with [django/leases.py]): fencing tokens increase, fenced commits run under the authority.
      [DjangoCheckpoints] (checkpoint and generation stores), [DjangoInbox], [DjangoReplay],
      [DjangoOutbox], [DjangoReceipts]: one session moves a checkpoint or a receipt, completed
      messages, used values and settled envelopes stay so. [DjangoBatches]: a batch is resumed from what it recorded, and a lease settles one
      item. [DjangoTransactions] ([django/transactions.py]): the operation that reserves,
      mutates, records its receipt and its messages and completes in one transaction runs once.
    - [RelayRows]: what the relay stores over a database share, and the contract from which it
      follows that a settled message is not handed out again. [DjangoRelay], [DjangoEvents]
      ([django/relay.py], [django/event_processing.py]): the relay store behind the
      asynchronous port, within its byte budget, and the consumer that settles a delivery after
      its transaction. [DjangoMaintenance] ([django/maintenance.py]): purges delete what they
      report, failed messages are archived before they are deleted, and the archive commits
      with the deletion.
    - [SqlAlchemy], [SqlIdempotency], [SqlReceipts], [SqlRequests]
      ([sqlalchemy/idempotency.py]): the stores of a session, and the request that reserves,
      mutates and completes in one transaction and reconciles a commit whose answer was lost.
      [SqlOutbox] ([sqlalchemy/stores.py], [relay.py]): the outbox of a session, and the relay
      store that keeps the contract of [RelayRows]. [SqlInbox] (the inbox, checkpoint and
      quarantine stores) and [SqlUnit] ([sqlalchemy/uow.py]): the unit of work under the
      consumer of [Consumer]; a delivery is all or nothing, and its message is handled once.
      [SqlJobs] ([sqlalchemy/workflows.py]): the job store; claims are fenced, and a job is
      settled once. [SqlMaintenance] ([sqlalchemy/maintenance.py]): the purges.

    The theorems of a component come in three groups: the branches of each operation
    ([*_runs], [*_spec]), the invariants every operation keeps, and the guarantees over
    histories. Witnesses apply a theorem to a concrete state; harness theorems evaluate the
    published conformance harness on the reference store at a symbolic instant (at a concrete
    one for generations and batches).

    ** Fuel

    Few loops are not structural. [order_loop] of [Graph] starts with one more than the
    number of pending datasets, and every round retires one at least; [closure_loop] starts
    with one more than the number of datasets, and every dataset is pushed once at most; the
    page reader of [EventSourcing] needs one page per remaining event at most. The theorems
    [topological_order_correct] and [paging_complete] and the lemma [closure_least] state that
    the loops end within that fuel. The loops of the wire parser start with one more than the
    characters left and every turn reads one; its nesting is bounded by the depth limit. So do
    those of the scanner of [JsonLoads], whose nesting is bounded by the interpreter's limit
    ([scan_limit]), not by fuel. [decode_outcome] and [parse_ijson_outcome] state that
    no input exhausts them, and [utf8_decode_fuel] that the
    decoder's fuel does not matter. The rounds of a relay are bounded by
    [relay_round_accounts].

    ** Not modelled

    Python's type checks of arguments ([isinstance]) are typing in the model. Of the
    interpreter's limits, the depth of recursion is modelled where a caller decides it by what
    it sends: [parse_ijson] and [validate_ijson] ([Recursion]: one pair of limits, whatever the
    depth of the stack the call is made from; [usual_recursion] is the pair of the witnesses).
    [validate_json] and the parser of [Wire] bound their depth themselves. The recursion of
    [json.dumps] and of the conversions between representations, and memory, are left out. Of [django/], the abstract
    models (column declarations), the registration of the system check, the [on_commit]
    callbacks of a transaction and the semaphore and thread pool of the bridge are left out. Of
    [sqlalchemy/], the stores of processes and timers, events and snapshots, and projections
    are left out, since one call of theirs writes two tables or more and the laws of the
    database interface are about one table at a time; so are the column mixins. A session
    that begins a transaction by itself does not occur in what is modelled. [aws/], [nats/], [faststream_nats.py],
    [fastapi/] and [drf/] are calls of third-party code. Of [aio/], [AsyncConsumer.run]'s
    queue, the task supervision and the wrappers that hold a lock around a synchronous store
    are left out. [security/dpop.py] checks its proofs through the package PyJWT.
    [contracts/], [http.py], [observability.py], [canaries.py] and [testing.py] hold value
    classes and package I/O. *)
From Stdlib Require Import ZArith Lia Sorted Permutation.
From stdpp Require Import base list gmap strings pretty sorting.

#[global] Open Scope Z_scope.

(** * Python text *)

(** A Python [str]: the sequence of its code points. *)
Record pystr := PyStr { codepoints : list N }.

Definition pystr_of_bytes (bs : list Byte.byte) : pystr := PyStr (Byte.to_N <$> bs).

Definition pystr_to_bytes (s : pystr) : option (list Byte.byte) :=
  mapM Byte.of_N (codepoints s).

Declare Scope py_scope.
Delimit Scope py_scope with py.
Bind Scope py_scope with pystr.
String Notation pystr pystr_of_bytes pystr_to_bytes : py_scope.

#[export] Instance pystr_eq_dec : EqDecision pystr.
Proof. solve_decision. Defined.

#[export] Instance pystr_countable : Countable pystr.
Proof. by apply (inj_countable' codepoints PyStr); intros []. Defined.

(** [bool(s)]: a string is falsy exactly when it is empty. *)
Definition str_empty (s : pystr) : bool :=
  match codepoints s with [] => true | _ => false end.

Definition str_app (a b : pystr) : pystr := PyStr (codepoints a ++ codepoints b).

Definition str_len (s : pystr) : Z := Z.of_nat (length (codepoints s)).

(** [str(n)] of an integer. *)
Definition str_of_Z (z : Z) : pystr :=
  pystr_of_bytes (String.list_byte_of_string (pretty z)).

(** [str.isspace] of one code point, the characters [str.strip] and [str.split] drop. *)
Definition is_space (c : N) : bool :=
  ((9 <=? c) && (c <=? 13) || (28 <=? c) && (c <=? 32) || (c =? 133) || (c =? 160)
   || (c =? 5760) || (8192 <=? c) && (c <=? 8202) || (c =? 8232) || (c =? 8233)
   || (c =? 8239) || (c =? 8287) || (c =? 12288))%N.

Fixpoint lstrip_cps (l : list N) : list N :=
  match l with
  | c :: l' => if is_space c then lstrip_cps l' else l
  | [] => []
  end.

(** [s.strip()]. *)
Definition str_strip (s : pystr) : pystr :=
  PyStr (rev (lstrip_cps (rev (lstrip_cps (codepoints s))))).

(** The words of [s.split()], accumulated in [cur] (reversed). *)
Fixpoint split_cps (cur : list N) (l : list N) : list pystr :=
  match l with
  | [] => match cur with [] => [] | _ => [PyStr (rev cur)] end
  | c :: l' =>
      if is_space c
      then match cur with [] => split_cps [] l' | _ => PyStr (rev cur) :: split_cps [] l' end
      else split_cps (c :: cur) l'
  end.

Definition str_split (s : pystr) : list pystr := split_cps [] (codepoints s).

(** [sep.join(words)]. *)
Fixpoint str_join (sep : pystr) (ws : list pystr) : pystr :=
  match ws with
  | [] => PyStr []
  | [w] => w
  | w :: ws' => str_app w (str_app sep (str_join sep ws'))
  end.

(** [s[:n]] for a non-negative [n]. *)
Definition str_take (n : nat) (s : pystr) : pystr := PyStr (take n (codepoints s)).

(** * Exceptions and the state-and-exception monad

    A Python statement block is a state transformer that ends normally or with an
    exception; an exception keeps the mutations made before it was raised. *)

Inductive exn :=
  | ValueError (message : pystr)
  | OverflowError (message : pystr)
  | LookupError (message : pystr)
  | KeyError (message : pystr)
  | RuntimeError (message : pystr)
  | AssertionError (message : pystr)
  | PermanentJobError (message : pystr)
  | OtherError (class_name message : pystr).

#[export] Instance exn_eq_dec : EqDecision exn.
Proof. solve_decision. Defined.

(** [type(exc).__name__] and [str(exc)]. *)
Definition exn_name (e : exn) : pystr :=
  match e with
  | ValueError _ => "ValueError"
  | OverflowError _ => "OverflowError"
  | LookupError _ => "LookupError"
  | KeyError _ => "KeyError"
  | RuntimeError _ => "RuntimeError"
  | AssertionError _ => "AssertionError"
  | PermanentJobError _ => "PermanentJobError"
  | OtherError c _ => c
  end%py.

Definition exn_str (e : exn) : pystr :=
  match e with
  | ValueError m | OverflowError m | LookupError m | KeyError m | RuntimeError m
  | AssertionError m | PermanentJobError m | OtherError _ m => m
  end.

Inductive result (E A : Type) :=
  | Ok (a : A)
  | Raise (e : E).
Arguments Ok {E A} a.
Arguments Raise {E A} e.

#[export] Instance result_eq_dec {E A} `{EqDecision E, EqDecision A} : EqDecision (result E A).
Proof. solve_decision. Defined.

(** [for x in l: acc = f(acc, x)] of a body that may only raise. *)
Definition fold_result {E A B} (f : B -> A -> result E B) : list A -> B -> result E B :=
  fix go (l : list A) (acc : B) : result E B :=
    match l with
    | [] => Ok acc
    | x :: l' => match f acc x with Ok acc' => go l' acc' | Raise e => Raise e end
    end.

(** Sequencing of computations that only raise, and [if b: raise e] among them. *)
Definition rbind {E A B} (m : result E A) (f : A -> result E B) : result E B :=
  match m with Ok a => f a | Raise e => Raise e end.
Definition reject_if {E} (b : bool) (e : E) : result E unit := if b then Raise e else Ok tt.

Lemma rbind_ok {E A B} (m : result E A) (f : A -> result E B) b :
  rbind m f = Ok b <-> exists a, m = Ok a /\ f a = Ok b.
Proof.
  destruct m as [a|e]; cbn; split; [by eauto|by intros (? & [= <-] & ?)|done|by intros (? & ? & _)].
Qed.
Lemma reject_if_ok {E} b (e : E) u : reject_if b e = Ok u <-> b = false.
Proof. destruct b, u; done. Qed.

Definition M (E S A : Type) : Type := S -> result E A * S.

Section Monad.
Context {E S : Type}.

Definition ret {A} (a : A) : M E S A := fun s => (Ok a, s).
Definition raise {A} (e : E) : M E S A := fun s => (Raise e, s).

Definition bind {A B} (m : M E S A) (f : A -> M E S B) : M E S B :=
  fun s => match m s with
           | (Ok a, s') => f a s'
           | (Raise e, s') => (Raise e, s')
           end.

Definition get : M E S S := fun s => (Ok s, s).
Definition put (s : S) : M E S unit := fun _ => (Ok tt, s).
Definition modify (f : S -> S) : M E S unit := fun s => (Ok tt, f s).
Definition gets {A} (f : S -> A) : M E S A := fun s => (Ok (f s), s).

(** [try: m except: h]. *)
Definition try_except {A} (m : M E S A) (h : E -> M E S A) : M E S A :=
  fun s => match m s with
           | (Raise e, s') => h e s'
           | r => r
           end.

(** [try: m finally: f]. *)
Definition try_finally {A B} (m : M E S A) (f : M E S B) : M E S A :=
  fun s => let (r, s1) := m s in
           match f s1 with
           | (Ok _, s2) => (r, s2)
           | (Raise e, s2) => (Raise e, s2)
           end.

(** [if b: raise e]. *)
Definition raise_if (b : bool) (e : E) : M E S unit :=
  fun s => if b then (Raise e, s) else (Ok tt, s).

(** A pure computation that may raise. *)
Definition lift {A} (r : result E A) : M E S A := fun s => (r, s).

(** [for x in l: acc = f(acc, x)]. *)
Fixpoint for_each {A B} (l : list A) (acc : B) (f : B -> A -> M E S B) : M E S B :=
  match l with
  | [] => ret acc
  | x :: l' => bind (f acc x) (fun acc' => for_each l' acc' f)
  end.

(** Inversion of a block that ended normally. *)
Lemma bind_ok {A B} (m : M E S A) (f : A -> M E S B) s b s' :
  bind m f s = (Ok b, s') <-> exists a s1, m s = (Ok a, s1) /\ f a s1 = (Ok b, s').
Proof.
  unfold bind. destruct (m s) as [[a|e] s1]; split.
  - eauto.
  - by intros (? & ? & [= <- <-] & ?).
  - done.
  - by intros (? & ? & ? & ?).
Qed.

Lemma bind_assoc {A B C} (m : M E S A) (f : A -> M E S B) (g : B -> M E S C) s :
  bind (bind m f) g s = bind m (fun a => bind (f a) g) s.
Proof. unfold bind. by destruct (m s) as [[?|?] ?]. Qed.

(** A loop whose body only reads the state leaves it as it is. *)
Lemma for_each_state {A B} (f : B -> A -> M E S B) :
  (forall b a s, snd (f b a s) = s) -> forall l b s, snd (for_each l b f s) = s.
Proof.
  intros Hf l. induction l as [|a l IH]; intros b s; cbn; [done|]. unfold bind.
  specialize (Hf b a s). destruct (f b a s) as [[b'|e] s1]; cbn in *; subst; [apply IH|done].
Qed.

(** The loop rule: a property of the accumulator and the state kept by every
    iteration holds when the loop ends normally. *)
Lemma for_each_inv {A B} (P : B -> S -> Prop) (f : B -> A -> M E S B) :
  forall l acc s b s',
    (forall acc x s b s', x ∈ l -> P acc s -> f acc x s = (Ok b, s') -> P b s') ->
    P acc s -> for_each l acc f s = (Ok b, s') -> P b s'.
Proof.
  induction l as [|x l IH]; intros acc s b s' Hf HP Hrun; simpl in Hrun.
  - by inversion Hrun; subst.
  - apply bind_ok in Hrun as (b1 & s1 & Hx & Hl).
    eapply IH; [|eapply (Hf acc x s); eauto; left|exact Hl].
    intros ???????. eapply Hf; eauto. by right.
Qed.
End Monad.

Notation "'let!' x := m 'in' k" := (bind m (fun x => k))
  (at level 10, x name, m at level 100, k at level 200) : py_scope.
Notation "'let!' ' p := m 'in' k" := (bind m (fun x => match x with p => k end))
  (at level 10, p pattern, m at level 100, k at level 200) : py_scope.
Notation "'let?' x := m 'in' k" := (rbind m (fun x => k))
  (at level 10, x name, m at level 100, k at level 200) : py_scope.
Notation "m ??; k" := (rbind m (fun _ => k))
  (at level 199, right associativity) : py_scope.
Notation "m ;;; k" := (bind m (fun _ => k))
  (at level 199, right associativity) : py_scope.
#[global] Open Scope py_scope.

(** [[f(x) for x in l]] of a body that may raise. *)
Definition map_result {E A B} (f : A -> result E B) : list A -> result E (list B) :=
  fix go (l : list A) : result E (list B) :=
    match l with
    | [] => Ok []
    | x :: l' => let? y := f x in let? ys := go l' in Ok (y :: ys)
    end.

Lemma map_result_ok {E A B} (f : A -> result E B) l l' : map_result f l = Ok l' <-> Forall2 (fun x y => f x = Ok y) l l'.
Proof.
  revert l'. induction l as [|x l IH]; intros l'; cbn.
  - split; [intros [= <-]; constructor|by inversion 1].
  - rewrite rbind_ok. split.
    + intros (y & Hy & (ys & Hys & [= <-])%rbind_ok). constructor; [done|by apply IH].
    + inversion 1 as [|? y ? ys Hy Hys]; subst. exists y. split; [done|]. apply IH in Hys as ->. done.
Qed.

Lemma map_result_cons {E A B} (f : A -> result E B) x l :
  map_result f (x :: l) = (let? y := f x in let? ys := map_result f l in Ok (y :: ys)).
Proof. done. Qed.

(** A loop and the loop over its results, when each step is undone. *)
Lemma map_result_round {E A B} (f : A -> result E B) (g : B -> result E A) l :
  Forall (fun x => exists y, f x = Ok y /\ g y = Ok x) l ->
  exists ys, map_result f l = Ok ys /\ map_result g ys = Ok l.
Proof.
  induction 1 as [|x l (y & Hf & Hg) _ (ys & Hfs & Hgs)]; [by exists []|]. exists (y :: ys).
  by rewrite !map_result_cons, Hf, Hg, Hfs, Hgs.
Qed.

(** ** Control exceptions and transactions *)

(** Code that may raise one of its own control exceptions [R] beside the others. *)
Definition embed {R S A} (m : M exn S A) : M (exn + R) S A :=
  fun s => let (r, s') := m s in
    (match r with Ok a => Ok a | Raise e => Raise (inl e) end, s').

(** [try: m except <control exception> as c: h(c)]. *)
Definition catch {R S A} (m : M (exn + R) S A) (h : R -> M exn S A) : M exn S A :=
  fun s => let (r, s') := m s in
    match r with
    | Ok a => (Ok a, s')
    | Raise (inl e) => (Raise e, s')
    | Raise (inr c) => h c s'
    end.

(** [with boundary.atomic(): ...], the consumer's transaction. *)
Class Atomic (W : Type) := atomic : forall {E A}, M E W A -> M E W A.

(** The contract of a transaction: a body that ends normally is committed, a body that
    raises is rolled back before the exception continues. *)
Class AtomicLaws (W : Type) `{!Atomic W} : Prop :=
  atomic_runs : forall E A (m : M E W A) w,
    atomic m w = match m w with
                 | (Ok a, w') => (Ok a, w')
                 | (Raise e, _) => (Raise e, w)
                 end.

(** The transaction that snapshots the whole state. *)
Definition snapshot_atomic {W} : Atomic W := fun E A m w =>
  match m w with
  | (Ok a, w') => (Ok a, w')
  | (Raise e, _) => (Raise e, w)
  end.

Lemma snapshot_atomic_laws {W} : @AtomicLaws W snapshot_atomic.
Proof. intros E A m w. done. Qed.

(** ** Components of a larger state *)

(** A component [S] of a larger state [W]. *)
Record lens (W S : Type) := Lens { view : W -> S; update : S -> W -> W }.
Arguments Lens {W S}.
Arguments view {W S}.
Arguments update {W S}.

Class LensLaws {W S} (l : lens W S) := {
  view_update : forall s w, view l (update l s w) = s;
  update_view : forall w, update l (view l w) w = w;
  update_update : forall s s' w, update l s (update l s' w) = update l s w
}.

(** Run an operation of the component inside the larger state. *)
Definition zoom {E W S A} (l : lens W S) (m : M E S A) : M E W A :=
  fun w => let (r, s) := m (view l w) in (r, update l s w).

(** An operation that leaves the component as it is. *)
Definition keeps {E W S A} (l : lens W S) (m : M E W A) : Prop :=
  forall w, view l (snd (m w)) = view l w.

Definition id_lens {S} : lens S S := Lens (fun s => s) (fun s _ => s).
Definition fst_lens {A B} : lens (A * B) A := Lens fst (fun a w => (a, snd w)).
Definition snd_lens {A B} : lens (A * B) B := Lens snd (fun b w => (fst w, b)).

#[export] Instance id_lens_laws {S} : LensLaws (@id_lens S).
Proof. by split. Qed.
#[export] Instance fst_lens_laws {A B} : LensLaws (@fst_lens A B).
Proof. split; by intros; destruct_and?; repeat (match goal with w : A * B |- _ => destruct w end). Qed.
#[export] Instance snd_lens_laws {A B} : LensLaws (@snd_lens A B).
Proof. split; by intros; destruct_and?; repeat (match goal with w : A * B |- _ => destruct w end). Qed.

(** * Comparison keys and [sorted] *)

(** A three-way comparison that is a total order: Python's ordering of the values
    the program sorts by (integers, instants, strings, tuples). *)
Class TotalCompare {A} (cmp : A -> A -> comparison) := {
  cmp_eq : forall x y, cmp x y = Eq <-> x = y;
  cmp_sym : forall x y, cmp y x = CompOpp (cmp x y);
  cmp_trans : forall x y z, cmp x y = Lt -> cmp y z = Lt -> cmp x z = Lt
}.

#[export] Instance Z_total_compare : TotalCompare Z.compare.
Proof.
  split.
  - apply Z.compare_eq_iff.
  - apply Z.compare_antisym.
  - intros x y z. rewrite !Z.compare_lt_iff. lia.
Qed.

#[export] Instance N_total_compare : TotalCompare N.compare.
Proof.
  split.
  - apply N.compare_eq_iff.
  - apply N.compare_antisym.
  - intros x y z. rewrite !N.compare_lt_iff. lia.
Qed.

Definition pair_compare {A B} (ca : A -> A -> comparison) (cb : B -> B -> comparison)
    (x y : A * B) : comparison :=
  match ca (fst x) (fst y) with Eq => cb (snd x) (snd y) | c => c end.

Fixpoint list_compare {A} (c : A -> A -> comparison) (x y : list A) : comparison :=
  match x, y with
  | [], [] => Eq
  | [], _ => Lt
  | _, [] => Gt
  | a :: x', b :: y' => match c a b with Eq => list_compare c x' y' | r => r end
  end.

Definition str_compare (a b : pystr) : comparison :=
  list_compare N.compare (codepoints a) (codepoints b).

Lemma cmp_refl {A} (cmp : A -> A -> comparison) `{!TotalCompare cmp} x : cmp x x = Eq.
Proof. by apply cmp_eq. Qed.

#[export] Instance pair_total_compare {A B} (ca : A -> A -> comparison)
    (cb : B -> B -> comparison) `{!TotalCompare ca, !TotalCompare cb} :
  TotalCompare (pair_compare ca cb).
Proof.
  unfold pair_compare; split.
  - intros [a b] [a' b']; cbn. destruct (ca a a') eqn:E.
    + apply cmp_eq in E as ->. rewrite cmp_eq. split; congruence.
    + split; [done|]. intros [= -> ->]. by rewrite cmp_refl in E.
    + split; [done|]. intros [= -> ->]. by rewrite cmp_refl in E.
  - intros [a b] [a' b']; cbn. rewrite (cmp_sym a a').
    destruct (ca a a') eqn:E; cbn; [apply cmp_sym|done..].
  - intros [a b] [a' b'] [a'' b'']; cbn.
    destruct (ca a a') eqn:E1; [apply cmp_eq in E1 as -> | |done];
      (destruct (ca a' a'') eqn:E2; [apply cmp_eq in E2 as -> | |done]);
      rewrite ?E1, ?E2, ?cmp_refl by done; try done.
    + apply cmp_trans.
    + by rewrite (cmp_trans _ _ _ E1 E2).
Qed.

#[export] Instance list_total_compare {A} (c : A -> A -> comparison) `{!TotalCompare c} :
  TotalCompare (list_compare c).
Proof.
  split.
  - induction x as [|a x IH]; intros [|b y]; cbn; try done.
    destruct (c a b) eqn:E.
    + apply cmp_eq in E as ->. rewrite IH. split; congruence.
    + split; [done|]. intros [= -> ->]. by rewrite cmp_refl in E.
    + split; [done|]. intros [= -> ->]. by rewrite cmp_refl in E.
  - induction x as [|a x IH]; intros [|b y]; cbn; try done.
    rewrite (cmp_sym a b). destruct (c a b); cbn; auto.
  - induction x as [|a x IH]; intros [|b y] [|d z]; cbn; try done.
    destruct (c a b) eqn:E1; [apply cmp_eq in E1 as -> | |done];
      (destruct (c b d) eqn:E2; [apply cmp_eq in E2 as -> | |done]);
      rewrite ?E1, ?E2, ?cmp_refl by done; try done.
    + apply IH.
    + by rewrite (cmp_trans _ _ _ E1 E2).
Qed.

#[export] Instance str_total_compare : TotalCompare str_compare.
Proof.
  unfold str_compare; split.
  - intros [x] [y]. rewrite cmp_eq. cbn. split; congruence.
  - intros. apply cmp_sym.
  - intros x y z. apply cmp_trans.
Qed.

Section Sorted.
Context {A K : Type} (cmp : K -> K -> comparison) (key : A -> K).

Definition key_leb (x y : A) : bool :=
  match cmp (key x) (key y) with Gt => false | _ => true end.

(** Insertion before the first strictly greater element: equal keys keep their order. *)
Fixpoint sorted_insert (x : A) (l : list A) : list A :=
  match l with
  | [] => [x]
  | y :: l' => if key_leb x y then x :: l else y :: sorted_insert x l'
  end.

(** [sorted(l, key=key)]: the stable ascending sort. *)
Fixpoint sorted_by (l : list A) : list A :=
  match l with
  | [] => []
  | x :: l' => sorted_insert x (sorted_by l')
  end.

Lemma sorted_insert_perm x l : sorted_insert x l ≡ₚ x :: l.
Proof.
  induction l as [|y l IH]; cbn; [done|].
  destruct (key_leb x y); [done|]. rewrite IH. constructor.
Qed.

Lemma sorted_by_perm l : sorted_by l ≡ₚ l.
Proof. induction l as [|x l IH]; cbn; [done|]. by rewrite sorted_insert_perm, IH. Qed.

Lemma elem_of_sorted_by x l : x ∈ sorted_by l <-> x ∈ l.
Proof. by rewrite sorted_by_perm. Qed.

Context `{!TotalCompare cmp}.

Lemma key_leb_total x y : key_leb x y = false -> key_leb y x = true.
Proof.
  unfold key_leb. rewrite (cmp_sym (key x) (key y)).
  by destruct (cmp (key x) (key y)).
Qed.

Lemma key_leb_trans x y z : key_leb x y = true -> key_leb y z = true -> key_leb x z = true.
Proof.
  unfold key_leb.
  destruct (cmp (key x) (key y)) eqn:E1; try done;
    destruct (cmp (key y) (key z)) eqn:E2; try done; intros _ _.
  - apply cmp_eq in E1 as ->. by rewrite E2.
  - apply cmp_eq in E1 as ->. by rewrite E2.
  - apply cmp_eq in E2. by rewrite <- E2, E1.
  - by rewrite (cmp_trans _ _ _ E1 E2).
Qed.

Lemma sorted_insert_sorted x l :
  StronglySorted (fun a b => key_leb a b = true) l ->
  StronglySorted (fun a b => key_leb a b = true) (sorted_insert x l).
Proof.
  induction 1 as [|y l Hs IH Hy]; cbn; [by repeat constructor|].
  destruct (key_leb x y) eqn:E.
  - constructor; [by constructor|]. constructor; [done|].
    eapply Forall_impl; [exact Hy|]. intros z Hz. by eapply key_leb_trans.
  - constructor; [done|]. rewrite sorted_insert_perm.
    constructor; [by apply key_leb_total|done].
Qed.

(** The output of [sorted] is in order. *)
Lemma sorted_by_sorted l : StronglySorted (fun a b => key_leb a b = true) (sorted_by l).
Proof. induction l; cbn; [constructor|]. by apply sorted_insert_sorted. Qed.

(** Sorting leaves a sorted list as it is. *)
Lemma sorted_by_id l : StronglySorted (fun a b => key_leb a b = true) l -> sorted_by l = l.
Proof.
  induction 1 as [|x l _ IH Hx]; cbn; [done|]. rewrite IH.
  destruct Hx as [|y l Hxy _]; cbn; [done|]. by rewrite Hxy.
Qed.
End Sorted.

(** Sorting commutes with a map that keeps the keys. *)
Lemma sorted_by_map {A B K} (cmp : K -> K -> comparison) (key : A -> K) (key' : B -> K) (f : A -> B) l :
  (forall x, key' (f x) = key x) -> sorted_by cmp key' (map f l) = map f (sorted_by cmp key l).
Proof.
  intros Hk. induction l as [|x l IH]; cbn; [done|]. rewrite IH. generalize (sorted_by cmp key l). clear IH.
  induction l0 as [|y l0 IH]; cbn; [done|]. unfold key_leb. rewrite !Hk. destruct (cmp (key x) (key y)); cbn; by rewrite ?IH.
Qed.

(** * Dictionaries

    A [dict] or [OrderedDict]: its items in insertion order. Assigning to a present
    key keeps its place, a new key goes to the end. *)

Abbreviation dict K V := (list (K * V)).

Section Dict.
Context {K V : Type} `{EqDecision K}.
Implicit Types (d : dict K V) (k : K) (v : V).

(** [d.get(k)]. *)
Fixpoint d_get k d : option V :=
  match d with
  | [] => None
  | (k', v) :: d' => if decide (k' = k) then Some v else d_get k d'
  end.

(** [k in d]. *)
Definition d_mem k d : bool := bool_decide (is_Some (d_get k d)).

(** [d[k] = v]. *)
Fixpoint d_set k v d : dict K V :=
  match d with
  | [] => [(k, v)]
  | (k', v') :: d' => if decide (k' = k) then (k, v) :: d' else (k', v') :: d_set k v d'
  end.

(** [d.pop(k, None)]. *)
Fixpoint d_pop k d : dict K V :=
  match d with
  | [] => []
  | (k', v') :: d' => if decide (k' = k) then d' else (k', v') :: d_pop k d'
  end.

(** [d.move_to_end(k)] of a present key. *)
Definition d_move_to_end k d : dict K V :=
  match d_get k d with
  | Some v => d_pop k d ++ [(k, v)]
  | None => d
  end.

(** [len(d)]. *)
Definition d_len d : Z := Z.of_nat (length d).

(** [for k in ks: d.pop(k)]. *)
Definition d_pop_all (ks : list K) d : dict K V := fold_left (fun d k => d_pop k d) ks d.

Definition d_wf d : Prop := NoDup d.*1.

#[local] Arguments d_mem : simpl never.

Lemma d_mem_true k d : d_mem k d = true <-> is_Some (d_get k d).
Proof. apply bool_decide_eq_true. Qed.

Lemma d_mem_false k d : d_mem k d = false <-> d_get k d = None.
Proof. unfold d_mem. rewrite bool_decide_eq_false. by rewrite eq_None_not_Some. Qed.

Lemma d_get_set k k' v d : d_get k' (d_set k v d) = if decide (k = k') then Some v else d_get k' d.
Proof.
  induction d as [|[k0 v0] d IH]; cbn; [done|].
  by repeat (case_decide; cbn); subst.
Qed.

Lemma d_get_set_eq k v d : d_get k (d_set k v d) = Some v.
Proof. rewrite d_get_set. by case_decide. Qed.

Lemma d_get_set_ne k k' v d : k <> k' -> d_get k' (d_set k v d) = d_get k' d.
Proof. intros. rewrite d_get_set. by case_decide. Qed.

Lemma d_set_set k v v' d : d_set k v' (d_set k v d) = d_set k v' d.
Proof.
  induction d as [|[i x] d IH]; cbn; [by rewrite decide_True|].
  case_decide; cbn; [by rewrite decide_True|]. rewrite decide_False by done. by rewrite IH.
Qed.

Lemma d_get_key k d : is_Some (d_get k d) <-> k ∈ d.*1.
Proof.
  induction d as [|[k0 v0] d IH]; cbn.
  - split; [by intros [? ?]|by rewrite elem_of_nil].
  - rewrite elem_of_cons. case_decide; [subst; split; eauto|].
    rewrite IH. split; [auto|]. by intros [->|?].
Qed.

Lemma d_get_None k d : d_get k d = None <-> k ∉ d.*1.
Proof. by rewrite <- d_get_key, eq_None_not_Some. Qed.

Lemma d_get_elem k v d : d_get k d = Some v -> (k, v) ∈ d.
Proof.
  induction d as [|[k0 v0] d IH]; cbn; [done|].
  case_decide; [intros [= ->]; subst; left|intros; right; auto].
Qed.

Lemma d_elem_get k v d : d_wf d -> (k, v) ∈ d -> d_get k d = Some v.
Proof.
  unfold d_wf. induction d as [|[k0 v0] d IH]; cbn; [by rewrite elem_of_nil|].
  rewrite NoDup_cons, elem_of_cons. intros [Hk Hd] [[= <- <-]|Hin].
  - by rewrite decide_True.
  - rewrite decide_False; [auto|]. intros <-. apply Hk.
    apply list_elem_of_fmap. by exists (k0, v).
Qed.

Lemma d_get_pop k k' d : d_wf d ->
  d_get k' (d_pop k d) = if decide (k = k') then None else d_get k' d.
Proof.
  unfold d_wf. induction d as [|[k0 v0] d IH]; cbn; [by case_decide|].
  rewrite NoDup_cons. intros [Hk Hd].
  destruct (decide (k0 = k)) as [->|].
  - case_decide; subst; [by apply d_get_None|done].
  - cbn. rewrite IH by done. repeat case_decide; congruence.
Qed.

Lemma d_get_pop_ne k k' d : k <> k' -> d_get k' (d_pop k d) = d_get k' d.
Proof.
  intros. induction d as [|[k0 v0] d IH]; cbn; [done|].
  by repeat (case_decide; cbn); subst.
Qed.

Lemma d_set_keys k v d : (d_set k v d).*1 = if d_mem k d then d.*1 else d.*1 ++ [k].
Proof.
  induction d as [|[k0 v0] d IH]; cbn.
  - by rewrite (proj2 (d_mem_false _ _)).
  - case_decide; subst; cbn.
    + rewrite (proj2 (d_mem_true _ _)); [done|]. cbn. rewrite decide_True; eauto.
    + rewrite IH. replace (d_mem k ((k0, v0) :: d)) with (d_mem k d); [by case_match|].
      unfold d_mem. cbn. by rewrite decide_False.
Qed.

Lemma d_set_wf k v d : d_wf d -> d_wf (d_set k v d).
Proof.
  unfold d_wf. rewrite d_set_keys. case_match eqn:E; [done|].
  intros Hd. apply NoDup_app. split; [done|]. split; [|apply NoDup_singleton].
  intros x Hx ->%list_elem_of_singleton. apply d_mem_false, d_get_None in E. done.
Qed.

Lemma d_set_fresh k v d : k ∉ d.*1 -> d_set k v d = d ++ [(k, v)].
Proof.
  induction d as [|[k' v'] d IH]; [done|]. cbn. rewrite not_elem_of_cons. intros [Hk Hd].
  rewrite decide_False by done. by rewrite IH.
Qed.

Lemma d_set_forall (P : K * V -> Prop) k v d : P (k, v) -> Forall P d -> Forall P (d_set k v d).
Proof.
  intros Hk. induction 1 as [|[k' v'] d Hx Hd IH]; cbn; [by repeat constructor|].
  case_decide; by constructor.
Qed.

Lemma d_pop_sub k x d : x ∈ (d_pop k d).*1 -> x ∈ d.*1.
Proof.
  induction d as [|[k0 v0] d IH]; cbn; [done|]. case_decide; cbn; rewrite ?elem_of_cons; tauto.
Qed.

Lemma d_pop_wf k d : d_wf d -> d_wf (d_pop k d).
Proof.
  unfold d_wf. induction d as [|[k0 v0] d IH]; cbn; [done|]. rewrite NoDup_cons.
  intros [Hk Hd]. case_decide; cbn; [done|]. constructor; [|auto].
  intros Hx%d_pop_sub. done.
Qed.

Lemma d_set_length k v d :
  length (d_set k v d) = (length d + if d_mem k d then 0 else 1)%nat.
Proof.
  rewrite <- (length_fmap fst), d_set_keys. case_match; rewrite ?length_app, length_fmap; cbn; lia.
Qed.

Lemma d_pop_length k d :
  length (d_pop k d) = (length d - if d_mem k d then 1 else 0)%nat.
Proof.
  induction d as [|[k0 v0] d IH]; [by destruct (d_mem k [])|]. cbn [d_pop].
  unfold d_mem at 1. cbn [d_get]. case_decide; subst; cbn [length].
  - rewrite bool_decide_true by eauto. lia.
  - fold (d_mem k d). rewrite IH. destruct (d_mem k d) eqn:E; [|lia].
    destruct d; [|cbn; lia]. by apply d_mem_true in E as [? ?].
Qed.

Lemma d_pop_fresh k d : d_get k d = None -> d_pop k d = d.
Proof.
  induction d as [|[k0 v0] d IH]; cbn; [done|]. case_decide; [done|]. by intros ->%IH.
Qed.

Lemma d_get_app k d1 d2 :
  d_get k (d1 ++ d2) = match d_get k d1 with Some v => Some v | None => d_get k d2 end.
Proof. induction d1 as [|[k0 v0] d IH]; cbn; [done|]. by case_decide. Qed.

Lemma d_move_to_end_get k k' d : d_wf d -> d_get k' (d_move_to_end k d) = d_get k' d.
Proof.
  intros Hd. unfold d_move_to_end. destruct (d_get k d) as [v|] eqn:E; [|done].
  rewrite d_get_app, d_get_pop by done. cbn.
  destruct (decide (k = k')) as [<-|]; [by rewrite E|by case_match].
Qed.

Lemma d_move_to_end_wf k d : d_wf d -> d_wf (d_move_to_end k d).
Proof.
  intros Hd. unfold d_move_to_end. destruct (d_get k d) as [v|] eqn:E; [|done].
  unfold d_wf. rewrite fmap_app. cbn. apply NoDup_app.
  split; [by apply d_pop_wf|]. split; [|apply NoDup_singleton].
  intros x Hx ->%list_elem_of_singleton. apply d_get_key in Hx as [? Hx].
  rewrite d_get_pop in Hx by done. by rewrite decide_True in Hx.
Qed.

Lemma d_move_to_end_length k d : length (d_move_to_end k d) = length d.
Proof.
  unfold d_move_to_end. destruct (d_get k d) as [v|] eqn:E; [|done].
  rewrite length_app, d_pop_length. cbn.
  rewrite (proj2 (d_mem_true _ _)) by eauto. destruct d; [done|cbn; lia].
Qed.

Lemma d_pop_all_wf ks d : d_wf d -> d_wf (d_pop_all ks d).
Proof. revert d. induction ks; cbn; auto using d_pop_wf. Qed.

Lemma d_pop_all_get ks k d : d_wf d ->
  d_get k (d_pop_all ks d) = if decide (k ∈ ks) then None else d_get k d.
Proof.
  revert d. induction ks as [|k0 ks IH]; intros d Hd; cbn.
  - rewrite decide_False; [done|]. apply not_elem_of_nil.
  - fold (d_pop_all ks (d_pop k0 d)). rewrite IH by by apply d_pop_wf.
    rewrite d_get_pop by done.
    destruct (decide (k ∈ ks)), (decide (k0 = k)), (decide (k ∈ k0 :: ks)) as [Hin|Hin];
      rewrite elem_of_cons in Hin; try done; try (destruct Hin; congruence);
      contradict Hin; auto.
Qed.

Lemma d_pop_all_length ks d : (length (d_pop_all ks d) <= length d)%nat.
Proof.
  revert d. induction ks as [|k0 ks IH]; intros d; cbn; [done|].
  etrans; [apply IH|]. rewrite d_pop_length. lia.
Qed.

(** Storing a sequence of entries with distinct keys. *)
Lemma d_set_all {A} (key : A -> K) (val : A -> V) l : forall d,
  let out := fold_left (fun d a => d_set (key a) (val a) d) l d in
  (d_wf d -> d_wf out) /\
  (forall k, k ∉ key <$> l -> d_get k out = d_get k d) /\
  (NoDup (key <$> l) -> forall a, a ∈ l -> d_get (key a) out = Some (val a)).
Proof.
  induction l as [|a l IH]; intros d out; unfold out; cbn [fold_left].
  { split_and!; [done|done|]. intros _ a Ha. by apply not_elem_of_nil in Ha. }
  destruct (IH (d_set (key a) (val a) d)) as (Hwf & Hne & Heq). split_and!.
  - intros Hd. by apply Hwf, d_set_wf.
  - intros k Hk. cbn in Hk. apply not_elem_of_cons in Hk as [Hk Hk']. rewrite Hne by done.
    by rewrite d_get_set_ne.
  - cbn. intros Hnd a' Ha'. apply NoDup_cons in Hnd as [Ha Hnd]. apply elem_of_cons in Ha' as [->|Ha'].
    + rewrite Hne by done. apply d_get_set_eq.
    + by apply Heq.
Qed.

(** The finite map a dictionary denotes. *)
Lemma d_get_map `{!Countable K} k d : (list_to_map d : gmap K V) !! k = d_get k d.
Proof.
  induction d as [|[k0 v0] d IH]; cbn; [apply lookup_empty|].
  rewrite lookup_insert, IH. by repeat case_decide.
Qed.
End Dict.

Create HintDb pydict.
#[export] Hint Resolve d_set_wf d_pop_wf d_move_to_end_wf d_pop_all_wf : pydict.
#[export] Hint Extern 1 (d_wf []) => constructor : pydict.

(** * Time *)

(** A [datetime]: the wall clock in microseconds since 0001-01-01T00:00, and the
    offset [utcoffset()] in microseconds, [None] for a naive value. *)
Record datetime := DateTime { dt_wall : Z; dt_offset : option Z }.

#[export] Instance datetime_eq_dec : EqDecision datetime.
Proof. solve_decision. Defined.

(** A [timedelta], in microseconds. *)
Abbreviation timedelta := Z.

Definition seconds (n : Z) : timedelta := n * 1000000.
Definition minutes (n : Z) : timedelta := seconds (60 * n).
Definition hours (n : Z) : timedelta := minutes (60 * n).

(** [datetime.max] is 9999-12-31T23:59:59.999999. *)
Definition dt_max : Z := 315537897600000000 - 1.

(** The instant of an aware datetime, by which aware datetimes are ordered. The
    program only orders datetimes that passed a UTC check. *)
Definition dt_instant (d : datetime) : Z := dt_wall d - default 0 (dt_offset d).

Definition dt_compare (a b : datetime) : comparison := dt_instant a ?= dt_instant b.
Definition dt_leb (a b : datetime) : bool := dt_instant a <=? dt_instant b.
Definition dt_ltb (a b : datetime) : bool := dt_instant a <? dt_instant b.

(** [d + t]: outside the calendar it is an [OverflowError]. *)
Definition dt_add (d : datetime) (t : timedelta) : result exn datetime :=
  let w := dt_wall d + t in
  if (0 <=? w) && (w <=? dt_max)
  then Ok (DateTime w (dt_offset d))
  else Raise (OverflowError "date value out of range").

(** [d.tzinfo is not None and d.utcoffset() == timedelta(0)]. *)
Definition is_utc (d : datetime) : bool := bool_decide (dt_offset d = Some 0).

(** The UTC instant with the given wall clock. *)
Definition utc (w : Z) : datetime := DateTime w (Some 0).

Declare Scope dt_scope.
Infix "<=?" := dt_leb : dt_scope.
Infix "<?" := dt_ltb : dt_scope.
Delimit Scope dt_scope with dt.

Lemma is_utc_eq d : is_utc d = true -> d = utc (dt_wall d).
Proof. unfold is_utc. intros H%bool_decide_eq_true. destruct d; cbn in *. by subst. Qed.

Lemma dt_instant_utc w : dt_instant (utc w) = w.
Proof. unfold dt_instant. cbn. lia. Qed.

Lemma dt_add_ok d t d' : dt_add d t = Ok d' ->
  dt_instant d' = dt_instant d + t /\ dt_offset d' = dt_offset d.
Proof.
  unfold dt_add, dt_instant. case_match; [|done]. intros [= <-]. cbn. split; [lia|done].
Qed.

Lemma dt_add_utc w t : 0 <= w + t <= dt_max ->
  dt_add (utc w) t = Ok (utc (w + t)).
Proof.
  unfold dt_add. cbn -[dt_max]. intros.
  rewrite (proj2 (Z.leb_le 0 (w + t))), (proj2 (Z.leb_le (w + t) dt_max)) by lia. done.
Qed.

Lemma dt_leb_le a b : dt_leb a b = true <-> dt_instant a <= dt_instant b.
Proof. apply Z.leb_le. Qed.
Lemma dt_leb_gt a b : dt_leb a b = false <-> dt_instant b < dt_instant a.
Proof. apply Z.leb_gt. Qed.
Lemma dt_ltb_lt a b : dt_ltb a b = true <-> dt_instant a < dt_instant b.
Proof. apply Z.ltb_lt. Qed.
Lemma dt_ltb_ge a b : dt_ltb a b = false <-> dt_instant b <= dt_instant a.
Proof. apply Z.ltb_ge. Qed.

(** Turn the boolean tests on instants and integers of the context into facts for [lia]. *)
Ltac time_facts :=
  repeat match goal with
  | H : dt_leb _ _ = true |- _ => apply dt_leb_le in H
  | H : dt_leb _ _ = false |- _ => apply dt_leb_gt in H
  | H : dt_ltb _ _ = true |- _ => apply dt_ltb_lt in H
  | H : dt_ltb _ _ = false |- _ => apply dt_ltb_ge in H
  | H : dt_add _ _ = Ok _ |- _ => apply dt_add_ok in H as [? ?]
  | H : (_ <=? _)%Z = true |- _ => apply Z.leb_le in H
  | H : (_ <=? _)%Z = false |- _ => apply Z.leb_gt in H
  | H : (_ <? _)%Z = true |- _ => apply Z.ltb_lt in H
  | H : (_ <? _)%Z = false |- _ => apply Z.ltb_ge in H
  | H : (_ =? _)%Z = true |- _ => apply Z.eqb_eq in H
  | H : (_ =? _)%Z = false |- _ => apply Z.eqb_neq in H
  | H : bool_decide _ = true |- _ => apply bool_decide_eq_true in H
  | H : bool_decide _ = false |- _ => apply bool_decide_eq_false in H
  | H : _ || _ = true |- _ => apply orb_true_iff in H
  | H : _ || _ = false |- _ => apply orb_false_iff in H as [? ?]
  | H : _ && _ = true |- _ => apply andb_true_iff in H as [? ?]
  | H : _ && _ = false |- _ => apply andb_false_iff in H
  | H : negb _ = true |- _ => apply negb_true_iff in H
  | H : negb _ = false |- _ => apply negb_false_iff in H
  | H : d_mem _ _ = true |- _ => apply d_mem_true in H
  | H : d_mem _ _ = false |- _ => apply d_mem_false in H
  end.

(** * Shared guards and random identifiers *)

(** The modules' [_utc] checks: [raise ValueError(message)] unless aware UTC. *)
Definition check_utc {S} (value : datetime) (message : pystr) : M exn S unit :=
  raise_if (negb (is_utc value)) (ValueError message).

(** [if value <= timedelta(0): raise ValueError(message)]. *)
Definition check_positive {S} (value : timedelta) (message : pystr) : M exn S unit :=
  raise_if (value <=? 0) (ValueError message).

(** [uuid.uuid4().hex], the n-th draw a store makes. *)
Class Uuid4 := uuid4_hex : nat -> pystr.

(** What the stores rely on: draws do not collide and are not empty. *)
Class Uuid4Laws `{Uuid4} : Prop := {
  uuid4_inj : forall m n, uuid4_hex m = uuid4_hex n -> m = n;
  uuid4_nonempty : forall n, str_empty (uuid4_hex n) = false
}.

(** A concrete source of distinct draws, for evaluation. *)
Definition unary_uuid : Uuid4 := fun n => PyStr (replicate (S n) 97%N).

Lemma unary_uuid_laws : @Uuid4Laws unary_uuid.
Proof.
  split; [|done]. unfold uuid4_hex, unary_uuid. intros m n [= H].
  apply (f_equal length) in H. rewrite !length_replicate in H. lia.
Qed.

(** A clock the application hands to a component: [clock.now()]. *)
Class Clock (W : Type) := clock_now : M exn W datetime.

#[global] Arguments is_utc : simpl never.
#[global] Arguments dt_leb : simpl never.
#[global] Arguments dt_ltb : simpl never.
#[global] Arguments dt_add : simpl never.
#[global] Arguments dt_instant : simpl never.
#[global] Arguments str_empty : simpl never.
#[global] Arguments uuid4_hex : simpl never.
#[global] Arguments d_mem : simpl never.
#[global] Arguments d_len : simpl never.
#[global] Arguments Z.leb : simpl nomatch.

(** * Tactics for symbolic execution *)

Ltac monad_unfold :=
  unfold check_utc, check_positive in *;
  unfold bind, ret, raise, get, put, modify, gets, try_except, raise_if, lift in *.

(** Split every branch of an equation [H] between a run and its outcome, until only the
    facts of each path are left. *)
Ltac run H :=
  unfold check_utc, check_positive in H;
  unfold bind, ret, raise, get, put, modify, gets, try_except, raise_if, lift in H;
  repeat (try cbn in H;
    match type of H with
    | context [match ?x with _ => _ end] =>
        lazymatch x with
        | context [match _ with _ => _ end] => fail
        | _ => destruct x eqn:?; try discriminate H
        end
    end);
  simplify_eq/=.

(** Execute the guards of a goal with the facts of the context. *)
Ltac exec_guards :=
  monad_unfold;
  repeat (cbn -[dt_max Z.leb Z.ltb];
    match goal with
    | H : ?x = _ |- context [match ?x with _ => _ end] => rewrite H
    | H : ?x = true |- context [?x] => rewrite H
    | H : ?x = false |- context [?x] => rewrite H
    end).

Lemma bind_run {E S A B} (m : M E S A) (f : A -> M E S B) s a s1 :
  m s = (Ok a, s1) -> bind m f s = f a s1.
Proof. unfold bind. by intros ->. Qed.

Lemma is_utc_utc w : is_utc (utc w) = true.
Proof. done. Qed.

(** ** Symbolic evaluation of a run at a symbolic instant

    [sym_step] resolves one test of a run: an order of instants or integers by [lia], an
    equality of identifiers by [congruence], an addition of a duration within the calendar.
    [sym] repeats it until the outcome is computed; [sym_bind] does one statement of a
    block. *)
Ltac sym_side := unfold hours, minutes, seconds, dt_max in *; rewrite ?dt_instant_utc; lia.

Ltac sym_neq :=
  first [congruence
        |intros ?; simplify_eq;
         match goal with E : uuid4_hex _ = uuid4_hex _ |- _ => apply uuid4_inj in E; discriminate E end
        |let E := fresh in intros E; unfold utc in E; injection E; intros; sym_side].

Ltac sym_step :=
  match goal with
  | |- context [is_utc (utc _)] => rewrite is_utc_utc
  | |- context [str_empty (uuid4_hex _)] => rewrite uuid4_nonempty
  | |- context [str_empty ?s] => let b := eval vm_compute in (str_empty s) in change (str_empty s) with b
  | |- context [d_len _] => progress unfold d_len
  | |- context [key_leb _ _ _ _] => unfold key_leb, pair_compare
  | |- context [dt_add (utc _) _] => rewrite dt_add_utc by sym_side
  | |- context [dt_leb ?a ?b] =>
      first [rewrite (proj2 (dt_leb_le a b)) by sym_side | rewrite (proj2 (dt_leb_gt a b)) by sym_side]
  | |- context [dt_ltb ?a ?b] =>
      first [rewrite (proj2 (dt_ltb_lt a b)) by sym_side | rewrite (proj2 (dt_ltb_ge a b)) by sym_side]
  | |- context [(?a <=? ?b)%Z] =>
      first [rewrite (proj2 (Z.leb_le a b)) by sym_side | rewrite (proj2 (Z.leb_gt a b)) by sym_side]
  | |- context [(?a <? ?b)%Z] =>
      first [rewrite (proj2 (Z.ltb_lt a b)) by sym_side | rewrite (proj2 (Z.ltb_ge a b)) by sym_side]
  | |- context [(?a ?= ?b)%Z] =>
      first [rewrite (proj2 (Z.compare_lt_iff a b)) by sym_side
            |rewrite (proj2 (Z.compare_gt_iff a b)) by sym_side
            |rewrite (proj2 (Z.compare_eq_iff a b)) by sym_side]
  | |- context [bool_decide ?P] =>
      first [rewrite (bool_decide_true P) by (reflexivity || congruence)
            |rewrite (bool_decide_false P) by sym_neq]
  | |- context [@decide ?P _] =>
      first [rewrite (decide_True (P := P)) by (reflexivity || congruence)
            |rewrite (decide_False (P := P)) by sym_neq]
  end.

Ltac sym_cbn := cbn -[decide bool_decide Z.leb Z.ltb Z.compare Z.add dt_max seconds minutes hours utc Z.of_nat].
Ltac sym := monad_unfold; sym_cbn; repeat (sym_step; sym_cbn).

(** Run the first statement of a block, its operations unfolded by [tac]. *)
Ltac sym_bind tac := erewrite bind_run; [|solve [tac; sym; reflexivity]]; cbv beta.
