(* ===== verification/Core.v ===== *)
(** * The dependency-free core ([src/pytitect/core.py])

    Deadlines, finite limits, opaque identifiers, JSON values with their validator,
    the canonical JSON encoding and the fingerprints built on it.

    A float is an IEEE binary64 value ([spec_float]); its [repr] and the SHA-256
    digest belong to the interpreter and are parameters of the encoders. *)
From Stdlib Require Import ZArith Lia SpecFloat.
From stdpp Require Import base list gmap.
From S2P Require Import Prelude.

(** ** Deadlines *)

Definition require_aware_utc {S} (value : datetime) (message : pystr) : M exn S unit :=
  raise_if (negb (is_utc value)) (ValueError message).

Record Deadline := mkDeadline { deadline_at : datetime }.

Definition Deadline_new {S} (at_ : datetime) : M exn S Deadline :=
  require_aware_utc at_ "deadline must be timezone-aware UTC" ;;;
  ret (mkDeadline at_).

Definition Deadline_after {S} (timeout : timedelta) (now : datetime) : M exn S Deadline :=
  raise_if (timeout <? 0) (ValueError "timeout must not be negative") ;;;
  let! at_ := lift (dt_add now timeout) in
  Deadline_new at_.

Definition Deadline_remaining (d : Deadline) (now : datetime) : timedelta :=
  Z.max (dt_instant (deadline_at d) - dt_instant now) 0.

Definition Deadline_expired (d : Deadline) (now : datetime) : bool :=
  dt_leb (deadline_at d) now.

(** ** Limits and identifiers *)

Record Limits := mkLimits {
  max_body_bytes : Z;
  max_json_depth : Z;
  max_json_items : Z;
  max_metadata_items : Z;
  max_string_length : Z
}.

Definition Limits_default : Limits := mkLimits 1048576 32 10000 64 16384.

Definition Limits_check {S} (l : Limits) : M exn S Limits :=
  raise_if (max_body_bytes l <=? 0) (ValueError "max_body_bytes must be a positive finite integer") ;;;
  raise_if (max_json_depth l <=? 0) (ValueError "max_json_depth must be a positive finite integer") ;;;
  raise_if (max_json_items l <=? 0) (ValueError "max_json_items must be a positive finite integer") ;;;
  raise_if (max_metadata_items l <=? 0)
    (ValueError "max_metadata_items must be a positive finite integer") ;;;
  raise_if (max_string_length l <=? 0)
    (ValueError "max_string_length must be a positive finite integer") ;;;
  ret l.

Record OpaqueId := mkOpaqueId { opaque_value : pystr }.

#[export] Instance OpaqueId_eq_dec : EqDecision OpaqueId.
Proof. solve_decision. Defined.

Definition OpaqueId_new {S} (value : pystr) : M exn S OpaqueId :=
  raise_if (str_empty value || negb (bool_decide (value = str_strip value)))
    (ValueError "opaque identifiers must be non-empty and trimmed") ;;;
  ret (mkOpaqueId value).

(** ** JSON values *)

(** A dictionary key as the validator meets it: a string, or something else. *)
Inductive json_key :=
  | KeyStr (s : pystr)
  | KeyOther.

Inductive json :=
  | JNull
  | JBool (b : bool)
  | JInt (n : Z)
  | JFloat (f : spec_float)
  | JStr (s : pystr)
  | JList (items : list json)
  | JDict (items : list (json_key * json))
  | JOther (type_name : pystr).

#[export] Instance json_key_eq_dec : EqDecision json_key.
Proof. solve_decision. Defined.
#[export] Instance spec_float_eq_dec : EqDecision spec_float.
Proof. solve_decision. Defined.
#[export] Instance json_eq_dec : EqDecision json.
Proof.
  refine (fix go a b := let _ : EqDecision json := @go in
    match a, b with
    | JNull, JNull => left eq_refl
    | JBool x, JBool y => cast_if (decide (x = y))
    | JInt x, JInt y => cast_if (decide (x = y))
    | JFloat x, JFloat y => cast_if (decide (x = y))
    | JStr x, JStr y => cast_if (decide (x = y))
    | JList x, JList y => cast_if (decide (x = y))
    | JDict x, JDict y => cast_if (decide (x = y))
    | JOther x, JOther y => cast_if (decide (x = y))
    | _, _ => right _
    end); congruence.
Defined.

Definition isfinite (f : spec_float) : bool :=
  match f with
  | S754_zero _ | S754_finite _ _ _ => true
  | S754_infinity _ | S754_nan => false
  end.

Section Validate.
Variable selected : Limits.

(** [visit] of [validate_json]; [count] is its [nonlocal] counter. *)
Fixpoint visit (item : json) (depth count : Z) {struct item} : result exn Z :=
  if max_json_depth selected <? depth
  then Raise (ValueError "JSON nesting exceeds max_json_depth")
  else
    let count := count + 1 in
    if max_json_items selected <? count
    then Raise (ValueError "JSON item count exceeds max_json_items")
    else match item with
    | JNull | JBool _ | JInt _ => Ok count
    | JFloat f =>
        if isfinite f then Ok count else Raise (ValueError "JSON numbers must be finite")
    | JStr s =>
        if max_string_length selected <? str_len s
        then Raise (ValueError "JSON string exceeds max_string_length")
        else Ok count
    | JList items => fold_result (fun count child => visit child (depth + 1) count) items count
    | JDict items =>
        fold_result (fun count kv =>
          match fst kv with
          | KeyOther => Raise (ValueError "JSON object keys must be strings")
          | KeyStr s =>
              if max_string_length selected <? str_len s
              then Raise (ValueError "JSON key exceeds max_string_length")
              else visit (snd kv) (depth + 1) count
          end) items count
    | JOther t => Raise (ValueError (str_app "unsupported JSON value: " t))
    end.

Definition validate_json_with (value : json) : result exn unit :=
  match visit value 0 0 with
  | Ok _ => Ok tt
  | Raise e => Raise e
  end.
End Validate.

(** [validate_json(value)] with the default limits. *)
Definition validate_json {S} (value : json) : M exn S unit :=
  lift (validate_json_with Limits_default value).

(** ** Canonical encoding and fingerprints *)

(** The escapes of [json.dumps(..., ensure_ascii=False)] for one code point. *)
Definition hex_digit (n : N) : N := if (n <? 10)%N then (48 + n)%N else (87 + n)%N.

Definition json_escape (c : N) : list N :=
  if (c =? 34)%N then [92; 34]%N
  else if (c =? 92)%N then [92; 92]%N
  else if (c =? 10)%N then [92; 110]%N
  else if (c =? 13)%N then [92; 114]%N
  else if (c =? 9)%N then [92; 116]%N
  else if (c =? 12)%N then [92; 102]%N
  else if (c =? 8)%N then [92; 98]%N
  else if (c <? 32)%N then [92; 117; 48; 48; hex_digit (c / 16); hex_digit (c mod 16)]%N
  else [c].

Definition json_quote (s : pystr) : pystr :=
  PyStr ([34%N] ++ concat (json_escape <$> codepoints s) ++ [34%N]).

(** [str.encode()]: UTF-8 of one code point; a surrogate is not encodable. *)
Definition utf8_encode_cp (c : N) : option (list N) :=
  (if c <? 128 then Some [c]
   else if c <? 2048 then Some [192 + c / 64; 128 + c mod 64]
   else if (55296 <=? c) && (c <=? 57343) then None
   else if c <? 65536 then Some [224 + c / 4096; 128 + c / 64 mod 64; 128 + c mod 64]
   else Some [240 + c / 262144; 128 + c / 4096 mod 64; 128 + c / 64 mod 64; 128 + c mod 64])%N.

Definition str_encode (s : pystr) : result exn (list N) :=
  match mapM utf8_encode_cp (codepoints s) with
  | Some bs => Ok (concat bs)
  | None => Raise (OtherError "UnicodeEncodeError" "surrogates not allowed")
  end.

Section Encoding.
(** [float.__repr__] and [hashlib.sha256(payload).hexdigest()]. *)
Variable float_repr : spec_float -> pystr.
Variable sha256_hexdigest : list N -> pystr.

Definition key_text (k : json_key) : pystr :=
  match k with KeyStr s => s | KeyOther => PyStr [] end.

(** [json.dumps] with compact separators and sorted keys. *)
Fixpoint json_text (v : json) : pystr :=
  match v with
  | JNull => "null"
  | JBool true => "true"
  | JBool false => "false"
  | JInt n => str_of_Z n
  | JFloat f => float_repr f
  | JStr s => json_quote s
  | JList items =>
      str_app "[" (str_app (str_join "," (map json_text items)) "]")
  | JDict items =>
      str_app "{" (str_app
        (str_join ","
          (map snd (sorted_by str_compare fst
            (map (fun kv => (key_text (fst kv),
                             str_app (json_quote (key_text (fst kv)))
                                     (str_app ":" (json_text (snd kv))))) items)))) "}")
  | JOther t => t
  end.

(** The interpreter refuses to write an integer of more than 4300 digits. *)
Fixpoint has_long_integer (v : json) : bool :=
  match v with
  | JInt n => 4300 <? str_len (str_of_Z (Z.abs n))
  | JList items => existsb has_long_integer items
  | JDict items => existsb (fun kv => has_long_integer (snd kv)) items
  | _ => false
  end.

Definition canonical_json_bytes (value : json) : result exn (list N) :=
  match validate_json_with Limits_default value with
  | Raise e => Raise e
  | Ok _ =>
      if has_long_integer value
      then Raise (ValueError "Exceeds the limit (4300 digits) for integer string conversion")
      else str_encode (json_text value)
  end.

(** [sha256_fingerprint(value, canonicalizer=...)] of a JSON value. *)
Definition sha256_fingerprint (canonicalizer : json -> result exn (list N)) (value : json) :
    result exn pystr :=
  match canonicalizer value with
  | Raise e => Raise e
  | Ok payload => Ok (sha256_hexdigest payload)
  end.
End Encoding.

(** ** Properties *)

Section JsonInd.
Variable P : json -> Prop.
Hypothesis Hnull : P JNull.
Hypothesis Hbool : forall b, P (JBool b).
Hypothesis Hint : forall n, P (JInt n).
Hypothesis Hfloat : forall f, P (JFloat f).
Hypothesis Hstr : forall s, P (JStr s).
Hypothesis Hlist : forall l, Forall P l -> P (JList l).
Hypothesis Hdict : forall l, Forall (fun kv => P (snd kv)) l -> P (JDict l).
Hypothesis Hother : forall t, P (JOther t).

(** Induction that reaches the values nested in lists and objects. *)
Fixpoint json_nested_ind (v : json) : P v :=
  match v with
  | JNull => Hnull
  | JBool b => Hbool b
  | JInt n => Hint n
  | JFloat f => Hfloat f
  | JStr s => Hstr s
  | JList l => Hlist l
      ((fix go (l : list json) : Forall P l :=
          match l with
          | [] => Forall_nil_2 P
          | x :: l' => Forall_cons_2 P x l' (json_nested_ind x) (go l')
          end) l)
  | JDict l => Hdict l
      ((fix go (l : list (json_key * json)) : Forall (fun kv => P (snd kv)) l :=
          match l with
          | [] => Forall_nil_2 _
          | x :: l' => Forall_cons_2 _ x l' (json_nested_ind (snd x)) (go l')
          end) l)
  | JOther t => Hother t
  end.
End JsonInd.

(** The number of values in a JSON value, itself included. *)
Fixpoint json_size (v : json) : Z :=
  match v with
  | JList l => 1 + foldr (fun x n => json_size x + n) 0 l
  | JDict l => 1 + foldr (fun kv n => json_size (snd kv) + n) 0 l
  | _ => 1
  end.

(** The validator's contract: nesting within [n] levels, finite numbers, string keys,
    and no string longer than [max_str]. *)
Fixpoint json_ok (max_str n : Z) (v : json) : Prop :=
  0 <= n /\
  match v with
  | JNull | JBool _ | JInt _ => True
  | JFloat f => isfinite f = true
  | JStr s => str_len s <= max_str
  | JList l => foldr (fun x p => json_ok max_str (n - 1) x /\ p) True l
  | JDict l =>
      foldr (fun kv p =>
        match fst kv with
        | KeyStr s => str_len s <= max_str /\ json_ok max_str (n - 1) (snd kv)
        | KeyOther => False
        end /\ p) True l
  | JOther _ => False
  end.

Lemma json_size_pos v : 1 <= json_size v.
Proof.
  induction v using json_nested_ind; cbn; try lia.
  - assert (0 <= foldr (fun x n => json_size x + n) 0 l); [|lia].
    induction H; cbn; lia.
  - assert (0 <= foldr (fun kv n => json_size (snd kv) + n) 0 l); [|lia].
    induction H; cbn; lia.
Qed.

(** A loop over checked items: it ends normally when every item is acceptable and the
    running count stays within the limit. *)
Lemma fold_count {A} (f : Z -> A -> result exn Z) (good : A -> Prop) (w : A -> Z) (limit : Z)
    (l : list A) :
  Forall (fun x => 0 <= w x /\ forall c c', f c x = Ok c' <->
    good x /\ c' = c + w x /\ c' <= limit) l ->
  forall c c', c <= limit -> fold_result f l c = Ok c' <->
    foldr (fun x p => good x /\ p) True l /\
    c' = c + foldr (fun x n => w x + n) 0 l /\ c' <= limit.
Proof.
  induction 1 as [|x l [Hw Hx] Hl IH]; intros c c' Hc; cbn.
  - split; [intros [= <-]; split_and!; try done; lia|].
    intros (_ & -> & ?). f_equal. lia.
  - assert (0 <= foldr (fun x n => w x + n) 0 l).
    { clear -Hl. induction Hl as [|? ? [? _]]; cbn; lia. }
    destruct (f c x) as [c1|e] eqn:Hf.
    + apply Hx in Hf as (? & -> & ?). rewrite IH by lia.
      split; intros; destruct_and?; split_and!; auto; lia.
    + split; [done|]. intros ((? & ?) & -> & ?).
      assert (f c x = Ok (c + w x)) by (apply Hx; split_and!; auto; lia). congruence.
Qed.

Lemma visit_ok (L : Limits) v : forall depth count count',
  visit L v depth count = Ok count' <->
  json_ok (max_string_length L) (max_json_depth L - depth) v /\
  count' = count + json_size v /\ count' <= max_json_items L.
Proof.
  induction v using json_nested_ind; intros depth count count';
    match goal with |- context [json_size ?v] => pose proof (json_size_pos v) end;
    cbn [visit json_ok];
    (destruct (max_json_depth L <? depth) eqn:Hd; time_facts;
      [split; [done|]; intros ((? & _) & _); lia|]);
    (destruct (max_json_items L <? count + 1) eqn:Hc; time_facts;
      [split; [done|]; intros (_ & -> & ?); lia|]).
  1-3: cbn; split; [intros [= <-]; split_and!; done || lia|intros (_ & -> & _); done].
  - cbn. destruct (isfinite f); split; [intros [= <-]|intros (_ & -> & _)|..];
      try (split_and!; done || lia); try done. intros ((_ & ?) & _); done.
  - cbn. destruct (max_string_length L <? str_len s) eqn:Hs; time_facts;
      split; [done|intros ((_ & ?) & _); lia|intros [= <-]; split_and!; done || lia|].
    intros (_ & -> & _); done.
  - rewrite (fold_count _ (json_ok (max_string_length L) (max_json_depth L - depth - 1))
      json_size (max_json_items L)); [cbn; split; intros; destruct_and?; split_and!; auto; lia| |lia].
    eapply Forall_impl; [exact H|]. intros x Hx. cbn beta in Hx. pose proof (json_size_pos x).
    split; [lia|]. intros c c'. rewrite Hx. by rewrite Z.sub_add_distr.
  - rewrite (fold_count _ (fun kv => match fst kv with
      | KeyStr s => str_len s <= max_string_length L /\
                    json_ok (max_string_length L) (max_json_depth L - depth - 1) (snd kv)
      | KeyOther => False end)
      (fun kv => json_size (snd kv)) (max_json_items L));
      [cbn; split; intros; destruct_and?; split_and!; auto; lia| |lia].
    eapply Forall_impl; [exact H|]. intros [[s|] x] Hx; cbn in *; pose proof (json_size_pos x).
    + split; [lia|]. intros c c'. destruct (max_string_length L <? str_len s) eqn:Hs; time_facts.
      * split; [done|]. intros ((? & _) & _). lia.
      * rewrite Hx, Z.sub_add_distr. tauto.
    + split; [lia|]. intros c c'. split; [done|]. by intros ([] & _).
  - split; [done|]. by intros ((_ & []) & _).
Qed.

(** [validate_json] accepts exactly the values of bounded depth, bounded aggregate
    item count, finite numbers, string keys and bounded strings: it raises on every
    other value and on no acceptable one. *)
Theorem validate_json_accepts (L : Limits) (v : json) :
  validate_json_with L v = Ok tt <->
  json_ok (max_string_length L) (max_json_depth L) v /\ json_size v <= max_json_items L.
Proof.
  unfold validate_json_with. destruct (visit L v 0 0) as [n|e] eqn:Hv.
  - apply visit_ok in Hv. rewrite Z.sub_0_r in Hv. split; [|done]. intuition lia.
  - split; [done|]. intros [Hok Hsz].
    assert (visit L v 0 0 = Ok (json_size v)); [|congruence].
    apply visit_ok. rewrite Z.sub_0_r. split_and!; auto; lia.
Qed.

(** A deadline built from a timeout expires exactly when the timeout has elapsed. *)
Lemma Deadline_after_expiry {S} timeout now (s : S) d s' t :
  Deadline_after timeout now s = (Ok d, s') ->
  (Deadline_expired d t = true <-> dt_instant now + timeout <= dt_instant t) /\ (0 < Deadline_remaining d t <-> Deadline_expired d t = false).
Proof.
  unfold Deadline_after, Deadline_new, require_aware_utc, Deadline_expired, Deadline_remaining.
  intros H. run H. time_facts.
  rewrite dt_leb_le, dt_leb_gt. cbn. lia.
Qed.
