(* ===== verification/Canonical.v ===== *)
(** * I-JSON validation and RFC 8785 canonical encoding ([src/pytitect/security/canonical.py])

    [validate_ijson] and [canonical_json], with the recursion limit of the interpreter. The
    optional package [rfc8785] is a parameter: absent, or its encoder. *)
From Stdlib Require Import ZArith Lia SpecFloat.
From stdpp Require Import base list gmap.
From S2P Require Import Prelude Core.

Definition _MAX_SAFE_INTEGER : Z := 9007199254740991.

Definition is_surrogate (c : N) : bool := ((55296 <=? c) && (c <=? 57343))%N.

(** ** The recursion of the interpreter

    A nested value is read and visited by nested calls, which the interpreter limits:
    [scan_limit] is how many containers inside one another the scanner of [json] enters, and
    [call_limit] how many calls of Python functions inside one another it makes below
    [validate_ijson]. Both depend on the interpreter and its settings; the calls around are not
    followed, so one pair of limits stands for every place of a call. There is room for an
    object of strings, which the code reads itself. *)

Class Recursion := {
  scan_limit : nat;
  call_limit : nat;
  scan_room : (1 <= scan_limit)%nat;
  call_room : (3 <= call_limit)%nat
}.

Definition RecursionError : exn := OtherError "RecursionError" "maximum recursion depth exceeded".

(** A function that [calls] more calls may surround. *)
Definition nested_call {A} (calls : nat) (body : nat -> result exn A) : result exn A :=
  match calls with O => Raise RecursionError | S calls' => body calls' end.

(** [visit] of a string: [any] resumes a generator, which is a call. *)
Definition visit_str (calls : nat) (s : pystr) : result exn unit :=
  nested_call calls (fun _ =>
    if existsb is_surrogate (codepoints s)
    then Raise (ValueError "I-JSON strings must not contain lone surrogates")
    else Ok tt).

Fixpoint visit (item : json) (calls : nat) : result exn unit :=
  nested_call calls (fun calls =>
    match item with
    | JNull | JBool _ => Ok tt
    | JInt n =>
        if (_MAX_SAFE_INTEGER <? Z.abs n)%Z
        then Raise (ValueError "I-JSON integers must be IEEE-754 interoperable")
        else Ok tt
    | JFloat f =>
        if isfinite f then Ok tt else Raise (ValueError "I-JSON numbers must be finite")
    | JStr s => visit_str calls s
    | JList items => fold_result (fun _ child => visit child calls) items tt
    | JDict items =>
        fold_result (fun _ kv =>
          match fst kv with
          | KeyOther => Raise (ValueError "I-JSON object keys must be strings")
          | KeyStr s =>
              match nested_call calls (fun calls => visit_str calls s) with
              | Raise e => Raise e
              | Ok _ => visit (snd kv) calls
              end
          end) items tt
    | JOther t => Raise (ValueError (str_app "unsupported I-JSON value: " t))
    end).

Definition validate_ijson `{!Recursion} (value : json) : result exn unit := visit value call_limit.

(** [except (TypeError, ValueError, OverflowError) as error] around the encoder. *)
Definition canonicalization_error (e : exn) : exn :=
  match e with
  | ValueError m | OverflowError m => ValueError (str_app "value cannot be canonicalized as RFC 8785: " m)
  | OtherError c m =>
      if bool_decide (c = "TypeError"%py)
      then ValueError (str_app "value cannot be canonicalized as RFC 8785: " m)
      else e
  | _ => e
  end.

Definition canonical_json `{!Recursion} (rfc8785 : option (json -> result exn (list N))) (value : json) :
    result exn (list N) :=
  match validate_ijson value with
  | Raise e => Raise e
  | Ok _ =>
      match rfc8785 with
      | None => Raise (RuntimeError "install pytitect[canonical-json] for RFC 8785 support")
      | Some dumps =>
          match dumps value with
          | Ok payload => Ok payload
          | Raise e => Raise (canonicalization_error e)
          end
      end
  end.

(** ** What the validator accepts *)

Definition str_ok (s : pystr) : Prop := Forall (fun c => is_surrogate c = false) (codepoints s).

(** Interoperable integers, finite numbers, string keys, no lone surrogate anywhere. *)
Fixpoint ijson (v : json) : Prop :=
  match v with
  | JNull | JBool _ => True
  | JInt n => Z.abs n <= _MAX_SAFE_INTEGER
  | JFloat f => isfinite f = true
  | JStr s => str_ok s
  | JList l => foldr (fun x p => ijson x /\ p) True l
  | JDict l =>
      foldr (fun kv p =>
        match fst kv with KeyStr s => str_ok s /\ ijson (snd kv) | KeyOther => False end /\ p) True l
  | JOther _ => False
  end.

(** The calls inside one another that [visit] makes of a value. *)
Fixpoint frames (v : json) : nat :=
  match v with
  | JStr _ => 2
  | JList l => S (foldr (fun x n => frames x `max` n) 0 l)
  | JDict l => S (foldr (fun kv n => (2 `max` frames (snd kv)) `max` n) 0 l)
  | _ => 1
  end%nat.

Lemma visit_str_ok calls s : visit_str calls s = Ok tt <-> str_ok s /\ (1 <= calls)%nat.
Proof.
  unfold visit_str, str_ok, nested_call. destruct calls as [|calls]; [split; [done|lia]|]. rewrite Forall_forall.
  destruct (existsb is_surrogate (codepoints s)) eqn:E.
  - split; [done|]. apply existsb_exists in E as (c & Hc & Hs). intros [Hall _].
    apply list_elem_of_In in Hc. rewrite (Hall c Hc) in Hs. done.
  - split; [|done]. intros _. split; [|lia]. intros c Hc. destruct (is_surrogate c) eqn:Hs; [|done].
    exfalso. assert (existsb is_surrogate (codepoints s) = true); [|congruence].
    apply existsb_exists. exists c. by rewrite <- list_elem_of_In.
Qed.

(** [visit] of the members of a container. *)
Definition visit_member (calls : nat) (kv : json_key * json) : result exn unit :=
  match fst kv with
  | KeyOther => Raise (ValueError "I-JSON object keys must be strings")
  | KeyStr s =>
      match nested_call calls (fun calls => visit_str calls s) with
      | Raise e => Raise e
      | Ok _ => visit (snd kv) calls
      end
  end.

Lemma fold_unit {A} (f : A -> result exn unit) (good : A -> Prop) (size : A -> nat) n l :
  Forall (fun x => f x = Ok tt <-> good x /\ (size x <= n)%nat) l ->
  fold_result (fun _ x => f x) l tt = Ok tt <-> foldr (fun x p => good x /\ p) True l /\ (foldr (fun x m => size x `max` m) 0 l <= n)%nat.
Proof.
  induction 1 as [|x l Hx _ IH]; cbn; [intuition lia|]. destruct (f x) as [[]|e].
  - rewrite IH, Nat.max_lub_iff. tauto.
  - split; [done|]. rewrite Nat.max_lub_iff. intros [[Hg _] [Hs _]]. by destruct (proj2 Hx (conj Hg Hs)).
Qed.

(** [visit] accepts exactly the I-JSON values it has the calls for. *)
Lemma visit_accepts v calls : visit v calls = Ok tt <-> ijson v /\ (frames v <= calls)%nat.
Proof.
  revert calls. induction v using json_nested_ind; intros [|calls]; cbn [visit nested_call ijson frames]; try (split; [done|lia]); try (intuition lia).
  - destruct (_MAX_SAFE_INTEGER <? Z.abs n)%Z eqn:E; time_facts; split; try done; intuition lia.
  - destruct (isfinite f); [intuition lia|]. split; [done|by intros []].
  - rewrite visit_str_ok. intuition lia.
  - rewrite <- Nat.succ_le_mono. apply fold_unit. eapply Forall_impl; [exact H|]. auto.
  - rewrite <- Nat.succ_le_mono. apply (fold_unit (visit_member calls)
      (fun kv => match fst kv with KeyStr s => str_ok s /\ ijson (snd kv) | KeyOther => False end) (fun kv => 2 `max` frames (snd kv))%nat).
    eapply Forall_impl; [exact H|]. intros [[s|] x] Hx; unfold visit_member; cbn [fst snd] in *; [|split; [done|by intros []]].
    rewrite Nat.max_lub_iff. destruct (nested_call calls (fun calls => visit_str calls s)) as [[]|e] eqn:Hs; unfold nested_call in Hs; destruct calls as [|calls]; try done.
    + apply visit_str_ok in Hs. rewrite Hx. intuition lia.
    + split; [done|lia].
    + split; [done|]. intros [[Hok _] [Hl _]]. rewrite (proj2 (visit_str_ok calls s)) in Hs; [done|]. split; [done|lia].
Qed.

(** It raises a [ValueError], or the calls are used up. *)
Definition refused (needed calls : nat) (r : result exn unit) : Prop :=
  forall e, r = Raise e -> (exists m, e = ValueError m) \/ e = RecursionError /\ (calls < needed)%nat.

Lemma visit_str_refused calls s : refused 1 calls (visit_str calls s).
Proof. intros e. unfold visit_str, nested_call. destruct calls; [intros [= <-]; right; split; [done|lia]|]. destruct (existsb _ _); [intros [= <-]; by left; eexists|done]. Qed.

Lemma fold_refused {A} (f : A -> result exn unit) (size : A -> nat) n l :
  Forall (fun x => refused (size x) n (f x)) l -> refused (foldr (fun x m => size x `max` m) 0 l)%nat n (fold_result (fun _ x => f x) l tt).
Proof.
  induction 1 as [|x l Hx _ IH]; intros e; cbn; [done|]. destruct (f x) as [[]|e'] eqn:Hf.
  - intros [?|[-> ?]]%IH; [by left|right; split; [done|lia]].
  - intros [= <-]. destruct (Hx e' eq_refl) as [?|[-> ?]]; [by left|right; split; [done|lia]].
Qed.

Lemma visit_refused v calls : refused (frames v) calls (visit v calls).
Proof.
  revert calls. induction v using json_nested_ind; intros [|calls] e; cbn [visit nested_call frames]; try done;
    try (intros [= <-]; right; split; [done|lia]); try (intros [= <-]; left; by eexists).
  - destruct (_ <? _)%Z; [intros [= <-]; left; by eexists|done].
  - destruct (isfinite f); [done|intros [= <-]; left; by eexists].
  - intros [?|[-> ?]]%visit_str_refused; [by left|right; split; [done|lia]].
  - intros He. apply (fold_refused (fun x => visit x calls) frames calls l) in He as [?|[-> ?]]; [by left|right; split; [done|lia]|].
    eapply Forall_impl; [exact H|]. auto.
  - intros He. apply (fold_refused (visit_member calls) (fun kv => 2 `max` frames (snd kv))%nat calls l) in He as [?|[-> ?]]; [by left|right; split; [done|lia]|].
    eapply Forall_impl; [exact H|]. intros [[s|] x] Hx e'; unfold visit_member; cbn [fst snd] in *; [|intros [= <-]; left; by eexists].
    unfold nested_call. destruct calls as [|calls]; [intros [= <-]; right; split; [done|lia]|].
    destruct (visit_str calls s) as [[]|e1] eqn:Hs.
    + intros [?|[-> ?]]%Hx; [by left|right; split; [done|lia]].
    + intros [= <-]. destruct (visit_str_refused _ _ _ Hs) as [?|[-> ?]]; [by left|right; split; [done|lia]].
Qed.

Section Validated.
Context `{!Recursion}.

Lemma validate_ijson_accepts v : validate_ijson v = Ok tt <-> ijson v /\ (frames v <= call_limit)%nat.
Proof. apply visit_accepts. Qed.
End Validated.

(** An interpreter with its usual limits. *)
Definition usual_recursion : Recursion := {| scan_limit := 1500; call_limit := 990; scan_room := ltac:(lia); call_room := ltac:(lia) |}.
