(* ===== verification/Trace.v ===== *)
(** * W3C trace context ([src/pytitect/trace.py])

    Trace positions and vendor state: validation, parsing and rendering of the
    [traceparent] and [tracestate] headers. [str.casefold], a table of the interpreter, is a
    parameter of the header lookup. *)
From Stdlib Require Import ZArith Lia.
From stdpp Require Import base list gmap.
From S2P Require Import Prelude Core.

(** ** Patterns *)

Definition _MAX_TRACEPARENT_LENGTH : Z := 1024.
Definition _MAX_TRACESTATE_LENGTH : Z := 512.
Definition _MAX_TRACESTATE_MEMBERS : Z := 32.

Definition is_digit (c : N) : bool := ((48 <=? c) && (c <=? 57))%N.
Definition is_lower_hex (c : N) : bool := (is_digit c || (97 <=? c) && (c <=? 102))%N.
Definition is_lower (c : N) : bool := ((97 <=? c) && (c <=? 122))%N.
Definition is_printable (c : N) : bool := ((32 <=? c) && (c <=? 126))%N.

(** [_LOWER_HEX.fullmatch(s)]. *)
Definition _LOWER_HEX (s : pystr) : bool :=
  negb (str_empty s) && forallb is_lower_hex (codepoints s).

(** [_TRACESTATE_KEY.fullmatch(s)]. *)
Definition is_key_char (c : N) : bool :=
  (is_lower c || is_digit c || (c =? 95) || (c =? 42) || (c =? 47) || (c =? 64) || (c =? 45))%N.
Definition _TRACESTATE_KEY (s : pystr) : bool :=
  match codepoints s with
  | [] => false
  | c :: rest => (is_lower c || is_digit c) && forallb is_key_char rest && (length rest <=? 255)%nat
  end.

(** ** Values *)

Record TraceContext := mkTrace {
  trace_id : pystr;
  parent_id : pystr;
  trace_flags : Z;
  tracestate : list (pystr * pystr)
}.

Definition _hex_identifier (value : pystr) (len : Z) (name : pystr) : result exn unit :=
  reject_if (negb (str_len value =? len)%Z || negb (_LOWER_HEX value)
             || forallb (N.eqb 48) (codepoints value))
    (ValueError (str_app name (str_app " must be non-zero lowercase hexadecimal with length " (str_of_Z len)))).

Definition _tracestate_value (value : pystr) : result exn unit :=
  reject_if (str_empty value || (256 <? str_len value)%Z
             || bool_decide (last (codepoints value) = Some 32%N))
    (ValueError "tracestate contains an invalid value") ??;
  reject_if (negb (forallb is_printable (codepoints value)))
    (ValueError "tracestate values must contain printable ASCII") ??;
  reject_if (existsb (fun c => (c =? 44) || (c =? 61))%N (codepoints value))
    (ValueError "tracestate values cannot contain comma or equals").

(** [f"{key}={value}"] and the members joined by commas. *)
Definition render_member (m : pystr * pystr) : pystr := str_app m.1 (str_app "=" m.2).
Definition render_members (ms : list (pystr * pystr)) : pystr := str_join "," (render_member <$> ms).

Definition check_member (m : pystr * pystr) : result exn unit :=
  reject_if (negb (_TRACESTATE_KEY m.1)) (ValueError "tracestate contains an invalid key") ??;
  _tracestate_value m.2.

Definition _validate_tracestate (ms : list (pystr * pystr)) : result exn unit :=
  reject_if (_MAX_TRACESTATE_MEMBERS <? Z.of_nat (length ms))%Z
    (ValueError "tracestate must be a tuple with at most 32 members") ??;
  fold_result (fun _ m => check_member m) ms tt ??;
  reject_if (negb (bool_decide (NoDup ms.*1))) (ValueError "tracestate keys must be unique") ??;
  reject_if (_MAX_TRACESTATE_LENGTH <? str_len (render_members ms))%Z
    (ValueError "tracestate exceeds 512 characters").

(** [TraceContext(...)] with its checks. *)
Definition TraceContext_new (tid pid : pystr) (flags : Z) (ms : list (pystr * pystr)) : result exn TraceContext :=
  _hex_identifier tid 32 "trace_id" ??;
  _hex_identifier pid 16 "parent_id" ??;
  reject_if (negb ((0 <=? flags)%Z && (flags <=? 3)%Z))
    (ValueError "trace_flags may contain only sampled and random-trace-ID bits") ??;
  _validate_tracestate ms ??;
  Ok (mkTrace tid pid flags ms).

Definition sampled (t : TraceContext) : bool := Z.testbit (trace_flags t) 0.
Definition random_trace_id (t : TraceContext) : bool := Z.testbit (trace_flags t) 1.

(** ** Rendering *)

(** [f"{flags:02x}"] of a byte. *)
Definition hex_byte (flags : Z) : pystr :=
  PyStr [hex_digit (Z.to_N (flags / 16)); hex_digit (Z.to_N (flags mod 16))].

Definition render_traceparent (t : TraceContext) : pystr :=
  str_app "00-" (str_app (trace_id t) (str_app "-" (str_app (parent_id t) (str_app "-" (hex_byte (trace_flags t)))))).

Definition render_tracestate (t : TraceContext) : option pystr :=
  match tracestate t with [] => None | ms => Some (render_members ms) end.

Definition to_headers (t : TraceContext) : list (pystr * pystr) :=
  ("traceparent"%py, render_traceparent t) ::
  match render_tracestate t with Some s => [("tracestate"%py, s)] | None => [] end.

(** ** Parsing *)

(** [s[a:b]]. *)
Definition str_slice (a b : nat) (s : pystr) : pystr := PyStr (take (b - a) (drop a (codepoints s))).

(** [s.split(sep)] for a one-character separator; [cur] is the current part, reversed. *)
Fixpoint split_on (sep : N) (cur : list N) (l : list N) : list pystr :=
  match l with
  | [] => [PyStr (rev cur)]
  | c :: l' => if (c =? sep)%N then PyStr (rev cur) :: split_on sep [] l' else split_on sep (c :: cur) l'
  end.

(** [s.split("=", 1)] of a string that contains one. *)
Fixpoint split_first (sep : N) (l : list N) : option (list N * list N) :=
  match l with
  | [] => None
  | c :: l' => if (c =? sep)%N then Some ([], l')
               else match split_first sep l' with Some (a, b) => Some (c :: a, b) | None => None end
  end.

(** [s.strip(" \t")]. *)
Fixpoint lstrip_blank (l : list N) : list N :=
  match l with
  | c :: l' => if ((c =? 32) || (c =? 9))%N then lstrip_blank l' else l
  | [] => []
  end.
Definition strip_blank (l : list N) : list N := rev (lstrip_blank (rev (lstrip_blank l))).

(** One iteration over the raw members. *)
Definition parse_member (members : list (pystr * pystr)) (raw : pystr) : result exn (list (pystr * pystr)) :=
  match strip_blank (codepoints raw) with
  | [] => Ok members
  | member =>
      match split_first 61 member with
      | None => Raise (ValueError "tracestate members must contain equals")
      | Some (key, value) =>
          check_member (PyStr key, PyStr value) ??;
          Ok (members ++ [(PyStr key, PyStr value)])
      end
  end.

Definition parse_tracestate (value : pystr) : result exn (list (pystr * pystr)) :=
  reject_if (_MAX_TRACESTATE_LENGTH <? str_len value)%Z (ValueError "tracestate exceeds 512 characters") ??;
  let raw_members := split_on 44 [] (codepoints value) in
  reject_if (_MAX_TRACESTATE_MEMBERS <? Z.of_nat (length raw_members))%Z
    (ValueError "tracestate contains more than 32 members") ??;
  let? members := fold_result parse_member raw_members [] in
  reject_if (negb (bool_decide (NoDup members.*1))) (ValueError "tracestate keys must be unique") ??;
  Ok members.

(** [int(s, 16)] of lowercase hexadecimal digits. *)
Definition hex_value (c : N) : Z := if is_digit c then Z.of_N c - 48 else Z.of_N c - 87.
Definition parse_hex (s : pystr) : Z := fold_left (fun acc c => 16 * acc + hex_value c) (codepoints s) 0.

Definition char_at (i : nat) (s : pystr) : option N := codepoints s !! i.

Definition parse_trace_context (traceparent : pystr) (state : option pystr) : result exn TraceContext :=
  let len := str_len traceparent in
  reject_if (negb ((55 <=? len)%Z && (len <=? _MAX_TRACEPARENT_LENGTH)%Z))
    (ValueError "traceparent has an invalid length") ??;
  reject_if (existsb (fun c => (c <? 32) || (126 <? c))%N (codepoints traceparent))
    (ValueError "traceparent must contain printable ASCII") ??;
  reject_if (negb (bool_decide (char_at 2 traceparent = Some 45%N))
             || negb (bool_decide (char_at 35 traceparent = Some 45%N))
             || negb (bool_decide (char_at 52 traceparent = Some 45%N)))
    (ValueError "traceparent has invalid delimiters") ??;
  let version_text := str_slice 0 2 traceparent in
  reject_if (negb (_LOWER_HEX version_text) || bool_decide (version_text = "ff"%py))
    (ValueError "traceparent has an invalid version") ??;
  let version := parse_hex version_text in
  reject_if ((version =? 0)%Z && negb (len =? 55)%Z)
    (ValueError "version 00 traceparent must contain exactly four fields") ??;
  reject_if ((0 <? version)%Z && (55 <? len)%Z && negb (bool_decide (char_at 55 traceparent = Some 45%N)))
    (ValueError "future traceparent fields must follow a delimiter") ??;
  let tid := str_slice 3 35 traceparent in
  let pid := str_slice 36 52 traceparent in
  let flags_text := str_slice 53 55 traceparent in
  _hex_identifier tid 32 "trace_id" ??;
  _hex_identifier pid 16 "parent_id" ??;
  reject_if (negb (_LOWER_HEX flags_text)) (ValueError "trace_flags must be lowercase hexadecimal") ??;
  let? members := match state with Some s => parse_tracestate s | None => Ok [] end in
  TraceContext_new tid pid (Z.land (parse_hex flags_text) 3) members.

Section Headers.
Variable casefold : pystr -> pystr.

Definition select_header (selected : dict pystr pystr) (h : pystr * pystr) : result exn (dict pystr pystr) :=
  let name := casefold h.1 in
  if negb (bool_decide (name = "traceparent"%py) || bool_decide (name = "tracestate"%py)) then Ok selected
  else
    reject_if (d_mem name selected) (ValueError (str_app "duplicate " (str_app name " header"))) ??;
    Ok (d_set name h.2 selected).

Definition trace_context_from_headers (headers : list (pystr * pystr)) : result exn (option TraceContext) :=
  let? selected := fold_result select_header headers [] in
  match d_get "traceparent"%py selected with
  | None =>
      if d_mem "tracestate"%py selected then Raise (ValueError "tracestate requires traceparent") else Ok None
  | Some traceparent =>
      let? t := parse_trace_context traceparent (d_get "tracestate"%py selected) in
      Ok (Some t)
  end.
End Headers.

Example trace_sample :
  parse_trace_context "00-0af7651916cd43dd8448eb211c80319c-b7ad6b7169203331-01" (Some "congo=t61rcWkgMzE, rojo=1")
  = Ok (mkTrace "0af7651916cd43dd8448eb211c80319c" "b7ad6b7169203331" 1 [("congo", "t61rcWkgMzE"); ("rojo", "1")]%py).
Proof. vm_compute. reflexivity. Qed.

(** ** Parsing what was rendered *)

Lemma fold_unit_ok {A} (f : A -> result exn unit) l u :
  fold_result (fun _ x => f x) l tt = Ok u <-> Forall (fun x => f x = Ok tt) l.
Proof.
  destruct u. induction l as [|x l IH]; cbn; [by split|]. rewrite Forall_cons. destruct (f x) as [[]|e].
  - rewrite IH. tauto.
  - split; [done|by intros []].
Qed.

(** The facts a successful construction leaves. *)
Record trace_ok (t : TraceContext) : Prop := {
  ok_trace_id : _hex_identifier (trace_id t) 32 "trace_id" = Ok tt;
  ok_parent_id : _hex_identifier (parent_id t) 16 "parent_id" = Ok tt;
  ok_flags : 0 <= trace_flags t <= 3;
  ok_count : Z.of_nat (length (tracestate t)) <= 32;
  ok_members : Forall (fun m => check_member m = Ok tt) (tracestate t);
  ok_keys : NoDup (tracestate t).*1;
  ok_length : str_len (render_members (tracestate t)) <= 512
}.

Lemma TraceContext_new_ok tid pid flags ms t : TraceContext_new tid pid flags ms = Ok t <->
  t = mkTrace tid pid flags ms /\ trace_ok t.
Proof.
  unfold TraceContext_new, _validate_tracestate. split.
  - intros H. repeat (apply rbind_ok in H as ([] & ? & H)).
    match goal with E : rbind _ _ = Ok _ |- _ => repeat (apply rbind_ok in E as ([] & ? & E)) end.
    rewrite reject_if_ok in *. injection H as <-. split; [done|].
    match goal with E : fold_result _ _ _ = Ok _ |- _ => apply fold_unit_ok in E end.
    unfold _MAX_TRACESTATE_MEMBERS, _MAX_TRACESTATE_LENGTH in *.
    repeat match goal with E : negb _ = false |- _ => apply negb_false_iff in E end. time_facts. split; done.
  - intros [-> [H1 H2 H3 H4 H5 H6 H7]]. cbn [tracestate trace_id parent_id trace_flags] in *. rewrite H1, H2. cbn [rbind].
    rewrite (proj2 (fold_unit_ok _ _ tt)) by done.
    rewrite (proj2 (Z.leb_le 0 flags)), (proj2 (Z.leb_le flags 3)) by lia. cbn.
    unfold _MAX_TRACESTATE_MEMBERS, _MAX_TRACESTATE_LENGTH. rewrite (proj2 (Z.ltb_ge _ _)) by lia. cbn.
    rewrite bool_decide_true by done. cbn. by rewrite (proj2 (Z.ltb_ge _ _)) by lia.
Qed.

Lemma split_on_app sep l r : forall cur, Forall (fun c => c <> sep) l ->
  split_on sep cur (l ++ sep :: r) = PyStr (rev cur ++ l) :: split_on sep [] r.
Proof.
  induction l as [|c l IH]; intros cur Hl; cbn.
  - by rewrite N.eqb_refl, app_nil_r.
  - apply Forall_cons in Hl as [Hc Hl]. rewrite (proj2 (N.eqb_neq _ _)) by done. rewrite IH by done.
    cbn. by rewrite <- app_assoc.
Qed.

Lemma split_on_end sep l : forall cur, Forall (fun c => c <> sep) l -> split_on sep cur l = [PyStr (rev cur ++ l)].
Proof.
  induction l as [|c l IH]; intros cur Hl; cbn; [by rewrite app_nil_r|].
  apply Forall_cons in Hl as [Hc Hl]. rewrite (proj2 (N.eqb_neq _ _)) by done. rewrite IH by done.
  cbn. by rewrite <- app_assoc.
Qed.

(** Splitting the joined parts gives them back when none contains the separator. *)
Lemma split_on_join sep w ws : Forall (fun s => Forall (fun c => c <> sep) (codepoints s)) (w :: ws) ->
  split_on sep [] (codepoints (str_join (PyStr [sep]) (w :: ws))) = w :: ws.
Proof.
  revert w. induction ws as [|w' ws IH]; intros w Hall; apply Forall_cons in Hall as [Hw Hall].
  - cbn. rewrite split_on_end by done. by destruct w.
  - change (str_join (PyStr [sep]) (w :: w' :: ws)) with
      (str_app w (str_app (PyStr [sep]) (str_join (PyStr [sep]) (w' :: ws)))).
    unfold str_app at 1 2. cbn [codepoints app]. rewrite split_on_app by done. rewrite IH by done. by destruct w.
Qed.

Lemma split_first_app sep k v : Forall (fun c => c <> sep) k -> split_first sep (k ++ sep :: v) = Some (k, v).
Proof.
  induction k as [|c k IH]; intros Hk; cbn; [by rewrite N.eqb_refl|].
  apply Forall_cons in Hk as [Hc Hk]. rewrite (proj2 (N.eqb_neq _ _)) by done. by rewrite IH.
Qed.

Lemma strip_blank_id c l d : ((c =? 32) || (c =? 9))%N = false -> ((d =? 32) || (d =? 9))%N = false ->
  strip_blank (c :: l ++ [d]) = c :: l ++ [d].
Proof.
  intros Hc Hd. unfold strip_blank. cbn [lstrip_blank]. rewrite Hc.
  change (c :: l ++ [d]) with ((c :: l) ++ [d]). rewrite rev_unit. cbn [lstrip_blank]. rewrite Hd.
  rewrite <- rev_unit. apply rev_involutive.
Qed.

(** What the checks of a member say of its characters. *)
Lemma check_member_chars k v : check_member (k, v) = Ok tt ->
  exists c rest v' d, codepoints k = c :: rest /\ codepoints v = v' ++ [d] /\
    ((c =? 32) || (c =? 9))%N = false /\ ((d =? 32) || (d =? 9))%N = false /\
    Forall (fun x => x <> 61 /\ x <> 44)%N (codepoints k) /\ Forall (fun x => x <> 61 /\ x <> 44)%N (codepoints v).
Proof.
  unfold check_member, _tracestate_value. intros H. repeat (apply rbind_ok in H as ([] & ? & H)).
  rewrite reject_if_ok in *. cbn [fst snd] in *.
  match goal with E : negb (_TRACESTATE_KEY k) = false |- _ => apply negb_false_iff in E; rename E into Hk end.
  repeat match goal with E : _ || _ = false |- _ => apply orb_false_iff in E as [? ?] end.
  match goal with E : negb _ = false |- _ => apply negb_false_iff in E; rename E into Hprint end.
  unfold _TRACESTATE_KEY in Hk. destruct (codepoints k) as [|c rest] eqn:Hck; [done|].
  apply andb_true_iff in Hk as [Hk _]. apply andb_true_iff in Hk as [Hc Hrest].
  destruct (exists_last (l := codepoints v)) as (v' & d & Hv).
  { intros Hnil. unfold str_empty in *. by rewrite Hnil in *. }
  assert (forall x, is_key_char x = true -> x <> 61 /\ x <> 44)%N as Hkey.
  { intros x Hx. unfold is_key_char, is_lower, is_digit in Hx.
    repeat match goal with E : context [(_ =? _)%N] |- _ => rewrite ?orb_true_iff, ?andb_true_iff, ?N.leb_le, ?N.eqb_eq in E end. lia. }
  exists c, rest, v', d. rewrite forallb_forall in Hrest, Hprint. split_and!; [done|done|..].
  - unfold is_lower, is_digit in Hc. rewrite ?orb_true_iff, ?andb_true_iff, ?N.leb_le in Hc.
    apply orb_false_iff. rewrite !N.eqb_neq. lia.
  - rewrite Hv, last_snoc in *. time_facts.
    assert (is_printable d = true) as Hd by (apply Hprint, in_or_app; right; by left).
    unfold is_printable in Hd. apply andb_true_iff in Hd as [Hd _]. apply N.leb_le in Hd.
    apply orb_false_iff. rewrite !N.eqb_neq. split; [congruence|lia].
  - constructor.
    + apply Hkey. unfold is_key_char. apply orb_true_iff in Hc as [-> | ->]; by rewrite ?orb_true_r.
    + apply Forall_forall. intros x Hx. apply Hkey, Hrest. by apply list_elem_of_In.
  - apply Forall_forall. intros x Hx.
    match goal with E : existsb ?f _ = false |- _ =>
      assert (f x = false) as Hf by (destruct (f x) eqn:E2; [|done]; exfalso;
        assert (existsb f (codepoints v) = true); [|congruence]; apply existsb_exists; exists x;
        split; [by apply list_elem_of_In|done]) end.
    cbn in Hf. apply orb_false_iff in Hf as [H44 H61]. apply N.eqb_neq in H44, H61. done.
Qed.

Lemma parse_member_rendered ms m : check_member m = Ok tt -> parse_member ms (render_member m) = Ok (ms ++ [m]).
Proof.
  destruct m as [k v]. intros Hm. pose proof (check_member_chars k v Hm) as (c & rest & v' & d & Hk & Hv & Hc & Hd & Hck & _).
  unfold parse_member. unfold render_member. cbn [fst snd].
  assert (codepoints (str_app k (str_app "=" v)) = codepoints k ++ 61%N :: codepoints v) as Hs by done.
  rewrite Hs.
  assert (strip_blank (codepoints k ++ 61%N :: codepoints v) = codepoints k ++ 61%N :: codepoints v) as ->.
  { rewrite Hk, Hv. change ((c :: rest) ++ 61%N :: v' ++ [d]) with (c :: rest ++ ([61%N] ++ v') ++ [d]).
    rewrite app_assoc. by apply strip_blank_id. }
  destruct (codepoints k ++ 61%N :: codepoints v) as [|x l] eqn:Hl; [by destruct (codepoints k)|]. rewrite <- Hl.
  rewrite split_first_app.
  - destruct k as [kc], v as [vc]. cbn [codepoints]. by rewrite Hm.
  - eapply Forall_impl; [exact Hck|]. by intros y [].
Qed.

Lemma parse_members_rendered ms : forall acc, Forall (fun m => check_member m = Ok tt) ms ->
  fold_result parse_member (render_member <$> ms) acc = Ok (acc ++ ms).
Proof.
  induction ms as [|m ms IH]; intros acc Hms; cbn [fmap list_fmap fold_result]; [by rewrite app_nil_r|].
  apply Forall_cons in Hms as [Hm Hms]. rewrite parse_member_rendered by done.
  fold (@fold_result exn). rewrite IH by done. by rewrite <- app_assoc.
Qed.

Lemma parse_tracestate_rendered t : trace_ok t -> tracestate t <> [] ->
  parse_tracestate (render_members (tracestate t)) = Ok (tracestate t).
Proof.
  intros [_ _ _ Hn Hms Hnd Hlen] Hne. unfold parse_tracestate, _MAX_TRACESTATE_LENGTH, _MAX_TRACESTATE_MEMBERS.
  rewrite (proj2 (Z.ltb_ge _ _)) by done. cbn [reject_if rbind].
  assert (split_on 44 [] (codepoints (render_members (tracestate t))) = render_member <$> tracestate t) as ->.
  { unfold render_members. destruct (tracestate t) as [|m ms]; [done|]. cbn [fmap list_fmap]. apply split_on_join.
    change (render_member m :: (render_member <$> ms)) with (render_member <$> (m :: ms)).
    apply Forall_fmap. eapply Forall_impl; [exact Hms|]. intros [k v] Hm. unfold compose.
    pose proof (check_member_chars k v Hm) as (_ & _ & _ & _ & _ & _ & _ & _ & Hk & Hv).
    change (codepoints (render_member (k, v))) with (codepoints k ++ [61%N] ++ codepoints v).
    rewrite !Forall_app. split_and!; [| by constructor |]; (eapply Forall_impl; [eassumption|]); by intros x []. }
  rewrite length_fmap, (proj2 (Z.ltb_ge _ _)) by done. cbn [reject_if rbind].
  rewrite parse_members_rendered by done. cbn. by rewrite bool_decide_true.
Qed.

Lemma hex_identifier_ok v n name : _hex_identifier v n name = Ok tt ->
  str_len v = n /\ forallb is_lower_hex (codepoints v) = true.
Proof.
  unfold _hex_identifier. rewrite reject_if_ok. intros H. time_facts. split; [done|].
  unfold _LOWER_HEX in *. match goal with E : negb (str_empty _) && _ = true |- _ => apply andb_true_iff in E as [_ E] end. done.
Qed.

Lemma lower_hex_printable l : forallb is_lower_hex l = true ->
  existsb (fun c => (c <? 32) || (126 <? c))%N l = false.
Proof.
  intros Hl. destruct (existsb _ l) eqn:E; [|done]. apply existsb_exists in E as (c & Hin & Hc).
  rewrite forallb_forall in Hl. apply Hl in Hin. unfold is_lower_hex, is_digit in Hin.
  rewrite ?orb_true_iff, ?andb_true_iff, ?N.leb_le in Hin. rewrite orb_true_iff, !N.ltb_lt in Hc. lia.
Qed.

Lemma slice_middle a b l1 l2 l3 : length l1 = a -> (length l2 = b - a)%nat ->
  str_slice a b (PyStr (l1 ++ l2 ++ l3)) = PyStr l2.
Proof. intros <- H2. unfold str_slice. cbn. rewrite drop_app_length. rewrite <- H2. by rewrite take_app_length. Qed.

Lemma char_after l1 c l2 i : length l1 = i -> char_at i (PyStr (l1 ++ c :: l2)) = Some c.
Proof. intros <-. unfold char_at. cbn. rewrite lookup_app_r by lia. by rewrite Nat.sub_diag. Qed.

Lemma flags_rendered f : 0 <= f <= 3 -> exists a b,
  codepoints (hex_byte f) = [a; b] /\ forallb is_lower_hex [a; b] = true /\ Z.land (parse_hex (PyStr [a; b])) 3 = f.
Proof.
  intros Hf. assert (f = 0 \/ f = 1 \/ f = 2 \/ f = 3) as Hcases by lia.
  destruct Hcases as [->|[->|[->| ->]]]; do 2 eexists; split_and!; vm_compute; reflexivity.
Qed.

(** A rendered [traceparent] of version 00, and where the parser finds its fields. *)
Definition shape (l1 l2 : list N) (a b : N) : pystr :=
  PyStr ([48; 48]%N ++ 45%N :: l1 ++ 45%N :: l2 ++ 45%N :: [a; b]).

Lemma shape_fields l1 l2 a b : length l1 = 32%nat -> length l2 = 16%nat ->
  str_len (shape l1 l2 a b) = 55 /\
  char_at 2 (shape l1 l2 a b) = Some 45%N /\ char_at 35 (shape l1 l2 a b) = Some 45%N /\
  char_at 52 (shape l1 l2 a b) = Some 45%N /\ str_slice 0 2 (shape l1 l2 a b) = "00"%py /\
  str_slice 3 35 (shape l1 l2 a b) = PyStr l1 /\ str_slice 36 52 (shape l1 l2 a b) = PyStr l2 /\
  str_slice 53 55 (shape l1 l2 a b) = PyStr [a; b].
Proof.
  intros H1 H2. unfold shape. split_and!.
  - unfold str_len. cbn. rewrite !length_app. cbn. rewrite length_app. cbn. lia.
  - done.
  - change ([48; 48]%N ++ 45%N :: l1 ++ 45%N :: l2 ++ 45%N :: [a; b]) with
      (([48; 48; 45]%N ++ l1) ++ 45%N :: l2 ++ 45%N :: [a; b]).
    apply char_after. rewrite length_app. cbn. lia.
  - replace ([48; 48]%N ++ 45%N :: l1 ++ 45%N :: l2 ++ 45%N :: [a; b]) with
      (([48; 48; 45]%N ++ l1 ++ [45%N] ++ l2) ++ 45%N :: [a; b]) by (by rewrite <- !app_assoc).
    apply char_after. rewrite !length_app. cbn. lia.
  - done.
  - apply (slice_middle 3 35 [48; 48; 45]%N l1); [done|lia].
  - replace ([48; 48]%N ++ 45%N :: l1 ++ 45%N :: l2 ++ 45%N :: [a; b]) with
      (([48; 48; 45]%N ++ l1 ++ [45%N]) ++ l2 ++ 45%N :: [a; b]) by (by rewrite <- !app_assoc).
    apply slice_middle; rewrite ?length_app; cbn; lia.
  - replace ([48; 48]%N ++ 45%N :: l1 ++ 45%N :: l2 ++ 45%N :: [a; b]) with
      (([48; 48; 45]%N ++ l1 ++ [45%N] ++ l2 ++ [45%N]) ++ [a; b] ++ []) by (by rewrite <- !app_assoc).
    apply slice_middle; rewrite ?length_app; cbn; rewrite ?length_app; cbn; lia.
Qed.

Lemma shape_printable l1 l2 a b : forallb is_lower_hex l1 = true -> forallb is_lower_hex l2 = true ->
  forallb is_lower_hex [a; b] = true ->
  existsb (fun c => (c <? 32) || (126 <? c))%N (codepoints (shape l1 l2 a b)) = false.
Proof.
  intros H1 H2 H3. unfold shape. cbn [codepoints]. rewrite existsb_app. cbn [existsb]. rewrite existsb_app.
  cbn [existsb]. rewrite existsb_app. rewrite (lower_hex_printable l1), (lower_hex_printable l2) by done.
  cbn [app]. change (45%N :: [a; b]) with ([45%N] ++ [a; b]). by rewrite existsb_app, (lower_hex_printable [a; b]).
Qed.

Lemma render_shape t : trace_ok t -> exists a b,
  render_traceparent t = shape (codepoints (trace_id t)) (codepoints (parent_id t)) a b /\
  forallb is_lower_hex [a; b] = true /\ Z.land (parse_hex (PyStr [a; b])) 3 = trace_flags t.
Proof.
  intros Ht. destruct (flags_rendered _ (ok_flags _ Ht)) as (a & b & Hab & Hhex & Hflags).
  exists a, b. split; [|done]. unfold render_traceparent, str_app. cbn [codepoints]. rewrite Hab. done.
Qed.

Lemma parse_traceparent_rendered t state : trace_ok t ->
  match state with Some s => parse_tracestate s | None => Ok [] end = Ok (tracestate t) ->
  parse_trace_context (render_traceparent t) state = Ok t.
Proof.
  intros Ht Hstate. destruct (render_shape t Ht) as (a & b & -> & Hhex & Hflags).
  destruct (hex_identifier_ok _ _ _ (ok_trace_id _ Ht)) as [Hl1 Hx1].
  destruct (hex_identifier_ok _ _ _ (ok_parent_id _ Ht)) as [Hl2 Hx2]. unfold str_len in Hl1, Hl2.
  destruct (shape_fields (codepoints (trace_id t)) (codepoints (parent_id t)) a b) as (F1 & F2 & F3 & F4 & F5 & F6 & F7 & F8);
    [lia|lia|].
  unfold parse_trace_context, _MAX_TRACEPARENT_LENGTH.
  rewrite F1, F2, F3, F4, F5, F6, F7, F8, shape_printable by done. rewrite !bool_decide_true by done.
  cbn [Z.leb Z.compare Pos.compare Pos.compare_cont andb negb orb reject_if rbind].
  change (negb (_LOWER_HEX "00") || bool_decide ("00"%py = "ff"%py)) with false.
  change (parse_hex "00") with 0. cbn [reject_if rbind Z.eqb Z.ltb Z.compare negb andb Pos.eqb].
  assert (forall s, PyStr (codepoints s) = s) as Heta by (by intros []). rewrite !Heta.
  rewrite (ok_trace_id _ Ht), (ok_parent_id _ Ht). cbn [rbind].
  assert (_LOWER_HEX (PyStr [a; b]) = true) as -> by (unfold _LOWER_HEX; cbn [codepoints]; by rewrite Hhex).
  cbn [negb reject_if rbind]. rewrite Hstate. cbn [rbind]. rewrite Hflags.
  apply TraceContext_new_ok. split; [by destruct t|done].
Qed.

Section RoundTrip.
Variable casefold : pystr -> pystr.
(** Case folding keeps the two lower-case header names. *)
Hypothesis casefold_parent : casefold "traceparent" = "traceparent"%py.
Hypothesis casefold_state : casefold "tracestate" = "tracestate"%py.

Lemma select_rendered p o :
  fold_result (select_header casefold)
    (("traceparent"%py, p) :: match o with Some s => [("tracestate"%py, s)] | None => [] end) [] =
  Ok (("traceparent"%py, p) :: match o with Some s => [("tracestate"%py, s)] | None => [] end).
Proof.
  destruct o as [s|]; cbn [fold_result]; unfold select_header; cbn [fst snd];
    rewrite casefold_parent, ?casefold_state; reflexivity.
Qed.

Lemma headers_of_ok t : trace_ok t -> trace_context_from_headers casefold (to_headers t) = Ok (Some t).
Proof.
  intros Ht. unfold trace_context_from_headers, to_headers. rewrite select_rendered. cbn [rbind].
  assert (forall l, d_get "traceparent"%py (("traceparent"%py, render_traceparent t) :: l) = Some (render_traceparent t)) as ->
    by (intros l; reflexivity).
  assert (d_get "tracestate"%py (("traceparent"%py, render_traceparent t) ::
    match render_tracestate t with Some s => [("tracestate"%py, s)] | None => [] end) = render_tracestate t) as ->
    by (by destruct (render_tracestate t)).
  rewrite parse_traceparent_rendered; [done|done|]. unfold render_tracestate.
  destruct (tracestate t) as [|m ms] eqn:Hms; [done|]. rewrite <- Hms.
  apply parse_tracestate_rendered; [done|by rewrite Hms].
Qed.

(** Trace headers round-trip: every trace context, whether it was constructed or read
    from the headers of a request (of version 00 or of a later version, with blanks and empty
    members in the vendor state), is rendered to headers from which exactly the same
    context is read back, so that reading normalises once and for all. *)
Theorem trace_headers_round_trip tid pid flags ms headers t :
  TraceContext_new tid pid flags ms = Ok t \/ trace_context_from_headers casefold headers = Ok (Some t) ->
  trace_context_from_headers casefold (to_headers t) = Ok (Some t).
Proof.
  intros [H|H]; [by apply headers_of_ok; apply TraceContext_new_ok in H as [_ ?]|].
  apply headers_of_ok. unfold trace_context_from_headers in H. apply rbind_ok in H as (sel & _ & H).
  destruct (d_get "traceparent"%py sel) as [tp|]; [|by destruct (d_mem _ _)].
  apply rbind_ok in H as (t' & H & [= ->]). unfold parse_trace_context in H.
  repeat match type of H with rbind _ _ = Ok _ => apply rbind_ok in H as (? & ? & H) end.
  apply TraceContext_new_ok in H as [_ H]. done.
Qed.
End RoundTrip.

(** A request of a future version with upper-case header names and a padded vendor state;
    the case folding is the ASCII one. *)
Definition ascii_fold (s : pystr) : pystr :=
  PyStr ((fun c => if (65 <=? c)%N && (c <=? 90)%N then (c + 32)%N else c) <$> codepoints s).
Definition sample_headers : list (pystr * pystr) :=
  [("Accept", "*/*");
   ("Traceparent", "cc-0af7651916cd43dd8448eb211c80319c-b7ad6b7169203331-ff-extra");
   ("TRACESTATE", " congo=t61rcWkgMzE ,, rojo=1")]%py.
Definition sample_trace : TraceContext :=
  mkTrace "0af7651916cd43dd8448eb211c80319c" "b7ad6b7169203331" 3 [("congo", "t61rcWkgMzE"); ("rojo", "1")]%py.

Lemma trace_headers_round_trip_witness :
  trace_context_from_headers ascii_fold sample_headers = Ok (Some sample_trace) /\
  to_headers sample_trace =
    [("traceparent", "00-0af7651916cd43dd8448eb211c80319c-b7ad6b7169203331-03");
     ("tracestate", "congo=t61rcWkgMzE,rojo=1")]%py /\
  trace_context_from_headers ascii_fold (to_headers sample_trace) = Ok (Some sample_trace).
Proof.
  assert (trace_context_from_headers ascii_fold sample_headers = Ok (Some sample_trace)) as Hread
    by (vm_compute; reflexivity).
  split; [exact Hread|]. split; [vm_compute; reflexivity|].
  exact (trace_headers_round_trip ascii_fold eq_refl eq_refl "" "" 0 [] sample_headers sample_trace (or_intror Hread)).
Defined.
