(* ===== verification/Wire.v ===== *)
(** * Exact wire JSON ([src/pytitect/wire.py])

    JSON documents that keep the original number tokens: the value type, the finite
    deterministic encoder and the bounded incremental parser. Conversions to [Decimal] and
    [float] are the interpreter's and are left out. The parser's character iterator with its
    one-character lookahead is the list of the characters not yet taken, followed by the
    error the decoder ends with, if any. *)
From Stdlib Require Import ZArith Lia SpecFloat.
From stdpp Require Import base list gmap.
From S2P Require Import Prelude Core.

Definition WireSyntaxError : exn := OtherError "WireSyntaxError" "syntax".
Definition WireLimitError : exn := OtherError "WireLimitError" "limits".
Definition WireShapeError : exn := OtherError "WireShapeError" "shape".
Definition WirePrecisionError : exn := OtherError "WirePrecisionError" "precision".

(** ** Number tokens *)

Definition digit (c : N) : bool := ((48 <=? c) && (c <=? 57))%N.

Fixpoint skip_digits (l : list N) : list N :=
  match l with c :: l' => if digit c then skip_digits l' else l | [] => [] end.

(** The optional minus sign, the integer part, the optional fraction and the optional
    exponent of the number pattern: what is left of the text, or no match. *)
Definition match_minus (l : list N) : list N :=
  match l with 45%N :: l' => l' | _ => l end.
Definition match_int (l : list N) : option (list N) :=
  match l with
  | c :: l' => if (c =? 48)%N then Some l' else if digit c then Some (skip_digits l') else None
  | [] => None
  end.
Definition match_digits (l : list N) : option (list N) :=
  match l with c :: l' => if digit c then Some (skip_digits l') else None | [] => None end.
Definition match_fraction (l : list N) : option (list N) :=
  match l with 46%N :: l' => match_digits l' | _ => Some l end.
Definition match_exponent (l : list N) : option (list N) :=
  match l with
  | c :: l' =>
      if ((c =? 101) || (c =? 69))%N
      then match_digits (match l' with s :: l'' => if ((s =? 43) || (s =? 45))%N then l'' else l' | [] => [] end)
      else Some l
  | [] => Some []
  end.

(** [_NUMBER.fullmatch] and [_INTEGER.fullmatch]. *)
Definition _NUMBER (token : pystr) : bool :=
  match match_int (match_minus (codepoints token)) with
  | None => false
  | Some l =>
      match match_fraction l with
      | None => false
      | Some l => match match_exponent l with Some [] => true | _ => false end
      end
  end.
Definition _INTEGER (token : pystr) : bool :=
  match match_int (match_minus (codepoints token)) with Some [] => true | _ => false end.

(** [ExactNumber(token)]. *)
Record ExactNumber := mkExactNumber { token : pystr }.
#[export] Instance ExactNumber_eq_dec : EqDecision ExactNumber.
Proof. solve_decision. Defined.

Definition ExactNumber_new (t : pystr) : result exn ExactNumber :=
  if _NUMBER t then Ok (mkExactNumber t) else Raise WireSyntaxError.

(** [int(chunk)] of decimal digits, and the loop over chunks of nine digits. *)
Definition int_digits (l : list N) : Z := fold_left (fun acc c => 10 * acc + (Z.of_N c - 48)) l 0.

Fixpoint chunks_value (fuel : nat) (digits : list N) (acc : Z) : Z :=
  match fuel, digits with
  | S fuel', _ :: _ =>
      let chunk := take 9 digits in
      chunks_value fuel' (drop 9 digits) (acc * 10 ^ Z.of_nat (length chunk) + int_digits chunk)
  | _, _ => acc
  end.

Definition to_int (n : ExactNumber) : result exn Z :=
  if negb (_INTEGER (token n)) then Raise WirePrecisionError
  else
    let digits := match_minus (codepoints (token n)) in
    let value := chunks_value (length digits) digits 0 in
    Ok (if bool_decide (head (codepoints (token n)) = Some 45%N) then - value else value).

(** [_integer_token]. *)
Fixpoint digits_of (fuel : nat) (n : Z) : list N :=
  match fuel with
  | O => []
  | S fuel' => if n <? 10 then [Z.to_N (48 + n)] else digits_of fuel' (n / 10) ++ [Z.to_N (48 + n mod 10)]
  end.
(** [str(n)] and [f"{n:09d}"] of a chunk below one thousand million. *)
Definition chunk_str (n : Z) : list N := digits_of 10 n.
Definition chunk_padded (n : Z) : list N := replicate (9 - length (chunk_str n)) 48%N ++ chunk_str n.

Fixpoint integer_chunks (fuel : nat) (remaining : Z) : list Z :=
  match fuel with
  | O => []
  | S fuel' => if remaining =? 0 then [] else remaining mod 1000000000 :: integer_chunks fuel' (remaining / 1000000000)
  end.

Definition _integer_token (value : Z) : pystr :=
  if value =? 0 then "0"
  else
    let chunks := integer_chunks (Z.to_nat (Z.log2_up (Z.abs value) + 1)) (Z.abs value) in
    PyStr ((if value <? 0 then [45%N] else []) ++
      match rev chunks with
      | [] => []
      | top :: rest => chunk_str top ++ concat (map chunk_padded rest)
      end).

(** ** Values and documents *)

Inductive exact :=
  | XNull
  | XBool (b : bool)
  | XNum (n : ExactNumber)
  | XStr (s : pystr)
  | XTuple (items : list exact)
  | XMap (items : list (pystr * exact)).

Definition is_surrogate (c : N) : bool := ((55296 <=? c) && (c <=? 57343))%N.

Section Bounded.
Variable limits : Limits.

Definition _string_limit (value : pystr) : result exn unit :=
  reject_if (max_string_length limits <? str_len value)%Z WireLimitError ??;
  reject_if (existsb is_surrogate (codepoints value)) WireSyntaxError.

(** [_freeze]: the copy is the value itself; the running count is threaded. *)
Fixpoint freeze (item : exact) (depth count : Z) : result exn Z :=
  let count := count + 1 in
  reject_if ((max_json_items limits <? count)%Z || (max_json_depth limits <? depth)%Z) WireLimitError ??;
  match item with
  | XNull | XBool _ | XNum _ => Ok count
  | XStr s => _string_limit s ??; Ok count
  | XTuple items => fold_result (fun count child => freeze child (depth + 1) count) items count
  | XMap items =>
      fold_result (fun count kv => _string_limit (fst kv) ??; freeze (snd kv) (depth + 1) count) items count
  end.

(** The pieces of a sequence, with a comma before each but the first. *)
Fixpoint separated (l : list (list pystr)) : list pystr :=
  match l with
  | [] => []
  | [x] => x
  | x :: l' => x ++ ","%py :: separated l'
  end.

Fixpoint _pieces (value : exact) : list pystr :=
  match value with
  | XNull => ["null"%py]
  | XBool true => ["true"%py]
  | XBool false => ["false"%py]
  | XNum n => [token n]
  | XStr s => [json_quote s]
  | XTuple items => "["%py :: separated (map _pieces items) ++ ["]"%py]
  | XMap items =>
      "{"%py :: separated (map snd (sorted_by str_compare fst
        (map (fun kv => (fst kv, json_quote (fst kv) :: ":"%py :: _pieces (snd kv))) items))) ++ ["}"%py]
  end.

Definition encode_piece (output : list N) (piece : pystr) : result exn (list N) :=
  reject_if (max_body_bytes limits - Z.of_nat (length output) <? str_len piece)%Z WireLimitError ??;
  let? encoded := str_encode piece in
  reject_if (max_body_bytes limits - Z.of_nat (length output) <? Z.of_nat (length encoded))%Z WireLimitError ??;
  Ok (output ++ encoded).

Definition encode_value (value : exact) : result exn (list N) := fold_result encode_piece (_pieces value) [].
End Bounded.

Record WireDocument := mkDocument { value : exact; limits : Limits }.

Definition encode (d : WireDocument) : result exn (list N) := encode_value (limits d) (value d).

Definition WireDocument_new (v : exact) (lim : Limits) : result exn WireDocument :=
  let? _ := freeze lim v 0 0 in
  let? _ := encode (mkDocument v lim) in
  Ok (mkDocument v lim).

(** ** Conversions from and to ordinary JSON values *)

Section Conversions.
(** [float.__repr__], [float(token)], and whether [Decimal(token)] is finite and equal to
    [Decimal.from_float] of that number. *)
Variable float_repr : spec_float -> pystr.
Variable float_of : pystr -> spec_float.
Variable decimal_exact : pystr -> spec_float -> bool.

Fixpoint _legacy_value (v : json) : result exn exact :=
  match v with
  | JNull => Ok XNull
  | JBool b => Ok (XBool b)
  | JStr s => Ok (XStr s)
  | JInt n => let? n := ExactNumber_new (_integer_token n) in Ok (XNum n)
  | JFloat f =>
      reject_if (negb (isfinite f)) WirePrecisionError ??;
      let? n := ExactNumber_new (float_repr f) in Ok (XNum n)
  | JList items => let? l := map_result _legacy_value items in Ok (XTuple l)
  | JDict items =>
      let? l := map_result (fun kv => let? x := _legacy_value (snd kv) in Ok (key_text (fst kv), x)) items in
      Ok (XMap l)
  | JOther _ => Raise (OtherError "AttributeError" "items")
  end.

Definition to_float (n : ExactNumber) : result exn spec_float :=
  let f := float_of (token n) in
  reject_if (negb (isfinite f) || negb (decimal_exact (token n) f)) WirePrecisionError ??;
  Ok f.

Fixpoint _ordinary (checked : bool) (v : exact) : result exn json :=
  match v with
  | XNull => Ok JNull
  | XBool b => Ok (JBool b)
  | XStr s => Ok (JStr s)
  | XNum n =>
      if _INTEGER (token n) then let? z := to_int n in Ok (JInt z)
      else if checked then let? f := to_float n in Ok (JFloat f)
      else
        let f := float_of (token n) in
        reject_if (negb (isfinite f)) WirePrecisionError ??;
        Ok (JFloat f)
  | XTuple items => let? l := map_result (_ordinary checked) items in Ok (JList l)
  | XMap items =>
      let? l := map_result (fun kv => let? x := _ordinary checked (snd kv) in Ok (KeyStr (fst kv), x)) items in
      Ok (JDict l)
  end.

Definition to_json (d : WireDocument) : result exn json := _ordinary true (value d).
End Conversions.

(** ** Incremental UTF-8 decoding *)

Inductive utf8_step := Scalar (c : N) (rest : list N) | Incomplete | Invalid.

Definition cont (b : N) : bool := ((128 <=? b) && (b <=? 191))%N.

(** The continuation bytes of a sequence: [lo] and [hi] bound the first of them. *)
Fixpoint continue (n : nat) (lo hi acc : N) (l : list N) : utf8_step :=
  match n with
  | O => Scalar acc l
  | S n' =>
      match l with
      | [] => Incomplete
      | b :: l' => if ((lo <=? b) && (b <=? hi))%N then continue n' 128 191 (acc * 64 + (b - 128)) l' else Invalid
      end
  end.

Definition decode_step (b : N) (l : list N) : utf8_step :=
  (if b <? 128 then Scalar b l
   else if (194 <=? b) && (b <=? 223) then continue 1 128 191 (b - 192) l
   else if b =? 224 then continue 2 160 191 (b - 224) l
   else if b =? 237 then continue 2 128 159 (b - 224) l
   else if (225 <=? b) && (b <=? 239) then continue 2 128 191 (b - 224) l
   else if b =? 240 then continue 3 144 191 (b - 240) l
   else if (241 <=? b) && (b <=? 243) then continue 3 128 191 (b - 240) l
   else if b =? 244 then continue 3 128 143 (b - 240) l
   else Invalid)%N.

(** [decoder.decode(chunk)]: the characters and the bytes kept for the next chunk. *)
Fixpoint utf8_decode (fuel : nat) (l : list N) : option (list N * list N) :=
  match fuel, l with
  | S fuel', b :: l' =>
      match decode_step b l' with
      | Scalar c rest =>
          match utf8_decode fuel' rest with Some (cs, kept) => Some (c :: cs, kept) | None => None end
      | Incomplete => Some ([], l)
      | Invalid => None
      end
  | _, _ => Some ([], [])
  end.

Definition UnicodeDecodeError : exn := OtherError "UnicodeDecodeError" "invalid UTF-8".

(** [_Parser._decode]: the characters it yields and the error it ends with. *)
Fixpoint decode_chunks (maximum size : Z) (kept : list N) (chunks : list (list N)) : list N * option exn :=
  match chunks with
  | [] => match kept with [] => ([], None) | _ => ([], Some UnicodeDecodeError) end
  | chunk :: chunks' =>
      let size := size + Z.of_nat (length chunk) in
      if (maximum <? size)%Z then ([], Some WireLimitError)
      else match utf8_decode (length (kept ++ chunk)) (kept ++ chunk) with
           | None => ([], Some UnicodeDecodeError)
           | Some (cs, kept') =>
               let '(cs', e) := decode_chunks maximum size kept' chunks' in (cs ++ cs', e)
           end
  end.

(** ** The parser *)

(** [_Parser]: the characters not yet taken, the decoder's error after them, the count. *)
Record parser := mkParser { chars : list N; failure : option exn; count : Z }.

(** Raised by a loop whose fuel is used up; the theorems show that it never is. *)
Definition OutOfFuel : exn := OtherError "OutOfFuel" "".

Section Parser.
Variable limits : Limits.
Implicit Types p : parser.

(** [""] is [None]. *)
Definition peek : M exn parser (option N) := fun p =>
  match chars p with
  | c :: _ => (Ok (Some c), p)
  | [] => match failure p with Some e => (Raise e, p) | None => (Ok None, p) end
  end.

Definition take_char : M exn parser (option N) := fun p =>
  match chars p with
  | c :: rest => (Ok (Some c), mkParser rest (failure p) (count p))
  | [] => match failure p with Some e => (Raise e, p) | None => (Ok None, p) end
  end.

Definition is_blank (c : N) : bool := ((c =? 32) || (c =? 9) || (c =? 13) || (c =? 10))%N.

Fixpoint whitespace_loop (fuel : nat) : M exn parser unit :=
  match fuel with
  | O => raise OutOfFuel
  | S fuel' =>
      let! c := peek in
      match c with
      | Some c => if is_blank c then let! _ := take_char in whitespace_loop fuel' else ret tt
      | None => ret tt
      end
  end.

(** Every loop that takes a character per iteration gets the number of characters left. *)
Definition whitespace : M exn parser unit := fun p => whitespace_loop (S (length (chars p))) p.

Definition require (expected : N) : M exn parser unit :=
  let! c := take_char in
  raise_if (negb (bool_decide (c = Some expected))) WireSyntaxError.

Definition hex_digit_value (c : N) : option Z :=
  (if (48 <=? c) && (c <=? 57) then Some (Z.of_N c - 48)%Z
   else if (97 <=? c) && (c <=? 102) then Some (Z.of_N c - 87)%Z
   else if (65 <=? c) && (c <=? 70) then Some (Z.of_N c - 55)%Z
   else None)%N.

(** Four characters are taken before any of them is checked. *)
Definition hex_quad : M exn parser Z :=
  let! a := take_char in
  let! b := take_char in
  let! c := take_char in
  let! d := take_char in
  match a ≫= hex_digit_value, b ≫= hex_digit_value, c ≫= hex_digit_value, d ≫= hex_digit_value with
  | Some a, Some b, Some c, Some d => ret (((a * 16 + b) * 16 + c) * 16 + d)
  | _, _, _, _ => raise WireSyntaxError
  end.

(** The table of one-character escapes. *)
Definition escaped (c : N) : option N :=
  (if c =? 34 then Some 34 else if c =? 92 then Some 92 else if c =? 47 then Some 47
   else if c =? 98 then Some 8 else if c =? 102 then Some 12 else if c =? 110 then Some 10
   else if c =? 114 then Some 13 else if c =? 116 then Some 9 else None)%N.

(** The character an escape denotes, after its backslash. *)
Definition escape : M exn parser N :=
  let! e := take_char in
  match e with
  | None => raise WireSyntaxError
  | Some e =>
      if (e =? 117)%N then
        let! code := hex_quad in
        if (55296 <=? code) && (code <=? 56319) then
          require 92 ;;;
          require 117 ;;;
          let! low := hex_quad in
          raise_if (negb ((56320 <=? low) && (low <=? 57343))) WireSyntaxError ;;;
          ret (Z.to_N (65536 + Z.shiftl (code - 55296) 10 + low - 56320))
        else
          raise_if ((56320 <=? code) && (code <=? 57343)) WireSyntaxError ;;;
          ret (Z.to_N code)
      else match escaped e with Some c => ret c | None => raise WireSyntaxError end
  end.

Fixpoint string_loop (fuel : nat) (characters : list N) : M exn parser pystr :=
  match fuel with
  | O => raise OutOfFuel
  | S fuel' =>
      let! c := take_char in
      match c with
      | None => raise WireSyntaxError
      | Some c =>
          if (c =? 34)%N then ret (PyStr characters)
          else
            raise_if (c <? 32)%N WireSyntaxError ;;;
            let! c := (if (c =? 92)%N then escape else ret c) in
            raise_if (max_string_length limits <=? Z.of_nat (length characters)) WireLimitError ;;;
            string_loop fuel' (characters ++ [c])
      end
  end.

Definition string : M exn parser pystr :=
  require 34 ;;;
  (fun p => string_loop (S (length (chars p))) [] p).

Definition is_number_char (c : N) : bool :=
  (digit c || (c =? 45) || (c =? 43) || (c =? 46) || (c =? 101) || (c =? 69))%N.

Fixpoint token_loop (fuel : nat) (acc : list N) : M exn parser (list N) :=
  match fuel with
  | O => raise OutOfFuel
  | S fuel' =>
      let! c := peek in
      match c with
      | Some c => if is_number_char c then let! _ := take_char in token_loop fuel' (acc ++ [c]) else ret acc
      | None => ret acc
      end
  end.

Fixpoint require_all (literal : list N) : M exn parser unit :=
  match literal with
  | [] => ret tt
  | c :: literal' => require c ;;; require_all literal'
  end.

(** One member of an object ([is_map]) or item of an array: the body of the loop. *)
Definition item (child : M exn parser exact) (is_map : bool)
    (mapping : dict pystr exact) (sequence : list exact) : M exn parser (dict pystr exact * list exact) :=
  if is_map then
    let! key := string in
    whitespace ;;;
    require 58 ;;;
    let! v := child in
    ret (d_set key v mapping, sequence)
  else
    let! v := child in
    ret (mapping, sequence ++ [v]).

Definition closing (is_map : bool) : N := if is_map then 125%N else 93%N.

Fixpoint items_loop (child : M exn parser exact) (is_map : bool) (fuel : nat)
    (mapping : dict pystr exact) (sequence : list exact) : M exn parser (dict pystr exact * list exact) :=
  match fuel with
  | O => raise OutOfFuel
  | S fuel' =>
      let! '(mapping, sequence) := item child is_map mapping sequence in
      whitespace ;;;
      let! c := peek in
      if bool_decide (c = Some (closing is_map)) then ret (mapping, sequence)
      else
        require 44 ;;;
        whitespace ;;;
        items_loop child is_map fuel' mapping sequence
  end.

(** The container whose opening character is the next one. *)
Definition container (child : M exn parser exact) (is_map : bool) (fuel : nat) : M exn parser exact :=
  let! _ := take_char in
  whitespace ;;;
  let! c := peek in
  let! '(mapping, sequence) :=
    (if bool_decide (c = Some (closing is_map)) then ret ([], []) else items_loop child is_map fuel [] []) in
  require (closing is_map) ;;;
  ret (if is_map then XMap mapping else XTuple sequence).

Definition charge (depth : Z) : M exn parser unit :=
  modify (fun p => mkParser (chars p) (failure p) (count p + 1)) ;;;
  let! n := gets count in
  raise_if ((max_json_items limits <? n) || (max_json_depth limits <? depth)) WireLimitError.

(** The value whose first character is [c]; [child] reads the values inside it. *)
Definition value_at (child : M exn parser exact) (fuel : nat) (c : N) : M exn parser exact :=
  if (c =? 34)%N then let! s := string in ret (XStr s)
  else if (c =? 123)%N then container child true fuel
  else if (c =? 91)%N then container child false fuel
  else if (c =? 110)%N then require_all (codepoints "null") ;;; ret XNull
  else if (c =? 116)%N then require_all (codepoints "true") ;;; ret (XBool true)
  else if (c =? 102)%N then require_all (codepoints "false") ;;; ret (XBool false)
  else if (c =? 45)%N || digit c then
    let! t := (fun p => token_loop (S (length (chars p))) [] p) in
    let! n := lift (ExactNumber_new (PyStr t)) in
    ret (XNum n)
  else raise WireSyntaxError.

Fixpoint parse_value (fuel : nat) (depth : Z) : M exn parser exact :=
  match fuel with
  | O => raise OutOfFuel
  | S fuel' =>
      charge depth ;;;
      whitespace ;;;
      let! first := peek in
      match first with
      | None => raise WireSyntaxError
      | Some c => value_at (parse_value fuel' (depth + 1)) fuel' c
      end
  end.

(** [except UnicodeError]. *)
Definition unicode_guard {A} (r : result exn A) : result exn A :=
  match r with
  | Raise (OtherError c m) =>
      if bool_decide (c = "UnicodeDecodeError"%py) || bool_decide (c = "UnicodeEncodeError"%py)
      then Raise WireSyntaxError else r
  | _ => r
  end.

Definition decode_document : M exn parser WireDocument :=
  let! v := (fun p => parse_value (S (length (chars p))) 0 p) in
  whitespace ;;;
  let! c := peek in
  raise_if (negb (bool_decide (c = None))) WireSyntaxError ;;;
  lift (WireDocument_new v limits).

Definition decode_wire_stream (chunks : list (list N)) : result exn WireDocument :=
  let '(cs, e) := decode_chunks (max_body_bytes limits) 0 [] chunks in
  unicode_guard (fst (decode_document (mkParser cs e 0))).

Definition decode_wire (payload : list N) : result exn WireDocument := decode_wire_stream [payload].
End Parser.
