(* ===== verification/WireText.v ===== *)
(** * Exact wire JSON: bytes, values and their text

    The UTF-8 decoder on any cut of an encoding, the values the limits admit, the text of a
    value as its encoder writes it, and the characters of number tokens. *)
From Stdlib Require Import ZArith Lia SpecFloat.
From stdpp Require Import base list gmap.
From S2P Require Import Prelude Core Wire.

#[local] Ltac Zify.zify_post_hook ::= Z.to_euclidean_division_equations.

(** ** UTF-8 *)

Definition scalar (c : N) : Prop := (c < 1114112)%N /\ is_surrogate c = false.

Definition enc (c : N) : list N := default [] (utf8_encode_cp c).

(** Resolve the comparisons of numbers of a goal. *)
Ltac ncases :=
  repeat match goal with
  | |- context [(?a <? ?b)%N] => destruct (N.ltb_spec a b); try lia
  | |- context [(?a <=? ?b)%N] => destruct (N.leb_spec a b); try lia
  | |- context [(?a =? ?b)%N] => destruct (N.eqb_spec a b); try lia
  end; cbn [andb orb].

Lemma scalar_range c : scalar c -> (c < 55296 \/ 57343 < c < 1114112)%N.
Proof. unfold scalar, is_surrogate. intros [H Hs]. revert Hs. ncases; done || lia. Qed.

(** A continuation byte within the bounds, and a sequence that ends early. *)
Lemma continue_byte n lo hi acc b l : (lo <= b <= hi)%N ->
  continue (S n) lo hi acc (b :: l) = continue n 128 191 (acc * 64 + (b - 128)) l.
Proof. intros Hb. cbn [continue]. by rewrite (proj2 (N.leb_le _ _)), (proj2 (N.leb_le _ _)) by lia. Qed.

(** The classes of leading bytes. *)
Lemma decode_two b l : (194 <= b <= 223)%N -> decode_step b l = continue 1 128 191 (b - 192) l.
Proof. intros. unfold decode_step. by ncases. Qed.
Lemma decode_three b l : (224 <= b <= 239)%N ->
  decode_step b l = continue 2 (if b =? 224 then 160 else 128)%N (if b =? 237 then 159 else 191)%N (b - 224) l.
Proof. intros. unfold decode_step. by ncases. Qed.
Lemma decode_four b l : (240 <= b <= 244)%N ->
  decode_step b l = continue 3 (if b =? 240 then 144 else 128)%N (if b =? 244 then 143 else 191)%N (b - 240) l.
Proof. intros. unfold decode_step. by ncases. Qed.

(** The bytes of a character: the decoder reads it from them and waits on fewer. *)
Lemma decode_enc c : scalar c -> exists b l, enc c = b :: l /\ utf8_encode_cp c = Some (b :: l) /\
  (forall rest, decode_step b (l ++ rest) = Scalar c rest) /\
  (forall n, (n < length l)%nat -> decode_step b (take n l) = Incomplete).
Proof.
  intros Hc%scalar_range. unfold enc, utf8_encode_cp.
  destruct (N.ltb_spec c 128); [|destruct (N.ltb_spec c 2048); [|destruct ((55296 <=? c) && (c <=? 57343))%N eqn:Es;
    [exfalso; apply andb_true_iff in Es as [?%N.leb_le ?%N.leb_le]; lia|destruct (N.ltb_spec c 65536)]]];
    cbn [default]; do 2 eexists; (split; [reflexivity|]); (split; [reflexivity|]); split.
  - intros rest. unfold decode_step. cbn [app]. by ncases.
  - intros n Hn. cbn in Hn. lia.
  - intros rest. rewrite decode_two by lia. cbn [app]. rewrite continue_byte by lia. cbn [continue]. f_equal. lia.
  - intros [|n] Hn; cbn in Hn; [|lia]. rewrite decode_two by lia. done.
  - intros rest. rewrite decode_three by lia. cbn [app].
    rewrite continue_byte by (ncases; lia). rewrite continue_byte by lia. cbn [continue]. f_equal. lia.
  - intros [|[|n]] Hn; cbn in Hn; [| |lia]; rewrite decode_three by lia; [done|].
    cbn [take]. rewrite continue_byte by (ncases; lia). done.
  - intros rest. rewrite decode_four by lia. cbn [app].
    rewrite continue_byte by (ncases; lia). rewrite !continue_byte by lia. cbn [continue]. f_equal. lia.
  - intros [|[|[|n]]] Hn; cbn in Hn; [| | |lia]; rewrite decode_four by lia; [done|..]; cbn [take];
      rewrite continue_byte by (ncases; lia); [done|]. by rewrite continue_byte by lia.
Qed.

Definition enc_all (cs : list N) : list N := concat (enc <$> cs).

(** The kept bytes are none, or fewer than the next character has. *)
Definition partial (kept cs : list N) : Prop :=
  kept = [] \/ exists c cs', cs = c :: cs' /\ (length kept < length (enc c))%nat.

(** Decoding any prefix of the bytes of a text yields the characters that are complete and
    keeps the bytes of the next one. *)
Lemma decode_prefix cs : Forall scalar cs -> forall fuel p s, p ++ s = enc_all cs -> (length p <= fuel)%nat ->
  exists cs1 cs2 kept, utf8_decode fuel p = Some (cs1, kept) /\ cs = cs1 ++ cs2 /\ kept ++ s = enc_all cs2 /\
    partial kept cs2.
Proof.
  induction 1 as [|c cs Hc _ IH]; intros fuel p s Heq Hf.
  { cbn in Heq. apply app_eq_nil in Heq as [-> ->]. exists [], [], []. split_and!; [by destruct fuel|done|done|by left]. }
  destruct (decode_enc c Hc) as (b & l & Henc & _ & Hfull & Hpart).
  assert (enc_all (c :: cs) = (b :: l) ++ enc_all cs) as He by (unfold enc_all; cbn; by rewrite Henc).
  destruct p as [|x p].
  { exists [], (c :: cs), []. split_and!; [by destruct fuel|done|done|by left]. }
  rewrite He in Heq. cbn in Heq. injection Heq as -> Heq. destruct fuel as [|fuel]; [cbn in Hf; lia|].
  cbn [utf8_decode]. destruct (decide (length l <= length p)%nat) as [Hle|Hlt].
  - assert (p = l ++ drop (length l) p) as Hp.
    { rewrite <- (take_drop (length l) p) at 1. f_equal.
      assert (take (length l) (p ++ s) = take (length l) (l ++ enc_all cs)) as Ht by (by rewrite Heq).
      by rewrite take_app_le, take_app_length in Ht by done. }
    rewrite Hp in Heq |- *. rewrite <- app_assoc in Heq. apply app_inv_head in Heq. rewrite Hfull.
    destruct (IH fuel (drop (length l) p) s Heq) as (cs1 & cs2 & kept & Hd & -> & Hk & Hpar).
    { rewrite length_drop. cbn in Hf. lia. }
    rewrite Hd. by exists (c :: cs1), cs2, kept.
  - assert (p = take (length p) l) as Hp.
    { assert (take (length p) (p ++ s) = take (length p) (l ++ enc_all cs)) as Ht by (by rewrite Heq).
      rewrite take_app_length in Ht. rewrite take_app_le in Ht by lia. done. }
    exists [], (c :: cs), (b :: p). rewrite Hp at 1. rewrite Hpart by lia. split_and!; [done|done| |].
    + rewrite He. cbn. by rewrite Heq.
    + right. exists c, cs. split; [done|]. rewrite Henc. cbn. lia.
Qed.

(** The character stream does not depend on how the bytes are cut into chunks. *)
Lemma decode_chunks_all maximum chunks : forall cs size kept, Forall scalar cs ->
  kept ++ concat chunks = enc_all cs -> size + Z.of_nat (length (concat chunks)) <= maximum ->
  partial kept cs -> decode_chunks maximum size kept chunks = (cs, None).
Proof.
  induction chunks as [|chunk chunks IH]; intros cs size kept Hcs Heq Hmax Hpar; cbn [decode_chunks].
  - cbn in Heq. rewrite app_nil_r in Heq. destruct Hpar as [->|(c & cs' & -> & Hlt)].
    + destruct cs as [|c cs]; [done|]. apply Forall_cons in Hcs as [Hc _].
      destruct (decode_enc c Hc) as (b & l & Henc & _). unfold enc_all in Heq. cbn in Heq. by rewrite Henc in Heq.
    + exfalso. rewrite Heq in Hlt. unfold enc_all in Hlt. cbn in Hlt. rewrite length_app in Hlt. lia.
  - cbn [concat] in Heq, Hmax. rewrite length_app in Hmax. rewrite (proj2 (Z.ltb_ge _ _)) by lia.
    rewrite app_assoc in Heq.
    destruct (decode_prefix cs Hcs (length (kept ++ chunk)) _ _ Heq ltac:(lia)) as (cs1 & cs2 & kept' & Hd & -> & Hk & Hp).
    apply Forall_app in Hcs as [_ Hcs]. rewrite Hd, (IH cs2) by (done || lia). done.
Qed.

Lemma str_encode_enc s b : str_encode s = Ok b -> b = enc_all (codepoints s).
Proof.
  unfold str_encode, enc_all. destruct (mapM utf8_encode_cp (codepoints s)) as [bs|] eqn:Hm; [|done].
  intros [= <-]. f_equal. apply mapM_Some in Hm. induction Hm as [|c x cs bs Hc _ IH]; [done|].
  cbn. unfold enc at 1. by rewrite Hc, IH.
Qed.

Definition piece_text (pieces : list pystr) : list N := concat (codepoints <$> pieces).

(** The encoder writes the UTF-8 bytes of the pieces, within the limit. *)
Lemma encode_pieces_enc lim pieces : forall out payload,
  fold_result (encode_piece lim) pieces out = Ok payload ->
  payload = out ++ enc_all (piece_text pieces) /\
  (Z.of_nat (length out) <= max_body_bytes lim -> Z.of_nat (length payload) <= max_body_bytes lim).
Proof.
  induction pieces as [|p pieces IH]; intros out payload Hrun.
  { injection Hrun as <-. unfold piece_text, enc_all. cbn. by rewrite app_nil_r. }
  cbn [fold_result] in Hrun. fold (@fold_result exn) in Hrun.
  destruct (encode_piece lim out p) as [out1|e] eqn:Hp; [|done]. apply IH in Hrun as [-> Hmax].
  unfold encode_piece in Hp. apply rbind_ok in Hp as ([] & _ & Hp). apply rbind_ok in Hp as (b & Hb & Hp).
  apply rbind_ok in Hp as ([] & Hl & [= <-]). apply reject_if_ok in Hl. time_facts.
  apply str_encode_enc in Hb as ->. split.
  - unfold piece_text, enc_all. cbn. rewrite fmap_app, concat_app. by rewrite app_assoc.
  - intros Ho. apply Hmax. rewrite length_app. lia.
Qed.

(** ** Values *)

Section ExactInd.
Variable P : exact -> Prop.
Hypothesis Hnull : P XNull.
Hypothesis Hbool : forall b, P (XBool b).
Hypothesis Hnum : forall n, P (XNum n).
Hypothesis Hstr : forall s, P (XStr s).
Hypothesis Htuple : forall l, Forall P l -> P (XTuple l).
Hypothesis Hmap : forall l, Forall (fun kv => P (snd kv)) l -> P (XMap l).

(** Induction that reaches the values nested in tuples and mappings. *)
Fixpoint exact_nested_ind (v : exact) : P v :=
  match v with
  | XNull => Hnull
  | XBool b => Hbool b
  | XNum n => Hnum n
  | XStr s => Hstr s
  | XTuple l => Htuple l
      ((fix go (l : list exact) : Forall P l :=
          match l with
          | [] => Forall_nil_2 P
          | x :: l' => Forall_cons_2 P x l' (exact_nested_ind x) (go l')
          end) l)
  | XMap l => Hmap l
      ((fix go (l : list (pystr * exact)) : Forall (fun kv => P (snd kv)) l :=
          match l with
          | [] => Forall_nil_2 _
          | x :: l' => Forall_cons_2 _ x l' (exact_nested_ind (snd x)) (go l')
          end) l)
  end.
End ExactInd.

(** The number of values, as the limits count them. *)
Fixpoint exact_size (v : exact) : Z :=
  match v with
  | XTuple l => 1 + foldr (fun x n => exact_size x + n) 0 l
  | XMap l => 1 + foldr (fun kv n => exact_size (snd kv) + n) 0 l
  | _ => 1
  end.

(** What Python guarantees of the values: number tokens were checked when they were built,
    strings hold code points, a mapping has each key once. *)
Definition text_ok (s : pystr) : Prop := Forall (fun c => (c < 1114112)%N) (codepoints s).
Fixpoint proper (v : exact) : Prop :=
  match v with
  | XNull | XBool _ => True
  | XNum n => _NUMBER (token n) = true
  | XStr s => text_ok s
  | XTuple l => foldr (fun x p => proper x /\ p) True l
  | XMap l => NoDup l.*1 /\ foldr (fun kv p => (text_ok (fst kv) /\ proper (snd kv)) /\ p) True l
  end.

(** Nesting within [n] levels and strings within the limits. *)
Definition string_fits (lim : Limits) (s : pystr) : Prop :=
  str_len s <= max_string_length lim /\ existsb is_surrogate (codepoints s) = false.
Fixpoint fits (lim : Limits) (n : Z) (v : exact) : Prop :=
  0 <= n /\
  match v with
  | XNull | XBool _ | XNum _ => True
  | XStr s => string_fits lim s
  | XTuple l => foldr (fun x p => fits lim (n - 1) x /\ p) True l
  | XMap l => foldr (fun kv p => (string_fits lim (fst kv) /\ fits lim (n - 1) (snd kv)) /\ p) True l
  end.

Lemma exact_size_pos v : 1 <= exact_size v.
Proof.
  induction v using exact_nested_ind; cbn; try lia.
  - assert (0 <= foldr (fun x n => exact_size x + n) 0 l); [|lia]. induction H; cbn; lia.
  - assert (0 <= foldr (fun kv n => exact_size (snd kv) + n) 0 l); [|lia]. induction H; cbn; lia.
Qed.

Lemma string_limit_ok lim s u : _string_limit lim s = Ok u <-> string_fits lim s.
Proof.
  unfold _string_limit, string_fits. rewrite rbind_ok. split.
  - intros ([] & H1 & H2). rewrite reject_if_ok in *. time_facts. done.
  - intros [H1 H2]. exists tt. rewrite !reject_if_ok. split; [by apply Z.ltb_ge|done].
Qed.

Lemma foldr_forall {A} (P : A -> Prop) l : foldr (fun x p => P x /\ p) True l <-> Forall P l.
Proof. induction l as [|x l IH]; cbn; [done|]. by rewrite Forall_cons, IH. Qed.

(** [_freeze] accepts exactly the values within the limits, and counts them. *)
Lemma freeze_ok lim v : forall depth count count',
  freeze lim v depth count = Ok count' <->
  fits lim (max_json_depth lim - depth) v /\ count' = count + exact_size v /\ count' <= max_json_items lim.
Proof.
  induction v using exact_nested_ind; intros depth count count';
    match goal with |- context [exact_size ?v] => pose proof (exact_size_pos v) end; cbn [freeze fits];
    rewrite rbind_ok; setoid_rewrite reject_if_ok; rewrite ?orb_false_iff, ?Z.ltb_ge.
  1-3: cbn; split; [intros (_ & ? & [= <-]); split_and!; done || lia|intros ((? & _) & -> & ?); exists tt; split; [lia|done]].
  - setoid_rewrite rbind_ok. split.
    + intros (_ & ? & ? & Hs & [= <-]). apply string_limit_ok in Hs. cbn in *. split_and!; done || lia.
    + intros ((? & Hs) & -> & ?). exists tt. cbn in *. split; [lia|]. exists tt. by rewrite string_limit_ok.
  - assert (forall c c', c <= max_json_items lim -> fold_result (fun count child => freeze lim child (depth + 1) count) l c = Ok c' <->
      foldr (fun x p => fits lim (max_json_depth lim - depth - 1) x /\ p) True l /\
      c' = c + foldr (fun x n => exact_size x + n) 0 l /\ c' <= max_json_items lim) as Hl.
    { apply fold_count. eapply Forall_impl; [exact H|]. intros x Hx. cbn beta in Hx. pose proof (exact_size_pos x).
      split; [lia|]. intros c c'. rewrite Hx. by rewrite Z.sub_add_distr. }
    assert (0 <= foldr (fun x n => exact_size x + n) 0 l) by (cbn in *; lia). cbn [exact_size] in *. split.
    + intros (_ & ? & Hr). apply Hl in Hr; [|lia]. intuition lia.
    + intros ((? & ?) & -> & ?). exists tt. split; [lia|]. apply Hl; [lia|]. intuition lia.
  - assert (forall c c', c <= max_json_items lim -> fold_result (fun count kv => _string_limit lim (fst kv) ??; freeze lim (snd kv) (depth + 1) count) l c = Ok c' <->
      foldr (fun kv p => (string_fits lim (fst kv) /\ fits lim (max_json_depth lim - depth - 1) (snd kv)) /\ p) True l /\
      c' = c + foldr (fun kv n => exact_size (snd kv) + n) 0 l /\ c' <= max_json_items lim) as Hl.
    { apply (fold_count _ (fun kv => string_fits lim (fst kv) /\ fits lim (max_json_depth lim - depth - 1) (snd kv))
        (fun kv => exact_size (snd kv))). eapply Forall_impl; [exact H|]. intros [k x] Hx. cbn [fst snd] in *.
      pose proof (exact_size_pos x). split; [lia|]. intros c c'. rewrite rbind_ok. setoid_rewrite string_limit_ok.
      setoid_rewrite Hx. rewrite Z.sub_add_distr. split; [intros (_ & ? & ?)|intros (? & ?); exists tt]; tauto. }
    assert (0 <= foldr (fun kv n => exact_size (snd kv) + n) 0 l) by (cbn in *; lia). cbn [exact_size] in *. split.
    + intros (_ & ? & Hr). apply Hl in Hr; [|lia]. intuition lia.
    + intros ((? & ?) & -> & ?). exists tt. split; [lia|]. apply Hl; [lia|]. intuition lia.
Qed.

(** ** The text of a value *)

(** The value with its mappings in key order, an equal value in Python. *)
Fixpoint sort_keys (v : exact) : exact :=
  match v with
  | XTuple l => XTuple (map sort_keys l)
  | XMap l => XMap (sorted_by str_compare fst (map (fun kv => (fst kv, sort_keys (snd kv))) l))
  | _ => v
  end.

Definition text (v : exact) : list N := piece_text (_pieces v).

Lemma pieces_sort_keys v : _pieces (sort_keys v) = _pieces v.
Proof.
  induction v using exact_nested_ind; try done; cbn [sort_keys _pieces].
  - do 3 f_equal. rewrite map_map. by apply map_ext_Forall.
  - do 3 f_equal. rewrite !(sorted_by_map str_compare fst fst) by done.
    rewrite (sorted_by_id str_compare fst (sorted_by str_compare fst l)) by apply sorted_by_sorted, _.
    rewrite !map_map. apply map_ext_Forall. apply Forall_forall. intros kv Hkv. cbn.
    rewrite Forall_forall in H. rewrite H; [done|]. by apply (elem_of_sorted_by str_compare fst).
Qed.

(** Texts separated by commas. *)
Fixpoint joined (l : list (list N)) : list N :=
  match l with
  | [] => []
  | [x] => x
  | x :: l' => x ++ 44%N :: joined l'
  end.

Lemma joined_cons x y l : joined (x :: y :: l) = x ++ 44%N :: joined (y :: l).
Proof. done. Qed.

Lemma piece_text_app a b : piece_text (a ++ b) = piece_text a ++ piece_text b.
Proof. unfold piece_text. by rewrite fmap_app, concat_app. Qed.
Lemma piece_text_cons p b : piece_text (p :: b) = codepoints p ++ piece_text b.
Proof. done. Qed.

Lemma separated_text ls : piece_text (separated ls) = joined (map piece_text ls).
Proof.
  induction ls as [|x ls IH]; [done|]. destruct ls as [|y ls]; [done|].
  change (separated (x :: y :: ls)) with (x ++ ","%py :: separated (y :: ls)).
  by rewrite piece_text_app, piece_text_cons, IH.
Qed.

Lemma text_tuple l : text (XTuple l) = 91%N :: joined (map text l) ++ [93%N].
Proof. unfold text. cbn [_pieces]. by rewrite piece_text_cons, piece_text_app, separated_text, map_map. Qed.

(** The members of a mapping as the encoder orders and writes them. *)
Definition member_text (kv : pystr * exact) : list N := codepoints (json_quote (fst kv)) ++ 58%N :: text (snd kv).
Lemma text_map l : text (XMap l) = 123%N :: joined (map member_text (sorted_by str_compare fst l)) ++ [125%N].
Proof.
  unfold text. cbn [_pieces]. rewrite piece_text_cons, piece_text_app, separated_text.
  rewrite (sorted_by_map str_compare fst fst) by done. by rewrite !map_map.
Qed.

Lemma joined_length l x : x ∈ l -> (length x <= length (joined l))%nat.
Proof.
  induction l as [|y l IH]; [by intros ?%not_elem_of_nil|]. intros [->|Hx]%elem_of_cons.
  - destruct l; [done|]. rewrite joined_cons, length_app. lia.
  - specialize (IH Hx). destruct l; [by apply not_elem_of_nil in Hx|]. rewrite joined_cons, length_app.
    cbn [length]. lia.
Qed.
Lemma joined_count l : (forall x, x ∈ l -> x <> []) -> (length l <= length (joined l))%nat.
Proof.
  induction l as [|y l IH]; intros Hne; [done|]. assert (y <> []) as Hy by (apply Hne; left).
  destruct y as [|c y]; [done|]. destruct l as [|z l]; [cbn; lia|]. rewrite joined_cons, length_app.
  assert (S (length l) <= length (joined (z :: l)))%nat as Hl; [|cbn [length] in *; lia].
  apply IH. intros x Hx. apply Hne. by right.
Qed.

(** ** Number tokens *)

Lemma skip_digits_app l : exists ds, l = ds ++ skip_digits l /\ Forall (fun c => digit c = true) ds.
Proof.
  induction l as [|c l (ds & Hl & Hd)]; [by exists []|]. cbn. destruct (digit c) eqn:Hc.
  - exists (c :: ds). cbn. rewrite <- Hl. split; [done|by constructor].
  - by exists [].
Qed.

(** A part of the token: what a matcher consumed are number characters. *)
Definition consumed (l rest : list N) : Prop :=
  exists ds, l = ds ++ rest /\ Forall (fun c => is_number_char c = true) ds.

Lemma digit_number c : digit c = true -> is_number_char c = true.
Proof. unfold is_number_char. by intros ->. Qed.

Lemma consumed_refl l : consumed l l.
Proof. exists []. done. Qed.
Lemma consumed_cons c l r : is_number_char c = true -> consumed l r -> consumed (c :: l) r.
Proof. intros Hc (ds & -> & Hd). exists (c :: ds). split; [done|by constructor]. Qed.
Lemma consumed_trans l m r : consumed l m -> consumed m r -> consumed l r.
Proof.
  intros (d1 & -> & H1) (d2 & -> & H2). exists (d1 ++ d2). rewrite <- app_assoc. split; [done|by apply Forall_app].
Qed.
Lemma consumed_skip l : consumed l (skip_digits l).
Proof.
  destruct (skip_digits_app l) as (ds & Hl & Hd). exists ds. split; [done|].
  eapply Forall_impl; [exact Hd|]. intros c. apply digit_number.
Qed.

Lemma match_minus_consumed l : consumed l (match_minus l).
Proof.
  destruct l as [|c l]; [apply consumed_refl|]. destruct (decide (c = 45%N)) as [->|Hc].
  - apply consumed_cons; [done|apply consumed_refl].
  - assert (match_minus (c :: l) = c :: l) as ->; [|apply consumed_refl].
    cbn. repeat (case_match; try done).
Qed.
Lemma match_int_consumed l r : match_int l = Some r -> consumed l r.
Proof.
  unfold match_int. destruct l as [|c l]; [done|]. destruct (N.eqb_spec c 48) as [->|_].
  - intros [= <-]. apply consumed_cons; [done|apply consumed_refl].
  - destruct (digit c) eqn:Hc; [|done]. intros [= <-]. apply consumed_cons; [by apply digit_number|apply consumed_skip].
Qed.
Lemma match_digits_consumed l r : match_digits l = Some r -> consumed l r.
Proof.
  unfold match_digits. destruct l as [|c l]; [done|]. destruct (digit c) eqn:Hc; [|done].
  intros [= <-]. apply consumed_cons; [by apply digit_number|apply consumed_skip].
Qed.
Lemma match_fraction_consumed l r : match_fraction l = Some r -> consumed l r.
Proof.
  destruct l as [|c l]; [intros [= <-]; apply consumed_refl|]. destruct (decide (c = 46%N)) as [->|Hc].
  - intros Hr. apply consumed_cons; [done|]. by apply match_digits_consumed.
  - assert (match_fraction (c :: l) = Some (c :: l)) as -> by (cbn; repeat (case_match; try done)).
    intros [= <-]. apply consumed_refl.
Qed.
Lemma match_exponent_consumed l r : match_exponent l = Some r -> consumed l r.
Proof.
  unfold match_exponent. destruct l as [|c l]; [intros [= <-]; apply consumed_refl|].
  destruct ((c =? 101) || (c =? 69))%N eqn:Hc; [|intros [= <-]; apply consumed_refl]. intros Hr.
  apply consumed_cons; [unfold is_number_char; rewrite <- orb_assoc, Hc; apply orb_true_r|].
  destruct l as [|s l]; [done|]. destruct ((s =? 43) || (s =? 45))%N eqn:Hs.
  - apply consumed_cons; [|by apply match_digits_consumed]. apply orb_true_iff in Hs as [->%N.eqb_eq| ->%N.eqb_eq]; done.
  - by apply match_digits_consumed.
Qed.

Lemma match_int_head l r : match_int l = Some r -> exists c l', l = c :: l' /\ digit c = true.
Proof.
  unfold match_int. destruct l as [|c l]; [done|]. intros Hr. exists c, l. split; [done|].
  destruct (N.eqb_spec c 48) as [->|_]; [done|]. by destruct (digit c).
Qed.

(** A number token consists of number characters and starts with a digit or a minus sign. *)
Lemma number_chars t : _NUMBER t = true ->
  Forall (fun c => is_number_char c = true) (codepoints t) /\
  exists c l, codepoints t = c :: l /\ (c = 45%N \/ digit c = true).
Proof.
  unfold _NUMBER. destruct (match_int (match_minus (codepoints t))) as [l1|] eqn:H1; [|done].
  destruct (match_fraction l1) as [l2|] eqn:H2; [|done].
  destruct (match_exponent l2) as [[|]|] eqn:H3; try done. intros _. split.
  - assert (consumed (codepoints t) []) as (ds & -> & Hd); [|by rewrite app_nil_r].
    eapply consumed_trans; [apply match_minus_consumed|]. eapply consumed_trans; [by apply match_int_consumed|].
    eapply consumed_trans; [by apply match_fraction_consumed|by apply match_exponent_consumed].
  - destruct (match_int_head _ _ H1) as (c & l & Hl & Hc).
    destruct (codepoints t) as [|c0 l0]; [done|]. exists c0, l0. split; [done|].
    destruct (decide (c0 = 45%N)) as [->|Hne]; [by left|right].
    assert (match_minus (c0 :: l0) = c0 :: l0) as Hm by (cbn; repeat (case_match; try done)).
    rewrite Hm in Hl. by injection Hl as -> ->.
Qed.
