(* ===== verification/WireRoundTrip.v ===== *)
(** * Exact wire JSON: encoding and parsing agree

    Every document that can be built is read back from its encoding, however the bytes are
    cut into chunks, and reading never runs out of fuel. *)
From Stdlib Require Import ZArith Lia SpecFloat.
From stdpp Require Import base list gmap.
From S2P Require Import Prelude Core Wire WireText.

(** ** The parser on rendered text *)

(** The characters that may follow a value. *)
Definition delim (rest : list N) : Prop :=
  match rest with [] => True | c :: _ => (c = 44 \/ c = 93 \/ c = 125)%N end.
Definition unblank (l : list N) : Prop := match l with [] => True | c :: _ => is_blank c = false end.

Lemma delim_unblank rest : delim rest -> unblank rest.
Proof. destruct rest; [done|]. by intros [->|[->| ->]]. Qed.

Lemma peek_cons c l n : peek (mkParser (c :: l) None n) = (Ok (Some c), mkParser (c :: l) None n).
Proof. done. Qed.
Lemma take_cons c l n : take_char (mkParser (c :: l) None n) = (Ok (Some c), mkParser l None n).
Proof. done. Qed.

Lemma whitespace_none l n : unblank l -> whitespace (mkParser l None n) = (Ok tt, mkParser l None n).
Proof.
  unfold whitespace. cbn [chars]. destruct l as [|c l]; [done|]. intros Hc. cbn in Hc.
  cbn [whitespace_loop length]. unfold bind. rewrite peek_cons. by rewrite Hc.
Qed.

Lemma require_cons c l n : require c (mkParser (c :: l) None n) = (Ok tt, mkParser l None n).
Proof. unfold require, bind. rewrite take_cons. unfold raise_if. by rewrite bool_decide_true. Qed.

Lemma require_all_app w l n : require_all w (mkParser (w ++ l) None n) = (Ok tt, mkParser l None n).
Proof.
  induction w as [|c w IH]; [done|]. cbn [require_all app]. unfold bind. by rewrite require_cons.
Qed.

(** *** Strings *)

(** The escape of a character is itself, or a backslash and a sequence that denotes it. *)
Lemma escape_cases c : (json_escape c = [c] /\ (32 <= c)%N /\ c <> 34%N /\ c <> 92%N) \/
  exists e, json_escape c = 92%N :: e /\
    forall rest n, escape (mkParser (e ++ rest) None n) = (Ok c, mkParser rest None n).
Proof.
  destruct (N.ltb_spec c 32) as [Hlt|Hge].
  - right. assert (exists m, (m < 32)%nat /\ c = N.of_nat m) as (m & Hm & ->) by (exists (N.to_nat c); lia).
    do 32 (destruct m as [|m]; [eexists; split; [vm_compute; reflexivity|]; intros rest n; reflexivity|]). lia.
  - destruct (N.eqb_spec c 34) as [->|H34]; [right; exists [34%N]; done|].
    destruct (N.eqb_spec c 92) as [->|H92]; [right; exists [92%N]; done|].
    left. split_and!; try done. unfold json_escape. by ncases.
Qed.

Lemma string_loop_text lim l : forall fuel acc rest n,
  (length l < fuel)%nat -> Z.of_nat (length acc + length l) <= max_string_length lim ->
  string_loop lim fuel acc (mkParser (concat (json_escape <$> l) ++ 34%N :: rest) None n) =
    (Ok (PyStr (acc ++ l)), mkParser rest None n).
Proof.
  induction l as [|c l IH]; intros fuel acc rest n Hf Hmax; (destruct fuel as [|fuel]; [cbn in Hf; lia|]);
    cbn [string_loop fmap list_fmap concat app].
  - erewrite bind_run; [|apply take_cons]. by rewrite app_nil_r.
  - rewrite <- app_assoc. cbn [length] in *. destruct (escape_cases c) as [(-> & Hge & H34 & H92)|(e & -> & He)].
    + cbn [app]. erewrite bind_run; [|apply take_cons]. cbv beta iota.
      rewrite (proj2 (N.eqb_neq _ _)) by done. erewrite bind_run; [|unfold raise_if; rewrite (proj2 (N.ltb_ge _ _)) by done; reflexivity].
      rewrite (proj2 (N.eqb_neq c 92)) by done. erewrite bind_run; [|reflexivity].
      erewrite bind_run; [|unfold raise_if; rewrite (proj2 (Z.leb_gt _ _)) by lia; reflexivity].
      rewrite IH by (rewrite ?length_app; cbn [length]; lia). by rewrite <- app_assoc.
    + cbn [app]. erewrite bind_run; [|apply take_cons]. cbv beta iota. cbn [N.eqb Pos.eqb].
      erewrite bind_run; [|reflexivity]. cbv beta iota. erewrite bind_run; [|apply He].
      erewrite bind_run; [|unfold raise_if; rewrite (proj2 (Z.leb_gt _ _)) by lia; reflexivity].
      rewrite IH by (rewrite ?length_app; cbn [length]; lia). by rewrite <- app_assoc.
Qed.

Lemma escape_length c : (1 <= length (json_escape c))%nat.
Proof. destruct (escape_cases c) as [(-> & _)|(e & -> & _)]; cbn; lia. Qed.
Lemma escapes_length l : (length l <= length (concat (json_escape <$> l)))%nat.
Proof. induction l as [|c l IH]; cbn; [lia|]. rewrite length_app. pose proof (escape_length c). lia. Qed.

Lemma string_text lim s rest n : str_len s <= max_string_length lim ->
  string lim (mkParser (codepoints (json_quote s) ++ rest) None n) = (Ok s, mkParser rest None n).
Proof.
  intros Hs. unfold string, json_quote. cbn [codepoints app]. erewrite bind_run; [|apply require_cons].
  cbv beta. rewrite <- app_assoc. cbn [app]. rewrite string_loop_text; [by destruct s| |].
  - cbn [chars]. rewrite length_app. pose proof (escapes_length (codepoints s)). lia.
  - done.
Qed.

(** *** Numbers *)

Lemma delim_no_number rest n acc fuel : delim rest -> token_loop (S fuel) acc (mkParser rest None n) = (Ok acc, mkParser rest None n).
Proof.
  intros Hd. cbn [token_loop]. unfold bind. destruct rest as [|c rest]; [done|]. rewrite peek_cons.
  by destruct Hd as [->|[->| ->]].
Qed.

Lemma token_loop_text l : forall fuel acc rest n, Forall (fun c => is_number_char c = true) l ->
  delim rest -> (length l < fuel)%nat ->
  token_loop fuel acc (mkParser (l ++ rest) None n) = (Ok (acc ++ l), mkParser rest None n).
Proof.
  induction l as [|c l IH]; intros fuel acc rest n Hl Hd Hf; (destruct fuel as [|fuel]; [cbn in Hf; lia|]).
  - rewrite app_nil_r. by apply delim_no_number.
  - apply Forall_cons in Hl as [Hc Hl]. cbn [token_loop app]. erewrite bind_run; [|apply peek_cons].
    cbv beta iota. rewrite Hc. erewrite bind_run; [|apply take_cons]. cbn in Hf. rewrite IH by (done || lia).
    by rewrite <- app_assoc.
Qed.

(** *** Containers *)

(** The first character of a value's text. *)
Lemma text_head v : proper v -> exists c l, text v = c :: l /\ is_blank c = false /\ c <> 93%N /\ c <> 125%N.
Proof.
  destruct v as [|[]|[t]|s|l|l]; intros Hv.
  all: try (by do 2 eexists).
  - destruct (number_chars t Hv) as [_ (c & l & Hl & Hc)]. exists c, l.
    assert (text (XNum (mkExactNumber t)) = codepoints t) as -> by apply app_nil_r. split; [done|].
    destruct Hc as [->|Hc]; [done|]. apply andb_true_iff in Hc as [?%N.leb_le ?%N.leb_le].
    unfold is_blank. ncases.
Qed.

Lemma text_nonempty v : proper v -> text v <> [].
Proof. intros Hv Hn. destruct (text_head v Hv) as (? & ? & ? & _). congruence. Qed.

Section Loop.
Context (lim : Limits) (child : M exn parser exact).

(** After the last item the loop ends in front of the closing character. *)
Lemma items_loop_last is_map fuel m s p m' s' rest n :
  item lim child is_map m s p = (Ok (m', s'), mkParser (closing is_map :: rest) None n) ->
  items_loop lim child is_map (S fuel) m s p = (Ok (m', s'), mkParser (closing is_map :: rest) None n).
Proof.
  intros Hi. cbn [items_loop]. erewrite bind_run; [|exact Hi]. cbv beta iota.
  erewrite bind_run; [|apply whitespace_none; by destruct is_map]. erewrite bind_run; [|apply peek_cons].
  by rewrite bool_decide_true.
Qed.

(** After a comma it goes on with the next one. *)
Lemma items_loop_next is_map fuel m s p m' s' rest n :
  item lim child is_map m s p = (Ok (m', s'), mkParser (44%N :: rest) None n) -> unblank rest ->
  items_loop lim child is_map (S fuel) m s p = items_loop lim child is_map fuel m' s' (mkParser rest None n).
Proof.
  intros Hi Hu. cbn [items_loop]. erewrite bind_run; [|exact Hi]. cbv beta iota.
  erewrite bind_run; [|by apply whitespace_none]. erewrite bind_run; [|apply peek_cons].
  rewrite bool_decide_false by (by destruct is_map). erewrite bind_run; [|apply require_cons].
  erewrite bind_run; [|by apply whitespace_none]. done.
Qed.
End Loop.

(** Reading a value in front of a delimiter yields it with its keys in order, and charges
    its size. *)
Definition reads (lim : Limits) (child : M exn parser exact) (v : exact) : Prop :=
  forall rest n, delim rest -> n + exact_size v <= max_json_items lim ->
    child (mkParser (text v ++ rest) None n) = (Ok (sort_keys v), mkParser rest None (n + exact_size v)).

Definition sizes (l : list exact) : Z := foldr (fun x n => exact_size x + n) 0 l.
Lemma sizes_cons x l : sizes (x :: l) = exact_size x + sizes l.
Proof. done. Qed.
Lemma sizes_nonneg l : 0 <= sizes l.
Proof. induction l as [|x l IH]; [done|]. rewrite sizes_cons. pose proof (exact_size_pos x). lia. Qed.

(** The text of items starts like the first of them. *)
Lemma joined_unblank t ts rest : (exists c l, t = c :: l /\ is_blank c = false) -> unblank (joined (t :: ts) ++ rest).
Proof. intros (c & l & -> & Hc). by destruct ts. Qed.

Lemma text_unblank x : proper x -> exists c l, text x = c :: l /\ is_blank c = false.
Proof. intros Hx. destruct (text_head x Hx) as (c & l & Ht & Hc & _). eauto. Qed.

Lemma array_loop lim child l : forall fuel m s x rest n,
  Forall (fun v => proper v /\ reads lim child v) (x :: l) -> (length (x :: l) <= fuel)%nat ->
  n + sizes (x :: l) <= max_json_items lim ->
  items_loop lim child false fuel m s (mkParser (joined (map text (x :: l)) ++ 93%N :: rest) None n) =
    (Ok (m, s ++ map sort_keys (x :: l)), mkParser (93%N :: rest) None (n + sizes (x :: l))).
Proof.
  induction l as [|y l IH]; intros fuel m s x rest n Hl Hf Hn; (destruct fuel as [|fuel]; [cbn in Hf; lia|]);
    apply Forall_cons in Hl as [[Hx Hread] Hl]; rewrite sizes_cons in *.
  - change (sizes []) with 0 in *. rewrite Z.add_0_r in *. eapply (items_loop_last lim child false).
    unfold item. erewrite bind_run; [|apply Hread; [by right; left|done]]. done.
  - pose proof (sizes_nonneg (y :: l)). cbn [map] in *. rewrite joined_cons, <- app_assoc. cbn [app].
    erewrite (items_loop_next lim child false).
    2: { unfold item. erewrite bind_run; [|apply Hread; [by left|lia]]. done. }
    2: { apply joined_unblank, text_unblank. by inversion Hl as [|?? [] ]. }
    rewrite IH; [|done|cbn in *; lia|lia]. by rewrite <- app_assoc, Z.add_assoc.
Qed.

(** The members of an object, whose keys are new and distinct. *)

Definition sort_member (kv : pystr * exact) : pystr * exact := (fst kv, sort_keys (snd kv)).

Lemma member_item lim child m s kv c rest n :
  string_fits lim (fst kv) -> proper (snd kv) -> reads lim child (snd kv) -> delim (c :: rest) ->
  n + exact_size (snd kv) <= max_json_items lim -> fst kv ∉ m.*1 ->
  item lim child true m s (mkParser (member_text kv ++ c :: rest) None n) =
    (Ok (m ++ [sort_member kv], s), mkParser (c :: rest) None (n + exact_size (snd kv))).
Proof.
  intros [Hk _] Hv Hread Hd Hn Hm. unfold item, member_text. rewrite <- app_assoc. cbn [app].
  erewrite bind_run; [|by apply string_text]. erewrite bind_run; [|by apply whitespace_none].
  erewrite bind_run; [|apply require_cons]. erewrite bind_run; [|by apply Hread]. by rewrite d_set_fresh.
Qed.

Lemma object_loop lim child l : forall fuel m s x rest n,
  Forall (fun kv => string_fits lim (fst kv) /\ proper (snd kv) /\ reads lim child (snd kv)) (x :: l) ->
  (length (x :: l) <= fuel)%nat -> NoDup (m.*1 ++ (x :: l).*1) ->
  n + sizes (map snd (x :: l)) <= max_json_items lim ->
  items_loop lim child true fuel m s (mkParser (joined (map member_text (x :: l)) ++ 125%N :: rest) None n) =
    (Ok (m ++ map sort_member (x :: l), s), mkParser (125%N :: rest) None (n + sizes (map snd (x :: l)))).
Proof.
  induction l as [|y l IH]; intros fuel m s x rest n Hl Hf Hnd Hn; (destruct fuel as [|fuel]; [cbn in Hf; lia|]);
    apply Forall_cons in Hl as [(Hk & Hx & Hread) Hl]; cbn [map] in *; rewrite sizes_cons in *;
    (assert (fst x ∉ m.*1) as Hm by (intros ?; apply NoDup_app in Hnd as (_ & Hnd & _); by eapply Hnd, list_elem_of_here)).
  - change (sizes []) with 0 in *. rewrite Z.add_0_r in *. eapply (items_loop_last lim child true).
    apply member_item; try done. by right; right.
  - pose proof (sizes_nonneg (snd y :: map snd l)). rewrite joined_cons, <- app_assoc. cbn [app].
    erewrite (items_loop_next lim child true).
    2: { apply member_item; try done; [by left|lia]. }
    2: { apply joined_unblank. by do 2 eexists. }
    rewrite IH; [|done|cbn in *; lia|by rewrite fmap_app, <- app_assoc|lia].
    by rewrite <- app_assoc, Z.add_assoc.
Qed.

(** An empty container, and one with items. *)
Lemma container_empty lim child is_map fuel c rest n :
  container lim child is_map fuel (mkParser (c :: closing is_map :: rest) None n) =
    (Ok (if is_map then XMap [] else XTuple []), mkParser rest None n).
Proof.
  unfold container. erewrite bind_run; [|apply take_cons].
  erewrite bind_run; [|apply whitespace_none; by destruct is_map]. erewrite bind_run; [|apply peek_cons].
  rewrite bool_decide_true by done. erewrite bind_run; [|reflexivity]. cbv beta iota.
  by erewrite bind_run; [|apply require_cons].
Qed.

Lemma container_items lim child is_map fuel c c1 body rest n m s n' :
  is_blank c1 = false -> c1 <> closing is_map ->
  items_loop lim child is_map fuel [] [] (mkParser (c1 :: body) None n) = (Ok (m, s), mkParser (closing is_map :: rest) None n') ->
  container lim child is_map fuel (mkParser (c :: c1 :: body) None n) =
    (Ok (if is_map then XMap m else XTuple s), mkParser rest None n').
Proof.
  intros Hb Hne Hloop. unfold container. erewrite bind_run; [|apply take_cons].
  erewrite bind_run; [|by apply whitespace_none]. erewrite bind_run; [|apply peek_cons].
  rewrite bool_decide_false by congruence. erewrite bind_run; [|exact Hloop]. cbv beta iota.
  by erewrite bind_run; [|apply require_cons].
Qed.

Lemma parse_head lim fuel depth c l n : is_blank c = false -> n + 1 <= max_json_items lim -> depth <= max_json_depth lim ->
  parse_value lim (S fuel) depth (mkParser (c :: l) None n) =
    value_at lim (parse_value lim fuel (depth + 1)) fuel c (mkParser (c :: l) None (n + 1)).
Proof.
  intros Hb Hn Hd. cbn [parse_value]. erewrite bind_run with (a := tt) (s1 := mkParser (c :: l) None (n + 1)).
  - erewrite bind_run; [|by apply whitespace_none]. by erewrite bind_run; [|apply peek_cons].
  - unfold charge, bind, modify, gets, raise_if. cbn. by rewrite !(proj2 (Z.ltb_ge _ _)) by done.
Qed.

(** ** Every value is read back from its text *)

Lemma exact_size_map l : exact_size (XMap l) = 1 + sizes (map snd l).
Proof. cbn. f_equal. induction l as [|x l IH]; cbn; [done|]. by rewrite IH. Qed.

#[export] Instance sizes_proper : Proper (Permutation ==> eq) sizes.
Proof. intros l l' Hl. induction Hl; rewrite ?sizes_cons; lia. Qed.

Lemma proper_map l : proper (XMap l) <-> NoDup l.*1 /\ Forall (fun kv => text_ok (fst kv) /\ proper (snd kv)) l.
Proof. cbn [proper]. by rewrite foldr_forall. Qed.
Lemma fits_map lim d l : fits lim d (XMap l) <->
  0 <= d /\ Forall (fun kv => string_fits lim (fst kv) /\ fits lim (d - 1) (snd kv)) l.
Proof. cbn [fits]. by rewrite foldr_forall. Qed.

Lemma member_text_length kv : (length (text (snd kv)) < length (member_text kv))%nat.
Proof. unfold member_text. rewrite length_app. cbn. lia. Qed.

Lemma parse_array lim l fuel depth :
  (forall v, v ∈ l -> proper v /\ reads lim (parse_value lim fuel (depth + 1)) v) ->
  (length (text (XTuple l)) < S fuel)%nat -> depth <= max_json_depth lim ->
  reads lim (parse_value lim (S fuel) depth) (XTuple l).
Proof.
  intros Hl Hf Hd rest n _ Hn. pose proof (exact_size_pos (XTuple l)).
  change (exact_size (XTuple l)) with (1 + sizes l) in *. rewrite text_tuple in *. cbn [app].
  rewrite parse_head by (done || lia). change (value_at lim ?ch fuel 91%N) with (container lim ch false fuel).
  rewrite <- app_assoc. cbn [app length] in *. destruct l as [|x l].
  { cbn [map joined app]. rewrite (container_empty lim _ false). change (sizes []) with 0. by rewrite Z.add_0_r. }
  assert (proper x) as Hx by (apply Hl; left). destruct (text_head x Hx) as (c & t & Ht & Hb & Hne & _).
  assert (exists body, joined (map text (x :: l)) ++ 93%N :: rest = c :: body) as (body & Hbody).
  { cbn [map]. destruct (map text l); [|rewrite joined_cons]; cbn [joined]; rewrite Ht; eauto. }
  rewrite Hbody. erewrite (container_items lim _ false); [|done|done|].
  2: { rewrite <- Hbody. apply (array_loop lim); [by apply Forall_forall| |lia].
       rewrite length_app in Hf. cbn [length] in Hf. rewrite <- (length_map text (x :: l)).
       etransitivity; [apply joined_count|lia]. intros y Hy. apply list_elem_of_fmap in Hy as (v & -> & Hv).
       apply text_nonempty. by apply Hl. }
  cbn [app sort_keys]. by rewrite <- Z.add_assoc.
Qed.

Lemma parse_object lim l fuel depth : NoDup l.*1 ->
  (forall kv, kv ∈ l -> string_fits lim (fst kv) /\ proper (snd kv) /\ reads lim (parse_value lim fuel (depth + 1)) (snd kv)) ->
  (length (text (XMap l)) < S fuel)%nat -> depth <= max_json_depth lim ->
  reads lim (parse_value lim (S fuel) depth) (XMap l).
Proof.
  intros Hnd Hl Hf Hd rest n _ Hn. rewrite exact_size_map in *.
  cbn [sort_keys]. rewrite text_map in *. rewrite (sorted_by_map str_compare fst) by done.
  assert (sorted_by str_compare fst l ≡ₚ l) as Hp by apply sorted_by_perm.
  rewrite <- Hp in Hnd, Hn. rewrite <- Hp at 3. setoid_rewrite <- Hp in Hl.
  revert Hnd Hl Hf Hn. generalize (sorted_by str_compare fst l). clear Hp. clear l.
  intros l Hnd Hl Hf Hn. pose proof (sizes_nonneg (map snd l)).
  cbn [app]. rewrite parse_head by (done || lia). change (value_at lim ?ch fuel 123%N) with (container lim ch true fuel).
  rewrite <- app_assoc. cbn [app length] in *. destruct l as [|x l].
  { cbn [map joined app]. rewrite (container_empty lim _ true). change (sizes []) with 0. by rewrite Z.add_0_r. }
  assert (exists body, joined (map member_text (x :: l)) ++ 125%N :: rest = 34%N :: body) as (body & Hbody).
  { cbn [map]. destruct (map member_text l); [|rewrite joined_cons]; cbn [joined]; by eexists. }
  rewrite Hbody. erewrite (container_items lim _ true); [|done|done|].
  2: { rewrite <- Hbody. apply (object_loop lim); [by apply Forall_forall| |done|lia].
       rewrite length_app in Hf. cbn [length] in Hf. rewrite <- (length_map member_text (x :: l)).
       etransitivity; [apply joined_count|lia]. intros y Hy. apply list_elem_of_fmap in Hy as (v & -> & Hv). done. }
  cbn [app]. by rewrite <- Z.add_assoc.
Qed.

Lemma parse_number lim t fuel depth : _NUMBER (token t) = true -> depth <= max_json_depth lim ->
  reads lim (parse_value lim (S fuel) depth) (XNum t).
Proof.
  intros Ht Hd rest n Hdelim Hn. cbn [exact_size] in *. destruct (number_chars (token t) Ht) as [Hall (c & l & Hl & Hc)].
  assert (text (XNum t) = codepoints (token t)) as -> by apply app_nil_r. rewrite Hl. cbn [app].
  assert (is_blank c = false /\ value_at lim (parse_value lim fuel (depth + 1)) fuel c =
    (let! t := (fun p => token_loop (S (length (chars p))) [] p) in
     let! n := lift (ExactNumber_new (PyStr t)) in ret (XNum n))) as [Hb Hat].
  { destruct Hc as [->|Hc]; [done|]. pose proof Hc as Hc'. apply andb_true_iff in Hc as [?%N.leb_le ?%N.leb_le].
    unfold value_at, is_blank. rewrite Hc', orb_true_r. by ncases. }
  rewrite parse_head by done. rewrite Hat. erewrite bind_run.
  2: { cbv beta. cbn [chars]. rewrite app_comm_cons, <- Hl. apply token_loop_text; [done|done|].
       rewrite length_app. lia. }
  cbn [app]. destruct t as [[cs]]. erewrite bind_run; [|unfold lift, ExactNumber_new; cbn in Ht |- *; by rewrite Ht].
  done.
Qed.

Lemma parse_string lim s fuel depth : string_fits lim s -> depth <= max_json_depth lim ->
  reads lim (parse_value lim (S fuel) depth) (XStr s).
Proof.
  intros [Hs _] Hd rest n _ Hn. assert (text (XStr s) = codepoints (json_quote s)) as -> by apply app_nil_r.
  unfold json_quote at 1. cbn [codepoints app]. rewrite parse_head by done.
  change (value_at lim ?ch fuel 34%N) with (let! s := string lim in ret (XStr s)).
  erewrite bind_run; [|by apply (string_text lim s)]. done.
Qed.

(** With more fuel than characters, the parser reads every value within the limits. *)
Lemma parse_text lim v : forall fuel depth, proper v -> fits lim (max_json_depth lim - depth) v ->
  (length (text v) < fuel)%nat -> reads lim (parse_value lim fuel depth) v.
Proof.
  induction v using exact_nested_ind; intros fuel depth Hv Hfit Hf; (destruct fuel as [|fuel]; [lia|]);
    pose proof Hfit as [Hdepth Hfit'].
  - intros rest n _ Hn. change (text XNull ++ rest) with (110%N :: codepoints "ull" ++ rest).
    rewrite parse_head by (done || lia). unfold value_at. cbn [N.eqb Pos.eqb].
    erewrite bind_run; [|apply (require_all_app (codepoints "null"))]. done.
  - intros rest n _ Hn. destruct b.
    + change (text (XBool true) ++ rest) with (116%N :: codepoints "rue" ++ rest).
      rewrite parse_head by (done || lia). unfold value_at. cbn [N.eqb Pos.eqb].
      erewrite bind_run; [|apply (require_all_app (codepoints "true"))]. done.
    + change (text (XBool false) ++ rest) with (102%N :: codepoints "alse" ++ rest).
      rewrite parse_head by (done || lia). unfold value_at. cbn [N.eqb Pos.eqb].
      erewrite bind_run; [|apply (require_all_app (codepoints "false"))]. done.
  - apply parse_number; [done|lia].
  - apply parse_string; [done|lia].
  - cbn [proper] in Hv. rewrite foldr_forall in Hv, Hfit'. rewrite Forall_forall in H, Hv, Hfit'.
    apply parse_array; [|done|lia]. intros x Hx. split; [by apply Hv|]. apply H; [done|by apply Hv| |].
    + rewrite Z.sub_add_distr. by apply Hfit'.
    + assert (length (text x) <= length (joined (map text l)))%nat; [by apply joined_length, list_elem_of_fmap_2|].
      rewrite text_tuple in Hf. cbn [length] in Hf. rewrite length_app in Hf. lia.
  - apply proper_map in Hv as [Hnd Hv]. apply fits_map in Hfit as [_ Hfit]. rewrite Forall_forall in H, Hv, Hfit.
    apply parse_object; [done| |done|lia]. intros kv Hkv. destruct (Hfit kv Hkv) as [Hk Hx], (Hv kv Hkv) as [_ Hp].
    split_and!; [done|done|]. apply H; [done|done|by rewrite Z.sub_add_distr|].
    assert (length (member_text kv) <= length (joined (map member_text (sorted_by str_compare fst l))))%nat.
    { apply joined_length, list_elem_of_fmap_2. by apply (elem_of_sorted_by str_compare fst). }
    pose proof (member_text_length kv). rewrite text_map in Hf. cbn [length] in Hf. rewrite length_app in Hf. lia.
Qed.

(** *** Sorting the keys keeps what the limits count *)

Lemma exact_size_sort_keys v : exact_size (sort_keys v) = exact_size v.
Proof.
  induction v using exact_nested_ind; try done.
  - cbn [sort_keys]. change (1 + sizes (map sort_keys l) = 1 + sizes l). f_equal.
    induction H as [|x l Hx _ IH]; [done|]. cbn [map]. by rewrite !sizes_cons, Hx, IH.
  - cbn [sort_keys]. rewrite !exact_size_map. f_equal.
    rewrite (sorted_by_perm str_compare fst (map _ l)), map_map. cbn [snd].
    induction H as [|x l Hx _ IH]; [done|]. cbn [map]. by rewrite !sizes_cons, Hx, IH.
Qed.

Lemma fits_sort_keys lim v : forall d, fits lim d v -> fits lim d (sort_keys v).
Proof.
  induction v using exact_nested_ind; intros d Hf; try done.
  - cbn [sort_keys fits] in *. rewrite foldr_forall in *. destruct Hf as [Hd Hf]. split; [done|].
    apply Forall_map. rewrite Forall_forall in *. intros x Hx. apply H; [done|]. by apply Hf.
  - apply fits_map in Hf as [Hd Hf]. cbn [sort_keys]. apply fits_map. split; [done|].
    rewrite sorted_by_perm. apply Forall_map. rewrite Forall_forall in *. intros x Hx. cbn [fst snd].
    destruct (Hf x Hx). split; [done|]. by apply H.
Qed.

(** *** The characters of a text are Unicode scalars *)

Lemma scalar_compute l : forallb (fun c => (c <? 1114112)%N && negb (is_surrogate c)) l = true -> Forall scalar l.
Proof.
  induction l as [|c l IH]; [by constructor|]. cbn [forallb]. intros [[?%N.ltb_lt ?%negb_true_iff]%andb_true_iff ?]%andb_true_iff.
  apply Forall_cons. split; [done|by apply IH].
Qed.

Lemma escape_scalar c : scalar c -> Forall scalar (json_escape c).
Proof.
  intros Hc. destruct (N.ltb_spec c 32) as [Hlt|Hge].
  - assert (exists m, (m < 32)%nat /\ c = N.of_nat m) as (m & Hm & ->) by (exists (N.to_nat c); lia).
    do 32 (destruct m as [|m]; [by apply scalar_compute|]). lia.
  - unfold json_escape. ncases; try (by apply scalar_compute); by constructor.
Qed.

Lemma quote_scalar lim s : text_ok s -> string_fits lim s -> Forall scalar (codepoints (json_quote s)).
Proof.
  unfold text_ok. intros Hok [_ Hs]. cbn [json_quote codepoints]. apply Forall_cons. split; [done|]. apply Forall_app.
  split; [|by apply scalar_compute]. apply Forall_concat, Forall_map. rewrite Forall_forall in *.
  intros c Hc. apply escape_scalar. split; [by apply Hok|]. destruct (is_surrogate c) eqn:E; [|done].
  rewrite <- Hs. symmetry. apply existsb_exists. exists c. split; [|done]. by apply list_elem_of_In.
Qed.

Lemma joined_scalar ls : Forall (Forall scalar) ls -> Forall scalar (joined ls).
Proof.
  induction ls as [|x ls IH]; intros Hl; [by constructor|]. apply Forall_cons in Hl as [Hx Hl].
  destruct ls as [|y ls]; [done|]. rewrite joined_cons. apply Forall_app. split; [done|].
  apply Forall_cons. split; [done|by apply IH].
Qed.

Lemma number_char_scalar c : is_number_char c = true -> scalar c.
Proof. unfold is_number_char, digit, scalar, is_surrogate. intros Hc. split; revert Hc; ncases; done || lia. Qed.

Lemma text_scalar lim v : forall d, proper v -> fits lim d v -> Forall scalar (text v).
Proof.
  induction v using exact_nested_ind; intros d Hv Hf; try by apply scalar_compute.
  - by apply scalar_compute; destruct b.
  - assert (text (XNum n) = codepoints (token n)) as -> by apply app_nil_r.
    destruct (number_chars _ Hv) as [Hc _]. eapply Forall_impl; [exact Hc|apply number_char_scalar].
  - assert (text (XStr s) = codepoints (json_quote s)) as -> by apply app_nil_r.
    destruct Hf as [_ Hf]. by eapply quote_scalar.
  - cbn [proper fits] in Hv, Hf. rewrite foldr_forall in Hv, Hf. destruct Hf as [_ Hf]. rewrite text_tuple.
    apply Forall_cons. split; [done|]. apply Forall_app. split; [|by apply scalar_compute].
    apply joined_scalar, Forall_map. rewrite Forall_forall in *. intros x Hx. eapply H; [done|by apply Hv|by apply Hf].
  - apply proper_map in Hv as [_ Hv]. apply fits_map in Hf as [_ Hf]. rewrite text_map.
    apply Forall_cons. split; [done|]. apply Forall_app. split; [|by apply scalar_compute].
    apply joined_scalar, Forall_map. rewrite sorted_by_perm. rewrite Forall_forall in *. intros x Hx.
    destruct (Hv x Hx), (Hf x Hx). unfold member_text. apply Forall_app. split; [by eapply quote_scalar|].
    apply Forall_cons. split; [done|]. by eapply H.
Qed.

(** *** The theorem *)

Lemma unicode_guard_ok {A} (a : A) : unicode_guard (Ok a) = Ok a.
Proof. done. Qed.

Lemma encode_sort_keys lim v : encode (mkDocument (sort_keys v) lim) = encode (mkDocument v lim).
Proof. unfold encode, encode_value. cbn [value limits]. by rewrite pieces_sort_keys. Qed.

(** An encoder that wrote something had room for it. *)
Lemma encode_room lim v payload : proper v -> encode (mkDocument v lim) = Ok payload -> 0 <= max_body_bytes lim.
Proof.
  intros Hv He. unfold encode, encode_value in He. cbn [value limits] in He.
  destruct (Z.le_gt_cases 0 (max_body_bytes lim)) as [|Hneg]; [done|exfalso].
  destruct (_pieces v) as [|p ps] eqn:Hps; [by destruct (text_head v Hv) as (? & ? & Ht & _); unfold text in Ht; rewrite Hps in Ht|].
  cbn [fold_result] in He. unfold encode_piece in He at 1. unfold reject_if at 1 in He.
  unfold str_len in He. cbn [length] in He. by rewrite (proj2 (Z.ltb_lt _ _)) in He by lia.
Qed.

(** The decoder reads back what was written. *)
Lemma wire_read_back lim v d payload chunks :
  proper v -> WireDocument_new v lim = Ok d -> encode d = Ok payload -> concat chunks = payload ->
  d = mkDocument v lim /\ decode_wire_stream lim chunks = Ok (mkDocument (sort_keys v) lim).
Proof.
  intros Hv Hd He Hc. unfold WireDocument_new in Hd. apply rbind_ok in Hd as (k & Hk & Hd).
  apply rbind_ok in Hd as (b & Hb & [= <-]). rewrite He in Hb. injection Hb as <-. split; [done|].
  pose proof (encode_room lim v payload Hv He) as Hpos.
  assert (encode (mkDocument (sort_keys v) lim) = Ok payload) as He' by by rewrite encode_sort_keys.
  apply freeze_ok in Hk as (Hf & -> & Hn).
  pose proof (text_scalar lim v _ Hv Hf) as Hscalar.
  destruct (encode_pieces_enc lim _ [] payload He) as [Hp Hmax]. cbn [app] in Hp. fold (text v) in Hp.
  unfold decode_wire_stream.
  rewrite (decode_chunks_all _ chunks (text v)); [|done|by rewrite Hc|cbn [length] in Hmax; rewrite Hc; lia|by left].
  assert (reads lim (parse_value lim (S (length (text v))) 0) v) as Hr by (apply parse_text; [done|done|lia]).
  specialize (Hr [] 0 I Hn). rewrite app_nil_r in Hr.
  unfold decode_document. erewrite bind_run; [|exact Hr].
  erewrite bind_run; [|by apply whitespace_none]. erewrite bind_run; [|reflexivity]. erewrite bind_run; [|reflexivity].
  unfold lift. cbn [fst]. unfold WireDocument_new.
  rewrite (proj2 (freeze_ok lim (sort_keys v) 0 0 (0 + exact_size v))); [cbn [rbind]; by rewrite He'|].
  rewrite exact_size_sort_keys. split_and!; [|done|done]. by apply fits_sort_keys.
Qed.

(** C12. A document that can be built is read back from its encoding: whatever the chunks its
    bytes arrive in, the stream decoder returns the same value with its keys in order, and
    encoding that again gives the same bytes. Numbers keep their tokens. *)
Theorem wire_round_trip lim v d payload chunks :
  proper v -> WireDocument_new v lim = Ok d -> encode d = Ok payload -> concat chunks = payload ->
  decode_wire_stream lim chunks = Ok (mkDocument (sort_keys v) lim) /\
  encode (mkDocument (sort_keys v) lim) = Ok payload.
Proof.
  intros Hv Hd He Hc. destruct (wire_read_back lim v d payload chunks Hv Hd He Hc) as [-> Hr].
  split; [done|]. by rewrite encode_sort_keys.
Qed.

Lemma text_ok_compute s : forallb (fun c => (c <? 1114112)%N) (codepoints s) = true -> text_ok s.
Proof. rewrite List.forallb_forall. intros Hs. apply List.Forall_forall. intros c Hc. by apply N.ltb_lt, Hs. Qed.

(** A document with nesting, an escape, a non-ASCII character and keys out of order. *)
Definition sample_value : exact :=
  XMap [("b", XTuple [XNum (mkExactNumber "-1.50e+3"); XNull; XBool true]); ("a", XStr (PyStr [233; 10; 34; 128512]%N))]%py.
Definition sample_payload : list N :=
  Eval vm_compute in match encode (mkDocument sample_value Limits_default) with Ok b => b | Raise _ => [] end.

Example wire_round_trip_witness :
  decode_wire_stream Limits_default [take 7 sample_payload; []; drop 7 sample_payload] = Ok (mkDocument (sort_keys sample_value) Limits_default) /\
  encode (mkDocument (sort_keys sample_value) Limits_default) = Ok sample_payload.
Proof.
  apply (wire_round_trip Limits_default sample_value (mkDocument sample_value Limits_default) sample_payload).
  - apply proper_map. split; [apply (bool_decide_unpack (NoDup _)); by vm_compute|].
    unfold sample_value. apply Forall_cons. split; [|apply Forall_singleton];
      (split; [by apply text_ok_compute|cbn; try (by apply text_ok_compute); split_and!; done]).
  - by vm_compute.
  - by vm_compute.
  - by vm_compute.
Defined.
