(* ===== verification/WireDecoding.v ===== *)
(** * Exact wire JSON: what decoding can end with

    Whatever bytes arrive, decoding ends: with a document whose value is well formed, within
    the limits and encodable, or with a syntax or a limit error. The rules are those of a
    weakest precondition, one per operation of the parser. *)
From Stdlib Require Import ZArith Lia SpecFloat.
From stdpp Require Import base list gmap.
From S2P Require Import Prelude Core Wire WireText.

#[local] Ltac Zify.zify_post_hook ::= Z.to_euclidean_division_equations.

Definition code_point (c : N) : Prop := (c < 1114112)%N.

(** The errors of a parser step: those of a decoder, which the caller turns into a syntax
    error, are among them; running out of fuel is not. *)
Definition wire_error (e : exn) : Prop :=
  e = WireSyntaxError \/ e = WireLimitError \/ e = UnicodeDecodeError.

Definition stream_ok (p : parser) : Prop :=
  Forall code_point (chars p) /\ match failure p with None => True | Some e => wire_error e end.

(** The number of characters left. *)
Definition left (p : parser) : nat := length (chars p).

Definition wp {A} (m : M exn parser A) (p : parser) (Q : A -> parser -> Prop) : Prop :=
  match m p with
  | (Ok a, p') => Q a p'
  | (Raise e, _) => wire_error e
  end.

Lemma wp_bind {A B} (m : M exn parser A) (f : A -> M exn parser B) p Q R :
  wp m p Q -> (forall a p', Q a p' -> wp (f a) p' R) -> wp (bind m f) p R.
Proof. unfold wp, bind. intros Hm Hf. destruct (m p) as [[a|e] p']; [by apply (Hf a)|done]. Qed.

Lemma wp_mono {A} (m : M exn parser A) p (Q R : A -> parser -> Prop) :
  wp m p Q -> (forall a p', Q a p' -> R a p') -> wp m p R.
Proof. unfold wp. destruct (m p) as [[a|e] p']; eauto. Qed.

Lemma wp_raise_if {A} b e (f : unit -> M exn parser A) p Q :
  wire_error e -> (b = false -> wp (f tt) p Q) -> wp (bind (raise_if b e) f) p Q.
Proof. intros He Hf. destruct b; [done|by apply Hf]. Qed.

Lemma wp_raise {A} e p (Q : A -> parser -> Prop) : wire_error e -> wp (raise e) p Q.
Proof. done. Qed.

Lemma syntax_wire : wire_error WireSyntaxError.
Proof. by left. Qed.
Lemma limit_wire : wire_error WireLimitError.
Proof. by right; left. Qed.
#[local] Hint Resolve syntax_wire limit_wire wp_raise : core.

(** ** Characters *)

(** Nothing is taken, or something is; the stream stays well formed. *)
Definition later (p p' : parser) : Prop := stream_ok p' /\ (left p' <= left p)%nat.
Definition taken (p p' : parser) : Prop := stream_ok p' /\ (left p' < left p)%nat.

Lemma later_ok p p' : later p p' -> stream_ok p'.
Proof. by intros []. Qed.
Lemma taken_ok p p' : taken p p' -> stream_ok p'.
Proof. by intros []. Qed.
#[local] Hint Immediate later_ok taken_ok : core.

(** Positions in a stream are ordered by what is left of it. *)
Ltac order := lazymatch goal with |- wp (ret _) _ _ => red; cbv beta iota delta [ret] | _ => idtac end; unfold later, taken in *; intuition lia.

Lemma peek_wp p : stream_ok p -> wp peek p (fun c p' => p' = p /\ head (chars p) = c).
Proof.
  intros [_ Hf]. unfold wp, peek. destruct p as [[|c l] [e|] n]; cbn in *; auto.
Qed.

Lemma take_wp p : stream_ok p ->
  wp take_char p (fun c p' => later p p' /\ head (chars p) = c /\
    match c with Some c => code_point c /\ taken p p' | None => True end).
Proof.
  intros Hok. pose proof Hok as [Hc Hf]. unfold wp, take_char. destruct p as [[|c l] e n]; cbn in Hc, Hf |- *.
  - by destruct e.
  - apply Forall_cons in Hc as [Hc Hl]. unfold later, taken, stream_ok, left. cbn. split_and!; done || lia.
Qed.

Lemma require_wp c p : stream_ok p -> wp (require c) p (fun _ p' => taken p p').
Proof.
  intros Hok. unfold require. eapply wp_bind; [by apply take_wp|]. intros a p' (Hl & _ & Ht).
  unfold raise_if. destruct (bool_decide_reflect (a = Some c)) as [->|]; [|by left]. by destruct Ht.
Qed.

(** The rest of a block after one operation, whose position only moves on. *)
Ltac step lem :=
  eapply wp_bind; [eapply lem; eauto|]; cbv beta.

Lemma whitespace_loop_wp fuel : forall p, stream_ok p -> (left p < fuel)%nat ->
  wp (whitespace_loop fuel) p (fun _ p' => later p p').
Proof.
  induction fuel as [|fuel IH]; intros p Hok Hf; [lia|].
  cbn [whitespace_loop]. step peek_wp. intros c p' [-> Hc]. destruct c as [c|]; [|done].
  destruct (is_blank c); [|done]. step take_wp. intros c' p' (_ & Hc' & Ht). rewrite Hc in Hc'. subst c'.
  destruct Ht as [_ T]. eapply wp_mono; [apply IH; [by eauto|order]|]. intros ? p2 ?. order.
Qed.
Lemma whitespace_wp p : stream_ok p -> wp whitespace p (fun _ p' => later p p').
Proof. intros Hok. apply whitespace_loop_wp; [done|]. unfold left. lia. Qed.

(** ** Strings *)

Lemma hex_digit_value_bounds c v : hex_digit_value c = Some v -> 0 <= v < 16.
Proof. unfold hex_digit_value. repeat case_match; intros [= <-]; repeat match goal with H : (_ && _)%N = true |- _ => apply andb_true_iff in H as [?%N.leb_le ?%N.leb_le] end; lia. Qed.

Lemma hex_quad_wp p : stream_ok p -> wp hex_quad p (fun code p' => later p p' /\ 0 <= code < 65536).
Proof.
  intros Hok. unfold hex_quad.
  step take_wp. intros a p1 (L1 & _ & _). step take_wp. intros b p2 (L2 & _ & _).
  step take_wp. intros c p3 (L3 & _ & _). step take_wp. intros d p4 (L4 & _ & _).
  destruct (a ≫= hex_digit_value) as [va|] eqn:Ha; [|auto]. destruct (b ≫= hex_digit_value) as [vb|] eqn:Hb; [|auto].
  destruct (c ≫= hex_digit_value) as [vc|] eqn:Hc; [|auto]. destruct (d ≫= hex_digit_value) as [vd|] eqn:Hd; [|auto].
  apply bind_Some in Ha as (? & _ & Ha%hex_digit_value_bounds), Hb as (? & _ & Hb%hex_digit_value_bounds),
    Hc as (? & _ & Hc%hex_digit_value_bounds), Hd as (? & _ & Hd%hex_digit_value_bounds).
  split; [order|lia].
Qed.

Lemma escaped_code_point c e : escaped c = Some e -> code_point e.
Proof. unfold escaped. repeat case_match; intros [= <-]; done. Qed.

Lemma escape_wp p : stream_ok p -> wp escape p (fun c p' => later p p' /\ code_point c).
Proof.
  intros Hok. unfold escape. step take_wp. intros e p1 (L1 & _ & _).
  destruct e as [e|]; [|auto]. destruct (e =? 117)%N.
  - step hex_quad_wp. intros code p2 [L2 Hcode].
    destruct ((55296 <=? code) && (code <=? 56319)) eqn:Hhigh.
    + apply andb_true_iff in Hhigh as [?%Z.leb_le ?%Z.leb_le].
      step require_wp. intros _ p3 T3. step require_wp. intros _ p4 T4.
      step hex_quad_wp. intros low p5 [L5 Hlow]. apply wp_raise_if; [done|].
      intros [?%Z.leb_le ?%Z.leb_le]%negb_false_iff%andb_true_iff. split; [order|].
      unfold code_point. rewrite Z.shiftl_mul_pow2 by lia. lia.
    + apply wp_raise_if; [done|]. intros _. split; [order|]. unfold code_point. lia.
  - destruct (escaped e) as [c|] eqn:He; [|auto]. split; [order|]. by eapply escaped_code_point.
Qed.

Lemma string_loop_wp lim fuel : forall acc p, stream_ok p -> (left p < fuel)%nat -> Forall code_point acc ->
  wp (string_loop lim fuel acc) p (fun s p' => later p p' /\ text_ok s).
Proof.
  induction fuel as [|fuel IH]; intros acc p Hok Hf Hacc; [lia|]. cbn [string_loop].
  step take_wp. intros c p1 (L1 & _ & Hc). destruct c as [c|]; [|auto]. destruct Hc as [Hc T1].
  destruct (c =? 34)%N; [split; [order|done]|]. apply wp_raise_if; [done|]. intros _.
  eapply (wp_bind _ _ _ (fun c p' => later p1 p' /\ code_point c)).
  { destruct (c =? 92)%N; [by apply escape_wp; eauto|]. split; [order|done]. }
  intros c' p2 [L2 Hc']. apply wp_raise_if; [done|]. intros _. eapply wp_mono; [apply IH; eauto|].
  - order.
  - apply Forall_app. by repeat constructor.
  - intros s p3 [L3 Hs]. split; [order|done].
Qed.

Lemma string_wp lim p : stream_ok p -> wp (string lim) p (fun s p' => taken p p' /\ text_ok s).
Proof.
  intros Hok. unfold string. step require_wp. intros _ p1 T1.
  eapply wp_mono; [apply string_loop_wp; [by eauto|unfold left; lia|by constructor]|].
  intros s p2 [L2 Hs]. split; [order|done].
Qed.

(** ** Numbers and literals *)

Lemma token_loop_wp fuel : forall acc p, stream_ok p -> (left p < fuel)%nat ->
  wp (token_loop fuel acc) p (fun _ p' => later p p').
Proof.
  induction fuel as [|fuel IH]; intros acc p Hok Hf; [lia|]. cbn [token_loop].
  step peek_wp. intros c p' [-> Hc]. destruct c as [c|]; [|by order].
  destruct (is_number_char c); [|by order]. step take_wp. intros c' p' (_ & Hc' & Ht). rewrite Hc in Hc'. subst c'.
  destruct Ht as [_ T]. eapply wp_mono; [apply IH; [by eauto|order]|]. intros ? p2 ?. order.
Qed.

Lemma require_all_wp w : forall p, stream_ok p -> wp (require_all w) p (fun _ p' => later p p').
Proof.
  induction w as [|c w IH]; intros p Hok; cbn [require_all]; [by order|]. step require_wp. intros _ p1 T1.
  eapply wp_mono; [by eapply IH; eauto|]. intros ? p2 ?. order.
Qed.

(** ** Values *)

(** What the loops collect: a well-formed dictionary and proper values. *)
Definition member_ok (kv : pystr * exact) : Prop := text_ok (fst kv) /\ proper (snd kv).
Definition collected (r : dict pystr exact * list exact) : Prop :=
  d_wf (fst r) /\ Forall member_ok (fst r) /\ Forall proper (snd r).

Lemma collected_value is_map m s : collected (m, s) -> proper (if is_map : bool then XMap m else XTuple s).
Proof.
  intros (Hwf & Hm & Hs). destruct is_map; cbn [proper]; rewrite foldr_forall; [|done]. by split.
Qed.

(** [child] reads a value from every stream that has fewer characters than [bound]. *)
Definition reader (child : M exn parser exact) (bound : nat) : Prop :=
  forall p, stream_ok p -> (left p < bound)%nat -> wp child p (fun v p' => later p p' /\ proper v).

Section Containers.
Context (lim : Limits) (child : M exn parser exact) (bound : nat) (Hchild : reader child bound).

Lemma item_wp is_map m s p : stream_ok p -> (left p < bound)%nat -> collected (m, s) ->
  wp (item lim child is_map m s) p (fun r p' => later p p' /\ collected r).
Proof.
  intros Hok Hb (Hwf & Hm & Hs). unfold item. destruct is_map.
  - step string_wp. intros key p1 [T1 Hkey]. step whitespace_wp. intros _ p2 L2. step require_wp. intros _ p3 T3.
    eapply wp_bind; [apply Hchild; [by eauto|order]|]. intros v p4 [L4 Hv]. split; [order|].
    split_and!; cbn; [by apply d_set_wf|by apply d_set_forall|done].
  - eapply wp_bind; [by apply Hchild|]. intros v p1 [L1 Hv]. split; [order|].
    split_and!; cbn; [done|done|]. apply Forall_app. by repeat constructor.
Qed.

Lemma items_loop_wp is_map fuel : forall m s p, stream_ok p -> (left p < bound)%nat -> (left p < fuel)%nat ->
  collected (m, s) -> wp (items_loop lim child is_map fuel m s) p (fun r p' => later p p' /\ collected r).
Proof.
  induction fuel as [|fuel IH]; intros m s p Hok Hb Hf Hc; [lia|]. cbn [items_loop].
  eapply wp_bind; [by apply item_wp|]. intros [m' s'] p1 [L1 Hc']. step whitespace_wp. intros _ p2 L2.
  step peek_wp. intros c p' [-> _]. case_bool_decide; [split; [order|done]|].
  step require_wp. intros _ p3 T3. step whitespace_wp. intros _ p4 L4.
  eapply wp_mono; [apply IH; [by eauto|order|order|done]|]. intros r p5 [L5 Hr]. split; [order|done].
Qed.

Lemma container_wp is_map p : stream_ok p -> (left p <= bound)%nat -> head (chars p) <> None ->
  wp (container lim child is_map bound) p (fun v p' => later p p' /\ proper v).
Proof.
  intros Hok Hb Hne. unfold container. step take_wp. intros c p1 (_ & Hc & T1).
  destruct c as [c|]; [|by destruct Hne]. destruct T1 as [_ T1]. step whitespace_wp. intros _ p2 L2.
  step peek_wp. intros c' p' [-> _].
  eapply (wp_bind _ _ _ (fun r p' => later p2 p' /\ collected r)).
  { case_bool_decide; [split; [order|by repeat constructor]|].
    apply items_loop_wp; [by eauto|order|order|by repeat constructor]. }
  intros [m s] p3 [L3 Hr]. step require_wp. intros _ p4 T4. split; [order|by apply collected_value].
Qed.
End Containers.

Lemma charge_wp lim depth p : stream_ok p -> wp (charge lim depth) p (fun _ p' => later p p').
Proof.
  intros Hok. unfold charge, wp, bind, modify, gets, raise_if. destruct (_ || _); [by right; left|].
  split; [done|cbn; unfold left; lia].
Qed.

Lemma value_at_wp lim child bound c p : reader child bound -> stream_ok p -> (left p <= bound)%nat ->
  head (chars p) = Some c -> wp (value_at lim child bound c) p (fun v p' => later p p' /\ proper v).
Proof.
  intros Hchild Hok Hb Hc. assert (head (chars p) <> None) as Hne by congruence. unfold value_at.
  case_match; [step string_wp; intros s p1 [T1 Hs]; split; [order|done]|].
  case_match; [by apply container_wp|]. case_match; [by apply container_wp|].
  do 3 (case_match; [step require_all_wp; intros _ p1 L1; split; [order|done]|]).
  case_match; [|auto]. eapply wp_bind; [apply token_loop_wp; first [done|unfold left; lia]|]. intros t p1 L1.
  unfold wp, bind, lift, ExactNumber_new. destruct (_NUMBER (PyStr t)) eqn:Ht; [|by left].
  split; [order|done].
Qed.

(** A value is read from any stream, given more fuel than characters. *)
Lemma parse_value_wp lim fuel : forall depth, reader (parse_value lim fuel depth) fuel.
Proof.
  induction fuel as [|fuel IH]; intros depth p Hok Hf; [lia|]. cbn [parse_value].
  step charge_wp. intros _ p1 L1. step whitespace_wp. intros _ p2 L2. step peek_wp. intros c p' [-> Hc].
  destruct c as [c|]; [|auto]. eapply wp_mono; [apply value_at_wp; [apply IH|by eauto|order|done]|].
  intros v p3 [L3 Hv]. split; [order|done].
Qed.

(** ** Documents *)

(** The characters of a chunk are code points. *)
Lemma continue_bounds n : forall lo hi acc l c rest, (128 <= lo)%N -> (hi <= 191)%N ->
  continue n lo hi acc l = Scalar c rest ->
  (c < (acc + 1) * 64 ^ N.of_nat n)%N /\ (length rest <= length l)%nat /\
  match n with O => True | S n' => ((acc * 64 + (hi - 128) + 1) * 64 ^ N.of_nat n' > c)%N end.
Proof.
  induction n as [|n IH]; intros lo hi acc l c rest Hlo Hhi Hr; cbn [continue] in Hr.
  - injection Hr as -> ->. cbn. lia.
  - destruct l as [|b l]; [done|]. destruct ((lo <=? b) && (b <=? hi))%N eqn:Hb; [|done].
    apply andb_true_iff in Hb as [?%N.leb_le ?%N.leb_le]. apply IH in Hr as (Hc & Hl & _); [|lia|lia].
    rewrite Nat2N.inj_succ, N.pow_succ_r'. split_and!; [|cbn; lia|]; nia.
Qed.

Lemma decode_step_bounds b l c rest : decode_step b l = Scalar c rest -> code_point c /\ (length rest <= length l)%nat.
Proof.
  unfold decode_step, code_point. intros Hr.
  repeat match type of Hr with
  | (if ?b then _ else _) = _ => let E := fresh "E" in destruct b eqn:E
  end; try done; [injection Hr as -> ->; apply N.ltb_lt in E; split; lia|..];
    apply continue_bounds in Hr as (Hc & Hl & Hm); try lia; (split; [|done]);
    repeat match goal with
    | H : _ = false |- _ => clear H
    | H : (_ && _) = true |- _ => apply andb_true_iff in H as [?%N.leb_le ?%N.leb_le]
    | H : (_ =? _)%N = true |- _ => apply N.eqb_eq in H as ->
    end; cbn in Hc, Hm; lia.
Qed.

Lemma utf8_decode_cons fuel b l : utf8_decode (S fuel) (b :: l) =
  match decode_step b l with
  | Scalar c rest => match utf8_decode fuel rest with Some (cs, kept) => Some (c :: cs, kept) | None => None end
  | Incomplete => Some ([], b :: l)
  | Invalid => None
  end.
Proof. done. Qed.

(** The decoder's fuel is enough: more of it changes nothing. *)
Lemma utf8_decode_fuel fuel : forall l, (length l <= fuel)%nat -> utf8_decode (S fuel) l = utf8_decode fuel l.
Proof.
  induction fuel as [|fuel IH]; intros [|b l] Hl; try done; [cbn in Hl; lia|].
  rewrite !utf8_decode_cons. destruct (decode_step b l) as [c rest| |] eqn:Hs; [|done..].
  apply decode_step_bounds in Hs as [_ Hr]. cbn in Hl. by rewrite IH by lia.
Qed.

Lemma utf8_decode_points fuel : forall l cs kept, utf8_decode fuel l = Some (cs, kept) -> Forall code_point cs.
Proof.
  induction fuel as [|fuel IH]; intros [|b l] cs kept Hd; try (injection Hd as <- <-; constructor).
  cbn [utf8_decode] in Hd. destruct (decode_step b l) as [c rest| |] eqn:Hs; [|injection Hd as <- <-; constructor|done].
  destruct (utf8_decode fuel rest) as [[cs' kept']|] eqn:Hr; [|done]. injection Hd as <- <-.
  constructor; [by eapply decode_step_bounds|by eapply IH].
Qed.

Lemma decode_chunks_stream maximum chunks : forall size kept n,
  let '(cs, e) := decode_chunks maximum size kept chunks in stream_ok (mkParser cs e n).
Proof.
  unfold stream_ok. induction chunks as [|chunk chunks IH]; intros size kept n; cbn [decode_chunks].
  - destruct kept; cbn; (split; [constructor|]); [done|by right; right].
  - destruct (maximum <? _); [cbn; split; [constructor|by right; left]|].
    destruct (utf8_decode _ (kept ++ chunk)) as [[cs kept']|] eqn:Hd; [|cbn; split; [constructor|by right; right]].
    specialize (IH (size + Z.of_nat (length chunk)) kept' n).
    destruct (decode_chunks _ _ _ _) as [cs' e]. cbn in *. split; [|by apply IH].
    apply Forall_app. split; [by eapply utf8_decode_points|by apply IH].
Qed.

(** The errors of the copy and of the encoder. *)
Definition document_error (e : exn) : Prop :=
  e = WireSyntaxError \/ e = WireLimitError \/ e = OtherError "UnicodeEncodeError" "surrogates not allowed".

Lemma fold_result_raise {A B} (f : B -> A -> result exn B) (P : exn -> Prop) l : forall acc e,
  Forall (fun x => forall acc e, f acc x = Raise e -> P e) l -> fold_result f l acc = Raise e -> P e.
Proof.
  induction l as [|x l IH]; intros acc e Hl He; [done|]. cbn in He. apply Forall_cons in Hl as [Hx Hl].
  destruct (f acc x) eqn:Hf; [by eapply IH|]. injection He as <-. by eapply Hx.
Qed.

Lemma rbind_raise {E A B} (m : result E A) (f : A -> result E B) e :
  rbind m f = Raise e -> m = Raise e \/ exists a, m = Ok a /\ f a = Raise e.
Proof. destruct m; cbn; [eauto|]. intros [= <-]. by left. Qed.

Lemma reject_if_raise {E} b (e e' : E) : reject_if b e = Raise e' -> e' = e.
Proof. destruct b; [by intros [= <-]|done]. Qed.

Lemma string_limit_raise lim s e : _string_limit lim s = Raise e -> document_error e.
Proof.
  unfold document_error. intros [?%reject_if_raise|(? & _ & ?%reject_if_raise)]%rbind_raise; auto.
Qed.

Lemma freeze_raise lim v : forall depth n e, freeze lim v depth n = Raise e -> document_error e.
Proof.
  induction v using exact_nested_ind; intros depth n' e; cbn [freeze];
    (intros [?%reject_if_raise|(u & _ & Hr)]%rbind_raise; [by right; left|]); try done.
  - apply rbind_raise in Hr as [Hr|(u' & _ & Hr)]; [by eapply string_limit_raise|done].
  - eapply fold_result_raise; [|exact Hr]. eapply Forall_impl; [exact H|]. intros x Hx acc e'. apply Hx.
  - eapply fold_result_raise; [|exact Hr]. eapply Forall_impl; [exact H|]. intros x Hx acc e' He.
    apply rbind_raise in He as [He|(u' & _ & He)]; [by eapply string_limit_raise|by eapply Hx].
Qed.

Lemma encode_raise d e : encode d = Raise e -> document_error e.
Proof.
  unfold encode, encode_value. apply (fold_result_raise (encode_piece (limits d)) document_error).
  apply Forall_forall. intros p _ acc e' He. unfold document_error. unfold encode_piece in He.
  apply rbind_raise in He as [?%reject_if_raise|(? & _ & He)]; [auto|].
  apply rbind_raise in He as [He|(? & _ & He)].
  - unfold str_encode in He. destruct (mapM _ _); [done|]. injection He as <-. auto.
  - apply rbind_raise in He as [?%reject_if_raise|(? & _ & He)]; [auto|done].
Qed.

Lemma guard_errors {A} (e : exn) :
  wire_error e \/ document_error e ->
  exists e', @unicode_guard A (Raise e) = Raise e' /\ (e' = WireSyntaxError \/ e' = WireLimitError).
Proof. intros [[->|[->| ->]]|[->|[->| ->]]]; eexists; (split; [reflexivity|]); auto. Qed.

(** C37. Whatever bytes arrive, in whatever chunks, decoding ends in one of three ways: with
    a document that carries the limits, whose value is well formed (number tokens match the
    number pattern, strings hold code points, keys are distinct), nested and sized within
    the limits, and which can be encoded; with a syntax error; or with a limit error. *)
Theorem decode_outcome lim chunks :
  match decode_wire_stream lim chunks with
  | Ok d => limits d = lim /\ proper (value d) /\ fits lim (max_json_depth lim) (value d) /\
      exact_size (value d) <= max_json_items lim /\ exists payload, encode d = Ok payload
  | Raise e => e = WireSyntaxError \/ e = WireLimitError
  end.
Proof.
  unfold decode_wire_stream. pose proof (decode_chunks_stream (max_body_bytes lim) chunks 0 [] 0) as Hok.
  destruct (decode_chunks _ _ _ _) as [cs e]. unfold decode_document, bind at 1.
  pose proof (parse_value_wp lim (S (length cs)) 0 (mkParser cs e 0) Hok) as Hv. unfold left, wp in Hv. cbn [chars] in *.
  specialize (Hv ltac:(lia)). destruct (parse_value _ _ _ _) as [[v|e1] p1].
  2: { destruct (guard_errors (A := WireDocument) e1 (or_introl Hv)) as (e' & He & ?). cbn [fst]. by rewrite He. }
  destruct Hv as [[Hok1 _] Hv]. unfold bind at 1. pose proof (whitespace_wp p1 Hok1) as Hw. unfold wp in Hw.
  destruct (whitespace p1) as [[u|e1] p2].
  2: { destruct (guard_errors (A := WireDocument) e1 (or_introl Hw)) as (e' & He & ?). cbn [fst]. by rewrite He. }
  unfold bind at 1. pose proof (peek_wp p2 (later_ok _ _ Hw)) as Hp. unfold wp in Hp.
  destruct (peek p2) as [[c|e1] p3].
  2: { destruct (guard_errors (A := WireDocument) e1 (or_introl Hp)) as (e' & He & ?). cbn [fst]. by rewrite He. }
  unfold bind, raise_if, lift. case_bool_decide; [|by left]. cbn [negb fst]. unfold WireDocument_new.
  destruct (freeze lim v 0 0) as [k|e1] eqn:Hk; cbn [rbind].
  2: { destruct (guard_errors (A := WireDocument) e1 (or_intror (freeze_raise _ _ _ _ _ Hk))) as (e' & He & ?). by rewrite He. }
  destruct (encode _) as [payload|e1] eqn:He; cbn [rbind].
  2: { destruct (guard_errors (A := WireDocument) e1 (or_intror (encode_raise _ _ He))) as (e' & He' & ?). by rewrite He'. }
  apply freeze_ok in Hk as (Hf & -> & Hn). cbn. split_and!; [done|done|by rewrite Z.sub_0_r in Hf|lia|eauto].
Qed.
