(* ===== verification/WireNumbers.v ===== *)
(** * Exact wire JSON: integers and their tokens

    Integers are rendered and read in chunks of nine digits, from opposite ends; the two
    conversions are inverse to each other whatever the size. *)
From Stdlib Require Import ZArith Lia SpecFloat.
From stdpp Require Import base list gmap.
From S2P Require Import Prelude Core Wire WireText.

#[local] Ltac Zify.zify_post_hook ::= Z.to_euclidean_division_equations.

Definition digits (l : list N) : Prop := Forall (fun c => digit c = true) l.
Definition power (l : list N) : Z := 10 ^ Z.of_nat (length l).

Lemma power_app a b : power (a ++ b) = power a * power b.
Proof. unfold power. rewrite length_app, Nat2Z.inj_add, Z.pow_add_r by lia. done. Qed.

Lemma int_digits_from l : forall acc,
  fold_left (fun acc c => 10 * acc + (Z.of_N c - 48)) l acc = acc * power l + int_digits l.
Proof.
  unfold int_digits. induction l as [|c l IH]; intros acc; cbn [fold_left]; [change (power []) with 1; lia|].
  rewrite IH, (IH (10 * 0 + _)). change (c :: l) with ([c] ++ l). rewrite power_app. change (power [c]) with 10. ring.
Qed.

Lemma int_digits_app a b : int_digits (a ++ b) = int_digits a * power b + int_digits b.
Proof. unfold int_digits at 1. rewrite fold_left_app. apply int_digits_from. Qed.

(** Reading by chunks from the left is reading the digits. *)
Lemma chunks_value_digits fuel : forall l acc, (length l <= fuel)%nat ->
  chunks_value fuel l acc = acc * power l + int_digits l.
Proof.
  induction fuel as [|fuel IH]; intros [|c l] acc Hl; try (change (power []) with 1; cbn; lia); [cbn in Hl; lia|].
  assert (length (drop 9 (c :: l)) <= fuel)%nat as Hd by (rewrite length_drop; cbn [length] in *; lia).
  change (chunks_value (S fuel) (c :: l) acc) with
    (chunks_value fuel (drop 9 (c :: l)) (acc * power (take 9 (c :: l)) + int_digits (take 9 (c :: l)))).
  rewrite IH by done. pose proof (int_digits_app (take 9 (c :: l)) (drop 9 (c :: l))) as Hi.
  pose proof (power_app (take 9 (c :: l)) (drop 9 (c :: l))) as Hp. rewrite take_drop in Hi, Hp. rewrite Hi, Hp. ring.
Qed.

Lemma digit_value n : 0 <= n < 10 -> digit (Z.to_N (48 + n)) = true /\ int_digits [Z.to_N (48 + n)] = n.
Proof.
  intros Hn. split; [|unfold int_digits; cbn [fold_left]; lia].
  unfold digit. apply andb_true_iff. rewrite !N.leb_le. lia.
Qed.

(** Rendering by digits from the right. *)
Lemma digits_of_spec fuel : forall k n, 0 <= n < 10 ^ Z.of_nat k -> (0 < k <= fuel)%nat ->
  digits (digits_of fuel n) /\ int_digits (digits_of fuel n) = n /\ (length (digits_of fuel n) <= k)%nat /\
  (0 < n -> exists c l, digits_of fuel n = c :: l /\ c <> 48%N).
Proof.
  induction fuel as [|fuel IH]; intros k n Hn Hf; [lia|]. destruct k as [|k]; [lia|].
  rewrite Nat2Z.inj_succ, Z.pow_succ_r in Hn by lia.
  cbn [digits_of]. destruct (Z.ltb_spec n 10).
  - destruct (digit_value n) as [Hd Hv]; [lia|]. split_and!; [by repeat constructor|done|cbn; lia|].
    intros Hpos. do 2 eexists. split; [done|]. lia.
  - destruct k as [|k]; [change (10 ^ Z.of_nat 0) with 1 in Hn; lia|].
    destruct (IH (S k) (n / 10)) as (Hd & Hv & Hl & Hh); [lia|lia|]. destruct (digit_value (n mod 10)) as [Hd1 Hv1]; [lia|].
    split_and!.
    + apply Forall_app. split; [done|by repeat constructor].
    + rewrite int_digits_app, Hv, Hv1. change (power [_]) with 10. lia.
    + rewrite length_app. cbn [length]. lia.
    + intros _. destruct Hh as (c & l & -> & Hc); [lia|]. eauto.
Qed.

Lemma zeros_value k l : int_digits (replicate k 48%N ++ l) = int_digits l.
Proof.
  rewrite int_digits_app. enough (int_digits (replicate k 48%N) = 0) as -> by lia.
  induction k as [|k IH]; [done|]. exact IH.
Qed.

#[local] Abbreviation billion := 1000000000.

Lemma chunk_str_spec n : 0 <= n < billion ->
  digits (chunk_str n) /\ int_digits (chunk_str n) = n /\ (length (chunk_str n) <= 9)%nat /\
  (0 < n -> exists c l, chunk_str n = c :: l /\ c <> 48%N).
Proof. intros Hn. apply (digits_of_spec 10 9 n); [exact Hn|lia]. Qed.

Lemma chunk_padded_spec n : 0 <= n < billion ->
  digits (chunk_padded n) /\ int_digits (chunk_padded n) = n /\ power (chunk_padded n) = billion.
Proof.
  intros Hn. destruct (chunk_str_spec n Hn) as (Hd & Hv & Hl & _). unfold chunk_padded. split_and!.
  - apply Forall_app. split; [|done]. by apply Forall_replicate.
  - by rewrite zeros_value.
  - unfold power. rewrite length_app, length_replicate, Nat.sub_add by done. done.
Qed.

(** The digits the chunks of a positive integer are rendered to. *)
Definition render (chunks : list Z) : list N :=
  match rev chunks with
  | [] => []
  | top :: rest => chunk_str top ++ concat (map chunk_padded rest)
  end.

Lemma integer_chunks_spec fuel : forall r, 0 < r < 2 ^ Z.of_nat fuel ->
  digits (render (integer_chunks fuel r)) /\ int_digits (render (integer_chunks fuel r)) = r /\
  exists c l, render (integer_chunks fuel r) = c :: l /\ c <> 48%N.
Proof.
  induction fuel as [|fuel IH]; intros r Hr; [change (2 ^ Z.of_nat 0) with 1 in Hr; lia|].
  rewrite Nat2Z.inj_succ, Z.pow_succ_r in Hr by lia. cbn [integer_chunks]. rewrite (proj2 (Z.eqb_neq _ _)) by lia.
  destruct (chunk_padded_spec (r mod billion)) as (Hd & Hv & Hp); [lia|].
  unfold render in *. cbn [rev]. destruct (Z.eq_dec (r / billion) 0) as [Hz|Hz].
  - destruct (chunk_str_spec (r mod billion)) as (Hd1 & Hv1 & _ & Hh); [lia|].
    assert (integer_chunks fuel (r / billion) = []) as -> by (rewrite Hz; by destruct fuel).
    cbn [rev app map concat]. rewrite app_nil_r. split_and!; [done|lia|apply Hh; lia].
  - destruct (IH (r / billion)) as (IHd & IHv & c & l & Hcl & Hc); [lia|].
    destruct (rev (integer_chunks fuel (r / billion))) as [|top rest]; [done|].
    cbn [app]. rewrite map_app, concat_app, app_assoc. cbn [map concat]. rewrite app_nil_r. split_and!.
    + by apply Forall_app.
    + rewrite int_digits_app, IHv, Hv, Hp. lia.
    + rewrite Hcl. by eexists _, _.
Qed.

(** *** The token of an integer *)

Lemma skip_digits_all l : digits l -> skip_digits l = [].
Proof. induction 1 as [|c l Hc _ IH]; [done|]. cbn. by rewrite Hc. Qed.

Lemma match_int_all c l : digits (c :: l) -> c <> 48%N -> match_int (c :: l) = Some [].
Proof.
  intros [Hc Hl]%Forall_cons Hne. unfold match_int. rewrite (proj2 (N.eqb_neq _ _)) by done. rewrite Hc.
  by rewrite skip_digits_all.
Qed.

Lemma match_minus_digit c l : digit c = true -> match_minus (c :: l) = c :: l.
Proof.
  intros Hc. destruct (decide (c = 45%N)) as [->|Hne]; [done|]. cbn. by repeat (case_match; try done).
Qed.

Lemma integer_number t : _INTEGER t = true -> _NUMBER t = true.
Proof. unfold _INTEGER, _NUMBER. by destruct (match_int _) as [[|]|]. Qed.

(** Rendering an integer of any size gives a valid number token, and reading that token as an
    integer gives the integer back. *)
Lemma integer_token_round_trip z :
  exists n, ExactNumber_new (_integer_token z) = Ok n /\ to_int n = Ok z.
Proof.
  exists (mkExactNumber (_integer_token z)). unfold ExactNumber_new, to_int. cbn [token].
  destruct (Z.eq_dec z 0) as [->|Hz]; [done|].
  set (r := Z.abs z). assert (0 < r < 2 ^ Z.of_nat (Z.to_nat (Z.log2_up r + 1))) as Hr.
  { split; [lia|]. pose proof (Z.log2_up_nonneg r). rewrite Z2Nat.id by lia. rewrite Z.pow_add_r by lia.
    destruct (Z.eq_dec r 1) as [->|]; [done|]. pose proof (Z.log2_up_spec r). lia. }
  destruct (integer_chunks_spec _ r Hr) as (Hd & Hv & c & l & Hcl & Hc).
  assert (_integer_token z = PyStr ((if z <? 0 then [45%N] else []) ++ c :: l)) as ->.
  { unfold _integer_token. rewrite (proj2 (Z.eqb_neq _ _)) by done. fold r. by rewrite <- Hcl. }
  rewrite Hcl in Hd, Hv. pose proof Hd as [Hdc _]%Forall_cons.
  assert (match_minus ((if z <? 0 then [45%N] else []) ++ c :: l) = c :: l) as Hm.
  { destruct (z <? 0); [done|]. by apply match_minus_digit. }
  assert (_INTEGER (PyStr ((if z <? 0 then [45%N] else []) ++ c :: l)) = true) as Hint.
  { unfold _INTEGER. cbn [codepoints]. rewrite Hm. by rewrite match_int_all. }
  rewrite (integer_number _ Hint), Hint. cbn [negb codepoints]. rewrite Hm.
  rewrite chunks_value_digits by lia. rewrite Hv. split; [done|]. f_equal.
  destruct (Z.ltb_spec z 0); [rewrite bool_decide_true by done; lia|].
  rewrite bool_decide_false; [lia|]. cbn. intros [= ->]. done.
Qed.

(** ** Ordinary JSON values *)

Section Legacy.
Context (float_repr : spec_float -> pystr) (float_of : pystr -> spec_float) (decimal_exact : pystr -> spec_float -> bool).

(** What Python documents of [repr] of a finite float: a number with a fraction or an
    exponent, which reads back as the float. *)
Definition float_round (f : spec_float) : Prop :=
  isfinite f = true /\ _NUMBER (float_repr f) = true /\ _INTEGER (float_repr f) = false /\ float_of (float_repr f) = f.

(** JSON values: string keys, and finite numbers the representation is faithful for. *)
Fixpoint is_json (v : json) : Prop :=
  match v with
  | JFloat f => float_round f
  | JList items => foldr (fun x p => is_json x /\ p) True items
  | JDict items =>
      foldr (fun kv p => (match fst kv with KeyStr _ => True | KeyOther => False end /\ is_json (snd kv)) /\ p) True items
  | JOther _ => False
  | _ => True
  end.

(** A JSON value becomes an exact value and comes back unchanged by the unchecked
    conversion: integers of any size, strings, floats, lists and mappings in order. *)
Theorem legacy_round_trip v : is_json v ->
  exists x, _legacy_value float_repr v = Ok x /\ _ordinary float_of decimal_exact false x = Ok v.
Proof.
  induction v using json_nested_ind; cbn [is_json]; intros Hv; cbn [_legacy_value]; try done; try (by eexists).
  - destruct (integer_token_round_trip n) as (x & Hx & Hn). exists (XNum x). rewrite Hx. split; [done|].
    unfold ExactNumber_new in Hx. destruct (_NUMBER _); [|done]. injection Hx as <-.
    cbn [_ordinary]. rewrite Hn. unfold to_int in Hn. by destruct (_INTEGER (token _)).
  - destruct Hv as (Hfin & Hnum & Hint & Hf). rewrite Hfin. unfold ExactNumber_new. rewrite Hnum.
    eexists. split; [done|]. cbn. by rewrite Hint, Hf, Hfin.
  - rewrite foldr_forall in Hv. destruct (map_result_round (_legacy_value float_repr) (_ordinary float_of decimal_exact false) l)
      as (xs & Hl & Ho).
    { rewrite Forall_forall in *. intros x Hx. apply H; [done|by apply Hv]. }
    exists (XTuple xs). cbn [_ordinary]. by rewrite Hl, Ho.
  - rewrite foldr_forall in Hv. edestruct (map_result_round
      (fun kv => let? x := _legacy_value float_repr (snd kv) in Ok (key_text (fst kv), x))
      (fun kv => let? x := _ordinary float_of decimal_exact false (snd kv) in Ok (KeyStr (fst kv), x)) l) as (xs & Hl & Ho).
    { rewrite Forall_forall in *. intros [k x] Hx. destruct (Hv _ Hx) as [Hk Hj]. destruct k as [s|]; [|done].
      destruct (H _ Hx Hj) as (y & Hy & Hy'). cbn [fst snd key_text] in *. exists (s, y).
      cbn [fst snd]. by rewrite Hy, Hy'. }
    exists (XMap xs). cbn [_ordinary]. by rewrite Hl, Ho.
Qed.
End Legacy.

Example legacy_round_trip_witness :
  exists x, _legacy_value (fun _ => "0.5"%py) (JList [JInt (-12345678901234567890123); JFloat (S754_finite false 1 (-1)); JDict [(KeyStr "k", JNull)]]) = Ok x /\
    _ordinary (fun _ => S754_finite false 1 (-1)) (fun _ _ => true) false x =
      Ok (JList [JInt (-12345678901234567890123); JFloat (S754_finite false 1 (-1)); JDict [(KeyStr "k", JNull)]]).
Proof. apply legacy_round_trip. vm_compute. tauto. Defined.
