(* ===== verification/Encoding.v ===== *)
(** * Base64 and the helpers built on it ([security/encoding.py], [security/digest.py])

    The base64 codec of the interpreter, unpadded base64url, the JWK thumbprint, the access
    token hash, and the verification of [Content-Digest]. A byte is a number below 256.
    [sha256] is a parameter. *)
From Stdlib Require Import ZArith Lia.
From stdpp Require Import base list gmap.
From S2P Require Import Prelude Core Canonical Wire.

(** ** Base64 *)

(** The character of a sextet with the last two characters of the alphabet given, and the
    sextet of a character. *)
Definition sextet_char (c62 c63 n : N) : N :=
  (if n <? 26 then 65 + n else if n <? 52 then 71 + n else if n <? 62 then n - 4 else if n =? 62 then c62 else c63)%N.

Definition char_sextet (c : N) : option N :=
  (if (65 <=? c) && (c <=? 90) then Some (c - 65)
   else if (97 <=? c) && (c <=? 122) then Some (c - 71)
   else if (48 <=? c) && (c <=? 57) then Some (c + 4)
   else if c =? 43 then Some 62
   else if c =? 47 then Some 63
   else None)%N.

(** [b64encode(bytes)]: three bytes are four characters; the end is padded. *)
Fixpoint b64_encode (ch : N -> N) (l : list N) : list N :=
  match l with
  | [] => []
  | [a] => [ch (a / 4); ch (a mod 4 * 16); 61; 61]
  | [a; b] => [ch (a / 4); ch (a mod 4 * 16 + b / 16); ch (b mod 16 * 4); 61]
  | a :: b :: c :: l' =>
      ch (a / 4) :: ch (a mod 4 * 16 + b / 16) :: ch (b mod 16 * 4 + c / 64) :: ch (c mod 64) :: b64_encode ch l'
  end%N.

Definition standard_char : N -> N := sextet_char 43 47.
Definition urlsafe_char : N -> N := sextet_char 45 95.

(** The bytes of sextets; the bits left over at the end are dropped. *)
Fixpoint sextet_bytes (l : list N) : option (list N) :=
  match l with
  | [] => Some []
  | [_] => None
  | [a; b] => Some [a * 4 + b / 16]
  | [a; b; c] => Some [a * 4 + b / 16; b mod 16 * 16 + c / 4]
  | a :: b :: c :: d :: l' =>
      match sextet_bytes l' with
      | Some bytes => Some ((a * 4 + b / 16) :: (b mod 16 * 16 + c / 4) :: (c mod 4 * 64 + d) :: bytes)
      | None => None
      end
  end%N.

(** The characters of the alphabet at the head of a text, and the rest. *)
Fixpoint data_chars (l : list N) : list N * list N :=
  match l with
  | c :: l' => match char_sextet c with Some n => let '(ns, rest) := data_chars l' in (n :: ns, rest) | None => ([], l) end
  | [] => ([], [])
  end.

Definition binascii_error : exn := OtherError "Error" "Incorrect padding".

(** [base64.b64decode(s, validate=True)]: characters of the alphabet, then exactly the
    padding that completes the last group of four. *)
Definition b64_decode (s : pystr) : result exn (list N) :=
  let '(sextets, padding) := data_chars (codepoints s) in
  let expected := match (length sextets mod 4)%nat with 0%nat => [] | 2%nat => [61; 61]%N | 3%nat => [61%N] | _ => [0%N] end in
  if bool_decide (padding = expected)
  then match sextet_bytes sextets with Some bytes => Ok bytes | None => Raise binascii_error end
  else Raise binascii_error.

(** [bytes.rstrip(b"=")]. *)
Fixpoint drop_equals (l : list N) : list N :=
  match l with c :: l' => if (c =? 61)%N then drop_equals l' else l | [] => [] end.
Definition rstrip_equals (l : list N) : list N := rev (drop_equals (rev l)).

(** [s.translate(...)] of [altchars]. *)
Definition standard_altchars (c : N) : N := (if c =? 45 then 43 else if c =? 95 then 47 else c)%N.

Definition base64url_encode (value : list N) : pystr := PyStr (rstrip_equals (b64_encode urlsafe_char value)).

Definition malformed_base64url : exn := ValueError "malformed base64url value".

Definition base64url_decode (value : pystr) : result exn (list N) :=
  reject_if (str_empty value || existsb (fun c => c =? 61)%N (codepoints value)) (ValueError "base64url input must be non-empty and unpadded") ??;
  let padding := replicate (Z.to_nat (- str_len value mod 4)) 61%N in
  let? decoded := (match b64_decode (PyStr (map standard_altchars (codepoints value ++ padding))) with
    | Ok decoded => Ok decoded
    | Raise _ => Raise malformed_base64url
    end) in
  reject_if (negb (bool_decide (base64url_encode decoded = value))) (ValueError "base64url value is not canonical") ??;
  Ok decoded.

(** ** Thumbprints and token hashes *)

Section Hashes.
Context `{!Recursion}.
Variable sha256 : list N -> list N.
Variable rfc8785 : option (json -> result exn (list N)).

Definition required_members (key_type : pystr) : option (list pystr) :=
  if bool_decide (key_type = "EC"%py) then Some ["crv"; "kty"; "x"; "y"]%py
  else if bool_decide (key_type = "RSA"%py) then Some ["e"; "kty"; "n"]%py
  else if bool_decide (key_type = "OKP"%py) then Some ["crv"; "kty"; "x"]%py
  else if bool_decide (key_type = "oct"%py) then Some ["k"; "kty"]%py
  else None.

Definition is_string (v : option json) : bool := match v with Some (JStr _) => true | _ => false end.

Definition jwk_thumbprint (jwk : dict pystr json) : result exn pystr :=
  match d_get "kty"%py jwk with
  | Some (JStr key_type) =>
      match required_members key_type with
      | None => Raise (ValueError "unsupported JWK key type")
      | Some required =>
          reject_if (existsb (fun name => negb (is_string (d_get name jwk))) required) (ValueError "JWK is missing required string members") ??;
          let selected := JDict (map (fun name => (KeyStr name, default JNull (d_get name jwk))) required) in
          let? payload := canonical_json rfc8785 selected in
          Ok (base64url_encode (sha256 payload))
      end
  | _ => Raise (ValueError "JWK key type must be a string")
  end.

Definition access_token_hash (access_token : pystr) : result exn pystr :=
  reject_if (str_empty access_token) (ValueError "access token must not be empty") ??;
  let? bytes := str_encode access_token in
  Ok (base64url_encode (sha256 bytes)).

(** ** Content-Digest *)

Inductive ContentDigestResult := VerifiedContentDigest | RejectedContentDigest (code detail : pystr).

Record ContentDigestVerifier := mkContentDigestVerifier { digest_max_body_bytes : Z }.

Definition ContentDigestVerifier_new (v : ContentDigestVerifier) : result exn ContentDigestVerifier :=
  reject_if (digest_max_body_bytes v <=? 0) (ValueError "max_body_bytes must be positive") ??;
  Ok v.

(** The letters of [[a-z]] under [re.IGNORECASE]: the four that case folding adds included. *)
Definition folded_letter (c : N) : bool :=
  ((65 <=? c) && (c <=? 90) || (97 <=? c) && (c <=? 122) || (c =? 304) || (c =? 305) || (c =? 383) || (c =? 8490))%N.
Definition algorithm_char (c : N) : bool := folded_letter c || digit c || (c =? 95)%N || (c =? 45)%N.
Definition digest_char (c : N) : bool := folded_letter c || digit c || (c =? 43)%N || (c =? 47)%N.

(** [str.lower] of such a character. *)
Definition lower_char (c : N) : list N :=
  (if (65 <=? c) && (c <=? 90) then [c + 32] else if c =? 304 then [105; 775] else if c =? 8490 then [107] else [c])%N.

(** The longest prefix whose characters satisfy [f], and the rest. *)
Fixpoint span (f : N -> bool) (l : list N) : list N * list N :=
  match l with
  | c :: l' => if f c then let '(a, b) := span f l' in (c :: a, b) else ([], l)
  | [] => ([], [])
  end.

(** [_ITEM.fullmatch(item)]: the algorithm and the digest. *)
Definition _ITEM (item : pystr) : option (pystr * pystr) :=
  let '(_, l) := span is_space (codepoints item) in
  let '(algorithm, l) := span algorithm_char l in
  match algorithm, l with
  | _ :: _, 61%N :: 58%N :: l =>
      let '(data, l) := span digest_char l in
      let '(equals, l) := span (fun c => c =? 61)%N l in
      match data, l with
      | _ :: _, 58%N :: l =>
          if (length equals <=? 2)%nat && forallb is_space l then Some (PyStr algorithm, PyStr (data ++ equals)) else None
      | _, _ => None
      end
  | _, _ => None
  end.

(** [header.split(",")]. *)
Fixpoint split_commas (cur : list N) (l : list N) : list pystr :=
  match l with
  | [] => [PyStr (rev cur)]
  | c :: l' => if (c =? 44)%N then PyStr (rev cur) :: split_commas [] l' else split_commas (c :: cur) l'
  end.

Definition malformed_digest (detail : pystr) : ContentDigestResult := RejectedContentDigest "malformed_digest" detail.

(** The loop over the items: the digests, or the answer it returns. *)
Fixpoint read_digests (items : list pystr) (digests : dict pystr pystr) : dict pystr pystr + ContentDigestResult :=
  match items with
  | [] => inl digests
  | item :: items' =>
      match _ITEM item with
      | None => inr (malformed_digest "Content-Digest is not a structured digest dictionary")
      | Some (algorithm, encoded) =>
          let algorithm := PyStr (concat (map lower_char (codepoints algorithm))) in
          if d_mem algorithm digests then inr (malformed_digest "Content-Digest contains a duplicate algorithm")
          else read_digests items' (d_set algorithm encoded digests)
      end
  end.

Definition verify_digest (v : ContentDigestVerifier) (body : list N) (header : option pystr) : ContentDigestResult :=
  if digest_max_body_bytes v <? Z.of_nat (length body) then RejectedContentDigest "body_too_large" "body exceeds configured limit"
  else match header with
  | None => RejectedContentDigest "missing_digest" "Content-Digest is required"
  | Some header =>
      match read_digests (split_commas [] (codepoints header)) [] with
      | inr answer => answer
      | inl digests =>
          match d_get "sha-256"%py digests with
          | None => RejectedContentDigest "unsupported_digest" "a valid sha-256 digest is required"
          | Some encoded =>
              match b64_decode encoded with
              | Raise _ => malformed_digest "digest is not canonical base64"
              | Ok expected =>
                  if negb (bool_decide (b64_encode standard_char expected = codepoints encoded)) || negb (length expected =? 32)%nat
                  then malformed_digest "digest is not canonical SHA-256"
                  else if bool_decide (sha256 body = expected) then VerifiedContentDigest
                  else RejectedContentDigest "digest_mismatch" "body does not match Content-Digest"
              end
          end
      end
  end.
End Hashes.

(** ** The codec is a bijection *)

Definition byte (n : N) : Prop := (n < 256)%N.
Definition bytes (l : list N) : Prop := Forall byte l.

Example base64url_examples :
  base64url_encode [251; 255]%N = "-_8"%py /\ base64url_decode "-_8" = Ok [251; 255]%N /\
  base64url_decode "-_9" = Raise (ValueError "base64url value is not canonical") /\ base64url_decode "+_8" = Raise (ValueError "base64url value is not canonical") /\
  base64url_decode "a" = Raise malformed_base64url /\ b64_encode standard_char [1; 2; 3; 4]%N = codepoints "AQIDBA=="%py.
Proof. vm_compute. done. Qed.

(** The sextets of bytes, and the padding of the encoded text: what [b64_encode] writes. *)
Fixpoint bytes_sextets (l : list N) : list N :=
  match l with
  | [] => []
  | [a] => [a / 4; a mod 4 * 16]
  | [a; b] => [a / 4; a mod 4 * 16 + b / 16; b mod 16 * 4]
  | a :: b :: c :: l' => a / 4 :: a mod 4 * 16 + b / 16 :: b mod 16 * 4 + c / 64 :: c mod 64 :: bytes_sextets l'
  end%N.

Fixpoint padding_of (l : list N) : nat :=
  match l with [] => 0 | [_] => 2 | [_; _] => 1 | _ :: _ :: _ :: l' => padding_of l' end.

Lemma triples_ind (P : list N -> Prop) :
  P [] -> (forall a, P [a]) -> (forall a b, P [a; b]) -> (forall a b c l, P l -> P (a :: b :: c :: l)) -> forall l, P l.
Proof.
  intros H0 H1 H2 H3.
  fix go 1. intros [| a [| b [| c l]]]; [exact H0 | apply H1 | apply H2 | apply H3, go].
Qed.

Definition sextet (n : N) : Prop := (n < 64)%N.

(** A fact about every sextet is checked on the sixty-four of them. *)
Lemma every_sextet (f : N -> bool) : forallb f (map N.of_nat (seq 0 64)) = true -> forall n, sextet n -> f n = true.
Proof.
  intros H n Hn. rewrite forallb_forall in H. apply H, in_map_iff.
  exists (N.to_nat n). split; [lia |]. apply in_seq. unfold sextet in Hn. lia.
Qed.

Lemma urlsafe_not_equals n : sextet n -> urlsafe_char n <> 61%N.
Proof.
  intros H. pose proof (every_sextet (fun n => negb (urlsafe_char n =? 61)%N) eq_refl n H) as E.
  cbv beta in E. intros E'. rewrite E' in E. discriminate.
Qed.

Lemma urlsafe_sextet n : sextet n -> char_sextet (standard_altchars (urlsafe_char n)) = Some n.
Proof.
  intros H.
  pose proof (every_sextet (fun n => bool_decide (char_sextet (standard_altchars (urlsafe_char n)) = Some n)) eq_refl n H) as E.
  by apply bool_decide_eq_true in E.
Qed.

(** Quotients and remainders by their equations. *)
Ltac ndiv := zify; Z.to_euclidean_division_equations; lia.

Lemma bytes_sextets_bounded l : bytes l -> Forall sextet (bytes_sextets l).
Proof.
  unfold bytes, byte, sextet.
  induction l as [| a | a b | a b c l IH] using triples_ind; simpl; intros H; repeat (apply Forall_cons in H as [? H]);
    repeat (apply Forall_cons; split); auto; ndiv.
Qed.

Lemma sextets_round_trip l : bytes l -> sextet_bytes (bytes_sextets l) = Some l.
Proof.
  unfold bytes, byte.
  induction l as [| a | a b | a b c l IH] using triples_ind; cbn [bytes_sextets sextet_bytes]; intros H; repeat (apply Forall_cons in H as [? H]);
    [done | | | rewrite IH by done]; repeat f_equal; ndiv.
Qed.

Lemma b64_encode_sextets ch l : b64_encode ch l = map ch (bytes_sextets l) ++ replicate (padding_of l) 61%N.
Proof. induction l as [| a | a b | a b c l IH] using triples_ind; simpl; [done | done | done | by rewrite IH]. Qed.

Lemma rstrip_equals_padded l k : Forall (fun c => c <> 61%N) l -> rstrip_equals (l ++ replicate k 61%N) = l.
Proof.
  intros H. unfold rstrip_equals. rewrite rev_app_distr.
  assert (rev (replicate k 61%N) = replicate k 61%N) as -> by (rewrite rev_alt; apply reverse_replicate).
  assert (drop_equals (replicate k 61%N ++ rev l) = rev l) as ->; [| apply rev_involutive].
  induction k as [| k IH]; [| exact IH]. simpl.
  apply Forall_rev in H. destruct H as [| c r Hc _]; [done |]. simpl. destruct (N.eqb_spec c 61); [done | reflexivity].
Qed.

Lemma base64url_encode_sextets l : bytes l -> base64url_encode l = PyStr (map urlsafe_char (bytes_sextets l)).
Proof.
  intros H. unfold base64url_encode. rewrite b64_encode_sextets, rstrip_equals_padded; [done |].
  apply Forall_map, (Forall_impl _ _ _ (bytes_sextets_bounded l H)), urlsafe_not_equals.
Qed.

Lemma data_chars_sextets l k :
  Forall sextet l -> data_chars (map standard_altchars (map urlsafe_char l ++ replicate k 61%N)) = (l, replicate k 61%N).
Proof.
  intros H. induction H as [| n l Hn _ IH]; simpl.
  - destruct k as [| k]; [done |]. simpl. f_equal. f_equal. induction k as [| k IH]; [done |]. simpl. by rewrite IH.
  - rewrite urlsafe_sextet by done. by rewrite IH.
Qed.

(** The sextets of a text say how much padding it has, whatever the bytes are. *)
Lemma sextets_padding l :
  padding_of l = Z.to_nat (- Z.of_nat (length (bytes_sextets l)) mod 4) /\
  match (length (bytes_sextets l) mod 4)%nat with 0%nat => [] | 2%nat => [61; 61]%N | 3%nat => [61%N] | _ => [0%N] end = replicate (padding_of l) 61%N.
Proof.
  induction l as [| a | a b | a b c l IH] using triples_ind; [done.. |].
  assert (length (bytes_sextets (a :: b :: c :: l)) = (length (bytes_sextets l) + 1 * 4)%nat) as -> by (simpl; lia).
  rewrite Nat.Div0.mod_add. change (padding_of (a :: b :: c :: l)) with (padding_of l).
  destruct IH as [IH1 IH2]. split; [rewrite IH1 | exact IH2]. f_equal. ndiv.
Qed.

Lemma quads_ind (P : list N -> Prop) :
  P [] -> (forall a, P [a]) -> (forall a b, P [a; b]) -> (forall a b c, P [a; b; c]) -> (forall a b c d l, P l -> P (a :: b :: c :: d :: l)) ->
  forall l, P l.
Proof.
  intros H0 H1 H2 H3 H4.
  fix go 1. intros [| a [| b [| c [| d l]]]]; [exact H0 | apply H1 | apply H2 | apply H3 | apply H4, go].
Qed.

Lemma sextet_bytes_bounded l : Forall sextet l -> forall b, sextet_bytes l = Some b -> bytes b.
Proof.
  unfold bytes, byte, sextet.
  induction l as [| a | a b | a b c | a b c d l IH] using quads_ind; cbn [sextet_bytes]; intros H r E;
    repeat (apply Forall_cons in H as [? H]); [| done | | | destruct (sextet_bytes l) as [bs |] eqn:Hl; [specialize (IH H bs eq_refl) | done]];
    injection E as <-; repeat (apply Forall_cons; split); auto; ndiv.
Qed.

Lemma char_sextet_bounded c n : char_sextet c = Some n -> sextet n.
Proof.
  unfold char_sextet, sextet. repeat case_match; intros [= <-]; repeat (match goal with H : _ |- _ => rewrite andb_true_iff, !N.leb_le in H end); lia.
Qed.

Lemma data_chars_bounded l : Forall sextet (data_chars l).1.
Proof.
  induction l as [| c l IH]; simpl; [constructor |].
  destruct (char_sextet c) as [n |] eqn:E; [| constructor]. destruct (data_chars l). simpl in *.
  constructor; [by apply (char_sextet_bounded c) | done].
Qed.

Lemma b64_decode_bytes s b : b64_decode s = Ok b -> bytes b.
Proof.
  unfold b64_decode. pose proof (data_chars_bounded (codepoints s)) as H.
  destruct (data_chars (codepoints s)) as [sx pad]. case_bool_decide; [| done].
  destruct (sextet_bytes sx) as [r |] eqn:E; [| done]. intros [= <-]. by apply (sextet_bytes_bounded sx).
Qed.

Lemma urlsafe_no_equals l : Forall sextet l -> existsb (fun c => c =? 61)%N (map urlsafe_char l) = false.
Proof.
  intros H. induction H as [| n l Hn _ IH]; [done |]. simpl. rewrite IH.
  destruct (N.eqb_spec (urlsafe_char n) 61) as [Hc |]; [by apply urlsafe_not_equals in Hc | done].
Qed.

Lemma base64url_decode_encoded b : bytes b -> b <> [] -> base64url_decode (base64url_encode b) = Ok b.
Proof.
  intros Hb Hne. pose proof (bytes_sextets_bounded b Hb) as Hs.
  remember (base64url_encode b) as v eqn:Hv. pose proof Hv as E. rewrite base64url_encode_sextets in E by done.
  unfold base64url_decode, str_len. assert (codepoints v = map urlsafe_char (bytes_sextets b)) as Ec by (by rewrite E).
  rewrite Ec, E at 1.
  assert (str_empty (PyStr (map urlsafe_char (bytes_sextets b))) = false) as -> by (by destruct b as [| x [| y [| z b]]]).
  assert (existsb (fun c => c =? 61)%N (map urlsafe_char (bytes_sextets b)) = false) as -> by (by apply urlsafe_no_equals).
  cbn [orb reject_if rbind].
  destruct (sextets_padding b) as [Hk Hp]. rewrite ?Ec, length_map, <- Hk.
  unfold b64_decode. cbn [codepoints]. rewrite data_chars_sextets by done. rewrite Hp.
  rewrite bool_decide_true by done. rewrite sextets_round_trip by done.
  cbn [rbind]. rewrite bool_decide_true by done. reflexivity.
Qed.

Lemma base64url_decode_ok s b : base64url_decode s = Ok b -> bytes b /\ b <> [] /\ s = base64url_encode b.
Proof.
  unfold base64url_decode, reject_if. destruct (str_empty s) eqn:He; [done |]. destruct (existsb _ _); [done |]. cbn [orb rbind].
  destruct (b64_decode _) as [d | e] eqn:Hd; [| done]. cbn [rbind].
  case_bool_decide as Hs; [| done]. intros [= <-].
  split; [by apply b64_decode_bytes in Hd |]. split; [| done]. intros ->. by subst s.
Qed.

(** The characters of such a text are ASCII, and none is a dot. *)
Lemma base64url_chars l : bytes l -> Forall (fun c => (c < 128)%N /\ c <> 46%N) (codepoints (base64url_encode l)).
Proof.
  intros H. rewrite base64url_encode_sextets by done. apply Forall_map, (Forall_impl _ _ _ (bytes_sextets_bounded l H)). intros n Hn.
  pose proof (every_sextet (fun n => (urlsafe_char n <? 128)%N && negb (urlsafe_char n =? 46)%N) eq_refl n Hn) as E.
  cbv beta in E. by rewrite andb_true_iff, N.ltb_lt, negb_true_iff, N.eqb_neq in E.
Qed.

(** [base64url_decode] accepts exactly the texts [base64url_encode] writes for the
    non-empty byte strings, and returns the bytes: no two texts decode to the same bytes,
    no text decodes to bytes it is not the encoding of, and nothing encoded is refused. *)
Theorem base64url_bijection s b : base64url_decode s = Ok b <-> (bytes b /\ b <> [] /\ s = base64url_encode b).
Proof. split; [apply base64url_decode_ok | intros (Hb & Hne & ->); by apply base64url_decode_encoded]. Qed.

Lemma base64url_bijection_witness : base64url_decode "-_8" = Ok [251; 255]%N.
Proof. apply (base64url_bijection "-_8" [251; 255]%N). split; [repeat constructor | split; [done | vm_compute; reflexivity]]. Defined.
