(* ===== verification/Calendar.v ===== *)
(** * Calendar dates and their text

    The proleptic Gregorian calendar of [datetime] and the text of a UTC instant with
    milliseconds, as the standard library writes and reads it. *)
From Stdlib Require Import ZArith Lia.
From stdpp Require Import base list.
From S2P Require Import Prelude Core Wire.

(** ** Days and dates *)

Definition is_leap (y : Z) : bool :=
  (y mod 4 =? 0)%Z && (negb (y mod 100 =? 0)%Z || (y mod 400 =? 0)%Z).

(** The days of the months of a year. *)
Definition months (y : Z) : list Z := [31; if is_leap y then 29 else 28; 31; 30; 31; 30; 31; 31; 30; 31; 30; 31].

Definition days_in_month (y m : Z) : Z := default 0 (months y !! Z.to_nat (m - 1)).

(** The days of the years before [y], and of the months of a list before the [m]th. *)
Definition days_before_year (y : Z) : Z :=
  let n := y - 1 in n * 365 + n / 4 - n / 100 + n / 400.
Definition days_before_month (y m : Z) : Z := foldr Z.add 0 (take (Z.to_nat (m - 1)) (months y)).

(** The days from 0001-01-01 to a date. *)
Definition days_of (y m d : Z) : Z := days_before_year y + days_before_month y m + (d - 1).

(** The year of a day: 400 years have 146097 days, a century 36524, four years 1461, and the
    last of each period may be longer. *)
Definition year_of (n : Z) : Z :=
  let n400 := n / 146097 in
  let r := n mod 146097 in
  let n100 := Z.min 3 (r / 36524) in
  let r := r - n100 * 36524 in
  let n4 := r / 1461 in
  let r := r mod 1461 in
  let n1 := Z.min 3 (r / 365) in
  400 * n400 + 100 * n100 + 4 * n4 + n1 + 1.

(** The month and day of the [n]th day, counted from zero, of a list of months. *)
Fixpoint month_day (lengths : list Z) (m n : Z) : Z * Z :=
  match lengths with
  | [] => (m, n + 1)
  | l :: ls => if (n <? l)%Z then (m, n + 1) else month_day ls (m + 1) (n - l)
  end.

Definition date_of (n : Z) : Z * Z * Z :=
  let y := year_of n in
  let '(m, d) := month_day (months y) 1 (n - days_before_year y) in
  (y, m, d).

(** [date(y, m, d)] accepts. *)
Definition is_date (y m d : Z) : bool :=
  (1 <=? y)%Z && (y <=? 9999)%Z && (1 <=? m)%Z && (m <=? 12)%Z && (1 <=? d)%Z && (d <=? days_in_month y m)%Z.

Example first_and_last_day :
  date_of 0 = (1, 1, 1) /\ date_of 3652058 = (9999, 12, 31) /\ days_of 9999 12 31 = 3652058 /\ date_of 738944 = (2024, 2, 29).
Proof. vm_compute. done. Qed.

(** *** The two conversions are inverse *)

Lemma year_length y : days_before_year (y + 1) = days_before_year y + foldr Z.add 0 (months y).
Proof.
  unfold days_before_year, months, is_leap. cbn [foldr].
  destruct (y mod 4 =? 0) eqn:H4, (y mod 100 =? 0) eqn:H100, (y mod 400 =? 0) eqn:H400; cbn;
    time_facts; Z.to_euclidean_division_equations; lia.
Qed.

Lemma year_of_spec n : 0 <= n -> days_before_year (year_of n) <= n < days_before_year (year_of n + 1).
Proof.
  intros Hn. unfold year_of. set (a := n / 146097). set (r := n mod 146097).
  assert (n = 146097 * a + r /\ 0 <= r < 146097) as [Hr Hrb] by (subst a r; split; [apply Z.div_mod; lia|apply Z.mod_pos_bound; lia]).
  clearbody a r. set (b := Z.min 3 (r / 36524)).
  assert (0 <= b <= 3 /\ 0 <= r - b * 36524 /\ (b < 3 -> r - b * 36524 < 36524)) as (Hb & Hrb' & Hb3).
  { subst b. Z.to_euclidean_division_equations. lia. }
  assert (r - b * 36524 < 36525) as Hlast by (subst b; Z.to_euclidean_division_equations; lia).
  clearbody b. set (r1 := r - b * 36524) in *. set (c := r1 / 1461). set (r2 := r1 mod 1461).
  assert (r1 = 1461 * c + r2 /\ 0 <= r2 < 1461) as [Hr1 Hr2] by (subst c r2; split; [apply Z.div_mod; lia|apply Z.mod_pos_bound; lia]).
  assert (0 <= c <= 24 /\ (b < 3 -> c = 24 -> r2 < 1460)) as [Hc Hc24] by lia. clearbody c r2.
  set (d := Z.min 3 (r2 / 365)).
  assert (0 <= d <= 3 /\ 0 <= r2 - d * 365 /\ (d < 3 -> r2 - d * 365 < 365) /\ r2 - d * 365 < 366) as (Hd & Hd0 & Hd3 & Hd4).
  { subst d. Z.to_euclidean_division_equations. lia. }
  clearbody d. subst r1.
  assert (forall k, 0 <= k <= 4 -> days_before_year (400 * a + 100 * b + 4 * c + k + 1) =
    146097 * a + 36524 * b + 1461 * c + 365 * k + (if k =? 4 then (if c =? 24 then (if b =? 3 then 1 else 0) else 1) else 0)) as Hy.
  { intros k Hk. unfold days_before_year. replace (400 * a + 100 * b + 4 * c + k + 1 - 1) with (400 * a + 100 * b + 4 * c + k) by lia.
    destruct (k =? 4) eqn:E4, (c =? 24) eqn:E24, (b =? 3) eqn:E3; time_facts; Z.to_euclidean_division_equations; lia. }
  split.
  - rewrite Hy by lia. destruct (d =? 4) eqn:E4; time_facts; lia.
  - replace (400 * a + 100 * b + 4 * c + d + 1 + 1) with (400 * a + 100 * b + 4 * c + (d + 1) + 1) by lia.
    rewrite Hy by lia. destruct (d + 1 =? 4) eqn:E4, (c =? 24) eqn:E24, (b =? 3) eqn:E3; time_facts; lia.
Qed.

Lemma month_day_spec ls : forall m n, 0 <= n < foldr Z.add 0 ls -> Forall (fun l => 0 < l) ls ->
  exists k d, month_day ls m n = (m + Z.of_nat k, d) /\ ls !! k = Some (default 0 (ls !! k)) /\
    1 <= d <= default 0 (ls !! k) /\ n = foldr Z.add 0 (take k ls) + (d - 1).
Proof.
  induction ls as [|l ls IH]; intros m n Hn Hls; cbn in Hn |- *; [lia|]. apply Forall_cons in Hls as [Hl Hls].
  destruct (n <? l) eqn:Hlt; time_facts.
  - exists 0%nat, (n + 1). cbn. split_and!; [f_equal; lia|done|lia..].
  - destruct (IH (m + 1) (n - l)) as (k & d & -> & Hk & Hd & Hsum); [lia|done|]. exists (S k), d.
    split_and!; [f_equal; lia|exact Hk| | |]; cbn [take foldr lookup list_lookup]; first [apply Hd | lia].
Qed.

Lemma year_of_monotone n y : 0 <= n < days_before_year y -> year_of n < y.
Proof.
  intros Hn. pose proof (year_of_spec n ltac:(lia)) as [Hy _]. destruct (Z.lt_ge_cases (year_of n) y) as [|Hge]; [done|exfalso].
  unfold days_before_year in *. Z.to_euclidean_division_equations. lia.
Qed.

Lemma year_of_pos n : 0 <= n -> 1 <= year_of n.
Proof. intros Hn. unfold year_of. Z.to_euclidean_division_equations. lia. Qed.

(** Every day of the calendar is the day of its date. *)
Lemma date_of_spec n y m d : 0 <= n <= 3652058 -> date_of n = (y, m, d) -> is_date y m d = true /\ days_of y m d = n.
Proof.
  intros Hn Hd. unfold date_of in Hd. pose proof (year_of_spec n ltac:(lia)) as Hy. rewrite year_length in Hy.
  destruct (month_day_spec (months (year_of n)) 1 (n - days_before_year (year_of n)) ltac:(lia)) as (k & d' & Hmd & Hk & Hd' & Hsum).
  { unfold months. repeat constructor. by destruct (is_leap _). }
  rewrite Hmd in Hd. injection Hd as <- <- <-.
  assert (k < 12)%nat as Hk12 by (apply lookup_lt_Some in Hk; exact Hk).
  assert (Z.to_nat (1 + Z.of_nat k - 1) = k) as Hnat by lia.
  unfold is_date, days_of, days_in_month, days_before_month. rewrite Hnat. split; [|lia].
  pose proof (year_of_pos n ltac:(lia)). assert (year_of n < 10000) by (apply year_of_monotone; change (days_before_year 10000) with 3652059; lia).
  rewrite !andb_true_iff, !Z.leb_le. lia.
Qed.

(** ** Text *)

(** A number in [k] decimal digits, and the text of [str.replace]. *)
Fixpoint pad (k : nat) (n : Z) : list N :=
  match k with O => [] | S k' => pad k' (n / 10) ++ [(48 + Z.to_N (n mod 10))%N] end.

Fixpoint starts (prefix l : list N) : bool :=
  match prefix, l with
  | [], _ => true
  | a :: p, b :: l' => (a =? b)%N && starts p l'
  | _ :: _, [] => false
  end.

Fixpoint replace_cps (old new : list N) (skip : nat) (l : list N) : list N :=
  match l with
  | [] => []
  | c :: l' =>
      match skip with
      | S k => replace_cps old new k l'
      | O => if starts old l then new ++ replace_cps old new (length old - 1) l'
             else c :: replace_cps old new 0 l'
      end
  end.

(** [s.replace(old, new)] of a non-empty [old]. *)
Definition str_replace (old new s : pystr) : pystr :=
  PyStr (replace_cps (codepoints old) (codepoints new) 0 (codepoints s)).

(** [value.isoformat(timespec="milliseconds")] of a UTC [value]. *)
Definition isoformat_milliseconds (value : datetime) : pystr :=
  let w := dt_wall value / 1000 in
  let '(y, m, d) := date_of (w / 86400000) in
  let t := w mod 86400000 in
  PyStr (pad 4 y ++ [45%N] ++ pad 2 m ++ [45%N] ++ pad 2 d ++ [84%N]
    ++ pad 2 (t / 3600000) ++ [58%N] ++ pad 2 (t / 60000 mod 60) ++ [58%N] ++ pad 2 (t / 1000 mod 60)
    ++ [46%N] ++ pad 3 (t mod 1000) ++ codepoints "+00:00"%py).

(** [datetime.fromisoformat(s)] of a text [YYYY-MM-DDTHH:MM:SS.mmm+00:00], whose digits may
    be digits of another script, which it refuses like a field out of range. *)
Definition field (i k : nat) (l : list N) : list N := take k (drop i l).
Definition invalid_isoformat : exn := ValueError "Invalid isoformat string".

Definition number (i k : nat) (l : list N) : Z := int_digits (field i k l).

Definition fromisoformat (s : pystr) : result exn datetime :=
  let l := codepoints s in
  let y := number 0 4 l in
  let m := number 5 2 l in
  let d := number 8 2 l in
  let hour := number 11 2 l in
  let minute := number 14 2 l in
  let second := number 17 2 l in
  let fields := [field 0 4 l; field 5 2 l; field 8 2 l; field 11 2 l; field 14 2 l; field 17 2 l; field 20 3 l] in
  reject_if (negb (forallb (forallb digit) fields)) invalid_isoformat ??;
  reject_if (negb (is_date y m d && (hour <? 24) && (minute <? 60) && (second <? 60))) invalid_isoformat ??;
  Ok (utc (1000 * (86400000 * days_of y m d + 3600000 * hour + 60000 * minute + 1000 * second + number 20 3 l))).

Lemma pad_digits k n : Forall (fun c => digit c = true) (pad k n).
Proof.
  revert n. induction k as [|k IH]; intros n; cbn [pad]; [done|]. apply Forall_app. split; [apply IH|].
  constructor; [|done]. pose proof (Z.mod_pos_bound n 10). unfold digit. rewrite andb_true_iff, !N.leb_le. lia.
Qed.

Lemma int_digits_snoc l c : int_digits (l ++ [c]) = 10 * int_digits l + (Z.of_N c - 48).
Proof. unfold int_digits. by rewrite fold_left_app. Qed.

Lemma pad_value k : forall n, 0 <= n < 10 ^ Z.of_nat k -> int_digits (pad k n) = n.
Proof.
  induction k as [|k IH]; intros n Hn; cbn [pad].
  - cbn in Hn |- *. unfold int_digits. cbn. lia.
  - rewrite int_digits_snoc, IH.
    + pose proof (Z.mod_pos_bound n 10). pose proof (Z.div_mod n 10). lia.
    + rewrite Nat2Z.inj_succ, Z.pow_succ_r in Hn by lia. Z.to_euclidean_division_equations. lia.
Qed.

Lemma fields_digits l : Forall (Forall (fun c => digit c = true)) l -> forallb (forallb digit) l = true.
Proof.
  induction 1 as [|x l Hx _ IH]; [done|]. cbn. rewrite IH, andb_true_r.
  induction Hx as [|c x Hc _ IHx]; [done|]. cbn. by rewrite Hc.
Qed.

(** The text of a time in milliseconds, and the time read from it. *)
Lemma isoformat_round_trip w : 0 <= w <= dt_max -> w mod 1000 = 0 -> fromisoformat (isoformat_milliseconds (utc w)) = Ok (utc w).
Proof.
  intros Hw Hms. unfold isoformat_milliseconds. cbn [dt_wall utc]. set (v := w / 1000).
  assert (w = 1000 * v /\ 0 <= v < 315537897600000) as [Hv Hvb] by (unfold dt_max in Hw; Z.to_euclidean_division_equations; lia).
  clearbody v. subst w. set (n := v / 86400000). set (t := v mod 86400000).
  assert (v = 86400000 * n + t /\ 0 <= t < 86400000 /\ 0 <= n <= 3652058) as (Hnt & Ht & Hn) by (subst n t; Z.to_euclidean_division_equations; lia).
  clearbody n t. destruct (date_of n) as [[y m] d] eqn:Hdate. destruct (date_of_spec n y m d Hn Hdate) as [His Hdays].
  pose proof His as Hfields. unfold is_date in Hfields. rewrite !andb_true_iff, !Z.leb_le in Hfields.
  assert (days_in_month y m <= 31) as Hdim.
  { unfold days_in_month. destruct Hfields as [[[[[_ _] Hm1] Hm2] _] _]. unfold months.
    assert (Z.to_nat (m - 1) < 12)%nat as Hm by lia. destruct (is_leap y); revert Hm; generalize (Z.to_nat (m - 1)); intros k Hk;
      do 12 (destruct k as [|k]; [cbn; lia|]); lia. }
  assert (0 <= t / 3600000 < 24 /\ 0 <= t / 60000 mod 60 < 60 /\ 0 <= t / 1000 mod 60 < 60 /\ 0 <= t mod 1000 < 1000 /\
    t = 3600000 * (t / 3600000) + 60000 * (t / 60000 mod 60) + 1000 * (t / 1000 mod 60) + t mod 1000) as (Hh & Hmi & Hs & Hmil & Hsum)
    by (Z.to_euclidean_division_equations; lia).
  unfold fromisoformat. cbn [codepoints].
  set (l := pad 4 y ++ _).
  assert (number 0 4 l = y) as -> by (apply (pad_value 4); lia).
  assert (number 5 2 l = m) as -> by (apply (pad_value 2); lia).
  assert (number 8 2 l = d) as -> by (apply (pad_value 2); lia).
  assert (number 11 2 l = t / 3600000) as -> by (apply (pad_value 2); lia).
  assert (number 14 2 l = t / 60000 mod 60) as -> by (apply (pad_value 2); lia).
  assert (number 17 2 l = t / 1000 mod 60) as -> by (apply (pad_value 2); lia).
  assert (number 20 3 l = t mod 1000) as -> by (apply (pad_value 3); lia).
  rewrite fields_digits by (repeat first [apply List.Forall_nil | apply List.Forall_cons;
    [first [exact (pad_digits 4 y) | apply (pad_digits 2) | apply (pad_digits 3)]|]]). cbn [negb reject_if rbind].
  rewrite His, !(proj2 (Z.ltb_lt _ _)) by lia. cbn [negb andb reject_if rbind]. do 2 f_equal. rewrite Hdays. lia.
Qed.
