(* ===== verification/Messages.v ===== *)
(** * Message envelopes and codecs ([src/pytitect/messaging/])

    The closed message profiles ([model.py], [exact.py]) and their codecs ([codecs.py]):
    [titect-message/1] carries an ordinary JSON value, [titect-message/2] an exact wire
    document. The declarations of event types are those of [registry.py]. *)
From Stdlib Require Import ZArith Lia SpecFloat.
From stdpp Require Import base list gmap.
From S2P Require Import Prelude Core Wire Calendar.

Definition WireProfileError : exn := OtherError "WireProfileError" "unsupported_profile".

(** [isinstance(e, ValueError)]. *)
Definition value_error (e : exn) : bool :=
  match e with
  | ValueError _ => true
  | OtherError c _ => bool_decide (c ∈ ["UnicodeEncodeError"; "WireSyntaxError"; "WireLimitError"; "WireShapeError";
      "WirePrecisionError"; "WireProfileError"]%py)
  | _ => false
  end.

(** [try: r except (ValueError, TypeError): pass], then [raise WireShapeError()]. *)
Definition or_shape_error {A} (r : result exn A) : result exn A :=
  match r with
  | Raise e => Raise (if value_error e || bool_decide (exn_name e = "TypeError"%py) then WireShapeError else e)
  | Ok a => Ok a
  end.

(** ** Envelopes *)

Definition MESSAGE_PROFILE : pystr := "titect-message/1".
Definition EXACT_MESSAGE_PROFILE : pystr := "titect-message/2".
Definition CLOUD_EVENTS_SPEC_VERSION : pystr := "1.0".
Definition JSON_CONTENT_TYPE : pystr := "application/json".

(** The fields of [Message] and of [ExactMessage], which differ in their data. *)
Record envelope (T : Type) := mkEnvelope {
  id : pystr;
  source : pystr;
  type : pystr;
  subject : pystr;
  time : datetime;
  dataschema : pystr;
  data : T;
  correlationid : option pystr;
  causationid : option pystr;
  specversion : pystr;
  datacontenttype : pystr;
  profile : pystr
}.
Arguments mkEnvelope {T}.
Arguments id {T}.
Arguments source {T}.
Arguments type {T}.
Arguments subject {T}.
Arguments time {T}.
Arguments dataschema {T}.
Arguments data {T}.
Arguments correlationid {T}.
Arguments causationid {T}.
Arguments specversion {T}.
Arguments datacontenttype {T}.
Arguments profile {T}.

Abbreviation Message := (envelope json).
Abbreviation ExactMessage := (envelope WireDocument).

Definition with_data {T U} (m : envelope T) (d : U) (p : pystr) : envelope U :=
  mkEnvelope (id m) (source m) (type m) (subject m) (time m) (dataschema m) d (correlationid m) (causationid m)
    (specversion m) (datacontenttype m) p.

(** [_EVENT_TYPE.fullmatch]. *)
Definition is_letter (c : N) : bool := (((65 <=? c) && (c <=? 90)) || ((97 <=? c) && (c <=? 122)))%N.
Definition is_type_char (c : N) : bool := (is_letter c || digit c || (c =? 46) || (c =? 95) || (c =? 45))%N.
Definition _EVENT_TYPE (s : pystr) : bool :=
  match codepoints s with
  | c :: l => is_letter c && forallb is_type_char l && (length l <=? 254)%nat
  | [] => false
  end.

Definition trimmed (s : pystr) : bool := negb (str_empty s) && bool_decide (s = str_strip s).
Definition optional_trimmed (s : option pystr) : bool := match s with Some s => trimmed s | None => true end.

(** [_require_millisecond_utc]. *)
Definition _require_millisecond_utc (value : datetime) : result exn unit :=
  reject_if (negb (is_utc value)) (ValueError "message time must be timezone-aware UTC") ??;
  reject_if (negb (dt_wall value mod 1000000 mod 1000 =? 0))%Z (ValueError "message time must have millisecond precision").

Definition check_field (name value : pystr) : result exn unit :=
  reject_if (negb (trimmed value)) (ValueError (str_app "message " (str_app name " must be non-empty and trimmed"))).
Definition check_optional (name : pystr) (value : option pystr) : result exn unit :=
  reject_if (negb (optional_trimmed value))
    (ValueError (str_app "message " (str_app name " must be non-empty and trimmed when present"))).

(** [Message.__post_init__]. *)
Definition Message_new (m : Message) : result exn Message :=
  check_field "id" (id m) ??;
  check_field "source" (source m) ??;
  check_field "subject" (subject m) ??;
  check_field "dataschema" (dataschema m) ??;
  reject_if (negb (_EVENT_TYPE (type m))) (ValueError "message type is invalid") ??;
  check_optional "correlationid" (correlationid m) ??;
  check_optional "causationid" (causationid m) ??;
  reject_if (negb (bool_decide (specversion m = CLOUD_EVENTS_SPEC_VERSION))) (ValueError "specversion must be 1.0") ??;
  reject_if (negb (bool_decide (datacontenttype m = JSON_CONTENT_TYPE))) (ValueError "datacontenttype must be application/json") ??;
  reject_if (negb (bool_decide (profile m = MESSAGE_PROFILE))) (ValueError "profile must be titect-message/1") ??;
  _require_millisecond_utc (time m) ??;
  validate_json_with Limits_default (data m) ??;
  Ok m.

(** [ExactMessage.__post_init__]. *)
Definition ExactMessage_new (m : ExactMessage) : result exn ExactMessage :=
  reject_if (negb (bool_decide (profile m = EXACT_MESSAGE_PROFILE))) WireProfileError ??;
  let? _ := or_shape_error (Message_new (with_data m JNull MESSAGE_PROFILE)) in
  Ok m.

(** [MessageValue]. *)
Inductive MessageValue := Ordinary (m : Message) | Exact (m : ExactMessage).

(** ** Times *)

Definition format_message_time (value : datetime) : result exn pystr :=
  _require_millisecond_utc value ??;
  Ok (str_replace "+00:00" "Z" (isoformat_milliseconds value)).

(** [_TIMESTAMP]: [None] is a decimal digit, of any script. *)
Definition timestamp_pattern : list (option N) :=
  [None; None; None; None; Some 45; None; None; Some 45; None; None; Some 84; None; None; Some 58; None; None;
   Some 58; None; None; Some 46; None; None; None; Some 90]%N.

Section Times.
(** The characters [\d] matches: the decimal digits of Unicode. *)
Variable unicode_decimal : N -> bool.

Fixpoint matches (pattern : list (option N)) (l : list N) : bool :=
  match pattern, l with
  | [], [] => true
  | p :: ps, c :: l' => match p with Some c' => (c =? c')%N | None => unicode_decimal c end && matches ps l'
  | _, _ => false
  end.

Definition _TIMESTAMP (s : pystr) : bool := matches timestamp_pattern (codepoints s).

Definition parse_message_time (value : pystr) : result exn datetime :=
  reject_if (negb (_TIMESTAMP value)) (ValueError "message time must be an RFC 3339 UTC timestamp in milliseconds") ??;
  let? parsed := fromisoformat (str_app (PyStr (removelast (codepoints value))) "+00:00") in
  _require_millisecond_utc parsed ??;
  let? text := format_message_time parsed in
  reject_if (negb (bool_decide (text = value))) (ValueError "message time is not an exact calendar representation") ??;
  Ok parsed.

(** ** The exact codec *)

Definition REQUIRED_MESSAGE_FIELDS : list pystr :=
  ["id"; "source"; "specversion"; "type"; "subject"; "time"; "dataschema"; "datacontenttype"; "profile"; "data"]%py.
Definition MESSAGE_FIELDS : list pystr := (REQUIRED_MESSAGE_FIELDS ++ ["correlationid"; "causationid"])%py.

(** The fields in the order of the dictionary displays; [text] and [data] make the values. *)
Definition fields {T V} (text : pystr -> V) (m : envelope T) (time : pystr) (d : V) : list (pystr * V) :=
  [("id", text (id m)); ("source", text (source m)); ("specversion", text (specversion m)); ("type", text (type m));
   ("subject", text (subject m)); ("time", text time); ("dataschema", text (dataschema m));
   ("datacontenttype", text (datacontenttype m)); ("profile", text (profile m)); ("data", d)]%py
  ++ (match correlationid m with Some c => [("correlationid", text c)]%py | None => [] end)
  ++ (match causationid m with Some c => [("causationid", text c)]%py | None => [] end).

Definition _envelope {T} (m : envelope T) (d : exact) : result exn exact :=
  let? time := format_message_time (time m) in
  Ok (XMap (fields XStr m time d)).

Definition is_text (v : exact) : bool := match v with XStr _ => true | _ => false end.
Definition text_of (v : exact) : pystr := match v with XStr s => s | _ => "" end.

(** The text fields of a document of the profile. *)
Definition _metadata (document : WireDocument) (selected : pystr) : result exn (dict pystr pystr) :=
  match value document with
  | XMap items =>
      reject_if (negb (forallb (fun k => bool_decide (k ∈ items.*1)) REQUIRED_MESSAGE_FIELDS)
        || negb (forallb (fun k => bool_decide (k ∈ MESSAGE_FIELDS)) items.*1)) WireShapeError ??;
      match d_get "profile"%py items with
      | Some (XStr p) => reject_if (negb (bool_decide (p = selected))) WireProfileError
      | _ => Raise WireShapeError
      end ??;
      let metadata := filter (fun p => p.1 <> "data"%py) items in
      reject_if (negb (forallb (fun p => is_text p.2) metadata)) WireShapeError ??;
      Ok (map (fun p => (p.1, text_of p.2)) metadata)
  | _ => Raise WireShapeError
  end.

(** [Message( **_message_arguments(metadata), time=..., data=...)]: a field without default
    must be there. *)
Definition argument (metadata : dict pystr pystr) (name : pystr) : result exn pystr :=
  match d_get name metadata with
  | Some v => Ok v
  | None => Raise (OtherError "TypeError" "missing argument")
  end.

Definition message_of {T} (metadata : dict pystr pystr) (time : datetime) (d : T) (default_profile : pystr) :
    result exn (envelope T) :=
  let? id := argument metadata "id" in
  let? source := argument metadata "source" in
  let? type := argument metadata "type" in
  let? subject := argument metadata "subject" in
  let? dataschema := argument metadata "dataschema" in
  let optional name fallback := default fallback (d_get name metadata) in
  Ok (mkEnvelope id source type subject time dataschema d
    (d_get "correlationid"%py metadata) (d_get "causationid"%py metadata)
    (optional "specversion"%py CLOUD_EVENTS_SPEC_VERSION) (optional "datacontenttype"%py JSON_CONTENT_TYPE)
    (optional "profile"%py default_profile)).

(** [replace(limits, max_body_bytes=n)], which constructs the limits again. *)
Definition with_body_bytes (l : Limits) (n : Z) : Limits :=
  mkLimits n (max_json_depth l) (max_json_items l) (max_metadata_items l) (max_string_length l).
Definition replace_body_bytes {S} (l : Limits) (n : Z) : M exn S Limits := Limits_check (with_body_bytes l n).

(** [ExactJsonMessageCodec]: its limits. *)
Definition ExactJsonMessageCodec_new {S} (limits : option Limits) (max_envelope_bytes : Z) : M exn S Limits :=
  raise_if (max_envelope_bytes <=? 0)%Z (ValueError "max_envelope_bytes must be a positive integer") ;;;
  let! selected := (match limits with
    | Some l => ret l
    | None => replace_body_bytes Limits_default max_envelope_bytes
    end) in
  replace_body_bytes selected (Z.min (max_body_bytes selected) max_envelope_bytes).

Definition exact_encode (lim : Limits) (m : MessageValue) : result exn (list N) :=
  match m with
  | Ordinary _ => Raise WireProfileError
  | Exact m =>
      let? e := _envelope m (value (data m)) in
      let? d := WireDocument_new e lim in
      encode d
  end.

Definition exact_decode_stream (lim : Limits) (chunks : list (list N)) : result exn ExactMessage :=
  let? document := decode_wire_stream lim chunks in
  let? metadata := _metadata document EXACT_MESSAGE_PROFILE in
  let items := match value document with XMap items => items | _ => [] end in
  or_shape_error (
    let? time := (let? t := argument metadata "time" in parse_message_time t) in
    let? d := (match d_get "data"%py items with
      | Some d => WireDocument_new d lim
      | None => Raise (KeyError "data")
      end) in
    let? m := message_of metadata time d EXACT_MESSAGE_PROFILE in
    ExactMessage_new m).

Definition exact_decode (lim : Limits) (payload : list N) : result exn ExactMessage := exact_decode_stream lim [payload].

(** ** The codec of the first profile *)

Section Json.
Variable float_repr : spec_float -> pystr.
Variable float_of : pystr -> spec_float.
Variable decimal_exact : pystr -> spec_float -> bool.

(** [JsonMessageCodec]: its limits, and the bound of an envelope. *)
Record JsonMessageCodec := mkCodec { codec_limits : Limits; max_envelope : Z }.

Definition JsonMessageCodec_new {S} (limits : option Limits) (max_envelope_bytes : Z) : M exn S JsonMessageCodec :=
  raise_if (max_envelope_bytes <=? 0)%Z (ValueError "max_envelope_bytes must be a positive integer") ;;;
  let! selected := (match limits with
    | Some l => ret l
    | None => replace_body_bytes Limits_default max_envelope_bytes
    end) in
  ret (mkCodec selected (Z.min (max_body_bytes selected) max_envelope_bytes)).

(** The document of a message. *)
Definition message_document (m : Message) (time : pystr) : json :=
  JDict (map (fun p => (KeyStr p.1, p.2)) (fields JStr m time (data m))).

Definition json_encode (c : JsonMessageCodec) (m : MessageValue) : result exn (list N) :=
  match m with
  | Exact _ => Raise WireProfileError
  | Ordinary m =>
      let? time := format_message_time (time m) in
      let document := message_document m time in
      validate_json_with (codec_limits c) document ??;
      let? encoded := (match canonical_json_bytes float_repr document with
        | Raise e =>
            if value_error e
            then
              let? v := _legacy_value float_repr document in
              let? d := WireDocument_new v (with_body_bytes (codec_limits c) (max_envelope c)) in
              encode d
            else Raise e
        | Ok encoded => Ok encoded
        end) in
      reject_if (max_envelope c <? Z.of_nat (length encoded))%Z (ValueError "encoded message exceeds max_envelope_bytes") ??;
      Ok encoded
  end.

Definition json_decode_stream (c : JsonMessageCodec) (chunks : list (list N)) : result exn Message :=
  let? document := decode_wire_stream (with_body_bytes (codec_limits c) (Z.min (max_body_bytes (codec_limits c)) (max_envelope c))) chunks in
  let? metadata := _metadata document MESSAGE_PROFILE in
  let? ordinary := _ordinary float_of decimal_exact false (value document) in
  let items := match ordinary with JDict items => items | _ => [] end in
  or_shape_error (
    let? time := (let? t := argument metadata "time" in parse_message_time t) in
    let? d := (match d_get (KeyStr "data") items with
      | Some d => Ok d
      | None => Raise (KeyError "data")
      end) in
    let? m := message_of metadata time d MESSAGE_PROFILE in
    Message_new m).

(** [decode]: the wire errors become a [ValueError] with the message of their code. *)
Definition wire_error_message (e : exn) : option pystr :=
  if decide (e = WireLimitError) then Some "encoded message exceeds max_envelope_bytes or JSON allocation limits"%py
  else if decide (e = WireShapeError) then Some "message fields do not match the closed profile"%py
  else if decide (e = WireSyntaxError) then Some "message must be valid UTF-8 JSON"%py
  else if decide (e = WirePrecisionError) then Some "JSON numbers must be finite"%py
  else if decide (e = WireProfileError) then Some "unsupported message profile"%py
  else None.

Definition json_decode (c : JsonMessageCodec) (payload : list N) : result exn Message :=
  match json_decode_stream c [payload] with
  | Raise e => Raise (match wire_error_message e with Some m => ValueError m | None => e end)
  | r => r
  end.
End Json.
End Times.

(** ** Declarations and codec registries *)

Record MessageType := mkMessageType { event_type : pystr; schema : pystr; version : Z }.

Definition MessageType_new {S} (t s : pystr) (v : Z) : M exn S MessageType :=
  raise_if (str_empty t || str_empty s) (ValueError "event type and schema must not be empty") ;;;
  raise_if (v <=? 0)%Z (ValueError "message type version must be a positive integer") ;;;
  ret (mkMessageType t s v).

Abbreviation MessageTypeRegistry := (dict pystr MessageType).

Definition MessageTypeRegistry_new (declarations : list MessageType) : result exn MessageTypeRegistry :=
  fold_result (fun values d =>
    reject_if (d_mem (event_type d) values) (ValueError (str_app "duplicate event type: " (event_type d))) ??;
    Ok (d_set (event_type d) d values)) declarations [].

Definition resolve (values : MessageTypeRegistry) (t : pystr) : result exn MessageType :=
  match d_get t values with
  | Some d => Ok d
  | None => Raise (LookupError (str_app "unknown event type: " t))
  end.

Definition validate (values : MessageTypeRegistry) (t dataschema : pystr) : result exn MessageType :=
  let? d := resolve values t in
  reject_if (negb (bool_decide (schema d = dataschema)))
    (ValueError "message schema does not match its registered event type") ??;
  Ok d.

(** A codec of the registry: its media type, its two operations. *)
Record MessageCodec := mkMessageCodec {
  media_type : pystr;
  codec_encode : MessageValue -> result exn (list N);
  codec_decode : list N -> result exn MessageValue
}.

Definition CodecRegistry_new (codecs : list MessageCodec) : result exn (dict pystr MessageCodec) :=
  let? registered := fold_result (fun registered c =>
    reject_if (str_empty (media_type c) || d_mem (media_type c) registered)
      (ValueError "codec media types must be non-empty and unique") ??;
    Ok (d_set (media_type c) c registered)) codecs [] in
  reject_if (match registered with [] => true | _ => false end) (ValueError "at least one codec is required") ??;
  Ok registered.

Definition require_codec (registered : dict pystr MessageCodec) (media : pystr) : result exn MessageCodec :=
  match d_get media registered with
  | Some c => Ok c
  | None => Raise (LookupError (str_app "no codec registered for " media))
  end.
