(* ===== verification/MessageRoundTrip.v ===== *)
(** * Messages come back from their encoding

    The text of a message time is read back, and a message of the exact profile is read back
    from its encoding, whatever the chunks its bytes arrive in. *)
From Stdlib Require Import ZArith Lia SpecFloat Permutation.
From stdpp Require Import base list gmap.
From S2P Require Import Prelude Core Wire WireText WireRoundTrip Calendar Messages.

(** ** Times *)

Lemma replace_skip old new l rest : Forall (fun c => c <> 43%N) l ->
  replace_cps (43%N :: old) new 0 (l ++ rest) = l ++ replace_cps (43%N :: old) new 0 rest.
Proof.
  induction 1 as [|c l Hc _ IH]; [done|]. cbn [app replace_cps starts].
  rewrite (proj2 (N.eqb_neq _ _)) by congruence. cbn [andb]. by rewrite IH.
Qed.

Lemma pad_no_plus k n : Forall (fun c => c <> 43%N) (pad k n).
Proof.
  eapply Forall_impl; [apply pad_digits|]. intros c Hc ->. done.
Qed.

Section Times.
Context (unicode_decimal : N -> bool) (Hdecimal : forall c, digit c = true -> unicode_decimal c = true).

Lemma digit_mod n : unicode_decimal (48 + Z.to_N (n mod 10)) = true.
Proof. apply Hdecimal. pose proof (pad_digits 1 n) as Hd. cbn [pad app] in Hd. by apply Forall_inv in Hd. Qed.

Lemma message_time_round_trip value text : 0 <= dt_wall value <= dt_max ->
  format_message_time value = Ok text -> parse_message_time unicode_decimal text = Ok value.
Proof.
  intros Hw Hf. pose proof Hf as Hf'. unfold format_message_time in Hf'. apply rbind_ok in Hf' as ([] & Hreq & [= Htext]).
  pose proof Hreq as Hreq'. unfold _require_millisecond_utc in Hreq'. apply rbind_ok in Hreq' as ([] & Hutc & Hms).
  apply reject_if_ok in Hutc, Hms. apply negb_false_iff in Hutc, Hms. apply Z.eqb_eq in Hms.
  apply is_utc_eq in Hutc. assert (dt_wall value mod 1000 = 0) as Hmod by (Z.to_euclidean_division_equations; lia).
  pose proof (isoformat_round_trip (dt_wall value) Hw Hmod) as Hiso. rewrite <- Hutc in Hiso.
  unfold isoformat_milliseconds in Htext, Hiso. destruct (date_of _) as [[y m] d].
  set (t := dt_wall value / 1000 mod 86400000) in *.
  set (head := pad 4 y ++ [45%N] ++ pad 2 m ++ [45%N] ++ pad 2 d ++ [84%N] ++ pad 2 (t / 3600000) ++ [58%N]
    ++ pad 2 (t / 60000 mod 60) ++ [58%N] ++ pad 2 (t / 1000 mod 60) ++ [46%N] ++ pad 3 (t mod 1000)).
  assert (forall tail, pad 4 y ++ [45%N] ++ pad 2 m ++ [45%N] ++ pad 2 d ++ [84%N] ++ pad 2 (t / 3600000) ++ [58%N]
    ++ pad 2 (t / 60000 mod 60) ++ [58%N] ++ pad 2 (t / 1000 mod 60) ++ [46%N] ++ pad 3 (t mod 1000) ++ tail = head ++ tail) as Hhead by done.
  rewrite Hhead in Htext, Hiso.
  assert (Forall (fun c => c <> 43%N) head) as Hplus.
  { unfold head. rewrite !Forall_app, !Forall_singleton. split_and!; done || apply pad_no_plus. }
  assert (text = PyStr (head ++ [90%N])) as ->.
  { rewrite <- Htext. unfold str_replace. f_equal. cbn [codepoints]. cbn [codepoints app]. change (codepoints "+00:00") with [43%N; 48%N; 48%N; 58%N; 48%N; 48%N].
    by rewrite (replace_skip _ _ head). }
  unfold parse_message_time.
  assert (_TIMESTAMP unicode_decimal (PyStr (head ++ [90%N])) = true) as ->.
  { unfold _TIMESTAMP, timestamp_pattern, head. cbn [codepoints pad app matches].
    by rewrite !digit_mod. }
  cbn [negb reject_if rbind codepoints]. rewrite removelast_last. change (str_app (PyStr head) "+00:00") with (PyStr (head ++ codepoints "+00:00")). rewrite Hiso. cbn [rbind]. rewrite Hreq. cbn [rbind].
  rewrite Hf. cbn [rbind]. by rewrite bool_decide_true.
Qed.
(** ** A part of a document *)

Lemma joined_contains l x : x ∈ l -> exists a b, joined l = a ++ x ++ b.
Proof.
  induction l as [|y l IH]; [by intros ?%not_elem_of_nil|]. intros [->|Hx]%elem_of_cons.
  - destruct l as [|z l]; [exists [], []; by rewrite app_nil_r|]. rewrite joined_cons. by exists [], (44%N :: joined (z :: l)).
  - destruct (IH Hx) as (a & b & Heq). destruct l as [|z l]; [by apply not_elem_of_nil in Hx|]. rewrite joined_cons, Heq.
    exists (y ++ 44%N :: a), b. by rewrite <- app_assoc.
Qed.

Lemma enc_all_app a b : enc_all (a ++ b) = enc_all a ++ enc_all b.
Proof. unfold enc_all. by rewrite fmap_app, concat_app. Qed.

Lemma scalar_encode cs : Forall scalar cs -> str_encode (PyStr cs) = Ok (enc_all cs) /\ (length cs <= length (enc_all cs))%nat.
Proof.
  unfold str_encode. cbn [codepoints]. induction 1 as [|c cs Hc _ [IH Hlen]]; [done|].
  destruct (decode_enc c Hc) as (b & l & He & Hu & _). cbn [mapM]. unfold mbind, option_bind. rewrite Hu.
  destruct (mapM utf8_encode_cp cs) as [bs|]; [|done]. injection IH as IH. split.
  - cbn. unfold enc_all. cbn. by rewrite He, IH.
  - unfold enc_all in *. cbn. rewrite He, length_app. cbn. lia.
Qed.

(** The encoder succeeds on characters that have an encoding, within the limit. *)
Lemma encode_pieces_ok lim pieces : forall out, Forall scalar (piece_text pieces) ->
  Z.of_nat (length out) + Z.of_nat (length (enc_all (piece_text pieces))) <= max_body_bytes lim ->
  fold_result (encode_piece lim) pieces out = Ok (out ++ enc_all (piece_text pieces)).
Proof.
  induction pieces as [|p pieces IH]; intros out Hs Hl.
  { cbn. by rewrite app_nil_r. }
  rewrite piece_text_cons in *. apply Forall_app in Hs as [Hp Hs]. rewrite enc_all_app, length_app in Hl.
  destruct (scalar_encode _ Hp) as [He Hlen]. cbn [fold_result]. fold (@fold_result exn). unfold encode_piece at 1.
  unfold str_len. rewrite (proj2 (Z.ltb_ge _ _)) by lia. cbn [reject_if rbind].
  destruct p as [p]. cbn [codepoints] in *. rewrite He. cbn [rbind]. rewrite (proj2 (Z.ltb_ge _ _)) by lia. cbn [reject_if rbind].
  rewrite IH by (done || rewrite length_app; lia). by rewrite <- app_assoc, enc_all_app.
Qed.

Lemma fits_weaken lim x : forall n n', fits lim n x -> n <= n' -> fits lim n' x.
Proof.
  induction x using exact_nested_ind; intros lev lev'; cbn [fits]; rewrite ?foldr_forall; intros [Hn Hf] Hle; (split; [lia|]); try done.
  - rewrite Forall_forall in *. intros y Hy. apply (H y Hy (lev - 1)); [by apply Hf|lia].
  - rewrite Forall_forall in *. intros y Hy. destruct (Hf y Hy). split; [done|]. apply (H y Hy (lev - 1)); [done|lia].
Qed.

Lemma sizes_elem l x : x ∈ l -> exact_size x <= sizes l.
Proof.
  induction l as [|y l IH]; [by intros ?%not_elem_of_nil|]. rewrite sizes_cons. pose proof (sizes_nonneg l).
  pose proof (exact_size_pos y). intros [->|Hx]%elem_of_cons; [lia|]. specialize (IH Hx). lia.
Qed.

Lemma text_member l k x : (k, x) ∈ l -> exists a b, text (XMap l) = a ++ text x ++ b.
Proof.
  intros Hx. rewrite text_map.
  destruct (joined_contains (map member_text (sorted_by str_compare fst l)) (member_text (k, x))) as (a & b & ->).
  { apply list_elem_of_In, in_map, list_elem_of_In. by apply elem_of_sorted_by. }
  unfold member_text at 1. cbn [fst snd]. exists (123%N :: a ++ codepoints (json_quote k) ++ [58%N]), (b ++ [125%N]).
  by do 3 (cbn; rewrite <- ?app_assoc).
Qed.

(** The value of a member of a document is a document within the same limits. *)
Lemma member_document lim l d k x : proper (XMap l) -> WireDocument_new (XMap l) lim = Ok d -> (k, x) ∈ l ->
  WireDocument_new (sort_keys x) lim = Ok (mkDocument (sort_keys x) lim).
Proof.
  intros Hp Hd Hx. unfold WireDocument_new in Hd. apply rbind_ok in Hd as (n & Hf & Hd). apply rbind_ok in Hd as (b & He & _).
  apply freeze_ok in Hf as (Hfit & -> & Hn).
  assert (1 <= max_body_bytes lim) as Hpos.
  { unfold encode, encode_value in He. cbn [value limits _pieces fold_result] in He. fold (@fold_result exn) in He.
    unfold encode_piece in He at 1. unfold reject_if in He at 1. change (str_len "{"%py) with 1 in He. cbn [length] in He.
    destruct (_ <? 1) eqn:Hlt in He; [done|]. time_facts. lia. }
  unfold encode, encode_value in He. cbn [value limits] in He.
  apply encode_pieces_enc in He as [-> Hmax]. cbn [app length] in Hmax. specialize (Hmax ltac:(lia)).
  pose proof Hp as [_ Hvs]%proper_map. rewrite Forall_forall in Hvs. destruct (Hvs _ Hx) as [_ Hpx].
  pose proof Hfit as [Hd0 Hfs]%fits_map. rewrite Forall_forall in Hfs. destruct (Hfs _ Hx) as [_ Hfx]. cbn [snd] in *.
  assert (exact_size x <= exact_size (XMap l)) as Hsize.
  { rewrite exact_size_map. assert (x ∈ map snd l) as Hin%sizes_elem; [|lia].
    apply list_elem_of_In, in_map_iff. exists (k, x). by rewrite <- list_elem_of_In. }
  unfold WireDocument_new. rewrite (proj2 (freeze_ok lim (sort_keys x) 0 0 (0 + exact_size x))).
  2: { split_and!; [apply fits_sort_keys; eapply fits_weaken; [exact Hfx|lia]|by rewrite exact_size_sort_keys|lia]. }
  cbn [rbind]. unfold encode, encode_value. cbn [value limits]. rewrite pieces_sort_keys.
  destruct (text_member l k x Hx) as (a & b & Htext).
  change (piece_text (_pieces (XMap l))) with (text (XMap l)) in Hmax. rewrite Htext, !enc_all_app, !length_app in Hmax.
  rewrite encode_pieces_ok; [done|by eapply text_scalar|]. cbn [length]. fold (text x). lia.
Qed.

Lemma pieces_sorted l : _pieces (XMap (sorted_by str_compare fst l)) = _pieces (XMap l).
Proof.
  cbn [_pieces]. do 3 f_equal. rewrite !(sorted_by_map str_compare fst fst) by done.
  by rewrite (sorted_by_id str_compare fst (sorted_by str_compare fst l)) by apply sorted_by_sorted, _.
Qed.

(** A mapping with the members of a document, their data read back, is a document. *)
Lemma document_read_back lim l l' d : WireDocument_new (XMap l) lim = Ok d ->
  sort_keys (XMap l) = XMap (sorted_by str_compare fst l') -> WireDocument_new (XMap l') lim = Ok (mkDocument (XMap l') lim).
Proof.
  intros Hd Hs. unfold WireDocument_new in *. apply rbind_ok in Hd as (n & Hf & (b & He & _)%rbind_ok).
  apply freeze_ok in Hf as (Hfit & -> & Hn). apply fits_sort_keys in Hfit. rewrite <- exact_size_sort_keys in Hn.
  rewrite Hs in Hfit, Hn. apply fits_map in Hfit. rewrite sorted_by_perm in Hfit. apply fits_map in Hfit.
  assert (exact_size (XMap (sorted_by str_compare fst l')) = exact_size (XMap l')) as Hsize.
  { rewrite !exact_size_map. f_equal. by rewrite (sorted_by_perm str_compare fst l'). }
  rewrite (proj2 (freeze_ok lim (XMap l') 0 0 (0 + exact_size (XMap l')))) by (split_and!; [done|done|lia]). cbn [rbind].
  assert (encode (mkDocument (XMap l') lim) = Ok b) as ->; [|done].
  rewrite <- He. unfold encode, encode_value. cbn [value limits]. by rewrite <- (pieces_sort_keys (XMap l)), Hs, pieces_sorted.
Qed.

(** ** Fields of a document *)

Lemma d_get_perm {K V} `{EqDecision K} (d d' : dict K V) k : d_wf d -> d ≡ₚ d' -> d_get k d = d_get k d'.
Proof.
  intros Hd Hp. assert (d_wf d') as Hd' by (unfold d_wf; by rewrite <- Hp). destruct (d_get k d') as [v|] eqn:Hg.
  - apply d_elem_get; [done|]. rewrite Hp. by apply d_get_elem.
  - apply d_get_None. rewrite Hp. by apply d_get_None.
Qed.

Lemma d_get_text name (items : list (pystr * exact)) :
  d_get name (map (fun p => (p.1, text_of p.2)) (filter (fun p => p.1 <> "data"%py) items)) =
    if decide (name = "data"%py) then None else text_of <$> d_get name items.
Proof.
  induction items as [|[k v] items IH]; [by case_decide|]. rewrite filter_cons. cbn [fst].
  destruct (decide (k <> "data"%py)) as [Hk|Hk].
  - cbn [map d_get fst snd]. destruct (decide (k = name)) as [->|Hne]; [by rewrite decide_False|apply IH].
  - apply dec_stable in Hk as ->. cbn [d_get]. rewrite IH. case_decide as Hn; [done|]. by rewrite decide_False.
Qed.

(** ** The exact codec *)

Lemma fields_keys {T} (m : envelope T) t (d : exact) :
  (fields XStr m t d).*1 = REQUIRED_MESSAGE_FIELDS
    ++ (match correlationid m with Some _ => ["correlationid"%py] | None => [] end)
    ++ (match causationid m with Some _ => ["causationid"%py] | None => [] end).
Proof. unfold fields. by destruct (correlationid m), (causationid m). Qed.

Lemma fields_wf {T} (m : envelope T) t (d : exact) : d_wf (fields XStr m t d).
Proof.
  unfold d_wf. rewrite fields_keys. destruct (correlationid m), (causationid m); apply (bool_decide_unpack _); vm_compute; done.
Qed.

(** The document of an envelope read back, with its data [d]. *)
Lemma metadata_fields {T} (m : envelope T) t (d : exact) items lim selected : profile m = selected ->
  items ≡ₚ fields XStr m t d ->
  exists metadata, _metadata (mkDocument (XMap items) lim) selected = Ok metadata /\
    forall name, d_get name metadata = if decide (name = "data"%py) then None else text_of <$> d_get name (fields XStr m t d).
Proof.
  intros Hprof Hp. unfold _metadata. cbn [value].
  assert (items.*1 ≡ₚ (fields XStr m t d).*1) as Hkeys by by rewrite Hp.
  assert (forallb (fun k => bool_decide (k ∈ items.*1)) REQUIRED_MESSAGE_FIELDS = true) as ->.
  { rewrite forallb_forall. intros k Hk. apply bool_decide_eq_true. rewrite Hkeys, fields_keys. apply elem_of_app. left.
    by apply list_elem_of_In. }
  assert (forallb (fun k => bool_decide (k ∈ MESSAGE_FIELDS)) items.*1 = true) as ->.
  { rewrite forallb_forall. intros k Hk%list_elem_of_In. apply bool_decide_eq_true. rewrite Hkeys, fields_keys in Hk.
    unfold MESSAGE_FIELDS. rewrite !elem_of_app, !elem_of_cons in *.
    destruct (correlationid m), (causationid m); rewrite ?list_elem_of_singleton in Hk; tauto. }
  cbn [negb orb reject_if rbind].
  assert (forall k, d_get k items = d_get k (fields XStr m t d)) as Hget.
  { intros k. symmetry. apply d_get_perm; [apply fields_wf|by rewrite Hp]. }
  rewrite Hget. assert (d_get "profile"%py (fields XStr m t d) = Some (XStr (profile m))) as -> by done.
  rewrite bool_decide_true by done. cbn [negb reject_if rbind].
  assert (forallb (fun p => is_text p.2) (filter (fun p => p.1 <> "data"%py) items) = true) as ->.
  { rewrite forallb_forall. intros [k v] [Hk Hin]%list_elem_of_In%list_elem_of_filter. rewrite Hp in Hin. cbn in *.
    unfold fields in Hin. destruct (correlationid m), (causationid m); cbn in Hin; rewrite ?elem_of_cons, ?elem_of_nil in Hin;
      repeat destruct Hin as [Hin|Hin]; by simplify_eq. }
  cbn [negb reject_if rbind]. eexists. split; [done|]. intros name. rewrite d_get_text. by rewrite Hget.
Qed.

(** What Python guarantees of a message: its strings hold code points, its time is in the
    calendar, its data is the value of a document. *)
Definition well_formed (m : ExactMessage) : Prop :=
  Forall text_ok ([id m; source m; specversion m; type m; subject m; dataschema m; datacontenttype m; profile m]
    ++ option_list (correlationid m) ++ option_list (causationid m)) /\
  0 <= dt_wall (time m) <= dt_max /\ proper (value (data m)).

Lemma replace_forall (Q : N -> Prop) old new l : Forall Q new -> Forall Q l -> forall skip, Forall Q (replace_cps old new skip l).
Proof.
  intros Hnew. induction 1 as [|c l Hc _ IH]; intros skip; cbn; [done|]. destruct skip; [|apply IH].
  destruct (starts old (c :: l)); [apply Forall_app; by split|by constructor].
Qed.

Lemma message_time_text value t : format_message_time value = Ok t -> text_ok t.
Proof.
  unfold format_message_time. intros ([] & _ & [= <-])%rbind_ok. unfold isoformat_milliseconds.
  destruct (date_of _) as [[y m] d]. apply replace_forall; [by repeat constructor|]. cbn [codepoints].
  assert (forall k n, Forall (fun c => (c < 1114112)%N) (pad k n)) as Hpad.
  { intros k n. eapply Forall_impl; [apply pad_digits|]. intros c [_ Hc%N.leb_le]%andb_true_iff. cbn beta. lia. }
  rewrite !Forall_app, !Forall_singleton. split_and!; try apply Hpad; try done. by repeat constructor.
Qed.

Lemma fields_proper m t : well_formed m -> text_ok t -> proper (XMap (fields XStr m t (value (data m)))).
Proof.
  intros (Htext & _ & Hdata) Ht. rewrite !Forall_app in Htext. destruct Htext as (Hf & Hcor & Hcau).
  apply proper_map. split; [apply fields_wf|]. repeat (apply Forall_cons in Hf as [? Hf]). unfold fields.
  apply Forall_app. split; [|apply Forall_app; split].
  - repeat first [apply List.Forall_nil | apply List.Forall_cons; [split; [by apply text_ok_compute|done]|]].
  - destruct (correlationid m); [|done]. apply Forall_inv in Hcor. constructor; [|done]. split; [by apply text_ok_compute|done].
  - destruct (causationid m); [|done]. apply Forall_inv in Hcau. constructor; [|done]. split; [by apply text_ok_compute|done].
Qed.

(** The message with its data as the decoder reads it: the members of the mappings in order. *)
Definition read_back (lim : Limits) (m : ExactMessage) : ExactMessage :=
  with_data m (mkDocument (sort_keys (value (data m))) lim) (profile m).

Lemma ExactMessage_new_ok m : ExactMessage_new m = Ok m -> profile m = EXACT_MESSAGE_PROFILE /\
  Message_new (with_data m JNull MESSAGE_PROFILE) = Ok (with_data m JNull MESSAGE_PROFILE).
Proof.
  unfold ExactMessage_new. intros ([] & Hp & (x & Hx & _)%rbind_ok)%rbind_ok. apply reject_if_ok, negb_false_iff, bool_decide_eq_true in Hp.
  split; [done|]. destruct (Message_new _) as [y|e] eqn:Hn; [|done]. revert Hn. unfold Message_new.
  repeat (intros (? & _ & Hn)%rbind_ok; revert Hn). done.
Qed.

Lemma message_of_fields (m : ExactMessage) t d lim metadata :
  (forall name, d_get name metadata = if decide (name = "data"%py) then None else text_of <$> d_get name (fields XStr m t d)) ->
  argument metadata "time" = Ok t /\
  message_of metadata (time m) (mkDocument (sort_keys (value (data m))) lim) EXACT_MESSAGE_PROFILE = Ok (read_back lim m).
Proof.
  intros Hget. unfold message_of, argument. rewrite !Hget.
  repeat rewrite decide_False by (vm_compute; congruence). unfold fields, read_back, with_data.
  split; [done|]. by destruct (correlationid m), (causationid m).
Qed.

(** C13. A message of the exact profile is read back from its encoding: whatever the codec's
    limits and the chunks the bytes arrive in, decoding returns the message that was encoded
    - the same metadata, the same instant, the data with its number tokens and its mappings
    in key order - and encoding that message gives the same bytes. *)
Theorem exact_message_round_trip lim m payload chunks : ExactMessage_new m = Ok m -> well_formed m ->
  exact_encode lim (Exact m) = Ok payload -> concat chunks = payload ->
  exact_decode_stream unicode_decimal lim chunks = Ok (read_back lim m) /\
  exact_encode lim (Exact (read_back lim m)) = Ok payload.
Proof.
  intros Hm Hwf He Hc. pose proof Hwf as (_ & Hw & _). apply ExactMessage_new_ok in Hm as [Hprof Hnew]. unfold exact_encode in He.
  apply rbind_ok in He as (e & Hen & He). unfold _envelope in Hen. apply rbind_ok in Hen as (t & Ht & [= <-]).
  apply rbind_ok in He as (d & Hd & He). pose proof (fields_proper m t Hwf (message_time_text _ _ Ht)) as Hproper. set (l := fields XStr m t (value (data m))) in *.
  assert (d = mkDocument (XMap l) lim) as ->.
  { unfold WireDocument_new in Hd. by apply rbind_ok in Hd as (? & _ & (? & _ & [= <-])%rbind_ok). }
  destruct (wire_read_back lim (XMap l) _ payload chunks Hproper Hd He Hc) as [_ Hdec].
  assert (sort_keys (XMap l) = XMap (sorted_by str_compare fst (fields XStr m t (sort_keys (value (data m)))))) as Hsort.
  { cbn [sort_keys]. do 2 f_equal. unfold l, fields. by destruct (correlationid m), (causationid m). }
  set (l' := fields XStr m t (sort_keys (value (data m)))) in *.
  destruct (metadata_fields m t (sort_keys (value (data m))) (sorted_by str_compare fst l') lim EXACT_MESSAGE_PROFILE Hprof)
    as (metadata & Hmeta & Hget); [apply sorted_by_perm|].
  destruct (message_of_fields m t (sort_keys (value (data m))) lim metadata Hget) as [Htime Hmsg].
  assert (ExactMessage_new (read_back lim m) = Ok (read_back lim m)) as Hok.
  { unfold ExactMessage_new. rewrite bool_decide_true by done. cbn [negb reject_if rbind].
    change (with_data (read_back lim m) JNull MESSAGE_PROFILE) with (with_data m JNull MESSAGE_PROFILE). by rewrite Hnew. }
  split.
  - unfold exact_decode_stream. rewrite Hdec, Hsort. cbn [rbind]. rewrite Hmeta. cbn [rbind value]. rewrite Htime. cbn [rbind].
    rewrite (message_time_round_trip _ _ Hw Ht). cbn [rbind].
    assert (d_get "data"%py (sorted_by str_compare fst l') = Some (sort_keys (value (data m)))) as ->.
    { rewrite (d_get_perm _ l'); [done| |apply sorted_by_perm]. unfold d_wf. rewrite sorted_by_perm. apply fields_wf. }
    rewrite (member_document lim l _ "data" (value (data m)) Hproper Hd); [|unfold l, fields; do 9 right; left].
    cbn [rbind]. rewrite Hmsg. cbn [rbind]. by rewrite Hok.
  - unfold exact_encode, _envelope. change (time (read_back lim m)) with (time m). rewrite Ht. cbn [rbind].
    change (fields XStr (read_back lim m) t (value (data (read_back lim m)))) with l'.
    rewrite (document_read_back lim l l' _ Hd Hsort). cbn [rbind].
    rewrite <- He. unfold encode, encode_value. cbn [value limits]. by rewrite <- (pieces_sort_keys (XMap l)), Hsort, pieces_sorted.
Qed.
End Times.

(** ** A concrete message *)

Definition sample_message : ExactMessage :=
  mkEnvelope "m-1" "shop" "order.placed" "order/7" (utc 63844761600123000) "urn:order:1"
    (mkDocument (XMap [("total", XNum (mkExactNumber "10.50")); ("lines", XTuple [XNum (mkExactNumber "1e3"); XNull])]%py) Limits_default)
    (Some "c-1"%py) None CLOUD_EVENTS_SPEC_VERSION JSON_CONTENT_TYPE EXACT_MESSAGE_PROFILE.

Lemma exact_message_round_trip_witness :
  exists payload, exact_encode Limits_default (Exact sample_message) = Ok payload /\
    exact_decode_stream digit Limits_default [take 40 payload; drop 40 payload] = Ok (read_back Limits_default sample_message) /\
    exact_encode Limits_default (Exact (read_back Limits_default sample_message)) = Ok payload.
Proof.
  eexists. split; [vm_compute; reflexivity|].
  apply (exact_message_round_trip digit (fun c Hc => Hc) Limits_default sample_message);
    [vm_compute; reflexivity| |vm_compute; reflexivity|vm_compute; reflexivity].
  split; [|split; [vm_compute; split; congruence|]].
  - repeat first [apply List.Forall_nil | apply List.Forall_cons; [by apply text_ok_compute|]].
  - cbn. split; [apply (bool_decide_unpack _); vm_compute; done|].
    split_and!; first [by apply text_ok_compute | reflexivity | exact I].
Defined.

(** The time of the message in its encoding. *)
Example sample_time : format_message_time (time sample_message) = Ok "2024-02-29T00:00:00.123Z"%py.
Proof. vm_compute. reflexivity. Qed.
