(* ===== verification/Contracts.v ===== *)
(** * The documents of the sync protocol ([sync/contracts.py])

    Limits, the eleven closed documents with the checks of their constructors, and their
    encoding to and decoding from JSON values. A constructor [X(...)] is [X_new], which
    returns its argument or raises what [__post_init__] raises. *)
From Stdlib Require Import ZArith Lia SpecFloat.
From stdpp Require Import base list gmap.
From S2P Require Import Prelude Core Wire Calendar Messages.

Definition SYNC_PROTOCOL : pystr := "titect-sync/1".

(** ** Limits *)

Record SyncLimits := mkSyncLimits {
  max_document_bytes : Z;
  max_datasets : Z;
  max_items_per_page : Z;
  max_mutations : Z;
  max_opaque_id_bytes : Z;
  max_capabilities : Z
}.

(** [__dataclass_fields__], with [getattr]. *)
Definition sync_limit_fields (l : SyncLimits) : list (pystr * Z) :=
  [("max_document_bytes", max_document_bytes l); ("max_datasets", max_datasets l);
   ("max_items_per_page", max_items_per_page l); ("max_mutations", max_mutations l);
   ("max_opaque_id_bytes", max_opaque_id_bytes l); ("max_capabilities", max_capabilities l)]%py.

Definition DEFAULT_SYNC_LIMITS : SyncLimits := mkSyncLimits 1048576 128 1000 1000 255 32.

Definition SyncLimits_new (l : SyncLimits) : result exn SyncLimits :=
  let? _ := fold_result (fun _ p => reject_if (p.2 <=? 0)
    (ValueError (str_app p.1 " must be a positive finite integer"))) (sync_limit_fields l) tt in
  Ok l.

(** ** The checks the constructors share *)

Definition _non_negative_int (value : Z) (name : pystr) : result exn unit :=
  reject_if (value <? 0) (ValueError (str_app name " must be a non-negative integer")).

Definition _wire_time (value : datetime) (name : pystr) : result exn unit :=
  reject_if (negb (is_utc value)) (ValueError (str_app name " must be timezone-aware UTC")) ??;
  reject_if (negb (dt_wall value mod 1000000 mod 1000 =? 0)) (ValueError (str_app name " must have millisecond precision")).

(** [len(value.encode()) > maximum]. *)
Definition longer_than (maximum : Z) (value : pystr) : result exn bool :=
  let? bytes := str_encode value in Ok (maximum <? Z.of_nat (length bytes)).

Definition _opaque_id (value name : pystr) (maximum : option Z) : result exn unit :=
  let selected := match maximum with
    | Some m => if m =? 0 then max_opaque_id_bytes DEFAULT_SYNC_LIMITS else m
    | None => max_opaque_id_bytes DEFAULT_SYNC_LIMITS
    end in
  reject_if (str_empty value || negb (bool_decide (value = str_strip value)) || existsb (fun c => c <? 32)%N (codepoints value))
    (ValueError (str_app name " must be a non-empty trimmed opaque identifier")) ??;
  let? long := longer_than selected value in
  reject_if long (ValueError (str_app name " exceeds max_opaque_id_bytes")).

Definition _optional_id (value : option pystr) (name : pystr) : result exn unit :=
  match value with Some v => _opaque_id v name None | None => Ok tt end.

(** [len(set(values)) != len(values)]. *)
Definition repeated {A} `{EqDecision A} (values : list A) : bool := negb (bool_decide (NoDup values)).
Definition size {A} (values : list A) : Z := Z.of_nat (length values).
Definition is_nil {A} (values : list A) : bool := match values with [] => true | _ => false end.

(** [for value in values: check(value)]. *)
Definition check_each {A} (check : A -> result exn unit) (values : list A) : result exn unit :=
  fold_result (fun _ v => check v) values tt.

Definition _bounded_ids (values : list pystr) (name : pystr) (maximum : Z) : result exn unit :=
  reject_if (is_nil values || (maximum <? size values) || repeated values)
    (ValueError (str_app name " must be non-empty, unique, and finite")) ??;
  check_each (fun v => _opaque_id v name None) values.

Definition _ids_with_limit (values : list pystr) (name : pystr) (limits : SyncLimits) : result exn unit :=
  reject_if (is_nil values || repeated values) (ValueError (str_app name " must be non-empty and unique")) ??;
  check_each (fun v => _opaque_id v name (Some (max_opaque_id_bytes limits))) values.

Definition _capabilities_with_limit (values : list pystr) (limits : SyncLimits) : result exn unit :=
  reject_if ((max_capabilities limits <? size values) || repeated values) (ValueError "capabilities must be unique and finite") ??;
  check_each (fun v => _opaque_id v "capability" (Some (Z.min 64 (max_opaque_id_bytes limits)))) values.

Definition _bounded_capabilities (values : list pystr) : result exn unit := _capabilities_with_limit values DEFAULT_SYNC_LIMITS.

Definition _bounded_items (count : Z) : result exn unit :=
  reject_if (max_items_per_page DEFAULT_SYNC_LIMITS <? count) (ValueError "page exceeds max_items_per_page").

Definition invalid_reason : exn := ValueError "reason must be non-empty, trimmed, and at most 1024 bytes".
Definition _reason (value : pystr) : result exn unit :=
  reject_if (str_empty value || negb (bool_decide (value = str_strip value))) invalid_reason ??;
  let? long := longer_than 1024 value in
  reject_if long invalid_reason.

(** ** The documents *)

Inductive SyncMode := SNAPSHOT | DELTA.
#[export] Instance SyncMode_eq_dec : EqDecision SyncMode.
Proof. solve_decision. Defined.
Definition SyncMode_value (m : SyncMode) : pystr := match m with SNAPSHOT => "snapshot" | DELTA => "delta" end.

Inductive MutationOutcomeState := APPLIED | REJECTED | CONFLICT | UNCERTAIN.
#[export] Instance MutationOutcomeState_eq_dec : EqDecision MutationOutcomeState.
Proof. solve_decision. Defined.
Definition MutationOutcomeState_value (s : MutationOutcomeState) : pystr :=
  match s with APPLIED => "applied" | REJECTED => "rejected" | CONFLICT => "conflict" | UNCERTAIN => "uncertain" end.

Record SyncSession := mkSyncSession { session_id : pystr; created_at : datetime; session_expires_at : datetime }.

Definition SyncSession_new (s : SyncSession) : result exn SyncSession :=
  _opaque_id (session_id s) "session_id" None ??;
  _wire_time (created_at s) "created_at" ??;
  _wire_time (session_expires_at s) "expires_at" ??;
  reject_if (dt_leb (session_expires_at s) (created_at s)) (ValueError "expires_at must be later than created_at") ??;
  Ok s.

Record DatasetDescriptor := mkDataset { dataset_id : pystr; generation : Z; modes : list SyncMode }.

Definition DatasetDescriptor_new (d : DatasetDescriptor) : result exn DatasetDescriptor :=
  _opaque_id (dataset_id d) "dataset_id" None ??;
  _non_negative_int (generation d) "generation" ??;
  reject_if (is_nil (modes d) || (2 <? size (modes d)) || repeated (modes d)) (ValueError "modes must contain unique supported sync modes") ??;
  Ok d.

Record BootstrapRequest := mkBootstrapRequest { client_id : pystr; dataset_ids : list pystr; capabilities : list pystr }.

Definition BootstrapRequest_new (r : BootstrapRequest) : result exn BootstrapRequest :=
  _opaque_id (client_id r) "client_id" None ??;
  _bounded_ids (dataset_ids r) "dataset_ids" (max_datasets DEFAULT_SYNC_LIMITS) ??;
  _bounded_capabilities (capabilities r) ??;
  Ok r.

Record BootstrapResponse := mkBootstrapResponse { session : SyncSession; datasets : list DatasetDescriptor; response_limits : SyncLimits }.

Definition BootstrapResponse_new (r : BootstrapResponse) : result exn BootstrapResponse :=
  reject_if (is_nil (datasets r) || (max_datasets DEFAULT_SYNC_LIMITS <? size (datasets r))) (ValueError "datasets must be non-empty and finite") ??;
  reject_if (repeated (map dataset_id (datasets r))) (ValueError "dataset identifiers must be unique") ??;
  Ok r.

Record Upsert := mkUpsert { upsert_item_id : pystr; upsert_revision : Z; upsert_value : json }.

Definition Upsert_new (u : Upsert) : result exn Upsert :=
  _opaque_id (upsert_item_id u) "item_id" None ??;
  _non_negative_int (upsert_revision u) "revision" ??;
  validate_json_with Limits_default (upsert_value u) ??;
  Ok u.

Record Tombstone := mkTombstone { tombstone_item_id : pystr; tombstone_revision : Z; deleted_at : datetime }.

Definition Tombstone_new (t : Tombstone) : result exn Tombstone :=
  _opaque_id (tombstone_item_id t) "item_id" None ??;
  _non_negative_int (tombstone_revision t) "revision" ??;
  _wire_time (deleted_at t) "deleted_at" ??;
  Ok t.

Record Integrity := mkIntegrity { algorithm : pystr; digest : pystr; item_count : Z }.

(** [re.fullmatch(r"[0-9a-f]{64}", digest)]. *)
Definition hex_char (c : N) : bool := digit c || ((97 <=? c) && (c <=? 102))%N.
Definition is_sha256_hex (s : pystr) : bool := (str_len s =? 64) && forallb hex_char (codepoints s).

Definition Integrity_new (i : Integrity) : result exn Integrity :=
  reject_if (negb (bool_decide (algorithm i = "sha-256"%py))) (ValueError "algorithm must be sha-256") ??;
  reject_if (negb (is_sha256_hex (digest i))) (ValueError "digest must be a lowercase SHA-256 hexadecimal value") ??;
  _non_negative_int (item_count i) "item_count" ??;
  Ok i.

Record SnapshotPage := mkSnapshotPage {
  snapshot_dataset_id : pystr;
  snapshot_generation : Z;
  snapshot_upserts : list Upsert;
  snapshot_next_cursor : option pystr;
  snapshot_integrity : Integrity
}.

Definition SnapshotPage_new (p : SnapshotPage) : result exn SnapshotPage :=
  _opaque_id (snapshot_dataset_id p) "dataset_id" None ??;
  _non_negative_int (snapshot_generation p) "generation" ??;
  _bounded_items (size (snapshot_upserts p)) ??;
  _optional_id (snapshot_next_cursor p) "next_cursor" ??;
  reject_if (negb (item_count (snapshot_integrity p) =? size (snapshot_upserts p))) (ValueError "integrity item_count must match the page") ??;
  Ok p.

Record DeltaPage := mkDeltaPage {
  delta_dataset_id : pystr;
  delta_generation : Z;
  delta_upserts : list Upsert;
  delta_tombstones : list Tombstone;
  delta_next_cursor : option pystr;
  delta_integrity : Integrity
}.

Definition DeltaPage_new (p : DeltaPage) : result exn DeltaPage :=
  _opaque_id (delta_dataset_id p) "dataset_id" None ??;
  _non_negative_int (delta_generation p) "generation" ??;
  _bounded_items (size (delta_upserts p) + size (delta_tombstones p)) ??;
  _optional_id (delta_next_cursor p) "next_cursor" ??;
  reject_if (negb (item_count (delta_integrity p) =? size (delta_upserts p) + size (delta_tombstones p)))
    (ValueError "integrity item_count must match the page") ??;
  Ok p.

Record ResetRequired := mkResetRequired { reset_dataset_id : pystr; reset_generation : Z; reset_reason : pystr }.

Definition ResetRequired_new (r : ResetRequired) : result exn ResetRequired :=
  _opaque_id (reset_dataset_id r) "dataset_id" None ??;
  _non_negative_int (reset_generation r) "generation" ??;
  _reason (reset_reason r) ??;
  Ok r.

Record GenerationMismatch := mkGenerationMismatch { mismatch_dataset_id : pystr; expected_generation : Z; actual_generation : Z }.

Definition GenerationMismatch_new (g : GenerationMismatch) : result exn GenerationMismatch :=
  _opaque_id (mismatch_dataset_id g) "dataset_id" None ??;
  _non_negative_int (expected_generation g) "expected" ??;
  _non_negative_int (actual_generation g) "actual" ??;
  Ok g.

Record Readiness := mkReadiness { ready : bool; checked_at : datetime; ready_reason : option pystr; retry_after_ms : option Z }.

Definition is_some {A} (x : option A) : bool := match x with Some _ => true | None => false end.

Definition Readiness_new (r : Readiness) : result exn Readiness :=
  _wire_time (checked_at r) "checked_at" ??;
  reject_if (ready r && (is_some (ready_reason r) || is_some (retry_after_ms r))) (ValueError "ready responses cannot contain retry details") ??;
  (if ready r then Ok tt
   else match ready_reason r with
    | None => Raise (ValueError "unready responses require a reason")
    | Some reason =>
        _reason reason ??;
        match retry_after_ms r with Some n => _non_negative_int n "retry_after_ms" | None => Ok tt end
    end) ??;
  Ok r.

Record MutationOutcome := mkMutationOutcome {
  mutation_id : pystr;
  outcome_state : MutationOutcomeState;
  outcome_revision : option Z;
  receipt_id : option pystr;
  outcome_reason : option pystr
}.

Definition MutationOutcome_new (o : MutationOutcome) : result exn MutationOutcome :=
  _opaque_id (mutation_id o) "mutation_id" None ??;
  _optional_id (receipt_id o) "receipt_id" ??;
  match outcome_state o, outcome_revision o, outcome_reason o with
  | APPLIED, Some r, None => _non_negative_int r "revision"
  | APPLIED, _, _ => Raise (ValueError "applied outcomes require revision and forbid reason")
  | _, None, Some reason => _reason reason
  | _, _, _ => Raise (ValueError "non-applied outcomes require reason and forbid revision")
  end ??;
  Ok o.

Record MutationOutcomes := mkMutationOutcomes { outcomes_dataset_id : pystr; outcomes_generation : Z; outcomes : list MutationOutcome }.

Definition MutationOutcomes_new (o : MutationOutcomes) : result exn MutationOutcomes :=
  _opaque_id (outcomes_dataset_id o) "dataset_id" None ??;
  _non_negative_int (outcomes_generation o) "generation" ??;
  reject_if (is_nil (outcomes o) || (max_mutations DEFAULT_SYNC_LIMITS <? size (outcomes o)))
    (ValueError "outcomes must be non-empty and within max_mutations") ??;
  reject_if (repeated (map mutation_id (outcomes o))) (ValueError "mutation outcome identifiers must be unique") ??;
  Ok o.

Inductive SyncDocument :=
  | DSession (d : SyncSession)
  | DDataset (d : DatasetDescriptor)
  | DBootstrapRequest (d : BootstrapRequest)
  | DBootstrapResponse (d : BootstrapResponse)
  | DSnapshot (d : SnapshotPage)
  | DDelta (d : DeltaPage)
  | DReset (d : ResetRequired)
  | DGenerationMismatch (d : GenerationMismatch)
  | DReadiness (d : Readiness)
  | DOutcome (d : MutationOutcome)
  | DOutcomes (d : MutationOutcomes).

(** ** Timestamps *)

Definition format_sync_timestamp (value : datetime) : result exn pystr :=
  _wire_time value "timestamp" ??;
  let w := dt_wall value / 1000 in
  let '(y, m, d) := date_of (w / 86400000) in
  let t := w mod 86400000 in
  Ok (PyStr (pad 4 y ++ [45%N] ++ pad 2 m ++ [45%N] ++ pad 2 d ++ [84%N]
    ++ pad 2 (t / 3600000) ++ [58%N] ++ pad 2 (t / 60000 mod 60) ++ [58%N] ++ pad 2 (t / 1000 mod 60)
    ++ [46%N] ++ pad 3 (t mod 1000) ++ [90%N])).

Section Documents.
(** The decimal digits of Unicode, and [repr] of a string and of a float. *)
Variable unicode_decimal : N -> bool.
Variable str_repr : pystr -> pystr.
Variable float_repr : spec_float -> pystr.

Definition parse_sync_timestamp (value : pystr) : result exn datetime :=
  reject_if (negb (matches unicode_decimal timestamp_pattern (codepoints value)))
    (ValueError "timestamp must be RFC 3339 UTC with exactly three fractional digits") ??;
  let? parsed := (match fromisoformat (str_app (PyStr (removelast (codepoints value))) "+00:00") with
    | Ok parsed => Ok parsed
    | Raise _ => Raise (ValueError "timestamp is not a valid calendar instant")
    end) in
  _wire_time parsed "timestamp" ??;
  let? text := format_sync_timestamp parsed in
  reject_if (negb (bool_decide (text = value))) (ValueError "timestamp is not an exact calendar representation") ??;
  Ok parsed.

(** ** Encoding *)

Definition obj (members : list (pystr * json)) : json := JDict (map (fun p => (KeyStr p.1, p.2)) members).
Definition nullable (f : pystr -> json) (v : option pystr) : json := match v with Some s => f s | None => JNull end.
Definition nullable_int (v : option Z) : json := match v with Some n => JInt n | None => JNull end.

Definition _session_json (s : SyncSession) : result exn json :=
  let? created := format_sync_timestamp (created_at s) in
  let? expires := format_sync_timestamp (session_expires_at s) in
  Ok (obj [("session_id", JStr (session_id s)); ("created_at", JStr created); ("expires_at", JStr expires)]%py).

Definition _dataset_json (d : DatasetDescriptor) : json :=
  obj [("dataset_id", JStr (dataset_id d)); ("generation", JInt (generation d));
       ("modes", JList (map (fun m => JStr (SyncMode_value m)) (modes d)))]%py.

Definition _limits_json (l : SyncLimits) : json := obj (map (fun p => (p.1, JInt p.2)) (sync_limit_fields l)).

Definition _upsert_json (u : Upsert) : json :=
  obj [("item_id", JStr (upsert_item_id u)); ("revision", JInt (upsert_revision u)); ("value", upsert_value u)]%py.

Definition _tombstone_json (t : Tombstone) : result exn json :=
  let? deleted := format_sync_timestamp (deleted_at t) in
  Ok (obj [("item_id", JStr (tombstone_item_id t)); ("revision", JInt (tombstone_revision t)); ("deleted_at", JStr deleted)]%py).

Definition _integrity_json (i : Integrity) : json :=
  obj [("algorithm", JStr (algorithm i)); ("digest", JStr (digest i)); ("item_count", JInt (item_count i))]%py.

Definition _mutation_outcome_json (o : MutationOutcome) : json :=
  obj [("mutation_id", JStr (mutation_id o)); ("state", JStr (MutationOutcomeState_value (outcome_state o)));
       ("revision", nullable_int (outcome_revision o)); ("receipt_id", nullable JStr (receipt_id o));
       ("reason", nullable JStr (outcome_reason o))]%py.

Definition _encode_payload (document : SyncDocument) : result exn (pystr * json) :=
  match document with
  | DSession s => let? j := _session_json s in Ok ("session"%py, j)
  | DDataset d => Ok ("dataset"%py, _dataset_json d)
  | DBootstrapRequest r => Ok ("bootstrap_request"%py,
      obj [("client_id", JStr (client_id r)); ("dataset_ids", JList (map JStr (dataset_ids r)));
           ("capabilities", JList (map JStr (capabilities r)))]%py)
  | DBootstrapResponse r =>
      let? s := _session_json (session r) in
      Ok ("bootstrap_response"%py,
        obj [("session", s); ("datasets", JList (map _dataset_json (datasets r))); ("limits", _limits_json (response_limits r))]%py)
  | DSnapshot p => Ok ("snapshot"%py,
      obj [("dataset_id", JStr (snapshot_dataset_id p)); ("generation", JInt (snapshot_generation p));
           ("upserts", JList (map _upsert_json (snapshot_upserts p))); ("next_cursor", nullable JStr (snapshot_next_cursor p));
           ("integrity", _integrity_json (snapshot_integrity p))]%py)
  | DDelta p =>
      let? tombstones := map_result _tombstone_json (delta_tombstones p) in
      Ok ("delta"%py,
        obj [("dataset_id", JStr (delta_dataset_id p)); ("generation", JInt (delta_generation p));
             ("upserts", JList (map _upsert_json (delta_upserts p))); ("tombstones", JList tombstones);
             ("next_cursor", nullable JStr (delta_next_cursor p)); ("integrity", _integrity_json (delta_integrity p))]%py)
  | DReset r => Ok ("reset_required"%py,
      obj [("dataset_id", JStr (reset_dataset_id r)); ("generation", JInt (reset_generation r)); ("reason", JStr (reset_reason r))]%py)
  | DGenerationMismatch g => Ok ("generation_mismatch"%py,
      obj [("dataset_id", JStr (mismatch_dataset_id g)); ("expected", JInt (expected_generation g)); ("actual", JInt (actual_generation g))]%py)
  | DReadiness r =>
      let? checked := format_sync_timestamp (checked_at r) in
      Ok ("readiness"%py,
        obj [("ready", JBool (ready r)); ("checked_at", JStr checked); ("reason", nullable JStr (ready_reason r));
             ("retry_after_ms", nullable_int (retry_after_ms r))]%py)
  | DOutcome o => Ok ("mutation_outcome"%py, _mutation_outcome_json o)
  | DOutcomes o => Ok ("mutation_outcomes"%py,
      obj [("dataset_id", JStr (outcomes_dataset_id o)); ("generation", JInt (outcomes_generation o));
           ("outcomes", JList (map _mutation_outcome_json (outcomes o)))]%py)
  end.

(** [json.dumps(value, ensure_ascii=False, separators=(",", ":"))]: members in their order. *)
Fixpoint dumps_text (v : json) : pystr :=
  match v with
  | JList items => str_app "[" (str_app (str_join "," (map dumps_text items)) "]")
  | JDict items =>
      str_app "{" (str_app (str_join ","
        (map (fun kv => str_app (json_quote (key_text (fst kv))) (str_app ":" (dumps_text (snd kv)))) items)) "}")
  | v => json_text float_repr v
  end.

Definition json_dumps (v : json) : result exn pystr :=
  if has_long_integer v
  then Raise (ValueError "Exceeds the limit (4300 digits) for integer string conversion")
  else Ok (dumps_text v).

Definition document_limits (limits : SyncLimits) : Limits :=
  mkLimits (max_document_bytes limits) 32 (Z.max 10000 (max_items_per_page limits * 8)) 64 (max_document_bytes limits).

Definition _document_bounds (value : json) (limits : SyncLimits) : result exn unit :=
  let? selected := fst (Limits_check (document_limits limits) tt) in
  validate_json_with selected value ??;
  let? text := json_dumps value in
  let? encoded := str_encode text in
  reject_if (max_document_bytes limits <? Z.of_nat (length encoded)) (ValueError "sync document exceeds max_document_bytes").

Definition selected_limits (limits : option SyncLimits) : SyncLimits := default DEFAULT_SYNC_LIMITS limits.

Definition encode_sync_document (document : SyncDocument) (limits : option SyncLimits) : result exn json :=
  let? kp := _encode_payload document in
  let value := obj [("protocol", JStr SYNC_PROTOCOL); ("kind", JStr kp.1); ("payload", kp.2)]%py in
  _document_bounds value (selected_limits limits) ??;
  Ok value.

(** ** Decoding *)

Definition key_string (k : json_key) : option pystr := match k with KeyStr s => Some s | KeyOther => None end.

Definition _object (value : json) (name : pystr) : result exn (dict pystr json) :=
  match value with
  | JDict items =>
      match mapM (fun kv => s ← key_string kv.1; Some (s, kv.2)) items with
      | Some members => Ok members
      | None => Raise (ValueError (str_app name " must be a JSON object"))
      end
  | _ => Raise (ValueError (str_app name " must be a JSON object"))
  end.

Definition _array (value : json) (name : pystr) : result exn (list json) :=
  match value with
  | JList items => Ok items
  | _ => Raise (ValueError (str_app name " must be a JSON array"))
  end.

(** [f"{sorted(s)}"] of a set of strings. *)
Definition set_text (s : list pystr) : pystr :=
  str_app "[" (str_app (str_join ", " (map str_repr (sorted_by str_compare (fun x => x) s))) "]").

Definition _fields (value : dict pystr json) (expected : list pystr) (name : pystr) : result exn unit :=
  let missing := filter (fun k => d_get k value = None) expected in
  let unknown := filter (fun k => k ∉ expected) value.*1 in
  reject_if (negb (is_nil missing && is_nil unknown))
    (ValueError (str_app name (str_app " fields are closed; missing=" (str_app (set_text missing) (str_app ", unknown=" (set_text unknown)))))).

(** [value[name]]. *)
Definition member (value : dict pystr json) (name : pystr) : result exn json :=
  match d_get name value with Some v => Ok v | None => Raise (KeyError name) end.

Definition _string (value : json) (name : pystr) : result exn pystr :=
  match value with
  | JStr s => Ok s
  | _ => Raise (ValueError (str_app name " must be a string"))
  end.

Definition _nullable_string (value : json) (name : pystr) : result exn (option pystr) :=
  match value with
  | JNull => Ok None
  | _ => let? s := _string value name in Ok (Some s)
  end.

Definition _integer (value : json) (name : pystr) : result exn Z :=
  match value with
  | JInt n => Ok n
  | _ => Raise (ValueError (str_app name " must be an integer"))
  end.

Definition nullable_integer (value : json) (name : pystr) : result exn (option Z) :=
  match value with
  | JNull => Ok None
  | _ => let? n := _integer value name in Ok (Some n)
  end.

Definition _strings (value : json) (name : pystr) (maximum : Z) : result exn (list pystr) :=
  let? values := _array value name in
  reject_if (maximum <? size values) (ValueError (str_app name " exceeds its finite limit")) ??;
  map_result (fun item => _string item name) values.

(** The members a decoder reads: [_string(value[name], name)] and the like. *)
Definition string_at (value : dict pystr json) (name : pystr) : result exn pystr := let? v := member value name in _string v name.
Definition integer_at (value : dict pystr json) (name : pystr) : result exn Z := let? v := member value name in _integer v name.
Definition array_at (value : dict pystr json) (name : pystr) : result exn (list json) := let? v := member value name in _array v name.
Definition nullable_at (value : dict pystr json) (name : pystr) : result exn (option pystr) := let? v := member value name in _nullable_string v name.
Definition time_at (value : dict pystr json) (name : pystr) : result exn datetime := let? s := string_at value name in parse_sync_timestamp s.

Definition SyncMode_of (s : pystr) : result exn SyncMode :=
  if bool_decide (s = "snapshot"%py) then Ok SNAPSHOT
  else if bool_decide (s = "delta"%py) then Ok DELTA
  else Raise (ValueError (str_app (str_repr s) " is not a valid SyncMode")).

Definition MutationOutcomeState_of (s : pystr) : result exn MutationOutcomeState :=
  if bool_decide (s = "applied"%py) then Ok APPLIED
  else if bool_decide (s = "rejected"%py) then Ok REJECTED
  else if bool_decide (s = "conflict"%py) then Ok CONFLICT
  else if bool_decide (s = "uncertain"%py) then Ok UNCERTAIN
  else Raise (ValueError (str_app (str_repr s) " is not a valid MutationOutcomeState")).

Definition _decode_session (value : dict pystr json) : result exn SyncSession :=
  _fields value ["session_id"; "created_at"; "expires_at"]%py "session" ??;
  let? i := string_at value "session_id" in
  let? created := time_at value "created_at" in
  let? expires := time_at value "expires_at" in
  SyncSession_new (mkSyncSession i created expires).

Definition _decode_dataset (value : dict pystr json) : result exn DatasetDescriptor :=
  _fields value ["dataset_id"; "generation"; "modes"]%py "dataset" ??;
  let? items := array_at value "modes" in
  let? ms := map_result (fun item => let? s := _string item "mode" in SyncMode_of s) items in
  let? i := string_at value "dataset_id" in
  let? g := integer_at value "generation" in
  DatasetDescriptor_new (mkDataset i g ms).

Definition _decode_bootstrap_request (value : dict pystr json) (limits : SyncLimits) : result exn BootstrapRequest :=
  _fields value ["client_id"; "dataset_ids"; "capabilities"]%py "bootstrap_request" ??;
  let? datasets := (let? v := member value "dataset_ids" in _strings v "dataset_ids" (max_datasets limits)) in
  let? caps := (let? v := member value "capabilities" in _strings v "capabilities" (max_capabilities limits)) in
  _ids_with_limit datasets "dataset_ids" limits ??;
  _capabilities_with_limit caps limits ??;
  let? client := string_at value "client_id" in
  _opaque_id client "client_id" (Some (max_opaque_id_bytes limits)) ??;
  BootstrapRequest_new (mkBootstrapRequest client datasets caps).

(** The comprehension runs over a set of names, whose order only chooses which of several
    wrong members is reported; here it is the order of the fields. *)
Definition _decode_limits (value : dict pystr json) : result exn SyncLimits :=
  _fields value (sync_limit_fields DEFAULT_SYNC_LIMITS).*1 "limits" ??;
  let? document := integer_at value "max_document_bytes" in
  let? datasets := integer_at value "max_datasets" in
  let? items := integer_at value "max_items_per_page" in
  let? mutations := integer_at value "max_mutations" in
  let? ids := integer_at value "max_opaque_id_bytes" in
  let? caps := integer_at value "max_capabilities" in
  SyncLimits_new (mkSyncLimits document datasets items mutations ids caps).

(** [tuple(decode(_object(item, name)) for item in items)]. *)
Definition decode_items {A} (decode : dict pystr json -> result exn A) (name : pystr) (items : list json) : result exn (list A) :=
  map_result (fun item => let? o := _object item name in decode o) items.

Definition object_at (value : dict pystr json) (name : pystr) : result exn (dict pystr json) := let? v := member value name in _object v name.

Definition _decode_bootstrap_response (value : dict pystr json) (limits : SyncLimits) : result exn BootstrapResponse :=
  _fields value ["session"; "datasets"; "limits"]%py "bootstrap_response" ??;
  let? raw := array_at value "datasets" in
  reject_if (is_nil raw || (max_datasets limits <? size raw)) (ValueError "datasets must be non-empty and within max_datasets") ??;
  let? ds := decode_items _decode_dataset "dataset" raw in
  let? s := (let? o := object_at value "session" in _decode_session o) in
  let? l := (let? o := object_at value "limits" in _decode_limits o) in
  BootstrapResponse_new (mkBootstrapResponse s ds l).

Definition _decode_upsert (limits : SyncLimits) (value : dict pystr json) : result exn Upsert :=
  _fields value ["item_id"; "revision"; "value"]%py "upsert" ??;
  let? i := string_at value "item_id" in
  _opaque_id i "item_id" (Some (max_opaque_id_bytes limits)) ??;
  let? payload := member value "value" in
  validate_json_with Limits_default payload ??;
  let? r := integer_at value "revision" in
  Upsert_new (mkUpsert i r payload).

Definition _decode_tombstone (limits : SyncLimits) (value : dict pystr json) : result exn Tombstone :=
  _fields value ["item_id"; "revision"; "deleted_at"]%py "tombstone" ??;
  let? i := string_at value "item_id" in
  _opaque_id i "item_id" (Some (max_opaque_id_bytes limits)) ??;
  let? r := integer_at value "revision" in
  let? deleted := time_at value "deleted_at" in
  Tombstone_new (mkTombstone i r deleted).

Definition _decode_integrity (value : dict pystr json) : result exn Integrity :=
  _fields value ["algorithm"; "digest"; "item_count"]%py "integrity" ??;
  let? a := string_at value "algorithm" in
  let? d := string_at value "digest" in
  let? n := integer_at value "item_count" in
  Integrity_new (mkIntegrity a d n).

Definition _decode_snapshot (value : dict pystr json) (limits : SyncLimits) : result exn SnapshotPage :=
  _fields value ["dataset_id"; "generation"; "upserts"; "next_cursor"; "integrity"]%py "snapshot" ??;
  let? i := string_at value "dataset_id" in
  _opaque_id i "dataset_id" (Some (max_opaque_id_bytes limits)) ??;
  let? raw := array_at value "upserts" in
  reject_if (max_items_per_page limits <? size raw) (ValueError "upserts exceed max_items_per_page") ??;
  let? g := integer_at value "generation" in
  let? us := decode_items (_decode_upsert limits) "upsert" raw in
  let? c := nullable_at value "next_cursor" in
  let? n := (let? o := object_at value "integrity" in _decode_integrity o) in
  SnapshotPage_new (mkSnapshotPage i g us c n).

Definition _decode_delta (value : dict pystr json) (limits : SyncLimits) : result exn DeltaPage :=
  _fields value ["dataset_id"; "generation"; "upserts"; "tombstones"; "next_cursor"; "integrity"]%py "delta" ??;
  let? i := string_at value "dataset_id" in
  _opaque_id i "dataset_id" (Some (max_opaque_id_bytes limits)) ??;
  let? raw := array_at value "upserts" in
  let? buried := array_at value "tombstones" in
  reject_if (max_items_per_page limits <? size raw + size buried) (ValueError "delta items exceed max_items_per_page") ??;
  let? g := integer_at value "generation" in
  let? us := decode_items (_decode_upsert limits) "upsert" raw in
  let? ts := decode_items (_decode_tombstone limits) "tombstone" buried in
  let? c := nullable_at value "next_cursor" in
  let? n := (let? o := object_at value "integrity" in _decode_integrity o) in
  DeltaPage_new (mkDeltaPage i g us ts c n).

Definition _decode_reset (value : dict pystr json) : result exn ResetRequired :=
  _fields value ["dataset_id"; "generation"; "reason"]%py "reset_required" ??;
  let? i := string_at value "dataset_id" in
  let? g := integer_at value "generation" in
  let? r := string_at value "reason" in
  ResetRequired_new (mkResetRequired i g r).

Definition _decode_generation_mismatch (value : dict pystr json) : result exn GenerationMismatch :=
  _fields value ["dataset_id"; "expected"; "actual"]%py "generation_mismatch" ??;
  let? i := string_at value "dataset_id" in
  let? e := integer_at value "expected" in
  let? a := integer_at value "actual" in
  GenerationMismatch_new (mkGenerationMismatch i e a).

Definition _decode_readiness (value : dict pystr json) : result exn Readiness :=
  _fields value ["ready"; "checked_at"; "reason"; "retry_after_ms"]%py "readiness" ??;
  let? r := member value "ready" in
  let? b := (match r with JBool b => Ok b | _ => Raise (ValueError "ready must be a boolean") end) in
  let? retry := member value "retry_after_ms" in
  let? checked := time_at value "checked_at" in
  let? reason := nullable_at value "reason" in
  let? ms := nullable_integer retry "retry_after_ms" in
  Readiness_new (mkReadiness b checked reason ms).

Definition _decode_mutation_outcome (value : dict pystr json) : result exn MutationOutcome :=
  _fields value ["mutation_id"; "state"; "revision"; "receipt_id"; "reason"]%py "mutation_outcome" ??;
  let? revision := member value "revision" in
  let? i := string_at value "mutation_id" in
  let? state := (let? s := string_at value "state" in MutationOutcomeState_of s) in
  let? r := nullable_integer revision "revision" in
  let? receipt := nullable_at value "receipt_id" in
  let? reason := nullable_at value "reason" in
  MutationOutcome_new (mkMutationOutcome i state r receipt reason).

Definition _decode_mutation_outcomes (value : dict pystr json) (limits : SyncLimits) : result exn MutationOutcomes :=
  _fields value ["dataset_id"; "generation"; "outcomes"]%py "mutation_outcomes" ??;
  let? i := string_at value "dataset_id" in
  _opaque_id i "dataset_id" (Some (max_opaque_id_bytes limits)) ??;
  let? raw := array_at value "outcomes" in
  reject_if (is_nil raw || (max_mutations limits <? size raw)) (ValueError "outcomes must be non-empty and within max_mutations") ??;
  let? g := integer_at value "generation" in
  let? os := decode_items _decode_mutation_outcome "mutation_outcome" raw in
  MutationOutcomes_new (mkMutationOutcomes i g os).

(** [return wrap(decode(payload))]. *)
Definition decoded {A} (wrap : A -> SyncDocument) (r : result exn A) : result exn SyncDocument := let? d := r in Ok (wrap d).

Definition _decode_bounded_document (value : json) (selected : SyncLimits) : result exn SyncDocument :=
  let? envelope := _object value "document" in
  _fields envelope ["protocol"; "kind"; "payload"]%py "document" ??;
  let? protocol := string_at envelope "protocol" in
  reject_if (negb (bool_decide (protocol = SYNC_PROTOCOL))) (ValueError (str_app "protocol must be " SYNC_PROTOCOL)) ??;
  let? kind := string_at envelope "kind" in
  let? payload := object_at envelope "payload" in
  if bool_decide (kind = "session"%py) then decoded DSession (_decode_session payload)
  else if bool_decide (kind = "dataset"%py) then decoded DDataset (_decode_dataset payload)
  else if bool_decide (kind = "bootstrap_request"%py) then decoded DBootstrapRequest (_decode_bootstrap_request payload selected)
  else if bool_decide (kind = "bootstrap_response"%py) then decoded DBootstrapResponse (_decode_bootstrap_response payload selected)
  else if bool_decide (kind = "snapshot"%py) then decoded DSnapshot (_decode_snapshot payload selected)
  else if bool_decide (kind = "delta"%py) then decoded DDelta (_decode_delta payload selected)
  else if bool_decide (kind = "reset_required"%py) then decoded DReset (_decode_reset payload)
  else if bool_decide (kind = "generation_mismatch"%py) then decoded DGenerationMismatch (_decode_generation_mismatch payload)
  else if bool_decide (kind = "readiness"%py) then decoded DReadiness (_decode_readiness payload)
  else if bool_decide (kind = "mutation_outcome"%py) then decoded DOutcome (_decode_mutation_outcome payload)
  else if bool_decide (kind = "mutation_outcomes"%py) then decoded DOutcomes (_decode_mutation_outcomes payload selected)
  else Raise (ValueError (str_app "unsupported sync document kind: " kind)).

Definition decode_sync_document (value : json) (limits : option SyncLimits) : result exn SyncDocument :=
  _document_bounds value (selected_limits limits) ??;
  _decode_bounded_document value (selected_limits limits).
End Documents.
