(* ===== verification/ContractDocuments.v ===== *)
(** * The documents of the sync protocol come back from their encoding

    Each contract is read back from its JSON value, and what a decoder accepts is the JSON
    value of the contract it returns, up to the order of members. *)
From Stdlib Require Import ZArith Lia SpecFloat Permutation.
From stdpp Require Import base list gmap.
From S2P Require Import Prelude Core Wire Calendar Messages MessageRoundTrip Contracts.

(** ** Timestamps *)

Definition time_ok (t : datetime) : Prop := 0 <= dt_wall t <= dt_max.

Lemma _wire_time_ok t name : _wire_time t name = Ok tt <-> t = utc (dt_wall t) /\ dt_wall t mod 1000 = 0.
Proof.
  unfold _wire_time. rewrite rbind_ok. split.
  - intros ([] & Hu & Hm). apply reject_if_ok, negb_false_iff in Hu, Hm. apply is_utc_eq in Hu. apply Z.eqb_eq in Hm.
    split; [done|]. Z.to_euclidean_division_equations. lia.
  - intros [Hu Hm]. exists tt. rewrite !reject_if_ok, !negb_false_iff, Hu, is_utc_utc, Z.eqb_eq. split; [done|].
    cbn [dt_wall utc]. Z.to_euclidean_division_equations. lia.
Qed.

Lemma int_digits_bound l : Forall (fun c => digit c = true) l -> 0 <= int_digits l < 10 ^ Z.of_nat (length l).
Proof.
  induction l as [|c l IH] using rev_ind; [cbn; lia|]. rewrite Forall_app, Forall_singleton. intros [Hl Hc]. specialize (IH Hl).
  rewrite int_digits_snoc, length_app. cbn [length]. rewrite Nat2Z.inj_add, Z.pow_add_r by lia.
  unfold digit in Hc. rewrite andb_true_iff, !N.leb_le in Hc. change (10 ^ Z.of_nat 1) with 10. lia.
Qed.

Lemma days_of_bound y m d : is_date y m d = true -> 0 <= days_of y m d <= 3652058.
Proof.
  unfold is_date. rewrite !andb_true_iff, !Z.leb_le. intros [[[[[Hy1 Hy2] Hm1] Hm2] Hd1] Hd2].
  assert (0 <= days_before_month y m /\ days_before_month y m + days_in_month y m <= foldr Z.add 0 (months y)) as [Hb Hsum].
  { unfold days_before_month, days_in_month, months.
    assert (Z.to_nat (m - 1) < 12)%nat as Hm by lia. revert Hm. generalize (Z.to_nat (m - 1)). intros k Hk.
    destruct (is_leap y); do 12 (destruct k as [|k]; [cbn; lia|]); lia. }
  pose proof (year_length y) as Hlen. unfold days_of.
  assert (0 <= days_before_year y /\ days_before_year (y + 1) <= 3652059) by (unfold days_before_year; Z.to_euclidean_division_equations; lia).
  lia.
Qed.

(** What [fromisoformat] returns is a time of the calendar in milliseconds. *)
Lemma fromisoformat_ok s t : fromisoformat s = Ok t -> t = utc (dt_wall t) /\ time_ok t /\ dt_wall t mod 1000 = 0.
Proof.
  unfold fromisoformat. set (l := codepoints s). intros ([] & Hdig & ([] & Hrange & [= <-])%rbind_ok)%rbind_ok.
  apply reject_if_ok, negb_false_iff in Hdig, Hrange. rewrite !andb_true_iff, !Z.ltb_lt in Hrange. destruct Hrange as [[[Hdate Hh] Hm] Hs].
  apply days_of_bound in Hdate.
  assert (forall i k, In (field i k l) [field 0 4 l; field 5 2 l; field 8 2 l; field 11 2 l; field 14 2 l; field 17 2 l; field 20 3 l] ->
    0 <= number i k l < 10 ^ Z.of_nat k) as Hnum.
  { intros i k Hin. rewrite forallb_forall in Hdig. specialize (Hdig _ Hin). rewrite forallb_forall in Hdig.
    assert (0 <= number i k l < 10 ^ Z.of_nat (length (field i k l))) as [? Hlt].
    { apply int_digits_bound, Forall_forall. intros c Hc%list_elem_of_In. by apply Hdig. }
    split; [done|]. eapply Z.lt_le_trans; [exact Hlt|]. apply Z.pow_le_mono_r; [lia|]. unfold field. rewrite length_take. lia. }
  pose proof (Hnum 11%nat 2%nat ltac:(cbn; tauto)). pose proof (Hnum 14%nat 2%nat ltac:(cbn; tauto)).
  pose proof (Hnum 17%nat 2%nat ltac:(cbn; tauto)). pose proof (Hnum 20%nat 3%nat ltac:(cbn; tauto)).
  change (10 ^ Z.of_nat 3) with 1000 in *. unfold time_ok, dt_max. cbn [dt_wall utc].
  split_and!; [done|lia|lia|]. rewrite Z.mul_comm. apply Z.mod_mul. lia.
Qed.

(** The two renderings of a time differ in their last characters only. *)
Lemma format_isoformat t text : format_sync_timestamp t = Ok text <->
  _wire_time t "timestamp" = Ok tt /\ exists l, codepoints text = l ++ [90%N] /\ codepoints (isoformat_milliseconds t) = l ++ codepoints "+00:00"%py.
Proof.
  unfold format_sync_timestamp, isoformat_milliseconds. destruct (_wire_time t _) as [[]|e]; cbn [rbind]; [|by split; [|intros [? _]]].
  destruct (date_of _) as [[y m] d]. set (u := dt_wall t / 1000 mod 86400000).
  set (head := pad 4 y ++ [45%N] ++ pad 2 m ++ [45%N] ++ pad 2 d ++ [84%N] ++ pad 2 (u / 3600000) ++ [58%N]
    ++ pad 2 (u / 60000 mod 60) ++ [58%N] ++ pad 2 (u / 1000 mod 60) ++ [46%N] ++ pad 3 (u mod 1000)).
  assert (forall tail, pad 4 y ++ [45%N] ++ pad 2 m ++ [45%N] ++ pad 2 d ++ [84%N] ++ pad 2 (u / 3600000) ++ [58%N]
    ++ pad 2 (u / 60000 mod 60) ++ [58%N] ++ pad 2 (u / 1000 mod 60) ++ [46%N] ++ pad 3 (u mod 1000) ++ tail = head ++ tail) as Hhead by done.
  rewrite !Hhead. cbn [codepoints]. clearbody head. split.
  - intros [= <-]. split; [done|]. by exists head.
  - intros (_ & l & Ht & Hl). apply app_inv_tail in Hl as ->. destruct text as [cs]. cbn in Ht. by rewrite Ht.
Qed.

Section Times.
Context (unicode_decimal : N -> bool) (Hdecimal : forall c, digit c = true -> unicode_decimal c = true).

Lemma sync_timestamp_round_trip t text : time_ok t ->
  format_sync_timestamp t = Ok text -> parse_sync_timestamp unicode_decimal text = Ok t.
Proof.
  intros Ht Hf. pose proof Hf as (Hw & l & Htext & Hiso)%format_isoformat. pose proof Hw as Hw2. apply _wire_time_ok in Hw2 as [Hu Hm].
  pose proof (isoformat_round_trip (dt_wall t) Ht Hm) as Hrt. rewrite <- Hu in Hrt.
  unfold parse_sync_timestamp.
  assert (matches unicode_decimal timestamp_pattern (codepoints text) = true) as ->.
  { unfold format_sync_timestamp in Hf. rewrite Hw in Hf. cbn [rbind] in Hf. destruct (date_of _) as [[y m] d]. injection Hf as <-.
    unfold timestamp_pattern. cbn [codepoints pad app matches]. by rewrite !(digit_mod unicode_decimal Hdecimal). }
  cbn [negb reject_if rbind]. rewrite Htext, removelast_last.
  replace (str_app (PyStr l) "+00:00") with (isoformat_milliseconds t).
  2: { destruct (isoformat_milliseconds t) as [cs]. cbn in Hiso. by rewrite Hiso. }
  rewrite Hrt. cbn [rbind]. rewrite Hw. cbn [rbind]. rewrite Hf. cbn [rbind]. by rewrite bool_decide_true.
Qed.

Lemma parse_sync_timestamp_ok text t : parse_sync_timestamp unicode_decimal text = Ok t ->
  time_ok t /\ format_sync_timestamp t = Ok text.
Proof.
  unfold parse_sync_timestamp. intros ([] & _ & (p & Hp & ([] & Hw & (s & Hs & ([] & Heq & [= <-])%rbind_ok)%rbind_ok)%rbind_ok)%rbind_ok)%rbind_ok.
  destruct (fromisoformat _) as [p'|] eqn:Hiso; [|done]. injection Hp as ->. apply fromisoformat_ok in Hiso as (_ & Ht & _).
  apply reject_if_ok, negb_false_iff, bool_decide_eq_true in Heq as ->. done.
Qed.
End Times.

(** ** Members of an object *)

Lemma object_ok v name m : _object v name = Ok m <-> v = obj m.
Proof.
  unfold _object, obj. split.
  - destruct v as [| | | | | |items|]; try done. destruct (mapM _ items) as [m'|] eqn:Hm; [|done]. intros [= ->]. f_equal.
    apply mapM_Some in Hm. induction Hm as [|[k v] [s x] items m' Hk _ IH]; [done|]. cbn. rewrite <- IH. f_equal.
    destruct k as [k|]; [|discriminate Hk]. unfold mbind, option_bind in Hk. cbn in Hk. by injection Hk as -> ->.
  - intros ->. assert (mapM (fun kv => s ← key_string kv.1; Some (s, kv.2)) (map (fun p => (KeyStr p.1, p.2)) m) = Some m) as ->; [|done].
    apply mapM_Some. induction m as [|[k v] m IH]; by constructor.
Qed.

Lemma member_ok m k v : member m k = Ok v <-> d_get k m = Some v.
Proof. unfold member. destruct (d_get k m); split; congruence. Qed.

Lemma string_at_ok m k s : string_at m k = Ok s <-> d_get k m = Some (JStr s).
Proof.
  unfold string_at. rewrite rbind_ok. split.
  - intros (v & Hv%member_ok & Hs). destruct v; cbn in Hs; congruence.
  - intros H. exists (JStr s). by rewrite member_ok.
Qed.

Lemma integer_ok v name n : _integer v name = Ok n <-> v = JInt n.
Proof. destruct v; cbn; split; congruence. Qed.

Lemma integer_at_ok m k n : integer_at m k = Ok n <-> d_get k m = Some (JInt n).
Proof.
  unfold integer_at. rewrite rbind_ok. split.
  - intros (v & Hv%member_ok & ->%integer_ok). done.
  - intros H. exists (JInt n). by rewrite member_ok, integer_ok.
Qed.

Lemma array_at_ok m k l : array_at m k = Ok l <-> d_get k m = Some (JList l).
Proof.
  unfold array_at. rewrite rbind_ok. split.
  - intros (v & Hv%member_ok & Hs). destruct v; cbn in Hs; congruence.
  - intros H. exists (JList l). by rewrite member_ok.
Qed.

Lemma object_at_ok m k o : object_at m k = Ok o <-> d_get k m = Some (obj o).
Proof.
  unfold object_at. rewrite rbind_ok. split.
  - intros (v & Hv%member_ok & ->%object_ok). done.
  - intros H. exists (obj o). by rewrite member_ok, object_ok.
Qed.

Lemma nullable_string_ok v name o : _nullable_string v name = Ok o <-> v = nullable JStr o.
Proof. destruct v, o; cbn; split; congruence. Qed.

Lemma nullable_at_ok m k o : nullable_at m k = Ok o <-> d_get k m = Some (nullable JStr o).
Proof.
  unfold nullable_at. rewrite rbind_ok. split.
  - intros (v & Hv%member_ok & ->%nullable_string_ok). done.
  - intros H. exists (nullable JStr o). by rewrite member_ok, nullable_string_ok.
Qed.

Lemma nullable_integer_ok v name o : nullable_integer v name = Ok o <-> v = nullable_int o.
Proof. destruct v, o; cbn; split; congruence. Qed.

(** A closed object has exactly the expected members. *)
Lemma is_nil_true {A} (l : list A) : is_nil l = true <-> l = [].
Proof. by destruct l. Qed.

Section Fields.
Context (str_repr : pystr -> pystr).

Lemma fields_ok m ks name : _fields str_repr m ks name = Ok tt <-> forall k, k ∈ m.*1 <-> k ∈ ks.
Proof.
  unfold _fields. rewrite reject_if_ok, negb_false_iff, andb_true_iff, !is_nil_true. split.
  - intros [Hmissing Hunknown] k. split; intros Hk.
    + destruct (decide (k ∈ ks)) as [|Hn]; [done|].
      assert (k ∈ filter (fun k => k ∉ ks) m.*1) as Hin by (by apply list_elem_of_filter). rewrite Hunknown in Hin. by apply not_elem_of_nil in Hin.
    + apply d_get_key. destruct (d_get k m) eqn:Hg; [done|].
      assert (k ∈ filter (fun k => d_get k m = None) ks) as Hin by (by apply list_elem_of_filter). rewrite Hmissing in Hin. by apply not_elem_of_nil in Hin.
  - intros Hall. split; apply elem_of_nil_inv; intros k [Hp Hk]%list_elem_of_filter.
    + apply Hall, d_get_key in Hk. rewrite Hp in Hk. by apply is_Some_None in Hk.
    + apply Hp. by apply Hall.
Qed.

(** The members of [l] are those of [m] in another order. *)
Lemma members_perm m l name : _fields str_repr m l.*1 name = Ok tt -> NoDup m.*1 -> NoDup l.*1 ->
  Forall (fun p => d_get p.1 m = Some p.2) l -> m ≡ₚ l.
Proof.
  intros Hf Hm Hl Hget. apply NoDup_Permutation; [by eapply NoDup_fmap_1|by eapply NoDup_fmap_1|]. intros [k v].
  rewrite Forall_forall in Hget. split; intros Hin.
  - assert (k ∈ l.*1) as ((k', v') & Hk & Hin')%list_elem_of_fmap by (apply (proj1 (fields_ok m l.*1 name) Hf k), list_elem_of_fmap; by exists (k, v)).
    cbn in Hk. subst k'. pose proof (Hget _ Hin') as Hg. apply d_elem_get in Hin; [|done]. cbn in Hg. rewrite Hin in Hg. by injection Hg as ->.
  - apply d_get_elem. by apply (Hget _ Hin).
Qed.
End Fields.

(** ** Equal values *)

(** Equality of Python values whose dictionaries may list their members in another order. *)
Inductive same : json -> json -> Prop :=
  | same_refl v : same v v
  | same_items l l' : Forall2 same l l' -> same (JList l) (JList l')
  | same_members m m' l : m ≡ₚ m' -> Forall2 (fun p q => p.1 = q.1 /\ same p.2 q.2) m' l -> same (obj m) (obj l).

Section SameInd.
Variable P : json -> json -> Prop.
Hypothesis Hrefl : forall v, P v v.
Hypothesis Hitems : forall l l', Forall2 P l l' -> P (JList l) (JList l').
Hypothesis Hmembers : forall m m' l, m ≡ₚ m' -> Forall2 (fun p q => p.1 = q.1 /\ P p.2 q.2) m' l -> P (obj m) (obj l).

Fixpoint same_nested_ind v v' (H : same v v') : P v v' :=
  match H with
  | same_refl v => Hrefl v
  | same_items l l' Hl => Hitems l l'
      ((fix go l l' (Hl : Forall2 same l l') : Forall2 P l l' :=
          match Hl with
          | List.Forall2_nil _ => List.Forall2_nil P
          | List.Forall2_cons _ _ Hx Hl => List.Forall2_cons _ _ (same_nested_ind _ _ Hx) (go _ _ Hl)
          end) l l' Hl)
  | same_members m m' l Hp Hl => Hmembers m m' l Hp
      ((fix go m' l (Hl : Forall2 (fun p q => p.1 = q.1 /\ same p.2 q.2) m' l) : Forall2 (fun p q => p.1 = q.1 /\ P p.2 q.2) m' l :=
          match Hl with
          | List.Forall2_nil _ => List.Forall2_nil _
          | List.Forall2_cons p q (conj Hk Hx) Hl => List.Forall2_cons p q (conj Hk (same_nested_ind _ _ Hx)) (go _ _ Hl)
          end) m' l Hl)
  end.
End SameInd.

(** A Python dictionary has each key once, at every depth. *)
Fixpoint distinct (v : json) : Prop :=
  match v with
  | JList l => foldr (fun x P => distinct x /\ P) True l
  | JDict m => NoDup m.*1 /\ foldr (fun kv P => distinct (snd kv) /\ P) True m
  | _ => True
  end.

Lemma foldr_and {A} (P : A -> Prop) l : foldr (fun x Q => P x /\ Q) True l <-> Forall P l.
Proof. induction l as [|x l IH]; cbn; [by split|]. by rewrite IH, Forall_cons. Qed.

Lemma distinct_list l : distinct (JList l) <-> Forall distinct l.
Proof. apply foldr_and. Qed.

Lemma distinct_obj m : distinct (obj m) <-> NoDup m.*1 /\ Forall (fun p => distinct p.2) m.
Proof.
  unfold obj. cbn [distinct]. rewrite (foldr_and (fun kv => distinct (snd kv))), Forall_map. cbn.
  assert ((map (fun p : pystr * json => (KeyStr p.1, p.2)) m).*1 = KeyStr <$> m.*1) as ->.
  { induction m as [|p m IH]; [done|]. cbn. by rewrite IH. }
  rewrite NoDup_fmap by (by intros ?? [= ->]). done.
Qed.

Lemma distinct_get m k v : distinct (obj m) -> d_get k m = Some v -> distinct v.
Proof. intros [_ Hd]%distinct_obj Hg%d_get_elem. rewrite Forall_forall in Hd. by apply (Hd _ Hg). Qed.

(** ** Contracts *)

(** A contract between its values, their JSON value and their decoder: when the limits have
    room each value is read back, and only the JSON value of a contract is accepted. *)
Class Contract {A} (room : Prop) (ok : A -> Prop) (to_json : A -> result exn json) (decode : dict pystr json -> result exn A) := {
  contract_decode a j : room -> ok a -> to_json a = Ok j -> exists m, j = obj m /\ decode m = Ok a;
  contract_encode m a : decode m = Ok a -> distinct (obj m) -> ok a /\ exists j, to_json a = Ok j /\ same (obj m) j
}.

Section Items.
Context {A} (ok : A -> Prop) (to_json : A -> result exn json) (decode : dict pystr json -> result exn A) (room : Prop) `{!Contract room ok to_json decode}.

Lemma items_decode name l js : room -> Forall ok l -> map_result to_json l = Ok js -> decode_items decode name js = Ok l.
Proof.
  intros Hroom Hl Hjs%map_result_ok. unfold decode_items. apply map_result_ok. induction Hjs as [|a j l js Hj _ IH]; [constructor|].
  apply Forall_cons in Hl as [Ha Hl]. constructor; [|by apply IH]. destruct (contract_decode a j Hroom Ha Hj) as (m & -> & Hm).
  by rewrite (proj2 (object_ok _ _ m)).
Qed.

Lemma items_encode name items l : decode_items decode name items = Ok l -> Forall distinct items ->
  Forall ok l /\ exists js, map_result to_json l = Ok js /\ Forall2 same items js.
Proof.
  unfold decode_items. intros Hd%map_result_ok. induction Hd as [|v a items l Hv _ IH]; intros Hall.
  - split; [constructor|]. exists []. split; constructor.
  - apply Forall_cons in Hall as [Hd Hall]. destruct (IH Hall) as (Hok & js & Hjs & Hsame).
    apply rbind_ok in Hv as (m & ->%object_ok & Hm). destruct (contract_encode m a Hm Hd) as (Ha & j & Hj & Hs).
    split; [by constructor|]. exists (j :: js). split; [|by constructor]. cbn. by rewrite Hj, Hjs.
Qed.
End Items.

(** A contract whose JSON value is a total function. *)
Abbreviation pure f := (fun a => Ok (f a)).

Lemma map_result_pure {A B} (f : A -> B) l : map_result (pure f) l = Ok (map f l) (E := exn).
Proof. induction l as [|x l IH]; [done|]. cbn. by rewrite IH. Qed.

Lemma Forall2_same_refl l : Forall2 same l l.
Proof. induction l; constructor; [constructor|done]. Qed.

(** The members a decoder read are those of the object. *)
Lemma same_obj str_repr m ks l name : _fields str_repr m ks name = Ok tt -> distinct (obj m) -> NoDup ks ->
  Forall2 (fun k q => q.1 = k /\ exists v, d_get k m = Some v /\ same v q.2) ks l -> same (obj m) (obj l).
Proof.
  intros Hf [Hm _]%distinct_obj Hks Hl.
  assert (exists l', l'.*1 = ks /\ Forall (fun p => d_get p.1 m = Some p.2) l' /\ Forall2 (fun p q => p.1 = q.1 /\ same p.2 q.2) l' l)
    as (l' & <- & Hget & Hsame); [|by eapply same_members; [eapply members_perm|]].
  clear Hf Hks. induction Hl as [|k q ks l (Hk & v & Hv & Hs) _ (l' & <- & Hget & Hsame)]; [by exists []|].
  exists ((k, v) :: l'). split_and!; [done| |]; by constructor.
Qed.

(** ** The parts of the documents *)

(** Limits that admit every document the constructors admit. *)
Definition covers (l : SyncLimits) : Prop :=
  max_datasets DEFAULT_SYNC_LIMITS <= max_datasets l /\ max_items_per_page DEFAULT_SYNC_LIMITS <= max_items_per_page l /\
  max_mutations DEFAULT_SYNC_LIMITS <= max_mutations l /\ max_opaque_id_bytes DEFAULT_SYNC_LIMITS <= max_opaque_id_bytes l /\
  max_capabilities DEFAULT_SYNC_LIMITS <= max_capabilities l.

Lemma opaque_id_weaken v name a b : 0 < a <= b -> _opaque_id v name (Some a) = Ok tt -> _opaque_id v name (Some b) = Ok tt.
Proof.
  intros Hab. unfold _opaque_id. rewrite (proj2 (Z.eqb_neq a 0)), (proj2 (Z.eqb_neq b 0)) by lia. intros ([] & Hv & (long & Hl & Hlong)%rbind_ok)%rbind_ok.
  rewrite Hv. cbn [rbind]. unfold longer_than in *. apply rbind_ok in Hl as (bytes & He & [= <-]). rewrite He. cbn [rbind].
  apply reject_if_ok in Hlong. apply reject_if_ok. time_facts. apply Z.ltb_ge. lia.
Qed.

Lemma opaque_id_covered l v name : covers l -> _opaque_id v name None = Ok tt -> _opaque_id v name (Some (max_opaque_id_bytes l)) = Ok tt.
Proof. intros (_ & _ & _ & Hl & _). apply (opaque_id_weaken v name 255). cbn in Hl. lia. Qed.

Lemma SyncMode_of_ok str_repr s m : SyncMode_of str_repr s = Ok m <-> s = SyncMode_value m.
Proof.
  unfold SyncMode_of. repeat case_bool_decide; subst; destruct m; cbn; split; try done; intros [=]; by subst.
Qed.

Lemma MutationOutcomeState_of_ok str_repr s m : MutationOutcomeState_of str_repr s = Ok m <-> s = MutationOutcomeState_value m.
Proof.
  unfold MutationOutcomeState_of. repeat case_bool_decide; subst; destruct m; cbn; split; try done; intros [=]; by subst.
Qed.

Lemma map_result_strings {A} (f : pystr -> result exn A) (value : A -> pystr) name items l :
  (forall s x, f s = Ok x <-> s = value x) ->
  map_result (fun item => let? s := _string item name in f s) items = Ok l <-> items = map (fun x => JStr (value x)) l.
Proof.
  intros Hf. rewrite map_result_ok. revert l. induction items as [|v items IH]; intros l.
  - split; [by inversion 1|]. by destruct l; [constructor|].
  - split.
    + inversion 1 as [|? x ? l' Hv Hl]; subst. cbn. apply IH in Hl as ->. apply rbind_ok in Hv as (s & Hs & ->%Hf). by destruct v; cbn in Hs; simplify_eq.
    + destruct l as [|x l]; [done|]. intros [= -> ->]. constructor; [cbn; by apply Hf|by apply IH].
Qed.

Lemma _strings_ok v name maximum l : _strings v name maximum = Ok l <-> v = JList (map JStr l) /\ size l <= maximum.
Proof.
  unfold _strings. assert (forall items, map_result (fun item => _string item name) items = Ok l <-> items = map JStr l) as Hitems.
  { intros items. rewrite <- (map_result_strings (fun s => Ok s) (fun s => s) name) by (split; congruence).
    replace (map_result _ items) with (map_result (fun item => let? s := _string item name in Ok s) items); [done|].
    induction items as [|x items IH]; [done|]. cbn. rewrite IH. by destruct (_string x name). }
  split.
  - intros (items & Hv & ([] & Hmax%reject_if_ok & ->%Hitems)%rbind_ok)%rbind_ok. destruct v; cbn in Hv; simplify_eq. split; [done|].
    time_facts. unfold size in *. rewrite length_map in Hmax. lia.
  - intros [-> Hmax]. cbn [_array rbind]. unfold size in *. rewrite length_map, (proj2 (Z.ltb_ge _ _)) by lia. cbn [reject_if rbind]. by apply Hitems.
Qed.

(** *** Automation *)

Lemma fields_same str_repr m ks name : m.*1 = ks -> _fields str_repr m ks name = Ok tt.
Proof. intros <-. by apply fields_ok. Qed.


Lemma rbind_intro {A B} (m : result exn A) (f : A -> result exn B) a r : m = Ok a -> f a = r -> rbind m f = r.
Proof. by intros -> <-. Qed.

(** Runs a decoder on an object: each member is looked up and each hypothesis on a check or
    on a part is used. *)
Ltac decoding_by tac :=
  repeat (first
    [ eapply rbind_intro; [first
        [ apply fields_same; reflexivity | apply string_at_ok; reflexivity | apply integer_at_ok; reflexivity
        | apply array_at_ok; reflexivity | apply object_at_ok; reflexivity | apply nullable_at_ok; reflexivity
        | apply member_ok; reflexivity | apply nullable_integer_ok; reflexivity | eassumption
        | eapply rbind_intro; [first [apply object_at_ok; reflexivity | apply member_ok; reflexivity]|cbv beta; first [eassumption | tac]] | tac | reflexivity ]|]; cbv beta ]).
Ltac decoding := decoding_by fail.

(** Takes apart the hypotheses of a decoder that returned. *)
Ltac decoded :=
  repeat match goal with
  | H : unit |- _ => destruct H
  | H : rbind _ _ = Ok _ |- _ => apply rbind_ok in H as (? & ? & ?)
  | H : reject_if _ _ = Ok _ |- _ => apply reject_if_ok in H
  | H : string_at _ _ = Ok _ |- _ => apply string_at_ok in H
  | H : integer_at _ _ = Ok _ |- _ => apply integer_at_ok in H
  | H : array_at _ _ = Ok _ |- _ => apply array_at_ok in H
  | H : object_at _ _ = Ok _ |- _ => apply object_at_ok in H
  | H : nullable_at _ _ = Ok _ |- _ => apply nullable_at_ok in H
  | H : member _ _ = Ok _ |- _ => apply member_ok in H
  | H : nullable_integer _ _ = Ok _ |- _ => apply nullable_integer_ok in H as ->
  | H : time_at _ _ _ = Ok _ |- _ => unfold time_at in H
  | H : parse_sync_timestamp _ _ = Ok _ |- _ => apply parse_sync_timestamp_ok in H as [? ?]
  | H : MutationOutcomeState_of _ _ = Ok _ |- _ => apply MutationOutcomeState_of_ok in H as ->
  | H : _strings _ _ _ = Ok _ |- _ => apply _strings_ok in H as [-> ?]
  | H : Ok _ = Ok _ |- _ => injection H as H
  end.

(** A constructor returns its argument. *)
Ltac checked a :=
  lazymatch goal with
  | H : ?new ?x = Ok a |- _ =>
      let E := fresh in assert (a = x) as E by (unfold new in H; decoded; congruence); subst a
  end.

(** Runs an encoder with the texts of the times and the parts already known. *)
Ltac encoding := repeat match goal with H : ?x = Ok _ |- context [?x] => rewrite H; cbn [rbind] end; reflexivity.

(** The object of the members a decoder looked up. *)
Ltac same_object :=
  eapply same_obj; [eassumption|eassumption|apply (bool_decide_eq_true_1 _); vm_compute; reflexivity|];
  repeat first [apply List.Forall2_nil | apply List.Forall2_cons; [split; [reflexivity|eexists; split; [eassumption|first [apply same_refl | eassumption]]]|]].

Section Contracts.
Context (unicode_decimal : N -> bool) (Hdecimal : forall c, digit c = true -> unicode_decimal c = true) (str_repr : pystr -> pystr).
Context (lim : SyncLimits).
Abbreviation room := (covers lim).

(** The times of a value are formatted and read back. *)
Ltac timestamps :=
  repeat match goal with
  | Ht : time_ok ?t, Hf : format_sync_timestamp ?t = Ok _ |- _ =>
      lazymatch goal with
      | _ : parse_sync_timestamp unicode_decimal _ = Ok t |- _ => fail
      | _ => pose proof (sync_timestamp_round_trip _ Hdecimal t _ Ht Hf)
      end
  end.

Definition session_ok (s : SyncSession) : Prop :=
  SyncSession_new s = Ok s /\ time_ok (created_at s) /\ time_ok (session_expires_at s).

#[local] Instance session_contract : Contract room session_ok _session_json (_decode_session unicode_decimal str_repr).
Proof.
  split.
  - intros [i c e] j _ (Hnew & Hc & He) Hj. unfold _session_json in Hj. cbn in Hc, He. decoded. subst j. eexists. split; [reflexivity|].
    cbn [created_at session_expires_at] in *. timestamps. unfold _decode_session, time_at. decoding. done.
  - intros m a Hd Hm. unfold _decode_session in Hd. decoded. checked a. split; [done|].
    eexists. split; [unfold _session_json; cbn [created_at session_expires_at]; decoding; reflexivity|]. same_object.
Qed.

Definition dataset_ok (d : DatasetDescriptor) : Prop := DatasetDescriptor_new d = Ok d.

#[local] Instance dataset_contract : Contract room dataset_ok (pure _dataset_json) (_decode_dataset str_repr).
Proof.
  pose proof (fun items l => map_result_strings (SyncMode_of str_repr) SyncMode_value "mode" items l (SyncMode_of_ok str_repr)) as Hmodes.
  split.
  - intros [i g ms] j _ Hnew [= <-]. eexists. split; [reflexivity|]. unfold _decode_dataset. cbn [dataset_id generation modes].
    decoding_by ltac:(by apply Hmodes). done.
  - intros m a Hd Hm. unfold _decode_dataset in Hd. decoded. checked a. apply Hmodes in H1 as ->. split; [done|].
    eexists. split; [reflexivity|]. same_object.
Qed.

Definition limits_ok (l : SyncLimits) : Prop := SyncLimits_new l = Ok l.

#[local] Instance limits_contract : Contract room limits_ok (pure _limits_json) (_decode_limits str_repr).
Proof.
  split.
  - intros [a b c d e f] j _ Hnew [= <-]. eexists. split; [reflexivity|]. unfold _decode_limits. cbn. decoding. done.
  - intros m a Hd Hm. unfold _decode_limits in Hd. decoded. checked a. split; [done|]. eexists. split; [reflexivity|]. unfold _limits_json. cbn. same_object.
Qed.

Definition upsert_ok (u : Upsert) : Prop := Upsert_new u = Ok u.

#[local] Instance upsert_contract : Contract room upsert_ok (pure _upsert_json) (_decode_upsert str_repr lim).
Proof.
  split.
  - intros [i r v] j Hroom Hnew [= <-]. eexists. split; [reflexivity|]. pose proof Hnew as Hnew'. unfold upsert_ok, Upsert_new in Hnew'. decoded.
    cbn in *. pose proof (opaque_id_covered _ _ _ Hroom ltac:(eassumption)). unfold _decode_upsert. decoding. done.
  - intros m a Hd Hm. unfold _decode_upsert in Hd. decoded. checked a. split; [done|]. eexists. split; [reflexivity|]. same_object.
Qed.

Definition tombstone_ok (t : Tombstone) : Prop := Tombstone_new t = Ok t /\ time_ok (deleted_at t).

#[local] Instance tombstone_contract : Contract room tombstone_ok _tombstone_json (_decode_tombstone unicode_decimal str_repr lim).
Proof.
  split.
  - intros [i r t] j Hroom [Hnew Ht] Hj. pose proof Hnew as Hnew'. unfold Tombstone_new in Hnew'. unfold _tombstone_json in Hj. cbn in *. decoded. subst j.
    eexists. split; [reflexivity|]. timestamps. pose proof (opaque_id_covered _ _ _ Hroom ltac:(eassumption)). unfold _decode_tombstone, time_at. decoding. done.
  - intros m a Hd Hm. unfold _decode_tombstone in Hd. decoded. checked a. split; [done|].
    eexists. split; [unfold _tombstone_json; cbn [deleted_at]; decoding; reflexivity|]. same_object.
Qed.

Definition integrity_ok (i : Integrity) : Prop := Integrity_new i = Ok i.

#[local] Instance integrity_contract : Contract room integrity_ok (pure _integrity_json) (_decode_integrity str_repr).
Proof.
  split.
  - intros [a d n] j _ Hnew [= <-]. eexists. split; [reflexivity|]. unfold _decode_integrity. cbn. decoding. done.
  - intros m a Hd Hm. unfold _decode_integrity in Hd. decoded. checked a. split; [done|]. eexists. split; [reflexivity|]. same_object.
Qed.

Definition outcome_ok (o : MutationOutcome) : Prop := MutationOutcome_new o = Ok o.

#[local] Instance outcome_contract : Contract room outcome_ok (pure _mutation_outcome_json) (_decode_mutation_outcome str_repr).
Proof.
  split.
  - intros [i s r c n] j _ Hnew [= <-]. eexists. split; [reflexivity|]. unfold _decode_mutation_outcome. cbn. decoding_by ltac:(by apply MutationOutcomeState_of_ok). done.
  - intros m a Hd Hm. unfold _decode_mutation_outcome in Hd. decoded. checked a. split; [done|].
    eexists. split; [reflexivity|]. same_object.
Qed.

(** *** The documents *)

(** The JSON value of a document's payload. *)
Definition payload (d : SyncDocument) : result exn json := let? kp := _encode_payload d in Ok kp.2.

Lemma size_map {A B} (f : A -> B) l : size (map f l) = size l.
Proof. unfold size. by rewrite length_map. Qed.

Lemma map_result_size {A B} (f : A -> result exn B) l l' : map_result f l = Ok l' -> size l' = size l.
Proof. intros Hf%map_result_ok%Forall2_length. unfold size. lia. Qed.

Lemma is_nil_map {A B} (f : A -> B) l : is_nil (map f l) = is_nil l.
Proof. by destruct l. Qed.

(** The parts of an object that decoders accepted. *)
Ltac parts :=
  repeat match goal with
  | H : decode_items ?dec ?n ?raw = Ok ?l, G : d_get ?k ?m = Some (JList ?raw), D : distinct (obj ?m) |- _ =>
      destruct (items_encode _ _ dec room n raw l H (proj1 (distinct_list _) (distinct_get _ _ _ D G))) as (? & ? & ? & ?%same_items); clear H
  | H : map_result (fun _ => Ok _) _ = Ok _ |- _ => rewrite map_result_pure in H; injection H as H; subst
  | H : ?dec ?o = Ok ?n, G : d_get ?k ?m = Some (obj ?o), D : distinct (obj ?m) |- _ =>
      eapply contract_encode in H as (? & ? & ? & ?); [|exact (distinct_get _ _ _ D G)]
  | H : Ok _ = Ok _ |- _ => injection H as H; subst
  end.

Definition request_ok (r : BootstrapRequest) : Prop := BootstrapRequest_new r = Ok r.

Lemma each_ok {A} (check : A -> result exn unit) l : check_each check l = Ok tt <-> Forall (fun x => check x = Ok tt) l.
Proof.
  unfold check_each. induction l as [|x l IH]; cbn; [by split; constructor|]. rewrite Forall_cons.
  destruct (check x) as [[]|e]; [|by split; [|intros [? _]]]. rewrite IH. tauto.
Qed.

Lemma ids_covered l values name maximum : covers l -> _bounded_ids values name maximum = Ok tt -> _ids_with_limit values name l = Ok tt.
Proof.
  intros Hl. unfold _bounded_ids, _ids_with_limit. intros ([] & Hr%reject_if_ok & He%each_ok)%rbind_ok. apply orb_false_iff in Hr as [[Hn _]%orb_false_iff Hr].
  rewrite Hn, Hr. cbn. apply each_ok. eapply Forall_impl; [exact He|]. intros v. by apply opaque_id_covered.
Qed.

Lemma capabilities_covered l values : covers l -> _bounded_capabilities values = Ok tt -> _capabilities_with_limit values l = Ok tt.
Proof.
  intros Hl. unfold _bounded_capabilities, _capabilities_with_limit. intros ([] & Hr%reject_if_ok & He%each_ok)%rbind_ok. apply orb_false_iff in Hr as [Hn Hr].
  destruct Hl as (_ & _ & _ & Hi & Hc). rewrite Hr. apply Z.ltb_ge in Hn. rewrite (proj2 (Z.ltb_ge _ _)) by lia. cbn [orb reject_if rbind]. apply each_ok.
  eapply Forall_impl; [exact He|]. intros v. cbn in Hi. by rewrite !Z.min_l by (cbn; lia).
Qed.

Lemma bounded_ids_size values name maximum : _bounded_ids values name maximum = Ok tt -> size values <= maximum.
Proof. unfold _bounded_ids. intros ([] & Hr%reject_if_ok & _)%rbind_ok. apply orb_false_iff in Hr as [[_ Hn]%orb_false_iff _]. by apply Z.ltb_ge. Qed.

Lemma capabilities_size values : _bounded_capabilities values = Ok tt -> size values <= max_capabilities DEFAULT_SYNC_LIMITS.
Proof. unfold _bounded_capabilities, _capabilities_with_limit. intros ([] & Hr%reject_if_ok & _)%rbind_ok. apply orb_false_iff in Hr as [Hn _]. by apply Z.ltb_ge. Qed.

#[local] Instance request_contract : Contract room request_ok (fun r => payload (DBootstrapRequest r)) (fun m => _decode_bootstrap_request str_repr m lim).
Proof.
  split.
  - intros [c ds cs] j Hroom Hnew [= <-]. pose proof Hnew as Hnew'. unfold request_ok, BootstrapRequest_new in Hnew'. cbn [client_id dataset_ids capabilities] in Hnew'. decoded.
    eexists. split; [reflexivity|]. cbn [client_id dataset_ids capabilities]. pose proof Hroom as (Hd & _ & _ & _ & Hc).
    pose proof (opaque_id_covered _ _ _ Hroom ltac:(eassumption)). pose proof (ids_covered _ _ _ _ Hroom ltac:(eassumption)). pose proof (capabilities_covered _ _ Hroom ltac:(eassumption)).
    pose proof (bounded_ids_size _ _ _ ltac:(eassumption)). pose proof (capabilities_size _ ltac:(eassumption)). unfold _decode_bootstrap_request.
    decoding_by ltac:(apply _strings_ok; split; [reflexivity|lia]). done.
  - intros m a Hd Hm. unfold _decode_bootstrap_request in Hd. decoded. checked a. split; [done|]. eexists. split; [reflexivity|]. same_object.
Qed.

(** A check that a number of items is within a limit. *)
Ltac within := refine (proj2 (reject_if_ok _ _ tt) _); rewrite ?size_map, ?is_nil_map; rewrite ?orb_false_iff, ?Z.ltb_ge in *; destruct_and?; split_and?; first [assumption | lia].

Definition response_ok (r : BootstrapResponse) : Prop :=
  BootstrapResponse_new r = Ok r /\ session_ok (session r) /\ Forall dataset_ok (datasets r) /\ limits_ok (response_limits r).

#[local] Instance response_contract : Contract room response_ok (fun r => payload (DBootstrapResponse r))
  (fun m => _decode_bootstrap_response unicode_decimal str_repr m lim).
Proof.
  split.
  - intros [s ds l] j Hroom (Hnew & Hs & Hds & Hl) Hj. unfold payload in Hj. cbn [_encode_payload session datasets response_limits] in *. decoded. subst.
    pose proof Hnew as Hnew'. unfold BootstrapResponse_new in Hnew'. cbn [datasets] in Hnew'. decoded. pose proof Hroom as (Hcover & _).
    destruct (contract_decode s _ Hroom Hs ltac:(eassumption)) as (ms & -> & Ds). destruct (contract_decode l _ Hroom Hl eq_refl) as (ml & El & Dl).
    pose proof (items_decode _ _ _ _ "dataset" ds _ Hroom Hds (map_result_pure _ ds)).
    eexists. split; [cbn [snd]; rewrite El; reflexivity|]. unfold _decode_bootstrap_response. decoding_by ltac:(within). done.
  - intros m a Hd Hm. unfold _decode_bootstrap_response in Hd. decoded. parts. checked a. split; [unfold response_ok; cbn; by split_and!|].
    eexists. split; [unfold payload; cbn [_encode_payload session datasets response_limits]; encoding|]. same_object.
Qed.

Definition snapshot_ok (p : SnapshotPage) : Prop :=
  SnapshotPage_new p = Ok p /\ Forall upsert_ok (snapshot_upserts p) /\ integrity_ok (snapshot_integrity p).

#[local] Instance snapshot_contract : Contract room snapshot_ok (fun p => payload (DSnapshot p)) (fun m => _decode_snapshot str_repr m lim).
Proof.
  split.
  - intros [i g us c n] j Hroom (Hnew & Hus & Hn) [= <-]. cbn [snapshot_upserts snapshot_integrity] in *.
    pose proof Hnew as Hnew'. unfold SnapshotPage_new, _bounded_items in Hnew'. cbn [snapshot_dataset_id snapshot_upserts] in Hnew'. decoded. pose proof Hroom as (_ & Hcover & _).
    destruct (contract_decode n _ Hroom Hn eq_refl) as (mn & En & Dn). pose proof (opaque_id_covered _ _ _ Hroom ltac:(eassumption)).
    pose proof (items_decode _ _ _ _ "upsert" us _ Hroom Hus (map_result_pure _ us)).
    eexists. split; [cbn; rewrite En; reflexivity|]. unfold _decode_snapshot. decoding_by ltac:(within). done.
  - intros m a Hd Hm. unfold _decode_snapshot in Hd. decoded. parts. checked a. split; [unfold snapshot_ok; cbn; by split_and!|]. eexists. split; [reflexivity|]. same_object.
Qed.

Definition delta_ok (p : DeltaPage) : Prop :=
  DeltaPage_new p = Ok p /\ Forall upsert_ok (delta_upserts p) /\ Forall tombstone_ok (delta_tombstones p) /\ integrity_ok (delta_integrity p).

#[local] Instance delta_contract : Contract room delta_ok (fun p => payload (DDelta p)) (fun m => _decode_delta unicode_decimal str_repr m lim).
Proof.
  split.
  - intros [i g us ts c n] j Hroom (Hnew & Hus & Hts & Hn) Hj. unfold payload in Hj. cbn [_encode_payload delta_upserts delta_tombstones delta_integrity] in *. decoded. subst.
    pose proof Hnew as Hnew'. unfold DeltaPage_new, _bounded_items in Hnew'. cbn [delta_dataset_id delta_upserts delta_tombstones] in Hnew'. decoded. pose proof Hroom as (_ & Hcover & _).
    destruct (contract_decode n _ Hroom Hn eq_refl) as (mn & En & Dn). pose proof (opaque_id_covered _ _ _ Hroom ltac:(eassumption)).
    pose proof (items_decode _ _ _ _ "upsert" us _ Hroom Hus (map_result_pure _ us)). pose proof (items_decode _ _ _ _ "tombstone" ts _ Hroom Hts ltac:(eassumption)).
    pose proof (map_result_size _tombstone_json ts _ ltac:(eassumption)).
    eexists. split; [cbn; rewrite En; reflexivity|]. unfold _decode_delta. decoding_by ltac:(within). done.
  - intros m a Hd Hm. unfold _decode_delta in Hd. decoded. parts. checked a. split; [unfold delta_ok; cbn; by split_and!|].
    eexists. split; [unfold payload; cbn [_encode_payload delta_upserts delta_tombstones delta_integrity]; encoding|]. same_object.
Qed.

Definition reset_ok (r : ResetRequired) : Prop := ResetRequired_new r = Ok r.

#[local] Instance reset_contract : Contract room reset_ok (fun r => payload (DReset r)) (_decode_reset str_repr).
Proof.
  split.
  - intros [i g r] j _ Hnew [= <-]. eexists. split; [reflexivity|]. unfold _decode_reset. cbn. decoding. done.
  - intros m a Hd Hm. unfold _decode_reset in Hd. decoded. checked a. split; [done|]. eexists. split; [reflexivity|]. same_object.
Qed.

Definition mismatch_ok (g : GenerationMismatch) : Prop := GenerationMismatch_new g = Ok g.

#[local] Instance mismatch_contract : Contract room mismatch_ok (fun g => payload (DGenerationMismatch g)) (_decode_generation_mismatch str_repr).
Proof.
  split.
  - intros [i e a] j _ Hnew [= <-]. eexists. split; [reflexivity|]. unfold _decode_generation_mismatch. cbn. decoding. done.
  - intros m a Hd Hm. unfold _decode_generation_mismatch in Hd. decoded. checked a. split; [done|]. eexists. split; [reflexivity|]. same_object.
Qed.

Definition readiness_ok (r : Readiness) : Prop := Readiness_new r = Ok r /\ time_ok (checked_at r).

#[local] Instance readiness_contract : Contract room readiness_ok (fun r => payload (DReadiness r)) (_decode_readiness unicode_decimal str_repr).
Proof.
  split.
  - intros [b t r n] j _ [Hnew Ht] Hj. unfold payload in Hj. cbn [_encode_payload checked_at] in *. decoded. subst. timestamps.
    eexists. split; [reflexivity|]. unfold _decode_readiness, time_at. cbn. decoding. done.
  - intros m a Hd Hm. unfold _decode_readiness in Hd. decoded. destruct x; try done. decoded. subst. checked a. split; [done|].
    eexists. split; [unfold payload; cbn [_encode_payload checked_at]; encoding|]. same_object.
Qed.

Definition outcomes_ok (o : MutationOutcomes) : Prop := MutationOutcomes_new o = Ok o /\ Forall outcome_ok (outcomes o).

#[local] Instance outcomes_contract : Contract room outcomes_ok (fun o => payload (DOutcomes o)) (fun m => _decode_mutation_outcomes str_repr m lim).
Proof.
  split.
  - intros [i g os] j Hroom (Hnew & Hos) [= <-]. cbn [outcomes] in *.
    pose proof Hnew as Hnew'. unfold MutationOutcomes_new in Hnew'. cbn [outcomes_dataset_id outcomes] in Hnew'. decoded. pose proof Hroom as (_ & _ & Hcover & _).
    pose proof (opaque_id_covered _ _ _ Hroom ltac:(eassumption)). pose proof (items_decode _ _ _ _ "mutation_outcome" os _ Hroom Hos (map_result_pure _ os)).
    eexists. split; [reflexivity|]. unfold _decode_mutation_outcomes. decoding_by ltac:(within). done.
  - intros m a Hd Hm. unfold _decode_mutation_outcomes in Hd. decoded. parts. checked a. split; [unfold outcomes_ok; cbn; by split_and!|]. eexists. split; [reflexivity|]. same_object.
Qed.

Definition document_ok (d : SyncDocument) : Prop :=
  match d with
  | DSession d => session_ok d
  | DDataset d => dataset_ok d
  | DBootstrapRequest d => request_ok d
  | DBootstrapResponse d => response_ok d
  | DSnapshot d => snapshot_ok d
  | DDelta d => delta_ok d
  | DReset d => reset_ok d
  | DGenerationMismatch d => mismatch_ok d
  | DReadiness d => readiness_ok d
  | DOutcome d => outcome_ok d
  | DOutcomes d => outcomes_ok d
  end.

Abbreviation envelope_of k p := (obj [("protocol", JStr SYNC_PROTOCOL); ("kind", JStr k); ("payload", p)]%py).

Lemma bounded_decode d k p : room -> document_ok d -> _encode_payload d = Ok (k, p) ->
  _decode_bounded_document unicode_decimal str_repr (envelope_of k p) lim = Ok d.
Proof.
  intros Hroom Hok He. unfold _decode_bounded_document.
  eapply rbind_intro; [by apply object_ok|]. decoding_by ltac:(refine (proj2 (reject_if_ok _ _ tt) _); reflexivity).
  assert (forall A ok to_json decode (wrap : A -> SyncDocument) a, Contract room ok to_json decode -> ok a -> to_json a = Ok p ->
    exists m, p = obj m /\ decoded wrap (decode m) = Ok (wrap a)) as Hpart.
  { intros A ok to_json decode wrap a ? Ha Hp. destruct (contract_decode a p Hroom Ha Hp) as (m & -> & Hm). exists m. unfold decoded. by rewrite Hm. }
  assert (forall d', document_ok d' -> _encode_payload d' = Ok (k, p) -> payload d' = Ok p) as Hpayload by (intros d' _ Hd'; unfold payload; by rewrite Hd').
  specialize (Hpayload d Hok He).
  destruct d; cbn in Hok; unfold _encode_payload in He; decoded; simplify_eq;
    (edestruct Hpart as (m & Hm & Hd); [typeclasses eauto|exact Hok|first [eassumption | reflexivity]|]; rewrite Hm in *;
     eapply rbind_intro; [apply object_at_ok; reflexivity|]; cbv beta; repeat rewrite bool_decide_false by done;
     rewrite bool_decide_true by done; exact Hd).
Qed.

(** The kind of a document. *)
Definition kind_of (d : SyncDocument) : pystr :=
  match d with
  | DSession _ => "session" | DDataset _ => "dataset" | DBootstrapRequest _ => "bootstrap_request"
  | DBootstrapResponse _ => "bootstrap_response" | DSnapshot _ => "snapshot" | DDelta _ => "delta"
  | DReset _ => "reset_required" | DGenerationMismatch _ => "generation_mismatch" | DReadiness _ => "readiness"
  | DOutcome _ => "mutation_outcome" | DOutcomes _ => "mutation_outcomes"
  end.

Lemma payload_kind d j : payload d = Ok j -> _encode_payload d = Ok (kind_of d, j).
Proof.
  unfold payload. intros ([k j'] & He & [= <-])%rbind_ok. rewrite He. destruct d; unfold _encode_payload in He; decoded; by simplify_eq.
Qed.

(** An object with an envelope's members is the envelope of what it holds. *)
Lemma same_envelope m k p j : _fields str_repr m ["protocol"; "kind"; "payload"]%py "document" = Ok tt -> distinct (obj m) ->
  d_get "protocol"%py m = Some (JStr SYNC_PROTOCOL) -> d_get "kind"%py m = Some (JStr k) -> d_get "payload"%py m = Some p -> same p j ->
  same (obj m) (envelope_of k j).
Proof. intros. same_object. Qed.

Ltac contract := first [exact session_contract | exact dataset_contract | exact request_contract | exact response_contract | exact snapshot_contract
  | exact delta_contract | exact reset_contract | exact mismatch_contract | exact readiness_contract | exact outcome_contract | exact outcomes_contract].

Lemma bounded_encode v d : _decode_bounded_document unicode_decimal str_repr v lim = Ok d -> distinct v ->
  document_ok d /\ exists k j, _encode_payload d = Ok (k, j) /\ same v (envelope_of k j).
Proof.
  intros Hd Hv. unfold _decode_bounded_document in Hd. apply rbind_ok in Hd as (m & ->%object_ok & Hd). decoded.
  apply negb_false_iff, bool_decide_eq_true in H1 as ->.
  assert (forall A ok to_json decode (wrap : A -> SyncDocument), Contract room ok to_json decode ->
    (forall a, ok a -> document_ok (wrap a)) -> (forall a j, to_json a = Ok j -> payload (wrap a) = Ok j) ->
    decoded wrap (decode x1) = Ok d -> x0 = kind_of d -> document_ok d /\ exists k j, _encode_payload d = Ok (k, j) /\ same (obj m) (envelope_of k j)) as Hpart.
  { intros A ok to_json decode wrap ? Hok Hjson Hw ->. unfold decoded in Hw. apply rbind_ok in Hw as (a & Ha & [= <-]).
    destruct (contract_encode x1 a Ha (distinct_get _ _ _ Hv H3)) as (Ha' & j & Hj & Hs). split; [by apply Hok|].
    exists (kind_of (wrap a)), j. split; [by apply payload_kind, Hjson|]. by eapply same_envelope. }
  do 11 (case_bool_decide; [subst;
    match goal with H : decoded ?w ?r = Ok d |- _ => let f := eval pattern x1 in r in
      match f with ?dec _ => apply (Hpart _ _ _ dec w ltac:(contract)); [done| |exact H|] end end;
    [unfold payload, _encode_payload; intros a j Hj; first [exact Hj | by rewrite Hj]
    |unfold decoded in *; decoded; by subst]|]).
  done.
Qed.
End Contracts.
