(* ===== verification/ContractRoundTrip.v ===== *)
(** * The sync protocol's documents: encoding and decoding are inverse

    The bounds of a document do not depend on the order of its members. With that, a document
    is read back from its JSON value, and whatever is accepted is the JSON value of the
    document it is read as. *)
From Stdlib Require Import ZArith Lia SpecFloat Permutation.
From stdpp Require Import base list gmap.
From S2P Require Import Prelude Core Wire Calendar Messages MessageRoundTrip Contracts ContractDocuments.

(** ** Equal values have equal bounds *)

Lemma json_ok_list s n l : json_ok s n (JList l) <-> 0 <= n /\ Forall (json_ok s (n - 1)) l.
Proof. cbn [json_ok]. by rewrite foldr_and. Qed.

Lemma json_ok_obj s n m : json_ok s n (obj m) <-> 0 <= n /\ Forall (fun p => str_len p.1 <= s /\ json_ok s (n - 1) p.2) m.
Proof.
  unfold obj. cbn [json_ok].
  rewrite (foldr_and (fun kv => match fst kv with KeyStr t => str_len t <= s /\ json_ok s (n - 1) (snd kv) | KeyOther => False end)), Forall_map.
  done.
Qed.

Lemma same_json_ok v v' : same v v' -> forall s n, json_ok s n v -> json_ok s n v'.
Proof.
  induction 1 as [v|l l' Hl|m m' l Hp Hl] using same_nested_ind; intros s n; [done| |].
  - rewrite !json_ok_list. intros [Hn Hok]. split; [done|]. induction Hl as [|x y l l' Hx _ IH]; [done|].
    apply Forall_cons in Hok as [Hok1 Hok2]. constructor; [by apply Hx|by apply IH].
  - rewrite !json_ok_obj. intros [Hn Hok]. split; [done|]. rewrite Hp in Hok. clear Hp.
    induction Hl as [|p q m' l [Hk Hx] _ IH]; [done|]. apply Forall_cons in Hok as [[Hok1 Hok2] Hok3].
    constructor; [rewrite <- Hk; auto|by apply IH].
Qed.

Definition total {A} (f : A -> Z) (l : list A) : Z := foldr (fun x n => f x + n) 0 l.

Lemma total_perm {A} (f : A -> Z) l l' : l ≡ₚ l' -> total f l = total f l'.
Proof. induction 1; unfold total in *; cbn; lia. Qed.

Lemma size_obj m : json_size (obj m) = 1 + total (fun p => json_size p.2) m.
Proof. cbn. f_equal. unfold total. induction m as [|p m IH]; cbn; [done|]. by rewrite IH. Qed.

Lemma same_size v v' : same v v' -> json_size v = json_size v'.
Proof.
  induction 1 as [v|l l' Hl|m m' l Hp Hl] using same_nested_ind; [done| |].
  - cbn. f_equal. induction Hl as [|x y l l' Hx _ IH]; cbn; lia.
  - rewrite !size_obj, (total_perm _ _ _ Hp). f_equal. unfold total. clear Hp. induction Hl as [|p q m' l [_ Hx] _ IH]; cbn; lia.
Qed.

Lemma long_obj m : has_long_integer (obj m) = existsb (fun p => has_long_integer p.2) m.
Proof. cbn. induction m as [|p m IH]; cbn; [done|]. by rewrite IH. Qed.

Lemma existsb_perm {A} (f : A -> bool) l l' : l ≡ₚ l' -> existsb f l = existsb f l'.
Proof. induction 1; cbn; try congruence. by rewrite !orb_assoc, (orb_comm (f _)). Qed.

Lemma same_long v v' : same v v' -> has_long_integer v = has_long_integer v'.
Proof.
  induction 1 as [v|l l' Hl|m m' l Hp Hl] using same_nested_ind; [done| |].
  - cbn. induction Hl as [|x y l l' Hx _ IH]; cbn; congruence.
  - rewrite !long_obj, (existsb_perm _ _ _ Hp). clear Hp. induction Hl as [|p q m' l [_ Hx] _ IH]; cbn; congruence.
Qed.

(** ** Equal values have the same text, in another order *)

Lemma concat_perm {A} (l l' : list (list A)) : l ≡ₚ l' -> concat l ≡ₚ concat l'.
Proof. induction 1; cbn; [done|by f_equiv|by rewrite !app_assoc, (Permutation_app_comm x y)|by etransitivity]. Qed.

Lemma concat_perms {A} (l l' : list (list A)) : Forall2 Permutation l l' -> concat l ≡ₚ concat l'.
Proof. induction 1; cbn; [done|by f_equiv]. Qed.

Lemma join_codepoints sep ws : codepoints (str_join sep ws) ≡ₚ concat (map codepoints ws) ++ concat (replicate (length ws - 1) (codepoints sep)).
Proof.
  induction ws as [|w [|w' ws] IH]; [done|by cbn; rewrite !app_nil_r|].
  change (str_join sep (w :: w' :: ws)) with (str_app w (str_app sep (str_join sep (w' :: ws)))). cbn [str_app codepoints]. rewrite IH.
  cbn [length map concat]. rewrite !Nat.sub_succ, !Nat.sub_0_r. cbn [replicate concat]. rewrite <- !app_assoc. f_equiv.
  rewrite (Permutation_app_comm (codepoints sep)), <- !app_assoc. do 2 f_equiv. apply Permutation_app_comm.
Qed.

(** The text of a value up to the order of its characters. *)
Definition shuffled (a b : pystr) : Prop := codepoints a ≡ₚ codepoints b.

Lemma join_shuffled sep ws ws1 ws' : ws ≡ₚ ws1 -> Forall2 shuffled ws1 ws' -> shuffled (str_join sep ws) (str_join sep ws').
Proof.
  intros Hp Hs. unfold shuffled. rewrite !join_codepoints. f_equiv.
  - rewrite (concat_perm (map codepoints ws) (map codepoints ws1)) by (by apply Permutation_map). apply concat_perms.
    clear Hp. induction Hs; cbn; [apply List.Forall2_nil|by apply List.Forall2_cons].
  - apply Permutation_length in Hp. apply Forall2_length in Hs. by rewrite Hp, Hs.
Qed.

Section Text.
Context (float_repr : spec_float -> pystr).

Definition member_text (p : pystr * json) : pystr := str_app (json_quote p.1) (str_app ":" (dumps_text float_repr p.2)).

Lemma dumps_obj m : dumps_text float_repr (obj m) = str_app "{" (str_app (str_join "," (map member_text m)) "}").
Proof. cbn [dumps_text obj]. by rewrite map_map. Qed.

Lemma bracket_shuffled a b x y : shuffled x y -> shuffled (str_app a (str_app x b)) (str_app a (str_app y b)).
Proof. unfold shuffled. cbn. intros ->. done. Qed.

Lemma same_text v v' : same v v' -> shuffled (dumps_text float_repr v) (dumps_text float_repr v').
Proof.
  induction 1 as [v|l l' Hl|m m' l Hp Hl] using same_nested_ind; [unfold shuffled; reflexivity| |].
  - cbn [dumps_text]. apply bracket_shuffled. eapply join_shuffled; [reflexivity|]. induction Hl; cbn; [apply List.Forall2_nil|by apply List.Forall2_cons].
  - rewrite !dumps_obj. apply bracket_shuffled. eapply join_shuffled; [by apply Permutation_map|]. clear Hp.
    induction Hl as [|[k x] [k' y] m' l [Hk Hx] _ IH]; cbn; constructor; [|done]. cbn in Hk, Hx. subst. unfold member_text, shuffled in *. cbn. by rewrite Hx.
Qed.

Lemma shuffled_encode a b bytes : shuffled a b -> str_encode a = Ok bytes -> exists bytes', str_encode b = Ok bytes' /\ length bytes' = length bytes.
Proof.
  unfold str_encode, shuffled. intros Hp. destruct (mapM utf8_encode_cp (codepoints a)) as [l|] eqn:Hm; [|done]. intros [= <-].
  apply mapM_Some in Hm. destruct (Permutation_Forall2 Hp Hm) as (l' & Hl & Hm'). apply mapM_Some in Hm' as ->. exists (concat l'). split; [done|].
  by rewrite Hl.
Qed.

(** The bounds of a document do not depend on the order of its members. *)
Lemma same_bounds v v' lim : same v v' -> _document_bounds float_repr v lim = Ok tt -> _document_bounds float_repr v' lim = Ok tt.
Proof.
  intros Hs. unfold _document_bounds, json_dumps. destruct (fst _) as [l|]; cbn [rbind]; [|done]. rewrite (same_long _ _ Hs).
  intros ([] & Hv & (text & Ht & (bytes & Hb & Hmax)%rbind_ok)%rbind_ok)%rbind_ok. apply validate_json_accepts in Hv as [Hok Hsize].
  rewrite (proj2 (validate_json_accepts l v')). 2: { split; [by eapply same_json_ok|]. by rewrite <- (same_size _ _ Hs). }
  cbn [rbind]. destruct (has_long_integer v'); [done|]. injection Ht as <-. cbn [rbind].
  destruct (shuffled_encode _ _ _ (same_text _ _ Hs) Hb) as (bytes' & -> & Hlen). cbn [rbind]. by rewrite Hlen.
Qed.
End Text.

(** ** The theorems *)

Section Theorems.
Context (unicode_decimal : N -> bool) (str_repr : pystr -> pystr) (float_repr : spec_float -> pystr).

(** C14. A document that its constructors accept is read back unchanged from the JSON value it
    is encoded to, under any limits on counts and identifiers that are no smaller than those of
    the constructors. The encoder applies the limit on the size of documents, the decoder all of
    them: one with smaller limits refuses what it is meant to (example [stricter_decoder]). *)
Theorem contract_round_trip d limits v : (forall c, digit c = true -> unicode_decimal c = true) ->
  covers (selected_limits limits) -> document_ok d ->
  encode_sync_document float_repr d limits = Ok v -> decode_sync_document unicode_decimal str_repr float_repr v limits = Ok d.
Proof.
  intros Hdecimal Hroom Hok ([k p] & He & ([] & Hb & [= <-])%rbind_ok)%rbind_ok. unfold decode_sync_document. cbn [fst snd] in *. rewrite Hb. cbn [rbind fst snd].
  by apply bounded_decode.
Qed.

(** The decoder is closed: whatever JSON value it accepts, under whatever limits, the
    document it returns satisfies the checks of every constructor, and encodes to the accepted
    value again, up to the order of the members of its objects. So no member is ignored,
    defaulted or coerced. *)
Theorem contract_closed d limits v : (forall c, digit c = true -> unicode_decimal c = true) -> distinct v ->
  decode_sync_document unicode_decimal str_repr float_repr v limits = Ok d ->
  document_ok d /\ exists v', encode_sync_document float_repr d limits = Ok v' /\ same v v'.
Proof.
  intros Hdecimal Hv ([] & Hb & Hd)%rbind_ok. destruct (bounded_encode unicode_decimal Hdecimal str_repr _ _ _ Hd Hv) as (Hok & k & j & He & Hs).
  split; [done|]. eexists. split; [|exact Hs]. unfold encode_sync_document. rewrite He. cbn [rbind fst snd].
  by rewrite (same_bounds _ _ _ _ Hs Hb).
Qed.
End Theorems.

(** ** A concrete page *)

Definition demo_page : SyncDocument :=
  DDelta (mkDeltaPage "orders" 3 [mkUpsert "order-1" 7 (JDict [(KeyStr "total", JInt 1250); (KeyStr "tags", JList [JStr "new"])])]
    [mkTombstone "order-2" 4 (utc 1704067200123000)] None
    (mkIntegrity "sha-256" (PyStr (replicate 64 97%N)) 2)).

Definition demo_decode (v : json) : result exn SyncDocument := decode_sync_document digit (fun s => s) (fun _ => "0.0"%py) v None.

(** The page as it may arrive: the members of the envelope in another order. *)
Definition demo_value : json :=
  match encode_sync_document (fun _ => "0.0"%py) demo_page None with
  | Ok (JDict [a; b; c]) => JDict [b; c; a]
  | _ => JNull
  end.

(** The page has two items: a decoder that takes one refuses it. *)
Definition one_item : SyncLimits := mkSyncLimits 1048576 128 1 1000 255 32.
Definition encoded_page : json := Eval vm_compute in
  match encode_sync_document (fun _ => "0.0"%py) demo_page (Some one_item) with Ok v => v | Raise _ => JNull end.
Example stricter_decoder :
  encode_sync_document (fun _ => "0.0"%py) demo_page (Some one_item) = Ok encoded_page /\
  decode_sync_document digit (fun s => s) (fun _ => "0.0"%py) encoded_page (Some one_item) = Raise (ValueError "delta items exceed max_items_per_page").
Proof. split; vm_compute; reflexivity. Qed.

Lemma contract_round_trip_witness : exists v, encode_sync_document (fun _ => "0.0"%py) demo_page None = Ok v /\ demo_decode v = Ok demo_page.
Proof.
  eexists. split; [vm_compute; reflexivity|].
  apply (contract_round_trip digit (fun s => s) (fun _ => "0.0"%py) demo_page None).
  - done.
  - repeat split; vm_compute; done.
  - repeat first [split | apply List.Forall_cons | apply List.Forall_nil]; vm_compute; done.
  - vm_compute. reflexivity.
Defined.

Lemma contract_closed_witness : document_ok demo_page /\ exists v', encode_sync_document (fun _ => "0.0"%py) demo_page None = Ok v' /\ same demo_value v'.
Proof.
  apply (contract_closed digit (fun s => s) (fun _ => "0.0"%py) demo_page None demo_value).
  - done.
  - vm_compute. repeat first [exact I | apply conj | refine (bool_decide_unpack _ _); vm_compute; exact I].
  - vm_compute. reflexivity.
Defined.
