(* ===== verification/SyncWire.v ===== *)
(** * Sync pages on the wire ([sync/wire.py])

    The integrity of snapshot and delta pages - the digest of the envelope without its
    integrity member -, the negotiation of the integrity policy, and the decoding of sync
    documents from bytes. A policy is an object of the consumer: reading its capability and
    verifying a document are effects on the consumer's world. *)
From Stdlib Require Import ZArith Lia SpecFloat.
From stdpp Require Import base list gmap.
From S2P Require Import Prelude Core Wire Calendar Messages Contracts.

Definition WireIntegrityError : exn := OtherError "WireIntegrityError" "integrity".

Definition EXACT_JSON_INTEGRITY : pystr := "integrity-sha-256-exact-json-v1".
Definition _INTEGRITY_PREFIX : list N :=
  codepoints SYNC_PROTOCOL ++ [0%N] ++ codepoints EXACT_JSON_INTEGRITY ++ [0%N].

(** ** Pages *)

Definition _object (v : exact) : result exn (dict pystr exact) :=
  match v with XMap items => Ok items | _ => Raise WireShapeError end.

(** [_object(mapping.get(name))]. *)
Definition object_of (v : option exact) : result exn (dict pystr exact) :=
  match v with Some v => _object v | None => Raise WireShapeError end.

(** [mapping.get(name) == s]. *)
Definition is_str (v : option exact) (s : pystr) : bool :=
  match v with Some (XStr t) => bool_decide (t = s) | _ => false end.

Definition page_kind (envelope : dict pystr exact) : bool :=
  is_str (d_get "kind"%py envelope) "snapshot" || is_str (d_get "kind"%py envelope) "delta".

Definition tuple_of (v : option exact) : result exn (list exact) :=
  match v with Some (XTuple items) => Ok items | _ => Raise WireShapeError end.

Definition _page (document : WireDocument) : result exn (dict pystr exact * dict pystr exact * Z) :=
  let? envelope := _object (value document) in
  reject_if (negb (is_str (d_get "protocol"%py envelope) SYNC_PROTOCOL) || negb (page_kind envelope)) WireShapeError ??;
  let? payload := object_of (d_get "payload"%py envelope) in
  let? upserts := tuple_of (d_get "upserts"%py payload) in
  let? tombstones := tuple_of (Some (default (XTuple []) (d_get "tombstones"%py payload))) in
  Ok (envelope, payload, size upserts + size tombstones).

(** [_shape_value]. *)
Fixpoint _shape_value (v : exact) : result exn json :=
  match v with
  | XNum n => let? z := to_int n in Ok (JInt z)
  | XTuple items => let? l := map_result _shape_value items in Ok (JList l)
  | XMap items =>
      let? l := map_result (fun kv => let? x := _shape_value (snd kv) in Ok (KeyStr (fst kv), x)) items in
      Ok (JDict l)
  | XNull => Ok JNull
  | XBool b => Ok (JBool b)
  | XStr s => Ok (JStr s)
  end.

Section SyncWire.
Variable unicode_decimal : N -> bool.
Variable str_repr : pystr -> pystr.
Variable float_of : pystr -> spec_float.
Variable decimal_exact : pystr -> spec_float -> bool.
Variable sha256_hexdigest : list N -> pystr.

Definition bounded_document (v : json) (limits : SyncLimits) : result exn SyncDocument :=
  _decode_bounded_document unicode_decimal str_repr v limits.

(** An upsert whose value is replaced by [None], once that value is a document by itself. *)
Definition check_upsert (item : exact) : result exn unit :=
  match item with
  | XMap fields =>
      match d_get "value"%py fields with
      | Some v => let? _ := WireDocument_new v Limits_default in Ok tt
      | None => Ok tt
      end
  | _ => Ok tt
  end.
Definition project_upsert (item : exact) : exact :=
  match item with
  | XMap fields => if d_mem "value"%py fields then XMap (d_set "value"%py XNull fields) else item
  | _ => item
  end.

Definition project (envelope : dict pystr exact) : result exn (dict pystr exact) :=
  match d_get "payload"%py envelope with
  | Some (XMap payload) =>
      if page_kind envelope
      then
        match d_get "upserts"%py payload with
        | Some (XTuple upserts) =>
            check_each check_upsert upserts ??;
            Ok (d_set "payload"%py (XMap (d_set "upserts"%py (XTuple (map project_upsert upserts)) payload)) envelope)
        | _ => Ok (d_set "payload"%py (XMap payload) envelope)
        end
      else Ok envelope
  | _ => Ok envelope
  end.

(** [except (ValueError, TypeError, OverflowError)]. *)
Definition shape_failure (e : exn) : bool :=
  value_error e || match e with OverflowError _ => true | _ => bool_decide (exn_name e = "TypeError"%py) end.

Definition _validate_shape (document : WireDocument) (limits : SyncLimits) : result exn unit :=
  let? envelope := _object (value document) in
  match d_get "protocol"%py envelope with
  | Some (XStr protocol) =>
      reject_if (negb (bool_decide (protocol = SYNC_PROTOCOL))) WireProfileError ??;
      let? projected := project envelope in
      match (let? shape := _shape_value (XMap projected) in bounded_document shape limits) with
      | Ok _ => Ok tt
      | Raise e => Raise (if shape_failure e then WireShapeError else e)
      end
  | _ => Raise WireShapeError
  end.

(** ** The digest of a page *)

Definition without_integrity (payload : dict pystr exact) : dict pystr exact := filter (fun p => p.1 <> "integrity"%py) payload.

(** The envelope the digest is taken of. *)
Definition preimage (envelope payload : dict pystr exact) : exact :=
  XMap (d_set "payload"%py (XMap (without_integrity payload)) envelope).

Definition page_digest (document : WireDocument) : result exn pystr :=
  let? page := _page document in
  let '(envelope, payload, _) := page in
  let? d := WireDocument_new (preimage envelope payload) (limits document) in
  let? encoded := encode d in
  Ok (sha256_hexdigest (_INTEGRITY_PREFIX ++ encoded)).

Definition seal (document : WireDocument) : result exn WireDocument :=
  let? page := _page document in
  let '(envelope, payload, count) := page in
  let? digest := page_digest document in
  let? n := ExactNumber_new (str_of_Z count) in
  let integrity := XMap [("algorithm", XStr "sha-256"); ("digest", XStr digest); ("item_count", XNum n)]%py in
  let? result := WireDocument_new (XMap (d_set "payload"%py (XMap (d_set "integrity"%py integrity payload)) envelope)) (limits document) in
  let? l := SyncLimits_new (mkSyncLimits (max_body_bytes (limits document)) (max_datasets DEFAULT_SYNC_LIMITS)
    (max_items_per_page DEFAULT_SYNC_LIMITS) (max_mutations DEFAULT_SYNC_LIMITS) (max_opaque_id_bytes DEFAULT_SYNC_LIMITS)
    (max_capabilities DEFAULT_SYNC_LIMITS)) in
  _validate_shape result l ??;
  Ok result.

(** [set(integrity) == {...}]. *)
Definition integrity_fields : list pystr := ["algorithm"; "digest"; "item_count"]%py.
Definition has_fields (m : dict pystr exact) (expected : list pystr) : bool :=
  forallb (fun k => bool_decide (k ∈ m.*1)) expected && forallb (fun k => bool_decide (k ∈ expected)) m.*1.

(** [item_count.to_int() == count], where a number that is no integer does not match. *)
Definition count_matches (v : option exact) (count : Z) : result exn bool :=
  match v with
  | Some (XNum n) =>
      match to_int n with
      | Ok z => Ok (z =? count)
      | Raise e => if decide (e = WirePrecisionError) then Ok false else Raise e
      end
  | _ => Ok false
  end.

Definition verify_integrity (document : WireDocument) : result exn unit :=
  let? page := _page document in
  let '(_, payload, count) := page in
  match d_get "integrity"%py payload with
  | Some (XMap integrity) =>
      reject_if (negb (has_fields integrity integrity_fields)) WireIntegrityError ??;
      let? matching := count_matches (d_get "item_count"%py integrity) count in
      match d_get "digest"%py integrity with
      | Some (XStr digest) =>
          reject_if (negb (is_str (d_get "algorithm"%py integrity) "sha-256") || negb (is_sha256_hex digest) || negb matching)
            WireIntegrityError ??;
          let? expected := page_digest document in
          reject_if (negb (bool_decide (digest = expected))) WireIntegrityError
      | _ => Raise WireIntegrityError
      end
  | _ => Raise WireIntegrityError
  end.

(** ** Integrity policies *)

Section Policies.
Context {W : Type}.

(** [SyncIntegrityPolicy]. *)
Record policy := mkPolicy { capability : M exn W pystr; verify : WireDocument -> M exn W unit }.

(** [ExactJsonSha256Integrity]. *)
Definition ExactJsonSha256Integrity : policy :=
  mkPolicy (ret EXACT_JSON_INTEGRITY) (fun document => lift (verify_integrity document)).

Record selection := mkSelection { selected_policy : option policy; selected_capability : option pystr }.

Definition SyncIntegritySelection_new (p : option policy) : M exn W selection :=
  let! c := match p with None => ret None | Some p => let! c := capability p in ret (Some c) end in
  raise_if (match p, c with Some _, Some c => str_empty c | _, _ => false end) WireProfileError ;;;
  ret (mkSelection p c).

Definition acknowledge (s : selection) (response_header : option pystr) : M exn W unit :=
  let! current := match selected_policy s with None => ret None | Some p => let! c := capability p in ret (Some c) end in
  raise_if (negb (bool_decide (response_header = selected_capability s)) || negb (bool_decide (current = selected_capability s)))
    WireIntegrityError.

(** One iteration of the loop over [policies]; the capability is read for each use. *)
Definition register_policy (registry : dict pystr policy) (p : policy) : M exn W (dict pystr policy) :=
  let! c := capability p in
  raise_if (str_empty c) WireProfileError ;;;
  let! c := capability p in
  raise_if (d_mem c registry) WireProfileError ;;;
  let! c := capability p in
  ret (d_set c p registry).

(** [name.startswith("integrity-") and name != "integrity-sha-256"]. *)
Definition is_integrity (name : pystr) : bool :=
  bool_decide (take 10 (codepoints name) = codepoints "integrity-"%py) && negb (bool_decide (name = "integrity-sha-256"%py)).

Definition select_sync_integrity (requested : list pystr) (acknowledgement : option pystr) (policies : list policy) : M exn W selection :=
  let! registry := for_each policies [] register_policy in
  let requested_integrity := List.filter is_integrity requested in
  raise_if (existsb (fun name => negb (d_mem name registry)) requested_integrity) WireProfileError ;;;
  let! s := match requested_integrity with
    | [] => SyncIntegritySelection_new None
    | [name] => SyncIntegritySelection_new (d_get name registry)
    | _ => raise WireProfileError
    end in
  acknowledge s acknowledgement ;;;
  ret s.

(** ** Decoding *)

Record SyncWireDocument := mkSyncWireDocument { wire_document : WireDocument; wire_limits : SyncLimits }.

Definition SyncWireDocument_new (d : WireDocument) (limits : SyncLimits) : result exn SyncWireDocument :=
  _validate_shape d limits ??;
  Ok (mkSyncWireDocument d limits).

Definition sync_encode (d : SyncWireDocument) : result exn (list N) := encode (wire_document d).

Definition to_contract (d : SyncWireDocument) : result exn SyncDocument :=
  let? v := to_json float_of decimal_exact (wire_document d) in
  bounded_document v (wire_limits d).

(** The limits of the wire document: those given or those of the sync limits, never more than
    the document may have. *)
Definition allocation (selected : SyncLimits) (given : option Limits) : M exn W Limits :=
  let! l := match given with
    | Some l => ret l
    | None => Limits_check (mkLimits (max_document_bytes selected) (max_json_depth Limits_default)
        (Z.max 10000 (max_items_per_page selected * 8)) (max_metadata_items Limits_default) (max_document_bytes selected))
    end in
  replace_body_bytes l (Z.min (max_body_bytes l) (max_document_bytes selected)).

Definition decode_sync_stream (chunks : list (list N)) (lim : option SyncLimits) (given : option Limits)
    (integrity : option selection) (acknowledgement : option pystr) : M exn W SyncWireDocument :=
  let selected := selected_limits lim in
  let! l := allocation selected given in
  let! s := match integrity with Some s => ret s | None => SyncIntegritySelection_new None end in
  acknowledge s acknowledgement ;;;
  let! document := lift (decode_wire_stream l chunks) in
  let! envelope := lift (_object (value document)) in
  match selected_policy s with
  | Some p => if page_kind envelope then verify p document else ret tt
  | None => ret tt
  end ;;;
  lift (SyncWireDocument_new document selected).

Definition decode_sync_raw (payload : list N) (lim : option SyncLimits) (given : option Limits)
    (integrity : option selection) (acknowledgement : option pystr) : M exn W SyncWireDocument :=
  decode_sync_stream [payload] lim given integrity acknowledgement.
End Policies.
End SyncWire.
