(* ===== verification/SyncWireIntegrity.v ===== *)
(** * Integrity of sync pages

    A sealed page passes the integrity check of whoever decodes its bytes; and the digest of a
    page that passes the check binds everything in the page but the integrity member. *)
From Stdlib Require Import ZArith Lia SpecFloat Permutation.
From stdpp Require Import base list gmap strings pretty sorting.
From S2P Require Import Prelude Core Wire WireText WireRoundTrip WireNumbers Calendar Messages MessageRoundTrip Contracts ContractDocuments SyncWire.

(** ** The text of a count *)

Definition bytes_of (s : String.string) : list N := Byte.to_N <$> String.list_byte_of_string s.

Lemma bytes_of_cons c s : bytes_of (String c s) = Byte.to_N (Ascii.byte_of_ascii c) :: bytes_of s.
Proof. done. Qed.

Lemma pretty_char_byte n : (n < 10)%N -> Byte.to_N (Ascii.byte_of_ascii (pretty_N_char n)) = (48 + n)%N.
Proof.
  intros Hn. assert (n ∈ [0; 1; 2; 3; 4; 5; 6; 7; 8; 9]%N) as Hin by (rewrite !elem_of_cons; lia).
  repeat (apply elem_of_cons in Hin as [->|Hin]; [done|]). by apply not_elem_of_nil in Hin.
Qed.

Lemma pretty_digits x : forall s, exists l, bytes_of (pretty_N_go x s) = l ++ bytes_of s /\ digits l /\ int_digits l = Z.of_N x /\
  (x <> 0%N -> exists c l', l = c :: l' /\ c <> 48%N).
Proof.
  induction (N.lt_wf_0 x) as [x _ IH]. intros s. destruct (decide (x = 0%N)) as [->|Hx].
  { exists []. rewrite pretty_N_go_0. split_and!; [done|constructor|done|done]. }
  rewrite pretty_N_go_step by lia. pose proof (N.div_mod x 10 ltac:(lia)) as Hdiv. pose proof (N.mod_lt x 10 ltac:(lia)) as Hmod.
  assert (x / 10 < x)%N as Hlt by (apply N.div_lt; lia). set (q := (x / 10)%N) in *. set (r := (x mod 10)%N) in *. clearbody q r.
  destruct (IH q Hlt (String (pretty_N_char r) s)) as (l & Hl & Hd & Hv & Hhead).
  rewrite bytes_of_cons, pretty_char_byte in Hl by done. exists (l ++ [(48 + r)%N]). rewrite Hl, <- app_assoc. split_and!; [done| | |].
  - apply Forall_app. split; [done|]. constructor; [|done]. unfold digit. rewrite andb_true_iff, !N.leb_le. lia.
  - rewrite int_digits_snoc, Hv. lia.
  - intros _. destruct (decide (q = 0%N)) as [Hz|Hz].
    + destruct l as [|c l]; [|].
      * exists (48 + r)%N, []. split; [done|]. lia.
      * exfalso. rewrite Hz, pretty_N_go_0, bytes_of_cons, pretty_char_byte in Hl by done. apply (f_equal length) in Hl. rewrite length_app in Hl. cbn in Hl. lia.
    + destruct (Hhead Hz) as (c & l' & -> & Hc). by exists c, (l' ++ [(48 + r)%N]).
Qed.

(** The text of an integer: its sign, and digits without needless zeros. *)
Lemma str_of_Z_digits n : exists c l, codepoints (str_of_Z n) = (if n <? 0 then [45%N] else []) ++ c :: l /\
  digits (c :: l) /\ int_digits (c :: l) = Z.abs n /\ (c = 48%N -> l = []).
Proof.
  destruct (decide (n = 0)) as [->|Hne]; [exists 48%N, []; split_and!; [done|by repeat constructor|done|done]|].
  destruct (pretty_digits (Z.to_N (Z.abs n)) ""%string) as (l & Hl & Hd & Hv & Hhead). destruct (Hhead ltac:(lia)) as (c & l' & -> & Hc).
  exists c, l'. rewrite app_nil_r in Hl. split_and!; [|done|lia|done]. rewrite <- Hl. unfold str_of_Z, pystr_of_bytes, bytes_of. cbn [codepoints].
  destruct n as [|p|p]; [done| |].
  - change (pretty (Z.pos p)) with (pretty (N.pos p)). unfold pretty, pretty_N. by rewrite decide_False.
  - change (pretty (Z.neg p)) with ("-" +:+ pretty (N.pos p))%string. unfold pretty, pretty_N. by rewrite decide_False.
Qed.

Lemma str_of_Z_number n : 0 <= n -> _INTEGER (str_of_Z n) = true /\ to_int (mkExactNumber (str_of_Z n)) = Ok n.
Proof.
  intros Hn. destruct (str_of_Z_digits n) as (c & l & Hs & Hd & Hv & Hz). rewrite (proj2 (Z.ltb_ge _ _)) in Hs by done. cbn [app] in Hs.
  pose proof Hd as [Hc Hl]%Forall_cons.
  assert (match_minus (c :: l) = c :: l) as Hminus by by apply match_minus_digit.
  assert (_INTEGER (str_of_Z n) = true) as Hint.
  { unfold _INTEGER. rewrite Hs, Hminus. destruct (decide (c = 48%N)) as [->|Hne]; [by rewrite (Hz eq_refl)|]. by rewrite match_int_all. }
  split; [done|]. unfold to_int. cbn [token]. rewrite Hint, Hs, Hminus. cbn [negb].
  rewrite bool_decide_false by (cbn; intros [= ->]; by unfold digit in Hc). rewrite chunks_value_digits by done. f_equal. lia.
Qed.

(** ** Mappings in key order *)

Section Sorted.
Context {V : Type}.
Implicit Types d : dict pystr V.
Abbreviation ordered := (StronglySorted (fun a b : pystr * V => key_leb str_compare fst a b = true)).

Lemma key_leb_antisym (a b : pystr * V) : key_leb str_compare fst a b = true -> key_leb str_compare fst b a = true -> a.1 = b.1.
Proof.
  unfold key_leb. rewrite (cmp_sym a.1 b.1). destruct (str_compare a.1 b.1) eqn:E; cbn; try done. intros _ _. by apply cmp_eq.
Qed.

(** Two orders of one dictionary that are both in key order are the same. *)
Lemma ordered_unique d d' : d_wf d -> ordered d -> ordered d' -> d ≡ₚ d' -> d = d'.
Proof.
  intros Hwf Hd Hd' Hp. eapply StronglySorted_unique_strong; [|exact Hd|exact Hd'|done].
  intros [k v] [k' v'] Hx Hy H1 H2. pose proof (key_leb_antisym _ _ H1 H2) as Hk. cbn in Hk. subst k'. rewrite <- Hp in Hy.
  apply (d_elem_get k v d Hwf) in Hx. apply (d_elem_get k v' d Hwf) in Hy. congruence.
Qed.

Lemma sorted_unique d d' : d_wf d -> d ≡ₚ d' -> sorted_by str_compare fst d = sorted_by str_compare fst d'.
Proof.
  intros Hwf Hp. apply ordered_unique; [|apply sorted_by_sorted, _..|by rewrite !sorted_by_perm]. unfold d_wf. by rewrite sorted_by_perm.
Qed.

Lemma ordered_filter (P : pystr * V -> Prop) `{!forall x, Decision (P x)} d : ordered d -> ordered (filter P d).
Proof.
  induction 1 as [|x d _ IH Hx]; [constructor|]. rewrite filter_cons. case_decide; [|done]. constructor; [done|].
  rewrite Forall_forall in *. intros y [_ Hy]%list_elem_of_filter. by apply Hx.
Qed.

Lemma wf_perm d d' : d_wf d -> d ≡ₚ d' -> d_wf d'.
Proof. unfold d_wf. by intros Hd <-. Qed.

Lemma filter_sorted (P : pystr * V -> Prop) `{!forall x, Decision (P x)} d : d_wf d ->
  filter P (sorted_by str_compare fst d) = sorted_by str_compare fst (filter P d).
Proof.
  intros Hwf. apply ordered_unique; [|apply ordered_filter, sorted_by_sorted, _|apply sorted_by_sorted, _|by rewrite !sorted_by_perm].
  unfold d_wf. apply (wf_perm d (sorted_by str_compare fst d)) in Hwf; [|symmetry; apply sorted_by_perm]. unfold d_wf in Hwf.
  eapply (sublist_NoDup _ (sorted_by str_compare fst d).*1); [done|]. apply fmap_sublist, sublist_filter.
Qed.

Lemma d_get_sorted k d : d_wf d -> d_get k (sorted_by str_compare fst d) = d_get k d.
Proof. intros Hwf. symmetry. by apply d_get_perm, Permutation_sym, sorted_by_perm. Qed.

Lemma d_set_perm k v d d' : d_wf d -> d ≡ₚ d' -> d_set k v d ≡ₚ d_set k v d'.
Proof.
  intros Hwf Hp. pose proof (wf_perm _ _ Hwf Hp) as Hwf'.
  assert (forall d, d_wf d -> NoDup (d_set k v d)) as Hnd.
  { intros d0 H0. eapply (NoDup_fmap_1 fst). by apply d_set_wf. }
  assert (forall x d, d_wf d -> x ∈ d_set k v d <-> d_get x.1 (d_set k v d) = Some x.2) as Hin.
  { intros [a b] d0 H0. split; [by apply d_elem_get, d_set_wf|apply d_get_elem]. }
  apply NoDup_Permutation; [by apply Hnd..|]. intros x. rewrite !Hin by done. rewrite !d_get_set. by rewrite (d_get_perm d d').
Qed.

(** The order of a dictionary is that of its keys. *)
Lemma d_set_ordered k v d : is_Some (d_get k d) -> ordered d -> ordered (d_set k v d).
Proof.
  intros Hk Hd. induction Hd as [|[a b] d Hd IH Hx]; [by apply is_Some_None in Hk|]. cbn in *. destruct (decide (a = k)) as [->|Hne].
  - constructor; [done|]. exact Hx.
  - specialize (IH Hk). constructor; [done|]. apply d_set_forall; [|done]. apply d_get_key, list_elem_of_fmap in Hk as ([a' b'] & -> & Hin).
    rewrite Forall_forall in Hx. apply (Hx _ Hin).
Qed.

Lemma d_set_sorted k v d : d_wf d -> is_Some (d_get k d) ->
  d_set k v (sorted_by str_compare fst d) = sorted_by str_compare fst (d_set k v d).
Proof.
  intros Hwf Hk. pose proof (wf_perm d _ Hwf (Permutation_sym (sorted_by_perm str_compare fst d))) as Hwf'. apply ordered_unique.
  - by apply d_set_wf.
  - apply d_set_ordered; [by rewrite d_get_sorted|]. apply sorted_by_sorted, _.
  - apply sorted_by_sorted, _.
  - rewrite (sorted_by_perm str_compare fst (d_set k v d)). apply d_set_perm; [done|]. apply sorted_by_perm.
Qed.
End Sorted.

(** ** Sorted documents *)

Definition members (m : dict pystr exact) : dict pystr exact := map sort_member m.

Lemma members_get k m : d_get k (members m) = sort_keys <$> d_get k m.
Proof. induction m as [|[a b] m IH]; [done|]. cbn. by case_decide. Qed.

Lemma members_keys m : (members m).*1 = m.*1.
Proof. induction m as [|[a b] m IH]; [done|]. cbn. by f_equal. Qed.

Lemma members_wf m : d_wf m -> d_wf (members m).
Proof. unfold d_wf. by rewrite members_keys. Qed.

Lemma members_set k v m : members (d_set k v m) = d_set k (sort_keys v) (members m).
Proof. unfold members. induction m as [|[a b] m IH]; [done|]. cbn. case_decide; cbn; [done|]. by rewrite IH. Qed.

Lemma members_filter m : without_integrity (members m) = members (without_integrity m).
Proof. unfold without_integrity, members. induction m as [|[a b] m IH]; [done|]. cbn [map]. rewrite !filter_cons. cbn [sort_member fst snd]. case_decide; cbn [map]; by rewrite IH. Qed.

(** A mapping with its members, and the members of these, in key order. *)
Definition in_order (m : dict pystr exact) : dict pystr exact := sorted_by str_compare fst (members m).

Lemma sort_keys_map m : sort_keys (XMap m) = XMap (in_order m).
Proof. done. Qed.

Lemma in_order_get k m : d_wf m -> d_get k (in_order m) = sort_keys <$> d_get k m.
Proof. intros Hm. unfold in_order. rewrite d_get_sorted by by apply members_wf. apply members_get. Qed.

Lemma in_order_set k v m : d_wf m -> is_Some (d_get k m) -> in_order (d_set k v m) = d_set k (sort_keys v) (in_order m).
Proof.
  intros Hm Hk. unfold in_order. rewrite d_set_sorted; [by rewrite members_set|by apply members_wf|]. rewrite members_get. by apply fmap_is_Some.
Qed.

Lemma in_order_without m : d_wf m -> in_order (without_integrity m) = without_integrity (in_order m).
Proof. intros Hm. unfold in_order, without_integrity at 2. rewrite filter_sorted by by apply members_wf. f_equal. symmetry. apply members_filter. Qed.

Lemma preimage_in_order e p : d_wf e -> d_wf p -> is_Some (d_get "payload"%py e) -> preimage (in_order e) (in_order p) = sort_keys (preimage e p).
Proof.
  intros He Hp Hk. unfold preimage. rewrite sort_keys_map, in_order_set by done. by rewrite sort_keys_map, in_order_without.
Qed.

(** The sorted value of a document is a document with the same encoding. *)
Lemma sorted_document v lim d : WireDocument_new v lim = Ok d ->
  d = mkDocument v lim /\ WireDocument_new (sort_keys v) lim = Ok (mkDocument (sort_keys v) lim).
Proof.
  unfold WireDocument_new. intros (n & Hf & (b & He & [= <-])%rbind_ok)%rbind_ok. split; [done|]. apply freeze_ok in Hf as (Hf & -> & Hn).
  rewrite (proj2 (freeze_ok lim (sort_keys v) 0 0 (0 + exact_size v))). { cbn [rbind]. by rewrite encode_sort_keys, He. }
  rewrite exact_size_sort_keys. split_and!; [by apply fits_sort_keys|done|done].
Qed.

(** ** Sealing and verifying *)

Section Integrity.
Context (unicode_decimal : N -> bool) (str_repr : pystr -> pystr) (sha256_hexdigest : list N -> pystr).

Lemma is_str_ok v s : is_str v s = true <-> v = Some (XStr s).
Proof.
  unfold is_str. destruct v as [[]|]; try (split; congruence). rewrite bool_decide_eq_true. split; congruence.
Qed.

Definition page_of (v : exact) (e p : dict pystr exact) (count : Z) : Prop :=
  v = XMap e /\ d_get "protocol"%py e = Some (XStr SYNC_PROTOCOL) /\ page_kind e = true /\ d_get "payload"%py e = Some (XMap p) /\
  exists us ts, d_get "upserts"%py p = Some (XTuple us) /\ default (XTuple []) (d_get "tombstones"%py p) = XTuple ts /\ count = size us + size ts.

Lemma object_of_ok v m : object_of v = Ok m <-> v = Some (XMap m).
Proof. destruct v as [[]|]; cbn; split; congruence. Qed.

Lemma tuple_of_ok v l : tuple_of v = Ok l <-> v = Some (XTuple l).
Proof. destruct v as [[]|]; cbn; split; congruence. Qed.

Lemma _page_ok d e p count : _page d = Ok (e, p, count) <-> page_of (value d) e p count.
Proof.
  unfold _page, page_of. split.
  - intros (m & Hm & ([] & Hr & (p' & Hp%object_of_ok & (us & Hus%tuple_of_ok & (ts & Hts%tuple_of_ok & [= -> -> <-])%rbind_ok)%rbind_ok)%rbind_ok)%rbind_ok)%rbind_ok.
    destruct (value d); try done. injection Hm as ->. apply reject_if_ok, orb_false_iff in Hr as [Hs%negb_false_iff Hk%negb_false_iff].
    apply is_str_ok in Hs. injection Hts as Hts. split_and!; try done. by exists us, ts.
  - intros (-> & Hs & Hk & Hp & us & ts & Hus & Hts & ->). cbn [_object rbind]. rewrite (proj2 (is_str_ok _ _) Hs), Hk. cbn [negb orb reject_if rbind].
    rewrite Hp. cbn [object_of _object rbind]. rewrite Hus. cbn [tuple_of rbind]. by rewrite Hts.
Qed.

(** A check of a page that passed. *)
Definition verified (d : WireDocument) (digest : pystr) : Prop :=
  exists e p count integrity n b, page_of (value d) e p count /\ d_get "integrity"%py p = Some (XMap integrity) /\
    has_fields integrity integrity_fields = true /\ d_get "algorithm"%py integrity = Some (XStr "sha-256") /\
    d_get "digest"%py integrity = Some (XStr digest) /\ d_get "item_count"%py integrity = Some (XNum n) /\ to_int n = Ok count /\
    is_sha256_hex digest = true /\ WireDocument_new (preimage e p) (limits d) = Ok (mkDocument (preimage e p) (limits d)) /\
    encode (mkDocument (preimage e p) (limits d)) = Ok b /\ digest = sha256_hexdigest (_INTEGRITY_PREFIX ++ b).

Lemma document_new_ok v lim d : WireDocument_new v lim = Ok d -> d = mkDocument v lim.
Proof. unfold WireDocument_new. by intros (? & _ & (? & _ & [= <-])%rbind_ok)%rbind_ok. Qed.

Lemma page_digest_ok d e p count : page_of (value d) e p count -> forall digest, page_digest sha256_hexdigest d = Ok digest <->
  WireDocument_new (preimage e p) (limits d) = Ok (mkDocument (preimage e p) (limits d)) /\
  exists b, encode (mkDocument (preimage e p) (limits d)) = Ok b /\ digest = sha256_hexdigest (_INTEGRITY_PREFIX ++ b).
Proof.
  intros Hp digest. apply _page_ok in Hp. unfold page_digest. rewrite Hp. cbn [rbind]. split.
  - intros (x & Hx & (b & Hb & [= <-])%rbind_ok)%rbind_ok. pose proof (document_new_ok _ _ _ Hx) as ->. split; [done|]. by exists b.
  - intros (Hn & b & Hb & ->). by rewrite Hn; cbn [rbind]; rewrite Hb.
Qed.

Lemma count_matches_ok v count : count_matches v count = Ok true <-> exists n, v = Some (XNum n) /\ to_int n = Ok count.
Proof.
  unfold count_matches. split.
  - destruct v as [[]|]; try done. destruct (to_int n) as [z|e] eqn:Hn; [|by case_decide]. intros [= ->%Z.eqb_eq]. by exists n.
  - intros (n & -> & ->). by rewrite Z.eqb_refl.
Qed.

Lemma verify_ok d : verify_integrity sha256_hexdigest d = Ok tt <-> exists digest, verified d digest.
Proof.
  unfold verify_integrity, verified. split.
  - intros ([[e p] count] & Hp & Hv)%rbind_ok. apply _page_ok in Hp. destruct (d_get "integrity"%py p) as [[]|] eqn:Hi; try done.
    apply rbind_ok in Hv as ([] & Hf%reject_if_ok%negb_false_iff & (m & Hm & Hv)%rbind_ok).
    destruct (d_get "digest"%py items) as [[]|] eqn:Hd; try done.
    apply rbind_ok in Hv as ([] & Hr%reject_if_ok & (x & Hx & He)%rbind_ok). rewrite !orb_false_iff, !negb_false_iff in Hr. destruct Hr as [[Ha%is_str_ok Hhex] ->].
    apply reject_if_ok, negb_false_iff, bool_decide_eq_true in He as ->. apply count_matches_ok in Hm as (n & Hn & Hz).
    apply (page_digest_ok _ _ _ _ Hp) in Hx as (Hnew & b & Hb & ->). exists (sha256_hexdigest (_INTEGRITY_PREFIX ++ b)), e, p, count, items, n, b. by split_and!.
  - intros (digest & e & p & count & i & n & b & Hp & Hi & Hf & Ha & Hd & Hn & Hz & Hhex & Hnew & Hb & Heq).
    rewrite (proj2 (_page_ok _ _ _ _) Hp). cbn [rbind]. rewrite Hi, Hf. cbn [negb reject_if rbind].
    rewrite (proj2 (count_matches_ok _ _)) by eauto. cbn [rbind]. rewrite Hd, (proj2 (is_str_ok _ _) Ha), Hhex. cbn [negb orb reject_if rbind].
    rewrite (proj2 (page_digest_ok _ _ _ _ Hp digest)) by eauto. cbn [rbind]. by rewrite bool_decide_true.
Qed.

(** *** A sealed page verifies *)

Lemma without_set v p : without_integrity (d_set "integrity"%py v p) = without_integrity p.
Proof.
  unfold without_integrity. induction p as [|[a b] p IH]; [done|]. cbn [d_set]. destruct (decide (a = "integrity"%py)) as [->|Hne].
  - by rewrite !filter_cons.
  - rewrite !filter_cons. case_decide; by rewrite IH.
Qed.

Lemma seal_verified d s : (forall b, is_sha256_hex (sha256_hexdigest b) = true) -> seal unicode_decimal str_repr sha256_hexdigest d = Ok s ->
  limits s = limits d /\ WireDocument_new (value s) (limits s) = Ok s /\ exists digest, page_digest sha256_hexdigest d = Ok digest /\ verified s digest.
Proof.
  intros Hsha ([[e p] count] & Hp & (digest & Hd & (n & Hn & (r & Hr & (l & _ & ([] & _ & [= <-])%rbind_ok)%rbind_ok)%rbind_ok)%rbind_ok)%rbind_ok)%rbind_ok.
  apply _page_ok in Hp. pose proof (document_new_ok _ _ _ Hr) as ->. cbn [limits value]. split_and!; [done|done|]. exists digest. split; [done|].
  apply (page_digest_ok _ _ _ _ Hp) in Hd as (Hnew & b & Hb & ->). destruct Hp as (_ & Hs & Hk & Hpay & us & ts & Hus & Hts & ->).
  assert (to_int n = Ok (size us + size ts)) as Hz.
  { destruct (str_of_Z_number (size us + size ts)) as [Hi Hz]; [unfold size; lia|]. unfold ExactNumber_new in Hn. rewrite (integer_number _ Hi) in Hn. by injection Hn as <-. }
  set (i := [("algorithm", XStr "sha-256"); ("digest", XStr (sha256_hexdigest (_INTEGRITY_PREFIX ++ b))); ("item_count", XNum n)]%py).
  assert (preimage (d_set "payload"%py (XMap (d_set "integrity"%py (XMap i) p)) e) (d_set "integrity"%py (XMap i) p) = preimage e p) as Hpre.
  { unfold preimage. by rewrite d_set_set, without_set. }
  exists (d_set "payload"%py (XMap (d_set "integrity"%py (XMap i) p)) e), (d_set "integrity"%py (XMap i) p), (size us + size ts), i, n, b. cbn [limits value].
  rewrite Hpre, d_get_set_eq. split_and!; try done. split_and!; try done.
  - by rewrite d_get_set_ne.
  - unfold page_kind. by rewrite !d_get_set_ne.
  - by rewrite d_get_set_eq.
  - exists us, ts. by rewrite !d_get_set_ne.
Qed.

(** A page that verifies still does with its keys in order. *)
Lemma verified_in_order d digest : proper (value d) -> verified d digest -> verified (mkDocument (sort_keys (value d)) (limits d)) digest.
Proof.
  intros Hproper (e & p & count & i & n & b & (Hv & Hs & Hk & Hpay & us & ts & Hus & Hts & ->) & Hi & Hf & Ha & Hd & Hn & Hz & Hhex & Hnew & Hb & Heq).
  rewrite Hv in Hproper. apply proper_map in Hproper as [He Hes].
  assert (forall k v, d_get k e = Some v -> proper v) as Hprop.
  { intros k v Hin%d_get_elem. rewrite Forall_forall in Hes. by apply (Hes _ Hin). }
  pose proof (Hprop _ _ Hpay) as [Hpw Hps]%proper_map.
  assert (d_wf i) as Hiw.
  { apply d_get_elem in Hi. rewrite Forall_forall in Hps. destruct (Hps _ Hi) as [_ Hpi]. by apply proper_map in Hpi as [? _]. }
  exists (in_order e), (in_order p), (size us + size ts), (in_order i), n, b. cbn [value limits]. rewrite preimage_in_order by (done || by eexists).
  destruct (sorted_document _ _ _ Hnew) as [_ Hnew']. rewrite encode_sort_keys, !in_order_get, Ha, Hd, Hn, Hi by done. split_and!; try done.
  - unfold page_of. rewrite Hv, !in_order_get, Hs, Hpay by done. split_and!; try done.
    + unfold page_kind, is_str in *. rewrite !in_order_get by done. by destruct (d_get "kind"%py e) as [[]|].
    + exists (map sort_keys us), (map sort_keys ts). rewrite Hus, !size_map by done. split_and!; try done.
      destruct (d_get "tombstones"%py p) as [t|]; cbn in Hts |- *; [by rewrite Hts|by injection Hts as <-].
  - unfold has_fields in *. assert ((in_order i).*1 ≡ₚ i.*1) as Hkeys by (unfold in_order; by rewrite (sorted_by_perm str_compare fst (members i)), members_keys).
    rewrite andb_true_iff, !forallb_forall in *. destruct Hf as [Hf1 Hf2]. split; intros k Hin.
    + apply bool_decide_eq_true. rewrite Hkeys. specialize (Hf1 k Hin). by apply bool_decide_eq_true in Hf1.
    + apply Hf2. apply list_elem_of_In. apply list_elem_of_In in Hin. by rewrite Hkeys in Hin.
Qed.

(** A page that was sealed passes the integrity check of its receiver: decoding its bytes,
    however they are cut into chunks, gives a document that verifies, with the digest the
    sender computed of the page it sealed. *)
Theorem sealed_page_verifies d s payload chunks : (forall b, is_sha256_hex (sha256_hexdigest b) = true) ->
  seal unicode_decimal str_repr sha256_hexdigest d = Ok s -> proper (value s) -> encode s = Ok payload -> concat chunks = payload ->
  exists received, decode_wire_stream (limits d) chunks = Ok received /\
    verify_integrity sha256_hexdigest received = Ok tt /\ page_digest sha256_hexdigest received = page_digest sha256_hexdigest d.
Proof.
  intros Hsha Hseal Hproper He Hc. destruct (seal_verified d s Hsha Hseal) as (Hlim & Hnew & digest & Hd & Hv).
  destruct (wire_read_back _ _ _ payload chunks Hproper Hnew He Hc) as [_ Hdec]. rewrite Hlim in Hdec. eexists. split; [exact Hdec|].
  apply verified_in_order in Hv; [|done]. rewrite Hlim in Hv. split; [apply verify_ok; by exists digest|].
  destruct Hv as (e & p & count & i & n & b & Hp & _ & _ & _ & _ & _ & _ & _ & Hn & Hb & Heq). rewrite Hd. apply (page_digest_ok _ _ _ _ Hp). eauto.
Qed.

(** What a document is but for its integrity member, keys in order. *)
Definition content (d : WireDocument) : exact :=
  match _page d with Ok (e, p, _) => sort_keys (preimage e p) | Raise _ => value d end.

Definition digest_of (d : WireDocument) : option exact :=
  match _page d with
  | Ok (_, p, _) => match d_get "integrity"%py p with Some (XMap i) => d_get "digest"%py i | _ => None end
  | Raise _ => None
  end.

Definition collision : Prop := exists a b, a <> b /\ sha256_hexdigest a = sha256_hexdigest b.

Lemma preimage_proper e p : proper (XMap e) -> d_get "payload"%py e = Some (XMap p) -> proper (preimage e p).
Proof.
  intros [He Hes]%proper_map Hp. unfold preimage. apply proper_map. split; [by apply d_set_wf|]. apply d_set_forall; [|done].
  apply d_get_elem in Hp. rewrite Forall_forall in Hes. destruct (Hes _ Hp) as [Hk [Hpw Hps]%proper_map]. split; [exact Hk|]. cbn [snd].
  apply proper_map. unfold without_integrity. split.
  - eapply sublist_NoDup; [exact Hpw|]. apply fmap_sublist, sublist_filter.
  - rewrite Forall_forall in *. intros x [_ Hx]%list_elem_of_filter. by apply Hps.
Qed.

(** C16. The digest binds the page: two pages a receiver verified under the same limits and with
    the same digest have the same content - every member of the envelope and of the payload
    but the integrity member - unless they exhibit a collision of SHA-256. *)
Theorem integrity_binds_content d d' : proper (value d) -> proper (value d') -> limits d = limits d' ->
  verify_integrity sha256_hexdigest d = Ok tt -> verify_integrity sha256_hexdigest d' = Ok tt ->
  digest_of d = digest_of d' -> content d = content d' \/ collision.
Proof.
  intros Hpd Hpd' Hlim Hv Hv' Hsame. apply verify_ok in Hv as (g & e & p & c & i & n & b & Hp & Hi & _ & _ & Hd & _ & _ & _ & Hnew & Hb & Hg).
  apply verify_ok in Hv' as (g' & e' & p' & c' & i' & n' & b' & Hp' & Hi' & _ & _ & Hd' & _ & _ & _ & Hnew' & Hb' & Hg').
  unfold digest_of, content in *. rewrite (proj2 (_page_ok _ _ _ _) Hp), (proj2 (_page_ok _ _ _ _) Hp') in *. rewrite Hi, Hi', Hd, Hd' in Hsame. injection Hsame as Hsame.
  destruct (decide (b = b')) as [<-|Hne].
  - left. assert (proper (preimage e p)) as H1 by (destruct Hp as (Hve & _ & _ & Hpay & _); apply preimage_proper; [by rewrite <- Hve|done]).
    assert (proper (preimage e' p')) as H2 by (destruct Hp' as (Hve & _ & _ & Hpay & _); apply preimage_proper; [by rewrite <- Hve|done]).
    destruct (wire_read_back _ _ _ b [b] H1 Hnew Hb (app_nil_r b)) as [_ E1]. destruct (wire_read_back _ _ _ b [b] H2 Hnew' Hb' (app_nil_r b)) as [_ E2].
    rewrite Hlim, E2 in E1.
    symmetry. exact (f_equal (fun r => match r with Ok d => value d | Raise _ => XNull end) E1).
  - right. exists (_INTEGRITY_PREFIX ++ b), (_INTEGRITY_PREFIX ++ b'). split; [by intros ?%app_inv_head|]. congruence.
Qed.
End Integrity.

(** ** A concrete page *)

Definition demo_sha (b : list N) : pystr := PyStr (map (fun n => hex_digit (N.of_nat (n + length b) mod 16)) (seq 0 64)).

Definition demo_page : WireDocument :=
  mkDocument (XMap [("protocol", XStr SYNC_PROTOCOL); ("kind", XStr "snapshot");
    ("payload", XMap [("dataset_id", XStr "orders"); ("generation", XNum (mkExactNumber "3"));
      ("upserts", XTuple [XMap [("item_id", XStr "order-1"); ("revision", XNum (mkExactNumber "7"));
        ("value", XMap [("total", XNum (mkExactNumber "10.50"))])]]);
      ("next_cursor", XNull)])]%py) Limits_default.

Definition demo_seal : result exn WireDocument := seal digit (fun s => s) demo_sha demo_page.
Definition demo_sealed : WireDocument := match demo_seal with Ok s => s | Raise _ => demo_page end.

Lemma demo_sha_hex b : is_sha256_hex (demo_sha b) = true.
Proof.
  unfold is_sha256_hex, demo_sha, str_len. cbn [codepoints]. rewrite length_map, length_seq. cbn [Z.eqb Z.of_nat andb]. apply forallb_forall. intros c (n & <- & _)%in_map_iff.
  pose proof (N.mod_lt (N.of_nat (n + length b)) 16 ltac:(lia)) as Hlt. revert Hlt. generalize (N.of_nat (n + length b) mod 16)%N. intros m Hm.
  unfold hex_digit, hex_char, digit. destruct (m <? 10)%N eqn:E; [apply N.ltb_lt in E|apply N.ltb_ge in E]; rewrite orb_true_iff, !andb_true_iff, !N.leb_le; lia.
Qed.

Ltac proper_value := repeat first [exact I | apply conj | by apply text_ok_compute | reflexivity | apply (bool_decide_unpack _); vm_compute; exact I].

Definition demo_payload : list N := match encode demo_sealed with Ok b => b | Raise _ => [] end.

Lemma sealed_page_verifies_witness :
  demo_seal = Ok demo_sealed /\ encode demo_sealed = Ok demo_payload /\
  exists received, decode_wire_stream Limits_default [take 20 demo_payload; drop 20 demo_payload] = Ok received /\
    verify_integrity demo_sha received = Ok tt /\ page_digest demo_sha received = page_digest demo_sha demo_page.
Proof.
  assert (encode demo_sealed = Ok demo_payload) as He by (vm_compute; reflexivity). assert (demo_seal = Ok demo_sealed) as Hs by (vm_compute; reflexivity).
  split; [exact Hs|]. split; [exact He|].
  apply (sealed_page_verifies digit (fun s => s) demo_sha demo_page demo_sealed demo_payload [take 20 demo_payload; drop 20 demo_payload] demo_sha_hex Hs).
  - let v := eval vm_compute in (value demo_sealed) in change (proper v). cbn [proper foldr fst snd]. proper_value.
  - exact He.
  - cbn [concat]. rewrite app_nil_r. apply take_drop.
Defined.

(** The page sealed again with its members in another order has the same content. *)
Definition demo_shuffled : WireDocument :=
  match demo_sealed with
  | mkDocument (XMap [a; b; c]) lim => mkDocument (XMap [c; a; b]) lim
  | d => d
  end.

Lemma integrity_binds_content_witness : content demo_sealed = content demo_shuffled \/ collision demo_sha.
Proof.
  apply (integrity_binds_content demo_sha).
  - let v := eval vm_compute in (value demo_sealed) in change (proper v). cbn [proper foldr fst snd]. proper_value.
  - let v := eval vm_compute in (value demo_shuffled) in change (proper v). cbn [proper foldr fst snd]. proper_value.
  - vm_compute. reflexivity.
  - vm_compute. reflexivity.
  - vm_compute. reflexivity.
  - vm_compute. reflexivity.
Defined.
