(* ===== verification/JsonLoads.v ===== *)
(** * Reading JSON ([security/canonical.py], [parse_ijson])

    [json.loads] of the interpreter with the two hooks the code passes: the encoding of the
    bytes, the scanner of values, and [parse_ijson], which refuses duplicate members, the
    constants that are not JSON, and what is not I-JSON. [float(token)] is a parameter. The
    scanner enters [scan_limit] containers inside one another. Its loop over the items of one
    has fuel; [parse_ijson_outcome] shows that it is never used up. *)
From Stdlib Require Import ZArith Lia SpecFloat.
From stdpp Require Import base list gmap.
From S2P Require Import Prelude Core Canonical Wire.

Definition JSONDecodeError (message : pystr) : exn := OtherError "JSONDecodeError" message.

(** [ValueError] and its subclasses among these errors. *)
Definition is_value_error (e : exn) : bool :=
  match e with
  | ValueError _ => true
  | OtherError c _ => bool_decide (c ∈ ["JSONDecodeError"; "UnicodeDecodeError"; "UnicodeEncodeError"]%py)
  | _ => false
  end.

(** ** Bytes to text *)

(** [s.decode("utf-8", "surrogatepass")]. *)
Definition surrogate_step (b : N) (l : list N) : option (N * list N) :=
  match l with
  | b1 :: b2 :: rest =>
      if ((b =? 237) && (160 <=? b1) && (b1 <=? 191) && cont b2)%N
      then Some ((53248 + (b1 - 128) * 64 + (b2 - 128))%N, rest)
      else None
  | _ => None
  end.

Fixpoint utf8_pass (fuel : nat) (l : list N) : result exn (list N) :=
  match fuel, l with
  | S fuel', b :: l' =>
      match decode_step b l' with
      | Scalar c rest => let? cs := utf8_pass fuel' rest in Ok (c :: cs)
      | _ =>
          match surrogate_step b l' with
          | Some (c, rest) => let? cs := utf8_pass fuel' rest in Ok (c :: cs)
          | None => Raise UnicodeDecodeError
          end
      end
  | _, _ => Ok []
  end.

(** The units of UTF-16 and UTF-32, and [decode("utf-16", "surrogatepass")], which joins
    surrogate pairs and lets lone surrogates pass. *)
Fixpoint units16 (big : bool) (l : list N) : result exn (list N) :=
  match l with
  | [] => Ok []
  | a :: b :: l' => let? us := units16 big l' in Ok ((if big then a * 256 + b else b * 256 + a)%N :: us)
  | [_] => Raise UnicodeDecodeError
  end.
Fixpoint units32 (big : bool) (l : list N) : result exn (list N) :=
  match l with
  | [] => Ok []
  | a :: b :: c :: d :: l' =>
      let u := (if big then ((a * 256 + b) * 256 + c) * 256 + d else ((d * 256 + c) * 256 + b) * 256 + a)%N in
      reject_if (1114111 <? u)%N UnicodeDecodeError ??;
      let? us := units32 big l' in Ok (u :: us)
  | _ => Raise UnicodeDecodeError
  end.

Definition is_high (u : N) : bool := ((55296 <=? u) && (u <=? 56319))%N.
Definition is_low (u : N) : bool := ((56320 <=? u) && (u <=? 57343))%N.
Definition join_pair (u v : N) : N := (65536 + (u - 55296) * 1024 + (v - 56320))%N.
Fixpoint join_pairs (l : list N) : list N :=
  match l with
  | u :: l1 =>
      match l1 with
      | v :: l2 => if is_high u && is_low v then join_pair u v :: join_pairs l2 else u :: join_pairs l1
      | [] => [u]
      end
  | [] => []
  end.

Definition utf8_text (l : list N) : result exn pystr := let? cs := utf8_pass (length l) l in Ok (PyStr cs).
Definition utf16_text (big : bool) (l : list N) : result exn pystr := let? us := units16 big l in Ok (PyStr (join_pairs us)).
Definition utf32_text (big : bool) (l : list N) : result exn pystr := let? us := units32 big l in Ok (PyStr us).

(** What follows a prefix. *)
Fixpoint after_text (w l : list N) : option (list N) :=
  match w, l with
  | [], _ => Some l
  | c :: w', d :: l' => if (c =? d)%N then after_text w' l' else None
  | _, _ => None
  end.

(** [b.decode(json.detect_encoding(b), "surrogatepass")]: a byte order mark, or else the zeros
    among the first bytes, tell the encoding. *)
Definition byte_order_marks : list (list N * (list N -> result exn pystr)) :=
  [([0; 0; 254; 255]%N, utf32_text true); ([255; 254; 0; 0]%N, utf32_text false);
   ([254; 255]%N, utf16_text true); ([255; 254]%N, utf16_text false); ([239; 187; 191]%N, utf8_text)].
Definition decode_unmarked (b : list N) : result exn pystr :=
  match b with
  | b0 :: b1 :: b2 :: b3 :: _ =>
      if (b0 =? 0)%N then (if (b1 =? 0)%N then utf32_text true b else utf16_text true b)
      else if (b1 =? 0)%N then (if ((b2 =? 0) && (b3 =? 0))%N then utf32_text false b else utf16_text false b)
      else utf8_text b
  | [b0; b1] => if (b0 =? 0)%N then utf16_text true b else if (b1 =? 0)%N then utf16_text false b else utf8_text b
  | _ => utf8_text b
  end.
Fixpoint decode_marked (marks : list (list N * (list N -> result exn pystr))) (b : list N) : result exn pystr :=
  match marks with
  | [] => decode_unmarked b
  | (mark, decode) :: marks' => match after_text mark b with Some l => decode l | None => decode_marked marks' b end
  end.
Definition decode_detected (b : list N) : result exn pystr := decode_marked byte_order_marks b.

(** ** Values *)

Definition hex4 (a b c d : N) : option N :=
  match hex_digit_value a, hex_digit_value b, hex_digit_value c, hex_digit_value d with
  | Some a, Some b, Some c, Some d => Some (Z.to_N (((a * 16 + b) * 16 + c) * 16 + d))
  | _, _, _, _ => None
  end.

(** [scanstring]: the characters of a string after its opening quote, and the rest. An escaped
    high surrogate joins with an escaped low one. *)
Fixpoint scan_string (l : list N) : result exn (list N * list N) :=
  match l with
  | [] => Raise (JSONDecodeError "Unterminated string starting at")
  | c :: l1 =>
      if (c =? 34)%N then Ok ([], l1)
      else if (c =? 92)%N then
        match l1 with
        | [] => Raise (JSONDecodeError "Unterminated string starting at")
        | e :: l2 =>
            if (e =? 117)%N then
              match l2 with
              | h1 :: h2 :: h3 :: h4 :: l3 =>
                  match hex4 h1 h2 h3 h4 with
                  | None => Raise (JSONDecodeError "Invalid \uXXXX escape")
                  | Some u =>
                      let single := (let? r := scan_string l3 in Ok (u :: fst r, snd r)) in
                      match l3 with
                      | b :: e2 :: g1 :: g2 :: g3 :: g4 :: l4 =>
                          if is_high u && (b =? 92)%N && (e2 =? 117)%N && negb (bool_decide (l4 = [])) then
                            match hex4 g1 g2 g3 g4 with
                            | None => Raise (JSONDecodeError "Invalid \uXXXX escape")
                            | Some v =>
                                if is_low v then let? r := scan_string l4 in Ok (join_pair u v :: fst r, snd r)
                                else single
                            end
                          else single
                      | _ => single
                      end
                  end
              | _ => Raise (JSONDecodeError "Invalid \uXXXX escape")
              end
            else match escaped e with
              | Some c' => let? r := scan_string l2 in Ok (c' :: fst r, snd r)
              | None => Raise (JSONDecodeError "Invalid \escape: ")
              end
        end
      else if (c <? 32)%N then Raise (JSONDecodeError "Invalid control character at")
      else let? r := scan_string l1 in Ok (c :: fst r, snd r)
  end.

(** [_match_number]: what is left after the longest number, and whether it is a float. A
    fraction or an exponent without digits is not part of it. *)
Definition fraction_rest (l : list N) : list N * bool :=
  match l with
  | c :: l' => if (c =? 46)%N then match match_digits l' with Some r => (r, true) | None => (l, false) end else (l, false)
  | [] => (l, false)
  end.
Definition exponent_rest (l : list N) : list N * bool :=
  match l with
  | c :: l' =>
      if ((c =? 101) || (c =? 69))%N then
        match match_digits (match l' with s :: l'' => if ((s =? 43) || (s =? 45))%N then l'' else l' | [] => [] end) with
        | Some r => (r, true)
        | None => (l, false)
        end
      else (l, false)
  | [] => (l, false)
  end.
Definition number_rest (l : list N) : option (list N * bool) :=
  match match_int (match_minus l) with
  | None => None
  | Some r1 =>
      let '(r2, fraction) := fraction_rest r1 in
      let '(r3, exponent) := exponent_rest r2 in
      Some (r3, fraction || exponent)
  end.

Fixpoint skip_blank (l : list N) : list N :=
  match l with c :: l' => if is_blank c then skip_blank l' else l | [] => [] end.

Section Scanner.
Variable float_of : pystr -> spec_float.
(** The hooks [object_pairs_hook] and [parse_constant]. *)
Variable object_pairs : list (pystr * json) -> result exn json.
Variable parse_constant : pystr -> result exn json.

(** [int(token)] refuses more than 4300 digits. *)
Definition number_value (token : list N) (is_float : bool) : result exn json :=
  if is_float then Ok (JFloat (float_of (PyStr token)))
  else
    let digits := match_minus token in
    reject_if (4300 <? Z.of_nat (length digits)) (ValueError "Exceeds the limit (4300 digits) for integer string conversion") ??;
    Ok (JInt (if bool_decide (digits = token) then int_digits digits else - int_digits digits)).

Definition scan_number (l : list N) : result exn (json * list N) :=
  match number_rest l with
  | None => Raise (JSONDecodeError "Expecting value")
  | Some (rest, is_float) =>
      let? v := number_value (take (length l - length rest) l) is_float in Ok (v, rest)
  end.

(** The literals, in the order the scanner tries them. *)
Definition literals : list (pystr * result exn json) :=
  [("null", Ok JNull); ("true", Ok (JBool true)); ("false", Ok (JBool false));
   ("NaN", parse_constant "NaN"); ("Infinity", parse_constant "Infinity"); ("-Infinity", parse_constant "-Infinity")]%py.
Fixpoint scan_literal (ws : list (pystr * result exn json)) (l : list N) : result exn (json * list N) :=
  match ws with
  | [] => scan_number l
  | (w, v) :: ws' => match after_text (codepoints w) l with Some rest => let? x := v in Ok (x, rest) | None => scan_literal ws' l end
  end.

Section Containers.
Variable scan : list N -> result exn (json * list N).

(** One member: a string, a colon, a value. *)
Definition scan_member (l : list N) : result exn ((pystr * json) * list N) :=
  match l with
  | c :: l1 =>
      if (c =? 34)%N then
        let? k := scan_string l1 in
        match skip_blank (snd k) with
        | d :: l2 =>
            if (d =? 58)%N then let? v := scan (skip_blank l2) in Ok ((PyStr (fst k), fst v), snd v)
            else Raise (JSONDecodeError "Expecting ':' delimiter")
        | [] => Raise (JSONDecodeError "Expecting ':' delimiter")
        end
      else Raise (JSONDecodeError "Expecting property name enclosed in double quotes")
  | [] => Raise (JSONDecodeError "Expecting property name enclosed in double quotes")
  end.

(** Items up to the closing character. *)
Fixpoint scan_items {A} (item : list N -> result exn (A * list N)) (closing : N) (fuel : nat) (acc : list A) (l : list N) : result exn (list A * list N) :=
  match fuel with
  | O => Raise OutOfFuel
  | S fuel' =>
      let? x := item l in
      match skip_blank (snd x) with
      | c :: l1 =>
          if (c =? closing)%N then Ok (acc ++ [fst x], l1)
          else if (c =? 44)%N then scan_items item closing fuel' (acc ++ [fst x]) (skip_blank l1)
          else Raise (JSONDecodeError "Expecting ',' delimiter")
      | [] => Raise (JSONDecodeError "Expecting ',' delimiter")
      end
  end.

Definition scan_all {A} (item : list N -> result exn (A * list N)) (closing : N) (l : list N) : result exn (list A * list N) :=
  match skip_blank l with
  | c :: l1 => if (c =? closing)%N then Ok ([], l1) else scan_items item closing (length (c :: l1)) [] (c :: l1)
  | [] => scan_items item closing 1 [] []
  end.

End Containers.

(** [scan_once], with the containers it may still enter: a string, an object, an array, or a
    literal or number. *)
Fixpoint scan_once (containers : nat) (l : list N) : result exn (json * list N) :=
  match l with
  | [] => Raise (JSONDecodeError "Expecting value")
  | c :: l' =>
      if (c =? 34)%N then let? r := scan_string l' in Ok (JStr (PyStr (fst r)), snd r)
      else if (c =? 123)%N then
        match containers with
        | O => Raise RecursionError
        | S containers =>
            let? r := scan_all (scan_member (scan_once containers)) 125 l' in
            let? o := object_pairs (fst r) in Ok (o, snd r)
        end
      else if (c =? 91)%N then
        match containers with
        | O => Raise RecursionError
        | S containers => let? r := scan_all (scan_once containers) 93 l' in Ok (JList (fst r), snd r)
        end
      else scan_literal literals l
  end.

(** [JSONDecoder.decode]. *)
Definition decode_text `{!Recursion} (text : list N) : result exn json :=
  let l := skip_blank text in
  let? r := scan_once scan_limit l in
  match skip_blank (snd r) with
  | [] => Ok (fst r)
  | _ => Raise (JSONDecodeError "Extra data")
  end.

(** [json.loads] of a [str] and of [bytes]. *)
Definition loads_str `{!Recursion} (s : pystr) : result exn json :=
  match codepoints s with
  | c :: _ => if (c =? 65279)%N then Raise (JSONDecodeError "Unexpected UTF-8 BOM (decode using utf-8-sig)") else decode_text (codepoints s)
  | [] => decode_text []
  end.
Definition loads_bytes `{!Recursion} (b : list N) : result exn json :=
  let? s := decode_detected b in decode_text (codepoints s).
End Scanner.

(** ** [parse_ijson] *)

Fixpoint collect_pairs (output : dict pystr json) (pairs : list (pystr * json)) : result exn (dict pystr json) :=
  match pairs with
  | [] => Ok output
  | (key, value) :: pairs' =>
      reject_if (d_mem key output) (ValueError (str_app "duplicate JSON member: " key)) ??;
      collect_pairs (d_set key value output) pairs'
  end.
Definition object_pairs (pairs : list (pystr * json)) : result exn json :=
  let? output := collect_pairs [] pairs in Ok (JDict (map (fun p => (KeyStr p.1, p.2)) output)).
Definition invalid_constant (value : pystr) : result exn json := Raise (ValueError (str_app "non-finite JSON number: " value)).

(** The [bytes | str] argument. *)
Inductive json_payload := PayloadBytes (b : list N) | PayloadText (s : pystr).

Definition parse_ijson `{!Recursion} (float_of : pystr -> spec_float) (payload : json_payload) : result exn json :=
  let? value := (match payload with
    | PayloadBytes b => loads_bytes float_of object_pairs invalid_constant b
    | PayloadText s => loads_str float_of object_pairs invalid_constant s
    end) in
  validate_ijson value ??;
  Ok value.
