(* ===== verification/JsonRoundTrip.v ===== *)
(** * Reading JSON: every input is decided, and canonical text is read back

    [parse_ijson] ends on every input: it accepts only I-JSON whose objects have each member
    once, and otherwise raises a [ValueError], or [RecursionError] where the text nests deeper
    than the interpreter follows; and it reads the text of an I-JSON value back. *)
From Stdlib Require Import ZArith Lia SpecFloat.
From stdpp Require Import base list gmap.
From S2P Require Import Prelude Core Canonical Wire WireText WireRoundTrip WireNumbers Contracts ContractDocuments SyncWireIntegrity JsonLoads.

(** ** How deep a text nests

    The brackets that are open at most, outside of strings. *)

Inductive lexer := Plain | Quoted | Escaped.

Fixpoint deepest (mode : lexer) (depth : nat) (l : list N) : nat :=
  match l with
  | [] => 0
  | c :: l' =>
      match mode with
      | Plain =>
          if (c =? 34)%N then deepest Quoted depth l'
          else if ((c =? 91) || (c =? 123))%N then S depth `max` deepest Plain (S depth) l'
          else if ((c =? 93) || (c =? 125))%N then deepest Plain (pred depth) l'
          else deepest Plain depth l'
      | Quoted =>
          if (c =? 34)%N then deepest Plain depth l'
          else if (c =? 92)%N then deepest Escaped depth l'
          else deepest Quoted depth l'
      | Escaped => deepest Quoted depth l'
      end
  end%nat.
Definition nesting (text : list N) : nat := deepest Plain 0 text.

(** The containers inside one another of a value. *)
Fixpoint nested (v : json) : nat :=
  match v with
  | JList l => S (foldr (fun x n => nested x `max` n) 0 l)
  | JDict m => S (foldr (fun kv n => nested kv.2 `max` n) 0 m)
  | _ => 0
  end%nat.

Definition most {A} (size : A -> nat) (l : list A) : nat := foldr (fun x n => size x `max` n)%nat 0%nat l.

(** [size] containers inside one another, entered at [depth]. *)
Definition reach (depth size : nat) : nat := match size with O => 0 | _ => depth + size end%nat.

Lemma reach_max depth a b : reach depth (a `max` b) = (reach depth a `max` reach depth b)%nat.
Proof. destruct a, b; cbn; lia. Qed.
Lemma most_cons {A} (size : A -> nat) x l : most size (x :: l) = (size x `max` most size l)%nat.
Proof. done. Qed.

Lemma frames_nested v : (frames v <= nested v + 2)%nat.
Proof.
  induction v using json_nested_ind; cbn [frames nested]; try lia.
  - rewrite Nat.add_succ_l, <- Nat.succ_le_mono. induction H as [|x l Hx _ IH]; cbn [foldr]; lia.
  - rewrite Nat.add_succ_l, <- Nat.succ_le_mono. induction H as [|x l Hx _ IH]; cbn [foldr]; lia.
Qed.

(** Characters that open and close nothing. *)
Definition unbracketed (c : N) : Prop := c <> 34%N /\ c <> 91%N /\ c <> 93%N /\ c <> 123%N /\ c <> 125%N.
Lemma deepest_cons c l depth : unbracketed c -> deepest Plain depth (c :: l) = deepest Plain depth l.
Proof. intros (H1 & H2 & H3 & H4 & H5). cbn [deepest]. by rewrite !(proj2 (N.eqb_neq _ _)). Qed.
Lemma deepest_app w l depth : Forall unbracketed w -> deepest Plain depth (w ++ l) = deepest Plain depth l.
Proof. induction 1 as [|c w Hc _ IH]; [done|]. cbn [app]. by rewrite deepest_cons. Qed.
Lemma deepest_blank l depth : deepest Plain depth (skip_blank l) = deepest Plain depth l.
Proof.
  induction l as [|c l IH]; [done|]. cbn [skip_blank]. destruct (is_blank c) eqn:Hc; [|done]. rewrite IH, deepest_cons; [done|].
  unfold is_blank in Hc. repeat split; intros ->; done.
Qed.
Lemma deepest_consumed l rest depth : consumed l rest -> deepest Plain depth l = deepest Plain depth rest.
Proof.
  intros (w & -> & Hw). apply deepest_app. eapply Forall_impl; [exact Hw|]. intros c Hc. cbn in Hc. repeat split; intros ->; done.
Qed.
Lemma hex_plain c d depth l : hex_digit_value c = Some d -> deepest Quoted depth (c :: l) = deepest Quoted depth l.
Proof.
  intros Hc. cbn [deepest]. destruct (N.eqb_spec c 34) as [->|_]; [done|]. by destruct (N.eqb_spec c 92) as [->|_].
Qed.
Lemma hex4_plain a b c d u depth l : hex4 a b c d = Some u -> deepest Quoted depth (a :: b :: c :: d :: l) = deepest Quoted depth l.
Proof.
  unfold hex4. destruct (hex_digit_value a) eqn:Ha; [|done]. destruct (hex_digit_value b) eqn:Hb; [|done].
  destruct (hex_digit_value c) eqn:Hc; [|done]. destruct (hex_digit_value d) eqn:Hd; [|done]. intros _. by rewrite (hex_plain a _ _ _ Ha), (hex_plain b _ _ _ Hb), (hex_plain c _ _ _ Hc), (hex_plain d _ _ _ Hd).
Qed.

(** ** Every input is decided *)

(** A reader decides a text: it takes at least one character, its value satisfies [P] and
    nests as the text it took does, within [limit] - or it raises a [ValueError], or the
    text nests deeper. *)
Definition decided {A} (P : A -> Prop) (size : A -> nat) (limit : nat) (l : list N) (r : result exn (A * list N)) : Prop :=
  match r with
  | Ok (a, rest) => P a /\ (length rest < length l)%nat /\ (size a <= limit)%nat /\
      forall depth, deepest Plain depth l = (reach depth (size a) `max` deepest Plain depth rest)%nat
  | Raise e => is_value_error e = true \/ e = RecursionError /\ forall depth, (depth + limit < deepest Plain depth l)%nat
  end.
Definition decides {A} (P : A -> Prop) (size : A -> nat) (limit : nat) (read : list N -> result exn (A * list N)) : Prop :=
  forall l, decided P size limit l (read l).

Lemma skip_blank_length l : (length (skip_blank l) <= length l)%nat.
Proof. induction l as [|c l IH]; cbn; [done|]. case_match; cbn; lia. Qed.

Lemma after_text_app w : forall l rest, after_text w l = Some rest -> l = w ++ rest.
Proof.
  induction w as [|c w IH]; intros l rest; cbn; [by intros [= ->]|]. destruct l as [|d l]; [done|].
  destruct (N.eqb_spec c d) as [->|]; [|done]. by intros ->%IH.
Qed.

(** A string: no bracket of it counts. *)
Lemma scan_string_decided n : forall l, (length l <= n)%nat ->
  match scan_string l with
  | Ok (_, rest) => (length rest < length l)%nat /\ forall depth, deepest Quoted depth l = deepest Plain depth rest
  | Raise e => is_value_error e = true
  end.
Proof.
  induction n as [|n IH]; intros [|c l1] Hn; cbn [length] in Hn; try lia; try done. cbn [scan_string].
  assert (forall l x, (length l <= length l1)%nat -> (forall depth, deepest Quoted depth (c :: l1) = deepest Quoted depth l) ->
    match (let? r := scan_string l in Ok (x :: fst r, snd r)) with
    | Ok (_, rest) => (length rest < length (c :: l1))%nat /\ forall depth, deepest Quoted depth (c :: l1) = deepest Plain depth rest
    | Raise e => is_value_error e = true end) as Hgo.
  { intros l x Hl Hd. specialize (IH l ltac:(lia)). destruct (scan_string l) as [[a rest]|e]; [|done]. cbn [rbind fst snd length].
    destruct IH as [Hr IH]. split; [lia|]. intros depth. by rewrite Hd, IH. }
  destruct (N.eqb_spec c 34) as [->|H34]; [by split; [cbn; lia|]|]. destruct (N.eqb_spec c 92) as [->|H92].
  2: { destruct (c <? 32)%N; [done|]. apply Hgo; [done|]. intros depth. cbn [deepest]. by rewrite !(proj2 (N.eqb_neq _ _)). }
  destruct l1 as [|e l2]; [done|]. cbn [length] in *. destruct (e =? 117)%N; [|destruct (escaped e); [by apply Hgo; [lia|]|done]].
  destruct l2 as [|h1 [|h2 [|h3 [|h4 l3]]]]; try done. destruct (hex4 h1 h2 h3 h4) as [u|] eqn:Hu; [|done]. cbn [length] in *.
  assert (forall depth, deepest Quoted depth (92%N :: e :: h1 :: h2 :: h3 :: h4 :: l3) = deepest Quoted depth l3) as H3 by (intros depth; exact (hex4_plain _ _ _ _ _ _ _ Hu)).
  destruct l3 as [|b [|e2 [|g1 [|g2 [|g3 [|g4 l4]]]]]]; try (by apply Hgo; [cbn [length]; lia|]). cbn [length] in *.
  destruct (is_high u && _ && _ && _) eqn:Hpair; [|by apply Hgo; [cbn [length]; lia|]]. destruct (hex4 g1 g2 g3 g4) as [v|] eqn:Hv; [|done].
  destruct (is_low v); apply Hgo; [cbn [length]; lia| |cbn [length]; lia|done].
  intros depth. rewrite H3. rewrite !andb_true_iff in Hpair. destruct Hpair as [[[_ ->%N.eqb_eq] _] _]. exact (hex4_plain _ _ _ _ _ _ _ Hv).
Qed.

Lemma consumed_length l r : consumed l r -> (length r <= length l)%nat.
Proof. intros (ds & -> & _). rewrite length_app. lia. Qed.

Lemma fraction_rest_consumed l : consumed l (fraction_rest l).1.
Proof.
  destruct l as [|c l]; cbn; [apply consumed_refl|]. destruct (N.eqb_spec c 46) as [->|]; [|apply consumed_refl].
  destruct (match_digits l) eqn:Hd; [|apply consumed_refl]. apply consumed_cons; [done|by apply match_digits_consumed].
Qed.
Lemma exponent_rest_consumed l : consumed l (exponent_rest l).1.
Proof.
  destruct l as [|c l]; cbn; [apply consumed_refl|]. destruct ((c =? 101) || (c =? 69))%N eqn:Hc; [|apply consumed_refl].
  destruct (match_digits _) eqn:Hd; [|apply consumed_refl]. apply match_digits_consumed in Hd.
  apply consumed_cons; [by apply orb_true_iff in Hc as [->%N.eqb_eq| ->%N.eqb_eq]|]. destruct l as [|s l]; [done|].
  destruct ((s =? 43) || (s =? 45))%N eqn:Hs; [|done]. apply consumed_cons; [|done]. by apply orb_true_iff in Hs as [->%N.eqb_eq| ->%N.eqb_eq].
Qed.

Lemma number_rest_consumed l rest f : number_rest l = Some (rest, f) -> consumed l rest /\ (length rest < length l)%nat.
Proof.
  unfold number_rest. destruct (match_int (match_minus l)) as [r1|] eqn:H1; [|done].
  assert (consumed (match_minus l) r1 /\ (length r1 < length (match_minus l))%nat) as [Hc1 Hr1].
  { destruct (match_minus l) as [|c m]; [done|]. cbn in H1. destruct (N.eqb_spec c 48) as [->|]; [injection H1 as <-; split; [by apply consumed_cons, consumed_refl|cbn; lia]|].
    destruct (digit c) eqn:Hc; [|done]. injection H1 as <-. split; [apply consumed_cons; [by apply digit_number|apply consumed_skip]|].
    pose proof (consumed_length _ _ (consumed_skip m)). cbn. lia. }
  pose proof (fraction_rest_consumed r1) as Hc2. destruct (fraction_rest r1) as [r2 f2].
  pose proof (exponent_rest_consumed r2) as Hc3. destruct (exponent_rest r2) as [r3 f3]. cbn [fst] in *. intros [= <- _].
  assert (consumed r1 r3) as Hc by by eapply consumed_trans. split.
  - eapply consumed_trans; [apply match_minus_consumed|]. by eapply consumed_trans.
  - pose proof (consumed_length _ _ Hc). pose proof (consumed_length _ _ (match_minus_consumed l)). lia.
Qed.

Section Decided.
Variable float_of : pystr -> spec_float.
Abbreviation scan_once := (scan_once float_of object_pairs invalid_constant).
Abbreviation scan_literal := (scan_literal float_of).

Lemma scan_number_decided limit l : decided distinct nested limit l (scan_number float_of l).
Proof.
  unfold scan_number. destruct (number_rest l) as [[rest f]|] eqn:Hr; [|by left]. apply number_rest_consumed in Hr as [Hc Hl].
  assert (forall v, distinct v -> nested v = 0%nat -> decided distinct nested limit l (Ok (v, rest))) as Hok.
  { intros v Hd Hv. cbn. rewrite Hv. split_and!; [done..|lia|]. intros depth. by apply deepest_consumed. }
  unfold number_value. destruct f; [by apply Hok|]. unfold reject_if. destruct (4300 <? _); [by left|by apply Hok].
Qed.

Lemma scan_literal_decided limit ws l :
  Forall (fun w => Forall unbracketed (codepoints w.1) /\ codepoints w.1 <> [] /\
    match w.2 with Ok v => distinct v /\ nested v = 0%nat | Raise e => is_value_error e = true end) ws ->
  decided distinct nested limit l (scan_literal ws l).
Proof.
  induction 1 as [|[w v] ws (Hw & Hne & Hv) _ IH]; cbn [JsonLoads.scan_literal fst snd] in *; [apply scan_number_decided|].
  destruct (after_text (codepoints w) l) as [rest|] eqn:Ha; [|done]. apply after_text_app in Ha as ->.
  destruct v as [v|e]; cbn; [|by left]. destruct Hv as [Hd ->]. split_and!; [done|rewrite length_app; by destruct (codepoints w); [|cbn; lia]|lia|].
  intros depth. by apply deepest_app.
Qed.

Lemma literals_decided limit l : decided distinct nested limit l (scan_literal (literals invalid_constant) l).
Proof. apply scan_literal_decided. repeat constructor; done. Qed.

(** The items of a container: those read so far, and how deep the others nest in it. *)
Definition items_decided {A} (P : A -> Prop) (size : A -> nat) (limit : nat) (acc : list A) (l : list N) (r : result exn (list A * list N)) : Prop :=
  match r with
  | Ok (items, rest) => Forall P items /\ (length rest < length l)%nat /\ exists more, items = acc ++ more /\ (most size more <= limit)%nat /\
      forall depth, deepest Plain (S depth) l = (reach (S depth) (most size more) `max` deepest Plain depth rest)%nat
  | Raise e => is_value_error e = true \/ e = RecursionError /\ forall depth, (S depth + limit < deepest Plain (S depth) l)%nat
  end.

Lemma closes closing l depth : closing = 93%N \/ closing = 125%N -> deepest Plain (S depth) (closing :: l) = deepest Plain depth l.
Proof. by intros [->| ->]. Qed.

Lemma scan_items_decided {A} (P : A -> Prop) size limit (item : list N -> result exn (A * list N)) closing :
  decides P size limit item -> closing = 93%N \/ closing = 125%N ->
  forall fuel acc l, (length l <= fuel)%nat -> (0 < fuel)%nat -> Forall P acc ->
  items_decided P size limit acc l (scan_items item closing fuel acc l).
Proof.
  intros Hitem Hcl. induction fuel as [|fuel IH]; intros acc l Hf Hpos Hacc; [lia|]. cbn [scan_items].
  specialize (Hitem l). destruct (item l) as [[a rest]|e]; cbn [decided rbind fst snd] in *.
  2: { destruct Hitem as [?|[-> Hd]]; [by left|right]. split; [done|]. intros depth. apply Hd. }
  destruct Hitem as (Ha & Hr & Hs & Hd). pose proof (skip_blank_length rest) as Hb. pose proof (deepest_blank rest) as Hbd.
  destruct (skip_blank rest) as [|c l1]; [by left|]. cbn [length] in Hb. assert (Forall P (acc ++ [a])) as Hacc' by (apply Forall_app; split; [done|by constructor]).
  destruct (N.eqb_spec c closing) as [->|_].
  { split; [done|]. split; [lia|]. exists [a]. split_and!; [done|cbn; lia|]. intros depth. rewrite Hd, <- Hbd, closes by done. cbn. by rewrite Nat.max_0_r. }
  destruct (N.eqb_spec c 44) as [->|_]; [|by left]. pose proof (skip_blank_length l1) as Hb1.
  specialize (IH (acc ++ [a]) (skip_blank l1) ltac:(lia) ltac:(lia) Hacc').
  assert (forall depth, deepest Plain depth rest = deepest Plain depth (skip_blank l1)) as Hrest by (intros depth; rewrite <- Hbd, deepest_blank; done).
  destruct (scan_items item closing fuel _ _) as [[items rest']|e]; cbn in IH |- *.
  - destruct IH as (Hall & Hl & more & -> & Hmost & Hdeep). split; [done|]. split; [lia|]. exists (a :: more). split_and!; [by rewrite <- app_assoc|rewrite most_cons; lia|].
    intros depth. rewrite Hd, Hrest, Hdeep, most_cons, reach_max. lia.
  - destruct IH as [?|[-> Hdeep]]; [by left|right]. split; [done|]. intros depth. rewrite Hd, Hrest. specialize (Hdeep depth). lia.
Qed.

Lemma scan_all_decided {A} (P : A -> Prop) size limit (item : list N -> result exn (A * list N)) closing l :
  decides P size limit item -> closing = 93%N \/ closing = 125%N ->
  match scan_all item closing l with
  | Ok (items, rest) => Forall P items /\ (length rest <= length l)%nat /\ (most size items <= limit)%nat /\
      forall depth, deepest Plain (S depth) l = (reach (S depth) (most size items) `max` deepest Plain depth rest)%nat
  | Raise e => is_value_error e = true \/ e = RecursionError /\ forall depth, (S depth + limit < deepest Plain (S depth) l)%nat
  end.
Proof.
  intros Hitem Hcl. unfold scan_all. pose proof (skip_blank_length l) as Hs. pose proof (deepest_blank l) as Hd.
  assert (forall fuel, (length (skip_blank l) <= fuel)%nat -> (0 < fuel)%nat ->
    items_decided P size limit [] (skip_blank l) (scan_items item closing fuel [] (skip_blank l))) as Hitems by (intros; by apply scan_items_decided).
  destruct (skip_blank l) as [|c l1].
  - specialize (Hitems 1%nat ltac:(cbn; lia) ltac:(lia)). destruct (scan_items item closing 1 [] []) as [[items rest]|e]; cbn in Hitems; [lia|].
    destruct Hitems as [?|[-> Hr]]; [by left|right]. split; [done|]. intros depth. rewrite <- Hd. apply Hr.
  - destruct (N.eqb_spec c closing) as [->|_].
    + cbn in Hs. split_and!; [done|lia|cbn; lia|]. intros depth. by rewrite <- Hd, closes.
    + specialize (Hitems (length (c :: l1)) ltac:(done) ltac:(cbn; lia)). destruct (scan_items _ _ _ _ _) as [[items rest]|e]; cbn -[length] in Hitems.
      * destruct Hitems as (Hall & Hl & more & -> & Hm & Hr). split_and!; [done|lia|done|]. intros depth. rewrite <- Hd. apply Hr.
      * destruct Hitems as [?|[-> Hr]]; [by left|right]. split; [done|]. intros depth. rewrite <- Hd. apply Hr.
Qed.

Abbreviation distinct_member := (fun p : pystr * json => distinct p.2).
Abbreviation nested_member := (fun p : pystr * json => nested p.2).

Lemma scan_member_decided limit scan : decides distinct nested limit scan -> decides distinct_member nested_member limit (scan_member scan).
Proof.
  intros Hscan [|c l1]; [by left|]. cbn [scan_member]. destruct (N.eqb_spec c 34) as [->|_]; [|by left].
  pose proof (scan_string_decided (length l1) l1 ltac:(done)) as Hk. destruct (scan_string l1) as [[k rest]|e]; [|by left]. cbn [rbind fst snd].
  destruct Hk as [Hl Hd]. pose proof (skip_blank_length rest) as Hs. pose proof (deepest_blank rest) as Hb. destruct (skip_blank rest) as [|d l2]; [by left|].
  destruct (N.eqb_spec d 58) as [->|_]; [|by left]. cbn [length] in Hs. pose proof (skip_blank_length l2).
  assert (forall depth, deepest Plain depth (34%N :: l1) = deepest Plain depth (skip_blank l2)) as Heq.
  { intros depth. change (deepest Plain depth (34%N :: l1)) with (deepest Quoted depth l1). by rewrite Hd, <- Hb, deepest_blank. }
  specialize (Hscan (skip_blank l2)). destruct (scan (skip_blank l2)) as [[v rest']|e]; cbn -[deepest] in Hscan |- *.
  - destruct Hscan as (Hv & Hl' & Hn & Hr). split_and!; [done|lia|done|]. intros depth. by rewrite Heq, Hr.
  - destruct Hscan as [?|[-> Hr]]; [by left|right]. split; [done|]. intros depth. by rewrite Heq.
Qed.

Lemma collect_pairs_distinct pairs : Forall distinct_member pairs -> forall output,
  NoDup output.*1 -> Forall distinct_member output ->
  match collect_pairs output pairs with
  | Ok d => d = output ++ pairs /\ NoDup d.*1 /\ Forall distinct_member d
  | Raise e => is_value_error e = true
  end.
Proof.
  induction 1 as [|[k v] pairs Hv _ IH]; intros output Hnd Hall; cbn [collect_pairs]; [by rewrite app_nil_r|].
  destruct (d_mem k output) eqn:Hm; cbn [reject_if rbind]; [done|]. apply d_mem_false, d_get_None in Hm.
  rewrite d_set_fresh by done. replace (output ++ (k, v) :: pairs) with ((output ++ [(k, v)]) ++ pairs) by by rewrite <- app_assoc. apply IH.
  - rewrite fmap_app. apply NoDup_app. split_and!; [done|intros x Hx ->%list_elem_of_singleton; done|apply NoDup_singleton].
  - apply Forall_app. split; [done|by constructor].
Qed.

Lemma nested_list l : nested (JList l) = S (most nested l).
Proof. done. Qed.
Lemma nested_obj m : nested (obj m) = S (most nested_member m).
Proof. unfold obj, most. cbn [nested]. f_equal. induction m as [|p m IH]; [done|]. cbn. by rewrite IH. Qed.

Lemma object_pairs_distinct pairs : Forall distinct_member pairs ->
  match object_pairs pairs with Ok v => distinct v /\ nested v = S (most nested_member pairs) | Raise e => is_value_error e = true end.
Proof.
  intros Hp. unfold object_pairs. pose proof (collect_pairs_distinct pairs Hp [] ltac:(constructor) ltac:(constructor)) as Hc.
  destruct (collect_pairs [] pairs) as [d|e]; [|done]. destruct Hc as (-> & Hnd & Hd). split; [by apply distinct_obj|apply nested_obj].
Qed.

Lemma opens c l depth : c = 91%N \/ c = 123%N -> deepest Plain depth (c :: l) = (S depth `max` deepest Plain (S depth) l)%nat.
Proof. by intros [->| ->]. Qed.
Lemma reach_opened depth n : (S depth `max` reach (S depth) n)%nat = reach depth (S n).
Proof. destruct n; cbn; lia. Qed.

Lemma scan_once_decides limit : decides distinct nested limit (scan_once limit).
Proof.
  induction limit as [|limit IH]; intros [|c l']; try (by left).
  all: cbn [JsonLoads.scan_once]; destruct (N.eqb_spec c 34) as [->|_].
  1, 3: pose proof (scan_string_decided (length l') l' ltac:(done)) as Hs; destruct (scan_string l') as [[s rest]|e]; [|by left];
    destruct Hs as [Hl Hd]; cbn -[deepest]; split_and!; [done|lia|lia|exact Hd].
  - destruct (N.eqb_spec c 123) as [->|_]; [right; split; [done|]; intros depth; rewrite opens by auto; lia|].
    destruct (N.eqb_spec c 91) as [->|_]; [right; split; [done|]; intros depth; rewrite opens by auto; lia|apply literals_decided].
  - destruct (N.eqb_spec c 123) as [->|_]; [|destruct (N.eqb_spec c 91) as [->|_]; [|apply literals_decided]].
    + pose proof (scan_all_decided _ _ limit _ 125 l' (scan_member_decided limit _ IH) ltac:(auto)) as Ha.
      destruct (scan_all _ 125 l') as [[pairs rest]|e]; cbn [rbind fst snd].
      * destruct Ha as (Hp & Hl & Hm & Hd). pose proof (object_pairs_distinct pairs Hp) as Ho. destruct (object_pairs pairs) as [v|e]; [|by left].
        destruct Ho as [Hv Hn]. cbn [rbind]. unfold decided. rewrite Hn. split_and!; [done|cbn [length]; lia|lia|]. intros depth. rewrite opens, Hd, Nat.max_assoc, reach_opened by auto. done.
      * destruct Ha as [?|[-> Hd]]; [by left|right]. split; [done|]. intros depth. rewrite opens by auto. specialize (Hd depth). lia.
    + pose proof (scan_all_decided _ _ limit _ 93 l' IH ltac:(auto)) as Ha.
      destruct (scan_all _ 93 l') as [[items rest]|e]; cbn [rbind fst snd].
      * destruct Ha as (Hp & Hl & Hm & Hd). unfold decided. rewrite nested_list.
        split_and!; [by apply distinct_list|cbn [length]; lia|lia|]. intros depth. rewrite opens, Hd, Nat.max_assoc, reach_opened by auto. done.
      * destruct Ha as [?|[-> Hd]]; [by left|right]. split; [done|]. intros depth. rewrite opens by auto. specialize (Hd depth). lia.
Qed.
End Decided.

(** A document is decided: a value as described, or a [ValueError]. *)
Definition answered {A} (P : A -> Prop) (r : result exn A) : Prop :=
  match r with Ok v => P v | Raise e => is_value_error e = true end.

Lemma utf8_pass_answered fuel : forall l, answered (fun _ => True) (utf8_pass fuel l).
Proof.
  induction fuel as [|fuel IH]; intros [|b l]; try done. cbn [utf8_pass].
  assert (forall c rest, answered (fun _ => True) (let? cs := utf8_pass fuel rest in Ok (c :: cs))) as Hgo.
  { intros c rest. specialize (IH rest). by destruct (utf8_pass fuel rest). }
  destruct (decode_step b l); [apply Hgo|..]; by destruct (surrogate_step b l) as [[]|].
Qed.

Lemma units16_answered big n : forall l, (length l <= n)%nat -> answered (fun _ => True) (units16 big l).
Proof.
  induction n as [|n IH]; intros [|a [|b l]] Hl; cbn in Hl; try lia; try done. cbn [units16]. specialize (IH l ltac:(lia)). by destruct (units16 big l).
Qed.
Lemma units32_answered big n : forall l, (length l <= n)%nat -> answered (fun _ => True) (units32 big l).
Proof.
  induction n as [|n IH]; intros [|a [|b [|c [|d l]]]] Hl; cbn in Hl; try lia; try done. cbn [units32]. specialize (IH l ltac:(lia)).
  unfold reject_if. destruct (1114111 <? _)%N; [done|]. cbn [rbind]. by destruct (units32 big l).
Qed.
Lemma utf8_text_answered l : answered (fun _ => True) (utf8_text l).
Proof. unfold utf8_text. pose proof (utf8_pass_answered (length l) l). by destruct (utf8_pass _ l). Qed.
Lemma utf16_text_answered big l : answered (fun _ => True) (utf16_text big l).
Proof. unfold utf16_text. pose proof (units16_answered big (length l) l ltac:(done)). by destruct (units16 big l). Qed.
Lemma utf32_text_answered big l : answered (fun _ => True) (utf32_text big l).
Proof. unfold utf32_text. pose proof (units32_answered big (length l) l ltac:(done)). by destruct (units32 big l). Qed.
#[local] Hint Resolve utf8_text_answered utf16_text_answered utf32_text_answered : core.

Lemma decode_detected_answered b : answered (fun _ => True) (decode_detected b).
Proof.
  unfold decode_detected. assert (Forall (fun m => forall l, answered (fun _ => True) (m.2 l)) byte_order_marks) as Hall.
  { repeat constructor; cbn; auto. }
  induction Hall as [|[mark decode] marks Hm _ IH]; cbn [decode_marked]; [|case_match; [apply Hm|done]].
  destruct b as [|b0 [|b1 [|b2 [|b3 b]]]]; cbn [decode_unmarked]; repeat case_match; auto.
Qed.

(** *** Values *)

Section Outcome.
Context `{!Recursion} (float_of : pystr -> spec_float).

(** What is read from a text: a value that nests as the text does, within the limit. *)
Definition loaded (text : list N) (r : result exn json) : Prop :=
  match r with
  | Ok v => distinct v /\ nested v = nesting text /\ (nesting text <= scan_limit)%nat
  | Raise e => is_value_error e = true \/ e = RecursionError /\ (scan_limit < nesting text)%nat
  end.

Lemma decode_text_loaded text : loaded text (decode_text float_of object_pairs invalid_constant text).
Proof.
  unfold decode_text, loaded, nesting. rewrite <- (deepest_blank text). pose proof (scan_once_decides float_of scan_limit (skip_blank text)) as Hd.
  destruct (scan_once _ _ _ _ _) as [[v rest]|e]; cbn in *.
  - destruct Hd as (Hv & _ & Hn & Hdeep). specialize (Hdeep 0%nat). pose proof (deepest_blank rest 0) as Hr.
    destruct (skip_blank rest); cbn; [|by left]. cbn in Hr. rewrite <- Hr in Hdeep. rewrite Hdeep.
    assert (reach 0 (nested v) = nested v) as -> by by destruct (nested v). split_and!; [done|lia|lia].
  - destruct Hd as [?|[-> Hd]]; [by left|right]. split; [done|]. apply (Hd 0%nat).
Qed.

(** The characters of a payload: of the [str], or of the bytes in their encoding. *)
Definition payload_text (payload : json_payload) : result exn (list N) :=
  match payload with
  | PayloadBytes b => let? s := decode_detected b in Ok (codepoints s)
  | PayloadText s => Ok (codepoints s)
  end.

Lemma payload_loaded payload :
  match (match payload with
    | PayloadBytes b => loads_bytes float_of object_pairs invalid_constant b
    | PayloadText s => loads_str float_of object_pairs invalid_constant s end) with
  | Ok v => exists text, payload_text payload = Ok text /\ loaded text (Ok v)
  | Raise e => is_value_error e = true \/ exists text, payload_text payload = Ok text /\ loaded text (Raise e)
  end.
Proof.
  assert (forall text, payload_text payload = Ok text -> match decode_text float_of object_pairs invalid_constant text with
    | Ok v => exists text, payload_text payload = Ok text /\ loaded text (Ok v)
    | Raise e => is_value_error e = true \/ exists text, payload_text payload = Ok text /\ loaded text (Raise e) end) as Hgo.
  { intros text Ht. pose proof (decode_text_loaded text). destruct (decode_text _ _ _ text); [by exists text|right; by exists text]. }
  destruct payload as [b|s]; cbn [payload_text] in *.
  - unfold loads_bytes. pose proof (decode_detected_answered b) as Hb. destruct (decode_detected b) as [s|e]; [by apply Hgo|by left].
  - unfold loads_str. destruct (codepoints s) as [|c l] eqn:E; [by apply Hgo|]. destruct (c =? 65279)%N; [by left|by apply Hgo].
Qed.

Lemma parse_ijson_valid payload v : parse_ijson float_of payload = Ok v -> ijson v /\ (frames v <= call_limit)%nat.
Proof.
  unfold parse_ijson. intros Hp. apply rbind_ok in Hp as (v0 & _ & Hp). apply rbind_ok in Hp as ([] & Hv & [= ->]). by apply validate_ijson_accepts.
Qed.

Lemma parse_ijson_empty v : parse_ijson float_of (PayloadBytes []) <> Ok v.
Proof. unfold parse_ijson, loads_bytes, decode_text. cbn. by destruct scan_limit. Qed.

(** C38. Every payload is decided. Either [parse_ijson] returns an I-JSON value whose objects
    have each member once, at every depth, and which nests as the text does, within the
    recursion limits of the interpreter; or it raises a [ValueError] (malformed text, a
    duplicate member, a constant that is not JSON, a number or a string that is not I-JSON);
    or it raises [RecursionError], and then the brackets of the text nest deeper than the
    scanner can enter or the validation can follow. The loops of the scanner end within their
    fuel. *)
Theorem parse_ijson_outcome payload :
  match parse_ijson float_of payload with
  | Ok v => ijson v /\ distinct v /\ (frames v <= call_limit)%nat /\
      exists text, payload_text payload = Ok text /\ nested v = nesting text /\ (nesting text <= scan_limit)%nat
  | Raise e => is_value_error e = true \/
      e = RecursionError /\ exists text, payload_text payload = Ok text /\ (scan_limit < nesting text \/ call_limit < nesting text + 2)%nat
  end.
Proof.
  destruct (parse_ijson float_of payload) as [v|e] eqn:E; [destruct (parse_ijson_valid _ _ E) as [Hi Hf]|]; revert E; unfold parse_ijson;
    pose proof (payload_loaded payload) as Hl; (destruct (match payload with PayloadBytes b => _ | PayloadText s => _ end) as [v0|e0]; cbn [rbind]).
  - destruct Hl as (text & Ht & Hd & Hn & Hlim). destruct (validate_ijson v0) as [[]|]; [|done]. intros [= <-]. split_and!; [done..|]. by exists text.
  - done.
  - destruct Hl as (text & Ht & Hd & Hn & Hlim). destruct (validate_ijson v0) as [[]|e1] eqn:Hv; [done|]. intros [= <-].
    apply visit_refused in Hv as [[m ->]|[-> Hc]]; [by left|right]. split; [done|]. exists text. split; [done|right]. pose proof (frames_nested v0). lia.
  - intros [= <-]. destruct Hl as [?|(text & Ht & [?|[-> Hr]])]; [by left|by left|right]. split; [done|]. exists text. auto.
Qed.
End Outcome.

(** ** Canonical text is read back *)

(** The value with the members of its objects in key order, an equal value in Python. *)
Fixpoint sort_members (v : json) : json :=
  match v with
  | JList l => JList (map sort_members l)
  | JDict m => JDict (sorted_by str_compare (fun p => key_text p.1) (map (fun p => (p.1, sort_members p.2)) m))
  | _ => v
  end.

Lemma join_joined ws : codepoints (str_join "," ws) = joined (map codepoints ws).
Proof. induction ws as [|w ws IH]; [done|]. destruct ws as [|w' ws]; [done|]. cbn [map] in *. rewrite joined_cons, <- IH. done. Qed.

(** *** Strings *)

Lemma scan_escape c e : json_escape c = 92%N :: e -> forall l,
  scan_string (92%N :: e ++ l) = (let? r := scan_string l in Ok (c :: fst r, snd r)).
Proof.
  destruct (N.ltb_spec c 32) as [Hlt|Hge].
  - assert (exists m, (m < 32)%nat /\ c = N.of_nat m) as (m & Hm & ->) by (exists (N.to_nat c); lia).
    do 32 (destruct m as [|m]; [intros [= <-] l; (reflexivity || destruct l as [|? [|? [|? [|? [|? [|? ?]]]]]]; reflexivity)|]). lia.
  - unfold json_escape. destruct (N.eqb_spec c 34) as [->|H34]; [by intros [= <-]|]. destruct (N.eqb_spec c 92) as [->|H92]; [by intros [= <-]|].
    ncases; congruence.
Qed.

Lemma scan_string_text l rest : scan_string (concat (json_escape <$> l) ++ 34%N :: rest) = Ok (l, rest).
Proof.
  induction l as [|c l IH]; [done|]. cbn [fmap list_fmap concat]. rewrite <- app_assoc.
  destruct (escape_cases c) as [(-> & Hge & H34 & H92)|(e & He & _)].
  - cbn [app scan_string]. rewrite (proj2 (N.eqb_neq c 34)), (proj2 (N.eqb_neq c 92)), (proj2 (N.ltb_ge _ _)) by done. by rewrite IH.
  - rewrite He. cbn [app]. rewrite (scan_escape c e He). by rewrite IH.
Qed.

Lemma quote_codepoints s rest : codepoints (json_quote s) ++ rest = 34%N :: concat (json_escape <$> codepoints s) ++ 34%N :: rest.
Proof. unfold json_quote. cbn [codepoints app]. by rewrite <- app_assoc. Qed.

(** *** Numbers *)

Lemma skip_digits_delim l rest : delim rest -> skip_digits (l ++ rest) = skip_digits l ++ rest.
Proof.
  intros Hd. induction l as [|c l IH]; cbn; [|by destruct (digit c)]. destruct rest as [|c rest]; [done|]. by destruct Hd as [->|[->| ->]].
Qed.
Lemma match_int_delim l r rest : match_int l = Some r -> delim rest -> match_int (l ++ rest) = Some (r ++ rest).
Proof.
  destruct l as [|c l]; [done|]. cbn. intros Hr Hd. destruct (c =? 48)%N; [by injection Hr as ->|]. destruct (digit c); [|done].
  injection Hr as <-. by rewrite skip_digits_delim.
Qed.
Lemma match_digits_delim l r rest : match_digits l = Some r -> delim rest -> match_digits (l ++ rest) = Some (r ++ rest).
Proof.
  destruct l as [|c l]; [done|]. cbn. intros Hr Hd. destruct (digit c); [|done]. injection Hr as <-. by rewrite skip_digits_delim.
Qed.
Lemma match_minus_app l rest : l <> [] -> match_minus (l ++ rest) = match_minus l ++ rest.
Proof. destruct l as [|c l]; [done|]. intros _. destruct (decide (c = 45%N)) as [->|Hc]; [done|]. cbn. by repeat (case_match; try done). Qed.

Lemma fraction_rest_delim l r rest : match_fraction l = Some r -> delim rest -> fraction_rest (l ++ rest) = (r ++ rest, negb (bool_decide (l = r))).
Proof.
  intros Hr Hd. destruct l as [|c l].
  - injection Hr as <-. rewrite bool_decide_true by done. destruct rest as [|c rest]; [done|]. by destruct Hd as [->|[->| ->]].
  - destruct (decide (c = 46%N)) as [->|Hc].
    + cbn [app fraction_rest N.eqb Pos.eqb]. cbn in Hr. rewrite (match_digits_delim _ _ _ Hr Hd). rewrite bool_decide_false; [done|].
      intros <-. apply match_digits_consumed, consumed_length in Hr. cbn in Hr. lia.
    + assert (match_fraction (c :: l) = Some (c :: l)) as E by (cbn; repeat (case_match; try done)). rewrite E in Hr. injection Hr as <-.
      cbn [app fraction_rest]. rewrite (proj2 (N.eqb_neq _ _)) by done. by rewrite bool_decide_true.
Qed.
Lemma exponent_rest_delim l rest : match_exponent l = Some [] -> delim rest -> exponent_rest (l ++ rest) = (rest, negb (bool_decide (l = []))).
Proof.
  intros Hr Hd. destruct l as [|c l].
  - rewrite bool_decide_true by done. destruct rest as [|c rest]; [done|]. by destruct Hd as [->|[->| ->]].
  - cbn [app exponent_rest]. cbn [match_exponent] in Hr. destruct ((c =? 101) || (c =? 69))%N; [|done].
    destruct l as [|s l]; [done|]. cbn [app]. rewrite bool_decide_false by done.
    destruct ((s =? 43) || (s =? 45))%N; [by rewrite (match_digits_delim _ _ _ Hr Hd)|].
    rewrite app_comm_cons. by rewrite (match_digits_delim (s :: l) _ rest Hr Hd).
Qed.

(** A number token in front of a delimiter is matched as a whole. *)
Lemma number_rest_token t rest : _NUMBER t = true -> delim rest -> number_rest (codepoints t ++ rest) = Some (rest, negb (_INTEGER t)).
Proof.
  intros Ht Hd. destruct (number_chars t Ht) as [_ (c & l & Hcl & _)]. unfold _NUMBER in Ht. unfold number_rest, _INTEGER.
  rewrite match_minus_app by congruence. destruct (match_int (match_minus (codepoints t))) as [r1|] eqn:H1; [|done].
  rewrite (match_int_delim _ _ _ H1 Hd). destruct (match_fraction r1) as [r2|] eqn:H2; [|done]. rewrite (fraction_rest_delim _ _ _ H2 Hd).
  destruct (match_exponent r2) as [[|]|] eqn:H3; try done. rewrite (exponent_rest_delim _ _ H3 Hd). do 2 f_equal.
  destruct r1 as [|x r1]; [injection H2 as <-; done|]. destruct r2 as [|y r2]; [by rewrite bool_decide_false|].
  by rewrite orb_true_r.
Qed.

(** The strings of a value hold code points. *)
Fixpoint code_points (v : json) : Prop :=
  match v with
  | JStr s => text_ok s
  | JList l => foldr (fun x p => code_points x /\ p) True l
  | JDict m => foldr (fun p q => (text_ok (key_text p.1) /\ code_points p.2) /\ q) True m
  | _ => True
  end.

Lemma code_points_obj m : code_points (obj m) <-> Forall (fun p => text_ok p.1 /\ code_points p.2) m.
Proof. unfold obj. cbn [code_points]. induction m as [|p m IH]; cbn; [done|]. rewrite IH, Forall_cons. tauto. Qed.

(** Digits without needless zeros are as many as the value needs. *)
Lemma digits_lower l c : digits (c :: l) -> c <> 48%N -> power l <= int_digits (c :: l).
Proof.
  intros [Hc Hl]%Forall_cons Hne. change (c :: l) with ([c] ++ l). rewrite int_digits_app.
  assert (0 <= int_digits l). { clear -Hl. induction l as [|d l IH] using rev_ind; [done|]. apply Forall_app in Hl as [Hl [Hd _]%Forall_cons].
    rewrite int_digits_app. unfold digit in Hd. apply andb_true_iff in Hd as [?%N.leb_le ?%N.leb_le]. change (power [d]) with 10.
    unfold int_digits at 2. cbn. specialize (IH Hl). lia. }
  assert (1 <= int_digits [c]). { unfold digit in Hc. apply andb_true_iff in Hc as [?%N.leb_le ?%N.leb_le]. unfold int_digits. cbn. lia. }
  assert (0 < power l) by (unfold power; lia). nia.
Qed.

Section Reading.
Context (float_repr : spec_float -> pystr) (float_of : pystr -> spec_float).
Abbreviation scan_once := (scan_once float_of object_pairs invalid_constant).
Abbreviation text v := (codepoints (json_text float_repr v)).
Abbreviation faithful := (is_json float_repr float_of).

Lemma integer_token z : exists c l, text (JInt z) = c :: l /\ (c = 45%N \/ digit c = true) /\ _INTEGER (str_of_Z z) = true /\
  (Z.abs z <= _MAX_SAFE_INTEGER -> number_value float_of (text (JInt z)) false = Ok (JInt z)).
Proof.
  cbn [json_text]. destruct (str_of_Z_digits z) as (c & l & Hs & Hd & Hv & Hz). pose proof Hd as [Hc Hl]%Forall_cons.
  assert (match_minus ((if z <? 0 then [45%N] else []) ++ c :: l) = c :: l) as Hm by (destruct (z <? 0); [done|by apply match_minus_digit]).
  assert (_INTEGER (str_of_Z z) = true) as Hint.
  { unfold _INTEGER. rewrite Hs, Hm. destruct (decide (c = 48%N)) as [->|Hne]; [by rewrite (Hz eq_refl)|by rewrite match_int_all]. }
  rewrite Hs. destruct (Z.ltb_spec z 0) as [Hneg|Hpos]; [exists 45%N, (c :: l)|exists c, l]; (split_and!; [done|by auto|done|]); intros Hsafe;
    unfold number_value; cbn [app] in Hm |- *; rewrite Hm;
    (assert (Z.of_nat (length (c :: l)) <= 4300) as Hlen;
      [destruct (decide (c = 48%N)) as [->|Hne]; [rewrite (Hz eq_refl); done|];
       pose proof (digits_lower l c Hd Hne) as Hp; unfold power in Hp; unfold _MAX_SAFE_INTEGER in Hsafe;
       assert (10 ^ Z.of_nat (length l) < 10 ^ 16) as Hlt by lia; apply Z.pow_lt_mono_r_iff in Hlt; cbn [length]; lia|]);
    rewrite (proj2 (Z.ltb_ge _ _)) by done; cbn [reject_if rbind]; do 2 f_equal.
  - rewrite bool_decide_false by (intros E; apply (f_equal length) in E; cbn in E; lia). lia.
  - rewrite bool_decide_true by done. lia.
Qed.

(** What follows a number token is no literal. *)
Lemma number_no_literal t rest : _NUMBER t = true ->
  scan_literal float_of (literals invalid_constant) (codepoints t ++ rest) = scan_number float_of (codepoints t ++ rest).
Proof.
  intros Ht. unfold _NUMBER in Ht. destruct (match_int _) as [r|] eqn:H1; [|done]. apply match_int_head in H1 as (c & l & Hcl & Hc).
  unfold digit in Hc. apply andb_true_iff in Hc as [?%N.leb_le ?%N.leb_le].
  assert (forall c0 w d l0, c0 <> d -> after_text (c0 :: w) (d :: l0) = None) as Hne.
  { intros c0 w d l0 Hd. cbn [after_text]. by rewrite (proj2 (N.eqb_neq _ _)). }
  destruct (codepoints t) as [|x l0]; [done|]. unfold literals. cbn [scan_literal app codepoints].
  destruct (decide (x = 45%N)) as [->|Hx].
  - cbn in Hcl. subst l0. rewrite !Hne by done. change (after_text ?w (45%N :: ?l)) with (after_text (tail w) l). cbn [tail app]. by rewrite Hne by lia.
  - assert (match_minus (x :: l0) = x :: l0) as Hm by (cbn; repeat (case_match; try done)). rewrite Hm in Hcl. injection Hcl as -> ->.
    by rewrite !Hne by lia.
Qed.

Lemma scan_once_cons n c l :
  scan_once n (c :: l) =
    if (c =? 34)%N then let? r := scan_string l in Ok (JStr (PyStr (fst r)), snd r)
    else if (c =? 123)%N then
      match n with
      | O => Raise RecursionError
      | S n => let? r := scan_all (scan_member (scan_once n)) 125 l in let? o := object_pairs (fst r) in Ok (o, snd r)
      end
    else if (c =? 91)%N then
      match n with O => Raise RecursionError | S n => let? r := scan_all (scan_once n) 93 l in Ok (JList (fst r), snd r) end
    else scan_literal float_of (literals invalid_constant) (c :: l).
Proof. by destruct n. Qed.

Lemma scan_token n t rest v : _NUMBER t = true -> delim rest -> number_value float_of (codepoints t) (negb (_INTEGER t)) = Ok v ->
  scan_once n (codepoints t ++ rest) = Ok (v, rest).
Proof.
  intros Ht Hd Hv. destruct (number_chars t Ht) as [_ (c & l & Hcl & Hc)]. pose proof (number_no_literal t rest Ht) as Hlit.
  pose proof (number_rest_token t rest Ht Hd) as Hr. rewrite Hcl in *. cbn [app] in *. rewrite scan_once_cons.
  assert ((c =? 34)%N = false /\ (c =? 123)%N = false /\ (c =? 91)%N = false) as (-> & -> & ->).
  { destruct Hc as [->|Hc]; [done|]. unfold digit in Hc. apply andb_true_iff in Hc as [?%N.leb_le ?%N.leb_le]. rewrite !N.eqb_neq. lia. }
  rewrite Hlit. unfold scan_number. rewrite Hr. assert (take (length (c :: l ++ rest) - length rest) (c :: l ++ rest) = c :: l) as ->; [|by rewrite Hv].
  rewrite app_comm_cons, length_app, Nat.add_sub, take_app_length. done.
Qed.

(** *** Containers *)

Lemma skip_unblank l : unblank l -> skip_blank l = l.
Proof. destruct l as [|c l]; cbn; [done|]. by intros ->. Qed.

(** A reader of items reads the text of one in front of a delimiter. *)
Definition item_reads {A B} (item : list N -> result exn (A * list N)) (txt : B -> list N) (out : B -> A) (closing : N) (b : B) : Prop :=
  (forall rest, delim rest -> item (txt b ++ rest) = Ok (out b, rest)) /\
  exists c t, txt b = c :: t /\ is_blank c = false /\ c <> closing.

Lemma scan_items_text {A B} (item : list N -> result exn (A * list N)) (txt : B -> list N) (out : B -> A) closing l :
  closing = 93%N \/ closing = 125%N -> forall fuel acc x rest,
  Forall (item_reads item txt out closing) (x :: l) -> (length (x :: l) <= fuel)%nat ->
  scan_items item closing fuel acc (joined (map txt (x :: l)) ++ closing :: rest) = Ok (acc ++ map out (x :: l), rest).
Proof.
  intros Hclosing. induction l as [|y l IH]; intros fuel acc x rest Hall Hf; (destruct fuel as [|fuel]; [cbn in Hf; lia|]);
    apply Forall_cons in Hall as [[Hread _] Hall]; cbn [scan_items map].
  - cbn [joined]. rewrite Hread by (cbn; destruct Hclosing; subst; auto). cbn [rbind fst snd]. rewrite skip_unblank by (by destruct Hclosing; subst).
    by rewrite N.eqb_refl.
  - rewrite joined_cons, <- app_assoc. cbn [app]. rewrite Hread by by left. cbn [rbind fst snd skip_blank]. change (is_blank 44) with false. cbv iota.
    assert ((44 =? closing)%N = false) as -> by by destruct Hclosing; subst. change (44 =? 44)%N with true. cbv iota. pose proof Hall as [(_ & c & t & Hy & Hb & _) _]%Forall_cons.
    rewrite skip_unblank; [|cbn [map]; apply joined_unblank; eauto].
    change (txt y :: map txt l) with (map txt (y :: l)). rewrite IH; [|done|cbn in *; lia]. by rewrite <- app_assoc.
Qed.

Lemma scan_all_text {A B} (item : list N -> result exn (A * list N)) (txt : B -> list N) (out : B -> A) closing l rest :
  closing = 93%N \/ closing = 125%N -> Forall (item_reads item txt out closing) l ->
  scan_all item closing (joined (map txt l) ++ closing :: rest) = Ok (map out l, rest).
Proof.
  intros Hclosing Hall. unfold scan_all. destruct l as [|x l].
  { cbn [map joined app]. rewrite skip_unblank by (by destruct Hclosing; subst). by rewrite N.eqb_refl. }
  pose proof Hall as [(_ & c & t & Hx & Hb & Hne) _]%Forall_cons. rewrite skip_unblank by (cbn [map]; apply joined_unblank; eauto).
  assert (exists body, joined (map txt (x :: l)) ++ closing :: rest = c :: body) as (body & Hbody).
  { cbn [map]. destruct (map txt l); [|rewrite joined_cons]; cbn [joined]; rewrite Hx; eauto. }
  rewrite Hbody. rewrite (proj2 (N.eqb_neq _ _)) by done. rewrite <- Hbody. rewrite (scan_items_text item txt out); [done..|].
  rewrite length_app. rewrite <- (length_map txt (x :: l)). etransitivity; [apply joined_count|lia].
  intros y Hy. apply list_elem_of_fmap in Hy as (b & -> & Hb'). rewrite Forall_forall in Hall. destruct (Hall b Hb') as (_ & c' & t' & -> & _). done.
Qed.

Lemma collect_fresh pairs : forall output, NoDup (output ++ pairs).*1 -> collect_pairs output pairs = Ok (output ++ pairs).
Proof.
  induction pairs as [|[k v] pairs IH]; intros output Hnd; cbn [collect_pairs]; [by rewrite app_nil_r|].
  assert (k ∉ output.*1) as Hk. { rewrite fmap_app in Hnd. apply NoDup_app in Hnd as (_ & Hnd & _). intros Hin. by eapply Hnd, list_elem_of_here. }
  rewrite (proj2 (d_mem_false _ _)) by by apply d_get_None. cbn [reject_if rbind]. rewrite d_set_fresh by done.
  rewrite IH; rewrite <- app_assoc; done.
Qed.

(** The hook accepts exactly the members that are pairwise distinct, in their order. *)
Theorem object_pairs_exact pairs v : object_pairs pairs = Ok v <-> NoDup pairs.*1 /\ v = obj pairs.
Proof.
  unfold object_pairs. split.
  - intros (d & Hd & [= <-])%rbind_ok. enough (forall output, collect_pairs output pairs = Ok d -> NoDup output.*1 -> NoDup (output ++ pairs).*1) as Hnd.
    { specialize (Hnd [] Hd ltac:(constructor)). split; [done|]. rewrite (collect_fresh pairs []) in Hd by done. by injection Hd as <-. }
    clear. induction pairs as [|[k x] pairs IH]; intros output; cbn [collect_pairs]; [by rewrite app_nil_r|].
    intros ([] & Hm%reject_if_ok%d_mem_false%d_get_None & Hc)%rbind_ok Hnd. rewrite d_set_fresh in Hc by done. apply IH in Hc; [by rewrite <- app_assoc in Hc|].
    rewrite fmap_app. apply NoDup_app. split_and!; [done|intros y Hy ->%list_elem_of_singleton; done|apply NoDup_singleton].
  - intros [Hnd ->]. by rewrite collect_fresh.
Qed.

(** Reading a value in front of a delimiter yields it with its members in order. *)
Definition value_reads (n : nat) (v : json) : Prop :=
  forall rest, delim rest -> scan_once n (text v ++ rest) = Ok (sort_members v, rest).

Definition json_member (p : pystr * json) : list N := codepoints (json_quote p.1) ++ 58%N :: text p.2.
Definition sorted_member (p : pystr * json) : pystr * json := (p.1, sort_members p.2).

Lemma member_reads n p : value_reads n p.2 -> unblank (text p.2) -> text p.2 <> [] ->
  item_reads (scan_member (scan_once n)) json_member sorted_member 125 p.
Proof.
  intros Hv Hu Hne. split; [|by eexists _, _]. intros rest Hd. unfold json_member. rewrite <- app_assoc, quote_codepoints.
  cbn [scan_member N.eqb Pos.eqb app]. rewrite scan_string_text. cbn [rbind fst snd skip_blank is_blank N.eqb Pos.eqb orb].
  rewrite skip_unblank by (destruct (text p.2); done). rewrite Hv by done. by destruct p as [[]].
Qed.

Lemma text_obj m : text (obj m) = 123%N :: joined (map json_member (sorted_by str_compare fst m)) ++ [125%N].
Proof.
  unfold obj. cbn [json_text]. unfold str_app at 1 2. cbn [codepoints app]. rewrite join_joined, !map_map. cbn [fst snd key_text].
  rewrite (sorted_by_map str_compare fst fst) by done. by rewrite !map_map.
Qed.
Lemma text_list l : text (JList l) = 91%N :: joined (map (fun v => text v) l) ++ [93%N].
Proof. cbn [json_text]. unfold str_app. cbn [codepoints app]. by rewrite join_joined, map_map. Qed.
Lemma sort_obj m : sort_members (obj m) = obj (map sorted_member (sorted_by str_compare fst m)).
Proof.
  unfold obj. cbn [sort_members]. rewrite map_map. cbn [fst snd]. rewrite (sorted_by_map str_compare fst (fun p => key_text p.1)) by done.
  f_equal. rewrite !map_map. done.
Qed.

(** *** Values *)

(** An I-JSON object is an object with string keys. *)
Lemma ijson_obj m : ijson (JDict m) -> exists m', JDict m = obj m' /\ Forall (fun p => str_ok p.1 /\ ijson p.2) m'.
Proof.
  cbn [ijson]. induction m as [|[[k|] v] m IH]; cbn; [by exists []| |by intros []]. intros [Hkv Hm]. apply IH in Hm as (m' & [= ->] & Hm').
  exists ((k, v) :: m'). split; [done|]. by constructor.
Qed.

Lemma is_json_obj m : faithful (obj m) <-> Forall (fun p => faithful p.2) m.
Proof.
  unfold obj. cbn [is_json]. induction m as [|p m IH]; cbn; [done|]. rewrite IH, Forall_cons. tauto.
Qed.
Lemma is_json_list l : faithful (JList l) <-> Forall faithful l.
Proof. cbn [is_json]. apply foldr_forall. Qed.

Lemma json_text_head v : faithful v -> exists c l, text v = c :: l /\ is_blank c = false /\ c <> 93%N /\ c <> 125%N /\ (c < 128)%N.
Proof.
  assert (forall c, c = 45%N \/ digit c = true -> is_blank c = false /\ c <> 93%N /\ c <> 125%N /\ (c < 128)%N) as Hnum.
  { intros c [->|Hc]; [done|]. unfold digit in Hc. apply andb_true_iff in Hc as [?%N.leb_le ?%N.leb_le]. unfold is_blank. by ncases. }
  destruct v as [|[]|n|f|s|l|m|t]; intros Hv; try done; try (by eexists _, _).
  - destruct (integer_token n) as (c & l & Hcl & Hc & _). exists c, l. split; [done|by apply Hnum].
  - destruct Hv as (_ & Ht & _). destruct (number_chars _ Ht) as [_ (c & l & Hcl & Hc)]. exists c, l. split; [done|by apply Hnum].
Qed.
Lemma json_text_unblank v : faithful v -> unblank (text v) /\ text v <> [].
Proof. intros Hv. destruct (json_text_head v Hv) as (c & l & -> & Hc & _). done. Qed.

Lemma list_reads n l : (forall v, v ∈ l -> faithful v /\ value_reads n v) -> value_reads (S n) (JList l).
Proof.
  intros Hl rest _. rewrite text_list. cbn [app]. rewrite scan_once_cons. cbn [N.eqb Pos.eqb]. rewrite <- app_assoc. cbn [app].
  rewrite (scan_all_text _ (fun v => text v) sort_members); [done|by left|]. apply Forall_forall. intros v Hv. destruct (Hl v Hv) as [Hf Hr].
  split; [exact Hr|]. destruct (json_text_head v Hf) as (c & t & Ht & Hb & Hne & _). by exists c, t.
Qed.

Lemma obj_reads n m : NoDup m.*1 -> (forall p, p ∈ m -> faithful p.2 /\ value_reads n p.2) -> value_reads (S n) (obj m).
Proof.
  intros Hnd Hm rest _. rewrite text_obj, sort_obj. cbn [app]. rewrite scan_once_cons. cbn [N.eqb Pos.eqb]. rewrite <- app_assoc. cbn [app].
  assert (sorted_by str_compare fst m ≡ₚ m) as Hp by apply sorted_by_perm. rewrite <- Hp in Hnd. setoid_rewrite <- Hp in Hm.
  revert Hnd Hm. generalize (sorted_by str_compare fst m). clear Hp m. intros m Hnd Hm.
  rewrite (scan_all_text _ json_member sorted_member); [|by right|].
  - cbn [rbind fst snd]. unfold object_pairs. rewrite collect_fresh; [done|]. cbn [app]. rewrite <- list_fmap_compose. exact Hnd.
  - apply Forall_forall. intros p Hpm. destruct (Hm p Hpm) as [Hf Hr]. destruct (json_text_unblank _ Hf). by apply member_reads.
Qed.

Lemma most_elem {A} (size : A -> nat) x l : x ∈ l -> (size x <= most size l)%nat.
Proof. induction 1 as [x l|x y l _ IH]; rewrite most_cons; lia. Qed.

(** Every faithful I-JSON value is read where the scanner can enter its containers. *)
Lemma text_reads v : forall n, faithful v -> ijson v -> distinct v -> (nested v <= n)%nat -> value_reads n v.
Proof.
  induction v using json_nested_ind; intros k Hf Hi Hd Hl; try done; try (intros rest _; by destruct k).
  - intros rest _. by destruct k, b.
  - intros rest Hdel. destruct (integer_token n) as (c & l & Hcl & _ & Hint & Hval). cbn [json_text] in *.
    apply scan_token; [by apply integer_number|done|]. rewrite Hint. by apply Hval.
  - intros rest Hdel. destruct Hf as (_ & Hnum & Hint & Hback). cbn [json_text]. apply scan_token; [done|done|]. rewrite Hint. cbn [negb number_value].
    replace (PyStr (codepoints (float_repr f))) with (float_repr f) by by destruct (float_repr f). by rewrite Hback.
  - intros rest _. cbn [json_text]. rewrite quote_codepoints, scan_once_cons. cbn [N.eqb Pos.eqb]. rewrite scan_string_text. by destruct s.
  - apply is_json_list in Hf. apply distinct_list in Hd. cbn [ijson] in Hi. rewrite foldr_forall in Hi. rewrite Forall_forall in *. rewrite nested_list in Hl.
    destruct k as [|k]; [lia|]. apply list_reads. intros v Hv. split; [by apply Hf|]. apply H; [done|by apply Hf|by apply Hi|by apply Hd|].
    pose proof (most_elem nested v l Hv). lia.
  - destruct (ijson_obj l Hi) as (m & Hm & Him). rewrite Hm in *. apply is_json_obj in Hf. apply distinct_obj in Hd as [Hnd Hd]. rewrite nested_obj in Hl.
    injection Hm as ->. rewrite Forall_map in H. cbn [snd] in H. rewrite Forall_forall in *. destruct k as [|k]; [lia|]. apply obj_reads; [done|].
    intros p Hp. split; [by apply Hf|]. apply H; [done|by apply Hf|by apply Him|by apply Hd|].
    pose proof (most_elem (fun p => nested p.2) p m Hp). lia.
Qed.

Lemma decode_text_reads `{!Recursion} v : faithful v -> ijson v -> distinct v -> (nested v <= scan_limit)%nat ->
  decode_text float_of object_pairs invalid_constant (text v) = Ok (sort_members v).
Proof.
  intros Hf Hi Hd Hn. unfold decode_text. rewrite skip_unblank by by apply json_text_unblank.
  pose proof (text_reads v scan_limit Hf Hi Hd Hn [] I) as Hr. rewrite app_nil_r in Hr. by rewrite Hr.
Qed.

(** *** Bytes *)

(** The characters of a text are scalars, and none is a control character. *)
Definition visible (c : N) : Prop := scalar c /\ (32 <= c)%N.

Lemma visible_compute l : forallb (fun c => (c <? 1114112)%N && negb (is_surrogate c) && (32 <=? c)%N) l = true -> Forall visible l.
Proof.
  rewrite List.forallb_forall, List.Forall_forall. intros Hl c Hc%Hl. unfold visible, scalar. rewrite !andb_true_iff, N.ltb_lt, N.leb_le, negb_true_iff in Hc. tauto.
Qed.

Lemma quote_visible s : text_ok s -> str_ok s -> Forall visible (codepoints (json_quote s)).
Proof.
  unfold text_ok, str_ok. intros Hok Hs. cbn [json_quote codepoints app]. constructor; [done|]. apply Forall_app. split; [|by apply visible_compute].
  apply Forall_concat, Forall_map. rewrite Forall_forall in *. intros c Hc. destruct (N.ltb_spec c 32) as [Hlt|Hge].
  - assert (exists m, (m < 32)%nat /\ c = N.of_nat m) as (m & Hm & ->) by (exists (N.to_nat c); lia).
    do 32 (destruct m as [|m]; [by apply visible_compute|]). lia.
  - unfold json_escape. ncases; try (by apply visible_compute); try lia. apply Forall_singleton. split; [|done]. split; [by apply Hok|by apply Hs].
Qed.

Lemma joined_forall (P : N -> Prop) ls : P 44%N -> Forall (Forall P) ls -> Forall P (joined ls).
Proof.
  intros Hc. induction ls as [|x ls IH]; intros Hl; [by constructor|]. apply Forall_cons in Hl as [Hx Hl].
  destruct ls as [|y ls]; [done|]. rewrite joined_cons. apply Forall_app. split; [done|]. constructor; [done|by apply IH].
Qed.

Lemma number_char_visible c : is_number_char c = true -> visible c.
Proof.
  intros Hc. split; [by apply number_char_scalar|]. revert Hc. unfold is_number_char, digit. ncases; done || lia.
Qed.

Lemma text_visible v : faithful v -> ijson v -> code_points v -> Forall visible (text v).
Proof.
  induction v using json_nested_ind; intros Hf Hi Hc; try done; try by apply visible_compute.
  - destruct b; by apply visible_compute.
  - destruct (integer_token n) as (_ & _ & _ & _ & Hint & _). cbn [json_text].
    destruct (number_chars _ (integer_number _ Hint)) as [Hall _]. eapply Forall_impl; [exact Hall|apply number_char_visible].
  - destruct Hf as (_ & Hnum & _). destruct (number_chars _ Hnum) as [Hall _]. eapply Forall_impl; [exact Hall|apply number_char_visible].
  - by apply quote_visible.
  - apply is_json_list in Hf. cbn [ijson code_points] in Hi, Hc. rewrite foldr_forall in Hi, Hc. rewrite text_list. constructor; [done|].
    apply Forall_app. split; [|by apply visible_compute]. apply joined_forall; [done|]. apply Forall_map. rewrite Forall_forall in *.
    intros v Hv. apply H; [done|by apply Hf|by apply Hi|by apply Hc].
  - destruct (ijson_obj l Hi) as (m & Hm & Him). rewrite Hm in *. apply is_json_obj in Hf. apply code_points_obj in Hc.
    injection Hm as ->. rewrite Forall_map in H. cbn [snd] in H. rewrite text_obj. constructor; [done|].
    apply Forall_app. split; [|by apply visible_compute]. apply joined_forall; [done|]. apply Forall_map. rewrite sorted_by_perm. rewrite Forall_forall in *.
    intros p Hp. destruct (Hc p Hp), (Him p Hp). unfold json_member. apply Forall_app. split; [by apply quote_visible|].
    constructor; [done|]. apply H; [done|by apply Hf|done..].
Qed.

Lemma utf8_pass_enc cs : Forall scalar cs -> forall fuel, (length (enc_all cs) <= fuel)%nat -> utf8_pass fuel (enc_all cs) = Ok cs.
Proof.
  induction 1 as [|c cs Hc _ IH]; intros fuel Hf; [by destruct fuel|]. destruct (decode_enc c Hc) as (b & l & Henc & _ & Hfull & _).
  assert (enc_all (c :: cs) = b :: l ++ enc_all cs) as He by (unfold enc_all; cbn; by rewrite Henc). rewrite He in *.
  destruct fuel as [|fuel]; [cbn in Hf; lia|]. cbn [utf8_pass length] in *. rewrite Hfull, IH; [done|]. rewrite length_app in Hf. lia.
Qed.

(** The first byte of a visible character is not zero, and an ASCII one is its own. *)
Lemma enc_head c : visible c -> exists b l, enc c = b :: l /\ b <> 0%N /\ ((c < 128)%N -> b = c /\ l = []).
Proof.
  intros [Hc Hv]. apply scalar_range in Hc. unfold enc, utf8_encode_cp.
  destruct (N.ltb_spec c 128); [exists c, []; split_and!; [done|lia|done]|].
  destruct (N.ltb_spec c 2048); [do 2 eexists; split_and!; [done|apply N.neq_0_lt_0, N.add_pos_l; lia|intros ?; lia]|].
  destruct ((55296 <=? c) && (c <=? 57343))%N eqn:Es; [exfalso; apply andb_true_iff in Es as [?%N.leb_le ?%N.leb_le]; lia|].
  destruct (N.ltb_spec c 65536); do 2 eexists; (split_and!; [done|apply N.neq_0_lt_0, N.add_pos_l; lia|intros ?; lia]).
Qed.

(** Text that starts with an ASCII character is recognised as UTF-8. *)
Lemma decode_detected_utf8 c cs : (c < 128)%N -> Forall visible (c :: cs) -> decode_detected (enc_all (c :: cs)) = Ok (PyStr (c :: cs)).
Proof.
  intros Hc Hall. assert (utf8_text (enc_all (c :: cs)) = Ok (PyStr (c :: cs))) as Hu.
  { unfold utf8_text. rewrite utf8_pass_enc; [done| |done]. eapply Forall_impl; [exact Hall|by intros ? []]. }
  rewrite <- Hu. apply Forall_cons in Hall as [Hvc Hall]. destruct (enc_head c Hvc) as (b & l & He & Hb & Hascii). destruct (Hascii Hc) as [-> ->].
  assert (enc_all (c :: cs) = c :: enc_all cs) as -> by (unfold enc_all; cbn; by rewrite He).
  assert (enc_all cs = [] \/ exists b l, enc_all cs = b :: l /\ b <> 0%N) as Hnext.
  { destruct Hall as [|d cs Hd _]; [by left|right]. destruct (enc_head d Hd) as (b & l & Hd' & Hne & _). unfold enc_all. cbn. rewrite Hd'. by eexists _, _. }
  unfold decode_detected, byte_order_marks. cbn [decode_marked after_text]. rewrite (proj2 (N.eqb_neq 0 c)), (proj2 (N.eqb_neq 255 c)), (proj2 (N.eqb_neq 254 c)), (proj2 (N.eqb_neq 239 c)) by (done || lia).
  apply N.eqb_neq in Hb. destruct Hnext as [->|(b & [|b2 [|b3 l]] & -> & Hb1%N.eqb_neq)]; cbn [decode_unmarked]; by rewrite ?Hb, ?Hb1.
Qed.

(** *** Sorting *)

Lemma ijson_sort v : ijson v -> ijson (sort_members v).
Proof.
  induction v using json_nested_ind; intros Hi; try done.
  - cbn [ijson sort_members] in *. rewrite foldr_forall in *. apply Forall_map. rewrite Forall_forall in *. intros v Hv. by apply H, Hi.
  - destruct (ijson_obj l Hi) as (m & Hm & Him). rewrite Hm. rewrite sort_obj. injection Hm as ->. rewrite Forall_map in H. cbn [snd] in H.
    unfold obj. cbn [ijson]. rewrite (foldr_forall (fun kv => match fst kv with KeyStr s => str_ok s /\ ijson (snd kv) | KeyOther => False end)).
    rewrite !Forall_map. cbn. rewrite sorted_by_perm. rewrite Forall_forall in *. intros p Hp. destruct (Him p Hp). split; [done|by apply H].
Qed.

Lemma same_sort v : ijson v -> same v (sort_members v).
Proof.
  induction v using json_nested_ind; intros Hi; try (by constructor).
  - cbn [ijson sort_members] in *. rewrite foldr_forall in Hi. apply same_items. apply Forall2_fmap_r, Forall_Forall2_diag.
    rewrite Forall_forall in *. intros v Hv. by apply H, Hi.
  - destruct (ijson_obj l Hi) as (m & Hm & Him). rewrite Hm. rewrite sort_obj. injection Hm as ->. rewrite Forall_map in H. cbn [snd] in H.
    eapply same_members; [symmetry; apply (sorted_by_perm str_compare fst)|]. apply Forall2_fmap_r, Forall_Forall2_diag. rewrite sorted_by_perm.
    rewrite Forall_forall in *. intros p Hp. split; [done|]. by apply H, Him.
Qed.
End Reading.

(** Equal values take as many calls. *)
Lemma most_perm {A} (size : A -> nat) l l' : l ≡ₚ l' -> most size l = most size l'.
Proof. induction 1; rewrite ?most_cons; lia. Qed.
Lemma frames_obj m : frames (obj m) = S (most (fun p => 2 `max` frames p.2)%nat m).
Proof. unfold obj, most. cbn [frames]. f_equal. induction m as [|p m IH]; [done|]. cbn [map foldr fst snd]. by rewrite IH. Qed.
Lemma same_frames v v' : same v v' -> frames v = frames v'.
Proof.
  induction 1 as [v|l l' Hl|m m' l Hp Hl] using same_nested_ind; [done| |].
  - change (S (most frames l) = S (most frames l')). f_equal. induction Hl as [|x y l l' Hx _ IH]; [done|]. rewrite !most_cons. lia.
  - rewrite !frames_obj, (most_perm _ _ _ Hp). f_equal. clear Hp. induction Hl as [|p q m' l [_ Hx] _ IH]; [done|]. rewrite !most_cons. cbn [fst snd]. lia.
Qed.

Lemma parse_text_back `{!Recursion} float_repr float_of v payload :
  is_json float_repr float_of v -> ijson v -> distinct v -> code_points v -> (nested v <= scan_limit)%nat -> (frames v <= call_limit)%nat ->
  str_encode (json_text float_repr v) = Ok payload ->
  parse_ijson float_of (PayloadBytes payload) = Ok (sort_members v) /\ parse_ijson float_of (PayloadText (json_text float_repr v)) = Ok (sort_members v).
Proof.
  intros Hf Hi Hd Hc Hn Hfr Hpay. pose proof (text_visible float_repr float_of v Hf Hi Hc) as Hall. pose proof (decode_text_reads float_repr float_of v Hf Hi Hd Hn) as Hr.
  rewrite (same_frames _ _ (same_sort v Hi)) in Hfr. pose proof (proj2 (validate_ijson_accepts _) (conj (ijson_sort v Hi) Hfr)) as Hok. apply str_encode_enc in Hpay as ->.
  destruct (json_text_head float_repr float_of v Hf) as (c & l & Hcl & _ & _ & _ & Hascii). unfold parse_ijson, loads_bytes, loads_str.
  rewrite Hcl in *. rewrite decode_detected_utf8 by done. cbn [rbind codepoints]. rewrite Hr. cbn [rbind].
  rewrite (proj2 (N.eqb_neq _ _)) by (intros ->; done). cbn [rbind]. by rewrite Hok.
Qed.

(** C39. Canonical text is read back: of an I-JSON value whose floats are written faithfully,
    and which nests within the recursion limits, [parse_ijson] of the text [json.dumps] writes
    with sorted keys - the [str], or its UTF-8 bytes, whose encoding is detected - is the value
    with the members of its objects in key order, the same value in Python. *)
Theorem parse_ijson_round_trip `{!Recursion} float_repr float_of v payload :
  is_json float_repr float_of v -> ijson v -> distinct v -> code_points v -> (nested v <= scan_limit)%nat -> (frames v <= call_limit)%nat ->
  str_encode (json_text float_repr v) = Ok payload ->
  parse_ijson float_of (PayloadBytes payload) = Ok (sort_members v) /\
  parse_ijson float_of (PayloadText (json_text float_repr v)) = Ok (sort_members v) /\ same v (sort_members v).
Proof.
  intros Hf Hi Hd Hc Hn Hfr Hpay. destruct (parse_text_back float_repr float_of v payload Hf Hi Hd Hc Hn Hfr Hpay) as [Hb Ht]. split_and!; [done..|by apply same_sort].
Qed.

(** An object with keys out of order, an escape, an astral character, integers and a float. *)
Definition demo_json : json :=
  JDict [(KeyStr "b", JList [JInt (-42); JNull; JFloat (S754_finite false 1 (-1)); JBool true]); (KeyStr "a", JStr (PyStr [34; 7; 128512; 233]%N))]%py.
Definition demo_repr (_ : spec_float) : pystr := "0.5".
Definition demo_float (_ : pystr) : spec_float := S754_finite false 1 (-1).
Definition demo_json_bytes : list N := Eval vm_compute in match str_encode (json_text demo_repr demo_json) with Ok b => b | Raise _ => [] end.

Section Interpreter.
#[local] Existing Instance usual_recursion.

Example parse_ijson_round_trip_witness :
  parse_ijson demo_float (PayloadBytes demo_json_bytes) = Ok (sort_members demo_json) /\
  parse_ijson demo_float (PayloadText (json_text demo_repr demo_json)) = Ok (sort_members demo_json) /\ same demo_json (sort_members demo_json).
Proof.
  apply parse_ijson_round_trip; [vm_compute; tauto| | | |vm_compute; lia|vm_compute; lia|by vm_compute].
  - apply (validate_ijson_accepts demo_json). by vm_compute.
  - cbn. split_and!; try done. apply (bool_decide_unpack (NoDup _)). by vm_compute.
  - cbn. split_and!; try done; by apply text_ok_compute.
Defined.

(** Nested arrays: read, refused while they are validated, refused while they are scanned. *)
Definition arrays (n : nat) : pystr := PyStr (replicate n 91%N ++ replicate n 93%N).
Example nested_arrays :
  (exists v, parse_ijson demo_float (PayloadText (arrays 990)) = Ok v) /\
  parse_ijson demo_float (PayloadText (arrays 991)) = Raise RecursionError /\
  parse_ijson demo_float (PayloadText (arrays 1501)) = Raise RecursionError.
Proof. split_and!; [eexists|..]; by vm_compute. Qed.
End Interpreter.
