(* ===== verification/Application.v ===== *)
(** * Commands, queries and decisions ([src/pytitect/application.py])

    The values a handler takes and returns, and the registries that dispatch to the handler
    bound to a name. *)
From Stdlib Require Import ZArith Lia.
From stdpp Require Import base list gmap.
From S2P Require Import Prelude Core Wire Calendar Messages.

(** [_named_json]. *)
Definition _named_json (name : pystr) (payload : json) (kind : pystr) : result exn unit :=
  reject_if (negb (trimmed name)) (ValueError (str_app kind " name must be non-empty and trimmed")) ??;
  validate_json_with Limits_default payload.

(** [Command], [Query], [DomainEvent] and [Task] are a name with a payload. *)
Record named := mkNamed { name : pystr; payload : json }.
Abbreviation Command := named.
Abbreviation Query := named.
Abbreviation DomainEvent := named.
Abbreviation Task := named.

Definition named_new (kind : pystr) (n : pystr) (p : json) : result exn named :=
  _named_json n p kind ??; Ok (mkNamed n p).
Definition Command_new : pystr -> json -> result exn Command := named_new "command".
Definition Query_new : pystr -> json -> result exn Query := named_new "query".
Definition DomainEvent_new : pystr -> json -> result exn DomainEvent := named_new "domain event".
Definition Task_new : pystr -> json -> result exn Task := named_new "task".

Record IntegrationEvent := mkIntegrationEvent { event_message : MessageValue }.

Record Decision := mkDecision {
  decision_result : json;
  domain_events : list DomainEvent;
  integration_events : list IntegrationEvent;
  commands : list Command;
  tasks : list Task
}.

Definition Decision_new (d : Decision) : result exn Decision :=
  validate_json_with Limits_default (decision_result d) ??; Ok d.

Record HandlingContext := mkContext {
  context_message_id : pystr;
  correlation_id : option pystr;
  causation_id : option pystr;
  context_attributes : dict pystr json
}.

Definition HandlingContext_new (message_id : pystr) (correlation causation : option pystr) (attributes : dict pystr json) :
    result exn HandlingContext :=
  reject_if (str_empty message_id) (ValueError "handling context requires a message ID") ??;
  validate_json_with Limits_default (JDict (map (fun p => (KeyStr p.1, p.2)) attributes)) ??;
  Ok (mkContext message_id correlation causation attributes).

(** ** Registries *)

Section Registry.
Context {W R : Type}.

(** A binding of a name to a handler of commands or queries. *)
Record binding := mkBinding { binding_name : pystr; handler : named -> HandlingContext -> M exn W R }.

Definition binding_new (kind : pystr) (b : binding) : result exn binding :=
  reject_if (str_empty (binding_name b)) (ValueError (str_app kind " binding name must not be empty")) ??; Ok b.

Abbreviation registry := (dict pystr (named -> HandlingContext -> M exn W R)).

(** [CommandRegistry(bindings)], [QueryRegistry(bindings)]. *)
Definition registry_new (kind : pystr) (bindings : list binding) : result exn registry :=
  fold_result (fun handlers b =>
    reject_if (d_mem (binding_name b) handlers)
      (ValueError (str_app "duplicate " (str_app kind (str_app " binding: " (binding_name b))))) ??;
    Ok (d_set (binding_name b) (handler b) handlers)) bindings [].

Definition names (handlers : registry) : list pystr := sorted_by str_compare (fun k => k) handlers.*1.

Definition handler_for (kind : pystr) (handlers : registry) (n : pystr) : result exn (named -> HandlingContext -> M exn W R) :=
  match d_get n handlers with
  | Some h => Ok h
  | None => Raise (LookupError (str_app "no " (str_app kind (str_app " handler for '" (str_app n "'")))))
  end.

Definition dispatch (handlers : registry) (c : Command) (context : HandlingContext) : M exn W R :=
  let! h := lift (handler_for "command" handlers (name c)) in
  h c context.
End Registry.
Arguments binding : clear implicits.
Abbreviation CommandRegistry W := (dict pystr (Command -> HandlingContext -> M exn W Decision)).
Abbreviation QueryRegistry W := (dict pystr (Query -> HandlingContext -> M exn W json)).

(** A query's answer is checked. *)
Definition dispatch_query {W} (handlers : QueryRegistry W) (q : Query) (context : HandlingContext) : M exn W json :=
  let! h := lift (handler_for "query" handlers (name q)) in
  let! r := h q context in
  validate_json r ;;;
  ret r.
