(* ===== verification/Maintenance.v ===== *)
(** * Retention and archival plans ([src/pytitect/maintenance.py])

    The plan values the stores' maintenance operations take, with their checks, the
    summary they return, and the selection every purge shares. *)
From Stdlib Require Import ZArith Lia.
From stdpp Require Import base list gmap.
From S2P Require Import Prelude.

Record MaintenanceSummary := mkMaintenanceSummary {
  selected : Z;
  affected : Z;
  summary_dry_run : bool
}.

Definition MaintenanceSummary_new {S} (selected affected : Z) (dry_run : bool) :
    M exn S MaintenanceSummary :=
  raise_if ((selected <? 0) || (affected <? 0) || (selected <? affected))
    (ValueError "maintenance counts must be non-negative and affected <= selected") ;;;
  raise_if (dry_run && negb (affected =? 0))
    (ValueError "dry-run maintenance cannot report affected records") ;;;
  ret (mkMaintenanceSummary selected affected dry_run).

(** [_MaintenancePlan] and its subclasses; [include_uncertain] is the extra field of the
    idempotency and receipt plans, [false] for the others. *)
Record MaintenancePlan := mkMaintenancePlan {
  cutoff : datetime;
  batch_size : Z;
  dry_run : bool;
  include_uncertain : bool
}.

Definition MaintenancePlan_new {S} (cutoff : datetime) (batch_size : Z)
    (dry_run include_uncertain : bool) : M exn S MaintenancePlan :=
  check_utc cutoff "maintenance cutoff must be timezone-aware UTC" ;;;
  raise_if (batch_size <=? 0) (ValueError "maintenance batch_size must be a positive integer") ;;;
  ret (mkMaintenancePlan cutoff batch_size dry_run include_uncertain).

(** [sorted(candidates, key=...)[: plan.batch_size]]. *)
Definition plan_selection {A K} (cmp : K -> K -> comparison) (key : A -> K)
    (plan : MaintenancePlan) (candidates : list A) : list A :=
  take (Z.to_nat (batch_size plan)) (sorted_by cmp key candidates).

(** [MaintenanceSummary(len(selected), 0 if plan.dry_run else len(selected), plan.dry_run)]. *)
Definition plan_summary {S A} (plan : MaintenancePlan) (chosen : list A) :
    M exn S MaintenanceSummary :=
  let n := Z.of_nat (length chosen) in
  MaintenanceSummary_new n (if dry_run plan then 0 else n) (dry_run plan).

Lemma plan_selection_elem {A K} (cmp : K -> K -> comparison) (key : A -> K) plan l x :
  x ∈ plan_selection cmp key plan l -> x ∈ l.
Proof.
  unfold plan_selection. intros Hx. rewrite <- (elem_of_sorted_by cmp key).
  apply elem_of_take in Hx as (i & Hi & _). by eapply list_elem_of_lookup_2.
Qed.

Lemma plan_summary_ok {S A} plan (chosen : list A) (s : S) :
  plan_summary plan chosen s =
    (Ok (mkMaintenanceSummary (Z.of_nat (length chosen))
           (if dry_run plan then 0 else Z.of_nat (length chosen)) (dry_run plan)), s).
Proof.
  unfold plan_summary, MaintenanceSummary_new. monad_unfold.
  destruct (dry_run plan); cbn -[Z.ltb].
  - rewrite !(proj2 (Z.ltb_ge _ _)) by lia. done.
  - rewrite !(proj2 (Z.ltb_ge _ _)) by lia. done.
Qed.

(** The checks a plan passed when it was built. *)
Lemma MaintenancePlan_new_ok {S} c b d u (s s' : S) plan :
  MaintenancePlan_new c b d u s = (Ok plan, s') ->
  is_utc (cutoff plan) = true /\ 0 < batch_size plan.
Proof.
  unfold MaintenancePlan_new. intros H. run H. time_facts. split; [done|lia].
Qed.
