(* ===== verification/Replay.v ===== *)
(** * Replay windows ([security/replay.py])

    The store that accepts an identity once per window, its purge and its conformance
    harness, and the guarantee over histories: inside its window an identity is never
    accepted again. *)
From Stdlib Require Import ZArith Lia.
From stdpp Require Import base list gmap.
From S2P Require Import Prelude Core Maintenance.

(** ** The store *)

Inductive ReplayDecision :=
  | ReplayAccepted (expires_at : datetime)
  | ReplayDetected (first_seen_until : datetime)
  | ReplayCapacityExceeded (capacity : Z).

Abbreviation identity := (pystr * pystr)%type.

Class ReplayStore (W : Type) := port_reserve : pystr -> pystr -> datetime -> timedelta -> M exn W ReplayDecision.

Record store := mkStore { capacity : Z; entries : dict identity datetime }.

Definition InMemoryReplayStore_new {S} (cap : Z) : M exn S store :=
  raise_if (cap <=? 0) (ValueError "capacity must be positive") ;;;
  ret (mkStore cap []).

Definition set_entries (e : dict identity datetime) (st : store) : store := mkStore (capacity st) e.

(** The identities whose window has passed. *)
Definition expired_keys (now : datetime) (st : store) : list identity :=
  (List.filter (fun p => dt_leb p.2 now) (entries st)).*1.

Definition reserve (namespace value : pystr) (now : datetime) (ttl : timedelta) : M exn store ReplayDecision :=
  check_utc now "replay timestamps must be timezone-aware UTC" ;;;
  raise_if (str_empty namespace || str_empty value || (ttl <=? 0)) (ValueError "namespace, value, and positive ttl are required") ;;;
  let identity := (namespace, value) in
  modify (fun st => set_entries (d_pop_all (expired_keys now st) (entries st)) st) ;;;
  let! existing := gets (fun st => d_get identity (entries st)) in
  match existing with
  | Some until => ret (ReplayDetected until)
  | None =>
      let! full := gets (fun st => capacity st <=? d_len (entries st)) in
      if full
      then let! n := gets capacity in ret (ReplayCapacityExceeded n)
      else
        let! expires_at := lift (dt_add now ttl) in
        modify (fun st => set_entries (d_set identity expires_at (entries st)) st) ;;;
        ret (ReplayAccepted expires_at)
  end.

Definition purge_key (p : identity * datetime) : Z * (pystr * pystr) := (dt_instant p.2, p.1).
Definition purge_compare := pair_compare Z.compare (pair_compare str_compare str_compare).

Definition purge_selection (plan : MaintenancePlan) (st : store) : list (identity * datetime) :=
  plan_selection purge_compare purge_key plan (List.filter (fun p => dt_leb p.2 (cutoff plan)) (entries st)).

Definition purge (plan : MaintenancePlan) : M exn store MaintenanceSummary :=
  let! chosen := gets (purge_selection plan) in
  (if dry_run plan then ret tt
   else modify (fun st => set_entries (d_pop_all chosen.*1 (entries st)) st)) ;;;
  plan_summary plan chosen.

#[export] Instance InMemory_ReplayStore : ReplayStore store := reserve.

(** ** The conformance harness *)

Section Harness.
Context {W : Type} `{!ReplayStore W}.

Definition replay_expect (condition : bool) (message : pystr) : M exn W unit := raise_if (negb condition) (AssertionError message).
Definition is_accepted (d : ReplayDecision) : bool := match d with ReplayAccepted _ => true | _ => false end.
Definition is_detected (d : ReplayDecision) : bool := match d with ReplayDetected _ => true | _ => false end.

Definition exercise (now : datetime) : M exn W unit :=
  let ttl := minutes 1 in
  let! accepted := port_reserve "scope-a" "proof" now ttl in
  let! until := lift (match accepted with ReplayAccepted t => let? u := dt_add now ttl in Ok (dt_instant t =? dt_instant u) | _ => Ok false end) in
  replay_expect until "a new replay identity must be accepted for exactly its TTL" ;;;
  let! duplicate := port_reserve "scope-a" "proof" now ttl in
  replay_expect (is_detected duplicate) "an active replay identity must be detected" ;;;
  let! separated := port_reserve "scope-b" "proof" now ttl in
  replay_expect (is_accepted separated) "replay namespaces must be isolated" ;;;
  let! later := lift (dt_add now ttl) in
  let! expired := port_reserve "scope-a" "proof" later ttl in
  replay_expect (is_accepted expired) "an expired replay identity must be reusable".
End Harness.

(** ** Histories *)

Inductive op :=
  | OpReserve (namespace value : pystr) (now : datetime) (ttl : timedelta)
  | OpPurge (plan : MaintenancePlan).

Definition exec (o : op) (st : store) : store :=
  match o with
  | OpReserve n v now ttl => snd (reserve n v now ttl st)
  | OpPurge plan => snd (purge plan st)
  end.

Definition exec_all (os : list op) (st : store) : store := fold_left (fun st o => exec o st) os st.

Record store_inv (st : store) : Prop := {
  inv_entries : d_wf (entries st);
  inv_bounded : d_len (entries st) <= capacity st
}.

(** The instant up to which a call evicts. *)
Definition evicts_before (t : Z) (o : op) : Prop :=
  match o with
  | OpReserve _ _ now _ => dt_instant now < t
  | OpPurge plan => dt_instant (cutoff plan) < t
  end.

Lemma pop_all_bounded ks (st : store) : store_inv st -> store_inv (set_entries (d_pop_all ks (entries st)) st).
Proof. intros [Hwf Hb]. split; cbn; [by apply d_pop_all_wf|]. unfold d_len in *. pose proof (d_pop_all_length ks (entries st)). lia. Qed.

(** An identity whose window is still open is not evicted. *)
Lemma pop_all_keeps k until (l : list (identity * datetime)) t st : store_inv st -> d_get k (entries st) = Some until ->
  (forall p, p ∈ l -> p ∈ entries st /\ dt_instant p.2 <= t) -> t < dt_instant until ->
  d_get k (d_pop_all l.*1 (entries st)) = Some until.
Proof.
  intros [Hwf _] Hk Hl Ht. rewrite d_pop_all_get by done. case_decide as Hin; [|done]. exfalso.
  apply list_elem_of_fmap in Hin as ([k' u] & -> & Hp). destruct (Hl _ Hp) as [He Hu]. cbn in *. apply d_elem_get in He; [|done]. simplify_eq. lia.
Qed.

Lemma expired_elem now st p : p ∈ List.filter (fun p => dt_leb p.2 now) (entries st) -> p ∈ entries st /\ dt_instant p.2 <= dt_instant now.
Proof. intros Hp%list_elem_of_In. apply filter_In in Hp as [Hp Hle]. rewrite <- list_elem_of_In in Hp. by apply dt_leb_le in Hle. Qed.

Lemma reserve_inv n v now ttl st : store_inv st -> store_inv (snd (reserve n v now ttl st)).
Proof.
  intros Hst. destruct (reserve n v now ttl st) as [r st'] eqn:Hrun. cbn. unfold reserve in Hrun.
  pose proof (pop_all_bounded (expired_keys now st) st Hst) as Hpop. run Hrun; try done. time_facts. destruct Hpop as [Hwf Hb]. cbn in *.
  split; cbn; [by apply d_set_wf|]. unfold d_len in *. rewrite d_set_length.
  rewrite (proj2 (d_mem_false _ _)) by done. lia.
Qed.

Lemma replay_exec_inv o st : store_inv st -> store_inv (exec o st).
Proof.
  intros Hst. destruct o as [n v now ttl|plan]; [by apply reserve_inv|]. cbn. unfold purge. monad_unfold. cbn.
  destruct (dry_run plan); cbn; rewrite plan_summary_ok; cbn; [done|by apply pop_all_bounded].
Qed.

Lemma exec_keeps o st k until : store_inv st -> d_get k (entries st) = Some until -> evicts_before (dt_instant until) o ->
  d_get k (entries (exec o st)) = Some until.
Proof.
  intros Hst Hk Ho. destruct o as [n v now ttl|plan]; cbn in *.
  - destruct (reserve n v now ttl st) as [r st'] eqn:Hrun. cbn. unfold reserve in Hrun.
    pose proof (pop_all_keeps k until _ _ st Hst Hk (expired_elem now st) Ho) as Hkeep. run Hrun; try done. cbn in *.
    rewrite d_get_set. case_decide; [subst|done]. unfold expired_keys in *. congruence.
  - unfold purge. monad_unfold. cbn. destruct (dry_run plan); cbn; rewrite plan_summary_ok; cbn; [done|].
    eapply pop_all_keeps; [done|done| |exact Ho]. intros p Hp%plan_selection_elem. by apply expired_elem.
Qed.

Lemma exec_all_keeps os : forall st k until, store_inv st -> d_get k (entries st) = Some until -> Forall (evicts_before (dt_instant until)) os ->
  store_inv (exec_all os st) /\ d_get k (entries (exec_all os st)) = Some until.
Proof.
  induction os as [|o os IH]; intros st k until Hst Hk Hos; cbn; [done|]. apply Forall_cons in Hos as [Ho Hos].
  apply IH; [by apply replay_exec_inv|by apply exec_keeps|done].
Qed.

(** An accepted call was well-formed, and its identity is in the store. *)
Lemma reserve_accepted n v now ttl st until st1 : reserve n v now ttl st = (Ok (ReplayAccepted until), st1) ->
  is_utc now = true /\ str_empty n || str_empty v || (ttl <=? 0) = false /\
  d_get (n, v) (entries st1) = Some until /\ dt_instant until = dt_instant now + ttl.
Proof. unfold reserve. intros Hrun. run Hrun. cbn. rewrite d_get_set_eq. apply negb_false_iff in Heqb. by time_facts. Qed.

(** While a window is open, a well-formed call detects its identity. *)
Lemma reserve_open n v until now ttl st : store_inv st -> d_get (n, v) (entries st) = Some until -> dt_instant now < dt_instant until ->
  is_utc now = true -> str_empty n || str_empty v || (ttl <=? 0) = false ->
  fst (reserve n v now ttl st) = Ok (ReplayDetected until).
Proof.
  intros Hst Hk Hnow Hu Hg. unfold reserve. monad_unfold. rewrite Hu, Hg. cbn.
  unfold expired_keys. by rewrite (pop_all_keeps _ until _ _ _ Hst Hk (expired_elem now _) Hnow).
Qed.

(** Within its window an identity is accepted once: after it was accepted until some
    instant, whatever calls follow - for any identity, with any window, purges included - as
    long as their clocks and cutoffs have not reached that instant, presenting it again is
    answered [ReplayDetected] with that instant; and the store stays within its capacity. *)
Theorem replay_accepted_once st n v now ttl until st1 os now2 ttl2 : store_inv st ->
  reserve n v now ttl st = (Ok (ReplayAccepted until), st1) ->
  Forall (evicts_before (dt_instant until)) os ->
  is_utc now2 = true -> 0 < ttl2 -> dt_instant now2 < dt_instant until ->
  dt_instant until = dt_instant now + ttl /\ fst (reserve n v now2 ttl2 (exec_all os st1)) = Ok (ReplayDetected until) /\
  d_len (entries (exec_all os st1)) <= capacity (exec_all os st1).
Proof.
  intros Hst Hrun Hos Hu Ht Hnow. pose proof (reserve_inv n v now ttl st Hst) as Hst1. rewrite Hrun in Hst1.
  destruct (reserve_accepted _ _ _ _ _ _ _ Hrun) as (_ & Hg & Hk & Hd).
  destruct (exec_all_keeps os st1 _ until Hst1 Hk Hos) as [Hinv Hkeep]. split; [done|]. split; [|apply Hinv].
  apply Z.leb_gt in Ht. apply orb_false_iff in Hg as [Hg _]. apply reserve_open; try done. by rewrite Hg, Ht.
Qed.

Lemma replay_accepted_once_witness :
  let st1 := snd (reserve "dpop" "jti-1" (utc 1000000) (minutes 1) (mkStore 2 [])) in
  let os := [OpReserve "dpop" "jti-2" (utc 2000000) (minutes 1); OpReserve "dpop" "jti-3" (utc 2000000) (minutes 1);
    OpPurge (mkMaintenancePlan (utc 3000000) 10 false false)] in
  dt_instant (utc 61000000) = 1000000 + minutes 1 /\
  fst (reserve "dpop" "jti-1" (utc 4000000) (minutes 1) (exec_all os st1)) = Ok (ReplayDetected (utc 61000000)) /\
  d_len (entries (exec_all os st1)) <= capacity (exec_all os st1).
Proof.
  intros st1 os. apply (replay_accepted_once (mkStore 2 []) "dpop" "jti-1" (utc 1000000) (minutes 1) (utc 61000000) st1 os).
  - split; [apply NoDup_nil_2|vm_compute; congruence].
  - vm_compute. reflexivity.
  - repeat apply List.Forall_cons; [vm_compute; reflexivity..|apply List.Forall_nil].
  - reflexivity.
  - reflexivity.
  - vm_compute. reflexivity.
Defined.

(** The reference store passes the published conformance harness. *)
Example replay_harness_passes : fst (exercise (utc 1000) (mkStore 10 [])) = Ok tt.
Proof. vm_compute. reflexivity. Qed.
