(* ===== verification/Signatures.v ===== *)
(** * HTTP message signatures ([security/outcomes.py], [security/signatures.py])

    The policy around the third-party verification of RFC 9421 signatures: the digest of the
    body, the components and the algorithm a signature must have, its time window, its nonce
    and its replay identity. The library is a parameter, as are [str.lower] and the hashes.
    The guarantee over histories is that a signature is accepted once. *)
From Stdlib Require Import ZArith Lia.
From stdpp Require Import base list gmap.
From S2P Require Import Prelude Core Canonical Wire Encoding Maintenance Replay.

(** ** Outcomes *)

Inductive json_scalar := ScalarStr (s : pystr) | ScalarNone.

Record VerifiedProof := mkVerifiedProof {
  mechanism : pystr; proof_key_id : pystr; proof_id : pystr; issued_at : datetime;
  expires_at : option datetime; attributes : dict pystr json_scalar
}.

Definition VerifiedProof_new (p : VerifiedProof) : result exn VerifiedProof :=
  reject_if (32 <? d_len (attributes p)) (ValueError "verified proof attributes are limited to 32 items") ??;
  Ok p.

(** [VerifiedProof | RejectedProof]. *)
Inductive proof_result := Verified (p : VerifiedProof) | RejectedProof (code detail : pystr).

(** [datetime.fromtimestamp(n, UTC)]: beyond the C time type, beyond the years of the C
    library, beyond the years of a [datetime]. *)
Definition epoch : Z := 62135596800.
Definition fromtimestamp (n : Z) : result exn datetime :=
  reject_if (negb ((- 2 ^ 63 <=? n) && (n <? 2 ^ 63))) (OverflowError "timestamp out of range for platform time_t") ??;
  reject_if (negb ((-67768040609740800 <=? n) && (n <=? 67768036191676799)))
    (OtherError "OSError" "[Errno 75] Value too large for defined data type") ??;
  let wall := (epoch + n) * 1000000 in
  reject_if (negb ((0 <=? wall) && (wall <=? dt_max))) (ValueError "year is out of range") ??;
  Ok (utc wall).

(** ** Requests and the verification backend *)

Record SignedRequest := mkSignedRequest { method : pystr; target_uri : pystr; headers : dict pystr pystr; body : list N }.

(** The value of a signature parameter. *)
Inductive parameter := ParamStr (s : pystr) | ParamInt (n : Z) | ParamBool (b : bool) | ParamOther.

Record BackendVerification := mkBackendVerification {
  label : pystr; algorithm : pystr; covered_components : gset pystr; parameters : dict pystr parameter
}.

(** [SignatureBackend.verify] with the consumer's key resolver: the request, the allowed
    algorithms and the tag. *)
Class SignatureBackend := backend_verify : SignedRequest -> gset pystr -> pystr -> result exn BackendVerification.

(** The position of the first quotation mark. *)
Fixpoint find_quote (l : list N) : option nat :=
  match l with c :: l' => if (c =? 34)%N then Some 0%nat else option_map S (find_quote l') | [] => None end.

(** [_component_name] of the text of a component. *)
Definition _component_name (text : pystr) : pystr :=
  if bool_decide (codepoints text = [34%N] ++ codepoints "@signature-params" ++ [34%N]) then "@signature-params"%py
  else match codepoints text with
  | 34%N :: l => match find_quote l with Some n => PyStr (take n l) | None => text end
  | _ => text
  end.

(** What the library answers for one signature: the texts of its label, its algorithm and
    its covered components, and its parameters. *)
Record LibraryResult := mkLibraryResult {
  result_label : pystr; result_algorithm : pystr; result_components : list pystr; result_parameters : dict pystr parameter
}.

Section Backend.
Variable installed : bool.
Variable supported : pystr -> bool.
Variable library_verify : pystr -> SignedRequest -> pystr -> result exn (list LibraryResult).

(** The body of the [try] for one algorithm. *)
Definition verify_with (request : SignedRequest) (expected_tag algorithm_id : pystr) : result exn BackendVerification :=
  let? results := library_verify algorithm_id request expected_tag in
  match results with
  | [r] => Ok (mkBackendVerification (result_label r) (result_algorithm r)
      (list_to_set (map _component_name (result_components r))) (result_parameters r))
  | _ => Raise (OtherError "InvalidSignature" "exactly one matching signature is required")
  end.

(** The loop over the sorted algorithms, with the failures so far. *)
Fixpoint try_algorithms (request : SignedRequest) (expected_tag : pystr) (ids : list pystr) (failures : list exn) : result exn BackendVerification :=
  match ids with
  | [] => Raise (ValueError (match last failures with Some e => exn_str e | None => "no allowed signature algorithm"%py end))
  | algorithm_id :: ids' =>
      if negb (supported algorithm_id)
      then try_algorithms request expected_tag ids' (failures ++ [ValueError (str_app "unsupported backend algorithm: " algorithm_id)])
      else match verify_with request expected_tag algorithm_id with
        | Ok v => Ok v
        | Raise e => try_algorithms request expected_tag ids' (failures ++ [e])
        end
  end.

Definition HttpMessageSignaturesBackend : SignatureBackend := fun request allowed_algorithms expected_tag =>
  if installed
  then try_algorithms request expected_tag (sorted_by str_compare (fun x => x) (elements allowed_algorithms)) []
  else Raise (RuntimeError "install pytitect[signed-http] to verify HTTP Message Signatures").
End Backend.

(** ** The verifier *)

Record HttpMessageSignatureVerifier := mkVerifier {
  required_components : gset pystr; expected_tag : pystr; allowed_algorithms : gset pystr;
  max_age : timedelta; max_lifetime : timedelta; clock_skew : timedelta; replay_ttl : timedelta;
  expected_nonce : option pystr; require_content_digest : bool; content_digest_verifier : ContentDigestVerifier
}.

Definition HttpMessageSignatureVerifier_new (v : HttpMessageSignatureVerifier) : result exn HttpMessageSignatureVerifier :=
  reject_if (bool_decide (required_components v = ∅) || str_empty (expected_tag v) || bool_decide (allowed_algorithms v = ∅))
    (ValueError "components, tag, and allowed algorithms must not be empty") ??;
  reject_if ((max_age v <=? 0) || (max_lifetime v <=? 0)) (ValueError "signature age and lifetime must be positive") ??;
  reject_if ((clock_skew v <? 0) || (replay_ttl v <=? 0)) (ValueError "signature skew and replay TTL are invalid") ??;
  Ok v.

(** [except RuntimeError: raise], subclasses included. *)
Definition is_runtime_error (e : exn) : bool :=
  match e with
  | RuntimeError _ => true
  | OtherError c _ => bool_decide (c = "RecursionError"%py) || bool_decide (c = "NotImplementedError"%py)
  | _ => false
  end.

(** [return RejectedProof(code, detail)]: an early exit with the code and the detail. *)
Abbreviation rejection := (pystr * pystr)%type.
Definition reject {S A} (code detail : pystr) : M (exn + rejection) S A := raise (inr (code, detail)).
Definition reject_when {S} (b : bool) (code detail : pystr) : M (exn + rejection) S unit := if b then reject code detail else ret tt.

Section Verify.
Context {W : Type} `{!ReplayStore W, !Clock W, !SignatureBackend}.
Variable lower : pystr -> pystr.
Variable sha256 : list N -> list N.

(** [hashlib.sha256(payload).hexdigest()]. *)
Definition sha256_hexdigest (payload : list N) : pystr :=
  PyStr (flat_map (fun b => [hex_digit (b / 16); hex_digit (b mod 16)]%N) (sha256 payload)).

(** [{name.lower(): value for name, value in headers.items()}]. *)
Definition lower_headers (headers : dict pystr pystr) : dict pystr pystr :=
  fold_left (fun d p => d_set (lower p.1) p.2 d) headers [].

Definition check_digest (v : HttpMessageSignatureVerifier) (request : SignedRequest) (hs : dict pystr pystr) : M (exn + rejection) W unit :=
  if require_content_digest v
  then
    match verify_digest sha256 (content_digest_verifier v) (body request) (d_get "content-digest"%py hs) with
    | RejectedContentDigest code detail => reject code detail
    | VerifiedContentDigest =>
        reject_when (negb (bool_decide ("content-digest"%py ∈ required_components v))) "unsigned_digest" "content-digest must be a required covered component"
    end
  else ret tt.

Definition run_backend (v : HttpMessageSignatureVerifier) (request : SignedRequest) : M (exn + rejection) W BackendVerification :=
  match backend_verify request (allowed_algorithms v) (expected_tag v) with
  | Ok verified => ret verified
  | Raise e => if is_runtime_error e then raise (inl e) else reject "invalid_signature" "HTTP Message Signature verification failed"
  end.

(** The parameters of a signature once they are checked: the key, the times and the nonce. *)
Record signed := mkSigned { s_key_id : pystr; s_created : Z; s_expires : Z; s_nonce : pystr }.

Definition text_parameter (p : option parameter) : option pystr :=
  match p with Some (ParamStr s) => if str_empty s then None else Some s | _ => None end.
Definition integer_parameter (p : option parameter) : option Z := match p with Some (ParamInt n) => Some n | _ => None end.
Definition or_reject {A} (o : option A) (code detail : pystr) : M (exn + rejection) W A :=
  match o with Some a => ret a | None => reject code detail end.

Definition check_parameters (v : HttpMessageSignatureVerifier) (params : dict pystr parameter) : M (exn + rejection) W signed :=
  let! key_id := or_reject (text_parameter (d_get "keyid"%py params)) "missing_keyid" "signature keyid is required" in
  let! created := or_reject (integer_parameter (d_get "created"%py params)) "missing_created" "integer created parameter is required" in
  let! expires := or_reject (integer_parameter (d_get "expires"%py params)) "missing_expires" "integer expires parameter is required" in
  reject_when (negb (match d_get "tag"%py params with Some (ParamStr t) => bool_decide (t = expected_tag v) | _ => false end))
    "tag_mismatch" "signature tag does not match" ;;;
  let! nonce := or_reject (text_parameter (d_get "nonce"%py params)) "missing_nonce" "a non-empty signature nonce is required" in
  reject_when (match expected_nonce v with Some n => negb (bool_decide (nonce = n)) | None => false end)
    "nonce_mismatch" "signature nonce does not match" ;;;
  ret (mkSigned key_id created expires nonce).

(** [a or b] where [b] may raise. *)
Definition or_else (a : bool) (b : result exn bool) : result exn bool := if a then Ok true else b.

Definition outside_window (v : HttpMessageSignatureVerifier) (issued now : datetime) : result exn bool :=
  let? latest := dt_add now (clock_skew v) in
  or_else (dt_ltb latest issued)
    (let? t := dt_add now (- max_age v) in let? earliest := dt_add t (- clock_skew v) in Ok (dt_ltb issued earliest)).

Definition check_window (v : HttpMessageSignatureVerifier) (issued expires now : datetime) : M (exn + rejection) W unit :=
  let! stale := embed (lift (outside_window v issued now)) in
  reject_when stale "stale_signature" "created is outside the accepted time window" ;;;
  let! earliest := embed (lift (dt_add now (- clock_skew v))) in
  reject_when (dt_ltb expires earliest || dt_leb expires issued) "expired_signature" "expires is invalid or in the past" ;;;
  reject_when (max_lifetime v <? dt_instant expires - dt_instant issued) "lifetime_exceeded" "signature lifetime exceeds policy".

Definition nul : pystr := PyStr [0%N].
Definition proof_identity (verified : BackendVerification) (s : signed) (signature : pystr) : result exn pystr :=
  let? bytes := str_encode (str_app (label verified) (str_app nul (str_app (s_key_id s) (str_app nul (str_app (s_nonce s) (str_app nul signature)))))) in
  Ok (sha256_hexdigest bytes).

Definition reserve_proof (v : HttpMessageSignatureVerifier) (identity : pystr) (now : datetime) : M (exn + rejection) W unit :=
  let! replay := embed (port_reserve "http-message-signature" identity now (replay_ttl v)) in
  reject_when (negb (is_accepted replay)) "replayed_signature" "signature was already used or cannot be reserved".

Definition verify_body (v : HttpMessageSignatureVerifier) (request : SignedRequest) : M (exn + rejection) W VerifiedProof :=
  let hs := lower_headers (headers request) in
  reject_when (negb (d_mem "signature-input"%py hs) || negb (d_mem "signature"%py hs)) "missing_signature" "Signature-Input and Signature are required" ;;;
  check_digest v request hs ;;;
  let! verified := run_backend v (mkSignedRequest (method request) (target_uri request) hs (body request)) in
  reject_when (negb (bool_decide (algorithm verified ∈ allowed_algorithms v))) "algorithm_rejected" "signature algorithm is not allowed" ;;;
  reject_when (negb (bool_decide (required_components v ∖ covered_components verified = ∅))) "missing_components" "signature omits required components" ;;;
  let! s := check_parameters v (parameters verified) in
  let! issued := embed (lift (fromtimestamp (s_created s))) in
  let! expires := embed (lift (fromtimestamp (s_expires s))) in
  let! now := embed clock_now in
  check_window v issued expires now ;;;
  let! identity := embed (lift (proof_identity verified s (default (PyStr []) (d_get "signature"%py hs)))) in
  reserve_proof v identity now ;;;
  embed (lift (VerifiedProof_new (mkVerifiedProof "http-message-signature" (s_key_id s) identity issued (Some expires)
    [("algorithm", ScalarStr (algorithm verified)); ("tag", ScalarStr (expected_tag v))]%py))).

Definition verify (v : HttpMessageSignatureVerifier) (request : SignedRequest) : M exn W proof_result :=
  catch (let! proof := verify_body v request in ret (Verified proof)) (fun r => ret (RejectedProof r.1 r.2)).
End Verify.

(** ** What is accepted *)

Lemma embed_answers {R S A} (m : M exn S A) s (a : A) s' : embed (R := R) m s = (Ok a, s') <-> m s = (Ok a, s').
Proof. unfold embed. destruct (m s) as [[b|e] t]; split; congruence. Qed.
Lemma lift_ok {E S A} (r : result E A) (s : S) a s' : lift r s = (Ok a, s') <-> r = Ok a /\ s' = s.
Proof. unfold lift. split; [by intros [= -> ->]|by intros [-> ->]]. Qed.
Lemma reject_when_ok {S} b code detail (s : S) u s' : reject_when b code detail s = (Ok u, s') <-> b = false /\ s' = s.
Proof. destruct b, u; cbn; split; [done|by intros [? _]|by intros [= ->]|by intros [_ ->]]. Qed.
Lemma or_reject_ok {W A} (o : option A) code detail (w : W) a w' : or_reject o code detail w = (Ok a, w') <-> o = Some a /\ w' = w.
Proof. destruct o; cbn; split; [by intros [= -> ->]|by intros [[= ->] ->]|done|by intros [? _]]. Qed.
Lemma text_parameter_ok p s : text_parameter p = Some s <-> p = Some (ParamStr s) /\ str_empty s = false.
Proof.
  destruct p as [[t| | |]|]; cbn; try (split; [done|by intros [? _]]).
  destruct (str_empty t) eqn:Ht; split; [done|intros [[= ->] ?]; congruence|by intros [= ->]|by intros [[= ->] _]].
Qed.
Lemma integer_parameter_ok p n : integer_parameter p = Some n <-> p = Some (ParamInt n).
Proof. destruct p as [[]|]; cbn; split; congruence. Qed.

Lemma dt_add_iff d t d' : dt_add d t = Ok d' <-> d' = DateTime (dt_wall d + t) (dt_offset d) /\ 0 <= dt_wall d + t <= dt_max.
Proof.
  unfold dt_add. destruct (Z.leb_spec 0 (dt_wall d + t)), (Z.leb_spec (dt_wall d + t) dt_max); cbn; split; try done; try lia; [by intros [= <-]|by intros [-> _]].
Qed.

Lemma dt_instant_shift d t : dt_instant (DateTime (dt_wall d + t) (dt_offset d)) = dt_instant d + t.
Proof. unfold dt_instant. cbn. lia. Qed.

Section Accepted.
Context {W : Type} `{!ReplayStore W, !Clock W, !SignatureBackend}.
Variable lower : pystr -> pystr.
Variable sha256 : list N -> list N.

(** The instants the window is compared with are dates. *)
Definition in_calendar (v : HttpMessageSignatureVerifier) (now : datetime) : Prop :=
  Forall (fun t => 0 <= dt_wall now + t <= dt_max) [clock_skew v; - max_age v; - max_age v - clock_skew v; - clock_skew v].

(** The request carries a signature that satisfies the policy at that instant. *)
Record acceptable (v : HttpMessageSignatureVerifier) (request : SignedRequest) (now : datetime)
    (verified : BackendVerification) (s : signed) (issued expires : datetime) (identity : pystr) : Prop := {
  acc_input : is_Some (d_get "signature-input"%py (lower_headers lower (headers request)));
  acc_digest : require_content_digest v = true ->
    verify_digest sha256 (content_digest_verifier v) (body request) (d_get "content-digest"%py (lower_headers lower (headers request))) = VerifiedContentDigest /\
    "content-digest"%py ∈ required_components v;
  acc_backend : backend_verify (mkSignedRequest (method request) (target_uri request) (lower_headers lower (headers request)) (body request))
    (allowed_algorithms v) (expected_tag v) = Ok verified;
  acc_algorithm : algorithm verified ∈ allowed_algorithms v;
  acc_components : required_components v ⊆ covered_components verified;
  acc_key : d_get "keyid"%py (parameters verified) = Some (ParamStr (s_key_id s)) /\ str_empty (s_key_id s) = false;
  acc_created : d_get "created"%py (parameters verified) = Some (ParamInt (s_created s)) /\ fromtimestamp (s_created s) = Ok issued;
  acc_expires : d_get "expires"%py (parameters verified) = Some (ParamInt (s_expires s)) /\ fromtimestamp (s_expires s) = Ok expires;
  acc_tag : d_get "tag"%py (parameters verified) = Some (ParamStr (expected_tag v));
  acc_nonce : d_get "nonce"%py (parameters verified) = Some (ParamStr (s_nonce s)) /\ str_empty (s_nonce s) = false;
  acc_expected : forall n, expected_nonce v = Some n -> s_nonce s = n;
  acc_calendar : in_calendar v now;
  acc_age : dt_instant now - max_age v - clock_skew v <= dt_instant issued <= dt_instant now + clock_skew v;
  acc_alive : dt_instant now - clock_skew v <= dt_instant expires;
  acc_lifetime : dt_instant issued < dt_instant expires <= dt_instant issued + max_lifetime v;
  acc_identity : exists signature, d_get "signature"%py (lower_headers lower (headers request)) = Some signature /\
    proof_identity sha256 verified s signature = Ok identity
}.

Definition proof_of (v : HttpMessageSignatureVerifier) (verified : BackendVerification) (s : signed) (issued expires : datetime) (identity : pystr) : VerifiedProof :=
  mkVerifiedProof "http-message-signature" (s_key_id s) identity issued (Some expires)
    [("algorithm", ScalarStr (algorithm verified)); ("tag", ScalarStr (expected_tag v))]%py.

Lemma outside_window_ok v issued now : outside_window v issued now = Ok false <->
  0 <= dt_wall now + clock_skew v <= dt_max /\ 0 <= dt_wall now - max_age v <= dt_max /\ 0 <= dt_wall now - max_age v - clock_skew v <= dt_max /\
  dt_instant now - max_age v - clock_skew v <= dt_instant issued <= dt_instant now + clock_skew v.
Proof.
  unfold outside_window, or_else. split.
  - intros Hok. apply rbind_ok in Hok as (latest & [-> ?]%dt_add_iff & Hok). destruct (dt_ltb _ issued) eqn:Hl; [done|].
    apply rbind_ok in Hok as (t & [-> ?]%dt_add_iff & Hok). apply rbind_ok in Hok as (e & [-> ?]%dt_add_iff & [= Hok]).
    time_facts. unfold dt_instant in *. cbn in *. lia.
  - intros (? & ? & ? & ?). rewrite (proj2 (dt_add_iff _ _ _)) by done. cbn [rbind].
    rewrite (proj2 (dt_ltb_ge _ _)) by (unfold dt_instant in *; cbn; lia).
    rewrite (proj2 (dt_add_iff _ _ _)) by (split; [done|lia]). cbn [rbind].
    rewrite (proj2 (dt_add_iff _ _ _)) by (split; [done|cbn; lia]). cbn [rbind].
    by rewrite (proj2 (dt_ltb_ge _ _)) by (unfold dt_instant in *; cbn; lia).
Qed.

Lemma check_window_ok v issued expires now (w : W) u w' : check_window v issued expires now w = (Ok u, w') <->
  w' = w /\ in_calendar v now /\ dt_instant now - max_age v - clock_skew v <= dt_instant issued <= dt_instant now + clock_skew v /\
  dt_instant now - clock_skew v <= dt_instant expires /\ dt_instant issued < dt_instant expires <= dt_instant issued + max_lifetime v.
Proof.
  unfold check_window, in_calendar. rewrite !Forall_cons, Forall_nil. destruct u. split.
  - intros Hrun. apply bind_ok in Hrun as (stale & ? & Hs%embed_answers%lift_ok & Hrun). destruct Hs as [Hs ->].
    apply bind_ok in Hrun as (? & ? & [-> ->]%reject_when_ok & Hrun).
    apply bind_ok in Hrun as (early & ? & Hd%embed_answers%lift_ok & Hrun). destruct Hd as [[-> ?]%dt_add_iff ->].
    apply bind_ok in Hrun as (? & ? & [Hx ->]%reject_when_ok & [Hm ->]%reject_when_ok).
    apply outside_window_ok in Hs. time_facts. unfold dt_instant in *. cbn in *. split_and!; try done; lia.
  - intros (-> & (? & ? & ? & ? & _) & ? & ? & ?). 
    apply bind_ok. exists false, w. split; [apply embed_answers, lift_ok; split; [apply outside_window_ok; split_and!; lia|done]|].
    apply bind_ok. exists tt, w. split; [by apply reject_when_ok|].
    apply bind_ok. eexists _, w. split; [apply embed_answers, lift_ok; split; [apply dt_add_iff; split; [reflexivity|lia]|done]|].
    apply bind_ok. exists tt, w. unfold dt_instant in *. cbn in *.
    split; apply reject_when_ok; (split; [|done]).
    + apply orb_false_iff; split; [apply dt_ltb_ge|apply dt_leb_gt]; unfold dt_instant; cbn; lia.
    + apply Z.ltb_ge. lia.
Qed.

Lemma check_parameters_ok v params (w : W) s w' : check_parameters v params w = (Ok s, w') <->
  w' = w /\ (d_get "keyid"%py params = Some (ParamStr (s_key_id s)) /\ str_empty (s_key_id s) = false) /\
  d_get "created"%py params = Some (ParamInt (s_created s)) /\ d_get "expires"%py params = Some (ParamInt (s_expires s)) /\
  d_get "tag"%py params = Some (ParamStr (expected_tag v)) /\
  (d_get "nonce"%py params = Some (ParamStr (s_nonce s)) /\ str_empty (s_nonce s) = false) /\
  (forall n, expected_nonce v = Some n -> s_nonce s = n).
Proof.
  unfold check_parameters. split.
  - intros Hrun. apply bind_ok in Hrun as (k & ? & [Hk%text_parameter_ok ->]%or_reject_ok & Hrun).
    apply bind_ok in Hrun as (c & ? & [Hc%integer_parameter_ok ->]%or_reject_ok & Hrun).
    apply bind_ok in Hrun as (e & ? & [He%integer_parameter_ok ->]%or_reject_ok & Hrun).
    apply bind_ok in Hrun as (? & ? & [Ht ->]%reject_when_ok & Hrun).
    apply bind_ok in Hrun as (n & ? & [Hn%text_parameter_ok ->]%or_reject_ok & Hrun).
    apply bind_ok in Hrun as (? & ? & [Hx ->]%reject_when_ok & [= <- <-]). cbn.
    split_and!; try done; try apply Hk; try apply Hn.
    + destruct (d_get "tag"%py params) as [[]|]; try done. cbn in Ht. time_facts. by subst.
    + intros m Hm. rewrite Hm in Hx. by time_facts.
  - intros (-> & Hk & Hc & He & Ht & Hn & Hx).
    apply bind_ok. eexists _, w. split; [by apply or_reject_ok; split; [apply text_parameter_ok|]|].
    apply bind_ok. eexists _, w. split; [by apply or_reject_ok; split; [apply integer_parameter_ok|]|].
    apply bind_ok. eexists _, w. split; [by apply or_reject_ok; split; [apply integer_parameter_ok|]|].
    apply bind_ok. exists tt, w. split; [apply reject_when_ok; rewrite Ht; by rewrite bool_decide_true|].
    apply bind_ok. eexists _, w. split; [by apply or_reject_ok; split; [apply text_parameter_ok|]|].
    apply bind_ok. exists tt, w. split; [|by destruct s]. apply reject_when_ok. split; [|done].
    destruct (expected_nonce v) as [n|]; [|done]. by rewrite bool_decide_true by auto.
Qed.

Lemma check_digest_ok v request hs (w : W) u w' : check_digest sha256 v request hs w = (Ok u, w') <->
  w' = w /\ (require_content_digest v = true ->
    verify_digest sha256 (content_digest_verifier v) (body request) (d_get "content-digest"%py hs) = VerifiedContentDigest /\
    "content-digest"%py ∈ required_components v).
Proof.
  unfold check_digest. destruct u, (require_content_digest v).
  - destruct (verify_digest _ _ _ _) as [|code detail]; [|split; [done|by intros [_ []]]].
    rewrite reject_when_ok, negb_false_iff, bool_decide_eq_true. naive_solver.
  - split; [by intros [= <-]|by intros [-> _]].
Qed.

Lemma run_backend_ok v request (w : W) verified w' : run_backend v request w = (Ok verified, w') <->
  w' = w /\ backend_verify request (allowed_algorithms v) (expected_tag v) = Ok verified.
Proof.
  unfold run_backend. destruct (backend_verify _ _ _) as [b|e]; [|destruct (is_runtime_error e); by split; [|intros [_ ?]]].
  split; [by intros [= -> ->]|by intros [-> [= ->]]].
Qed.

Lemma reserve_proof_ok v identity now (w : W) u w' : reserve_proof v identity now w = (Ok u, w') <->
  exists until, port_reserve "http-message-signature" identity now (replay_ttl v) w = (Ok (ReplayAccepted until), w').
Proof.
  unfold reserve_proof. rewrite bind_ok. destruct u. setoid_rewrite embed_answers. setoid_rewrite reject_when_ok. split.
  - intros (d & ? & Hd & Ha & ->). destruct d; [by eauto|done|done].
  - intros [until Hd]. by exists (ReplayAccepted until), w'.
Qed.

Lemma verify_verified v request (w : W) p w' : verify lower sha256 v request w = (Ok (Verified p), w') <-> verify_body lower sha256 v request w = (Ok p, w').
Proof.
  unfold verify, catch, bind. destruct (verify_body _ _ _ _ w) as [[q|[e|r]] w1]; cbn; split; try congruence; by intros [= -> ->].
Qed.

(** The request is acceptable now, and the store accepts its replay identity. *)
Definition accepts (v : HttpMessageSignatureVerifier) (request : SignedRequest) (w : W) (p : VerifiedProof) (w' : W) : Prop :=
  exists now w1 verified s issued expires identity until,
    acceptable v request now verified s issued expires identity /\ p = proof_of v verified s issued expires identity /\
    clock_now w = (Ok now, w1) /\ port_reserve "http-message-signature" identity now (replay_ttl v) w1 = (Ok (ReplayAccepted until), w').

Lemma verified_accepts v request (w : W) p w' : verify_body lower sha256 v request w = (Ok p, w') -> accepts v request w p w'.
Proof.
  unfold verify_body. intros Hrun.
  apply bind_ok in Hrun as (? & ? & [Hin ->]%reject_when_ok & Hrun).
  apply bind_ok in Hrun as (? & ? & [-> Hdigest]%check_digest_ok & Hrun).
  apply bind_ok in Hrun as (verified & ? & [-> Hbackend]%run_backend_ok & Hrun).
  apply bind_ok in Hrun as (? & ? & [Halg ->]%reject_when_ok & Hrun).
  apply bind_ok in Hrun as (? & ? & [Hcov ->]%reject_when_ok & Hrun).
  apply bind_ok in Hrun as (s & ? & (-> & Hkey & Hc & He & Ht & Hn & Hx)%check_parameters_ok & Hrun).
  apply bind_ok in Hrun as (issued & ? & Hi%embed_answers%lift_ok & Hrun). destruct Hi as [Hi ->].
  apply bind_ok in Hrun as (expires & ? & Hex%embed_answers%lift_ok & Hrun). destruct Hex as [Hex ->].
  apply bind_ok in Hrun as (now & w1 & Hnow%embed_answers & Hrun).
  apply bind_ok in Hrun as (? & ? & (-> & Hcal & Hage & Hal & Hlt)%check_window_ok & Hrun).
  apply bind_ok in Hrun as (identity & ? & Hid%embed_answers%lift_ok & Hrun). destruct Hid as [Hid ->].
  apply bind_ok in Hrun as (? & w2 & [until Hres]%reserve_proof_ok & Hrun%embed_answers%lift_ok). destruct Hrun as [[= <-] ->].
  apply orb_false_iff in Hin as [[signature Hs]%negb_false_iff%d_mem_true Hin].
  exists now, w1, verified, s, issued, expires, identity, until.
  apply negb_false_iff, d_mem_true in Hin as [signature' Hs'].
  split_and!; try done. time_facts. split; try done; [set_solver|]. exists signature'. by rewrite Hs' in Hid.
Qed.

Lemma accepts_verified v request (w : W) p w' : accepts v request w p w' -> verify_body lower sha256 v request w = (Ok p, w').
Proof.
  intros (now & w1 & verified & s & issued & expires & identity & until & Hacc & -> & Hnow & Hres).
  destruct Hacc as [Hin Hdigest Hback Halg Hcov Hkey [Hc Hi] [He Hx] Htag Hnonce Hexp Hcal Hage Hal Hlt (signature & Hs & Hid)]. unfold verify_body.
  rewrite (bind_run _ _ _ tt w); [|apply reject_when_ok; split; [apply orb_false_iff; split; apply negb_false_iff, d_mem_true; eauto|reflexivity]].
  rewrite (bind_run _ _ _ tt w); [|by apply check_digest_ok].
  erewrite bind_run; [|by apply run_backend_ok].
  rewrite (bind_run _ _ _ tt w); [|apply reject_when_ok; split; [by apply negb_false_iff, bool_decide_eq_true|reflexivity]].
  rewrite (bind_run _ _ _ tt w); [|apply reject_when_ok; split; [apply negb_false_iff, bool_decide_eq_true; set_solver|reflexivity]].
  erewrite bind_run; [|by apply (check_parameters_ok v _ w s)].
  erewrite bind_run; [|by apply embed_answers, lift_ok].
  erewrite bind_run; [|by apply embed_answers, lift_ok].
  erewrite bind_run; [|by apply embed_answers].
  rewrite (bind_run _ _ _ tt w1); [|by apply check_window_ok].
  erewrite bind_run; [|apply embed_answers, lift_ok; rewrite Hs; by split].
  rewrite (bind_run _ _ _ tt w'); [|apply reserve_proof_ok; by eauto].
  by apply embed_answers, lift_ok.
Qed.

(** C40. [verify] accepts exactly the requests the policy describes: both headers present, the
    body's digest verified and signed over, a signature the backend verifies under an allowed
    algorithm that covers every required component and carries a key, the tag, the expected
    nonce and integer times inside the window, and a replay identity the store accepts at that
    instant; the proof it returns is that signature's. *)
Theorem signature_accepted_exactly v request (w : W) p w' :
  verify lower sha256 v request w = (Ok (Verified p), w') <-> accepts v request w p w'.
Proof. rewrite verify_verified. split; [apply verified_accepts|apply accepts_verified]. Qed.
End Accepted.

(** ** Verified signatures over histories

    Verifications over the reference replay store, interleaved with any other calls of it:
    when the replay window outlasts the accepted ages, a signed request is verified once. *)

(** ** Histories over the reference store *)

Definition fixed_clock {W} (now : datetime) : Clock W := ret now.

Section Histories.
Variable lower : pystr -> pystr.
Variable sha256 : list N -> list N.

(** A verification at an instant, by the verifier and the backend given. *)
Definition verify_at (now : datetime) (backend : SignatureBackend) (v : HttpMessageSignatureVerifier) (request : SignedRequest) : M exn store proof_result :=
  @verify store _ (fixed_clock now) backend lower sha256 v request.

Inductive event :=
  | EvVerify (now : datetime) (backend : SignatureBackend) (v : HttpMessageSignatureVerifier) (request : SignedRequest)
  | EvStore (o : op).

Definition exec_event (e : event) (st : store) : store :=
  match e with
  | EvVerify now backend v request => snd (verify_at now backend v request st)
  | EvStore o => exec o st
  end.
Definition exec_events (es : list event) (st : store) : store := fold_left (fun st e => exec_event e st) es st.

(** No clock and no cutoff of the event is past the instant. *)
Definition not_after (t : Z) (e : event) : Prop :=
  match e with
  | EvVerify now _ _ _ => dt_instant now <= t
  | EvStore o => evicts_before (t + 1) o
  end.

(** A verification leaves the store, or reserves one identity at its clock. *)
Definition one_reserve (now : datetime) {E A} (m : M E store A) : Prop :=
  forall st, snd (m st) = st \/ exists n v ttl, snd (m st) = snd (reserve n v now ttl st).
Definition silent {E A} (m : M E store A) : Prop := forall st, snd (m st) = st.

Lemma silent_bind {E A B} now (m : M E store A) (f : A -> M E store B) :
  silent m -> (forall a, one_reserve now (f a)) -> one_reserve now (bind m f).
Proof. intros Hm Hf st. unfold bind. specialize (Hm st). destruct (m st) as [[a|e] st1]; cbn in *; subst; [apply Hf|by left]. Qed.
Lemma bind_silent {E A B} now (m : M E store A) (f : A -> M E store B) :
  one_reserve now m -> (forall a, silent (f a)) -> one_reserve now (bind m f).
Proof. intros Hm Hf st. unfold bind. specialize (Hm st). destruct (m st) as [[a|e] st1]; cbn [snd] in *; [rewrite (Hf a st1)|]; exact Hm. Qed.

Lemma silent_lift {E A} (r : result E A) : silent (lift r).
Proof. done. Qed.
Lemma silent_ret {E A} (a : A) : @silent E A (ret a).
Proof. done. Qed.
Lemma silent_embed {R A} (m : M exn store A) : silent m -> silent (embed (R := R) m).
Proof. intros Hm st. specialize (Hm st). unfold embed. by destruct (m st). Qed.
Lemma silent_reject {A} code detail : @silent (exn + rejection) A (reject code detail).
Proof. done. Qed.
Lemma silent_raise {E A} e : @silent E A (raise e).
Proof. done. Qed.
Lemma silent_chain {E A B} (m : M E store A) (f : A -> M E store B) : silent m -> (forall a, silent (f a)) -> silent (bind m f).
Proof. intros Hm Hf st. unfold bind. specialize (Hm st). destruct (m st) as [[a|e] st1]; cbn in *; subst; [apply Hf|done]. Qed.

Create HintDb silent.
#[local] Hint Resolve silent_lift silent_ret silent_embed silent_reject silent_raise silent_chain : silent.
Ltac silently := repeat first [case_match | intros; apply silent_chain | progress intros]; auto with silent.

Lemma one_reserve_proof now v identity : one_reserve now (reserve_proof v identity now).
Proof.
  intros st. unfold reserve_proof, bind, embed, port_reserve, InMemory_ReplayStore. right. exists "http-message-signature"%py, identity, (replay_ttl v).
  destruct (reserve _ _ _ _ st) as [[d|e] st1]; [|done]. cbn. unfold reject_when. by destruct (negb _).
Qed.

Lemma one_reserve_verify now backend v request : one_reserve now (verify_at now backend v request).
Proof.
  assert (one_reserve now (@verify_body store _ (fixed_clock now) backend lower sha256 v request)) as Hbody.
  { unfold verify_body. 
    apply silent_bind; [unfold reject_when; silently|intros _].
    apply silent_bind; [unfold check_digest, reject_when; silently|intros _].
    apply silent_bind; [unfold run_backend; silently|intros verified].
    apply silent_bind; [unfold reject_when; silently|intros _].
    apply silent_bind; [unfold reject_when; silently|intros _].
    apply silent_bind; [unfold check_parameters, or_reject, reject_when; silently|intros s].
    apply silent_bind; [silently|intros issued].
    apply silent_bind; [silently|intros expires].
    intros st. change (bind (embed clock_now) ?f st) with (f now st). cbv beta. revert st.
    apply silent_bind; [unfold check_window, reject_when; silently|intros _].
    apply silent_bind; [silently|intros identity].
    apply bind_silent; [apply one_reserve_proof|intros; silently]. }
  intros st. specialize (Hbody st). unfold verify_at, verify, catch, bind. destruct (verify_body _ _ _ _ st) as [[q|[e|r]] st1]; apply Hbody.
Qed.

Lemma one_reserve_keeps now {E A} (m : M E store A) st k until : one_reserve now m -> store_inv st -> d_get k (entries st) = Some until ->
  dt_instant now < dt_instant until -> store_inv (snd (m st)) /\ d_get k (entries (snd (m st))) = Some until.
Proof.
  intros Hm Hst Hk Hnow. destruct (Hm st) as [->|(n & v & ttl & ->)]; [done|].
  split; [by apply reserve_inv|]. by apply (exec_keeps (OpReserve n v now ttl)).
Qed.

Lemma one_reserve_inv now {E A} (m : M E store A) st : one_reserve now m -> store_inv st -> store_inv (snd (m st)).
Proof. intros Hm Hst. destruct (Hm st) as [->|(n & v & ttl & ->)]; [done|by apply reserve_inv]. Qed.

Lemma exec_events_keep es t k until : t < dt_instant until -> Forall (not_after t) es -> forall st, store_inv st -> d_get k (entries st) = Some until ->
  store_inv (exec_events es st) /\ d_get k (entries (exec_events es st)) = Some until.
Proof.
  intros Ht Hes. induction Hes as [|e es He _ IH]; intros st Hst Hk; [done|]. cbn.
  assert (store_inv (exec_event e st) /\ d_get k (entries (exec_event e st)) = Some until) as [Hst' Hk']; [|by apply IH].
  destruct e as [now backend v request|o]; cbn in *.
  - apply (one_reserve_keeps now); try done; [apply one_reserve_verify|lia].
  - split; [by apply replay_exec_inv|]. apply exec_keeps; try done. destruct o; cbn in *; lia.
Qed.

(** While the window of a verified signature is longer than the ages the policies accept,
    no later verification accepts a proof with its identity and issue instant. *)
Lemma not_verified_again st now1 b1 v1 r1 p1 st1 es now2 b2 v2 r2 p2 : store_inv st ->
  verify_at now1 b1 v1 r1 st = (Ok (Verified p1), st1) ->
  max_age v2 + clock_skew v2 + clock_skew v1 < replay_ttl v1 ->
  Forall (not_after (dt_instant now2)) es ->
  fst (verify_at now2 b2 v2 r2 (exec_events es st1)) = Ok (Verified p2) ->
  proof_id p2 = proof_id p1 -> issued_at p2 <> issued_at p1.
Proof.
  intros Hst Hrun Httl Hes Hrun2 Hid Hissued.
  pose proof (one_reserve_inv now1 _ st (one_reserve_verify now1 b1 v1 r1) Hst) as Hst1. rewrite Hrun in Hst1. cbn [snd] in Hst1.
  apply verify_verified, verified_accepts in Hrun as (n1 & ? & vf1 & s1 & i1 & e1 & id1 & until & Hacc & -> & [= <- <-] & Hres).
  destruct (verify_at now2 b2 v2 r2 (exec_events es st1)) as [res st2] eqn:Hverify. cbn in Hrun2. subst res.
  apply verify_verified, verified_accepts in Hverify as (n2 & ? & vf2 & s2 & i2 & e2 & id2 & until2 & Hacc2 & -> & [= <- <-] & Hres2).
  cbn in Hid, Hissued. subst id2 i2.
  destruct (reserve_accepted _ _ _ _ _ _ _ Hres) as (_ & Hg & Hk & Hd).
  pose proof (acc_age _ _ _ _ _ _ _ _ _ _ Hacc). pose proof (acc_age _ _ _ _ _ _ _ _ _ _ Hacc2).
  destruct (exec_events_keep es (dt_instant now2) _ until ltac:(lia) Hes st1 Hst1 Hk) as [Hinv Hkeep].
  destruct (reserve_accepted _ _ _ _ _ _ _ Hres2) as (Hu2 & Hg2 & _).
  unfold port_reserve, InMemory_ReplayStore in Hres2.
  pose proof (reserve_open _ _ until now2 (replay_ttl v2) _ Hinv Hkeep ltac:(lia) Hu2 Hg2) as Hdet. by rewrite Hres2 in Hdet.
Qed.

(** One request has one identity and one issue instant under one backend. *)
Lemma same_request_same_proof v r now1 now2 b st1 st2 st1' st2' p1 p2 :
  verify_at now1 b v r st1 = (Ok (Verified p1), st1') -> verify_at now2 b v r st2 = (Ok (Verified p2), st2') ->
  proof_id p2 = proof_id p1 /\ issued_at p2 = issued_at p1.
Proof.
  intros H1 H2.
  apply verify_verified, verified_accepts in H1 as (n1 & ? & vf1 & s1 & i1 & e1 & id1 & u1 & Ha & -> & _).
  apply verify_verified, verified_accepts in H2 as (n2 & ? & vf2 & s2 & i2 & e2 & id2 & u2 & Hb & -> & _).
  destruct Ha as [_ _ Hback _ _ [Hkey _] [Hcreated Hissued] [Hex _] _ [Hnonce _] _ _ _ _ _ (sg & Hsg & Hid)].
  destruct Hb as [_ _ Hback' _ _ [Hkey' _] [Hcreated' Hissued'] [Hex' _] _ [Hnonce' _] _ _ _ _ _ (sg' & Hsg' & Hid')].
  rewrite Hback in Hback'. injection Hback' as <-. rewrite Hkey in Hkey'. rewrite Hnonce in Hnonce'. rewrite Hcreated in Hcreated'. rewrite Hex in Hex'.
  destruct s1, s2. cbn in *. simplify_eq. split; congruence.
Qed.

End Histories.

(** A backend that answers one signature, and a verifier with the default policy. *)
Definition demo_backend (n : Z) : SignatureBackend := fun _ _ _ =>
  Ok (mkBackendVerification "sig1" "ed25519" {["@method"; "content-digest"]}
    [("keyid", ParamStr "k1"); ("created", ParamInt n); ("expires", ParamInt (n + 60)); ("nonce", ParamStr "n1"); ("tag", ParamStr "app")])%py.
Definition demo_verifier (ttl : timedelta) : HttpMessageSignatureVerifier :=
  mkVerifier {["@method"]} "app" {["ed25519"]} (minutes 5) (minutes 5) (seconds 30) ttl None false (mkContentDigestVerifier 1048576).
Definition demo_request : SignedRequest := mkSignedRequest "POST" "https://api.test/" [("Signature-Input", "a"); ("Signature", "b")]%py [].
Definition ascii_lower (s : pystr) : pystr := PyStr (map (fun c => if (65 <=? c) && (c <=? 90) then c + 32 else c)%N (codepoints s)).
Definition demo_instant (n : Z) : datetime := utc ((epoch + n) * 1000000).

Definition demo_verify (n : Z) (ttl : timedelta) (st : store) : result exn proof_result * store :=
  verify_at ascii_lower (fun l => l) (demo_instant n) (demo_backend 1000) (demo_verifier ttl) demo_request st.

Definition demo_history : list event :=
  [EvStore (OpReserve "dpop" "x" (demo_instant 1020) (minutes 1)); EvVerify (demo_instant 1030) (demo_backend 1005) (demo_verifier (minutes 10)) demo_request].
Definition demo_first : result exn proof_result * store := demo_verify 1010 (minutes 10) (mkStore 5 []).
Definition demo_later : result exn proof_result := fst (demo_verify 1040 (minutes 10) (exec_events ascii_lower (fun l => l) demo_history (snd demo_first))).


(** A window shorter than the accepted age, which the verifier allows: the same request is
    verified twice. *)
Lemma short_window_replays :
  HttpMessageSignatureVerifier_new (demo_verifier (seconds 1)) = Ok (demo_verifier (seconds 1)) /\
  let '(first, st1) := demo_verify 1010 (seconds 1) (mkStore 5 []) in
  exists p, first = Ok (Verified p) /\ fst (demo_verify 1012 (seconds 1) st1) = Ok (Verified p).
Proof. split; [vm_compute; reflexivity|]. vm_compute. eexists. split; reflexivity. Qed.

(** A [created] outside the calendar, which only the signer chooses, raises. *)
Lemma created_out_of_range_raises :
  fst (verify_at ascii_lower (fun l => l) (demo_instant 1010) (demo_backend 300000000000) (demo_verifier (minutes 10)) demo_request (mkStore 5 [])) =
  Raise (ValueError "year is out of range").
Proof. vm_compute. reflexivity. Qed.
