(* ===== verification/Cursors.v ===== *)
(** * Sync cursors ([sync/cursors.py])

    Authenticated opaque cursor tokens: [protected.body.auth], where the protected header binds
    the algorithm, the key, the dataset, the partition and the expiration. HMAC-SHA-256,
    AES-GCM (which may not be installed), the RFC 8785 encoder, the clock, the key resolver and
    the source of nonces are parameters; the last three act on a world [W]. *)
From Stdlib Require Import ZArith Lia SpecFloat.
From stdpp Require Import base list gmap.
From S2P Require Import Prelude Core Canonical Wire Encoding Maintenance Replay Signatures JsonLoads.

Inductive CursorAlgorithm := HS256 | A256GCM.

(** The value of the enumeration member. *)
Definition algorithm_value (a : CursorAlgorithm) : pystr := match a with HS256 => "HS256" | A256GCM => "A256GCM" end.

Record CursorLimits := mkCursorLimits { max_token_bytes : Z; max_payload_bytes : Z; max_context_length : Z }.
Definition CursorLimits_default : CursorLimits := mkCursorLimits 16384 8192 255.

Definition CursorLimits_new (l : CursorLimits) : result exn CursorLimits :=
  reject_if (max_token_bytes l <=? 0) (ValueError "max_token_bytes must be a positive finite integer") ??;
  reject_if (max_payload_bytes l <=? 0) (ValueError "max_payload_bytes must be a positive finite integer") ??;
  reject_if (max_context_length l <=? 0) (ValueError "max_context_length must be a positive finite integer") ??;
  Ok l.

Inductive CursorDecodeResult :=
  | CursorDecoded (payload : list N) (kid : pystr) (expires_at : option datetime)
  | CursorRejected (code detail : pystr).

(** ** The checks the two directions share *)

Definition _algorithm (value : pystr) : result exn CursorAlgorithm :=
  if bool_decide (value = "HS256"%py) then Ok HS256
  else if bool_decide (value = "A256GCM"%py) then Ok A256GCM
  else Raise (ValueError "algorithm must be HS256 or A256GCM").

Definition context_ok (limits : CursorLimits) (value : pystr) : bool :=
  negb (str_empty value) && bool_decide (value = str_strip value) && (str_len value <=? max_context_length limits).

Definition _context (dataset partition kid : pystr) (limits : CursorLimits) : result exn unit :=
  reject_if (negb (context_ok limits dataset)) (ValueError "cursor dataset is invalid") ??;
  reject_if (negb (context_ok limits partition)) (ValueError "cursor partition is invalid") ??;
  reject_if (negb (context_ok limits kid)) (ValueError "cursor kid is invalid").

Definition _utc (value : datetime) (name : pystr) : result exn unit :=
  reject_if (negb (is_utc value)) (ValueError (str_app name " must be timezone-aware UTC")).

Definition _hmac_key (key : list N) : result exn unit :=
  reject_if (Z.of_nat (length key) <? 32) (ValueError "HS256 cursor keys must contain at least 32 bytes").
Definition _aes_key (key : list N) : result exn unit :=
  reject_if (negb (Z.of_nat (length key) =? 32)) (ValueError "A256GCM cursor keys must contain exactly 32 bytes").

(** [int(expires_at.timestamp())]: the quotient of microseconds by a million, rounded to the
    nearest double - 53 significant bits, ties to even - and then towards zero. *)
Definition round_half_even (n d : Z) : Z :=
  let q := n / d in
  let r := n mod d in
  if (2 * r <? d) || ((2 * r =? d) && Z.even q) then q else q + 1.
Definition double_quotient_floor (n d : Z) : Z :=
  let k := 52 - Z.log2 (n / d) in
  round_half_even (n * 2 ^ k) d / 2 ^ k.
Definition timestamp_int (t : datetime) : Z :=
  let us := dt_instant t - epoch * 1000000 in
  Z.sgn us * double_quotient_floor (Z.abs us) 1000000.

(** [token.split(".")]. *)
Fixpoint split_dots (cur : list N) (l : list N) : list pystr :=
  match l with
  | [] => [PyStr (rev cur)]
  | c :: l' => if (c =? 46)%N then PyStr (rev cur) :: split_dots [] l' else split_dots (c :: cur) l'
  end.

Definition dotted (a b : pystr) : pystr := str_app a (str_app "." b).

Abbreviation header_dict := (dict json_key json).
Definition member (name : pystr) (h : header_dict) : option json := d_get (KeyStr name) h.

Definition allowed : list pystr := ["alg"; "dataset"; "exp"; "kid"; "nonce"; "partition"; "v"]%py.

(** [header.get("v") == 1]: the boolean and the float are equal to the integer. *)
Definition is_one (v : option json) : bool :=
  match v with
  | Some (JInt n) => n =? 1
  | Some (JBool b) => b
  | Some (JFloat (S754_finite false m e)) => (e <=? 0) && (Z.pos m =? 2 ^ (- e))
  | _ => false
  end.

Definition header_algorithm (v : option json) : result exn CursorAlgorithm :=
  match v with Some (JStr s) => _algorithm s | _ => Raise (ValueError "algorithm must be HS256 or A256GCM") end.

(** AES-GCM of [cryptography]: key, nonce, data, associated data; [None] is any exception. *)
Record aead := mkAead {
  gcm_encrypt : list N -> list N -> list N -> list N -> list N;
  gcm_decrypt : list N -> list N -> list N -> list N -> option (list N)
}.

Section Codec.
Context {W : Type} `{!Recursion}.
Variable utc_now : M exn W datetime.
Variable float_of : pystr -> spec_float.
Variable hmac_sha256 : list N -> list N -> list N.
Variable cryptography : option aead.
Variable rfc8785 : option (json -> result exn (list N)).

Record OpaqueCursorCodec := mkCodec {
  _key_resolver : pystr -> CursorAlgorithm -> M exn W (option (list N));
  _limits : CursorLimits;
  _nonce_factory : Z -> M exn W (list N)
}.

(** The argument [key_resolver]: a resolver, or a mapping whose copy is looked up. *)
Inductive key_source :=
  | KeyMapping (keys : dict pystr (list N))
  | KeyCallable (resolve : pystr -> CursorAlgorithm -> M exn W (option (list N))).

Definition OpaqueCursorCodec_new (keys : key_source) (limits : option CursorLimits) (nonce_factory : Z -> M exn W (list N)) : OpaqueCursorCodec :=
  mkCodec (match keys with KeyMapping copied => fun kid _ => ret (d_get kid copied) | KeyCallable resolve => resolve end)
    (default CursorLimits_default limits) nonce_factory.

Definition _aesgcm : result exn aead :=
  match cryptography with Some a => Ok a | None => Raise (RuntimeError "install pytitect[sync] for A256GCM cursors") end.

Variable codec : OpaqueCursorCodec.

Definition _resolve_key (kid : pystr) (algorithm : CursorAlgorithm) : M exn W (list N) :=
  let! key := _key_resolver codec kid algorithm in
  match key with Some key => ret key | None => raise (ValueError "cursor key identifier is unknown") end.

(** The protected header, in the order its members are set. *)
Definition cursor_header (algorithm : CursorAlgorithm) (dataset partition kid : pystr) (expires_at : option datetime) (nonce : option (list N)) : json :=
  JDict ([(KeyStr "alg", JStr (algorithm_value algorithm)); (KeyStr "dataset", JStr dataset); (KeyStr "kid", JStr kid);
     (KeyStr "partition", JStr partition); (KeyStr "v", JInt 1)] ++
    match expires_at with Some t => [(KeyStr "exp", JInt (timestamp_int t))] | None => [] end ++
    match nonce with Some n => [(KeyStr "nonce", JStr (base64url_encode n))] | None => [] end)%py.

(** The three parts of a token. *)
Definition sealed_parts (selected : CursorAlgorithm) (key payload : list N) (header : option (list N) -> json) : M exn W (pystr * pystr * pystr) :=
  match selected with
  | HS256 =>
      lift (_hmac_key key) ;;;
      let! protected_bytes := lift (canonical_json rfc8785 (header None)) in
      let protected := base64url_encode protected_bytes in
      let body := base64url_encode payload in
      let! message := lift (str_encode (dotted protected body)) in
      ret (protected, body, base64url_encode (hmac_sha256 key message))
  | A256GCM =>
      lift (_aes_key key) ;;;
      let! nonce := _nonce_factory codec 12 in
      raise_if (negb (Z.of_nat (length nonce) =? 12)) (ValueError "A256GCM nonce_factory must return exactly 12 bytes") ;;;
      let! protected_bytes := lift (canonical_json rfc8785 (header (Some nonce))) in
      let! aesgcm := lift _aesgcm in
      let encrypted := gcm_encrypt aesgcm key nonce payload protected_bytes in
      let split := (length encrypted - 16)%nat in
      ret (base64url_encode protected_bytes, base64url_encode (take split encrypted), base64url_encode (drop split encrypted))
  end.

Definition encode (payload : list N) (dataset partition kid algorithm : pystr) (expires_at : option datetime) : M exn W pystr :=
  let! selected := lift (_algorithm algorithm) in
  lift (_context dataset partition kid (_limits codec)) ;;;
  raise_if (bool_decide (payload = [])) (ValueError "cursor payload must not be empty") ;;;
  raise_if (max_payload_bytes (_limits codec) <? Z.of_nat (length payload)) (ValueError "cursor payload exceeds max_payload_bytes") ;;;
  match expires_at with Some t => lift (_utc t "cursor expiration") | None => ret tt end ;;;
  let! key := _resolve_key kid selected in
  let! '(protected, body, auth) := sealed_parts selected key payload (cursor_header selected dataset partition kid expires_at) in
  let token := dotted protected (dotted body auth) in
  let! bytes := lift (str_encode token) in
  raise_if (max_token_bytes (_limits codec) <? Z.of_nat (length bytes)) (ValueError "cursor exceeds max_token_bytes") ;;;
  ret token.

(** ** Decoding *)

Definition context_value_ok (v : option json) : bool :=
  match v with Some (JStr s) => context_ok (_limits codec) s | _ => false end.

(** What [_header] returns. *)
Record parsed_header := mkParsed {
  h_algorithm : CursorAlgorithm; h_kid : pystr; h_expires_at : option datetime; h_nonce : option (list N)
}.

Definition header_expiration (v : option json) : M (exn + rejection) W (option datetime) :=
  match v with
  | None | Some JNull => ret None
  | Some (JInt exp) =>
      match fromtimestamp exp with
      | Ok t => ret (Some t)
      | Raise _ => reject "invalid_header" "cursor expiration is invalid"
      end
  | Some _ => reject "invalid_header" "cursor expiration is invalid"
  end.

Definition header_nonce (algorithm : CursorAlgorithm) (v : option json) : M (exn + rejection) W (option (list N)) :=
  match algorithm with
  | A256GCM =>
      match v with
      | Some (JStr encoded) =>
          let! nonce := embed (lift (base64url_decode encoded)) in
          reject_when (negb (Z.of_nat (length nonce) =? 12)) "invalid_nonce" "A256GCM cursor nonce must be 96 bits" ;;;
          ret (Some nonce)
      | _ => reject "invalid_nonce" "A256GCM cursor nonce is absent"
      end
  | HS256 =>
      reject_when (match v with None | Some JNull => false | _ => true end) "invalid_header" "HS256 cursor must not contain a nonce" ;;;
      ret None
  end.

Definition _header (h : header_dict) (dataset partition : pystr) : M (exn + rejection) W parsed_header :=
  reject_when (existsb (fun p => negb (bool_decide (p.1 ∈ map KeyStr allowed))) h) "invalid_header" "cursor header contains unknown members" ;;;
  reject_when (negb (is_one (member "v" h))) "unsupported_version" "cursor version is not supported" ;;;
  let! algorithm := match header_algorithm (member "alg" h) with
    | Ok a => ret a
    | Raise _ => reject "unsupported_algorithm" "cursor algorithm is not supported"
    end in
  let! kid := match member "kid" h with
    | Some (JStr kid) => reject_when (str_empty kid) "invalid_header" "cursor kid is invalid" ;;; ret kid
    | _ => reject "invalid_header" "cursor kid is invalid"
    end in
  reject_when (negb (forallb context_value_ok [Some (JStr kid); member "dataset" h; member "partition" h])) "invalid_header" "cursor context is invalid" ;;;
  reject_when (negb (bool_decide (member "dataset" h = Some (JStr dataset))) || negb (bool_decide (member "partition" h = Some (JStr partition))))
    "context_mismatch" "cursor dataset or partition does not match" ;;;
  let! expires_at := header_expiration (member "exp" h) in
  let! nonce := header_nonce algorithm (member "nonce" h) in
  ret (mkParsed algorithm kid expires_at nonce).

(** The payload of an authentic token. *)
Definition opened (p : parsed_header) (key : list N) (protected body : pystr) (protected_bytes body_bytes auth_bytes : list N) : M (exn + rejection) W (list N) :=
  match h_algorithm p with
  | HS256 =>
      embed (lift (_hmac_key key)) ;;;
      let! message := embed (lift (str_encode (dotted protected body))) in
      reject_when (negb (bool_decide (hmac_sha256 key message = auth_bytes))) "invalid_auth" "cursor authentication failed" ;;;
      ret body_bytes
  | A256GCM =>
      embed (lift (_aes_key key)) ;;;
      match h_nonce p with
      | Some nonce =>
          reject_when (negb (Z.of_nat (length auth_bytes) =? 16)) "invalid_nonce" "A256GCM cursor parameters are invalid" ;;;
          match _aesgcm with
          | Ok aesgcm => or_reject (gcm_decrypt aesgcm key nonce (body_bytes ++ auth_bytes) protected_bytes) "invalid_auth" "cursor authentication failed"
          | Raise _ => reject "invalid_auth" "cursor authentication failed"
          end
      | None => reject "invalid_nonce" "A256GCM cursor parameters are invalid"
      end
  end.

Definition three_parts (token : pystr) : result exn (pystr * pystr * pystr) :=
  match split_dots [] (codepoints token) with
  | [protected; body; auth] => Ok (protected, body, auth)
  | _ => Raise (ValueError "wrong number of values to unpack")
  end.

(** The body of the [try] statement. *)
Definition decode_body (token dataset partition : pystr) (now : option datetime) : M (exn + rejection) W CursorDecodeResult :=
  let! '(protected, body, auth) := embed (lift (three_parts token)) in
  let! protected_bytes := embed (lift (base64url_decode protected)) in
  let! header_value := embed (lift (parse_ijson float_of (PayloadBytes protected_bytes))) in
  let! h := match header_value with JDict h => ret h | _ => reject "invalid_header" "cursor header must be an object" end in
  let! canonical := embed (lift (canonical_json rfc8785 (JDict h))) in
  reject_when (negb (bool_decide (canonical = protected_bytes))) "noncanonical_header" "cursor header is not RFC 8785" ;;;
  let! p := _header h dataset partition in
  let! resolved := embed (_key_resolver codec (h_kid p) (h_algorithm p)) in
  let! key := or_reject resolved "unknown_key" "cursor key identifier is unknown" in
  let! body_bytes := embed (lift (base64url_decode body)) in
  let! auth_bytes := embed (lift (base64url_decode auth)) in
  let! payload := opened p key protected body protected_bytes body_bytes auth_bytes in
  reject_when (max_payload_bytes (_limits codec) <? Z.of_nat (length payload)) "payload_too_large" "cursor payload exceeds its limit" ;;;
  let! selected_now := match now with Some t => ret t | None => embed utc_now end in
  embed (lift (_utc selected_now "cursor comparison time")) ;;;
  reject_when (match h_expires_at p with Some e => dt_leb e selected_now | None => false end) "expired" "cursor has expired" ;;;
  ret (CursorDecoded payload (h_kid p) (h_expires_at p)).

Definition decode (token dataset partition : pystr) (now : option datetime) : M exn W CursorDecodeResult :=
  let! bytes := lift (str_encode token) in
  if max_token_bytes (_limits codec) <? Z.of_nat (length bytes)
  then ret (CursorRejected "cursor_too_large" "cursor exceeds max_token_bytes")
  else
    try_except
      (catch (decode_body token dataset partition now) (fun r => ret (CursorRejected r.1 r.2)))
      (fun e => if is_value_error e then ret (CursorRejected "malformed" "cursor envelope is malformed") else raise e).
End Codec.
