(* ===== verification/CursorTokens.v ===== *)
(** * Sync cursors: tokens are read back, and only issued ones are accepted

    A token that [encode] returns is accepted by [decode] in its own context until it expires,
    with its payload; when the authentication cannot be forged, every accepted token was issued
    for the dataset and the partition it is presented for, with that payload. *)
From Stdlib Require Import ZArith Lia SpecFloat Permutation.
From stdpp Require Import base list gmap.
From S2P Require Import Prelude Core Canonical Wire WireText WireRoundTrip WireNumbers Encoding Contracts ContractDocuments MessageRoundTrip SyncWireIntegrity Maintenance Replay Signatures JsonLoads JsonRoundTrip Cursors.

(** ** The text of a token *)

Definition no_dot (s : pystr) : Prop := Forall (fun c => (c < 128)%N /\ c <> 46%N) (codepoints s).

Lemma split_dots_part a : forall cur l, Forall (fun c => (c < 128)%N /\ c <> 46%N) a ->
  split_dots cur (a ++ 46%N :: l) = PyStr (rev cur ++ a) :: split_dots [] l.
Proof.
  induction a as [|c a IH]; intros cur l Ha; cbn; [by rewrite app_nil_r|]. apply Forall_cons in Ha as [[_ Hc] Ha].
  rewrite (proj2 (N.eqb_neq _ _)) by done. rewrite IH by done. cbn. by rewrite <- app_assoc.
Qed.
Lemma split_dots_last a : forall cur, Forall (fun c => (c < 128)%N /\ c <> 46%N) a -> split_dots cur a = [PyStr (rev cur ++ a)].
Proof.
  induction a as [|c a IH]; intros cur Ha; cbn; [by rewrite app_nil_r|]. apply Forall_cons in Ha as [[_ Hc] Ha].
  rewrite (proj2 (N.eqb_neq _ _)) by done. rewrite IH by done. cbn. by rewrite <- app_assoc.
Qed.

Lemma three_parts_dotted a b c : no_dot a -> no_dot b -> no_dot c -> three_parts (dotted a (dotted b c)) = Ok (a, b, c).
Proof.
  intros Ha Hb Hc. unfold three_parts, dotted, str_app. cbn [codepoints app]. rewrite !split_dots_part, split_dots_last by done.
  by destruct a, b, c.
Qed.

Lemma ascii_encode s : Forall (fun c => (c < 128)%N) (codepoints s) -> str_encode s = Ok (codepoints s).
Proof.
  intros Hs. unfold str_encode. assert (mapM utf8_encode_cp (codepoints s) = Some (map (fun c => [c]) (codepoints s))) as ->.
  { apply mapM_Some. induction Hs as [|c l Hc _ IH]; constructor; [|done]. unfold utf8_encode_cp. by rewrite (proj2 (N.ltb_lt _ _)). }
  f_equal. induction (codepoints s) as [|c l IH]; [done|]. cbn. f_equal. apply IH. by apply Forall_cons in Hs as [_ Hs].
Qed.

Lemma dotted_ascii a b : no_dot a -> Forall (fun c => (c < 128)%N) (codepoints b) -> Forall (fun c => (c < 128)%N) (codepoints (dotted a b)).
Proof.
  intros Ha Hb. unfold dotted, str_app. cbn [codepoints]. apply Forall_app. split; [|by constructor].
  eapply Forall_impl; [exact Ha|]. by intros c [Hc _].
Qed.

(** ** Headers *)

(** No float in it: the canonical text of a value without floats is not rounded. *)
Fixpoint float_free (v : json) : Prop :=
  match v with
  | JFloat _ => False
  | JList l => foldr (fun x p => float_free x /\ p) True l
  | JDict m => foldr (fun kv p => float_free (snd kv) /\ p) True m
  | _ => True
  end.

(** What RFC 8785 documents of its encoder: canonical text is the text of an equal value, and of
    that value it is the canonical text. *)
Class Canonicalizer `{!Recursion} (float_of : pystr -> spec_float) (dumps : json -> result exn (list N)) := {
  canonical_reads v b : float_free v -> ijson v -> distinct v -> code_points v ->
    (nested v <= scan_limit)%nat -> (frames v <= call_limit)%nat -> dumps v = Ok b ->
    bytes b /\ exists v', parse_ijson float_of (PayloadBytes b) = Ok v' /\ same v v' /\ dumps v' = Ok b
}.

Lemma obj_inj m m' : obj m = obj m' -> m = m'.
Proof.
  unfold obj. intros [= Hm]. revert m' Hm. induction m as [|[k v] m IH]; intros [|[k' v'] m']; try done. cbn. intros [= -> -> Hm]. f_equal. by apply IH.
Qed.

Lemma member_obj name l : member name (map (fun p => (KeyStr p.1, p.2)) l) = d_get name l.
Proof.
  unfold member. induction l as [|[k v] l IH]; [done|]. cbn. destruct (decide (k = name)) as [->|Hne]; [by rewrite decide_True|].
  rewrite decide_False by congruence. exact IH.
Qed.

(** An equal object has the same members. *)
Lemma same_obj_get m v : same (obj m) v -> d_wf m -> exists l, v = obj l /\ l.*1 ≡ₚ m.*1 /\
  forall k, match d_get k m with Some x => exists y, d_get k l = Some y /\ same x y | None => d_get k l = None end.
Proof.
  intros Hs Hwf. inversion Hs as [v0|l0 l1 Hl|m0 m1 l Hp Hall Hm]; subst.
  - exists m. split_and!; [done..|]. intros k. destruct (d_get k m) as [x|]; [|done]. exists x. split; [done|constructor].
  - apply (f_equal JDict), (obj_inj m0 m) in Hm as ->. exists l. assert (l.*1 = m1.*1) as Hkeys.
    { clear -Hall. induction Hall as [|p q m1 l [Hpq _] _ IH]; [done|]. cbn. by rewrite IH, Hpq. }
    split_and!; [done|by rewrite Hkeys, Hp|]. intros k. rewrite (d_get_perm m m1) by done.
    clear -Hall. induction Hall as [|[k1 x1] [k2 x2] m1 l [Hk Hx] _ IH]; [done|]. cbn in *. subst. case_decide; [by eexists|exact IH].
Qed.

Definition header_members (algorithm : CursorAlgorithm) (dataset partition kid : pystr) (expires_at : option datetime) (nonce : option (list N)) : list (pystr * json) :=
  [("alg", JStr (algorithm_value algorithm)); ("dataset", JStr dataset); ("kid", JStr kid); ("partition", JStr partition); ("v", JInt 1)]%py ++
    match expires_at with Some t => [("exp"%py, JInt (timestamp_int t))] | None => [] end ++
    match nonce with Some n => [("nonce"%py, JStr (base64url_encode n))] | None => [] end.

Lemma cursor_header_obj a d p k e n : cursor_header a d p k e n = obj (header_members a d p k e n).
Proof. by destruct e, n. Qed.

Lemma header_members_wf a d p k e n : d_wf (header_members a d p k e n).
Proof. unfold d_wf. destruct e, n; apply (bool_decide_unpack (NoDup _)); by vm_compute. Qed.

Lemma header_nested a d p k e n : nested (cursor_header a d p k e n) = 1%nat.
Proof. by destruct e, n. Qed.
Lemma header_plain a d p k e n : text_ok d -> text_ok p -> text_ok k -> (forall l, n = Some l -> bytes l) ->
  float_free (cursor_header a d p k e n) /\ distinct (cursor_header a d p k e n) /\ code_points (cursor_header a d p k e n).
Proof.
  intros Hd Hp Hk Hn. split_and!.
  - destruct e, n; cbn; tauto.
  - rewrite cursor_header_obj. apply distinct_obj. split; [apply header_members_wf|]. by destruct e, n; repeat constructor.
  - rewrite cursor_header_obj. apply code_points_obj. unfold header_members.
    rewrite !Forall_app, !Forall_cons, Forall_nil. split_and!; try done; try (by apply text_ok_compute); try (by destruct a; apply text_ok_compute).
    + destruct e; constructor; [|done]. by split; [apply text_ok_compute|].
    + destruct n as [l|]; constructor; [|done]. split; [by apply text_ok_compute|]. cbn. eapply Forall_impl; [apply base64url_chars; by apply Hn|].
      intros c [Hc _]. lia.
Qed.

(** ** What is accepted *)

Lemma algorithm_ok s a : _algorithm s = Ok a <-> s = algorithm_value a.
Proof.
  unfold _algorithm. case_bool_decide as H1; [subst; split; [by intros [= <-]|by destruct a]|].
  case_bool_decide as H2; [subst; split; [by intros [= <-]|by destruct a]|]. split; [done|]. by destruct a.
Qed.

Section Accepting.
Context {W : Type} `{Hlimits : Recursion} (utc_now : M exn W datetime) (float_of : pystr -> spec_float) (hmac_sha256 : list N -> list N -> list N)
  (cryptography : option aead) (rfc8785 : option (json -> result exn (list N))) (codec : OpaqueCursorCodec (W := W)).
(** The key resolver is a lookup. *)
Context (keys : pystr -> CursorAlgorithm -> option (list N)) (Hkeys : forall kid a w, _key_resolver codec kid a w = (Ok (keys kid a), w)).

(** The header is a cursor header of this dataset and partition, and [p] is what it says. *)
Record header_for (h : header_dict) (dataset partition : pystr) (p : parsed_header) : Prop := {
  hf_allowed : forall k, k ∈ h.*1 -> k ∈ map KeyStr allowed;
  hf_version : is_one (member "v" h) = true;
  hf_algorithm : member "alg" h = Some (JStr (algorithm_value (h_algorithm p)));
  hf_kid : member "kid" h = Some (JStr (h_kid p)) /\ context_ok (_limits codec) (h_kid p) = true;
  hf_dataset : member "dataset" h = Some (JStr dataset) /\ context_ok (_limits codec) dataset = true;
  hf_partition : member "partition" h = Some (JStr partition) /\ context_ok (_limits codec) partition = true;
  hf_expiration : forall w : W, header_expiration (member "exp" h) w = (Ok (h_expires_at p), w);
  hf_nonce : forall w : W, header_nonce (h_algorithm p) (member "nonce" h) w = (Ok (h_nonce p), w)
}.

Lemma header_expiration_state v (w : W) e w' : header_expiration v w = (Ok e, w') -> w' = w /\ forall w : W, header_expiration v w = (Ok e, w).
Proof. unfold header_expiration. destruct v as [[]|]; try (by intros [= <- <-]); try done. destruct (fromtimestamp n); [by intros [= <- <-]|done]. Qed.
Lemma header_nonce_state a v (w : W) n w' : header_nonce a v w = (Ok n, w') -> w' = w /\ forall w : W, header_nonce a v w = (Ok n, w).
Proof.
  destruct a; cbn [header_nonce].
  - intros (u & s & [Hv ->]%reject_when_ok & [= <- <-])%bind_ok. split; [done|]. intros w2. by rewrite Hv.
  - destruct v as [[| | | |s| | |]|]; try done. intros (nonce & s1 & [Hs ->]%embed_answers%lift_ok & Hn)%bind_ok.
    apply bind_ok in Hn as ([] & s2 & [Hl ->]%reject_when_ok & [= <- <-]). split; [done|]. intros w2. rewrite Hs.
    unfold bind, embed, lift. by rewrite Hl.
Qed.

Lemma header_ok h dataset partition (w : W) p w' :
  _header codec h dataset partition w = (Ok p, w') <-> w' = w /\ header_for h dataset partition p.
Proof.
  unfold _header. split.
  - intros (u & ? & [Hall ->]%reject_when_ok & Hr)%bind_ok. apply bind_ok in Hr as (u1 & ? & [Hv ->]%reject_when_ok & Hr).
    apply negb_false_iff in Hv. apply bind_ok in Hr as (a & ? & Ha & Hr).
    destruct (header_algorithm _) as [a'|] eqn:Halg; [|done]. injection Ha as -> <-. unfold header_algorithm in Halg.
    destruct (member "alg" h) as [[| | | |t| | |]|] eqn:Et; try done. apply algorithm_ok in Halg as ->.
    apply bind_ok in Hr as (kid & ? & Hk & Hr). destruct (member "kid" h) as [[| | | |k| | |]|] eqn:Ek; try done.
    apply bind_ok in Hk as (u2 & ? & [_ ->]%reject_when_ok & [= -> ->]).
    apply bind_ok in Hr as (u3 & ? & [Hc ->]%reject_when_ok & Hr). apply negb_false_iff in Hc. cbn [forallb context_value_ok] in Hc.
    apply bind_ok in Hr as (u4 & ? & [Hm ->]%reject_when_ok & Hr). apply orb_false_iff in Hm as [Hd%negb_false_iff%bool_decide_eq_true Hp%negb_false_iff%bool_decide_eq_true].
    rewrite Hd, Hp in Hc. cbn in Hc. rewrite !andb_true_iff in Hc. destruct Hc as (Hck & Hcd & Hcp & _).
    apply bind_ok in Hr as (e & ? & He & Hr). apply header_expiration_state in He as [-> He].
    apply bind_ok in Hr as (n & ? & Hn & [= <- <-]). apply header_nonce_state in Hn as [-> Hn]. split; [done|].
    split; cbn; try done.
    intros q Hq. apply list_elem_of_In in Hq. apply in_map_iff in Hq as (kv & <- & Hx). destruct (decide (kv.1 ∈ map KeyStr allowed)) as [|Hne]; [done|].
    assert (existsb (fun p => negb (bool_decide (p.1 ∈ map KeyStr allowed))) h = true); [|congruence]. apply existsb_exists. exists kv. split; [done|].
    by rewrite bool_decide_false.
  - intros [-> [Hall Hv Ha [Hk Hck] [Hd Hcd] [Hp Hcp] He Hn]].
    rewrite (bind_run _ _ _ tt w). 2: { apply reject_when_ok. split; [|done]. apply not_true_iff_false. intros (kv & Hx & Hb)%existsb_exists.
      apply negb_true_iff, bool_decide_eq_false in Hb. apply Hb, Hall. apply list_elem_of_In, in_map. done. }
    rewrite (bind_run _ _ _ tt w) by by rewrite Hv. rewrite Ha. cbn [header_algorithm]. rewrite (proj2 (algorithm_ok _ (h_algorithm p))) by done.
    erewrite bind_run by done. rewrite Hk. assert (str_empty (h_kid p) = false) as Hne.
    { unfold context_ok in Hck. by destruct (str_empty (h_kid p)). }
    rewrite (bind_run _ _ _ (h_kid p) w) by (by rewrite Hne). rewrite Hd, Hp. cbn [forallb context_value_ok]. rewrite Hck, Hcd, Hcp.
    rewrite !bool_decide_true by done. cbn [andb negb orb]. erewrite bind_run by done. erewrite bind_run by done.
    rewrite (bind_run _ _ _ _ w (He w)), (bind_run _ _ _ _ w (Hn w)). by destruct p.
Qed.

Abbreviation opened := (opened (W := W) hmac_sha256 cryptography).
Abbreviation decode_body := (decode_body utc_now float_of hmac_sha256 cryptography rfc8785 codec).
Abbreviation decode := (decode utc_now float_of hmac_sha256 cryptography rfc8785 codec).

Lemma opened_state p key protected body pb bb ab (w : W) x w' : opened p key protected body pb bb ab w = (Ok x, w') ->
  w' = w /\ forall w : W, opened p key protected body pb bb ab w = (Ok x, w).
Proof.
  unfold Cursors.opened. destruct (h_algorithm p).
  - intros (u & ? & [Hk ->]%embed_answers%lift_ok & Hr)%bind_ok. apply bind_ok in Hr as (m & ? & [Hm ->]%embed_answers%lift_ok & Hr).
    apply bind_ok in Hr as (u2 & ? & [Hc ->]%reject_when_ok & [= <- <-]). split; [done|]. intros w2. rewrite Hk, Hm. unfold bind, embed, lift. by rewrite Hc.
  - intros (u & ? & [Hk ->]%embed_answers%lift_ok & Hr)%bind_ok. rewrite Hk. destruct (h_nonce p) as [n|]; [|done].
    apply bind_ok in Hr as (u2 & ? & [Hc ->]%reject_when_ok & Hr). rewrite Hc. destruct (_aesgcm cryptography) as [a|]; [|done].
    apply or_reject_ok in Hr as [Hd ->]. rewrite Hd. done.
Qed.

(** The token is accepted: its parts, its header, the key and the payload. *)
Record accepted (token dataset partition : pystr) (now : datetime) (parts : pystr * pystr * pystr) (pb bb ab : list N) (h : header_dict)
    (p : parsed_header) (key payload : list N) : Prop := {
  ac_parts : three_parts token = Ok parts;
  ac_protected : base64url_decode parts.1.1 = Ok pb;
  ac_header : parse_ijson float_of (PayloadBytes pb) = Ok (JDict h);
  ac_canonical : canonical_json rfc8785 (JDict h) = Ok pb;
  ac_for : header_for h dataset partition p;
  ac_key : keys (h_kid p) (h_algorithm p) = Some key;
  ac_body : base64url_decode parts.1.2 = Ok bb;
  ac_auth : base64url_decode parts.2 = Ok ab;
  ac_opened : forall w : W, opened p key parts.1.1 parts.1.2 pb bb ab w = (Ok payload, w);
  ac_size : Z.of_nat (length payload) <= max_payload_bytes (_limits codec);
  ac_now : is_utc now = true;
  ac_alive : forall e, h_expires_at p = Some e -> dt_instant now < dt_instant e
}.

Lemma decode_body_ok token dataset partition now (w : W) r w' :
  decode_body token dataset partition (Some now) w = (Ok r, w') <->
  w' = w /\ exists parts pb bb ab h p key payload,
    accepted token dataset partition now parts pb bb ab h p key payload /\ r = CursorDecoded payload (h_kid p) (h_expires_at p).
Proof.
  unfold Cursors.decode_body. split.
  - intros ([[protected body] auth] & ? & [Hparts ->]%embed_answers%lift_ok & Hr)%bind_ok. cbv beta iota in Hr.
    apply bind_ok in Hr as (pb & ? & [Hpb ->]%embed_answers%lift_ok & Hr). apply bind_ok in Hr as (v & ? & [Hv ->]%embed_answers%lift_ok & Hr).
    apply bind_ok in Hr as (h & ? & Hh & Hr). destruct v as [| | | | | |h'|]; try done. injection Hh as -> <-.
    apply bind_ok in Hr as (cb & ? & [Hcb ->]%embed_answers%lift_ok & Hr). apply bind_ok in Hr as (u & ? & [Hc ->]%reject_when_ok & Hr).
    apply negb_false_iff, bool_decide_eq_true in Hc as ->. apply bind_ok in Hr as (p & ? & [-> Hp]%header_ok & Hr).
    apply bind_ok in Hr as (k & ? & Hk%embed_answers & Hr). rewrite Hkeys in Hk. injection Hk as <- <-.
    apply bind_ok in Hr as (key & ? & [Hkey ->]%or_reject_ok & Hr). apply bind_ok in Hr as (bb & ? & [Hbb ->]%embed_answers%lift_ok & Hr).
    apply bind_ok in Hr as (ab & ? & [Hab ->]%embed_answers%lift_ok & Hr). apply bind_ok in Hr as (payload & ? & [-> Ho]%opened_state & Hr).
    apply bind_ok in Hr as (u2 & ? & [Hs%Z.ltb_ge ->]%reject_when_ok & Hr). apply bind_ok in Hr as (t & ? & [= <- <-] & Hr).
    apply bind_ok in Hr as (u3 & ? & [Hu%reject_if_ok%negb_false_iff ->]%embed_answers%lift_ok & Hr).
    apply bind_ok in Hr as (u4 & ? & [He ->]%reject_when_ok & [= <- <-]). split; [done|].
    exists (protected, body, auth), pb, bb, ab, h, p, key, payload. split; [|done]. split; try done.
    intros e Hex. rewrite Hex in He. by apply dt_leb_gt in He.
  - intros (-> & [[protected body] auth] & pb & bb & ab & h & p & key & payload & [Hparts Hpb Hv Hcb Hp Hkey Hbb Hab Ho Hs Hu He] & ->).
    cbn [fst snd] in *. rewrite (bind_run _ _ _ (protected, body, auth) w) by (apply embed_answers, lift_ok; done). cbv beta iota.
    rewrite (bind_run _ _ _ pb w) by (apply embed_answers, lift_ok; done). rewrite (bind_run _ _ _ (JDict h) w) by (apply embed_answers, lift_ok; done).
    erewrite bind_run by done. rewrite (bind_run _ _ _ pb w) by (apply embed_answers, lift_ok; done).
    rewrite bool_decide_true by done. erewrite bind_run by done. rewrite (bind_run _ _ _ p w) by by apply header_ok.
    rewrite (bind_run _ _ _ (Some key) w) by (apply embed_answers; by rewrite Hkeys, Hkey). erewrite bind_run by done.
    rewrite (bind_run _ _ _ bb w) by (apply embed_answers, lift_ok; done). rewrite (bind_run _ _ _ ab w) by (apply embed_answers, lift_ok; done).
    rewrite (bind_run _ _ _ payload w) by done. rewrite (bind_run _ _ _ tt w) by (apply reject_when_ok; split; [by apply Z.ltb_ge|done]).
    erewrite bind_run by done. rewrite (bind_run _ _ _ tt w) by (apply embed_answers, lift_ok; unfold _utc; by rewrite Hu).
    rewrite (bind_run _ _ _ tt w); [done|]. apply reject_when_ok. split; [|done]. destruct (h_expires_at p) as [e|]; [|done]. by apply dt_leb_gt, He.
Qed.

Lemma decode_ok token dataset partition now (w : W) payload kid expires w' :
  decode token dataset partition (Some now) w = (Ok (CursorDecoded payload kid expires), w') <->
  (exists bytes, str_encode token = Ok bytes /\ Z.of_nat (length bytes) <= max_token_bytes (_limits codec)) /\
  decode_body token dataset partition (Some now) w = (Ok (CursorDecoded payload kid expires), w').
Proof.
  unfold Cursors.decode, try_except, catch. split.
  - intros (bytes & ? & [Hb ->]%lift_ok & Hr)%bind_ok. destruct (Z.ltb_spec (max_token_bytes (_limits codec)) (Z.of_nat (length bytes))); [done|].
    split; [by exists bytes|]. destruct (decode_body _ _ _ _ w) as [[r|[e|c]] s]; cbn in Hr; [by injection Hr as -> ->| |done]. by destruct (is_value_error e).
  - intros [(bytes & Hb & Hl) Hr]. rewrite (bind_run _ _ _ bytes w) by by apply lift_ok. rewrite (proj2 (Z.ltb_ge _ _)) by done. by rewrite Hr.
Qed.
End Accepting.

(** ** What is issued *)

(** What [cryptography] documents of AES-GCM: a tag of 16 bytes after the ciphertext, and the
    data is recovered with the same key, nonce and associated data. *)
Class Aead (g : aead) := {
  gcm_bytes key nonce data ad : bytes data -> bytes (gcm_encrypt g key nonce data ad);
  gcm_length key nonce data ad : length (gcm_encrypt g key nonce data ad) = (length data + 16)%nat;
  gcm_open key nonce data ad : gcm_decrypt g key nonce (gcm_encrypt g key nonce data ad) ad = Some data
}.

(** The expiration a token carries: none, or the second it is truncated to, if it is a date. *)
Definition cursor_expiration (expires_at : option datetime) : option (option datetime) :=
  match expires_at with
  | None => Some None
  | Some t => match fromtimestamp (timestamp_int t) with Ok e => Some (Some e) | Raise _ => None end
  end.

Section Issuing.
Context {W : Type} `{Hlimits : Recursion} (utc_now : M exn W datetime) (float_of : pystr -> spec_float) (hmac_sha256 : list N -> list N -> list N)
  (cryptography : option aead) (rfc8785 : option (json -> result exn (list N))) (codec : OpaqueCursorCodec (W := W)).
Context (keys : pystr -> CursorAlgorithm -> option (list N)) (Hkeys : forall kid a w, _key_resolver codec kid a w = (Ok (keys kid a), w)).
(** Hashes and nonces are bytes; the third-party encoders behave as documented. *)
Context (Hhmac : forall key m, bytes (hmac_sha256 key m) /\ hmac_sha256 key m <> []) (Haead : forall g, cryptography = Some g -> Aead g)
  (Hcanonical : forall dumps, rfc8785 = Some dumps -> Canonicalizer float_of dumps)
  (Hnonce : forall w n w', _nonce_factory codec 12 w = (Ok n, w') -> bytes n).
Abbreviation encode := (encode hmac_sha256 cryptography rfc8785 codec).
Abbreviation opened := (opened (W := W) hmac_sha256 cryptography).

(** The body and the tag of a payload under a key: the MAC of the text before the tag, or the
    ciphertext with the header as associated data. *)
Definition sealed (a : CursorAlgorithm) (key payload pb bb ab : list N) (nonce : option (list N)) : Prop :=
  match a with
  | HS256 => 32 <= Z.of_nat (length key) /\ nonce = None /\ bb = payload /\
      exists m, str_encode (dotted (base64url_encode pb) (base64url_encode payload)) = Ok m /\ ab = hmac_sha256 key m
  | A256GCM => Z.of_nat (length key) = 32 /\ exists n g, nonce = Some n /\ Z.of_nat (length n) = 12 /\ bytes n /\ cryptography = Some g /\
      bb ++ ab = gcm_encrypt g key n payload pb /\ length ab = 16%nat /\ length bb = length payload
  end.

(** A token that was issued, and how. *)
Record issued (payload : list N) (dataset partition kid algorithm : pystr) (expires_at : option datetime) (token : pystr)
    (a : CursorAlgorithm) (key pb bb ab : list N) (nonce : option (list N)) : Prop := {
  is_algorithm : algorithm = algorithm_value a;
  is_context : context_ok (_limits codec) dataset = true /\ context_ok (_limits codec) partition = true /\ context_ok (_limits codec) kid = true;
  is_payload : payload <> [] /\ Z.of_nat (length payload) <= max_payload_bytes (_limits codec);
  is_key : keys kid a = Some key;
  is_header : canonical_json rfc8785 (cursor_header a dataset partition kid expires_at nonce) = Ok pb;
  is_sealed : sealed a key payload pb bb ab nonce;
  is_token : token = dotted (base64url_encode pb) (dotted (base64url_encode bb) (base64url_encode ab));
  is_size : exists b, str_encode token = Ok b /\ Z.of_nat (length b) <= max_token_bytes (_limits codec)
}.

Lemma sealed_parts_ok a key payload header w parts w' :
  sealed_parts hmac_sha256 cryptography rfc8785 codec a key payload header w = (Ok parts, w') ->
  exists pb bb ab nonce, canonical_json rfc8785 (header nonce) = Ok pb /\ sealed a key payload pb bb ab nonce /\
    parts = (base64url_encode pb, base64url_encode bb, base64url_encode ab).
Proof.
  destruct a; cbn [sealed_parts sealed].
  - intros (u & ? & [Hk%reject_if_ok%Z.ltb_ge ->]%lift_ok & Hr)%bind_ok. apply bind_ok in Hr as (pb & ? & [Hpb ->]%lift_ok & Hr).
    apply bind_ok in Hr as (m & ? & [Hm ->]%lift_ok & [= <- <-]). exists pb, payload, (hmac_sha256 key m), None. split_and!; [done..| |done]. by exists m.
  - intros (u & ? & [Hk%reject_if_ok%negb_false_iff%Z.eqb_eq ->]%lift_ok & Hr)%bind_ok. apply bind_ok in Hr as (n & w1 & Hn%Hnonce & Hr).
    apply bind_ok in Hr as (u1 & ? & Hl & Hr). unfold raise_if in Hl. destruct (Z.eqb_spec (Z.of_nat (length n)) 12) as [Hlen|]; [|done]. injection Hl as _ <-.
    apply bind_ok in Hr as (pb & ? & [Hpb ->]%lift_ok & Hr). apply bind_ok in Hr as (g & ? & [Hg ->]%lift_ok & [= <- <-]).
    unfold _aesgcm in Hg. destruct cryptography as [g'|] eqn:Hc; [|done]. injection Hg as ->. pose proof (Haead g eq_refl) as Hlaws.
    pose proof (gcm_length key n payload pb) as Hgl.
    exists pb, (take (length (gcm_encrypt g key n payload pb) - 16) (gcm_encrypt g key n payload pb)), (drop (length (gcm_encrypt g key n payload pb) - 16) (gcm_encrypt g key n payload pb)), (Some n).
    split_and!; [done..| |done]. exists n, g. split_and!; [done..|by rewrite take_drop|rewrite length_drop; lia|rewrite length_take; lia].
Qed.

Lemma encode_ok payload dataset partition kid algorithm expires_at token w w' :
  encode payload dataset partition kid algorithm expires_at w = (Ok token, w') ->
  exists a key pb bb ab nonce, issued payload dataset partition kid algorithm expires_at token a key pb bb ab nonce.
Proof.
  unfold Cursors.encode. intros (a & ? & [Ha%algorithm_ok ->]%lift_ok & Hr)%bind_ok. apply bind_ok in Hr as (u & ? & [Hc ->]%lift_ok & Hr).
  unfold _context in Hc. apply rbind_ok in Hc as (u1 & Hd%reject_if_ok%negb_false_iff & Hc). apply rbind_ok in Hc as (u2 & Hp%reject_if_ok%negb_false_iff & Hk%reject_if_ok%negb_false_iff).
  apply bind_ok in Hr as (u3 & ? & Hne & Hr). unfold raise_if in Hne. case_bool_decide as Hpne; [done|]. injection Hne as _ <-.
  apply bind_ok in Hr as (u4 & ? & Hl & Hr). unfold raise_if in Hl. destruct (Z.ltb_spec (max_payload_bytes (_limits codec)) (Z.of_nat (length payload))) as [|Hlen]; [done|]. injection Hl as _ <-.
  apply bind_ok in Hr as (u5 & w5 & He & Hr). assert (w5 = w) as -> by (destruct expires_at; [by apply lift_ok in He as [_ ->]|by injection He]).
  apply bind_ok in Hr as (key & ? & Hkey & Hr). unfold _resolve_key in Hkey. apply bind_ok in Hkey as (k & ? & Hres & Hkey).
  rewrite Hkeys in Hres. injection Hres as <- <-. destruct (keys kid a) as [key'|] eqn:Ek; [|done]. injection Hkey as -> <-.
  apply bind_ok in Hr as ([[protected body] auth] & w6 & Hs & Hr). apply sealed_parts_ok in Hs as (pb & bb & ab & nonce & Hpb & Hsealed & [= -> -> ->]).
  apply bind_ok in Hr as (b & ? & [Hb ->]%lift_ok & Hr). apply bind_ok in Hr as (u6 & ? & Hm & [= <- <-]).
  unfold raise_if in Hm. destruct (Z.ltb_spec (max_token_bytes (_limits codec)) (Z.of_nat (length b))) as [|Hmax]; [done|].
  exists a, key, pb, bb, ab, nonce. split; eauto 6.
Qed.

(** Bytes of an issued token. *)
Lemma sealed_bytes a key payload pb bb ab nonce : bytes payload -> payload <> [] -> sealed a key payload pb bb ab nonce ->
  (bytes bb /\ bb <> []) /\ (bytes ab /\ ab <> []) /\ forall n, nonce = Some n -> bytes n.
Proof.
  intros Hb Hne. destruct a; cbn [sealed].
  - intros (_ & -> & -> & m & _ & ->). split_and!; [done..| | |done]; apply Hhmac.
  - intros (_ & n & g & -> & _ & Hn & Hg & Henc & Hla & Hlb). pose proof (Haead g Hg) as Hlaws. pose proof (gcm_bytes key n payload pb Hb) as Hbytes.
    unfold bytes in Hbytes. rewrite <- Henc in Hbytes. apply Forall_app in Hbytes as [Hbb Hab]. split_and!; try done.
    + intros ->. destruct payload; done.
    + by intros ->.
    + by intros ? [= <-].
Qed.

(** The header of an issued token is read back with its members. *)
Lemma issued_header a dataset partition kid expires_at nonce pb : text_ok dataset -> text_ok partition -> text_ok kid -> (forall n, nonce = Some n -> bytes n) ->
  canonical_json rfc8785 (cursor_header a dataset partition kid expires_at nonce) = Ok pb ->
  bytes pb /\ pb <> [] /\ exists h, parse_ijson float_of (PayloadBytes pb) = Ok (JDict h) /\ canonical_json rfc8785 (JDict h) = Ok pb /\
    (forall k, k ∈ h.*1 -> k ∈ map KeyStr allowed) /\
    forall k, member k h = d_get k (header_members a dataset partition kid expires_at nonce).
Proof.
  intros Hd Hp Hk Hn Hc. destruct (header_plain a dataset partition kid expires_at nonce Hd Hp Hk Hn) as (Hfree & Hdist & Hcp).
  unfold canonical_json in Hc. destruct (validate_ijson _) as [[]|] eqn:Hv; [|done]. apply validate_ijson_accepts in Hv as [Hv Hfr].
  destruct rfc8785 as [dumps|] eqn:Hr; [|done]. pose proof (Hcanonical dumps eq_refl) as Hlaws.
  destruct (dumps (cursor_header a dataset partition kid expires_at nonce)) as [b|] eqn:Hb; [|done]. injection Hc as ->.
  assert (nested (cursor_header a dataset partition kid expires_at nonce) <= scan_limit)%nat as Hnest
    by (rewrite header_nested; apply scan_room).
  destruct (canonical_reads _ pb Hfree Hv Hdist Hcp Hnest Hfr Hb) as (Hbytes & v & Hparse & Hsame & Hback). split; [done|].
  split; [by intros ->; apply parse_ijson_empty in Hparse|]. rewrite cursor_header_obj in Hsame. destruct (same_obj_get _ _ Hsame (header_members_wf _ _ _ _ _ _)) as (l & -> & Hkeys' & Hget).
  exists (map (fun p => (KeyStr p.1, p.2)) l). split; [done|]. split.
  { unfold canonical_json. pose proof (parse_ijson_valid _ _ _ Hparse) as Hi.
    apply validate_ijson_accepts in Hi. unfold obj in Hi, Hback. by rewrite Hi, Hback. }
  split.
  - intros k Hin. rewrite <- list_fmap_compose in Hin. apply list_elem_of_fmap in Hin as (x & -> & Hx). change (KeyStr x.1 ∈ KeyStr <$> allowed). apply list_elem_of_fmap_2.
    assert (x.1 ∈ l.*1) as Hx1 by by apply list_elem_of_fmap_2. rewrite Hkeys' in Hx1. clear -Hx1. revert Hx1. generalize (x.1). intros k Hk.
    destruct expires_at, nonce; cbn in Hk; repeat (apply elem_of_cons in Hk as [->|Hk]; [apply (bool_decide_unpack _); by vm_compute|]); by apply not_elem_of_nil in Hk.
  - intros k. rewrite member_obj. specialize (Hget k). destruct (d_get k (header_members a dataset partition kid expires_at nonce)) as [x|] eqn:Hx; [|done].
    destruct Hget as (y & -> & Hs). f_equal. apply d_get_elem in Hx. clear -Hx Hs. unfold header_members in Hx.
    assert (forall s y, same (JStr s) y -> y = JStr s) as Hstr by (intros s y' H; by inversion H). assert (forall z y, same (JInt z) y -> y = JInt z) as Hint by (intros z y' H; by inversion H).
    apply elem_of_app in Hx as [Hx|Hx]; [|apply elem_of_app in Hx as [Hx|Hx]; [destruct expires_at|destruct nonce]];
      repeat (apply elem_of_cons in Hx as [[= _ ->]|Hx]; [by auto|]); by apply not_elem_of_nil in Hx.
Qed.

Abbreviation accepted := (accepted float_of hmac_sha256 cryptography rfc8785 codec keys).
Abbreviation decode := (decode utc_now float_of hmac_sha256 cryptography rfc8785 codec).

Lemma b64_no_dot l : bytes l -> no_dot (base64url_encode l).
Proof. apply base64url_chars. Qed.

Lemma issued_expiration a dataset partition kid expires_at nonce (w : W) e :
  header_expiration (d_get "exp"%py (header_members a dataset partition kid expires_at nonce)) w = (Ok e, w) <-> cursor_expiration expires_at = Some e.
Proof.
  unfold cursor_expiration. destruct expires_at as [t|].
  - assert (d_get "exp"%py (header_members a dataset partition kid (Some t) nonce) = Some (JInt (timestamp_int t))) as -> by by destruct nonce.
    cbn [header_expiration]. destruct (fromtimestamp (timestamp_int t)); [split; intros [= <-]; done|done].
  - assert (d_get "exp"%py (header_members a dataset partition kid None nonce) = None) as -> by by destruct nonce. cbn. split; by intros [= <-].
Qed.

Lemma issued_nonce a dataset partition kid expires_at key payload pb bb ab nonce (w : W) n : sealed a key payload pb bb ab nonce ->
  header_nonce a (d_get "nonce"%py (header_members a dataset partition kid expires_at nonce)) w = (Ok n, w) <-> n = nonce.
Proof.
  destruct a; cbn [sealed header_nonce].
  - intros (_ & -> & _). assert (d_get "nonce"%py (header_members HS256 dataset partition kid expires_at None) = None) as -> by by destruct expires_at.
    cbn. split; [by intros [= ->]|by intros ->].
  - intros (_ & n' & g & -> & Hlen & Hn & _). assert (d_get "nonce"%py (header_members A256GCM dataset partition kid expires_at (Some n')) = Some (JStr (base64url_encode n'))) as -> by by destruct expires_at.
    rewrite (bind_run _ _ _ n' w). 2: { apply embed_answers, lift_ok. split; [|done]. apply base64url_decode_encoded; [done|]. by intros ->. }
    rewrite Hlen. cbn. split; [by intros [= ->]|by intros ->].
Qed.

Lemma sealed_opens a key payload pb bb ab nonce kid e (w : W) : sealed a key payload pb bb ab nonce ->
  opened (mkParsed a kid e nonce) key (base64url_encode pb) (base64url_encode bb) pb bb ab w = (Ok payload, w).
Proof.
  unfold Cursors.opened. cbn [h_algorithm h_nonce]. destruct a; cbn [sealed].
  - intros (Hk & -> & -> & m & Hm & ->). unfold _hmac_key. rewrite (proj2 (Z.ltb_ge _ _)) by done. rewrite Hm.
    unfold bind, embed, lift. cbn. by rewrite bool_decide_true.
  - intros (Hk & n & g & -> & Hlen & _ & -> & Henc & Hl & _). unfold _aes_key. rewrite Hk. cbn. rewrite Hl. cbn. pose proof (Haead g eq_refl). rewrite Henc, gcm_open. done.
Qed.

(** An issued token is accepted in its context while it is alive. *)
Lemma issued_accepted payload dataset partition kid algorithm expires_at token a key pb bb ab nonce now e :
  issued payload dataset partition kid algorithm expires_at token a key pb bb ab nonce ->
  bytes payload -> text_ok dataset -> text_ok partition -> text_ok kid -> cursor_expiration expires_at = Some e ->
  is_utc now = true -> (forall t, e = Some t -> dt_instant now < dt_instant t) ->
  exists h, accepted token dataset partition now (base64url_encode pb, base64url_encode bb, base64url_encode ab) pb bb ab h (mkParsed a kid e nonce) key payload.
Proof.
  intros [Ha (Hcd & Hcp & Hck) [Hne Hlen] Hkey Hhead Hsealed -> _] Hbytes Hd Hp Hk He Hnow Halive.
  destruct (sealed_bytes _ _ _ _ _ _ _ Hbytes Hne Hsealed) as ((Hbb & Hbne) & (Hab & Habne) & Hn).
  destruct (issued_header _ _ _ _ _ _ _ Hd Hp Hk Hn Hhead) as (Hpb & Hpne & h & Hparse & Hcan & Hall & Hmem). exists h.
  split; cbn [fst snd]; try done; try (by apply base64url_decode_encoded).
  - apply three_parts_dotted; by apply b64_no_dot.
  - split; cbn [h_algorithm h_kid h_expires_at h_nonce]; rewrite ?Hmem; try done.
    + intros w. by apply issued_expiration.
    + intros w. by apply (issued_nonce a dataset partition kid expires_at key payload pb bb ab).
  - intros w. by apply sealed_opens.
Qed.

(** C18. A token that [encode] returns is accepted by [decode] for the same dataset and partition
    at any UTC instant before its expiration: the answer is the payload, the key identifier and
    the expiration, truncated to the second. For both algorithms, whatever the payload. *)
Theorem cursor_round_trip payload dataset partition kid algorithm expires_at token w1 w2 now e w :
  bytes payload -> text_ok dataset -> text_ok partition -> text_ok kid ->
  encode payload dataset partition kid algorithm expires_at w1 = (Ok token, w2) ->
  cursor_expiration expires_at = Some e -> is_utc now = true -> (forall t, e = Some t -> dt_instant now < dt_instant t) ->
  decode token dataset partition (Some now) w = (Ok (CursorDecoded payload kid e), w).
Proof.
  intros Hb Hd Hp Hk (a & key & pb & bb & ab & nonce & Hi)%encode_ok He Hnow Halive. pose proof (is_size _ _ _ _ _ _ _ _ _ _ _ _ _ Hi) as Hsize.
  destruct (issued_accepted _ _ _ _ _ _ _ _ _ _ _ _ _ _ _ Hi Hb Hd Hp Hk He Hnow Halive) as (h & Hacc).
  apply (decode_ok utc_now float_of hmac_sha256 cryptography rfc8785 codec). split; [done|].
  eapply (decode_body_ok utc_now float_of hmac_sha256 cryptography rfc8785 codec keys); [done|]. split; [done|]. by eexists _, _, _, _, _, _, _, _.
Qed.

(** *** Only issued tokens are accepted *)

(** The arguments of a call of [encode] and the token it returned. *)
Record issue := mkIssue {
  i_payload : list N; i_dataset : pystr; i_partition : pystr; i_kid : pystr; i_algorithm : pystr; i_expires_at : option datetime; i_token : pystr
}.
Definition issued_by (i : issue) : Prop :=
  (bytes (i_payload i) /\ text_ok (i_dataset i) /\ text_ok (i_partition i) /\ text_ok (i_kid i)) /\
  exists w1 w2, encode (i_payload i) (i_dataset i) (i_partition i) (i_kid i) (i_algorithm i) (i_expires_at i) w1 = (Ok (i_token i), w2).

(** The tag of the token is no forgery: where it verifies under a key of the codec, the text
    before it was signed, or the ciphertext with its header was sealed, for an issued token. *)
Record unforged (issues : list issue) (token : pystr) : Prop := {
  unforged_mac kid key protected body auth m ab : keys kid HS256 = Some key -> three_parts token = Ok (protected, body, auth) ->
    str_encode (dotted protected body) = Ok m -> base64url_decode auth = Ok ab -> hmac_sha256 key m = ab ->
    exists i auth', i ∈ issues /\ three_parts (i_token i) = Ok (protected, body, auth');
  unforged_gcm kid key g n data ad protected body auth bb ab payload : keys kid A256GCM = Some key -> cryptography = Some g -> three_parts token = Ok (protected, body, auth) ->
    base64url_decode protected = Ok ad -> base64url_decode body = Ok bb -> base64url_decode auth = Ok ab -> data = bb ++ ab ->
    gcm_decrypt g key n data ad = Some payload ->
    exists i, i ∈ issues /\ three_parts (i_token i) = Ok (protected, body, auth)
}.

(** The issued token with the same header and body, whose tag is the same under AES-GCM. *)
Lemma accepted_issue issues token dataset partition now protected body auth pb bb ab h p key payload (w : W) : unforged issues token ->
  accepted token dataset partition now (protected, body, auth) pb bb ab h p key payload ->
  exists i auth', i ∈ issues /\ three_parts (i_token i) = Ok (protected, body, auth') /\ (h_algorithm p = A256GCM -> auth' = auth).
Proof.
  intros [Hmac Hgcm] [Hparts Hpb _ _ _ Hkey Hbb Hab Ho _ _ _]. cbn [fst snd] in *. specialize (Ho w). unfold Cursors.opened in Ho. destruct (h_algorithm p) eqn:Ea.
  - apply bind_ok in Ho as (u & ? & [_ ->]%embed_answers%lift_ok & Ho). apply bind_ok in Ho as (m & ? & [Hm ->]%embed_answers%lift_ok & Ho).
    apply bind_ok in Ho as (u2 & ? & [Hc%negb_false_iff%bool_decide_eq_true _]%reject_when_ok & _).
    destruct (Hmac _ _ _ _ _ _ _ Hkey Hparts Hm Hab Hc) as (i & auth' & Hi & Hparts'). by exists i, auth'.
  - apply bind_ok in Ho as (u & ? & [_ ->]%embed_answers%lift_ok & Ho). destruct (h_nonce p) as [n|]; [|done].
    apply bind_ok in Ho as (u2 & ? & [_ ->]%reject_when_ok & Ho). unfold _aesgcm in Ho. destruct cryptography as [g|] eqn:Hg; [|done].
    apply or_reject_ok in Ho as [Hd _]. destruct (Hgcm _ _ g n _ _ _ _ _ _ _ _ Hkey eq_refl Hparts Hpb Hbb Hab eq_refl Hd) as (i & Hi & Hparts'). by exists i, auth.
Qed.

Lemma b64_injective a b : bytes a -> a <> [] -> bytes b -> b <> [] -> base64url_encode a = base64url_encode b -> a = b.
Proof. intros Ha Hna Hb Hnb E. pose proof (base64url_decode_encoded a Ha Hna) as H. rewrite E, base64url_decode_encoded in H by done. by injection H. Qed.

(** C17. Where the tag of a presented token is not forged, a token that [decode] accepts for a
    dataset and a partition carries what [encode] was called with: the payload, this dataset, this
    partition, the key identifier, and an expiration that has not passed. No token is accepted in
    another context, with another payload or another lifetime than it was issued for. *)
Theorem cursor_accepted_was_issued issues token dataset partition now payload kid e w w' :
  Forall issued_by issues -> unforged issues token ->
  decode token dataset partition (Some now) w = (Ok (CursorDecoded payload kid e), w') ->
  exists i, i ∈ issues /\ i_payload i = payload /\ i_dataset i = dataset /\ i_partition i = partition /\ i_kid i = kid /\
    cursor_expiration (i_expires_at i) = Some e /\ forall t, e = Some t -> dt_instant now < dt_instant t.
Proof.
  intros Hissues Hun Hdec. apply (decode_ok utc_now float_of hmac_sha256 cryptography rfc8785 codec) in Hdec as [_ Hdec].
  eapply (decode_body_ok utc_now float_of hmac_sha256 cryptography rfc8785 codec keys) in Hdec as [-> (parts & pb & bb & ab & h & p & key & payload' & Hacc & [= -> -> ->])]; [|done].
  destruct parts as [[protected body] auth]. destruct (accepted_issue _ _ _ _ _ _ _ _ _ _ _ _ _ _ _ w Hun Hacc) as (i & auth' & Hi & Hparts' & Hauth).
  destruct Hacc as [Hparts Hpb Hparse _ Hfor Hkey Hbb Hab Ho _ _ Halive]. cbn [fst snd] in *.
  rewrite Forall_forall in Hissues. destruct (Hissues i Hi) as ((Hb & Hd & Hp & Hk) & w1 & w2 & Henc). apply encode_ok in Henc as (a & key' & pb' & bb' & ab' & nonce & [_ _ [Hne _] Hkey' Hhead Hsealed Htoken _]).
  destruct (sealed_bytes _ _ _ _ _ _ _ Hb Hne Hsealed) as ((Hbb' & Hbne) & (Hab' & Habne) & Hn).
  destruct (issued_header _ _ _ _ _ _ _ Hd Hp Hk Hn Hhead) as (Hpb' & Hpne & h' & Hparse' & _ & _ & Hmem).
  rewrite Htoken, three_parts_dotted in Hparts' by by apply b64_no_dot. injection Hparts' as <- <- <-.
  rewrite base64url_decode_encoded in Hpb, Hbb by done. injection Hpb as <-. injection Hbb as <-. rewrite Hparse in Hparse'. injection Hparse' as <-.
  destruct Hfor as [_ _ Ha [Hkid _] [Hds _] [Hpt _] Hexp Hnon]. rewrite Hmem in Ha, Hkid, Hds, Hpt.
  specialize (Hexp w). specialize (Hnon w). rewrite Hmem in Hexp, Hnon. apply issued_expiration in Hexp.
  injection Ha as Ha. injection Hkid as Hkid. injection Hds as Hds. injection Hpt as Hpt. assert (a = h_algorithm p) as -> by (destruct a, (h_algorithm p); done).
  apply (issued_nonce _ _ _ _ _ _ _ _ _ _ _ _ _ Hsealed) in Hnon. rewrite <- Hkid in Hkey. rewrite Hkey in Hkey'. injection Hkey' as <-.
  exists i. split_and!; try done. specialize (Ho w).
  pose proof (sealed_opens _ _ _ _ _ _ _ (i_kid i) (h_expires_at p) w Hsealed) as Ho'. rewrite <- Hnon in Ho'.
  assert (mkParsed (h_algorithm p) (i_kid i) (h_expires_at p) (h_nonce p) = p) as E by (rewrite Hkid; by destruct p). rewrite E in Ho'. clear E.
  destruct (h_algorithm p) eqn:Ea.
  - unfold Cursors.opened in Ho, Ho'. rewrite Ea in Ho, Ho'. apply bind_ok in Ho as (? & ? & _ & Ho). apply bind_ok in Ho as (? & ? & _ & Ho). apply bind_ok in Ho as (? & ? & _ & [= <- _]).
    by destruct Hsealed as (_ & _ & -> & _).
  - rewrite <- (Hauth eq_refl), base64url_decode_encoded in Hab by done. injection Hab as <-. rewrite Ho in Ho'. by injection Ho'.
Qed.

(** A token whose expiration is no date for [fromtimestamp] is refused by [decode], although
    [encode] issued it. *)
Theorem cursor_expiration_lost payload dataset partition kid algorithm expires_at token w1 w2 now w :
  bytes payload -> text_ok dataset -> text_ok partition -> text_ok kid ->
  encode payload dataset partition kid algorithm expires_at w1 = (Ok token, w2) -> cursor_expiration expires_at = None ->
  decode token dataset partition now w = (Ok (CursorRejected "invalid_header" "cursor expiration is invalid"), w).
Proof.
  intros Hb Hd Hp Hk (a & key & pb & bb & ab & nonce & [_ (Hcd & Hcp & Hck) [Hne _] Hkey Hhead Hsealed -> (bs & Henc & Hsize)])%encode_ok He.
  destruct (sealed_bytes _ _ _ _ _ _ _ Hb Hne Hsealed) as ((Hbb & Hbne) & (Hab & Habne) & Hn).
  destruct (issued_header _ _ _ _ _ _ _ Hd Hp Hk Hn Hhead) as (Hpb & Hpne & h & Hparse & Hcan & Hall & Hmem).
  unfold Cursors.decode, try_except, catch. rewrite (bind_run _ _ _ bs w) by by apply lift_ok. rewrite (proj2 (Z.ltb_ge _ _)) by done.
  assert (decode_body utc_now float_of hmac_sha256 cryptography rfc8785 codec (dotted (base64url_encode pb) (dotted (base64url_encode bb) (base64url_encode ab))) dataset partition now w =
    (Raise (inr ("invalid_header", "cursor expiration is invalid")%py), w)) as ->; [|done].
  unfold Cursors.decode_body. rewrite (bind_run _ _ _ (base64url_encode pb, base64url_encode bb, base64url_encode ab) w).
  2: { apply embed_answers, lift_ok. split; [|done]. apply three_parts_dotted; by apply b64_no_dot. }
  cbv beta iota. rewrite (bind_run _ _ _ pb w) by (apply embed_answers, lift_ok; split; [by apply base64url_decode_encoded|done]).
  rewrite (bind_run _ _ _ (JDict h) w) by (apply embed_answers, lift_ok; done). erewrite bind_run by done.
  rewrite (bind_run _ _ _ pb w) by (apply embed_answers, lift_ok; done). rewrite bool_decide_true by done. erewrite bind_run by done.
  assert (_header codec h dataset partition w = (Raise (inr ("invalid_header", "cursor expiration is invalid")%py), w)) as Hh; [|unfold bind; by rewrite Hh].
  unfold Cursors._header. rewrite (bind_run _ _ _ tt w). 2: { apply reject_when_ok. split; [|done]. apply not_true_iff_false. intros (kv & Hx & Hbad)%existsb_exists.
    apply negb_true_iff, bool_decide_eq_false in Hbad. apply Hbad, Hall. by apply list_elem_of_In, in_map. }
  unfold cursor_expiration in He. destruct expires_at as [t|]; [|done]. destruct (fromtimestamp (timestamp_int t)) eqn:Et; [done|].
  set (l := header_members a dataset partition kid (Some t) nonce) in *.
  assert (member "exp" h = Some (JInt (timestamp_int t))) as -> by (rewrite Hmem; by destruct nonce).
  assert (member "v" h = Some (JInt 1) /\ member "alg" h = Some (JStr (algorithm_value a)) /\ member "kid" h = Some (JStr kid) /\
    member "dataset" h = Some (JStr dataset) /\ member "partition" h = Some (JStr partition)) as (-> & -> & -> & -> & ->) by by rewrite !Hmem.
  cbn [is_one Z.eqb Pos.eqb negb header_algorithm]. erewrite bind_run by done. rewrite (proj2 (algorithm_ok _ a)) by done. erewrite bind_run by done.
  assert (str_empty kid = false) as Hke by (unfold context_ok in Hck; by destruct (str_empty kid)).
  rewrite (bind_run _ _ _ kid w) by (by rewrite Hke). cbn [forallb context_value_ok]. rewrite Hck, Hcd, Hcp. erewrite bind_run by done.
  rewrite !bool_decide_true by done. erewrite bind_run by done.
  cbn [header_expiration]. by rewrite Et.
Qed.
End Issuing.

(** ** Expirations *)

Lemma double_quotient_exact us : 0 <= us < 2 ^ 34 * 1000000 -> double_quotient_floor us 1000000 = us / 1000000.
Proof.
  intros Hus. unfold double_quotient_floor, round_half_even. set (f := us / 1000000). set (k := 52 - Z.log2 f).
  pose proof (Z.div_mod us 1000000 ltac:(lia)) as Hf. pose proof (Z.mod_pos_bound us 1000000 ltac:(lia)) as Hfr. fold f in Hf.
  assert (0 <= f < 2 ^ 34) as Hfb by lia.
  assert (19 <= k) as Hk. { subst k. destruct (Z.eq_dec f 0) as [->|Hz]; [done|]. assert (Z.log2 f < 34) by (apply Z.log2_lt_pow2; lia). lia. }
  assert (2 ^ 19 <= 2 ^ k) as Hp by (apply Z.pow_le_mono_r; lia). revert Hp. generalize (2 ^ k). intros P Hp. change (2 ^ 19) with 524288 in Hp.
  pose proof (Z.div_mod (us * P) 1000000 ltac:(lia)) as Hq. pose proof (Z.mod_pos_bound (us * P) 1000000 ltac:(lia)) as Hqr.
  revert Hq Hqr. generalize (us * P / 1000000) ((us * P) mod 1000000). intros q r Hq Hr. symmetry.
  assert (f * P <= q) as Hlow by nia.
  destruct ((2 * r <? 1000000) || _) eqn:Hround.
  - apply (Z.div_unique_pos _ _ _ (q - f * P)); [|lia]. split; [lia|]. nia.
  - apply orb_false_iff in Hround as [Hround%Z.ltb_ge _]. apply (Z.div_unique_pos _ _ _ (q + 1 - f * P)); [|lia]. split; [lia|]. nia.
Qed.

(** The expiration a token carries is the one given, without its fraction of a second: for
    every instant from 1970 until 2514, however the microseconds are divided in floating point. *)
Theorem cursor_expiry_exact t : is_utc t = true -> epoch * 1000000 <= dt_wall t < (epoch + 2 ^ 34) * 1000000 ->
  cursor_expiration (Some t) = Some (Some (utc (dt_wall t - dt_wall t mod 1000000))).
Proof.
  intros ->%is_utc_eq Ht. cbn [dt_wall utc] in *. set (w := dt_wall t) in *. clearbody w. unfold cursor_expiration, timestamp_int. rewrite dt_instant_utc.
  assert (Z.sgn (w - epoch * 1000000) * double_quotient_floor (Z.abs (w - epoch * 1000000)) 1000000 = w / 1000000 - epoch) as ->.
  { rewrite Z.abs_eq, double_quotient_exact by lia. destruct (Z.eq_dec w (epoch * 1000000)) as [->|Hne]; [by rewrite Z.sub_diag, Z.div_mul, Z.sub_diag by lia|].
    rewrite Z.sgn_pos by lia. replace (w - epoch * 1000000) with (w + (- epoch) * 1000000) by lia. rewrite Z.div_add by lia. lia. }
  pose proof (Z.div_mod w 1000000 ltac:(lia)). pose proof (Z.mod_pos_bound w 1000000 ltac:(lia)). unfold fromtimestamp, epoch, dt_max in *. unfold reject_if.
  change (2 ^ 34) with 17179869184 in *. change (2 ^ 63) with 9223372036854775808.
  repeat (rewrite ?(proj2 (Z.leb_le _ _)), ?(proj2 (Z.ltb_lt _ _)) by lia; cbn [andb negb rbind]). do 3 f_equal. lia.
Qed.

Lemma cursor_expiry_exact_witness : cursor_expiration (Some (utc ((epoch + 1700000000) * 1000000 + 999999))) = Some (Some (utc ((epoch + 1700000000) * 1000000))).
Proof. apply (cursor_expiry_exact (utc ((epoch + 1700000000) * 1000000 + 999999))); [done|]. cbn [dt_wall utc]. unfold epoch. lia. Defined.

(** The last microsecond of the calendar is rounded up, out of it. *)
Lemma last_instant_lost : cursor_expiration (Some (utc dt_max)) = None.
Proof. by vm_compute. Qed.

(** ** A canonicalizer *)

Lemma float_free_json float_repr float_of v : float_free v -> ijson v -> is_json float_repr float_of v.
Proof.
  induction v using json_nested_ind; intros Hf Hi; try done.
  - apply is_json_list. cbn [float_free ijson] in Hf, Hi. rewrite foldr_forall in Hf, Hi. rewrite Forall_forall in *. intros v Hv. by apply H, Hi; [|apply Hf|].
  - destruct (ijson_obj l Hi) as (m & Hm & Him). injection Hm as ->. apply is_json_obj. cbn [float_free] in Hf. rewrite (foldr_forall (fun kv => float_free (snd kv))) in Hf.
    rewrite Forall_map in H, Hf. cbn [snd] in *. rewrite Forall_forall in *. intros p Hp. apply H; [done|by apply Hf|by apply Him].
Qed.

Lemma json_text_sort float_repr v : json_text float_repr (sort_members v) = json_text float_repr v.
Proof.
  induction v using json_nested_ind; try done; cbn [sort_members json_text].
  - do 3 f_equal. rewrite map_map. by apply map_ext_Forall.
  - do 3 f_equal. rewrite !(sorted_by_map str_compare (fun p => key_text p.1)) by done.
    rewrite (sorted_by_id str_compare _ (sorted_by str_compare _ l)) by apply sorted_by_sorted, _. rewrite !map_map. apply map_ext_Forall.
    apply Forall_forall. intros kv Hkv. cbn. rewrite Forall_forall in H. rewrite H; [done|]. by apply (elem_of_sorted_by str_compare (fun p => key_text p.1)).
Qed.

Lemma enc_bytes cs : Forall scalar cs -> bytes (enc_all cs).
Proof.
  intros Hcs. apply Forall_concat, Forall_map. eapply Forall_impl; [exact Hcs|]. intros c [Hc Hs]. unfold enc, utf8_encode_cp.
  assert (forall a b : N, (b <> 0)%N -> (a mod b < b)%N) as Hmod by (intros; by apply N.mod_lt).
  assert (forall a b d : N, (b <> 0)%N -> (a < b * d)%N -> (a / b < d)%N) as Hdiv by (intros; by apply N.Div0.div_lt_upper_bound).
  repeat case_match; cbn [default]; repeat match goal with H : _ |- _ => rewrite N.ltb_lt in H || rewrite N.ltb_ge in H end;
    repeat (apply Forall_cons; split); try apply Forall_nil_2; unfold byte;
    repeat match goal with |- context [(?a mod ?b)%N] => pose proof (Hmod a b ltac:(done)); generalize dependent (a mod b)%N; intros end; try lia.
  - pose proof (Hdiv c 64%N 32%N ltac:(done)). lia.
  - pose proof (Hdiv c 4096%N 16%N ltac:(done)). lia.
  - pose proof (Hdiv c 262144%N 8%N ltac:(done)). lia.
Qed.

(** The sorted compact text of [json.dumps] is canonical for values without floats. *)
Definition plain_dumps (v : json) : result exn (list N) := str_encode (json_text (fun _ => "0"%py) v).

#[export] Instance plain_canonicalizer `{!Recursion} float_of : Canonicalizer float_of plain_dumps.
Proof.
  split. intros v b Hf Hi Hd Hc Hn Hfr Hb. pose proof (float_free_json (fun _ => "0"%py) float_of v Hf Hi) as Hj. unfold plain_dumps in *. split.
  - apply str_encode_enc in Hb as ->. apply enc_bytes. eapply Forall_impl; [by eapply text_visible|]. by intros c [].
  - exists (sort_members v). destruct (parse_text_back (fun _ => "0"%py) float_of v b Hj Hi Hd Hc Hn Hfr Hb) as [Hp _].
    rewrite json_text_sort. split_and!; [done|by apply same_sort|done].
Qed.

(** ** Tokens of a concrete codec *)

#[local] Existing Instance usual_recursion.

(** A checksum in place of the MAC, and a cipher that appends it. *)
Definition demo_sum (l : list N) : N := (fold_left (fun acc b => (3 * acc + b) mod 256) l 7)%N.
Definition demo_hmac (key m : list N) : list N := [demo_sum (key ++ m); demo_sum m].
Definition demo_tag (key nonce data ad : list N) : list N := replicate 16 (demo_sum (key ++ nonce ++ data ++ ad)).
Definition demo_aead : aead := mkAead
  (fun key nonce data ad => data ++ demo_tag key nonce data ad)
  (fun key nonce data ad =>
    let plain := take (length data - 16) data in
    if bool_decide (drop (length data - 16) data = demo_tag key nonce plain ad) then Some plain else None).

Lemma demo_sum_byte l : byte (demo_sum l).
Proof.
  unfold demo_sum, byte. induction l as [|b l _] using rev_ind; [done|]. rewrite fold_left_app. cbn [fold_left]. by apply N.mod_lt.
Qed.

#[export] Instance demo_aead_laws : Aead demo_aead.
Proof.
  split; intros; cbn [gcm_encrypt gcm_decrypt demo_aead].
  - apply Forall_app. split; [done|]. apply Forall_replicate, demo_sum_byte.
  - unfold demo_tag. by rewrite length_app, length_replicate.
  - unfold demo_tag. rewrite length_app, length_replicate, Nat.add_sub, take_app_length, drop_app_length. by rewrite bool_decide_true.
Qed.

Definition demo_keys (kid : pystr) (_ : CursorAlgorithm) : option (list N) := d_get kid [("k1"%py, replicate 32 11%N)].
Definition demo_codec : OpaqueCursorCodec (W := unit) :=
  OpaqueCursorCodec_new (KeyMapping [("k1"%py, replicate 32 11%N)]) None (fun _ => ret (replicate 12 5%N)).
Definition demo_now : datetime := utc ((epoch + 1700000000) * 1000000).
Definition demo_expires : datetime := utc ((epoch + 1700000060) * 1000000 + 500000).
Definition demo_encode (algorithm : pystr) : M exn unit pystr :=
  encode demo_hmac (Some demo_aead) (Some plain_dumps) demo_codec [1; 2; 255]%N "items" "eu" "k1" algorithm (Some demo_expires).
Definition demo_token (algorithm : pystr) : pystr := match fst (demo_encode algorithm tt) with Ok t => t | Raise _ => PyStr [] end.
Definition demo_token_gcm : pystr := Eval vm_compute in demo_token "A256GCM".
Definition demo_token_mac : pystr := Eval vm_compute in demo_token "HS256".

Lemma demo_hmac_bytes key m : bytes (demo_hmac key m) /\ demo_hmac key m <> [].
Proof. split; [|done]. repeat constructor; apply demo_sum_byte. Qed.
Lemma demo_aead_present g : Some demo_aead = Some g -> Aead g.
Proof. intros [= <-]. apply _. Qed.
Lemma demo_dumps_present dumps : Some plain_dumps = Some dumps -> Canonicalizer demo_float dumps.
Proof. intros [= <-]. apply _. Qed.
Lemma demo_nonces (w : unit) n w' : _nonce_factory demo_codec 12 w = (Ok n, w') -> bytes n.
Proof. intros [= <- _]. by repeat constructor. Qed.

Lemma cursor_round_trip_witness :
  decode (fun w => (Ok demo_now, w)) demo_float demo_hmac (Some demo_aead) (Some plain_dumps) demo_codec demo_token_gcm "items" "eu" (Some demo_now) tt =
    (Ok (CursorDecoded [1; 2; 255]%N "k1" (Some (utc ((epoch + 1700000060) * 1000000)))), tt).
Proof.
  apply (cursor_round_trip (fun w => (Ok demo_now, w)) demo_float demo_hmac (Some demo_aead) (Some plain_dumps) demo_codec demo_keys (fun _ _ _ => eq_refl)
    demo_hmac_bytes demo_aead_present demo_dumps_present demo_nonces [1; 2; 255]%N "items" "eu" "k1" "A256GCM" (Some demo_expires) demo_token_gcm tt tt).
  - repeat constructor.
  - by apply text_ok_compute.
  - by apply text_ok_compute.
  - by apply text_ok_compute.
  - by vm_compute.
  - by vm_compute.
  - done.
  - intros t [= <-]. by vm_compute.
Defined.

Definition demo_issue : issue := mkIssue [1; 2; 255]%N "items" "eu" "k1" "HS256" (Some demo_expires) demo_token_mac.

Lemma cursor_accepted_was_issued_witness :
  exists i, i ∈ [demo_issue] /\ i_payload i = [1; 2; 255]%N /\ i_dataset i = "items"%py /\ i_partition i = "eu"%py /\ i_kid i = "k1"%py /\
    cursor_expiration (i_expires_at i) = Some (Some (utc ((epoch + 1700000060) * 1000000))) /\
    forall t, Some (utc ((epoch + 1700000060) * 1000000)) = Some t -> dt_instant demo_now < dt_instant t.
Proof.
  apply (cursor_accepted_was_issued (fun w => (Ok demo_now, w)) demo_float demo_hmac (Some demo_aead) (Some plain_dumps) demo_codec demo_keys (fun _ _ _ => eq_refl)
    demo_hmac_bytes demo_aead_present demo_dumps_present demo_nonces [demo_issue] demo_token_mac "items" "eu" demo_now [1; 2; 255]%N "k1"
    (Some (utc ((epoch + 1700000060) * 1000000))) tt tt).
  - apply Forall_singleton. split; [split; [repeat constructor|split_and!; by apply text_ok_compute]|]. exists tt, tt. by vm_compute.
  - split; [intros kid key protected body auth m ab _ Hp _ _ _; exists demo_issue, auth|intros kid key g n data ad protected body auth bb ab payload _ _ Hp _ _ _ _ _; exists demo_issue];
      (split; [by apply list_elem_of_singleton|exact Hp]).
  - by vm_compute.
Defined.

(** ** What is not reported as a rejection, and what is *)

(** A token with a lone surrogate is encoded outside the [try] statement: the error escapes. *)
Example decode_lone_surrogate :
  decode (fun w => (Ok demo_now, w)) demo_float demo_hmac (Some demo_aead) (Some plain_dumps) demo_codec (PyStr [55296%N]) "items" "eu" (Some demo_now) tt =
    (Raise (OtherError "UnicodeEncodeError" "surrogates not allowed"), tt).
Proof. by vm_compute. Qed.

(** Where [cryptography] is not installed, an authentic token is reported as not authentic: the
    error that asks for the package is caught with those of the decryption. *)
Example decode_without_cryptography :
  decode (fun w => (Ok demo_now, w)) demo_float demo_hmac None (Some plain_dumps) demo_codec demo_token_gcm "items" "eu" (Some demo_now) tt =
    (Ok (CursorRejected "invalid_auth" "cursor authentication failed"), tt).
Proof. by vm_compute. Qed.

(** A token whose header nests deeper than the interpreter follows is no token of [encode],
    and within the limits of the codec: [decode] raises instead of rejecting it. *)
Definition deep_token : pystr := dotted (base64url_encode (codepoints (arrays 991))) (dotted "AA" "AA").
Example decode_deep_header :
  (str_len deep_token <= max_token_bytes CursorLimits_default) /\
  decode (fun w => (Ok demo_now, w)) demo_float demo_hmac (Some demo_aead) (Some plain_dumps) demo_codec deep_token "items" "eu" (Some demo_now) tt =
    (Raise RecursionError, tt).
Proof. split; by vm_compute. Qed.
