(* ===== verification/Idempotency.v ===== *)
(** * Idempotency coordination ([src/pytitect/idempotency.py])

    The decisions and results as sums, the store port as the class
    [IdempotencyStore], the reference store [InMemoryIdempotencyStore] with its two
    dictionaries, the coordinator and the conformance harness.

    [InMemoryIdempotencyStore]'s lock makes each operation atomic, so concurrent use is a
    sequence of operations ([op], [trace]). *)
From Stdlib Require Import ZArith Lia SpecFloat.
From stdpp Require Import base list gmap.
From S2P Require Import Prelude Core Maintenance.

(** ** Data *)

Record IdempotencyScope := mkScope {
  namespace : pystr;
  subject : pystr;
  operation : pystr
}.

#[export] Instance IdempotencyScope_eq_dec : EqDecision IdempotencyScope.
Proof. solve_decision. Defined.
#[export] Instance IdempotencyScope_countable : Countable IdempotencyScope.
Proof.
  by apply (inj_countable' (fun s => (namespace s, subject s, operation s))
    (fun t => mkScope t.1.1 t.1.2 t.2)); intros [].
Defined.

Definition IdempotencyScope_new {S} (n s o : pystr) : M exn S IdempotencyScope :=
  raise_if (str_empty n || str_empty s || str_empty o)
    (ValueError "idempotency scope parts must not be empty") ;;;
  ret (mkScope n s o).

Record ReservationToken := mkToken { token_value : pystr }.

#[export] Instance ReservationToken_eq_dec : EqDecision ReservationToken.
Proof. solve_decision. Defined.

Definition ReservationToken_new {S} (value : pystr) : M exn S ReservationToken :=
  raise_if (str_empty value) (ValueError "reservation tokens must not be empty") ;;;
  ret (mkToken value).

Record IdempotencyPolicy := mkPolicy {
  execution_lease_ttl : timedelta;
  result_retention_ttl : timedelta;
  uncertainty_retention_ttl : timedelta
}.

Definition IdempotencyPolicy_new {S} (a b c : timedelta) : M exn S IdempotencyPolicy :=
  check_positive a "execution_lease_ttl must be positive" ;;;
  check_positive b "result_retention_ttl must be positive" ;;;
  check_positive c "uncertainty_retention_ttl must be positive" ;;;
  ret (mkPolicy a b c).

Record RequestFingerprint := mkFingerprint { fingerprint_value : pystr }.

#[export] Instance RequestFingerprint_eq_dec : EqDecision RequestFingerprint.
Proof. solve_decision. Defined.

(** [RequestFingerprint.from_json(value, canonicalizer=...)]. *)
Definition from_json (sha256_hexdigest : list N -> pystr)
    (canonicalizer : json -> result exn (list N)) (value : json) :
    result exn RequestFingerprint :=
  match sha256_fingerprint sha256_hexdigest canonicalizer value with
  | Ok h => Ok (mkFingerprint h)
  | Raise e => Raise e
  end.

Inductive IdempotencyDecision (T : Type) :=
  | Execute (token : ReservationToken)
  | Replay (value : option T)
  | Conflict
  | InProgress (retry_after : datetime)
  | Uncertain (reason : pystr).
Arguments Execute {T} token.
Arguments Replay {T} value.
Arguments Conflict {T}.
Arguments InProgress {T} retry_after.
Arguments Uncertain {T} reason.

Definition conflict_reason : pystr := "the idempotency key was used with a different request".

Inductive RenewReservationResult :=
  | ReservationRenewed (expires_at : datetime)
  | RenewStale.
Inductive CompleteReservationResult :=
  | ReservationCompleted (retained_until : datetime)
  | CompleteStale.
Inductive MarkUncertainResult :=
  | ReservationMarkedUncertain (retained_until : datetime)
  | MarkUncertainStale.
Inductive AbandonReservationResult :=
  | ReservationAbandoned
  | AbandonStale.

(** ** The store port *)

Class IdempotencyStore (W T : Type) := {
  port_reserve : IdempotencyScope -> pystr -> RequestFingerprint -> datetime -> timedelta ->
    M exn W (IdempotencyDecision T);
  port_renew : ReservationToken -> datetime -> timedelta -> M exn W RenewReservationResult;
  port_complete : ReservationToken -> T -> datetime -> timedelta ->
    M exn W CompleteReservationResult;
  port_mark_uncertain : ReservationToken -> pystr -> datetime -> timedelta ->
    M exn W MarkUncertainResult;
  port_abandon : ReservationToken -> datetime -> M exn W AbandonReservationResult
}.

(** ** The in-memory store *)

Inductive EntryState := Reserved | Completed | UncertainState.

#[export] Instance EntryState_eq_dec : EqDecision EntryState.
Proof. solve_decision. Defined.

(** [_Entry]. *)
Record Entry (T : Type) := mkEntry {
  entry_token : ReservationToken;
  entry_fingerprint : RequestFingerprint;
  entry_expires_at : datetime;
  entry_state : EntryState;
  entry_value : option T;
  entry_reason : option pystr
}.
Arguments mkEntry {T}.
Arguments entry_token {T}.
Arguments entry_fingerprint {T}.
Arguments entry_expires_at {T}.
Arguments entry_state {T}.
Arguments entry_value {T}.
Arguments entry_reason {T}.

Abbreviation identity := (IdempotencyScope * pystr)%type.

(** [InMemoryIdempotencyStore]; [uuid_draws] counts its calls of [uuid.uuid4]. *)
Record store (T : Type) := mkStore {
  capacity : Z;
  entries : dict identity (Entry T);
  tokens : dict ReservationToken identity;
  uuid_draws : nat
}.
Arguments mkStore {T}.
Arguments capacity {T}.
Arguments entries {T}.
Arguments tokens {T}.
Arguments uuid_draws {T}.

Section InMemory.
Context {T : Type} `{Uuid4}.
Implicit Types (st : store T) (e : Entry T) (id : identity).

Definition set_entries (d : dict identity (Entry T)) st : store T :=
  mkStore (capacity st) d (tokens st) (uuid_draws st).
Definition set_tokens (d : dict ReservationToken identity) st : store T :=
  mkStore (capacity st) (entries st) d (uuid_draws st).

(** [InMemoryIdempotencyStore(capacity=...)]. *)
Definition InMemoryIdempotencyStore_new {S} (cap : Z) : M exn S (store T) :=
  raise_if (cap <=? 0) (ValueError "capacity must be a positive integer") ;;;
  ret (mkStore cap [] [] 0).

Definition _utc (value : datetime) : M exn (store T) unit :=
  check_utc value "idempotency timestamps must be timezone-aware UTC".

(** [ReservationToken(uuid.uuid4().hex)]. *)
Definition fresh_token : M exn (store T) ReservationToken :=
  let! n := gets uuid_draws in
  modify (fun st => mkStore (capacity st) (entries st) (tokens st) (S n)) ;;;
  ReservationToken_new (uuid4_hex n).

(** [entry = self._entries.pop(identity); self._tokens.pop(entry.token, None)]. *)
Definition drop_entry st id : store T :=
  match d_get id (entries st) with
  | Some e => set_tokens (d_pop (entry_token e) (tokens st)) (set_entries (d_pop id (entries st)) st)
  | None => st
  end.

Definition expired_for_purge (now : datetime) (p : identity * Entry T) : bool :=
  dt_leb (entry_expires_at p.2) now && negb (bool_decide (entry_state p.2 = UncertainState)).

Definition _purge (now : datetime) : M exn (store T) unit :=
  modify (fun st =>
    fold_left drop_entry (filter (fun p => expired_for_purge now p = true) (entries st)).*1 st).

(** [_executing]: the identity and the live, reserved entry a token authorises. *)
Definition _executing (token : ReservationToken) (now : datetime) st :
    option (identity * Entry T) :=
  match d_get token (tokens st) with
  | None => None
  | Some id =>
      match d_get id (entries st) with
      | None => None
      | Some e =>
          if negb (bool_decide (entry_token e = token))
             || negb (bool_decide (entry_state e = Reserved))
             || dt_leb (entry_expires_at e) now
          then None else Some (id, e)
      end
  end.

Definition update_entry id e : M exn (store T) unit :=
  modify (fun st => set_entries (d_set id e (entries st)) st).

Definition reserve (scope : IdempotencyScope) (key : pystr) (fingerprint : RequestFingerprint)
    (now : datetime) (lease_ttl : timedelta) : M exn (store T) (IdempotencyDecision T) :=
  _utc now ;;;
  raise_if (str_empty key) (ValueError "idempotency key must be supplied by the consumer") ;;;
  check_positive lease_ttl "lease_ttl must be positive" ;;;
  let identity := (scope, key) in
  _purge now ;;;
  let! current := gets (fun st => d_get identity (entries st)) in
  match current with
  | Some current =>
      modify (fun st => set_entries (d_move_to_end identity (entries st)) st) ;;;
      if negb (bool_decide (entry_fingerprint current = fingerprint)) then ret Conflict
      else match entry_state current with
           | Completed => ret (Replay (entry_value current))
           | UncertainState =>
               ret (Uncertain
                 (match entry_reason current with
                  | Some r => if str_empty r then "the prior outcome is unknown" else r
                  | None => "the prior outcome is unknown"
                  end))
           | Reserved => ret (InProgress (entry_expires_at current))
           end
  | None =>
      let! full := gets (fun st => capacity st <=? d_len (entries st))%Z in
      if full : bool
      then ret (Uncertain "idempotency capacity exceeded; no reservation was made")
      else
        let! token := fresh_token in
        let! expires_at := lift (dt_add now lease_ttl) in
        update_entry identity (mkEntry token fingerprint expires_at Reserved None None) ;;;
        modify (fun st => set_tokens (d_set token identity (tokens st)) st) ;;;
        ret (Execute token)
  end.

Definition renew (token : ReservationToken) (now : datetime) (lease_ttl : timedelta) :
    M exn (store T) RenewReservationResult :=
  _utc now ;;;
  check_positive lease_ttl "lease_ttl must be positive" ;;;
  let! entry := gets (_executing token now) in
  match entry with
  | None => ret RenewStale
  | Some (id, e) =>
      let! expires_at := lift (dt_add now lease_ttl) in
      update_entry id (mkEntry (entry_token e) (entry_fingerprint e) expires_at
        (entry_state e) (entry_value e) (entry_reason e)) ;;;
      ret (ReservationRenewed expires_at)
  end.

(** The fields are assigned one by one, so an out-of-range retention leaves the entry
    completed with its previous expiry. *)
Definition complete (token : ReservationToken) (value : T) (now : datetime)
    (retention_ttl : timedelta) : M exn (store T) CompleteReservationResult :=
  _utc now ;;;
  check_positive retention_ttl "retention_ttl must be positive" ;;;
  let! entry := gets (_executing token now) in
  match entry with
  | None => ret CompleteStale
  | Some (id, e) =>
      update_entry id (mkEntry (entry_token e) (entry_fingerprint e) (entry_expires_at e)
        Completed (Some value) (entry_reason e)) ;;;
      let! expires_at := lift (dt_add now retention_ttl) in
      update_entry id (mkEntry (entry_token e) (entry_fingerprint e) expires_at
        Completed (Some value) (entry_reason e)) ;;;
      ret (ReservationCompleted expires_at)
  end.

Definition mark_uncertain (token : ReservationToken) (reason : pystr) (now : datetime)
    (retention_ttl : timedelta) : M exn (store T) MarkUncertainResult :=
  _utc now ;;;
  raise_if (str_empty reason) (ValueError "an uncertainty reason is required") ;;;
  check_positive retention_ttl "retention_ttl must be positive" ;;;
  let! entry := gets (_executing token now) in
  match entry with
  | None => ret MarkUncertainStale
  | Some (id, e) =>
      update_entry id (mkEntry (entry_token e) (entry_fingerprint e) (entry_expires_at e)
        UncertainState (entry_value e) (Some reason)) ;;;
      let! expires_at := lift (dt_add now retention_ttl) in
      update_entry id (mkEntry (entry_token e) (entry_fingerprint e) expires_at
        UncertainState (entry_value e) (Some reason)) ;;;
      ret (ReservationMarkedUncertain expires_at)
  end.

Definition abandon (token : ReservationToken) (now : datetime) :
    M exn (store T) AbandonReservationResult :=
  _utc now ;;;
  let! entry := gets (_executing token now) in
  match entry with
  | None => ret AbandonStale
  | Some (id, _) =>
      modify (fun st => set_tokens (d_pop token (tokens st)) (set_entries (d_pop id (entries st)) st)) ;;;
      ret ReservationAbandoned
  end.

(** The candidates of [purge] and their sort key. *)
Definition purge_candidate (plan : MaintenancePlan) (p : identity * Entry T) : bool :=
  dt_leb (entry_expires_at p.2) (cutoff plan)
  && (negb (bool_decide (entry_state p.2 = UncertainState)) || include_uncertain plan).

Definition purge_key (p : identity * Entry T) : Z * (pystr * (pystr * (pystr * pystr))) :=
  (dt_instant (entry_expires_at p.2),
    (namespace p.1.1, (subject p.1.1, (operation p.1.1, p.1.2)))).

Definition purge_compare :=
  pair_compare Z.compare (pair_compare str_compare (pair_compare str_compare
    (pair_compare str_compare str_compare))).

Definition purge_selection (plan : MaintenancePlan) st : list (identity * Entry T) :=
  plan_selection purge_compare purge_key plan
    (filter (fun p => purge_candidate plan p = true) (entries st)).

Definition purge (plan : MaintenancePlan) : M exn (store T) MaintenanceSummary :=
  let! chosen := gets (purge_selection plan) in
  (if dry_run plan then ret tt
   else modify (fun st => fold_left drop_entry chosen.*1 st)) ;;;
  plan_summary plan chosen.

#[export] Instance InMemory_IdempotencyStore : IdempotencyStore (store T) T := {
  port_reserve := reserve;
  port_renew := renew;
  port_complete := complete;
  port_mark_uncertain := mark_uncertain;
  port_abandon := abandon
}.
End InMemory.

(** ** The coordinator *)

Section Coordinator.
Context {W T : Type} `{!IdempotencyStore W T, !Clock W}.
Variable policy : IdempotencyPolicy.

Definition begin (scope : IdempotencyScope) (key : pystr) (fingerprint : RequestFingerprint) :
    M exn W (IdempotencyDecision T) :=
  let! now := clock_now in
  port_reserve scope key fingerprint now (execution_lease_ttl policy).

Definition coordinator_renew (token : ReservationToken) : M exn W RenewReservationResult :=
  let! now := clock_now in
  port_renew token now (execution_lease_ttl policy).

Definition coordinator_complete (token : ReservationToken) (value : T) :
    M exn W CompleteReservationResult :=
  let! now := clock_now in
  port_complete token value now (result_retention_ttl policy).

Definition coordinator_uncertain (token : ReservationToken) (reason : pystr) :
    M exn W MarkUncertainResult :=
  let! now := clock_now in
  port_mark_uncertain token reason now (uncertainty_retention_ttl policy).

Definition coordinator_abandon (token : ReservationToken) : M exn W AbandonReservationResult :=
  let! now := clock_now in
  port_abandon token now.
End Coordinator.

(** ** The conformance harness *)

Section Harness.
Context {W T : Type} `{!IdempotencyStore W T, !EqDecision T}.
(** The interpreter's float rendering and SHA-256, used by [from_json]. *)
Variable float_repr : spec_float -> pystr.
Variable sha256_hexdigest : list N -> pystr.

Definition harness_fingerprint (n : Z) : result exn RequestFingerprint :=
  from_json sha256_hexdigest (canonical_json_bytes float_repr)
    (JDict [(KeyStr "value", JInt n)]).

(** [if not condition: raise AssertionError(message)]. *)
Definition expect (condition : bool) (message : pystr) : M exn W unit :=
  raise_if (negb condition) (AssertionError message).

Definition is_execute (d : IdempotencyDecision T) : bool :=
  match d with Execute _ => true | _ => false end.
Definition is_in_progress (d : IdempotencyDecision T) : bool :=
  match d with InProgress _ => true | _ => false end.
Definition is_conflict (d : IdempotencyDecision T) : bool :=
  match d with Conflict => true | _ => false end.
Definition is_uncertain (d : IdempotencyDecision T) : bool :=
  match d with Uncertain _ => true | _ => false end.

(** [assert isinstance(decision, Execute)], giving the token. *)
Definition expect_execute (d : IdempotencyDecision T) (message : pystr) :
    M exn W ReservationToken :=
  match d with
  | Execute t => ret t
  | _ => raise (AssertionError message)
  end.

Definition exercise (value : T) (now : datetime) : M exn W unit :=
  let lease_ttl := minutes 1 in
  let retention_ttl := hours 1 in
  let! scope := IdempotencyScope_new "test" "subject" "operation" in
  let! first := lift (harness_fingerprint 1) in
  let! different := lift (harness_fingerprint 2) in
  let! decision := port_reserve scope "consumer-key" first now lease_ttl in
  let! token := expect_execute decision "first reservation must execute" in
  let! d2 := port_reserve scope "consumer-key" first now lease_ttl in
  expect (is_in_progress d2) "concurrent reservation must be in progress" ;;;
  let! d3 := port_reserve scope "consumer-key" different now lease_ttl in
  expect (is_conflict d3) "different fingerprint must conflict" ;;;
  let! renewed_at := lift (dt_add now (seconds 1)) in
  let! r := port_renew token renewed_at lease_ttl in
  expect (match r with ReservationRenewed _ => true | _ => false end)
    "an authoritative reservation must renew" ;;;
  let! c := port_complete token value renewed_at retention_ttl in
  expect (match c with ReservationCompleted _ => true | _ => false end)
    "valid reservation must complete" ;;;
  let! now_lease := lift (dt_add now lease_ttl) in
  let! replay := port_reserve scope "consumer-key" first now_lease lease_ttl in
  expect (match replay with Replay v => bool_decide (v = Some value) | _ => false end)
    "completed reservation must replay" ;;;
  let! uncertain_decision := port_reserve scope "uncertain" first now lease_ttl in
  let! utoken := expect_execute uncertain_decision "a new uncertainty identity must execute" in
  let! m := port_mark_uncertain utoken "outcome unknown" now retention_ttl in
  expect (match m with ReservationMarkedUncertain _ => true | _ => false end)
    "an authoritative reservation must become uncertain" ;;;
  let! d4 := port_reserve scope "uncertain" first now lease_ttl in
  expect (is_uncertain d4) "an uncertain result must remain retained" ;;;
  let! abandoned := port_reserve scope "abandoned" first now lease_ttl in
  let! atoken := expect_execute abandoned "a new abandon identity must execute" in
  let! a := port_abandon atoken now in
  expect (match a with ReservationAbandoned => true | _ => false end)
    "an authoritative reservation must be abandonable" ;;;
  let! d5 := port_reserve scope "abandoned" first now lease_ttl in
  expect (is_execute d5) "an abandoned identity must be reusable" ;;;
  let! expiring := port_reserve scope "expiring" first now lease_ttl in
  let! etoken := expect_execute expiring "a new expiring identity must execute" in
  let! replacement := port_reserve scope "expiring" first now_lease lease_ttl in
  expect (match replacement with Execute t => negb (bool_decide (t = etoken)) | _ => false end)
    "an expired execution reservation must be replaced".
End Harness.

(** ** Histories of operations *)

(** One call on the store, with its arguments. *)
Inductive op (T : Type) :=
  | OpReserve (scope : IdempotencyScope) (key : pystr) (fingerprint : RequestFingerprint)
      (now : datetime) (lease_ttl : timedelta)
  | OpRenew (token : ReservationToken) (now : datetime) (lease_ttl : timedelta)
  | OpComplete (token : ReservationToken) (value : T) (now : datetime) (retention_ttl : timedelta)
  | OpMarkUncertain (token : ReservationToken) (reason : pystr) (now : datetime)
      (retention_ttl : timedelta)
  | OpAbandon (token : ReservationToken) (now : datetime)
  | OpPurge (plan : MaintenancePlan).
Arguments OpReserve {T}.
Arguments OpRenew {T}.
Arguments OpComplete {T}.
Arguments OpMarkUncertain {T}.
Arguments OpAbandon {T}.
Arguments OpPurge {T}.

Section History.
Context {T : Type} `{Uuid4}.

(** The store after one call, whatever the call returned or raised. *)
Definition exec (o : op T) (st : store T) : store T :=
  match o with
  | OpReserve scope key fp now ttl => snd (reserve scope key fp now ttl st)
  | OpRenew t now ttl => snd (renew t now ttl st)
  | OpComplete t v now ttl => snd (complete t v now ttl st)
  | OpMarkUncertain t r now ttl => snd (mark_uncertain t r now ttl st)
  | OpAbandon t now => snd (abandon t now st)
  | OpPurge plan => snd (purge plan st)
  end.

Inductive trace : store T -> list (op T) -> store T -> Prop :=
  | trace_nil st : trace st [] st
  | trace_cons st o st1 os st2 : exec o st = st1 -> trace st1 os st2 -> trace st (o :: os) st2.

(** The instant a call acts at. *)
Definition op_time (o : op T) : datetime :=
  match o with
  | OpReserve _ _ _ now _ | OpRenew _ now _ | OpComplete _ _ now _
  | OpMarkUncertain _ _ now _ | OpAbandon _ now => now
  | OpPurge plan => cutoff plan
  end.

(** The reservation token a call presents. *)
Definition op_token (o : op T) : option ReservationToken :=
  match o with
  | OpRenew t _ _ | OpComplete t _ _ _ | OpMarkUncertain t _ _ _ | OpAbandon t _ => Some t
  | _ => None
  end.

(** A purge told to remove uncertain entries. *)
Definition purges_uncertain (o : op T) : bool :=
  match o with OpPurge plan => include_uncertain plan | _ => false end.
End History.

(** ** The store's invariant *)

Section Invariant.
Context {T : Type} `{Uuid4}.
Implicit Types (st : store T) (e : Entry T) (id : identity).

(** The two dictionaries mirror each other, the store is bounded, and every token in it
    is one of the identifiers drawn so far. *)
Record store_inv st : Prop := {
  inv_entries : d_wf (entries st);
  inv_tokens : d_wf (tokens st);
  inv_bounded : (d_len (entries st) <= capacity st)%Z;
  inv_mirror : forall t id, d_get t (tokens st) = Some id <->
    exists e, d_get id (entries st) = Some e /\ entry_token e = t;
  inv_drawn : forall id e, d_get id (entries st) = Some e ->
    exists n, (n < uuid_draws st)%nat /\ entry_token e = mkToken (uuid4_hex n)
}.

Lemma inv_initial cap : 0 < cap -> store_inv (mkStore cap [] [] 0).
Proof.
  split; cbn; [constructor..| | |]; [unfold d_len; cbn; lia| |done].
  intros t id; split; [done|]. by intros (? & ? & ?).
Qed.

Lemma inv_token_unique st id id' e e' : store_inv st ->
  d_get id (entries st) = Some e -> d_get id' (entries st) = Some e' ->
  entry_token e = entry_token e' -> id = id'.
Proof.
  intros Hst He He' Heq.
  assert (d_get (entry_token e) (tokens st) = Some id) as H1 by (apply inv_mirror; eauto).
  assert (d_get (entry_token e) (tokens st) = Some id') as H2
    by (apply inv_mirror; [done|]; rewrite Heq; eauto).
  congruence.
Qed.

(** Dropping an entry with its token. *)
Lemma drop_entry_get st id0 id : store_inv st ->
  d_get id (entries (drop_entry st id0)) =
    if decide (id0 = id) then None else d_get id (entries st).
Proof.
  intros Hst. unfold drop_entry. destruct (d_get id0 (entries st)) eqn:E; cbn.
  - by rewrite d_get_pop by apply Hst.
  - by case_decide; subst.
Qed.

Lemma drop_entry_inv st id0 : store_inv st -> store_inv (drop_entry st id0).
Proof.
  intros Hst. pose proof (fun id => drop_entry_get st id0 id Hst) as Hget.
  pose proof Hst as [He Ht Hb Hm Hd].
  unfold drop_entry in *. destruct (d_get id0 (entries st)) as [e0|] eqn:E0; [|done].
  cbn in *. split; cbn; auto with pydict.
  - unfold d_len in *. rewrite d_pop_length. lia.
  - intros t id. rewrite d_get_pop by done. rewrite Hget. case_decide.
    + subst t. split; [done|]. intros (e & He' & Heq). case_decide; [done|].
      assert (id0 = id) by (by eapply inv_token_unique). done.
    + rewrite Hm. split; intros (e & He' & <-); exists e; split; try done.
      * rewrite decide_False; [done|]. intros <-. congruence.
      * by case_decide.
  - intros id e. rewrite Hget. case_decide; [done|]. apply Hd.
Qed.

Lemma drop_entries_inv ids st : store_inv st -> store_inv (fold_left drop_entry ids st).
Proof. revert st. induction ids; cbn; auto using drop_entry_inv. Qed.

Lemma drop_entries_get ids st id : store_inv st ->
  d_get id (entries (fold_left drop_entry ids st)) =
    if decide (id ∈ ids) then None else d_get id (entries st).
Proof.
  revert st. induction ids as [|i ids IH]; intros st Hst; cbn.
  - rewrite decide_False; [done|apply not_elem_of_nil].
  - rewrite IH by by apply drop_entry_inv. rewrite drop_entry_get by done.
    destruct (decide (id ∈ ids)), (decide (i = id)), (decide (id ∈ i :: ids)) as [Hin|Hin];
      rewrite elem_of_cons in Hin; try done; try (destruct Hin; congruence);
      contradict Hin; auto.
Qed.

Lemma drop_entry_config st id : capacity (drop_entry st id) = capacity st /\
  uuid_draws (drop_entry st id) = uuid_draws st.
Proof. unfold drop_entry. by case_match. Qed.

Lemma drop_entries_config ids st : capacity (fold_left drop_entry ids st) = capacity st /\
  uuid_draws (fold_left drop_entry ids st) = uuid_draws st.
Proof.
  revert st. induction ids as [|i ids IH]; intros st; cbn; [done|].
  destruct (IH (drop_entry st i)) as [-> ->]. apply drop_entry_config.
Qed.

(** Changing an entry in place, its token kept. *)
Lemma update_entry_inv st id e e' : store_inv st ->
  d_get id (entries st) = Some e -> entry_token e' = entry_token e ->
  store_inv (set_entries (d_set id e' (entries st)) st).
Proof.
  intros [Hwe Hwt Hb Hm Hd] He Htok. split; cbn; auto with pydict.
  - unfold d_len in *. rewrite d_set_length.
    rewrite (proj2 (d_mem_true _ _)) by eauto. lia.
  - intros t i. rewrite Hm, d_get_set. split; intros (e1 & He1 & <-).
    + case_decide; subst; [|by eauto]. exists e'. split; [done|]. congruence.
    + case_decide; subst; [|by eauto]. simplify_eq. exists e. by split.
  - intros i e1. rewrite d_get_set. case_decide; subst; [|apply Hd].
    intros [= <-]. rewrite Htok. by eapply Hd.
Qed.

Lemma move_to_end_inv st id : store_inv st ->
  store_inv (set_entries (d_move_to_end id (entries st)) st).
Proof.
  intros [Hwe Hwt Hb Hm Hd]. split; cbn; auto with pydict.
  - unfold d_len. by rewrite d_move_to_end_length.
  - intros t i. rewrite Hm. by setoid_rewrite d_move_to_end_get.
  - intros i e. rewrite d_move_to_end_get by done. apply Hd.
Qed.

Definition draw st : store T := mkStore (capacity st) (entries st) (tokens st) (S (uuid_draws st)).

Lemma draw_inv st : store_inv st -> store_inv (draw st).
Proof.
  intros [Hwe Hwt Hb Hm Hd]. split; cbn; auto.
  intros i e (n & ? & ?)%Hd. exists n. split; [lia|done].
Qed.

(** Adding an entry under a new identity with the token just drawn. *)
Definition add_entry id e st : store T :=
  set_tokens (d_set (entry_token e) id (tokens st)) (set_entries (d_set id e (entries st)) (draw st)).

Lemma add_entry_inv `{!Uuid4Laws} st id e : store_inv st ->
  d_get id (entries st) = None -> (d_len (entries st) < capacity st)%Z ->
  entry_token e = mkToken (uuid4_hex (uuid_draws st)) ->
  store_inv (add_entry id e st).
Proof.
  intros [Hwe Hwt Hb Hm Hd] Hnew Hcap Htok.
  assert (forall i e1, d_get i (entries st) = Some e1 -> entry_token e1 <> entry_token e) as Hfresh.
  { intros i e1 (n & Hn & ->)%Hd. rewrite Htok. intros [= ?%uuid4_inj]. lia. }
  split; cbn; auto with pydict.
  - unfold d_len in *. rewrite d_set_length.
    rewrite (proj2 (d_mem_false _ _)) by done. lia.
  - intros t i. rewrite d_get_set. case_decide; subst.
    + split; [intros [= <-]; exists e; by rewrite d_get_set_eq|].
      intros (e1 & He1 & Heq). rewrite d_get_set in He1. case_decide; [by subst|].
      by destruct (Hfresh i e1).
    + rewrite Hm. split; intros (e1 & He1 & <-); exists e1.
      * rewrite d_get_set_ne; [done|]. congruence.
      * rewrite d_get_set in He1. case_decide; [by simplify_eq|done].
  - intros i e1. rewrite d_get_set. case_decide; subst.
    + intros [= <-]. exists (uuid_draws st). split; [lia|done].
    + intros (n & ? & ?)%Hd. exists n. split; [lia|done].
Qed.
End Invariant.

Create HintDb idem.
#[export] Hint Resolve drop_entries_inv move_to_end_inv draw_inv : idem.

(** ** What each operation does *)

Section Operations.
Context {T : Type} `{Uuid4}.
Implicit Types (st : store T) (e : Entry T) (id : identity) (o : op T).

(** The entry an identity still holds at [now]. *)
Definition live st (now : datetime) id : option (Entry T) :=
  match d_get id (entries st) with
  | Some e => if expired_for_purge now (id, e) then None else Some e
  | None => None
  end.

Definition purged (now : datetime) st : store T :=
  fold_left drop_entry (filter (fun p => expired_for_purge now p = true) (entries st)).*1 st.

Definition touched id st : store T := set_entries (d_move_to_end id (entries st)) st.

Lemma elem_of_filter_keys (P : identity * Entry T -> bool) st id : store_inv st ->
  id ∈ (filter (fun p => P p = true) (entries st)).*1 <->
  exists e, d_get id (entries st) = Some e /\ P (id, e) = true.
Proof.
  intros Hst. rewrite list_elem_of_fmap. split.
  - intros ([i e] & -> & Hin). apply list_elem_of_filter in Hin as [HP Hin].
    exists e. split; [|done]. apply d_elem_get; [apply Hst|done].
  - intros (e & He & HP). exists (id, e). split; [done|].
    apply list_elem_of_filter. split; [done|]. by apply d_get_elem.
Qed.

Lemma purged_get now st id : store_inv st -> d_get id (entries (purged now st)) = live st now id.
Proof.
  intros Hst. unfold purged, live. rewrite drop_entries_get by done.
  destruct (decide (id ∈ _)) as [Hin|Hin];
    rewrite (elem_of_filter_keys (expired_for_purge now)) in Hin by done.
  - destruct Hin as (e & -> & ->). done.
  - destruct (d_get id (entries st)) as [e|] eqn:He; [|done].
    destruct (expired_for_purge now (id, e)) eqn:Hx; [|done]. contradict Hin. eauto.
Qed.

Lemma purged_inv now st : store_inv st -> store_inv (purged now st).
Proof. apply drop_entries_inv. Qed.

Lemma purged_config now st :
  capacity (purged now st) = capacity st /\ uuid_draws (purged now st) = uuid_draws st.
Proof. apply drop_entries_config. Qed.

(** What a reservation of a held identity answers. *)
Definition held_decision e (fp : RequestFingerprint) : IdempotencyDecision T :=
  if negb (bool_decide (entry_fingerprint e = fp)) then Conflict
  else match entry_state e with
       | Completed => Replay (entry_value e)
       | UncertainState =>
           Uncertain (match entry_reason e with
                      | Some r => if str_empty r then "the prior outcome is unknown" else r
                      | None => "the prior outcome is unknown"
                      end)
       | Reserved => InProgress (entry_expires_at e)
       end.

Definition new_entry (n : nat) (fp : RequestFingerprint) (expires_at : datetime) : Entry T :=
  mkEntry (mkToken (uuid4_hex n)) fp expires_at Reserved None None.

(** The branches of [reserve]. *)
Inductive reserve_spec st (id : identity) (fp : RequestFingerprint) (now : datetime)
    (ttl : timedelta) : result exn (IdempotencyDecision T) -> store T -> Prop :=
  | reserve_invalid x :
      is_utc now = false \/ str_empty id.2 = true \/ ttl <= 0 ->
      reserve_spec st id fp now ttl (Raise x) st
  | reserve_held e :
      live st now id = Some e ->
      reserve_spec st id fp now ttl (Ok (held_decision e fp)) (touched id (purged now st))
  | reserve_full :
      live st now id = None -> (capacity st <= d_len (entries (purged now st)))%Z ->
      reserve_spec st id fp now ttl
        (Ok (Uncertain "idempotency capacity exceeded; no reservation was made")) (purged now st)
  | reserve_overflow x :
      live st now id = None -> dt_add now ttl = Raise x ->
      reserve_spec st id fp now ttl (Raise x) (draw (purged now st))
  | reserve_new expires_at :
      live st now id = None -> (d_len (entries (purged now st)) < capacity st)%Z ->
      dt_add now ttl = Ok expires_at ->
      reserve_spec st id fp now ttl (Ok (Execute (mkToken (uuid4_hex (uuid_draws st)))))
        (add_entry id (new_entry (uuid_draws st) fp expires_at) (purged now st)).

Lemma reserve_runs `{!Uuid4Laws} st scope key fp now ttl : store_inv st ->
  reserve_spec st (scope, key) fp now ttl
    (fst (reserve scope key fp now ttl st)) (snd (reserve scope key fp now ttl st)).
Proof.
  intros Hst. destruct (reserve scope key fp now ttl st) as [r st'] eqn:Hrun. cbn.
  unfold reserve, _utc, _purge, fresh_token, update_entry in Hrun.
  monad_unfold.
  destruct (is_utc now) eqn:Hu; cbn in Hrun; [|simplify_eq; constructor; auto].
  destruct (str_empty key) eqn:Hk; cbn in Hrun; [simplify_eq; constructor; auto|].
  destruct (ttl <=? 0) eqn:Ht; cbn in Hrun; [simplify_eq; constructor; time_facts; auto|].
  fold (purged now st) in Hrun.
  pose proof (purged_get now st (scope, key) Hst) as Hget.
  destruct (purged_config now st) as [Hcap Hdraws].
  destruct (d_get (scope, key) (entries (purged now st))) as [e|] eqn:E.
  - assert (r = Ok (held_decision e fp) /\ st' = touched (scope, key) (purged now st)) as [-> ->].
    { unfold held_decision. cbn in Hrun. destruct (negb _); [by simplify_eq|].
      by destruct (entry_state e); simplify_eq. }
    by constructor.
  - destruct (capacity (purged now st) <=? d_len (entries (purged now st))) eqn:Hfull;
      cbn in Hrun; time_facts; [simplify_eq; constructor; [done|lia]|].
    unfold ReservationToken_new, raise_if in Hrun. rewrite uuid4_nonempty in Hrun. cbn in Hrun.
    destruct (dt_add now ttl) as [x|x] eqn:Hadd; cbn in Hrun; simplify_eq.
    + pose proof (reserve_new st (scope, key) fp now ttl x) as Hnew. rewrite <- Hdraws in Hnew.
      apply Hnew; [done|lia|done].
    + by constructor.
Qed.

Lemma executing_some token now st id e : store_inv st ->
  _executing token now st = Some (id, e) <->
  d_get id (entries st) = Some e /\ entry_token e = token /\ entry_state e = Reserved /\
  dt_instant now < dt_instant (entry_expires_at e).
Proof.
  intros Hst. unfold _executing. split.
  - intros Hx. repeat (case_match; try done). simplify_eq. time_facts. by split_and!.
  - intros (He & Ht & Hs & Hlt%dt_leb_gt).
    rewrite (proj2 (inv_mirror _ Hst token id)) by eauto. rewrite He, Hlt.
    rewrite !bool_decide_true by done. done.
Qed.

Definition with_expiry (expires_at : datetime) e : Entry T :=
  mkEntry (entry_token e) (entry_fingerprint e) expires_at (entry_state e)
    (entry_value e) (entry_reason e).
Definition completed_with (v : T) e : Entry T :=
  mkEntry (entry_token e) (entry_fingerprint e) (entry_expires_at e) Completed (Some v)
    (entry_reason e).
Definition uncertain_with (reason : pystr) e : Entry T :=
  mkEntry (entry_token e) (entry_fingerprint e) (entry_expires_at e) UncertainState
    (entry_value e) (Some reason).
Definition stored id e st : store T := set_entries (d_set id e (entries st)) st.

(** The branches of the operations that present a token: without authority nothing
    changes, with authority the entry the token names changes and no other. *)
Inductive token_spec st (token : ReservationToken) (now : datetime)
    (change : Entry T -> Entry T) (removes : bool) : store T -> Prop :=
  | token_unchanged : token_spec st token now change removes st
  | token_changed id e e' :
      _executing token now st = Some (id, e) -> removes = false ->
      entry_token e' = token -> entry_fingerprint e' = entry_fingerprint e ->
      (e' = change e \/ exists x, e' = with_expiry x (change e)) ->
      token_spec st token now change removes (stored id e' st)
  | token_removed id e :
      _executing token now st = Some (id, e) -> removes = true ->
      token_spec st token now change removes
        (set_tokens (d_pop token (tokens st)) (set_entries (d_pop id (entries st)) st)).

Lemma executing_token token now st id e : _executing token now st = Some (id, e) ->
  entry_token e = token.
Proof. unfold _executing. intros Hx. repeat (case_match; try done). by time_facts; simplify_eq. Qed.

Lemma d_set_twice id e e' (d : dict identity (Entry T)) : d_set id e' (d_set id e d) = d_set id e' d.
Proof.
  induction d as [|[i x] d IH]; cbn; [by rewrite decide_True|].
  case_decide; cbn; [by rewrite decide_True|]. rewrite decide_False by done. by rewrite IH.
Qed.

Lemma renew_runs st token now ttl :
  token_spec st token now id false (snd (renew token now ttl st)).
Proof.
  destruct (renew token now ttl st) as [r st'] eqn:Hrun. cbn. unfold renew, _utc, update_entry in Hrun.
  run Hrun; try apply token_unchanged.
  eapply token_changed; [done|done|cbn; by eapply executing_token|done|right; by eexists].
Qed.

Lemma complete_runs st token v now ttl :
  token_spec st token now (completed_with v) false (snd (complete token v now ttl st)).
Proof.
  destruct (complete token v now ttl st) as [r st'] eqn:Hrun. cbn.
  unfold complete, _utc, update_entry in Hrun.
  run Hrun; try apply token_unchanged; unfold set_entries; cbn; rewrite ?d_set_twice;
    (eapply token_changed;
      [done|done|cbn; by eapply executing_token|done|first [by left|right; by eexists]]).
Qed.

Lemma mark_uncertain_runs st token reason now ttl :
  token_spec st token now (uncertain_with reason) false (snd (mark_uncertain token reason now ttl st)).
Proof.
  destruct (mark_uncertain token reason now ttl st) as [r st'] eqn:Hrun. cbn.
  unfold mark_uncertain, _utc, update_entry in Hrun.
  run Hrun; try apply token_unchanged; unfold set_entries; cbn; rewrite ?d_set_twice;
    (eapply token_changed;
      [done|done|cbn; by eapply executing_token|done|first [by left|right; by eexists]]).
Qed.

Lemma abandon_runs st token now :
  token_spec st token now id true (snd (abandon token now st)).
Proof.
  destruct (abandon token now st) as [r st'] eqn:Hrun. cbn. unfold abandon, _utc in Hrun.
  run Hrun; try apply token_unchanged. by eapply token_removed.
Qed.

Lemma purge_runs st plan :
  snd (purge plan st) =
    if dry_run plan then st else fold_left drop_entry (purge_selection plan st).*1 st.
Proof.
  unfold purge, bind, gets, modify, ret. by destruct (dry_run plan); cbn; rewrite plan_summary_ok.
Qed.
End Operations.

(** ** Histories preserve the invariant and the live entries *)

Section HistoryProofs.
Context {T : Type} `{Uuid4Laws}.
Implicit Types (st : store T) (e : Entry T) (id : identity) (o : op T).

Lemma removed_is_drop token now st id e : _executing token now st = Some (id, e) ->
  d_get id (entries st) = Some e ->
  set_tokens (d_pop token (tokens st)) (set_entries (d_pop id (entries st)) st) = drop_entry st id.
Proof. intros Hx He. unfold drop_entry. rewrite He. by rewrite (executing_token _ _ _ _ _ Hx). Qed.

Lemma token_spec_inv st token now change removes st' :
  store_inv st -> token_spec st token now change removes st' -> store_inv st'.
Proof.
  intros Hst Hspec. destruct Hspec as [|id e e' Hx|id e Hx]; [done|..];
    pose proof Hx as (He & Htok & _)%executing_some; try done.
  - eapply update_entry_inv; eauto. congruence.
  - rewrite (removed_is_drop _ _ _ _ _ Hx He). by apply drop_entry_inv.
Qed.

Lemma reserve_spec_inv st id fp now ttl r st' :
  store_inv st -> reserve_spec st id fp now ttl r st' -> store_inv st'.
Proof.
  intros Hst. destruct 1 as [| | | |x Hlive Hcap Hadd]; auto using purged_inv.
  - apply move_to_end_inv. by apply purged_inv.
  - apply draw_inv. by apply purged_inv.
  - destruct (purged_config now st) as [Hc Hd].
    apply add_entry_inv; [by apply purged_inv|by rewrite purged_get|lia|].
    cbn. by rewrite Hd.
Qed.

Lemma exec_inv o st : store_inv st -> store_inv (exec o st).
Proof.
  intros Hst. destruct o; cbn [exec].
  - eapply reserve_spec_inv; [done|]. by apply reserve_runs.
  - eapply token_spec_inv; [done|apply renew_runs].
  - eapply token_spec_inv; [done|apply complete_runs].
  - eapply token_spec_inv; [done|apply mark_uncertain_runs].
  - eapply token_spec_inv; [done|apply abandon_runs].
  - rewrite purge_runs. case_match; auto using drop_entries_inv.
Qed.

(** [o] leaves an entry alone: it does not carry its token while the entry is still
    reserved, and it acts before the entry expires (an uncertain entry expires only for
    a purge that includes uncertain entries). *)
Definition spares o e : Prop :=
  (op_token o = Some (entry_token e) -> entry_state e <> Reserved) /\
  (if bool_decide (entry_state e = UncertainState) then purges_uncertain o = false
   else dt_instant (op_time o) < dt_instant (entry_expires_at e)).

Lemma spared_not_expired now id e :
  (if bool_decide (entry_state e = UncertainState) then true
   else dt_ltb now (entry_expires_at e)) = true -> expired_for_purge now (id, e) = false.
Proof.
  unfold expired_for_purge. cbn. case_bool_decide; cbn; intros; [apply andb_false_r|].
  time_facts. rewrite (proj2 (dt_leb_gt _ _)) by done. done.
Qed.

Lemma spared_live st now id e : d_get id (entries st) = Some e ->
  (entry_state e = UncertainState \/ dt_instant now < dt_instant (entry_expires_at e)) ->
  live st now id = Some e.
Proof.
  intros He Hlive. unfold live. rewrite He, spared_not_expired; [done|].
  case_bool_decide; [done|]. rewrite dt_ltb_lt. by destruct Hlive.
Qed.

Lemma reserve_spec_get st id0 fp now ttl r st' id e :
  store_inv st -> reserve_spec st id0 fp now ttl r st' ->
  live st now id = Some e -> d_get id (entries st') = Some e \/ st' = st.
Proof.
  intros Hst Hspec Hlive. pose proof (purged_inv now st Hst) as Hp.
  destruct Hspec as [| | | |x Hnone]; auto; left; cbn.
  - rewrite d_move_to_end_get by apply Hp. by rewrite purged_get.
  - by rewrite purged_get.
  - by rewrite purged_get.
  - rewrite d_get_set_ne, purged_get by (done || congruence). done.
Qed.

Lemma token_spec_get st token now change removes st' id e :
  store_inv st -> token_spec st token now change removes st' ->
  d_get id (entries st) = Some e ->
  (token = entry_token e -> entry_state e <> Reserved) ->
  d_get id (entries st') = Some e.
Proof.
  intros Hst Hspec He Hspare. destruct Hspec as [|id0 e0 e' Hx|id0 e0 Hx]; [done|..];
    pose proof Hx as (He0 & Htok & Hres & _)%executing_some; try done.
  - cbn. rewrite d_get_set_ne; [done|]. intros <-. simplify_eq. by apply Hspare.
  - cbn. rewrite d_get_pop by apply Hst. rewrite decide_False; [done|].
    intros <-. simplify_eq. by apply Hspare.
Qed.

(** A call that spares an entry leaves it exactly as it is. *)
Lemma exec_spares o st id e : store_inv st ->
  d_get id (entries st) = Some e -> spares o e -> d_get id (entries (exec o st)) = Some e.
Proof.
  intros Hst He [Htok Htime].
  destruct o as [scope key fp now ttl|t now ttl|t v now ttl|t x now ttl|t now|plan];
    cbn [exec op_token op_time purges_uncertain] in *;
    try (eapply token_spec_get;
      [done|first [apply renew_runs|apply complete_runs|apply mark_uncertain_runs|apply abandon_runs]
      |done|intros ->; by apply Htok]).
  - destruct (reserve_spec_get st _ fp now ttl _ _ id e Hst
      (reserve_runs st scope key fp now ttl Hst)) as [|Heq]; [|done|by rewrite Heq].
    apply spared_live; [done|]. case_bool_decide; auto.
  - rewrite purge_runs. destruct (dry_run plan); [done|]. rewrite drop_entries_get by done.
    rewrite decide_False; [done|]. intros (p & -> & Hp)%list_elem_of_fmap.
    apply plan_selection_elem, list_elem_of_filter in Hp as [Hc Hp].
    destruct p as [id e0]. apply d_elem_get in Hp; [|apply Hst]. cbn in *. simplify_eq.
    unfold purge_candidate in Hc. cbn in Hc. apply andb_true_iff in Hc as [Hexp Hstate].
    case_bool_decide; cbn in *; [congruence|]. time_facts. lia.
Qed.

Lemma trace_inv st os st' : trace st os st' -> store_inv st -> store_inv st'.
Proof. induction 1; subst; auto using exec_inv. Qed.

Lemma trace_spares st os st' id e : trace st os st' -> store_inv st ->
  d_get id (entries st) = Some e -> Forall (fun o => spares o e) os ->
  d_get id (entries st') = Some e.
Proof.
  induction 1 as [|st o st1 os st2 <- _ IH]; intros Hst He Hall; [done|].
  inversion Hall; subst. auto using exec_inv, exec_spares.
Qed.
End HistoryProofs.

(** ** A token that lost its authority never regains it *)

Section DeadTokens.
Context {T : Type} `{Uuid4Laws}.
Implicit Types (st : store T) (e : Entry T) (id : identity) (o : op T).

(** [t] was drawn and no entry carries it any more. *)
Definition dead (t : ReservationToken) st : Prop :=
  (exists n, (n < uuid_draws st)%nat /\ t = mkToken (uuid4_hex n)) /\
  forall id e, d_get id (entries st) = Some e -> entry_token e <> t.

Lemma dead_not_executing t now st : store_inv st -> dead t st -> _executing t now st = None.
Proof.
  intros Hst [_ Hd]. destruct (_executing t now st) as [[id e]|] eqn:Hx; [|done].
  apply executing_some in Hx as (He & Htok & _); [|done]. by destruct (Hd id e).
Qed.

Lemma drop_entries_dead t ids st : store_inv st -> dead t st -> dead t (fold_left drop_entry ids st).
Proof.
  intros Hst [Hn Hd]. split.
  - by rewrite (proj2 (drop_entries_config ids st)).
  - intros id e. rewrite drop_entries_get by done. case_decide; [done|]. apply Hd.
Qed.

Lemma token_spec_dead t st token now change removes st' : store_inv st ->
  token_spec st token now change removes st' -> dead t st -> dead t st'.
Proof.
  intros Hst Hspec Hdead. destruct Hspec as [|id e e' Hx _ Htok|id e Hx]; [done|..];
    pose proof Hx as (He & Ht & _)%executing_some; try done; destruct Hdead as [Hn Hd].
  - split; [done|]. cbn. intros i x. rewrite d_get_set. case_decide; [|apply Hd].
    intros [= <-]. rewrite Htok, <- Ht. by eapply Hd.
  - split; [done|]. cbn. intros i x. rewrite d_get_pop by apply Hst. case_decide; [done|]. apply Hd.
Qed.

Lemma reserve_spec_dead t st id fp now ttl r st' : store_inv st ->
  reserve_spec st id fp now ttl r st' -> dead t st -> dead t st'.
Proof.
  intros Hst Hspec Hdead.
  pose proof (drop_entries_dead t (filter (fun p => expired_for_purge now p = true) (entries st)).*1
    st Hst Hdead) as Hp. fold (purged now st) in Hp.
  pose proof (purged_inv now st Hst) as Hinv. destruct (purged_config now st) as [_ Hdraws].
  destruct Hspec as [|e Hlive| | |x Hnone Hcap Hadd]; auto; destruct Hp as [(n & Hn & ->) Hd];
    (split; [exists n; split; [cbn; lia|done]|]); [|done|].
  - cbn. intros i x. rewrite d_move_to_end_get by apply Hinv. apply Hd.
  - cbn. intros i y. rewrite d_get_set. case_decide; [|apply Hd].
    intros [= <-]. cbn. intros [= ?%uuid4_inj]. lia.
Qed.

Lemma exec_dead t o st : store_inv st -> dead t st -> dead t (exec o st).
Proof.
  intros Hst Hdead. destruct o; cbn [exec].
  - eapply reserve_spec_dead; [done|by apply reserve_runs|done].
  - eapply token_spec_dead; [done|apply renew_runs|done].
  - eapply token_spec_dead; [done|apply complete_runs|done].
  - eapply token_spec_dead; [done|apply mark_uncertain_runs|done].
  - eapply token_spec_dead; [done|apply abandon_runs|done].
  - rewrite purge_runs. destruct (dry_run plan); auto using drop_entries_dead.
Qed.

Lemma trace_dead t st os st' : trace st os st' -> store_inv st -> dead t st -> dead t st'.
Proof. induction 1; subst; auto using exec_dead, exec_inv. Qed.
End DeadTokens.

(** ** The abstract store: a finite map from identities to entries *)

Section Refinement.
Context {T : Type} `{Uuid4}.

Definition abstraction (st : store T) : gmap identity (Entry T) := list_to_map (entries st).

#[global] Arguments abstraction : simpl never.

Definition spec_purge (now : datetime) (m : gmap identity (Entry T)) : gmap identity (Entry T) :=
  filter (fun p => expired_for_purge now p = false) m.

(** Reservation on the abstract store: [n] is the next identifier to draw. *)
Definition spec_reserve (cap : Z) (n : nat) (m : gmap identity (Entry T)) (id : identity)
    (fp : RequestFingerprint) (now : datetime) (ttl : timedelta) :
    IdempotencyDecision T * gmap identity (Entry T) :=
  let m := spec_purge now m in
  match m !! id with
  | Some e => (held_decision e fp, m)
  | None =>
      if (cap <=? Z.of_nat (size m))%Z
      then (Uncertain "idempotency capacity exceeded; no reservation was made", m)
      else (Execute (mkToken (uuid4_hex n)),
            <[id := new_entry n fp (DateTime (dt_wall now + ttl) (dt_offset now))]> m)
  end.

Lemma abstraction_lookup (st : store T) id : abstraction st !! id = d_get id (entries st).
Proof. apply d_get_map. Qed.

Lemma abstraction_size (st : store T) : store_inv st ->
  Z.of_nat (size (abstraction st)) = d_len (entries st).
Proof.
  intros Hst. unfold abstraction, d_len. f_equal. apply map_size_list_to_map. apply Hst.
Qed.

Lemma abstraction_purged now (st : store T) : store_inv st ->
  abstraction (purged now st) = spec_purge now (abstraction st).
Proof.
  intros Hst. apply map_eq. intros id. unfold spec_purge.
  rewrite map_lookup_filter, !abstraction_lookup, purged_get by done. unfold live.
  destruct (d_get id (entries st)) as [e|]; cbn; [|done].
  unfold guard. destruct (expired_for_purge now (id, e)) eqn:Hx; case_decide; cbn in *; congruence.
Qed.
End Refinement.

(** ** Properties *)

Section Properties.
Context {T : Type} `{Uuid4Laws}.
Implicit Types (st : store T) (os : list (op T)).

(** In every history of calls on a new store the entry and token dictionaries stay a
    bijection, the number of entries stays within the capacity, and every token is one
    the store drew. *)
Theorem history_consistent (cap : Z) os st :
  0 < cap -> trace (mkStore cap [] [] 0) os st -> store_inv st.
Proof. intros Hcap Htrace. eapply trace_inv; [done|]. by apply inv_initial. Qed.

(** Reservation refines the map specification: on valid arguments whose lease ends
    inside the calendar it returns the specification's decision, and the store's
    abstraction becomes the specification's map. *)
Theorem reserve_refines st scope key fp now ttl : store_inv st ->
  is_utc now = true -> str_empty key = false -> 0 < ttl -> dt_wall now + ttl <= dt_max ->
  0 <= dt_wall now ->
  exists st', reserve scope key fp now ttl st =
    (Ok (fst (spec_reserve (capacity st) (uuid_draws st) (abstraction st) (scope, key) fp now ttl)),
     st') /\
    abstraction st' =
      snd (spec_reserve (capacity st) (uuid_draws st) (abstraction st) (scope, key) fp now ttl).
Proof.
  intros Hst Hu Hk Ht Hmax Hmin.
  assert (dt_add now ttl = Ok (DateTime (dt_wall now + ttl) (dt_offset now))) as Hadd.
  { unfold dt_add. by rewrite (proj2 (Z.leb_le _ _)), (proj2 (Z.leb_le (_ + _) dt_max)) by lia. }
  pose proof (reserve_runs st scope key fp now ttl Hst) as Hspec.
  destruct (reserve scope key fp now ttl st) as [r st']. cbn in Hspec. exists st'.
  unfold spec_reserve. cbn zeta. rewrite <- (abstraction_purged now st Hst).
  rewrite abstraction_lookup.
  rewrite purged_get by done.
  rewrite (abstraction_size _ (purged_inv now st Hst)).
  inversion Hspec as [x Hbad|e Hl|Hl Hfull|x Hl Hover|x Hl Hcap Hx]; subst; cbn in *.
  - exfalso. destruct Hbad as [|[|]]; congruence || lia.
  - rewrite Hl. cbn [fst snd]. split; [done|]. apply map_eq. intros i.
    rewrite !abstraction_lookup. apply d_move_to_end_get. by apply purged_inv.
  - rewrite Hl, (proj2 (Z.leb_le _ _)) by lia. done.
  - congruence.
  - rewrite Hl, (proj2 (Z.leb_gt _ _)) by lia. cbn [fst snd].
    split; [done|]. apply map_eq. intros i. rewrite abstraction_lookup. cbn.
    rewrite d_get_set, lookup_insert, abstraction_lookup. rewrite Hadd in Hx. by injection Hx as <-.
Qed.

(** The answer to a reservation of an identity that holds a live entry. *)
Lemma reserve_of_held st scope key fp now ttl e : store_inv st ->
  is_utc now = true -> str_empty key = false -> 0 < ttl ->
  live st now (scope, key) = Some e ->
  fst (reserve scope key fp now ttl st) = Ok (held_decision e fp).
Proof.
  intros Hst Hu Hk Ht Hl. pose proof (reserve_runs st scope key fp now ttl Hst) as Hspec.
  inversion Hspec as [x Hbad| | | |]; try congruence.
  exfalso. cbn in Hbad. destruct Hbad as [|[|]]; congruence || lia.
Qed.

Lemma complete_stored st token v now ttl until st' : store_inv st ->
  complete token v now ttl st = (Ok (ReservationCompleted until), st') ->
  store_inv st' /\ exists id e, d_get token (tokens st) = Some id /\
    d_get id (entries st') = Some e /\ entry_state e = Completed /\
    entry_value e = Some v /\ entry_expires_at e = until /\
    dt_instant until = dt_instant now + ttl.
Proof.
  intros Hst Hrun.
  assert (store_inv st') as Hst'.
  { eapply token_spec_inv; [exact Hst|]. pose proof (complete_runs st token v now ttl) as Hs.
    by rewrite Hrun in Hs. }
  split; [done|]. unfold complete, _utc, update_entry in Hrun. run Hrun.
  match goal with Hx : _executing _ _ _ = Some (?i, ?e) |- _ =>
    pose proof Hx as (He & <- & _)%executing_some; [|done]; exists i; eexists end.
  rewrite d_get_set_eq. split_and!; try done; [by apply inv_mirror; eauto|].
  by time_facts.
Qed.

(** C1. A completed result is replayed until its retention ends: after a successful
    [complete], whatever calls follow (reservations, renewals, completions, abandonments,
    purges, with any tokens) at instants before the retention limit, a reservation of the
    same identity replays exactly that result for the same request fingerprint and
    reports a conflict for every other; the operation is never executed again. *)
Theorem completed_result_replayed st token scope key v now ttl until st1 os st2 fp e1 now2 ttl2 :
  store_inv st -> d_get token (tokens st) = Some (scope, key) ->
  complete token v now ttl st = (Ok (ReservationCompleted until), st1) ->
  d_get (scope, key) (entries st1) = Some e1 ->
  trace st1 os st2 ->
  Forall (fun o => dt_instant (op_time o) < dt_instant until) os ->
  is_utc now2 = true -> str_empty key = false -> 0 < ttl2 ->
  dt_instant now2 < dt_instant until ->
  fst (reserve scope key fp now2 ttl2 st2) =
    Ok (if decide (entry_fingerprint e1 = fp) then Replay (Some v) else Conflict).
Proof.
  intros Hst Htok Hrun He1 Htrace Htimes Hu Hk Ht Hnow.
  apply complete_stored in Hrun as (Hst1 & id & e & Hid & He & Hs & Hv & Hexp & _); [|done].
  simplify_eq.
  assert (d_get (scope, key) (entries st2) = Some e) as He2.
  { eapply trace_spares; [done..|]. eapply Forall_impl; [exact Htimes|].
    intros o Ho. split; [by rewrite Hs|]. by rewrite bool_decide_false by (by rewrite Hs). }
  rewrite (reserve_of_held st2 scope key fp now2 ttl2 e); try done.
  - unfold held_decision. rewrite Hs, Hv. by repeat case_match; time_facts.
  - by eapply trace_inv.
  - apply spared_live; auto.
Qed.

(** A reservation is exclusive: once [reserve] hands out a token, whatever calls
    follow before its lease ends, as long as none of them presents that token, the token
    keeps its authority and no reservation of the same identity is told to execute. *)
Theorem reservation_exclusive st scope key fp now ttl token st1 os st2 fp2 now2 ttl2 :
  store_inv st -> 0 < ttl ->
  reserve scope key fp now ttl st = (Ok (Execute token), st1) ->
  trace st1 os st2 ->
  Forall (fun o => dt_instant (op_time o) < dt_instant now + ttl /\
                   op_token o <> Some token) os ->
  is_utc now2 = true -> str_empty key = false -> 0 < ttl2 ->
  dt_instant now2 < dt_instant now + ttl ->
  (exists e, _executing token now2 st2 = Some ((scope, key), e)) /\
  fst (reserve scope key fp2 now2 ttl2 st2) =
    Ok (if decide (fp = fp2) then InProgress (DateTime (dt_wall now + ttl) (dt_offset now))
        else Conflict).
Proof.
  intros Hst Ht Hrun Htrace Hos Hu Hk Ht2 Hnow.
  pose proof (reserve_runs st scope key fp now ttl Hst) as Hspec. rewrite Hrun in Hspec.
  cbn in Hspec. assert (store_inv st1) as Hst1 by (by eapply reserve_spec_inv).
  inversion Hspec as [|e Hl Hd| | |x Hl Hcap Hadd]; subst.
  { unfold held_decision in Hd. repeat case_match; done. }
  set (e := @new_entry T _ (uuid_draws st) fp x).
  pose proof (dt_add_ok _ _ _ Hadd) as [Hx _].
  assert (d_get (scope, key) (entries st2) = Some e) as He2.
  { eapply trace_spares; [done|done|cbn; apply d_get_set_eq|].
    eapply Forall_impl; [exact Hos|]. intros o [Ho1 Ho2]. split; [done|].
    rewrite bool_decide_false by done. cbn. lia. }
  assert (store_inv st2) as Hst2 by (by eapply trace_inv). split.
  - exists e. apply executing_some; [done|]. cbn. split_and!; try done. lia.
  - rewrite (reserve_of_held st2 scope key fp2 now2 ttl2 e); try done.
    + unfold held_decision, dt_add in *. cbn. repeat case_match; time_facts; simplify_eq; done.
    + apply spared_live; [done|]. right. cbn. lia.
Qed.

(** An uncertain outcome is never forgotten by the passage of time: after
    [mark_uncertain], whatever calls follow at whatever instants, unless one is a purge
    that includes uncertain entries, the identity keeps answering [Uncertain] with the
    recorded reason (or [Conflict] for another fingerprint) and is never re-executed. *)
Theorem uncertainty_sticky st token scope key reason now ttl until st1 os st2 fp e1 now2 ttl2 :
  store_inv st -> d_get token (tokens st) = Some (scope, key) ->
  mark_uncertain token reason now ttl st = (Ok (ReservationMarkedUncertain until), st1) ->
  d_get (scope, key) (entries st1) = Some e1 ->
  trace st1 os st2 -> Forall (fun o => purges_uncertain o = false) os ->
  is_utc now2 = true -> str_empty key = false -> 0 < ttl2 ->
  fst (reserve scope key fp now2 ttl2 st2) =
    Ok (if decide (entry_fingerprint e1 = fp) then Uncertain reason else Conflict).
Proof.
  intros Hst Htok Hrun He1 Htrace Hos Hu Hk Ht.
  assert (store_inv st1) as Hst1.
  { eapply token_spec_inv; [exact Hst|]. pose proof (mark_uncertain_runs st token reason now ttl) as Hs.
    by rewrite Hrun in Hs. }
  assert (entry_state e1 = UncertainState /\ entry_reason e1 = Some reason /\
          str_empty reason = false) as (Hs & Hr & Hne).
  { unfold mark_uncertain, _utc, update_entry in Hrun. run Hrun.
    match goal with Hx : _executing _ _ _ = Some (?i, ?e) |- _ =>
      apply executing_some in Hx as (He & <- & _); [|done] end.
    pose proof (proj2 (inv_mirror _ Hst _ _) (ex_intro _ _ (conj He eq_refl))). simplify_eq.
    rewrite d_get_set_eq in He1. by simplify_eq. }
  assert (d_get (scope, key) (entries st2) = Some e1) as He2.
  { eapply trace_spares; [done..|]. eapply Forall_impl; [exact Hos|].
    intros o Ho. split; [by rewrite Hs|]. by rewrite Hs. }
  rewrite (reserve_of_held st2 scope key fp now2 ttl2 e1); try done.
  - unfold held_decision. rewrite Hs, Hr, Hne. by repeat case_match; time_facts.
  - by eapply trace_inv.
  - apply spared_live; auto.
Qed.

(** A superseded token is stale for ever: once an expired reservation is replaced, so
    that no entry carries the old token, no later history gives the old token authority
    again: renewing, completing, marking or abandoning with it reports staleness and
    leaves the store as it is. *)
Theorem superseded_token_stale st token os st' now ttl v reason :
  store_inv st -> dead token st -> trace st os st' ->
  is_utc now = true -> 0 < ttl -> str_empty reason = false ->
  renew token now ttl st' = (Ok RenewStale, st') /\
  complete token v now ttl st' = (Ok CompleteStale, st') /\
  mark_uncertain token reason now ttl st' = (Ok MarkUncertainStale, st') /\
  abandon token now st' = (Ok AbandonStale, st').
Proof.
  intros Hst Hdead Htrace Hu Ht Hr.
  assert (_executing token now st' = None) as Hx.
  { apply dead_not_executing; [by eapply trace_inv|by eapply trace_dead]. }
  assert ((ttl <=? 0) = false) as Ht' by (apply Z.leb_gt; lia).
  unfold renew, complete, mark_uncertain, abandon, _utc.
  split_and!; by exec_guards.
Qed.
End Properties.

(** ** Concrete runs *)

Section Witnesses.
#[local] Existing Instance unary_uuid.
#[local] Existing Instance unary_uuid_laws.

Definition demo_scope : IdempotencyScope := mkScope "ns" "subject" "op".
Definition demo_fp : RequestFingerprint := mkFingerprint "abc".
Definition demo_empty : store Z := mkStore 2 [] [] 0.
Definition demo_reserve : op Z := OpReserve demo_scope "k" demo_fp (utc 100) 50.
Definition demo_token : ReservationToken := mkToken (uuid4_hex 0).
(** One reservation held until instant 150. *)
Definition demo_held : store Z := exec demo_reserve demo_empty.

Lemma demo_empty_inv : store_inv demo_empty.
Proof. by apply inv_initial. Qed.
Lemma demo_held_inv : store_inv demo_held.
Proof. apply exec_inv, demo_empty_inv. Qed.

Lemma history_consistent_witness :
  0 < 2 /\ store_inv (exec (OpAbandon demo_token (utc 120)) demo_held).
Proof.
  split; [lia|].
  apply (history_consistent 2 [demo_reserve; OpAbandon demo_token (utc 120)]); [lia|].
  eapply trace_cons; [reflexivity|]. eapply trace_cons; [reflexivity|]. apply trace_nil.
Defined.

Lemma reserve_refines_witness :
  store_inv demo_held /\ exists st',
    reserve demo_scope "other" demo_fp (utc 100) 50 demo_held =
      (Ok (fst (spec_reserve 2 1 (abstraction demo_held) (demo_scope, "other"%py) demo_fp (utc 100) 50)),
       st') /\
    abstraction st' =
      snd (spec_reserve 2 1 (abstraction demo_held) (demo_scope, "other"%py) demo_fp (utc 100) 50).
Proof.
  split; [apply demo_held_inv|].
  apply (reserve_refines demo_held demo_scope "other" demo_fp (utc 100) 50);
    [apply demo_held_inv|reflexivity|reflexivity|lia|vm_compute; congruence|vm_compute; congruence].
Defined.

Definition demo_completed : store Z := snd (complete demo_token 7 (utc 110) 1000 demo_held).

Lemma completed_result_replayed_witness :
  fst (reserve demo_scope "k" demo_fp (utc 300) 10
    (exec (OpRenew demo_token (utc 200) 5) demo_completed)) = Ok (Replay (Some 7)).
Proof.
  etransitivity; [|reflexivity].
  eapply (completed_result_replayed demo_held demo_token demo_scope "k" 7 (utc 110) 1000 (utc 1110)
    demo_completed [OpRenew demo_token (utc 200) 5] _ demo_fp
    (completed_with 7 (new_entry 0 demo_fp (utc 1110))));
    [apply demo_held_inv|reflexivity|reflexivity|reflexivity
    |eapply trace_cons; [reflexivity|apply trace_nil]
    |repeat constructor|reflexivity|reflexivity|lia|vm_compute; congruence].
Defined.

Lemma reservation_exclusive_witness :
  (exists e, _executing demo_token (utc 149) demo_held = Some ((demo_scope, "k"%py), e)) /\
  fst (reserve demo_scope "k" demo_fp (utc 149) 10 demo_held) = Ok (InProgress (utc 150)).
Proof.
  apply (reservation_exclusive demo_empty demo_scope "k" demo_fp (utc 100) 50 demo_token demo_held []
    demo_held demo_fp (utc 149) 10);
    [apply demo_empty_inv|lia|reflexivity|apply trace_nil|constructor|reflexivity|reflexivity|lia
    |vm_compute; congruence].
Defined.

Definition demo_unknown : store Z := snd (mark_uncertain demo_token "lost" (utc 110) 10 demo_held).

Lemma uncertainty_sticky_witness :
  fst (reserve demo_scope "k" demo_fp (utc 99999) 10
    (exec (OpPurge (mkMaintenancePlan (utc 88888) 10 false false)) demo_unknown)) =
    Ok (Uncertain "lost").
Proof.
  etransitivity; [|reflexivity].
  eapply (uncertainty_sticky demo_held demo_token demo_scope "k" "lost" (utc 110) 10 (utc 120)
    demo_unknown [OpPurge (mkMaintenancePlan (utc 88888) 10 false false)] _ demo_fp
    (uncertain_with "lost" (new_entry 0 demo_fp (utc 120))));
    [apply demo_held_inv|reflexivity|reflexivity|reflexivity
    |eapply trace_cons; [reflexivity|apply trace_nil]
    |repeat constructor|reflexivity|reflexivity|lia].
Defined.

(** The lease ran out and another reservation took the identity over. *)
Definition demo_superseded : store Z := exec (OpReserve demo_scope "k" demo_fp (utc 150) 50) demo_held.

Lemma superseded_token_stale_witness :
  renew demo_token (utc 160) 5 demo_superseded = (Ok RenewStale, demo_superseded) /\
  complete demo_token 3 (utc 160) 5 demo_superseded = (Ok CompleteStale, demo_superseded) /\
  mark_uncertain demo_token "r" (utc 160) 5 demo_superseded = (Ok MarkUncertainStale, demo_superseded) /\
  abandon demo_token (utc 160) demo_superseded = (Ok AbandonStale, demo_superseded).
Proof.
  apply (superseded_token_stale demo_superseded demo_token [] demo_superseded (utc 160) 5 3 "r");
    [apply exec_inv, demo_held_inv| |apply trace_nil|reflexivity|lia|reflexivity].
  split; [exists 0%nat; split; [vm_compute; lia|reflexivity]|].
  intros id e He%d_get_elem.
  change (entries demo_superseded) with [((demo_scope, "k"%py), new_entry (T := Z) 1 demo_fp (utc 200))] in He.
  apply list_elem_of_singleton in He as [= _ ->]. vm_compute. congruence.
Defined.
End Witnesses.

(** ** Conformance of the reference idempotency store

    [IdempotencyStoreHarness.exercise] ([src/pytitect/idempotency.py]) run on
    [InMemoryIdempotencyStore], at a symbolic instant. *)

(** ** The reference store passes the harness *)

Section HarnessPasses.
Context {T : Type} `{!EqDecision T} `{Uuid4Laws}.
Variable float_repr : spec_float -> pystr.
Variable sha256_hexdigest : list N -> pystr.

(** The harness run on a new store of the default capacity. *)
Definition harness_run (value : T) (now : datetime) : result exn unit :=
  fst (exercise float_repr sha256_hexdigest value now (mkStore 10000 [] [] 0)).

(** [InMemoryIdempotencyStore] passes [IdempotencyStoreHarness.exercise]: for every
    result value and every start instant whose hour of retention fits the calendar, every
    assertion of the harness holds, provided SHA-256 separates the two requests the
    harness builds. *)
Theorem idempotency_harness_passes (value : T) (w : Z) f1 f2 :
  0 <= w -> w + hours 1 + seconds 1 <= dt_max ->
  harness_fingerprint float_repr sha256_hexdigest 1 = Ok f1 ->
  harness_fingerprint float_repr sha256_hexdigest 2 = Ok f2 ->
  f1 <> f2 ->
  harness_run value (utc w) = Ok tt.
Proof.
  intros Hw Hmax Hf1 Hf2 Hne.
  unfold harness_run, exercise.
  erewrite bind_run; [|reflexivity].
  erewrite bind_run; [|unfold lift; rewrite Hf1; reflexivity].
  erewrite bind_run; [|unfold lift; rewrite Hf2; reflexivity].
  repeat sym_bind ltac:(cbn [port_reserve port_renew port_complete port_mark_uncertain port_abandon
      InMemory_IdempotencyStore];
    unfold reserve, renew, complete, mark_uncertain, abandon, _utc, _purge, fresh_token,
      update_entry, ReservationToken_new, expect, expect_execute, drop_entry, _executing,
      expired_for_purge, d_move_to_end).
  unfold expect. sym. reflexivity.
Qed.
End HarnessPasses.

(** The harness on the concrete identifier source, with a digest that keeps the payload. *)
Lemma idempotency_harness_passes_witness :
  harness_run (H := unary_uuid) (fun _ => "0"%py) PyStr 7 (utc 1000) = Ok tt.
Proof.
  eapply (@idempotency_harness_passes Z _ unary_uuid unary_uuid_laws (fun _ => "0"%py) PyStr 7 1000);
    [lia|vm_compute; congruence|vm_compute; reflexivity|vm_compute; reflexivity|vm_compute; congruence].
Defined.
