(* ===== verification/Leases.v ===== *)
(** * Lease ownership and fencing ([src/pytitect/leases.py])

    The lease values, the store port, the reference store [InMemoryLeaseStore] whose fencing
    counter outlives every lease, the commit guard [FencedCommit] and the conformance
    harness. A resource is any hashable value. *)
From Stdlib Require Import ZArith Lia.
From stdpp Require Import base list gmap.
From S2P Require Import Prelude.

(** ** Data *)

Record Lease (R : Type) := mkLease {
  resource : R;
  owner : pystr;
  fencing_token : Z;
  expires_at : datetime
}.
Arguments mkLease {R}.
Arguments resource {R}.
Arguments owner {R}.
Arguments fencing_token {R}.
Arguments expires_at {R}.

#[export] Instance Lease_eq_dec {R} `{EqDecision R} : EqDecision (Lease R).
Proof. solve_decision. Defined.

Definition _utc {S} (value : datetime) : M exn S unit :=
  check_utc value "lease timestamps must be timezone-aware UTC".

Definition Lease_new {R S} (r : R) (o : pystr) (token : Z) (at_ : datetime) : M exn S (Lease R) :=
  _utc at_ ;;;
  raise_if (str_empty o || (token <=? 0)%Z)
    (ValueError "lease owner and a positive fencing token are required") ;;;
  ret (mkLease r o token at_).

Record LeaseAuthority := mkAuthority {
  authority_owner : pystr;
  authority_token : Z;
  authority_expires_at : datetime
}.

Definition LeaseAuthority_new {S} (o : pystr) (token : Z) (at_ : datetime) :
    M exn S LeaseAuthority :=
  _utc at_ ;;;
  raise_if (str_empty o || (token <=? 0)%Z)
    (ValueError "authority owner and a positive fencing token are required") ;;;
  ret (mkAuthority o token at_).

Inductive AcquireResult (R : Type) :=
  | LeaseAcquired (lease : Lease R)
  | LeaseBusy (owner : pystr) (retry_after : datetime).
Arguments LeaseAcquired {R}.
Arguments LeaseBusy {R}.

Inductive RenewResult (R : Type) :=
  | LeaseRenewed (lease : Lease R)
  | StaleLease (reason : pystr).
Arguments LeaseRenewed {R}.
Arguments StaleLease {R}.

Inductive ReleaseResult :=
  | LeaseReleased
  | ReleaseStale (reason : pystr).

Definition stale_reason : pystr := "lease is absent, expired, or no longer owned by this token".

Class LeaseStore (W R : Type) := {
  port_acquire : R -> pystr -> datetime -> timedelta -> M exn W (AcquireResult R);
  port_renew_lease : Lease R -> datetime -> timedelta -> M exn W (RenewResult R);
  port_release : Lease R -> datetime -> M exn W ReleaseResult;
  port_authority : R -> M exn W (option Z)
}.

(** ** The in-memory store *)

Record store (R : Type) := mkStore {
  capacity : Z;
  leases : dict R (Lease R);
  tokens : dict R Z
}.
Arguments mkStore {R}.
Arguments capacity {R}.
Arguments leases {R}.
Arguments tokens {R}.

Definition InMemoryLeaseStore_new {R S} (cap : Z) : M exn S (store R) :=
  raise_if (cap <=? 0)%Z (ValueError "capacity must be positive") ;;;
  ret (mkStore cap [] []).

Section InMemory.
Context {R : Type} `{EqDecision R}.
Implicit Types (st : store R) (l : Lease R).

Definition set_leases (d : dict R (Lease R)) st : store R := mkStore (capacity st) d (tokens st).
Definition set_tokens (d : dict R Z) st : store R := mkStore (capacity st) (leases st) d.

(** The rest of [acquire] once no unexpired lease was found. *)
Definition grant (r : R) (o : pystr) (now : datetime) (ttl : timedelta) :
    M exn (store R) (AcquireResult R) :=
  let! st := get in
  raise_if (negb (d_mem r (tokens st)) && (capacity st <=? d_len (tokens st))%Z)
    (OverflowError "lease authority capacity exceeded") ;;;
  let token := default 0 (d_get r (tokens st)) + 1 in
  let! until := lift (dt_add now ttl) in
  let! lease := Lease_new r o token until in
  modify (fun st => set_tokens (d_set r token (tokens st)) st) ;;;
  modify (fun st => set_leases (d_set r lease (leases st)) st) ;;;
  ret (LeaseAcquired lease).

Definition acquire (r : R) (o : pystr) (now : datetime) (ttl : timedelta) :
    M exn (store R) (AcquireResult R) :=
  _utc now ;;;
  raise_if (str_empty o || (ttl <=? 0)%Z) (ValueError "owner and positive ttl are required") ;;;
  let! current := gets (fun st => d_get r (leases st)) in
  match current with
  | Some current =>
      if dt_ltb now (expires_at current)
      then ret (LeaseBusy (owner current) (expires_at current))
      else grant r o now ttl
  | None => grant r o now ttl
  end.

(** [current != lease or current.expires_at <= now]. *)
Definition not_authoritative (current : option (Lease R)) l (now : datetime) : bool :=
  negb (bool_decide (current = Some l)) || dt_leb (expires_at l) now.

Definition renew l (now : datetime) (ttl : timedelta) : M exn (store R) (RenewResult R) :=
  _utc now ;;;
  raise_if (ttl <=? 0)%Z (ValueError "ttl must be positive") ;;;
  let! current := gets (fun st => d_get (resource l) (leases st)) in
  if not_authoritative current l now then ret (StaleLease stale_reason)
  else
    let! until := lift (dt_add now ttl) in
    let! renewed := Lease_new (resource l) (owner l) (fencing_token l) until in
    modify (fun st => set_leases (d_set (resource l) renewed (leases st)) st) ;;;
    ret (LeaseRenewed renewed).

Definition release l (now : datetime) : M exn (store R) ReleaseResult :=
  _utc now ;;;
  let! current := gets (fun st => d_get (resource l) (leases st)) in
  if not_authoritative current l now then ret (ReleaseStale stale_reason)
  else
    modify (fun st => set_leases (d_pop (resource l) (leases st)) st) ;;;
    ret LeaseReleased.

Definition authority (r : R) : M exn (store R) (option Z) :=
  gets (fun st => fencing_token <$> d_get r (leases st)).

Definition current_lease (r : R) : M exn (store R) (option (Lease R)) :=
  gets (fun st => d_get r (leases st)).

#[export] Instance InMemory_LeaseStore : LeaseStore (store R) R := {
  port_acquire := acquire;
  port_renew_lease := renew;
  port_release := release;
  port_authority := authority
}.
End InMemory.

(** ** The fenced commit *)

Inductive FencedResult (A : Type) :=
  | FencedCommitted (value : A)
  | FencedStale (reason : pystr).
Arguments FencedCommitted {A}.
Arguments FencedStale {A}.

Section Fenced.
Context {W R A : Type}.
(** The consumer's lock: runs the callback on the resource's current authority. *)
Variable locked_authority :
  R -> (option LeaseAuthority -> M exn W (FencedResult A)) -> M exn W (FencedResult A).
Variable clock : M exn W datetime.

(** The clock is read only when token and owner match, as [or] short-circuits. *)
Definition compare_authority (l : Lease R) (mutation : M exn W A)
    (auth : option LeaseAuthority) : M exn W (FencedResult A) :=
  match auth with
  | None => ret (FencedStale "lease is expired or no longer authoritative")
  | Some a =>
      if negb (authority_token a =? fencing_token l)%Z
         || negb (bool_decide (authority_owner a = owner l))
      then ret (FencedStale "lease is expired or no longer authoritative")
      else
        let! now := clock in
        if dt_leb (authority_expires_at a) now
        then ret (FencedStale "lease is expired or no longer authoritative")
        else
          let! value := mutation in
          ret (FencedCommitted value)
  end.

Definition commit (l : Lease R) (mutation : M exn W A) : M exn W (FencedResult A) :=
  locked_authority (resource l) (compare_authority l mutation).
End Fenced.

(** ** The conformance harness *)

Section Harness.
Context {W : Type} `{!LeaseStore W pystr}.

Definition lease_expect (condition : bool) (message : pystr) : M exn W unit :=
  raise_if (negb condition) (AssertionError message).

Definition exercise (now : datetime) : M exn W unit :=
  let ttl := minutes 1 in
  let! first := port_acquire ("resource" : pystr) "one" now ttl in
  let! first_lease :=
    match first with
    | LeaseAcquired l =>
        if (fencing_token l =? 1)%Z then ret l
        else raise (AssertionError "the first lease must receive fencing token one")
    | LeaseBusy _ _ => raise (AssertionError "the first lease must receive fencing token one")
    end in
  let! busy := port_acquire ("resource" : pystr) "two" now ttl in
  lease_expect (match busy with LeaseBusy _ _ => true | _ => false end)
    "an active lease must exclude another owner" ;;;
  let! renewed_at := lift (dt_add now (seconds 1)) in
  let! renewed := port_renew_lease first_lease renewed_at ttl in
  let! renewed_lease :=
    match renewed with
    | LeaseRenewed l => ret l
    | StaleLease _ => raise (AssertionError "the authoritative lease must renew")
    end in
  let! r1 := port_release first_lease renewed_at in
  lease_expect (match r1 with ReleaseStale _ => true | _ => false end)
    "the pre-renewal lease snapshot must be stale" ;;;
  let! r2 := port_release renewed_lease renewed_at in
  lease_expect (match r2 with LeaseReleased => true | _ => false end)
    "the authoritative lease must release" ;;;
  let! a := port_authority ("resource" : pystr) in
  lease_expect (match a with None => true | _ => false end)
    "a released lease must have no active authority" ;;;
  let! takeover := port_acquire ("resource" : pystr) "two" renewed_at ttl in
  lease_expect
    (match takeover with
     | LeaseAcquired l => negb (fencing_token l <=? fencing_token renewed_lease)%Z
     | LeaseBusy _ _ => false
     end)
    "a reacquired lease must advance its fencing token".
End Harness.

(** ** Histories *)

Inductive op (R : Type) :=
  | OpAcquire (r : R) (o : pystr) (now : datetime) (ttl : timedelta)
  | OpRenew (l : Lease R) (now : datetime) (ttl : timedelta)
  | OpRelease (l : Lease R) (now : datetime).
Arguments OpAcquire {R}.
Arguments OpRenew {R}.
Arguments OpRelease {R}.

Section History.
Context {R : Type} `{EqDecision R}.

Definition exec (o : op R) (st : store R) : store R :=
  match o with
  | OpAcquire r ow now ttl => snd (acquire r ow now ttl st)
  | OpRenew l now ttl => snd (renew l now ttl st)
  | OpRelease l now => snd (release l now st)
  end.

Inductive trace : store R -> list (op R) -> store R -> Prop :=
  | trace_nil st : trace st [] st
  | trace_cons st o st1 os st2 : exec o st = st1 -> trace st1 os st2 -> trace st (o :: os) st2.

Definition op_time (o : op R) : datetime :=
  match o with OpAcquire _ _ now _ | OpRenew _ now _ | OpRelease _ now => now end.

(** The lease a call presents. *)
Definition presented (o : op R) : option (Lease R) :=
  match o with OpAcquire _ _ _ _ => None | OpRenew l _ _ | OpRelease l _ => Some l end.
End History.

(** ** What each operation does *)

Section Proofs.
Context {R : Type} `{EqDecision R}.
Implicit Types (st : store R) (l : Lease R) (r : R).

(** The fencing counter of a resource: 0 when it was never leased. *)
Definition counter st r : Z := default 0 (d_get r (tokens st)).

(** [l] is the lease on record for its resource and has not expired. *)
Definition holds st l (now : datetime) : Prop :=
  d_get (resource l) (leases st) = Some l /\ dt_instant now < dt_instant (expires_at l).

Definition granted l st : store R :=
  set_leases (d_set (resource l) l (leases st))
    (set_tokens (d_set (resource l) (fencing_token l) (tokens st)) st).

(** The transitions of the store. *)
Inductive step st (o : op R) : store R -> Prop :=
  | step_same : step st o st
  | step_grant l ttl :
      o = OpAcquire (resource l) (owner l) (op_time o) ttl ->
      (forall l0, d_get (resource l) (leases st) = Some l0 -> ~ holds st l0 (op_time o)) ->
      (d_mem (resource l) (tokens st) = true \/ (d_len (tokens st) < capacity st)%Z) ->
      fencing_token l = counter st (resource l) + 1 ->
      is_utc (expires_at l) = true ->
      dt_instant (expires_at l) = dt_instant (op_time o) + ttl ->
      step st o (granted l st)
  | step_renew l l' :
      presented o = Some l -> holds st l (op_time o) ->
      resource l' = resource l -> owner l' = owner l -> fencing_token l' = fencing_token l ->
      is_utc (expires_at l') = true ->
      step st o (set_leases (d_set (resource l) l' (leases st)) st)
  | step_release l :
      presented o = Some l -> holds st l (op_time o) ->
      step st o (set_leases (d_pop (resource l) (leases st)) st).

Lemma not_authoritative_false st l now :
  not_authoritative (d_get (resource l) (leases st)) l now = false <-> holds st l now.
Proof.
  unfold not_authoritative, holds. rewrite orb_false_iff, negb_false_iff, bool_decide_eq_true.
  by rewrite dt_leb_gt.
Qed.

Lemma grant_runs st r o now ttl res st' :
  is_utc now = true -> str_empty o = false ->
  grant r o now ttl st = (res, st') ->
  (exists e, res = Raise e) /\ st' = st \/
  exists l, res = Ok (LeaseAcquired l) /\ st' = granted l st /\ resource l = r /\ owner l = o /\
    fencing_token l = counter st r + 1 /\ is_utc (expires_at l) = true /\
    dt_instant (expires_at l) = dt_instant now + ttl /\
    (d_mem r (tokens st) = true \/ (d_len (tokens st) < capacity st)%Z).
Proof.
  intros Hu Ho Hrun. unfold grant, Lease_new, _utc in Hrun. run Hrun; try by left; eauto.
  right. eexists. split_and!; try done.
  - by apply negb_false_iff.
  - time_facts. done.
  - destruct (d_mem r (tokens st)); [by left|right]. cbn in *. time_facts. lia.
Qed.

Lemma acquire_runs st r o now ttl : step st (OpAcquire r o now ttl) (snd (acquire r o now ttl st)).
Proof.
  destruct (acquire r o now ttl st) as [res st'] eqn:Hrun. cbn.
  unfold acquire, _utc in Hrun. monad_unfold.
  destruct (is_utc now) eqn:Hu; cbn in Hrun; [|simplify_eq; apply step_same].
  destruct (str_empty o) eqn:Ho; cbn in Hrun; [simplify_eq; apply step_same|].
  destruct (ttl <=? 0) eqn:Ht; cbn in Hrun; [simplify_eq; apply step_same|].
  destruct (d_get r (leases st)) as [l0|] eqn:El.
  - destruct (dt_ltb now (expires_at l0)) eqn:Hlt; cbn in Hrun; [simplify_eq; apply step_same|].
    apply grant_runs in Hrun as [[_ ->]|(l & -> & -> & <- & <- & Htok & Hexp & Hi & Hcap)];
      [apply step_same| |done..].
    apply (step_grant _ _ _ ttl); try done. cbn. intros l1 Hl1 [_ Hh]. simplify_eq.
    time_facts. lia.
  - apply grant_runs in Hrun as [[_ ->]|(l & -> & -> & <- & <- & Htok & Hexp & Hi & Hcap)];
      [apply step_same| |done..].
    apply (step_grant _ _ _ ttl); try done. cbn. intros l1 Hl1. congruence.
Qed.

Lemma lease_renew_runs st l now ttl : step st (OpRenew l now ttl) (snd (renew l now ttl st)).
Proof.
  destruct (renew l now ttl st) as [res st'] eqn:Hrun. cbn.
  unfold renew, Lease_new, _utc in Hrun. run Hrun; try apply step_same.
  apply (step_renew _ _ l); try done; [by apply not_authoritative_false|].
  by apply negb_false_iff.
Qed.

Lemma release_runs st l now : step st (OpRelease l now) (snd (release l now st)).
Proof.
  destruct (release l now st) as [res st'] eqn:Hrun. cbn.
  unfold release, _utc in Hrun. run Hrun; try apply step_same.
  apply (step_release _ _ l); [done|]. by apply not_authoritative_false.
Qed.

Lemma lease_exec_step o st : step st o (exec o st).
Proof. destruct o; [apply acquire_runs|apply lease_renew_runs|apply release_runs]. Qed.

(** ** The invariant *)

Record store_inv st : Prop := {
  inv_leases : d_wf (leases st);
  inv_tokens : d_wf (tokens st);
  inv_bounded : (d_len (tokens st) <= capacity st)%Z;
  inv_positive : forall r t, d_get r (tokens st) = Some t -> 0 < t;
  inv_lease : forall r l, d_get r (leases st) = Some l ->
    resource l = r /\ is_utc (expires_at l) = true /\ d_get r (tokens st) = Some (fencing_token l)
}.

Lemma lease_inv_initial cap : 0 < cap -> store_inv (mkStore cap [] []).
Proof. split; cbn; try constructor; try done. unfold d_len. cbn. lia. Qed.

Lemma counter_nonneg st r : store_inv st -> 0 <= counter st r.
Proof.
  intros Hst. unfold counter. destruct (d_get r (tokens st)) eqn:E; cbn; [|lia].
  apply inv_positive in E; [lia|done].
Qed.

Lemma lease_step_inv st o st' : store_inv st -> step st o st' -> store_inv st'.
Proof.
  intros Hst Hstep. pose proof Hst as [Hwl Hwt Hb Hpos Hlease].
  destruct Hstep as [|l ttl _ _ Hcap Htok Hutc _|l l' _ [Hl _] Hr Ho Ht Hu|l _ [Hl _]]; [done|..].
  - pose proof (counter_nonneg st (resource l) Hst). split; cbn; auto with pydict.
    + unfold d_len in *. rewrite d_set_length. destruct (d_mem _ _); [lia|].
      destruct Hcap; [done|lia].
    + intros r t. rewrite d_get_set. case_decide; [|apply Hpos]. intros [= <-]. lia.
    + intros r l1. rewrite !d_get_set. case_decide; [|apply Hlease]. by intros [= <-].
  - apply Hlease in Hl as (_ & _ & Htok). split; cbn; auto with pydict.
    intros r l1. rewrite d_get_set. case_decide; [|apply Hlease]. subst r. intros [= <-].
    by rewrite Hr, Ht.
  - split; cbn; auto with pydict. intros r l1. rewrite d_get_pop by done.
    case_decide; [done|]. apply Hlease.
Qed.

Lemma lease_trace_inv st os st' : trace st os st' -> store_inv st -> store_inv st'.
Proof. induction 1; subst; eauto using lease_step_inv, lease_exec_step. Qed.

(** The fencing counters never decrease. *)
Lemma step_counter st o st' r : store_inv st -> step st o st' -> counter st r <= counter st' r.
Proof.
  intros Hst Hstep. destruct Hstep as [|l ttl _ _ _ Htok| |]; try (unfold counter; cbn; lia).
  unfold counter at 2. cbn. rewrite d_get_set. case_decide; subst; cbn; [lia|].
  unfold counter. lia.
Qed.

Lemma trace_counter st os st' r : trace st os st' -> store_inv st -> counter st r <= counter st' r.
Proof.
  induction 1 as [|st o st1 os st2 <- _ IH]; intros Hst; [lia|].
  pose proof (step_counter _ _ _ r Hst (lease_exec_step o st)).
  specialize (IH (lease_step_inv _ _ _ Hst (lease_exec_step o st))). lia.
Qed.

(** A call that does not present the lease and acts before it expires leaves it alone. *)
Lemma step_holds st o st' l : store_inv st -> step st o st' ->
  holds st l (op_time o) -> presented o <> Some l -> d_get (resource l) (leases st') = Some l.
Proof.
  intros Hst Hstep [Hl Hlt] Hp.
  destruct Hstep as [|l0 ttl _ Hfree _ _ _ _|l0 l' Hp0 [Hl0 _] _ _ _ _|l0 Hp0 [Hl0 _]]; [done|..]; cbn.
  - rewrite d_get_set_ne; [done|]. intros Heq. apply (Hfree l); [by rewrite Heq|by split].
  - rewrite d_get_set_ne; [done|]. intros Heq. rewrite Heq in Hl0. congruence.
  - rewrite d_get_pop_ne; [done|]. intros Heq. rewrite Heq in Hl0. congruence.
Qed.

Lemma trace_holds st os st' l : trace st os st' -> store_inv st ->
  d_get (resource l) (leases st) = Some l ->
  Forall (fun o => dt_instant (op_time o) < dt_instant (expires_at l) /\ presented o <> Some l) os ->
  d_get (resource l) (leases st') = Some l.
Proof.
  induction 1 as [|st o st1 os st2 <- _ IH]; intros Hst Hl Hos; [done|].
  inversion Hos as [|? ? [Ht Hp] Hos']; subst. apply IH; [|eapply step_holds|done];
    eauto using lease_step_inv, lease_exec_step. by split.
Qed.

(** ** Properties *)

(** Fencing tokens of a resource strictly increase over its whole history: a lease
    acquired later, after any sequence of acquisitions, renewals, releases and expiries by
    any owners, carries a strictly greater token than every lease acquired before. *)
Theorem fencing_strictly_increases st r o1 now1 ttl1 l1 st1 os st2 o2 now2 ttl2 l2 st3 :
  store_inv st ->
  acquire r o1 now1 ttl1 st = (Ok (LeaseAcquired l1), st1) ->
  trace st1 os st2 ->
  acquire r o2 now2 ttl2 st2 = (Ok (LeaseAcquired l2), st3) ->
  fencing_token l1 < fencing_token l2.
Proof.
  intros Hst H1 Htrace H2.
  assert (forall st o now ttl l st', acquire r o now ttl st = (Ok (LeaseAcquired l), st') ->
    fencing_token l = counter st r + 1 /\ st' = granted l st /\ resource l = r) as Hacq.
  { clear. intros st o now ttl l st' Hrun. unfold acquire, _utc in Hrun. monad_unfold.
    destruct (is_utc now) eqn:Hu; cbn in Hrun; [|done].
    destruct (str_empty o) eqn:Ho; cbn in Hrun; [done|].
    destruct (ttl <=? 0) eqn:Ht; cbn in Hrun; [done|].
    assert (grant r o now ttl st = (Ok (LeaseAcquired l), st')) as Hg.
    { destruct (d_get r (leases st)); [|done]. by destruct (dt_ltb _ _). }
    apply grant_runs in Hg as [[[? ?] _]|(l' & ? & -> & ? & ? & ? & _)]; by simplify_eq. }
  assert (store_inv st1) as Hst1.
  { pose proof (lease_step_inv _ _ _ Hst (acquire_runs st r o1 now1 ttl1)) as Hi. by rewrite H1 in Hi. }
  apply Hacq in H1 as (_ & -> & Hr). apply Hacq in H2 as (-> & _ & _).
  pose proof (trace_counter _ _ _ r Htrace Hst1) as Hc.
  unfold counter at 1 in Hc. cbn in Hc. rewrite Hr, d_get_set_eq in Hc. cbn in Hc. lia.
Qed.

(** A lease excludes every other owner until it expires: while its holder neither
    renews nor releases it, whatever calls others make before its expiry, the lease stays on
    record and any acquisition of the resource answers [LeaseBusy] with the holder and the
    expiry. *)
Theorem lease_exclusive st r o1 now1 ttl1 l st1 os st2 o2 now2 ttl2 :
  store_inv st ->
  acquire r o1 now1 ttl1 st = (Ok (LeaseAcquired l), st1) ->
  trace st1 os st2 ->
  Forall (fun o => dt_instant (op_time o) < dt_instant (expires_at l) /\ presented o <> Some l) os ->
  is_utc now2 = true -> str_empty o2 = false -> 0 < ttl2 ->
  dt_instant now2 < dt_instant (expires_at l) ->
  acquire r o2 now2 ttl2 st2 = (Ok (LeaseBusy (owner l) (expires_at l)), st2).
Proof.
  intros Hst H1 Htrace Hos Hu Ho Ht Hnow.
  assert (store_inv st1 /\ d_get r (leases st1) = Some l /\ resource l = r) as (Hst1 & Hl & Hr).
  { pose proof (lease_step_inv _ _ _ Hst (acquire_runs st r o1 now1 ttl1)) as Hi. rewrite H1 in Hi.
    split; [done|]. unfold acquire, grant, Lease_new, _utc in H1. run H1; by rewrite d_get_set_eq. }
  assert (d_get r (leases st2) = Some l) as Hl2.
  { rewrite <- Hr in *. by eapply trace_holds. }
  apply Z.leb_gt in Ht. apply dt_ltb_lt in Hnow.
  unfold acquire, _utc. by exec_guards.
Qed.

(** In every history of a new lease store the records stay consistent: a lease is filed
    under its resource with the resource's current fencing token, tokens are positive, and
    the number of resources ever leased stays within the capacity. *)
Theorem lease_history_consistent cap os st :
  0 < cap -> trace (mkStore cap [] []) os st -> store_inv st.
Proof. intros Hcap Htrace. eapply lease_trace_inv; [done|]. by apply lease_inv_initial. Qed.
End Proofs.

(** ** Fenced commits *)

Section FencedProofs.
Context {W R A : Type} `{EqDecision R}.
Variable locked_authority :
  R -> (option LeaseAuthority -> M exn W (FencedResult A)) -> M exn W (FencedResult A).
Variable clock : M exn W datetime.
(** The authority on record in the consumer's state. *)
Variable recorded : W -> R -> option LeaseAuthority.
(** The consumer's lock runs the callback once, on the recorded authority. *)
Hypothesis locks : forall r f w, locked_authority r f w = f (recorded w r) w.

(** [a] authorises the holder of [l] at [now]. *)
Definition authorises (l : Lease R) (now : datetime) (a : LeaseAuthority) : Prop :=
  authority_token a = fencing_token l /\ authority_owner a = owner l /\
  dt_instant now < dt_instant (authority_expires_at a).

(** A fenced commit runs the protected mutation, in the same locked state, exactly when
    the recorded authority has the lease's token and owner and has not expired; otherwise it
    reports staleness and leaves the state as it is. *)
Theorem fenced_commit_guards l mutation w now :
  clock w = (Ok now, w) ->
  (forall a, recorded w (resource l) = Some a -> authorises l now a ->
    commit locked_authority clock l mutation w = (let! v := mutation in ret (FencedCommitted v)) w) /\
  ((forall a, recorded w (resource l) = Some a -> ~ authorises l now a) ->
    commit locked_authority clock l mutation w =
      (Ok (FencedStale "lease is expired or no longer authoritative"), w)).
Proof.
  intros Hclock. unfold commit, compare_authority, authorises. rewrite locks. split.
  - intros a -> (-> & -> & Hx). rewrite Z.eqb_refl, bool_decide_true by done. cbn.
    rewrite (bind_run _ _ _ _ _ Hclock). by rewrite (proj2 (dt_leb_gt _ _)).
  - intros Hno. destruct (recorded w (resource l)) as [a|]; [|done].
    specialize (Hno a eq_refl). destruct (authority_token a =? fencing_token l)%Z eqn:Ht; [|done].
    case_bool_decide; [|done]. cbn. rewrite (bind_run _ _ _ _ _ Hclock).
    destruct (dt_leb (authority_expires_at a) now) eqn:Hx; [done|].
    time_facts. contradict Hno. by split_and!.
Qed.
End FencedProofs.

(** ** The reference store passes the harness *)

(** [InMemoryLeaseStore] passes [LeaseStoreHarness.exercise] at every start instant
    whose lease periods fit the calendar: exclusion, renewal, staleness of the pre-renewal
    snapshot, release, and an advancing token on takeover. *)
Theorem lease_harness_passes w :
  0 <= w -> w + minutes 2 <= dt_max ->
  fst (exercise (utc w) (mkStore 10000 [] [])) = Ok tt.
Proof.
  intros Hw Hmax. unfold exercise.
  repeat sym_bind ltac:(cbn [port_acquire port_renew_lease port_release port_authority InMemory_LeaseStore];
    unfold acquire, renew, release, authority, grant, not_authoritative, lease_expect, Lease_new, _utc, d_mem).
  unfold lease_expect. sym. reflexivity.
Qed.

(** ** Concrete runs *)

Section Witnesses.
Definition demo_empty : store Z := mkStore 4 [] [].
Definition demo_lease : Lease Z := mkLease 1 "one" 1 (utc 150).
Definition demo_leased : store Z := exec (OpAcquire 1 "one" (utc 100) 50) demo_empty.

Lemma lease_demo_empty_inv : store_inv demo_empty.
Proof. by apply lease_inv_initial. Qed.

(** The first holder releases early; the next owner gets a greater token. *)
Lemma fencing_strictly_increases_witness : 1 < 2.
Proof.
  apply (fencing_strictly_increases demo_empty 1 "one" (utc 100) 50 demo_lease demo_leased
    [OpRelease demo_lease (utc 120)] (exec (OpRelease demo_lease (utc 120)) demo_leased)
    "two" (utc 130) 50 (mkLease 1 "two" 2 (utc 180))
    (exec (OpAcquire 1 "two" (utc 130) 50) (exec (OpRelease demo_lease (utc 120)) demo_leased)));
    [apply lease_demo_empty_inv|reflexivity|eapply trace_cons; [reflexivity|apply trace_nil]|reflexivity].
Defined.

Lemma lease_exclusive_witness :
  acquire 1 "two" (utc 149) 50 (exec (OpAcquire 2 "two" (utc 120) 10) demo_leased) =
    (Ok (LeaseBusy "one" (utc 150)), exec (OpAcquire 2 "two" (utc 120) 10) demo_leased).
Proof.
  apply (lease_exclusive demo_empty 1 "one" (utc 100) 50 demo_lease demo_leased
    [OpAcquire 2 "two" (utc 120) 10]);
    [apply lease_demo_empty_inv|reflexivity|eapply trace_cons; [reflexivity|apply trace_nil]
    |repeat constructor; discriminate|reflexivity|reflexivity|lia|vm_compute; reflexivity].
Defined.

Lemma lease_history_consistent_witness :
  0 < 4 /\ store_inv (exec (OpRelease demo_lease (utc 120)) demo_leased).
Proof.
  split; [lia|].
  apply (lease_history_consistent 4 [OpAcquire 1 "one" (utc 100) 50; OpRelease demo_lease (utc 120)]);
    [lia|].
  eapply trace_cons; [reflexivity|]. eapply trace_cons; [reflexivity|]. apply trace_nil.
Defined.

(** A consumer whose authority row is its whole state, next to a counter. *)
Lemma fenced_commit_guards_witness :
  let locked := fun (r : Z) (f : option LeaseAuthority -> M exn (option LeaseAuthority * Z) (FencedResult Z)) w =>
    f (fst w) w in
  let bump := fun w : option LeaseAuthority * Z => (Ok (snd w), (fst w, snd w + 1)) in
  let now := fun w : option LeaseAuthority * Z => (Ok (utc 120), w) in
  commit locked now demo_lease bump (Some (mkAuthority "one" 1 (utc 150)), 7) =
    (Ok (FencedCommitted 7), (Some (mkAuthority "one" 1 (utc 150)), 8)) /\
  commit locked now demo_lease bump (Some (mkAuthority "two" 2 (utc 180)), 7) =
    (Ok (FencedStale "lease is expired or no longer authoritative"),
      (Some (mkAuthority "two" 2 (utc 180)), 7)).
Proof.
  intros locked bump now. split.
  - etransitivity; [|reflexivity].
    refine (proj1 (fenced_commit_guards locked now (fun w _ => fst w) (fun _ _ _ => eq_refl)
      demo_lease bump (Some (mkAuthority "one" 1 (utc 150)), 7) (utc 120) eq_refl) (mkAuthority "one" 1 (utc 150)) eq_refl _).
    split_and!; reflexivity.
  - refine (proj2 (fenced_commit_guards locked now (fun w _ => fst w) (fun _ _ _ => eq_refl)
      demo_lease bump (Some (mkAuthority "two" 2 (utc 180)), 7) (utc 120) eq_refl) _).
    intros a [= <-] (? & _). discriminate.
Defined.

Lemma lease_harness_passes_witness : fst (exercise (utc 1000) (mkStore 10000 [] [])) = Ok tt.
Proof. apply (lease_harness_passes 1000); vm_compute; congruence. Defined.
End Witnesses.
