(* ===== verification/Inbox.v ===== *)
(** * Inbox de-duplication ([src/pytitect/inbox.py])

    A message identity is a scope with a message ID. The reference store keeps one entry per
    identity: a reservation with its token and expiry, or a completed delivery. *)
From Stdlib Require Import ZArith Lia.
From stdpp Require Import base list gmap.
From S2P Require Import Prelude Core Maintenance.

(** ** Data *)

Record InboxScope := mkInboxScope {
  inbox_namespace : pystr;
  source : pystr;
  consumer : pystr
}.

#[export] Instance InboxScope_eq_dec : EqDecision InboxScope.
Proof. solve_decision. Defined.

Definition InboxScope_new {S} (n s c : pystr) : M exn S InboxScope :=
  raise_if (str_empty n || str_empty s || str_empty c)
    (ValueError "inbox scope parts must not be empty") ;;;
  ret (mkInboxScope n s c).

Definition _utc {S} (value : datetime) : M exn S unit :=
  check_utc value "inbox timestamps must be timezone-aware UTC".

Record InboxEnvelope (P : Type) := mkInboxEnvelope {
  envelope_scope : InboxScope;
  envelope_message_id : OpaqueId;
  envelope_payload : P;
  received_at : datetime
}.
Arguments mkInboxEnvelope {P}.

Definition InboxEnvelope_new {P S} (scope : InboxScope) (message_id : OpaqueId) (payload : P)
    (received_at : datetime) : M exn S (InboxEnvelope P) :=
  _utc received_at ;;;
  ret (mkInboxEnvelope scope message_id payload received_at).

Inductive InboxDecision :=
  | InboxAccepted (token : pystr)
  | InboxDuplicate (completed_at : datetime)
  | InboxInProgress (retry_after : datetime)
  | InboxCapacityExceeded (capacity : Z).

Class InboxStore (W : Type) := {
  port_begin : InboxScope -> OpaqueId -> pystr -> datetime -> timedelta -> M exn W InboxDecision;
  port_inbox_complete : InboxScope -> OpaqueId -> pystr -> datetime -> M exn W bool;
  port_inbox_abandon : InboxScope -> OpaqueId -> pystr -> M exn W bool
}.

(** ** The in-memory store *)

(** [_InboxEntry]. *)
Record InboxEntry := mkInboxEntry {
  entry_token : pystr;
  entry_expires_at : datetime;
  entry_completed_at : option datetime
}.

Abbreviation inbox_identity := (InboxScope * OpaqueId)%type.

Record store := mkStore {
  capacity : Z;
  entries : dict inbox_identity InboxEntry
}.

Definition set_entries (d : dict inbox_identity InboxEntry) (st : store) : store :=
  mkStore (capacity st) d.

Definition InMemoryInboxStore_new {S} (cap : Z) : M exn S store :=
  raise_if (cap <=? 0)%Z (ValueError "capacity must be positive") ;;;
  ret (mkStore cap []).

(** The end of [begin]: a new reservation if there is room. *)
Definition add_reservation (identity : inbox_identity) (token : pystr) (now : datetime) (ttl : timedelta) :
    M exn store InboxDecision :=
  let! st := get in
  if (capacity st <=? d_len (entries st))%Z then ret (InboxCapacityExceeded (capacity st))
  else
    let! until := lift (dt_add now ttl) in
    modify (fun st => set_entries (d_set identity (mkInboxEntry token until None) (entries st)) st) ;;;
    ret (InboxAccepted token).

Definition begin (scope : InboxScope) (message_id : OpaqueId) (token : pystr) (now : datetime)
    (ttl : timedelta) : M exn store InboxDecision :=
  _utc now ;;;
  raise_if (str_empty token || (ttl <=? 0)%Z) (ValueError "token and a positive ttl are required") ;;;
  let identity := (scope, message_id) in
  let! entry := gets (fun st => d_get identity (entries st)) in
  match entry with
  | Some e =>
      match entry_completed_at e with
      | Some completed_at => ret (InboxDuplicate completed_at)
      | None =>
          if dt_ltb now (entry_expires_at e) then ret (InboxInProgress (entry_expires_at e))
          else
            modify (fun st => set_entries (d_pop identity (entries st)) st) ;;;
            add_reservation identity token now ttl
      end
  | None => add_reservation identity token now ttl
  end.

Definition complete (scope : InboxScope) (message_id : OpaqueId) (token : pystr) (now : datetime) :
    M exn store bool :=
  _utc now ;;;
  let! entry := gets (fun st => d_get (scope, message_id) (entries st)) in
  match entry with
  | None => ret false
  | Some e =>
      if negb (bool_decide (entry_token e = token)) || dt_leb (entry_expires_at e) now then ret false
      else
        modify (fun st => set_entries (d_set (scope, message_id)
          (mkInboxEntry (entry_token e) (entry_expires_at e) (Some now)) (entries st)) st) ;;;
        ret true
  end.

Definition abandon (scope : InboxScope) (message_id : OpaqueId) (token : pystr) :
    M exn store bool :=
  let! entry := gets (fun st => d_get (scope, message_id) (entries st)) in
  match entry with
  | None => ret false
  | Some e =>
      if negb (bool_decide (entry_token e = token)) || bool_decide (is_Some (entry_completed_at e))
      then ret false
      else
        modify (fun st => set_entries (d_pop (scope, message_id) (entries st)) st) ;;;
        ret true
  end.

(** The instant an entry is retained from: completion, or expiry if it never completed. *)
Definition entry_instant (e : InboxEntry) : datetime :=
  default (entry_expires_at e) (entry_completed_at e).

Definition purge_key (p : inbox_identity * InboxEntry) : Z * (pystr * (pystr * (pystr * pystr))) :=
  (dt_instant (entry_instant p.2),
    (inbox_namespace p.1.1, (source p.1.1, (consumer p.1.1, opaque_value p.1.2)))).

Definition purge_compare :=
  pair_compare Z.compare (pair_compare str_compare (pair_compare str_compare
    (pair_compare str_compare str_compare))).

Definition purge_selection (plan : MaintenancePlan) (st : store) : list (inbox_identity * InboxEntry) :=
  plan_selection purge_compare purge_key plan
    (filter (fun p => dt_leb (entry_instant p.2) (cutoff plan) = true) (entries st)).

Definition purge (plan : MaintenancePlan) : M exn store MaintenanceSummary :=
  let! chosen := gets (purge_selection plan) in
  (if dry_run plan then ret tt
   else modify (fun st => set_entries (d_pop_all chosen.*1 (entries st)) st)) ;;;
  plan_summary plan chosen.

#[export] Instance InMemory_InboxStore : InboxStore store := {
  port_begin := begin;
  port_inbox_complete := complete;
  port_inbox_abandon := abandon
}.

(** ** The conformance harness *)

Section Harness.
Context {W : Type} `{!InboxStore W}.

Definition inbox_expect (condition : bool) (message : pystr) : M exn W unit :=
  raise_if (negb condition) (AssertionError message).

Definition is_accepted (d : InboxDecision) : bool :=
  match d with InboxAccepted _ => true | _ => false end.

Definition exercise (now : datetime) : M exn W unit :=
  let ttl := minutes 1 in
  let! message_id := OpaqueId_new "message" in
  let! scope := InboxScope_new "test" "source" "consumer-a" in
  let! other_scope := InboxScope_new "test" "source" "consumer-b" in
  let! accepted := port_begin scope message_id "one" now ttl in
  inbox_expect (is_accepted accepted) "a new scoped inbox identity must be accepted" ;;;
  let! d1 := port_begin scope message_id "two" now ttl in
  inbox_expect (match d1 with InboxInProgress _ => true | _ => false end)
    "an active scoped inbox identity must be in progress" ;;;
  let! d2 := port_begin other_scope message_id "other" now ttl in
  inbox_expect (is_accepted d2) "the same message ID must be isolated by inbox scope" ;;;
  let! c1 := port_inbox_complete scope message_id "wrong" now in
  inbox_expect (negb c1) "a non-authoritative inbox token must not complete" ;;;
  let! c2 := port_inbox_complete scope message_id "one" now in
  inbox_expect c2 "the authoritative inbox token must complete" ;;;
  let! d3 := port_begin scope message_id "three" now ttl in
  inbox_expect (match d3 with InboxDuplicate _ => true | _ => false end)
    "a completed scoped inbox identity must remain duplicate" ;;;
  let! a1 := port_inbox_abandon scope message_id "one" in
  inbox_expect (negb a1) "a completed inbox identity must not be abandoned" ;;;
  let! expiring := OpaqueId_new "expiring" in
  let! first := port_begin scope expiring "old" now ttl in
  inbox_expect (is_accepted first) "a second inbox identity must be accepted" ;;;
  let! later := lift (dt_add now ttl) in
  let! resumed := port_begin scope expiring "new" later ttl in
  inbox_expect (is_accepted resumed) "an expired inbox reservation must be replaceable" ;;;
  let! a2 := port_inbox_abandon scope expiring "old" in
  inbox_expect (negb a2) "a replaced inbox token must be stale" ;;;
  let! a3 := port_inbox_abandon scope expiring "new" in
  inbox_expect a3 "the current inbox reservation must be abandonable".
End Harness.

(** ** Histories *)

Inductive op :=
  | OpBegin (scope : InboxScope) (message_id : OpaqueId) (token : pystr) (now : datetime)
      (ttl : timedelta)
  | OpComplete (scope : InboxScope) (message_id : OpaqueId) (token : pystr) (now : datetime)
  | OpAbandon (scope : InboxScope) (message_id : OpaqueId) (token : pystr)
  | OpPurge (plan : MaintenancePlan).

Definition exec (o : op) (st : store) : store :=
  match o with
  | OpBegin s m t now ttl => snd (begin s m t now ttl st)
  | OpComplete s m t now => snd (complete s m t now st)
  | OpAbandon s m t => snd (abandon s m t st)
  | OpPurge plan => snd (purge plan st)
  end.

Definition exec_all (os : list op) (st : store) : store := fold_left (fun st o => exec o st) os st.

Definition is_purge (o : op) : bool := match o with OpPurge _ => true | _ => false end.

(** ** What each operation does *)

Record store_inv (st : store) : Prop := {
  inv_entries : d_wf (entries st);
  inv_bounded : (d_len (entries st) <= capacity st)%Z
}.

(** The transitions of the store: identities are added, replaced, completed or removed. *)
Inductive step (st : store) (o : op) : store -> Prop :=
  | step_same : step st o st
  | step_drop id e token now ttl :
      o = OpBegin id.1 id.2 token now ttl ->
      d_get id (entries st) = Some e -> entry_completed_at e = None ->
      dt_instant (entry_expires_at e) <= dt_instant now ->
      step st o (set_entries (d_pop id (entries st)) st)
  | step_accept id token now ttl until :
      o = OpBegin id.1 id.2 token now ttl ->
      (forall e, d_get id (entries st) = Some e ->
        entry_completed_at e = None /\ dt_instant (entry_expires_at e) <= dt_instant now) ->
      (d_get id (entries st) = None -> (d_len (entries st) < capacity st)%Z) ->
      dt_instant until = dt_instant now + ttl ->
      step st o (set_entries (d_set id (mkInboxEntry token until None) (d_pop id (entries st))) st)
  | step_complete id e now :
      o = OpComplete id.1 id.2 (entry_token e) now -> d_get id (entries st) = Some e ->
      dt_instant now < dt_instant (entry_expires_at e) ->
      step st o (set_entries
        (d_set id (mkInboxEntry (entry_token e) (entry_expires_at e) (Some now)) (entries st)) st)
  | step_abandon id e :
      o = OpAbandon id.1 id.2 (entry_token e) -> d_get id (entries st) = Some e ->
      entry_completed_at e = None ->
      step st o (set_entries (d_pop id (entries st)) st)
  | step_purge ids :
      is_purge o = true -> step st o (set_entries (d_pop_all ids (entries st)) st).

Lemma set_entries_id st : set_entries (entries st) st = st.
Proof. by destruct st. Qed.

Lemma inbox_exec_step o st : store_inv st -> step st o (exec o st).
Proof.
  intros [Hwf Hb]. destruct o as [s m t now ttl|s m t now|s m t|plan]; cbn [exec].
  - destruct (begin s m t now ttl st) as [r st'] eqn:Hrun. cbn.
    unfold begin, add_reservation, _utc in Hrun. run Hrun; try apply step_same; time_facts.
    + eapply (step_drop _ _ (s, m)); eauto.
    + apply (step_accept st _ (s, m) t now ttl a); [done| |congruence|done].
      intros e' ?. by simplify_eq.
    + eapply (step_drop _ _ (s, m)); eauto.
    + rewrite <- (d_pop_fresh (s, m) (entries st)) by done.
      apply (step_accept st _ (s, m) t now ttl a); [done| |done|done]. intros e' ?. congruence.
  - destruct (complete s m t now st) as [r st'] eqn:Hrun. cbn. unfold complete, _utc in Hrun.
    run Hrun; try apply step_same; time_facts. subst t. by eapply (step_complete _ _ (s, m)).
  - destruct (abandon s m t st) as [r st'] eqn:Hrun. cbn. unfold abandon in Hrun.
    run Hrun; try apply step_same; time_facts. subst t.
    eapply (step_abandon _ _ (s, m)); [done..|]. by apply eq_None_not_Some.
  - unfold purge. monad_unfold. cbn. destruct (dry_run plan); cbn; rewrite plan_summary_ok; cbn.
    + apply step_same.
    + by apply step_purge.
Qed.

Lemma inbox_step_inv st o st' : store_inv st -> step st o st' -> store_inv st'.
Proof.
  intros Hst Hstep. pose proof Hst as [Hwf Hb].
  destruct Hstep as [|id e ? ? ? _ He|id tok now ttl until _ Hold Hnew _|id e now _ He|id e _ He|ids _];
    [done|..]; (split; cbn; auto with pydict); unfold d_len in *.
  - rewrite d_pop_length. lia.
  - rewrite d_set_length, d_pop_length.
    rewrite (proj2 (d_mem_false id (d_pop id (entries st)))) by (rewrite d_get_pop by done; by case_decide).
    destruct (d_get id (entries st)) as [e|] eqn:He.
    + rewrite (proj2 (d_mem_true _ _)) by eauto. destruct (entries st); [done|cbn in *; lia].
    + specialize (Hnew eq_refl). destruct (d_mem _ _); lia.
  - rewrite d_set_length, (proj2 (d_mem_true _ _)) by eauto. lia.
  - rewrite d_pop_length. lia.
  - pose proof (d_pop_all_length ids (entries st)). lia.
Qed.

Lemma inbox_exec_all_inv os st : store_inv st -> store_inv (exec_all os st).
Proof.
  revert st. induction os as [|o os IH]; intros st Hst; cbn; [done|].
  apply IH. eapply inbox_step_inv; [done|by apply inbox_exec_step].
Qed.

(** A completed entry stays completed through everything but a purge. *)
Lemma step_completed st o st' id e : store_inv st -> step st o st' -> is_purge o = false ->
  d_get id (entries st) = Some e -> is_Some (entry_completed_at e) ->
  exists e', d_get id (entries st') = Some e' /\ is_Some (entry_completed_at e').
Proof.
  intros [Hwf _] Hstep Ho He [c Hc].
  destruct Hstep as [|id0 e0 ? ? ? _ He0 Hn|id0 tok now ttl until _ Hold _ _|id0 e0 now _ He0|id0 e0 _ He0 Hn|ids Hp];
    cbn; [by eauto|..|congruence].
  - rewrite d_get_pop by done. case_decide; [simplify_eq|eauto].
  - rewrite d_get_set. case_decide; subst; [by apply Hold in He as [? _]; congruence|].
    rewrite d_get_pop by done. case_decide; [done|eauto].
  - rewrite d_get_set. case_decide; eauto.
  - rewrite d_get_pop by done. case_decide; [simplify_eq|eauto].
Qed.

Lemma exec_all_completed os st id e : store_inv st -> Forall (fun o => is_purge o = false) os ->
  d_get id (entries st) = Some e -> is_Some (entry_completed_at e) ->
  exists e', d_get id (entries (exec_all os st)) = Some e' /\ is_Some (entry_completed_at e').
Proof.
  revert st e. induction os as [|o os IH]; intros st e Hst Hos He Hc; cbn; [by eauto|].
  inversion Hos; subst. edestruct step_completed as (e' & He' & Hc'); [done|by apply inbox_exec_step|done..|].
  eapply IH; eauto. eapply inbox_step_inv; [done|by apply inbox_exec_step].
Qed.

(** An unexpired reservation stays through the calls that do not present its token. *)
Definition other_token (id : inbox_identity) (t : pystr) (o : op) : Prop :=
  match o with
  | OpBegin _ _ _ _ _ => True
  | OpComplete s m t' _ | OpAbandon s m t' => (s, m) = id -> t' <> t
  | OpPurge _ => False
  end.

Definition begins_before (x : Z) (o : op) : Prop :=
  match o with OpBegin _ _ _ now _ => dt_instant now < x | _ => True end.

Lemma step_reserved st o st' id e : store_inv st -> step st o st' ->
  d_get id (entries st) = Some e -> entry_completed_at e = None ->
  begins_before (dt_instant (entry_expires_at e)) o -> other_token id (entry_token e) o ->
  d_get id (entries st') = Some e.
Proof.
  intros [Hwf _] Hstep He Hc Ht Ho.
  destruct Hstep as [|[s m] e0 ? now ? -> He0 _ Hx|[s m] tok now ttl until -> Hold _ _|[s m] e0 now -> He0|[s m] e0 -> He0 Hn|ids Hp];
    cbn in *; [done|..|by destruct o].
  - rewrite d_get_pop by done. case_decide; [simplify_eq; lia|done].
  - rewrite d_get_set. case_decide; subst; [apply Hold in He as [_ ?]; lia|].
    rewrite d_get_pop by done. by rewrite decide_False.
  - rewrite d_get_set. case_decide; [simplify_eq; by destruct Ho|done].
  - rewrite d_get_pop by done. case_decide; [simplify_eq; by destruct Ho|done].
Qed.

Lemma exec_all_reserved os st id e : store_inv st ->
  d_get id (entries st) = Some e -> entry_completed_at e = None ->
  Forall (fun o => begins_before (dt_instant (entry_expires_at e)) o /\ other_token id (entry_token e) o) os ->
  d_get id (entries (exec_all os st)) = Some e.
Proof.
  revert st. induction os as [|o os IH]; intros st Hst He Hc Hos; cbn; [done|].
  inversion Hos as [|? ? [? ?] ?]; subst. apply IH; eauto using inbox_step_inv, inbox_exec_step, step_reserved.
Qed.

(** ** Properties *)

(** A message is processed at most once: after a delivery completes, whatever calls
    follow except a purge, and at whatever instants, every delivery of the same message ID
    in the same scope is reported as a duplicate and none is accepted again. *)
Theorem inbox_no_second_delivery st s m token now st1 os token2 now2 ttl2 :
  store_inv st ->
  complete s m token now st = (Ok true, st1) ->
  Forall (fun o => is_purge o = false) os ->
  is_utc now2 = true -> str_empty token2 = false -> 0 < ttl2 ->
  exists completed_at,
    begin s m token2 now2 ttl2 (exec_all os st1) =
      (Ok (InboxDuplicate completed_at), exec_all os st1).
Proof.
  intros Hst Hrun Hos Hu Ht Hp.
  assert (store_inv st1) as Hst1.
  { pose proof (inbox_step_inv _ _ _ Hst (inbox_exec_step (OpComplete s m token now) st Hst)) as Hi.
    cbn in Hi. by rewrite Hrun in Hi. }
  assert (exists e, d_get (s, m) (entries st1) = Some e /\ is_Some (entry_completed_at e)) as (e & He & Hc).
  { unfold complete, _utc in Hrun. run Hrun. rewrite d_get_set_eq. eauto. }
  destruct (exec_all_completed os st1 (s, m) e Hst1 Hos He Hc) as (e' & He' & [c Hc']).
  exists c. apply Z.leb_gt in Hp. unfold begin, _utc. exec_guards. done.
Qed.

(** An accepted delivery is exclusive until it expires: while the holder's token is not
    presented and no purge runs, every other delivery of the message started before the
    expiry is answered [InboxInProgress], and the holder's own completion succeeds. *)
Theorem inbox_delivery_exclusive st s m token now ttl st1 os token2 now2 ttl2 :
  store_inv st ->
  begin s m token now ttl st = (Ok (InboxAccepted token), st1) ->
  Forall (fun o => begins_before (dt_instant now + ttl) o /\ other_token (s, m) token o) os ->
  is_utc now2 = true -> str_empty token2 = false -> 0 < ttl2 ->
  dt_instant now2 < dt_instant now + ttl ->
  (exists until, dt_instant until = dt_instant now + ttl /\
    begin s m token2 now2 ttl2 (exec_all os st1) = (Ok (InboxInProgress until), exec_all os st1)) /\
  fst (complete s m token now2 (exec_all os st1)) = Ok true.
Proof.
  intros Hst Hrun Hos Hu Ht Hp Hnow.
  assert (store_inv st1) as Hst1.
  { pose proof (inbox_step_inv _ _ _ Hst (inbox_exec_step (OpBegin s m token now ttl) st Hst)) as Hi.
    cbn in Hi. by rewrite Hrun in Hi. }
  assert (exists until, d_get (s, m) (entries st1) = Some (mkInboxEntry token until None) /\
    dt_instant until = dt_instant now + ttl) as (until & He & Hx).
  { unfold begin, add_reservation, _utc in Hrun. run Hrun; time_facts; eexists;
      (split; [apply d_get_set_eq|done]). }
  apply (exec_all_reserved os) in He as He2; [|done|done|cbn; by rewrite Hx].
  assert (dt_ltb now2 until = true) as Hlt by (apply dt_ltb_lt; lia).
  assert (dt_leb until now2 = false) as Hle by (apply dt_leb_gt; lia).
  apply Z.leb_gt in Hp. split.
  - exists until. split; [done|]. unfold begin, _utc. by exec_guards.
  - unfold complete, _utc. exec_guards. rewrite bool_decide_true by done. by exec_guards.
Qed.

(** [InMemoryInboxStore] passes [InboxStoreHarness.exercise] at every start instant whose
    reservation periods fit the calendar. *)
Theorem inbox_harness_passes w :
  0 <= w -> w + minutes 2 <= dt_max ->
  fst (exercise (utc w) (mkStore 10000 [])) = Ok tt.
Proof.
  intros Hw Hmax. unfold exercise.
  do 3 (erewrite bind_run; [|vm_compute; reflexivity]; cbv beta).
  repeat first
    [sym_bind ltac:(cbn [port_begin port_inbox_complete port_inbox_abandon InMemory_InboxStore];
       unfold begin, complete, abandon, add_reservation, inbox_expect, _utc)
    |erewrite bind_run; [|vm_compute; reflexivity]; cbv beta].
  unfold inbox_expect. sym. reflexivity.
Qed.

(** A completed delivery can be completed again before its reservation expires; the second
    completion moves [completed_at]. *)
Lemma inbox_complete_repeats st s m token now st1 now2 :
  complete s m token now st = (Ok true, st1) -> is_utc now2 = true ->
  (forall e, d_get (s, m) (entries st) = Some e -> dt_instant now2 < dt_instant (entry_expires_at e)) ->
  fst (complete s m token now2 st1) = Ok true.
Proof.
  intros Hrun Hu Hx. unfold complete, _utc in Hrun. run Hrun. time_facts.
  specialize (Hx _ eq_refl).
  unfold complete, _utc. monad_unfold. rewrite Hu. cbn. rewrite d_get_set_eq. cbn.
  rewrite bool_decide_true by done. by rewrite (proj2 (dt_leb_gt _ _)).
Qed.

(** ** Concrete runs *)

Definition demo_scope : InboxScope := mkInboxScope "ns" "src" "c".
Definition demo_id : OpaqueId := mkOpaqueId "m".
Definition demo_empty : store := mkStore 3 [].
Definition demo_begin : op := OpBegin demo_scope demo_id "t" (utc 100) 50.
Definition demo_held : store := exec demo_begin demo_empty.
Definition demo_done : store := exec (OpComplete demo_scope demo_id "t" (utc 120)) demo_held.

Lemma inbox_demo_empty_inv : store_inv demo_empty.
Proof. split; [constructor|vm_compute; congruence]. Qed.

Lemma inbox_demo_held_inv : store_inv demo_held.
Proof. eapply inbox_step_inv; [apply inbox_demo_empty_inv|apply inbox_exec_step, inbox_demo_empty_inv]. Qed.

Lemma inbox_no_second_delivery_witness :
  exists completed_at,
    begin demo_scope demo_id "u" (utc 9999) 5 (exec (OpAbandon demo_scope demo_id "t") demo_done) =
      (Ok (InboxDuplicate completed_at), exec (OpAbandon demo_scope demo_id "t") demo_done).
Proof.
  apply (inbox_no_second_delivery demo_held demo_scope demo_id "t" (utc 120) demo_done
    [OpAbandon demo_scope demo_id "t"] "u" (utc 9999) 5);
    [apply inbox_demo_held_inv|reflexivity|repeat constructor|reflexivity|reflexivity|lia].
Defined.

Lemma inbox_delivery_exclusive_witness :
  (exists until, dt_instant until = 150 /\
    begin demo_scope demo_id "u" (utc 149) 5 demo_held = (Ok (InboxInProgress until), demo_held)) /\
  fst (complete demo_scope demo_id "t" (utc 149) demo_held) = Ok true.
Proof.
  apply (inbox_delivery_exclusive demo_empty demo_scope demo_id "t" (utc 100) 50 demo_held [] "u" (utc 149) 5);
    [apply inbox_demo_empty_inv|reflexivity|constructor|reflexivity|reflexivity|lia|vm_compute; reflexivity].
Defined.

Lemma inbox_harness_passes_witness : fst (exercise (utc 1000) (mkStore 10000 [])) = Ok tt.
Proof. apply (inbox_harness_passes 1000); vm_compute; congruence. Defined.
