(* ===== verification/UnitOfWork.v ===== *)
(** * Units of work ([src/pytitect/aio/uow.py])

    A unit of work reserves and completes inbox messages and saves decisions, all of which
    become durable together or not at all. The process-local one works on a copy of the inbox
    and holds the factory's lock from [__aenter__] to [__aexit__], so its transactions follow
    one another. *)
From Stdlib Require Import ZArith Lia.
From stdpp Require Import base list gmap.
From S2P Require Import Prelude Core Inbox.

(** ** The port *)

(** [V] is what the factory keeps, [T] the state of one unit, [D] the decisions. *)
Class AsyncUnitOfWork (V T D : Type) := {
  unit_of_work : V -> T;
  aenter : M exn (V * T) unit;
  aexit : M exn (V * T) unit;
  reserve_message : InboxScope -> OpaqueId -> pystr -> datetime -> timedelta -> M exn (V * T) InboxDecision;
  complete_message : InboxScope -> OpaqueId -> pystr -> datetime -> M exn (V * T) bool;
  save_decision : D -> M exn (V * T) unit;
  commit : M exn (V * T) unit;
  rollback : M exn (V * T) unit
}.

(** ** The process-local unit of work *)

(** [InMemoryAsyncUnitOfWorkFactory]. *)
Record factory (D : Type) := mkFactory { factory_capacity : Z; target_inbox : store; decisions : list D }.
Arguments mkFactory {D}.
Arguments factory_capacity {D}.
Arguments target_inbox {D}.
Arguments decisions {D}.

(** [_InMemoryAsyncUnitOfWork], but what it shares with its factory. *)
Record unit_state (D : Type) := mkUnit {
  unit_inbox : store;
  staged : list D;
  reservations : list (InboxScope * OpaqueId * pystr);
  completions : list (InboxScope * OpaqueId * pystr * datetime);
  entered : bool;
  finished : bool
}.
Arguments mkUnit {D}.
Arguments unit_inbox {D}.
Arguments staged {D}.
Arguments reservations {D}.
Arguments completions {D}.
Arguments entered {D}.
Arguments finished {D}.

Section InMemory.
Context {D : Type}.
Implicit Types (f : factory D) (u : unit_state D).

Abbreviation S := (factory D * unit_state D)%type.

Definition Factory_new {St} (cap : Z) : M exn St (factory D) :=
  raise_if (cap <=? 0)%Z (ValueError "unit-of-work capacity must be a positive integer") ;;;
  let! inbox := InMemoryInboxStore_new cap in
  ret (mkFactory cap inbox []).

(** The call of the factory. *)
Definition unit_new f : unit_state D := mkUnit (mkStore (factory_capacity f) []) [] [] [] false false.

Definition set_inbox (st : store) u : unit_state D :=
  mkUnit st (staged u) (reservations u) (completions u) (entered u) (finished u).
Definition inbox_lens : lens S store := Lens (fun s => unit_inbox (snd s)) (fun st s => (fst s, set_inbox st (snd s))).
Definition modify_unit (g : unit_state D -> unit_state D) : M exn S unit := modify (fun s => (fst s, g (snd s))).

Definition uow_aenter : M exn S unit :=
  let! s := get in
  raise_if (entered (snd s)) (RuntimeError "unit of work is single-use") ;;;
  modify_unit (fun u => mkUnit (set_entries (entries (target_inbox (fst s))) (unit_inbox u)) (staged u)
    (reservations u) (completions u) true (finished u)).

Definition _active : M exn S unit :=
  let! s := get in
  raise_if (negb (entered (snd s)) || finished (snd s)) (RuntimeError "unit of work is not active").

Definition uow_reserve_message (scope : InboxScope) (message_id : OpaqueId) (token : pystr) (now : datetime) (ttl : timedelta) :
    M exn S InboxDecision :=
  _active ;;;
  let! decision := zoom inbox_lens (begin scope message_id token now ttl) in
  match decision with
  | InboxAccepted _ =>
      modify_unit (fun u => mkUnit (unit_inbox u) (staged u) (reservations u ++ [(scope, message_id, token)])
        (completions u) (entered u) (finished u)) ;;;
      ret decision
  | _ => ret decision
  end.

Definition uow_complete_message (scope : InboxScope) (message_id : OpaqueId) (token : pystr) (now : datetime) : M exn S bool :=
  _active ;;;
  let! s := get in
  if negb (bool_decide ((scope, message_id, token) ∈ reservations (snd s))) then ret false
  else
    let! ok := zoom inbox_lens (complete scope message_id token now) in
    if negb ok then ret false
    else
      modify_unit (fun u => mkUnit (unit_inbox u) (staged u) (reservations u)
        (completions u ++ [(scope, message_id, token, now)]) (entered u) (finished u)) ;;;
      ret true.

Definition uow_save_decision (d : D) : M exn S unit :=
  _active ;;;
  let! s := get in
  raise_if (factory_capacity (fst s) <=? Z.of_nat (length (decisions (fst s))) + Z.of_nat (length (staged (snd s))))%Z
    (OverflowError "unit-of-work decision capacity exceeded") ;;;
  modify_unit (fun u => mkUnit (unit_inbox u) (staged u ++ [d]) (reservations u) (completions u) (entered u) (finished u)).

Definition uow_rollback : M exn S unit :=
  let! s := get in
  if finished (snd s) then ret tt
  else
    let! _ := for_each (reservations (snd s)) tt (fun _ r =>
      let! _ := zoom inbox_lens (abandon r.1.1 r.1.2 r.2) in ret tt) in
    modify_unit (fun u => mkUnit (unit_inbox u) [] (reservations u) [] (entered u) true).

(** One iteration of the compare-and-set of [commit]. *)
Definition commit_completion (c : InboxScope * OpaqueId * pystr * datetime) : M exn S unit :=
  let! ok := zoom inbox_lens (complete c.1.1.1 c.1.1.2 c.1.2 c.2) in
  if ok then ret tt
  else uow_rollback ;;; raise (RuntimeError "inbox completion compare-and-set failed").

Definition uow_commit : M exn S unit :=
  _active ;;;
  let! s := get in
  let! _ := for_each (completions (snd s)) tt (fun _ c => commit_completion c) in
  modify (fun s => (mkFactory (factory_capacity (fst s)) (set_entries (entries (unit_inbox (snd s))) (target_inbox (fst s)))
      (decisions (fst s) ++ staged (snd s)),
    mkUnit (unit_inbox (snd s)) (staged (snd s)) (reservations (snd s)) (completions (snd s)) (entered (snd s)) true)).

Definition uow_aexit : M exn S unit :=
  let! s := get in
  if finished (snd s) then ret tt else uow_rollback.

#[export] Instance InMemory_AsyncUnitOfWork : AsyncUnitOfWork (factory D) (unit_state D) D := {
  unit_of_work := unit_new;
  aenter := uow_aenter;
  aexit := uow_aexit;
  reserve_message := uow_reserve_message;
  complete_message := uow_complete_message;
  save_decision := uow_save_decision;
  commit := uow_commit;
  rollback := uow_rollback
}.
End InMemory.
