(* ===== verification/Quarantine.v ===== *)
(** * Rejected deliveries ([src/pytitect/aio/quarantine.py])

    The record of a delivery that cannot be processed, its policy, and the process-local
    store, whose lock makes each call atomic. *)
From Stdlib Require Import ZArith Lia.
From stdpp Require Import base list gmap.
From S2P Require Import Prelude Core.

Record QuarantinePolicy := mkQuarantinePolicy {
  retain_payload : bool;
  max_payload_bytes : Z;
  max_reason_chars : Z;
  quarantine_metadata_items : Z
}.

Definition QuarantinePolicy_default : QuarantinePolicy := mkQuarantinePolicy false 1048576 512 32.

Definition QuarantinePolicy_new {S} (p : QuarantinePolicy) : M exn S QuarantinePolicy :=
  raise_if (max_payload_bytes p <=? 0)%Z (ValueError "max_payload_bytes must be a positive integer") ;;;
  raise_if (max_reason_chars p <=? 0)%Z (ValueError "max_reason_chars must be a positive integer") ;;;
  raise_if (quarantine_metadata_items p <=? 0)%Z (ValueError "max_metadata_items must be a positive integer") ;;;
  ret p.

Record RejectedDelivery := mkRejectedDelivery {
  quarantine_id : pystr;
  rejected_message_id : pystr;
  rejected_source : pystr;
  rejected_consumer : pystr;
  failed_at : datetime;
  payload_sha256 : pystr;
  rejected_reason : pystr;
  metadata : dict pystr json;
  payload : option (list N)
}.

Definition RejectedDelivery_new (r : RejectedDelivery) : result exn RejectedDelivery :=
  reject_if (str_empty (quarantine_id r) || str_empty (rejected_message_id r) || str_empty (rejected_source r)
    || str_empty (rejected_consumer r) || str_empty (rejected_reason r))
    (ValueError "rejected delivery identity and reason must not be empty") ??;
  reject_if (negb (str_len (payload_sha256 r) =? 64))%Z (ValueError "rejected delivery requires a SHA-256 digest") ??;
  reject_if (negb (is_utc (failed_at r))) (ValueError "rejected delivery time must be timezone-aware UTC") ??;
  Ok r.

Section Quarantine.
Variable sha256_hexdigest : list N -> pystr.

Definition rejected_delivery (quarantine_id message_id source consumer : pystr) (failed_at : datetime) (reason : pystr)
    (encoded_payload : list N) (policy : QuarantinePolicy) (metadata : dict pystr json) : result exn RejectedDelivery :=
  let sanitized := str_take (Z.to_nat (max_reason_chars policy)) (str_join " " (str_split reason)) in
  let sanitized := if str_empty sanitized then "rejected"%py else sanitized in
  reject_if (quarantine_metadata_items policy <? d_len metadata)%Z (ValueError "quarantine metadata exceeds max_metadata_items") ??;
  reject_if (max_payload_bytes policy <? Z.of_nat (length encoded_payload))%Z
    (ValueError "quarantine payload exceeds max_payload_bytes") ??;
  RejectedDelivery_new (mkRejectedDelivery quarantine_id message_id source consumer failed_at
    (sha256_hexdigest encoded_payload) sanitized metadata (if retain_payload policy then Some encoded_payload else None)).
End Quarantine.

(** ** The store *)

Class RejectedDeliveryStore (W : Type) := quarantine_add : RejectedDelivery -> M exn W bool.

Record quarantine_store := mkQuarantineStore { quarantine_capacity : Z; quarantine_items : dict pystr RejectedDelivery }.

Definition InMemoryRejectedDeliveryStore_new {S} (cap : Z) : M exn S quarantine_store :=
  raise_if (cap <=? 0)%Z (ValueError "quarantine capacity must be a positive integer") ;;;
  ret (mkQuarantineStore cap []).

Definition items (st : quarantine_store) : list RejectedDelivery :=
  map snd (sorted_by str_compare fst (quarantine_items st)).

Definition quarantine_add_delivery (r : RejectedDelivery) : M exn quarantine_store bool :=
  let! st := get in
  if d_mem (quarantine_id r) (quarantine_items st) then ret false
  else
    raise_if (quarantine_capacity st <=? d_len (quarantine_items st))%Z (OverflowError "quarantine capacity exceeded") ;;;
    modify (fun st => mkQuarantineStore (quarantine_capacity st) (d_set (quarantine_id r) r (quarantine_items st))) ;;;
    ret true.

#[export] Instance InMemory_RejectedDeliveryStore : RejectedDeliveryStore quarantine_store := quarantine_add_delivery.
