(* ===== verification/Outbox.v ===== *)
(** * Outbox delivery ([src/pytitect/outbox.py])

    Envelopes, claims and delivery results, the retry policy with its floating-point
    back-off, the reference store [InMemoryOutboxStore] (claims, delivery transitions,
    purge and archival), the one-round dispatcher and the conformance harness.

    The C library's [log] and [pow] are parameters of the retry policy; the other float
    operations (true division, exact comparison, the rounding of [timedelta * float]) are
    computed on binary64 values. *)
From Stdlib Require Import ZArith Lia SpecFloat.
From stdpp Require Import base list gmap.
From S2P Require Import Prelude Core Maintenance.

(** ** Data *)

Definition _utc {S} (value : datetime) : M exn S unit :=
  check_utc value "outbox timestamps must be timezone-aware UTC".

Record OutboxEnvelope (P : Type) := mkEnvelope {
  message_id : OpaqueId;
  topic : pystr;
  payload : P;
  occurred_at : datetime;
  available_at : datetime;
  attempt : Z
}.
Arguments mkEnvelope {P}.
Arguments message_id {P}.
Arguments topic {P}.
Arguments payload {P}.
Arguments occurred_at {P}.
Arguments available_at {P}.
Arguments attempt {P}.

#[export] Instance OutboxEnvelope_eq_dec {P} `{EqDecision P} : EqDecision (OutboxEnvelope P).
Proof. solve_decision. Defined.

(** The constructor with [__post_init__], also run by [dataclasses.replace]. *)
Definition OutboxEnvelope_new {P S} (id : OpaqueId) (t : pystr) (p : P) (occurred available : datetime)
    (n : Z) : M exn S (OutboxEnvelope P) :=
  _utc occurred ;;;
  _utc available ;;;
  raise_if (str_empty t) (ValueError "outbox topic must not be empty") ;;;
  raise_if (n <? 0)%Z (ValueError "attempt must not be negative") ;;;
  ret (mkEnvelope id t p occurred available n).

Record OutboxClaim (P : Type) := mkClaim {
  claim_id : pystr;
  claim_envelope : OutboxEnvelope P;
  claimed_until : datetime
}.
Arguments mkClaim {P}.
Arguments claim_id {P}.
Arguments claim_envelope {P}.
Arguments claimed_until {P}.

Definition OutboxClaim_new {P S} (id : pystr) (e : OutboxEnvelope P) (until : datetime) :
    M exn S (OutboxClaim P) :=
  _utc until ;;;
  ret (mkClaim id e until).

Record FailedOutboxEnvelope (P : Type) := mkFailedEnvelope {
  failed_envelope : OutboxEnvelope P;
  failed_envelope_reason : pystr;
  failed_envelope_at : datetime
}.
Arguments mkFailedEnvelope {P}.
Arguments failed_envelope {P}.

Definition FailedOutboxEnvelope_new {P S} (e : OutboxEnvelope P) (reason : pystr) (at_ : datetime) :
    M exn S (FailedOutboxEnvelope P) :=
  _utc at_ ;;;
  raise_if (str_empty reason) (ValueError "outbox failure reason must not be empty") ;;;
  ret (mkFailedEnvelope e reason at_).

(** What a handler returns; [UnknownResult] is a value of none of the three classes. *)
Inductive DeliveryResult :=
  | Delivered
  | Retryable (reason : pystr)
  | PermanentFailure (reason : pystr)
  | UnknownResult.

Definition Retryable_new {S} (reason : pystr) : M exn S DeliveryResult :=
  raise_if (str_empty reason) (ValueError "retry reason must not be empty") ;;;
  ret (Retryable reason).

Definition PermanentFailure_new {S} (reason : pystr) : M exn S DeliveryResult :=
  raise_if (str_empty reason) (ValueError "permanent failure reason must not be empty") ;;;
  ret (PermanentFailure reason).

Inductive OutboxAddResult := OutboxAdded | OutboxDuplicate.

(** ** The retry policy *)

Record RetryPolicy := mkRetryPolicy {
  initial_delay : timedelta;
  multiplier : spec_float;
  maximum_delay : timedelta;
  max_attempts : Z
}.

(** 1.0 and 2.0. *)
Definition float_one : spec_float := S754_finite false 4503599627370496 (-52).
Definition float_two : spec_float := S754_finite false 4503599627370496 (-51).

(** The exact test [f <= n] of a float and an integer. *)
Definition float_le_int (f : spec_float) (n : Z) : bool :=
  match f with
  | S754_zero _ => 0 <=? n
  | S754_infinity s => s
  | S754_nan => false
  | S754_finite s m e =>
      let v := if s then Z.neg m else Z.pos m in
      if 0 <=? e then v * 2 ^ e <=? n else v <=? n * 2 ^ (- e)
  end%Z.

(** The exact test [n <= f]. *)
Definition int_le_float (n : Z) (f : spec_float) : bool :=
  match f with
  | S754_zero _ => n <=? 0
  | S754_infinity s => negb s
  | S754_nan => false
  | S754_finite s m e =>
      let v := if s then Z.neg m else Z.pos m in
      if 0 <=? e then n <=? v * 2 ^ e else n * 2 ^ (- e) <=? v
  end%Z.

(** [f == n]. *)
Definition float_eq_int (f : spec_float) (n : Z) : bool := float_le_int f n && int_le_float n f.

Definition RetryPolicy_default : RetryPolicy := mkRetryPolicy (seconds 1) float_two (minutes 15) 10.

Definition RetryPolicy_new {S} (initial : timedelta) (mult : spec_float) (maximum : timedelta)
    (attempts : Z) : M exn S RetryPolicy :=
  raise_if ((initial <=? 0)%Z || (maximum <=? 0)%Z) (ValueError "retry delays must be positive") ;;;
  raise_if (negb (isfinite mult) || negb (int_le_float 1 mult) || (attempts <=? 0)%Z)
    (ValueError "retry multiplier and max_attempts are invalid") ;;;
  ret (mkRetryPolicy initial mult maximum attempts).

(** [p / q] of integers as a float: the correctly rounded quotient. *)
Definition float_of_ratio (p q : Z) : spec_float :=
  match p, q with
  | Z.pos a, Z.pos b => SFdiv 53 1024 (S754_finite false a 0) (S754_finite false b 0)
  | _, _ => S754_nan
  end.

(** [p / q] rounded half to even, for [q > 0]. *)
Definition divide_and_round (p q : Z) : Z :=
  let d := p / q in
  let r := p mod q in
  if (q <? 2 * r)%Z || ((2 * r =? q)%Z && Z.odd d) then d + 1 else d.

(** [timedelta.max] in microseconds. *)
Definition timedelta_max : Z := 86399999999999999999.

Definition timedelta_check (us : Z) : result exn timedelta :=
  if (Z.abs us <=? timedelta_max)%Z then Ok us
  else Raise (OverflowError "timedelta out of range").

(** [t * f]: the exact product rounded half to even. *)
Definition timedelta_times_float (t : timedelta) (f : spec_float) : result exn timedelta :=
  match f with
  | S754_zero _ => Ok 0
  | S754_infinity _ => Raise (OverflowError "cannot convert Infinity to integer ratio")
  | S754_nan => Raise (ValueError "cannot convert NaN to integer ratio")
  | S754_finite s m e =>
      let v := if s then Z.neg m else Z.pos m in
      if (0 <=? e)%Z then timedelta_check (t * (v * 2 ^ e))
      else timedelta_check (divide_and_round (t * v) (2 ^ (- e)))
  end.

Section Delay.
(** The C library's [log], and [pow] of a float and an integer exponent. *)
Variable math_log : spec_float -> spec_float.
Variable float_pow : spec_float -> Z -> result exn spec_float.

Definition delay (p : RetryPolicy) (n : Z) : result exn timedelta :=
  if (n <? 1)%Z then Raise (ValueError "attempt must be at least one")
  else if (maximum_delay p <=? initial_delay p)%Z then Ok (maximum_delay p)
  else if float_eq_int (multiplier p) 1 then Ok (initial_delay p)
  else
    let ceiling := SFdiv 53 1024 (math_log (float_of_ratio (maximum_delay p) (initial_delay p)))
                     (math_log (multiplier p)) in
    if float_le_int ceiling (n - 1) then Ok (maximum_delay p)
    else match float_pow (multiplier p) (n - 1) with
         | Raise e => Raise e
         | Ok factor =>
             match timedelta_times_float (initial_delay p) factor with
             | Raise e => Raise e
             | Ok d => Ok (Z.min d (maximum_delay p))
             end
         end.
End Delay.

(** ** The store ports *)

Class OutboxStore (W P : Type) := {
  port_add : OutboxEnvelope P -> M exn W OutboxAddResult;
  port_claim : datetime -> Z -> timedelta -> M exn W (list (OutboxClaim P));
  port_delivered : OutboxClaim P -> datetime -> M exn W bool;
  port_retry : OutboxClaim P -> datetime -> M exn W bool;
  port_failed : OutboxClaim P -> pystr -> datetime -> M exn W bool
}.

(** ** The in-memory store *)

(** [_Stored]. *)
Record Stored (P : Type) := mkStored {
  envelope : OutboxEnvelope P;
  stored_claim_id : option pystr;
  stored_claimed_until : option datetime;
  delivered_at : option datetime;
  failure_reason : option pystr;
  failed_at : option datetime
}.
Arguments mkStored {P}.
Arguments envelope {P}.
Arguments stored_claim_id {P}.
Arguments stored_claimed_until {P}.
Arguments delivered_at {P}.
Arguments failure_reason {P}.
Arguments failed_at {P}.

(** [InMemoryOutboxStore]; [uuid_draws] counts its calls of [uuid.uuid4]. *)
Record store (P : Type) := mkStore {
  capacity : Z;
  items : dict OpaqueId (Stored P);
  uuid_draws : nat
}.
Arguments mkStore {P}.
Arguments capacity {P}.
Arguments items {P}.
Arguments uuid_draws {P}.

Section InMemory.
Context {P : Type} `{Uuid4}.
Implicit Types (st : store P) (it : Stored P) (c : OutboxClaim P).

Definition InMemoryOutboxStore_new {S} (cap : Z) : M exn S (store P) :=
  raise_if (cap <=? 0)%Z (ValueError "capacity must be positive") ;;;
  ret (mkStore cap [] 0).

Definition set_items (d : dict OpaqueId (Stored P)) st : store P :=
  mkStore (capacity st) d (uuid_draws st).

Definition put_item (k : OpaqueId) it : M exn (store P) unit :=
  modify (fun st => set_items (d_set k it (items st)) st).

Definition add (e : OutboxEnvelope P) : M exn (store P) OutboxAddResult :=
  let! st := get in
  if d_mem (message_id e) (items st) then ret OutboxDuplicate
  else
    raise_if (capacity st <=? d_len (items st))%Z (OverflowError "outbox capacity exceeded") ;;;
    put_item (message_id e) (mkStored e None None None None None) ;;;
    ret OutboxAdded.

(** [uuid.uuid4().hex]. *)
Definition draw_uuid : M exn (store P) pystr :=
  let! n := gets uuid_draws in
  modify (fun st => mkStore (capacity st) (items st) (S n)) ;;;
  ret (uuid4_hex n).

Definition with_claim it (id : option pystr) (until : option datetime) : Stored P :=
  mkStored (envelope it) id until (delivered_at it) (failure_reason it) (failed_at it).

(** One iteration of [claim]'s loop. The items are distinct objects, so an iteration reads
    the fields of the snapshot; the claim identifier is assigned before the expiry. *)
Definition claim_item (now : datetime) (limit : Z) (claim_ttl : timedelta)
    (claimed : list (OutboxClaim P)) (p : OpaqueId * Stored P) :
    M exn (store P) (list (OutboxClaim P)) :=
  let it := p.2 in
  if (limit <=? Z.of_nat (length claimed))%Z then ret claimed
  else if dt_ltb now (available_at (envelope it)) then ret claimed
  else if bool_decide (is_Some (delivered_at it)) || bool_decide (is_Some (failure_reason it))
  then ret claimed
  else if match stored_claimed_until it with Some u => dt_ltb now u | None => false end
  then ret claimed
  else
    let! id := draw_uuid in
    put_item p.1 (with_claim it (Some id) (stored_claimed_until it)) ;;;
    let! until := lift (dt_add now claim_ttl) in
    put_item p.1 (with_claim it (Some id) (Some until)) ;;;
    let! c := OutboxClaim_new id (envelope it) until in
    ret (claimed ++ [c]).

Definition claim_key (p : OpaqueId * Stored P) : Z * pystr :=
  (dt_instant (available_at (envelope p.2)), opaque_value (message_id (envelope p.2))).
Definition claim_compare := pair_compare Z.compare str_compare.

Definition claim (now : datetime) (limit : Z) (claim_ttl : timedelta) :
    M exn (store P) (list (OutboxClaim P)) :=
  _utc now ;;;
  raise_if (limit <=? 0)%Z (ValueError "claim limit must be a positive integer") ;;;
  raise_if (claim_ttl <=? 0)%Z (ValueError "claim limit and ttl must be positive") ;;;
  let! eligible := gets (fun st => sorted_by claim_compare claim_key (items st)) in
  for_each eligible [] (claim_item now limit claim_ttl).

(** [_valid]: the stored item a claim still owns. *)
Definition _valid c st : option (Stored P) :=
  match d_get (message_id (claim_envelope c)) (items st) with
  | None => None
  | Some it =>
      if negb (bool_decide (stored_claim_id it = Some (claim_id c)))
         || bool_decide (is_Some (delivered_at it)) || bool_decide (is_Some (failure_reason it))
      then None else Some it
  end.

Definition delivered c (at_ : datetime) : M exn (store P) bool :=
  _utc at_ ;;;
  let! item := gets (_valid c) in
  match item with
  | None => ret false
  | Some it =>
      put_item (message_id (claim_envelope c))
        (mkStored (envelope it) None None (Some at_) (failure_reason it) (failed_at it)) ;;;
      ret true
  end.

Definition retry c (available : datetime) : M exn (store P) bool :=
  _utc available ;;;
  let! item := gets (_valid c) in
  match item with
  | None => ret false
  | Some it =>
      let e := envelope it in
      let! e' := OutboxEnvelope_new (message_id e) (topic e) (payload e) (occurred_at e) available
                   (attempt e + 1) in
      put_item (message_id (claim_envelope c))
        (mkStored e' None None (delivered_at it) (failure_reason it) (failed_at it)) ;;;
      ret true
  end.

Definition failed c (reason : pystr) (at_ : datetime) : M exn (store P) bool :=
  _utc at_ ;;;
  raise_if (str_empty reason) (ValueError "outbox failure reason must not be empty") ;;;
  let! item := gets (_valid c) in
  match item with
  | None => ret false
  | Some it =>
      put_item (message_id (claim_envelope c))
        (mkStored (envelope it) None None (delivered_at it) (Some reason) (Some at_)) ;;;
      ret true
  end.

(** ** Maintenance *)

Definition instant_or_zero (d : option datetime) : Z :=
  match d with Some d => dt_instant d | None => 0 end.

Definition delivered_selection (plan : MaintenancePlan) st : list (OpaqueId * Stored P) :=
  plan_selection claim_compare
    (fun p => (instant_or_zero (delivered_at p.2), opaque_value (message_id (envelope p.2)))) plan
    (filter (fun p =>
       match delivered_at p.2 with Some d => dt_leb d (cutoff plan) | None => false end = true)
       (items st)).

Definition purge_delivered (plan : MaintenancePlan) : M exn (store P) MaintenanceSummary :=
  let! chosen := gets (delivered_selection plan) in
  (if dry_run plan then ret tt
   else modify (fun st =>
     set_items (d_pop_all ((fun p => message_id (envelope p.2)) <$> chosen) (items st)) st)) ;;;
  plan_summary plan chosen.

Definition failed_selection (plan : MaintenancePlan) st : list (OpaqueId * Stored P) :=
  plan_selection claim_compare
    (fun p => (instant_or_zero (failed_at p.2), opaque_value (message_id (envelope p.2)))) plan
    (filter (fun p =>
       match failure_reason p.2, failed_at p.2 with
       | Some _, Some d => dt_leb d (cutoff plan)
       | _, _ => false
       end = true) (items st)).

Context {A : Type}.

(** The tuple of archived envelopes. *)
Definition archive_tuple (chosen : list (OpaqueId * Stored P)) :
    M exn (store P * A) (list (FailedOutboxEnvelope P)) :=
  for_each chosen [] (fun acc p =>
    let! f := FailedOutboxEnvelope_new (envelope p.2) (default "" (failure_reason p.2))
                (default (utc 0) (failed_at p.2)) in
    ret (acc ++ [f])).

(** [archive] is the consumer's durable archival, on the consumer's state. *)
Definition archive_failed (plan : MaintenancePlan)
    (archive : list (FailedOutboxEnvelope P) -> M exn A unit) :
    M exn (store P * A) MaintenanceSummary :=
  let! chosen := gets (fun w => failed_selection plan (fst w)) in
  (if negb (dry_run plan) && negb (bool_decide (chosen = []))
   then
     let! batch := archive_tuple chosen in
     zoom snd_lens (archive batch) ;;;
     zoom fst_lens (modify (fun st =>
       set_items (d_pop_all ((fun p => message_id (envelope p.2)) <$> chosen) (items st)) st))
   else ret tt) ;;;
  plan_summary plan chosen.

#[export] Instance InMemory_OutboxStore : OutboxStore (store P) P := {
  port_add := add;
  port_claim := claim;
  port_delivered := delivered;
  port_retry := retry;
  port_failed := failed
}.
End InMemory.

(** The store as one component of a larger state. *)
Definition zoomed_OutboxStore {W S P} (l : lens W S) `{!OutboxStore S P} : OutboxStore W P := {|
  port_add := fun e => zoom l (port_add e);
  port_claim := fun now limit ttl => zoom l (port_claim now limit ttl);
  port_delivered := fun c at_ => zoom l (port_delivered c at_);
  port_retry := fun c available => zoom l (port_retry c available);
  port_failed := fun c reason at_ => zoom l (port_failed c reason at_)
|}.

(** ** The one-round dispatcher *)

Record DispatchSummary := mkDispatchSummary {
  sum_claimed : Z;
  sum_delivered : Z;
  sum_retried : Z;
  sum_failed : Z
}.

Definition int_of_bool (b : bool) : Z := if b then 1 else 0.

Section Dispatcher.
Context {W P : Type} `{!OutboxStore W P, !Clock W}.
Variable math_log : spec_float -> spec_float.
Variable float_pow : spec_float -> Z -> result exn spec_float.
Variable handler : OutboxEnvelope P -> M exn W DeliveryResult.
Variable retry_policy : RetryPolicy.
Variable claim_ttl : timedelta.

(** One claim of the round: the counters are delivered, retried, failed. *)
Definition dispatch_one (now : datetime) (acc : Z * Z * Z) (c : OutboxClaim P) :
    M exn W (Z * Z * Z) :=
  let '(d, r, f) := acc in
  let! result := handler (claim_envelope c) in
  let next_attempt := attempt (claim_envelope c) + 1 in
  let fail (reason : pystr) :=
    let! ok := port_failed c reason now in ret (d, r, f + int_of_bool ok) in
  match result with
  | Delivered => let! ok := port_delivered c now in ret (d + int_of_bool ok, r, f)
  | Retryable reason =>
      if (next_attempt <? max_attempts retry_policy)%Z
      then
        let! wait := lift (delay math_log float_pow retry_policy next_attempt) in
        let! available := lift (dt_add now wait) in
        let! ok := port_retry c available in
        ret (d, r + int_of_bool ok, f)
      else fail reason
  | PermanentFailure reason => fail reason
  | UnknownResult => fail "failed"
  end.

Definition dispatch (limit : Z) : M exn W DispatchSummary :=
  let! now := clock_now in
  let! claims := port_claim now limit claim_ttl in
  let! '(d, r, f) := for_each claims (0, 0, 0) (dispatch_one now) in
  ret (mkDispatchSummary (Z.of_nat (length claims)) d r f).
End Dispatcher.

(** ** The conformance harness *)

Section Harness.
Context {W P : Type} `{!OutboxStore W P, !EqDecision P}.

Definition outbox_expect (condition : bool) (message : pystr) : M exn W unit :=
  raise_if (negb condition) (AssertionError message).

Definition is_added (r : OutboxAddResult) : bool :=
  match r with OutboxAdded => true | OutboxDuplicate => false end.

(** [claims[0]] when [len(claims) == 1]. *)
Definition expect_single (claims : list (OutboxClaim P)) (ok : OutboxClaim P -> bool)
    (message : pystr) : M exn W (OutboxClaim P) :=
  match claims with
  | [c] => if ok c then ret c else raise (AssertionError message)
  | _ => raise (AssertionError message)
  end.

Definition exercise (p : P) (now : datetime) : M exn W unit :=
  let! early_id := OpaqueId_new "early" in
  let! early := OutboxEnvelope_new early_id "events" p now now 0 in
  let! late_id := OpaqueId_new "late" in
  let! now_minute := lift (dt_add now (minutes 1)) in
  let! late := OutboxEnvelope_new late_id "events" p now now_minute 0 in
  let! a1 := port_add late in
  outbox_expect (is_added a1) "a new outbox identity must be added" ;;;
  let! a2 := port_add early in
  outbox_expect (is_added a2) "a second outbox identity must be added" ;;;
  let! a3 := port_add early in
  outbox_expect (negb (is_added a3)) "an existing outbox identity must be rejected as duplicate" ;;;
  let! claims := port_claim now 1 (seconds 30) in
  let! c := expect_single claims (fun c => bool_decide (claim_envelope c = early))
    "outbox claims must be finite, eligible, and ordered" in
  let! rejected :=
    try_except (port_failed c "" now ;;; ret false)
      (fun e => match e with ValueError _ => ret true | _ => raise e end) in
  outbox_expect rejected "an empty terminal failure reason must be rejected" ;;;
  let! retry_at := lift (dt_add now (seconds 10)) in
  let! r1 := port_retry c retry_at in
  outbox_expect r1 "an authoritative claim must be retryable" ;;;
  let! r2 := port_retry c retry_at in
  outbox_expect (negb r2) "a released claim must become stale" ;;;
  let! again := port_claim now 1 (seconds 30) in
  outbox_expect (bool_decide (length again = 0%nat)) "a delayed outbox item must not be claimed early" ;;;
  let! retried := port_claim retry_at 1 (seconds 30) in
  let! rc := expect_single retried (fun c => (attempt (claim_envelope c) =? 1)%Z)
    "a retried outbox item must increment its attempt" in
  let! f1 := port_failed rc "terminal" retry_at in
  outbox_expect f1 "an authoritative claim must accept terminal failure" ;;;
  let! a4 := port_add early in
  outbox_expect (negb (is_added a4)) "a terminal failure must keep its identity reserved" ;;;
  let! last := port_claim now_minute 1 (seconds 30) in
  let! dc := expect_single last (fun _ => true) "an authoritative eligible claim must be deliverable" in
  let! d1 := port_delivered dc now_minute in
  outbox_expect d1 "an authoritative eligible claim must be deliverable" ;;;
  let! d2 := port_delivered dc now_minute in
  outbox_expect (negb d2) "a delivered claim must become stale" ;;;
  let! a5 := port_add late in
  outbox_expect (negb (is_added a5)) "a delivered outbox identity must remain reserved".
End Harness.

(** ** The harness on the reference store *)

(** [InMemoryOutboxStore] passes [OutboxStoreHarness.exercise] for every payload at
    every start instant whose claim periods fit the calendar. *)
Theorem outbox_harness_passes {P} `{!EqDecision P} `{Uuid4Laws} (p : P) w :
  0 <= w -> w + minutes 2 <= dt_max ->
  fst (exercise p (utc w) (mkStore 10000 [] 0)) = Ok tt.
Proof.
  intros Hw Hmax. unfold exercise.
  repeat sym_bind ltac:(cbn [port_add port_claim port_delivered port_retry port_failed InMemory_OutboxStore];
    unfold add, claim, claim_item, claim_compare, claim_key, delivered, retry, failed, _valid, draw_uuid,
      put_item, OutboxClaim_new, OutboxEnvelope_new, OpaqueId_new, outbox_expect, expect_single, try_except,
      _utc, d_mem).
  unfold outbox_expect. sym. reflexivity.
Qed.

(** ** What [claim] does *)

Section ClaimProofs.
Context {P : Type} `{Uuid4}.
Implicit Types (st : store P) (it : Stored P) (c : OutboxClaim P) (k : OpaqueId).

(** The item is due, not terminal, and not held by an unexpired claim. *)
Definition claimable (now : datetime) it : bool :=
  negb (dt_ltb now (available_at (envelope it)))
  && negb (bool_decide (is_Some (delivered_at it)) || bool_decide (is_Some (failure_reason it)))
  && negb (match stored_claimed_until it with Some u => dt_ltb now u | None => false end).

Fixpoint claims_of (n : nat) (until : datetime) (chosen : list (OpaqueId * Stored P)) :
    list (OutboxClaim P) :=
  match chosen with
  | [] => []
  | p :: chosen' => mkClaim (uuid4_hex n) (envelope p.2) until :: claims_of (S n) until chosen'
  end.

Fixpoint claimed_items (n : nat) (until : datetime) (chosen : list (OpaqueId * Stored P))
    (d : dict OpaqueId (Stored P)) : dict OpaqueId (Stored P) :=
  match chosen with
  | [] => d
  | p :: chosen' =>
      claimed_items (S n) until chosen' (d_set p.1 (with_claim p.2 (Some (uuid4_hex n)) (Some until)) d)
  end.

(** One iteration: skip the item, or claim it with the next identifier. *)
Lemma claim_item_runs now limit ttl acc p st :
  is_utc now = true ->
  claim_item now limit ttl acc p st =
    if (limit <=? Z.of_nat (length acc))%Z || negb (claimable now p.2) then (Ok acc, st)
    else match dt_add now ttl with
         | Ok until =>
             (Ok (acc ++ [mkClaim (uuid4_hex (uuid_draws st)) (envelope p.2) until]),
              mkStore (capacity st)
                (d_set p.1 (with_claim p.2 (Some (uuid4_hex (uuid_draws st))) (Some until)) (items st))
                (S (uuid_draws st)))
         | Raise e =>
             (Raise e,
              mkStore (capacity st)
                (d_set p.1 (with_claim p.2 (Some (uuid4_hex (uuid_draws st)))
                  (stored_claimed_until p.2)) (items st))
                (S (uuid_draws st)))
         end.
Proof.
  intros Hu. unfold claim_item, claimable, draw_uuid, put_item, OutboxClaim_new, _utc. monad_unfold.
  destruct (limit <=? _); cbn; [done|]. destruct (dt_ltb now (available_at _)); cbn; [done|].
  destruct (bool_decide (is_Some (delivered_at p.2)) || _); cbn; [done|].
  destruct (match stored_claimed_until p.2 with Some u => _ | None => _ end); cbn; [done|].
  destruct (dt_add now ttl) as [until|e] eqn:Hadd; [|done].
  assert (is_utc until = true) as ->.
  { unfold is_utc in *. by rewrite (proj2 (dt_add_ok _ _ _ Hadd)). }
  cbn. unfold set_items. cbn. by rewrite d_set_set.
Qed.

Lemma claim_loop now limit ttl until l : is_utc now = true -> dt_add now ttl = Ok until ->
  forall acc st,
  let chosen := take (Z.to_nat (limit - Z.of_nat (length acc)))
                  (filter (fun p => claimable now p.2 = true) l) in
  for_each l acc (claim_item now limit ttl) st =
    (Ok (acc ++ claims_of (uuid_draws st) until chosen),
     mkStore (capacity st) (claimed_items (uuid_draws st) until chosen (items st))
       (uuid_draws st + length chosen)%nat).
Proof.
  intros Hu Hadd. induction l as [|p l IH]; intros acc st.
  - cbn. rewrite take_nil. cbn. rewrite app_nil_r, Nat.add_0_r. by destruct st.
  - cbn [for_each]. unfold bind. rewrite claim_item_runs, Hadd by done. rewrite filter_cons.
    destruct (limit <=? Z.of_nat (length acc))%Z eqn:Hfull; time_facts; cbn [orb].
    + rewrite IH. replace (Z.to_nat (limit - _)) with 0%nat by lia. done.
    + destruct (claimable now p.2) eqn:Hc; cbn [negb]; rewrite IH.
      * rewrite decide_True by done. rewrite length_app. cbn [length uuid_draws items capacity].
        replace (Z.to_nat (limit - Z.of_nat (length acc)))
          with (S (Z.to_nat (limit - Z.of_nat (length acc + 1)))) by lia.
        cbn [take claims_of claimed_items length]. rewrite <- app_assoc. f_equal. f_equal. lia.
      * rewrite decide_False by done. done.
Qed.

(** The items a claim at [now] picks, in order. *)
Definition claim_choice (now : datetime) (limit : Z) st : list (OpaqueId * Stored P) :=
  take (Z.to_nat limit)
    (filter (fun p => claimable now p.2 = true) (sorted_by claim_compare claim_key (items st))).

Lemma claim_runs now limit ttl until st :
  is_utc now = true -> 0 < limit -> 0 < ttl -> dt_add now ttl = Ok until ->
  claim now limit ttl st =
    (Ok (claims_of (uuid_draws st) until (claim_choice now limit st)),
     mkStore (capacity st) (claimed_items (uuid_draws st) until (claim_choice now limit st) (items st))
       (uuid_draws st + length (claim_choice now limit st))%nat).
Proof.
  intros Hu Hl Ht Hadd. apply Z.leb_gt in Hl as Hl', Ht. unfold claim, _utc.
  monad_unfold. rewrite Hu, Hl', Ht. cbn. rewrite (claim_loop _ _ _ until) by done.
  cbn. unfold claim_choice. by rewrite Z.sub_0_r.
Qed.

Lemma claimed_items_ne n until chosen d k : k ∉ chosen.*1 ->
  d_get k (claimed_items n until chosen d) = d_get k d.
Proof.
  revert n d. induction chosen as [|p ch IH]; intros n d Hk; cbn in *; [done|].
  apply not_elem_of_cons in Hk as [Hne Hk]. rewrite IH by done. by rewrite d_get_set_ne.
Qed.

Lemma claims_of_envelopes n until chosen :
  claim_envelope <$> claims_of n until chosen = (fun p => envelope p.2) <$> chosen.
Proof. revert n. induction chosen; intros n; cbn; [done|]. by rewrite IHchosen. Qed.

(** Each claim returned is recorded on its item. *)
Lemma claims_of_recorded n until chosen d : NoDup chosen.*1 ->
  Forall (fun c => exists k it, (k, it) ∈ chosen /\ claim_envelope c = envelope it /\
    d_get k (claimed_items n until chosen d) = Some (with_claim it (Some (claim_id c)) (Some until)))
    (claims_of n until chosen).
Proof.
  revert n d. induction chosen as [|[k it] ch IH]; intros n d Hnd; cbn in *; [constructor|].
  apply NoDup_cons in Hnd as [Hk Hnd]. constructor.
  - exists k, it. cbn. rewrite claimed_items_ne, d_get_set_eq by done. split_and!; [left|done|done].
  - eapply Forall_impl; [by apply IH|]. intros c (k' & it' & Hin & ? & ?).
    exists k', it'. split_and!; [by right|done|done].
Qed.

(** Whatever way a claim ends, an item that was not claimable is left alone. *)
Lemma claim_loop_frame now limit ttl l acc st k : is_utc now = true ->
  (forall it, (k, it) ∈ l -> claimable now it = false) ->
  d_get k (items (snd (for_each l acc (claim_item now limit ttl) st))) = d_get k (items st).
Proof.
  intros Hu. revert acc st. induction l as [|[k0 it0] l IH]; intros acc st Hk; [done|].
  cbn [for_each]. unfold bind. rewrite claim_item_runs by done. cbn [fst snd].
  assert (forall it, (k, it) ∈ l -> claimable now it = false) as Hk'.
  { intros it Hin. apply Hk. by right. }
  destruct (_ || _) eqn:Hb; [by apply IH|].
  assert (k0 <> k) as Hne.
  { intros ->. rewrite (Hk it0) in Hb by left. by rewrite orb_true_r in Hb. }
  destruct (dt_add now ttl); [rewrite IH by done|]; cbn [snd items fst]; by rewrite d_get_set_ne.
Qed.

(** A claim that answers has passed its guards and picked [claim_choice]. *)
Lemma claim_answer now limit ttl st cs st' : claim now limit ttl st = (Ok cs, st') ->
  exists until,
    (claim_choice now limit st = [] \/ dt_add now ttl = Ok until) /\
    cs = claims_of (uuid_draws st) until (claim_choice now limit st) /\
    st' = mkStore (capacity st) (claimed_items (uuid_draws st) until (claim_choice now limit st) (items st))
            (uuid_draws st + length (claim_choice now limit st))%nat /\
    is_utc now = true /\ 0 < limit /\ 0 < ttl.
Proof.
  intros Hrun. pose proof Hrun as Hrun'. unfold claim, _utc in Hrun. monad_unfold.
  destruct (is_utc now) eqn:Hu; cbn in Hrun; [|done].
  destruct (limit <=? 0)%Z eqn:Hl; cbn in Hrun; [done|].
  destruct (ttl <=? 0)%Z eqn:Ht; cbn in Hrun; [done|]. time_facts.
  destruct (dt_add now ttl) as [until|e] eqn:Hadd.
  - rewrite (claim_runs _ _ _ until) in Hrun' by done. simplify_eq.
    exists until. split_and!; auto.
  - exists (utc 0). assert (claim_choice now limit st = []) as Hnil.
    { unfold claim_choice. revert Hrun. generalize (sorted_by claim_compare claim_key (items st)) as l.
      induction l as [|p l IH]; intros Hrun; [by destruct (Z.to_nat limit)|].
      cbn [for_each] in Hrun. unfold bind in Hrun. rewrite claim_item_runs, Hadd in Hrun by done.
      cbn [length] in Hrun. rewrite (proj2 (Z.leb_gt _ _)) in Hrun by lia. cbn in Hrun.
      rewrite filter_cons. destruct (claimable now p.2) eqn:Hc; cbn in Hrun; [done|].
      rewrite decide_False by congruence. by apply IH. }
    rewrite Hnil. cbn. rewrite Nat.add_0_r. revert Hrun. unfold claim_choice in Hnil.
    assert (forall l, take (Z.to_nat limit) (filter (fun p => claimable now p.2 = true) l) = [] ->
      for_each l [] (claim_item now limit ttl) st = (Ok [], st)) as Hloop.
    { induction l as [|p l IH]; intros Htk; [done|]. cbn [for_each]. unfold bind.
      rewrite claim_item_runs by done. rewrite filter_cons in Htk.
      destruct (claimable now p.2) eqn:Hc.
      - rewrite decide_True in Htk by done. destruct (Z.to_nat limit) eqn:?; [lia|done].
      - rewrite decide_False in Htk by done. rewrite orb_true_r. by apply IH. }
    rewrite (Hloop _ Hnil). intros [= <- <-]. destruct st; cbn. split_and!; auto.
Qed.
End ClaimProofs.

Lemma outbox_harness_passes_witness :
  fst (@exercise _ _ (@InMemory_OutboxStore Z unary_uuid) _ 7 (utc 1000) (mkStore 10000 [] 0)) = Ok tt.
Proof. apply (@outbox_harness_passes Z _ unary_uuid unary_uuid_laws 7 1000); vm_compute; congruence. Defined.
