(* ===== verification/OutboxHistories.v ===== *)
(** * Outbox histories

    Sequences of calls on the reference outbox store: what each call does to the item of one
    message, and the delivery guarantees that follow for every interleaving of producers,
    dispatchers and maintenance. *)
From Stdlib Require Import ZArith Lia SpecFloat.
From stdpp Require Import base list gmap.
From S2P Require Import Prelude Core Maintenance Outbox.

Inductive op (P : Type) :=
  | OpAdd (e : OutboxEnvelope P)
  | OpClaim (now : datetime) (limit : Z) (ttl : timedelta)
  | OpDelivered (c : OutboxClaim P) (at_ : datetime)
  | OpRetry (c : OutboxClaim P) (available : datetime)
  | OpFailed (c : OutboxClaim P) (reason : pystr) (at_ : datetime)
  | OpPurge (plan : MaintenancePlan)
  | OpArchive (plan : MaintenancePlan).
Arguments OpAdd {P}.
Arguments OpClaim {P}.
Arguments OpDelivered {P}.
Arguments OpRetry {P}.
Arguments OpFailed {P}.
Arguments OpPurge {P}.
Arguments OpArchive {P}.

Section Histories.
Context {P : Type} `{Uuid4}.
Implicit Types (st : store P) (it : Stored P) (c : OutboxClaim P) (k : OpaqueId).

(** An archive that accepts every batch. *)
Definition accepting_archive (batch : list (FailedOutboxEnvelope P)) : M exn unit unit := ret tt.

Definition exec (o : op P) st : store P :=
  match o with
  | OpAdd e => snd (add e st)
  | OpClaim now limit ttl => snd (claim now limit ttl st)
  | OpDelivered c at_ => snd (delivered c at_ st)
  | OpRetry c available => snd (retry c available st)
  | OpFailed c reason at_ => snd (failed c reason at_ st)
  | OpPurge plan => snd (purge_delivered plan st)
  | OpArchive plan => fst (snd (archive_failed plan accepting_archive (st, tt)))
  end.

Definition exec_all (os : list (op P)) st : store P := fold_left (fun st o => exec o st) os st.

Definition is_maintenance (o : op P) : bool :=
  match o with OpPurge _ | OpArchive _ => true | _ => false end.

(** The claim a call presents. *)
Definition presented (o : op P) : option (OutboxClaim P) :=
  match o with OpDelivered c _ | OpRetry c _ | OpFailed c _ _ => Some c | _ => None end.

Definition is_retry (o : op P) : bool := match o with OpRetry _ _ => true | _ => false end.

Definition terminal it : bool :=
  bool_decide (is_Some (delivered_at it)) || bool_decide (is_Some (failure_reason it)).

Record store_inv st : Prop := {
  inv_items : d_wf (items st);
  inv_key : forall k it, d_get k (items st) = Some it -> message_id (envelope it) = k
}.

Lemma outbox_inv_initial cap : store_inv (mkStore cap [] 0).
Proof. split; [constructor|done]. Qed.

(** ** What a call does to the item of one message *)

Inductive item_step (o : op P) (k : OpaqueId) (n n' : nat) :
    option (Stored P) -> option (Stored P) -> Prop :=
  | item_same x : item_step o k n n' x x
  | item_added e :
      o = OpAdd e -> message_id e = k ->
      item_step o k n n' None (Some (mkStored e None None None None None))
  | item_claimed now limit ttl it i until :
      o = OpClaim now limit ttl -> claimable now it = true -> (n <= i < n')%nat ->
      item_step o k n n' (Some it) (Some (with_claim it (Some (uuid4_hex i)) until))
  | item_settled c it it' :
      presented o = Some c -> message_id (claim_envelope c) = k ->
      stored_claim_id it = Some (claim_id c) -> terminal it = false ->
      stored_claim_id it' = None -> terminal it' = negb (is_retry o) ->
      message_id (envelope it') = message_id (envelope it) ->
      item_step o k n n' (Some it) (Some it')
  | item_removed it :
      is_maintenance o = true -> terminal it = true ->
      item_step o k n n' (Some it) None.

(** A step of the store is a step of every item. *)
Definition store_step (o : op P) st st' : Prop :=
  d_wf (items st') /\ (uuid_draws st <= uuid_draws st')%nat /\
  forall k, item_step o k (uuid_draws st) (uuid_draws st') (d_get k (items st)) (d_get k (items st')).

Lemma store_step_refl o st : store_inv st -> store_step o st st.
Proof. intros [Hwf _]. split_and!; [done..|]. intros k. apply item_same. Qed.

Lemma add_step e st : store_inv st -> store_step (OpAdd e) st (snd (add e st)).
Proof.
  intros Hst. pose proof Hst as [Hwf _]. destruct (add e st) as [r st'] eqn:Hrun. cbn.
  unfold add, put_item in Hrun. run Hrun; try (by apply store_step_refl).
  split_and!; cbn; [by apply d_set_wf|lia|]. intros k. rewrite d_get_set. case_decide.
  - subst. match goal with E : d_mem _ _ = false |- _ => apply d_mem_false in E; rewrite E end.
    by eapply item_added.
  - apply item_same.
Qed.

(** The loop of [claim], from a snapshot that still describes the remaining items. *)
Lemma claim_loop_step now limit ttl l acc st : is_utc now = true -> d_wf (items st) ->
  NoDup l.*1 -> (forall k it, (k, it) ∈ l -> d_get k (items st) = Some it) ->
  store_step (OpClaim now limit ttl) st (snd (for_each l acc (claim_item now limit ttl) st)).
Proof.
  intros Hu. revert acc st. induction l as [|[k0 it0] l IH]; intros acc st Hwf Hnd Hl; cbn in Hnd.
  { cbn. split_and!; [done..|]. intros k. apply item_same. }
  apply NoDup_cons in Hnd as [Hk0 Hnd].
  assert (forall k it, (k, it) ∈ l -> k <> k0) as Hne.
  { intros k it Hin ->. apply Hk0, list_elem_of_fmap. by exists (k0, it). }
  assert (Hit0 := Hl k0 it0 (list_elem_of_here _ _)).
  cbn [for_each]. unfold bind. rewrite claim_item_runs by done. cbn [fst snd].
  destruct (_ || _) eqn:Hb.
  { apply IH; [done..|]. intros k it Hin. apply Hl. by right. }
  apply orb_false_iff in Hb as [_ Hc]. apply negb_false_iff in Hc.
  destruct (dt_add now ttl) as [until|ex].
  - specialize (IH (acc ++ [mkClaim (uuid4_hex (uuid_draws st)) (envelope it0) until])
      (mkStore (capacity st) (d_set k0 (with_claim it0 (Some (uuid4_hex (uuid_draws st))) (Some until))
        (items st)) (S (uuid_draws st)))).
    destruct IH as (Hwf' & Hle & Hsteps); cbn; [by apply d_set_wf|done|..].
    { intros k it Hin. rewrite d_get_set_ne by (symmetry; by eapply Hne). apply Hl. by right. }
    cbn in Hle, Hsteps. split_and!; [done|lia|]. intros k. specialize (Hsteps k).
    destruct (decide (k = k0)) as [->|Hk].
    + rewrite claim_loop_frame in * by (done || (intros it Hin; by apply Hne in Hin)).
      cbn in *. rewrite d_get_set_eq, Hit0. eapply item_claimed; [done|done|lia].
    + rewrite d_get_set_ne in Hsteps by done.
      inversion Hsteps; subst; try done; [apply item_same|].
      eapply item_claimed; [done|done|lia].
  - split; [by apply d_set_wf|]. split; cbn; [lia|]. intros k. rewrite d_get_set. case_decide.
    + subst. rewrite Hit0. eapply item_claimed; [done|done|lia].
    + apply item_same.
Qed.

Lemma claim_step now limit ttl st : store_inv st ->
  store_step (OpClaim now limit ttl) st (snd (claim now limit ttl st)).
Proof.
  intros Hst. pose proof Hst as [Hwf _]. unfold claim, _utc. monad_unfold.
  destruct (is_utc now) eqn:Hu; cbn; [|by apply store_step_refl].
  destruct (limit <=? 0)%Z; cbn; [by apply store_step_refl|].
  destruct (ttl <=? 0)%Z; cbn; [by apply store_step_refl|].
  apply claim_loop_step; [done|done|..].
  - unfold d_wf in Hwf. by rewrite sorted_by_perm.
  - intros k it Hin. rewrite elem_of_sorted_by in Hin. by apply d_elem_get.
Qed.

Lemma outbox_valid_Some c st it : _valid c st = Some it ->
  d_get (message_id (claim_envelope c)) (items st) = Some it /\
  stored_claim_id it = Some (claim_id c) /\ terminal it = false.
Proof.
  unfold _valid, terminal. destruct (d_get _ _) as [it0|]; [|done].
  destruct (bool_decide (stored_claim_id it0 = _)) eqn:E1; cbn; [|done].
  destruct (_ || _) eqn:E2; [done|]. intros [= <-]. by apply bool_decide_eq_true in E1.
Qed.

Lemma settle_step o c it it' st : store_inv st -> presented o = Some c -> _valid c st = Some it ->
  stored_claim_id it' = None -> terminal it' = negb (is_retry o) ->
  message_id (envelope it') = message_id (envelope it) ->
  store_step o st (set_items (d_set (message_id (claim_envelope c)) it' (items st)) st).
Proof.
  intros [Hwf _] Ho Hv H1 H2 H3. apply outbox_valid_Some in Hv as (Hget & Hid & Hterm).
  split_and!; cbn; [by apply d_set_wf|lia|]. intros k. rewrite d_get_set. case_decide; [|apply item_same].
  subst. rewrite Hget. by eapply item_settled.
Qed.

Lemma delivered_step c at_ st : store_inv st -> store_step (OpDelivered c at_) st (snd (delivered c at_ st)).
Proof.
  intros Hst. destruct (delivered c at_ st) as [r st'] eqn:Hrun. cbn.
  unfold delivered, put_item, _utc in Hrun. run Hrun; try (by apply store_step_refl).
  by eapply settle_step.
Qed.

Lemma retry_step c available st : store_inv st ->
  store_step (OpRetry c available) st (snd (retry c available st)).
Proof.
  intros Hst. destruct (retry c available st) as [r st'] eqn:Hrun. cbn.
  unfold retry, put_item, OutboxEnvelope_new, _utc in Hrun. run Hrun; try (by apply store_step_refl).
  eapply settle_step; try done. match goal with E : _valid _ _ = Some _ |- _ => by apply outbox_valid_Some in E as (_ & _ & ?) end.
Qed.

Lemma failed_step c reason at_ st : store_inv st ->
  store_step (OpFailed c reason at_) st (snd (failed c reason at_ st)).
Proof.
  intros Hst. destruct (failed c reason at_ st) as [r st'] eqn:Hrun. cbn.
  unfold failed, put_item, _utc in Hrun. run Hrun; try (by apply store_step_refl).
  eapply settle_step; try done. unfold terminal. cbn. by rewrite orb_true_r.
Qed.

(** Removing a selection of terminal items. *)
Lemma remove_step o st (chosen : list (OpaqueId * Stored P)) :
  store_inv st -> is_maintenance o = true ->
  (forall p, p ∈ chosen -> p ∈ items st /\ terminal p.2 = true) ->
  store_step o st
    (set_items (d_pop_all ((fun p => message_id (envelope p.2)) <$> chosen) (items st)) st).
Proof.
  intros [Hwf Hkey] Ho Hch. split_and!; cbn; [by apply d_pop_all_wf|lia|]. intros k.
  rewrite d_pop_all_get by done. case_decide as Hk; [|apply item_same].
  apply list_elem_of_fmap in Hk as ([k' it] & -> & Hin). apply Hch in Hin as [Hin Ht]. cbn in *.
  apply d_elem_get in Hin as Hget; [|done]. rewrite (Hkey _ _ Hget), Hget. by eapply item_removed.
Qed.

Lemma purge_step plan st : store_inv st ->
  store_step (OpPurge plan) st (snd (purge_delivered plan st)).
Proof.
  intros Hst. unfold purge_delivered. monad_unfold. cbn.
  destruct (dry_run plan); cbn; rewrite plan_summary_ok; cbn; [by apply store_step_refl|].
  apply remove_step; [done|done|]. intros p Hp. apply plan_selection_elem, list_elem_of_filter in Hp as [Hd Hp].
  split; [done|]. unfold terminal. by destruct (delivered_at p.2).
Qed.

Lemma archive_tuple_state {A} chosen (w : store P * A) : snd (archive_tuple chosen w) = w.
Proof.
  apply for_each_state. intros acc p s. unfold FailedOutboxEnvelope_new, _utc. monad_unfold.
  destruct (is_utc _); cbn; [|done]. by destruct (str_empty _).
Qed.

(** The batch handed to the archive has the envelopes of the selection, in order. *)
Lemma archive_tuple_envelopes {A} chosen (w w' : store P * A) batch :
  archive_tuple chosen w = (Ok batch, w') ->
  failed_envelope <$> batch = (fun p => envelope p.2) <$> chosen.
Proof.
  unfold archive_tuple. intros Hrun.
  match type of Hrun with for_each _ _ ?f _ = _ =>
    assert (forall l acc, for_each l acc f w = (Ok batch, w') ->
      failed_envelope <$> batch = (failed_envelope <$> acc) ++ ((fun p => envelope p.2) <$> l)) as Hgen
  end.
  { induction l as [|p l IH]; intros acc Hl; [inversion Hl; by rewrite app_nil_r|].
    cbn [for_each] in Hl. unfold FailedOutboxEnvelope_new at 1, _utc in Hl.
    apply bind_ok in Hl as (b & w1 & Hb & Hl). run Hb. apply IH in Hl.
    rewrite Hl, fmap_app, <- app_assoc. done. }
  by rewrite (Hgen _ _ Hrun).
Qed.

Lemma failed_selection_terminal plan st p : p ∈ failed_selection plan st ->
  p ∈ items st /\ terminal p.2 = true.
Proof.
  intros Hp. apply plan_selection_elem, list_elem_of_filter in Hp as [Hd Hp]. split; [done|].
  unfold terminal. destruct (failure_reason p.2); [|done]. cbn. by rewrite orb_true_r.
Qed.

(** However the archive answers, archival removes the selected failures or nothing. *)
Lemma archive_cases {A} plan (archive : list (FailedOutboxEnvelope P) -> M exn A unit) st a :
  let w' := snd (archive_failed plan archive (st, a)) in
  w' = (st, snd w') \/
  exists batch, archive_tuple (failed_selection plan st) (st, a) = (Ok batch, (st, a)) /\
    archive batch a = (Ok tt, snd w') /\
    fst w' = set_items (d_pop_all ((fun p => message_id (envelope p.2)) <$> failed_selection plan st)
      (items st)) st.
Proof.
  unfold archive_failed. monad_unfold. cbn -[archive_tuple].
  destruct (negb (dry_run plan) && _); cbn -[archive_tuple]; [|rewrite plan_summary_ok; by left].
  pose proof (archive_tuple_state (failed_selection plan st) (st, a)) as Hs.
  destruct (archive_tuple _ (st, a)) as [[batch|e] w'] eqn:Ht; cbn -[archive_tuple] in *; subst w';
    [|by left].
  unfold zoom. cbn. destruct (archive batch a) as [[[]|e] a'] eqn:Ha; cbn; [|by left].
  rewrite plan_summary_ok. cbn. right. by exists batch.
Qed.

Lemma archive_step plan st : store_inv st ->
  store_step (OpArchive plan) st (exec (OpArchive plan) st).
Proof.
  intros Hst. unfold exec.
  destruct (archive_cases plan accepting_archive st tt) as [->|(b & _ & _ & ->)]; cbn [fst].
  - by apply store_step_refl.
  - apply remove_step; [done|done|]. apply failed_selection_terminal.
Qed.

Lemma outbox_exec_step o st : store_inv st -> store_step o st (exec o st).
Proof.
  intros Hst. destruct o; [by apply add_step|by apply claim_step|by apply delivered_step
    |by apply retry_step|by apply failed_step|by apply purge_step|by apply archive_step].
Qed.

Lemma store_step_inv o st st' : store_inv st -> store_step o st st' -> store_inv st'.
Proof.
  intros [Hwf Hkey] (Hwf' & _ & Hstep). split; [done|]. intros k it' Hget.
  specialize (Hstep k). rewrite Hget in Hstep.
  inversion Hstep as [? Hx Hy|e -> Hk Hx Hy|now limit ttl it i until -> Hc Hi Hx Hy
    |c it it1 Hp Hk Hid Ht Hn Ht' Hm Hx Hy|]; subst; cbn; eauto.
  rewrite Hm. by apply Hkey.
Qed.

Lemma outbox_exec_inv o st : store_inv st -> store_inv (exec o st).
Proof. intros Hst. eapply store_step_inv; [done|by apply outbox_exec_step]. Qed.

(** ** Along a history *)

Lemma exec_all_ind (Q : store P -> Prop) (R : op P -> Prop) os st :
  store_inv st -> Q st -> Forall R os ->
  (forall o st, R o -> store_inv st -> Q st -> store_step o st (exec o st) -> Q (exec o st)) ->
  store_inv (exec_all os st) /\ Q (exec_all os st).
Proof.
  intros Hst HQ Hos Hstep. revert st Hst HQ. induction Hos as [|o os Ho _ IH]; intros st Hst HQ; cbn; [done|].
  apply IH; [by apply outbox_exec_inv|]. apply Hstep; auto using outbox_exec_step.
Qed.

(** The message [k] is held by claim [id] until the instant [x]. *)
Definition held k (id : pystr) (x : Z) st : Prop :=
  exists it until, d_get k (items st) = Some it /\ stored_claim_id it = Some id /\
    stored_claimed_until it = Some until /\ dt_instant until = x /\ terminal it = false.

(** The call leaves a claim [id] that runs until [x] alone: it claims before [x], and presents
    another claim. *)
Definition spares k (id : pystr) (x : Z) (o : op P) : Prop :=
  match o with OpClaim now _ _ => dt_instant now < x | _ => True end /\
  (forall c, presented o = Some c -> message_id (claim_envelope c) = k -> claim_id c <> id).

Lemma held_step k id x o st : spares k id x o -> store_inv st -> held k id x st ->
  store_step o st (exec o st) -> held k id x (exec o st).
Proof.
  intros [Ht Hc] _ (it & until & Hget & Hid & Hu & Hx & Hterm) (_ & _ & Hstep).
  specialize (Hstep k). rewrite Hget in Hstep.
  inversion Hstep as [? Hs Hn|e -> Hk Hs Hn|now limit ttl it0 i until0 -> Hcl Hi Hs Hn
    |c it0 it1 Hp Hk Hid0 Ht0 Hn0 Ht' Hm Hs Hn|it0 ? Ht0 Hs Hn]; simplify_eq.
  - by exists it, until.
  - unfold claimable in Hcl. rewrite Hu in Hcl. apply andb_true_iff in Hcl as [_ Hcl].
    apply negb_true_iff in Hcl. time_facts. lia.
  - exfalso. apply (Hc c); congruence.
  - congruence.
Qed.

(** No item carries the claim identifier [id]. *)
Definition unheld k (id : pystr) st : Prop :=
  forall it, d_get k (items st) = Some it -> stored_claim_id it <> Some id.

Lemma unheld_step `{!Uuid4Laws} k i o st : store_inv st ->
  unheld k (uuid4_hex i) st /\ (i < uuid_draws st)%nat -> store_step o st (exec o st) ->
  unheld k (uuid4_hex i) (exec o st) /\ (i < uuid_draws (exec o st))%nat.
Proof.
  intros _ [Hun Hi] (_ & Hle & Hstep). split; [|lia]. intros it' Hget Hid.
  specialize (Hstep k). rewrite Hget in Hstep.
  inversion Hstep as [? Hs Hn|e -> Hk Hs Hn|now limit ttl it0 j until0 -> Hcl Hj Hs Hn
    |c it0 it1 Hp Hk Hid0 Ht0 Hn0 Ht' Hm Hs Hn|]; simplify_eq; cbn in *.
  - by eapply Hun.
  - simplify_eq. apply uuid4_inj in Hid. lia.
Qed.

(** The message is on record and terminal. *)
Definition settled k st : Prop := exists it, d_get k (items st) = Some it /\ terminal it = true.

Lemma settled_step k o st : is_maintenance o = false -> store_inv st -> settled k st ->
  store_step o st (exec o st) -> settled k (exec o st).
Proof.
  intros Hm _ (it & Hget & Ht) (_ & _ & Hstep). specialize (Hstep k). rewrite Hget in Hstep.
  inversion Hstep as [? Hs Hn|e -> Hk Hs Hn|now limit ttl it0 i until0 -> Hcl Hi Hs Hn
    |c it0 it1 Hp Hk Hid0 Ht0 Hn0 Ht' Hm' Hs Hn|it0 ? Ht0 Hs Hn]; simplify_eq.
  - by exists it.
  - unfold claimable in Hcl. unfold terminal in Ht. rewrite Ht in Hcl. by rewrite andb_false_r in Hcl.
  - congruence.
  - congruence.
Qed.

Lemma claim_choice_elem now limit st p : p ∈ claim_choice now limit st ->
  claimable now p.2 = true /\ p ∈ items st.
Proof.
  intros Hin. apply elem_of_take in Hin as (j & Hj & _).
  apply list_elem_of_lookup_2, list_elem_of_filter in Hj as [Hcl Hin].
  by rewrite elem_of_sorted_by in Hin.
Qed.

Lemma claim_choice_NoDup now limit st : d_wf (items st) -> NoDup (claim_choice now limit st).*1.
Proof.
  intros Hwf. unfold claim_choice. rewrite fmap_take.
  apply sublist_NoDup with ((sorted_by claim_compare claim_key (items st)).*1); [by rewrite sorted_by_perm|].
  etransitivity; [apply sublist_take|]. apply fmap_sublist, sublist_filter.
Qed.

(** An item that is not claimable is in no answer of [claim]. *)
Lemma claim_excludes now limit ttl st cs st' k : store_inv st ->
  claim now limit ttl st = (Ok cs, st') ->
  (forall it, d_get k (items st) = Some it -> claimable now it = false) ->
  forall c, c ∈ cs -> message_id (claim_envelope c) <> k.
Proof.
  intros [Hwf Hkey] Hrun Hno c Hc.
  destruct (claim_answer now limit ttl st cs st' Hrun) as (until & _ & -> & _).
  apply (list_elem_of_fmap_2 claim_envelope) in Hc. rewrite claims_of_envelopes in Hc.
  apply list_elem_of_fmap in Hc as ([k' it] & -> & Hin). cbn.
  apply claim_choice_elem in Hin as [Hcl Hin]. apply d_elem_get in Hin as Hget; [|done].
  rewrite (Hkey _ _ Hget). intros ->. cbn [snd] in Hcl. by rewrite (Hno _ Hget) in Hcl.
Qed.

Lemma claims_of_ids n until (chosen : list (OpaqueId * Stored P)) c : c ∈ claims_of n until chosen ->
  exists i, claim_id c = uuid4_hex i /\ (n <= i < n + length chosen)%nat.
Proof.
  revert n. induction chosen as [|p ch IH]; intros n Hc; cbn in Hc; [by apply not_elem_of_nil in Hc|].
  apply elem_of_cons in Hc as [->|Hc]; cbn; [exists n; split; [done|lia]|].
  destruct (IH (S n) Hc) as (i & ? & ?). exists i. split; [done|lia].
Qed.

(** Every claim answered is drawn from a fresh identifier and recorded on its item. *)
Lemma claim_held now limit ttl st cs st' c : store_inv st ->
  claim now limit ttl st = (Ok cs, st') -> c ∈ cs ->
  held (message_id (claim_envelope c)) (claim_id c) (dt_instant now + ttl) st' /\
  exists i, claim_id c = uuid4_hex i /\ (uuid_draws st <= i < uuid_draws st')%nat.
Proof.
  intros [Hwf Hkey] Hrun Hc.
  destruct (claim_answer now limit ttl st cs st' Hrun) as (until & Hch & -> & -> & Hu & _).
  destruct Hch as [Hnil|Hadd]; [rewrite Hnil in Hc; by apply not_elem_of_nil in Hc|].
  pose proof (claim_choice_NoDup now limit st Hwf) as Hnd.
  split.
  - pose proof (claims_of_recorded (uuid_draws st) until _ (items st) Hnd) as Hrec.
    rewrite Forall_forall in Hrec. destruct (Hrec c Hc) as (k & it & Hin & He & Hget).
    apply claim_choice_elem in Hin as [Hcl Hin]. apply d_elem_get in Hin; [|done].
    rewrite He, (Hkey _ _ Hin). eexists _, until. split; [apply Hget|]. cbn.
    split_and!; [done|done|by apply dt_add_ok in Hadd as [? _]; time_facts|].
    unfold claimable in Hcl. unfold terminal in *. cbn. by destruct (_ || _); [rewrite andb_false_r in Hcl|].
  - cbn. by eapply claims_of_ids.
Qed.

(** The answers of one claim are for distinct messages. *)
Lemma claim_distinct now limit ttl st cs st' : store_inv st ->
  claim now limit ttl st = (Ok cs, st') -> NoDup ((fun c => message_id (claim_envelope c)) <$> cs).
Proof.
  intros [Hwf Hkey] Hrun. destruct (claim_answer _ _ _ _ _ _ Hrun) as (until & _ & -> & _).
  change (fun c => message_id (claim_envelope c)) with (message_id ∘ claim_envelope (P:=P)).
  rewrite list_fmap_compose, claims_of_envelopes, <- list_fmap_compose.
  rewrite (list_fmap_ext _ fst); [by apply claim_choice_NoDup|].
  intros i [k it] Hi. apply list_elem_of_lookup_2, claim_choice_elem in Hi as [_ Hin]. cbn.
  by apply Hkey, d_elem_get.
Qed.

(** The item behind an answered claim. *)
Lemma claim_held_item now limit ttl st cs st' c : store_inv st ->
  claim now limit ttl st = (Ok cs, st') -> c ∈ cs ->
  exists it it0 k, _valid c st' = Some it /\ envelope it = claim_envelope c /\
    envelope it = envelope it0 /\ (k, it0) ∈ items st.
Proof.
  intros Hst Hrun Hc. destruct (claim_answer _ _ _ _ _ _ Hrun) as (until & _ & -> & -> & _).
  pose proof (claims_of_recorded (uuid_draws st) until _ (items st) (claim_choice_NoDup now limit st (inv_items _ Hst))) as Hrec.
  rewrite Forall_forall in Hrec. destruct (Hrec c Hc) as (k & it & Hin & He & Hget).
  apply claim_choice_elem in Hin as [Hcl Hin].
  assert (message_id (envelope it) = k) as Hk by (by apply (inv_key _ Hst), d_elem_get; [apply Hst|]).
  exists (with_claim it (Some (claim_id c)) (Some until)), it, k. split_and!; [|by rewrite He|done|done].
  unfold _valid. cbn. rewrite He, Hk, Hget. cbn. rewrite bool_decide_true by done. cbn.
  unfold claimable in Hcl. destruct (_ || _); [|done]. by rewrite andb_false_r in Hcl.
Qed.

(** ** Properties *)

(** A claim answers exactly the first [limit] items, in the order of availability and
    message ID, that are due, not terminal and not held by an unexpired claim; each of them
    is recorded as held until [now + claim_ttl], and every other item is left as it is. *)
Theorem claim_selects st now limit ttl cs st' : store_inv st ->
  claim now limit ttl st = (Ok cs, st') ->
  claim_envelope <$> cs = (fun p => envelope p.2) <$> take (Z.to_nat limit)
    (filter (fun p => claimable now p.2 = true) (sorted_by claim_compare claim_key (items st))) /\
  Forall (fun c => held (message_id (claim_envelope c)) (claim_id c) (dt_instant now + ttl) st') cs /\
  (forall k, k ∉ (fun c => message_id (claim_envelope c)) <$> cs ->
    d_get k (items st') = d_get k (items st)).
Proof.
  intros Hst Hrun. split_and!.
  - destruct (claim_answer _ _ _ _ _ _ Hrun) as (until & _ & -> & _). apply claims_of_envelopes.
  - apply Forall_forall. intros c Hc. by eapply claim_held.
  - intros k Hk. destruct Hst as [Hwf Hkey].
    destruct (claim_answer _ _ _ _ _ _ Hrun) as (until & _ & -> & -> & _). cbn.
    apply claimed_items_ne. contradict Hk. apply list_elem_of_fmap in Hk as ([k' it] & -> & Hin). cbn.
    assert (message_id (envelope it) = k') as <-.
    { apply claim_choice_elem in Hin as [_ Hin]. by apply Hkey, d_elem_get. }
    change (fun c => message_id (claim_envelope c)) with (message_id ∘ claim_envelope (P:=P)).
    rewrite list_fmap_compose, claims_of_envelopes, <- list_fmap_compose.
    apply list_elem_of_fmap. by exists (message_id (envelope it), it).
Qed.

(** A claimed message has one worker until its claim expires: whatever additions, claims,
    settlements of other claims, purges and archivals happen meanwhile, no claim made before
    the expiry hands the message out again, and the holder's own [delivered] succeeds. *)
Theorem outbox_claim_exclusive st now limit ttl cs st1 c os now2 limit2 ttl2 cs2 st3 at_ :
  store_inv st ->
  claim now limit ttl st = (Ok cs, st1) -> c ∈ cs ->
  Forall (spares (message_id (claim_envelope c)) (claim_id c) (dt_instant now + ttl)) os ->
  dt_instant now2 < dt_instant now + ttl -> is_utc at_ = true ->
  (claim now2 limit2 ttl2 (exec_all os st1) = (Ok cs2, st3) ->
    forall c2, c2 ∈ cs2 -> message_id (claim_envelope c2) <> message_id (claim_envelope c)) /\
  fst (delivered c at_ (exec_all os st1)) = Ok true.
Proof.
  intros Hst Hrun Hc Hos Hnow Hat.
  destruct (claim_held _ _ _ _ _ _ _ Hst Hrun Hc) as [Hheld _].
  assert (store_inv st1) as Hst1.
  { replace st1 with (exec (OpClaim now limit ttl) st) by (cbn; by rewrite Hrun). by apply outbox_exec_inv. }
  destruct (exec_all_ind _ _ os st1 Hst1 Hheld Hos (held_step _ _ _)) as [Hst2 Hheld2].
  destruct Hheld2 as (it & until & Hget & Hid & Hu & Hx & Hterm). split.
  - intros Hrun2. eapply claim_excludes; [done..|]. intros it' Hit'. rewrite Hget in Hit'. simplify_eq.
    unfold claimable. rewrite Hu, (proj2 (dt_ltb_lt now2 until)) by lia. apply andb_false_r.
  - unfold delivered, _valid, _utc. monad_unfold. rewrite Hat. cbn. rewrite Hget, Hid.
    rewrite bool_decide_true by done. unfold terminal in Hterm. cbn. by rewrite Hterm.
Qed.

(** A superseded claim is fenced off: once the message was claimed again, the earlier
    claim settles nothing, at any later point of any history. *)
Theorem outbox_superseded_claim_stale `{!Uuid4Laws} st now1 limit1 ttl1 cs1 st1 c1 os1
    now2 limit2 ttl2 cs2 st3 c2 os2 at_ reason :
  store_inv st ->
  claim now1 limit1 ttl1 st = (Ok cs1, st1) -> c1 ∈ cs1 ->
  claim now2 limit2 ttl2 (exec_all os1 st1) = (Ok cs2, st3) -> c2 ∈ cs2 ->
  message_id (claim_envelope c2) = message_id (claim_envelope c1) ->
  is_utc at_ = true -> str_empty reason = false ->
  let st4 := exec_all os2 st3 in
  delivered c1 at_ st4 = (Ok false, st4) /\ retry c1 at_ st4 = (Ok false, st4) /\
  failed c1 reason at_ st4 = (Ok false, st4).
Proof.
  intros Hst Hrun1 Hc1 Hrun2 Hc2 Hk Hat Hreason st4.
  destruct (claim_held _ _ _ _ _ _ _ Hst Hrun1 Hc1) as [_ (i & Hi & Hlt)].
  assert (store_inv st1) as Hst1.
  { replace st1 with (exec (OpClaim now1 limit1 ttl1) st) by (cbn; by rewrite Hrun1). by apply outbox_exec_inv. }
  destruct (exec_all_ind (fun s => i < uuid_draws s)%nat (fun _ => True) os1 st1 Hst1) as [Hst2 Hi2];
    [lia|by apply Forall_true|intros o s _ _ Hx (_ & Hle & _); eapply Nat.lt_le_trans; [exact Hx|exact Hle]|].
  destruct (claim_held _ _ _ _ _ _ _ Hst2 Hrun2 Hc2) as [Hheld (j & Hj & Hlt')].
  assert (store_inv st3) as Hst3.
  { replace st3 with (exec (OpClaim now2 limit2 ttl2) (exec_all os1 st1)) by (cbn; by rewrite Hrun2).
    by apply outbox_exec_inv. }
  destruct (exec_all_ind (fun s => unheld (message_id (claim_envelope c1)) (uuid4_hex i) s /\ (i < uuid_draws s)%nat)
    (fun _ => True) os2 st3 Hst3) as [_ [Hun _]];
    [|by apply Forall_true|intros o s _; apply unheld_step|].
  { split; [|lia]. intros it Hget Hid. rewrite <- Hk in Hget.
    destruct Hheld as (it2 & until & Hget2 & Hid2 & _).
    assert (uuid4_hex i = uuid4_hex j) as Heq by congruence. apply uuid4_inj in Heq. lia. }
  assert (_valid c1 st4 = None) as Hv.
  { destruct (_valid c1 st4) as [it|] eqn:Hv; [|done]. apply outbox_valid_Some in Hv as (Hget & Hid & _).
    exfalso. apply (Hun it Hget). by rewrite <- Hi. }
  unfold delivered, retry, failed, _utc. split_and!; monad_unfold; rewrite ?Hat; cbn;
    rewrite ?Hreason; cbn; by rewrite Hv.
Qed.

(** Settlement is final and nothing is lost: after a message was delivered or failed,
    whatever calls follow except maintenance, it is never handed out again and its message ID
    stays reserved. *)
Theorem outbox_settlement_final st o c st1 os now limit ttl cs st3 e :
  store_inv st ->
  ((exists at_, o = OpDelivered c at_ /\ delivered c at_ st = (Ok true, st1)) \/
   (exists reason at_, o = OpFailed c reason at_ /\ failed c reason at_ st = (Ok true, st1))) ->
  Forall (fun o => is_maintenance o = false) os ->
  message_id e = message_id (claim_envelope c) ->
  (claim now limit ttl (exec_all os st1) = (Ok cs, st3) ->
    forall c2, c2 ∈ cs -> message_id (claim_envelope c2) <> message_id (claim_envelope c)) /\
  add e (exec_all os st1) = (Ok OutboxDuplicate, exec_all os st1).
Proof.
  intros Hst Hset Hos He.
  assert (store_inv st1 /\ settled (message_id (claim_envelope c)) st1) as [Hst1 Hdone].
  { destruct Hset as [(at_ & _ & Hrun)|(reason & at_ & _ & Hrun)].
    - split; [replace st1 with (exec (OpDelivered c at_) st) by (cbn; by rewrite Hrun); by apply outbox_exec_inv|].
      unfold delivered, put_item, _utc in Hrun. run Hrun. eexists. split; [apply d_get_set_eq|done].
    - split; [replace st1 with (exec (OpFailed c reason at_) st) by (cbn; by rewrite Hrun); by apply outbox_exec_inv|].
      unfold failed, put_item, _utc in Hrun. run Hrun. eexists.
      split; [apply d_get_set_eq|]. unfold terminal. cbn. by rewrite orb_true_r. }
  destruct (exec_all_ind _ _ os st1 Hst1 Hdone Hos (settled_step _)) as [Hst2 (it & Hget & Hterm)].
  split.
  - intros Hrun2. eapply claim_excludes; [done..|]. intros it' Hit'. rewrite Hget in Hit'. simplify_eq.
    unfold claimable. unfold terminal in Hterm. rewrite Hterm. cbn. by rewrite andb_false_r.
  - unfold add. monad_unfold. rewrite He, (proj2 (d_mem_true _ _)) by eauto. done.
Qed.

(** The items that an archival with this plan leaves. *)
Definition without_selection plan st : dict OpaqueId (Stored P) :=
  d_pop_all ((fun p => message_id (envelope p.2)) <$> failed_selection plan st) (items st).

(** Archival never loses a failure: when [archive] (or the building of its batch) raises,
    the store is unchanged, so every failed envelope is still there; when the store changes,
    the archive has returned normally for exactly the envelopes that are removed. *)
Theorem archive_failed_keeps {A} plan (archive : list (FailedOutboxEnvelope P) -> M exn A unit) st a e w' :
  archive_failed plan archive (st, a) = (e, w') ->
  fst w' = st \/
  exists batch, failed_envelope <$> batch = (fun p => envelope p.2) <$> failed_selection plan st /\
    archive batch a = (Ok tt, snd w') /\
    items (fst w') = without_selection plan st.
Proof.
  intros Hrun. pose proof (archive_cases plan archive st a) as Hc. rewrite Hrun in Hc. cbn in Hc.
  destruct Hc as [->|(batch & Ht & ? & ->)]; [by left|right]. exists batch.
  split_and!; [by eapply archive_tuple_envelopes|done..].
Qed.
End Histories.

(** ** The retry delays *)

Section DelayBounds.
Variable math_log : spec_float -> spec_float.
Variable float_pow : spec_float -> Z -> result exn spec_float.

Definition policy_ok (p : RetryPolicy) : Prop :=
  0 < initial_delay p /\ 0 < maximum_delay p /\
  isfinite (multiplier p) = true /\ int_le_float 1 (multiplier p) = true /\ 0 < max_attempts p.

Lemma RetryPolicy_new_ok {S} i m x n (s s' : S) p :
  RetryPolicy_new i m x n s = (Ok p, s') -> policy_ok p.
Proof.
  unfold RetryPolicy_new. intros Hrun. monad_unfold.
  destruct ((i <=? 0)%Z || _) eqn:H1; cbn in Hrun; [done|].
  destruct (_ || (n <=? 0)%Z) eqn:H2; cbn in Hrun; [done|]. simplify_eq.
  apply orb_false_iff in H1 as [? ?]. apply orb_false_iff in H2 as [H2 ?].
  apply orb_false_iff in H2 as [H2 H3]. apply negb_false_iff in H2, H3. time_facts.
  split_and!; cbn; auto; lia.
Qed.

Lemma divide_and_round_ge t p q : 0 < q -> t * q <= p -> t <= divide_and_round p q.
Proof.
  intros Hq Hp. assert (t <= p / q) by (apply Z.div_le_lower_bound; lia).
  unfold divide_and_round. destruct (_ || _); lia.
Qed.

(** Multiplying a delay by a factor of at least one does not shorten it. *)
Lemma times_float_ge t f d : 0 < t -> int_le_float 1 f = true ->
  timedelta_times_float t f = Ok d -> t <= d.
Proof.
  intros Ht Hf. unfold timedelta_times_float, timedelta_check.
  destruct f as [sg|sg| |sg m e]; try done. cbn [int_le_float] in Hf.
  destruct (0 <=? e)%Z eqn:He; destruct (Z.abs _ <=? _)%Z; intros [= <-]; apply Z.leb_le in Hf; time_facts; [nia|].
  apply divide_and_round_ge; [by apply Z.pow_pos_nonneg; lia|].
  rewrite Z.mul_1_l in Hf. nia.
Qed.

(** Every retry delay lies between [min(initial_delay, maximum_delay)] and
    [maximum_delay]: for a policy the constructor accepts and an attempt number from one on,
    [delay] answers such a value, unless the power or the product of the back-off is
    outside the range of its type, and then that error is raised. *)
Theorem delay_bounded p n :
  (forall m k f, isfinite m = true -> int_le_float 1 m = true -> 0 <= k ->
    float_pow m k = Ok f -> int_le_float 1 f = true) ->
  policy_ok p -> 1 <= n ->
  match delay math_log float_pow p n with
  | Ok d => Z.min (initial_delay p) (maximum_delay p) <= d <= maximum_delay p
  | Raise e => float_pow (multiplier p) (n - 1) = Raise e \/
      exists f, float_pow (multiplier p) (n - 1) = Ok f /\
        timedelta_times_float (initial_delay p) f = Raise e
  end.
Proof.
  intros Hpow (Hi & Hx & Hfin & Hm & _) Hn. unfold delay.
  rewrite (proj2 (Z.ltb_ge n 1)) by lia.
  destruct (maximum_delay p <=? initial_delay p)%Z eqn:Hle; time_facts; [lia|].
  destruct (float_eq_int _ _); [lia|]. destruct (float_le_int _ _); [lia|].
  destruct (float_pow (multiplier p) (n - 1)) as [f|e] eqn:Hf; [|by left].
  apply Hpow in Hf as Hf1; [|done|done|lia].
  destruct (timedelta_times_float (initial_delay p) f) as [d|e] eqn:Hd; [|right; by eauto].
  apply times_float_ge in Hd; [lia|done|done].
Qed.
End DelayBounds.

(** ** A round of the dispatcher *)

Section Dispatch.
Context {P A : Type} `{Uuid4}.
Variable math_log : spec_float -> spec_float.
Variable float_pow : spec_float -> Z -> result exn spec_float.
Variable h : OutboxEnvelope P -> M exn A DeliveryResult.
Variable policy : RetryPolicy.
Variable ttl : timedelta.
Variable now : datetime.

(** The handler's state is the consumer's own, next to the store. *)
#[local] Instance dispatch_store : OutboxStore (store P * A) P := zoomed_OutboxStore fst_lens.
#[local] Instance dispatch_clock : Clock (store P * A) := ret now.

Definition round (limit : Z) : M exn (store P * A) DispatchSummary :=
  dispatch math_log float_pow (fun e => zoom snd_lens (h e)) policy ttl limit.

Definition envelope_ok (e : OutboxEnvelope P) : Prop :=
  is_utc (occurred_at e) = true /\ str_empty (topic e) = false /\ 0 <= attempt e.

(** Results as their constructors build them. *)
Definition answer_ok (r : DeliveryResult) : Prop :=
  match r with Retryable reason | PermanentFailure reason => str_empty reason = false | _ => True end.

(** *** What a round makes of an item *)

(** The item a delivery result leaves. *)
Definition settles (it : Stored P) (r : DeliveryResult) (it' : Stored P) : Prop :=
  let refused reason := it' = mkStored (envelope it) None None (delivered_at it) (Some reason) (Some now) in
  match r with
  | Delivered => it' = mkStored (envelope it) None None (Some now) (failure_reason it) (failed_at it)
  | Retryable reason =>
      let e := envelope it in
      if attempt e + 1 <? max_attempts policy
      then exists wait, delay math_log float_pow policy (attempt e + 1) = Ok wait /\
        it' = mkStored (mkEnvelope (message_id e) (topic e) (payload e) (occurred_at e) (utc (dt_wall now + wait)) (attempt e + 1))
          None None (delivered_at it) (failure_reason it) (failed_at it)
      else refused reason
  | PermanentFailure reason => refused reason
  | UnknownResult => refused "failed"%py
  end.

(** The counter of a result: delivered, retried, failed. *)
Definition counter (e : OutboxEnvelope P) (r : DeliveryResult) : Z * Z * Z :=
  match r with
  | Delivered => (1, 0, 0)
  | Retryable _ => if attempt e + 1 <? max_attempts policy then (0, 1, 0) else (0, 0, 1)
  | PermanentFailure _ | UnknownResult => (0, 0, 1)
  end.
Definition plus3 (x y : Z * Z * Z) : Z * Z * Z := (x.1.1 + y.1.1, x.1.2 + y.1.2, x.2 + y.2).
Fixpoint tally (es : list (OutboxEnvelope P)) (rs : list DeliveryResult) : Z * Z * Z :=
  match es, rs with
  | e :: es, r :: rs => plus3 (counter e r) (tally es rs)
  | _, _ => (0, 0, 0)
  end.

(** The handler runs on one envelope after the other. *)
Inductive handled : list (OutboxEnvelope P) -> A -> list DeliveryResult -> A -> Prop :=
  | handled_nil a : handled [] a [] a
  | handled_cons e es a r a1 rs a' : h e a = (Ok r, a1) -> handled es a1 rs a' -> handled (e :: es) a (r :: rs) a'.

Hypothesis handler_returns : forall e a, exists r a', h e a = (Ok r, a') /\ answer_ok r.
Hypothesis delays_fit : forall n, 1 <= n ->
  exists d, delay math_log float_pow policy n = Ok d /\ 0 <= dt_wall now + d <= dt_max.
Hypothesis now_utc : is_utc now = true.

(** The claim [c] owns the item [it] of the store. *)
Definition owned (c : OutboxClaim P) (it : Stored P) (st : store P) : Prop :=
  (exists id until, _valid c st = Some (with_claim it id until)) /\ envelope it = claim_envelope c /\ envelope_ok (envelope it).

Lemma outbox_owned_other c (c' : OutboxClaim P) it it' st : owned c it st ->
  message_id (claim_envelope c') <> message_id (claim_envelope c) ->
  owned c it (set_items (d_set (message_id (claim_envelope c')) it' (items st)) st).
Proof.
  intros ((id & until & Hv) & He) Hne. split; [exists id, until|done]. unfold _valid in *. cbn. by rewrite d_get_set_ne.
Qed.

(** A failure of an owned claim. *)
Lemma failed_settles c it st a acc reason : owned c it st -> str_empty reason = false ->
  (let! ok := port_failed c reason now in ret (acc.1.1, acc.1.2, acc.2 + int_of_bool ok)) (st, a) =
    (Ok (plus3 acc (0, 0, 1)), (set_items (d_set (message_id (claim_envelope c))
       (mkStored (envelope it) None None (delivered_at it) (Some reason) (Some now)) (items st)) st, a)).
Proof.
  intros ((id & until & Hv) & _) Hr. cbn. unfold failed, zoom, put_item, _utc. monad_unfold. cbn.
  rewrite now_utc. cbn. rewrite Hr. cbn. rewrite Hv. cbn. unfold plus3. cbn. by rewrite !Z.add_0_r.
Qed.

Lemma owned_rest (c0 : OutboxClaim P) it' (cs : list (OutboxClaim P)) its st : message_id (claim_envelope c0) ∉ (fun c => message_id (claim_envelope c)) <$> cs ->
  Forall2 (fun c it => owned c it st) cs its ->
  Forall2 (fun c it => owned c it (set_items (d_set (message_id (claim_envelope c0)) it' (items st)) st)) cs its.
Proof.
  intros Hc. induction 1 as [|c' it cs its Ho _ IH]; [constructor|]. cbn in Hc. apply not_elem_of_cons in Hc as [Hne Hc].
  constructor; [by apply outbox_owned_other|by apply IH].
Qed.

(** One owned claim: the handler's answer is settled and counted once. *)
Lemma dispatch_one_settles acc c it st a : owned c it st ->
  exists r it' a',
    h (claim_envelope c) a = (Ok r, a') /\ settles it r it' /\
    dispatch_one math_log float_pow (fun e => zoom snd_lens (h e)) policy now acc c (st, a) =
      (Ok (plus3 acc (counter (claim_envelope c) r)), (set_items (d_set (message_id (claim_envelope c)) it' (items st)) st, a')).
Proof.
  intros Hown. pose proof Hown as ((id & until & Hv) & He & Hocc & Htop & Hatt). destruct acc as [[d n] f]. unfold dispatch_one.
  destruct (handler_returns (claim_envelope c) a) as (res & a' & Hh & Hres). exists res.
  assert (zoom snd_lens (h (claim_envelope c)) (st, a) = (Ok res, (st, a'))) as Hz
    by (unfold zoom; cbn; by rewrite Hh).
  rewrite (bind_run _ _ _ _ _ Hz). clear Hz. unfold settles, counter. rewrite He.
  pose proof (fun reason => failed_settles c it st a' (d, n, f) reason Hown) as Hfail. cbn [fst snd] in Hfail. rewrite He in Hfail.
  destruct res as [|reason|reason|]; cbn in Hres.
  - eexists _, a'. split_and!; [done..|].
    cbn. unfold delivered, zoom, put_item, _utc. monad_unfold. cbn. rewrite now_utc. cbn. rewrite Hv. cbn. rewrite He. unfold plus3. cbn. by rewrite !Z.add_0_r.
  - destruct (_ <? max_attempts policy)%Z; [|eexists _, a'; split_and!; [done|reflexivity|by apply Hfail]].
    destruct (delays_fit (attempt (claim_envelope c) + 1)) as (w & Hw & Hfit); [rewrite <- He; lia|].
    assert (dt_add now w = Ok (utc (dt_wall now + w))) as Hadd.
    { rewrite (is_utc_eq now now_utc). by apply dt_add_utc. }
    eexists _, a'. split_and!; [done|exists w; by split|]. rewrite He in Hocc, Htop, Hatt.
    unfold lift, bind at 1. rewrite Hw. cbn. unfold bind at 1. rewrite Hadd. unfold retry, zoom, put_item, OutboxEnvelope_new, _utc.
    monad_unfold. cbn. rewrite !is_utc_utc. cbn. rewrite Hv. cbn. rewrite He, Hocc, Htop. cbn.
    rewrite (proj2 (Z.ltb_ge _ _)) by lia. cbn. unfold plus3. cbn. by rewrite !Z.add_0_r.
  - eexists _, a'. split_and!; [done|reflexivity|by apply Hfail].
  - eexists _, a'. split_and!; [done|reflexivity|by apply Hfail].
Qed.

Lemma plus3_assoc x y z : plus3 (plus3 x y) z = plus3 x (plus3 y z).
Proof. unfold plus3. cbn. by rewrite !Z.add_assoc. Qed.
Lemma tally_sum es rs : length es = length rs -> (tally es rs).1.1 + (tally es rs).1.2 + (tally es rs).2 = Z.of_nat (length es).
Proof.
  revert rs. induction es as [|e es IH]; intros [|r rs] Hl; cbn [length] in Hl; try done. cbn [tally length].
  specialize (IH rs ltac:(lia)). unfold plus3. cbn [fst snd]. unfold counter. destruct r; [| |cbn; lia..]; [cbn; lia|]. case_match; cbn; lia.
Qed.

(** The claims of a round, each with the item it owns, are settled one after the other. *)
Lemma dispatch_loop_settles (cs : list (OutboxClaim P)) its : NoDup ((fun c => message_id (claim_envelope c)) <$> cs) ->
  forall acc st a, Forall2 (fun c it => owned c it st) cs its ->
  exists rs st' a',
    for_each cs acc (dispatch_one math_log float_pow (fun e => zoom snd_lens (h e)) policy now) (st, a) =
      (Ok (plus3 acc (tally (claim_envelope <$> cs) rs)), (st', a')) /\
    handled (claim_envelope <$> cs) a rs a' /\
    Forall2 (fun c x => exists it', d_get (message_id (claim_envelope c)) (items st') = Some it' /\ settles x.1 x.2 it') cs (zip its rs) /\
    (forall k, k ∉ (fun c => message_id (claim_envelope c)) <$> cs -> d_get k (items st') = d_get k (items st)).
Proof.
  intros Hnd acc st a Hown. revert Hnd acc st a Hown. revert its. induction cs as [|c cs IH]; intros its Hnd acc st a Hown.
  { inversion Hown; subst. exists [], st, a. split_and!; [|constructor|constructor|done]. cbn. unfold plus3. cbn. rewrite !Z.add_0_r. by destruct acc as [[]]. }
  apply Forall2_cons_inv_l in Hown as (it & its' & Ho & Hos & ->). cbn in Hnd. apply NoDup_cons in Hnd as [Hc Hnd].
  destruct (dispatch_one_settles acc c it st a Ho) as (r & it' & a1 & Hh & Hset & Hrun).
  cbn [for_each]. rewrite (bind_run _ _ _ _ _ Hrun).
  destruct (IH its' Hnd (plus3 acc (counter (claim_envelope c) r)) _ a1 (owned_rest c it' cs its' st Hc Hos)) as (rs & st' & a' & Hrun' & Hall & Hsets & Hframe).
  exists (r :: rs), st', a'. split_and!.
  - cbn [fmap list_fmap tally]. by rewrite <- plus3_assoc.
  - by eapply handled_cons.
  - constructor; [|done]. exists it'. split; [|done]. rewrite Hframe by done. cbn. by rewrite d_get_set_eq.
  - intros k Hk. cbn in Hk. apply not_elem_of_cons in Hk as [Hne Hk]. rewrite Hframe by done. cbn. by rewrite d_get_set_ne.
Qed.

(** The claims of a round own the items [claim] chose. *)
Lemma claims_of_aligned n until (chosen : list (OpaqueId * Stored P)) d : NoDup chosen.*1 ->
  Forall2 (fun c p => claim_envelope c = envelope p.2 /\ d_get p.1 (claimed_items n until chosen d) = Some (with_claim p.2 (Some (claim_id c)) (Some until)))
    (claims_of n until chosen) chosen.
Proof.
  revert n d. induction chosen as [|[k it] ch IH]; intros n d Hnd; cbn in *; [constructor|].
  apply NoDup_cons in Hnd as [Hk Hnd]. constructor; [|by apply IH]. by rewrite claimed_items_ne, d_get_set_eq by done.
Qed.

Lemma claimed_owned limit st cs st1 : store_inv st -> Forall (fun p => envelope_ok (envelope p.2)) (items st) ->
  claim now limit ttl st = (Ok cs, st1) ->
  Forall2 (fun c p => message_id (claim_envelope c) = p.1 /\ owned c p.2 st1) cs (claim_choice now limit st) /\
  (forall k, k ∉ (claim_choice now limit st).*1 -> d_get k (items st1) = d_get k (items st)).
Proof.
  intros Hst Henv Hrun. destruct (claim_answer _ _ _ _ _ _ Hrun) as (until & _ & -> & -> & _).
  split; [|intros k Hk; by apply claimed_items_ne].
  pose proof (claims_of_aligned (uuid_draws st) until _ (items st) (claim_choice_NoDup now limit st (inv_items _ Hst))) as Hall.
  rewrite Forall2_lookup in Hall |- *. intros i. specialize (Hall i).
  inversion Hall as [c [k it] [He Hget] Hc Hp|]; constructor. cbn [fst snd] in *.
  symmetry in Hp. apply list_elem_of_lookup_2, claim_choice_elem in Hp as [Hcl Hin]. rewrite Forall_forall in Henv. cbn [snd] in Hcl.
  assert (message_id (envelope it) = k) as Hk by (by apply (inv_key _ Hst), d_elem_get; [apply Hst|]).
  split; [by rewrite He|]. split; [|by split; [|apply (Henv (k, it))]]. eexists _, _. unfold _valid. cbn. rewrite He, Hk, Hget. cbn.
  rewrite bool_decide_true by done. cbn. unfold claimable in Hcl. destruct (_ || _); [by rewrite andb_false_r in Hcl|done].
Qed.

(** C34. A dispatcher round settles every message it claims, once: when the handler returns a
    result for every envelope and the back-off fits the calendar, [dispatch] returns. It claims
    exactly the messages due, at most [limit]; the handler ran once on each of them, in order;
    each of their items is what its result makes of it - delivered now, available again later
    with one more attempt, or failed with the reason - and held by no claim; every other item
    is as it was; and the summary counts the results. *)
Theorem dispatch_settles_all limit st a :
  store_inv st -> Forall (fun p => envelope_ok (envelope p.2)) (items st) ->
  0 < limit -> 0 < ttl -> 0 <= dt_wall now + ttl <= dt_max ->
  let chosen := claim_choice now limit st in
  let envelopes := (fun p => envelope p.2) <$> chosen in
  exists s st' a' rs, round limit (st, a) = (Ok s, (st', a')) /\
    sum_claimed s = Z.of_nat (length chosen) /\ sum_claimed s <= limit /\
    sum_delivered s + sum_retried s + sum_failed s = sum_claimed s /\
    (sum_delivered s, sum_retried s, sum_failed s) = tally envelopes rs /\
    handled envelopes a rs a' /\
    Forall2 (fun p r => exists it', d_get p.1 (items st') = Some it' /\ settles p.2 r it') chosen rs /\
    (forall k, k ∉ chosen.*1 -> d_get k (items st') = d_get k (items st)).
Proof.
  intros Hst Henv Hl Ht Hfit chosen envelopes.
  assert (dt_add now ttl = Ok (utc (dt_wall now + ttl))) as Hadd.
  { rewrite (is_utc_eq now now_utc). by apply dt_add_utc. }
  pose proof (claim_runs now limit ttl _ st now_utc Hl Ht Hadd) as Hclaim.
  destruct (claim now limit ttl st) as [[cs|e] st1] eqn:Hrun; [clear Hclaim|done].
  destruct (claimed_owned limit st cs st1 Hst Henv Hrun) as [Hown Hframe1]. fold chosen in Hown, Hframe1.
  assert (claim_envelope <$> cs = envelopes) as Hes by (apply claim_selects in Hrun as (? & _); done).
  assert ((fun c => message_id (claim_envelope c)) <$> cs = chosen.*1) as Hids.
  { clear -Hown. induction Hown as [|c p cs ch [Hid _] _ IH]; [done|]. cbn. by rewrite Hid, IH. }
  destruct (dispatch_loop_settles cs chosen.*2) with (acc := (0, 0, 0)) (st := st1) (a := a)
    as (rs & st' & a' & Hloop & Hhand & Hset & Hframe).
  - by eapply claim_distinct.
  - apply Forall2_fmap_r. eapply Forall2_impl; [exact Hown|]. by intros c p [_ ?].
  - rewrite Hes, Hids in *. assert (length chosen = length rs) as Hlen.
    { clear -Hhand. subst envelopes. rewrite <- (length_fmap (fun p => envelope p.2) chosen). induction Hhand; cbn; congruence. }
    pose proof (tally_sum envelopes rs) as Hsum. unfold envelopes in Hsum at 1 5. rewrite length_fmap in Hsum. specialize (Hsum Hlen).
    assert (length cs = length chosen) as Hcs by by eapply Forall2_length.
    destruct (tally envelopes rs) as [[d r] f] eqn:Htally. cbn in Hsum.
    exists (mkDispatchSummary (Z.of_nat (length cs)) d r f), st', a', rs. split_and!; try done.
    + unfold round, dispatch. cbn [clock_now dispatch_clock]. erewrite bind_run; [|reflexivity].
      erewrite bind_run; [|cbn; unfold zoom; cbn; rewrite Hrun; reflexivity].
      by rewrite (bind_run _ _ _ _ _ Hloop).
    + cbn. by rewrite Hcs.
    + cbn. rewrite Hcs. unfold chosen, claim_choice. rewrite length_take. lia.
    + cbn. by rewrite Hcs.
    + clear -Hset Hown Hlen. revert rs Hset Hlen. induction Hown as [|c p cs ch [Hid _] _ IH]; intros [|r rs] Hset Hlen; try done.
      cbn in Hset. apply Forall2_cons_1 in Hset as [Hx Hset]. constructor; [by rewrite <- Hid|]. apply IH; [done|]. cbn in Hlen. lia.
    + intros k Hk. rewrite Hframe by done. by apply Hframe1.
Qed.
End Dispatch.

(** ** Concrete runs *)

Section Witnesses.
#[local] Existing Instance unary_uuid.
#[local] Existing Instance unary_uuid_laws.

Definition demo_env (id : pystr) (w : Z) : OutboxEnvelope Z :=
  mkEnvelope (mkOpaqueId id) "t" 7 (utc w) (utc w) 0.
Definition demo_store : store Z :=
  exec_all [OpAdd (demo_env "b" 100); OpAdd (demo_env "a" 90)] (mkStore 5 [] 0).
Definition demo_claims : list (OutboxClaim Z) :=
  [mkClaim (uuid4_hex 0) (demo_env "a" 90) (utc 170)].
Definition demo_claim : OutboxClaim Z := mkClaim (uuid4_hex 0) (demo_env "a" 90) (utc 170).
Definition demo_claimed : store Z := exec (OpClaim (utc 120) 1 50) demo_store.
Definition demo_reclaimed : store Z := exec (OpClaim (utc 170) 1 50) demo_claimed.
Definition demo_delivered : store Z := exec (OpDelivered demo_claim (utc 130)) demo_claimed.

Lemma outbox_demo_store_inv : store_inv demo_store.
Proof. apply outbox_exec_inv, outbox_exec_inv, outbox_inv_initial. Qed.

Lemma outbox_demo_claimed_inv : store_inv demo_claimed.
Proof. apply outbox_exec_inv, outbox_demo_store_inv. Qed.

Lemma claim_selects_witness :
  claim_envelope <$> demo_claims = (fun p => envelope p.2) <$> take 1
    (filter (fun p => claimable (utc 120) p.2 = true)
      (sorted_by claim_compare claim_key (items demo_store))) /\
  Forall (fun c => held (message_id (claim_envelope c)) (claim_id c) 170 demo_claimed) demo_claims /\
  (forall k, k ∉ (fun c => message_id (claim_envelope c)) <$> demo_claims ->
    d_get k (items demo_claimed) = d_get k (items demo_store)).
Proof.
  apply (claim_selects demo_store (utc 120) 1 50); [apply outbox_demo_store_inv|vm_compute; reflexivity].
Defined.

Lemma outbox_claim_exclusive_witness :
  (claim (utc 169) 5 10 demo_claimed =
    (Ok [mkClaim (uuid4_hex 1) (demo_env "b" 100) (utc 179)], exec (OpClaim (utc 169) 5 10) demo_claimed) ->
    forall c2, c2 ∈ [mkClaim (uuid4_hex 1) (demo_env "b" 100) (utc 179)] ->
      message_id (claim_envelope c2) <> message_id (claim_envelope demo_claim)) /\
  fst (delivered demo_claim (utc 169) demo_claimed) = Ok true.
Proof.
  apply (outbox_claim_exclusive demo_store (utc 120) 1 50 demo_claims demo_claimed demo_claim []
    (utc 169) 5 10 _ (exec (OpClaim (utc 169) 5 10) demo_claimed) (utc 169));
    [apply outbox_demo_store_inv|vm_compute; reflexivity|left|constructor|vm_compute; reflexivity|reflexivity].
Defined.

Lemma outbox_superseded_claim_stale_witness :
  delivered demo_claim (utc 175) demo_reclaimed = (Ok false, demo_reclaimed).
Proof.
  apply (outbox_superseded_claim_stale demo_store (utc 120) 1 50 demo_claims demo_claimed demo_claim []
    (utc 170) 1 50 [mkClaim (uuid4_hex 1) (demo_env "a" 90) (utc 220)] demo_reclaimed
    (mkClaim (uuid4_hex 1) (demo_env "a" 90) (utc 220)) [] (utc 175) "r");
    [apply outbox_demo_store_inv|vm_compute; reflexivity|left|vm_compute; reflexivity|left
    |reflexivity|reflexivity|reflexivity].
Defined.

Lemma outbox_settlement_final_witness :
  add (demo_env "a" 999) demo_delivered = (Ok OutboxDuplicate, demo_delivered).
Proof.
  apply (outbox_settlement_final demo_claimed (OpDelivered demo_claim (utc 130)) demo_claim demo_delivered []
    (utc 500) 5 10 [mkClaim (uuid4_hex 1) (demo_env "b" 100) (utc 510)]
    (exec (OpClaim (utc 500) 5 10) demo_delivered) (demo_env "a" 999));
    [apply outbox_demo_claimed_inv|left; exists (utc 130); split; [reflexivity|vm_compute; reflexivity]
    |constructor|reflexivity].
Defined.

Definition demo_failed : store Z := exec (OpFailed demo_claim "bad" (utc 130)) demo_claimed.

Lemma archive_failed_keeps_witness :
  let w' := snd (archive_failed (mkMaintenancePlan (utc 200) 5 false false)
    (fun _ => raise (RuntimeError "disk full")) (demo_failed, tt)) in
  fst w' = demo_failed \/
  exists batch, failed_envelope <$> batch =
      (fun p => envelope p.2) <$> failed_selection (mkMaintenancePlan (utc 200) 5 false false) demo_failed /\
    (raise (RuntimeError "disk full") : M exn unit unit) tt = (Ok tt, snd w') /\
    items (fst w') = without_selection (mkMaintenancePlan (utc 200) 5 false false) demo_failed.
Proof.
  eapply (archive_failed_keeps (mkMaintenancePlan (utc 200) 5 false false)
    (fun _ => raise (RuntimeError "disk full")) demo_failed tt). vm_compute. reflexivity.
Defined.

(** The C library's [log] replaced by a constant one, its [pow] by the factor two: a policy
    of one second at most two minutes. *)
Definition demo_policy : RetryPolicy := mkRetryPolicy (seconds 1) float_two (minutes 2) 10.
Definition demo_log : spec_float -> spec_float :=
  fun x => if float_eq_int x 2 then float_one else S754_finite false 7881299347898368 (-50).
Definition demo_pow : spec_float -> Z -> result exn spec_float := fun _ _ => Ok float_two.

Lemma delay_bounded_witness :
  match delay demo_log demo_pow demo_policy 2 with
  | Ok d => Z.min (seconds 1) (minutes 2) <= d <= minutes 2
  | Raise e => demo_pow float_two (2 - 1) = Raise e \/
      exists f, demo_pow float_two (2 - 1) = Ok f /\ timedelta_times_float (seconds 1) f = Raise e
  end.
Proof.
  apply (delay_bounded demo_log demo_pow demo_policy 2).
  - intros m k f _ _ _ [= <-]. reflexivity.
  - split_and!; reflexivity.
  - lia.
Defined.

(** The delay of the second attempt, computed. *)
Example demo_delay : delay demo_log demo_pow demo_policy 2 = Ok (seconds 2).
Proof. vm_compute. reflexivity. Qed.

Definition demo_handler (e : OutboxEnvelope Z) : M exn Z DeliveryResult := fun a => (Ok (Retryable "later"), a + 1).
Definition flat_policy : RetryPolicy := mkRetryPolicy (seconds 1) float_two (seconds 1) 10.

Definition demo_choice : list (OpaqueId * Stored Z) := claim_choice (utc 120) 5 demo_store.

Lemma dispatch_settles_all_witness :
  exists s st' a' rs, round demo_log demo_pow demo_handler flat_policy 50 (utc 120) 5 (demo_store, 0) = (Ok s, (st', a')) /\
    sum_claimed s = Z.of_nat (length demo_choice) /\ sum_claimed s <= 5 /\
    sum_delivered s + sum_retried s + sum_failed s = sum_claimed s /\
    (sum_delivered s, sum_retried s, sum_failed s) = tally flat_policy ((fun p => envelope p.2) <$> demo_choice) rs /\
    handled demo_handler ((fun p => envelope p.2) <$> demo_choice) 0 rs a' /\
    Forall2 (fun p r => exists it', d_get p.1 (items st') = Some it' /\ settles demo_log demo_pow flat_policy (utc 120) p.2 r it') demo_choice rs /\
    (forall k, k ∉ demo_choice.*1 -> d_get k (items st') = d_get k (items demo_store)).
Proof.
  apply (dispatch_settles_all demo_log demo_pow demo_handler flat_policy 50 (utc 120)).
  - intros e a. by exists (Retryable "later"), (a + 1).
  - intros n Hn. exists (seconds 1). unfold delay. rewrite (proj2 (Z.ltb_ge n 1)) by lia.
    split; [reflexivity|vm_compute; split; congruence].
  - reflexivity.
  - apply outbox_demo_store_inv.
  - repeat constructor; vm_compute; congruence.
  - lia.
  - lia.
  - vm_compute; split; congruence.
Defined.
End Witnesses.
