(* ===== verification/Resilience.v ===== *)
(** * Deadlines and retry allowances ([src/pytitect/aio/resilience.py])

    Monotonic deadlines on binary64 readings, the finite retry budget, and the composition
    that schedules a retry or defers it. *)
From Stdlib Require Import ZArith Lia SpecFloat.
From stdpp Require Import base list gmap.
From S2P Require Import Prelude Core Outbox.

Inductive SettlementResult := APPLIED | STALE | DEFERRED.

#[export] Instance SettlementResult_eq_dec : EqDecision SettlementResult.
Proof. solve_decision. Defined.

(** [bool(settlement)]. *)
Definition settlement_bool (r : SettlementResult) : bool := match r with STALE => false | _ => true end.

(** ** Deadlines *)

(** [monotonic()], a reading of the monotonic clock. *)
Class Monotonic (W : Type) := monotonic : M exn W spec_float.

(** [t.total_seconds()]: the microseconds over a million, correctly rounded. *)
Definition total_seconds (t : timedelta) : spec_float :=
  match t with
  | Z0 => S754_zero false
  | Z.pos a => float_of_ratio (Z.pos a) 1000000
  | Z.neg a => SFopp (float_of_ratio (Z.pos a) 1000000)
  end.

(** [bool(x)], [x >= y] and [max(0.0, x)] of floats. *)
Definition float_bool (x : spec_float) : bool := match x with S754_zero _ => false | _ => true end.
Definition float_geb (x y : spec_float) : bool := SFleb y x.
Definition float_max_zero (x : spec_float) : spec_float :=
  if SFltb (S754_zero false) x then x else S754_zero false.

Record Deadline := mkDeadline { expires_at : spec_float }.

Section Deadline.
Context {W : Type} `{!Monotonic W}.

Definition after (duration : timedelta) : M exn W Deadline :=
  raise_if (duration <=? 0)%Z (ValueError "deadline duration must be positive") ;;;
  let! t := monotonic in
  ret (mkDeadline (SFadd 53 1024 t (total_seconds duration))).

Definition remaining (d : Deadline) : M exn W spec_float :=
  let! t := monotonic in
  ret (float_max_zero (SFsub 53 1024 (expires_at d) t)).
End Deadline.

(** ** The retry budget *)

Definition RetryBudget_new {S} (allowance : Z) : M exn S Z :=
  raise_if (allowance <? 0)%Z (ValueError "retry allowance must be a nonnegative integer") ;;;
  ret allowance.

Definition take : M exn Z bool :=
  let! n := get in
  if (n =? 0)%Z then ret false
  else put (n - 1) ;;; ret true.

(** ** The composition *)

Inductive RetryDecision :=
  | RetryScheduled (delay : timedelta)
  | RetryDeferred (delay : timedelta) (reason : pystr).

Definition decision_delay (d : RetryDecision) : timedelta :=
  match d with RetryScheduled t | RetryDeferred t _ => t end.
Definition is_scheduled (d : RetryDecision) : bool :=
  match d with RetryScheduled _ => true | _ => false end.

Section Composition.
Context {W : Type} `{!Monotonic W}.
Variable math_log : spec_float -> spec_float.
Variable float_pow : spec_float -> Z -> result exn spec_float.
Variable policy : RetryPolicy.
Variable budget : lens W Z.
Variable jitter : M exn W spec_float.

(** [max(delay, retry_after - now)]. *)
Definition at_least (delay : timedelta) (now : datetime) (retry_after : option datetime) : M exn W timedelta :=
  match retry_after with
  | None => ret delay
  | Some r =>
      raise_if (negb (is_utc r)) (ValueError "retry_after must be UTC") ;;;
      ret (Z.max delay (dt_instant r - dt_instant now))
  end.

(** The tests of attempts, deadline and budget, in this order. *)
Definition allow (n : Z) (deadline : Deadline) (wait : timedelta) : M exn W RetryDecision :=
  if (max_attempts policy <=? n)%Z then ret (RetryDeferred wait "attempts")
  else
    let! left := remaining deadline in
    if float_geb (total_seconds wait) left then ret (RetryDeferred wait "deadline")
    else
      let! ok := zoom budget take in
      if ok then ret (RetryScheduled wait) else ret (RetryDeferred wait "budget").

Definition schedule (n : Z) (now : datetime) (deadline : Deadline) (retry_after : option datetime) :
    M exn W RetryDecision :=
  raise_if (negb (is_utc now)) (ValueError "retry timestamps must be UTC") ;;;
  let! fraction := jitter in
  raise_if (negb (isfinite fraction) || negb (int_le_float 0 fraction && float_le_int fraction 1))
    (ValueError "jitter must return a finite value in [0, 1]") ;;;
  let! base := lift (Outbox.delay math_log float_pow policy n) in
  let! wait := lift (timedelta_times_float base fraction) in
  let! wait := at_least wait now retry_after in
  allow n deadline wait.
End Composition.

(** ** What scheduling does to the budget *)

Section Budget.
Context {W : Type} `{!Monotonic W}.
Context (math_log : spec_float -> spec_float) (float_pow : spec_float -> Z -> result exn spec_float).
Context (policy : RetryPolicy) (budget : lens W Z) `{!LensLaws budget} (jitter : M exn W spec_float).
Context (Hjitter : keeps budget jitter) (Hmonotonic : keeps budget monotonic).

Lemma allow_spec n deadline wait w :
  match allow policy budget n deadline wait w with
  | (Ok (RetryScheduled d), w') =>
      d = wait /\ view budget w <> 0 /\ view budget w' = view budget w - 1 /\ n < max_attempts policy
  | (Ok (RetryDeferred d _), w') => d = wait /\ view budget w' = view budget w
  | (Raise _, w') => view budget w' = view budget w
  end.
Proof.
  unfold allow, remaining, zoom, take. monad_unfold. destruct (max_attempts policy <=? n)%Z eqn:Hn; [done|].
  pose proof (Hmonotonic w) as Hm. destruct (monotonic w) as [[t|e] w1]; cbn in *; [|done].
  destruct (float_geb _ _); cbn; [done|]. destruct (view budget w1 =? 0)%Z eqn:Hb; cbn; rewrite view_update; time_facts.
  - done.
  - rewrite Hm in *. split_and!; done || lia.
Qed.

(** A scheduled retry takes one unit of a budget that has one and has attempts left; every
    other outcome leaves the budget as it is. The delay is never before the server's minimum. *)
Lemma schedule_spec n now deadline retry_after w :
  match schedule math_log float_pow policy budget jitter n now deadline retry_after w with
  | (Ok d, w') =>
      (if is_scheduled d
       then view budget w <> 0 /\ view budget w' = view budget w - 1 /\ n < max_attempts policy
       else view budget w' = view budget w) /\
      (forall t, retry_after = Some t -> dt_instant t <= dt_instant now + decision_delay d)
  | (Raise _, w') => view budget w' = view budget w
  end.
Proof.
  unfold schedule, at_least. monad_unfold. destruct (negb (is_utc now)); cbn; [done|].
  pose proof (Hjitter w) as Hj. destruct (jitter w) as [[f|e] w1]; cbn in *; [|done].
  destruct (negb (isfinite f) || _); cbn; [done|].
  destruct (delay math_log float_pow policy n) as [base|e]; cbn; [|done].
  destruct (timedelta_times_float base f) as [wait|e]; cbn; [|done].
  destruct retry_after as [t|]; [destruct (negb (is_utc t)); cbn; [done|]|];
    match goal with |- context [allow _ _ _ _ ?d _] => pose proof (allow_spec n deadline d w1) as Ha end;
    destruct (allow _ _ _ _ _ _) as [[[d|d r]|e] w2]; cbn in *; rewrite ?Hj in *; intuition (try congruence);
    subst; simplify_eq; lia.
Qed.
End Budget.

(** ** The allowance over a history *)

Section Allowance.
Context {W : Type} `{!Monotonic W}.
Context (math_log : spec_float -> spec_float) (float_pow : spec_float -> Z -> result exn spec_float).
Context (budget : lens W Z) `{!LensLaws budget}.

(** One retry decision asked of any of the compositions that share the budget. *)
Record request := mkRequest {
  req_policy : RetryPolicy;
  req_jitter : M exn W spec_float;
  req_attempt : Z;
  req_now : datetime;
  req_deadline : Deadline;
  req_retry_after : option datetime
}.

Definition ask (r : request) : M exn W RetryDecision :=
  schedule math_log float_pow (req_policy r) budget (req_jitter r) (req_attempt r) (req_now r)
    (req_deadline r) (req_retry_after r).

(** The number of retries the requests of a history scheduled, and the final state. *)
Fixpoint scheduled (l : list request) (w : W) : Z * W :=
  match l with
  | [] => (0, w)
  | r :: l' =>
      let (d, w1) := ask r w in
      let (n, w2) := scheduled l' w1 in
      (n + match d with Ok d => if is_scheduled d then 1 else 0 | Raise _ => 0 end, w2)
  end.

(** Whatever compositions share a budget and whatever they ask, in any order, the retries
    scheduled and the allowance left always add up to the allowance granted, so no more
    retries are scheduled than the budget was created with. *)
Theorem retry_allowance_exact l w allowance :
  keeps budget monotonic -> Forall (fun r => keeps budget (req_jitter r)) l ->
  RetryBudget_new allowance tt = (Ok (view budget w), tt) ->
  let (n, w') := scheduled l w in
  n + view budget w' = allowance /\ 0 <= n <= allowance.
Proof.
  intros Hm Hl Hnew. assert (0 <= view budget w /\ view budget w = allowance) as [Hpos <-].
  { unfold RetryBudget_new in Hnew. run Hnew. time_facts. lia. }
  clear Hnew. revert w Hpos. induction Hl as [|r l Hr _ IH]; intros w Hpos; cbn; [lia|].
  pose proof (schedule_spec math_log float_pow (req_policy r) budget (req_jitter r) Hr Hm (req_attempt r) (req_now r)
    (req_deadline r) (req_retry_after r) w) as Hs.
  fold (ask r) in Hs. destruct (ask r w) as [[d|e] w1].
  - destruct Hs as [Hs _]. destruct (is_scheduled d).
    + destruct Hs as (Hne & Hb & _). specialize (IH w1). destruct (scheduled l w1) as [n w2]. lia.
    + specialize (IH w1). destruct (scheduled l w1) as [n w2]. lia.
  - specialize (IH w1). destruct (scheduled l w1) as [n w2]. lia.
Qed.
End Allowance.

(** Three requests on an allowance of two: two retries, then a deferral. *)
#[local] Definition still_clock : Monotonic (Z * unit) := fun w => (Ok (S754_zero false), w).
#[local] Definition sample_request : request (W := Z * unit) :=
  mkRequest (mkRetryPolicy (seconds 1) float_one (minutes 1) 5) (fun w => (Ok float_one, w)) 1 (utc 0)
    (mkDeadline (total_seconds (seconds 10))) (Some (utc 2000000)).

Example retry_allowance_exact_witness :
  let (n, w') := scheduled (Monotonic0 := still_clock) (fun f => f) (fun f _ => Ok f) fst_lens
                   [sample_request; sample_request; sample_request] (2, tt) in
  n + view fst_lens w' = 2 /\ 0 <= n <= 2.
Proof.
  apply (retry_allowance_exact (Monotonic0 := still_clock) (fun f => f) (fun f _ => Ok f) fst_lens
    [sample_request; sample_request; sample_request] (2, tt) 2).
  - done.
  - by repeat constructor.
  - done.
Defined.

Example scheduled_sample :
  fst (scheduled (Monotonic0 := still_clock) (fun f => f) (fun f _ => Ok f) fst_lens
    [sample_request; sample_request; sample_request] (2, tt)) = 2.
Proof. vm_compute. reflexivity. Qed.
