(* ===== verification/AsyncOutbox.v ===== *)
(** * The asynchronous outbox store ([src/pytitect/aio/stores.py])

    [InMemoryAsyncOutboxStore] wraps the reference outbox store: settlements answer whether
    they applied, claims respect a byte budget, a deferral returns a message without spending
    an attempt, and an uncertain publication is held until it is resolved explicitly. Its
    [asyncio.Lock] makes each call atomic. *)
From Stdlib Require Import ZArith Lia SpecFloat.
From stdpp Require Import base list gmap.
From S2P Require Import Prelude Core Maintenance Outbox OutboxHistories Resilience.

(** ** The port ([src/pytitect/aio/ports.py]) *)

Class AsyncOutboxStore (W P : Type) := {
  aport_add : OutboxEnvelope P -> M exn W OutboxAddResult;
  aport_claim : datetime -> Z -> timedelta -> option Z -> M exn W (list (OutboxClaim P));
  aport_delivered : OutboxClaim P -> datetime -> M exn W SettlementResult;
  aport_retry : OutboxClaim P -> datetime -> datetime -> M exn W SettlementResult;
  aport_defer : OutboxClaim P -> datetime -> datetime -> M exn W SettlementResult;
  aport_uncertain : OutboxClaim P -> pystr -> datetime -> M exn W SettlementResult;
  aport_resolve_uncertain : OpaqueId -> datetime -> bool -> datetime -> datetime -> M exn W SettlementResult;
  aport_failed : OutboxClaim P -> pystr -> datetime -> M exn W SettlementResult
}.

(** ** The in-memory store *)

(** [InMemoryAsyncOutboxStore]: the wrapped store and the uncertain publications. *)
Record astore (P : Type) := mkAStore {
  inner : store P;
  uncertain_at : dict OpaqueId datetime
}.
Arguments mkAStore {P}.
Arguments inner {P}.
Arguments uncertain_at {P}.

Definition inner_lens {P} : lens (astore P) (store P) := Lens inner (fun s w => mkAStore s (uncertain_at w)).

#[export] Instance inner_lens_laws {P} : LensLaws (@inner_lens P).
Proof. by split; intros; repeat match goal with w : astore _ |- _ => destruct w end. Qed.

Section InMemory.
Context {P : Type} `{Uuid4}.
Implicit Types (w : astore P) (c : OutboxClaim P) (it : Stored P).
(** [_size]: the retained bytes of a payload, or the error of a payload without a size. *)
Variable _size : P -> result exn Z.

Definition InMemoryAsyncOutboxStore_new {S} (cap : Z) : M exn S (astore P) :=
  let! st := InMemoryOutboxStore_new cap in
  ret (mkAStore st []).

Definition on_inner {A} (m : M exn (store P) A) : M exn (astore P) A := zoom inner_lens m.

Definition add_async (e : OutboxEnvelope P) : M exn (astore P) OutboxAddResult := on_inner (add e).

(** [self._store._items.pop(identity)]. *)
Definition pop_item (held : dict OpaqueId (Stored P)) (k : OpaqueId) : M exn (store P) (dict OpaqueId (Stored P)) :=
  let! it := gets (fun st => d_get k (items st)) in
  match it with
  | None => raise (KeyError (opaque_value k))
  | Some it =>
      modify (fun st => set_items (d_pop k (items st)) st) ;;;
      ret (held ++ [(k, it)])
  end.

(** [self._store._items.update(held)]. *)
Definition updated (held d : dict OpaqueId (Stored P)) : dict OpaqueId (Stored P) :=
  fold_left (fun d p => d_set p.1 p.2 d) held d.
Definition restore (held : dict OpaqueId (Stored P)) : M exn (store P) unit :=
  modify (fun st => set_items (updated held (items st)) st).

(** [item.claim_id = None; item.claimed_until = None] of the item a claim owns. *)
Definition release c : M exn (store P) unit :=
  let! it := gets (_valid c) in
  match it with
  | None => raise (AssertionError "")
  | Some it => put_item (message_id (claim_envelope c)) (with_claim it None None)
  end.

(** One iteration of the byte budget: the bytes retained and the claims selected. *)
Definition select_claim (max_bytes : Z) (acc : Z * list (OutboxClaim P)) c :
    M exn (store P) (Z * list (OutboxClaim P)) :=
  let '(retained, selected) := acc in
  let! size := lift (_size (payload (claim_envelope c))) in
  raise_if (size <? 0)%Z (ValueError "payload size must not be negative") ;;;
  if (retained + size <=? max_bytes)%Z then ret (retained + size, selected ++ [c])
  else release c ;;; ret (retained, selected).

Definition claim_async (now : datetime) (limit : Z) (claim_ttl : timedelta) (max_bytes : option Z) :
    M exn (astore P) (list (OutboxClaim P)) :=
  raise_if (match max_bytes with Some n => (n <=? 0)%Z | None => false end) (ValueError "max_bytes must be positive") ;;;
  let! ids := gets (fun w => (uncertain_at w).*1) in
  on_inner (
    let! held := for_each ids [] pop_item in
    let! claims := try_finally (claim now limit claim_ttl) (restore held) in
    match max_bytes with
    | None => ret claims
    | Some max_bytes =>
        let! '(_, selected) := for_each claims (0, []) (select_claim max_bytes) in
        ret selected
    end).

(** [_current]. *)
Definition _current c (at_ : datetime) : M exn (store P) bool :=
  _utc at_ ;;;
  let! item := gets (_valid c) in
  ret (match item with
       | None => false
       | Some it =>
           match stored_claimed_until it with
           | Some u => (dt_instant u =? dt_instant (claimed_until c))%Z
           | None => false
           end && dt_ltb at_ (claimed_until c)
       end).

(** [if not self._current(claim, at): return STALE], then the transition. *)
Definition settle c (at_ : datetime) (transition : M exn (astore P) SettlementResult) :
    M exn (astore P) SettlementResult :=
  let! ok := on_inner (_current c at_) in
  if negb ok then ret STALE else transition.

Definition delivered_async c (at_ : datetime) : M exn (astore P) SettlementResult :=
  settle c at_ (on_inner (delivered c at_) ;;; ret APPLIED).

Definition retry_async c (available at_ : datetime) : M exn (astore P) SettlementResult :=
  settle c at_ (on_inner (retry c available) ;;; ret APPLIED).

(** The item a current claim owns. *)
Definition owned c : M exn (astore P) (Stored P) :=
  let! item := gets (fun w => _valid c (inner w)) in
  match item with None => raise (AssertionError "") | Some it => ret it end.

(** [replace(envelope, available_at=available)]. *)
Definition postponed (e : OutboxEnvelope P) (available : datetime) : M exn (astore P) (OutboxEnvelope P) :=
  OutboxEnvelope_new (message_id e) (topic e) (payload e) (occurred_at e) available (attempt e).

Definition defer_async c (available at_ : datetime) : M exn (astore P) SettlementResult :=
  _utc available ;;;
  settle c at_ (
    let! it := owned c in
    let! e := postponed (envelope it) available in
    on_inner (put_item (message_id (claim_envelope c))
      (mkStored e None None (delivered_at it) (failure_reason it) (failed_at it))) ;;;
    ret DEFERRED).

Definition uncertain_async c (reason : pystr) (at_ : datetime) : M exn (astore P) SettlementResult :=
  raise_if (str_empty reason) (ValueError "uncertainty reason must not be empty") ;;;
  settle c at_ (
    let! it := owned c in
    on_inner (put_item (message_id (claim_envelope c)) (with_claim it None None)) ;;;
    modify (fun w => mkAStore (inner w) (d_set (message_id (claim_envelope c)) at_ (uncertain_at w))) ;;;
    ret APPLIED).

Definition resolve_uncertain_async (k : OpaqueId) (expected_at : datetime) (is_delivered : bool)
    (available at_ : datetime) : M exn (astore P) SettlementResult :=
  _utc expected_at ;;; _utc available ;;; _utc at_ ;;;
  let! recorded := gets (fun w => d_get k (uncertain_at w)) in
  if match recorded with Some t => negb (dt_instant t =? dt_instant expected_at)%Z | None => true end then ret STALE
  else
    let! item := gets (fun w => d_get k (items (inner w))) in
    match item with
    | None => raise (KeyError (opaque_value k))
    | Some it =>
        let delivered_at := if is_delivered then Some at_ else None in
        let set_item e := on_inner (put_item k
          (mkStored e (stored_claim_id it) (stored_claimed_until it) delivered_at (failure_reason it) (failed_at it))) in
        set_item (envelope it) ;;;
        let! e := postponed (envelope it) available in
        set_item e ;;;
        modify (fun w => mkAStore (inner w) (d_pop k (uncertain_at w))) ;;;
        ret APPLIED
    end.

Definition failed_async c (reason : pystr) (at_ : datetime) : M exn (astore P) SettlementResult :=
  settle c at_ (on_inner (failed c reason at_) ;;; ret APPLIED).

#[export] Instance InMemory_AsyncOutboxStore : AsyncOutboxStore (astore P) P := {
  aport_add := add_async;
  aport_claim := claim_async;
  aport_delivered := delivered_async;
  aport_retry := retry_async;
  aport_defer := defer_async;
  aport_uncertain := uncertain_async;
  aport_resolve_uncertain := resolve_uncertain_async;
  aport_failed := failed_async
}.
End InMemory.

(** The store as one component of a larger state. *)
Definition Zoom_AsyncOutboxStore {W S P} (l : lens W S) (store : AsyncOutboxStore S P) : AsyncOutboxStore W P := {|
  aport_add := fun e => zoom l (aport_add e);
  aport_claim := fun now limit ttl b => zoom l (aport_claim now limit ttl b);
  aport_delivered := fun c t => zoom l (aport_delivered c t);
  aport_retry := fun c available t => zoom l (aport_retry c available t);
  aport_defer := fun c available t => zoom l (aport_defer c available t);
  aport_uncertain := fun c reason t => zoom l (aport_uncertain c reason t);
  aport_resolve_uncertain := fun k e d available t => zoom l (aport_resolve_uncertain k e d available t);
  aport_failed := fun c reason t => zoom l (aport_failed c reason t)
|}.
