(* ===== verification/AsyncOutboxHistories.v ===== *)
(** * Asynchronous outbox histories

    An uncertain publication stays as it is until it is resolved: along every history of
    calls no claim returns it, no settlement touches it, and nothing makes it terminal. A
    bounded claim respects the byte budget, and leaves what it does not return unclaimed. *)
From Stdlib Require Import ZArith Lia SpecFloat.
From stdpp Require Import base list gmap.
From S2P Require Import Prelude Core Maintenance Outbox OutboxHistories Resilience AsyncOutbox.

Inductive aop (P : Type) :=
  | AAdd (e : OutboxEnvelope P)
  | AClaim (now : datetime) (limit : Z) (ttl : timedelta) (max_bytes : option Z)
  | ADelivered (c : OutboxClaim P) (at_ : datetime)
  | ARetry (c : OutboxClaim P) (available at_ : datetime)
  | ADefer (c : OutboxClaim P) (available at_ : datetime)
  | AUncertain (c : OutboxClaim P) (reason : pystr) (at_ : datetime)
  | AResolve (k : OpaqueId) (expected_at : datetime) (is_delivered : bool) (available at_ : datetime)
  | AFailed (c : OutboxClaim P) (reason : pystr) (at_ : datetime).
Arguments AAdd {P}.
Arguments AClaim {P}.
Arguments ADelivered {P}.
Arguments ARetry {P}.
Arguments ADefer {P}.
Arguments AUncertain {P}.
Arguments AResolve {P}.
Arguments AFailed {P}.

Section Histories.
Context {P : Type} `{Uuid4} (_size : P -> result exn Z).
Implicit Types (w : astore P) (st : store P) (c : OutboxClaim P) (it : Stored P) (k : OpaqueId).

Definition aexec (o : aop P) w : astore P :=
  match o with
  | AAdd e => snd (add_async e w)
  | AClaim now limit ttl max_bytes => snd (claim_async _size now limit ttl max_bytes w)
  | ADelivered c at_ => snd (delivered_async c at_ w)
  | ARetry c available at_ => snd (retry_async c available at_ w)
  | ADefer c available at_ => snd (defer_async c available at_ w)
  | AUncertain c reason at_ => snd (uncertain_async c reason at_ w)
  | AResolve k expected_at d available at_ => snd (resolve_uncertain_async k expected_at d available at_ w)
  | AFailed c reason at_ => snd (failed_async c reason at_ w)
  end.

Definition aexec_all (os : list (aop P)) w : astore P := fold_left (fun w o => aexec o w) os w.

(** ** The invariant *)

(** An item nobody holds. *)
Definition idle it : Prop := stored_claim_id it = None /\ stored_claimed_until it = None.

Record async_inv w : Prop := {
  ai_store : store_inv (inner w);
  ai_uncertain : d_wf (uncertain_at w);
  ai_held : forall k, is_Some (d_get k (uncertain_at w)) -> exists it, d_get k (items (inner w)) = Some it /\ idle it
}.

Lemma async_inv_initial cap : async_inv (mkAStore (mkStore cap [] 0) []).
Proof. split; [apply outbox_inv_initial|constructor|by intros k [? ?]]. Qed.

(** ** Taking the uncertain items out and putting them back *)

Definition held_of (ids : list OpaqueId) (d : dict OpaqueId (Stored P)) : dict OpaqueId (Stored P) :=
  omap (fun k => pair k <$> d_get k d) ids.

Lemma held_of_cons k ids d it : d_get k d = Some it -> held_of (k :: ids) d = (k, it) :: held_of ids d.
Proof. intros Hk. unfold held_of. cbn. by rewrite Hk. Qed.

Lemma held_of_keys ids d : (forall k, k ∈ ids -> is_Some (d_get k d)) -> (held_of ids d).*1 = ids.
Proof.
  induction ids as [|k ids IH]; intros Hk; [done|].
  destruct (Hk k ltac:(by left)) as [it Hit]. rewrite (held_of_cons _ _ _ _ Hit). cbn. f_equal.
  apply IH. intros k' ?. apply Hk. by right.
Qed.

Lemma held_of_pop ids k d : d_wf d -> k ∉ ids -> held_of ids (d_pop k d) = held_of ids d.
Proof.
  intros Hd. induction ids as [|k' ids IH]; intros Hk; [done|]. apply not_elem_of_cons in Hk as [Hne Hk].
  unfold held_of in *. cbn. rewrite d_get_pop_ne by congruence. destruct (d_get k' d); cbn; by rewrite IH.
Qed.

Lemma pop_loop ids : forall acc st, store_inv st -> NoDup ids ->
  (forall k, k ∈ ids -> is_Some (d_get k (items st))) ->
  for_each ids acc pop_item st =
    (Ok (acc ++ held_of ids (items st)), set_items (d_pop_all ids (items st)) st).
Proof.
  induction ids as [|k ids IH]; intros acc st Hst Hnd Hk.
  { cbn. rewrite app_nil_r. by destruct st. }
  apply NoDup_cons in Hnd as [Hni Hnd]. destruct (Hk k ltac:(by left)) as [it Hit].
  rewrite (held_of_cons _ _ _ _ Hit). cbn [for_each]. unfold bind, pop_item at 1. monad_unfold. rewrite Hit. cbn.
  rewrite IH.
  - cbn. rewrite held_of_pop by (done || apply (inv_items _ Hst)).
    by rewrite <- app_assoc.
  - destruct Hst as [Hwf Hkey]. split; cbn; [by apply d_pop_wf|]. intros k' it' Hg.
    rewrite d_get_pop in Hg by done. case_decide; [done|]. by apply Hkey.
  - done.
  - intros k' Hk'. cbn. rewrite d_get_pop_ne by (intros ->; done). apply Hk. by right.
Qed.

Lemma restore_get (held d : dict OpaqueId (Stored P)) k : d_wf held ->
  d_get k (updated held d) =
    match d_get k held with Some it => Some it | None => d_get k d end.
Proof.
  intros Hwf. destruct (d_set_all (@fst OpaqueId (Stored P)) snd held d) as (_ & Hne & Heq).
  destruct (d_get k held) as [it|] eqn:Hk.
  - apply d_get_elem in Hk. specialize (Heq Hwf _ Hk). done.
  - apply d_get_None in Hk. by apply Hne.
Qed.

Lemma held_of_get ids d k : (forall k, k ∈ ids -> is_Some (d_get k d)) ->
  d_get k (held_of ids d) = if decide (k ∈ ids) then d_get k d else None.
Proof.
  induction ids as [|k0 ids IH]; intros Hk; [by rewrite decide_False by apply not_elem_of_nil|].
  destruct (Hk k0 ltac:(by left)) as [it Hit]. rewrite (held_of_cons _ _ _ _ Hit). cbn.
  rewrite IH by (intros k' ?; apply Hk; by right). destruct (decide (k0 = k)) as [->|Hne].
  - by rewrite decide_True by left.
  - destruct (decide (k ∈ ids)); [by rewrite decide_True by (by right)|].
    by rewrite decide_False by (by intros [?|?]%elem_of_cons).
Qed.

Lemma without_inv ids st : store_inv st -> store_inv (set_items (d_pop_all ids (items st)) st).
Proof.
  intros [Hwf Hkey]. split; cbn; [by apply d_pop_all_wf|]. intros k it Hg. rewrite d_pop_all_get in Hg by done.
  case_decide; [done|]. by apply Hkey.
Qed.

(** Claiming with the items [ids] taken out: they come back as they were, whatever the claim
    did to the others. *)
Lemma claim_without ids now limit ttl st : store_inv st -> NoDup ids ->
  (forall k, k ∈ ids -> is_Some (d_get k (items st))) ->
  exists st1, store_step (OpClaim now limit ttl) (set_items (d_pop_all ids (items st)) st) st1 /\
    (exists r, claim now limit ttl (set_items (d_pop_all ids (items st)) st) = (r, st1) /\
      (let! held := for_each ids [] pop_item in try_finally (claim now limit ttl) (restore held)) st =
        (r, set_items (updated (held_of ids (items st)) (items st1)) st1)) /\
    forall k, d_get k (updated (held_of ids (items st)) (items st1)) =
      if decide (k ∈ ids) then d_get k (items st) else d_get k (items st1).
Proof.
  intros Hst Hnd Hk. pose proof (claim_step now limit ttl _ (without_inv ids st Hst)) as Hstep.
  destruct (claim now limit ttl (set_items _ st)) as [r st1] eqn:Hc. exists st1. split; [done|]. split.
  - exists r. split; [done|]. erewrite bind_run; [|by apply pop_loop]. unfold try_finally. cbn [app].
    by rewrite Hc.
  - intros k. rewrite restore_get by (unfold d_wf; by rewrite held_of_keys). rewrite held_of_get by done.
    case_decide as Hin; [|done]. by destruct (Hk k Hin) as [it ->].
Qed.

(** ** The byte budget *)

(** Items are as they were, or released. *)
Definition released st st' : Prop :=
  uuid_draws st' = uuid_draws st /\ d_wf (items st') /\
  forall k, d_get k (items st') = d_get k (items st) \/
    exists it, d_get k (items st) = Some it /\ d_get k (items st') = Some (with_claim it None None).

Lemma released_refl st : d_wf (items st) -> released st st.
Proof. intros Hwf. split_and!; [done|done|]. by left. Qed.

Lemma released_trans st1 st2 st3 : released st1 st2 -> released st2 st3 -> released st1 st3.
Proof.
  intros (Hu1 & _ & H1) (Hu2 & Hw & H2). split_and!; [congruence|done|]. intros k.
  destruct (H2 k) as [->|(it & Hit & ->)]; [apply H1|]. destruct (H1 k) as [Heq|(it0 & H0 & H0')].
  - right. exists it. by rewrite <- Heq.
  - right. exists it0. split; [done|]. rewrite Hit in H0'. by injection H0' as ->.
Qed.

Lemma release_released c st : d_wf (items st) -> released st (snd (release c st)).
Proof.
  intros Hwf. unfold release, put_item. monad_unfold. destruct (_valid c st) as [it|] eqn:Hv; cbn; [|by apply released_refl].
  apply outbox_valid_Some in Hv as (Hget & _). split_and!; cbn; [done|by apply d_set_wf|]. intros k.
  rewrite d_get_set. case_decide; [subst|by left]. right. by exists it.
Qed.

Lemma select_released m acc c st : d_wf (items st) -> released st (snd (select_claim _size m acc c st)).
Proof.
  intros Hwf. pose proof (release_released c st Hwf) as Hr. unfold select_claim. destruct acc as [n l].
  revert Hr. generalize (release c). intros rel Hr. monad_unfold.
  destruct (_size _) as [z|e]; cbn; [|by apply released_refl]. destruct (z <? 0)%Z; cbn; [by apply released_refl|].
  destruct (n + z <=? m)%Z; [by apply released_refl|]. destruct (rel st) as [[?|?] ?]; exact Hr.
Qed.

Lemma select_loop_released m l : forall acc st, d_wf (items st) ->
  released st (snd (for_each l acc (select_claim _size m) st)).
Proof.
  induction l as [|c l IH]; intros acc st Hwf; [by apply released_refl|]. cbn [for_each]. unfold bind.
  pose proof (select_released m acc c st Hwf) as Hr. destruct (select_claim _size m acc c st) as [[b|e] st1]; [|done].
  cbn in Hr. eapply released_trans; [exact Hr|]. apply IH. apply Hr.
Qed.

(** ** What each call does to an uncertain item *)

Lemma current_state c at_ st : snd (_current c at_ st) = st.
Proof. unfold _current, _utc. monad_unfold. by destruct (negb (is_utc at_)). Qed.

(** A settlement that does not apply changes nothing; one that applies owns its item. *)
Definition not_applied (r : result exn SettlementResult) : Prop := r = Ok STALE \/ exists e, r = Raise e.

Lemma settle_cases c at_ transition w :
  (exists r, not_applied r /\ settle c at_ transition w = (r, w)) \/
  exists it, _valid c (inner w) = Some it /\ settle c at_ transition w = transition w.
Proof.
  unfold not_applied, settle, on_inner, bind, zoom. cbn [view inner_lens].
  pose proof (current_state c at_ (inner w)) as Hs.
  assert (forall s, s = inner w -> update inner_lens s w = w) as Hup by (intros s ->; by destruct w).
  destruct (_current c at_ (inner w)) as [[b|e] st] eqn:Hc; cbn in Hs; rewrite Hup by done; [|left; by eauto].
  destruct b; cbn; [|left; by eauto]. right. unfold _current, _utc in Hc. monad_unfold.
  destruct (negb (is_utc at_)); cbn in Hc; [done|]. destruct (_valid c (inner w)) as [it|]; [by exists it|done].
Qed.

(** The additions and settlements of the wrapped store. *)
Definition plain (o : op P) : bool :=
  match o with OpClaim _ _ _ | OpPurge _ | OpArchive _ => false | _ => true end.

(** They leave idle items alone. *)
Lemma idle_step o st st' k it : store_step o st st' -> plain o = true ->
  d_get k (items st) = Some it -> idle it -> d_get k (items st') = Some it.
Proof.
  intros (_ & _ & Hstep) Hno Hget [Hid _]. specialize (Hstep k). rewrite Hget in Hstep.
  inversion Hstep as [? Hs Hn|e -> Hk Hs Hn|now limit ttl it0 i until0 -> Hcl Hi Hs Hn
    |c it0 it1 Hp Hk Hid0 Ht0 Hn0 Ht' Hm Hs Hn|it0 ? Ht0 Hs Hn]; simplify_eq; try congruence. by destruct o.
Qed.

Definition resolves (o : aop P) k (t : datetime) : Prop :=
  match o with AResolve k' t' _ _ _ => k' = k /\ dt_instant t' = dt_instant t | _ => False end.

(** The claims of the wrapped store are for items it has. *)
Lemma claim_present now limit ttl st cs st' c : store_inv st -> claim now limit ttl st = (Ok cs, st') -> c ∈ cs ->
  is_Some (d_get (message_id (claim_envelope c)) (items st)).
Proof.
  intros [Hwf Hkey] (until & _ & -> & _ & _)%claim_answer Hc.
  assert (claim_envelope c ∈ claim_envelope <$> claims_of (uuid_draws st) until (claim_choice now limit st)) as He
    by (by apply list_elem_of_fmap_2).
  rewrite claims_of_envelopes in He. apply list_elem_of_fmap in He as ([k it] & -> & Hin). cbn.
  assert ((k, it) ∈ items st) as Hin'.
  { by apply claim_choice_elem in Hin as [_ ?]. }
  apply d_elem_get in Hin'; [|done]. rewrite (Hkey _ _ Hin'). eauto.
Qed.

Lemma select_subset m cs : forall n l st n' l' st',
  for_each cs (n, l) (select_claim _size m) st = (Ok (n', l'), st') -> forall c, c ∈ l' -> c ∈ l ++ cs.
Proof.
  induction cs as [|c0 cs IH]; intros n l st n' l' st' Hrun c Hc.
  { injection Hrun as -> -> ->. by rewrite app_nil_r. }
  cbn [for_each] in Hrun. apply bind_ok in Hrun as ([n1 l1] & st1 & H1 & Hrun).
  specialize (IH _ _ _ _ _ _ Hrun c Hc). unfold select_claim in H1. apply bind_ok in H1 as (z & st2 & _ & H1).
  apply bind_ok in H1 as (u & st3 & _ & H1). rewrite elem_of_app, elem_of_cons. apply elem_of_app in IH as [IH|IH]; [|auto].
  destruct (n + z <=? m)%Z.
  - injection H1 as <- <- <-. apply elem_of_app in IH as [?|?%list_elem_of_singleton]; auto.
  - apply bind_ok in H1 as (u' & st4 & _ & H1). injection H1 as <- <- <-. auto.
Qed.

(** What follows the claims: the byte budget, if there is one. *)
Definition within_budget (mb : option Z) (all : list (OutboxClaim P)) : M exn (store P) (list (OutboxClaim P)) :=
  match mb with
  | None => ret all
  | Some m => let! '(_, selected) := for_each all (0, []) (select_claim _size m) in ret selected
  end.

Lemma claim_async_eq now limit ttl mb w :
  claim_async _size now limit ttl mb w =
    if match mb with Some n => (n <=? 0)%Z | None => false end then (Raise (ValueError "max_bytes must be positive"), w)
    else let (x, s) := bind (let! held := for_each (uncertain_at w).*1 [] pop_item in try_finally (claim now limit ttl) (restore held))
                         (within_budget mb) (inner w) in
      (x, mkAStore s (uncertain_at w)).
Proof. rewrite bind_assoc. unfold claim_async, bind at 1, raise_if. by destruct (match mb with Some n => _ | None => _ end). Qed.

(** A bounded claim: nothing happens, or the uncertain items are taken out, the others are
    claimed, the uncertain items come back, and what exceeds the budget is released. *)
Lemma claim_async_cases now limit ttl mb w : async_inv w ->
  let ids := (uncertain_at w).*1 in
  let st := inner w in
  let out := set_items (d_pop_all ids (items st)) st in
  snd (claim_async _size now limit ttl mb w) = w /\ (forall cs, fst (claim_async _size now limit ttl mb w) <> Ok cs) \/
  exists r st1 st', claim now limit ttl out = (r, st1) /\ store_step (OpClaim now limit ttl) out st1 /\
    released (set_items (updated (held_of ids (items st)) (items st1)) st1) st' /\
    snd (claim_async _size now limit ttl mb w) = mkAStore st' (uncertain_at w) /\
    forall cs, fst (claim_async _size now limit ttl mb w) = Ok cs -> exists all, r = Ok all /\ forall c, c ∈ cs -> c ∈ all.
Proof.
  intros [Hst Hunc Hheld] ids st out. assert (forall k, k ∈ ids -> is_Some (d_get k (items st))) as Hids.
  { intros k Hk%d_get_key. destruct (Hheld k Hk) as (it & Hit & _). eauto. }
  destruct (claim_without ids now limit ttl st Hst Hunc Hids) as (st1 & Hstep & (r & Hc & Hrun) & _).
  rewrite claim_async_eq. fold ids st.
  destruct (match mb with Some n => _ | None => _ end) eqn:Hmb; [by left|]. right.
  set (back := set_items (updated (held_of ids (items st)) (items st1)) st1) in *.
  assert (d_wf (items back)) as Hback.
  { destruct Hstep as (Hwf1 & _). cbn. unfold updated.
    destruct (d_set_all (@fst OpaqueId (Stored P)) snd (held_of ids (items st)) (items st1)) as (Hwf & _ & _). by apply Hwf. }
  unfold bind at 1 3. rewrite Hrun. destruct r as [all|e].
  2: { exists (Raise e), st1, back. split_and!; try done. by apply released_refl. }
  unfold within_budget. destruct mb as [m|].
  2: { exists (Ok all), st1, back. split_and!; [done|done|by apply released_refl|done|]. intros cs [= <-]. eauto. }
  unfold bind. pose proof (select_loop_released m all (0, []) back Hback) as Hrel.
  destruct (for_each all (0, []) _ back) as [[[n l]|e] st'] eqn:Hsel; cbn in Hrel;
    exists (Ok all), st1, st'; (split_and!; [done|done|done|done|]).
  - intros cs [= <-]. exists all. split; [done|]. intros c Hin. exact (select_subset m all _ _ _ _ _ _ Hsel c Hin).
  - done.
Qed.

Lemma released_inv st st' : store_inv st -> released st st' -> store_inv st'.
Proof.
  intros [_ Hkey] (_ & Hwf & Hrel). split; [done|]. intros k it' Hg. destruct (Hrel k) as [Heq|(it & Hit & Hit')].
  - apply Hkey. congruence.
  - rewrite Hit' in Hg. injection Hg as <-. by apply (Hkey _ it).
Qed.

Lemma released_idle st st' k it : released st st' -> d_get k (items st) = Some it -> idle it -> d_get k (items st') = Some it.
Proof.
  intros (_ & _ & Hrel) Hg [Hid Hu]. destruct (Hrel k) as [->|(it' & Hit & ->)]; [done|].
  rewrite Hg in Hit. injection Hit as <-. f_equal. unfold with_claim. destruct it; cbn in *. congruence.
Qed.

Definition keeps_uncertain w w' : Prop :=
  async_inv w' /\ forall k, is_Some (d_get k (uncertain_at w)) ->
    d_get k (uncertain_at w') = d_get k (uncertain_at w) /\ d_get k (items (inner w')) = d_get k (items (inner w)).

Lemma keeps_uncertain_refl w : async_inv w -> keeps_uncertain w w.
Proof. done. Qed.

Lemma claim_async_keeps now limit ttl mb w : async_inv w ->
  keeps_uncertain w (snd (claim_async _size now limit ttl mb w)).
Proof.
  intros Hinv. pose proof Hinv as [Hst Hunc Hheld].
  destruct (claim_async_cases now limit ttl mb w Hinv) as [[-> _]|(r & st1 & st' & _ & Hstep & Hrel & -> & _)];
    [by apply keeps_uncertain_refl|].
  set (ids := (uncertain_at w).*1) in *.
  assert (forall k, k ∈ ids -> is_Some (d_get k (items (inner w)))) as Hids.
  { intros k Hk%d_get_key. destruct (Hheld k Hk) as (it & Hit & _). eauto. }
  assert (forall k, d_get k (updated (held_of ids (items (inner w))) (items st1)) =
    if decide (k ∈ ids) then d_get k (items (inner w)) else d_get k (items st1)) as Hback.
  { intros k. rewrite restore_get by (unfold d_wf; rewrite held_of_keys; done).
    rewrite held_of_get by done. case_decide as Hin; [|done]. by destruct (Hids k Hin) as [it ->]. }
  pose proof (store_step_inv _ _ _ (without_inv ids (inner w) Hst) Hstep) as [Hwf1 Hkey1].
  assert (forall k, is_Some (d_get k (uncertain_at w)) -> d_get k (items st') = d_get k (items (inner w))) as Hsame.
  { intros k Hk. destruct (Hheld k Hk) as (it & Hit & Hidle). rewrite Hit. eapply released_idle; [exact Hrel| |done].
    cbn. by rewrite Hback, decide_True by by apply d_get_key. }
  split.
  - split; cbn.
    + eapply released_inv; [|exact Hrel]. split; cbn.
      * unfold updated. destruct (d_set_all (@fst OpaqueId (Stored P)) snd (held_of ids (items (inner w))) (items st1)) as (Hwf & _ & _).
        by apply Hwf.
      * intros k it. rewrite Hback. case_decide; [by apply Hst|apply Hkey1].
    + done.
    + intros k Hk. rewrite Hsame by done. by apply Hheld.
  - intros k Hk. split; [done|]. by apply Hsame.
Qed.

(** A transition of the wrapped store other than a claim. *)
Lemma inner_keeps {A} o (m : M exn (store P) A) w : async_inv w ->
  store_step o (inner w) (snd (m (inner w))) -> plain o = true ->
  keeps_uncertain w (snd (on_inner m w)).
Proof.
  intros [Hst Hunc Hheld] Hstep Hno. unfold on_inner, zoom. cbn [view inner_lens].
  destruct (m (inner w)) as [r st']. cbn in *.
  assert (forall k, is_Some (d_get k (uncertain_at w)) -> d_get k (items st') = d_get k (items (inner w))) as Hsame.
  { intros k Hk. destruct (Hheld k Hk) as (it & Hit & Hidle). rewrite Hit. by eapply idle_step. }
  split; [split; cbn|].
  - by eapply store_step_inv.
  - done.
  - intros k Hk. rewrite Hsame by done. by apply Hheld.
  - intros k Hk. split; [done|]. by apply Hsame.
Qed.

(** Writing the item of a claim that still owns it. *)
Lemma put_owned_keeps c it it' w : async_inv w -> _valid c (inner w) = Some it ->
  message_id (envelope it') = message_id (envelope it) ->
  keeps_uncertain w (mkAStore (set_items (d_set (message_id (claim_envelope c)) it' (items (inner w))) (inner w)) (uncertain_at w)).
Proof.
  intros [[Hwf Hkey] Hunc Hheld] (Hget & Hid & _)%outbox_valid_Some Hm.
  assert (forall k, is_Some (d_get k (uncertain_at w)) -> k <> message_id (claim_envelope c)) as Hne.
  { intros k Hk ->. destruct (Hheld _ Hk) as (it0 & Hit0 & Hn & _). congruence. }
  split; [split; cbn|].
  - split; cbn; [by apply d_set_wf|]. intros k it0. rewrite d_get_set. case_decide as Hk; [|apply Hkey].
    intros [= <-]. rewrite Hm, <- Hk. by apply Hkey.
  - done.
  - intros k Hk. rewrite d_get_set_ne by (intros <-; by destruct (Hne _ Hk)). by apply Hheld.
  - intros k Hk. split; [done|]. cbn. rewrite d_get_set_ne; [done|]. intros <-. by destruct (Hne _ Hk).
Qed.

Lemma owned_run c w it : _valid c (inner w) = Some it -> owned c w = (Ok it, w).
Proof. intros Hv. unfold owned, bind, gets. by rewrite Hv. Qed.

Lemma postponed_run e available w : (exists e', postponed e available w = (Ok e', w) /\ message_id e' = message_id e) \/
  exists ex, postponed (P := P) e available w = (Raise ex, w).
Proof.
  unfold postponed, OutboxEnvelope_new, _utc. monad_unfold.
  destruct (negb (is_utc (occurred_at e))); [right; by eexists|]. destruct (negb (is_utc available)); [right; by eexists|].
  destruct (str_empty (topic e)); [right; by eexists|]. destruct (attempt e <? 0)%Z; [right; by eexists|].
  left. eexists. by split.
Qed.

Lemma defer_keeps c available at_ w : async_inv w -> keeps_uncertain w (snd (defer_async c available at_ w)).
Proof.
  intros Hinv. unfold defer_async. unfold bind at 1. unfold _utc, check_utc, raise_if at 1.
  destruct (negb (is_utc available)); [by apply keeps_uncertain_refl|].
  match goal with |- context [settle c at_ ?t w] =>
    destruct (settle_cases c at_ t w) as [(r & _ & ->)|(it & Hv & ->)]; [by apply keeps_uncertain_refl|]
  end.
  erewrite bind_run; [|by apply owned_run]. destruct (postponed_run (envelope it) available w) as [(e' & He & Hm)|[ex He]];
    unfold bind at 1; rewrite He; [|by apply keeps_uncertain_refl].
  by apply (put_owned_keeps c it).
Qed.

Lemma settlement_keeps {A} o c at_ (m : M exn (store P) A) (r : SettlementResult) w : async_inv w ->
  store_step o (inner w) (snd (m (inner w))) -> plain o = true ->
  keeps_uncertain w (snd (settle c at_ (on_inner m ;;; ret r) w)).
Proof.
  intros Hinv Hstep Hno. destruct (settle_cases c at_ (on_inner m ;;; ret r) w) as [(x & _ & ->)|(it & Hv & ->)];
    [by apply keeps_uncertain_refl|].
  pose proof (inner_keeps o m w Hinv Hstep Hno) as Hk. unfold bind. by destruct (on_inner m w) as [[?|?] ?].
Qed.

Lemma uncertain_keeps c reason at_ w : async_inv w -> keeps_uncertain w (snd (uncertain_async c reason at_ w)).
Proof.
  intros Hinv. unfold uncertain_async. unfold bind at 1. unfold raise_if at 1.
  destruct (str_empty reason); [by apply keeps_uncertain_refl|].
  match goal with |- context [settle c at_ ?t w] =>
    destruct (settle_cases c at_ t w) as [(r & _ & ->)|(it & Hv & ->)]; [by apply keeps_uncertain_refl|]
  end.
  erewrite bind_run; [|by apply owned_run]. pose proof Hv as (Hget & Hid & Hterm)%outbox_valid_Some.
  pose proof (put_owned_keeps c it (with_claim it None None) w Hinv Hv eq_refl) as [[Hst Hunc Hheld] Hsame].
  assert (forall k, is_Some (d_get k (uncertain_at w)) -> k <> message_id (claim_envelope c)) as Hne.
  { intros k Hk ->. destruct (ai_held _ Hinv _ Hk) as (it0 & Hit0 & Hn & _). congruence. }
  cbn. split; [split; cbn|].
  - done.
  - by apply d_set_wf.
  - intros k. rewrite (d_get_set _ _ at_). case_decide as Hk; [|apply Hheld]. intros _. exists (with_claim it None None).
    subst k. by rewrite d_get_set_eq.
  - intros k Hk. cbn. rewrite d_get_set_ne by (intros <-; by destruct (Hne _ Hk)). by apply Hsame.
Qed.

(** The uncertain messages but the one named, with its recorded instant, stay as they are. *)
Definition keeps_others (k0 : OpaqueId) (expected : datetime) w w' : Prop :=
  async_inv w' /\ forall k t, d_get k (uncertain_at w) = Some t -> ~ (k0 = k /\ dt_instant expected = dt_instant t) ->
    d_get k (uncertain_at w') = Some t /\ d_get k (items (inner w')) = d_get k (items (inner w)).

Lemma keeps_others_refl k0 expected w : async_inv w -> keeps_others k0 expected w w.
Proof. done. Qed.

Lemma resolve_keeps k0 expected d available at_ w : async_inv w ->
  keeps_others k0 expected w (snd (resolve_uncertain_async k0 expected d available at_ w)).
Proof.
  intros Hinv. pose proof Hinv as [[Hwf Hkey] Hunc Hheld].
  unfold resolve_uncertain_async, _utc, check_utc.
  do 3 (unfold bind at 1, raise_if at 1; match goal with |- context [negb (is_utc ?x)] => destruct (negb (is_utc x)) end;
    [by apply keeps_others_refl|]).
  unfold bind at 1, gets at 1. destruct (d_get k0 (uncertain_at w)) as [t0|] eqn:Hk0; [|by apply keeps_others_refl].
  destruct (dt_instant t0 =? dt_instant expected)%Z eqn:Ht; cbn [negb]; [|by apply keeps_others_refl]. time_facts.
  destruct (Hheld k0 ltac:(eauto)) as (it & Hit & Hidle). unfold bind at 1, gets at 1. rewrite Hit.
  set (it1 := fun e : OutboxEnvelope P => mkStored e (stored_claim_id it) (stored_claimed_until it) (if d then Some at_ else None) (failure_reason it) (failed_at it)).
  assert (forall e u, message_id e = k0 -> d_wf u -> (forall k, k <> k0 -> d_get k u = d_get k (uncertain_at w)) ->
    keeps_others k0 expected w (mkAStore (set_items (d_set k0 (it1 e) (items (inner w))) (inner w)) u)) as Hput.
  { intros e u He Hu Hk. split; [split; cbn|].
    - split; cbn; [by apply d_set_wf|]. intros k it'. rewrite d_get_set. case_decide as Heq; [|apply Hkey].
      intros [= <-]. by subst k.
    - done.
    - intros k Hin. rewrite d_get_set. case_decide as Heq; [by eexists|]. apply Hheld. by rewrite <- Hk.
    - intros k t Hg Hnot. assert (k <> k0) as Hne by (intros ->; apply Hnot; split; congruence).
      cbn. rewrite d_get_set_ne, Hk by done. done. }
  pose proof (Hkey _ _ Hit) as Hm.
  unfold bind at 1, on_inner at 1, zoom, put_item, modify at 1. cbn -[postponed it1].
  match goal with |- context [bind (postponed ?e ?a) _ ?w1] => destruct (postponed_run e a w1) as [(e' & He & Hm')|[ex He]] end;
    unfold bind at 1; rewrite He.
  - cbn. unfold set_items. cbn. rewrite d_set_set. apply (Hput e').
    + congruence.
    + by apply d_pop_wf.
    + intros k Hne. by rewrite d_get_pop_ne.
  - by apply (Hput (envelope it)).
Qed.

(** ** Along a history *)

Lemma aexec_keeps o w : async_inv w -> async_inv (aexec o w) /\
  forall k t, d_get k (uncertain_at w) = Some t -> ~ resolves o k t ->
    d_get k (uncertain_at (aexec o w)) = Some t /\ d_get k (items (inner (aexec o w))) = d_get k (items (inner w)).
Proof.
  intros Hinv. pose proof (ai_store _ Hinv) as Hst.
  assert (keeps_uncertain w (aexec o w) -> async_inv (aexec o w) /\ forall k t, d_get k (uncertain_at w) = Some t ->
    ~ resolves o k t -> d_get k (uncertain_at (aexec o w)) = Some t /\ d_get k (items (inner (aexec o w))) = d_get k (items (inner w))) as Hk.
  { intros [Hi Hs]. split; [done|]. intros k t Hg _. rewrite <- Hg. apply Hs. eauto. }
  destruct o; cbn [aexec resolves] in *;
    [apply Hk|apply Hk|apply Hk|apply Hk|apply Hk|apply Hk|by apply resolve_keeps|apply Hk].
  - eapply inner_keeps; [done|by apply add_step|done].
  - by apply claim_async_keeps.
  - eapply settlement_keeps; [done|by apply delivered_step|done].
  - eapply settlement_keeps; [done|by apply retry_step|done].
  - by apply defer_keeps.
  - by apply uncertain_keeps.
  - eapply settlement_keeps; [done|by apply failed_step|done].
Qed.

Lemma aexec_all_inv os w : async_inv w -> async_inv (aexec_all os w).
Proof. revert w. induction os as [|o os IH]; intros w Hw; cbn; [done|]. apply IH. by apply aexec_keeps. Qed.

Lemma aexec_all_keeps os k t : forall w, async_inv w -> d_get k (uncertain_at w) = Some t ->
  Forall (fun o => ~ resolves o k t) os ->
  d_get k (uncertain_at (aexec_all os w)) = Some t /\ d_get k (items (inner (aexec_all os w))) = d_get k (items (inner w)).
Proof.
  induction os as [|o os IH]; intros w Hw Hk Hos; [done|]. apply Forall_cons in Hos as [Ho Hos]. cbn.
  destruct (aexec_keeps o w Hw) as [Hi Hs]. destruct (Hs k t Hk Ho) as [H1 H2]. rewrite <- H2. by apply IH.
Qed.

Lemma uncertain_applied c reason at_ w w' : async_inv w -> uncertain_async c reason at_ w = (Ok APPLIED, w') ->
  async_inv w' /\ d_get (message_id (claim_envelope c)) (uncertain_at w') = Some at_.
Proof.
  intros Hinv Hrun. pose proof (uncertain_keeps c reason at_ w Hinv) as [Hinv' _]. rewrite Hrun in Hinv'. split; [done|].
  unfold uncertain_async in Hrun. apply bind_ok in Hrun as ([] & w1 & H1 & Hrun).
  unfold raise_if in H1. destruct (str_empty reason); [done|]. injection H1 as <-.
  match type of Hrun with settle c at_ ?t w = _ =>
    destruct (settle_cases c at_ t w) as [(r & Hno & Hr)|(it & Hv & Hr)]; rewrite Hr in Hrun
  end.
  - injection Hrun as -> _. by destruct Hno as [?|[? ?]].
  - erewrite bind_run in Hrun by by apply owned_run. cbn in Hrun. injection Hrun as <-. cbn. apply d_get_set_eq.
Qed.

(** The settlements of a claim. *)
Definition settlements c (reason : pystr) (available at_ : datetime) : list (M exn (astore P) SettlementResult) :=
  [delivered_async c at_; retry_async c available at_; defer_async c available at_; uncertain_async c reason at_;
   failed_async c reason at_].

Lemma settlement_stale c reason available at_ w m : _valid c (inner w) = None -> m ∈ settlements c reason available at_ ->
  exists r, m w = (r, w) /\ not_applied r.
Proof.
  intros Hv Hm. assert (forall t, exists r, settle c at_ t w = (r, w) /\ not_applied r) as Hs.
  { intros t. destruct (settle_cases c at_ t w) as [(r & Hr & Hrun)|(it & Hv' & _)]; [by exists r|congruence]. }
  unfold settlements in Hm. repeat (apply elem_of_cons in Hm as [->|Hm]); [..|by apply not_elem_of_nil in Hm]; try apply Hs.
  - unfold defer_async, _utc, check_utc, bind at 1, raise_if at 1. destruct (negb (is_utc available)); [|apply Hs].
    eexists. split; [done|]. right. by eexists.
  - unfold uncertain_async, bind at 1, raise_if at 1. destruct (str_empty reason); [|apply Hs].
    eexists. split; [done|]. right. by eexists.
Qed.

(** From any history of an empty store: once a publication was settled as uncertain, then
    whatever calls follow - but a resolution that names the message and the recorded instant -
    the message and its record stay as they are, no claim returns the message, and no
    settlement of any claim applies to it. *)
Theorem uncertain_publication_held cap before c reason at_ w1 history :
  uncertain_async c reason at_ (aexec_all before (mkAStore (mkStore cap [] 0) [])) = (Ok APPLIED, w1) ->
  Forall (fun o => ~ resolves o (message_id (claim_envelope c)) at_) history ->
  let k := message_id (claim_envelope c) in
  let w2 := aexec_all history w1 in
  d_get k (uncertain_at w2) = Some at_ /\ d_get k (items (inner w2)) = d_get k (items (inner w1)) /\
  (forall now limit ttl max_bytes claims w3, claim_async _size now limit ttl max_bytes w2 = (Ok claims, w3) ->
    forall c', c' ∈ claims -> message_id (claim_envelope c') <> k) /\
  (forall c' reason' available at' m, message_id (claim_envelope c') = k -> m ∈ settlements c' reason' available at' ->
    exists r, m w2 = (r, w2) /\ not_applied r).
Proof.
  intros Hrun Hos k w2. destruct (uncertain_applied _ _ _ _ _ (aexec_all_inv before _ (async_inv_initial cap)) Hrun) as [Hinv1 Hk].
  destruct (aexec_all_keeps history k at_ w1 Hinv1 Hk Hos) as [Hk2 Hsame]. fold w2 in Hk2, Hsame.
  pose proof (aexec_all_inv history w1 Hinv1) as Hinv2. fold w2 in Hinv2. split_and!; [done|done|..].
  - intros now limit ttl mb claims w3 Hc c' Hin Heq.
    destruct (claim_async_cases now limit ttl mb w2 Hinv2) as [[_ Hno]|(r & st1 & st' & Hcl & _ & _ & _ & Hall)].
    + apply (Hno claims). by rewrite Hc.
    + destruct (Hall claims) as (all & -> & Hsub); [by rewrite Hc|].
      pose proof (claim_present _ _ _ _ _ _ _ (without_inv _ _ (ai_store _ Hinv2)) Hcl (Hsub _ Hin)) as [it Hit].
      cbn in Hit. rewrite d_pop_all_get in Hit by apply Hinv2. case_decide as Hn; [done|]. apply Hn, d_get_key. rewrite Heq. eauto.
  - intros c' reason' available at' m Hm Hin. eapply settlement_stale; [|exact Hin].
    destruct (_valid c' (inner w2)) as [it|] eqn:Hv; [|done]. apply outbox_valid_Some in Hv as (Hget & Hid & _).
    destruct (ai_held _ Hinv2 k ltac:(eauto)) as (it0 & Hit0 & Hn & _). congruence.
Qed.

(** ** Bounded claims *)

Definition mid c : OpaqueId := message_id (claim_envelope c).
Definition size_of c : Z := match _size (payload (claim_envelope c)) with Ok z => z | Raise _ => 0 end.
Definition bytes (l : list (OutboxClaim P)) : Z := foldr (fun c n => size_of c + n) 0 l.

Lemma bytes_app l l' : bytes (l ++ l') = bytes l + bytes l'.
Proof. induction l as [|c l IH]; [done|]. cbn. fold (bytes (l ++ l')) (bytes l). lia. Qed.

(** The budget loop on claims that own their items: the selected ones still do, the others
    are released, and the selected bytes are within the budget. *)
Lemma select_loop m cs : forall n l st n' l' st',
  for_each cs (n, l) (select_claim _size m) st = (Ok (n', l'), st') -> NoDup (mid <$> cs) ->
  (forall c, c ∈ cs -> is_Some (_valid c st)) -> n <= m -> n = bytes l ->
  exists sel, l' = l ++ sel /\ sel ⊆ cs /\ (length sel <= length cs)%nat /\ bytes l' <= m /\
    (forall k, k ∉ mid <$> cs -> d_get k (items st') = d_get k (items st)) /\
    (forall c, c ∈ cs -> d_get (mid c) (items st') = d_get (mid c) (items st) /\ c ∈ sel \/
      exists it, d_get (mid c) (items st) = Some it /\ d_get (mid c) (items st') = Some (with_claim it None None) /\ c ∉ sel).
Proof.
  induction cs as [|c cs IH]; intros n l st n' l' st' Hrun Hnd Hv Hn Hl.
  { injection Hrun as <- <- <-. exists []. rewrite app_nil_r. split_and!; [done|done|done|lia|done|].
    intros c Hc. by apply not_elem_of_nil in Hc. }
  cbn [for_each] in Hrun. apply bind_ok in Hrun as ([n1 l1] & st1 & H1 & Hrun). cbn in Hnd.
  apply NoDup_cons in Hnd as [Hc Hnd]. destruct (Hv c ltac:(by left)) as [it Hit].
  unfold select_claim in H1. apply bind_ok in H1 as (z & st2 & Hz & H1). unfold lift in Hz.
  assert (size_of c = z /\ st2 = st) as [Hsize ->] by (unfold size_of; injection Hz as -> <-; done).
  apply bind_ok in H1 as (u & st3 & Hneg & H1). unfold raise_if in Hneg. destruct (z <? 0)%Z; [done|]. injection Hneg as _ <-.
  assert (forall c', c' ∈ cs -> mid c' <> mid c) as Hne.
  { intros c' Hc' Heq. apply Hc. rewrite <- Heq. by apply list_elem_of_fmap_2. }
  destruct (n + z <=? m)%Z eqn:Hfit; time_facts.
  - injection H1 as <- <- <-. apply IH in Hrun as (sel & -> & Hsub & Hlen & Hm & Hout & Hin);
      [|done|intros c' ?; apply Hv; by right|lia|rewrite bytes_app; cbn; lia].
    exists (c :: sel). rewrite <- app_assoc in *. split_and!; [done| |cbn; lia|done| |].
    + intros c'. rewrite !elem_of_cons. intros [->|?]; [by left|right; by apply Hsub].
    + intros k Hk. cbn in Hk. apply not_elem_of_cons in Hk as [_ Hk]. by apply Hout.
    + intros c' [->|Hc']%elem_of_cons; [left; split; [by apply Hout|left]|].
      destruct (Hin c' Hc') as [[? ?]|(it' & ? & ? & Hns)]; [left; split; [done|by right]|right; exists it'].
      split_and!; [done|done|]. intros [->|?]%elem_of_cons; [|done]. by destruct (Hne c Hc').
  - apply bind_ok in H1 as (u' & st4 & Hrel & H1). injection H1 as <- <- <-.
    unfold release in Hrel. apply bind_ok in Hrel as (o & st5 & Ho & Hrel). injection Ho as <- <-. rewrite Hit in Hrel.
    unfold put_item, modify in Hrel. injection Hrel as _ <-.
    pose proof Hit as (Hget & Hid & Hterm)%outbox_valid_Some. fold (mid c) in *.
    assert (forall k, k <> mid c -> d_get k (d_set (mid c) (with_claim it None None) (items st)) = d_get k (items st)) as Hset.
    { intros k Hk. by rewrite d_get_set_ne. }
    apply IH in Hrun as (sel & -> & Hsub & Hlen & Hm & Hout & Hin); [|done| |done|done].
    + exists sel. split_and!; [done|by intros c' ?%Hsub; right|cbn; lia|done| |].
      * intros k Hk. cbn in Hk. apply not_elem_of_cons in Hk as [Hk0 Hk]. rewrite Hout by done. by apply Hset.
      * intros c' [->|Hc']%elem_of_cons.
        -- right. exists it. rewrite Hout by done. cbn. rewrite d_get_set_eq. split_and!; [done|done|].
           intros Hs%Hsub. by destruct (Hne c Hs).
        -- specialize (Hin c' Hc'). cbn in Hin. rewrite Hset in Hin by by apply Hne. done.
    + intros c' Hc'. destruct (Hv c' ltac:(by right)) as [it' Hit']. exists it'. unfold _valid in *. cbn.
      fold (mid c') in *. rewrite Hset by by apply Hne. done.
Qed.

Lemma claims_of_mids n until (chosen : list (OpaqueId * Stored P)) :
  mid <$> claims_of n until chosen = (fun p => message_id (envelope p.2)) <$> chosen.
Proof. revert n. induction chosen as [|p l IH]; intros n; [done|]. cbn. by rewrite IH. Qed.

(** Claiming from a well-formed store: the items chosen, claimed until [until]. *)
Lemma claim_chosen now limit ttl st all st1 : store_inv st -> claim now limit ttl st = (Ok all, st1) ->
  Z.of_nat (length all) <= limit /\ NoDup (mid <$> all) /\ is_utc now = true /\
  (forall k, k ∉ mid <$> all -> d_get k (items st1) = d_get k (items st)) /\
  (forall c, c ∈ all -> exists it until, d_get (mid c) (items st) = Some it /\ terminal it = false /\
    d_get (mid c) (items st1) = Some (with_claim it (Some (claim_id c)) (Some until)) /\
    claimed_until c = until /\ dt_instant now < dt_instant until).
Proof.
  intros [Hwf Hkey] (until & Hadd & -> & -> & Hutc & Hlim & Httl)%claim_answer.
  set (choice := claim_choice now limit st) in *.
  assert (choice ⊆ items st) as Hsub.
  { by intros p [_ Hp]%claim_choice_elem. }
  assert ((fun p => message_id (envelope p.2)) <$> choice = choice.*1) as Hids.
  { apply list_fmap_ext. intros i [k it] Hi. cbn. apply Hkey. apply d_elem_get; [done|]. apply Hsub. by eapply list_elem_of_lookup_2. }
  assert (NoDup choice.*1) as Hnd by by apply claim_choice_NoDup.
  cbn [items]. rewrite claims_of_mids, Hids. split_and!; [|done|done| |].
  - rewrite <- (length_fmap claim_envelope), claims_of_envelopes, length_fmap. unfold choice, claim_choice.
    rewrite length_take. lia.
  - intros k Hk. by apply claimed_items_ne.
  - intros c Hc. pose proof (claims_of_recorded (uuid_draws st) until choice (items st) Hnd) as Hrec.
    rewrite Forall_forall in Hrec. destruct (Hrec c Hc) as (k & it & Hin & He & Hget).
    pose proof (d_elem_get _ _ _ Hwf (Hsub _ Hin)) as Hgk. assert (mid c = k) as -> by (unfold mid; rewrite He; by apply Hkey).
    exists it, until. split_and!; [done| |done| |].
    + apply claim_choice_elem in Hin as [Hcl _]. unfold claimable in Hcl. unfold terminal. cbn in Hcl.
      destruct (_ || _); [by rewrite andb_false_r in Hcl|done].
    + clear -Hc. revert Hc. generalize (uuid_draws st). induction choice as [|p l IH]; intros n; cbn; [by intros ?%not_elem_of_nil|].
      intros [->|?]%elem_of_cons; [done|by eapply IH].
    + destruct Hadd as [Hnil|Hadd]; [|time_facts; lia]. rewrite Hnil in Hc. by apply not_elem_of_nil in Hc.
Qed.

(** After any history of an empty store, a bounded claim returns at most [limit] messages of at most [max_bytes] bytes in all,
    each of which it has the authority to settle now; every message it does not return is as
    it was or, if it did not fit, left without a claim, so it stays pending. *)
Theorem claim_bounded cap before now limit ttl max_bytes claims w' :
  let w := aexec_all before (mkAStore (mkStore cap [] 0) []) in
  claim_async _size now limit ttl (Some max_bytes) w = (Ok claims, w') ->
  bytes claims <= max_bytes /\ Z.of_nat (length claims) <= limit /\
  (forall c, c ∈ claims -> _current c now (inner w') = (Ok true, inner w')) /\
  (forall k, k ∉ mid <$> claims -> d_get k (items (inner w')) = d_get k (items (inner w)) \/
    exists it, d_get k (items (inner w)) = Some it /\ d_get k (items (inner w')) = Some (with_claim it None None)).
Proof.
  intros w Hrun. pose proof (aexec_all_inv before _ (async_inv_initial cap)) as [Hst Hunc Hheld]. fold w in Hst, Hunc, Hheld.
  rewrite claim_async_eq in Hrun. destruct (max_bytes <=? 0)%Z eqn:Hmax; [done|]. time_facts.
  set (ids := (uncertain_at w).*1) in *.
  assert (forall k, k ∈ ids -> is_Some (d_get k (items (inner w)))) as Hids.
  { intros k Hk%d_get_key. destruct (Hheld k Hk) as (it & Hit & _). eauto. }
  destruct (claim_without ids now limit ttl (inner w) Hst Hunc Hids) as (st1 & _ & (r & Hc & Heq) & Hback).
  unfold bind at 1 in Hrun. rewrite Heq in Hrun. destruct r as [all|e]; [|done]. unfold within_budget in Hrun.
  destruct (bind _ _ _) as [x st'] eqn:Hsel in Hrun. injection Hrun as -> <-.
  apply bind_ok in Hsel as ([n l] & st2 & Hsel & Hret). injection Hret as -> ->.
  destruct (claim_chosen _ _ _ _ _ _ (without_inv ids (inner w) Hst) Hc) as (Hlen & Hnd & Hutc & Hout & Hin). unfold set_items in Hout, Hin. cbn [items] in Hout, Hin.
  assert (forall c, c ∈ all -> mid c ∉ ids) as Hfree.
  { intros c Hc'. destruct (Hin c Hc') as (it & until & Hg & _). rewrite d_pop_all_get in Hg by apply Hst. by case_decide. }
  assert (forall c it until, c ∈ all -> d_get (mid c) (items st1) = Some (with_claim it (Some (claim_id c)) (Some until)) ->
    terminal it = false -> forall st, d_get (mid c) (items st) = d_get (mid c) (items st1) ->
    _valid c st = Some (with_claim it (Some (claim_id c)) (Some until))) as Hvalid.
  { intros c it until Hc' Hg Ht st Hs. unfold _valid. fold (mid c). rewrite Hs, Hg. cbn. rewrite bool_decide_true by done.
    cbn. unfold terminal in Ht. by rewrite Ht. }
  assert (forall c, c ∈ all -> d_get (mid c) (updated (held_of ids (items (inner w))) (items st1)) = d_get (mid c) (items st1)) as Hb.
  { intros c Hc'. rewrite Hback. by rewrite decide_False by by apply Hfree. }
  apply select_loop in Hsel as (sel & -> & Hsub & Hle & Hbytes & Hkeep & Hcase); [|done| |lia|done].
  2: { intros c Hc'. destruct (Hin c Hc') as (it & until & _ & Ht & Hg & _). eexists. eapply Hvalid; [done|done|done|]. by apply Hb. }
  unfold set_items in Hkeep, Hcase. cbn [app items] in *. split_and!; [done|lia| |].
  - intros c Hc'. pose proof (Hsub _ Hc') as Hall. destruct (Hin c Hall) as (it & until & _ & Ht & Hg & Hu & Hlt).
    destruct (Hcase c Hall) as [[Hs _]|(? & _ & _ & ?)]; [|done]. unfold _current, _utc. monad_unfold. rewrite Hutc. cbn.
    rewrite (Hvalid c it until Hall Hg Ht st') by (rewrite Hs; by apply Hb). cbn. rewrite Hu, Z.eqb_refl.
    rewrite (proj2 (dt_ltb_lt _ _)) by done. done.
  - intros k Hk. destruct (decide (k ∈ mid <$> all)) as [Hka|Hka].
    + apply list_elem_of_fmap in Hka as (c & -> & Hc'). destruct (Hcase c Hc') as [[_ Hs]|(it & Hg & Hs & _)].
      { exfalso. apply Hk. by apply list_elem_of_fmap_2. }
      right. destruct (Hin c Hc') as (it0 & until & Hg0 & _ & Hg1 & _). rewrite d_pop_all_get in Hg0 by apply Hst.
      rewrite decide_False in Hg0 by by apply Hfree. exists it0. split; [done|]. cbn. rewrite Hs.
      rewrite Hb, Hg1 in Hg by done. injection Hg as <-. done.
    + left. cbn. rewrite Hkeep by done. rewrite Hback. case_decide as Hi; [done|].
      rewrite Hout, d_pop_all_get by (done || apply Hst). by rewrite decide_False.
Qed.
End Histories.

(** ** Concrete runs *)

Section Witnesses.
#[local] Existing Instance unary_uuid.

(** Two messages of payload 7, each of 40 bytes; the earlier one is claimed, and its
    publication is uncertain. *)
Definition async_size (payload : Z) : result exn Z := Ok (payload * 6 - 2).
Definition async_env (id : pystr) (at_ : Z) : OutboxEnvelope Z := mkEnvelope (mkOpaqueId id) "t" 7 (utc at_) (utc at_) 0.
Definition async_before : list (aop Z) :=
  [AAdd (async_env "b" 100); AAdd (async_env "a" 90); AAdd (async_env "c" 95); AClaim (utc 120) 1 50 None].
Definition async_empty : astore Z := mkAStore (mkStore 5 [] 0) [].
Definition async_claim : OutboxClaim Z := mkClaim (uuid4_hex 0) (async_env "a" 90) (utc 170).
Definition async_uncertain : astore Z :=
  snd (uncertain_async async_claim "ConnectionError" (utc 130) (aexec_all async_size async_before async_empty)).

Lemma uncertain_publication_held_witness :
  d_get (mkOpaqueId "a") (uncertain_at (aexec_all async_size [AClaim (utc 500) 1 50 (Some 100)] async_uncertain)) = Some (utc 130).
Proof.
  apply (uncertain_publication_held async_size 5 async_before async_claim "ConnectionError" (utc 130) async_uncertain
    [AClaim (utc 500) 1 50 (Some 100)]); [vm_compute; reflexivity|].
  constructor; [intros []|constructor].
Defined.

(** The budget admits one of the two pending messages; the other one stays pending. *)
Lemma claim_bounded_witness :
  let r := claim_async async_size (utc 500) 5 50 (Some 50)
    (aexec_all async_size (async_before ++ [AUncertain async_claim "ConnectionError" (utc 130)]) async_empty) in
  exists claims, fst r = Ok claims /\ mid <$> claims = [mkOpaqueId "c"] /\ bytes async_size claims <= 50.
Proof.
  eexists. split; [vm_compute; reflexivity|]. split; [vm_compute; reflexivity|].
  eapply (claim_bounded async_size 5 (async_before ++ [AUncertain async_claim "ConnectionError" (utc 130)]) (utc 500) 5 50 50).
  vm_compute. reflexivity.
Defined.
End Witnesses.
