(* ===== verification/Messaging.v ===== *)
(** * Publication and delivery results, routing ([src/pytitect/messaging/])

    The results of a publication and of a delivery ([results.py]) and the table from event
    types to logical destinations ([routing.py]). *)
From Stdlib Require Import ZArith Lia.
From stdpp Require Import base list.
From S2P Require Import Prelude Core.

(** ** Results *)

Inductive PublicationResult :=
  | PublicationConfirmed (transport_id : pystr)
  | PublicationRetryable (reason : pystr) (retry_after : option datetime)
  | PublicationRejected (reason : pystr)
  | PublicationUncertain (reason : pystr).

Definition PublicationConfirmed_new {S} (transport_id : pystr) : M exn S PublicationResult :=
  raise_if (str_empty transport_id) (ValueError "confirmed publication requires a transport ID") ;;;
  ret (PublicationConfirmed transport_id).
Definition PublicationRetryable_new {S} (reason : pystr) (retry_after : option datetime) : M exn S PublicationResult :=
  raise_if (str_empty reason) (ValueError "retryable publication requires a reason") ;;;
  ret (PublicationRetryable reason retry_after).
Definition PublicationRejected_new {S} (reason : pystr) : M exn S PublicationResult :=
  raise_if (str_empty reason) (ValueError "rejected publication requires a reason") ;;;
  ret (PublicationRejected reason).

Inductive DeliveryDisposition :=
  | DeliveryAck
  | DeliveryRetry (delay : option timedelta)
  | DeliveryTerminated (quarantine_id : pystr).

#[export] Instance DeliveryDisposition_eq_dec : EqDecision DeliveryDisposition.
Proof. solve_decision. Defined.

Definition DeliveryTerminated_new {S} (quarantine_id : pystr) : M exn S DeliveryDisposition :=
  raise_if (str_empty quarantine_id) (ValueError "terminated delivery requires a durable quarantine ID") ;;;
  ret (DeliveryTerminated quarantine_id).

(** ** Routing *)

Record Route := mkRoute { event_type : pystr; destination : pystr }.

Definition Route_new {S} (t d : pystr) : M exn S Route :=
  raise_if (str_empty t || str_empty d) (ValueError "route event type and destination must not be empty") ;;;
  ret (mkRoute t d).

Abbreviation RoutingTable := (dict pystr pystr).

Definition RoutingTable_new (routes : list Route) : result exn RoutingTable :=
  fold_result (fun values route =>
    reject_if (d_mem (event_type route) values)
      (ValueError (str_app "duplicate route for event type: " (event_type route))) ??;
    Ok (d_set (event_type route) (destination route) values)) routes [].

Definition destination_for (values : RoutingTable) (t : pystr) : result exn pystr :=
  match d_get t values with
  | Some d => Ok d
  | None => Raise (LookupError (str_app "no route for event type: " t))
  end.

(** A table is built from distinct event types, and finds the destination of each of them. *)
Lemma routing_spec routes values : RoutingTable_new routes = Ok values ->
  NoDup (event_type <$> routes) /\
  forall t d, destination_for values t = Ok d <-> mkRoute t d ∈ routes.
Proof.
  assert (forall routes acc values,
    fold_result (fun values route =>
      reject_if (d_mem (event_type route) values)
        (ValueError (str_app "duplicate route for event type: " (event_type route))) ??;
      Ok (d_set (event_type route) (destination route) values)) routes acc = Ok values ->
    NoDup (event_type <$> routes) /\ (forall r, r ∈ routes -> d_get (event_type r) acc = None) /\
    forall t, d_get t values = match d_get t acc with Some d => Some d | None => d_get t (map (fun r => (event_type r, destination r)) routes) end) as Hgen.
  { clear. induction routes as [|[t0 d0] routes IH]; intros acc values; cbn.
    - intros [= <-]. split_and!; [constructor|by intros r ?%not_elem_of_nil|]. intros t. by destruct (d_get t acc).
    - destruct (d_mem t0 acc) eqn:Hm; cbn; [done|]. intros Hf. apply d_mem_false in Hm.
      destruct (IH _ _ Hf) as (Hnd & Hfree & Hget). split_and!.
      + apply NoDup_cons. split; [|done]. intros (r & Heq & Hr)%list_elem_of_fmap. specialize (Hfree r Hr).
        rewrite <- Heq, d_get_set_eq in Hfree. done.
      + intros r [->|Hr]%elem_of_cons; [done|]. specialize (Hfree r Hr). rewrite d_get_set in Hfree. by case_decide.
      + intros t. rewrite Hget, d_get_set. case_decide as Ht; [subst; by rewrite Hm|]. by destruct (d_get t acc). }
  intros Hnew. destruct (Hgen _ _ _ Hnew) as (Hnd & _ & Hget). split; [done|]. intros t d. unfold destination_for.
  rewrite Hget. cbn [d_get]. clear -Hnd. induction routes as [|[t0 d0] routes IH]; cbn.
  - split; [done|by intros ?%not_elem_of_nil].
  - cbn in Hnd. apply NoDup_cons in Hnd as [Hni Hnd]. rewrite elem_of_cons. case_decide as Ht.
    + subst t0. split; [intros [= <-]; by left|]. intros [[= ->]|Hin]; [done|]. destruct Hni.
      apply list_elem_of_fmap. by exists (mkRoute t d).
    + rewrite IH by done. split; [by right|]. intros [[= -> ->]|?]; done.
Qed.
