(* ===== verification/Operations.v ===== *)
(** * Readiness, backlog and observations ([src/pytitect/operations.py], [src/pytitect/aio/observation.py])

    Probe results and their aggregation into a readiness report, backlog limits, metrics and
    operational events, and the observation of runtime facts, which never disturbs the work
    it observes. *)
From Stdlib Require Import ZArith Lia SpecFloat Sorted Permutation.
From stdpp Require Import base list.
From S2P Require Import Prelude Core Outbox Resilience.

Inductive RuntimeRole := API | RELAY | CONSUMER | SCHEDULER | PROJECTION.

(** [_NAME.fullmatch]. *)
Definition is_lower (c : N) : bool := ((97 <=? c) && (c <=? 122))%N.
Definition is_name_char (c : N) : bool :=
  (is_lower c || ((48 <=? c) && (c <=? 57)) || (c =? 95) || (c =? 46) || (c =? 45))%N.
Definition _NAME (s : pystr) : bool :=
  match codepoints s with
  | c :: l => is_lower c && forallb is_name_char l && (length l <=? 127)%nat
  | [] => false
  end.

(** ** Failure reasons *)

Definition safe_failure_reason (error : exn) (max_chars : Z) : result exn pystr :=
  if (max_chars <=? 0)%Z then Raise (ValueError "max_chars must be positive")
  else
    let text := str_join " " (str_split (exn_str error)) in
    let text := if str_empty text then exn_name error else text in
    Ok (str_take (Z.to_nat max_chars) (str_app (exn_name error) (str_app ": " text))).

(** ** Readiness *)

Record ProbeResult := mkProbeResult { probe_name : pystr; ready : bool; detail : option pystr }.

Definition ProbeResult_new (name : pystr) (ready : bool) (detail : option pystr) : result exn ProbeResult :=
  reject_if (negb (_NAME name)) (ValueError "probe name is invalid") ??;
  reject_if (match detail with Some d => (256 <? str_len d)%Z | None => false end)
    (ValueError "probe detail exceeds 256 characters") ??;
  Ok (mkProbeResult name ready detail).

(** [ReadinessProbe]: its name and its check, which may also time out. *)
Record ReadinessProbe (W : Type) := mkProbe { required_name : pystr; check_probe : M exn W ProbeResult }.
Arguments mkProbe {W}.
Arguments required_name {W}.
Arguments check_probe {W}.

Record ReadinessPolicy (W : Type) := mkPolicy {
  role : RuntimeRole;
  required : list (ReadinessProbe W);
  timeout : timedelta
}.
Arguments mkPolicy {W}.
Arguments role {W}.
Arguments required {W}.
Arguments timeout {W}.

Definition ReadinessPolicy_new {W} (r : RuntimeRole) (probes : list (ReadinessProbe W)) (t : timedelta) :
    result exn (ReadinessPolicy W) :=
  reject_if (t <=? 0)%Z (ValueError "readiness timeout must be positive") ??;
  reject_if (negb (bool_decide (NoDup (required_name <$> probes)))) (ValueError "readiness probe names must be unique") ??;
  Ok (mkPolicy r probes t).

Record ReadinessReport := mkReport { report_role : RuntimeRole; report_ready : bool; probes : list ProbeResult }.

Section Readiness.
Context {W : Type}.

Definition is_cancelled (e : exn) : bool := bool_decide (exn_name e = "CancelledError"%py).

(** [check] of [evaluate_readiness]: any failure but a cancellation is a probe that is not ready. *)
Definition check (p : ReadinessProbe W) : M exn W ProbeResult :=
  let! outcome := (fun w => let (r, w') := check_probe p w in
    match r with
    | Raise e => if is_cancelled e then (Raise e, w') else (Ok (inr e), w')
    | Ok result => (Ok (inl result), w')
    end) in
  match outcome with
  | inr e =>
      let! reason := lift (safe_failure_reason e 256) in
      lift (ProbeResult_new (required_name p) false (Some reason))
  | inl result =>
      if negb (bool_decide (probe_name result = required_name p))
      then lift (ProbeResult_new (required_name p) false (Some "probe identity mismatch"))
      else ret result
  end.

(** [asyncio.gather] returns the results in the order of the probes. *)
Definition evaluate_readiness (policy : ReadinessPolicy W) : M exn W ReadinessReport :=
  let! results := for_each (required policy) [] (fun acc p => let! r := check p in ret (acc ++ [r])) in
  let ordered := sorted_by str_compare probe_name results in
  ret (mkReport (role policy) (forallb ready ordered) ordered).
End Readiness.

(** ** Backlog *)

Record BacklogSnapshot := mkSnapshot { pending : Z; oldest_age : timedelta; retained_bytes : Z }.
Definition BacklogSnapshot_new (p : Z) (age : timedelta) (b : Z) : result exn BacklogSnapshot :=
  reject_if ((p <? 0) || (age <? 0) || (b <? 0))%Z (ValueError "backlog observations must not be negative") ??;
  Ok (mkSnapshot p age b).

Record BacklogLimits := mkBacklogLimits { max_pending : Z; max_age : timedelta; max_bytes : Z }.
Definition BacklogLimits_new (p : Z) (age : timedelta) (b : Z) : result exn BacklogLimits :=
  reject_if ((p <? 0) || (age <? 0) || (b <? 0))%Z (ValueError "backlog limits must not be negative") ??;
  Ok (mkBacklogLimits p age b).

Definition evaluate (l : BacklogLimits) (s : BacklogSnapshot) : result exn ProbeResult :=
  ProbeResult_new "backlog"
    ((pending s <=? max_pending l) && (oldest_age s <=? max_age l) && (retained_bytes s <=? max_bytes l))%Z None.

(** ** Metrics and events *)

(** A scalar attribute is text here: the runtime records no other. *)
Record Metric := mkMetric { metric_name : pystr; metric_value : spec_float; metric_attributes : dict pystr pystr }.
Definition Metric_new {S} (name : pystr) (v : spec_float) (attributes : dict pystr pystr) : M exn S Metric :=
  raise_if (negb (_NAME name)) (ValueError "metric name is invalid") ;;;
  raise_if (32 <? d_len attributes)%Z (ValueError "metric attributes exceed 32 items") ;;;
  ret (mkMetric name v attributes).

Record OperationalEvent := mkEvent { event_name : pystr; event_at : datetime; event_attributes : dict pystr pystr }.
Definition OperationalEvent_new {S} (name : pystr) (at_ : datetime) (attributes : dict pystr pystr) : M exn S OperationalEvent :=
  raise_if (negb (_NAME name)) (ValueError "operational event name is invalid") ;;;
  raise_if (negb (is_utc at_)) (ValueError "operational event time must be timezone-aware UTC") ;;;
  raise_if (32 <? d_len attributes)%Z (ValueError "operational event attributes exceed 32 items") ;;;
  ret (mkEvent name at_ attributes).

(** ** Observation of runtime facts *)

Inductive RuntimeFact :=
  | ADMITTED | BUSY | COMMITTED | ROLLED_BACK | FACT_DELIVERED | RETRIED | FACT_DEFERRED | FACT_STALE | FAILED
  | UNCERTAIN | ACKNOWLEDGED | TERMINATED | CANCELLED | STOPPED.

Definition fact_value (f : RuntimeFact) : pystr :=
  match f with
  | ADMITTED => "admitted" | BUSY => "busy" | COMMITTED => "committed" | ROLLED_BACK => "rolled_back"
  | FACT_DELIVERED => "delivered" | RETRIED => "retried" | FACT_DEFERRED => "deferred" | FACT_STALE => "stale"
  | FAILED => "failed" | UNCERTAIN => "uncertain" | ACKNOWLEDGED => "acknowledged" | TERMINATED => "terminated"
  | CANCELLED => "cancelled" | STOPPED => "stopped"
  end.
Definition role_value (r : RuntimeRole) : pystr :=
  match r with API => "api" | RELAY => "relay" | CONSUMER => "consumer" | SCHEDULER => "scheduler" | PROJECTION => "projection" end.

Section Observation.
Context {W : Type}.

(** [RuntimeObservation]: the sinks are the consumer's. *)
Record RuntimeObservation := mkObservation {
  observed_role : RuntimeRole;
  sink : option (OperationalEvent -> M exn W unit);
  metrics : option (Metric -> M exn W unit)
}.

(** [with suppress(Exception)]. *)
Definition suppressed (m : M exn W unit) : M exn W unit :=
  fun w => (Ok tt, snd (m w)).

Definition emit (o : RuntimeObservation) (fact : RuntimeFact) (at_ : datetime) : M exn W unit :=
  match sink o with
  | None => ret tt
  | Some sink => suppressed (
      let! e := OperationalEvent_new "runtime.transition" at_
                  [("role", role_value (observed_role o)); ("outcome", fact_value fact)]%py in
      sink e)
  end.

Definition lag (o : RuntimeObservation) (occurred_at at_ : datetime) : M exn W unit :=
  match metrics o with
  | None => ret tt
  | Some record => suppressed (
      let! m := Metric_new "runtime.message_age_seconds"
                  (float_max_zero (total_seconds (dt_instant at_ - dt_instant occurred_at)))
                  [("role", role_value (observed_role o))]%py in
      record m)
  end.

(** Observation never raises. *)
Lemma emit_ok o fact at_ w : fst (emit o fact at_ w) = Ok tt.
Proof. unfold emit. by destruct (sink o). Qed.
Lemma lag_ok o occurred_at at_ w : fst (lag o occurred_at at_ w) = Ok tt.
Proof. unfold lag. by destruct (metrics o). Qed.
End Observation.
Arguments RuntimeObservation : clear implicits.

(** ** Readiness fails closed *)

Section ReadinessProofs.
Context {W : Type}.
Implicit Types (p : ReadinessProbe W) (w : W).

(** The probe itself answered [r], in some state of the evaluation. *)
Definition answered p (r : ProbeResult) : Prop := exists w w', check_probe p w = (Ok r, w').

Lemma ProbeResult_new_ok name b d r : ProbeResult_new name b d = Ok r -> r = mkProbeResult name b d.
Proof. unfold ProbeResult_new. intros ([] & _ & ([] & _ & [= <-])%rbind_ok)%rbind_ok. done. Qed.

Lemma check_spec p w r w' : check p w = (Ok r, w') ->
  probe_name r = required_name p /\ (ready r = true -> answered p r).
Proof.
  unfold check. intros (outcome & w1 & Ho & Hr)%bind_ok. destruct (check_probe p w) as [[res|e] w2] eqn:Hp.
  - injection Ho as <- <-. destruct (negb (bool_decide _)) eqn:Hn.
    + unfold lift in Hr. injection Hr as Hr <-. by apply ProbeResult_new_ok in Hr as ->.
    + injection Hr as <- <-. time_facts. split; [done|]. intros _. by exists w, w2.
  - destruct (is_cancelled e); [done|]. injection Ho as <- <-. apply bind_ok in Hr as (reason & w3 & _ & Hr).
    unfold lift in Hr. injection Hr as Hr <-. by apply ProbeResult_new_ok in Hr as ->.
Qed.

Lemma check_all l : forall acc w rs w',
  for_each l acc (fun acc p => let! r := check p in ret (acc ++ [r])) w = (Ok rs, w') ->
  exists out, rs = acc ++ out /\ Forall2 (fun p r => probe_name r = required_name p /\ (ready r = true -> answered p r)) l out.
Proof.
  induction l as [|p l IH]; intros acc w rs w' Hrun.
  - injection Hrun as <- <-. exists []. by rewrite app_nil_r.
  - cbn [for_each] in Hrun. apply bind_ok in Hrun as (acc1 & w1 & H1 & Hrun).
    apply bind_ok in H1 as (r & w2 & Hr & H1). injection H1 as <- <-. apply check_spec in Hr.
    destruct (IH _ _ _ _ Hrun) as (out & -> & Hout). exists (r :: out). rewrite <- app_assoc. split; [done|by constructor].
Qed.

(** A report has one result per required probe, in the order of the names, and is ready only
    if every probe itself answered that it is ready, under its own name: a probe that fails,
    times out or answers for another one makes the role unready. *)
Theorem readiness_fails_closed policy w report w' : evaluate_readiness policy w = (Ok report, w') ->
  probe_name <$> probes report ≡ₚ required_name <$> required policy /\
  StronglySorted (fun a b => key_leb str_compare probe_name a b = true) (probes report) /\
  (report_ready report = true <-> Forall (fun r => ready r = true) (probes report)) /\
  (report_ready report = true -> forall p, p ∈ required policy ->
    exists r, r ∈ probes report /\ probe_name r = required_name p /\ ready r = true /\ answered p r).
Proof.
  unfold evaluate_readiness. intros (rs & w1 & Hrun & Hret)%bind_ok. injection Hret as <- <-.
  apply check_all in Hrun as (out & -> & Hout). cbn [app probes report_ready]. split_and!.
  - rewrite sorted_by_perm. induction Hout as [|p r l out [Hn _] _ IH]; [done|]. cbn. by rewrite Hn, IH.
  - by apply sorted_by_sorted, _.
  - rewrite List.forallb_forall, List.Forall_forall. done.
  - rewrite List.forallb_forall. intros Hall p Hp.
    apply list_elem_of_lookup in Hp as (i & Hi). destruct (Forall2_lookup_l _ _ _ _ _ Hout Hi) as (r & Hr & Hn & Ha).
    apply list_elem_of_lookup_2 in Hr. assert (r ∈ sorted_by str_compare probe_name out) as Hs by by apply elem_of_sorted_by.
    exists r. pose proof Hs as Hs'. rewrite list_elem_of_In in Hs'. specialize (Hall _ Hs'). auto.
Qed.
End ReadinessProofs.
