(* ===== verification/Coroutines.v ===== *)
(** * Coroutines and worker pools

    An [async def] is a coroutine: it runs up to its next [await] without being interrupted,
    and other tasks of the event loop may run between two such steps. A pool is the loop
    [async with TaskGroup() as group: ...] of a fixed number of workers that share one
    iterator of jobs; its step relation contains every interleaving of the workers with each
    other and with the rest of the program. *)
From Stdlib Require Import ZArith Lia Permutation.
From stdpp Require Import base list.
From S2P Require Import Prelude.

(** A coroutine has ended, with a value or an exception, or waits to be resumed: a step has
    an effect on the world, and leaves the rest of the coroutine. *)
Inductive co (W A : Type) :=
  | Ret (r : result exn A)
  | Await (rest : W -> co W A) (effect : W -> W).
Arguments Ret {W A}.
Arguments Await {W A}.

Section Coroutines.
Context {W : Type}.

(** A step without a suspension inside. *)
Definition atomically {A} (m : M exn W A) : co W A :=
  Await (fun w => Ret (fst (m w))) (fun w => snd (m w)).

Fixpoint co_bind {A B} (c : co W A) (f : A -> co W B) : co W B :=
  match c with
  | Ret (Ok a) => f a
  | Ret (Raise e) => Ret (Raise e)
  | Await rest effect => Await (fun w => co_bind (rest w) f) effect
  end.

(** Run without interruption. *)
Fixpoint co_run {A} (c : co W A) (w : W) : result exn A * W :=
  match c with
  | Ret r => (r, w)
  | Await rest effect => co_run (rest w) (effect w)
  end.

(** The suspensions of that run. *)
Fixpoint co_length {A} (c : co W A) (w : W) : nat :=
  match c with
  | Ret _ => 0
  | Await rest effect => S (co_length (rest w) (effect w))
  end.

(** At most [n] suspensions, whatever the other tasks do in between. *)
Fixpoint suspends {A} (n : nat) (c : co W A) : Prop :=
  match c with
  | Ret _ => True
  | Await rest _ => match n with O => False | S n' => forall w, suspends n' (rest w) end
  end.

Lemma suspends_weaken {A} (c : co W A) : forall n n', suspends n c -> (n <= n')%nat -> suspends n' c.
Proof.
  induction c as [r|rest IH effect]; intros [|n] [|n'] Hc Hn; try done; [lia|].
  intros w. apply (IH w n n'); [apply Hc|lia].
Qed.

Lemma suspends_atomically {A} (m : M exn W A) : suspends 1 (atomically m).
Proof. done. Qed.

Lemma suspends_bind {A B} (c : co W A) (f : A -> co W B) m : forall n,
  suspends n c -> (forall a, suspends m (f a)) -> suspends (n + m) (co_bind c f).
Proof.
  induction c as [[a|e]|rest IH effect]; intros n Hc Hf; cbn [co_bind].
  - eapply suspends_weaken; [apply Hf|lia].
  - by destruct (n + m)%nat.
  - destruct n as [|n]; [done|]. intros w. apply IH; [apply Hc|done].
Qed.

Lemma co_run_atomically {A} (m : M exn W A) w : co_run (atomically m) w = m w.
Proof. cbn. by destruct (m w). Qed.

Lemma co_run_bind {A B} (c : co W A) (f : A -> co W B) : forall w,
  co_run (co_bind c f) w = match co_run c w with (Ok a, w') => co_run (f a) w' | (Raise e, w') => (Raise e, w') end.
Proof. induction c as [[a|e]|rest IH effect]; intros w; cbn; [done|done|apply IH]. Qed.
End Coroutines.

Notation "'let*' x := c 'in' k" := (co_bind c (fun x => k))
  (at level 10, x name, c at level 100, k at level 200) : py_scope.

(** ** Worker pools *)

Section Pool.
Context {W J A : Type}.
Variable work : J -> co W A.
Variable workers : nat.
(** What the rest of the program may do to the world while a worker waits. *)
Variable env : W -> W -> Prop.

(** What the shared iterator still has, the jobs in progress, the jobs done with their
    results, and the world. *)
Record pool := mkPool {
  todo : list J;
  running : list (J * co W A);
  finished : list (J * A);
  world : W
}.

Inductive pool_step : pool -> pool -> Prop :=
  | step_take j js rs ds w : (length rs < workers)%nat ->
      pool_step (mkPool (j :: js) rs ds w) (mkPool js ((j, work j) :: rs) ds w)
  | step_resume js rs1 rs2 ds w w1 j rest effect : env w w1 ->
      pool_step (mkPool js (rs1 ++ (j, Await rest effect) :: rs2) ds w)
        (mkPool js (rs1 ++ (j, rest w1) :: rs2) ds (effect w1))
  | step_finish js rs1 rs2 ds w j a :
      pool_step (mkPool js (rs1 ++ (j, Ret (Ok a)) :: rs2) ds w) (mkPool js (rs1 ++ rs2) (ds ++ [(j, a)]) w).

(** Executions of a number of steps. *)
Inductive pool_steps : nat -> pool -> pool -> Prop :=
  | steps_none p : pool_steps 0 p p
  | steps_more n p1 p2 p3 : pool_step p1 p2 -> pool_steps n p2 p3 -> pool_steps (S n) p1 p3.

Definition start (js : list J) (w : W) : pool := mkPool js [] [] w.

(** All jobs are done; or a worker raised, which ends the group. *)
Definition complete (p : pool) : Prop := todo p = [] /\ running p = [].
Definition raised (p : pool) : Prop := exists j e, (j, Ret (Raise e)) ∈ running p.

(** The jobs of the pool, wherever they are. *)
Definition jobs (p : pool) : list J := todo p ++ (running p).*1 ++ (finished p).*1.

Lemma step_jobs p p' : pool_step p p' -> jobs p' ≡ₚ jobs p /\
  ((length (running p) <= workers)%nat -> (length (running p') <= workers)%nat).
Proof.
  intros Hs. destruct Hs as [j js rs ds w Hlt|js rs1 rs2 ds w w1 j rest effect Henv|js rs1 rs2 ds w j a];
    unfold jobs; cbn; rewrite ?fmap_app; cbn.
  - split; [|lia]. by rewrite <- Permutation_middle.
  - split; [done|]. rewrite !length_app. cbn. lia.
  - split; [|rewrite !length_app; cbn; lia]. apply Permutation_app_head. rewrite <- !app_assoc. apply Permutation_app_head.
    cbn. rewrite (Permutation_cons_append (rs2.*1 ++ ds.*1)). by rewrite <- app_assoc.
Qed.

Lemma steps_jobs n p p' : pool_steps n p p' -> jobs p' ≡ₚ jobs p /\
  ((length (running p) <= workers)%nat -> (length (running p') <= workers)%nat).
Proof.
  induction 1 as [p|n p1 p2 p3 Hs _ [IH1 IH2]]; [done|]. apply step_jobs in Hs as [Hp Hw]. split; [by rewrite IH1|auto].
Qed.

(** A pool is complete, or has a worker that raised, or can go on. *)
Lemma pool_progress p : (forall w, env w w) -> (0 < workers)%nat -> complete p \/ raised p \/ exists p', pool_step p p'.
Proof.
  intros Henv Hw. destruct p as [js [|[j c] rs] ds w].
  - destruct js as [|j js]; [by left|]. right. right. eexists. by apply step_take.
  - destruct c as [[a|e]|rest effect].
    + right. right. eexists. apply (step_finish js []).
    + right. left. exists j, e. left.
    + right. right. eexists. by apply (step_resume js []).
Qed.

(** A job that is resumed again and again while nothing else happens. *)
Lemma run_alone js j a ds c : forall w w', (forall w, env w w) -> co_run c w = (Ok a, w') ->
  pool_steps (S (co_length c w)) (mkPool js [(j, c)] ds w) (mkPool js [] (ds ++ [(j, a)]) w').
Proof.
  intros w w' Henv. revert w. induction c as [r|rest IH effect]; intros w; cbn.
  - intros [= -> ->]. eapply steps_more; [apply (step_finish js [] [])|constructor].
  - intros Hrun. eapply steps_more; [apply (step_resume js [] []), Henv|]. by apply IH.
Qed.

(** *** Every execution is finite *)

Context (bound : nat) (Hbound : forall j, suspends bound (work j)).

(** The steps left at most: each running job by its suspensions and its end. *)
Inductive weighs : list (J * co W A) -> nat -> Prop :=
  | weighs_nil : weighs [] 0
  | weighs_cons j c rs n m : suspends n c -> weighs rs m -> weighs ((j, c) :: rs) (S n + m).

Lemma weighs_app rs1 rs2 n : weighs (rs1 ++ rs2) n <-> exists n1 n2, weighs rs1 n1 /\ weighs rs2 n2 /\ n = (n1 + n2)%nat.
Proof.
  revert n. induction rs1 as [|[j c] rs1 IH]; intros n; cbn; split.
  - intros Hn. exists 0%nat, n. by split_and!; [constructor|..].
  - intros (n1 & n2 & H1 & H2 & ->). by inversion H1.
  - intros Hn. inversion Hn as [|? ? ? k m Hc Hm]; subst. apply IH in Hm as (n1 & n2 & H1 & H2 & ->).
    exists (S k + n1)%nat, n2. split_and!; [by constructor|done|lia].
  - intros (n1 & n2 & H1 & H2 & ->). inversion H1 as [|? ? ? k m Hc Hm]; subst.
    replace (S k + m + n2)%nat with (S k + (m + n2))%nat by lia. constructor; [done|]. apply IH. eauto.
Qed.

Definition pool_weight (p : pool) (n : nat) : Prop :=
  exists m, weighs (running p) m /\ n = ((bound + 2) * length (todo p) + m)%nat.

Lemma step_weight p p' n : pool_step p p' -> pool_weight p n -> exists n', pool_weight p' n' /\ (n' < n)%nat.
Proof.
  intros Hs (m & Hm & ->). destruct Hs as [j js rs ds w Hlt|js rs1 rs2 ds w w1 j rest effect Henv|js rs1 rs2 ds w j a]; cbn in *.
  - exists ((bound + 2) * length js + (S bound + m))%nat. split; [|lia]. exists (S bound + m)%nat. split; [|done]. by constructor.
  - apply weighs_app in Hm as (n1 & n2 & H1 & H2 & ->). inversion H2 as [|? ? ? k m Hc Hk]; subst.
    destruct k as [|k]; [done|]. exists ((bound + 2) * length js + (n1 + (S k + m)))%nat. split; [|lia].
    exists (n1 + (S k + m))%nat. split; [|done]. apply weighs_app. exists n1, (S k + m)%nat. split_and!; [done|constructor|done]; [|done].
    apply Hc.
  - apply weighs_app in Hm as (n1 & n2 & H1 & H2 & ->). inversion H2 as [|? ? ? k m Hc Hk]; subst.
    exists ((bound + 2) * length js + (n1 + m))%nat. split; [|lia]. exists (n1 + m)%nat. split; [|done].
    apply weighs_app. by exists n1, m.
Qed.

(** Every execution of a pool has at most [bound + 2] steps per job. *)
Lemma steps_bounded n js w p : pool_steps n (start js w) p -> (n <= (bound + 2) * length js)%nat.
Proof.
  assert (forall n p p' k, pool_steps n p p' -> pool_weight p k -> (n <= k)%nat) as Hgen.
  { clear n js w p. intros n p p' k Hs. revert k. induction Hs as [p|n p1 p2 p3 Hs _ IH]; intros k Hk; [lia|].
    destruct (step_weight _ _ _ Hs Hk) as (k' & Hk' & ?). specialize (IH k' Hk'). lia. }
  intros Hs. eapply Hgen; [exact Hs|]. exists 0%nat. split; [constructor|]. cbn. lia.
Qed.
End Pool.
