(* ===== verification/Relay.v ===== *)
(** * The asynchronous relay ([src/pytitect/aio/runtime.py], [AsyncRelay])

    A round claims messages from an outbox within count and byte limits and publishes them
    with a fixed number of workers. A publication that ends without proof is settled as
    uncertain, never retried. [publish] is a coroutine: its suspensions are the calls of the
    publisher and of the store. *)
From Stdlib Require Import ZArith Lia SpecFloat Permutation.
From stdpp Require Import base list gmap.
From S2P Require Import Prelude Core Outbox Resilience AsyncOutbox Messaging Operations Coroutines.

(** ** Configuration *)

Record RelayConfig := mkRelayConfig {
  retry_policy : RetryPolicy;
  claim_ttl : timedelta;
  publish_timeout : timedelta;
  concurrency : Z;
  max_admitted : Z;
  max_retained_bytes : Z;
  round_timeout : timedelta
}.

Definition _positive_timeout {S} (t : timedelta) : M exn S unit :=
  check_positive t "timeouts and leases must be positive".
Definition _positive_integer {S} (n : Z) (name : pystr) : M exn S unit :=
  raise_if (n <=? 0)%Z (ValueError (str_app name " must be a positive integer")).

(** [AsyncRelay.__init__]: the checks of its arguments; [resilience] is the policy of the
    composition, when one is given. *)
Definition AsyncRelay_new {S} (policy resilience : option RetryPolicy) (ttl publish : timedelta)
    (workers admitted bytes : Z) (round : timedelta) : M exn S RelayConfig :=
  _positive_integer workers "concurrency" ;;;
  _positive_integer admitted "max_admitted" ;;;
  _positive_integer bytes "max_retained_bytes" ;;;
  _positive_timeout ttl ;;;
  _positive_timeout publish ;;;
  _positive_timeout round ;;;
  raise_if (bool_decide (is_Some resilience) && bool_decide (is_Some policy))
    (ValueError "choose resilience or retry_policy, not both") ;;;
  ret (mkRelayConfig (match resilience with Some p => p | None => default RetryPolicy_default policy end)
    ttl publish workers admitted bytes round).

(** ** Publishing one claim *)

(** The keys of the counters. *)
Inductive outcome := ODelivered | ORetried | OFailed | ODeferred | OStale | OUncertain.

#[export] Instance outcome_eq_dec : EqDecision outcome.
Proof. solve_decision. Defined.

(** [RuntimeFact(outcome)]. *)
Definition fact_of (o : outcome) : RuntimeFact :=
  match o with
  | ODelivered => FACT_DELIVERED | ORetried => RETRIED | OFailed => FAILED
  | ODeferred => FACT_DEFERRED | OStale => FACT_STALE | OUncertain => UNCERTAIN
  end.

Section Relay.
Context {W P : Type} `{!AsyncOutboxStore W P, !Clock W, !Monotonic W}.
Variable math_log : spec_float -> spec_float.
Variable float_pow : spec_float -> Z -> result exn spec_float.
(** The publisher, the message type of a payload, the routes, and whether an exception is a
    [TimeoutError], [ConnectionError] or [OSError]. *)
Variable publisher : pystr -> P -> M exn W PublicationResult.
Variable payload_type : P -> pystr.
Variable routes : RoutingTable.
Variable transport_error : exn -> bool.
Variable config : RelayConfig.
(** The retry budget and the jitter of the composition; the observation. *)
Variable budget : lens W Z.
Variable jitter : M exn W spec_float.
Variable observation : RuntimeObservation W.

(** Before the publication: authority that ended, or a round without time left. *)
Inductive admission := Expired | OutOfTime (now : datetime) | Send.

Definition admit_claim (deadline authority : Deadline) (c : OutboxClaim P) : M exn W admission :=
  let! now := clock_now in
  lag observation (occurred_at (claim_envelope c)) now ;;;
  let! expired := (if dt_leb (claimed_until c) now then ret true
                   else let! left := remaining authority in ret (negb (float_bool left))) in
  if expired then emit observation FACT_STALE now ;;; ret Expired
  else
    let! left := remaining deadline in
    ret (if float_bool left then Send else OutOfTime now).

(** A transport failure after sending cannot prove that the broker rejected the message. *)
Definition send (deadline : Deadline) (c : OutboxClaim P) : M exn W PublicationResult :=
  try_except
    (let! _ := remaining deadline in
     let! d := lift (destination_for routes (payload_type (payload (claim_envelope c)))) in
     publisher d (payload (claim_envelope c)))
    (fun e => if transport_error e then ret (PublicationUncertain (exn_name e)) else raise e).

(** The settlement of a result, its counter, and the instant of its observation when it is
    the one already read. *)
Record settlement := mkSettlement {
  call : M exn W SettlementResult;
  counter : outcome;
  observed_at : option datetime
}.

Definition choose (deadline authority : Deadline) (c : OutboxClaim P) (result : PublicationResult) :
    M exn W (option settlement) :=
  let n := attempt (claim_envelope c) + 1 in
  let! now := clock_now in
  let! left := remaining authority in
  let fail reason := ret (Some (mkSettlement (aport_failed c reason now) OFailed None)) in
  if negb (float_bool left) then emit observation FACT_STALE now ;;; ret None
  else match result with
  | PublicationUncertain reason =>
      ret (Some (mkSettlement (aport_uncertain c reason now) OUncertain (Some now)))
  | PublicationConfirmed _ => ret (Some (mkSettlement (aport_delivered c now) ODelivered None))
  | PublicationRetryable reason retry_after =>
      if (n <? max_attempts (retry_policy config))%Z then
        let! retry := schedule math_log float_pow (retry_policy config) budget jitter n now deadline retry_after in
        let! available := lift (dt_add now (decision_delay retry)) in
        ret (Some (if is_scheduled retry then mkSettlement (aport_retry c available now) ORetried None
                   else mkSettlement (aport_defer c available now) ODeferred None))
      else fail reason
  | PublicationRejected reason => fail reason
  end.

(** The end of [publish]: the counter, and its observation. *)
Definition conclude (s : settlement) (r : SettlementResult) : M exn W outcome :=
  let o := if settlement_bool r then counter s else OStale in
  let! at_ := (match observed_at s with Some t => ret t | None => clock_now end) in
  emit observation (fact_of o) at_ ;;;
  ret o.

Definition publish (deadline authority : Deadline) (c : OutboxClaim P) : co W outcome :=
  let* admission := atomically (admit_claim deadline authority c) in
  match admission with
  | Expired => Ret (Ok OStale)
  | OutOfTime now =>
      let* r := atomically (aport_defer c now now) in
      Ret (Ok (if settlement_bool r then ODeferred else OStale))
  | Send =>
      let* result := atomically (send deadline c) in
      let* chosen := atomically (choose deadline authority c result) in
      match chosen with
      | None => Ret (Ok OStale)
      | Some s =>
          let* r := atomically (call s) in
          atomically (conclude s r)
      end
  end.

(** ** A round *)

Record RelaySummary := mkRelaySummary {
  claimed : Z; delivered : Z; retried : Z; failed : Z; deferred : Z; stale : Z; uncertain : Z; busy : bool
}.

(** The number of jobs that ended with an outcome. *)
Definition count_outcome (o : outcome) (l : list (OutboxClaim P * outcome)) : Z :=
  Z.of_nat (length (filter (fun p => p.2 = o) l)).

Definition summarize (claims : list (OutboxClaim P)) (l : list (OutboxClaim P * outcome)) : RelaySummary :=
  mkRelaySummary (Z.of_nat (length claims)) (count_outcome ODelivered l) (count_outcome ORetried l)
    (count_outcome OFailed l) (count_outcome ODeferred l) (count_outcome OStale l) (count_outcome OUncertain l) false.

(** The part of [_run] before the workers: the deadlines and the claims. *)
Definition open_round (limit : Z) : M exn W (Deadline * Deadline * list (OutboxClaim P)) :=
  let! deadline := after (round_timeout config) in
  let! authority := after (claim_ttl config) in
  let! _ := remaining deadline in
  let! now := clock_now in
  let! claims := aport_claim now limit (claim_ttl config) (Some (max_retained_bytes config)) in
  let! now := clock_now in
  emit observation ADMITTED now ;;;
  ret (deadline, authority, claims).

(** The workers of a round, and every execution of them. *)
Definition workers (claims : list (OutboxClaim P)) : nat :=
  Nat.min (Z.to_nat (concurrency config)) (length claims).

(** [env]: what the rest of the program does to the world between two steps of the round. *)
Variable env : W -> W -> Prop.

Definition round_steps (deadline authority : Deadline) (claims : list (OutboxClaim P)) : nat -> pool -> pool -> Prop :=
  pool_steps (publish deadline authority) (workers claims) env.

(** The running flag of the instance. *)
Variable running_flag : lens W bool.

Definition set_running (b : bool) : M exn W unit := modify (update running_flag b).

(** [run_once] when opening the round or a worker raised. *)
Definition abort_once {A} (e : exn) : M exn W A :=
  (if is_cancelled e then let! now := clock_now in emit observation CANCELLED now else ret tt) ;;;
  set_running false ;;;
  let! now := clock_now in
  emit observation STOPPED now ;;;
  raise e.

(** [run_once] up to the workers: another round of the instance is running, or a round opens.
    The flag is reset when opening raises. *)
Definition begin_once (limit : Z) : M exn W (RelaySummary + (Deadline * Deadline * list (OutboxClaim P))) :=
  _positive_integer limit "limit" ;;;
  let! is_running := gets (view running_flag) in
  if is_running then
    let! now := clock_now in
    emit observation BUSY now ;;;
    ret (inl (mkRelaySummary 0 0 0 0 0 0 0 true))
  else
    set_running true ;;;
    let! round := try_except (open_round (Z.min limit (max_admitted config))) abort_once in
    ret (inr round).

(** [run_once] after the workers. *)
Definition end_once (claims : list (OutboxClaim P)) (l : list (OutboxClaim P * outcome)) : M exn W RelaySummary :=
  set_running false ;;;
  let! now := clock_now in
  emit observation STOPPED now ;;;
  ret (summarize claims l).

(** ** Every round accounts for every claim *)

Lemma publish_suspends deadline authority c : suspends 5 (publish deadline authority c).
Proof.
  unfold publish. apply (suspends_bind _ _ 4 1); [done|]. intros [|now|]; [done| |].
  - eapply suspends_weaken; [apply (suspends_bind _ _ 0 1); done|lia].
  - apply (suspends_bind _ _ 3 1); [done|]. intros r. apply (suspends_bind _ _ 2 1); [done|]. intros [s|]; [|done].
    by apply (suspends_bind _ _ 1 1).
Qed.

Lemma count_outcomes l :
  count_outcome ODelivered l + count_outcome ORetried l + count_outcome OFailed l + count_outcome ODeferred l +
  count_outcome OStale l + count_outcome OUncertain l = Z.of_nat (length l).
Proof.
  unfold count_outcome. induction l as [|[c o] l IH]; [done|]. rewrite !filter_cons. cbn [snd length].
  destruct o; repeat (rewrite decide_True by done) || (rewrite decide_False by done); cbn [length]; lia.
Qed.

(** Whatever way the workers of a round interleave with each other and with the rest of
    the program: at most [concurrency] claims are in progress at a time, every execution is
    finite, and one that cannot go on has either a worker that raised or an outcome for each
    claim, exactly one, so that the counters of the summary add up to the claims. *)
Theorem relay_round_accounts deadline authority claims w n p : 0 < concurrency config -> (forall w, env w w) ->
  round_steps deadline authority claims n (start claims w) p ->
  (n <= 7 * length claims)%nat /\ Z.of_nat (length (running p)) <= concurrency config /\
  (complete p \/ raised p \/ exists p', pool_step (publish deadline authority) (workers claims) env p p') /\
  (complete p -> (finished p).*1 ≡ₚ claims /\
    let s := summarize claims (finished p) in
    claimed s = delivered s + retried s + failed s + deferred s + stale s + uncertain s).
Proof.
  intros Hc Henv Hs. pose proof (publish_suspends deadline authority) as Hb.
  destruct (steps_jobs _ _ _ _ _ _ Hs) as [Hjobs Hw]. unfold jobs in Hjobs. cbn in Hjobs, Hw. rewrite app_nil_r in Hjobs.
  split_and!.
  - apply (steps_bounded _ _ env 5 Hb _ _ _ _ Hs).
  - specialize (Hw ltac:(lia)). unfold workers in Hw. lia.
  - destruct claims as [|c claims]; [left|apply pool_progress; [done|unfold workers; cbn [length]; lia]].
    apply Permutation_nil_r in Hjobs. apply app_eq_nil in Hjobs as [Ht Hr]. apply app_eq_nil in Hr as [Hr _].
    by apply fmap_nil_inv in Hr.
  - intros [Ht Hr]. rewrite Ht, Hr in Hjobs. cbn in Hjobs. split; [done|]. cbn. rewrite count_outcomes.
    by rewrite <- Hjobs, length_fmap.
Qed.
End Relay.
