(* ===== verification/RelayHistories.v ===== *)
(** * Relay rounds on the asynchronous store

    The relay of [Relay] on the in-memory store of [AsyncOutbox], inside a larger world that
    holds the clocks, the publisher and everything else. A publication that ended without
    proof is not repeated: no later round claims its message, whatever the rounds, the other
    callers of the store and the rest of the world do, until somebody resolves it. *)
From Stdlib Require Import ZArith Lia SpecFloat Permutation.
From stdpp Require Import base list gmap.
From S2P Require Import Prelude Core Outbox OutboxHistories Resilience AsyncOutbox AsyncOutboxHistories Messaging Operations Coroutines Relay.

Section RelayHistories.
Context {P A : Type} `{Uuid4} (_size : P -> result exn Z).

(** The store, and the rest of the world. *)
Abbreviation W := (astore P * A)%type.

#[local] Instance relay_store : AsyncOutboxStore W P := Zoom_AsyncOutboxStore fst_lens (InMemory_AsyncOutboxStore _size).

Context `{!Clock W, !Monotonic W}.
Context (math_log : spec_float -> spec_float) (float_pow : spec_float -> Z -> result exn spec_float).
Context (publisher : pystr -> P -> M exn W PublicationResult) (payload_type : P -> pystr) (routes : RoutingTable).
Context (transport_error : exn -> bool) (config : RelayConfig).
Context (budget : lens W Z) (jitter : M exn W spec_float) (observation : RuntimeObservation W) (running_flag : lens W bool).

(** The clocks, the publisher, the jitter, the sinks, the retry budget and the running flag
    are not kept in the store. *)
Context (Hclock : keeps fst_lens clock_now) (Hmonotonic : keeps fst_lens monotonic)
  (Hpublisher : forall d m, keeps fst_lens (publisher d m)) (Hjitter : keeps fst_lens jitter)
  (Hsink : forall f e, sink observation = Some f -> keeps fst_lens (f e))
  (Hmetrics : forall f m, metrics observation = Some f -> keeps fst_lens (f m))
  (Hbudget : forall n w, fst (update budget n w) = fst w)
  (Hflag : forall b w, fst (update running_flag b w) = fst w).
Implicit Types (w : W) (c : OutboxClaim P).

(** ** What a call may do to the store *)

Definition resolving (o : aop P) : bool := match o with AResolve _ _ _ _ _ => true | _ => false end.

(** Some calls were made on the store, none of them a resolution. *)
Definition evolves w w' : Prop :=
  exists os, Forall (fun o => resolving o = false) os /\ fst w' = aexec_all _size os (fst w).

Lemma evolves_refl w : evolves w w.
Proof. by exists []. Qed.

Lemma evolves_trans w1 w2 w3 : evolves w1 w2 -> evolves w2 w3 -> evolves w1 w3.
Proof.
  intros (os1 & H1 & E1) (os2 & H2 & E2). exists (os1 ++ os2). split; [by apply Forall_app|].
  unfold aexec_all in *. by rewrite fold_left_app, <- E1.
Qed.

Definition safe {B} (m : M exn W B) : Prop := forall w, evolves w (snd (m w)).

Lemma safe_keeps {B} (m : M exn W B) : keeps fst_lens m -> safe m.
Proof. intros Hm w. exists []. split; [done|]. apply Hm. Qed.

Lemma safe_bind {B C} (m : M exn W B) (f : B -> M exn W C) : safe m -> (forall b, safe (f b)) -> safe (bind m f).
Proof.
  intros Hm Hf w. unfold bind. specialize (Hm w). destruct (m w) as [[b|e] w1]; cbn in Hm; [|done].
  eapply evolves_trans; [exact Hm|apply Hf].
Qed.

Lemma safe_try_except {B} (m : M exn W B) h : safe m -> (forall e, safe (h e)) -> safe (try_except m h).
Proof.
  intros Hm Hh w. unfold try_except. specialize (Hm w). destruct (m w) as [[b|e] w1]; cbn in Hm; [done|].
  eapply evolves_trans; [exact Hm|apply Hh].
Qed.

Lemma safe_pure {B} (m : M exn W B) : (forall w, snd (m w) = w) -> safe m.
Proof. intros Hm w. rewrite Hm. apply evolves_refl. Qed.

(** The calls of the store port, but a resolution. *)
Lemma safe_call {B} o (m : M exn (astore P) B) : resolving o = false ->
  (forall st, snd (m st) = aexec _size o st) -> safe (zoom fst_lens m).
Proof.
  intros Ho Hm [st a]. exists [o]. split; [by constructor|]. unfold zoom. cbn. rewrite <- Hm. by destruct (m st).
Qed.

Lemma safe_defer c t t' : safe (aport_defer c t t').
Proof. by apply (safe_call (ADefer c t t')). Qed.
Lemma safe_retry c t t' : safe (aport_retry c t t').
Proof. by apply (safe_call (ARetry c t t')). Qed.
Lemma safe_delivered c t : safe (aport_delivered c t).
Proof. by apply (safe_call (ADelivered c t)). Qed.
Lemma safe_uncertain c reason t : safe (aport_uncertain c reason t).
Proof. by apply (safe_call (AUncertain c reason t)). Qed.
Lemma safe_failed c reason t : safe (aport_failed c reason t).
Proof. by apply (safe_call (AFailed c reason t)). Qed.
Lemma safe_claim now limit ttl b : safe (aport_claim now limit ttl b).
Proof. by apply (safe_call (AClaim now limit ttl b)). Qed.

Lemma safe_clock : safe clock_now.
Proof. by apply safe_keeps. Qed.
Lemma safe_monotonic : safe monotonic.
Proof. by apply safe_keeps. Qed.
Lemma safe_publisher d m : safe (publisher d m).
Proof. by apply safe_keeps. Qed.
Lemma safe_jitter : safe jitter.
Proof. by apply safe_keeps. Qed.

Lemma safe_suppressed m : safe m -> safe (suppressed m).
Proof. done. Qed.

Lemma safe_flag b : safe (set_running running_flag b).
Proof. apply safe_keeps. intros w. apply Hflag. Qed.

Lemma safe_take : safe (zoom budget take).
Proof. apply safe_keeps. intros w. unfold zoom. destruct (take _). apply Hbudget. Qed.

(** The effects of a block, statement by statement; [known] closes the calls already done. *)
Ltac safety_with known :=
  repeat first
    [ known
    | apply safe_defer | apply safe_retry | apply safe_delivered | apply safe_uncertain | apply safe_failed
    | apply safe_claim | apply safe_clock | apply safe_monotonic | apply safe_publisher | apply safe_jitter
    | apply safe_flag | apply safe_take
    | apply safe_bind; [|intro] | apply safe_try_except; [|intro] | progress case_match
    | solve [apply safe_pure; intro; first [reflexivity | by unfold raise_if; case_match]] ].
Ltac safety := safety_with fail.

Lemma safe_emit fact t : safe (emit observation fact t).
Proof.
  unfold emit. destruct (sink observation) as [f|] eqn:Hf; [|by apply safe_pure]. apply safe_suppressed.
  unfold OperationalEvent_new. safety. apply safe_keeps. by apply Hsink.
Qed.

Lemma safe_lag t t' : safe (lag observation t t').
Proof.
  unfold lag. destruct (metrics observation) as [f|] eqn:Hf; [|by apply safe_pure]. apply safe_suppressed.
  unfold Metric_new. safety. apply safe_keeps. by apply Hmetrics.
Qed.

Lemma safe_remaining d : safe (remaining d).
Proof. unfold remaining. safety. Qed.

Lemma safe_after t : safe (after t).
Proof. unfold after. safety. Qed.

Lemma safe_schedule n now d r : safe (schedule math_log float_pow (retry_policy config) budget jitter n now d r).
Proof. unfold schedule, at_least, allow. safety_with ltac:(apply safe_remaining). Qed.

Ltac relay_safety :=
  safety_with ltac:(first [apply safe_remaining | apply safe_after | apply safe_schedule | apply safe_emit | apply safe_lag]).

(** ** Every step of a round *)

Fixpoint co_safe {B} (k : co W B) : Prop :=
  match k with
  | Ret _ => True
  | Await rest effect => forall w, evolves w (effect w) /\ co_safe (rest w)
  end.

Lemma co_safe_step {B C} (m : M exn W B) (f : B -> co W C) : safe m ->
  (forall w b w', m w = (Ok b, w') -> co_safe (f b)) -> co_safe (co_bind (atomically m) f).
Proof.
  intros Hm Hf w. split; [apply Hm|]. cbn. specialize (Hf w). destruct (m w) as [[b|e] w']; cbn; [by eapply Hf|done].
Qed.

Abbreviation choose := (choose math_log float_pow config budget jitter observation).
Abbreviation publish := (publish math_log float_pow publisher payload_type routes transport_error config budget jitter observation).

Lemma choose_call deadline authority c result w s w' :
  choose deadline authority c result w = (Ok (Some s), w') -> safe (call s).
Proof.
  unfold Relay.choose. intros (now & w1 & _ & (left & w2 & _ & Hs)%bind_ok)%bind_ok.
  destruct (negb (float_bool left)).
  { by apply bind_ok in Hs as (? & ? & _ & [=]). }
  destruct result; [injection Hs as <- _; apply safe_delivered| |injection Hs as <- _; apply safe_failed
    |injection Hs as <- _; apply safe_uncertain].
  destruct (_ <? _); [|injection Hs as <- _; apply safe_failed].
  apply bind_ok in Hs as (retry & w3 & _ & (available & w4 & _ & Hs)%bind_ok).
  injection Hs as <- _. destruct (is_scheduled retry); [apply safe_retry|apply safe_defer].
Qed.

Lemma publish_safe deadline authority c : co_safe (publish deadline authority c).
Proof.
  apply co_safe_step; [unfold admit_claim; relay_safety|]. intros _ [|now|] _ _; [done| |].
  - by apply co_safe_step; [apply safe_defer|].
  - apply co_safe_step; [unfold send; relay_safety|]. intros _ result _ _.
    apply co_safe_step; [unfold Relay.choose; relay_safety|]. intros w [s|] w' Hs; [|done].
    apply co_safe_step; [by eapply choose_call|]. intros _ r _ _. intros w1. split; [|done].
    revert w1. unfold conclude. relay_safety.
Qed.

Lemma publish_steps workers deadline authority n p p' :
  pool_steps (publish deadline authority) workers evolves n p p' ->
  Forall (fun q => co_safe q.2) (running p) -> evolves (world p) (world p').
Proof.
  induction 1 as [p|n p1 p2 p3 Hs _ IH]; intros Hp; [apply evolves_refl|].
  destruct Hs as [j js rs ds w Hlt|js rs1 rs2 ds w w1 j rest effect Henv|js rs1 rs2 ds w j a]; cbn in *.
  - apply IH. constructor; [apply publish_safe|done].
  - apply Forall_app in Hp as [H1 [H2 H3]%Forall_cons]. destruct (H2 w1) as [Heff Hrest].
    eapply evolves_trans; [exact Henv|]. eapply evolves_trans; [exact Heff|]. apply IH.
    apply Forall_app. by split; [|constructor].
  - apply IH. apply Forall_app in Hp as [H1 [_ H3]%Forall_cons]. by apply Forall_app.
Qed.

Abbreviation begin_once := (begin_once config observation running_flag).

Lemma begin_safe limit : safe (begin_once limit).
Proof. unfold Relay.begin_once, _positive_integer, open_round, abort_once. relay_safety. Qed.

(** ** The life of the relays of a store *)

(** A sequence of rounds, each running its workers up to some point among the other callers of
    the store, and of anything else that leaves unresolved what is uncertain; with the
    messages each round claimed. *)
Inductive life : W -> list (list (OutboxClaim P)) -> W -> Prop :=
  | life_nil w : life w [] w
  | life_round limit w deadline authority claims w1 n p tr w2 :
      begin_once limit w = (Ok (inr (deadline, authority, claims)), w1) ->
      round_steps math_log float_pow publisher payload_type routes transport_error config budget jitter observation
        evolves deadline authority claims n (start claims w1) p ->
      life (world p) tr w2 -> life w (claims :: tr) w2
  | life_other w w1 tr w2 : evolves w w1 -> life w1 tr w2 -> life w tr w2.

(** The message [k] is held as uncertain since [t], in its item [it]. *)
Definition held_uncertain k t (it : Stored P) w : Prop :=
  async_inv (fst w) /\ d_get k (uncertain_at (fst w)) = Some t /\ d_get k (items (inner (fst w))) = Some it.

Lemma held_evolves k t it w w' : evolves w w' -> held_uncertain k t it w -> held_uncertain k t it w'.
Proof.
  intros (os & Hos & Hw) (Hinv & Hk & Hit). unfold held_uncertain. rewrite Hw.
  split; [by apply aexec_all_inv|]. destruct (aexec_all_keeps _size os k t (fst w) Hinv Hk) as [H1 H2].
  - eapply Forall_impl; [exact Hos|]. intros o Ho Hr. by destruct o.
  - by rewrite H1, H2.
Qed.

(** What a block answers while [k] is held. *)
Definition answers {B} k t it (m : M exn W B) (Q : B -> Prop) : Prop :=
  forall w b w', held_uncertain k t it w -> m w = (Ok b, w') -> Q b.

Lemma answers_bind {B C} k t it (m : M exn W B) (f : B -> M exn W C) (R : B -> Prop) (Q : C -> Prop) :
  safe m -> answers k t it m R -> (forall b, R b -> answers k t it (f b) Q) -> answers k t it (bind m f) Q.
Proof.
  intros Hs Hm Hf w c w' Hk (b & w1 & H1 & H2)%bind_ok. eapply Hf; [by eapply Hm| |exact H2].
  eapply held_evolves; [|exact Hk]. specialize (Hs w). by rewrite H1 in Hs.
Qed.

Lemma answers_ret {B} k t it (b : B) (Q : B -> Prop) : Q b -> answers k t it (ret b) Q.
Proof. intros Hb w b' w' _ [= <- _]. done. Qed.

Lemma answers_skip {B C} k t it (m : M exn W B) (f : B -> M exn W C) (Q : C -> Prop) :
  safe m -> (forall b, answers k t it (f b) Q) -> answers k t it (bind m f) Q.
Proof. intros Hs Hf. apply (answers_bind k t it m f (fun _ => True)); [done|by intros ????|auto]. Qed.

Lemma relay_claim_answers k t it now limit ttl b : answers k t it (aport_claim now limit ttl b) (fun cs => k ∉ mid <$> cs).
Proof.
  intros w cs w' (Hinv & Hunc & _) Hrun. unfold aport_claim, zoom in Hrun. cbn [relay_store Zoom_AsyncOutboxStore InMemory_AsyncOutboxStore aport_claim view fst_lens] in Hrun. unfold zoom in Hrun. cbn [view fst_lens] in Hrun.
  destruct (claim_async _size now limit ttl b (fst w)) as [r s] eqn:Hc. injection Hrun as -> _.
  destruct (claim_async_cases _size now limit ttl b (fst w) Hinv) as [[_ Hno]|(r & st1 & st' & Hcl & _ & _ & _ & Hall)].
  - destruct (Hno cs). by rewrite Hc.
  - intros (c & -> & Hin)%list_elem_of_fmap. destruct (Hall cs) as (all & -> & Hsub); [by rewrite Hc|].
    pose proof (claim_present _ _ _ _ _ _ _ (without_inv _ _ (ai_store _ Hinv)) Hcl (Hsub _ Hin)) as [it' Hit'].
    cbn in Hit'. rewrite d_pop_all_get in Hit' by apply Hinv. case_decide as Hn; [done|]. apply Hn, d_get_key. by exists t.
Qed.

Definition unclaimed k (r : RelaySummary + (Deadline * Deadline * list (OutboxClaim P))) : Prop :=
  match r with inl _ => True | inr (_, claims) => k ∉ mid <$> claims end.

Lemma begin_answers k t it limit : answers k t it (begin_once limit) (unclaimed k).
Proof.
  unfold Relay.begin_once, _positive_integer. apply answers_skip; [relay_safety|]. intros _.
  apply answers_skip; [relay_safety|]. intros [|].
  - do 2 (apply answers_skip; [relay_safety|]; intros ?). by apply answers_ret.
  - apply answers_skip; [relay_safety|]. intros _. eapply (answers_bind _ _ _ _ _ (fun r => k ∉ mid <$> r.2)).
    + unfold abort_once, open_round. relay_safety.
    + intros w r w' Hk Hrun. unfold try_except in Hrun. destruct (open_round _ _ _ w) as [[r1|e] w2] eqn:Ho.
      * injection Hrun as -> _. revert w r w2 Hk Ho. change (answers k t it (open_round config observation (Z.min limit (max_admitted config))) (fun r => k ∉ mid <$> r.2)).
        unfold open_round. do 4 (apply answers_skip; [relay_safety|]; intros ?).
        eapply answers_bind; [apply safe_claim|apply relay_claim_answers|]. intros cs Hcs. cbn beta in Hcs.
        do 2 (apply answers_skip; [relay_safety|]; intros ?). by apply answers_ret.
      * exfalso. clear -Hrun. unfold abort_once in Hrun. by apply bind_ok in Hrun as (? & ? & _ & (? & ? & _ & (? & ? & _ & (? & ? & _ & [=])%bind_ok)%bind_ok)%bind_ok).
    + intros [[d a] cs] Hcs. by apply answers_ret.
Qed.

(** C35. Once the broker's answer to a publication was lost, the message is not published again
    by itself: along every life of the relays of the store - any number of rounds, each with
    its workers in any interleaving among other callers of the store - no round claims a
    message held as uncertain, and it stays held, unchanged. *)
Theorem uncertain_not_republished k t it w tr w' : life w tr w' -> held_uncertain k t it w ->
  Forall (fun claims => k ∉ mid <$> claims) tr /\ held_uncertain k t it w'.
Proof.
  induction 1 as [w|limit w deadline authority claims w1 n p tr w2 Hopen Hrun _ IH|w w1 tr w2 Hev _ IH]; intros Hk.
  - done.
  - pose proof (begin_answers k t it limit w _ _ Hk Hopen) as Hcl.
    destruct IH as [Htr Hw2]; [|split; [by constructor|done]].
    eapply held_evolves; [eapply publish_steps; [exact Hrun|constructor]|].
    eapply held_evolves; [|exact Hk]. pose proof (begin_safe limit w) as Hs. by rewrite Hopen in Hs.
  - apply IH. by eapply held_evolves.
Qed.
End RelayHistories.

(** ** Concrete runs *)

Section Witnesses.
#[local] Existing Instance unary_uuid.

(** The store of the runs of [AsyncOutboxHistories] with a clock at 140 seconds, one retry in
    the budget and the running flag. *)
Abbreviation demo_world := (astore Z * (Z * bool))%type.

#[local] Instance demo_clock : Clock demo_world := ret (utc 140).
#[local] Instance demo_monotonic : Monotonic demo_world := ret float_one.
#[local] Instance demo_relay_store : AsyncOutboxStore demo_world Z := relay_store (A := Z * bool) async_size.
Definition demo_budget : lens demo_world Z := Lens (fun w => fst (snd w)) (fun n w => (fst w, (n, snd (snd w)))).
Definition demo_flag : lens demo_world bool := Lens (fun w => snd (snd w)) (fun b w => (fst w, (fst (snd w), b))).
Definition demo_config : RelayConfig :=
  mkRelayConfig demo_policy (seconds 50) (seconds 30) 8 32 1000 (seconds 60).
Definition demo_observation : RuntimeObservation demo_world := mkObservation RELAY None None.
Definition demo_publisher (destination : pystr) (message : Z) : M exn demo_world PublicationResult :=
  ret (PublicationConfirmed "id").

Definition demo_publish : Deadline -> Deadline -> OutboxClaim Z -> co demo_world outcome :=
  publish demo_log demo_pow demo_publisher (fun _ => "t"%py) [("t", "d")]%py (fun _ => true) demo_config
    demo_budget (ret float_one) demo_observation.
Definition demo_start : demo_world := (async_uncertain, (1, false)).
Definition demo_end : Deadline := mkDeadline float_two.
Definition demo_held : OutboxClaim Z := mkClaim (uuid4_hex 1) (async_env "c" 95) (utc 50000140).
Definition demo_round : demo_world :=
  snd (begin_once demo_config demo_observation demo_flag 1 demo_start).

(** The round claims the message ["c"], publishes it and counts it. *)
Lemma relay_round_accounts_witness :
  let p := mkPool [] [] [(demo_held, ODelivered)] (snd (co_run (demo_publish demo_end demo_end demo_held) demo_round)) in
  (finished p).*1 ≡ₚ [demo_held] /\ delivered (summarize [demo_held] (finished p)) = 1 /\
  claimed (summarize [demo_held] (finished p)) = 1.
Proof.
  intros p.
  assert (round_steps demo_log demo_pow demo_publisher (fun _ => "t"%py) [("t", "d")]%py (fun _ => true) demo_config
    demo_budget (ret float_one) demo_observation eq demo_end demo_end [demo_held] 7 (start [demo_held] demo_round) p) as Hs.
  { eapply steps_more; [apply step_take; vm_compute; lia|].
    assert (co_length (demo_publish demo_end demo_end demo_held) demo_round = 5%nat) as Hlen by (vm_compute; reflexivity).
    rewrite <- Hlen. eapply (run_alone (demo_publish demo_end demo_end) _ eq [] demo_held ODelivered []); [done|vm_compute; reflexivity]. }
  destruct (relay_round_accounts demo_log demo_pow demo_publisher (fun _ => "t"%py) [("t", "d")]%py (fun _ => true) demo_config
    demo_budget (ret float_one) demo_observation eq demo_end demo_end [demo_held] demo_round 7 p) as (_ & _ & _ & Hp);
    [reflexivity|intros w; reflexivity|exact Hs|].
  split; [by apply Hp|split; vm_compute; reflexivity].
Defined.

Lemma uncertain_not_republished_witness :
  Forall (fun claims => mkOpaqueId "a" ∉ mid <$> claims) [[demo_held]] /\
  d_get (mkOpaqueId "a") (uncertain_at (fst demo_round)) = Some (utc 130).
Proof.
  destruct (uncertain_not_republished async_size demo_log demo_pow demo_publisher (fun _ => "t"%py) [("t", "d")]%py (fun _ => true)
    demo_config demo_budget (ret float_one) demo_observation demo_flag) with
    (k := mkOpaqueId "a") (t := utc 130) (it := mkStored (async_env "a" 90) None None None None None)
    (w := demo_start) (tr := [[demo_held]]) (w' := demo_round) as [H1 (_ & H2 & _)];
    [done|done|done|done|done|done|done|done| | |by split].
  - eapply life_round with (limit := 1); [vm_compute; reflexivity|constructor|vm_compute; constructor].
  - split; [|split; vm_compute; reflexivity]. change (fst demo_start) with async_uncertain.
    eapply (uncertain_applied async_claim "ConnectionError" (utc 130) (aexec_all async_size async_before async_empty));
      [apply aexec_all_inv, async_inv_initial|vm_compute; reflexivity].
Defined.
End Witnesses.
