(* ===== verification/Consumer.v ===== *)
(** * The asynchronous consumer ([src/pytitect/aio/runtime.py], [AsyncConsumer])

    A delivery is processed in one unit of work: its message is reserved in the inbox, the
    handler decides, the decision and the completion of the message are committed together,
    and only then is the delivery acknowledged. [_process] is a coroutine; the lock of the
    unit of work makes the transaction one step of it. *)
From Stdlib Require Import ZArith Lia SpecFloat.
From stdpp Require Import base list gmap.
From S2P Require Import Prelude Core Wire Messages Application Inbox UnitOfWork Quarantine Resilience Messaging Operations Coroutines Relay.

(** ** Messages and deliveries *)

Definition of_message {A} (f : forall T, envelope T -> A) (m : MessageValue) : A :=
  match m with Ordinary m => f _ m | Exact m => f _ m end.
Definition message_identity : MessageValue -> pystr := of_message (fun _ e => Messages.id e).
Definition message_source : MessageValue -> pystr := of_message (fun _ e => Messages.source e).
Definition message_type : MessageValue -> pystr := of_message (fun _ e => Messages.type e).
Definition message_time : MessageValue -> datetime := of_message (fun _ e => Messages.time e).

(** [AsyncDelivery]. *)
Record AsyncDelivery (W : Type) := mkDelivery {
  message : MessageValue;
  ack : M exn W unit;
  retry : option timedelta -> M exn W unit;
  terminate : M exn W unit
}.
Arguments mkDelivery {W}.
Arguments message {W}.
Arguments ack {W}.
Arguments retry {W}.
Arguments terminate {W}.

Definition RetryableProcessingError (m : pystr) : exn := OtherError "RetryableProcessingError" m.
Definition RuntimeBusyError (m : pystr) : exn := OtherError "RuntimeBusyError" m.

(** ** Configuration *)

Record ConsumerConfig := mkConsumerConfig {
  consumer : pystr;
  namespace : pystr;
  quarantine_policy : QuarantinePolicy;
  reservation_ttl : timedelta;
  handler_timeout : timedelta;
  concurrency : Z;
  queue_capacity : Z;
  max_message_bytes : Z;
  admitted : Z
}.

(** [AsyncConsumer.__init__]. *)
Definition AsyncConsumer_new {S} (consumer namespace : pystr) (policy : option QuarantinePolicy) (ttl timeout : timedelta)
    (concurrency queue_capacity max_message_bytes max_retained_bytes : Z) : M exn S ConsumerConfig :=
  raise_if (str_empty consumer || str_empty namespace) (ValueError "consumer and namespace must not be empty") ;;;
  _positive_timeout ttl ;;;
  _positive_timeout timeout ;;;
  _positive_integer concurrency "concurrency" ;;;
  _positive_integer queue_capacity "queue_capacity" ;;;
  _positive_integer max_message_bytes "max_message_bytes" ;;;
  _positive_integer max_retained_bytes "max_retained_bytes" ;;;
  raise_if (max_retained_bytes <? max_message_bytes)%Z (ValueError "retained byte budget must fit one maximum message") ;;;
  ret (mkConsumerConfig consumer namespace (default QuarantinePolicy_default policy) ttl timeout concurrency queue_capacity
    max_message_bytes (Z.min (concurrency + queue_capacity) (max_retained_bytes / max_message_bytes))).

Section Consumer.
Context {W V T D : Type} `{!AsyncUnitOfWork V T D, !Clock W, !Monotonic W, !RejectedDeliveryStore W}.
(** What the factory of units keeps, in the world. *)
Variable durable : lens W V.
(** [uuid.uuid4().hex], the handler, the codec, the digest. *)
Variable draw_token : M exn W pystr.
Variable handler : MessageValue -> HandlingContext -> M exn W D.
Variable codec : MessageCodec.
Variable sha256_hexdigest : list N -> pystr.
(** Whether an exception is a [PermanentProcessingError], or a [TimeoutError] or
    [RetryableProcessingError]. *)
Variables permanent retryable : exn -> bool.
Variable config : ConsumerConfig.
Variable observation : RuntimeObservation W.

Abbreviation delivery := (AsyncDelivery W).
Implicit Types (d : delivery) (m : MessageValue).

Definition observe (f : RuntimeFact) : M exn W unit :=
  let! now := clock_now in emit observation f now.

(** ** The transaction *)

(** The world, the unit of work and the flag [committing]. *)
Abbreviation TS := (W * (T * bool))%type.
Definition unit_lens : lens TS (V * T) :=
  Lens (fun s => (view durable (fst s), fst (snd s)))
    (fun vt s => (update durable (fst vt) (fst s), (snd vt, snd (snd s)))).
Definition in_unit {A} (x : M exn (V * T) A) : M exn TS A := zoom unit_lens x.
Definition in_world {A} (x : M exn W A) : M exn TS A := zoom fst_lens x.
Definition set_committing : M exn TS unit := modify (fun s => (fst s, (fst (snd s), true))).

(** An accepted message: the handler decides, the decision is saved and the message
    completed while the execution has authority. *)
Definition decide_message (scope : InboxScope) (token : pystr) (authority : Deadline) m : M exn TS unit :=
  let! context := lift (HandlingContext_new (message_identity m) (of_message (fun _ e => Messages.correlationid e) m)
    (of_message (fun _ e => causationid e) m) []) in
  let! decision := in_world (handler m context) in
  in_unit (save_decision decision) ;;;
  let! left := in_world (remaining authority) in
  let! completed := (if float_bool left
    then
      let! k := OpaqueId_new (message_identity m) in
      let! now := in_world clock_now in
      in_unit (complete_message scope k token now)
    else ret false) in
  raise_if (negb completed) (RetryableProcessingError "inbox execution authority expired").

(** The body of [async with self._unit_of_work()]: whether the delivery is acknowledged. *)
Definition body (scope : InboxScope) (token : pystr) (authority : Deadline) m : M exn TS bool :=
  let! k := OpaqueId_new (message_identity m) in
  let! now := in_world clock_now in
  let! reservation := in_unit (reserve_message scope k token now (reservation_ttl config)) in
  match reservation with
  | InboxDuplicate _ =>
      set_committing ;;; in_unit commit ;;; ret true
  | InboxAccepted _ =>
      decide_message scope token authority m ;;;
      set_committing ;;; in_unit commit ;;; ret true
  | _ => in_unit rollback ;;; ret false
  end.

(** The whole transaction: how it ended, and whether it was committing. *)
Definition transaction (scope : InboxScope) (token : pystr) (authority : Deadline) m : M exn W (result exn bool * bool) :=
  fun w =>
    let '(r, (w', (_, committing))) :=
      (in_unit aenter ;;; try_finally (body scope token authority m) (in_unit aexit))
        (w, (unit_of_work (view durable w), false)) in
    (Ok (r, committing), w').

(** ** Processing *)

(** The start of [_process]: the scope, the token and the deadline of the authority. *)
Definition begin_process d : M exn W (InboxScope * pystr * Deadline) :=
  observe ADMITTED ;;;
  let! now := clock_now in
  lag observation (message_time (message d)) now ;;;
  let! scope := InboxScope_new (namespace config) (message_source (message d)) (consumer config) in
  let! token := draw_token in
  let! authority := after (reservation_ttl config) in
  ret (scope, token, authority).

Definition quarantine_record d (reason : pystr) (failed_at : datetime) (encoded : list N) : result exn RejectedDelivery :=
  let m := message d in
  rejected_delivery sha256_hexdigest
    (str_join ":" [consumer config; message_source m; message_identity m])
    (message_identity m) (message_source m) (consumer config) failed_at reason encoded (quarantine_policy config)
    [("event_type", JStr (message_type m))]%py.

(** [_quarantine_delivery]: only a delivery that is in the quarantine is terminated. *)
Definition _quarantine_delivery d (reason : pystr) (failed_at : datetime) : co W DeliveryDisposition :=
  let* encoded := Ret (codec_encode codec (message d)) in
  let* added := atomically (fun w =>
    match (let! record := lift (quarantine_record d reason failed_at encoded) in
           let! _ := quarantine_add record in ret record) w with
    | (Raise e, w') => if is_cancelled e then (Raise e, w') else (Ok None, w')
    | (Ok record, w') => (Ok (Some record), w')
    end) in
  match added with
  | None => let* _ := atomically (retry d None) in Ret (Ok (DeliveryRetry None))
  | Some record =>
      let* _ := atomically (terminate d) in
      atomically (observe TERMINATED ;;; ret (DeliveryTerminated (quarantine_id record)))
  end.

(** What follows the transaction. *)
Definition settle_delivery d (r : result exn bool) (committing : bool) : co W DeliveryDisposition :=
  match r with
  | Ok true =>
      let* _ := atomically (observe COMMITTED ;;; ack d) in
      atomically (observe ACKNOWLEDGED ;;; ret DeliveryAck)
  | Ok false =>
      let* _ := atomically (retry d None) in
      atomically (observe RETRIED ;;; ret (DeliveryRetry None))
  | Raise e =>
      if is_cancelled e then atomically (observe CANCELLED ;;; raise e)
      else if permanent e then
        if committing then Ret (Raise e)
        else
          let* now := atomically clock_now in
          _quarantine_delivery d (exn_str e) now
      else if retryable e then
        if committing then atomically (observe UNCERTAIN ;;; raise e)
        else
          let* _ := atomically (observe ROLLED_BACK ;;; retry d None) in
          Ret (Ok (DeliveryRetry None))
      else atomically (observe (if committing then UNCERTAIN else FAILED) ;;; raise e)
  end.

Definition _process d : co W DeliveryDisposition :=
  let* start := atomically (begin_process d) in
  let '(scope, token, authority) := start in
  let* attempt := atomically (transaction scope token authority (message d)) in
  settle_delivery d (fst attempt) (snd attempt).

(** ** [process] *)

(** The fields [_running] and [_processing]. *)
Variables (running_flag : lens W bool) (processing : lens W Z).

Definition check_size d : result exn unit :=
  let? encoded := codec_encode codec (message d) in
  reject_if (max_message_bytes config <? Z.of_nat (length encoded))%Z
    (ValueError "delivery exceeds configured message byte limit").

Definition add_processing (n : Z) : M exn W unit := modify (fun w => update processing (view processing w + n) w).

(** [try: c finally: f]. *)
Fixpoint co_finally {A} (c : co W A) (f : M exn W unit) : co W A :=
  match c with
  | Ret r => Await (fun w => Ret (match fst (f w) with Ok _ => r | Raise e => Raise e end)) (fun w => snd (f w))
  | Await rest effect => Await (fun w => co_finally (rest w) f) effect
  end.

Definition process d : co W DeliveryDisposition :=
  let* _ := atomically (
    let! busy := gets (fun w => view running_flag w
      || (Z.min (concurrency config) (admitted config) <=? view processing w)%Z) in
    raise_if busy (RuntimeBusyError "consumer has no admission capacity") ;;;
    add_processing 1) in
  co_finally (let* _ := Ret (check_size d) in _process d) (add_processing (-1)).
End Consumer.

(** * The command runtime ([AsyncCommandRuntime]) *)

Section Commands.
Context {W V T : Type} `{!AsyncUnitOfWork V T Decision}.
Variable durable : lens W V.
Variable registry : CommandRegistry W.

(** [async with self._unit_of_work() as transaction]: save the decision and commit. *)
Definition save_and_commit (decision : Decision) : M exn W unit :=
  fun w =>
    let '(r, (v, _)) := (aenter ;;; try_finally (save_decision decision ;;; commit) aexit) (view durable w, unit_of_work (view durable w)) in
    (r, update durable v w).

(** [execute]: the decision it returns was committed. *)
Definition execute (c : Command) (context : HandlingContext) : co W Decision :=
  let* decision := atomically (dispatch registry c context) in
  let* _ := atomically (save_and_commit decision) in
  Ret (Ok decision).
End Commands.

(** [AsyncQueryRuntime.execute]. *)
Definition execute_query {W} (registry : QueryRegistry W) (q : Query) (context : HandlingContext) : co W json :=
  atomically (dispatch_query registry q context).
