(* ===== verification/ConsumerHistories.v ===== *)
(** * Each message is decided once

    Consumers and command runtimes on one factory of units of work: in any interleaving of
    any number of deliveries and commands, and whatever fails, times out or is cancelled, a
    message has at most one committed decision, and is acknowledged only when it has one. *)
From Stdlib Require Import ZArith Lia SpecFloat.
From stdpp Require Import base list gmap.
From S2P Require Import Prelude Core Outbox Wire Messages Application Inbox UnitOfWork Quarantine Resilience Messaging Operations Coroutines Relay Consumer.

(** ** What the operations of a unit do *)

Section Unit.
Context {D : Type}.
Implicit Types (f : factory D) (u : unit_state D) (k : inbox_identity).
Abbreviation S := (factory D * unit_state D)%type.

(** The factory is left as it is. *)
Definition local {A} (m : M exn S A) : Prop := forall s, fst (snd (m s)) = fst s.

Lemma local_bind {A B} (m : M exn S A) (g : A -> M exn S B) : local m -> (forall a, local (g a)) -> local (bind m g).
Proof.
  intros Hm Hg s. unfold bind. specialize (Hm s). destruct (m s) as [[a|e] s1]; cbn in *; [|done]. by rewrite Hg.
Qed.

Lemma local_for_each {A B} (g : B -> A -> M exn S B) l : (forall b a, local (g b a)) -> forall b, local (for_each l b g).
Proof. intros Hg. induction l as [|a l IH]; intros b; cbn; [done|]. by apply local_bind. Qed.

Lemma local_zoom {A} (m : M exn store A) : local (zoom inbox_lens m).
Proof. intros s. unfold zoom. by destruct (m _). Qed.

Lemma local_raise_if b e : local (raise_if b e).
Proof. intros s. by destruct b. Qed.

Lemma local_active : local (_active (D := D)).
Proof. intros s. unfold _active, bind, get, raise_if. by destruct (_ || _). Qed.

Lemma local_rollback : local (uow_rollback (D := D)).
Proof.
  apply local_bind; [done|]. intros s. destruct (UnitOfWork.finished _); [done|]. apply local_bind; [|done].
  apply local_for_each. intros _ r. apply local_bind; [apply local_zoom|done].
Qed.

Lemma local_aexit : local (uow_aexit (D := D)).
Proof. apply local_bind; [done|]. intros s. destruct (UnitOfWork.finished _); [done|apply local_rollback]. Qed.

Lemma local_aenter : local (uow_aenter (D := D)).
Proof. apply local_bind; [done|]. intros s. apply local_bind; [apply local_raise_if|done]. Qed.

Lemma local_reserve scope id token now ttl : local (uow_reserve_message (D := D) scope id token now ttl).
Proof.
  apply local_bind; [apply local_active|]. intros _. apply local_bind; [apply local_zoom|]. by intros [].
Qed.

Lemma local_complete scope id token now : local (uow_complete_message (D := D) scope id token now).
Proof.
  apply local_bind; [apply local_active|]. intros _. apply local_bind; [done|]. intros s.
  destruct (negb (bool_decide _)); [done|]. apply local_bind; [apply local_zoom|]. by intros [].
Qed.

Lemma local_save d : local (uow_save_decision (D := D) d).
Proof. apply local_bind; [apply local_active|]. intros _. apply local_bind; [done|]. intros s. apply local_bind; [apply local_raise_if|done]. Qed.

Lemma local_commit_completion c : local (commit_completion (D := D) c).
Proof. apply local_bind; [apply local_zoom|]. intros []; [done|]. apply local_bind; [apply local_rollback|done]. Qed.

(** ** The phases of a transaction on the message [k] *)

(** The inbox of the unit is that of the factory, but for [k]. *)
Definition working k f u : Prop :=
  d_wf (entries (unit_inbox u)) /\ forall k', k' <> k -> d_get k' (entries (unit_inbox u)) = d_get k' (entries (target_inbox f)).

Definition completed_in (d : dict inbox_identity InboxEntry) k : Prop :=
  exists e t, d_get k d = Some e /\ entry_completed_at e = Some t.
Definition completed f k : Prop := completed_in (entries (target_inbox f)) k.

Lemma begin_cases scope id token now ttl st dec st' : d_wf (entries st) ->
  begin scope id token now ttl st = (Ok dec, st') ->
  d_wf (entries st') /\ (forall k', k' <> (scope, id) -> d_get k' (entries st') = d_get k' (entries st)) /\
  match dec with
  | InboxAccepted _ => ~ completed_in (entries st) (scope, id)
  | InboxDuplicate _ => st' = st /\ completed_in (entries st) (scope, id)
  | _ => True
  end.
Proof.
  intros Hwf Hrun. unfold begin in Hrun. apply bind_ok in Hrun as (? & st1 & H1 & Hrun). apply bind_ok in Hrun as (? & st2 & H2 & Hrun).
  assert (st1 = st) as -> by (unfold _utc, check_utc, raise_if in H1; destruct (negb _); [done|by injection H1]).
  assert (st2 = st) as -> by (unfold raise_if in H2; destruct (_ || _); [done|by injection H2]).
  apply bind_ok in Hrun as (e & st3 & H3 & Hrun). injection H3 as <- <-.
  assert (forall st0 : store, d_wf (entries st0) -> add_reservation (scope, id) token now ttl st0 = (Ok dec, st') ->
    d_wf (entries st') /\ (forall k', k' <> (scope, id) -> d_get k' (entries st') = d_get k' (entries st0)) /\
    match dec with InboxDuplicate _ => False | _ => True end) as Hadd.
  { intros st0 Hwf0 Ha. unfold add_reservation in Ha. apply bind_ok in Ha as (st1 & st2 & Hg & Ha). injection Hg as <- <-.
    destruct (capacity st0 <=? _)%Z; [by injection Ha as <- <-|]. apply bind_ok in Ha as (until & st3 & Hl & Ha). injection Hl as _ <-.
    apply bind_ok in Ha as (? & st4 & Hm & Ha). injection Hm as _ <-. injection Ha as <- <-. cbn.
    split; [by apply d_set_wf|]. split; [|done]. intros k' Hk'. by apply d_get_set_ne. }
  destruct (d_get (scope, id) (entries st)) as [e|] eqn:Hg.
  - destruct (entry_completed_at e) as [t|] eqn:Hc.
    + injection Hrun as <- <-. split_and!; [done|done|done|by exists e, t].
    + assert (~ completed_in (entries st) (scope, id)) as Hno by (intros (e' & t & He & Ht); congruence).
      destruct (dt_ltb now (entry_expires_at e)); [by injection Hrun as <- <-|].
      apply bind_ok in Hrun as (? & st1 & Hm & Hrun). injection Hm as _ <-.
      destruct (Hadd (set_entries (d_pop (scope, id) (entries st)) st) (d_pop_wf _ _ Hwf) Hrun) as (Hwf' & Hne & Hdec). split_and!; [done| |by destruct dec].
      intros k' Hk'. rewrite Hne by done. by apply d_get_pop_ne.
  - assert (~ completed_in (entries st) (scope, id)) as Hno by (intros (e' & t & He & Ht); congruence).
    destruct (Hadd _ Hwf Hrun) as (Hwf' & Hne & Hdec). split_and!; [done|done|by destruct dec].
Qed.

Lemma complete_cases scope id token now st b st' : d_wf (entries st) -> Inbox.complete scope id token now st = (Ok b, st') ->
  d_wf (entries st') /\ (forall k', k' <> (scope, id) -> d_get k' (entries st') = d_get k' (entries st)) /\
  (b = true -> completed_in (entries st') (scope, id)).
Proof.
  intros Hwf Hrun. unfold Inbox.complete in Hrun. apply bind_ok in Hrun as (? & st1 & H1 & Hrun).
  assert (st1 = st) as -> by (unfold _utc, check_utc, raise_if in H1; destruct (negb _); [done|by injection H1]).
  apply bind_ok in Hrun as (e & st3 & H3 & Hrun). injection H3 as <- <-.
  destruct (d_get (scope, id) (entries st)) as [e|]; [|by injection Hrun as <- <-].
  destruct (_ || _); [by injection Hrun as <- <-|]. apply bind_ok in Hrun as (? & st4 & Hm & Hrun).
  injection Hm as _ <-. injection Hrun as <- <-. cbn. split; [by apply d_set_wf|]. split.
  - intros k' Hk'. by apply d_get_set_ne.
  - intros _. eexists _, now. by rewrite d_get_set_eq.
Qed.

(** A unit that has only opened its copy, and one that works on [k]. *)
Definition opened f u : Prop := entries (unit_inbox u) = entries (target_inbox f) /\ staged u = [] /\ completions u = [].

Lemma zoom_ok {A} (m : M exn store A) f u a s : zoom inbox_lens m (f, u) = (Ok a, s) ->
  exists st, m (unit_inbox u) = (Ok a, st) /\ s = (f, set_inbox st u).
Proof. unfold zoom. cbn. destruct (m (unit_inbox u)) as [r st]. intros [= -> <-]. by exists st. Qed.

Lemma active_ok f u x s : _active (f, u) = (Ok x, s) -> s = (f, u).
Proof. unfold _active, bind, get, raise_if. destruct (_ || _); [done|]. by intros [= _ <-]. Qed.

Lemma aenter_ok f x s : uow_aenter (f, unit_new f) = (Ok x, s) -> exists u, s = (f, u) /\ opened f u.
Proof. intros [= _ <-]. by eexists. Qed.

Lemma reserve_ok scope id token now ttl f u dec s : d_wf (entries (target_inbox f)) -> opened f u ->
  uow_reserve_message scope id token now ttl (f, u) = (Ok dec, s) ->
  exists u', s = (f, u') /\ match dec with
  | InboxAccepted _ => ~ completed f (scope, id) /\ working (scope, id) f u' /\ staged u' = [] /\ completions u' = []
  | InboxDuplicate _ => completed f (scope, id) /\ opened f u'
  | _ => True
  end.
Proof.
  intros Hwf (He & Hs & Hc) (? & s1 & ->%active_ok & (dec' & s2 & (st & Hb & ->)%zoom_ok & Hrun)%bind_ok)%bind_ok.
  apply begin_cases in Hb as (Hwf' & Hne & Hdec); [|by rewrite He]. rewrite He in *.
  destruct dec'; try (injection Hrun as <- <-; by eexists).
  injection Hrun as <- <-. eexists. split; [done|]. destruct Hdec as [-> Hdec]. by destruct u.
Qed.

Lemma save_ok d f u x s : uow_save_decision d (f, u) = (Ok x, s) ->
  s = (f, mkUnit (unit_inbox u) (staged u ++ [d]) (reservations u) (completions u) (entered u) (UnitOfWork.finished u)).
Proof.
  intros (? & s1 & ->%active_ok & (s2 & s3 & Hg & (? & s4 & Hr & Hm)%bind_ok)%bind_ok)%bind_ok. injection Hg as <- <-.
  unfold raise_if in Hr. destruct (_ <=? _)%Z in Hr; [done|]. injection Hr as _ <-. by injection Hm.
Qed.

Lemma complete_ok scope id token now f u s : working (scope, id) f u ->
  uow_complete_message scope id token now (f, u) = (Ok true, s) ->
  exists u', s = (f, u') /\ working (scope, id) f u' /\ staged u' = staged u /\ completions u' = completions u ++ [(scope, id, token, now)].
Proof.
  intros [Hwf Hw] (? & s1 & ->%active_ok & (s2 & s3 & Hg & Hrun)%bind_ok)%bind_ok. injection Hg as <- <-.
  destruct (negb (bool_decide _)) in Hrun; [done|]. apply bind_ok in Hrun as (b & s4 & (st & Hb & ->)%zoom_ok & Hrun).
  apply complete_cases in Hb as (Hwf' & Hne & _); [|done]. destruct b; [|done].
  apply bind_ok in Hrun as (? & s5 & Hm & Hrun). injection Hm as _ <-. injection Hrun as <-.
  eexists. split; [done|]. split_and!; [|done|done]. split; cbn; [done|]. intros k' Hk'. rewrite Hne by done. by apply Hw.
Qed.

Lemma commit_cases f u r s : uow_commit (f, u) = (r, s) ->
  (exists e, r = Raise e) /\ fst s = f \/
  r = Ok tt /\ exists u1, for_each (completions u) tt (fun _ c => commit_completion c) (f, u) = (Ok tt, (f, u1)) /\
    fst s = mkFactory (factory_capacity f) (set_entries (entries (unit_inbox u1)) (target_inbox f)) (decisions f ++ staged u1).
Proof.
  unfold uow_commit. unfold bind at 1. pose proof (local_active (f, u)) as Ha. destruct (_active (f, u)) as [[x|e] s1] eqn:Hact; cbn in Ha.
  2: { intros [= <- <-]. left. split; [by eexists|done]. }
  apply active_ok in Hact as ->. unfold bind at 1, get at 1. cbn [snd]. unfold bind at 1.
  pose proof (local_for_each (fun _ c => commit_completion (D := D) c) (completions u) (fun _ c => local_commit_completion c) tt (f, u)) as Hl.
  destruct (for_each _ _ _ _) as [[[]|e] [f1 u1]]; cbn in Hl; subst f1.
  - intros [= <- <-]. right. split; [done|]. by exists u1.
  - intros [= <- <-]. left. split; [by eexists|done].
Qed.

Lemma commit_opened f u r s : opened f u -> uow_commit (f, u) = (r, s) -> fst s = f.
Proof.
  intros (He & Hs & Hc) [[_ ?]|(-> & u1 & Hf & ->)]%commit_cases; [done|]. rewrite Hc in Hf. injection Hf as <-.
  rewrite Hs, He, app_nil_r, set_entries_id. by destruct f.
Qed.

Lemma commit_working scope id token now d f u r s : working (scope, id) f u -> staged u = [d] ->
  completions u = [(scope, id, token, now)] -> uow_commit (f, u) = (r, s) ->
  (exists e, r = Raise e) /\ fst s = f \/
  r = Ok tt /\ decisions (fst s) = decisions f ++ [d] /\ d_wf (entries (target_inbox (fst s))) /\
    completed (fst s) (scope, id) /\ forall k', k' <> (scope, id) -> completed (fst s) k' <-> completed f k'.
Proof.
  intros [Hwf Hw] Hs Hc [?|(-> & u1 & Hf & ->)]%commit_cases; [by left|]. right. rewrite Hc in Hf.
  apply bind_ok in Hf as ([] & s1 & Hcc & Hf). injection Hf as ->. apply bind_ok in Hcc as (b & s2 & (st & Hb & ->)%zoom_ok & Hcc).
  apply complete_cases in Hb as (Hwf' & Hne & Hk); [|done]. destruct b; [|by apply bind_ok in Hcc as (? & ? & _ & [=])].
  injection Hcc as <-. cbn. rewrite Hs. split_and!; [done|done|done|by apply Hk|]. intros k' Hk'. unfold completed, completed_in. cbn.
  by rewrite Hne, Hw.
Qed.

Lemma bind_cases {St A B} (m : M exn St A) (g : A -> M exn St B) s r s' : bind m g s = (r, s') ->
  (exists e, m s = (Raise e, s') /\ r = Raise e) \/ exists a s1, m s = (Ok a, s1) /\ g a s1 = (r, s').
Proof. unfold bind. destruct (m s) as [[a|e] s1]; [right; by exists a, s1|intros [= <- <-]; left; by exists e]. Qed.

Lemma local_run {A} (m : M exn S A) s r s' : local m -> m s = (r, s') -> fst s' = fst s.
Proof. intros Hm Hr. specialize (Hm s). by rewrite Hr in Hm. Qed.

(** A unit that saves one decision and commits. *)
Lemma save_commit_cases d f r s : (uow_aenter ;;; try_finally (uow_save_decision d ;;; uow_commit) uow_aexit) (f, unit_new f) = (r, s) ->
  fst s = f \/ decisions (fst s) = decisions f ++ [d] /\ target_inbox (fst s) = target_inbox f.
Proof.
  intros [(e & He & _)|(x & s1 & He & Hrun)]%bind_cases; [left; by apply local_run in He; [|apply local_aenter]|].
  apply aenter_ok in He as (u & -> & He & Hs & Hc). unfold try_finally in Hrun.
  destruct ((uow_save_decision d ;;; uow_commit) (f, u)) as [r2 s2] eqn:Hbody.
  assert (fst s = fst s2) as ->.
  { pose proof (local_aexit s2) as Hl. destruct (uow_aexit s2) as [[?|?] ?]; by injection Hrun as _ <-. }
  clear Hrun. apply bind_cases in Hbody as [(e & Hb & _)|(y & s3 & ->%save_ok & Hcm)]; [left; by apply local_run in Hb; [|apply local_save]|].
  apply commit_cases in Hcm as [[_ ->]|(_ & u1 & Hfe & ->)]; [by left|]. right. cbn in Hfe. rewrite Hc in Hfe. injection Hfe as <-.
  cbn. by rewrite Hs, He, set_entries_id.
Qed.
End Unit.

(** ** Consumers and commands on one factory *)

Section Consumers.
Context {W : Type} `{!Clock W, !Monotonic W, !RejectedDeliveryStore W}.
Context (durable : lens W (factory Decision)) `{!LensLaws durable}.
Context (draw_token : M exn W pystr) (codec : MessageCodec) (sha256_hexdigest : list N -> pystr).
Context (permanent retryable : exn -> bool) (observation : RuntimeObservation W) (registry : CommandRegistry W).
(** What the broker was told to acknowledge, and the message a decision is about. *)
Context (acked : W -> list inbox_identity) (tag : Decision -> option inbox_identity).
Implicit Types (w : W) (f : factory Decision) (k : inbox_identity).

(** The message of a delivery, in the scope of a consumer. *)
Definition identity (c : ConsumerConfig) (m : MessageValue) : inbox_identity :=
  (mkInboxScope (namespace c) (message_source m) (consumer c), mkOpaqueId (message_identity m)).

(** Calls that touch neither the factory nor the broker's acknowledgments. *)
Definition framed {A} (m : M exn W A) : Prop :=
  forall w, view durable (snd (m w)) = view durable w /\ acked (snd (m w)) = acked w.

Context (Hclock : framed clock_now) (Hmonotonic : framed monotonic) (Htoken : framed draw_token)
  (Hquarantine : forall r, framed (quarantine_add r))
  (Hsink : forall g e, sink observation = Some g -> framed (g e))
  (Hmetrics : forall g m, metrics observation = Some g -> framed (g m))
  (Hacked : forall f w, acked (update durable f w) = acked w)
  (Hregistry : forall n h c context, d_get n registry = Some h -> framed (h c context) /\
    forall w d w', h c context w = (Ok d, w') -> tag d = None).

(** *** The invariant *)

Definition tags f : list inbox_identity := omap tag (decisions f).

(** The completed messages are those with a decision, and a message has one at most. *)
Definition factory_ok f : Prop :=
  d_wf (entries (target_inbox f)) /\ NoDup (tags f) /\ forall k, completed f k <-> k ∈ tags f.

Definition sound w : Prop :=
  factory_ok (view durable w) /\ forall k, k ∈ acked w -> completed (view durable w) k.

Definition later w w' : Prop := sound w' /\ forall k, completed (view durable w) k -> completed (view durable w') k.

Lemma later_refl w : sound w -> later w w.
Proof. done. Qed.

Lemma later_framed {A} (m : M exn W A) w : framed m -> sound w -> later w (snd (m w)).
Proof. intros Hm [Hf Ha]. destruct (Hm w) as [H1 H2]. unfold later, sound. rewrite H1, H2. done. Qed.

(** A decision about the new message [k]. *)
Definition committed f k f' : Prop :=
  (exists d, decisions f' = decisions f ++ [d] /\ tag d = Some k) /\ ~ completed f k /\ d_wf (entries (target_inbox f')) /\
  completed f' k /\ forall k', k' <> k -> completed f' k' <-> completed f k'.

Lemma committed_ok f k f' : factory_ok f -> committed f k f' -> factory_ok f' /\ forall k', completed f k' -> completed f' k'.
Proof.
  intros (Hwf & Hnd & Hc) ((d & Hd & Ht) & Hno & Hwf' & Hk & Hne).
  assert (tags f' = tags f ++ [k]) as Htags by (unfold tags; rewrite Hd, omap_app; cbn; by rewrite Ht).
  split; [split_and!|].
  - done.
  - rewrite Htags. apply NoDup_app. split_and!; [done| |apply NoDup_singleton].
    intros k' Hk' ->%list_elem_of_singleton. by apply Hno, Hc.
  - intros k'. rewrite Htags, elem_of_app, list_elem_of_singleton. destruct (decide (k' = k)) as [->|]; [tauto|].
    rewrite Hne by done. rewrite Hc. tauto.
  - intros k' Hk'. destruct (decide (k' = k)) as [->|]; [done|]. by apply Hne.
Qed.

(** *** The transaction of a delivery *)

Abbreviation TS := (W * (unit_state Decision * bool))%type.
Implicit Types (s : TS).

Definition base f (l : list inbox_identity) s : Prop := view durable (fst s) = f /\ acked (fst s) = l.
Definition stays {A} (m : M exn TS A) : Prop := forall f l s, base f l s -> base f l (snd (m s)).

Lemma stays_world {A} (m : M exn W A) : framed m -> stays (in_world m).
Proof. intros Hm f l [w x] [Hf Hl]. unfold in_world, zoom. cbn. destruct (Hm w) as [H1 H2]. destruct (m w). cbn in *. split; cbn; congruence. Qed.

Lemma stays_unit {A} (m : M exn (factory Decision * unit_state Decision) A) : local m -> stays (in_unit durable m).
Proof.
  intros Hm f l [w [u c]] [Hf Hl]. unfold in_unit, zoom. cbn. specialize (Hm (view durable w, u)).
  destruct (m _) as [r [f' u']]. cbn in *. split; cbn; [by rewrite view_update, Hm|by rewrite Hacked].
Qed.

Lemma stays_bind {A B} (m : M exn TS A) (g : A -> M exn TS B) : stays m -> (forall a, stays (g a)) -> stays (bind m g).
Proof.
  intros Hm Hg f l s Hs. unfold bind. specialize (Hm f l s Hs). destruct (m s) as [[a|e] s1]; cbn in *; [|done]. by apply Hg.
Qed.

Lemma stays_pure {A} (m : M exn TS A) : (forall s, snd (m s) = s) -> stays m.
Proof. intros Hm f l s Hs. by rewrite Hm. Qed.

(** How a transaction on [k] may end: nothing happened, and it is acknowledged only if the
    message was completed before; or its decision was committed. *)
Definition ends (f : factory Decision) (l : list inbox_identity) k (r : result exn bool) s : Prop :=
  acked (fst s) = l /\ (view durable (fst s) = f /\ (r = Ok true -> completed f k) \/ committed f k (view durable (fst s))).

Lemma ends_base f l k r s : base f l s -> r <> Ok true -> ends f l k r s.
Proof. intros [Hf Hl] Hr. split; [done|]. by left. Qed.

Lemma ends_bind {A} f l k (m : M exn TS A) (g : A -> M exn TS bool) s : stays m -> base f l s ->
  (forall a s1, m s = (Ok a, s1) -> base f l s1 -> ends f l k (fst (g a s1)) (snd (g a s1))) ->
  ends f l k (fst (bind m g s)) (snd (bind m g s)).
Proof.
  intros Hm Hs Hg. unfold bind. specialize (Hm f l s Hs). destruct (m s) as [[a|e] s1] eqn:Hrun; [by apply Hg|].
  by apply ends_base.
Qed.

Lemma unit_run {A} (m : M exn (factory Decision * unit_state Decision) A) w u c r s : in_unit durable m (w, (u, c)) = (r, s) ->
  exists f' u', m (view durable w, u) = (r, (f', u')) /\ s = (update durable f' w, (u', c)).
Proof. unfold in_unit, zoom. cbn. destruct (m _) as [r' [f' u']]. intros [= -> <-]. by exists f', u'. Qed.

Lemma world_run {A} (m : M exn W A) w x r s : in_world m (w, x) = (r, s) -> exists w', m w = (r, w') /\ s = (w', x).
Proof. unfold in_world, zoom. cbn. destruct (m w) as [r' w']. intros [= -> <-]. by exists w'. Qed.

Lemma id_run {St} (x : pystr) (st st' : St) i : OpaqueId_new x st = (Ok i, st') -> i = mkOpaqueId x /\ st' = st.
Proof. unfold OpaqueId_new, bind, raise_if. destruct (_ || _); [done|]. by intros [= <- <-]. Qed.

(** What a job has to respect: its handler and its delivery touch neither the factory nor the
    other acknowledgments, and its decisions are about its message. *)
Record delivery_ok (c : ConsumerConfig) (h : MessageValue -> HandlingContext -> M exn W Decision) (d : AsyncDelivery W) : Prop := {
  ok_handler : forall context, framed (h (message d) context);
  ok_tag : forall context w dec w', h (message d) context w = (Ok dec, w') -> tag dec = Some (identity c (message d));
  ok_retry : forall delay, framed (retry d delay);
  ok_terminate : framed (terminate d);
  ok_ack : forall w, view durable (snd (ack d w)) = view durable w /\ acked (snd (ack d w)) ⊆ identity c (message d) :: acked w
}.

Lemma stays_id x : stays (OpaqueId_new x).
Proof. apply stays_pure. intros s. unfold OpaqueId_new, bind, raise_if. by destruct (_ || _). Qed.

Lemma framed_remaining d : framed (remaining d).
Proof.
  intros w. unfold remaining, bind. destruct (Hmonotonic w) as [H1 H2]. destruct (monotonic w) as [[t|e] w1]; done.
Qed.

(** The unit after the handler: its decision saved, its message completed. *)
Definition ready f c m u : Prop :=
  working (identity c m) f u /\ (exists d, staged u = [d] /\ tag d = Some (identity c m)) /\
  exists token now, completions u = [((identity c m).1, (identity c m).2, token, now)].

Lemma decide_ready c h d token authority f l w u b x s : delivery_ok c h d -> base f l (w, (u, b)) ->
  working (identity c (message d)) f u -> staged u = [] -> completions u = [] ->
  decide_message durable h (identity c (message d)).1 token authority (message d) (w, (u, b)) = (Ok x, s) ->
  exists w1 u1, s = (w1, (u1, b)) /\ base f l s /\ ready f c (message d) u1.
Proof.
  intros Hd Hb Hw Hs Hc Hrun. unfold decide_message in Hrun.
  apply bind_ok in Hrun as (context & s1 & H1 & Hrun). unfold lift in H1. injection H1 as _ <-.
  apply bind_ok in Hrun as (dec & s2 & H2 & Hrun). pose proof (stays_world _ (ok_handler _ _ _ Hd context) f l _ Hb) as Hb2.
  rewrite H2 in Hb2. cbn in Hb2. apply world_run in H2 as (w2 & Hh & ->). apply (ok_tag _ _ _ Hd) in Hh.
  apply bind_ok in Hrun as (y & s3 & H3 & Hrun). pose proof (stays_unit _ (local_save dec) f l _ Hb2) as Hb3.
  unfold save_decision, InMemory_AsyncUnitOfWork in H3. rewrite H3 in Hb3. cbn in Hb3.
  apply unit_run in H3 as (f3 & u3 & H3 & ->). apply save_ok in H3. destruct Hb2 as [Hf2 _]. cbn in Hf2. rewrite Hf2 in H3.
  injection H3 as -> ->. rewrite Hs in Hb3, Hrun. cbn [app] in Hb3, Hrun.
  apply bind_ok in Hrun as (left & s4 & H4 & Hrun). pose proof (stays_world _ (framed_remaining authority) f l _ Hb3) as Hb4.
  rewrite H4 in Hb4. cbn in Hb4. apply world_run in H4 as (w4 & _ & ->).
  apply bind_ok in Hrun as (ok & s5 & H5 & Hrun). unfold raise_if in Hrun. destruct ok; [|done]. injection Hrun as _ <-.
  destruct (float_bool left); [|done]. apply bind_ok in H5 as (i & s6 & [-> ->]%id_run & H5).
  apply bind_ok in H5 as (now & s7 & H7 & H5). pose proof (stays_world _ Hclock f l _ Hb4) as Hb7. rewrite H7 in Hb7. cbn in Hb7.
  apply world_run in H7 as (w7 & _ & ->). pose proof (stays_unit _ (local_complete (identity c (message d)).1 (mkOpaqueId (message_identity (message d))) token now) f l _ Hb7) as Hb8.
  unfold complete_message, InMemory_AsyncUnitOfWork in H5. rewrite H5 in Hb8. cbn in Hb8.
  apply unit_run in H5 as (f8 & u8 & H8 & ->). destruct Hb7 as [Hf7 _]. cbn in Hf7. rewrite Hf7 in H8.
  apply complete_ok in H8 as (u9 & [= -> ->] & Hw9 & Hs9 & Hc9); [|exact Hw]. cbn in Hs9, Hc9. rewrite Hc in Hc9. cbn in Hc9.
  eexists _, _. split; [done|]. split; [done|]. split_and!; [exact Hw9|by exists dec|by exists token, now].
Qed.

Lemma commit_base f l w u b : view durable w = f -> acked w = l ->
  forall r s, in_unit durable commit (w, (u, b)) = (r, s) ->
  acked (fst s) = l /\ exists f' u', uow_commit (f, u) = (r, (f', u')) /\ view durable (fst s) = f'.
Proof.
  intros <- <- r s (f' & u' & Hc & ->)%unit_run. cbn. rewrite Hacked, view_update. split; [done|]. by exists f', u'.
Qed.

Lemma stays_lift {A} (r : result exn A) : stays (lift r).
Proof. by apply stays_pure. Qed.
Lemma stays_raise_if b e : stays (raise_if b e).
Proof. apply stays_pure. intros s. by destruct b. Qed.

Lemma stays_decide c h d token authority scope : delivery_ok c h d ->
  stays (decide_message durable h scope token authority (message d)).
Proof.
  intros Hd. unfold decide_message. apply stays_bind; [apply stays_lift|]. intros context.
  apply stays_bind; [apply stays_world, (ok_handler _ _ _ Hd)|]. intros dec.
  apply stays_bind; [apply stays_unit, local_save|]. intros _.
  apply stays_bind; [apply stays_world, framed_remaining|]. intros left.
  apply stays_bind; [|intros ok; apply stays_raise_if]. destruct (float_bool left); [|by apply stays_pure].
  apply stays_bind; [apply stays_id|]. intros i. apply stays_bind; [by apply stays_world|]. intros now.
  apply stays_unit, local_complete.
Qed.

(** Committing a unit that is ready, or that has nothing to commit. *)
Definition commits : M exn TS bool := set_committing ;;; in_unit durable commit ;;; ret true.

Lemma commits_run w u b : commits (w, (u, b)) =
  match in_unit durable commit (w, (u, true)) with (Ok _, s) => (Ok true, s) | (Raise e, s) => (Raise e, s) end.
Proof. done. Qed.

Lemma commits_ends f l c m w u b : base f l (w, (u, b)) -> ~ completed f (identity c m) -> ready f c m u ->
  ends f l (identity c m) (fst (commits (w, (u, b)))) (snd (commits (w, (u, b)))).
Proof.
  intros [Hf Hl] Hno (Hw & (d & Hs & Ht) & token & now & Hc). rewrite commits_run.
  destruct (in_unit durable commit (w, (u, true))) as [r s] eqn:Hrun.
  apply (commit_base f l) in Hrun as (Ha & f' & u' & Hcm & Hv); [|done|done].
  destruct (identity c m) as [scope i] eqn:Hid. cbn in Hc.
  pose proof (commit_working scope i token now d f u r _ Hw Hs Hc Hcm) as [[[e ->] Hf']|(-> & Hd & Hwf & Hk & Hne)]; cbn in *.
  - split; [done|]. left. split; [congruence|done].
  - split; [done|]. right. cbn. rewrite Hv. split_and!; [by exists d|done|done|done|done].
Qed.

Lemma commits_opened f l k w u b : base f l (w, (u, b)) -> completed f k -> opened f u ->
  ends f l k (fst (commits (w, (u, b)))) (snd (commits (w, (u, b)))).
Proof.
  intros [Hf Hl] Hk Ho. rewrite commits_run. destruct (in_unit durable commit (w, (u, true))) as [r s] eqn:Hrun.
  apply (commit_base f l) in Hrun as (Ha & f' & u' & Hcm & Hv); [|done|done].
  pose proof (commit_opened f u r _ Ho Hcm) as Hf'. cbn in Hf'. subst f'.
  destruct r; (split; [done|]; left; split; done).
Qed.

Lemma body_ends c h d token authority f l w u b : factory_ok f -> delivery_ok c h d -> base f l (w, (u, b)) -> opened f u ->
  let m := body durable h c (identity c (message d)).1 token authority (message d) in
  ends f l (identity c (message d)) (fst (m (w, (u, b)))) (snd (m (w, (u, b)))).
Proof.
  intros (Hwf & _) Hd Hb Ho m. unfold m, body. apply ends_bind; [apply stays_id|done|].
  intros i s1 [-> ->]%id_run Hb1. apply ends_bind; [by apply stays_world|done|].
  intros now s2 (w2 & _ & ->)%world_run Hb2. apply ends_bind; [apply stays_unit, local_reserve|done|].
  intros dec s3 (f3 & u3 & Hres & ->)%unit_run Hb3. pose proof Hb2 as [Hf2 _]. cbn in Hf2. rewrite Hf2 in Hres.
  apply reserve_ok in Hres as (u4 & [= -> ->] & Hdec); [|done|done]. destruct dec as [tk|at_|until|cap].
  - destruct Hdec as (Hno & Hw & Hs & Hc). apply ends_bind; [by eapply stays_decide|done|].
    intros x s5 Hrun Hb5. eapply decide_ready in Hrun as (w6 & u6 & -> & _ & Hready); [|done..].
    by apply commits_ends.
  - destruct Hdec as [Hk Ho4]. by apply commits_opened.
  - apply ends_bind; [apply stays_unit, local_rollback|done|]. intros x s5 _ Hb5. by apply ends_base.
  - apply ends_bind; [apply stays_unit, local_rollback|done|]. intros x s5 _ Hb5. by apply ends_base.
Qed.

(** A transaction leaves a sound world, and one that acknowledges has the message completed. *)
Lemma transaction_sound c h d token authority w : sound w -> delivery_ok c h d ->
  let x := transaction durable h c (identity c (message d)).1 token authority (message d) w in
  later w (snd x) /\ forall b, fst x = Ok (Ok true, b) -> completed (view durable (snd x)) (identity c (message d)).
Proof.
  intros [Hf Ha] Hd. unfold transaction, bind. cbn [aenter aexit unit_of_work InMemory_AsyncUnitOfWork].
  destruct (in_unit durable uow_aenter (w, (unit_new (view durable w), false))) as [r0 s0] eqn:Henter.
  pose proof (stays_unit _ local_aenter (view durable w) (acked w) (w, (unit_new (view durable w), false)) (conj eq_refl eq_refl)) as Hb.
  rewrite Henter in Hb. cbn in Hb.
  assert (forall r s, ends (view durable w) (acked w) (identity c (message d)) r s ->
    later w (fst s) /\ (r = Ok true -> completed (view durable (fst s)) (identity c (message d)))) as Hends.
  { intros r s [Hl [[Hv Hk]|Hc]]; unfold later, sound; rewrite Hl.
    - rewrite Hv. split; [split; [by split|auto]|exact Hk].
    - pose proof (committed_ok _ _ _ Hf Hc) as [Hf' Hmono]. split; [split; [split; [done|]|done]|].
      + intros k Hk. by apply Hmono, Ha.
      + intros _. by destruct Hc as (_ & _ & _ & ? & _). }
  destruct r0 as [x|e].
  2: { destruct s0 as [w0 [u0 b0]]. cbn. destruct (Hends (Raise e) (w0, (u0, b0)) ltac:(by apply ends_base)) as [Hlater _].
       split; [done|]. intros b Hr. done. }
  apply unit_run in Henter as (f1 & u1 & (u2 & [= -> ->] & Ho)%aenter_ok & ->).
  pose proof (body_ends c h d token authority _ _ _ _ false Hf Hd Hb Ho) as He. unfold try_finally.
  destruct (body durable h c _ token authority (message d) _) as [r2 s2] eqn:Hbody.
  cbv zeta in He. rewrite Hbody in He. cbn [fst snd] in He.
  assert (forall r, (r = r2 \/ r <> Ok true) -> ends (view durable w) (acked w) (identity c (message d)) r (snd (in_unit durable uow_aexit s2))) as He3.
  { intros r Hr. destruct He as [Hl He]. pose proof (stays_unit _ local_aexit (view durable (fst s2)) (acked w) s2 (conj eq_refl Hl)) as [Hv3 Hl3].
    split; [done|]. rewrite Hv3. destruct He as [[Hv Hk]|Hc]; [left|by right]. split; [done|]. destruct Hr as [->|Hr]; [done|]. by intros ?. }
  destruct (in_unit durable uow_aexit s2) as [[y|e] [w3 [u3 b3]]]; cbn in *.
  - destruct (Hends _ _ (He3 r2 (or_introl eq_refl))) as [Hl Hk]. split; [done|]. intros b [= -> _]. by apply Hk.
  - destruct (Hends _ _ (He3 (Raise e) (or_intror (fun H : Raise e = Ok true => match H with end)))) as [Hl _]. split; [done|]. by intros b ?.
Qed.

(** *** Coroutines *)

(** Every step leaves a sound world, and the answer satisfies [Q]; [b] says that [k] is known
    to be completed. *)
Fixpoint co_ok {A} (Q : bool -> A -> Prop) k (b : bool) (x : co W A) : Prop :=
  match x with
  | Ret (Ok a) => Q b a
  | Ret (Raise _) => True
  | Await rest effect => forall w, sound w -> (b = true -> completed (view durable w) k) ->
      later w (effect w) /\ exists b', (b' = true -> completed (view durable (effect w)) k) /\ co_ok Q k b' (rest w)
  end.

Lemma co_ok_bind {A B} (Q : bool -> B -> Prop) k (x : co W A) (g : A -> co W B) : forall b,
  co_ok (fun b a => co_ok Q k b (g a)) k b x -> co_ok Q k b (co_bind x g).
Proof.
  induction x as [[a|e]|rest IH effect]; intros b Hx; cbn; [done|done|]. intros w Hw Hb.
  destruct (Hx w Hw Hb) as (Hl & b' & Hb' & Hr). split; [done|]. exists b'. auto.
Qed.

(** A framed step. *)
Lemma co_ok_framed {A} (Q : bool -> A -> Prop) k b (m : M exn W A) : framed m ->
  (forall w a w', m w = (Ok a, w') -> Q b a) -> co_ok Q k b (atomically m).
Proof.
  intros Hm HQ w Hw Hb. pose proof (later_framed m w Hm Hw) as Hl. split; [done|]. exists b. split.
  - intros ->. apply Hl. by apply Hb.
  - cbn. destruct (m w) as [[a|e] w'] eqn:Hr; cbn; [by eapply HQ|done].
Qed.

Lemma co_ok_finally {A} (Q : bool -> A -> Prop) k (x : co W A) (g : M exn W unit) : framed g -> forall b,
  co_ok Q k b x -> co_ok Q k b (co_finally x g).
Proof.
  intros Hg. induction x as [r|rest IH effect]; intros b Hx; cbn; intros w Hw Hb.
  - pose proof (later_framed g w Hg Hw) as Hl. split; [done|]. exists b. split; [intros ->; apply Hl; by apply Hb|].
    destruct (fst (g w)); [done|exact I].
  - destruct (Hx w Hw Hb) as (Hl & b' & Hb' & Hr). split; [done|]. exists b'. auto.
Qed.

Lemma framed_bind {A B} (m : M exn W A) (g : A -> M exn W B) : framed m -> (forall a, framed (g a)) -> framed (bind m g).
Proof.
  intros Hm Hg w. unfold bind. specialize (Hm w). destruct (m w) as [[a|e] w1]; cbn in *; [|done].
  destruct (Hg a w1) as [-> ->]. done.
Qed.

Lemma framed_pure {A} (m : M exn W A) : (forall w, snd (m w) = w) -> framed m.
Proof. intros Hm w. by rewrite Hm. Qed.

Lemma framed_emit fact t : framed (emit observation fact t).
Proof.
  unfold emit. destruct (sink observation) as [g|] eqn:Hg; [|done]. intros w. unfold suppressed. cbn.
  apply (framed_bind _ _); [|intros e; by apply Hsink]. apply framed_pure. intros w'.
  unfold OperationalEvent_new, bind, raise_if. by repeat case_match; simplify_eq.
Qed.

Lemma framed_lag t t' : framed (lag observation t t').
Proof.
  unfold lag. destruct (metrics observation) as [g|] eqn:Hg; [|done]. intros w. unfold suppressed. cbn.
  apply (framed_bind _ _); [|intros m; by apply Hmetrics]. apply framed_pure. intros w'.
  unfold Metric_new, bind, raise_if. by repeat case_match; simplify_eq.
Qed.

Lemma framed_observe fact : framed (observe observation fact).
Proof. apply framed_bind; [done|]. intros now. apply framed_emit. Qed.

(** *** Deliveries *)

(** An acknowledged delivery has its message completed. *)
Definition acknowledges (b : bool) (a : DeliveryDisposition) : Prop := a = DeliveryAck -> b = true.

Lemma co_ok_then {A B} (Q : bool -> B -> Prop) k b (m : M exn W A) (g : A -> co W B) : framed m ->
  (forall a, co_ok Q k b (g a)) -> co_ok Q k b (co_bind (atomically m) g).
Proof. intros Hm Hg. apply co_ok_bind, co_ok_framed; [done|]. intros w a w' _. apply Hg. Qed.

Lemma framed_then_ret {A} fact (a : A) : framed (observe observation fact ;;; ret a).
Proof. apply framed_bind; [apply framed_observe|done]. Qed.

Lemma ret_acknowledges k b x : x <> DeliveryAck -> co_ok acknowledges k b (Ret (Ok x)).
Proof. by intros Hx ->. Qed.

Lemma quarantine_ok c h d reason t k b : delivery_ok c h d ->
  co_ok acknowledges k b (_quarantine_delivery codec sha256_hexdigest c observation d reason t).
Proof.
  intros Hd. unfold _quarantine_delivery. destruct (codec_encode codec (message d)) as [encoded|e]; [|done]. cbn [co_bind].
  apply co_ok_then.
  { intros w. set (m := let! record := lift (quarantine_record sha256_hexdigest c d reason t encoded) in let! _ := quarantine_add record in ret record).
    assert (framed m) as Hm by (apply framed_bind; [by apply framed_pure|]; intros r; by apply framed_bind).
    specialize (Hm w). destruct (m w) as [[r|e] w']; [done|]. by destruct (is_cancelled e). }
  intros [record|].
  - apply co_ok_then; [apply (ok_terminate _ _ _ Hd)|]. intros _. apply co_ok_framed; [apply framed_then_ret|].
    intros w a w' (? & ? & _ & [= <- _])%bind_ok. by intros ?.
  - apply co_ok_then; [apply (ok_retry _ _ _ Hd)|]. intros _. by apply ret_acknowledges.
Qed.

Lemma ack_ok c h d : delivery_ok c h d ->
  co_ok acknowledges (identity c (message d)) true (co_bind (atomically (observe observation COMMITTED ;;; ack d))
    (fun _ => atomically (observe observation ACKNOWLEDGED ;;; ret DeliveryAck))).
Proof.
  intros Hd. apply co_ok_bind. intros w Hw Hk. cbn.
  assert (sound (snd (observe observation COMMITTED w)) /\ completed (view durable (snd (observe observation COMMITTED w))) (identity c (message d))) as [Hw1 Hk1].
  { destruct (later_framed _ w (framed_observe COMMITTED) Hw) as [H1 H2]. split; [done|by apply H2, Hk]. }
  assert (view durable (snd ((observe observation COMMITTED ;;; ack d) w)) = view durable w /\
    acked (snd ((observe observation COMMITTED ;;; ack d) w)) ⊆ identity c (message d) :: acked w) as [Hv Ha].
  { destruct (framed_observe COMMITTED w) as [H1 H2]. unfold bind. destruct (observe observation COMMITTED w) as [[x|e] w1]; cbn in *.
    - destruct (ok_ack _ _ _ Hd w1) as [H3 H4]. by rewrite H3, H1, <- H2.
    - rewrite H1, H2. split; [done|]. by apply list_subseteq_cons. }
  destruct Hw as [Hf Hal]. unfold later, sound. rewrite Hv. split; [split; [split; [done|]|done]|].
  - intros k [->|Hk']%Ha%elem_of_cons; [by apply Hk|by apply Hal].
  - exists true. split; [by intros _; apply Hk|]. destruct (fst _); [|done].
    apply co_ok_framed; [apply framed_then_ret|]. by intros.
Qed.

Lemma settle_ok c h d r committing b : delivery_ok c h d -> (r = Ok true -> b = true) ->
  co_ok acknowledges (identity c (message d)) b
    (settle_delivery codec sha256_hexdigest permanent retryable c observation d r committing).
Proof.
  intros Hd Hr. assert (forall fact e, co_ok acknowledges (identity c (message d)) b (atomically (observe observation fact ;;; raise e))) as Hraise.
  { intros fact e. apply co_ok_framed; [apply framed_bind; [apply framed_observe|done]|]. by intros w a w' (? & ? & _ & [=])%bind_ok. }
  destruct r as [[]|e]; cbn [settle_delivery].
  - rewrite Hr by done. by eapply ack_ok.
  - apply co_ok_then; [apply (ok_retry _ _ _ Hd)|]. intros _. apply co_ok_framed; [apply framed_then_ret|].
    intros w a w' (? & ? & _ & [= <- _])%bind_ok. by intros ?.
  - destruct (is_cancelled e); [apply Hraise|]. destruct (permanent e).
    + destruct committing; [done|]. apply co_ok_then; [done|]. intros now. by eapply quarantine_ok.
    + destruct (retryable e); [|apply Hraise]. destruct committing; [apply Hraise|].
      apply co_ok_then; [apply framed_bind; [apply framed_observe|intros _; apply (ok_retry _ _ _ Hd)]|].
      intros _. by apply ret_acknowledges.
Qed.

Lemma framed_scope n x y : framed (InboxScope_new n x y).
Proof. apply framed_pure. intros w. unfold InboxScope_new, bind, raise_if. by destruct (_ || _). Qed.

Lemma framed_after t : framed (after t).
Proof.
  apply framed_bind; [apply framed_pure; intros w; unfold raise_if; by destruct (_ <=? _)%Z|]. intros _. by apply framed_bind.
Qed.

Lemma framed_begin c d : framed (begin_process draw_token c observation d).
Proof.
  apply framed_bind; [apply framed_observe|]. intros _. apply framed_bind; [done|]. intros now.
  apply framed_bind; [apply framed_lag|]. intros _. apply framed_bind; [apply framed_scope|]. intros scope.
  apply framed_bind; [done|]. intros token. apply framed_bind; [apply framed_after|done].
Qed.

Lemma begin_scope c d w scope token authority w' : begin_process draw_token c observation d w = (Ok (scope, token, authority), w') ->
  scope = (identity c (message d)).1.
Proof.
  unfold begin_process. intros (? & ? & _ & (? & ? & _ & (? & ? & _ & (sc & ? & Hs & (? & ? & _ & (? & ? & _ & Hr)%bind_ok)%bind_ok)%bind_ok)%bind_ok)%bind_ok)%bind_ok.
  injection Hr as -> _ _ _. unfold InboxScope_new in Hs. apply bind_ok in Hs as (? & ? & _ & Hs). by injection Hs.
Qed.

Abbreviation _process c h d :=
  (_process durable draw_token h codec sha256_hexdigest permanent retryable c observation d).
Abbreviation process c h d running processing :=
  (process durable draw_token h codec sha256_hexdigest permanent retryable c observation running processing d).

Lemma _process_ok c h d : delivery_ok c h d -> co_ok acknowledges (identity c (message d)) false (_process c h d).
Proof.
  intros Hd. apply co_ok_bind, co_ok_framed; [apply framed_begin|]. intros w [[scope token] authority] w' ->%begin_scope.
  apply co_ok_bind. intros w1 Hw1 _. pose proof (transaction_sound c h d token authority w1 Hw1 Hd) as [Hl Hk]. cbv zeta in Hl, Hk.
  split; [exact Hl|]. destruct (transaction _ _ _ _ _ _ _ w1) as [[[r b]|e] w2]; cbn in *; [|by exists false].
  exists (bool_decide (r = Ok true)). split.
  - intros ->%bool_decide_eq_true. by eapply Hk.
  - apply settle_ok with (h := h); [done|]. intros ->. by apply bool_decide_eq_true.
Qed.

Lemma process_ok c h d running (processing : lens W Z) :
  (forall n w, view durable (update processing n w) = view durable w /\ acked (update processing n w) = acked w) ->
  delivery_ok c h d -> co_ok acknowledges (identity c (message d)) false (process c h d running processing).
Proof.
  intros Hp Hd. assert (forall n, framed (add_processing processing n)) as Hadd by (intros n w; apply Hp).
  apply co_ok_then.
  - apply framed_bind; [done|]. intros busy. apply framed_bind; [by destruct busy|]. intros _. apply Hadd.
  - intros _. apply co_ok_finally; [apply Hadd|]. destruct (check_size codec c d); [|done]. by apply _process_ok.
Qed.

(** *** Commands *)

Lemma untagged_ok f f' d : factory_ok f -> decisions f' = decisions f ++ [d] -> tag d = None ->
  target_inbox f' = target_inbox f -> factory_ok f' /\ forall k, completed f k -> completed f' k.
Proof.
  intros (Hwf & Hnd & Hc) Hd Ht Hi. unfold factory_ok, completed. rewrite Hi.
  assert (tags f' = tags f) as -> by (unfold tags; rewrite Hd, omap_app; cbn; by rewrite Ht, app_nil_r). done.
Qed.

Lemma save_sound d w : tag d = None -> sound w -> later w (snd (save_and_commit durable d w)).
Proof.
  intros Ht [Hf Ha]. unfold save_and_commit. cbn [aenter save_decision commit aexit unit_of_work InMemory_AsyncUnitOfWork].
  set (f := view durable w) in *. destruct (bind _ _ (f, unit_new f)) as [r [f' u']] eqn:Hrun. cbn.
  apply save_commit_cases in Hrun. cbn in Hrun.
  unfold later, sound. rewrite view_update, Hacked. destruct Hrun as [->|[Hd Hi]]; [done|].
  destruct (untagged_ok _ _ _ Hf Hd Ht Hi) as [Hf' Hmono]. split; [split; [done|]|done]. intros k Hk. by apply Hmono, Ha.
Qed.

Lemma execute_ok c context k : co_ok (fun _ _ => True) k false (execute durable registry c context).
Proof.
  apply co_ok_bind. intros w Hw _.
  assert (framed (dispatch registry c context) /\ forall w d w', dispatch registry c context w = (Ok d, w') -> tag d = None) as [Hd Ht].
  { unfold dispatch, handler_for. destruct (d_get (name c) registry) as [h|] eqn:Hg.
    - by apply (Hregistry _ _ c context Hg).
    - split; [done|]. intros w1 d w' (? & ? & [=] & _)%bind_ok. }
  split; [by apply later_framed|]. exists false. split; [done|]. cbn -[dispatch].
  destruct (dispatch registry c context w) as [[d|e] w1] eqn:Hr; cbn; [|done].
  intros w2 Hw2 _. split; [by apply save_sound; [eapply Ht|]|]. exists false. split; [done|].
  by destruct (fst (save_and_commit durable d w2)).
Qed.

(** *** Pools of deliveries and commands *)

(** A delivery to a consumer, with its handler and the fields of its instance, through
    [process] or in a loop of [run]; or a command. *)
Inductive job :=
  | Deliver (c : ConsumerConfig) (h : MessageValue -> HandlingContext -> M exn W Decision) (running : lens W bool)
      (processing : lens W Z) (standalone : bool) (d : AsyncDelivery W)
  | Execute (c : Command) (context : HandlingContext).

Definition work (j : job) : co W (DeliveryDisposition + Decision) :=
  match j with
  | Deliver c h running processing standalone d =>
      let* a := (if standalone then process c h d running processing else _process c h d) in Ret (Ok (inl a))
  | Execute c context => let* d := execute durable registry c context in Ret (Ok (inr d))
  end.

Definition job_ok (j : job) : Prop :=
  match j with
  | Deliver c h _ processing _ d => delivery_ok c h d /\
      forall n w, view durable (update processing n w) = view durable w /\ acked (update processing n w) = acked w
  | Execute _ _ => True
  end.

(** The message of a job, if it has one. *)
Definition job_key (j : job) : inbox_identity :=
  match j with Deliver c _ _ _ _ d => identity c (message d) | Execute _ _ => (mkInboxScope "" "" "", mkOpaqueId "") end.

Definition answer_ok (b : bool) (a : DeliveryDisposition + Decision) : Prop := a = inl DeliveryAck -> b = true.

Lemma work_ok j : job_ok j -> co_ok answer_ok (job_key j) false (work j).
Proof.
  assert (forall k b (x : co W DeliveryDisposition), co_ok acknowledges k b x -> co_ok answer_ok k b (let* a := x in Ret (Ok (inl a)))) as Hinl.
  { intros k b x Hx. apply co_ok_bind. revert b Hx. induction x as [[a|e]|rest IH effect]; intros b Hx; [|done|].
    - intros [= ->]. by apply Hx.
    - intros w Hw Hb. destruct (Hx w Hw Hb) as (Hl & b' & Hb' & Hr). split; [done|]. exists b'. auto. }
  destruct j as [c h running processing standalone d|c context]; cbn [job_ok work job_key].
  - intros [Hd Hp]. apply Hinl. destruct standalone; [by apply process_ok|by apply _process_ok].
  - intros _. apply co_ok_bind. pose proof (execute_ok c context (mkInboxScope "" "" "", mkOpaqueId "")) as He. revert He. generalize false.
    generalize (execute durable registry c context). intros x. induction x as [[a|e]|rest IH effect]; intros b Hx; [done|done|].
    intros w Hw Hb. destruct (Hx w Hw Hb) as (Hl & b' & Hb' & Hr). split; [done|]. exists b'. auto.
Qed.

(** What the rest of the program may do. *)
Definition elsewhere w w' : Prop := view durable w' = view durable w /\ acked w' = acked w.

(** What holds of a pool: the world is sound, and so is what each worker knows of it. *)
Definition knows w k (b : bool) : Prop := b = true -> completed (view durable w) k.
Definition pool_ok (p : pool (W := W) (J := job) (A := DeliveryDisposition + Decision)) : Prop :=
  sound (world p) /\ Forall job_ok (todo p) /\
  Forall (fun q => exists b, knows (world p) (job_key q.1) b /\ co_ok answer_ok (job_key q.1) b q.2) (running p) /\
  Forall (fun q => q.2 = inl DeliveryAck -> completed (view durable (world p)) (job_key q.1)) (Coroutines.finished p).

Lemma knows_later w w' k b : later w w' -> knows w k b -> knows w' k b.
Proof. intros [_ Hl] Hk Hb. by apply Hl, Hk. Qed.

Lemma pool_step_ok workers p p' : pool_ok p -> pool_step work workers elsewhere p p' -> pool_ok p'.
Proof.
  intros (Hw & Htodo & Hrun & Hfin) Hs.
  destruct Hs as [j js rs ds w Hlt|js rs1 rs2 ds w w1 j rest effect [Hv Ha]|js rs1 rs2 ds w j a]; cbn in *.
  - apply Forall_cons in Htodo as [Hj Htodo]. split_and!; [done|done| |done]. constructor; [|done]. exists false.
    split; [done|by apply work_ok].
  - apply Forall_app in Hrun as [H1 [(b & Hb & Hco) H2]%Forall_cons]. cbn in Hb, Hco.
    assert (sound w1 /\ later w w1) as [Hw1 Hl1] by (unfold later, sound; rewrite Hv, Ha; done).
    destruct (Hco w1 Hw1 (knows_later _ _ _ _ Hl1 Hb)) as (Hl & b' & Hb' & Hr).
    assert (later w (effect w1)) as Hl2 by (destruct Hl as [? Hl], Hl1 as [? Hl1]; split; [done|]; intros k Hk; by apply Hl, Hl1).
    assert (forall rs, Forall (fun q => exists b, knows w (job_key q.1) b /\ co_ok answer_ok (job_key q.1) b q.2) rs ->
      Forall (fun q => exists b, knows (effect w1) (job_key q.1) b /\ co_ok answer_ok (job_key q.1) b q.2) rs) as Hmono.
    { intros rs Hrs. eapply Forall_impl; [exact Hrs|]. intros q (b0 & Hb0 & Hc0). exists b0. split; [by eapply knows_later|done]. }
    split_and!; [apply Hl|done| |].
    + apply Forall_app. split; [by apply Hmono|]. constructor; [by exists b'|by apply Hmono].
    + eapply Forall_impl; [exact Hfin|]. intros q Hq Hack. apply Hl2. by apply Hq.
  - apply Forall_app in Hrun as [H1 [(b & Hb & Hco) H2]%Forall_cons]. cbn in Hb, Hco.
    split_and!; [done|done|by apply Forall_app|]. apply Forall_app. split; [done|]. constructor; [|done].
    intros Hack. by apply Hb, Hco.
Qed.

Lemma pool_steps_ok workers n p p' : pool_steps work workers elsewhere n p p' -> pool_ok p -> pool_ok p'.
Proof. induction 1 as [p|n p1 p2 p3 Hs _ IH]; intros Hp; [done|]. apply IH. by eapply pool_step_ok. Qed.

(** C7. Consumers and command runtimes share a factory of units of work. However their
    deliveries and commands interleave, whatever is redelivered, and whatever fails, times out
    or is cancelled at whatever point: each message has at most one committed decision; every
    message acknowledged to the broker has one; and so has every message whose processing
    answered that it was acknowledged. *)
Theorem consumer_decides_once js workers n w p : Forall job_ok js ->
  entries (target_inbox (view durable w)) = [] -> decisions (view durable w) = [] -> acked w = [] ->
  pool_steps work workers elsewhere n (start js w) p ->
  let f := view durable (world p) in
  NoDup (tags f) /\ (forall k, k ∈ acked (world p) -> k ∈ tags f) /\
  forall c h running processing standalone d,
    (Deliver c h running processing standalone d, inl DeliveryAck) ∈ Coroutines.finished p -> identity c (message d) ∈ tags f.
Proof.
  intros Hjs He Hd Ha Hs f. apply pool_steps_ok in Hs as (Hw & _ & _ & Hfin).
  - destruct Hw as [(_ & Hnd & Hc) Hal]. split_and!; [done| |].
    + intros k Hk. by apply Hc, Hal.
    + intros c h running processing standalone d Hin. rewrite Forall_forall in Hfin. apply Hc. by apply (Hfin _ Hin).
  - unfold pool_ok, start. cbn. split_and!; [|done|done|done]. unfold sound, factory_ok, tags, completed, completed_in.
    rewrite He, Hd, Ha. cbn. split_and!; [constructor|constructor| |].
    + intros k. split; [by intros (? & ? & ? & _)|by intros ?%not_elem_of_nil].
    + by intros k ?%not_elem_of_nil.
Qed.
End Consumers.

(** ** A concrete run: a message delivered twice *)

Section Witness.
(** The factory, the broker's acknowledgments, the quarantine, and the fields of the
    consumer. *)
Abbreviation demo_world := (factory Decision * (list inbox_identity * (quarantine_store * (bool * Z))))%type.

#[local] Instance consumer_clock : Clock demo_world := ret (utc 1000).
#[local] Instance consumer_monotonic : Monotonic demo_world := ret float_one.
Definition quarantine_lens : lens demo_world quarantine_store :=
  Lens (fun w => fst (snd (snd w))) (fun q w => (fst w, (fst (snd w), (q, snd (snd (snd w)))))).
#[local] Instance consumer_quarantine : RejectedDeliveryStore demo_world := fun r => zoom quarantine_lens (quarantine_add r).
Definition running_lens : lens demo_world bool :=
  Lens (fun w => fst (snd (snd (snd w)))) (fun b w => (fst w, (fst (snd w), (fst (snd (snd w)), (b, snd (snd (snd (snd w)))))))).
Definition processing_lens : lens demo_world Z :=
  Lens (fun w => snd (snd (snd (snd w)))) (fun n w => (fst w, (fst (snd w), (fst (snd (snd w)), (fst (snd (snd (snd w))), n))))).
Definition demo_acked (w : demo_world) : list inbox_identity := fst (snd w).

Definition demo_config : ConsumerConfig := mkConsumerConfig "billing" "ns" QuarantinePolicy_default (seconds 60) (seconds 30) 2 4 100 6.
Definition demo_message : MessageValue :=
  Ordinary (mkEnvelope "m-1" "shop" "order.placed" "order/7" (utc 0) "urn:order:1" JNull None None
    CLOUD_EVENTS_SPEC_VERSION JSON_CONTENT_TYPE MESSAGE_PROFILE).
Definition demo_identity : inbox_identity := identity demo_config demo_message.
Definition demo_delivery : AsyncDelivery demo_world :=
  mkDelivery demo_message (modify (fun w => (fst w, (demo_identity :: fst (snd w), snd (snd w))))) (fun _ => ret tt) (ret tt).
Definition demo_decision : Decision := mkDecision (JStr "m-1") [] [] [] [].
Definition demo_handler (m : MessageValue) (context : HandlingContext) : M exn demo_world Decision := ret demo_decision.
Definition demo_tag (d : Decision) : option inbox_identity :=
  match decision_result d with JStr _ => Some demo_identity | _ => None end.
Definition demo_codec : MessageCodec := mkMessageCodec "test" (fun _ => Ok [1%N]) (fun _ => Ok demo_message).
Definition demo_observation : RuntimeObservation demo_world := mkObservation CONSUMER None None.

Definition demo_work (j : job (W := demo_world)) : co demo_world (DeliveryDisposition + Decision) :=
  work fst_lens (ret "t"%py) demo_codec (fun _ => "0"%py) (fun _ => false) (fun _ => false) demo_observation [] j.
Definition demo_job : job (W := demo_world) := Deliver demo_config demo_handler running_lens processing_lens true demo_delivery.
Definition demo_start : demo_world := (mkFactory 10 (mkStore 10 []) [], ([], (mkQuarantineStore 10 [], (false, 0)))).

Definition after_first : demo_world := snd (co_run (demo_work demo_job) demo_start).
Definition after_second : demo_world := snd (co_run (demo_work demo_job) after_first).

(** The second delivery is acknowledged as a duplicate; there is one decision. *)
Lemma consumer_decides_once_witness :
  demo_acked after_second = [demo_identity; demo_identity] /\ NoDup (tags demo_tag (fst after_second)) /\
  tags demo_tag (fst after_second) = [demo_identity].
Proof.
  split; [vm_compute; reflexivity|]. split; [|vm_compute; reflexivity].
  assert (exists n, pool_steps demo_work 1 (elsewhere fst_lens demo_acked) n (start [demo_job; demo_job] demo_start)
    (mkPool [] [] [(demo_job, inl DeliveryAck); (demo_job, inl DeliveryAck)] after_second)) as [n Hs].
  { assert (forall w, elsewhere fst_lens demo_acked w w) as Henv by done.
    assert (forall n1 n2 p1 p2 p3, pool_steps demo_work 1 (elsewhere fst_lens demo_acked) n1 p1 p2 ->
      pool_steps demo_work 1 (elsewhere fst_lens demo_acked) n2 p2 p3 -> pool_steps demo_work 1 (elsewhere fst_lens demo_acked) (n1 + n2) p1 p3) as Htrans.
    { induction 1 as [p|n p1 p2' p2'' Hp _ IH]; [done|]. intros H2. eapply steps_more; [exact Hp|by apply IH]. }
    eexists. eapply steps_more; [apply step_take; cbn; lia|]. eapply Htrans.
    { apply (run_alone demo_work 1 _ [demo_job] demo_job (inl DeliveryAck) [] (demo_work demo_job) demo_start after_first Henv).
      vm_compute. reflexivity. }
    eapply steps_more; [apply step_take; cbn; lia|].
    apply (run_alone demo_work 1 _ [] demo_job (inl DeliveryAck) [(demo_job, inl DeliveryAck)] (demo_work demo_job) after_first after_second Henv).
    vm_compute. reflexivity. }
  eapply (consumer_decides_once fst_lens (ret "t"%py) demo_codec (fun _ => "0"%py) (fun _ => false) (fun _ => false) demo_observation []
    demo_acked demo_tag) with (js := [demo_job; demo_job]) (w := demo_start) (p := mkPool [] [] _ after_second) (n := n); try done.
  - intros r w. unfold quarantine_add, consumer_quarantine, zoom. by destruct (quarantine_add _ _).
  - assert (job_ok fst_lens demo_acked demo_tag demo_job) as Hj; [|do 2 (constructor; [exact Hj|]); constructor].
    split; [|done]. split; try done. by intros context w dec w' [= <- _].
Defined.
End Witness.
