(* ===== verification/Checkpoints.v ===== *)
(** * Checkpoints ([src/pytitect/checkpoints.py])

    The compare-and-set checkpoint store, the coordinators that apply a batch of items and
    advance the checkpoint with it (atomic) or after it (deferred), and the two conformance
    harnesses. *)
From Stdlib Require Import ZArith Lia.
From stdpp Require Import base list gmap.
From S2P Require Import Prelude Core.

(** ** Data *)

(** [Checkpoint.value], a byte string. *)
Record Checkpoint := mkCheckpoint { value : list N }.

#[export] Instance Checkpoint_eq_dec : EqDecision Checkpoint.
Proof. solve_decision. Defined.

Definition Checkpoint_new {S} (v : list N) : M exn S Checkpoint :=
  raise_if (bool_decide (v = [])) (ValueError "checkpoint must be non-empty") ;;;
  ret (mkCheckpoint v).

Record CheckpointItem (P : Type) := mkItem {
  checkpoint : Checkpoint;
  payload : P
}.
Arguments mkItem {P}.
Arguments checkpoint {P}.
Arguments payload {P}.

Definition _validate_stream {S} (stream : pystr) : M exn S unit :=
  raise_if (str_empty stream) (ValueError "stream must not be empty").

Class CheckpointStore (W : Type) := {
  port_load : pystr -> M exn W (option Checkpoint);
  port_load_for_update : pystr -> M exn W (option Checkpoint);
  port_advance : pystr -> option Checkpoint -> Checkpoint -> M exn W bool
}.

(** ** The in-memory store *)

Record store := mkStore {
  capacity : Z;
  values : dict pystr Checkpoint
}.

Definition InMemoryCheckpointStore_new {S} (cap : Z) : M exn S store :=
  raise_if (cap <=? 0)%Z (ValueError "capacity must be a positive integer") ;;;
  ret (mkStore cap []).

Definition load (stream : pystr) : M exn store (option Checkpoint) :=
  _validate_stream stream ;;;
  gets (fun st => d_get stream (values st)).

Definition load_for_update (stream : pystr) : M exn store (option Checkpoint) := load stream.

Definition advance (stream : pystr) (expected : option Checkpoint) (c : Checkpoint) :
    M exn store bool :=
  _validate_stream stream ;;;
  let! st := get in
  if negb (bool_decide (d_get stream (values st) = expected)) then ret false
  else
    raise_if (negb (d_mem stream (values st)) && (capacity st <=? d_len (values st))%Z)
      (OverflowError "checkpoint capacity exceeded") ;;;
    modify (fun st => mkStore (capacity st) (d_set stream c (values st))) ;;;
    ret true.

#[export] Instance InMemory_CheckpointStore : CheckpointStore store := {
  port_load := load;
  port_load_for_update := load_for_update;
  port_advance := advance
}.

(** The store as one component of a larger state. *)
Definition zoomed_CheckpointStore {W S} (l : lens W S) `{!CheckpointStore S} : CheckpointStore W := {|
  port_load := fun stream => zoom l (port_load stream);
  port_load_for_update := fun stream => zoom l (port_load_for_update stream);
  port_advance := fun stream expected c => zoom l (port_advance stream expected c)
|}.

(** ** Coordinators *)

Record CheckpointBatchResult := mkBatchResult {
  applied : Z;
  previous : option Checkpoint;
  pending : option Checkpoint
}.

(** [StaleCheckpoint], also the argument of [_RollbackStaleCheckpoint]. *)
Record StaleCheckpoint := mkStale {
  stale_previous : option Checkpoint;
  attempted : option Checkpoint
}.

Inductive AtomicCheckpointResult :=
  | AtomicCheckpointConfirmed (batch : CheckpointBatchResult)
  | AtomicCheckpointStale (stale : StaleCheckpoint).

Inductive DeferredCheckpointResult :=
  | StateCommittedCheckpointConfirmed (batch : CheckpointBatchResult)
  | StateCommittedCheckpointUnconfirmed (batch : CheckpointBatchResult).

(** [_matching_aliases]: the [using] attributes of store and transaction, when they have one. *)
Definition _matching_aliases {S} (store_alias transaction_alias : option pystr) (operation : pystr) :
    M exn S unit :=
  raise_if
    (match store_alias, transaction_alias with
     | Some a, Some b => negb (bool_decide (a = b))
     | _, _ => false
     end)
    (ValueError (str_app operation " store and transaction must use exactly one alias")).

Section Coordinators.
Context {W P : Type} `{!CheckpointStore W, !Atomic W}.
Implicit Types items : list (CheckpointItem P).

(** The loop over the items: apply each payload, keep the last checkpoint and the count. *)
Definition apply_items (apply_state : P -> M exn W unit) items :
    M exn W (option Checkpoint * Z) :=
  for_each items (None, 0) (fun acc item =>
    apply_state (payload item) ;;;
    ret (Some (checkpoint item), acc.2 + 1)).

(** [AtomicCheckpointCoordinator.apply]. *)
Definition atomic_apply (stream : pystr) items (apply_state : P -> M exn W unit) :
    M exn W AtomicCheckpointResult :=
  _validate_stream stream ;;;
  catch
    (atomic
      (let! prev := embed (port_load_for_update stream) in
       let! '(last, n) := embed (apply_items apply_state items) in
       match last with
       | None => ret (AtomicCheckpointConfirmed (mkBatchResult n prev last))
       | Some c =>
           let! ok := embed (port_advance stream prev c) in
           if ok then ret (AtomicCheckpointConfirmed (mkBatchResult n prev last))
           else raise (inr (mkStale prev last))
       end))
    (fun stale => ret (AtomicCheckpointStale stale)).

(** [DeferredCheckpointCoordinator.apply]. *)
Definition deferred_apply (stream : pystr) items (apply_state : P -> M exn W unit) :
    M exn W DeferredCheckpointResult :=
  _validate_stream stream ;;;
  let! prev := port_load stream in
  let! '(last, n) := atomic (apply_items apply_state items) in
  let batch := mkBatchResult n prev last in
  match last with
  | None => ret (StateCommittedCheckpointConfirmed batch)
  | Some c =>
      let! ok := port_advance stream prev c in
      ret (if ok then StateCommittedCheckpointConfirmed batch
           else StateCommittedCheckpointUnconfirmed batch)
  end.
End Coordinators.

(** ** Conformance harnesses *)

Section StoreHarness.
Context {W : Type} `{!CheckpointStore W}.

Definition expect (condition : bool) (message : pystr) : M exn W unit :=
  raise_if (negb condition) (AssertionError message).

(** [b"one"] and [b"two"]. *)
Definition bytes_one : list N := [111; 110; 101]%N.
Definition bytes_two : list N := [116; 119; 111]%N.

Definition exercise : M exn W unit :=
  let! first := Checkpoint_new bytes_one in
  let! second := Checkpoint_new bytes_two in
  let! l1 := port_load "stream" in
  let! l2 := (if bool_decide (l1 = None) then port_load_for_update "stream" else ret l1) in
  expect (bool_decide (l2 = None)) "a new checkpoint identity must be absent" ;;;
  let! a1 := port_advance "stream" None first in
  expect a1 "an absent checkpoint must accept a None CAS" ;;;
  let! l3 := port_load "stream" in
  let! l4 := (if bool_decide (l3 = Some first) then port_load_for_update "stream" else ret l3) in
  expect (bool_decide (l4 = Some first)) "a committed checkpoint must be loadable" ;;;
  let! a2 := port_advance "stream" None second in
  expect (negb a2) "a stale checkpoint CAS must fail" ;;;
  let! a3 := port_advance "stream" (Some first) second in
  expect a3 "the current checkpoint CAS must succeed" ;;;
  let! l5 := port_load "stream" in
  expect (bool_decide (l5 = Some second)) "checkpoint advancement must be durable".
End StoreHarness.

Section BoundaryHarness.
(** A boundary with commit callbacks over [W]; [callbacks] is the list the harness's
    callbacks append to. *)
Context {W : Type} `{!Atomic W}.
Variable on_commit : forall {E}, M exn W unit -> M E W unit.
Variable callbacks : lens W (list pystr).

Definition append (text : pystr) : M exn W unit := zoom callbacks (modify (fun l => l ++ [text])).

(** [RollbackProbe]. *)
Definition boundary_exercise : M exn W unit :=
  atomic
    (on_commit (append "committed") ;;;
     let! l := gets (view callbacks) in
     expect (bool_decide (l = [])) "on_commit callbacks must not run inside the transaction") ;;;
  let! l := gets (view callbacks) in
  expect (bool_decide (l = ["committed"%py])) "on_commit callbacks must run after a successful commit" ;;;
  catch (R := unit)
    (atomic (on_commit (append "rolled-back") ;;; raise (inr tt)))
    (fun _ => ret tt) ;;;
  let! l := gets (view callbacks) in
  expect (bool_decide (l = ["committed"%py])) "on_commit callbacks must be discarded on rollback".
End BoundaryHarness.

(** ** What the coordinators guarantee *)

Lemma advance_true stream expected c st st' : advance stream expected c st = (Ok true, st') ->
  d_get stream (values st) = expected /\ st' = mkStore (capacity st) (d_set stream c (values st)).
Proof.
  unfold advance, _validate_stream. intros H. run H. split; [|done].
  match goal with E : negb (bool_decide _) = false |- _ => apply negb_false_iff, bool_decide_eq_true in E end.
  done.
Qed.

Lemma advance_false stream expected c st st' : advance stream expected c st = (Ok false, st') ->
  d_get stream (values st) <> expected /\ st' = st.
Proof.
  unfold advance, _validate_stream. intros H. run H. split; [|done].
  match goal with E : negb (bool_decide _) = true |- _ => apply negb_true_iff, bool_decide_eq_false in E end.
  done.
Qed.

Section ItemProofs.
Context {W P : Type}.
Implicit Types (items : list (CheckpointItem P)) (f : P -> M exn W unit).

(** The payloads applied in order, the state of the last one. *)
Fixpoint apply_payloads f (ps : list P) (w : W) : option W :=
  match ps with
  | [] => Some w
  | p :: ps' => match f p w with (Ok _, w') => apply_payloads f ps' w' | (Raise _, _) => None end
  end.

Lemma apply_payloads_app f ps qs w :
  apply_payloads f (ps ++ qs) w =
    match apply_payloads f ps w with Some w' => apply_payloads f qs w' | None => None end.
Proof. revert w. induction ps as [|p ps IH]; intros w; cbn; [done|]. by destruct (f p w) as [[[]|e] w']. Qed.

Lemma apply_items_runs f items w r w' : apply_items f items w = (Ok r, w') ->
  r = (checkpoint <$> last items, Z.of_nat (length items)) /\
  apply_payloads f (payload <$> items) w = Some w'.
Proof.
  unfold apply_items.
  assert (forall l acc w, for_each l acc (fun (acc : option Checkpoint * Z) item =>
      f (payload item) ;;; ret (Some (checkpoint item), acc.2 + 1)) w = (Ok r, w') ->
    r = (match last l with Some i => Some (checkpoint i) | None => acc.1 end, acc.2 + Z.of_nat (length l)) /\
    apply_payloads f (payload <$> l) w = Some w') as Hgen.
  { induction l as [|i l IH]; intros acc w0 Hrun.
    - inversion Hrun; subst. split; [|done]. destruct r as [c n]. cbn. f_equal. lia.
    - cbn [for_each] in Hrun. apply bind_ok in Hrun as (acc1 & w1 & H1 & Hrun).
      apply bind_ok in H1 as ([] & w2 & Hf & H1). inversion H1; subst.
      apply IH in Hrun as [-> Hp]. cbn [fmap list_fmap apply_payloads]. rewrite Hf. split; [|done].
      rewrite last_cons. cbn [fst snd length]. f_equal; [by destruct (last l)|lia]. }
  intros Hrun. apply Hgen in Hrun as [-> Hp]. split; [|done].
  destruct (last items); reflexivity.
Qed.

Lemma apply_items_raises f items w e w' : apply_items f items w = (Raise e, w') ->
  apply_payloads f (payload <$> items) w = None.
Proof.
  unfold apply_items. generalize (@None Checkpoint, 0). revert w.
  induction items as [|i l IH]; intros w acc Hrun; [done|].
  cbn [for_each] in Hrun. cbn. unfold bind at 1 2 in Hrun.
  destruct (f (payload i) w) as [[[]|e1] w1]; cbn in Hrun; [by eapply IH|done].
Qed.
End ItemProofs.

(** *** Exactly once *)

Section ExactlyOnce.
Context {P A : Type} `{!Atomic (store * A)} `{!AtomicLaws (store * A)}.
Variable stream : pystr.
(** The ordered input and the effect of one payload on the consumer's state. *)
Variable log : list (CheckpointItem P).
Variable effect : P -> M exn A unit.
Hypothesis distinct : NoDup (checkpoint <$> log).

#[local] Instance once_store : CheckpointStore (store * A) := zoomed_CheckpointStore fst_lens.

(** The part of the input after a checkpoint. *)
Fixpoint after (c : Checkpoint) (l : list (CheckpointItem P)) : list (CheckpointItem P) :=
  match l with
  | [] => []
  | i :: l' => if decide (checkpoint i = c) then l' else after c l'
  end.
Definition resume (c : option Checkpoint) : list (CheckpointItem P) :=
  match c with None => log | Some c => after c log end.

(** One attempt reads up to [size] items after the stored checkpoint; its [body] performs
    the effect of a payload or raises (a fault, a crash of the worker). *)
Record attempt := mkAttempt { size : nat; body : P -> M exn A unit }.

Definition faithful (a : attempt) : Prop := forall p s,
  body a p s = effect p s \/ exists e s', body a p s = (Raise e, s').

Definition run_attempt (w : store * A) (a : attempt) : store * A :=
  snd (atomic_apply stream (take (size a) (resume (d_get stream (values (fst w)))))
         (fun p => zoom snd_lens (body a p)) w).

(** State and checkpoint agree: the state is the effect of the input up to the checkpoint. *)
Definition consistent (a0 : A) (w : store * A) : Prop :=
  exists k, d_get stream (values (fst w)) = checkpoint <$> last (take k log) /\
    apply_payloads effect (payload <$> take k log) a0 = Some (snd w).

Lemma after_last k i : last (take k log) = Some i -> after (checkpoint i) log = drop k log.
Proof.
  revert k distinct. induction log as [|j l IH]; intros k Hd Hl; [by rewrite take_nil in Hl|].
  cbn in Hd. apply NoDup_cons in Hd as [Hj Hd]. destruct k as [|k]; [done|]. cbn in Hl |- *.
  rewrite last_cons in Hl. destruct (last (take k l)) as [i'|] eqn:Hk.
  - simplify_eq. rewrite decide_False; [by eapply IH|]. intros Heq. apply Hj. rewrite Heq.
    apply list_elem_of_fmap. exists i. split; [done|].
    apply last_Some_elem_of in Hk. apply elem_of_take in Hk as (n & Hn & _). by eapply list_elem_of_lookup_2.
  - simplify_eq. rewrite decide_True by done. apply last_None in Hk.
    destruct k; [by rewrite drop_0|]. destruct l; [by rewrite drop_nil|done].
Qed.

Lemma resume_prefix k : exists k', take k' log = take k log /\
  resume (checkpoint <$> last (take k log)) = drop k' log.
Proof.
  destruct (last (take k log)) as [i|] eqn:Hl; cbn.
  - exists k. split; [done|by apply after_last].
  - exists 0%nat. apply last_None in Hl. by rewrite Hl.
Qed.

Lemma faithful_payloads a ps s w st : faithful a ->
  apply_payloads (fun p => zoom (W := store * A) snd_lens (body a p)) ps (st, s) = Some w ->
  exists s', w = (st, s') /\ apply_payloads effect ps s = Some s'.
Proof.
  intros Hf. revert s. induction ps as [|p ps IH]; intros s Hrun; cbn in *; [simplify_eq; by exists s|].
  unfold zoom in Hrun at 1. cbn in Hrun. destruct (Hf p s) as [Heq|(e & s1 & Heq)]; rewrite Heq in Hrun; [|done].
  destruct (effect p s) as [[[]|e] s1]; [|done]. by apply IH.
Qed.

(** Applying the next items extends the consistent prefix. *)
Lemma consistent_extend a0 st s k n s' :
  d_get stream (values st) = checkpoint <$> last (take k log) ->
  apply_payloads effect (payload <$> take k log) a0 = Some s ->
  let batch := take n (resume (d_get stream (values st))) in
  apply_payloads effect (payload <$> batch) s = Some s' ->
  exists k', apply_payloads effect (payload <$> take k' log) a0 = Some s' /\
    last (take k' log) = match last batch with Some i => Some i | None => last (take k log) end.
Proof.
  intros Hc Hs batch Hp. destruct (resume_prefix k) as (k' & Hk & Hr).
  unfold batch in *. rewrite Hc, Hr in *. exists (k' + n)%nat.
  rewrite <- take_take_drop, Hk. rewrite fmap_app, apply_payloads_app, Hs. split; [done|].
  by rewrite last_app.
Qed.

(** A confirmed call: the payloads were applied and the checkpoint is the last item's. *)
Lemma atomic_apply_confirmed {B} `{!Atomic B, !AtomicLaws B, !CheckpointStore B} items (f : P -> M exn B unit) w r w' :
  atomic_apply stream items f w = (r, w') ->
  w' = w \/ exists prev n w1 w2,
    port_load_for_update stream w = (Ok prev, w1) /\
    apply_items f items w1 = (Ok (checkpoint <$> last items, n), w2) /\
    r = Ok (AtomicCheckpointConfirmed (mkBatchResult n prev (checkpoint <$> last items))) /\
    match last items with
    | None => w' = w2
    | Some i => port_advance stream prev (checkpoint i) w2 = (Ok true, w')
    end.
Proof.
  unfold atomic_apply, _validate_stream, catch. unfold bind at 1, raise_if.
  destruct (str_empty stream); cbn; [intros [= <- <-]; by left|]. rewrite atomic_runs.
  unfold bind at 1, embed at 1. destruct (port_load_for_update stream w) as [[prev|e] w1]; cbn;
    [|intros [= <- <-]; by left].
  unfold bind at 1, embed at 1. destruct (apply_items f items w1) as [[x|e] w2] eqn:Hit; cbn;
    [|intros [= <- <-]; by left].
  pose proof (proj1 (apply_items_runs _ _ _ _ _ Hit)) as ->.
  destruct (last items) as [i|] eqn:Hl; cbn.
  - unfold bind at 1, embed at 1. destruct (port_advance stream prev (checkpoint i) w2) as [[[]|e] w3] eqn:Ha;
      cbn; intros [= <- <-]; [right|by left..]. by exists prev, (Z.of_nat (length items)), w1, w2.
  - intros [= <- <-]. right. by exists prev, (Z.of_nat (length items)), w1, w2.
Qed.

Lemma run_attempt_consistent a0 w a : faithful a -> consistent a0 w -> consistent a0 (run_attempt w a).
Proof.
  intros Hf Hw. pose proof Hw as (k & Hc & Hs). destruct w as [st s]. cbn [fst snd] in *.
  unfold run_attempt. cbn [fst]. set (batch := take (size a) _).
  destruct (atomic_apply stream batch _ (st, s)) as [r w'] eqn:Hrun. cbn [snd].
  apply atomic_apply_confirmed in Hrun as [->|(prev & n & w1 & w2 & Hload & Hit & -> & Hadv)]; [done|].
  assert (w1 = (st, s) /\ prev = d_get stream (values st)) as [-> ->].
  { cbn in Hload. unfold zoom, load_for_update, load, _validate_stream in Hload. monad_unfold. cbn in Hload.
    destruct (str_empty stream); cbn in Hload; by simplify_eq. }
  apply apply_items_runs in Hit as [_ Hp]. apply faithful_payloads in Hp as (s' & -> & Hp); [|done].
  destruct (consistent_extend a0 st s k (size a) s' Hc Hs Hp) as (k' & Hk & Hlast). fold batch in Hlast.
  destruct (last batch) as [i|] eqn:Hl.
  - cbn in Hadv. unfold zoom in Hadv. cbn in Hadv.
    destruct (advance stream _ (checkpoint i) st) as [[[]|e] st'] eqn:Ha; [|done..].
    apply advance_true in Ha as [_ ->]. simplify_eq. exists k'. cbn. by rewrite d_get_set_eq, Hlast.
  - subst w'. exists k'. cbn. by rewrite Hlast.
Qed.

(** C19. The atomic coordinator processes every item of an ordered input exactly once,
    whatever fails: after any sequence of attempts, each resuming after the stored checkpoint,
    of any size and with faults at any point, the consumer's state is the effect of exactly
    the items up to the stored checkpoint, in order, each applied once. *)
Theorem atomic_checkpoint_exactly_once a0 cap attempts :
  Forall faithful attempts ->
  consistent a0 (fold_left run_attempt attempts (mkStore cap [], a0)).
Proof.
  intros Hall.
  assert (consistent a0 (mkStore cap [], a0)) as Hw by (exists 0%nat; by rewrite take_0).
  revert Hw. generalize (mkStore cap [], a0). induction Hall as [|a l Ha _ IH]; intros w Hw; cbn; [done|].
  by apply IH, run_attempt_consistent.
Qed.
End ExactlyOnce.

(** *** Deferred advancement *)

Section Deferred.
Context {P A : Type} `{!Atomic (store * A)} `{!AtomicLaws (store * A)}.
#[local] Instance deferred_store : CheckpointStore (store * A) := zoomed_CheckpointStore fst_lens.

(** The advance after the commit. *)
Lemma deferred_advance stream prev c (batch : CheckpointBatchResult) (w1 w' : store * A) r :
  str_empty stream = false ->
  (let! ok := port_advance stream prev c in
   ret (if ok then StateCommittedCheckpointConfirmed batch
        else StateCommittedCheckpointUnconfirmed batch)) w1 = (r, w') ->
  snd w' = snd w1 /\
  ((d_get stream (values (fst w1)) = prev /\ r = Ok (StateCommittedCheckpointConfirmed batch) /\
    values (fst w') = d_set stream c (values (fst w1))) \/
   (d_get stream (values (fst w1)) <> prev /\ w' = w1 /\
    r = Ok (StateCommittedCheckpointUnconfirmed batch)) \/
   (prev = None /\ w' = w1 /\ r = Raise (OverflowError "checkpoint capacity exceeded") /\
    capacity (fst w1) <= d_len (values (fst w1)))).
Proof.
  intros Hne. destruct w1 as [st a]. unfold bind at 1. cbn [port_advance deferred_store zoomed_CheckpointStore].
  unfold zoom. cbn. destruct (advance stream prev c st) as [[[]|e] st'] eqn:Ha; cbn; intros [= <- <-]; cbn.
  - apply advance_true in Ha as [? ->]. auto.
  - apply advance_false in Ha as [? ->]. split; [done|right; left]. auto.
  - unfold advance, _validate_stream in Ha. monad_unfold. rewrite Hne in Ha. cbn in Ha.
    case_bool_decide as Hp; cbn in Ha; [|done].
    destruct (d_mem stream (values st)) eqn:Hm; cbn in Ha; [done|].
    destruct (capacity st <=? _) eqn:Hcap; cbn in Ha; [|done]. simplify_eq. split; [done|right; right].
    apply d_mem_false in Hm. time_facts. auto.
Qed.

(** The deferred coordinator never puts the checkpoint ahead of the state. If an item
    fails, everything is rolled back; otherwise the items' effects are committed, and the
    checkpoint is set to the last item exactly when it still has the value read before the
    batch. When another worker moved it meanwhile, the answer is unconfirmed and the other
    worker's checkpoint stays. [f] may act on the whole state, so it also stands for what
    concurrent workers do during the batch. *)
Theorem deferred_checkpoint_follows stream items (f : P -> M exn (store * A) unit) w r w' :
  str_empty stream = false ->
  deferred_apply stream items f w = (r, w') ->
  let prev := d_get stream (values (fst w)) in
  match apply_payloads f (payload <$> items) w with
  | None => w' = w /\ exists e, r = Raise e
  | Some w1 =>
      match last items with
      | None => w' = w1 /\ r = Ok (StateCommittedCheckpointConfirmed (mkBatchResult 0 prev None))
      | Some i =>
          let batch := mkBatchResult (Z.of_nat (length items)) prev (Some (checkpoint i)) in
          snd w' = snd w1 /\
          ((d_get stream (values (fst w1)) = prev /\ r = Ok (StateCommittedCheckpointConfirmed batch) /\
            values (fst w') = d_set stream (checkpoint i) (values (fst w1))) \/
           (d_get stream (values (fst w1)) <> prev /\ w' = w1 /\
            r = Ok (StateCommittedCheckpointUnconfirmed batch)) \/
           (prev = None /\ w' = w1 /\ r = Raise (OverflowError "checkpoint capacity exceeded") /\
            capacity (fst w1) <= d_len (values (fst w1))))
      end
  end.
Proof.
  intros Hne Hrun prev. unfold deferred_apply, _validate_stream in Hrun.
  erewrite bind_run in Hrun; [|unfold raise_if; rewrite Hne; reflexivity].
  erewrite bind_run in Hrun; [|cbn; unfold zoom; cbn; unfold load, _validate_stream; monad_unfold;
    rewrite Hne; cbn; reflexivity].
  fold prev in Hrun. rewrite <- surjective_pairing in Hrun.
  unfold bind at 1 in Hrun. rewrite atomic_runs in Hrun.
  destruct (apply_items f items w) as [[x|e] w1] eqn:Hit.
  - apply apply_items_runs in Hit as [-> Hp]. rewrite Hp.
    destruct (last items) as [i|] eqn:Hl; cbn [fmap option_fmap option_map] in Hrun.
    + eapply deferred_advance; [done|]. exact Hrun.
    + inversion Hrun; subst. apply last_None in Hl as ->. done.
  - rewrite (apply_items_raises _ _ _ _ _ Hit). inversion Hrun; subst. eauto.
Qed.
End Deferred.

(** ** The conformance harnesses *)

(** The reference store passes [CheckpointStoreHarness.exercise]. *)
Example checkpoint_harness_passes : fst (exercise (mkStore 10000 [])) = Ok tt.
Proof. vm_compute. reflexivity. Qed.

(** A boundary that queues callbacks while a transaction is open, runs them on commit and
    drops them on rollback, passes [TransactionBoundaryHarness.exercise]. The queue is the
    number of pending callbacks of each text, the second component the harness's list. *)
Section QueuedBoundary.
Definition queue : Type := list (list pystr -> list pystr).
Definition queued_atomic : Atomic (queue * list pystr) := fun E A m w =>
  match m ([], snd w) with
  | (Ok a, (q, l)) => (Ok a, (fst w, fold_left (fun l cb => cb l) q l))
  | (Raise e, (_, l)) => (Raise e, (fst w, l))
  end.
Definition queued_on_commit {E} (cb : M exn (queue * list pystr) unit) : M E (queue * list pystr) unit :=
  modify (fun w => (fst w ++ [fun l => snd (snd (cb ([], l)))], snd w)).

Example boundary_harness_passes :
  fst (@boundary_exercise _ queued_atomic (@queued_on_commit) snd_lens ([], [])) = Ok tt.
Proof. vm_compute. reflexivity. Qed.
End QueuedBoundary.

(** ** Concrete runs *)

Section Witnesses.
#[local] Existing Instance snapshot_atomic.
#[local] Existing Instance snapshot_atomic_laws.
#[local] Existing Instance deferred_store.

Definition demo_log : list (CheckpointItem Z) :=
  [mkItem (mkCheckpoint [1%N]) 10; mkItem (mkCheckpoint [2%N]) 20; mkItem (mkCheckpoint [3%N]) 30].
Definition demo_effect (p : Z) : M exn (list Z) unit := modify (fun l => l ++ [p]).
(** A worker that dies at the payload 30. *)
Definition demo_crash (p : Z) : M exn (list Z) unit :=
  if decide (p = 30) then raise (RuntimeError "crash") else demo_effect p.
Definition demo_attempts : list (attempt (P := Z) (A := list Z)) :=
  [mkAttempt 1 demo_effect; mkAttempt 9 demo_crash; mkAttempt 9 demo_effect].

(** The crash rolled back the payload 20 as well; the last attempt applies it once. *)
Example demo_exactly_once :
  snd (fold_left (run_attempt "s" demo_log) demo_attempts (mkStore 5 [], [])) = [10; 20; 30].
Proof. vm_compute. reflexivity. Qed.

Lemma atomic_checkpoint_exactly_once_witness :
  consistent "s" demo_log demo_effect []
    (fold_left (run_attempt "s" demo_log) demo_attempts (mkStore 5 [], [])).
Proof.
  apply (atomic_checkpoint_exactly_once "s" demo_log demo_effect).
  - apply (bool_decide_unpack _). reflexivity.
  - unfold demo_attempts. rewrite !Forall_cons. split_and!; [by left| |by left|constructor].
    intros p s. cbn. unfold demo_crash. case_decide; [right; cbn; eauto|by left].
Defined.

(** Another worker moves the checkpoint during the batch. *)
Definition demo_meddle (p : Z) : M exn (store * list Z) unit :=
  modify (fun w => (mkStore 5 [("s"%py, mkCheckpoint [9%N])], snd w ++ [p])).

Lemma deferred_checkpoint_follows_witness :
  deferred_apply "s" demo_log demo_meddle (mkStore 5 [], []) =
    (Ok (StateCommittedCheckpointUnconfirmed (mkBatchResult 3 None (Some (mkCheckpoint [3%N])))),
     (mkStore 5 [("s"%py, mkCheckpoint [9%N])], [10; 20; 30])) /\
  snd (snd (deferred_apply "s" demo_log demo_meddle (mkStore 5 [], []))) = [10; 20; 30].
Proof.
  split; [vm_compute; reflexivity|].
  exact (proj1 (deferred_checkpoint_follows "s" demo_log demo_meddle (mkStore 5 [], []) _ _
    eq_refl (surjective_pairing _))).
Defined.
End Witnesses.
