(* ===== verification/Receipts.v ===== *)
(** * Operation receipts ([src/pytitect/receipts.py])

    The receipt state machine, the compare-and-set receipt store, the reconciler of uncertain
    receipts, purge and the conformance harness. Results and metadata values are types with
    decidable equality, on which Python's [==] is taken to be equality. *)
From Stdlib Require Import ZArith Lia.
From stdpp Require Import base list gmap.
From S2P Require Import Prelude Core Maintenance.

(** ** Data *)

Inductive ReceiptState := ACCEPTED | PROCESSING | COMPLETED | REJECTED | CONFLICTED | UNCERTAIN.

#[export] Instance ReceiptState_eq_dec : EqDecision ReceiptState.
Proof. solve_decision. Defined.

Inductive ReceiptKind := MUTATION | COMMAND | RUN | OPERATION | TERMINAL_BOUNDARY.

#[export] Instance ReceiptKind_eq_dec : EqDecision ReceiptKind.
Proof. solve_decision. Defined.

(** [_TRANSITIONS]. *)
Definition _TRANSITIONS (s : ReceiptState) : list ReceiptState :=
  match s with
  | ACCEPTED => [PROCESSING; REJECTED; CONFLICTED; UNCERTAIN]
  | PROCESSING => [COMPLETED; REJECTED; CONFLICTED; UNCERTAIN]
  | COMPLETED | REJECTED | CONFLICTED | UNCERTAIN => []
  end.

Definition _utc {S} (value : datetime) : M exn S unit :=
  check_utc value "receipt timestamps must be timezone-aware UTC".

(** [typed] tells an instance of the kind's own subclass ([MutationReceipt], ...) from one of
    [Receipt] itself: dataclass equality distinguishes them. *)
Record Receipt (R V : Type) := mkReceipt {
  typed : bool;
  receipt_id : OpaqueId;
  kind : ReceiptKind;
  state : ReceiptState;
  created_at : datetime;
  updated_at : datetime;
  result_ : option R;
  metadata : gmap pystr V
}.
Arguments mkReceipt {R V}.
Arguments typed {R V}.
Arguments receipt_id {R V}.
Arguments kind {R V}.
Arguments state {R V}.
Arguments created_at {R V}.
Arguments updated_at {R V}.
Arguments result_ {R V}.
Arguments metadata {R V}.

#[export] Instance Receipt_eq_dec {R V} `{EqDecision R, EqDecision V} : EqDecision (Receipt R V).
Proof. solve_decision. Defined.

(** The constructor with [__post_init__], also run by [dataclasses.replace]. *)
Definition Receipt_new {R V S} (t : bool) (id : OpaqueId) (k : ReceiptKind) (s : ReceiptState)
    (created updated : datetime) (r : option R) (meta : gmap pystr V) : M exn S (Receipt R V) :=
  _utc created ;;;
  _utc updated ;;;
  raise_if (dt_ltb updated created) (ValueError "updated_at cannot precede created_at") ;;;
  raise_if (64 <? Z.of_nat (Datatypes.length (map_to_list meta)))%Z
    (ValueError "receipt metadata is limited to 64 items") ;;;
  ret (mkReceipt t id k s created updated r meta).

(** [MutationReceipt], [CommandReceipt], ...: the kind is fixed by the class. *)
Definition TypedReceipt_new {R V S} (k : ReceiptKind) (id : OpaqueId) (s : ReceiptState)
    (created updated : datetime) : M exn S (Receipt R V) :=
  Receipt_new true id k s created updated None ∅.

(** [replace(receipt, state=..., updated_at=..., result=...)]. *)
Definition replace_receipt {R V S} (rc : Receipt R V) (s : ReceiptState) (at_ : datetime)
    (r : option R) : M exn S (Receipt R V) :=
  Receipt_new (typed rc) (receipt_id rc) (kind rc) s (created_at rc) at_ r (metadata rc).

Inductive TransitionResult (R V : Type) :=
  | ReceiptTransitioned (receipt : Receipt R V)
  | InvalidTransition (source target : ReceiptState) (reason : pystr).
Arguments ReceiptTransitioned {R V}.
Arguments InvalidTransition {R V}.

(** [Receipt.transition]. *)
Definition transition {R V S} (rc : Receipt R V) (target : ReceiptState) (at_ : datetime)
    (r : option R) : M exn S (TransitionResult R V) :=
  _utc at_ ;;;
  if dt_ltb at_ (updated_at rc)
  then ret (InvalidTransition (state rc) target "transition timestamp moved backwards")
  else if negb (bool_decide (target ∈ _TRANSITIONS (state rc)))
  then ret (InvalidTransition (state rc) target "state transition is not allowed")
  else if bool_decide (target = COMPLETED) && bool_decide (r = None)
  then ret (InvalidTransition (state rc) target "completed receipts require a result")
  else
    let! rc' := replace_receipt rc target at_ r in
    ret (ReceiptTransitioned rc').

Class ReceiptStore (W R V : Type) := {
  port_get : OpaqueId -> M exn W (option (Receipt R V));
  port_add : Receipt R V -> M exn W bool;
  port_transition : Receipt R V -> Receipt R V -> M exn W bool;
  port_reconcile_uncertain : Receipt R V -> Receipt R V -> M exn W bool
}.

(** ** The in-memory store *)

Record store (R V : Type) := mkStore {
  capacity : Z;
  receipts : dict OpaqueId (Receipt R V)
}.
Arguments mkStore {R V}.
Arguments capacity {R V}.
Arguments receipts {R V}.

Definition InMemoryReceiptStore_new {R V S} (cap : Z) : M exn S (store R V) :=
  raise_if (cap <=? 0)%Z (ValueError "capacity must be a positive integer") ;;;
  ret (mkStore cap []).

Section InMemory.
Context {R V : Type} `{EqDecision R, EqDecision V}.
Implicit Types (rc target : Receipt R V) (st : store R V).

Definition set_receipts (d : dict OpaqueId (Receipt R V)) st : store R V := mkStore (capacity st) d.

Definition get_receipt (id : OpaqueId) : M exn (store R V) (option (Receipt R V)) :=
  gets (fun st => d_get id (receipts st)).

Definition add rc : M exn (store R V) bool :=
  let! st := get in
  if d_mem (receipt_id rc) (receipts st) then ret false
  else
    raise_if (capacity st <=? d_len (receipts st))%Z (OverflowError "receipt capacity exceeded") ;;;
    modify (fun st => set_receipts (d_set (receipt_id rc) rc (receipts st)) st) ;;;
    ret true.

(** The locked compare-and-set both updates end with. *)
Definition compare_and_set rc target : M exn (store R V) bool :=
  let! current := gets (fun st => d_get (receipt_id rc) (receipts st)) in
  if negb (bool_decide (current = Some rc)) then ret false
  else
    modify (fun st => set_receipts (d_set (receipt_id rc) target (receipts st)) st) ;;;
    ret true.

(** [InMemoryReceiptStore.transition]. *)
Definition store_transition rc target : M exn (store R V) bool :=
  let! proposed := transition rc (state target) (updated_at target) (result_ target) in
  match proposed with
  | ReceiptTransitioned rc' =>
      if bool_decide (rc' = target) then compare_and_set rc target else ret false
  | InvalidTransition _ _ _ => ret false
  end.

Definition confirmed_states : list ReceiptState := [COMPLETED; REJECTED; CONFLICTED].

Definition _valid_reconciliation rc target : bool :=
  bool_decide (state rc = UNCERTAIN)
  && bool_decide (state target ∈ confirmed_states)
  && bool_decide (receipt_id target = receipt_id rc)
  && bool_decide (kind target = kind rc)
  && bool_decide (created_at target = created_at rc)
  && dt_leb (updated_at rc) (updated_at target)
  && bool_decide (metadata target = metadata rc)
  && (negb (bool_decide (state target = COMPLETED)) || negb (bool_decide (result_ target = None))).

Definition reconcile_uncertain rc target : M exn (store R V) bool :=
  if negb (_valid_reconciliation rc target) then ret false
  else compare_and_set rc target.

Definition purgeable_states (plan : MaintenancePlan) : list ReceiptState :=
  confirmed_states ++ (if include_uncertain plan then [UNCERTAIN] else []).

Definition purge_selection (plan : MaintenancePlan) st : list (OpaqueId * Receipt R V) :=
  plan_selection (pair_compare Z.compare str_compare)
    (fun p => (dt_instant (updated_at p.2), opaque_value (receipt_id p.2))) plan
    (filter (fun p => state p.2 ∈ purgeable_states plan /\ dt_leb (updated_at p.2) (cutoff plan) = true)
      (receipts st)).

Definition purge (plan : MaintenancePlan) : M exn (store R V) MaintenanceSummary :=
  let! chosen := gets (purge_selection plan) in
  (if dry_run plan then ret tt
   else modify (fun st => set_receipts (d_pop_all ((fun p => receipt_id p.2) <$> chosen) (receipts st)) st)) ;;;
  plan_summary plan chosen.

#[export] Instance InMemory_ReceiptStore : ReceiptStore (store R V) R V := {
  port_get := get_receipt;
  port_add := add;
  port_transition := store_transition;
  port_reconcile_uncertain := reconcile_uncertain
}.
End InMemory.

(** ** Reconciliation *)

Inductive ReconciliationResult (R V : Type) :=
  | ConfirmedCompleted (receipt : Receipt R V)
  | ConfirmedRejected (receipt : Receipt R V)
  | ConfirmedConflicted (receipt : Receipt R V)
  | StillUncertain (receipt : option (Receipt R V)) (reason : pystr).
Arguments ConfirmedCompleted {R V}.
Arguments ConfirmedRejected {R V}.
Arguments ConfirmedConflicted {R V}.
Arguments StillUncertain {R V}.

Definition reconcile {W R V} `{!ReceiptStore W R V} (id : OpaqueId) (target : ReceiptState)
    (at_ : datetime) (r : option R) : M exn W (ReconciliationResult R V) :=
  _utc at_ ;;;
  raise_if (negb (bool_decide (target ∈ confirmed_states)))
    (ValueError "uncertain receipts may only reconcile to a confirmed terminal state") ;;;
  let! current := port_get id in
  match current with
  | Some rc =>
      if negb (bool_decide (state rc = UNCERTAIN))
      then ret (StillUncertain current "receipt is absent or no longer uncertain")
      else if dt_ltb at_ (updated_at rc)
      then ret (StillUncertain current "reconciliation timestamp moved backwards")
      else
        raise_if (bool_decide (target = COMPLETED) && bool_decide (r = None))
          (ValueError "completed reconciliation requires a result") ;;;
        let! reconciled := replace_receipt rc target at_ r in
        let! ok := port_reconcile_uncertain rc reconciled in
        if negb ok
        then
          let! now_current := port_get id in
          ret (StillUncertain now_current "receipt changed concurrently")
        else if bool_decide (target = COMPLETED) then ret (ConfirmedCompleted reconciled)
        else if bool_decide (target = REJECTED) then ret (ConfirmedRejected reconciled)
        else ret (ConfirmedConflicted reconciled)
  | None => ret (StillUncertain current "receipt is absent or no longer uncertain")
  end.

(** ** The conformance harness *)

Section Harness.
Context {W R V : Type} `{!ReceiptStore W R V, EqDecision R, EqDecision V}.

Definition receipt_expect (condition : bool) (message : pystr) : M exn W unit :=
  raise_if (negb condition) (AssertionError message).

Definition exercise (value : R) (now : datetime) : M exn W unit :=
  let! accepted_id := OpaqueId_new "accepted" in
  let! accepted := TypedReceipt_new MUTATION accepted_id ACCEPTED now now in
  let! a1 := port_add accepted in
  let! a2 := (if a1 then port_add accepted else ret true) in
  receipt_expect (negb a2) "receipt insertion must be unique" ;;;
  let! g1 := port_get (receipt_id accepted) in
  receipt_expect (bool_decide (g1 = Some accepted)) "an inserted receipt must be loadable" ;;;
  let! later := lift (dt_add now (seconds 1)) in
  let! transitioned := transition accepted PROCESSING later None in
  match transitioned with
  | InvalidTransition _ _ _ => raise (AssertionError "the harness processing transition must be valid")
  | ReceiptTransitioned processing =>
      let! t1 := port_transition accepted processing in
      receipt_expect t1 "a current receipt transition must succeed" ;;;
      let! t2 := port_transition accepted processing in
      receipt_expect (negb t2) "a stale receipt transition must fail" ;;;
      let! uncertain_id := OpaqueId_new "uncertain" in
      let! uncertain := TypedReceipt_new MUTATION uncertain_id UNCERTAIN now now in
      let! a3 := port_add uncertain in
      receipt_expect a3 "an uncertain receipt must be insertable" ;;;
      let! completed := replace_receipt uncertain COMPLETED later (Some value) in
      let! r1 := port_reconcile_uncertain uncertain completed in
      receipt_expect r1 "a current uncertain receipt must reconcile" ;;;
      let! r2 := port_reconcile_uncertain uncertain completed in
      receipt_expect (negb r2) "a stale uncertain receipt must not reconcile" ;;;
      let! g2 := port_get (receipt_id uncertain) in
      receipt_expect (bool_decide (g2 = Some completed)) "a reconciled receipt must be durable"
  end.
End Harness.

(** ** Histories *)

Inductive op (R V : Type) :=
  | OpAdd (rc : Receipt R V)
  | OpTransition (rc target : Receipt R V)
  | OpReconcile (rc target : Receipt R V)
  | OpPurge (plan : MaintenancePlan).
Arguments OpAdd {R V}.
Arguments OpTransition {R V}.
Arguments OpReconcile {R V}.
Arguments OpPurge {R V}.

Section Proofs.
Context {R V : Type} `{EqDecision R, EqDecision V}.
Implicit Types (rc target : Receipt R V) (st : store R V).

Definition exec (o : op R V) st : store R V :=
  match o with
  | OpAdd rc => snd (add rc st)
  | OpTransition rc target => snd (store_transition rc target st)
  | OpReconcile rc target => snd (reconcile_uncertain rc target st)
  | OpPurge plan => snd (purge plan st)
  end.

Definition exec_all (os : list (op R V)) st : store R V := fold_left (fun st o => exec o st) os st.

Definition is_purge (o : op R V) : bool := match o with OpPurge _ => true | _ => false end.

(** One edge of the lifecycle: an allowed transition, or the reconciliation of uncertainty. *)
Definition lifecycle_edge (a b : ReceiptState) : Prop :=
  b ∈ _TRANSITIONS a \/ (a = UNCERTAIN /\ b ∈ confirmed_states).

(** What may change in one update of a receipt. *)
Record update_ok rc target : Prop := {
  update_edge : lifecycle_edge (state rc) (state target);
  update_id : receipt_id target = receipt_id rc;
  update_kind : kind target = kind rc;
  update_created : created_at target = created_at rc;
  update_metadata : metadata target = metadata rc;
  update_time : dt_instant (updated_at rc) <= dt_instant (updated_at target);
  update_result : state target = COMPLETED -> is_Some (result_ target)
}.

(** The lifecycle advances along this measure. *)
Definition rank (s : ReceiptState) : nat :=
  match s with ACCEPTED => 0 | PROCESSING => 1 | UNCERTAIN => 2 | _ => 3 end.

Lemma lifecycle_edge_rank a b : lifecycle_edge a b -> (rank a < rank b)%nat.
Proof.
  intros [Hin|[-> Hin]].
  - destruct a; cbn in Hin; repeat (apply elem_of_cons in Hin as [->|Hin]; [cbn; lia|]);
      by apply not_elem_of_nil in Hin.
  - repeat (apply elem_of_cons in Hin as [->|Hin]; [cbn; lia|]). by apply not_elem_of_nil in Hin.
Qed.

Record store_inv st : Prop := {
  inv_wf : d_wf (receipts st);
  inv_key : forall k rc, d_get k (receipts st) = Some rc -> receipt_id rc = k
}.

Lemma receipt_inv_initial cap : store_inv (mkStore cap []).
Proof. split; [constructor|done]. Qed.

(** The two updates succeed exactly as a compare-and-set of an allowed change. *)
Lemma store_transition_runs rc target st b st' : store_transition rc target st = (b, st') ->
  (st' = st /\ b <> Ok true) \/
  (b = Ok true /\ update_ok rc target /\ d_get (receipt_id rc) (receipts st) = Some rc /\
   st' = set_receipts (d_set (receipt_id rc) target (receipts st)) st).
Proof.
  unfold store_transition, transition, replace_receipt, Receipt_new, compare_and_set, _utc.
  intros Hrun. run Hrun; try (by left). right. time_facts.
  repeat match goal with
  | E : negb (bool_decide _) = false |- _ => apply negb_false_iff, bool_decide_eq_true in E
  | E : bool_decide _ = true |- _ => apply bool_decide_eq_true in E
  end.
  split_and!; [done| |done|done]. destruct target as [ty id k s cr up res meta]. cbn in *. injection Heqb7 as <- <- <- <- <-.
  split; cbn; try done; [by left|]. intros ->.
  destruct res; [eauto|]. by destruct Heqb3.
Qed.

Lemma reconcile_uncertain_runs rc target st b st' : reconcile_uncertain rc target st = (b, st') ->
  (st' = st /\ b <> Ok true) \/
  (b = Ok true /\ update_ok rc target /\ d_get (receipt_id rc) (receipts st) = Some rc /\
   st' = set_receipts (d_set (receipt_id rc) target (receipts st)) st).
Proof.
  unfold reconcile_uncertain, compare_and_set. intros Hrun. run Hrun; try (by left). right.
  match goal with E : negb (_valid_reconciliation _ _) = false |- _ =>
    apply negb_false_iff in E; rename E into Hv end.
  match goal with E : negb (bool_decide _) = false |- _ => apply negb_false_iff, bool_decide_eq_true in E end.
  unfold _valid_reconciliation in Hv. rewrite !andb_true_iff, !bool_decide_eq_true, orb_true_iff in Hv.
  destruct Hv as (((((((Hs & Ht) & Hid) & Hk) & Hc) & Hu) & Hm) & Hr). apply dt_leb_le in Hu.
  split_and!; [done| |done|done]. split; try done; [by right|]. intros Heq. rewrite Heq in Hr.
  destruct (result_ target); [eauto|]. by destruct Hr.
Qed.

(** A call changes a receipt by an allowed update, adds it, or (a purge) removes it. *)
Definition receipt_step (o : op R V) (old new : option (Receipt R V)) : Prop :=
  new = old \/
  (exists rc target, old = Some rc /\ new = Some target /\ update_ok rc target) \/
  old = None \/ (is_purge o = true /\ new = None).

Lemma set_step o st rc target k : store_inv st -> update_ok rc target ->
  d_get (receipt_id rc) (receipts st) = Some rc ->
  let st' := set_receipts (d_set (receipt_id rc) target (receipts st)) st in
  store_inv st' /\ receipt_step o (d_get k (receipts st)) (d_get k (receipts st')).
Proof.
  intros [Hwf Hkey] Hup Hget st'. split.
  - split; cbn; [by apply d_set_wf|]. intros k' rc'. rewrite d_get_set. case_decide; [|by apply Hkey].
    intros [= <-]. subst. apply Hup.
  - cbn. rewrite d_get_set. case_decide; [|by left]. subst. right; left. eauto.
Qed.

Lemma receipt_exec_step o st k : store_inv st ->
  store_inv (exec o st) /\ receipt_step o (d_get k (receipts st)) (d_get k (receipts (exec o st))).
Proof.
  intros Hst. assert (store_inv st /\ receipt_step o (d_get k (receipts st)) (d_get k (receipts st))) as Hsame
    by (split; [done|by left]).
  destruct o as [rc|rc target|rc target|plan]; cbn [exec].
  - destruct (add rc st) as [b st'] eqn:Hrun. unfold add in Hrun. cbn [snd].
    pose proof Hst as [Hwf Hkey]. run Hrun; try done.
    match goal with E : d_mem _ _ = false |- _ => apply d_mem_false in E; rename E into Hnew end.
    split; [split; cbn; [by apply d_set_wf|]|].
    + intros k' rc'. rewrite d_get_set. case_decide; [|by apply Hkey]. by intros [= <-].
    + cbn. rewrite d_get_set. case_decide; [|by left]. subst. right; right; by left.
  - destruct (store_transition rc target st) as [b st'] eqn:Hrun. cbn [snd].
    apply store_transition_runs in Hrun as [[-> _]|(_ & ? & ? & ->)]; [done|by apply set_step].
  - destruct (reconcile_uncertain rc target st) as [b st'] eqn:Hrun. cbn [snd].
    apply reconcile_uncertain_runs in Hrun as [[-> _]|(_ & ? & ? & ->)]; [done|by apply set_step].
  - unfold purge. monad_unfold. cbn. destruct (dry_run plan); cbn; rewrite plan_summary_ok; cbn [snd]; [done|].
    pose proof Hst as [Hwf Hkey]. split; [split; cbn; [by apply d_pop_all_wf|]|].
    + intros k' rc'. rewrite d_pop_all_get by done. case_decide; [done|]. apply Hkey.
    + cbn. rewrite d_pop_all_get by done. case_decide; [by right; right; right|by left].
Qed.

Lemma receipt_exec_all_inv os st : store_inv st -> store_inv (exec_all os st).
Proof.
  revert st. induction os as [|o os IH]; intros st Hst; cbn; [done|].
  apply IH. by apply (receipt_exec_step o st (mkOpaqueId "")).
Qed.

(** Zero or more updates of one receipt. *)
Definition evolves : Receipt R V -> Receipt R V -> Prop := rtc update_ok.

Lemma exec_all_evolves os st k rc : store_inv st -> Forall (fun o => is_purge o = false) os ->
  d_get k (receipts st) = Some rc ->
  exists rc', d_get k (receipts (exec_all os st)) = Some rc' /\ evolves rc rc'.
Proof.
  intros Hst Hos. revert st rc Hst. induction Hos as [|o os Ho _ IH]; intros st rc Hst Hget; cbn.
  { exists rc. split; [done|apply rtc_refl]. }
  destruct (receipt_exec_step o st k Hst) as [Hst' [Heq|[(rc0 & tg & Hold & Hnew & Hup)|[Hnone|[Hp _]]]]]; [..|congruence].
  - rewrite Hget in Heq. by eapply IH.
  - rewrite Hget in Hold. simplify_eq. destruct (IH _ _ Hst' Hnew) as (rc' & ? & ?).
    exists rc'. split; [done|]. by eapply rtc_l.
  - congruence.
Qed.

Lemma evolves_fields rc rc' : evolves rc rc' ->
  receipt_id rc' = receipt_id rc /\ kind rc' = kind rc /\ created_at rc' = created_at rc /\
  metadata rc' = metadata rc /\ dt_instant (updated_at rc) <= dt_instant (updated_at rc') /\
  (rank (state rc) <= rank (state rc'))%nat.
Proof.
  induction 1 as [rc|rc rc1 rc' Hup _ IH]; [split_and!; try done; lia|].
  destruct Hup as [He Hi Hk Hc Hm Ht _]. apply lifecycle_edge_rank in He.
  destruct IH as (-> & -> & -> & -> & ? & ?). split_and!; try done; lia.
Qed.

Lemma evolves_cases rc rc' : evolves rc rc' -> rc' = rc \/ (rank (state rc) < rank (state rc'))%nat.
Proof.
  destruct 1 as [rc|rc rc1 rc' Hup Hrest]; [by left|right].
  apply update_edge, lifecycle_edge_rank in Hup. apply evolves_fields in Hrest as (_ & _ & _ & _ & _ & ?). lia.
Qed.

(** ** Properties *)

(** Receipts follow their lifecycle: whatever additions, transitions and reconciliations
    are attempted, with whatever arguments, a stored receipt keeps its identity, kind,
    creation time and metadata, its update time never moves back, a confirmed outcome is
    final, an uncertain one only becomes a confirmed outcome, and an outcome reached
    as completed carries a result. *)
Theorem receipt_lifecycle st os k rc : store_inv st ->
  Forall (fun o => is_purge o = false) os ->
  d_get k (receipts st) = Some rc ->
  exists rc', d_get k (receipts (exec_all os st)) = Some rc' /\
    receipt_id rc' = receipt_id rc /\ kind rc' = kind rc /\ created_at rc' = created_at rc /\
    metadata rc' = metadata rc /\ dt_instant (updated_at rc) <= dt_instant (updated_at rc') /\
    (state rc ∈ confirmed_states -> rc' = rc) /\
    (state rc = UNCERTAIN -> rc' = rc \/ state rc' ∈ confirmed_states) /\
    (state rc' = COMPLETED -> state rc <> COMPLETED -> is_Some (result_ rc')).
Proof.
  intros Hst Hos Hget. destruct (exec_all_evolves os st k rc Hst Hos Hget) as (rc' & Hget' & Hev).
  exists rc'. split; [done|]. destruct (evolves_fields _ _ Hev) as (? & ? & ? & ? & ? & ?).
  pose proof (evolves_cases _ _ Hev) as Hcases. split_and!; try done.
  - intros Hin. destruct Hcases as [|Hr]; [done|]. exfalso.
    repeat (apply elem_of_cons in Hin as [Hin|Hin]; [rewrite Hin in Hr; destruct (state rc'); cbn in Hr; lia|]).
    by apply not_elem_of_nil in Hin.
  - intros Hs. destruct Hcases as [|Hr]; [by left|right]. rewrite Hs in Hr.
    destruct (state rc'); cbn in Hr; try lia; set_solver.
  - intros Hs Hne. apply rtc_inv_r in Hev as [->|(rc1 & _ & Hup)]; [done|]. by apply Hup.
Qed.

(** Of competing updates of one receipt at most one succeeds: once a transition or a
    reconciliation from [rc] was accepted, every later one from [rc] is refused, after any
    calls but purges. *)
Theorem receipt_update_once st os rc t1 st1 t2 : store_inv st ->
  store_transition rc t1 st = (Ok true, st1) \/ reconcile_uncertain rc t1 st = (Ok true, st1) ->
  Forall (fun o => is_purge o = false) os ->
  let st2 := exec_all os st1 in
  fst (store_transition rc t2 st2) <> Ok true /\ snd (store_transition rc t2 st2) = st2 /\
  fst (reconcile_uncertain rc t2 st2) <> Ok true /\ snd (reconcile_uncertain rc t2 st2) = st2.
Proof.
  intros Hst Hrun Hos st2.
  assert (update_ok rc t1 /\ d_get (receipt_id rc) (receipts st) = Some rc /\
    st1 = set_receipts (d_set (receipt_id rc) t1 (receipts st)) st) as (Hup & Hget & ->).
  { destruct Hrun as [Hrun|Hrun]; [apply store_transition_runs in Hrun|apply reconcile_uncertain_runs in Hrun];
      by destruct Hrun as [[_ ?]|(_ & ? & ? & ?)]. }
  destruct (set_step (OpPurge (mkMaintenancePlan (utc 0) 1 true false)) st rc t1 (receipt_id rc) Hst Hup Hget) as [Hst1 _].
  destruct (exec_all_evolves os _ (receipt_id rc) t1 Hst1 Hos) as (rc' & Hget2 & Hev); [cbn; apply d_get_set_eq|].
  assert (rc' <> rc) as Hne.
  { intros ->. apply evolves_fields in Hev as (_ & _ & _ & _ & _ & Hr).
    apply update_edge, lifecycle_edge_rank in Hup. lia. }
  fold st2 in Hget2. split_and!.
  - destruct (store_transition rc t2 st2) as [b s'] eqn:E. apply store_transition_runs in E as [[_ ?]|(_ & _ & ? & _)]; [done|congruence].
  - destruct (store_transition rc t2 st2) as [b s'] eqn:E. apply store_transition_runs in E as [[? _]|(_ & _ & ? & _)]; [done|congruence].
  - destruct (reconcile_uncertain rc t2 st2) as [b s'] eqn:E. apply reconcile_uncertain_runs in E as [[_ ?]|(_ & _ & ? & _)]; [done|congruence].
  - destruct (reconcile_uncertain rc t2 st2) as [b s'] eqn:E. apply reconcile_uncertain_runs in E as [[? _]|(_ & _ & ? & _)]; [done|congruence].
Qed.

(** The confirmation of each target state. *)
Definition confirmation (target : ReceiptState) (rc : Receipt R V) : ReconciliationResult R V :=
  match target with
  | COMPLETED => ConfirmedCompleted rc
  | REJECTED => ConfirmedRejected rc
  | _ => ConfirmedConflicted rc
  end.

(** The checks a receipt passed when it was built. *)
Definition receipt_ok rc : Prop :=
  is_utc (created_at rc) = true /\ dt_instant (created_at rc) <= dt_instant (updated_at rc) /\
  Z.of_nat (Datatypes.length (map_to_list (metadata rc))) <= 64.

(** The reconciler settles exactly the uncertain receipts: with a well-formed request it
    always answers; if the receipt on record is uncertain and the time does not move back,
    the confirmed receipt is stored and returned, and in every other case the store is
    unchanged and the record is returned as still uncertain. *)
Theorem reconcile_settles st id (target : ReceiptState) at_ r : store_inv st ->
  (forall rc, d_get id (receipts st) = Some rc -> receipt_ok rc) ->
  is_utc at_ = true -> target ∈ confirmed_states -> (target = COMPLETED -> is_Some r) ->
  match d_get id (receipts st) with
  | Some rc =>
      if decide (state rc = UNCERTAIN /\ dt_instant (updated_at rc) <= dt_instant at_)
      then
        let rc' := mkReceipt (typed rc) (receipt_id rc) (kind rc) target (created_at rc) at_ r (metadata rc) in
        reconcile id target at_ r st =
          (Ok (confirmation target rc'), set_receipts (d_set id rc' (receipts st)) st)
      else exists reason, reconcile id target at_ r st = (Ok (StillUncertain (Some rc) reason), st)
  | None => exists reason, reconcile id target at_ r st = (Ok (StillUncertain None reason), st)
  end.
Proof.
  intros Hst Hok Hat Hin Hres. unfold reconcile, _utc. monad_unfold. rewrite Hat.
  rewrite (bool_decide_true (target ∈ _)) by done. cbn.
  destruct (d_get id (receipts st)) as [rc|] eqn:Hget; [|cbn; eauto].
  specialize (Hok rc eq_refl). destruct Hok as (Hcr & Hle & Hmeta). case_decide as Hc.
  - destruct Hc as [Hs Ht]. rewrite (bool_decide_true (state rc = _)) by done. cbn.
    rewrite (proj2 (dt_ltb_ge _ _)) by lia.
    assert (bool_decide (target = COMPLETED) && bool_decide (r = None) = false) as ->.
    { apply andb_false_iff. destruct (decide (target = COMPLETED)) as [Heq|]; [right|left; by apply bool_decide_eq_false].
      destruct (Hres Heq) as [x ->]. by apply bool_decide_eq_false. }
    unfold replace_receipt, Receipt_new, _utc. monad_unfold. rewrite Hcr, Hat. cbn.
    rewrite (proj2 (dt_ltb_ge _ _)) by lia. rewrite (proj2 (Z.ltb_ge _ _)) by lia. cbn.
    set (rc' := mkReceipt _ _ _ _ _ _ _ _).
    assert (_valid_reconciliation rc rc' = true) as Hv.
    { unfold _valid_reconciliation. cbn. rewrite Hs, !bool_decide_true by done. cbn.
      rewrite (proj2 (dt_leb_le _ _)) by lia. cbn. apply orb_true_iff.
      destruct (decide (target = COMPLETED)) as [Heq|]; [right|left; by rewrite bool_decide_false].
      destruct (Hres Heq) as [x ->]. by rewrite bool_decide_false. }
    pose proof (inv_key _ Hst _ _ Hget) as Hid.
    unfold reconcile_uncertain, compare_and_set. monad_unfold. rewrite Hv. cbn. rewrite Hid, Hget.
    rewrite bool_decide_true by done. cbn. destruct target; cbn; try done; set_solver.
  - destruct (decide (state rc = UNCERTAIN)) as [Hs|Hs].
    + rewrite bool_decide_true by done. cbn. rewrite (proj2 (dt_ltb_lt _ _)) by (destruct (Z.le_gt_cases (dt_instant (updated_at rc)) (dt_instant at_)); [by destruct Hc|lia]).
      cbn. eauto.
    + rewrite bool_decide_false by done. cbn. eauto.
Qed.
End Proofs.

(** ** The conformance harness *)

(** Membership tests of concrete states, the size of empty metadata. *)
Ltac state_step :=
  match goal with
  | |- context [bool_decide (?x ∈ ?l)] =>
      let b := eval vm_compute in (bool_decide (x ∈ l)) in change (bool_decide (x ∈ l)) with b
  | |- context [map_to_list ∅] => rewrite map_to_list_empty
  end.
Ltac receipt_call :=
  erewrite bind_run; [|solve
    [cbn [port_get port_add port_transition port_reconcile_uncertain InMemory_ReceiptStore];
     unfold add, get_receipt, store_transition, reconcile_uncertain, compare_and_set, _valid_reconciliation,
       transition, replace_receipt, TypedReceipt_new, Receipt_new, OpaqueId_new, receipt_expect, _utc, d_mem,
       confirmed_states;
     sym; repeat (state_step; sym); reflexivity]]; cbv beta.

(** [InMemoryReceiptStore] passes [ReceiptStoreHarness.exercise] for every result value at
    every start instant that leaves room for a second. *)
Theorem receipt_harness_passes {R V} `{EqDecision R, EqDecision V} (v : R) w :
  0 <= w -> w + seconds 2 <= dt_max ->
  fst (exercise v (utc w) (mkStore (V := V) 10000 [])) = Ok tt.
Proof.
  intros Hw Hmax. unfold exercise. repeat receipt_call. cbv beta iota. repeat receipt_call.
  unfold receipt_expect. by rewrite bool_decide_true.
Qed.

(** ** Concrete runs *)

Section Witnesses.
Definition demo_receipt (s : ReceiptState) (up : Z) (r : option Z) : Receipt Z Z :=
  mkReceipt true (mkOpaqueId "r") COMMAND s (utc 100) (utc up) r ∅.
Definition demo_added (s : ReceiptState) : store Z Z := exec (OpAdd (demo_receipt s 100 None)) (mkStore 3 []).

Lemma demo_added_inv s : store_inv (demo_added s).
Proof. apply (receipt_exec_step _ _ (mkOpaqueId "r")), receipt_inv_initial. Qed.

Definition demo_ops : list (op Z Z) :=
  [OpTransition (demo_receipt ACCEPTED 100 None) (demo_receipt PROCESSING 110 None);
   OpTransition (demo_receipt PROCESSING 110 None) (demo_receipt COMPLETED 120 (Some 7));
   OpTransition (demo_receipt COMPLETED 120 (Some 7)) (demo_receipt REJECTED 130 None)].

Lemma receipt_lifecycle_witness :
  exists rc', d_get (mkOpaqueId "r") (receipts (exec_all demo_ops (demo_added ACCEPTED))) = Some rc' /\
    receipt_id rc' = mkOpaqueId "r" /\ kind rc' = COMMAND /\ created_at rc' = utc 100 /\
    metadata rc' = ∅ /\ dt_instant (utc 100) <= dt_instant (updated_at rc') /\
    (ACCEPTED ∈ confirmed_states -> rc' = demo_receipt ACCEPTED 100 None) /\
    (ACCEPTED = UNCERTAIN -> rc' = demo_receipt ACCEPTED 100 None \/ state rc' ∈ confirmed_states) /\
    (state rc' = COMPLETED -> ACCEPTED <> COMPLETED -> is_Some (result_ rc')).
Proof.
  apply (receipt_lifecycle (demo_added ACCEPTED) demo_ops (mkOpaqueId "r") (demo_receipt ACCEPTED 100 None));
    [apply demo_added_inv|repeat constructor|reflexivity].
Defined.

Lemma receipt_update_once_witness :
  fst (store_transition (demo_receipt ACCEPTED 100 None) (demo_receipt REJECTED 110 None)
    (exec (OpTransition (demo_receipt ACCEPTED 100 None) (demo_receipt PROCESSING 110 None))
      (demo_added ACCEPTED))) <> Ok true.
Proof.
  apply (receipt_update_once (demo_added ACCEPTED) [] (demo_receipt ACCEPTED 100 None)
    (demo_receipt PROCESSING 110 None) _ (demo_receipt REJECTED 110 None));
    [apply demo_added_inv|left; vm_compute; reflexivity|constructor].
Defined.

Lemma reconcile_settles_witness :
  reconcile (mkOpaqueId "r") COMPLETED (utc 150) (Some 7) (demo_added UNCERTAIN) =
    (Ok (ConfirmedCompleted (demo_receipt COMPLETED 150 (Some 7))),
     set_receipts (d_set (mkOpaqueId "r") (demo_receipt COMPLETED 150 (Some 7))
       (receipts (demo_added UNCERTAIN))) (demo_added UNCERTAIN)).
Proof.
  refine (reconcile_settles (demo_added UNCERTAIN) (mkOpaqueId "r") COMPLETED (utc 150) (Some 7)
    (demo_added_inv UNCERTAIN) _ eq_refl (list_elem_of_here _ _) (fun _ => mk_is_Some _ _ eq_refl)).
  intros rc Hrc. vm_compute in Hrc. injection Hrc as <-. split_and!; [reflexivity|vm_compute; congruence..].
Defined.

Lemma receipt_harness_passes_witness : fst (exercise 7 (utc 1000) (mkStore (V := Z) 10000 [])) = Ok tt.
Proof. apply (receipt_harness_passes 7 1000); vm_compute; congruence. Defined.
End Witnesses.
