(* ===== verification/Jobs.v ===== *)
(** * Durable jobs ([src/pytitect/jobs.py])

    Jobs, fenced claims and retries, recurring schedules, the reference store
    [InMemoryJobStore] and the one-run [JobRunner]. A handler's [Decision] is stored and never
    inspected, so the model is polymorphic in it. *)
From Stdlib Require Import ZArith Lia SpecFloat.
From stdpp Require Import base list gmap.
From S2P Require Import Prelude Core Outbox.

(** ** Data *)

Inductive JobState := SCHEDULED | SUCCEEDED | TERMINAL | CANCELLED.

#[export] Instance JobState_eq_dec : EqDecision JobState.
Proof. solve_decision. Defined.

Definition _utc {S} (value : datetime) : M exn S unit :=
  check_utc value "job timestamps must be timezone-aware UTC".

Record Job := mkJob {
  job_id : pystr;
  task : pystr;
  payload : json;
  run_at : datetime;
  max_attempts : Z;
  attempt : Z;
  state : JobState;
  last_failure : option pystr
}.

(** The constructor with [__post_init__], also run by [dataclasses.replace]. *)
Definition Job_new {S} (id t : pystr) (p : json) (at_ : datetime) (max n : Z) (s : JobState)
    (failure : option pystr) : M exn S Job :=
  raise_if (str_empty id || str_empty t) (ValueError "job identity and task must not be empty") ;;;
  raise_if ((max <=? 0)%Z || negb ((0 <=? n)%Z && (n <=? max)%Z)) (ValueError "job attempts are invalid") ;;;
  validate_json p ;;;
  _utc at_ ;;;
  ret (mkJob id t p at_ max n s failure).

Record JobClaim := mkClaim {
  claim_job : Job;
  claim_id : pystr;
  claimed_until : datetime;
  fencing_token : Z
}.

Definition JobClaim_new {S} (j : Job) (id : pystr) (until : datetime) (token : Z) : M exn S JobClaim :=
  raise_if (str_empty id || (token <=? 0)%Z)
    (ValueError "job claim identity and fencing token are required") ;;;
  _utc until ;;;
  ret (mkClaim j id until token).

Inductive JobScheduleResult := JobScheduled | JobDuplicate.

Inductive JobTransition :=
  | JobSucceeded
  | JobRetried (at_ : datetime)
  | JobTerminated (reason : pystr)
  | StaleJobClaim.

Inductive ScheduleKind := ONE_SHOT | FIXED_INTERVAL | CONSUMER_POLICY.

#[export] Instance ScheduleKind_eq_dec : EqDecision ScheduleKind.
Proof. solve_decision. Defined.

Record JobSchedule := mkSchedule {
  schedule_id : pystr;
  schedule_task : pystr;
  schedule_payload : json;
  next_run : datetime;
  schedule_kind : ScheduleKind;
  interval : option timedelta;
  policy : option pystr;
  schedule_max_attempts : Z;
  sequence : Z;
  active : bool
}.

Definition JobSchedule_new {S} (id t : pystr) (p : json) (next : datetime) (k : ScheduleKind)
    (i : option timedelta) (pol : option pystr) (max seq : Z) (act : bool) : M exn S JobSchedule :=
  raise_if (str_empty id || str_empty t) (ValueError "schedule identity and task must not be empty") ;;;
  _utc next ;;;
  validate_json p ;;;
  raise_if (bool_decide (k = FIXED_INTERVAL)
            && match i with None => true | Some d => (d <=? 0)%Z end)
    (ValueError "fixed-interval schedules require a positive interval") ;;;
  raise_if (bool_decide (k = CONSUMER_POLICY)
            && match pol with None => true | Some n => str_empty n end)
    (ValueError "consumer-policy schedules require a policy name") ;;;
  raise_if (bool_decide (k = ONE_SHOT) && (bool_decide (is_Some i) || bool_decide (is_Some pol)))
    (ValueError "one-shot schedules do not accept interval or policy") ;;;
  ret (mkSchedule id t p next k i pol max seq act).

(** [NextRunPolicy]: the consumer's own function. *)
Definition NextRunPolicy : Type := JobSchedule -> result exn (option datetime).

(** [" ".join(reason.split())[:512]], refused when empty. *)
Definition _reason {S} (reason : pystr) : M exn S pystr :=
  let sanitized := str_take 512 (str_join " " (str_split reason)) in
  raise_if (str_empty sanitized) (ValueError "job failure reason must not be empty") ;;;
  ret sanitized.

Definition _claim_arguments {S} (limit : Z) (claim_ttl : timedelta) : M exn S unit :=
  raise_if (limit <=? 0)%Z (ValueError "claim limit must be a positive integer") ;;;
  raise_if (claim_ttl <=? 0)%Z (ValueError "claim ttl must be positive").

Class JobStore (W D : Type) := {
  port_schedule : Job -> M exn W JobScheduleResult;
  port_claim_jobs : datetime -> Z -> timedelta -> M exn W (list JobClaim);
  port_succeed : JobClaim -> D -> datetime -> M exn W JobTransition;
  port_retry_job : JobClaim -> pystr -> datetime -> M exn W JobTransition;
  port_terminate : JobClaim -> pystr -> datetime -> M exn W JobTransition
}.

(** ** The in-memory store *)

(** [_StoredJob]. *)
Record StoredJob := mkStored {
  job : Job;
  stored_claim_id : option pystr;
  stored_claimed_until : option datetime;
  stored_token : Z
}.

Record store (D : Type) := mkStore {
  capacity : Z;
  jobs : dict pystr StoredJob;
  schedules : dict pystr JobSchedule;
  decisions : list (pystr * D);
  uuid_draws : nat
}.
Arguments mkStore {D}.
Arguments capacity {D}.
Arguments jobs {D}.
Arguments schedules {D}.
Arguments decisions {D}.
Arguments uuid_draws {D}.

Definition InMemoryJobStore_new {D S} (cap : Z) : M exn S (store D) :=
  raise_if (cap <=? 0)%Z (ValueError "job capacity must be a positive integer") ;;;
  ret (mkStore cap [] [] [] 0).

Section InMemory.
Context {D : Type} `{Uuid4}.
Implicit Types (st : store D) (it : StoredJob) (c : JobClaim).

Definition set_jobs (d : dict pystr StoredJob) st : store D :=
  mkStore (capacity st) d (schedules st) (decisions st) (uuid_draws st).
Definition set_schedules (d : dict pystr JobSchedule) st : store D :=
  mkStore (capacity st) (jobs st) d (decisions st) (uuid_draws st).

Definition put_job (k : pystr) it : M exn (store D) unit :=
  modify (fun st => set_jobs (d_set k it (jobs st)) st).

Definition get_job (id : pystr) : M exn (store D) (option Job) :=
  gets (fun st => job <$> d_get id (jobs st)).

Definition _ensure_capacity (count : Z) : M exn (store D) unit :=
  let! st := get in
  raise_if (capacity st <?
    d_len (jobs st) + d_len (schedules st) + Z.of_nat (length (decisions st)) + count)%Z
    (OverflowError "job store capacity exceeded").

Definition schedule (j : Job) : M exn (store D) JobScheduleResult :=
  let! st := get in
  if d_mem (job_id j) (jobs st) then ret JobDuplicate
  else
    _ensure_capacity 1 ;;;
    put_job (job_id j) (mkStored j None None 0) ;;;
    ret JobScheduled.

(** [uuid.uuid4().hex]. *)
Definition draw_uuid : M exn (store D) pystr :=
  let! n := gets uuid_draws in
  modify (fun st => mkStore (capacity st) (jobs st) (schedules st) (decisions st) (S n)) ;;;
  ret (uuid4_hex n).

(** One iteration of [claim]'s loop: the token, the claim identifier and the expiry are
    assigned one after the other. *)
Definition claim_item (now : datetime) (limit : Z) (claim_ttl : timedelta)
    (claims : list JobClaim) (p : pystr * StoredJob) : M exn (store D) (list JobClaim) :=
  let it := p.2 in
  if (limit <=? Z.of_nat (length claims))%Z then ret claims
  else if negb (bool_decide (state (job it) = SCHEDULED)) || dt_ltb now (run_at (job it))
  then ret claims
  else if match stored_claimed_until it with Some u => dt_ltb now u | None => false end
  then ret claims
  else
    let token := stored_token it + 1 in
    let! id := draw_uuid in
    put_job p.1 (mkStored (job it) (Some id) (stored_claimed_until it) token) ;;;
    let! until := lift (dt_add now claim_ttl) in
    put_job p.1 (mkStored (job it) (Some id) (Some until) token) ;;;
    let! c := JobClaim_new (job it) id until token in
    ret (claims ++ [c]).

Definition claim_key (p : pystr * StoredJob) : Z * pystr := (dt_instant (run_at (job p.2)), job_id (job p.2)).

Definition claim (now : datetime) (limit : Z) (claim_ttl : timedelta) : M exn (store D) (list JobClaim) :=
  _utc now ;;;
  _claim_arguments limit claim_ttl ;;;
  let! eligible := gets (fun st => sorted_by (pair_compare Z.compare str_compare) claim_key (jobs st)) in
  for_each eligible [] (claim_item now limit claim_ttl).

(** [_valid]. *)
Definition _valid c st : option StoredJob :=
  match d_get (job_id (claim_job c)) (jobs st) with
  | None => None
  | Some it =>
      if negb (bool_decide (stored_claim_id it = Some (claim_id c)))
         || negb (stored_token it =? fencing_token c)%Z
         || negb (bool_decide (state (job it) = SCHEDULED))
      then None else Some it
  end.

(** [replace(item.job, ...)] of the fields the store changes. *)
Definition replace_job {S} (j : Job) (at_ : datetime) (n : Z) (s : JobState) (failure : option pystr) :
    M exn S Job :=
  Job_new (job_id j) (task j) (payload j) at_ (max_attempts j) n s failure.

(** [item.job = j] followed by [_release(item)]. *)
Definition settle (k : pystr) it (j : Job) : M exn (store D) unit :=
  put_job k (mkStored j None None (stored_token it)).

Definition succeed c (decision : D) (at_ : datetime) : M exn (store D) JobTransition :=
  _utc at_ ;;;
  let! item := gets (_valid c) in
  match item with
  | None => ret StaleJobClaim
  | Some it =>
      let! st := get in
      raise_if (capacity st <=? Z.of_nat (length (decisions st)))%Z
        (OverflowError "job decision capacity exceeded") ;;;
      let! j := replace_job (job it) (run_at (job it)) (attempt (job it)) SUCCEEDED (last_failure (job it)) in
      modify (fun st => mkStore (capacity st) (jobs st) (schedules st)
        (decisions st ++ [(job_id j, decision)]) (uuid_draws st)) ;;;
      settle (job_id (claim_job c)) it j ;;;
      ret JobSucceeded
  end.

Definition retry c (reason : pystr) (at_ : datetime) : M exn (store D) JobTransition :=
  _utc at_ ;;;
  let! sanitized := _reason reason in
  let! item := gets (_valid c) in
  match item with
  | None => ret StaleJobClaim
  | Some it =>
      let n := attempt (job it) + 1 in
      if (max_attempts (job it) <=? n)%Z
      then
        let! j := replace_job (job it) (run_at (job it)) n TERMINAL (Some sanitized) in
        settle (job_id (claim_job c)) it j ;;;
        ret (JobTerminated sanitized)
      else
        let! j := replace_job (job it) at_ n (state (job it)) (Some sanitized) in
        settle (job_id (claim_job c)) it j ;;;
        ret (JobRetried at_)
  end.

Definition terminate c (reason : pystr) (at_ : datetime) : M exn (store D) JobTransition :=
  _utc at_ ;;;
  let! sanitized := _reason reason in
  let! item := gets (_valid c) in
  match item with
  | None => ret StaleJobClaim
  | Some it =>
      let! j := replace_job (job it) (run_at (job it)) (attempt (job it)) TERMINAL (Some sanitized) in
      settle (job_id (claim_job c)) it j ;;;
      ret (JobTerminated sanitized)
  end.

Definition add_schedule (s : JobSchedule) : M exn (store D) bool :=
  let! st := get in
  if d_mem (schedule_id s) (schedules st) then ret false
  else
    _ensure_capacity 1 ;;;
    modify (fun st => set_schedules (d_set (schedule_id s) s (schedules st)) st) ;;;
    ret true.

(** [replace(schedule, sequence=schedule.sequence + 1, ...)]. *)
Definition bump_schedule {S} (s : JobSchedule) (next : datetime) (act : bool) : M exn S JobSchedule :=
  JobSchedule_new (schedule_id s) (schedule_task s) (schedule_payload s) next (schedule_kind s)
    (interval s) (policy s) (schedule_max_attempts s) (sequence s + 1) act.

(** [policies[schedule.policy](schedule)] with its [KeyError] handler, which also catches a
    [KeyError] of the policy itself. *)
Definition call_policy (policies : dict pystr NextRunPolicy) (s : JobSchedule) (name : pystr) :
    result exn (option datetime) :=
  let unknown := Raise (LookupError (str_app "unknown next-run policy: " name)) in
  match d_get name policies with
  | None => unknown
  | Some f => match f s with Raise (KeyError _) => unknown | r => r end
  end.

Definition _advance_schedule {S} (policies : dict pystr NextRunPolicy) (s : JobSchedule) :
    M exn S JobSchedule :=
  match schedule_kind s with
  | ONE_SHOT => bump_schedule s (next_run s) false
  | FIXED_INTERVAL =>
      match interval s with
      | None => raise (AssertionError "")
      | Some i =>
          let! next := lift (dt_add (next_run s) i) in
          bump_schedule s next (active s)
      end
  | CONSUMER_POLICY =>
      match policy s with
      | None => raise (AssertionError "")
      | Some name =>
          let! next := lift (call_policy policies s name) in
          match next with
          | None => bump_schedule s (next_run s) false
          | Some next =>
              _utc next ;;;
              raise_if (dt_leb next (next_run s)) (ValueError "next-run policy must advance time") ;;;
              bump_schedule s next (active s)
          end
      end
  end.

(** [f"{schedule.schedule_id}:{schedule.sequence}"]. *)
Definition occurrence_id (s : JobSchedule) : pystr :=
  str_app (schedule_id s) (str_app ":" (str_of_Z (sequence s))).

(** The job of the schedule's current occurrence, unless it is there already. *)
Definition create_occurrence (s : JobSchedule) (created : Z) : M exn (store D) Z :=
  let id := occurrence_id s in
  let! exists_ := gets (fun st => d_mem id (jobs st)) in
  if exists_ then ret created
  else
    _ensure_capacity 1 ;;;
    let! j := Job_new id (schedule_task s) (schedule_payload s) (next_run s)
                (schedule_max_attempts s) 0 SCHEDULED None in
    put_job id (mkStored j None None 0) ;;;
    ret (created + 1).

(** One iteration of [materialize]'s loop. *)
Definition materialize_one (policies : dict pystr NextRunPolicy) (now : datetime) (limit : Z)
    (created : Z) (p : pystr * JobSchedule) : M exn (store D) Z :=
  let s := p.2 in
  if (limit <=? created)%Z || negb (active s) || dt_ltb now (next_run s) then ret created
  else
    let! created' := create_occurrence s created in
    let! s' := _advance_schedule policies s in
    modify (fun st => set_schedules (d_set (schedule_id s) s' (schedules st)) st) ;;;
    ret created'.

Definition schedule_key (p : pystr * JobSchedule) : Z * pystr := (dt_instant (next_run p.2), schedule_id p.2).

Definition materialize (policies : dict pystr NextRunPolicy) (now : datetime) (limit : Z) :
    M exn (store D) Z :=
  _utc now ;;;
  raise_if (limit <=? 0)%Z (ValueError "materialize limit must be a positive integer") ;;;
  let! selected := gets (fun st => sorted_by (pair_compare Z.compare str_compare) schedule_key (schedules st)) in
  for_each selected 0 (materialize_one policies now limit).

#[export] Instance InMemory_JobStore : JobStore (store D) D := {
  port_schedule := schedule;
  port_claim_jobs := claim;
  port_succeed := succeed;
  port_retry_job := retry;
  port_terminate := terminate
}.
End InMemory.

(** The store as one component of a larger state. *)
Definition zoomed_JobStore {W S D} (l : lens W S) `{!JobStore S D} : JobStore W D := {|
  port_schedule := fun j => zoom l (port_schedule j);
  port_claim_jobs := fun now limit ttl => zoom l (port_claim_jobs now limit ttl);
  port_succeed := fun c d at_ => zoom l (port_succeed c d at_);
  port_retry_job := fun c reason at_ => zoom l (port_retry_job c reason at_);
  port_terminate := fun c reason at_ => zoom l (port_terminate c reason at_)
|}.

(** ** The runner *)

Record JobRunSummary := mkRunSummary {
  run_claimed : Z;
  run_succeeded : Z;
  run_retried : Z;
  run_terminated : Z
}.

Section Runner.
Context {W D : Type} `{!JobStore W D, !Clock W}.
Variable math_log : spec_float -> spec_float.
Variable float_pow : spec_float -> Z -> result exn spec_float.
Variable handlers : dict pystr (Job -> M exn W D).
Variable retry_policy : RetryPolicy.

(** The [try] block: look the handler up and call it. *)
Definition call_handler (j : Job) : M exn W D :=
  match d_get (task j) handlers with
  | None => raise (KeyError (task j))
  | Some handler => handler j
  end.

(** [try: ... except PermanentJobError ... except Exception ... else ...]. *)
Definition run_claim (now : datetime) (c : JobClaim) : M exn W JobTransition :=
  fun w =>
    match call_handler (claim_job c) w with
    | (Ok decision, w') => port_succeed c decision now w'
    | (Raise (PermanentJobError m), w') => port_terminate c (exn_str (PermanentJobError m)) now w'
    | (Raise e, w') =>
        (let! wait := lift (delay math_log float_pow retry_policy (attempt (claim_job c) + 1)) in
         let! at_ := lift (dt_add now wait) in
         port_retry_job c (exn_name e) at_) w'
    end.

Definition count_transition (acc : Z * Z * Z) (t : JobTransition) : Z * Z * Z :=
  let '(s, r, f) := acc in
  match t with
  | JobSucceeded => (s + 1, r, f)
  | JobRetried _ => (s, r + 1, f)
  | JobTerminated _ => (s, r, f + 1)
  | StaleJobClaim => acc
  end.

Definition run_once (limit : Z) (claim_ttl : timedelta) : M exn W JobRunSummary :=
  let! now := clock_now in
  let! claims := port_claim_jobs now limit claim_ttl in
  let! '(s, r, f) := for_each claims (0, 0, 0) (fun acc c =>
    let! t := run_claim now c in ret (count_transition acc t)) in
  ret (mkRunSummary (Z.of_nat (length claims)) s r f).
End Runner.
