(* ===== verification/JobsHistories.v ===== *)
(** * Histories of the job store

    Every call of the reference job store is a sequence of small steps on single jobs and
    schedules; fencing, settlement and recurrence follow by induction on the steps. *)
From Stdlib Require Import ZArith Lia SpecFloat.
From stdpp Require Import base list gmap.
From S2P Require Import Prelude Core Outbox Jobs.

Inductive op (D : Type) :=
  | OpSchedule (j : Job)
  | OpClaim (now : datetime) (limit : Z) (ttl : timedelta)
  | OpSucceed (c : JobClaim) (d : D) (at_ : datetime)
  | OpRetry (c : JobClaim) (reason : pystr) (at_ : datetime)
  | OpTerminate (c : JobClaim) (reason : pystr) (at_ : datetime)
  | OpAddSchedule (s : JobSchedule)
  | OpMaterialize (policies : dict pystr NextRunPolicy) (now : datetime) (limit : Z).
Arguments OpSchedule {D}.
Arguments OpClaim {D}.
Arguments OpSucceed {D}.
Arguments OpRetry {D}.
Arguments OpTerminate {D}.
Arguments OpAddSchedule {D}.
Arguments OpMaterialize {D}.

Section Steps.
Context {D : Type} `{Uuid4}.
Implicit Types (st : store D) (it : StoredJob) (c : JobClaim) (k : pystr) (s : JobSchedule).

Definition exec (o : op D) st : store D :=
  match o with
  | OpSchedule j => snd (schedule j st)
  | OpClaim now limit ttl => snd (claim now limit ttl st)
  | OpSucceed c d at_ => snd (succeed c d at_ st)
  | OpRetry c reason at_ => snd (retry c reason at_ st)
  | OpTerminate c reason at_ => snd (terminate c reason at_ st)
  | OpAddSchedule s => snd (add_schedule s st)
  | OpMaterialize policies now limit => snd (materialize policies now limit st)
  end.

Definition exec_all (os : list (op D)) st : store D := fold_left (fun st o => exec o st) os st.

(** The attempt count the constructor allows. *)
Definition job_ok (j : Job) : Prop := 0 <= attempt j <= max_attempts j.

(** The calls' arguments as the constructors build them. *)
Definition op_ok (o : op D) : Prop := match o with OpSchedule j => job_ok j | _ => True end.

(** ** Small steps *)

Inductive small st : store D -> Prop :=
  | small_add j :
      d_get (job_id j) (jobs st) = None -> job_ok j ->
      small st (set_jobs (d_set (job_id j) (mkStored j None None 0) (jobs st)) st)
  | small_claim k it id until n :
      d_get k (jobs st) = Some it -> state (job it) = SCHEDULED ->
      small st (mkStore (capacity st)
        (d_set k (mkStored (job it) (Some id) until (stored_token it + 1)) (jobs st))
        (schedules st) (decisions st) n)
  | small_settle k it j :
      d_get k (jobs st) = Some it -> state (job it) = SCHEDULED -> state j <> SUCCEEDED ->
      job_id j = job_id (job it) -> job_ok j ->
      small st (set_jobs (d_set k (mkStored j None None (stored_token it)) (jobs st)) st)
  | small_succeed k it j d :
      d_get k (jobs st) = Some it -> state (job it) = SCHEDULED -> state j = SUCCEEDED ->
      job_id j = job_id (job it) -> job_ok j ->
      small st (mkStore (capacity st) (d_set k (mkStored j None None (stored_token it)) (jobs st))
        (schedules st) (decisions st ++ [(job_id j, d)]) (uuid_draws st))
  | small_new_schedule s :
      d_get (schedule_id s) (schedules st) = None ->
      small st (set_schedules (d_set (schedule_id s) s (schedules st)) st)
  | small_advance s s' policies (w : store D) :
      d_get (schedule_id s) (schedules st) = Some s -> active s = true ->
      is_Some (d_get (occurrence_id s) (jobs st)) ->
      _advance_schedule policies s w = (Ok s', w) ->
      small st (set_schedules (d_set (schedule_id s) s' (schedules st)) st).

Definition path : store D -> store D -> Prop := rtc small.

Record store_inv st : Prop := {
  inv_jobs : d_wf (jobs st);
  inv_schedules : d_wf (schedules st);
  inv_job_key : forall k it, d_get k (jobs st) = Some it -> job_id (job it) = k;
  inv_schedule_key : forall k s, d_get k (schedules st) = Some s -> schedule_id s = k;
  inv_token : forall k it, d_get k (jobs st) = Some it -> 0 <= stored_token it;
  inv_attempt : forall k it, d_get k (jobs st) = Some it -> job_ok (job it);
  inv_decided : NoDup (decisions st).*1;
  inv_success : forall k, k ∈ (decisions st).*1 ->
    exists it, d_get k (jobs st) = Some it /\ state (job it) = SUCCEEDED
}.

Lemma job_inv_initial cap : store_inv (mkStore cap [] [] [] 0).
Proof. split; cbn; try done; try constructor. intros k Hk. by apply not_elem_of_nil in Hk. Qed.

Lemma bump_schedule_id s next act (w w' : store D) s' :
  bump_schedule s next act w = (Ok s', w') ->
  s' = mkSchedule (schedule_id s) (schedule_task s) (schedule_payload s) next (schedule_kind s)
    (interval s) (policy s) (schedule_max_attempts s) (sequence s + 1) act.
Proof.
  unfold bump_schedule, JobSchedule_new, _utc, validate_json. intros Hrun.
  repeat (apply bind_ok in Hrun as (? & ? & _ & Hrun)). by inversion Hrun.
Qed.

Lemma JobSchedule_new_state {S} id t p next kd i pol max seq act (w w' : S) r :
  JobSchedule_new id t p next kd i pol max seq act w = (r, w') -> w' = w.
Proof.
  unfold JobSchedule_new, _utc, check_utc, validate_json. intros Hrun. monad_unfold.
  repeat match type of Hrun with
  | context [if ?b then _ else _] => destruct b; cbn in Hrun; [by simplify_eq|]
  | context [match validate_json_with ?l ?v with _ => _ end] =>
      destruct (validate_json_with l v); cbn in Hrun; [|by simplify_eq]
  end. by simplify_eq.
Qed.

Lemma advance_state policies s (w w' : store D) r : _advance_schedule policies s w = (r, w') -> w' = w.
Proof.
  unfold _advance_schedule. destruct (schedule_kind s).
  - apply JobSchedule_new_state.
  - destruct (interval s) as [i|]; [|intros [= <- <-]; done]. unfold bind, lift.
    destruct (dt_add (next_run s) i); [apply JobSchedule_new_state|by intros [= <- <-]].
  - destruct (policy s) as [name|]; [|intros [= <- <-]; done]. unfold bind, lift.
    destruct (call_policy policies s name) as [[next|]|]; [| |by intros [= <- <-]]; [|apply JobSchedule_new_state].
    unfold _utc, check_utc, raise_if. destruct (negb _); [by intros [= <- <-]|].
    destruct (dt_leb _ _); [by intros [= <- <-]|]. apply JobSchedule_new_state.
Qed.

Lemma advance_schedule_id policies s (w w' : store D) s' :
  _advance_schedule policies s w = (Ok s', w') -> schedule_id s' = schedule_id s.
Proof.
  unfold _advance_schedule. intros Hrun.
  assert (forall next act w, bump_schedule s next act w = (Ok s', w') -> schedule_id s' = schedule_id s) as Hb.
  { intros next act w0 Hb. by rewrite (bump_schedule_id _ _ _ _ _ _ Hb). }
  destruct (schedule_kind s).
  - by eapply Hb.
  - destruct (interval s); [|done]. apply bind_ok in Hrun as (next & w1 & _ & Hrun). by eapply Hb.
  - destruct (policy s); [|done]. apply bind_ok in Hrun as ([next|] & w1 & _ & Hrun); [|by eapply Hb].
    apply bind_ok in Hrun as (? & ? & _ & Hrun). apply bind_ok in Hrun as (? & ? & _ & Hrun). by eapply Hb.
Qed.

(** Updates of one job keep the invariant. *)
Lemma inv_set_job st k it' ds n :
  store_inv st ->
  job_id (job it') = k -> 0 <= stored_token it' -> job_ok (job it') ->
  NoDup ds.*1 ->
  (forall k', k' ∈ ds.*1 -> k' <> k -> k' ∈ (decisions st).*1) ->
  (k ∈ ds.*1 -> state (job it') = SUCCEEDED) ->
  store_inv (mkStore (capacity st) (d_set k it' (jobs st)) (schedules st) ds n).
Proof.
  intros [Hj Hs Hjk Hsk Ht Ha Hd Hsucc] Hk Htok Hok Hnd Hin Hdec.
  assert (forall P : StoredJob -> Prop, P it' -> (forall k' x, d_get k' (jobs st) = Some x -> P x) ->
    forall k' x, d_get k' (d_set k it' (jobs st)) = Some x -> P x) as Hall.
  { intros P Hp Hold k' x. rewrite d_get_set. case_decide; [by intros [= <-]|eauto]. }
  split; cbn; auto with pydict.
  - intros k' x. rewrite d_get_set. case_decide; [intros [= <-]; congruence|eauto].
  - by apply Hall.
  - by apply (Hall (fun x => job_ok (job x))).
  - intros k' Hk'. rewrite d_get_set. destruct (decide (k = k')) as [->|Hne]; [eauto|].
    apply Hsucc, Hin; auto.
Qed.

Lemma small_inv st st' : store_inv st -> small st st' -> store_inv st'.
Proof.
  intros Hst Hstep. pose proof Hst as [Hj Hs Hjk Hsk Ht Ha Hd Hsucc].
  destruct Hstep as [j Hnew Hok|k it id until n Hget Hsch|k it j Hget Hsch Hns Hid Hok
    |k it j d Hget Hsch Hsu Hid Hok|s Hnew|s s' pol w Hget Hact Hocc Hadv].
  - unfold set_jobs. apply inv_set_job; cbn; try done; eauto.
    intros Hin. destruct (Hsucc _ Hin) as (it & Hit & _). congruence.
  - apply inv_set_job; cbn; eauto.
    + pose proof (Ht _ _ Hget). lia.
    + intros Hin. destruct (Hsucc _ Hin) as (it' & Hit & ?). congruence.
  - unfold set_jobs. apply inv_set_job; cbn; eauto.
    + rewrite Hid. by apply Hjk.
    + intros Hin. destruct (Hsucc _ Hin) as (it' & Hit & ?). congruence.
  - assert (job_id j = k) as Hk by (rewrite Hid; by apply Hjk). apply inv_set_job; cbn; eauto.
    + rewrite fmap_app. cbn. apply NoDup_app. split_and!; [done| |apply NoDup_singleton].
      intros x Hx Hx'. apply list_elem_of_singleton in Hx' as ->. rewrite Hk in Hx.
      destruct (Hsucc _ Hx) as (it' & Hit & ?). congruence.
    + intros k' Hk' Hne. rewrite fmap_app in Hk'. apply elem_of_app in Hk' as [?|Hk']; [done|].
      cbn in Hk'. apply list_elem_of_singleton in Hk'. congruence.
  - split; cbn; auto with pydict. intros k s'. rewrite d_get_set. case_decide; [|apply Hsk].
    intros [= <-]. done.
  - split; cbn; auto with pydict. intros k s''. rewrite d_get_set. case_decide; [|apply Hsk].
    intros [= <-]. subst. by eapply advance_schedule_id.
Qed.

Lemma path_inv st st' : path st st' -> store_inv st -> store_inv st'.
Proof. induction 1; eauto using small_inv. Qed.

(** ** Every call is a path of small steps *)

Lemma Job_new_ok {S} id t p at_ max n sta failure (w w' : S) j :
  Job_new id t p at_ max n sta failure w = (Ok j, w') ->
  j = mkJob id t p at_ max n sta failure /\ job_ok j /\ w' = w.
Proof.
  unfold Job_new, _utc, validate_json, job_ok. intros Hrun. monad_unfold.
  destruct (str_empty id || _); cbn in Hrun; [done|].
  destruct (max <=? 0)%Z; cbn in Hrun; [done|].
  destruct (0 <=? n)%Z eqn:H1; cbn in Hrun; [|done]. destruct (n <=? max)%Z eqn:H2; cbn in Hrun; [|done].
  destruct (validate_json_with _ p); cbn in Hrun; [|done].
  unfold check_utc in Hrun. monad_unfold. destruct (is_utc at_); cbn in Hrun; [|done]. simplify_eq. cbn.
  time_facts. split_and!; try done; lia.
Qed.

Lemma Job_new_state {S} id t p at_ max n sta failure (w w' : S) r :
  Job_new id t p at_ max n sta failure w = (r, w') -> w' = w.
Proof.
  unfold Job_new, validate_json, _utc, check_utc. intros Hj. monad_unfold.
  repeat (destruct (_ || _); cbn in Hj; [by simplify_eq|]).
  destruct (validate_json_with _ _); cbn in Hj; [|by simplify_eq].
  by destruct (is_utc at_); cbn in Hj; simplify_eq.
Qed.

Lemma schedule_path j st : job_ok j -> path st (snd (schedule j st)).
Proof.
  intros Hok. unfold schedule, _ensure_capacity. monad_unfold. cbn. destruct (d_mem (job_id j) (jobs st)) eqn:Hm; cbn; [apply rtc_refl|].
  destruct (_ <? _)%Z; cbn; [apply rtc_refl|].
  apply rtc_once, small_add; [by apply d_mem_false|done].
Qed.

Lemma job_valid_Some c st it : _valid c st = Some it ->
  d_get (job_id (claim_job c)) (jobs st) = Some it /\ stored_claim_id it = Some (claim_id c) /\
  stored_token it = fencing_token c /\ state (job it) = SCHEDULED.
Proof.
  unfold _valid. destruct (d_get _ _) as [it0|]; [|done].
  destruct (bool_decide (stored_claim_id it0 = _)) eqn:H1; cbn; [|done].
  destruct (stored_token it0 =? fencing_token c)%Z eqn:H2; cbn; [|done].
  destruct (bool_decide (state (job it0) = SCHEDULED)) eqn:H3; cbn; [|done]. intros [= <-].
  apply bool_decide_eq_true in H1, H3. apply Z.eqb_eq in H2. done.
Qed.

(** The common end of the three settlements. *)
Lemma settle_path c it at_ n sta failure st : _valid c st = Some it -> sta <> SUCCEEDED ->
  forall t : JobTransition,
  path st (snd ((let! j := replace_job (job it) at_ n sta failure in
                 settle (job_id (claim_job c)) it j ;;; ret t) st)).
Proof.
  intros Hv Hs t. apply job_valid_Some in Hv as (Hget & _ & _ & Hsch). unfold bind at 1.
  destruct (replace_job (job it) at_ n sta failure st) as [[j|e] st1] eqn:Hj.
  - apply Job_new_ok in Hj as (-> & Hok & ->). cbn. apply rtc_once. by eapply small_settle.
  - apply Job_new_state in Hj as ->. apply rtc_refl.
Qed.

Lemma succeed_path c d at_ st : path st (snd (succeed c d at_ st)).
Proof.
  destruct (succeed c d at_ st) as [r st'] eqn:Hrun. cbn. unfold succeed, _utc, check_utc in Hrun. monad_unfold.
  destruct (is_utc at_); cbn in Hrun; [|simplify_eq; apply rtc_refl].
  destruct (_valid c st) as [it|] eqn:Hv; cbn in Hrun; [|simplify_eq; apply rtc_refl].
  destruct (capacity st <=? _)%Z; cbn in Hrun; [simplify_eq; apply rtc_refl|].
  apply job_valid_Some in Hv as (Hget & _ & _ & Hsch).
  destruct (replace_job _ _ _ SUCCEEDED _ st) as [[j|e] st1] eqn:Hj.
  - apply Job_new_ok in Hj as (Hj & Hok & ->). cbn in Hrun. injection Hrun as <- <-. apply rtc_once.
    refine (small_succeed st _ it j d Hget Hsch _ _ Hok); by rewrite Hj.
  - apply Job_new_state in Hj as ->. simplify_eq. apply rtc_refl.
Qed.

(** The guards of [retry] and [terminate]. *)
Lemma guarded_path c reason at_ st (k : pystr -> StoredJob -> M exn (store D) JobTransition) :
  (forall sanitized it, _valid c st = Some it -> path st (snd (k sanitized it st))) ->
  path st (snd ((_utc at_ ;;; let! sanitized := _reason reason in let! item := gets (_valid c) in
    match item with None => ret StaleJobClaim | Some it => k sanitized it end) st)).
Proof.
  intros Hk. unfold _utc, check_utc, _reason. monad_unfold. destruct (is_utc at_); cbn; [|apply rtc_refl].
  destruct (str_empty _); cbn; [apply rtc_refl|].
  destruct (_valid c st) as [it|] eqn:Hv; [by apply Hk|apply rtc_refl].
Qed.

Lemma retry_path c reason at_ st : path st (snd (retry c reason at_ st)).
Proof.
  apply guarded_path. intros sanitized it Hv. destruct (max_attempts (job it) <=? _)%Z.
  - by apply settle_path.
  - apply settle_path; [done|]. apply job_valid_Some in Hv as (_ & _ & _ & ->). done.
Qed.

Lemma terminate_path c reason at_ st : path st (snd (terminate c reason at_ st)).
Proof. apply guarded_path. intros sanitized it Hv. by apply settle_path. Qed.

Lemma add_schedule_path s st : path st (snd (add_schedule s st)).
Proof.
  unfold add_schedule, _ensure_capacity. monad_unfold. cbn. destruct (d_mem (schedule_id s) (schedules st)) eqn:Hm; cbn; [apply rtc_refl|].
  destruct (_ <? _)%Z; cbn; [apply rtc_refl|].
  apply rtc_once, small_new_schedule. by apply d_mem_false.
Qed.

(** One iteration of [claim]: skip the job, or fence it with the next token. *)
Lemma job_claim_item_runs now limit ttl acc p st :
  claim_item now limit ttl acc p st = (Ok acc, st) \/
  exists r until, state (job p.2) = SCHEDULED /\
    claim_item now limit ttl acc p st =
      (r, mkStore (capacity st)
            (d_set p.1 (mkStored (job p.2) (Some (uuid4_hex (uuid_draws st))) until (stored_token p.2 + 1)) (jobs st))
            (schedules st) (decisions st) (S (uuid_draws st))) /\
    (forall acc', r = Ok acc' -> exists x,
      acc' = acc ++ [mkClaim (job p.2) (uuid4_hex (uuid_draws st)) x (stored_token p.2 + 1)]).
Proof.
  unfold claim_item, draw_uuid, put_job, JobClaim_new, _utc, check_utc. monad_unfold.
  destruct (limit <=? _)%Z; cbn; [by left|].
  destruct (bool_decide (state (job p.2) = SCHEDULED)) eqn:Hs; cbn; [|by left].
  apply bool_decide_eq_true in Hs. destruct (dt_ltb now (run_at _)); cbn; [by left|].
  destruct (match stored_claimed_until p.2 with Some u => _ | None => _ end); cbn; [by left|]. right.
  destruct (dt_add now ttl) as [until|e]; cbn.
  - destruct (str_empty _ || _); cbn; [|destruct (is_utc until); cbn]; eexists _, (Some until);
      (split; [done|split; [unfold set_jobs; cbn; rewrite d_set_set; reflexivity|]]); try done.
    intros acc' [= <-]. by exists until.
  - eexists _, (stored_claimed_until p.2). split; [done|]. split; [reflexivity|done].
Qed.

(** The answers of a claim are fenced with fresh tokens that the store records. *)
Definition fenced (l : list (pystr * StoredJob)) st' c : Prop :=
  exists k it it', (k, it) ∈ l /\ claim_job c = job it /\ fencing_token c = stored_token it + 1 /\
    d_get k (jobs st') = Some it' /\ stored_token it' = fencing_token c /\
    stored_claim_id it' = Some (claim_id c) /\ state (job it) = SCHEDULED /\ job it' = job it.

Lemma job_claim_loop now limit ttl l : NoDup l.*1 -> forall acc st,
  (forall k it, (k, it) ∈ l -> d_get k (jobs st) = Some it) ->
  let out := for_each l acc (claim_item now limit ttl) st in
  path st (snd out) /\
  (forall k, k ∉ l.*1 -> d_get k (jobs (snd out)) = d_get k (jobs st)) /\
  (forall acc', fst out = Ok acc' -> exists cs, acc' = acc ++ cs /\ Forall (fenced l (snd out)) cs).
Proof.
  induction l as [|[k0 it0] l IH]; intros Hnd acc st Hl out; unfold out.
  { cbn. split_and!; [apply rtc_refl|done|]. intros acc' [= <-]. exists []. by rewrite app_nil_r. }
  cbn in Hnd. apply NoDup_cons in Hnd as [Hk0 Hnd]. specialize (IH Hnd).
  assert (forall k it, (k, it) ∈ l -> k <> k0) as Hne.
  { intros k it Hin ->. apply Hk0, list_elem_of_fmap. by exists (k0, it). }
  assert (Hit0 := Hl k0 it0 (list_elem_of_here _ _)).
  assert (forall st' c, fenced l st' c -> fenced ((k0, it0) :: l) st' c) as Hmono.
  { intros st' c (k & it & it' & Hin & Hrest). exists k, it, it'. split; [by right|done]. }
  cbn [for_each]. unfold bind.
  destruct (job_claim_item_runs now limit ttl acc (k0, it0) st) as [Heq|(r & until & Hs & Heq & Hr)]; rewrite Heq.
  - destruct (IH acc st) as (Hp & Hf & Hc); [intros k it Hin; apply Hl; by right|].
    split_and!; [done| |].
    + intros k Hk. apply Hf. cbn in Hk. by apply not_elem_of_cons in Hk as [_ ?].
    + intros acc' Hacc. destruct (Hc acc' Hacc) as (cs & -> & Hall). exists cs. split; [done|].
      eapply Forall_impl; [exact Hall|]. apply Hmono.
  - cbn [fst snd] in *.
    set (st1 := mkStore _ _ _ _ _) in *.
    assert (path st st1) as Hp1 by (apply rtc_once; by apply small_claim).
    destruct r as [acc1|e]; cbn [fst snd].
    + destruct (Hr acc1 eq_refl) as (x & ->).
      destruct (IH (acc ++ [mkClaim (job it0) (uuid4_hex (uuid_draws st)) x (stored_token it0 + 1)]) st1)
        as (Hp & Hf & Hc).
      { intros k it Hin. cbn. rewrite d_get_set_ne by (symmetry; by eapply Hne). apply Hl. by right. }
      split_and!; [by etransitivity| |].
      * intros k Hk. cbn in Hk. apply not_elem_of_cons in Hk as [Hk Hk']. rewrite Hf by done. cbn.
        by rewrite d_get_set_ne.
      * intros acc' Hacc. destruct (Hc acc' Hacc) as (cs & -> & Hall). rewrite <- app_assoc. eexists.
        split; [reflexivity|]. constructor; [|eapply Forall_impl; [exact Hall|]; apply Hmono].
        exists k0, it0, (mkStored (job it0) (Some (uuid4_hex (uuid_draws st))) until (stored_token it0 + 1)).
        split_and!; [left|done|done| |done|done|done|done].
        rewrite Hf by done. cbn. apply d_get_set_eq.
    + split_and!; [done| |done]. intros k Hk. cbn in Hk. apply not_elem_of_cons in Hk as [Hk _]. cbn.
      by rewrite d_get_set_ne.
Qed.

Lemma job_claim_runs now limit ttl st : store_inv st ->
  path st (snd (claim now limit ttl st)) /\
  (forall cs, fst (claim now limit ttl st) = Ok cs ->
    Forall (fenced (jobs st) (snd (claim now limit ttl st))) cs).
Proof.
  intros Hst. unfold claim, _claim_arguments, _utc, check_utc. monad_unfold.
  destruct (is_utc now); cbn; [|split; [apply rtc_refl|done]].
  destruct (limit <=? 0)%Z; cbn; [split; [apply rtc_refl|done]|].
  destruct (ttl <=? 0)%Z; cbn; [split; [apply rtc_refl|done]|].
  set (l := sorted_by _ _ _).
  assert (forall x, x ∈ l <-> x ∈ jobs st) as Hl by (intros x; apply elem_of_sorted_by).
  destruct (job_claim_loop now limit ttl l) with (acc := @nil JobClaim) (st := st) as (Hp & _ & Hc).
  - unfold l. rewrite sorted_by_perm. apply Hst.
  - intros k it Hin. apply Hl in Hin. by apply d_elem_get; [apply Hst|].
  - split; [done|]. intros cs Hcs. destruct (Hc cs Hcs) as (cs' & -> & Hall). cbn.
    eapply Forall_impl; [exact Hall|]. intros c (k & it & it' & Hin & Hrest). exists k, it, it'.
    split; [by apply Hl|done].
Qed.

Lemma create_occurrence_path s created st r st' : create_occurrence s created st = (r, st') ->
  path st st' /\ schedules st' = schedules st /\
  (forall n, r = Ok n -> is_Some (d_get (occurrence_id s) (jobs st'))).
Proof.
  unfold create_occurrence, _ensure_capacity. unfold bind at 1. cbn [gets].
  destruct (d_mem (occurrence_id s) (jobs st)) eqn:Hm.
  { intros [= <- <-]. split_and!; [apply rtc_refl|done|]. intros n _. by apply d_mem_true. }
  unfold bind at 1 2. cbn [get]. unfold raise_if. destruct (_ <? _)%Z.
  { intros [= <- <-]. split_and!; [apply rtc_refl|done|done]. }
  unfold bind at 1. destruct (Job_new _ _ _ _ _ _ _ _ st) as [[j|e] st1] eqn:Hj.
  - apply Job_new_ok in Hj as (Hj & Hok & ->). assert (job_id j = occurrence_id s) as Hid by (by rewrite Hj).
    rewrite <- Hid in *. cbn. intros [= <- <-]. split_and!; [|done|intros n _; cbn; rewrite d_get_set_eq; eauto].
    apply rtc_once, small_add; [by apply d_mem_false|done].
  - apply Job_new_state in Hj as ->. intros [= <- <-]. split_and!; [apply rtc_refl|done|done].
Qed.

Lemma job_claim_loop_frame now limit ttl l acc st r st' :
  for_each l acc (claim_item now limit ttl) st = (r, st') ->
  capacity st' = capacity st /\ decisions st' = decisions st /\
  (forall acc', r = Ok acc' -> exists cs, acc' = acc ++ cs /\ (claim_job <$> cs) `sublist_of` (job <$> l.*2)).
Proof.
  revert acc st. induction l as [|p l IH]; intros acc st.
  { intros [= <- <-]. split_and!; [done..|]. intros acc' [= <-]. exists []. by rewrite app_nil_r. }
  cbn [for_each]. unfold bind at 1.
  destruct (job_claim_item_runs now limit ttl acc p st) as [->|(r0 & until & Hs & -> & Hr)].
  - intros Hrun. apply IH in Hrun as (Hc & Hd & Hcs). split_and!; [done..|]. intros acc' Hacc.
    destruct (Hcs acc' Hacc) as (cs & -> & Hsub). exists cs. split; [done|]. cbn. by constructor.
  - destruct r0 as [acc1|e]; [|intros [= <- <-]; by split_and!].
    destruct (Hr acc1 eq_refl) as (x & ->). intros Hrun. apply IH in Hrun as (Hc & Hd & Hcs).
    split_and!; [done..|]. intros acc' Hacc. destruct (Hcs acc' Hacc) as (cs & -> & Hsub).
    rewrite <- app_assoc. eexists. split; [reflexivity|]. cbn. by constructor.
Qed.

(** What an answered claim returns: fenced claims of distinct jobs. *)
Lemma claim_answers now limit ttl st cs st' : store_inv st -> claim now limit ttl st = (Ok cs, st') ->
  NoDup ((fun c => job_id (claim_job c)) <$> cs) /\ Forall (fenced (jobs st) st') cs /\
  decisions st' = decisions st /\ capacity st' = capacity st.
Proof.
  intros Hst Hrun. destruct (job_claim_runs now limit ttl st Hst) as [_ Hf]. rewrite Hrun in Hf.
  split; [|split; [by apply Hf|]]; unfold claim, _claim_arguments, _utc, check_utc in Hrun; monad_unfold;
    destruct (is_utc now); cbn in Hrun; [|done| |done]; destruct (limit <=? 0)%Z; cbn in Hrun; [done| |done|];
    destruct (ttl <=? 0)%Z; cbn in Hrun; [done| |done|];
    apply job_claim_loop_frame in Hrun as (Hc & Hd & Hcs); [|done].
  destruct (Hcs cs eq_refl) as (cs' & -> & Hsub). cbn.
  change (fun c => job_id (claim_job c)) with (job_id ∘ claim_job). rewrite list_fmap_compose.
  eapply sublist_NoDup; [|by apply fmap_sublist].
  rewrite sorted_by_perm, <- !list_fmap_compose.
  rewrite (list_fmap_ext _ fst); [apply Hst|]. intros i [k it] Hi. cbn. eapply inv_job_key; [done|].
  apply d_elem_get; [apply Hst|]. by eapply list_elem_of_lookup_2.
Qed.

(** One iteration of [materialize]. *)
Lemma materialize_one_path policies now limit created p st r st' :
  d_get p.1 (schedules st) = Some p.2 -> schedule_id p.2 = p.1 ->
  materialize_one policies now limit created p st = (r, st') ->
  path st st' /\ forall k, k <> p.1 -> d_get k (schedules st') = d_get k (schedules st).
Proof.
  intros Hget Hid. unfold materialize_one.
  destruct ((limit <=? created)%Z || negb (active p.2) || dt_ltb now (next_run p.2)) eqn:Hskip.
  { intros [= <- <-]. split; [apply rtc_refl|done]. }
  apply orb_false_iff in Hskip as [Hskip _]. apply orb_false_iff in Hskip as [_ Hact].
  apply negb_false_iff in Hact. unfold bind at 1.
  destruct (create_occurrence p.2 created st) as [[n|e] st1] eqn:Hc;
    apply create_occurrence_path in Hc as (Hp1 & Hs1 & Hocc);
    [|intros [= <- <-]; split; [done|intros k _; by rewrite Hs1]].
  unfold bind at 1. destruct (_advance_schedule policies p.2 st1) as [[s'|e] st2] eqn:Hadv;
    pose proof (advance_state _ _ _ _ _ Hadv) as ->; cbn; intros [= <- <-].
  - split.
    + etransitivity; [exact Hp1|]. apply rtc_once. eapply small_advance; [|done|by eapply Hocc|exact Hadv].
      by rewrite Hs1, Hid.
    + intros k Hk. cbn. rewrite d_get_set_ne by congruence. by rewrite Hs1.
  - split; [done|intros k _; by rewrite Hs1].
Qed.

Lemma materialize_loop policies now limit l : NoDup l.*1 -> forall created st,
  (forall k s, (k, s) ∈ l -> d_get k (schedules st) = Some s /\ schedule_id s = k) ->
  path st (snd (for_each l created (materialize_one policies now limit) st)).
Proof.
  induction l as [|[k0 s0] l IH]; intros Hnd created st Hl; [apply rtc_refl|].
  cbn in Hnd. apply NoDup_cons in Hnd as [Hk0 Hnd]. cbn [for_each]. unfold bind.
  destruct (Hl k0 s0 (list_elem_of_here _ _)) as [Hget Hid].
  destruct (materialize_one policies now limit created (k0, s0) st) as [[n|e] st1] eqn:Hm;
    apply materialize_one_path in Hm as [Hp Hf]; [|done..].
  etransitivity; [exact Hp|]. apply IH; [done|]. intros k s Hin.
  destruct (Hl k s) as [Hk Hs]; [by right|]. split; [|done]. rewrite Hf; [done|]. cbn.
  intros ->. apply Hk0, list_elem_of_fmap. by exists (k0, s).
Qed.

Lemma materialize_path policies now limit st : store_inv st ->
  path st (snd (materialize policies now limit st)).
Proof.
  intros Hst. unfold materialize, _utc, check_utc. monad_unfold.
  destruct (is_utc now); cbn; [|apply rtc_refl]. destruct (limit <=? 0)%Z; cbn; [apply rtc_refl|].
  apply materialize_loop.
  - rewrite sorted_by_perm. apply Hst.
  - intros k s Hin. rewrite elem_of_sorted_by in Hin. apply d_elem_get in Hin; [|apply Hst].
    split; [done|by eapply inv_schedule_key].
Qed.

Lemma exec_path o st : op_ok o -> store_inv st -> path st (exec o st).
Proof.
  intros Ho Hst. destruct o; [by apply schedule_path|by apply job_claim_runs|apply succeed_path|apply retry_path
    |apply terminate_path|apply add_schedule_path|by apply materialize_path].
Qed.

Lemma exec_all_path os st : Forall op_ok os -> store_inv st ->
  path st (exec_all os st) /\ store_inv (exec_all os st).
Proof.
  intros Hos. revert st. induction Hos as [|o os Ho _ IH]; intros st Hst; cbn; [split; [apply rtc_refl|done]|].
  pose proof (exec_path o st Ho Hst) as Hp. destruct (IH (exec o st)) as [Hp' Hi]; [by eapply path_inv|].
  split; [by etransitivity|done].
Qed.

(** ** Along a path *)

(** Fencing tokens never decrease; a settled job never changes. *)
Lemma small_job st st' k it : small st st' -> d_get k (jobs st) = Some it ->
  exists it', d_get k (jobs st') = Some it' /\ stored_token it <= stored_token it' /\
    (state (job it) <> SCHEDULED -> job it' = job it).
Proof.
  intros Hstep Hget.
  destruct Hstep as [j Hnew Hok|k0 it0 id until n Hget0 Hsch|k0 it0 j Hget0 Hsch Hns Hid Hok
    |k0 it0 j d Hget0 Hsch Hsu Hid Hok|s Hnew|s s' pol w Hget0 Hact Hocc Hadv]; cbn;
    try (by exists it; split_and!; [done|lia|done]); rewrite d_get_set; case_decide;
    try (by exists it; split_and!; [done|lia|done]); subst; simplify_eq; eexists;
    (split; [reflexivity|split; [cbn; lia|done]]).
Qed.

Lemma path_job st st' k it : path st st' -> d_get k (jobs st) = Some it ->
  exists it', d_get k (jobs st') = Some it' /\ stored_token it <= stored_token it' /\
    (state (job it) <> SCHEDULED -> job it' = job it).
Proof.
  intros Hp. revert it. induction Hp as [st|st st1 st2 Hs _ IH]; intros it Hget.
  { exists it. split_and!; [done|lia|done]. }
  destruct (small_job _ _ _ _ Hs Hget) as (it1 & Hget1 & Ht1 & Hj1).
  destruct (IH it1 Hget1) as (it2 & Hget2 & Ht2 & Hj2). exists it2. split_and!; [done|lia|].
  intros Hn. rewrite Hj2, Hj1; [done..|]. by rewrite Hj1.
Qed.

(** The decisions recorded for a job. *)
Definition decisions_of k st : list (pystr * D) := filter (fun p => p.1 = k) (decisions st).

Lemma path_decisions st st' k it : path st st' -> store_inv st ->
  d_get k (jobs st) = Some it -> state (job it) <> SCHEDULED -> decisions_of k st' = decisions_of k st.
Proof.
  intros Hp. revert it. induction Hp as [st|st st1 st2 Hs _ IH]; intros it Hst Hget Hn; [done|].
  destruct (small_job _ _ _ _ Hs Hget) as (it1 & Hget1 & _ & Hj1).
  rewrite (IH it1); [|by eapply small_inv|done|by rewrite Hj1].
  destruct Hs as [| | |k0 it0 j d Hget0 Hsch _ Hid _| |]; try done.
  unfold decisions_of. cbn. rewrite filter_app, filter_cons, decide_False.
  - cbn. by rewrite app_nil_r.
  - cbn. rewrite Hid, (inv_job_key _ Hst _ _ Hget0). intros ->. congruence.
Qed.

(** A recurring schedule after [n] occurrences. *)
Definition recurs k (i : timedelta) s0 st : Prop :=
  exists s n, d_get k (schedules st) = Some s /\ 0 <= n /\ schedule_id s = schedule_id s0 /\
    schedule_kind s = FIXED_INTERVAL /\ interval s = Some i /\
    sequence s = sequence s0 + n /\ dt_instant (next_run s) = dt_instant (next_run s0) + n * i /\
    forall m, 0 <= m < n ->
      is_Some (d_get (str_app (schedule_id s0) (str_app ":" (str_of_Z (sequence s0 + m)))) (jobs st)).

Lemma small_jobs_stay st st' k : small st st' -> is_Some (d_get k (jobs st)) -> is_Some (d_get k (jobs st')).
Proof. intros Hs [it Hit]. destruct (small_job _ _ _ _ Hs Hit) as (it' & ? & _). eauto. Qed.

Lemma advance_fixed policies s (w w' : store D) s' i :
  schedule_kind s = FIXED_INTERVAL -> interval s = Some i ->
  _advance_schedule policies s w = (Ok s', w') ->
  schedule_id s' = schedule_id s /\ schedule_kind s' = FIXED_INTERVAL /\ interval s' = Some i /\
  sequence s' = sequence s + 1 /\ dt_instant (next_run s') = dt_instant (next_run s) + i.
Proof.
  unfold _advance_schedule. intros Hk Hi. rewrite Hk, Hi. intros Hrun.
  apply bind_ok in Hrun as (next & w1 & Hadd & Hrun). unfold lift in Hadd. injection Hadd as Hadd <-.
  apply dt_add_ok in Hadd as [Hadd _]. rewrite (bump_schedule_id _ _ _ _ _ _ Hrun). cbn. by rewrite Hk, Hi.
Qed.

Lemma small_recurs k i s0 st st' : store_inv st -> small st st' -> recurs k i s0 st -> recurs k i s0 st'.
Proof.
  intros Hst Hstep (s & n & Hget & Hn & Hid & Hk & Hi & Hseq & Hnext & Hjobs).
  assert (forall m, 0 <= m < n -> is_Some (d_get
    (str_app (schedule_id s0) (str_app ":" (str_of_Z (sequence s0 + m)))) (jobs st'))) as Hjobs'.
  { intros m Hm. eapply small_jobs_stay; [exact Hstep|by apply Hjobs]. }
  assert (schedules st' = schedules st -> recurs k i s0 st') as Hsame.
  { intros Heq. exists s, n. by rewrite Heq. }
  pose proof (inv_schedule_key _ Hst _ _ Hget) as Hkey.
  destruct Hstep as [| | | |s1 Hnew|s1 s' pol w Hget1 Hact Hocc Hadv]; [by apply Hsame..| |].
  - exists s, n. cbn. rewrite d_get_set_ne by (intros <-; congruence). done.
  - destruct (decide (schedule_id s1 = k)) as [Heq|Hne].
    + rewrite Heq in Hget1. simplify_eq.
      destruct (advance_fixed _ _ _ _ _ _ Hk Hi Hadv) as (Hid' & Hk' & Hi' & Hseq' & Hnext').
      exists s', (n + 1). cbn. rewrite d_get_set_eq. split_and!; [done|lia|congruence|done|done|lia|lia|].
      intros m Hm. destruct (decide (m = n)) as [->|]; [|apply Hjobs'; lia].
      unfold occurrence_id in Hocc. by rewrite <- Hid, <- Hseq.
    + exists s, n. cbn. rewrite d_get_set_ne by done. done.
Qed.

Lemma path_recurs k i s0 st st' : path st st' -> store_inv st -> recurs k i s0 st -> recurs k i s0 st'.
Proof. induction 1; eauto using small_inv, small_recurs. Qed.

(** ** Properties *)

(** Claims are fenced: a job claimed again gets a strictly greater token, and from then
    on the earlier claim settles nothing, at any later point of any history. *)
Theorem job_superseded_claim_fenced st now1 limit1 ttl1 cs1 st1 c1 os1 now2 limit2 ttl2 cs2 st3 c2 os2
    d reason at_ :
  store_inv st ->
  claim now1 limit1 ttl1 st = (Ok cs1, st1) -> c1 ∈ cs1 -> Forall op_ok os1 ->
  claim now2 limit2 ttl2 (exec_all os1 st1) = (Ok cs2, st3) -> c2 ∈ cs2 ->
  job_id (claim_job c2) = job_id (claim_job c1) -> Forall op_ok os2 ->
  let st4 := exec_all os2 st3 in
  fencing_token c1 < fencing_token c2 /\
  fst (succeed c1 d at_ st4) <> Ok JobSucceeded /\ snd (succeed c1 d at_ st4) = st4 /\
  snd (retry c1 reason at_ st4) = st4 /\ snd (terminate c1 reason at_ st4) = st4.
Proof.
  intros Hst Hrun1 Hc1 Hos1 Hrun2 Hc2 Hk Hos2 st4.
  destruct (job_claim_runs now1 limit1 ttl1 st Hst) as [Hp1 Hf1]. rewrite Hrun1 in Hp1, Hf1. cbn in Hp1, Hf1.
  pose proof (path_inv _ _ Hp1 Hst) as Hst1. destruct (exec_all_path os1 st1 Hos1 Hst1) as [Hp2 Hst2].
  destruct (job_claim_runs now2 limit2 ttl2 _ Hst2) as [Hp3 Hf2]. rewrite Hrun2 in Hp3, Hf2. cbn in Hp3, Hf2.
  pose proof (path_inv _ _ Hp3 Hst2) as Hst3. destruct (exec_all_path os2 st3 Hos2 Hst3) as [Hp4 Hst4].
  specialize (Hf1 _ eq_refl). specialize (Hf2 _ eq_refl). rewrite Forall_forall in Hf1, Hf2.
  destruct (Hf1 c1 Hc1) as (k1 & i1 & i1' & Hin1 & Hj1 & _ & Hget1 & Ht1 & _ & _ & Hj1').
  destruct (Hf2 c2 Hc2) as (k2 & i2 & i2' & Hin2 & Hj2 & Hn2 & Hget2 & Ht2 & _).
  apply d_elem_get in Hin1, Hin2; [|apply Hst2|apply Hst].
  pose proof (inv_job_key _ Hst _ _ Hin1) as Hk1. pose proof (inv_job_key _ Hst2 _ _ Hin2) as Hk2.
  assert (k2 = k1) as -> by congruence.
  destruct (path_job _ _ _ _ Hp2 Hget1) as (x & Hx & Htx & _). rewrite Hin2 in Hx. injection Hx as <-.
  assert (fencing_token c1 < fencing_token c2) as Hlt by lia. split; [done|].
  assert (_valid c1 st4 = None) as Hv.
  { destruct (_valid c1 st4) as [it|] eqn:Hv; [|done]. apply job_valid_Some in Hv as (Hget & _ & Htok & _).
    destruct (path_job _ _ _ _ Hp4 Hget2) as (y & Hy & Hty & _). fold st4 in Hy.
    rewrite Hj1, Hk1 in Hget. rewrite Hy in Hget. simplify_eq. lia. }
  unfold succeed, retry, terminate, _utc, check_utc, _reason. monad_unfold.
  destruct (is_utc at_); cbn; [|done]. rewrite Hv. cbn. split_and!; try done; by destruct (str_empty _); cbn; rewrite ?Hv.
Qed.

(** A job is decided at most once: in every history of a new store each decision
    belongs to a job that succeeded, no job has two decisions, and no attempt count ever
    exceeds the job's limit. *)
Theorem job_decided_once cap os : Forall op_ok os ->
  let st := exec_all os (mkStore cap [] [] [] 0) in
  NoDup (decisions st).*1 /\
  (forall k, k ∈ (decisions st).*1 -> exists it, d_get k (jobs st) = Some it /\ state (job it) = SUCCEEDED) /\
  (forall k it, d_get k (jobs st) = Some it -> job_id (job it) = k /\ 0 <= attempt (job it) <= max_attempts (job it)).
Proof.
  intros Hos st. destruct (exec_all_path os _ Hos (job_inv_initial cap)) as [_ Hst]. fold st in Hst.
  split_and!; [by apply inv_decided|by apply inv_success|]. intros k it Hit.
  split; [by eapply inv_job_key|by eapply inv_attempt].
Qed.

(** A job that succeeded, was terminated or cancelled is final: no later call, claims and
    materialization included, changes it or records another decision for it. *)
Theorem job_outcome_final st os k it : store_inv st -> Forall op_ok os ->
  d_get k (jobs st) = Some it -> state (job it) <> SCHEDULED ->
  (exists it', d_get k (jobs (exec_all os st)) = Some it' /\ job it' = job it) /\
  decisions_of k (exec_all os st) = decisions_of k st.
Proof.
  intros Hst Hos Hget Hs. destruct (exec_all_path os st Hos Hst) as [Hp Hst'].
  destruct (path_job _ _ _ _ Hp Hget) as (it' & Hget' & _ & Hj). split; [exists it'; auto|].
  by eapply path_decisions.
Qed.

(** Fixed-interval schedules neither skip nor repeat an occurrence: after any history, a
    schedule added at [next_run] with period [i] has advanced by some [n] occurrences, its
    next run is exactly [next_run + n * i], its sequence number advanced by [n], and the job
    of each of the [n] occurrences exists under its own identity. *)
Theorem fixed_interval_schedule st s0 i st1 os :
  store_inv st -> schedule_kind s0 = FIXED_INTERVAL -> interval s0 = Some i ->
  add_schedule s0 st = (Ok true, st1) -> Forall op_ok os ->
  exists s n, d_get (schedule_id s0) (schedules (exec_all os st1)) = Some s /\ 0 <= n /\
    sequence s = sequence s0 + n /\ dt_instant (next_run s) = dt_instant (next_run s0) + n * i /\
    forall m, 0 <= m < n ->
      is_Some (d_get (str_app (schedule_id s0) (str_app ":" (str_of_Z (sequence s0 + m))))
        (jobs (exec_all os st1))).
Proof.
  intros Hst Hk Hi Hadd Hos.
  pose proof (add_schedule_path s0 st) as Hp. rewrite Hadd in Hp. cbn in Hp.
  pose proof (path_inv _ _ Hp Hst) as Hst1. destruct (exec_all_path os st1 Hos Hst1) as [Hp1 _].
  assert (recurs (schedule_id s0) i s0 st1) as Hr.
  { exists s0, 0. split_and!; try done; try lia.
    unfold add_schedule, _ensure_capacity in Hadd. run Hadd. cbn. apply d_get_set_eq. }
  destruct (path_recurs _ _ _ _ _ Hp1 Hst1 Hr) as (s & n & ? & ? & _ & _ & _ & ? & ? & ?). by exists s, n.
Qed.
End Steps.

(** ** A run of the runner *)

Section Runner.
Context {D A : Type} `{Uuid4} `{!Uuid4Laws}.
Variable math_log : spec_float -> spec_float.
Variable float_pow : spec_float -> Z -> result exn spec_float.
(** Handlers act on the consumer's own state, next to the store. *)
Variable hs : dict pystr (Job -> M exn A D).
Variable retry_policy : RetryPolicy.
Variable now : datetime.

#[local] Instance run_store : JobStore (store D * A) D := zoomed_JobStore fst_lens.
#[local] Instance run_clock : Clock (store D * A) := ret now.

Definition handlers : dict pystr (Job -> M exn (store D * A) D) :=
  (fun p => (p.1, fun j => zoom snd_lens (p.2 j))) <$> hs.

Definition run (limit : Z) (ttl : timedelta) : M exn (store D * A) JobRunSummary :=
  run_once math_log float_pow handlers retry_policy limit ttl.

(** The reason a failure is recorded with; it must not be blank. *)
Definition failure_reason (e : exn) : pystr :=
  match e with PermanentJobError m => m | _ => exn_name e end.
Definition sanitized (r : pystr) : pystr := str_take 512 (str_join " " (str_split r)).

Hypothesis failures_named : forall h j a e a',
  h ∈ hs.*2 -> h j a = (Raise e, a') -> str_empty (sanitized (failure_reason e)) = false.
Hypothesis delays_fit : forall n, 1 <= n ->
  exists d, delay math_log float_pow retry_policy n = Ok d /\ 0 <= dt_wall now + d <= dt_max.
Hypothesis now_utc : is_utc now = true.

(** A job that can still be retried, as the constructor builds it. *)
Definition runnable (j : Job) : Prop :=
  str_empty (job_id j) = false /\ str_empty (task j) = false /\ 0 <= attempt j < max_attempts j /\
  validate_json_with Limits_default (payload j) = Ok tt /\ is_utc (run_at j) = true.

Lemma replace_job_runs {S} j at_ n sta failure (w : S) : runnable j -> 0 <= n <= max_attempts j ->
  is_utc at_ = true ->
  replace_job j at_ n sta failure w = (Ok (mkJob (job_id j) (task j) (payload j) at_ (max_attempts j) n sta failure), w).
Proof.
  intros (Hid & Ht & Ha & Hv & _) Hn Hu. unfold replace_job, Job_new, validate_json, _utc, check_utc. monad_unfold.
  rewrite Hid, Ht. cbn. rewrite (proj2 (Z.leb_gt _ _)) by lia. rewrite !(proj2 (Z.leb_le _ _)) by lia. cbn.
  rewrite Hv. cbn. by rewrite Hu.
Qed.

Definition owned c (st : store D) : Prop :=
  exists it, _valid c st = Some it /\ job it = claim_job c /\ runnable (job it).

(** What a settled claim leaves behind. *)
Definition settled_to c (st st' : store D) : Prop :=
  exists it ds, st' = mkStore (capacity st) (d_set (job_id (claim_job c)) it (jobs st)) (schedules st) ds (uuid_draws st) /\
    (length ds <= S (length (decisions st)))%nat.

Lemma job_owned_other c c' st st' : settled_to c st st' -> job_id (claim_job c) <> job_id (claim_job c') ->
  owned c' st -> owned c' st'.
Proof.
  intros (it & ds & -> & _) Hne (x & Hv & Hx). exists x. split; [|done]. unfold _valid in *. cbn.
  by rewrite d_get_set_ne.
Qed.

Lemma d_get_handlers k : d_get k handlers = (fun h j => zoom (W := store D * A) snd_lens (h j)) <$> d_get k hs.
Proof.
  unfold handlers. induction hs as [|[k' h] l IH]; [done|]. cbn. case_decide; [done|]. apply IH.
  intros h' j a e a' Hh. apply failures_named. by right.
Qed.

Lemma exn_blank e : str_empty (sanitized (exn_name (KeyError e))) = false.
Proof. vm_compute. done. Qed.

(** A failure of an owned claim is recorded as a retry or a termination. *)
Lemma retry_settles c reason st (a : A) w : owned c st -> str_empty (sanitized reason) = false ->
  exists t st', port_retry_job c reason (utc w) (st, a) = (Ok t, (st', a)) /\ t <> StaleJobClaim /\ settled_to c st st'.
Proof.
  intros (it & Hv & Hj & Hr) Hs. pose proof Hr as (_ & _ & Ha & _ & Hu). cbn. unfold zoom. cbn.
  unfold retry, _utc, check_utc, _reason. monad_unfold. rewrite is_utc_utc. cbn. fold (sanitized reason). rewrite Hs. cbn.
  rewrite Hv. destruct (max_attempts (job it) <=? attempt (job it) + 1)%Z eqn:Hm; time_facts;
    rewrite replace_job_runs by (done || lia); cbn; eexists _, _; (split; [reflexivity|split; [done|]]);
    eexists _, _; (split; [reflexivity|lia]).
Qed.

Lemma terminate_settles c reason st (a : A) : owned c st -> str_empty (sanitized reason) = false ->
  exists t st', port_terminate c reason now (st, a) = (Ok t, (st', a)) /\ t <> StaleJobClaim /\ settled_to c st st'.
Proof.
  intros (it & Hv & Hj & Hr) Hs. pose proof Hr as (_ & _ & Ha & _ & Hu). cbn. unfold zoom. cbn.
  unfold terminate, _utc, check_utc, _reason. monad_unfold. rewrite now_utc. cbn. fold (sanitized reason). rewrite Hs. cbn.
  rewrite Hv, replace_job_runs by (done || lia). cbn. eexists _, _. split; [reflexivity|split; [done|]].
  eexists _, _. split; [reflexivity|lia].
Qed.

Lemma succeed_settles c d st (a : A) : owned c st -> Z.of_nat (length (decisions st)) < capacity st ->
  exists t st', port_succeed c d now (st, a) = (Ok t, (st', a)) /\ t <> StaleJobClaim /\ settled_to c st st'.
Proof.
  intros (it & Hv & Hj & Hr) Hcap. pose proof Hr as (_ & _ & Ha & _ & Hu). cbn. unfold zoom. cbn.
  unfold succeed, _utc, check_utc. monad_unfold. rewrite now_utc. cbn. rewrite Hv. cbn.
  rewrite (proj2 (Z.leb_gt _ _)) by lia. cbn. rewrite replace_job_runs by (done || lia). cbn.
  eexists _, _. split; [reflexivity|split; [done|]]. eexists _, _. split; [reflexivity|].
  cbn. rewrite length_app. cbn. lia.
Qed.

(** One owned claim: whatever its handler does, the outcome is recorded. *)
Lemma run_claim_settles c st a : owned c st -> Z.of_nat (length (decisions st)) < capacity st ->
  exists t st' a', run_claim math_log float_pow handlers retry_policy now c (st, a) = (Ok t, (st', a')) /\
    t <> StaleJobClaim /\ settled_to c st st'.
Proof.
  intros Hown Hcap. pose proof Hown as (it & _ & Hj & (_ & _ & Ha & _)). rewrite Hj in Ha.
  assert (forall e st1, str_empty (sanitized (exn_name e)) = false -> owned c st1 -> forall a1, exists t st' a',
    (let! wait := lift (delay math_log float_pow retry_policy (attempt (claim_job c) + 1)) in
     let! at_ := lift (dt_add now wait) in port_retry_job c (exn_name e) at_) (st1, a1) = (Ok t, (st', a')) /\
    t <> StaleJobClaim /\ settled_to c st1 st') as Hretry.
  { intros e st1 Hs Ho a1. destruct (delays_fit (attempt (claim_job c) + 1)) as (d & Hd & Hfit); [lia|].
    assert (dt_add now d = Ok (utc (dt_wall now + d))) as Hadd
      by (rewrite (is_utc_eq now now_utc); by apply dt_add_utc).
    destruct (retry_settles c (exn_name e) st1 a1 (dt_wall now + d) Ho Hs) as (t & st' & Hrun & Ht & Hset).
    exists t, st', a1. split; [|done]. unfold bind, lift. rewrite Hd, Hadd. exact Hrun. }
  unfold run_claim, call_handler. rewrite d_get_handlers.
  destruct (d_get (task (claim_job c)) hs) as [h|] eqn:Hh; cbn [fmap option_fmap option_map].
  - assert (h ∈ hs.*2) as Hin by (apply list_elem_of_fmap; eexists (_, h); split; [done|by apply d_get_elem]).
    unfold zoom at 1. cbn [view update snd_lens fst snd].
    destruct (h (claim_job c) a) as [[d|e] a'] eqn:Hrun.
    + destruct (succeed_settles c d st a' Hown Hcap) as (t & st' & Hs & Ht & Hset). by exists t, st', a'.
    + pose proof (failures_named _ _ _ _ _ Hin Hrun) as Hname.
      destruct e; try (by apply Hretry).
      destruct (terminate_settles c message st a' Hown Hname) as (t & st' & Hs & Ht & Hset). by exists t, st', a'.
  - unfold raise. apply (Hretry (KeyError _)); [apply exn_blank|done].
Qed.

Lemma run_loop_settles cs : NoDup ((fun c => job_id (claim_job c)) <$> cs) ->
  forall acc st a, Forall (fun c => owned c st) cs ->
  Z.of_nat (length (decisions st)) + Z.of_nat (length cs) <= capacity st ->
  exists acc' w', for_each cs acc (fun acc c =>
      let! t := run_claim math_log float_pow handlers retry_policy now c in ret (count_transition acc t)) (st, a) =
    (Ok acc', w') /\
    acc'.1.1 + acc'.1.2 + acc'.2 = acc.1.1 + acc.1.2 + acc.2 + Z.of_nat (length cs).
Proof.
  induction cs as [|c cs IH]; intros Hnd acc st a Hown Hcap; cbn in Hnd.
  { exists acc, (st, a). split; [done|cbn; lia]. }
  apply NoDup_cons in Hnd as [Hc Hnd]. inversion Hown as [|? ? Ho Hos]; subst. cbn [length] in Hcap.
  destruct (run_claim_settles c st a Ho) as (t & st' & a' & Hrun & Ht & Hset); [lia|].
  cbn [for_each]. erewrite bind_run; [|erewrite bind_run; [|exact Hrun]; reflexivity].
  pose proof Hset as (it & ds & Hst' & Hlen).
  edestruct (IH Hnd (count_transition acc t) st' a') as (acc' & w' & Hloop & Hsum).
  - rewrite Forall_forall in Hos |- *. intros c' Hin. eapply job_owned_other; [done| |by apply Hos].
    intros Heq. apply Hc. rewrite Heq. apply list_elem_of_fmap. by exists c'.
  - subst st'. cbn. lia.
  - exists acc', w'. split; [exact Hloop|]. rewrite Hsum. destruct acc as [[x y] z].
    destruct t; cbn; try done; lia.
Qed.

(** A run settles every job it claims: when handlers fail only with non-blank reasons, the
    back-off fits the calendar, the due jobs have attempts left and the store has room for
    their decisions, [run_once] returns, whatever the handlers answer or raise, and each
    claimed job is counted once as succeeded, retried or terminated. *)
Theorem run_once_settles_all limit ttl st a cs st1 :
  store_inv st ->
  (forall k it, d_get k (jobs st) = Some it -> state (job it) = SCHEDULED -> runnable (job it)) ->
  claim now limit ttl st = (Ok cs, st1) ->
  Z.of_nat (length (decisions st)) + Z.of_nat (length cs) <= capacity st ->
  exists s w', run limit ttl (st, a) = (Ok s, w') /\
    run_claimed s = Z.of_nat (length cs) /\
    run_succeeded s + run_retried s + run_terminated s = run_claimed s.
Proof.
  intros Hst Hrunnable Hclaim Hcap.
  destruct (claim_answers now limit ttl st cs st1 Hst Hclaim) as (Hnd & Hfen & Hdec & Hcp).
  destruct (run_loop_settles cs Hnd (0, 0, 0) st1 a) as ([[x y] z] & w' & Hloop & Hsum).
  - apply Forall_forall. intros c Hc. rewrite Forall_forall in Hfen.
    destruct (Hfen c Hc) as (k & it & it' & Hin & Hj & Hn & Hget & Ht & Hid & Hs & Hj').
    apply d_elem_get in Hin; [|apply Hst]. pose proof (inv_job_key _ Hst _ _ Hin) as Hk.
    exists it'. split; [|split; [congruence|rewrite Hj'; by eapply Hrunnable]].
    unfold _valid. rewrite Hj, Hk, Hget, Hid, Ht, Z.eqb_refl, Hj', Hs. cbn.
    by rewrite !bool_decide_true by done.
  - rewrite Hdec, Hcp. lia.
  - exists (mkRunSummary (Z.of_nat (length cs)) x y z), w'. split; [|cbn in *; split; lia].
    unfold run, run_once. erewrite bind_run; [|reflexivity].
    erewrite bind_run; [|cbn; unfold zoom; cbn; rewrite Hclaim; reflexivity].
    by rewrite (bind_run _ _ _ _ _ Hloop).
Qed.
End Runner.

(** ** Concrete runs *)

Section Witnesses.
#[local] Existing Instance unary_uuid.
#[local] Existing Instance unary_uuid_laws.

Definition demo_job (id : pystr) (n : Z) : Job := mkJob id "t" JNull (utc 100) 3 n SCHEDULED None.
Definition demo_empty : store Z := mkStore 9 [] [] [] 0.
Definition demo_store : store Z := exec_all [OpSchedule (demo_job "a" 0)] demo_empty.
Definition demo_claim (n : nat) (token until : Z) : JobClaim :=
  mkClaim (demo_job "a" 0) (uuid4_hex n) (utc until) token.
Definition demo_claimed : store Z := exec (OpClaim (utc 120) 2 50) demo_store.
Definition demo_reclaimed : store Z := exec (OpClaim (utc 170) 2 50) demo_claimed.

Lemma job_demo_store_inv : store_inv demo_store.
Proof. apply exec_all_path; [repeat constructor; vm_compute; congruence|apply job_inv_initial]. Qed.

Lemma job_superseded_claim_fenced_witness :
  1 < 2 /\ fst (succeed (demo_claim 0 1 170) 5 (utc 175) demo_reclaimed) <> Ok JobSucceeded.
Proof.
  pose proof (job_superseded_claim_fenced demo_store (utc 120) 2 50 [demo_claim 0 1 170] demo_claimed
    (demo_claim 0 1 170) [] (utc 170) 2 50 [demo_claim 1 2 220] demo_reclaimed (demo_claim 1 2 220) []
    5 "r" (utc 175) job_demo_store_inv eq_refl (list_elem_of_here _ _) (Forall_nil_2 _) eq_refl (list_elem_of_here _ _)
    eq_refl (Forall_nil_2 _)) as (Hlt & Hs & _).
  split; [exact Hlt|exact Hs].
Defined.

Definition demo_ops : list (op Z) :=
  [OpSchedule (demo_job "a" 0); OpClaim (utc 120) 2 50; OpSucceed (demo_claim 0 1 170) 5 (utc 130);
   OpSucceed (demo_claim 0 1 170) 6 (utc 131)].

Example demo_decided : decisions (exec_all demo_ops demo_empty) = [("a"%py, 5)].
Proof. vm_compute. reflexivity. Qed.

Lemma job_decided_once_witness : NoDup (decisions (exec_all demo_ops demo_empty)).*1.
Proof.
  apply (job_decided_once 9 demo_ops). repeat (apply Forall_cons; split); [vm_compute; split; congruence|exact I..|constructor].
Defined.

Definition demo_done : store Z := exec (OpSucceed (demo_claim 0 1 170) 5 (utc 130)) demo_claimed.
Definition demo_stored : StoredJob := mkStored (mkJob "a" "t" JNull (utc 100) 3 0 SUCCEEDED None) None None 1.

Lemma demo_done_inv : store_inv demo_done.
Proof.
  eapply path_inv; [apply (exec_path (OpSucceed _ _ _) _ I)|]; (eapply path_inv; [apply (exec_path (OpClaim _ _ _) _ I)|]);
    apply job_demo_store_inv.
Qed.

Lemma job_outcome_final_witness :
  (exists it', d_get "a" (jobs (exec_all [OpClaim (utc 999) 5 5] demo_done)) = Some it' /\ job it' = job demo_stored) /\
  decisions_of "a" (exec_all [OpClaim (utc 999) 5 5] demo_done) = decisions_of "a" demo_done.
Proof.
  apply (job_outcome_final demo_done [OpClaim (utc 999) 5 5] "a" demo_stored);
    [apply demo_done_inv|repeat constructor|reflexivity|discriminate].
Defined.

Definition demo_schedule : JobSchedule :=
  mkSchedule "s" "t" JNull (utc 100) FIXED_INTERVAL (Some 10) None 3 0 true.
Definition demo_scheduled : store Z := exec (OpAddSchedule demo_schedule) demo_empty.
Definition demo_ticks : list (op Z) := [OpMaterialize [] (utc 105) 9; OpMaterialize [] (utc 125) 9].

(** Two occurrences, at 100 and 110; the next one is due at 120. *)
Example demo_recurrence :
  ((fun p => (p.1, dt_wall (run_at (job p.2)))) <$> jobs (exec_all demo_ticks demo_scheduled)) =
    [("s:0"%py, 100); ("s:1"%py, 110)].
Proof. vm_compute. reflexivity. Qed.

Lemma fixed_interval_schedule_witness :
  exists s n, d_get "s" (schedules (exec_all demo_ticks demo_scheduled)) = Some s /\ 0 <= n /\
    sequence s = 0 + n /\ dt_instant (next_run s) = 100 + n * 10 /\
    forall m, 0 <= m < n ->
      is_Some (d_get (str_app "s" (str_app ":" (str_of_Z (0 + m)))) (jobs (exec_all demo_ticks demo_scheduled))).
Proof.
  apply (fixed_interval_schedule demo_empty demo_schedule 10 demo_scheduled demo_ticks);
    [apply job_inv_initial|reflexivity|reflexivity|vm_compute; reflexivity|repeat constructor].
Defined.

(** A handler that fails once a job has been retried, and succeeds at first. *)
Definition demo_handler (j : Job) : M exn Z Z := fun a =>
  if decide (attempt j = 0) then (Ok 1, a + 1) else (Raise (OtherError "Oops" "no"), a).
Definition demo_handlers : dict pystr (Job -> M exn Z Z) := [("t"%py, demo_handler)].
Definition flat_policy : RetryPolicy := mkRetryPolicy (seconds 1) float_two (seconds 1) 10.
Definition demo_log : spec_float -> spec_float := fun x => x.
Definition demo_pow : spec_float -> Z -> result exn spec_float := fun x _ => Ok x.

Lemma run_once_settles_all_witness :
  exists s w', run demo_log demo_pow demo_handlers flat_policy (utc 120) 2 50 (demo_store, 0) = (Ok s, w') /\
    run_claimed s = 1 /\ run_succeeded s + run_retried s + run_terminated s = run_claimed s.
Proof.
  apply (run_once_settles_all demo_log demo_pow demo_handlers flat_policy (utc 120)) with
    (cs := [demo_claim 0 1 170]) (st1 := demo_claimed).
  - intros h j a e a' Hin Hrun. apply list_elem_of_singleton in Hin as ->. unfold demo_handler in Hrun.
    cbn in Hrun. unfold demo_handler in Hrun. destruct (decide _); simplify_eq. vm_compute. reflexivity.
  - intros n Hn. exists (seconds 1). unfold delay. rewrite (proj2 (Z.ltb_ge n 1)) by lia.
    split; [reflexivity|vm_compute; split; congruence].
  - reflexivity.
  - apply job_demo_store_inv.
  - intros k it Hit _. apply d_get_elem in Hit. vm_compute in Hit. apply list_elem_of_singleton in Hit.
    injection Hit as -> ->. vm_compute. split_and!; congruence.
  - vm_compute. reflexivity.
  - vm_compute. congruence.
Defined.

(** *** Two behaviours of the code that its callers may not expect *)

(** [raise PermanentJobError] without a message: its reason is blank, [terminate] refuses it,
    and the [ValueError] leaves [run_once] instead of terminating the job. *)
Lemma permanent_error_without_message_escapes :
  fst (run demo_log demo_pow [("t"%py, fun _ => raise (PermanentJobError ""))] flat_policy (utc 120) 2 50
    (demo_store, 0)) = Raise (ValueError "job failure reason must not be empty").
Proof. vm_compute. reflexivity. Qed.

(** A job built with [attempt == max_attempts], which the constructor accepts, cannot be
    retried: the replacement has one attempt too many and is refused. *)
Lemma retry_at_the_limit_raises :
  let st := exec (OpClaim (utc 120) 2 50) (exec (OpSchedule (demo_job "a" 3)) demo_empty) in
  fst (Job_new "a" "t" JNull (utc 100) 3 3 SCHEDULED None tt) = Ok (demo_job "a" 3) /\
  fst (retry (mkClaim (demo_job "a" 3) (uuid4_hex 0) (utc 170) 1) "boom" (utc 130) st) =
    Raise (ValueError "job attempts are invalid").
Proof. split; vm_compute; reflexivity. Qed.
End Witnesses.
