(* ===== verification/Processes.v ===== *)
(** * Process managers ([src/pytitect/processes.py])

    Versioned process states with their effects and timers, the reference store
    [InMemoryProcessManagerStore], the registry of deciders and the runtime that applies one
    decision per input. *)
From Stdlib Require Import ZArith Lia.
From stdpp Require Import base list gmap.
From S2P Require Import Prelude Core.

(** ** Data *)

Record ProcessKey := mkProcessKey {
  process_name : pystr;
  instance_id : pystr
}.

#[export] Instance ProcessKey_eq_dec : EqDecision ProcessKey.
Proof. solve_decision. Defined.

Definition ProcessKey_new {S} (n i : pystr) : M exn S ProcessKey :=
  raise_if (str_empty n || str_empty i) (ValueError "process name and instance ID must not be empty") ;;;
  ret (mkProcessKey n i).

Inductive ProcessStatus := RUNNING | COMPENSATING | COMPLETED | COMPENSATED | FAILED.
Inductive ProcessEffectKind := INTEGRATION_EVENT | COMMAND | TASK | COMPENSATION.

Definition _utc {S} (value : datetime) : M exn S unit :=
  check_utc value "process timestamps must be timezone-aware UTC".

Record ProcessEffect := mkEffect {
  effect_id : pystr;
  effect_kind : ProcessEffectKind;
  effect_name : pystr;
  effect_payload : json
}.

Definition ProcessEffect_new {S} (id : pystr) (k : ProcessEffectKind) (n : pystr) (p : json) :
    M exn S ProcessEffect :=
  raise_if (str_empty id || str_empty n)
    (ValueError "process effect identity and name must not be empty") ;;;
  validate_json p ;;;
  ret (mkEffect id k n p).

Record TimerSchedule := mkTimerSchedule {
  schedule_timer_id : pystr;
  schedule_due_at : datetime;
  schedule_effect : ProcessEffect
}.

Definition TimerSchedule_new {S} (id : pystr) (due : datetime) (e : ProcessEffect) : M exn S TimerSchedule :=
  raise_if (str_empty id) (ValueError "timer ID must not be empty") ;;;
  _utc due ;;;
  ret (mkTimerSchedule id due e).

Record ProcessState := mkProcessState {
  state_key : ProcessKey;
  version : Z;
  status : ProcessStatus;
  state_value : json;
  updated_at : datetime
}.

Definition ProcessState_new {S} (k : ProcessKey) (v : Z) (s : ProcessStatus) (value : json) (at_ : datetime) :
    M exn S ProcessState :=
  raise_if (v <=? 0)%Z (ValueError "process version must be positive") ;;;
  validate_json value ;;;
  _utc at_ ;;;
  ret (mkProcessState k v s value at_).

Record ProcessDecision := mkDecision {
  decision_state : json;
  decision_status : ProcessStatus;
  effects : list ProcessEffect;
  schedule : list TimerSchedule;
  cancel_timers : list pystr
}.

Definition ProcessDecision_new {S} (value : json) (s : ProcessStatus) (es : list ProcessEffect)
    (ts : list TimerSchedule) (cs : list pystr) : M exn S ProcessDecision :=
  validate_json value ;;;
  raise_if (negb (bool_decide (NoDup (effect_id <$> es))) || negb (bool_decide (NoDup (schedule_timer_id <$> ts))))
    (ValueError "process effect and timer IDs must be unique per decision") ;;;
  raise_if (existsb (fun t => bool_decide (schedule_timer_id t ∈ cs)) ts)
    (ValueError "a timer cannot be scheduled and cancelled in one decision") ;;;
  ret (mkDecision value s es ts cs).

Inductive ProcessApplyResult :=
  | ProcessApplied (state : ProcessState) (effects timers_scheduled timers_cancelled : Z)
  | StaleProcessVersion (expected actual : Z).

Record ProcessTimer := mkTimer {
  timer_process : ProcessKey;
  timer_id : pystr;
  due_at : datetime;
  timer_effect : ProcessEffect;
  fencing_token : Z
}.

Record ProcessTimerClaim := mkTimerClaim {
  claim_timer : ProcessTimer;
  claim_id : pystr;
  claimed_until : datetime
}.

Definition ProcessTimerClaim_new {S} (t : ProcessTimer) (id : pystr) (until : datetime) :
    M exn S ProcessTimerClaim :=
  raise_if (str_empty id) (ValueError "timer claim ID must not be empty") ;;;
  _utc until ;;;
  ret (mkTimerClaim t id until).

Definition _claim_arguments {S} (limit : Z) (claim_ttl : timedelta) : M exn S unit :=
  raise_if (limit <=? 0)%Z (ValueError "claim limit must be a positive integer") ;;;
  raise_if (claim_ttl <=? 0)%Z (ValueError "claim ttl must be positive").

Class ProcessManagerStore (W : Type) := {
  port_load : ProcessKey -> M exn W (option ProcessState);
  port_apply : ProcessKey -> Z -> ProcessDecision -> datetime -> M exn W ProcessApplyResult;
  port_claim_timers : datetime -> Z -> timedelta -> M exn W (list ProcessTimerClaim);
  port_complete_timer : ProcessTimerClaim -> M exn W bool
}.

(** ** The in-memory store *)

(** [_Timer]. *)
Record StoredTimer := mkStoredTimer {
  value : ProcessTimer;
  terminal : bool;
  stored_claim_id : option pystr;
  stored_claimed_until : option datetime
}.

Abbreviation timer_key := (ProcessKey * pystr)%type.

Record store := mkStore {
  capacity : Z;
  states : dict ProcessKey ProcessState;
  timers : dict timer_key StoredTimer;
  recorded_effects : dict pystr (ProcessKey * ProcessEffect);
  uuid_draws : nat
}.

Definition InMemoryProcessManagerStore_new {S} (cap : Z) : M exn S store :=
  raise_if (cap <=? 0)%Z (ValueError "process store capacity must be a positive integer") ;;;
  ret (mkStore cap [] [] [] 0).

Definition set_timers (d : dict timer_key StoredTimer) (st : store) : store :=
  mkStore (capacity st) (states st) d (recorded_effects st) (uuid_draws st).

(** [pending_effects]: in the order of the effect identities. *)
Definition pending_effects (st : store) : list (ProcessKey * ProcessEffect) :=
  (sorted_by str_compare fst (recorded_effects st)).*2.

Definition load (k : ProcessKey) : M exn store (option ProcessState) := gets (fun st => d_get k (states st)).

(** The loop over [decision.cancel_timers], with its count. *)
Definition cancel_one (k : ProcessKey) (acc : dict timer_key StoredTimer * Z) (id : pystr) :
    dict timer_key StoredTimer * Z :=
  match d_get (k, id) acc.1 with
  | Some pending =>
      if terminal pending then acc
      else (d_set (k, id) (mkStoredTimer (value pending) true (stored_claim_id pending)
              (stored_claimed_until pending)) acc.1, acc.2 + 1)
  | None => acc
  end.

(** The loop over [decision.schedule]. *)
Definition add_timer (k : ProcessKey) (ts : dict timer_key StoredTimer) (t : TimerSchedule) :
    dict timer_key StoredTimer :=
  d_set (k, schedule_timer_id t)
    (mkStoredTimer (mkTimer k (schedule_timer_id t) (schedule_due_at t) (schedule_effect t) 0) false None None) ts.

(** The loop over [decision.effects]. *)
Definition add_effect (k : ProcessKey) (es : dict pystr (ProcessKey * ProcessEffect)) (e : ProcessEffect) :
    dict pystr (ProcessKey * ProcessEffect) :=
  d_set (effect_id e) (k, e) es.

Definition apply (k : ProcessKey) (expected_version : Z) (decision : ProcessDecision) (at_ : datetime) :
    M exn store ProcessApplyResult :=
  _utc at_ ;;;
  raise_if (expected_version <? 0)%Z (ValueError "expected process version must not be negative") ;;;
  let! st := get in
  let current := d_get k (states st) in
  let actual := match current with None => 0 | Some s => version s end in
  if negb (actual =? expected_version)%Z then ret (StaleProcessVersion expected_version actual)
  else
    raise_if (existsb (fun t => d_mem (k, schedule_timer_id t) (timers st)) (schedule decision))
      (ValueError "scheduled timer ID already exists") ;;;
    raise_if (existsb (fun e => d_mem (effect_id e) (recorded_effects st)) (effects decision))
      (ValueError "process effect ID already exists") ;;;
    let new_items := (match current with None => 1 | Some _ => 0 end)
      + Z.of_nat (length (schedule decision)) + Z.of_nat (length (effects decision)) in
    let total := d_len (states st) + d_len (timers st) + d_len (recorded_effects st) in
    raise_if (capacity st <? total + new_items)%Z (OverflowError "process store capacity exceeded") ;;;
    let! state := ProcessState_new k (actual + 1) (decision_status decision) (decision_state decision) at_ in
    let '(ts, cancelled) := fold_left (cancel_one k) (cancel_timers decision) (timers st, 0) in
    put (mkStore (capacity st) (d_set k state (states st))
      (fold_left (add_timer k) (schedule decision) ts)
      (fold_left (add_effect k) (effects decision) (recorded_effects st)) (uuid_draws st)) ;;;
    ret (ProcessApplied state (Z.of_nat (length (effects decision))) (Z.of_nat (length (schedule decision)))
      cancelled).

Definition timer_sort_key (p : timer_key * StoredTimer) : Z * (pystr * (pystr * pystr)) :=
  (dt_instant (due_at (value p.2)),
    (process_name (timer_process (value p.2)),
      (instance_id (timer_process (value p.2)), timer_id (value p.2)))).
Definition timer_compare :=
  pair_compare Z.compare (pair_compare str_compare (pair_compare str_compare str_compare)).

Section InMemory.
Context `{Uuid4}.

(** [uuid.uuid4().hex]. *)
Definition draw_uuid : M exn store pystr :=
  let! n := gets uuid_draws in
  modify (fun st => mkStore (capacity st) (states st) (timers st) (recorded_effects st) (S n)) ;;;
  ret (uuid4_hex n).

Definition put_timer (k : timer_key) (t : StoredTimer) : M exn store unit :=
  modify (fun st => set_timers (d_set k t (timers st)) st).

(** One iteration of [claim_timers]: token, claim identifier and expiry are assigned one
    after the other. *)
Definition claim_item (now : datetime) (limit : Z) (claim_ttl : timedelta)
    (claims : list ProcessTimerClaim) (p : timer_key * StoredTimer) :
    M exn store (list ProcessTimerClaim) :=
  let t := p.2 in
  if (limit <=? Z.of_nat (length claims))%Z then ret claims
  else if terminal t || dt_ltb now (due_at (value t)) then ret claims
  else if match stored_claimed_until t with Some u => dt_ltb now u | None => false end then ret claims
  else
    let v := mkTimer (timer_process (value t)) (timer_id (value t)) (due_at (value t))
               (timer_effect (value t)) (fencing_token (value t) + 1) in
    let! id := draw_uuid in
    put_timer p.1 (mkStoredTimer v (terminal t) (Some id) (stored_claimed_until t)) ;;;
    let! until := lift (dt_add now claim_ttl) in
    put_timer p.1 (mkStoredTimer v (terminal t) (Some id) (Some until)) ;;;
    let! c := ProcessTimerClaim_new v id until in
    ret (claims ++ [c]).

Definition claim_timers (now : datetime) (limit : Z) (claim_ttl : timedelta) :
    M exn store (list ProcessTimerClaim) :=
  _utc now ;;;
  _claim_arguments limit claim_ttl ;;;
  let! eligible := gets (fun st => sorted_by timer_compare timer_sort_key (timers st)) in
  for_each eligible [] (claim_item now limit claim_ttl).

Definition complete_timer (c : ProcessTimerClaim) : M exn store bool :=
  let identity := (timer_process (claim_timer c), timer_id (claim_timer c)) in
  let! stored := gets (fun st => d_get identity (timers st)) in
  match stored with
  | None => ret false
  | Some t =>
      if terminal t || negb (bool_decide (stored_claim_id t = Some (claim_id c)))
         || negb (fencing_token (value t) =? fencing_token (claim_timer c))%Z
      then ret false
      else
        put_timer identity (mkStoredTimer (value t) true None None) ;;;
        ret true
  end.

#[export] Instance InMemory_ProcessManagerStore : ProcessManagerStore store := {
  port_load := load;
  port_apply := apply;
  port_claim_timers := claim_timers;
  port_complete_timer := complete_timer
}.
End InMemory.

(** ** Registry and runtime *)

Definition ProcessDecider : Type := option ProcessState -> json -> result exn ProcessDecision.

Record ProcessManagerBinding := mkBinding {
  binding_name : pystr;
  decide_with : ProcessDecider
}.

Definition ProcessManagerBinding_new {S} (n : pystr) (f : ProcessDecider) : M exn S ProcessManagerBinding :=
  raise_if (str_empty n) (ValueError "process-manager binding name must not be empty") ;;;
  ret (mkBinding n f).

Definition ProcessManagerRegistry : Type := dict pystr ProcessDecider.

Definition ProcessManagerRegistry_new {S} (bindings : list ProcessManagerBinding) :
    M exn S ProcessManagerRegistry :=
  for_each bindings [] (fun values b =>
    raise_if (d_mem (binding_name b) values)
      (ValueError (str_app "duplicate process-manager binding: " (binding_name b))) ;;;
    ret (d_set (binding_name b) (decide_with b) values)).

Definition require (r : ProcessManagerRegistry) (n : pystr) : result exn ProcessDecider :=
  match d_get n r with
  | Some f => Ok f
  | None => Raise (LookupError (str_app "unknown process manager: " n))
  end.

(** [ProcessManagerRuntime.handle]. *)
Definition handle {W} `{!ProcessManagerStore W, !Clock W} (r : ProcessManagerRegistry) (k : ProcessKey)
    (input : json) : M exn W ProcessApplyResult :=
  validate_json input ;;;
  let! current := port_load k in
  let expected := match current with None => 0 | Some s => version s end in
  let! decider := lift (require r (process_name k)) in
  let! decision := lift (decider current input) in
  let! now := clock_now in
  port_apply k expected decision now.

(** ** Histories *)

Inductive op :=
  | OpApply (k : ProcessKey) (expected : Z) (d : ProcessDecision) (at_ : datetime)
  | OpClaim (now : datetime) (limit : Z) (ttl : timedelta)
  | OpComplete (c : ProcessTimerClaim).

Section Proofs.
Context `{Uuid4}.
Implicit Types (st : store) (t : StoredTimer) (d : ProcessDecision).

Definition exec (o : op) st : store :=
  match o with
  | OpApply k v d at_ => snd (apply k v d at_ st)
  | OpClaim now limit ttl => snd (claim_timers now limit ttl st)
  | OpComplete c => snd (complete_timer c st)
  end.

Definition exec_all (os : list op) st : store := fold_left (fun st o => exec o st) os st.

(** The uniqueness a decision passed when it was built. *)
Definition decision_ok d : Prop :=
  NoDup (effect_id <$> effects d) /\ NoDup (schedule_timer_id <$> schedule d).

Lemma ProcessDecision_new_ok {S} v s es ts cs (w w' : S) d :
  ProcessDecision_new v s es ts cs w = (Ok d, w') -> decision_ok d.
Proof.
  unfold ProcessDecision_new. intros Hrun. apply bind_ok in Hrun as (? & w1 & _ & Hrun).
  apply bind_ok in Hrun as (? & w2 & Hr & Hrun). apply bind_ok in Hrun as (? & w3 & _ & Hrun).
  inversion Hrun; subst. unfold raise_if in Hr.
  destruct (bool_decide (NoDup (effect_id <$> es))) eqn:H1; cbn in Hr; [|done].
  destruct (bool_decide (NoDup (schedule_timer_id <$> ts))) eqn:H2; cbn in Hr; [|done].
  apply bool_decide_eq_true in H1, H2. by split.
Qed.

(** ** What may happen to the records *)

Record timer_later t t' : Prop := {
  later_process : timer_process (value t') = timer_process (value t);
  later_id : timer_id (value t') = timer_id (value t);
  later_due : due_at (value t') = due_at (value t);
  later_effect : timer_effect (value t') = timer_effect (value t);
  later_token : fencing_token (value t) <= fencing_token (value t');
  later_terminal : terminal t = true -> t' = t
}.

#[export] Instance timer_later_preorder : PreOrder timer_later.
Proof.
  split.
  - intros t. split; try done.
  - intros t1 t2 t3 [] []. split; try congruence; [lia|]. intros Ht.
    assert (t2 = t1) as -> by auto. auto.
Qed.

(** [st'] has every record of [st], at the same or a later stage. *)
Record later st st' : Prop := {
  later_states : forall k s, d_get k (states st) = Some s ->
    exists s', d_get k (states st') = Some s' /\ version s <= version s';
  later_effects : forall id x, d_get id (recorded_effects st) = Some x -> d_get id (recorded_effects st') = Some x;
  later_timers : forall k t, d_get k (timers st) = Some t ->
    exists t', d_get k (timers st') = Some t' /\ timer_later t t'
}.

#[export] Instance later_preorder : PreOrder later.
Proof.
  split.
  - intros st. split; [|done|].
    + intros k s Hs. exists s. split; [done|lia].
    + intros k t Ht. exists t. split; [done|reflexivity].
  - intros s1 s2 s3 [A1 B1 C1] [A2 B2 C2]. split; [|eauto|].
    + intros k s Hs. destruct (A1 k s Hs) as (s' & Hs' & ?). destruct (A2 k s' Hs') as (s'' & ? & ?).
      exists s''. split; [done|lia].
    + intros k t Ht. destruct (C1 k t Ht) as (t' & Ht' & ?). destruct (C2 k t' Ht') as (t'' & ? & ?).
      exists t''. split; [done|by etransitivity].
Qed.

Record store_inv st : Prop := {
  inv_timers : d_wf (timers st);
  inv_timer_key : forall k t, d_get k (timers st) = Some t ->
    (timer_process (value t), timer_id (value t)) = k
}.

Lemma process_inv_initial cap : store_inv (mkStore cap [] [] [] 0).
Proof. split; [constructor|done]. Qed.

(** Replacing one timer by a later one. *)
Lemma set_timer_later st k t t' n : d_get k (timers st) = Some t -> timer_later t t' -> store_inv st ->
  let st' := mkStore (capacity st) (states st) (d_set k t' (timers st)) (recorded_effects st) n in
  later st st' /\ store_inv st'.
Proof.
  intros Hget Hl [Hwf Hkey] st'. split; split; cbn; eauto with pydict.
  - intros k' s Hs. exists s. split; [done|lia].
  - intros k' x Hx. rewrite d_get_set. case_decide; [subst; simplify_eq; eauto|].
    exists x. split; [done|reflexivity].
  - intros k' x. rewrite d_get_set. case_decide; [|apply Hkey]. intros [= <-]. subst.
    destruct Hl as [-> -> _ _ _ _]. by apply Hkey.
Qed.

(** ** [apply] *)

(** The timers after the loop over the cancellations. *)
Lemma cancel_loop k ids : forall ts n,
  d_wf ts ->
  let out := (fold_left (cancel_one k) ids (ts, n)).1 in
  d_wf out /\
  (forall key, d_get key ts = None -> d_get key out = None) /\
  (forall key t, d_get key ts = Some t ->
    exists t', d_get key out = Some t' /\ timer_later t t' /\ value t' = value t) /\
  (forall id t, id ∈ ids -> d_get (k, id) ts = Some t ->
    exists t', d_get (k, id) out = Some t' /\ terminal t' = true).
Proof.
  induction ids as [|id ids IH]; intros ts n Hwf out; unfold out; cbn [fold_left].
  { split_and!; [done|done| |].
    - intros key t Ht. exists t. by split_and!.
    - intros id t Hid. by apply not_elem_of_nil in Hid. }
  unfold cancel_one at 2 4 6 8. cbn [fst snd].
  assert (forall t, d_get (k, id) ts = Some t -> terminal t = true ->
    let out := (fold_left (cancel_one k) ids (ts, n)).1 in
    d_wf out /\
    (forall key, d_get key ts = None -> d_get key out = None) /\
    (forall key t, d_get key ts = Some t -> exists t', d_get key out = Some t' /\ timer_later t t' /\ value t' = value t) /\
    (forall id' t, id' ∈ id :: ids -> d_get (k, id') ts = Some t ->
      exists t', d_get (k, id') out = Some t' /\ terminal t' = true)) as Hskip.
  { intros t Ht Hterm. destruct (IH ts n Hwf) as (H1 & H2 & H3 & H4). split_and!; [done..|].
    intros id' t' Hin Ht'. apply elem_of_cons in Hin as [->|Hin]; [|by eapply H4].
    destruct (H3 _ _ Ht) as (t'' & Hget & Hl & _). exists t''. split; [done|].
    by rewrite (later_terminal _ _ Hl Hterm). }
  destruct (d_get (k, id) ts) as [t|] eqn:Ht.
  - destruct (terminal t) eqn:Hterm; [by eapply Hskip|].
    set (ts1 := d_set (k, id) _ ts).
    destruct (IH ts1 (n + 1)) as (H1 & H2 & H3 & H4); [by apply d_set_wf|].
    assert (timer_later t (mkStoredTimer (value t) true (stored_claim_id t) (stored_claimed_until t))) as Hl.
    { split; cbn; try done; congruence. }
    split_and!; [done| | |].
    + intros key Hkey. apply H2. unfold ts1. rewrite d_get_set_ne; [done|]. intros <-. congruence.
    + intros key x Hx. unfold ts1 in H3. destruct (decide ((k, id) = key)) as [<-|Hne].
      * destruct (H3 (k, id) _ (d_get_set_eq _ _ _)) as (t' & Hget & Hl' & Hv). exists t'. rewrite Ht in Hx.
        simplify_eq. split_and!; [done|by etransitivity|done].
      * apply H3. by rewrite d_get_set_ne.
    + intros id' x Hin Hx. apply elem_of_cons in Hin as [->|Hin].
      * destruct (H3 (k, id) _ (d_get_set_eq _ _ _)) as (t' & Hget & Hl' & _). exists t'. split; [done|].
        by rewrite (later_terminal _ _ Hl' eq_refl).
      * destruct (decide (id = id')) as [->|Hne].
        -- destruct (H3 (k, id') _ (d_get_set_eq _ _ _)) as (t' & Hget & Hl' & _). exists t'. split; [done|].
           by rewrite (later_terminal _ _ Hl' eq_refl).
        -- eapply H4; [done|]. unfold ts1. rewrite d_get_set_ne; [done|]. intros [= ?]. done.
  - destruct (IH ts n Hwf) as (H1 & H2 & H3 & H4). split_and!; [done..|].
    intros id' t' Hin Ht'. apply elem_of_cons in Hin as [->|Hin]; [congruence|by eapply H4].
Qed.

(** What an applied decision leaves on record. *)
Record applied k v d st st' (s : ProcessState) : Prop := {
  applied_before : default 0 (version <$> d_get k (states st)) = v;
  applied_state : d_get k (states st') = Some s;
  applied_version : version s = v + 1;
  applied_value : state_value s = decision_state d /\ status s = decision_status d;
  applied_effects : forall e, e ∈ effects d -> d_get (effect_id e) (recorded_effects st') = Some (k, e);
  applied_timers : forall ti, ti ∈ schedule d -> exists t', d_get (k, schedule_timer_id ti) (timers st') = Some t' /\
    due_at (value t') = schedule_due_at ti /\ timer_effect (value t') = schedule_effect ti;
  applied_cancelled : forall id t, id ∈ cancel_timers d -> d_get (k, id) (timers st) = Some t ->
    exists t', d_get (k, id) (timers st') = Some t' /\ terminal t' = true
}.

Lemma existsb_mem_false {A K V} `{EqDecision K} (key : A -> K) (d : dict K V) l :
  existsb (fun a => d_mem (key a) d) l = false -> forall a, a ∈ l -> d_get (key a) d = None.
Proof.
  intros He a Ha. apply d_mem_false. destruct (d_mem (key a) d) eqn:Hm; [|done].
  assert (existsb (fun a => d_mem (key a) d) l = true); [|congruence].
  apply existsb_exists. exists a. split; [by apply list_elem_of_In|done].
Qed.

(** [apply] changes nothing, or records the whole decision. *)
Lemma process_apply_runs k v d at_ st r st' : decision_ok d -> store_inv st ->
  apply k v d at_ st = (r, st') ->
  (st' = st /\ forall s n m c, r <> Ok (ProcessApplied s n m c)) \/
  (exists s c, r = Ok (ProcessApplied s (Z.of_nat (length (effects d))) (Z.of_nat (length (schedule d))) c) /\
    applied k v d st st' s /\ later st st' /\ store_inv st').
Proof.
  intros [Hne Hnt] Hst. unfold apply, ProcessState_new, _utc, check_utc, validate_json.
  set (actual := match d_get k (states st) with None => 0 | Some s => version s end).
  intros Hrun. monad_unfold.
  destruct (is_utc at_) eqn:Hu; cbn in Hrun; [|left; by simplify_eq].
  destruct (v <? 0)%Z; cbn in Hrun; [left; by simplify_eq|]. fold actual in Hrun.
  destruct (actual =? v)%Z eqn:Hv; cbn in Hrun; [|left; by simplify_eq]. apply Z.eqb_eq in Hv.
  destruct (existsb _ (schedule d)) eqn:Ht; cbn in Hrun; [left; by simplify_eq|].
  destruct (existsb _ (effects d)) eqn:He; cbn in Hrun; [left; by simplify_eq|].
  destruct (capacity st <? _)%Z; cbn in Hrun; [left; by simplify_eq|].
  destruct (actual + 1 <=? 0)%Z; cbn in Hrun; [left; by simplify_eq|].
  destruct (validate_json_with _ _); cbn in Hrun; [|left; by simplify_eq].
  destruct (fold_left (cancel_one k) _ _) as [ts c] eqn:Hc. cbn in Hrun. simplify_eq. right.
  eexists _, c. split; [reflexivity|].
  pose proof (existsb_mem_false _ _ _ Ht) as Hfresh. pose proof (existsb_mem_false _ _ _ He) as Hfresh'.
  destruct Hst as [Hwf Hkey].
  pose proof (cancel_loop k (cancel_timers d) (timers st) 0 Hwf) as Hcl. rewrite Hc in Hcl. cbn in Hcl.
  destruct Hcl as (Hwf1 & Hnone & Hsome & Hcan).
  pose proof (d_set_all (fun ti => (k, schedule_timer_id ti)) (fun ti => mkStoredTimer
    (mkTimer k (schedule_timer_id ti) (schedule_due_at ti) (schedule_effect ti) 0) false None None) (schedule d) ts) as Hts.
  change (fold_left _ (schedule d) ts) with (fold_left (add_timer k) (schedule d) ts) in Hts.
  destruct Hts as (Hwf2 & Hother & Hnew).
  pose proof (d_set_all effect_id (fun e => (k, e)) (effects d) (recorded_effects st)) as Hes.
  change (fold_left _ (effects d) (recorded_effects st)) with
    (fold_left (add_effect k) (effects d) (recorded_effects st)) in Hes.
  destruct Hes as (_ & Heother & Henew).
  assert (NoDup ((fun ti => (k, schedule_timer_id ti)) <$> schedule d)) as Hnt'.
  { change (fun ti => (k, schedule_timer_id ti)) with (pair k ∘ schedule_timer_id). rewrite list_fmap_compose. apply NoDup_fmap_2; [|done]. by intros x y [= ->]. }
  assert (forall key t, d_get key (timers st) = Some t -> key ∉ (fun ti => (k, schedule_timer_id ti)) <$> schedule d) as Hold.
  { intros key t Hget Hin. apply list_elem_of_fmap in Hin as (x & -> & Hx). rewrite Hfresh in Hget; done. }
  split_and!.
  - split; cbn; try done.
    + by destruct (d_get k (states st)).
    + apply d_get_set_eq.
    + by apply Henew.
    + intros ti Hin. rewrite (Hnew Hnt' ti Hin). eexists. split; [reflexivity|done].
    + intros id t Hin Hget. destruct (Hcan id t Hin Hget) as (t' & Hget' & Hterm). exists t'.
      rewrite Hother; [done|]. by eapply Hold.
  - split; cbn.
    + intros k' s Hs. rewrite d_get_set. case_decide; subst; [|exists s; split; [done|lia]].
      eexists. split; [reflexivity|]. cbn. rewrite Hs. lia.
    + intros id x Hx. rewrite Heother; [done|]. intros Hin. apply list_elem_of_fmap in Hin as (e & -> & Hin).
      rewrite Hfresh' in Hx; done.
    + intros key t Hget. destruct (Hsome key t Hget) as (t' & Hget' & Hl & _). exists t'. split; [|done].
      rewrite Hother; [done|]. by eapply Hold.
  - split; cbn; [by apply Hwf2|]. intros key t Hget.
    destruct (decide (key ∈ (fun ti => (k, schedule_timer_id ti)) <$> schedule d)) as [Hin|Hnin].
    + apply list_elem_of_fmap in Hin as (x & -> & Hx). rewrite (Hnew Hnt' x Hx) in Hget. by simplify_eq.
    + rewrite Hother in Hget by done. destruct (d_get key (timers st)) as [t0|] eqn:Hget0.
      * destruct (Hsome key t0 Hget0) as (t' & Hget' & _ & Hv). rewrite Hget' in Hget. simplify_eq. rewrite Hv.
        by apply Hkey.
      * rewrite Hnone in Hget; done.
Qed.

(** ** Claims and completion *)

(** One iteration of [claim_timers]: skip the timer, or fence it with the next token. *)
Lemma process_claim_item_runs now limit ttl acc p st :
  claim_item now limit ttl acc p st = (Ok acc, st) \/
  exists r until, terminal p.2 = false /\
    let v := mkTimer (timer_process (value p.2)) (timer_id (value p.2)) (due_at (value p.2))
               (timer_effect (value p.2)) (fencing_token (value p.2) + 1) in
    claim_item now limit ttl acc p st =
      (r, mkStore (capacity st) (states st)
            (d_set p.1 (mkStoredTimer v false (Some (uuid4_hex (uuid_draws st))) until) (timers st))
            (recorded_effects st) (S (uuid_draws st))) /\
    (forall acc', r = Ok acc' -> exists x, acc' = acc ++ [mkTimerClaim v (uuid4_hex (uuid_draws st)) x]).
Proof.
  unfold claim_item, draw_uuid, put_timer, ProcessTimerClaim_new, _utc, check_utc. monad_unfold.
  destruct (limit <=? _)%Z; cbn; [by left|]. destruct (terminal p.2); cbn; [by left|].
  destruct (dt_ltb now (due_at _)); cbn; [by left|].
  destruct (match stored_claimed_until p.2 with Some u => _ | None => _ end); cbn; [by left|]. right.
  destruct (dt_add now ttl) as [until|e]; cbn.
  - destruct (str_empty _); cbn; [|destruct (is_utc until); cbn]; eexists _, (Some until);
      (split; [done|split; [unfold set_timers; cbn; rewrite d_set_set; reflexivity|]]); try done.
    intros acc' [= <-]. by exists until.
  - eexists _, (stored_claimed_until p.2). split; [done|]. split; [reflexivity|done].
Qed.

Lemma process_claim_loop now limit ttl l : NoDup l.*1 -> forall acc st, store_inv st ->
  (forall k t, (k, t) ∈ l -> d_get k (timers st) = Some t) ->
  let out := for_each l acc (claim_item now limit ttl) st in
  later st (snd out) /\ store_inv (snd out) /\
  (forall acc', fst out = Ok acc' -> exists cs, acc' = acc ++ cs /\
    Forall (fun c => exists k t, (k, t) ∈ l /\ terminal t = false /\
      (timer_process (claim_timer c), timer_id (claim_timer c)) =
        (timer_process (value t), timer_id (value t))) cs).
Proof.
  induction l as [|[k0 t0] l IH]; intros Hnd acc st Hst Hl out; unfold out.
  { cbn. split_and!; [reflexivity|done|]. intros acc' [= <-]. exists []. by rewrite app_nil_r. }
  cbn in Hnd. apply NoDup_cons in Hnd as [Hk0 Hnd]. specialize (IH Hnd).
  assert (forall k t, (k, t) ∈ l -> k <> k0) as Hne.
  { intros k t Hin ->. apply Hk0, list_elem_of_fmap. by exists (k0, t). }
  assert (Hit0 := Hl k0 t0 (list_elem_of_here _ _)).
  cbn [for_each]. unfold bind.
  destruct (process_claim_item_runs now limit ttl acc (k0, t0) st) as [Heq|(r & until & Hs & Heq & Hr)]; rewrite Heq.
  - destruct (IH acc st Hst) as (Hp & Hi & Hc); [intros k t Hin; apply Hl; by right|].
    split_and!; [done..|]. intros acc' Hacc. destruct (Hc acc' Hacc) as (cs & -> & Hall). exists cs.
    split; [done|]. eapply Forall_impl; [exact Hall|]. intros c (k & t & Hin & ?). exists k, t. split; [by right|done].
  - cbn [fst snd] in *. set (t1 := mkStoredTimer _ _ _ _) in *.
    assert (timer_later t0 t1) as Hl1 by (split; cbn; try done; [lia|congruence]).
    destruct (set_timer_later st k0 t0 t1 (S (uuid_draws st)) Hit0 Hl1 Hst) as [Hlat Hinv].
    set (st1 := mkStore _ _ _ _ _) in *.
    destruct r as [acc1|e]; [|by split_and!]. destruct (Hr acc1 eq_refl) as (x & ->).
    match goal with |- context [for_each l ?a _ st1] => destruct (IH a st1 Hinv) as (Hp & Hi & Hc) end.
    { intros k t Hin. cbn. rewrite d_get_set_ne by (symmetry; by eapply Hne). apply Hl. by right. }
    split_and!; [by etransitivity|done|]. intros acc' Hacc. destruct (Hc acc' Hacc) as (cs & -> & Hall).
    rewrite <- app_assoc. eexists. split; [reflexivity|]. constructor.
    + exists k0, t0. split_and!; [left|done|done].
    + eapply Forall_impl; [exact Hall|]. intros c (k & t & Hin & ?). exists k, t. split; [by right|done].
Qed.

Lemma claim_timers_runs now limit ttl st r st' : store_inv st -> claim_timers now limit ttl st = (r, st') ->
  later st st' /\ store_inv st' /\
  (forall cs c, r = Ok cs -> c ∈ cs -> exists t,
    d_get (timer_process (claim_timer c), timer_id (claim_timer c)) (timers st) = Some t /\ terminal t = false).
Proof.
  intros Hst Hrun. unfold claim_timers, _claim_arguments, _utc, check_utc in Hrun. monad_unfold.
  destruct (is_utc now); cbn in Hrun; [|simplify_eq; by split_and!].
  destruct (limit <=? 0)%Z; cbn in Hrun; [simplify_eq; by split_and!|].
  destruct (ttl <=? 0)%Z; cbn in Hrun; [simplify_eq; by split_and!|].
  set (l := sorted_by _ _ _) in *.
  assert (forall x, x ∈ l <-> x ∈ timers st) as Hl by (intros x; apply elem_of_sorted_by).
  destruct (process_claim_loop now limit ttl l) with (acc := @nil ProcessTimerClaim) (st := st) as (Hp & Hi & Hc); [|done|..].
  - unfold l. rewrite sorted_by_perm. apply Hst.
  - intros k t Hin. apply Hl in Hin. by apply d_elem_get; [apply Hst|].
  - rewrite Hrun in Hp, Hi, Hc. cbn in *. split_and!; [done|done|]. intros cs c -> Hin.
    destruct (Hc cs eq_refl) as (cs' & -> & Hall). rewrite Forall_forall in Hall.
    destruct (Hall c Hin) as (k & t & Hkt & Hterm & Hkey). apply Hl in Hkt. exists t. split; [|done].
    rewrite Hkey. apply d_elem_get in Hkt; [|apply Hst]. by rewrite (inv_timer_key _ Hst _ _ Hkt).
Qed.

Lemma complete_timer_runs c st r st' : store_inv st -> complete_timer c st = (r, st') ->
  later st st' /\ store_inv st' /\
  (r = Ok true -> exists t, d_get (timer_process (claim_timer c), timer_id (claim_timer c)) (timers st') = Some t /\
    terminal t = true).
Proof.
  intros Hst Hrun. unfold complete_timer, put_timer in Hrun. monad_unfold.
  destruct (d_get _ (timers st)) as [t|] eqn:Hget; cbn in Hrun; [|simplify_eq; by split_and!].
  destruct (terminal t) eqn:Hterm; cbn in Hrun; [simplify_eq; by split_and!|].
  destruct (negb _ || _); cbn in Hrun; [simplify_eq; by split_and!|]. simplify_eq.
  destruct (set_timer_later st _ t (mkStoredTimer (value t) true None None) (uuid_draws st) Hget) as [Hl Hi];
    [split; cbn; try done; congruence|done|].
  split_and!; [done|done|]. intros _. eexists. cbn. split; [apply d_get_set_eq|done].
Qed.

Definition op_ok (o : op) : Prop := match o with OpApply _ _ d _ => decision_ok d | _ => True end.

Lemma exec_later o st : op_ok o -> store_inv st -> later st (exec o st) /\ store_inv (exec o st).
Proof.
  intros Ho Hst. destruct o as [k v d at_|now limit ttl|c]; cbn [exec].
  - destruct (apply k v d at_ st) as [r st'] eqn:Hrun.
    by apply process_apply_runs in Hrun as [[-> _]|(s & c & _ & _ & ? & ?)].
  - destruct (claim_timers now limit ttl st) as [r st'] eqn:Hrun. by apply claim_timers_runs in Hrun as (? & ? & _).
  - destruct (complete_timer c st) as [r st'] eqn:Hrun. by apply complete_timer_runs in Hrun as (? & ? & _).
Qed.

Lemma exec_all_later os st : Forall op_ok os -> store_inv st ->
  later st (exec_all os st) /\ store_inv (exec_all os st).
Proof.
  intros Hos. revert st. induction Hos as [|o os Ho _ IH]; intros st Hst; cbn; [by split|].
  destruct (exec_later o st Ho Hst) as [Hl Hi]. destruct (IH _ Hi) as [Hl' Hi']. split; [by etransitivity|done].
Qed.

(** ** Properties *)

(** C32. An applied decision is durable and wins its version: after it is applied, whatever
    follows, the process is at a later version, so every other decision made against the same
    version is refused as stale; all its effects are on record unchanged, its timers are
    scheduled with their due time and effect, and the timers it cancelled stay cancelled. *)
Theorem process_decision_durable st k v d at_ s ne nt c st1 os d2 at2 : store_inv st -> decision_ok d ->
  apply k v d at_ st = (Ok (ProcessApplied s ne nt c), st1) -> Forall op_ok os ->
  is_utc at2 = true ->
  let st2 := exec_all os st1 in
  version s = v + 1 /\
  (exists actual, v < actual /\ apply k v d2 at2 st2 = (Ok (StaleProcessVersion v actual), st2)) /\
  (forall e, e ∈ effects d -> d_get (effect_id e) (recorded_effects st2) = Some (k, e)) /\
  (forall ti, ti ∈ schedule d -> exists t, d_get (k, schedule_timer_id ti) (timers st2) = Some t /\
    due_at (value t) = schedule_due_at ti /\ timer_effect (value t) = schedule_effect ti) /\
  (forall id t, id ∈ cancel_timers d -> d_get (k, id) (timers st) = Some t ->
    exists t', d_get (k, id) (timers st2) = Some t' /\ terminal t' = true).
Proof.
  intros Hst Hd Hrun Hos Hat st2. pose proof Hrun as Hrun0.
  apply process_apply_runs in Hrun; [|done..].
  destruct Hrun as [[_ Hno]|(s' & c' & Hr & Happ & Hlat & Hst1)]; [by edestruct Hno|].
  injection Hr as <- _ _ _. destruct Happ as [Hb Hs Hv _ He Ht Hcan].
  destruct (exec_all_later os st1 Hos Hst1) as [[L1 L2 L3] _]. fold st2 in L1, L2, L3. split_and!; [done|..].
  - destruct (L1 k s Hs) as (s2 & Hs2 & Hle). exists (version s2). split; [lia|].
    assert ((v <? 0)%Z = false) as Hneg.
    { unfold apply, _utc, check_utc in Hrun0. monad_unfold. destruct (is_utc at_); cbn in Hrun0; [|done].
      by destruct (v <? 0)%Z. }
    unfold apply, _utc, check_utc. monad_unfold. rewrite Hat. cbn. rewrite Hneg. cbn. rewrite Hs2.
    by rewrite (proj2 (Z.eqb_neq _ _)) by lia.
  - intros e Hin. by apply L2, He.
  - intros ti Hin. destruct (Ht ti Hin) as (t & Hget & Hdue & Heff). destruct (L3 _ _ Hget) as (t' & Hget' & Hl).
    exists t'. split_and!; [done|by rewrite (later_due _ _ Hl)|by rewrite (later_effect _ _ Hl)].
  - intros id t Hin Hget. destruct (Hcan id t Hin Hget) as (t1 & Hget1 & Hterm).
    destruct (L3 _ _ Hget1) as (t' & Hget' & Hl). exists t'. split; [done|]. by rewrite (later_terminal _ _ Hl Hterm).
Qed.

(** A timer fires at most once: after a claim of it was completed, whatever follows, no
    claim of the timer, old or new, completes again, and no claim hands the timer out. *)
Theorem process_timer_fires_once st c st1 os c2 now limit ttl cs st3 : store_inv st ->
  complete_timer c st = (Ok true, st1) -> Forall op_ok os ->
  (timer_process (claim_timer c2), timer_id (claim_timer c2)) =
    (timer_process (claim_timer c), timer_id (claim_timer c)) ->
  let st2 := exec_all os st1 in
  complete_timer c2 st2 = (Ok false, st2) /\
  (claim_timers now limit ttl st2 = (Ok cs, st3) -> c2 ∉ cs).
Proof.
  intros Hst Hrun Hos Hid st2. apply complete_timer_runs in Hrun as (_ & Hst1 & Hdone); [|done].
  destruct (Hdone eq_refl) as (t & Hget & Hterm).
  destruct (exec_all_later os st1 Hos Hst1) as [[_ _ L3] Hst2]. fold st2 in L3, Hst2.
  destruct (L3 _ _ Hget) as (t' & Hget' & Hl). rewrite (later_terminal _ _ Hl Hterm) in Hget'. split.
  - unfold complete_timer. monad_unfold. rewrite Hid, Hget', Hterm. done.
  - intros Hrun Hin. apply claim_timers_runs in Hrun as (_ & _ & Hc); [|done].
    destruct (Hc cs c2 eq_refl Hin) as (x & Hx & Hxt). rewrite Hid in Hx. congruence.
Qed.
End Proofs.

(** ** Concrete runs *)

Section Witnesses.
#[local] Existing Instance unary_uuid.

Definition demo_key : ProcessKey := mkProcessKey "p" "1".
Definition demo_effect : ProcessEffect := mkEffect "e" COMMAND "n" JNull.
Definition demo_decision : ProcessDecision :=
  mkDecision JNull RUNNING [demo_effect] [mkTimerSchedule "t" (utc 100) demo_effect] [].
Definition demo_other : ProcessDecision := mkDecision JNull FAILED [] [] ["t"%py].
Definition demo_empty : store := mkStore 9 [] [] [] 0.
Definition demo_applied : store := exec (OpApply demo_key 0 demo_decision (utc 50)) demo_empty.
Definition demo_claimed : store := exec (OpClaim (utc 120) 3 50) demo_applied.
Definition demo_claim : ProcessTimerClaim :=
  mkTimerClaim (mkTimer demo_key "t" (utc 100) demo_effect 1) (uuid4_hex 0) (utc 170).

Lemma demo_decision_ok : decision_ok demo_decision.
Proof. split; apply NoDup_singleton. Qed.

Lemma process_demo_claimed_inv : store_inv demo_claimed.
Proof. apply (exec_later (OpClaim _ _ _) _ I), (exec_later (OpApply _ _ _ _)), process_inv_initial. apply demo_decision_ok. Qed.

Lemma process_decision_durable_witness :
  (exists actual, 0 < actual /\ apply demo_key 0 demo_other (utc 60) demo_claimed =
    (Ok (StaleProcessVersion 0 actual), demo_claimed)) /\
  (forall e, e ∈ [demo_effect] -> d_get (effect_id e) (recorded_effects demo_claimed) = Some (demo_key, e)).
Proof.
  destruct (process_decision_durable demo_empty demo_key 0 demo_decision (utc 50)
    (mkProcessState demo_key 1 RUNNING JNull (utc 50)) 1 1 0 demo_applied [OpClaim (utc 120) 3 50] demo_other (utc 60)
    (process_inv_initial 9) demo_decision_ok eq_refl (Forall_cons_2 op_ok (OpClaim (utc 120) 3 50) [] I (Forall_nil_2 _)) eq_refl)
    as (_ & Hstale & Heffects & _).
  split; [exact Hstale|exact Heffects].
Defined.

Lemma process_timer_fires_once_witness :
  complete_timer demo_claim (exec (OpComplete demo_claim) demo_claimed) =
    (Ok false, exec (OpComplete demo_claim) demo_claimed).
Proof.
  apply (process_timer_fires_once demo_claimed demo_claim (exec (OpComplete demo_claim) demo_claimed) []
    demo_claim (utc 500) 3 5 [] (exec (OpComplete demo_claim) demo_claimed));
    [apply process_demo_claimed_inv|vm_compute; reflexivity|constructor|reflexivity].
Defined.
End Witnesses.
