(* ===== verification/EventSourcing.v ===== *)
(** * Event streams ([src/pytitect/event_sourcing.py])

    Optimistic appends to named streams over one global log, finite pages and snapshots, with
    the reference store [InMemoryEventStore]. *)
From Stdlib Require Import ZArith Lia.
From stdpp Require Import base list gmap.
From S2P Require Import Prelude Core.

(** ** Data *)

Record StreamId := mkStreamId {
  category : pystr;
  stream_id : pystr
}.

#[export] Instance StreamId_eq_dec : EqDecision StreamId.
Proof. solve_decision. Defined.

Definition StreamId_new {S} (c i : pystr) : M exn S StreamId :=
  raise_if (str_empty c || str_empty i) (ValueError "stream category and ID must not be empty") ;;;
  ret (mkStreamId c i).

Definition _utc {S} (value : datetime) : M exn S unit :=
  check_utc value "event timestamps must be timezone-aware UTC".

Record NewEvent := mkNewEvent {
  event_id : pystr;
  event_type : pystr;
  event_payload : json;
  occurred_at : datetime;
  event_metadata : dict pystr json
}.

Definition NewEvent_new {S} (id t : pystr) (p : json) (at_ : datetime) (meta : dict pystr json) : M exn S NewEvent :=
  raise_if (str_empty id || str_empty t) (ValueError "event identity and type must not be empty") ;;;
  validate_json p ;;;
  _utc at_ ;;;
  raise_if (32 <? d_len meta)%Z (ValueError "event metadata exceeds 32 items") ;;;
  ret (mkNewEvent id t p at_ meta).

Record StoredEvent := mkStoredEvent {
  stored_stream : StreamId;
  stream_version : Z;
  global_position : Z;
  stored_event : NewEvent
}.

Definition StoredEvent_new {S} (s : StreamId) (v p : Z) (e : NewEvent) : M exn S StoredEvent :=
  raise_if ((v <=? 0)%Z || (p <=? 0)%Z) (ValueError "stored event positions must be positive") ;;;
  ret (mkStoredEvent s v p e).

Inductive AppendResult :=
  | AppendCommitted (first_version last_version : Z) (events : list StoredEvent)
  | WrongExpectedVersion (expected actual : Z)
  | DuplicateEventId (id : pystr).

Record EventPage := mkEventPage {
  page_events : list StoredEvent;
  next_position : Z;
  complete : bool
}.

Record Snapshot := mkSnapshot {
  snapshot_stream : StreamId;
  snapshot_version : Z;
  snapshot_state : json;
  snapshot_created_at : datetime
}.

Definition Snapshot_new {S} (s : StreamId) (v : Z) (value : json) (at_ : datetime) : M exn S Snapshot :=
  raise_if (v <=? 0)%Z (ValueError "snapshot version must be positive") ;;;
  validate_json value ;;;
  _utc at_ ;;;
  ret (mkSnapshot s v value at_).

Class EventStore (W : Type) := {
  port_append : StreamId -> Z -> list NewEvent -> M exn W AppendResult;
  port_read_stream : StreamId -> Z -> Z -> M exn W EventPage;
  port_read_all : Z -> Z -> M exn W EventPage;
  port_load_snapshot : StreamId -> M exn W (option Snapshot);
  port_save_snapshot : Snapshot -> option Z -> M exn W bool
}.

(** ** The in-memory store *)

Record store := mkStore {
  capacity : Z;
  max_page_size : Z;
  streams : dict StreamId (list StoredEvent);
  all : list StoredEvent;
  event_ids : gset pystr;
  snapshots : dict StreamId Snapshot
}.

Definition InMemoryEventStore_new {S} (cap page : Z) : M exn S store :=
  raise_if ((cap <=? 0)%Z || (page <=? 0)%Z) (ValueError "event capacity and max_page_size must be positive") ;;;
  ret (mkStore cap page [] [] ∅ []).

(** The first identifier that occurs more than once. *)
Definition first_duplicate (ids : list pystr) : option pystr :=
  find (fun i => (1 <? count_occ (fun a b : pystr => decide (a = b)) ids i)%nat) ids.

(** The first identifier that is already stored. *)
Definition first_known (known : gset pystr) (ids : list pystr) : option pystr :=
  find (fun i => bool_decide (i ∈ known)) ids.

(** [enumerate(events, start=1)] into stored events. *)
Definition number_events (s : StreamId) (actual total : Z) (events : list NewEvent) : M exn store (list StoredEvent) :=
  for_each (imap (fun i e => (Z.of_nat i + 1, e)) events) [] (fun acc p =>
    let! e := StoredEvent_new s (actual + p.1) (total + p.1) p.2 in
    ret (acc ++ [e])).

Definition append (s : StreamId) (expected_version : Z) (events : list NewEvent) : M exn store AppendResult :=
  raise_if (expected_version <? 0)%Z (ValueError "expected stream version must not be negative") ;;;
  raise_if (bool_decide (length events = 0%nat)) (ValueError "an append requires at least one event") ;;;
  let identifiers := event_id <$> events in
  match first_duplicate identifiers with
  | Some d => ret (DuplicateEventId d)
  | None =>
      let! st := get in
      let current := default [] (d_get s (streams st)) in
      let actual := Z.of_nat (length current) in
      if negb (actual =? expected_version)%Z then ret (WrongExpectedVersion expected_version actual)
      else
        match first_known (event_ids st) identifiers with
        | Some d => ret (DuplicateEventId d)
        | None =>
            raise_if (capacity st <? Z.of_nat (length (all st)) + Z.of_nat (length events))%Z
              (OverflowError "event store capacity exceeded") ;;;
            let! stored := number_events s actual (Z.of_nat (length (all st))) events in
            put (mkStore (capacity st) (max_page_size st) (d_set s (current ++ stored) (streams st))
                  (all st ++ stored) (list_to_set identifiers ∪ event_ids st) (snapshots st)) ;;;
            ret (AppendCommitted (default 0 (stream_version <$> head stored))
                   (default 0 (stream_version <$> last stored)) stored)
        end
  end.

Definition _page_arguments (position limit : Z) : M exn store unit :=
  raise_if (position <? 0)%Z (ValueError "event position must not be negative") ;;;
  let! st := get in
  raise_if (negb ((1 <=? limit)%Z && (limit <=? max_page_size st)%Z))
    (ValueError "event page limit is outside the configured finite range").

(** [available[:limit]] as a page, positioned by [pos]. *)
Definition page_of (pos : StoredEvent -> Z) (after limit : Z) (events : list StoredEvent) : EventPage :=
  let available := filter (fun e => after < pos e) events in
  let selected := take (Z.to_nat limit) available in
  mkEventPage selected (match last selected with None => after | Some e => pos e end)
    (Z.of_nat (length available) <=? limit)%Z.

Definition read_stream (s : StreamId) (after_version limit : Z) : M exn store EventPage :=
  _page_arguments after_version limit ;;;
  gets (fun st => page_of stream_version after_version limit (default [] (d_get s (streams st)))).

Definition read_all (after_position limit : Z) : M exn store EventPage :=
  _page_arguments after_position limit ;;;
  gets (fun st => page_of global_position after_position limit (all st)).

Definition load_snapshot (s : StreamId) : M exn store (option Snapshot) :=
  gets (fun st => d_get s (snapshots st)).

Definition save_snapshot (sn : Snapshot) (expected_version : option Z) : M exn store bool :=
  let! st := get in
  let actual := snapshot_version <$> d_get (snapshot_stream sn) (snapshots st) in
  if negb (bool_decide (actual = expected_version)) then ret false
  else
    let version := Z.of_nat (length (default [] (d_get (snapshot_stream sn) (streams st)))) in
    raise_if (version <? snapshot_version sn)%Z (ValueError "snapshot cannot be ahead of its event stream") ;;;
    put (mkStore (capacity st) (max_page_size st) (streams st) (all st) (event_ids st)
          (d_set (snapshot_stream sn) sn (snapshots st))) ;;;
    ret true.

#[export] Instance InMemory_EventStore : EventStore store := {
  port_append := append;
  port_read_stream := read_stream;
  port_read_all := read_all;
  port_load_snapshot := load_snapshot;
  port_save_snapshot := save_snapshot
}.

(** The store as one component of a larger state. *)
Definition zoomed_EventStore {W S} (l : lens W S) `{!EventStore S} : EventStore W := {|
  port_append := fun s v es => zoom l (port_append s v es);
  port_read_stream := fun s a n => zoom l (port_read_stream s a n);
  port_read_all := fun a n => zoom l (port_read_all a n);
  port_load_snapshot := fun s => zoom l (port_load_snapshot s);
  port_save_snapshot := fun sn v => zoom l (port_save_snapshot sn v)
|}.

(** ** The log *)

(** Events numbered from 1 on the global log, each stream numbered from 1 by itself. *)
Definition numbered (pos : StoredEvent -> Z) (l : list StoredEvent) : Prop :=
  forall i e, l !! i = Some e -> pos e = Z.of_nat i + 1.

Record store_inv (st : store) : Prop := {
  inv_global : numbered global_position (all st);
  inv_stream : forall s, default [] (d_get s (streams st)) = filter (fun e => stored_stream e = s) (all st);
  inv_versions : forall s, numbered stream_version (filter (fun e => stored_stream e = s) (all st));
  inv_distinct : NoDup ((fun e => event_id (stored_event e)) <$> all st);
  inv_ids : forall i, i ∈ event_ids st <-> i ∈ (fun e => event_id (stored_event e)) <$> all st;
  inv_bounded : Z.of_nat (length (all st)) <= capacity st;
  inv_snapshot : forall s sn, d_get s (snapshots st) = Some sn ->
    snapshot_version sn <= Z.of_nat (length (filter (fun e => stored_stream e = s) (all st)))
}.

Lemma event_inv_initial cap page : 0 < cap -> store_inv (mkStore cap page [] [] ∅ []).
Proof. intros Hc. split; cbn; try done; try set_solver; [constructor|lia]. Qed.

(** The events of an append, numbered. *)
Definition stored_of (s : StreamId) (actual total : Z) (events : list NewEvent) : list StoredEvent :=
  imap (fun i e => mkStoredEvent s (actual + (Z.of_nat i + 1)) (total + (Z.of_nat i + 1)) e) events.

Lemma number_events_runs s actual total events st : 0 <= actual -> 0 <= total ->
  number_events s actual total events st = (Ok (stored_of s actual total events), st).
Proof.
  intros Ha Ht. unfold number_events, stored_of.
  assert (forall l acc, Forall (fun p : Z * NewEvent => 1 <= p.1) l ->
    for_each l acc (fun acc p =>
      let! e := StoredEvent_new s (actual + p.1) (total + p.1) p.2 in ret (acc ++ [e])) st =
    (Ok (acc ++ ((fun p => mkStoredEvent s (actual + p.1) (total + p.1) p.2) <$> l)), st)) as Hgen.
  { induction l as [|p l IH]; intros acc Hall; [cbn; by rewrite app_nil_r|].
    inversion Hall; subst. cbn [for_each]. unfold bind at 1 2, StoredEvent_new. monad_unfold.
    rewrite !(proj2 (Z.leb_gt _ _)) by lia. cbn. rewrite IH by done. cbn. by rewrite <- app_assoc. }
  rewrite Hgen; [|apply Forall_forall; intros p Hp; apply elem_of_lookup_imap in Hp as (i & e & -> & _); cbn; lia].
  cbn. by rewrite fmap_imap.
Qed.

Lemma first_duplicate_None ids : first_duplicate ids = None -> NoDup ids.
Proof.
  unfold first_duplicate. intros Hf. apply NoDup_ListNoDup, (NoDup_count_occ (fun a b : pystr => decide (a = b))).
  intros x. destruct (in_dec (fun a b : pystr => decide (a = b)) x ids) as [Hin|Hnin].
  - pose proof (find_none _ _ Hf x Hin) as H. cbv beta in H. by apply Nat.ltb_ge in H.
  - apply (count_occ_not_In (fun a b : pystr => decide (a = b))) in Hnin. rewrite Hnin. lia.
Qed.

Lemma first_known_None known ids i : first_known known ids = None -> i ∈ ids -> i ∉ known.
Proof.
  unfold first_known. intros Hf Hin Hk. apply list_elem_of_In in Hin. apply (find_none _ _ Hf) in Hin.
  by rewrite bool_decide_true in Hin.
Qed.

Lemma stored_of_ids s a t es : (fun e => event_id (stored_event e)) <$> stored_of s a t es = event_id <$> es.
Proof.
  unfold stored_of. rewrite fmap_imap. unfold compose. cbn.
  revert a t. induction es as [|e es IH]; intros a t; cbn; [done|]. f_equal.
  rewrite <- (IH (a + 1) (t + 1)). apply imap_ext. done.
Qed.

Lemma stored_of_length s a t es : length (stored_of s a t es) = length es.
Proof. apply length_imap. Qed.

Lemma stored_of_head s a t es : es <> [] -> default 0 (stream_version <$> head (stored_of s a t es)) = a + 1.
Proof. by destruct es. Qed.

Lemma stored_of_last s a t es : es <> [] ->
  default 0 (stream_version <$> last (stored_of s a t es)) = a + Z.of_nat (length es).
Proof.
  intros Hes. rewrite last_lookup, stored_of_length. unfold stored_of. rewrite list_lookup_imap.
  destruct (es !! pred (length es)) as [x|] eqn:Hx; cbn.
  - destruct es; [done|]. cbn. lia.
  - apply lookup_ge_None in Hx. destruct es; cbn in *; [done|lia].
Qed.

Lemma stored_of_stream s a t es s' :
  filter (fun e => stored_stream e = s') (stored_of s a t es) = if decide (s = s') then stored_of s a t es else [].
Proof.
  assert (Forall (fun e => stored_stream e = s) (stored_of s a t es)) as Hall.
  { apply Forall_forall. intros e He. by apply elem_of_lookup_imap in He as (i & x & -> & _). }
  case_decide as Heq.
  - subst s'. induction Hall as [|e l He _ IH]; [done|]. rewrite filter_cons, decide_True by done. by rewrite IH.
  - induction Hall as [|e l He _ IH]; [done|]. rewrite filter_cons, decide_False by congruence. done.
Qed.

Lemma numbered_app pos l s a t es : numbered pos l ->
  (forall i e, stored_of s a t es !! i = Some e -> pos e = Z.of_nat (length l) + (Z.of_nat i + 1)) ->
  numbered pos (l ++ stored_of s a t es).
Proof.
  intros Hl Hs i e Hi. apply lookup_app_Some in Hi as [Hi|[Hle Hi]]; [by apply Hl|].
  apply Hs in Hi. lia.
Qed.

(** What an append does: nothing, or the numbered events at the end of the log. *)
Lemma append_runs s v es st r st' : store_inv st -> append s v es st = (r, st') ->
  (st' = st /\ forall a b l, r <> Ok (AppendCommitted a b l)) \/
  (let stored := stored_of s v (Z.of_nat (length (all st))) es in
   Z.of_nat (length (filter (fun e => stored_stream e = s) (all st))) = v /\ es <> [] /\
   r = Ok (AppendCommitted (v + 1) (v + Z.of_nat (length es)) stored) /\
   all st' = all st ++ stored /\ store_inv st').
Proof.
  intros Hst. unfold append. intros Hrun. monad_unfold.
  destruct (v <? 0)%Z eqn:Hv; cbn in Hrun; [left; by simplify_eq|].
  destruct es as [|e0 es0] eqn:Hes; 
    [left; rewrite bool_decide_true in Hrun by done; by simplify_eq|]. rewrite <- Hes in *.
  rewrite bool_decide_false in Hrun by (by rewrite Hes). cbn in Hrun.
  destruct (first_duplicate _) eqn:Hdup; cbn in Hrun; [left; by simplify_eq|].
  rewrite (inv_stream _ Hst) in Hrun.
  destruct (_ =? v)%Z eqn:Hact; cbn in Hrun; [|left; by simplify_eq]. apply Z.eqb_eq in Hact.
  destruct (first_known _ _) eqn:Hknown; cbn in Hrun; [left; by simplify_eq|].
  destruct (capacity st <? _)%Z eqn:Hcap; cbn in Hrun; [left; by simplify_eq|]. time_facts.
  rewrite number_events_runs in Hrun by lia. cbn in Hrun. injection Hrun as <- <-. right.
  rewrite Hact. pose proof Hst as [H1 H2 H3 H4 H5 H6 H7].
  split_and!; [done|by rewrite Hes| |done|].
  { by rewrite stored_of_head, stored_of_last by (by rewrite Hes). }
  split; cbn.
  - apply numbered_app; [done|]. intros i e Hi. unfold stored_of in Hi. rewrite list_lookup_imap in Hi.
    destruct (es !! i); [|done]. cbn in Hi. simplify_eq. cbn. lia.
  - intros s'. rewrite filter_app, stored_of_stream, d_get_set. case_decide; [by subst|]. by rewrite app_nil_r, H2.
  - intros s'. rewrite filter_app, stored_of_stream. case_decide as Heq; [|by rewrite app_nil_r].
    subst s'. apply numbered_app; [done|]. intros i e Hi. unfold stored_of in Hi. rewrite list_lookup_imap in Hi.
    destruct (es !! i); [|done]. cbn in Hi. simplify_eq. cbn. lia.
  - rewrite fmap_app, stored_of_ids. apply NoDup_app. split_and!; [done| |by apply first_duplicate_None].
    intros i Hi Hi'. apply H5 in Hi. by eapply first_known_None.
  - intros i. rewrite fmap_app, stored_of_ids, elem_of_app, elem_of_union, elem_of_list_to_set, H5. tauto.
  - rewrite length_app, stored_of_length. lia.
  - intros s' sn Hsn. apply H7 in Hsn. rewrite filter_app, length_app. lia.
Qed.

Lemma save_snapshot_runs sn v st r st' : store_inv st -> save_snapshot sn v st = (r, st') ->
  store_inv st' /\ all st' = all st.
Proof.
  intros Hst. pose proof Hst as [H1 H2 H3 H4 H5 H6 H7]. unfold save_snapshot. intros Hrun. monad_unfold.
  case_bool_decide; cbn in Hrun; [|by simplify_eq]. rewrite H2 in Hrun.
  destruct (_ <? snapshot_version sn)%Z eqn:Hlt; cbn in Hrun; [by simplify_eq|]. time_facts. simplify_eq.
  split; [|done]. split; cbn; try done. intros s x. rewrite d_get_set. case_decide; [|apply H7].
  intros [= <-]. by subst.
Qed.

(** ** Histories *)

Inductive op :=
  | OpAppend (s : StreamId) (v : Z) (es : list NewEvent)
  | OpSnapshot (sn : Snapshot) (v : option Z).

Definition exec (o : op) (st : store) : store :=
  match o with
  | OpAppend s v es => snd (append s v es st)
  | OpSnapshot sn v => snd (save_snapshot sn v st)
  end.

Definition exec_all (os : list op) (st : store) : store := fold_left (fun st o => exec o st) os st.

Lemma exec_runs o st : store_inv st -> store_inv (exec o st) /\ all st `prefix_of` all (exec o st).
Proof.
  intros Hst. destruct o as [s v es|sn v]; cbn [exec].
  - destruct (append s v es st) as [r st'] eqn:Hrun.
    apply append_runs in Hrun; [|done]. destruct Hrun as [[-> _]|(_ & _ & _ & Hall & Hi)]; cbn [snd]; [by split|].
    split; [done|]. rewrite Hall. by apply prefix_app_r.
  - destruct (save_snapshot sn v st) as [r st'] eqn:Hrun. apply save_snapshot_runs in Hrun as [Hi Hall]; [|done].
    cbn. by rewrite Hall.
Qed.

Lemma exec_all_runs os st : store_inv st -> store_inv (exec_all os st) /\ all st `prefix_of` all (exec_all os st).
Proof.
  revert st. induction os as [|o os IH]; intros st Hst; cbn; [by split|].
  destruct (exec_runs o st Hst) as [Hi Hp]. destruct (IH _ Hi) as [Hi' Hp']. split; [done|by etransitivity].
Qed.

(** ** Pages *)

(** Read page after page until one is complete; [None] when the fuel runs out or a read fails. *)
Fixpoint read_pages (read : Z -> M exn store EventPage) (fuel : nat) (after : Z) (st : store) :
    option (list StoredEvent) :=
  match fuel with
  | O => None
  | S fuel' =>
      match read after st with
      | (Ok page, _) =>
          if complete page then Some (page_events page)
          else app (page_events page) <$> read_pages read fuel' (next_position page) st
      | (Raise _, _) => None
      end
  end.

Lemma filter_all {A} (P : A -> Prop) `{!forall x, Decision (P x)} l : Forall P l -> filter P l = l.
Proof. induction 1 as [|x l Hx _ IH]; [done|]. rewrite filter_cons, decide_True by done. by rewrite IH. Qed.

(** The events after a position of a numbered list are a suffix of it. *)
Lemma filter_after (pos : StoredEvent -> Z) k l : (forall i e, l !! i = Some e -> pos e = k + Z.of_nat i + 1) ->
  forall after, k <= after -> filter (fun e => after < pos e) l = drop (Z.to_nat (after - k)) l.
Proof.
  revert k. induction l as [|e l IH]; intros k Hl after Hk; [by rewrite drop_nil|].
  pose proof (Hl 0%nat e eq_refl) as He. rewrite filter_cons.
  assert (forall i e', l !! i = Some e' -> pos e' = k + 1 + Z.of_nat i + 1) as Hl'.
  { intros i e' Hi. specialize (Hl (S i) e' Hi). lia. }
  destruct (decide (after < pos e)).
  - replace after with k by lia. rewrite Z.sub_diag. change (Z.to_nat 0) with 0%nat. rewrite drop_0. f_equal. apply filter_all, Forall_forall.
    intros x Hx. apply list_elem_of_lookup in Hx as (i & Hi). specialize (Hl' i x Hi). lia.
  - rewrite (IH (k + 1)) by (done || lia). replace (Z.to_nat (after - k)) with (S (Z.to_nat (after - (k + 1)))) by lia.
    done.
Qed.

(** One page of a numbered list, and what is left after it. *)
Lemma page_of_numbered pos l after limit : numbered pos l -> 0 <= after -> 1 <= limit ->
  let rest := drop (Z.to_nat after) l in
  let page := page_of pos after limit l in
  page_events page = take (Z.to_nat limit) rest /\
  complete page = (Z.of_nat (length rest) <=? limit)%Z /\
  (complete page = false -> next_position page = after + limit).
Proof.
  intros Hl Ha Hlim rest page.
  assert (filter (fun e => after < pos e) l = rest) as Hf.
  { unfold rest. replace (Z.to_nat after) with (Z.to_nat (after - 0)) by (by rewrite Z.sub_0_r).
    apply filter_after; [|done]. intros i e Hi. by apply Hl. }
  unfold page, page_of. rewrite Hf. cbn. split_and!; [done..|]. intros Hc. apply Z.leb_gt in Hc.
  rewrite last_lookup, length_take, Nat.min_l by lia.
  destruct (take (Z.to_nat limit) rest !! pred (Z.to_nat limit)) as [e|] eqn:He.
  - apply lookup_take_Some in He as [He _]. unfold rest in He. rewrite lookup_drop in He. apply Hl in He. lia.
  - apply lookup_ge_None in He. rewrite length_take in He. lia.
Qed.

Lemma read_pages_runs read pos l limit st : numbered pos l -> 1 <= limit ->
  (forall after, 0 <= after -> read after st = (Ok (page_of pos after limit l), st)) ->
  forall fuel after, 0 <= after -> (length (drop (Z.to_nat after) l) < fuel)%nat ->
  read_pages read fuel after st = Some (drop (Z.to_nat after) l).
Proof.
  intros Hl Hlim Hread. induction fuel as [|fuel IH]; intros after Ha Hfuel; [lia|].
  cbn [read_pages]. rewrite Hread by done.
  destruct (page_of_numbered pos l after limit Hl Ha Hlim) as (Hev & Hc & Hnext).
  destruct (complete (page_of pos after limit l)) eqn:Hcomp.
  - rewrite Hev, take_ge; [done|]. symmetry in Hc. apply Z.leb_le in Hc. lia.
  - rewrite Hnext by done. symmetry in Hc. apply Z.leb_gt in Hc. rewrite length_drop in *.
    assert (drop (Z.to_nat (after + limit)) l = drop (Z.to_nat limit) (drop (Z.to_nat after) l)) as Hd.
    { rewrite drop_drop. f_equal. lia. }
    rewrite IH by (rewrite ?length_drop; lia). cbn [fmap option_fmap option_map]. by rewrite Hev, Hd, take_drop.
Qed.

Lemma page_arguments_ok position limit st : 0 <= position -> 1 <= limit <= max_page_size st ->
  _page_arguments position limit st = (Ok tt, st).
Proof.
  intros Hp Hl. unfold _page_arguments. monad_unfold. rewrite (proj2 (Z.ltb_ge _ _)) by lia. cbn.
  by rewrite !(proj2 (Z.leb_le _ _)) by lia.
Qed.

(** ** Properties *)

(** C30. In every history of a new event store the streams are exact projections of one
    global log: global positions are 1, 2, 3, ... without gaps, each stream is the
    subsequence of its own events with versions 1, 2, 3, ..., event IDs are globally unique,
    no snapshot is ahead of its stream, and the log only ever grows at its end. *)
Theorem event_history_consistent cap page os os' : 0 < cap ->
  let st := exec_all os (mkStore cap page [] [] ∅ []) in
  store_inv st /\ all st `prefix_of` all (exec_all os' st).
Proof.
  intros Hcap st. destruct (exec_all_runs os _ (event_inv_initial cap page Hcap)) as [Hst _].
  split; [done|]. by apply exec_all_runs.
Qed.

(** Appends are optimistically exclusive: an append that commits at an expected version
    extends its stream by exactly its events with the versions that follow, and afterwards,
    in any history, no other append at the same expected version commits. *)
Theorem append_exclusive st s v es a b l st1 os es2 : store_inv st ->
  append s v es st = (Ok (AppendCommitted a b l), st1) ->
  stored_event <$> l = es /\ a = v + 1 /\ b = v + Z.of_nat (length es) /\
  filter (fun e => stored_stream e = s) (all st1) = filter (fun e => stored_stream e = s) (all st) ++ l /\
  let st2 := exec_all os st1 in
  snd (append s v es2 st2) = st2 /\ forall a' b' l', fst (append s v es2 st2) <> Ok (AppendCommitted a' b' l').
Proof.
  intros Hst Hrun. apply append_runs in Hrun; [|done].
  destruct Hrun as [[_ Hno]|(Hv & Hes & Hr & Hall & Hi)]; [by edestruct Hno|]. injection Hr as -> -> ->.
  split_and!; [|done|done| |].
  - unfold stored_of. rewrite fmap_imap. unfold compose. cbn. clear.
    induction es as [|e es IH]; [done|]. cbn. f_equal. exact IH.
  - by rewrite Hall, filter_app, stored_of_stream, decide_True.
  - intros st2. destruct (exec_all_runs os st1 Hi) as [Hi2 [rest Hp]]. fold st2 in Hi2, Hp.
    destruct (append s v es2 st2) as [r st3] eqn:Hrun. apply append_runs in Hrun; [|done].
    destruct Hrun as [[-> Hno]|(Hv2 & _)]; [done|]. exfalso.
    rewrite Hp, Hall, !filter_app, !length_app, stored_of_stream, decide_True, stored_of_length in Hv2 by done.
    destruct es; [done|]. cbn in Hv2. lia.
Qed.

(** C33. Paging loses and repeats nothing: from any position, reading page after page with any
    admissible page size terminates and yields exactly the later events, in order, both of
    the global log and of a single stream; [length + 1] pages are enough. *)
Theorem paging_complete st s after limit : store_inv st -> 0 <= after -> 1 <= limit <= max_page_size st ->
  read_pages (fun a => read_all a limit) (S (length (all st))) after st =
    Some (drop (Z.to_nat after) (all st)) /\
  let stream := filter (fun e => stored_stream e = s) (all st) in
  read_pages (fun a => read_stream s a limit) (S (length stream)) after st =
    Some (drop (Z.to_nat after) stream).
Proof.
  intros Hst Ha Hlim. split.
  - eapply read_pages_runs with (limit := limit); [apply Hst|lia| |done|rewrite length_drop; lia].
    intros a Hpos. unfold read_all. erewrite bind_run by (by apply page_arguments_ok). done.
  - intros stream. eapply read_pages_runs with (limit := limit); [apply Hst|lia| |done|rewrite length_drop; unfold stream; lia].
    intros a Hpos. unfold read_stream. erewrite bind_run by (by apply page_arguments_ok).
    unfold gets. by rewrite (inv_stream _ Hst).
Qed.

(** ** Concrete runs *)

Section Witnesses.
Definition demo_event (id : pystr) : NewEvent := mkNewEvent id "t" JNull (utc 1) [].
Definition demo_s : StreamId := mkStreamId "c" "1".
Definition demo_u : StreamId := mkStreamId "c" "2".
Definition demo_empty : store := mkStore 9 2 [] [] ∅ [].
Definition demo_ops : list op :=
  [OpAppend demo_s 0 [demo_event "a"; demo_event "b"]; OpAppend demo_u 0 [demo_event "c"];
   OpAppend demo_s 1 [demo_event "x"]; OpAppend demo_s 2 [demo_event "a"]; OpAppend demo_s 2 [demo_event "d"]].
Definition demo_store : store := exec_all demo_ops demo_empty.

Example demo_log : (fun e => (event_id (stored_event e), stream_version e, global_position e)) <$> all demo_store =
  [("a"%py, 1, 1); ("b"%py, 2, 2); ("c"%py, 1, 3); ("d"%py, 3, 4)].
Proof. vm_compute. reflexivity. Qed.

Lemma event_demo_store_inv : store_inv demo_store.
Proof. by apply exec_all_runs, event_inv_initial. Qed.

Lemma event_history_consistent_witness : 0 < 9 /\ store_inv demo_store.
Proof. split; [lia|]. apply (event_history_consistent 9 2 demo_ops []). lia. Defined.

Lemma append_exclusive_witness :
  filter (fun e => stored_stream e = demo_u) (all (exec (OpAppend demo_u 1 [demo_event "e"]) demo_store)) =
    filter (fun e => stored_stream e = demo_u) (all demo_store) ++ [mkStoredEvent demo_u 2 5 (demo_event "e")].
Proof.
  apply (append_exclusive demo_store demo_u 1 [demo_event "e"] 2 2 [mkStoredEvent demo_u 2 5 (demo_event "e")] _ []
    [demo_event "f"]); [apply event_demo_store_inv|vm_compute; reflexivity].
Defined.

Lemma paging_complete_witness :
  read_pages (fun a => read_all a 2) 5 1 demo_store = Some (drop 1 (all demo_store)).
Proof.
  apply (paging_complete demo_store demo_s 1 2); [apply event_demo_store_inv|lia|vm_compute; split; congruence].
Defined.
End Witnesses.
