(* ===== verification/Projections.v ===== *)
(** * Projections ([src/pytitect/projections.py])

    Versioned projection states with checkpoints on the global log, resumable rebuilds with a
    fixed watermark, the reference store [InMemoryProjectionStore] and the runtime that folds
    pages of events into a projection. *)
From Stdlib Require Import ZArith Lia.
From stdpp Require Import base list gmap.
From S2P Require Import Prelude Core EventSourcing.

(** ** Data *)

Record ProjectionKey := mkProjectionKey {
  projection_name : pystr;
  partition : pystr
}.

#[export] Instance ProjectionKey_eq_dec : EqDecision ProjectionKey.
Proof. solve_decision. Defined.

Definition ProjectionKey_new {S} (n p : pystr) : M exn S ProjectionKey :=
  raise_if (str_empty n || str_empty p) (ValueError "projection name and partition must not be empty") ;;;
  ret (mkProjectionKey n p).

Record ProjectionState := mkProjectionState {
  projected_key : ProjectionKey;
  version : Z;
  checkpoint : Z;
  state : json
}.

Definition ProjectionState_new {S} (k : ProjectionKey) (v c : Z) (s : json) : M exn S ProjectionState :=
  raise_if ((v <=? 0)%Z || (c <? 0)%Z) (ValueError "projection version and checkpoint are invalid") ;;;
  validate_json s ;;;
  ret (mkProjectionState k v c s).

Inductive ProjectionApplyResult :=
  | ProjectionApplied (s : ProjectionState) (events : Z)
  | StaleProjectionCheckpoint (expected actual : Z)
  | ProjectionVersionMismatch (expected actual : Z).

Inductive RebuildStatus := REBUILD_RUNNING | REBUILD_COMPLETED.

#[export] Instance RebuildStatus_eq_dec : EqDecision RebuildStatus.
Proof. solve_decision. Defined.

Record RebuildRun := mkRebuildRun {
  run_id : pystr;
  run_key : ProjectionKey;
  projection_version : Z;
  through_position : Z;
  batch_size : Z;
  run_position : Z;
  run_state : json;
  run_status : RebuildStatus
}.

Definition RebuildRun_new {S} (id : pystr) (k : ProjectionKey) (v through batch next : Z) (s : json)
    (status : RebuildStatus) : M exn S RebuildRun :=
  raise_if (str_empty id || (v <=? 0)%Z) (ValueError "rebuild identity and projection version are required") ;;;
  raise_if ((through <? 0)%Z || negb ((0 <=? next)%Z && (next <=? through)%Z) || (batch <=? 0)%Z)
    (ValueError "rebuild positions and batch size are invalid") ;;;
  validate_json s ;;;
  ret (mkRebuildRun id k v through batch next s status).

(** ** The in-memory store *)

Record store := mkStore {
  capacity : Z;
  states : dict ProjectionKey ProjectionState;
  rebuilds : dict pystr RebuildRun
}.

Definition InMemoryProjectionStore_new {S} (cap : Z) : M exn S store :=
  raise_if (cap <=? 0)%Z (ValueError "projection capacity must be positive") ;;;
  ret (mkStore cap [] []).

Definition load (k : ProjectionKey) : M exn store (option ProjectionState) :=
  gets (fun st => d_get k (states st)).

(** [any(later.global_position <= earlier.global_position for ... in pairwise(events))]. *)
Fixpoint out_of_order (events : list StoredEvent) : bool :=
  match events with
  | earlier :: (later :: _) as rest =>
      (global_position later <=? global_position earlier)%Z || out_of_order rest
  | _ => false
  end.

Definition set_state (k : ProjectionKey) (s : ProjectionState) (st : store) : store :=
  mkStore (capacity st) (d_set k s (states st)) (rebuilds st).
Definition set_rebuild (r : RebuildRun) (st : store) : store :=
  mkStore (capacity st) (states st) (d_set (run_id r) r (rebuilds st)).

Definition apply (k : ProjectionKey) (expected_checkpoint proj_version : Z) (s : json)
    (events : list StoredEvent) : M exn store ProjectionApplyResult :=
  validate_json s ;;;
  raise_if (proj_version <=? 0)%Z (ValueError "projection version must be positive") ;;;
  raise_if (out_of_order events) (ValueError "projection events must be strictly ordered") ;;;
  raise_if (match head events with Some e => (global_position e <=? expected_checkpoint)%Z | None => false end)
    (ValueError "projection checkpoint must not regress") ;;;
  let! st := get in
  let current := d_get k (states st) in
  let actual := match current with None => 0 | Some c => checkpoint c end in
  if negb (actual =? expected_checkpoint)%Z then ret (StaleProjectionCheckpoint expected_checkpoint actual)
  else if match current with Some c => negb (version c =? proj_version)%Z | None => false end
  then ret (ProjectionVersionMismatch proj_version (match current with Some c => version c | None => 0 end))
  else
    raise_if (bool_decide (current = None) && (capacity st <=? d_len (states st))%Z)
      (OverflowError "projection capacity exceeded") ;;;
    let c := match last events with None => expected_checkpoint | Some e => global_position e end in
    let! projected := ProjectionState_new k proj_version c s in
    modify (set_state k projected) ;;;
    ret (ProjectionApplied projected (Z.of_nat (length events))).

Definition begin_rebuild (r : RebuildRun) : M exn store bool :=
  let! st := get in
  if d_mem (run_id r) (rebuilds st) then ret false
  else
    raise_if (capacity st <=? d_len (states st) + d_len (rebuilds st))%Z
      (OverflowError "projection capacity exceeded") ;;;
    modify (set_rebuild r) ;;;
    ret true.

Definition load_rebuild (id : pystr) : M exn store (option RebuildRun) :=
  gets (fun st => d_get id (rebuilds st)).

Definition advance_rebuild (id : pystr) (expected_position : Z) (s : json) (next_pos : Z) (done_ : bool) :
    M exn store (option RebuildRun) :=
  validate_json s ;;;
  let! st := get in
  match d_get id (rebuilds st) with
  | None => ret None
  | Some current =>
      if negb (bool_decide (run_status current = REBUILD_RUNNING))
         || negb (run_position current =? expected_position)%Z
      then ret None
      else
        raise_if
          (negb ((run_position current <=? next_pos)%Z && (next_pos <=? through_position current)%Z)
           || negb (Bool.eqb done_ (next_pos =? through_position current)%Z))
          (ValueError "rebuild progress must respect its fixed watermark") ;;;
        let active := d_get (run_key current) (states st) in
        if done_ && match active with
                    | Some a => (next_pos <? checkpoint a)%Z || (projection_version current <? version a)%Z
                    | None => false
                    end
        then ret None
        else
          let! advanced := RebuildRun_new (run_id current) (run_key current) (projection_version current)
            (through_position current) (batch_size current) next_pos s
            (if done_ then REBUILD_COMPLETED else REBUILD_RUNNING) in
          modify (fun st => mkStore (capacity st) (states st) (d_set id advanced (rebuilds st))) ;;;
          (if done_
           then
             let! projected := ProjectionState_new (run_key current) (projection_version current) next_pos s in
             modify (set_state (run_key current) projected)
           else ret tt) ;;;
          ret (Some advanced)
  end.

(** ** The runtime *)

Record ProjectionDefinition := mkDefinition {
  definition_version : Z;
  initial_state : json;
  reduce : json -> StoredEvent -> result exn json
}.

Definition ProjectionDefinition_new {S} (v : Z) (s : json) (f : json -> StoredEvent -> result exn json) :
    M exn S ProjectionDefinition :=
  raise_if (v <=? 0)%Z (ValueError "projection version must be positive") ;;;
  validate_json s ;;;
  ret (mkDefinition v s f).

Section Runtime.
(** The projection store is one component of the state, the event store any port over it. *)
Context {W : Type} `{!EventStore W}.
Variable projections : lens W store.

(** The loop that reduces the events of a page. *)
Definition reduce_events (d : ProjectionDefinition) (events : list StoredEvent) (s : json) : M exn W json :=
  for_each events s (fun s e =>
    let! s' := lift (reduce d s e) in
    validate_json s' ;;;
    ret s').

Definition project_once (k : ProjectionKey) (d : ProjectionDefinition) (limit : Z) : M exn W ProjectionApplyResult :=
  let! current := zoom projections (load k) in
  let c := match current with None => 0 | Some s => checkpoint s end in
  if match current with Some s => negb (version s =? definition_version d)%Z | None => false end
  then ret (ProjectionVersionMismatch (definition_version d) (match current with Some s => version s | None => 0 end))
  else
    let! page := port_read_all c limit in
    let start := match current with None => initial_state d | Some s => state s end in
    let! s := reduce_events d (page_events page) start in
    zoom projections (apply k c (definition_version d) s (page_events page)).

Definition resume_rebuild (id : pystr) (d : ProjectionDefinition) : M exn W RebuildRun :=
  let! found := zoom projections (load_rebuild id) in
  match found with
  | None => raise (LookupError (str_app "unknown rebuild run: " id))
  | Some run =>
      raise_if (negb (projection_version run =? definition_version d)%Z)
        (ValueError "rebuild definition version changed") ;;;
      if bool_decide (run_status run = REBUILD_COMPLETED) then ret run
      else
        let! page := port_read_all (run_position run) (batch_size run) in
        let selected := filter (fun e => global_position e <= through_position run) (page_events page) in
        let! s := reduce_events d selected (run_state run) in
        let next := match last selected with None => run_position run | Some e => global_position e end in
        let done_ := (next =? through_position run)%Z in
        raise_if (bool_decide (length selected = 0%nat) && negb done_)
          (RuntimeError "rebuild watermark has missing durable coverage") ;;;
        let! advanced := zoom projections (advance_rebuild id (run_position run) s next done_) in
        match advanced with
        | None => raise (RuntimeError "rebuild progress compare-and-set failed")
        | Some r => ret r
        end
  end.
End Runtime.

(** ** A projection is a fold of the log *)

(** The reference meaning of a definition on a sequence of events. *)
Fixpoint fold_events (d : ProjectionDefinition) (events : list StoredEvent) (s : json) : option json :=
  match events with
  | [] => Some s
  | e :: events' => match reduce d s e with Ok s' => fold_events d events' s' | Raise _ => None end
  end.

Lemma fold_events_app d l1 l2 s :
  fold_events d (l1 ++ l2) s = match fold_events d l1 s with Some s' => fold_events d l2 s' | None => None end.
Proof. revert s. induction l1 as [|e l IH]; intros s; cbn; [done|]. by destruct (reduce d s e). Qed.

Lemma reduce_events_runs {W} d l s (w w' : W) s' : reduce_events d l s w = (Ok s', w') ->
  fold_events d l s = Some s' /\ w' = w.
Proof.
  revert s w. induction l as [|e l IH]; intros s w Hrun; [by inversion Hrun|].
  cbn [reduce_events for_each] in Hrun. apply bind_ok in Hrun as (s1 & w1 & H1 & Hrun).
  apply bind_ok in H1 as (s2 & w2 & H2 & H1). apply bind_ok in H1 as ([] & w3 & H3 & H1).
  unfold lift in H2. injection H2 as H2 <-. inversion H1; subst. cbn. rewrite H2.
  unfold validate_json, lift in H3. injection H3 as _ <-. by apply IH.
Qed.

Lemma reduce_events_state {W} d l s (w : W) : snd (reduce_events d l s w) = w.
Proof.
  apply for_each_state. intros s0 e w0. unfold validate_json. monad_unfold. cbn.
  destruct (reduce d s0 e); cbn; [|done]. by destruct (validate_json_with _ _).
Qed.

(** The first events up to a position of a numbered list. *)
Lemma filter_upto (pos : StoredEvent -> Z) k l : (forall i e, l !! i = Some e -> pos e = k + Z.of_nat i + 1) ->
  forall t, filter (fun e => pos e <= t) l = take (Z.to_nat (t - k)) l.
Proof.
  revert k. induction l as [|e l IH]; intros k Hl t; [by rewrite take_nil|].
  pose proof (Hl 0%nat e eq_refl) as He. rewrite filter_cons.
  assert (forall i e', l !! i = Some e' -> pos e' = k + 1 + Z.of_nat i + 1) as Hl'.
  { intros i e' Hi. specialize (Hl (S i) e' Hi). lia. }
  rewrite (IH (k + 1) Hl'). case_decide.
  - replace (Z.to_nat (t - k)) with (S (Z.to_nat (t - (k + 1)))) by lia. done.
  - replace (Z.to_nat (t - k)) with 0%nat by lia. by replace (Z.to_nat (t - (k + 1))) with 0%nat by lia.
Qed.

(** The position after a chunk of the log that starts after [n]. *)
Lemma chunk_position l n m : numbered global_position l -> 0 <= n <= Z.of_nat (length l) ->
  let chunk := take m (drop (Z.to_nat n) l) in
  match last chunk with None => n | Some e => global_position e end = n + Z.of_nat (length chunk).
Proof.
  intros Hl Hn chunk. destruct (last chunk) as [e|] eqn:He.
  - rewrite last_lookup in He. pose proof (lookup_lt_Some _ _ _ He) as Hlt.
    unfold chunk in He at 1. apply lookup_take_Some in He as [He _]. fold chunk in He.
    rewrite lookup_drop in He. apply Hl in He. rewrite He. lia.
  - apply last_None in He. rewrite He. cbn. lia.
Qed.

Section Fold.
Variable d : ProjectionDefinition.
Variable k : ProjectionKey.

#[local] Instance fold_events_store : EventStore (store * EventSourcing.store) := zoomed_EventStore snd_lens.
Abbreviation world := (store * EventSourcing.store)%type.

(** A position on the log with the state of the events up to it. *)
Definition folded (log : list StoredEvent) (n : Z) (s : json) : Prop :=
  0 <= n <= Z.of_nat (length log) /\ fold_events d (take (Z.to_nat n) log) (initial_state d) = Some s.

Lemma folded_prefix log log' n s : log `prefix_of` log' -> folded log n s -> folded log' n s.
Proof.
  intros [r ->] [Hn Hf]. split; [rewrite length_app; lia|]. rewrite take_app_le by lia. done.
Qed.

(** Folding the next chunk of the log. *)
Lemma folded_chunk log n m s s' : folded log n s ->
  let chunk := take m (drop (Z.to_nat n) log) in
  fold_events d chunk s = Some s' -> folded log (n + Z.of_nat (length chunk)) s'.
Proof.
  intros [Hn Hf] chunk Hc. assert (length chunk <= length log - Z.to_nat n)%nat as Hle.
  { unfold chunk. rewrite length_take, length_drop. lia. }
  split; [lia|].
  replace (Z.to_nat (n + Z.of_nat (length chunk))) with (Z.to_nat n + length chunk)%nat by lia.
  rewrite <- take_take_drop, fold_events_app, Hf.
  assert (take (length chunk) (drop (Z.to_nat n) log) = chunk) as ->; [|done].
  unfold chunk at 1 2. rewrite length_take. destruct (Nat.le_ge_cases m (length (drop (Z.to_nat n) log))).
  - by rewrite Nat.min_l.
  - rewrite Nat.min_r by done. by rewrite !take_ge by lia.
Qed.

(** Every projection state of [k] and every rebuild of it is the fold of the log up to its
    position. *)
Record world_inv (w : world) : Prop := {
  world_events : store_inv (snd w);
  world_states : forall s, d_get k (states (fst w)) = Some s -> version s = definition_version d ->
    folded (all (snd w)) (checkpoint s) (state s);
  world_rebuilds : forall id r, d_get id (rebuilds (fst w)) = Some r ->
    run_key r = k /\ folded (all (snd w)) (run_position r) (run_state r)
}.

Lemma read_all_state (w : world) n limit r w' : port_read_all n limit w = (r, w') -> w' = w.
Proof.
  destruct w as [p e]. cbn. unfold zoom. cbn. unfold read_all, _page_arguments. monad_unfold.
  destruct (n <? 0)%Z; cbn; [by intros [= <- <-]|]. by destruct (negb _); cbn; intros [= <- <-].
Qed.

Lemma read_all_page (w : world) n limit page w' : store_inv (snd w) -> 0 <= n ->
  port_read_all n limit w = (Ok page, w') ->
  w' = w /\ page_events page = take (Z.to_nat limit) (drop (Z.to_nat n) (all (snd w))).
Proof.
  intros Hst Hn. destruct w as [p e]. cbn. unfold zoom. cbn. unfold read_all, _page_arguments. monad_unfold.
  destruct (n <? 0)%Z eqn:H1; cbn; [done|]. destruct (1 <=? limit)%Z eqn:H2; cbn; [|done].
  destruct (limit <=? max_page_size e)%Z eqn:H3; cbn; [|done]. intros [= <- <-]. time_facts. split; [done|].
  by destruct (page_of_numbered global_position (all e) n limit (inv_global _ Hst) Hn) as (? & _ & _).
Qed.

(** [apply] with the folded page keeps the states folded. *)
Lemma projection_apply_runs c v s events st r st' : apply k c v s events st = (r, st') ->
  st' = st \/ (default 0 (checkpoint <$> d_get k (states st)) = c /\
    exists p, st' = set_state k p st /\ version p = v /\ state p = s /\
      checkpoint p = match last events with None => c | Some e => global_position e end).
Proof.
  unfold apply, validate_json, ProjectionState_new. intros Hrun. monad_unfold.
  destruct (validate_json_with _ s) eqn:Hv; cbn in Hrun; [|left; by simplify_eq].
  destruct (v <=? 0)%Z eqn:Hv0; cbn in Hrun; [left; by simplify_eq|].
  destruct (out_of_order events); cbn in Hrun; [left; by simplify_eq|].
  destruct (match head events with Some _ => _ | None => _ end); cbn in Hrun; [left; by simplify_eq|].
  destruct (_ =? c)%Z eqn:Hc; cbn in Hrun; [|left; by simplify_eq]. apply Z.eqb_eq in Hc.
  destruct (match d_get k (states st) with Some _ => _ | None => false end); cbn in Hrun; [left; by simplify_eq|].
  destruct (_ && _); cbn in Hrun; [left; by simplify_eq|].
  destruct (_ <? 0)%Z; cbn in Hrun; [left; by simplify_eq|]. rewrite Hv in Hrun. cbn in Hrun. simplify_eq. right.
  split; [by destruct (d_get k (states st))|]. eexists. split; [reflexivity|done].
Qed.

Lemma project_once_inv limit (w : world) : world_inv w ->
  world_inv (snd (project_once fst_lens k d limit w)).
Proof.
  intros Hw. pose proof Hw as [Hev Hst Hrb]. unfold project_once.
  unfold bind at 1, zoom at 1. cbn [view update fst_lens load gets fst snd]. rewrite <- surjective_pairing.
  set (current := d_get k (states (fst w))).
  destruct (match current with Some s => negb _ | None => false end) eqn:Hver; [done|].
  set (c := match current with None => 0 | Some s => checkpoint s end).
  set (start := match current with None => initial_state d | Some s => state s end).
  assert (folded (all (snd w)) c start) as Hfold.
  { unfold c, start. destruct current as [s|] eqn:Hcur.
    - apply negb_false_iff, Z.eqb_eq in Hver. by apply Hst.
    - split; [lia|]. by rewrite take_0. }
  unfold bind at 1. destruct (port_read_all c limit w) as [[page|e] w1] eqn:Hread.
  2: { cbn. by rewrite (read_all_state _ _ _ _ _ Hread). }
  apply read_all_page in Hread as [-> Hpage]; [|done|apply Hfold].
  unfold bind at 1. destruct (reduce_events d (page_events page) start w) as [[s|e] w2] eqn:Hred.
  2: { cbn. pose proof (reduce_events_state d (page_events page) start w) as Hs. rewrite Hred in Hs. by cbn in Hs; subst. }
  apply reduce_events_runs in Hred as [Hred ->]. rewrite Hpage in Hred.
  unfold zoom. cbn [view update fst_lens].
  destruct (apply k c (definition_version d) s (page_events page) (fst w)) as [r p'] eqn:Happ. cbn [snd].
  apply projection_apply_runs in Happ as [->|(_ & p & -> & Hv & Hs & Hc)]; [by rewrite <- surjective_pairing|].
  split; cbn; [done| |done]. intros x. rewrite d_get_set_eq. intros [= <-] _. rewrite Hc, Hs, Hpage.
  rewrite (chunk_position (all (snd w)) c (Z.to_nat limit)) by (apply Hev || apply Hfold).
  by eapply folded_chunk.
Qed.

Lemma advance_rebuild_runs id pos s next b st r st' : advance_rebuild id pos s next b st = (r, st') ->
  st' = st \/ exists cur, d_get id (rebuilds st) = Some cur /\ run_position cur = pos /\
    let adv := mkRebuildRun (run_id cur) (run_key cur) (projection_version cur) (through_position cur)
      (batch_size cur) next s (if b then REBUILD_COMPLETED else REBUILD_RUNNING) in
    rebuilds st' = d_set id adv (rebuilds st) /\
    (states st' = states st \/
     states st' = d_set (run_key cur) (mkProjectionState (run_key cur) (projection_version cur) next s) (states st)).
Proof.
  unfold advance_rebuild, validate_json, RebuildRun_new, ProjectionState_new. intros Hrun. monad_unfold.
  destruct (validate_json_with _ s) eqn:Hv; cbn in Hrun; [|left; by simplify_eq].
  destruct (d_get id (rebuilds st)) as [cur|] eqn:Hget; cbn in Hrun; [|left; by simplify_eq].
  destruct (bool_decide (run_status cur = _)); cbn in Hrun; [|left; by simplify_eq].
  destruct (run_position cur =? pos)%Z eqn:Hp; cbn in Hrun; [|left; by simplify_eq]. apply Z.eqb_eq in Hp.
  destruct (negb _ || negb (Bool.eqb _ _)); cbn in Hrun; [left; by simplify_eq|].
  destruct (b && _); cbn in Hrun; [left; by simplify_eq|].
  destruct (str_empty _ || _); cbn in Hrun; [left; by simplify_eq|].
  destruct ((_ <? 0)%Z || _ || _); cbn in Hrun; [left; by simplify_eq|]. rewrite ?Hv in Hrun.
  right. exists cur. split_and!; [done|done|..].
  - destruct b; cbn in Hrun; [|by simplify_eq]. destruct (_ || _); cbn in Hrun; by simplify_eq.
  - destruct b; cbn in Hrun; [|left; by simplify_eq]. destruct (_ || _); cbn in Hrun; simplify_eq; [by left|by right].
Qed.

Lemma resume_rebuild_inv id (w : world) : world_inv w ->
  world_inv (snd (resume_rebuild fst_lens id d w)).
Proof.
  intros Hw. pose proof Hw as [Hev Hst Hrb]. unfold resume_rebuild.
  unfold bind at 1, zoom at 1. cbn [view update fst_lens load_rebuild gets fst snd]. rewrite <- surjective_pairing.
  destruct (d_get id (rebuilds (fst w))) as [run|] eqn:Hget; [|done].
  destruct (Hrb id run Hget) as [Hk Hfold]. pose proof (proj1 (proj1 Hfold)) as Hpos.
  unfold bind at 1, raise_if at 1. destruct (projection_version run =? definition_version d)%Z eqn:Hver; cbn [negb]; [|done].
  apply Z.eqb_eq in Hver. destruct (bool_decide (run_status run = REBUILD_COMPLETED)); [done|].
  unfold bind at 1. destruct (port_read_all (run_position run) (batch_size run) w) as [[page|e] w1] eqn:Hread.
  2: { cbn. by rewrite (read_all_state _ _ _ _ _ Hread). }
  apply read_all_page in Hread as [-> Hpage]; [|done|done].
  set (selected := filter _ (page_events page)).
  assert (selected = take (Nat.min (Z.to_nat (through_position run - run_position run)) (Z.to_nat (batch_size run)))
    (drop (Z.to_nat (run_position run)) (all (snd w)))) as Hsel.
  { unfold selected. rewrite (filter_upto global_position (run_position run)).
    - by rewrite Hpage, take_take.
    - intros i e Hi. rewrite Hpage in Hi. apply lookup_take_Some in Hi as [Hi _]. rewrite lookup_drop in Hi.
      apply (inv_global _ Hev) in Hi. lia. }
  unfold bind at 1. destruct (reduce_events d selected (run_state run) w) as [[s|e] w2] eqn:Hred.
  2: { cbn. pose proof (reduce_events_state d selected (run_state run) w) as Hs. rewrite Hred in Hs. by cbn in Hs; subst. }
  apply reduce_events_runs in Hred as [Hred ->]. set (next := match last selected with None => _ | Some e => _ end).
  assert (folded (all (snd w)) next s) as Hnext.
  { unfold next. rewrite Hsel in Hred |- *. rewrite chunk_position by (apply Hev || apply Hfold). by eapply folded_chunk. }
  unfold bind at 1, raise_if at 1. destruct (_ && _); [done|].
  unfold bind at 1, zoom at 1. cbn [view update fst_lens].
  destruct (advance_rebuild _ _ _ _ _ (fst w)) as [r p'] eqn:Hadv.
  assert (world_inv (p', snd w)) as Hinv.
  { apply advance_rebuild_runs in Hadv as [->|(cur & Hcur & _ & Hreb & Hstates)].
    { by rewrite <- surjective_pairing. }
    rewrite Hget in Hcur. injection Hcur as <-. split; cbn; [done| |].
    - intros x Hx Hxv. destruct Hstates as [Heq|Heq]; rewrite Heq in Hx; [by apply Hst|].
      rewrite Hk, d_get_set_eq in Hx. by injection Hx as <-.
    - intros i x. rewrite Hreb, d_get_set. case_decide; [|by apply Hrb]. by intros [= <-]. }
  destruct r as [[adv|]|e]; cbn; by apply Hinv.
Qed.

(** ** Histories *)

(** Appends and snapshots of the event store, projection steps, new rebuilds of [k] from the
    initial state, and rebuild steps. *)
Inductive op :=
  | OpEvents (o : EventSourcing.op)
  | OpProject (limit : Z)
  | OpBeginRebuild (id : pystr) (through batch : Z)
  | OpResume (id : pystr).

Definition exec (w : world) (o : op) : world :=
  match o with
  | OpEvents o => (fst w, EventSourcing.exec o (snd w))
  | OpProject limit => snd (project_once fst_lens k d limit w)
  | OpBeginRebuild id through batch =>
      snd ((let! r := RebuildRun_new id k (definition_version d) through batch 0 (initial_state d) REBUILD_RUNNING in
            zoom fst_lens (begin_rebuild r)) w)
  | OpResume id => snd (resume_rebuild fst_lens id d w)
  end.

Lemma begin_rebuild_inv id through batch (w : world) : world_inv w -> world_inv (exec w (OpBeginRebuild id through batch)).
Proof.
  intros Hw. cbn. unfold RebuildRun_new, validate_json, begin_rebuild, zoom. monad_unfold.
  destruct (str_empty id || _); cbn; [done|]. destruct ((_ <? 0)%Z || _ || _); cbn; [done|].
  destruct (validate_json_with _ _); cbn; [|done]. rewrite <- ?surjective_pairing.
  destruct (d_mem id _); cbn; rewrite <- ?surjective_pairing; [done|].
  destruct (_ <=? _)%Z; cbn; rewrite <- ?surjective_pairing; [done|].
  destruct Hw as [Hev Hst Hrb]. split; cbn; [done|done|]. intros i r. rewrite d_get_set. case_decide; [|apply Hrb].
  intros [= <-]. split; [done|]. cbn. split; [lia|]. by rewrite take_0.
Qed.

Lemma projection_exec_inv w o : world_inv w -> world_inv (exec w o).
Proof.
  intros Hw. destruct o; [|by apply project_once_inv|by apply begin_rebuild_inv|by apply resume_rebuild_inv].
  destruct Hw as [Hev Hst Hrb]. destruct (exec_runs o (snd w) Hev) as [Hi Hp]. split; cbn; [done|..].
  - intros s Hs Hv. eapply folded_prefix; [done|by apply Hst].
  - intros i r Hr. destruct (Hrb i r Hr) as [Hk Hf]. split; [done|by eapply folded_prefix].
Qed.

(** C31. A projection is the fold of the event log: after any interleaving of appends,
    projection steps with any page sizes, and rebuilds started and resumed in any order, the
    stored projection is exactly the reducer folded over the events up to its checkpoint, each
    once and in log order, whether it was built incrementally or by a rebuild; and a
    rebuild in progress is the fold of the events up to its own position. *)
Theorem projection_is_fold cap ecap page os : 0 < ecap ->
  let w := fold_left exec os (mkStore cap [] [], EventSourcing.mkStore ecap page [] [] ∅ []) in
  let log := all (snd w) in
  (forall s, d_get k (states (fst w)) = Some s -> version s = definition_version d ->
    0 <= checkpoint s <= Z.of_nat (length log) /\
    fold_events d (take (Z.to_nat (checkpoint s)) log) (initial_state d) = Some (state s)) /\
  (forall id r, d_get id (rebuilds (fst w)) = Some r ->
    fold_events d (take (Z.to_nat (run_position r)) log) (initial_state d) = Some (run_state r)).
Proof.
  intros Hcap w log. assert (world_inv w) as [_ Hst Hrb].
  { unfold w. assert (world_inv (mkStore cap [] [], EventSourcing.mkStore ecap page [] [] ∅ [])) as Hw
      by (split; cbn; [by apply event_inv_initial|done|done]).
    revert Hw. generalize (mkStore cap [] [], EventSourcing.mkStore ecap page [] [] ∅ []).
    induction os as [|o os IH]; intros w0 Hw; [done|]. by apply IH, projection_exec_inv. }
  split; [exact Hst|]. intros id r Hr. by destruct (Hrb id r Hr) as [_ [_ ?]].
Qed.
End Fold.

(** ** Concrete runs *)

Section Witnesses.
(** The reducer that counts events. *)
Definition demo_definition : ProjectionDefinition :=
  mkDefinition 1 (JInt 0) (fun s _ => match s with JInt n => Ok (JInt (n + 1)) | _ => Raise (ValueError "state") end).
Definition demo_key : ProjectionKey := mkProjectionKey "p" "0".
Definition demo_append (v : Z) (id : pystr) : op := OpEvents (OpAppend demo_s v [demo_event id]).
Definition demo_ops : list op :=
  [demo_append 0 "a"; demo_append 1 "b"; OpProject 1; demo_append 2 "c"; OpBeginRebuild "r" 3 2;
   OpResume "r"; OpProject 1; OpResume "r"].
Definition demo_world : store * EventSourcing.store :=
  fold_left (exec demo_definition demo_key) demo_ops (mkStore 9 [] [], EventSourcing.mkStore 9 2 [] [] ∅ []).

(** The rebuild has overtaken the incremental projection. *)
Example demo_projected : (fun p => (checkpoint p.2, state p.2)) <$> states (fst demo_world) = [(3, JInt 3)].
Proof. vm_compute. reflexivity. Qed.

Definition demo_state : ProjectionState :=
  match d_get demo_key (states (fst demo_world)) with
  | Some s => s
  | None => mkProjectionState demo_key 0 0 JNull
  end.

Lemma projection_is_fold_witness :
  d_get demo_key (states (fst demo_world)) = Some demo_state /\ version demo_state = 1 /\
  0 <= checkpoint demo_state <= Z.of_nat (length (all (snd demo_world))) /\
  fold_events demo_definition (take (Z.to_nat (checkpoint demo_state)) (all (snd demo_world))) (JInt 0) =
    Some (state demo_state).
Proof.
  assert (d_get demo_key (states (fst demo_world)) = Some demo_state) as Hs by (vm_compute; reflexivity).
  assert (version demo_state = 1) as Hv by (vm_compute; reflexivity).
  split; [exact Hs|]. split; [exact Hv|].
  exact (proj1 (projection_is_fold demo_definition demo_key 9 9 2 demo_ops eq_refl) demo_state Hs Hv).
Defined.

(** Completing a rebuild stores a projection state without the capacity check that [apply]
    and [begin_rebuild] make: here a store of capacity 1 ends with two states. *)
Lemma rebuild_completion_exceeds_capacity :
  let other := mkProjectionKey "q" "0" in
  let run := mkRebuildRun "r" demo_key 1 0 1 0 JNull REBUILD_RUNNING in
  let st := snd ((begin_rebuild run ;;; apply other 0 1 JNull [] ;;; advance_rebuild "r" 0 JNull 0 true)
    (mkStore 1 [] [])) in
  capacity st = 1 /\ d_len (states st) = 2.
Proof. vm_compute. done. Qed.
End Witnesses.
