(* ===== verification/Graph.v ===== *)
(** * Dataset dependency graphs ([src/pytitect/sync/graph.py])

    Validation, stable topological ordering and dependency closure of finite dataset graphs.
    The dictionary and the frozen sets are finite maps and sets: the code never depends on
    their iteration order except through the loops below, whose results the theorems
    characterise independently of it. Loops carry fuel; the theorems show that the fuel the
    operations start with is always enough. The message of the unknown-datasets error leaves out
    the names it lists. *)
From Stdlib Require Import ZArith Lia.
From stdpp Require Import base list gmap sets fin_maps fin_sets.
From S2P Require Import Prelude.

(** ** Data *)

Record DependencyGraphLimits := mkGraphLimits {
  max_datasets : Z;
  max_partitions : Z
}.

Definition DependencyGraphLimits_default : DependencyGraphLimits := mkGraphLimits 256 1024.

Definition DependencyGraphLimits_new {S} (d p : Z) : M exn S DependencyGraphLimits :=
  raise_if ((d <=? 0)%Z || (p <=? 0)%Z) (ValueError "dependency graph limits must be positive") ;;;
  ret (mkGraphLimits d p).

(** [DependencyValidation]; [DependencyClosureResult] has [DependencyClosure] for the order. *)
Inductive DependencyValidation :=
  | DependencyOrder (datasets : list pystr)
  | DependencyCycle (datasets : list pystr)
  | DependencyLimitExceeded (resource : pystr) (limit : Z).

Inductive DependencyClosureResult :=
  | DependencyClosure (datasets : list pystr)
  | ClosureCycle (datasets : list pystr)
  | ClosureLimitExceeded (resource : pystr) (limit : Z).

Abbreviation graph := (gmap pystr (gset pystr)).

(** [_dataset]. *)
Definition _dataset (value : pystr) : result exn unit :=
  if str_empty value || negb (bool_decide (value = str_strip value))
  then Raise (ValueError "dataset names must be non-empty and trimmed")
  else Ok tt.

Record DatasetDependencyGraph := mkGraph {
  limits : DependencyGraphLimits;
  dependencies : graph
}.

(** One entry of the constructor's first loop. *)
Definition copy_entry (copied : graph) (entry : pystr * list pystr) : result exn graph :=
  match _dataset entry.1 with
  | Raise e => Raise e
  | Ok _ =>
      let parents := list_to_set entry.2 : gset pystr in
      match fold_result (fun _ p => _dataset p) (elements parents) tt with
      | Raise e => Raise e
      | Ok _ => Ok (<[entry.1 := parents]> copied)
      end
  end.

(** [copied.setdefault(parent, frozenset())] for every parent. *)
Definition add_parents (copied : graph) : graph :=
  foldr (fun p g => match g !! p with Some _ => g | None => <[p := ∅]> g end) copied
    (elements (⋃ (map_to_list copied).*2)).

Definition DatasetDependencyGraph_new (deps : list (pystr * list pystr)) (lim : DependencyGraphLimits) :
    result exn DatasetDependencyGraph :=
  match fold_result copy_entry deps ∅ with
  | Raise e => Raise e
  | Ok copied => Ok (mkGraph lim (add_parents copied))
  end.

(** ** Ordering *)

Definition sorted_names (names : gset pystr) : list pystr := sorted_by str_compare (fun n => n) (elements names).

(** [{name: set(self._dependencies[name] & selected) for name in selected}]. *)
Definition init_pending (g : graph) (selected : gset pystr) : result exn graph :=
  fold_result (fun acc name =>
    match g !! name with
    | Some parents => Ok (<[name := parents ∩ selected]> acc)
    | None => Raise (KeyError name)
    end) (elements selected) ∅.

(** The names whose parents are all done. *)
Definition ready_names (pending : graph) : gset pystr := dom (filter (fun p => p.2 = ∅) pending).

(** One round: output the ready names, drop them from the rest. *)
Definition retire (ready : gset pystr) (pending : graph) : graph :=
  (fun parents => parents ∖ ready) <$> filter (fun p => p.1 ∉ ready) pending.

Fixpoint order_loop (fuel : nat) (pending : graph) (output : list pystr) : option DependencyValidation :=
  match fuel with
  | O => None
  | S fuel' =>
      if decide (pending = ∅) then Some (DependencyOrder output)
      else
        let ready := ready_names pending in
        if decide (ready = ∅) then Some (DependencyCycle (sorted_names (dom pending)))
        else order_loop fuel' (retire ready pending) (output ++ sorted_names ready)
  end.

(** [_order]; [None] would be a loop that does not end. *)
Definition _order (g : graph) (selected : gset pystr) : result exn (option DependencyValidation) :=
  match init_pending g selected with
  | Raise e => Raise e
  | Ok pending => Ok (order_loop (S (size pending)) pending [])
  end.

Definition validate (d : DatasetDependencyGraph) : result exn (option DependencyValidation) :=
  if (max_datasets (limits d) <? Z.of_nat (size (dependencies d)))%Z
  then Ok (Some (DependencyLimitExceeded "datasets" (max_datasets (limits d))))
  else _order (dependencies d) (dom (dependencies d)).

Definition topological_order (d : DatasetDependencyGraph) (datasets : option (list pystr)) :
    result exn (option DependencyValidation) :=
  let selected := match datasets with None => dom (dependencies d) | Some l => list_to_set l end : gset pystr in
  if (max_datasets (limits d) <? Z.of_nat (size selected))%Z
  then Ok (Some (DependencyLimitExceeded "datasets" (max_datasets (limits d))))
  else if negb (bool_decide (selected ⊆ dom (dependencies d)))
  then Raise (ValueError "unknown datasets")
  else _order (dependencies d) selected.

(** ** Closure *)

(** The inner loop over the parents; the stack's top is the head of the list. *)
Definition push_parents (acc : gset pystr * list pystr) (parents : list pystr) : gset pystr * list pystr :=
  fold_left (fun acc p => if decide (p ∈ acc.1) then acc else ({[p]} ∪ acc.1, p :: acc.2)) parents acc.

Fixpoint closure_loop (fuel : nat) (g : graph) (selected : gset pystr) (pending : list pystr) :
    result exn (option (gset pystr)) :=
  match fuel with
  | O => Ok None
  | S fuel' =>
      match pending with
      | [] => Ok (Some selected)
      | current :: rest =>
          match g !! current with
          | None => Raise (KeyError current)
          | Some parents =>
              let '(selected', pending') := push_parents (selected, rest) (elements parents) in
              closure_loop fuel' g selected' pending'
          end
      end
  end.

Definition closure (d : DatasetDependencyGraph) (datasets partitions : list pystr) :
    result exn (option DependencyClosureResult) :=
  let requested := list_to_set datasets : gset pystr in
  let partition_set := list_to_set partitions : gset pystr in
  if (max_partitions (limits d) <? Z.of_nat (size partition_set))%Z
  then Ok (Some (ClosureLimitExceeded "partitions" (max_partitions (limits d))))
  else if negb (bool_decide (requested ⊆ dom (dependencies d)))
  then Raise (ValueError "unknown datasets")
  else
    match closure_loop (S (size (dependencies d))) (dependencies d) requested (elements requested) with
    | Raise e => Raise e
    | Ok None => Ok None
    | Ok (Some selected) =>
        if (max_datasets (limits d) <? Z.of_nat (size selected))%Z
        then Ok (Some (ClosureLimitExceeded "datasets" (max_datasets (limits d))))
        else
          match _order (dependencies d) selected with
          | Raise e => Raise e
          | Ok None => Ok None
          | Ok (Some (DependencyOrder l)) => Ok (Some (DependencyClosure l))
          | Ok (Some (DependencyCycle l)) => Ok (Some (ClosureCycle l))
          | Ok (Some (DependencyLimitExceeded r n)) => Ok (Some (ClosureLimitExceeded r n))
          end
    end.

(** ** The ordering loop *)

(** The direct dependencies among [selected]. *)
Definition parents_in (g : graph) (selected : gset pystr) (name : pystr) : gset pystr :=
  default ∅ (g !! name) ∩ selected.

(** Every dataset comes after the ones it depends on. *)
Definition respects (g : graph) (selected : gset pystr) (l : list pystr) : Prop :=
  forall i name, l !! i = Some name ->
    forall p, p ∈ parents_in g selected name -> exists j, (j < i)%nat /\ l !! j = Some p.

Lemma sorted_names_elem (X : gset pystr) x : x ∈ sorted_names X <-> x ∈ X.
Proof. unfold sorted_names. rewrite elem_of_sorted_by. apply elem_of_elements. Qed.

Lemma sorted_names_NoDup (X : gset pystr) : NoDup (sorted_names X).
Proof. unfold sorted_names. rewrite sorted_by_perm. apply NoDup_elements. Qed.

Lemma fold_result_cons {E A B} (f : B -> A -> result E B) x l acc :
  fold_result f (x :: l) acc = match f acc x with Ok acc' => fold_result f l acc' | Raise e => Raise e end.
Proof. done. Qed.

Lemma init_pending_ok (g : graph) selected : selected ⊆ dom g ->
  exists pending, init_pending g selected = Ok pending /\ dom pending = selected /\
    forall name, name ∈ selected -> pending !! name = Some (parents_in g selected name).
Proof.
  intros Hsub. unfold init_pending.
  assert (forall l acc, (forall x, x ∈ l -> x ∈ dom g) -> exists pending,
    fold_result (fun acc name => match g !! name with
      | Some parents => Ok (<[name := parents ∩ selected]> acc) | None => Raise (KeyError name) end) l acc = Ok pending /\
    (forall name, name ∈ l -> pending !! name = Some (parents_in g selected name)) /\
    (forall name, name ∉ l -> pending !! name = (acc : graph) !! name)) as Hgen.
  { induction l as [|x l IH]; intros acc Hl; [exists acc; split_and!; [done|set_solver|done]|].
    assert (x ∈ dom g) as Hx by (apply Hl; by left). apply elem_of_dom in Hx as [ps Hps].
    rewrite fold_result_cons. cbv beta. rewrite Hps.
    destruct (IH (<[x := ps ∩ selected]> acc)) as (pending & Hr & Hin & Hout); [intros y Hy; apply Hl; by right|].
    exists pending. split; [done|]. split.
    - intros name Hname. destruct (decide (name ∈ l)) as [|Hn]; [by apply Hin|].
      apply elem_of_cons in Hname as [->|?]; [|done]. rewrite Hout by done.
      rewrite lookup_insert_eq. unfold parents_in. by rewrite Hps.
    - intros name Hname. apply not_elem_of_cons in Hname as [Hne Hn]. rewrite Hout by done.
      by rewrite lookup_insert_ne by done. }
  destruct (Hgen (elements selected) ∅) as (pending & Hr & Hin & Hout).
  { intros x Hx. apply Hsub. by apply elem_of_elements. }
  exists pending. split; [done|]. split.
  - apply set_eq. intros x. rewrite elem_of_dom. destruct (decide (x ∈ selected)) as [Hx|Hx].
    + rewrite Hin by (by apply elem_of_elements). split; [done|eauto].
    + rewrite Hout by (by rewrite elem_of_elements). rewrite lookup_empty. split; [by intros []|done].
  - intros name Hname. apply Hin. by apply elem_of_elements.
Qed.

Lemma elem_ready (P : graph) name : name ∈ ready_names P <-> P !! name = Some ∅.
Proof.
  unfold ready_names. rewrite elem_of_dom. split.
  - intros [x Hx]. apply map_lookup_filter_Some in Hx as [Hx Hp]. cbn in Hp. by subst.
  - intros Hx. exists ∅. by apply map_lookup_filter_Some.
Qed.

Lemma retire_lookup ready (P : graph) name :
  retire ready P !! name = if decide (name ∈ ready) then None else (fun ps => ps ∖ ready) <$> P !! name.
Proof.
  unfold retire. rewrite lookup_fmap. case_decide as Hn.
  - rewrite map_lookup_filter_None_2; [done|]. right. intros x _ Hx. by apply Hx.
  - destruct (P !! name) as [x|] eqn:Hx.
    + rewrite (map_lookup_filter_Some_2 _ _ _ x); done.
    + rewrite map_lookup_filter_None_2; [done|by left].
Qed.

Lemma retire_size ready (P : graph) : ready ⊆ dom P -> ready <> ∅ -> (size (retire ready P) < size P)%nat.
Proof.
  intros Hsub Hne. rewrite <- !size_dom.
  assert (dom (retire ready P) = dom P ∖ ready) as ->.
  { apply set_eq. intros x. rewrite elem_of_difference, !elem_of_dom, retire_lookup. case_decide.
    - split; [by intros []|by intros [_ ?]].
    - rewrite fmap_is_Some. tauto. }
  rewrite size_difference by done.
  assert (size ready <> 0)%nat by (intros Hz; by apply size_empty_inv, leibniz_equiv in Hz).
  pose proof (subseteq_size _ _ Hsub). lia.
Qed.

Section Order.
Variable g : graph.
Variable selected : gset pystr.

Record order_inv (P : graph) (out : list pystr) : Prop := {
  order_nodup : NoDup out;
  order_split : forall x, x ∈ selected <-> x ∈ out \/ x ∈ dom P;
  order_disjoint : forall x, x ∈ out -> x ∉ dom P;
  order_parents : forall x ps, P !! x = Some ps -> ps = parents_in g selected x ∖ list_to_set out;
  order_respects : respects g selected out
}.

Lemma order_step P out : order_inv P out ->
  order_inv (retire (ready_names P) P) (out ++ sorted_names (ready_names P)).
Proof.
  intros [H1 H2 H3 H4 H5]. set (ready := ready_names P).
  assert (forall x, x ∈ ready -> x ∈ dom P) as Hr.
  { intros x Hx. apply elem_ready in Hx. apply elem_of_dom. eauto. }
  assert (forall x, x ∈ dom (retire ready P) <-> x ∈ dom P /\ x ∉ ready) as Hdom.
  { intros x. rewrite !elem_of_dom, retire_lookup. case_decide; [split; [by intros []|by intros [_ ?]]|].
    rewrite fmap_is_Some. tauto. }
  split.
  - apply NoDup_app. split_and!; [done| |apply sorted_names_NoDup].
    intros x Hx. rewrite sorted_names_elem. intros Hx'. by apply (H3 x Hx), Hr.
  - intros x. rewrite elem_of_app, sorted_names_elem, Hdom, H2. pose proof (Hr x). destruct (decide (x ∈ ready)); tauto.
  - intros x. rewrite elem_of_app, sorted_names_elem, Hdom. pose proof (H3 x). tauto.
  - intros x ps. rewrite retire_lookup. case_decide; [done|]. intros Hps.
    apply fmap_Some in Hps as (qs & Hqs & ->). apply H4 in Hqs as ->.
    apply set_eq. intros y. rewrite list_to_set_app, !elem_of_difference, elem_of_union, !elem_of_list_to_set, sorted_names_elem.
    tauto.
  - intros i name Hi p Hp. apply lookup_app_Some in Hi as [Hi|[Hle Hi]].
    + destruct (H5 i name Hi p Hp) as (j & Hj & Hjp). exists j. split; [done|]. by apply lookup_app_l_Some.
    + apply list_elem_of_lookup_2, sorted_names_elem, elem_ready, H4 in Hi.
      assert (p ∈ out) as Hin.
      { destruct (decide (p ∈ out)); [done|]. exfalso. assert (p ∈ (∅ : gset pystr)); [|set_solver].
        rewrite Hi. apply elem_of_difference. by rewrite elem_of_list_to_set. }
      apply list_elem_of_lookup in Hin as (j & Hj). exists j.
      split; [apply lookup_lt_Some in Hj; lia|]. by apply lookup_app_l_Some.
Qed.

(** A correct order of the selection. *)
Definition good_order (l : list pystr) : Prop :=
  NoDup l /\ (forall x, x ∈ l <-> x ∈ selected) /\ respects g selected l.

(** A set of datasets each of which depends on another of the set. *)
Definition blocked (l : list pystr) : Prop :=
  l <> [] /\ (forall x, x ∈ l -> x ∈ selected) /\
  forall x, x ∈ l -> exists p, p ∈ l /\ p ∈ parents_in g selected x.

Lemma order_loop_total fuel : forall P out, (size P < fuel)%nat -> order_inv P out ->
  (exists l, order_loop fuel P out = Some (DependencyOrder l) /\ good_order l) \/
  (exists l, order_loop fuel P out = Some (DependencyCycle l) /\ blocked l).
Proof.
  induction fuel as [|fuel IH]; intros P out Hf Hinv; [lia|]. cbn [order_loop].
  destruct (decide (P = ∅)) as [->|Hne].
  - left. exists out. split; [done|]. destruct Hinv as [H1 H2 _ _ H5]. split_and!; [done| |done].
    intros x. rewrite H2, dom_empty. set_solver.
  - destruct (decide (ready_names P = ∅)) as [Hr|Hr].
    + right. eexists. split; [done|]. destruct Hinv as [H1 H2 H3 H4 H5]. split_and!.
      * intros Hnil. apply Hne. apply dom_empty_inv_L.
        apply set_eq. intros x. rewrite <- sorted_names_elem, Hnil. set_solver.
      * intros x Hx. apply sorted_names_elem in Hx. apply H2. by right.
      * intros x Hx. apply sorted_names_elem, elem_of_dom in Hx as [ps Hps].
        assert (ps <> ∅) as Hps'.
        { intros ->. assert (x ∈ ready_names P) by (by apply elem_ready). set_solver. }
        apply set_choose_L in Hps' as [p Hp]. exists p. rewrite (H4 _ _ Hps) in Hp.
        apply elem_of_difference in Hp as [Hp Hout]. rewrite elem_of_list_to_set in Hout. split; [|done].
        apply sorted_names_elem. unfold parents_in in Hp. apply elem_of_intersection in Hp as [_ Hsel].
        apply H2 in Hsel as [?|?]; done.
    + apply IH; [|by apply order_step].
      assert (size (retire (ready_names P) P) < size P)%nat; [|lia]. apply retire_size; [|done].
      intros x Hx. apply elem_ready in Hx. apply elem_of_dom. eauto.
Qed.
End Order.

(** [_order] always ends, with an order or with a blocked set. *)
Lemma _order_total (g : graph) selected : selected ⊆ dom g ->
  (exists l, _order g selected = Ok (Some (DependencyOrder l)) /\ good_order g selected l) \/
  (exists l, _order g selected = Ok (Some (DependencyCycle l)) /\ blocked g selected l).
Proof.
  intros Hsub. destruct (init_pending_ok g selected Hsub) as (P & HP & Hdom & Hps). unfold _order. rewrite HP.
  assert (order_inv g selected P []) as Hinv.
  { split; [constructor| | | |done].
    - intros x. rewrite Hdom. set_solver.
    - intros x Hx. by apply not_elem_of_nil in Hx.
    - intros x ps Hx. rewrite Hps in Hx by (rewrite <- Hdom; apply elem_of_dom; eauto). injection Hx as <-.
      cbn. by rewrite difference_empty_L. }
  destruct (order_loop_total g selected (S (size P)) P []) as [(l & -> & ?)|(l & -> & ?)]; [lia|done|..]; eauto.
Qed.

(** A blocked set excludes every ranking of the datasets below their dependents. *)
Lemma blocked_no_rank g selected l (rank : pystr -> nat) : blocked g selected l ->
  ~ (forall x p, x ∈ selected -> p ∈ parents_in g selected x -> (rank p < rank x)%nat).
Proof.
  intros (Hne & Hsel & Hb) Hrank.
  assert (forall n x, x ∈ l -> (rank x <= n)%nat -> False) as Hno.
  { induction n as [|n IH]; intros x Hx Hn; destruct (Hb x Hx) as (p & Hp & Hpx);
      specialize (Hrank x p (Hsel x Hx) Hpx); [lia|]. apply (IH p Hp). lia. }
  destruct l as [|x l]; [done|]. apply (Hno (rank x) x); [left|lia].
Qed.

(** The order itself is such a ranking. *)
Lemma order_rank g selected l : good_order g selected l ->
  exists rank : pystr -> nat, forall x p, x ∈ selected -> p ∈ parents_in g selected x -> (rank p < rank x)%nat.
Proof.
  intros (Hnd & Hel & Hres).
  exists (fun x => default 0%nat (fst <$> list_find (eq x) l)). intros x p Hx Hp.
  apply Hel, list_elem_of_lookup in Hx as (i & Hi). destruct (Hres i x Hi p Hp) as (j & Hj & Hjp).
  assert (forall i x, l !! i = Some x -> list_find (eq x) l = Some (i, x)) as Hfind.
  { intros i0 x0 Hi0. apply list_find_Some. split_and!; [done|done|]. intros j0 y Hy Hlt <-.
    pose proof (NoDup_lookup l _ _ _ Hnd Hy Hi0). lia. }
  rewrite (Hfind _ _ Hi), (Hfind _ _ Hjp). done.
Qed.

(** ** The closure loop *)

Definition parent_of (g : graph) (x p : pystr) : Prop := p ∈ default ∅ (g !! x).
Definition reaches (g : graph) (requested : gset pystr) (x : pystr) : Prop :=
  exists r, r ∈ requested /\ rtc (parent_of g) r x.

(** Every parent is a dataset of the graph. *)
Definition closed (g : graph) : Prop := forall x p, parent_of g x p -> p ∈ dom g.

Lemma push_parents_runs ps : forall sel rest sel' pend',
  push_parents (sel, rest) ps = (sel', pend') ->
  (forall x, x ∈ sel' <-> x ∈ sel \/ x ∈ ps) /\
  (forall x, x ∈ pend' <-> x ∈ rest \/ (x ∈ ps /\ x ∉ sel)) /\
  (length pend' + size sel = length rest + size sel')%nat.
Proof.
  induction ps as [|p ps IH]; intros sel rest sel' pend' Hrun.
  { inversion Hrun; subst. split_and!; [set_solver|set_solver|lia]. }
  unfold push_parents in Hrun. cbn [fold_left fst snd] in Hrun. case_decide as Hp.
  - apply IH in Hrun as (H1 & H2 & H3). split_and!; [| |done].
    + intros x. rewrite H1. set_solver.
    + intros x. rewrite H2. set_solver.
  - apply IH in Hrun as (H1 & H2 & H3). split_and!.
    + intros x. rewrite H1. set_solver.
    + intros x. rewrite H2. destruct (decide (x = p)) as [->|]; set_solver.
    + cbn [length] in H3. rewrite size_union in H3 by set_solver. rewrite size_singleton in H3. lia.
Qed.

Section Closure.
Variable g : graph.
Variable requested : gset pystr.
Hypothesis Hclosed : closed g.

Record closure_inv (sel : gset pystr) (pending : list pystr) : Prop := {
  closure_dom : sel ⊆ dom g;
  closure_requested : requested ⊆ sel;
  closure_reached : forall x, x ∈ sel -> reaches g requested x;
  closure_pending : forall x, x ∈ pending -> x ∈ sel;
  closure_parents : forall x p, x ∈ sel -> x ∉ pending -> parent_of g x p -> p ∈ sel
}.

Lemma closure_loop_total fuel : forall sel pending,
  (size (dom g) + length pending < fuel + size sel)%nat -> closure_inv sel pending ->
  exists out, closure_loop fuel g sel pending = Ok (Some out) /\ out ⊆ dom g /\
    forall x, x ∈ out <-> reaches g requested x.
Proof.
  induction fuel as [|fuel IH]; intros sel pending Hf [H1 H2 H3 H4 H5].
  { pose proof (subseteq_size _ _ H1). lia. }
  cbn [closure_loop]. destruct pending as [|cur rest].
  - exists sel. split_and!; [done|done|]. intros x. split; [by apply H3|]. intros (r & Hr & Hx).
    assert (r ∈ sel) as Hrs by set_solver. clear Hr. induction Hx as [|x y z Hxy _ IHx]; [done|].
    apply IHx. eapply H5; [done|apply not_elem_of_nil|done].
  - assert (cur ∈ sel) as Hcur by (apply H4; left).
    assert (is_Some (g !! cur)) as [ps Hps] by (apply elem_of_dom; by apply H1). rewrite Hps.
    destruct (push_parents (sel, rest) (elements ps)) as [sel' pend'] eqn:Hpush.
    apply push_parents_runs in Hpush as (P1 & P2 & P3). apply IH; [cbn in Hf; lia|].
    assert (forall p, p ∈ elements ps <-> parent_of g cur p) as Hpar.
    { intros p. unfold parent_of. rewrite Hps. apply elem_of_elements. }
    split.
    + intros x Hx. apply P1 in Hx as [Hx|Hx]; [by apply H1|]. apply Hpar in Hx. by eapply Hclosed.
    + intros x Hx. apply P1. left. by apply H2.
    + intros x Hx. apply P1 in Hx as [Hx|Hx]; [by apply H3|]. destruct (H3 cur Hcur) as (r & Hr & Hrc).
      exists r. split; [done|]. eapply rtc_r; [done|]. by apply Hpar.
    + intros x Hx. apply P1. apply P2 in Hx as [Hx|[Hx _]]; [left; apply H4; by right|by right].
    + intros x p Hx Hnp Hxp. apply P1. rewrite P2 in Hnp. destruct (decide (x = cur)) as [->|Hne].
      * right. by apply Hpar.
      * left. apply (H5 x p); [|intros [?|?]%elem_of_cons; tauto|done]. apply P1 in Hx as [Hx|Hx]; [done|].
        destruct (decide (x ∈ sel)); tauto.
Qed.

Lemma closure_loop_ok : requested ⊆ dom g ->
  exists out, closure_loop (S (size g)) g requested (elements requested) = Ok (Some out) /\ out ⊆ dom g /\
    forall x, x ∈ out <-> reaches g requested x.
Proof.
  intros Hsub. apply closure_loop_total.
  - rewrite size_dom. unfold size, set_size. cbn. lia.
  - split; [done|done| | |].
    + intros x Hx. exists x. split; [done|apply rtc_refl].
    + intros x. apply elem_of_elements.
    + intros x p Hx Hn. by rewrite elem_of_elements in Hn.
Qed.
End Closure.

(** ** The constructor *)

Lemma add_parents_closed (copied : graph) : closed (add_parents copied).
Proof.
  unfold add_parents, closed, parent_of.
  set (step := fun p (g : graph) => match g !! p with Some _ => g | None => <[p := ∅]> g end).
  assert (forall l, (forall x, (copied !! x) <> None -> foldr step copied l !! x = copied !! x) /\
    (forall x, copied !! x = None -> foldr step copied l !! x = if decide (x ∈ l) then Some ∅ else None)) as Hfold.
  { induction l as [|p l [IH1 IH2]]; [split; [done|]; intros x Hx; rewrite decide_False by apply not_elem_of_nil; exact Hx|].
    cbn [foldr]. unfold step at 1 3. split.
    - intros x Hx. destruct (foldr step copied l !! p) eqn:Hp; [by apply IH1|].
      destruct (decide (p = x)) as [->|Hne]; [rewrite IH1 in Hp; done|]. rewrite lookup_insert_ne by done. by apply IH1.
    - intros x Hx. destruct (foldr step copied l !! p) eqn:Hp.
      + rewrite IH2 by done. destruct (decide (x ∈ l)) as [Hl|Hl].
        * by rewrite decide_True by (by right).
        * rewrite decide_False; [done|]. intros [->|?]%elem_of_cons; [|done]. rewrite IH2, decide_False in Hp by done. done.
      + destruct (decide (p = x)) as [->|Hne].
        * by rewrite lookup_insert_eq, decide_True by left.
        * rewrite lookup_insert_ne, IH2 by done. destruct (decide (x ∈ l)) as [Hl|Hl].
          -- by rewrite decide_True by (by right).
          -- rewrite decide_False; [done|]. intros [->|?]%elem_of_cons; done. }
  intros x p Hp. destruct (Hfold (elements (⋃ (map_to_list copied).*2))) as [F1 F2].
  destruct (copied !! x) as [ps|] eqn:Hx.
  - rewrite F1, Hx in Hp by (by rewrite Hx). cbn in Hp. apply elem_of_dom.
    destruct (copied !! p) as [qs|] eqn:Hq; [rewrite F1 by (by rewrite Hq); eauto|].
    rewrite F2, decide_True; [eauto| |done]. apply elem_of_elements, elem_of_union_list. exists ps. split; [|done].
    apply list_elem_of_fmap. exists (x, ps). split; [done|]. by apply elem_of_map_to_list.
  - rewrite F2 in Hp by done. case_decide; cbn in Hp; set_solver.
Qed.

Lemma DatasetDependencyGraph_new_closed deps lim d : DatasetDependencyGraph_new deps lim = Ok d ->
  closed (dependencies d).
Proof.
  unfold DatasetDependencyGraph_new. destruct (fold_result copy_entry deps ∅); [|done].
  intros [= <-]. apply add_parents_closed.
Qed.

(** ** Properties *)

(** The selected part of the graph has no cycle: datasets can be ranked above their parents. *)
Definition acyclic (g : graph) (selected : gset pystr) : Prop :=
  exists rank : pystr -> nat, forall x p, x ∈ selected -> p ∈ parents_in g selected x -> (rank p < rank x)%nat.

Lemma order_or_cycle g selected : selected ⊆ dom g ->
  (exists l, _order g selected = Ok (Some (DependencyOrder l)) /\ good_order g selected l /\ acyclic g selected) \/
  (exists l, _order g selected = Ok (Some (DependencyCycle l)) /\ blocked g selected l /\ ~ acyclic g selected).
Proof.
  intros Hsub. destruct (_order_total g selected Hsub) as [(l & Hl & Hg)|(l & Hl & Hb)]; [left|right]; exists l.
  - split_and!; [done|apply Hg..|by eapply order_rank].
  - split_and!; [done|apply Hb..|]. intros [rank Hr]. by eapply blocked_no_rank.
Qed.

(** C36. [topological_order] decides acyclicity and orders: for a selection of known datasets
    within the limit it always returns; if the selected part of the graph is acyclic, the
    answer lists every selected dataset exactly once, each after all the selected datasets
    it depends on; otherwise the answer is a non-empty set of selected datasets each of which
    depends on another member of the set. *)
Theorem topological_order_correct d ds :
  let selected := list_to_set ds : gset pystr in
  let g := dependencies d in
  selected ⊆ dom g -> Z.of_nat (size selected) <= max_datasets (limits d) ->
  (acyclic g selected /\ exists l, topological_order d (Some ds) = Ok (Some (DependencyOrder l)) /\
    NoDup l /\ (forall x, x ∈ l <-> x ∈ ds) /\ respects g selected l) \/
  (~ acyclic g selected /\ exists l, topological_order d (Some ds) = Ok (Some (DependencyCycle l)) /\
    l <> [] /\ (forall x, x ∈ l -> x ∈ ds /\ exists p, p ∈ l /\ p ∈ parents_in g selected x)).
Proof.
  intros selected g Hsub Hsize. unfold topological_order. fold selected g.
  rewrite (proj2 (Z.ltb_ge _ _)) by done. rewrite bool_decide_true by done. cbn [negb].
  destruct (order_or_cycle g selected Hsub) as [(l & -> & (H1 & H2 & H3) & Ha)|(l & -> & (H1 & H2 & H3) & Ha)];
    [left|right]; (split; [done|]); exists l; (split; [done|]).
  - split_and!; [done| |done]. intros x. rewrite H2. apply elem_of_list_to_set.
  - split; [done|]. intros x Hx. split; [|by apply H3]. apply H2, elem_of_list_to_set in Hx. done.
Qed.

(** [closure] computes the least set of datasets that contains the requested ones and
    every dataset they transitively depend on: on a constructed graph, for known datasets and
    within the limits, it always returns; the answer lists exactly the datasets reachable
    from the request, once each and parents first, or reports that they contain a cycle. *)
Theorem closure_least deps lim d ds parts : DatasetDependencyGraph_new deps lim = Ok d ->
  let requested := list_to_set ds : gset pystr in
  let g := dependencies d in
  requested ⊆ dom g ->
  Z.of_nat (size (list_to_set parts : gset pystr)) <= max_partitions (limits d) ->
  Z.of_nat (size g) <= max_datasets (limits d) ->
  exists reached : gset pystr, (forall x, x ∈ reached <-> reaches g requested x) /\
    ((acyclic g reached /\ exists l, closure d ds parts = Ok (Some (DependencyClosure l)) /\
       NoDup l /\ (forall x, x ∈ l <-> reaches g requested x) /\ respects g reached l) \/
     (~ acyclic g reached /\ exists l, closure d ds parts = Ok (Some (ClosureCycle l)) /\ l <> [])).
Proof.
  intros Hnew requested g Hsub Hparts Hsize. apply DatasetDependencyGraph_new_closed in Hnew.
  destruct (closure_loop_ok g requested Hnew Hsub) as (out & Hrun & Hdom & Hout). exists out. split; [done|].
  unfold closure. fold requested g. rewrite (proj2 (Z.ltb_ge _ _)) by done.
  rewrite bool_decide_true by done. cbn [negb]. rewrite Hrun.
  assert (Z.of_nat (size out) <= max_datasets (limits d)) as Hle.
  { apply subseteq_size in Hdom. rewrite size_dom in Hdom. lia. }
  rewrite (proj2 (Z.ltb_ge _ _)) by done.
  destruct (order_or_cycle g out Hdom) as [(l & -> & (H1 & H2 & H3) & Ha)|(l & -> & (H1 & H2 & H3) & Ha)];
    [left|right]; (split; [done|]); exists l; (split; [done|]); [|done].
  split_and!; [done| |done]. intros x. by rewrite H2.
Qed.

(** ** Witnesses *)

Definition sample_deps : list (pystr * list pystr) :=
  [("c"%py, ["b"%py; "a"%py]); ("b"%py, ["a"%py]); ("d"%py, ["d"%py])].
Definition sample_graph : DatasetDependencyGraph :=
  match DatasetDependencyGraph_new sample_deps DependencyGraphLimits_default with
  | Ok d => d
  | Raise _ => mkGraph DependencyGraphLimits_default ∅
  end.

(** The hypotheses hold of a graph with a chain and a self-cycle, and both answers occur. *)
Lemma topological_order_correct_witness :
  let ds := ["a"%py; "b"%py; "c"%py] in
  (acyclic (dependencies sample_graph) (list_to_set ds) /\
   exists l, topological_order sample_graph (Some ds) = Ok (Some (DependencyOrder l)) /\
    NoDup l /\ (forall x, x ∈ l <-> x ∈ ds) /\ respects (dependencies sample_graph) (list_to_set ds) l) \/
  (~ acyclic (dependencies sample_graph) (list_to_set ds) /\
   exists l, topological_order sample_graph (Some ds) = Ok (Some (DependencyCycle l)) /\
    l <> [] /\ (forall x, x ∈ l -> x ∈ ds /\ exists p, p ∈ l /\ p ∈ parents_in (dependencies sample_graph) (list_to_set ds) x)).
Proof.
  intros ds. apply (topological_order_correct sample_graph ds).
  - refine (bool_decide_eq_true_1 _ _). vm_compute. reflexivity.
  - vm_compute. discriminate.
Defined.

Example topological_order_sample :
  topological_order sample_graph (Some ["c"%py; "b"%py; "a"%py])
    = Ok (Some (DependencyOrder ["a"%py; "b"%py; "c"%py])) /\
  validate sample_graph = Ok (Some (DependencyCycle ["d"%py])).
Proof. split; vm_compute; reflexivity. Qed.

Lemma closure_least_witness :
  DatasetDependencyGraph_new sample_deps DependencyGraphLimits_default = Ok sample_graph /\
  let requested := list_to_set ["b"%py] : gset pystr in
  let g := dependencies sample_graph in
  exists reached : gset pystr, (forall x, x ∈ reached <-> reaches g requested x) /\
    ((acyclic g reached /\ exists l, closure sample_graph ["b"%py] [] = Ok (Some (DependencyClosure l)) /\
       NoDup l /\ (forall x, x ∈ l <-> reaches g requested x) /\ respects g reached l) \/
     (~ acyclic g reached /\ exists l, closure sample_graph ["b"%py] [] = Ok (Some (ClosureCycle l)) /\ l <> [])).
Proof.
  assert (DatasetDependencyGraph_new sample_deps DependencyGraphLimits_default = Ok sample_graph) as Hnew
    by (vm_compute; reflexivity).
  split; [exact Hnew|]. apply (closure_least _ _ _ ["b"%py] [] Hnew).
  - refine (bool_decide_eq_true_1 _ _). vm_compute. reflexivity.
  - vm_compute. discriminate.
  - vm_compute. discriminate.
Defined.
