(* ===== verification/Generations.v ===== *)
(** * Generation guards ([src/pytitect/sync/generations.py])

    The generation store with its compare-and-set, the guard that compares a generation and
    runs a mutation inside one transaction, and the conformance harness. *)
From Stdlib Require Import ZArith Lia.
From stdpp Require Import base list gmap.
From S2P Require Import Prelude.

(** ** The store *)

Definition _validate {S} (dataset partition : pystr) : M exn S unit :=
  raise_if (str_empty dataset || str_empty partition)
    (ValueError "dataset and partition must not be empty").

Class GenerationStore (W : Type) := {
  port_load_for_update : pystr -> pystr -> M exn W (option Z);
  port_compare_and_set : pystr -> pystr -> option Z -> Z -> M exn W bool
}.

Record store := mkStore {
  capacity : Z;
  generations : dict (pystr * pystr) Z
}.

Definition InMemoryGenerationStore_new {S} (cap : Z) : M exn S store :=
  raise_if (cap <=? 0) (ValueError "capacity must be a positive integer") ;;;
  ret (mkStore cap []).

Definition load_for_update (dataset partition : pystr) : M exn store (option Z) :=
  _validate dataset partition ;;;
  gets (fun st => d_get (dataset, partition) (generations st)).

Definition compare_and_set (dataset partition : pystr) (expected : option Z) (generation : Z) :
    M exn store bool :=
  _validate dataset partition ;;;
  raise_if (generation <? 0)%Z (ValueError "generation must be a non-negative integer") ;;;
  raise_if (match expected with Some e => (e <? 0)%Z | None => false end)
    (ValueError "expected generation must be a non-negative integer or None") ;;;
  let identity := (dataset, partition) in
  let! st := get in
  if negb (bool_decide (d_get identity (generations st) = expected)) then ret false
  else
    raise_if (negb (d_mem identity (generations st)) && (capacity st <=? d_len (generations st))%Z)
      (OverflowError "generation capacity exceeded") ;;;
    modify (fun st => mkStore (capacity st) (d_set identity generation (generations st))) ;;;
    ret true.

#[export] Instance InMemory_GenerationStore : GenerationStore store := {
  port_load_for_update := load_for_update;
  port_compare_and_set := compare_and_set
}.

Definition zoomed_GenerationStore {W S} (l : lens W S) `{!GenerationStore S} : GenerationStore W := {|
  port_load_for_update := fun ds p => zoom l (port_load_for_update ds p);
  port_compare_and_set := fun ds p expected g => zoom l (port_compare_and_set ds p expected g)
|}.

(** ** The guard *)

Inductive GenerationResult (A : Type) :=
  | GenerationCommitted (value : A) (generation : Z)
  | StaleGeneration (expected : Z) (actual : option Z).
Arguments GenerationCommitted {A}.
Arguments StaleGeneration {A}.

(** [GenerationGuard.__init__]: the [using] attributes, when both sides have one, agree. *)
Definition GenerationGuard_new {S} (store_alias transaction_alias : option pystr) : M exn S unit :=
  raise_if
    (match store_alias, transaction_alias with
     | Some a, Some b => negb (bool_decide (a = b))
     | _, _ => false
     end)
    (ValueError "generation store and transaction must use exactly one alias").

Definition commit {W A} `{!GenerationStore W, !Atomic W} (dataset partition : pystr) (expected : Z)
    (mutation : M exn W A) : M exn W (GenerationResult A) :=
  raise_if (str_empty dataset || str_empty partition || (expected <? 0)%Z)
    (ValueError "dataset, partition, and a non-negative generation are required") ;;;
  atomic
    (let! actual := port_load_for_update dataset partition in
     match actual with
     | Some g =>
         if bool_decide (g = expected)
         then let! value := mutation in ret (GenerationCommitted value g)
         else ret (StaleGeneration expected actual)
     | None => ret (StaleGeneration expected actual)
     end).

(** ** The conformance harness *)

Section Harness.
Context {W : Type} `{!GenerationStore W}.

Definition expect (condition : bool) (message : pystr) : M exn W unit :=
  raise_if (negb condition) (AssertionError message).

Definition exercise : M exn W unit :=
  let! l1 := port_load_for_update "dataset" "partition" in
  expect (bool_decide (l1 = None)) "a new generation identity must be absent" ;;;
  let! c1 := port_compare_and_set "dataset" "partition" None 1 in
  expect c1 "an absent generation must accept a None CAS" ;;;
  let! c2 := port_compare_and_set "dataset" "partition" None 2 in
  expect (negb c2) "a stale generation CAS must fail" ;;;
  let! l2 := port_load_for_update "dataset" "partition" in
  expect (bool_decide (l2 = Some 1)) "a committed generation must be loadable" ;;;
  let! c3 := port_compare_and_set "dataset" "partition" (Some 1) 2 in
  expect c3 "the current generation CAS must succeed" ;;;
  let! l3 := port_load_for_update "dataset" "partition" in
  expect (bool_decide (l3 = Some 2)) "generation advancement must be durable".
End Harness.

Example harness_runs : fst (exercise (mkStore 10 [])) = Ok tt.
Proof. vm_compute. reflexivity. Qed.

(** ** What the guard promises *)

Lemma compare_and_set_runs ds p expected g st r st' :
  compare_and_set ds p expected g st = (Ok r, st') ->
  (r = true /\ d_get (ds, p) (generations st) = expected /\
     st' = mkStore (capacity st) (d_set (ds, p) g (generations st))) \/
  (r = false /\ d_get (ds, p) (generations st) <> expected /\ st' = st).
Proof.
  unfold compare_and_set, _validate. intros H. run H; time_facts; subst; first [by right|by left].
Qed.

Lemma compare_and_set_raises ds p expected g st e st' :
  compare_and_set ds p expected g st = (Raise e, st') -> st' = st.
Proof. unfold compare_and_set, _validate. intros H. by run H. Qed.

Section Guard.
Context {A : Type} `{!Atomic (store * A)} `{!AtomicLaws (store * A)}.
#[local] Instance guarded_store : GenerationStore (store * A) := zoomed_GenerationStore fst_lens.

(** The outcome of a guarded commit on every branch. *)
Lemma commit_runs {V} ds p expected (mutation : M exn (store * A) V) w :
  str_empty ds = false -> str_empty p = false -> 0 <= expected ->
  commit ds p expected mutation w =
    let actual := d_get (ds, p) (generations (fst w)) in
    if decide (actual = Some expected) then
      match mutation w with
      | (Ok v, w') => (Ok (GenerationCommitted v expected), w')
      | (Raise e, _) => (Raise e, w)
      end
    else (Ok (StaleGeneration expected actual), w).
Proof.
  intros Hd Hp He. destruct w as [st a]. unfold commit, bind at 1, raise_if. rewrite Hd, Hp.
  rewrite (proj2 (Z.ltb_ge _ _)) by done. cbn [orb]. rewrite atomic_runs.
  unfold bind at 1, port_load_for_update, guarded_store, zoomed_GenerationStore, zoom. cbn.
  unfold load_for_update, _validate. monad_unfold. rewrite Hd, Hp. cbn.
  destruct (d_get (ds, p) (generations st)) as [g|]; cbn; [|by rewrite decide_False].
  destruct (decide (g = expected)) as [->|Hne].
  - rewrite bool_decide_true, decide_True by done. cbn. by destruct (mutation (st, a)) as [[v|e] w'].
  - rewrite bool_decide_false by done. rewrite decide_False by congruence. done.
Qed.

(** One client: a guarded mutation of the data, or a move of the generation of a partition. *)
Inductive step :=
  | Guarded (dataset partition : pystr) (expected : Z) (mutation : M exn A unit)
  | Advance (dataset partition : pystr) (expected : option Z) (generation : Z).

Definition run_step (w : store * A) (s : step) : store * A :=
  match s with
  | Guarded ds p e m => snd (commit ds p e (zoom snd_lens m) w)
  | Advance ds p e g => snd (zoom fst_lens (compare_and_set ds p e g) w)
  end.

(** Generations are only ever raised. *)
Definition raises (s : step) : Prop :=
  match s with
  | Advance _ _ (Some e) g => e < g
  | _ => True
  end.

Lemma commit_keeps_store {V} ds p expected (m : M exn A V) w :
  fst (snd (commit ds p expected (zoom snd_lens m) w)) = fst w.
Proof.
  destruct (str_empty ds || str_empty p || (expected <? 0)%Z) eqn:Hg.
  { unfold commit, bind at 1, raise_if. by rewrite Hg. }
  time_facts. rewrite commit_runs by done. cbn [fst]. case_decide; [|done].
  unfold zoom. destruct w as [st a]. cbn. by destruct (m a) as [[v|e] a'].
Qed.

(** The generation of a partition never falls below one it reached. *)
Lemma generation_monotone ds p g s w : raises s ->
  (exists g', d_get (ds, p) (generations (fst w)) = Some g' /\ g <= g') ->
  exists g', d_get (ds, p) (generations (fst (run_step w s))) = Some g' /\ g <= g'.
Proof.
  intros Hr (g' & Hg & Hle). destruct s as [ds' p' e m|ds' p' e n].
  - exists g'. cbn. by rewrite commit_keeps_store.
  - destruct w as [st a]. cbn in *. unfold zoom. cbn.
    destruct (compare_and_set ds' p' e n st) as [[r|x] st'] eqn:Hc; cbn.
    + apply compare_and_set_runs in Hc as [(-> & Hcur & ->)|(-> & _ & ->)]; [|by exists g'].
      cbn. destruct (decide ((ds', p') = (ds, p))) as [[= -> ->]|Hne].
      * rewrite d_get_set_eq. exists n. split; [done|]. rewrite Hg in Hcur. subst e. cbn in Hr. lia.
      * rewrite d_get_set_ne by done. by exists g'.
    + apply compare_and_set_raises in Hc as ->. by exists g'.
Qed.

(** Generation guards exclude late writers: in any history of guarded mutations and
    generation moves that only raise generations, the generation of a partition never falls
    below a value [g] it reached, and a guarded commit runs its mutation exactly when the
    stored generation is the expected one, in a transaction that a raising mutation leaves
    without effect. A writer that expects less than [g] is reported [StaleGeneration] with
    the current generation for ever and changes nothing. *)
Theorem generation_guard ds p expected (m : M exn A unit) steps w g :
  str_empty ds = false -> str_empty p = false -> 0 <= expected ->
  d_get (ds, p) (generations (fst w)) = Some g -> Forall raises steps ->
  let w' := fold_left run_step steps w in
  exists g', d_get (ds, p) (generations (fst w')) = Some g' /\ g <= g' /\
    commit ds p expected (zoom snd_lens m) w' =
      if decide (g' = expected) then
        match m (snd w') with
        | (Ok v, a) => (Ok (GenerationCommitted v expected), (fst w', a))
        | (Raise e, _) => (Raise e, w')
        end
      else (Ok (StaleGeneration expected (Some g')), w').
Proof.
  intros Hd Hp He Hg Hsteps w'.
  assert (exists g', d_get (ds, p) (generations (fst w')) = Some g' /\ g <= g') as (g' & Hg' & Hle').
  { assert (exists g', d_get (ds, p) (generations (fst w)) = Some g' /\ g <= g') as Hw by (exists g; split; [done|lia]).
    unfold w'. clear Hg w'. revert w Hw.
    induction Hsteps as [|s l Hs _ IH]; intros w Hw; [done|]. cbn [fold_left]. apply IH.
    by apply generation_monotone. }
  exists g'. split_and!; [done|done|]. rewrite commit_runs by done. cbn zeta. rewrite Hg'.
  destruct (decide (g' = expected)) as [->|Hne].
  - rewrite decide_True by done. unfold zoom. destruct w' as [st a]. cbn. by destruct (m a) as [[v|e] a'].
  - rewrite decide_False by congruence. done.
Qed.
End Guard.

(** A writer of generation 1 after the partition moved to 2. *)
Lemma generation_guard_witness :
  let w0 : store * Z := (mkStore 10 [(("d", "p")%py, 1)], 7) in
  let steps := [Guarded "d" "p" 1 (modify (fun z => z + 1)); Advance "d" "p" (Some 1) 2] in
  let w' := fold_left (@run_step Z snapshot_atomic) steps w0 in
  exists g', d_get ("d", "p")%py (generations (fst w')) = Some g' /\ 1 <= g' /\
    @commit _ _ (zoomed_GenerationStore fst_lens) snapshot_atomic "d" "p" 1
        (zoom snd_lens (modify (fun z => z * 2))) w' =
      if decide (g' = 1) then
        (Ok (GenerationCommitted tt 1), (fst w', snd w' * 2))
      else (Ok (StaleGeneration 1 (Some g')), w').
Proof.
  intros w0 steps w'.
  apply (@generation_guard Z snapshot_atomic snapshot_atomic_laws "d" "p" 1 (modify (fun z => z * 2)) steps w0 1);
    [reflexivity|reflexivity|lia|reflexivity|].
  repeat constructor.
Defined.
