(* ===== verification/Batches.v ===== *)
(** * Resumable mutation batches ([src/pytitect/sync/batches.py])

    The batch values, the store port with its lease and progress, the reference store
    [InMemoryMutationBatchStore], its conformance harness and [MutationBatchCoordinator],
    which drives a batch store, an idempotency store for the items and the consumer's
    mutation inside one transaction boundary. A payload is the JSON value the code casts it
    to. The SHA-256 digest, the float rendering and the package [rfc8785] are parameters. *)
From Stdlib Require Import ZArith Lia SpecFloat.
From stdpp Require Import base list gmap.
From S2P Require Import Prelude Core Canonical Maintenance Idempotency.

(** ** Data *)

Inductive BatchPolicy := ALL_OR_NOTHING | PER_ITEM.
Definition policy_value (p : BatchPolicy) : pystr :=
  match p with ALL_OR_NOTHING => "all_or_nothing" | PER_ITEM => "per_item" end.

Inductive MutationBatchState := PROCESSING | PARTIALLY_COMMITTED | COMPLETED | UNCERTAIN.
#[export] Instance MutationBatchState_eq_dec : EqDecision MutationBatchState.
Proof. solve_decision. Defined.

Record BatchLimits := mkBatchLimits { max_items : Z; max_bytes : Z }.
Definition BatchLimits_default : BatchLimits := mkBatchLimits 1000 1048576.
Definition BatchLimits_new {S} (i b : Z) : M exn S BatchLimits :=
  raise_if ((i <=? 0)%Z || (b <=? 0)%Z) (ValueError "batch limits must be positive") ;;;
  ret (mkBatchLimits i b).

Record BatchItem := mkItem { item_id : pystr; payload : json }.
Definition BatchItem_new {S} (id : pystr) (p : json) : M exn S BatchItem :=
  raise_if (str_empty id || negb (bool_decide (id = str_strip id)))
    (ValueError "batch item IDs must be non-empty and trimmed") ;;;
  ret (mkItem id p).

Record BatchItemReceipt (T : Type) := mkItemReceipt {
  receipt_item : pystr;
  receipt_result : T;
  replayed : bool
}.
Arguments mkItemReceipt {T}.
Arguments receipt_item {T}.
Arguments receipt_result {T}.
Arguments replayed {T}.

#[export] Instance BatchItemReceipt_eq_dec {T} `{!EqDecision T} : EqDecision (BatchItemReceipt T).
Proof. solve_decision. Defined.

(** [replace(receipt, replayed=b)]. *)
Definition set_replayed {T} (b : bool) (r : BatchItemReceipt T) : BatchItemReceipt T :=
  mkItemReceipt (receipt_item r) (receipt_result r) b.

Inductive BatchResult (T : Type) :=
  | BatchCommitted (receipts : list (BatchItemReceipt T))
  | BatchReplay (receipts : list (BatchItemReceipt T))
  | BatchConflict (item : option pystr) (reason : pystr)
  | BatchInProgress (item : option pystr) (retry_after : datetime)
  | BatchUncertain (item : option pystr) (reason : pystr)
  | BatchItemsCommittedEnvelopeUnconfirmed (receipts : list (BatchItemReceipt T)).
Arguments BatchCommitted {T}.
Arguments BatchReplay {T}.
Arguments BatchConflict {T}.
Arguments BatchInProgress {T}.
Arguments BatchUncertain {T}.
Arguments BatchItemsCommittedEnvelopeUnconfirmed {T}.

(** The results [_RollbackBatch] carries. *)
Inductive BatchFailure :=
  | FailedConflict (item : option pystr) (reason : pystr)
  | FailedInProgress (item : option pystr) (retry_after : datetime)
  | FailedUncertain (item : option pystr) (reason : pystr).
Definition failure_result {T} (f : BatchFailure) : BatchResult T :=
  match f with
  | FailedConflict i r => BatchConflict i r
  | FailedInProgress i t => BatchInProgress i t
  | FailedUncertain i r => BatchUncertain i r
  end.

Record MutationBatchLease (T : Type) := mkBatchLease {
  lease_namespace : pystr;
  lease_batch_id : pystr;
  lease_token : pystr;
  lease_state : MutationBatchState;
  next_index : Z;
  total_items : Z;
  receipts : list (BatchItemReceipt T);
  lease_expires_at : datetime;
  resumed : bool
}.
Arguments mkBatchLease {T}.
Arguments lease_namespace {T}.
Arguments lease_batch_id {T}.
Arguments lease_token {T}.
Arguments lease_state {T}.
Arguments next_index {T}.
Arguments total_items {T}.
Arguments receipts {T}.
Arguments lease_expires_at {T}.
Arguments resumed {T}.

Definition _utc {S} (value : datetime) : M exn S unit :=
  check_utc value "mutation batch timestamps must be timezone-aware UTC".
Definition _positive {S} (value : timedelta) (name : pystr) : M exn S unit :=
  check_positive value (str_app name " must be positive").

Definition executing_state (s : MutationBatchState) : bool :=
  match s with PROCESSING | PARTIALLY_COMMITTED => true | _ => false end.

Definition MutationBatchLease_new {T S} (l : MutationBatchLease T) : M exn S (MutationBatchLease T) :=
  _utc (lease_expires_at l) ;;;
  raise_if (str_empty (lease_namespace l) || str_empty (lease_batch_id l) || str_empty (lease_token l))
    (ValueError "batch lease identity must not be empty") ;;;
  raise_if (negb (executing_state (lease_state l)))
    (ValueError "a batch lease must be in an executing state") ;;;
  raise_if (negb ((0 <=? next_index l)%Z && (next_index l <=? total_items l)%Z))
    (ValueError "batch lease progress is invalid") ;;;
  raise_if (negb (next_index l =? Z.of_nat (length (receipts l)))%Z)
    (ValueError "batch progress and receipts must agree") ;;;
  ret l.

(** [MutationBatchBeginResult]: a lease, or one of the early answers. *)
Inductive MutationBatchBeginResult (T : Type) :=
  | BeginLease (lease : MutationBatchLease T)
  | BeginReplay (receipts : list (BatchItemReceipt T))
  | BeginConflict (item : option pystr) (reason : pystr)
  | BeginInProgress (item : option pystr) (retry_after : datetime)
  | BeginUncertain (item : option pystr) (reason : pystr).
Arguments BeginLease {T}.
Arguments BeginReplay {T}.
Arguments BeginConflict {T}.
Arguments BeginInProgress {T}.
Arguments BeginUncertain {T}.

Inductive MutationBatchRenewResult (T : Type) :=
  | MutationBatchLeaseRenewed (lease : MutationBatchLease T)
  | RenewStaleBatch (reason : pystr).
Arguments MutationBatchLeaseRenewed {T}.
Arguments RenewStaleBatch {T}.
Inductive MutationBatchAdvanceResult (T : Type) :=
  | MutationBatchProgressed (lease : MutationBatchLease T)
  | AdvanceStaleBatch (reason : pystr).
Arguments MutationBatchProgressed {T}.
Arguments AdvanceStaleBatch {T}.
Inductive MutationBatchCompleteResult :=
  | MutationBatchCompleted (retained_until : datetime)
  | CompleteStaleBatch (reason : pystr).
Inductive MutationBatchUncertainResult :=
  | MutationBatchMarkedUncertain (retained_until : datetime)
  | UncertainStaleBatch (reason : pystr).

Definition stale_batch : pystr := "batch lease is absent, expired, or no longer authoritative".

(** ** The store port *)

Class MutationBatchStore (W T : Type) := {
  port_begin : pystr -> pystr -> RequestFingerprint -> Z -> datetime -> timedelta ->
    M exn W (MutationBatchBeginResult T);
  port_renew_batch : MutationBatchLease T -> datetime -> timedelta -> M exn W (MutationBatchRenewResult T);
  port_advance : MutationBatchLease T -> BatchItemReceipt T -> datetime -> timedelta ->
    M exn W (MutationBatchAdvanceResult T);
  port_complete_batch : MutationBatchLease T -> datetime -> timedelta -> M exn W MutationBatchCompleteResult;
  port_batch_uncertain : MutationBatchLease T -> pystr -> datetime -> timedelta ->
    M exn W MutationBatchUncertainResult
}.

(** ** The in-memory store *)

(** [_StoredBatch]. *)
Record StoredBatch (T : Type) := mkStored {
  stored_fingerprint : RequestFingerprint;
  stored_total : Z;
  stored_token : pystr;
  stored_state : MutationBatchState;
  stored_next : Z;
  stored_receipts : list (BatchItemReceipt T);
  stored_expires_at : datetime;
  retention_expires_at : option datetime;
  uncertainty_reason : option pystr
}.
Arguments mkStored {T}.
Arguments stored_fingerprint {T}.
Arguments stored_total {T}.
Arguments stored_token {T}.
Arguments stored_state {T}.
Arguments stored_next {T}.
Arguments stored_receipts {T}.
Arguments stored_expires_at {T}.
Arguments retention_expires_at {T}.
Arguments uncertainty_reason {T}.

(** [InMemoryMutationBatchStore]; [draws] counts its calls of [uuid.uuid4]. *)
Record store (T : Type) := mkStore {
  capacity : Z;
  entries : dict (pystr * pystr) (StoredBatch T);
  tokens : dict pystr (pystr * pystr);
  draws : nat
}.
Arguments mkStore {T}.
Arguments capacity {T}.
Arguments entries {T}.
Arguments tokens {T}.
Arguments draws {T}.

Section InMemory.
Context {T : Type} `{!EqDecision T} `{Uuid4}.
Implicit Types (st : store T) (e : StoredBatch T) (id : pystr * pystr) (lease : MutationBatchLease T).

Definition InMemoryMutationBatchStore_new {S} (cap : Z) : M exn S (store T) :=
  raise_if (cap <=? 0) (ValueError "capacity must be a positive integer") ;;;
  ret (mkStore cap [] [] 0).

Definition set_entries (d : dict (pystr * pystr) (StoredBatch T)) st : store T :=
  mkStore (capacity st) d (tokens st) (draws st).
Definition set_tokens (d : dict pystr (pystr * pystr)) st : store T :=
  mkStore (capacity st) (entries st) d (draws st).

(** Assignments to the fields of the stored object. *)
Definition with_token (t : pystr) e : StoredBatch T :=
  mkStored (stored_fingerprint e) (stored_total e) t (stored_state e) (stored_next e)
    (stored_receipts e) (stored_expires_at e) (retention_expires_at e) (uncertainty_reason e).
Definition with_expiry (at_ : datetime) e : StoredBatch T :=
  mkStored (stored_fingerprint e) (stored_total e) (stored_token e) (stored_state e) (stored_next e)
    (stored_receipts e) at_ (retention_expires_at e) (uncertainty_reason e).
Definition with_progress (r : BatchItemReceipt T) e : StoredBatch T :=
  mkStored (stored_fingerprint e) (stored_total e) (stored_token e) PARTIALLY_COMMITTED
    (stored_next e + 1) (stored_receipts e ++ [r]) (stored_expires_at e) (retention_expires_at e)
    (uncertainty_reason e).
Definition with_state (s : MutationBatchState) (reason : option pystr) e : StoredBatch T :=
  mkStored (stored_fingerprint e) (stored_total e) (stored_token e) s (stored_next e)
    (stored_receipts e) (stored_expires_at e) (retention_expires_at e) reason.
Definition with_retention (at_ : datetime) e : StoredBatch T :=
  mkStored (stored_fingerprint e) (stored_total e) (stored_token e) (stored_state e) (stored_next e)
    (stored_receipts e) (stored_expires_at e) (Some at_) (uncertainty_reason e).

Definition store_entry id e : M exn (store T) unit :=
  modify (fun st => set_entries (d_set id e (entries st)) st).

(** [uuid.uuid4().hex]. *)
Definition fresh : M exn (store T) pystr :=
  let! n := gets draws in
  modify (fun st => mkStore (capacity st) (entries st) (tokens st) (S n)) ;;;
  ret (uuid4_hex n).

Definition _lease id e (is_resumed : bool) : M exn (store T) (MutationBatchLease T) :=
  MutationBatchLease_new (mkBatchLease id.1 id.2 (stored_token e) (stored_state e) (stored_next e)
    (stored_total e) (stored_receipts e) (stored_expires_at e) is_resumed).

(** The identities [_purge_terminal] drops. *)
Definition terminal_expired (now : datetime) (p : (pystr * pystr) * StoredBatch T) : bool :=
  bool_decide (stored_state p.2 = COMPLETED) &&
  match retention_expires_at p.2 with Some at_ => dt_leb at_ now | None => false end.

Definition _purge_terminal (now : datetime) : M exn (store T) unit :=
  modify (fun st => set_entries
    (d_pop_all (filter (fun p => terminal_expired now p = true) (entries st)).*1 (entries st)) st).

Definition _active lease (now : datetime) st : option (StoredBatch T) :=
  let identity := (lease_namespace lease, lease_batch_id lease) in
  if negb (bool_decide (d_get (lease_token lease) (tokens st) = Some identity)) then None
  else match d_get identity (entries st) with
       | None => None
       | Some current =>
           if negb (bool_decide (stored_token current = lease_token lease))
              || negb (executing_state (stored_state current))
              || dt_leb (stored_expires_at current) now
              || negb (bool_decide (stored_expires_at current = lease_expires_at lease))
              || negb (stored_next current =? next_index lease)%Z
              || negb (bool_decide (stored_receipts current = receipts lease))
           then None else Some current
       end.

Definition _validate_begin (ns batch_id : pystr) (total : Z) (now : datetime) (lease_ttl : timedelta) :
    M exn (store T) unit :=
  _utc now ;;;
  _positive lease_ttl "lease_ttl" ;;;
  raise_if (str_empty ns || str_empty batch_id)
    (ValueError "batch namespace and ID must not be empty") ;;;
  raise_if (total <? 0)%Z (ValueError "total_items must be a non-negative integer").

(** [begin] of a known identity. *)
Definition begin_known id e (fp : RequestFingerprint) (total : Z) (now : datetime) (lease_ttl : timedelta) :
    M exn (store T) (MutationBatchBeginResult T) :=
  modify (fun st => set_entries (d_move_to_end id (entries st)) st) ;;;
  if negb (bool_decide (stored_fingerprint e = fp)) || negb (stored_total e =? total)%Z
  then ret (BeginConflict None "the batch ID was used with different items")
  else match stored_state e with
  | COMPLETED => ret (BeginReplay (stored_receipts e))
  | UNCERTAIN =>
      ret (BeginUncertain None
        (match uncertainty_reason e with
         | Some r => if str_empty r then "the prior batch outcome is unknown" else r
         | None => "the prior batch outcome is unknown"
         end))
  | _ =>
      if dt_ltb now (stored_expires_at e) then ret (BeginInProgress None (stored_expires_at e))
      else
        modify (fun st => set_tokens (d_pop (stored_token e) (tokens st)) st) ;;;
        let! token := fresh in
        store_entry id (with_token token e) ;;;
        let! until := lift (dt_add now lease_ttl) in
        store_entry id (with_expiry until (with_token token e)) ;;;
        modify (fun st => set_tokens (d_set token id (tokens st)) st) ;;;
        let! lease := _lease id (with_expiry until (with_token token e)) true in
        ret (BeginLease lease)
  end.

Definition begin (ns batch_id : pystr) (fp : RequestFingerprint) (total : Z) (now : datetime)
    (lease_ttl : timedelta) : M exn (store T) (MutationBatchBeginResult T) :=
  _validate_begin ns batch_id total now lease_ttl ;;;
  let id := (ns, batch_id) in
  _purge_terminal now ;;;
  let! current := gets (fun st => d_get id (entries st)) in
  match current with
  | Some e => begin_known id e fp total now lease_ttl
  | None =>
      let! full := gets (fun st => capacity st <=? d_len (entries st))%Z in
      if full : bool
      then ret (BeginUncertain None "mutation batch capacity exceeded; no lease was issued")
      else
        let! token := fresh in
        let! until := lift (dt_add now lease_ttl) in
        let e := mkStored fp total token PROCESSING 0 [] until None None in
        store_entry id e ;;;
        modify (fun st => set_tokens (d_set token id (tokens st)) st) ;;;
        let! lease := _lease id e false in
        ret (BeginLease lease)
  end.

Definition renew lease (now : datetime) (lease_ttl : timedelta) :
    M exn (store T) (MutationBatchRenewResult T) :=
  _utc now ;;;
  _positive lease_ttl "lease_ttl" ;;;
  let id := (lease_namespace lease, lease_batch_id lease) in
  let! current := gets (_active lease now) in
  match current with
  | None => ret (RenewStaleBatch stale_batch)
  | Some e =>
      let! until := lift (dt_add now lease_ttl) in
      store_entry id (with_expiry until e) ;;;
      let! l := _lease id (with_expiry until e) (resumed lease) in
      ret (MutationBatchLeaseRenewed l)
  end.

Definition advance lease (receipt : BatchItemReceipt T) (now : datetime) (lease_ttl : timedelta) :
    M exn (store T) (MutationBatchAdvanceResult T) :=
  _utc now ;;;
  _positive lease_ttl "lease_ttl" ;;;
  let id := (lease_namespace lease, lease_batch_id lease) in
  let! current := gets (_active lease now) in
  match current with
  | None => ret (AdvanceStaleBatch "batch progress is stale or already complete")
  | Some e =>
      if (stored_total e <=? stored_next e)%Z
      then ret (AdvanceStaleBatch "batch progress is stale or already complete")
      else
        let e' := with_progress receipt e in
        store_entry id e' ;;;
        let! until := lift (dt_add now lease_ttl) in
        store_entry id (with_expiry until e') ;;;
        let! l := _lease id (with_expiry until e') (resumed lease) in
        ret (MutationBatchProgressed l)
  end.

Definition complete lease (now : datetime) (retention_ttl : timedelta) :
    M exn (store T) MutationBatchCompleteResult :=
  _utc now ;;;
  _positive retention_ttl "retention_ttl" ;;;
  let id := (lease_namespace lease, lease_batch_id lease) in
  let! current := gets (_active lease now) in
  match current with
  | None => ret (CompleteStaleBatch "batch is stale or has uncommitted items")
  | Some e =>
      if negb (stored_next e =? stored_total e)%Z
      then ret (CompleteStaleBatch "batch is stale or has uncommitted items")
      else
        let e' := with_state COMPLETED (uncertainty_reason e) e in
        store_entry id e' ;;;
        let! until := lift (dt_add now retention_ttl) in
        store_entry id (with_retention until e') ;;;
        modify (fun st => set_tokens (d_pop (stored_token e) (tokens st)) st) ;;;
        ret (MutationBatchCompleted until)
  end.

Definition mark_uncertain lease (reason : pystr) (now : datetime) (retention_ttl : timedelta) :
    M exn (store T) MutationBatchUncertainResult :=
  _utc now ;;;
  _positive retention_ttl "retention_ttl" ;;;
  raise_if (str_empty reason) (ValueError "an uncertainty reason is required") ;;;
  let id := (lease_namespace lease, lease_batch_id lease) in
  let! current := gets (_active lease now) in
  match current with
  | None => ret (UncertainStaleBatch stale_batch)
  | Some e =>
      let e' := with_state UNCERTAIN (Some reason) e in
      store_entry id e' ;;;
      let! until := lift (dt_add now retention_ttl) in
      store_entry id (with_retention until e') ;;;
      modify (fun st => set_tokens (d_pop (stored_token e) (tokens st)) st) ;;;
      ret (MutationBatchMarkedUncertain until)
  end.

(** The selection of [purge]. *)
Definition purge_candidate (plan : MaintenancePlan) (p : (pystr * pystr) * StoredBatch T) : bool :=
  match retention_expires_at p.2 with
  | Some at_ =>
      (bool_decide (stored_state p.2 = COMPLETED)
       || (bool_decide (stored_state p.2 = UNCERTAIN) && include_uncertain plan))
      && dt_leb at_ (cutoff plan)
  | None => false
  end.
Definition purge_key (p : (pystr * pystr) * StoredBatch T) : Z * (pystr * pystr) :=
  (match retention_expires_at p.2 with Some at_ => dt_instant at_ | None => 0 end, p.1).
Definition purge_selection (plan : MaintenancePlan) st : list ((pystr * pystr) * StoredBatch T) :=
  plan_selection (pair_compare Z.compare (pair_compare str_compare str_compare)) purge_key plan
    (filter (fun p => purge_candidate plan p = true) (entries st)).

Definition purge (plan : MaintenancePlan) : M exn (store T) MaintenanceSummary :=
  let! chosen := gets (purge_selection plan) in
  (if dry_run plan then ret tt
   else modify (fun st => set_entries (d_pop_all chosen.*1 (entries st)) st)) ;;;
  plan_summary plan chosen.

#[export] Instance InMemory_MutationBatchStore : MutationBatchStore (store T) T := {
  port_begin := begin;
  port_renew_batch := renew;
  port_advance := advance;
  port_complete_batch := complete;
  port_batch_uncertain := mark_uncertain
}.
End InMemory.

(** ** The conformance harness *)

Section Harness.
Context {W T : Type} `{!MutationBatchStore W T, !EqDecision T}.
Variable float_repr : spec_float -> pystr.
Variable sha256_hexdigest : list N -> pystr.

Definition batch_expect (condition : bool) (message : pystr) : M exn W unit :=
  raise_if (negb condition) (AssertionError message).

Definition expect_lease (d : MutationBatchBeginResult T) (message : pystr) : M exn W (MutationBatchLease T) :=
  match d with BeginLease l => ret l | _ => raise (AssertionError message) end.

(** [RequestFingerprint.from_json({"items": [n]})]. *)
Definition batch_fingerprint (n : Z) : result exn RequestFingerprint :=
  from_json sha256_hexdigest (canonical_json_bytes float_repr)
    (JDict [(KeyStr "items", JList [JInt n])]).

Definition exercise (value : T) (now : datetime) : M exn W unit :=
  let lease_ttl := minutes 1 in
  let retention_ttl := hours 1 in
  let! fingerprint := lift (batch_fingerprint 1) in
  let! d1 := port_begin "test" "batch" fingerprint 1 now lease_ttl in
  let! lease := expect_lease d1 "a new mutation batch must issue a lease" in
  let! d2 := port_begin "test" "batch" fingerprint 1 now lease_ttl in
  batch_expect (match d2 with BeginInProgress _ _ => true | _ => false end)
    "an active mutation batch must be in progress" ;;;
  let! changed := lift (batch_fingerprint 2) in
  let! d3 := port_begin "test" "batch" changed 1 now lease_ttl in
  batch_expect (match d3 with BeginConflict _ _ => true | _ => false end)
    "a changed mutation batch fingerprint must conflict" ;;;
  let! renewed_at := lift (dt_add now (seconds 1)) in
  let! r1 := port_renew_batch lease renewed_at lease_ttl in
  let! renewed := (match r1 with
    | MutationBatchLeaseRenewed l => ret l
    | RenewStaleBatch _ => raise (AssertionError "the authoritative mutation batch lease must renew")
    end) in
  let! r2 := port_renew_batch lease renewed_at lease_ttl in
  batch_expect (match r2 with RenewStaleBatch _ => true | _ => false end)
    "the pre-renewal batch lease snapshot must be stale" ;;;
  let! a := port_advance renewed (mkItemReceipt "item" value false) renewed_at lease_ttl in
  let! progressed := (match a with
    | MutationBatchProgressed l => ret l
    | AdvanceStaleBatch _ => raise (AssertionError "the authoritative batch lease must advance")
    end) in
  let! c := port_complete_batch progressed renewed_at retention_ttl in
  batch_expect (match c with MutationBatchCompleted _ => true | _ => false end)
    "a fully advanced batch must complete" ;;;
  let! later := lift (dt_add now lease_ttl) in
  let! replay := port_begin "test" "batch" fingerprint 1 later lease_ttl in
  batch_expect (match replay with
      | BeginReplay rs => bool_decide (rs = [mkItemReceipt "item" value false])
      | _ => false end)
    "a retained completed batch must replay" ;;;
  let! expired := lift (dt_add renewed_at retention_ttl) in
  let! d4 := port_begin "test" "batch" fingerprint 1 expired lease_ttl in
  let! replacement := expect_lease d4 "a batch identity must be reusable after terminal retention" in
  let! u := port_batch_uncertain replacement "outcome unknown" expired retention_ttl in
  batch_expect (match u with MutationBatchMarkedUncertain _ => true | _ => false end)
    "the authoritative batch lease must become uncertain" ;;;
  let! last := lift (dt_add expired lease_ttl) in
  let! d5 := port_begin "test" "batch" fingerprint 1 last lease_ttl in
  batch_expect (match d5 with BeginUncertain _ _ => true | _ => false end)
    "an uncertain batch must remain retained".
End Harness.

(** ** The coordinator *)

(** [MutationBatchCoordinator.__init__]: the [using] attributes, where present, are the alias. *)
Definition MutationBatchCoordinator_new {S} (alias : pystr)
    (batch_alias item_alias transaction_alias : option pystr) : M exn S unit :=
  raise_if (str_empty alias) (ValueError "a database alias is required") ;;;
  raise_if (negb (bool_decide (default alias batch_alias = alias))
            || negb (bool_decide (default alias item_alias = alias)))
    (ValueError "batch stores and mutations must use exactly one database alias") ;;;
  raise_if (negb (bool_decide (default alias transaction_alias = alias)))
    (ValueError "batch transaction and mutations must use exactly one database alias").

Section Coordinator.
Context {W T : Type} `{!EqDecision T} `{!MutationBatchStore W T, !IdempotencyStore W (BatchItemReceipt T)}.
Context `{!Atomic W, !Clock W} `{Hlimits : Recursion}.
Variable rfc8785 : option (json -> result exn (list N)).
Variable sha256_hexdigest : list N -> pystr.
Variable limits : BatchLimits.
Variable alias : pystr.
Implicit Types (lease : MutationBatchLease T) (items : list BatchItem) (item : BatchItem).

(** Code that may raise [_RollbackBatch(result)] beside the other exceptions. *)
Abbreviation MR := (M (exn + BatchFailure) W).
Definition rollback_batch {A} (r : BatchFailure) : MR A := raise (inr r).

Definition _fingerprint (value : json) : result exn RequestFingerprint :=
  from_json sha256_hexdigest (canonical_json rfc8785) value.

Definition items_json items : json :=
  JList (map (fun i => JDict [(KeyStr "id", JStr (item_id i)); (KeyStr "payload", payload i)]) items).

Definition _validate_items items : M exn W unit :=
  raise_if (max_items limits <? Z.of_nat (length items))%Z (ValueError "batch exceeds max_items") ;;;
  let identifiers := item_id <$> items in
  raise_if (negb (bool_decide (NoDup identifiers))) (ValueError "batch item IDs must be unique") ;;;
  let! encoded := lift (canonical_json rfc8785 (JDict [(KeyStr "items", items_json items)])) in
  raise_if (max_bytes limits <? Z.of_nat (length encoded))%Z (ValueError "batch exceeds max_bytes").

(** [_batch_decision]: an early answer (a replay, or a failure), or the lease. *)
Definition _batch_decision (d : MutationBatchBeginResult T) :
    list (BatchItemReceipt T) + BatchFailure + MutationBatchLease T :=
  match d with
  | BeginLease l => inr l
  | BeginReplay rs => inl (inl rs)
  | BeginConflict i r => inl (inr (FailedConflict i r))
  | BeginInProgress i t => inl (inr (FailedInProgress i t))
  | BeginUncertain i r => inl (inr (FailedUncertain i r))
  end.

Definition _item_decision (d : IdempotencyDecision (BatchItemReceipt T)) (id : pystr) : option BatchFailure :=
  match d with
  | Conflict => Some (FailedConflict (Some id) conflict_reason)
  | InProgress t => Some (FailedInProgress (Some id) t)
  | Uncertain r => Some (FailedUncertain (Some id) r)
  | Execute _ | Replay _ => None
  end.

Section Policy.
Variable policy : IdempotencyPolicy.
Variable mutate : BatchItem -> pystr -> M exn W T.

Definition _begin (ns batch_id : pystr) (fp : RequestFingerprint) (total : Z) :
    M exn W (MutationBatchBeginResult T) :=
  let! now := clock_now in
  port_begin ns batch_id fp total now (execution_lease_ttl policy).

Definition _renew_batch lease (id : option pystr) : MR (MutationBatchLease T) :=
  let! now := embed clock_now in
  let! renewal := embed (port_renew_batch lease now (execution_lease_ttl policy)) in
  match renewal with
  | MutationBatchLeaseRenewed l => ret l
  | RenewStaleBatch reason => rollback_batch (FailedUncertain id reason)
  end.

Definition _finish lease : M exn W bool :=
  let! now := clock_now in
  let! renewal := port_renew_batch lease now (execution_lease_ttl policy) in
  match renewal with
  | RenewStaleBatch _ => ret false
  | MutationBatchLeaseRenewed l =>
      let! now := clock_now in
      let! completed := port_complete_batch l now (result_retention_ttl policy) in
      ret (match completed with MutationBatchCompleted _ => true | _ => false end)
  end.

Definition _reserve_item (batch_id : pystr) item (ns : pystr) :
    M exn W (IdempotencyDecision (BatchItemReceipt T)) :=
  let! scope := IdempotencyScope_new ns batch_id (str_app "mutation-item:" (item_id item)) in
  let! fp := lift (_fingerprint (payload item)) in
  let! now := clock_now in
  port_reserve scope (item_id item) fp now (execution_lease_ttl policy).

Definition prefix_reason : pystr := "a committed item receipt is no longer provable within retention".

(** One item of the committed prefix. *)
Definition prove_one (acc : MutationBatchLease T * list (BatchItemReceipt T))
    (entry : BatchItem * BatchItemReceipt T) : MR (MutationBatchLease T * list (BatchItemReceipt T)) :=
  let '(item, stored) := entry in
  let! lease := _renew_batch acc.1 (Some (item_id item)) in
  let! decision := embed (_reserve_item (lease_batch_id lease) item (lease_namespace lease)) in
  if match decision with Replay (Some v) => bool_decide (v = stored) | _ => false end
  then ret (lease, acc.2 ++ [set_replayed true stored])
  else
    (match decision with
     | Execute token =>
         let! now := embed clock_now in
         let! _ := embed (port_abandon token now) in ret tt
     | _ => ret tt
     end) ;;;
    let! now := embed clock_now in
    let! _ := embed (port_batch_uncertain lease prefix_reason now (uncertainty_retention_ttl policy)) in
    rollback_batch (FailedUncertain (Some (item_id item)) prefix_reason).

(** [zip(..., strict=True)] raises when one side ends before the other. *)
Definition _prove_prefix lease items : MR (MutationBatchLease T * list (BatchItemReceipt T)) :=
  if negb (resumed lease) then ret (lease, receipts lease)
  else
    let committed := take (Z.to_nat (next_index lease)) items in
    let! out := for_each (zip committed (receipts lease)) (lease, []) prove_one in
    raise_if (negb (length committed =? length (receipts lease))%nat)
      (inl (ValueError "zip() arguments have different lengths")) ;;;
    ret out.

Definition _apply_reserved_item lease item (decision : IdempotencyDecision (BatchItemReceipt T)) :
    MR (MutationBatchLease T * BatchItemReceipt T) :=
  let! lease := _renew_batch lease (Some (item_id item)) in
  let! receipt := (match decision with
    | Replay (Some v) =>
        if negb (bool_decide (receipt_item v = item_id item))
        then rollback_batch (FailedUncertain (Some (item_id item)) "stored item receipt identity does not match")
        else ret (set_replayed true v)
    | Execute token =>
        let! now := embed clock_now in
        let! renewal := embed (port_renew token now (execution_lease_ttl policy)) in
        match renewal with
        | RenewStale =>
            rollback_batch (FailedUncertain (Some (item_id item)) "item lease renewal failed before mutation")
        | ReservationRenewed _ =>
            let! value := embed (mutate item alias) in
            let receipt := mkItemReceipt (item_id item) value false in
            let! now := embed clock_now in
            let! completed := embed (port_complete token receipt now (result_retention_ttl policy)) in
            match completed with
            | CompleteStale =>
                rollback_batch (FailedUncertain (Some (item_id item)) "item receipt CAS failed; mutation rolled back")
            | ReservationCompleted _ => ret receipt
            end
        end
    | _ => raise (inl (OtherError "AttributeError" "the decision carries no receipt"))
    end) in
  let! now := embed clock_now in
  let! progressed :=
    embed (port_advance lease (set_replayed false receipt) now (execution_lease_ttl policy)) in
  match progressed with
  | MutationBatchProgressed l => ret (l, receipt)
  | AdvanceStaleBatch _ =>
      rollback_batch (FailedUncertain (Some (item_id item)) "batch progress CAS failed; item rolled back")
  end.

Definition _apply_item lease (batch_id : pystr) item (ns : pystr) :
    MR (MutationBatchLease T * BatchItemReceipt T) :=
  let! lease := _renew_batch lease (Some (item_id item)) in
  let! decision := embed (_reserve_item batch_id item ns) in
  match _item_decision decision (item_id item) with
  | Some early => rollback_batch early
  | None => _apply_reserved_item lease item decision
  end.

(** The reservation loop of [_all_or_nothing]. *)
Definition reserve_step (ns batch_id : pystr)
    (acc : MutationBatchLease T * list (BatchItem * IdempotencyDecision (BatchItemReceipt T))) item :
    MR (MutationBatchLease T * list (BatchItem * IdempotencyDecision (BatchItemReceipt T))) :=
  let! lease := _renew_batch acc.1 (Some (item_id item)) in
  let! decision := embed (_reserve_item batch_id item ns) in
  match _item_decision decision (item_id item) with
  | Some early => rollback_batch early
  | None => ret (lease, acc.2 ++ [(item, decision)])
  end.

Definition apply_step (acc : MutationBatchLease T * list (BatchItemReceipt T))
    (entry : BatchItem * IdempotencyDecision (BatchItemReceipt T)) :
    MR (MutationBatchLease T * list (BatchItemReceipt T)) :=
  let! '(l, receipt) := _apply_reserved_item acc.1 entry.1 entry.2 in
  ret (l, acc.2 ++ [receipt]).

Definition all_or_nothing_body (ns batch_id : pystr) (fp : RequestFingerprint) items : MR (BatchResult T) :=
  let! decision := embed (_begin ns batch_id fp (Z.of_nat (length items))) in
  match _batch_decision decision with
  | inl (inl rs) => ret (BatchReplay rs)
  | inl (inr early) => rollback_batch early
  | inr lease =>
      let! '(lease, proven) := _prove_prefix lease items in
      let! '(lease, reservations) :=
        for_each (drop (Z.to_nat (next_index lease)) items) (lease, []) (reserve_step ns batch_id) in
      let! '(lease, done) := for_each reservations (lease, proven) apply_step in
      let! finished := embed (_finish lease) in
      if finished : bool then ret (BatchCommitted done)
      else rollback_batch (FailedUncertain None "final batch CAS failed")
  end.

Definition _all_or_nothing (ns batch_id : pystr) (fp : RequestFingerprint) items : M exn W (BatchResult T) :=
  catch (atomic (all_or_nothing_body ns batch_id fp items)) (fun failure => ret (failure_result failure)).

(** The loop of [_per_item]: one transaction per item; [inl] is an early return. *)
Fixpoint per_item_loop (ns batch_id : pystr) (rest : list BatchItem) lease (done : list (BatchItemReceipt T)) :
    M exn W (BatchFailure + MutationBatchLease T * list (BatchItemReceipt T)) :=
  match rest with
  | [] => ret (inr (lease, done))
  | item :: rest' =>
      let! step := catch (let! x := atomic (_apply_item lease batch_id item ns) in ret (inr x))
                         (fun failure => ret (inl failure)) in
      match step with
      | inl failure => ret (inl failure)
      | inr (l, receipt) => per_item_loop ns batch_id rest' l (done ++ [receipt])
      end
  end.

Definition _per_item (ns batch_id : pystr) (fp : RequestFingerprint) items : M exn W (BatchResult T) :=
  let! decision := _begin ns batch_id fp (Z.of_nat (length items)) in
  match _batch_decision decision with
  | inl (inl rs) => ret (BatchReplay rs)
  | inl (inr early) => ret (failure_result early)
  | inr lease =>
      let! proof := catch (let! x := atomic (_prove_prefix lease items) in ret (inr x))
                          (fun failure => ret (inl failure)) in
      match proof with
      | inl failure => ret (failure_result failure)
      | inr (lease, proven) =>
          let! out := per_item_loop ns batch_id (drop (Z.to_nat (next_index lease)) items) lease proven in
          match out with
          | inl failure => ret (failure_result failure)
          | inr (lease, done) =>
              let! finished := atomic (_finish lease) in
              ret (if finished : bool then BatchCommitted done
                   else BatchItemsCommittedEnvelopeUnconfirmed done)
          end
      end
  end.

Definition execute (ns batch_id : pystr) items (p : BatchPolicy) : M exn W (BatchResult T) :=
  raise_if (str_empty batch_id || str_empty ns) (ValueError "batch_id and namespace are required") ;;;
  _validate_items items ;;;
  let! fp := lift (_fingerprint
    (JDict [(KeyStr "policy", JStr (policy_value p)); (KeyStr "items", items_json items)])) in
  match p with
  | ALL_OR_NOTHING => _all_or_nothing ns batch_id fp items
  | PER_ITEM => _per_item ns batch_id fp items
  end.
End Policy.
End Coordinator.
