(* ===== verification/BatchHistories.v ===== *)
(** * Batches commit every item exactly once

    Histories of [MutationBatchCoordinator.execute] ([src/pytitect/sync/batches.py]) over the
    in-memory batch and idempotency stores, a consumer's state and a database transaction:
    attempts may fail in the mutation, in the clock or between transactions, and are
    repeated. *)
From Stdlib Require Import ZArith Lia.
From stdpp Require Import base list gmap.
From S2P Require Import Prelude Core Canonical Maintenance Idempotency Batches.

(** ** The item store *)

Section Items.
Context {V : Type} `{Uuid4Laws}.
Implicit Types (st : Idempotency.store V) (id : identity).

(** The store retains a completed result of the identity. *)
Definition item_done st id : Prop :=
  exists e, d_get id (Idempotency.entries st) = Some e /\ entry_state e = Completed.

(** A token drawn earlier that can only authorise [id]. *)
Definition assigned st (t : ReservationToken) id : Prop :=
  (exists n, (n < uuid_draws st)%nat /\ t = mkToken (uuid4_hex n)) /\
  forall id' e, d_get id' (Idempotency.entries st) = Some e -> entry_token e = t -> id' = id.

(** A step that completes nothing and keeps the assignment of tokens. *)
Record item_step st st' : Prop := {
  step_inv : store_inv st';
  step_done : forall id, item_done st' id -> item_done st id;
  step_assigned : forall t id, assigned st t id -> assigned st' t id
}.

Lemma live_get st now id e : live st now id = Some e -> d_get id (Idempotency.entries st) = Some e.
Proof. unfold live. destruct (d_get id (Idempotency.entries st)); [|done]. by case_match. Qed.

Lemma item_step_sub st st' : store_inv st' ->
  (forall id e, d_get id (Idempotency.entries st') = Some e ->
    d_get id (Idempotency.entries st) = Some e) ->
  (uuid_draws st <= uuid_draws st')%nat -> item_step st st'.
Proof.
  intros Hinv Hsub Hd. split; [done|..].
  - intros id (e & He & Hs). exists e. split; [by apply Hsub|done].
  - intros t id [(n & Hn & ->) Hid]. split; [exists n; split; [lia|done]|]. intros id' e He. by apply Hid, Hsub.
Qed.

Lemma reserve_step_items st scope key fp now ttl r st' : store_inv st ->
  reserve scope key fp now ttl st = (r, st') ->
  item_step st st' /\
  (forall v, r = Ok (Replay v) -> item_done st (scope, key)) /\
  (forall t, r = Ok (Execute t) -> assigned st' t (scope, key)).
Proof.
  intros Hst Hrun. pose proof (reserve_runs st scope key fp now ttl Hst) as Hspec. rewrite Hrun in Hspec. cbn in Hspec.
  pose proof (reserve_spec_inv _ _ _ _ _ _ _ Hst Hspec) as Hst'.
  destruct (purged_config now st) as [Hcap Hdraws].
  assert (forall id e, d_get id (Idempotency.entries (purged now st)) = Some e ->
    d_get id (Idempotency.entries st) = Some e) as Hsub.
  { intros id e. rewrite purged_get by done. apply live_get. }
  inversion Hspec; subst.
  - split; [by apply item_step_sub|]. by split.
  - split; [|split].
    + apply item_step_sub; [done| |cbn; lia]. intros id e0. cbn.
      rewrite d_move_to_end_get by apply purged_inv, Hst. apply Hsub.
    + intros v Hv. exists e. split; [by eapply live_get|]. unfold held_decision in Hv. injection Hv as Hv.
      repeat (case_match; try done).
    + intros t Ht. unfold held_decision in Ht. injection Ht as Ht. by repeat (case_match; try done).
  - split; [apply item_step_sub; [done|done|lia]|]. by split.
  - split; [apply item_step_sub; [done|done|cbn; lia]|]. by split.
  - assert (forall id e, d_get id (Idempotency.entries (add_entry (scope, key)
        (new_entry (uuid_draws st) fp expires_at) (purged now st))) = Some e ->
      (id = (scope, key) /\ e = new_entry (uuid_draws st) fp expires_at) \/
      d_get id (Idempotency.entries st) = Some e) as Hnew.
    { intros id e. cbn. rewrite d_get_set. case_decide; subst; [intros [= <-]; by left|]. right. by apply Hsub. }
    split; [|split; [done|]].
    + split; [done|..].
      * intros id (e & [[-> ->]|He]%Hnew & Hs); [done|]. by exists e.
      * intros t id [(n & Hn & ->) Hid]. split; [exists n; cbn; split; [lia|done]|].
        intros id' e [[-> ->]|He]%Hnew Ht; [|by eapply Hid]. cbn in Ht. injection Ht as Ht.
        apply uuid4_inj in Ht. lia.
    + intros t [= <-]. split; [exists (uuid_draws st); cbn; split; [lia|done]|].
      intros id' e [[-> ->]|He]%Hnew Ht; [done|]. apply (inv_drawn _ Hst) in He as (m & Hm & He).
      rewrite He in Ht. injection Ht as Ht. apply uuid4_inj in Ht. lia.
Qed.

Lemma token_spec_step st t now change removes st' :
  store_inv st -> token_spec st t now change removes st' ->
  store_inv st' /\
  (forall id, item_done st' id -> item_done st id \/
     exists e, _executing t now st = Some (id, e) /\ entry_state (change e) = Completed) /\
  (forall t' id, assigned st t' id -> assigned st' t' id).
Proof.
  intros Hst Hspec. split; [by eapply token_spec_inv|].
  destruct Hspec as [|id e e' Hx _ Htok _ Hch|id e Hx _].
  - split; [by left|done].
  - pose proof Hx as (He & Het & _)%executing_some; [|done]. split.
    + intros id' (e1 & He1 & Hs). cbn in He1. rewrite d_get_set in He1. case_decide; subst.
      * injection He1 as <-. right. exists e. split; [done|]. destruct Hch as [->|(x & ->)]; done.
      * left. by exists e1.
    + intros t' id' [Hn Hid]. split; [done|]. intros id1 e1. cbn. rewrite d_get_set. case_decide; subst.
      * intros [= <-] <-. by eapply Hid.
      * apply Hid.
  - split.
    + intros id' (e1 & He1 & Hs). left. exists e1. cbn in He1. rewrite d_get_pop in He1 by apply Hst.
      by case_decide.
    + intros t' id' [Hn Hid]. split; [done|]. intros id1 e1. cbn. rewrite d_get_pop by apply Hst.
      case_decide; [done|]. apply Hid.
Qed.

Lemma renew_step_items st t now ttl r st' : store_inv st ->
  Idempotency.renew t now ttl st = (r, st') -> item_step st st'.
Proof.
  intros Hst Hrun. pose proof (renew_runs st t now ttl) as Hspec. rewrite Hrun in Hspec. cbn in Hspec.
  apply token_spec_step in Hspec as (H1 & H2 & H3); [|done]. split; [done| |done].
  intros id [?|(e & Hx & Hs)]%H2; [done|]. cbn in Hs. exists e.
  apply executing_some in Hx; [|done]. split; [apply Hx|done].
Qed.

Lemma abandon_step_items st t now r st' : store_inv st ->
  Idempotency.abandon t now st = (r, st') -> item_step st st'.
Proof.
  intros Hst Hrun. pose proof (abandon_runs st t now) as Hspec. rewrite Hrun in Hspec. cbn in Hspec.
  apply token_spec_step in Hspec as (H1 & H2 & H3); [|done]. split; [done| |done].
  intros id [?|(e & Hx & Hs)]%H2; [done|]. cbn in Hs. exists e.
  apply executing_some in Hx; [|done]. split; [apply Hx|done].
Qed.

(** Completion completes the identity the token was drawn for and no other. *)
Lemma complete_step_items st t v now ttl r st' id : store_inv st -> assigned st t id ->
  Idempotency.complete t v now ttl st = (r, st') ->
  store_inv st' /\ (forall id', item_done st' id' -> item_done st id' \/ id' = id) /\
  (forall t' id', assigned st t' id' -> assigned st' t' id').
Proof.
  intros Hst [_ Hid] Hrun. pose proof (complete_runs st t v now ttl) as Hspec. rewrite Hrun in Hspec. cbn in Hspec.
  apply token_spec_step in Hspec as (H1 & H2 & H3); [|done]. split_and!; [done| |done].
  intros id' [?|(e & Hx & Hs)]%H2; [by left|]. right.
  apply executing_some in Hx; [|done]. eapply Hid; apply Hx.
Qed.
End Items.

(** ** The batch store *)

Section BatchStore.
Context {T : Type} `{!EqDecision T} `{Uuid4}.
Implicit Types (st : Batches.store T) (e : StoredBatch T) (l : MutationBatchLease T).

Abbreviation lease_id l := (lease_namespace l, lease_batch_id l).

Lemma active_some l now st e : _active l now st = Some e ->
  d_get (lease_id l) (Batches.entries st) = Some e /\ stored_next e = next_index l /\
  stored_receipts e = receipts l /\ executing_state (stored_state e) = true.
Proof.
  unfold _active. intros Ha. repeat (case_match; try done). simplify_eq.
  match goal with E : _ || _ = false |- _ => repeat (apply orb_false_iff in E as [E ?]) end.
  time_facts. done.
Qed.

(** The lease the store hands out for an entry. *)
Definition lease_of (id : pystr * pystr) e (b : bool) : MutationBatchLease T :=
  mkBatchLease id.1 id.2 (stored_token e) (stored_state e) (stored_next e) (stored_total e)
    (stored_receipts e) (stored_expires_at e) b.

Lemma _lease_ok id e b st l st' : _lease id e b st = (Ok l, st') ->
  l = lease_of id e b /\ st' = st /\ 0 <= stored_next e <= stored_total e /\
  executing_state (stored_state e) = true.
Proof.
  unfold _lease, MutationBatchLease_new, Batches._utc. intros Hrun. run Hrun. time_facts. done.
Qed.

Lemma _lease_state id e b st r st' : _lease id e b st = (r, st') -> st' = st.
Proof. unfold _lease, MutationBatchLease_new, Batches._utc. intros Hrun. by run Hrun. Qed.

Definition updated st id e : Batches.store T := Batches.set_entries (d_set id e (Batches.entries st)) st.

Lemma renew_batch_ok l now ttl st l' st' :
  Batches.renew l now ttl st = (Ok (MutationBatchLeaseRenewed l'), st') ->
  exists e until, d_get (lease_id l) (Batches.entries st) = Some e /\ stored_next e = next_index l /\
    stored_receipts e = receipts l /\ st' = updated st (lease_id l) (Batches.with_expiry until e) /\
    l' = lease_of (lease_id l) (Batches.with_expiry until e) (resumed l).
Proof.
  unfold Batches.renew, Batches._utc, _positive, store_entry. intros Hrun.
  unfold check_utc, check_positive, bind, raise_if, gets, modify, lift, ret in Hrun.
  repeat (case_match; try done; simplify_eq/=).
  match goal with E : _active _ _ _ = Some _ |- _ => apply active_some in E as (? & ? & ? & ?) end.
  match goal with E : _lease _ _ _ _ = (Ok _, _) |- _ => apply _lease_ok in E as (-> & -> & _) end.
  do 2 eexists. by split_and!.
Qed.

Lemma advance_ok l r now ttl st l' st' :
  Batches.advance l r now ttl st = (Ok (MutationBatchProgressed l'), st') ->
  exists e until, d_get (lease_id l) (Batches.entries st) = Some e /\ stored_next e = next_index l /\
    stored_next e < stored_total e /\
    d_get (lease_id l) (Batches.entries st') = Some (Batches.with_expiry until (with_progress r e)) /\
    (d_wf (Batches.entries st) -> d_wf (Batches.entries st')) /\
    l' = lease_of (lease_id l) (Batches.with_expiry until (with_progress r e)) (resumed l).
Proof.
  unfold Batches.advance, Batches._utc, _positive, store_entry. intros Hrun.
  unfold check_utc, check_positive, bind, raise_if, gets, modify, lift, ret in Hrun.
  repeat (case_match; try done; simplify_eq/=).
  match goal with E : _active _ _ _ = Some _ |- _ => apply active_some in E as (? & ? & ? & ?) end.
  match goal with E : _lease _ _ _ _ = (Ok _, _) |- _ => apply _lease_ok in E as (-> & -> & _) end.
  time_facts. do 2 eexists. split_and!; [done|done|done|cbn; apply d_get_set_eq| |done].
  intros Hwf. cbn. auto with pydict.
Qed.

Lemma complete_batch_ok l now ttl st u st' :
  Batches.complete l now ttl st = (Ok (MutationBatchCompleted u), st') ->
  exists e, d_get (lease_id l) (Batches.entries st) = Some e /\ stored_next e = next_index l /\
    stored_next e = stored_total e /\ dt_instant u = dt_instant now + ttl /\
    d_get (lease_id l) (Batches.entries st') =
      Some (with_retention u (with_state COMPLETED (uncertainty_reason e) e)) /\
    (d_wf (Batches.entries st) -> d_wf (Batches.entries st')).
Proof.
  unfold Batches.complete, Batches._utc, _positive, store_entry. intros Hrun.
  unfold check_utc, check_positive, bind, raise_if, gets, modify, lift, ret in Hrun.
  repeat (case_match; try done; simplify_eq/=).
  match goal with E : _active _ _ _ = Some _ |- _ => apply active_some in E as (? & ? & ? & ?) end.
  time_facts. eexists. split_and!; [done|done|done|done|cbn; apply d_get_set_eq|].
  intros Hwf. cbn. auto with pydict.
Qed.

(** A completion that is refused changes nothing. *)
Lemma complete_batch_stale l now ttl st reason st' :
  Batches.complete l now ttl st = (Ok (CompleteStaleBatch reason), st') -> st' = st.
Proof.
  unfold Batches.complete, Batches._utc, _positive, store_entry. intros Hrun.
  unfold check_utc, check_positive, bind, raise_if, gets, modify, lift, ret in Hrun.
  by repeat (case_match; try done; simplify_eq/=).
Qed.

Lemma renew_batch_stale l now ttl st reason st' :
  Batches.renew l now ttl st = (Ok (RenewStaleBatch reason), st') -> st' = st.
Proof.
  unfold Batches.renew, Batches._utc, _positive, store_entry. intros Hrun.
  unfold check_utc, check_positive, bind, raise_if, gets, modify, lift, ret in Hrun.
  by repeat (case_match; try done; simplify_eq/=).
Qed.

(** The answers of [begin] for an identity whose entry is not due for removal, with the
    entry it leaves. *)
Inductive begin_spec (id : pystr * pystr) (total : Z) (cur : option (StoredBatch T)) :
    result exn (MutationBatchBeginResult T) -> option (StoredBatch T) -> Prop :=
  | begin_same r :
      match r with Ok (BeginLease _) | Ok (BeginReplay _) => False | _ => True end ->
      begin_spec id total cur r cur
  | begin_replay e : cur = Some e -> stored_state e = COMPLETED -> stored_total e = total ->
      begin_spec id total cur (Ok (BeginReplay (stored_receipts e))) cur
  | begin_resumed e e' r : cur = Some e -> executing_state (stored_state e) = true ->
      stored_next e' = stored_next e -> stored_total e' = stored_total e ->
      stored_receipts e' = stored_receipts e -> stored_state e' = stored_state e ->
      retention_expires_at e' = retention_expires_at e ->
      (r = Ok (BeginLease (lease_of id e' true)) \/ exists x, r = Raise x) ->
      begin_spec id total cur r (Some e')
  | begin_new fp token until r :
      let e := mkStored fp total token PROCESSING 0 [] until None None in
      cur = None -> (r = Ok (BeginLease (lease_of id e false)) \/ exists x, r = Raise x) ->
      begin_spec id total cur r (Some e).

Lemma purge_terminal_get now st id : d_wf (Batches.entries st) ->
  (forall e, d_get id (Batches.entries st) = Some e -> terminal_expired now (id, e) = false) ->
  d_get id (d_pop_all (filter (fun p => terminal_expired now p = true) (Batches.entries st)).*1
    (Batches.entries st)) = d_get id (Batches.entries st).
Proof.
  intros Hwf Hkeep. rewrite d_pop_all_get by done. case_decide as Hin; [|done]. exfalso.
  apply list_elem_of_fmap in Hin as ([i e] & -> & Hin). apply list_elem_of_filter in Hin as [Hx Hin].
  apply d_elem_get in Hin; [|done]. cbn in Hkeep. by rewrite Hkeep in Hx.
Qed.

Lemma begin_known_runs id e fp total now ttl st r st' : d_wf (Batches.entries st) ->
  d_get id (Batches.entries st) = Some e -> begin_known id e fp total now ttl st = (r, st') ->
  d_wf (Batches.entries st') /\ begin_spec id total (Some e) r (d_get id (Batches.entries st')).
Proof.
  intros Hwf He Hrun. unfold begin_known in Hrun. unfold bind at 1 in Hrun. cbn [modify] in Hrun.
  set (st1 := Batches.set_entries (d_move_to_end id (Batches.entries st)) st) in *.
  assert (d_wf (Batches.entries st1) /\ d_get id (Batches.entries st1) = Some e) as [Hwf1 He1].
  { cbn. split; [auto with pydict|]. by rewrite d_move_to_end_get. }
  clearbody st1. unfold modify at 1 in Hrun. cbv beta iota in Hrun.
  destruct (negb (bool_decide (stored_fingerprint e = fp)) || negb (stored_total e =? total)) eqn:Hc.
  { inversion Hrun; subst. split; [done|]. rewrite He1. by constructor. }
  time_facts.
  destruct (executing_state (stored_state e)) eqn:Hx; cycle 1.
  { destruct (stored_state e) eqn:Hs; try done; inversion Hrun; subst; (split; [done|]); rewrite He1.
    - by apply begin_replay.
    - by apply begin_same. }
  assert ((if dt_ltb now (stored_expires_at e) then ret (BeginInProgress None (stored_expires_at e))
      else
        modify (fun st => Batches.set_tokens (d_pop (stored_token e) (Batches.tokens st)) st) ;;;
        let! token := fresh in
        store_entry id (with_token token e) ;;;
        let! until := lift (dt_add now ttl) in
        store_entry id (Batches.with_expiry until (with_token token e)) ;;;
        modify (fun st => Batches.set_tokens (d_set token id (Batches.tokens st)) st) ;;;
        let! lease := _lease id (Batches.with_expiry until (with_token token e)) true in
        ret (BeginLease lease)) st1 = (r, st')) as Hrun' by (by destruct (stored_state e)).
  clear Hrun. destruct (dt_ltb now (stored_expires_at e)).
  { inversion Hrun'; subst. split; [done|]. rewrite He1. by constructor. }
  unfold fresh, store_entry in Hrun'. unfold bind, modify, gets, lift, ret in Hrun'. cbn in Hrun'.
  destruct (dt_add now ttl) as [until|x] eqn:Hadd; cbn in Hrun'.
  - destruct (_lease _ _ _ _) as [[l|x] st2] eqn:Hl in Hrun'; inversion Hrun'; subst.
    + apply _lease_ok in Hl as (-> & -> & _). cbn. split; [auto with pydict|]. rewrite d_get_set_eq.
      eapply begin_resumed; try done. by left.
    + apply _lease_state in Hl as ->. cbn. split; [auto with pydict|]. rewrite d_get_set_eq.
      eapply begin_resumed; try done. right. eauto.
  - inversion Hrun'; subst. cbn. split; [auto with pydict|]. rewrite d_get_set_eq.
    eapply begin_resumed; try done. right. eauto.
Qed.

Lemma begin_runs ns bid fp total now ttl st r st' : d_wf (Batches.entries st) ->
  (forall e, d_get (ns, bid) (Batches.entries st) = Some e -> terminal_expired now ((ns, bid), e) = false) ->
  Batches.begin ns bid fp total now ttl st = (r, st') ->
  d_wf (Batches.entries st') /\
  begin_spec (ns, bid) total (d_get (ns, bid) (Batches.entries st)) r (d_get (ns, bid) (Batches.entries st')).
Proof.
  intros Hwf Hkeep Hrun. unfold Batches.begin in Hrun. unfold bind at 1 in Hrun.
  destruct (_validate_begin ns bid total now ttl st) as [[[]|x] st0] eqn:Hv.
  2:{ assert (st0 = st) as -> by (unfold _validate_begin, Batches._utc, _positive in Hv; by run Hv).
      inversion Hrun; subst. split; [done|]. by constructor. }
  assert (st0 = st) as -> by (unfold _validate_begin, Batches._utc, _positive in Hv; by run Hv).
  unfold _purge_terminal in Hrun. unfold bind at 1, modify at 1 in Hrun. cbv beta iota in Hrun.
  set (st1 := Batches.set_entries _ st) in Hrun.
  assert (d_wf (Batches.entries st1) /\ d_get (ns, bid) (Batches.entries st1) = d_get (ns, bid) (Batches.entries st))
    as [Hwf1 He1] by (cbn; split; [auto with pydict|by apply purge_terminal_get]).
  rewrite <- He1. clearbody st1. unfold bind at 1, gets at 1 in Hrun.
  destruct (d_get (ns, bid) (Batches.entries st1)) as [e|] eqn:He.
  { by eapply begin_known_runs. }
  unfold fresh, store_entry in Hrun. unfold bind, modify, gets, lift, ret in Hrun.
  destruct (Batches.capacity st1 <=? d_len (Batches.entries st1)).
  { inversion Hrun; subst. split; [done|]. rewrite He. by constructor. }
  cbn in Hrun. destruct (dt_add now ttl) as [until|x] eqn:Hadd; cbn in Hrun.
  - destruct (_lease _ _ _ _) as [[l|x] st2] eqn:Hl in Hrun; inversion Hrun; subst.
    + apply _lease_ok in Hl as (-> & -> & _). cbn. split; [auto with pydict|]. rewrite d_get_set_eq.
      apply begin_new; [done|]. by left.
    + apply _lease_state in Hl as ->. cbn. split; [auto with pydict|]. rewrite d_get_set_eq.
      apply begin_new; [done|]. right. eauto.
  - inversion Hrun; subst. cbn. split; [done|]. rewrite He. by constructor.
Qed.
End BatchStore.

(** ** The world of a coordinator *)

(** What the database holds: both stores and the state the mutations change. *)
Record database (T A : Type) := mkDatabase {
  batches : Batches.store T;
  item_store : Idempotency.store (BatchItemReceipt T);
  app : A
}.
Arguments mkDatabase {T A}.
Arguments batches {T A}.
Arguments item_store {T A}.
Arguments app {T A}.

Definition batches_lens {T A C} : lens (database T A * C) (Batches.store T) :=
  Lens (fun w => batches w.1) (fun s w => (mkDatabase s (item_store w.1) (app w.1), w.2)).
Definition items_lens {T A C} : lens (database T A * C) (Idempotency.store (BatchItemReceipt T)) :=
  Lens (fun w => item_store w.1) (fun s w => (mkDatabase (batches w.1) s (app w.1), w.2)).
Definition app_lens {T A C} : lens (database T A * C) A :=
  Lens (fun w => app w.1) (fun a w => (mkDatabase (batches w.1) (item_store w.1) a, w.2)).

(** The database transaction: a raising body leaves the database as it was; the rest of the
    world (the clock) moves on. *)
Class DatabaseAtomic (D C : Type) `{!Atomic (D * C)} : Prop :=
  database_atomic : forall E X (m : M E (D * C) X) w,
    atomic m w = match m w with
                 | (Ok x, w') => (Ok x, w')
                 | (Raise e, w') => (Raise e, (w.1, w'.2))
                 end.

Definition rollback_atomic {D C} : Atomic (D * C) := fun E X m w =>
  match m w with
  | (Ok x, w') => (Ok x, w')
  | (Raise e, w') => (Raise e, (w.1, w'.2))
  end.
Lemma rollback_atomic_laws {D C} : @DatabaseAtomic D C rollback_atomic.
Proof. intros E X m w. done. Qed.

Definition world_batches {T A C} `{!MutationBatchStore (Batches.store T) T} : MutationBatchStore (database T A * C) T := {|
  port_begin := fun ns b fp n now ttl => zoom batches_lens (port_begin ns b fp n now ttl);
  port_renew_batch := fun l now ttl => zoom batches_lens (port_renew_batch l now ttl);
  port_advance := fun l r now ttl => zoom batches_lens (port_advance l r now ttl);
  port_complete_batch := fun l now ttl => zoom batches_lens (port_complete_batch l now ttl);
  port_batch_uncertain := fun l r now ttl => zoom batches_lens (port_batch_uncertain l r now ttl)
|}.
Definition world_items {T A C} `{!IdempotencyStore (Idempotency.store (BatchItemReceipt T)) (BatchItemReceipt T)} :
    IdempotencyStore (database T A * C) (BatchItemReceipt T) := {|
  port_reserve := fun s k fp now ttl => zoom items_lens (port_reserve s k fp now ttl);
  port_renew := fun t now ttl => zoom items_lens (port_renew t now ttl);
  port_complete := fun t v now ttl => zoom items_lens (port_complete t v now ttl);
  port_mark_uncertain := fun t r now ttl => zoom items_lens (port_mark_uncertain t r now ttl);
  port_abandon := fun t now => zoom items_lens (port_abandon t now)
|}.

Lemma embed_ok {R S X} (m : M exn S X) s x s' : embed (R := R) m s = (Ok x, s') -> m s = (Ok x, s').
Proof. unfold embed. destruct (m s) as [[?|?] ?]; by intros [= -> ->]. Qed.

Lemma zoom_run {E W S X} (l : lens W S) (m : M E S X) w r w' :
  zoom l m w = (r, w') -> exists s, m (view l w) = (r, s) /\ w' = update l s w.
Proof. unfold zoom. destruct (m (view l w)) as [r0 s]. intros [= <- <-]. eauto. Qed.

(** Take the statements of a block that ended normally apart. *)
Ltac steps H :=
  repeat match type of H with
  | bind _ _ _ = (Ok _, _) => let x := fresh "x" in let w := fresh "w" in let H1 := fresh "Hs" in
      apply bind_ok in H as (x & w & H1 & H); try (apply embed_ok in H1)
  | ret _ _ = (Ok _, _) => inversion H; subst; clear H
  | raise _ _ = (Ok _, _) => discriminate H
  | rollback_batch _ _ = (Ok _, _) => discriminate H
  end.

(** ** Exactly once *)

Section ExactlyOnce.
Context {T A C : Type} `{!EqDecision T} `{Uuid4Laws} `{!Atomic (database T A * C)} `{!DatabaseAtomic (database T A) C} `{Hlimits : Recursion}.
Variable rfc8785 : option (json -> result exn (list N)).
Variable sha256_hexdigest : list N -> pystr.
Variable limits : BatchLimits.
Variable alias : pystr.
Variable policy : IdempotencyPolicy.
Variables ns bid : pystr.
Variable items : list BatchItem.
(** The effect of the mutation of an item, its result and the new state. *)
Variable effect : BatchItem -> A -> T * A.
Variable a0 : A.
(** All clock readings lie in a window no longer than the retention of results. *)
Variables lo hi : Z.
Hypothesis retained : hi <= lo + result_retention_ttl policy.
Hypothesis distinct : NoDup (item_id <$> items).

Abbreviation W := (database T A * C)%type.
Implicit Types (d : database T A) (w : W) (l : MutationBatchLease T).

#[local] Instance once_batches : MutationBatchStore W T := world_batches.
#[local] Instance once_items : IdempotencyStore W (BatchItemReceipt T) := world_items.

(** The receipts and the state of a list of items mutated in order, once each. *)
Fixpoint effects (l : list BatchItem) (a : A) : list (BatchItemReceipt T) * A :=
  match l with
  | [] => ([], a)
  | i :: l' =>
      let '(v, a1) := effect i a in
      let '(rs, a2) := effects l' a1 in
      (mkItemReceipt (item_id i) v false :: rs, a2)
  end.

Definition item_ident (i : BatchItem) : identity :=
  (mkScope ns bid (str_app "mutation-item:" (item_id i)), item_id i).

Record entry_ok (k : nat) (e : StoredBatch T) : Prop := {
  entry_next : stored_next e = Z.of_nat k;
  entry_total : stored_total e = Z.of_nat (length items);
  entry_receipts : stored_receipts e = fst (effects (take k items) a0);
  entry_complete : stored_state e = COMPLETED -> k = length items;
  entry_retained : forall u, retention_expires_at e = Some u -> hi <= dt_instant u
}.

(** The first [k] items are committed, in both stores and in the state. *)
Record inv_at (k : nat) d : Prop := {
  at_bound : (k <= length items)%nat;
  at_entry : match d_get (ns, bid) (Batches.entries (batches d)) with
             | None => k = 0%nat
             | Some e => entry_ok k e
             end;
  at_app : app d = snd (effects (take k items) a0);
  at_undone : forall j i, items !! j = Some i -> (k <= j)%nat -> ~ item_done (item_store d) (item_ident i);
  at_wf : d_wf (Batches.entries (batches d));
  at_items : store_inv (item_store d)
}.

Definition mine l : Prop := lease_namespace l = ns /\ lease_batch_id l = bid.

Lemma effects_snoc (ls : list BatchItem) i a :
  effects (ls ++ [i]) a =
    (fst (effects ls a) ++ [mkItemReceipt (item_id i) (fst (effect i (snd (effects ls a)))) false],
     snd (effect i (snd (effects ls a)))).
Proof.
  revert a. induction ls as [|j ls IH]; intros a; cbn.
  - by destruct (effect i a).
  - destruct (effect j a) as [v a1]. rewrite IH. by destruct (effects ls a1).
Qed.

Lemma set_batches_inv k d s e : inv_at k d -> d_wf (Batches.entries s) ->
  d_get (ns, bid) (Batches.entries s) = Some e -> entry_ok k e ->
  inv_at k (mkDatabase s (item_store d) (app d)).
Proof. intros [] Hwf He Hok. split; cbn; try done. by rewrite He. Qed.

Lemma set_items_inv k d s : inv_at k d -> item_step (item_store d) s ->
  inv_at k (mkDatabase (batches d) s (app d)).
Proof.
  intros [H1 H2 H3 H4 H5 H6] [S1 S2 S3]. split; cbn; try done.
  intros j i Hj Hk Hd. by eapply H4, S2.
Qed.

(** *** One attempt *)

Section Attempt.
Variable clk : M exn C datetime.
Hypothesis clock_window : forall c t c', clk c = (Ok t, c') -> lo <= dt_instant t < hi.
Variable body : BatchItem -> M exn A T.
Hypothesis faithful : forall i a v a', body i a = (Ok v, a') -> (v, a') = effect i a.

#[local] Instance attempt_clock : Clock W := zoom snd_lens clk.
Definition mutate (i : BatchItem) (_ : pystr) : M exn W T := zoom app_lens (body i).

Lemma clock_ok w t w' : clock_now w = (Ok t, w') -> w'.1 = w.1 /\ lo <= dt_instant t < hi.
Proof.
  intros (c & Hc & ->)%zoom_run. apply clock_window in Hc. by destruct w.
Qed.

Lemma clock_raises w e w' : clock_now w = (Raise e, w') -> w'.1 = w.1.
Proof. intros (c & Hc & ->)%zoom_run. by destruct w. Qed.

Lemma renew_batch_inv k w l id l' w' : inv_at k w.1 -> mine l ->
  _renew_batch policy l id w = (Ok l', w') ->
  inv_at k w'.1 /\ mine l' /\ next_index l = Z.of_nat k /\ next_index l' = Z.of_nat k /\
  receipts l' = receipts l /\ item_store w'.1 = item_store w.1.
Proof.
  intros Hinv [Hns Hbid] Hrun. unfold _renew_batch in Hrun. steps Hrun.
  apply clock_ok in Hs as [Hdb _]. apply zoom_run in Hs0 as (s & Hren & ->).
  destruct x0 as [l1|reason]; steps Hrun.
  apply renew_batch_ok in Hren as (e & until & He & Hnext & Hrec & -> & ->).
  cbn in *. rewrite Hdb in *. rewrite Hns, Hbid in *.
  pose proof (at_entry _ _ Hinv) as Hent. rewrite He in Hent. destruct Hent as [E1 E2 E3 E4 E5].
  split_and!; [|done|congruence|congruence|congruence|done].
  eapply set_batches_inv; [done| |cbn; apply d_get_set_eq|split; done].
  cbn. apply d_set_wf, Hinv.
Qed.

Lemma reserve_item_inv k w i dec w' : inv_at k w.1 ->
  _reserve_item rfc8785 sha256_hexdigest policy bid i ns w = (Ok dec, w') ->
  inv_at k w'.1 /\ batches w'.1 = batches w.1 /\ item_step (item_store w.1) (item_store w'.1) /\
  (forall v, dec = Replay v -> item_done (item_store w.1) (item_ident i)) /\
  (forall t, dec = Execute t -> assigned (item_store w'.1) t (item_ident i)).
Proof.
  intros Hinv Hrun. unfold _reserve_item in Hrun. steps Hrun.
  unfold IdempotencyScope_new in Hs. run Hs. unfold lift in Hs0. inversion Hs0; subst.
  apply clock_ok in Hs1 as [Hdb _]. apply zoom_run in Hrun as (s & Hres & ->).
  cbn in Hres. rewrite Hdb in *. cbn. rewrite Hdb.
  apply reserve_step_items in Hres as (Hstep & Hrep & Hex); [|apply Hinv].
  split_and!; [by apply set_items_inv|done|done| |].
  - intros v ->. by eapply Hrep.
  - intros t ->. by eapply Hex.
Qed.

Lemma prove_one_inv k w acc i r acc' w' : inv_at k w.1 -> mine acc.1 ->
  prove_one rfc8785 sha256_hexdigest policy acc (i, r) w = (Ok acc', w') ->
  inv_at k w'.1 /\ mine acc'.1 /\ next_index acc'.1 = Z.of_nat k /\ acc'.2 = acc.2 ++ [set_replayed true r].
Proof.
  intros Hinv Hm Hrun. unfold prove_one in Hrun. apply bind_ok in Hrun as (l1 & w1 & Hren & Hrun).
  apply renew_batch_inv with (k := k) in Hren as (Hinv1 & [Hns Hbid] & _ & Hnext & _ & _); [|done|done].
  apply bind_ok in Hrun as (dec & w2 & Hres & Hrun). apply embed_ok in Hres. rewrite Hns, Hbid in Hres.
  apply reserve_item_inv with (k := k) in Hres as (Hinv2 & _); [|done].
  match type of Hrun with (if ?b then _ else _) _ = _ => destruct b end.
  - steps Hrun. by split_and!.
  - steps Hrun.
Qed.

Lemma prove_loop_inv k zs : forall w acc acc' w', inv_at k w.1 -> mine acc.1 ->
  next_index acc.1 = Z.of_nat k ->
  for_each zs acc (prove_one rfc8785 sha256_hexdigest policy) w = (Ok acc', w') ->
  inv_at k w'.1 /\ mine acc'.1 /\ next_index acc'.1 = Z.of_nat k /\
  acc'.2 = acc.2 ++ map (set_replayed true) zs.*2.
Proof.
  induction zs as [|[i r] zs IH]; intros w acc acc' w' Hinv Hm Hn Hrun; cbn [for_each] in Hrun.
  - steps Hrun. cbn. by rewrite app_nil_r.
  - apply bind_ok in Hrun as (acc1 & w1 & H1 & Hrun). apply prove_one_inv with (k := k) in H1 as (Hi1 & Hm1 & Hn1 & Ha1); [|done|done].
    apply IH in Hrun as (? & ? & ? & Ha); [|done..]. split_and!; try done. rewrite Ha, Ha1. cbn. by rewrite <- app_assoc.
Qed.

Lemma effects_length ls a : length (fst (effects ls a)) = length ls.
Proof.
  revert a. induction ls as [|i ls IH]; intros a; cbn; [done|]. destruct (effect i a) as [v a1].
  specialize (IH a1). destruct (effects ls a1). cbn in *. by rewrite IH.
Qed.

Lemma effects_unreplayed b ls a :
  map (set_replayed false) (map (set_replayed b) (fst (effects ls a))) = fst (effects ls a).
Proof.
  revert a. induction ls as [|i ls IH]; intros a; cbn; [done|]. destruct (effect i a) as [v a1].
  specialize (IH a1). destruct (effects ls a1). cbn in *. by rewrite IH.
Qed.

(** The receipts up to their replay flag. *)
Definition same_results (rs : list (BatchItemReceipt T)) (k : nat) : Prop :=
  map (set_replayed false) rs = fst (effects (take k items) a0).

Lemma same_results_effects k : same_results (fst (effects (take k items) a0)) k.
Proof.
  unfold same_results. rewrite <- (effects_unreplayed true) at 1. rewrite map_map. cbn.
  apply (effects_unreplayed true).
Qed.

Lemma prove_prefix_inv k w l l' proven w' : inv_at k w.1 -> mine l -> next_index l = Z.of_nat k ->
  receipts l = fst (effects (take k items) a0) ->
  _prove_prefix rfc8785 sha256_hexdigest policy l items w = (Ok (l', proven), w') ->
  inv_at k w'.1 /\ mine l' /\ next_index l' = Z.of_nat k /\ same_results proven k.
Proof.
  intros Hinv Hm Hn Hrec Hrun. unfold _prove_prefix in Hrun. destruct (resumed l); cbn [negb] in Hrun; cycle 1.
  - steps Hrun. split_and!; [done..|]. rewrite Hrec. apply same_results_effects.
  - apply bind_ok in Hrun as (out & w1 & Hloop & Hrun).
    apply prove_loop_inv with (k := k) in Hloop as (Hi & Hm' & Hn' & Hp); [|done..].
    unfold bind, raise_if in Hrun. destruct (negb _) in Hrun; [done|]. inversion Hrun; subst. split_and!; try done.
    cbn in Hp. rewrite Hp, Hn, Nat2Z.id, Hrec. unfold same_results. rewrite snd_zip.
    + apply effects_unreplayed.
    + by rewrite effects_length.
Qed.

Lemma item_ident_inj j j' i i' : items !! j = Some i -> items !! j' = Some i' ->
  item_ident i = item_ident i' -> j = j'.
Proof.
  intros Hj Hj' Heq. assert (item_id i = item_id i') as Hid by (unfold item_ident in Heq; congruence).
  apply (NoDup_lookup (item_id <$> items) j j' (item_id i) distinct); rewrite list_lookup_fmap.
  - by rewrite Hj.
  - by rewrite Hj', Hid.
Qed.

(** Committing item [k]: its mutation, its receipt and the progress of the batch. *)
Lemma commit_item_inv k d i s a b : inv_at k d -> items !! k = Some i ->
  a = snd (effect i (app d)) -> store_inv s ->
  (forall id, item_done s id -> item_done (item_store d) id \/ id = item_ident i) ->
  d_wf (Batches.entries b) ->
  (exists e until, d_get (ns, bid) (Batches.entries (batches d)) = Some e /\
    d_get (ns, bid) (Batches.entries b) = Some (Batches.with_expiry until
      (with_progress (mkItemReceipt (item_id i) (fst (effect i (app d))) false) e))) ->
  inv_at (S k) (mkDatabase b s a).
Proof.
  intros [H1 H2 H3 H4 H5 H6] Hi -> Hs Hdone Hwf (e & until & He & Hb).
  rewrite He in H2. destruct H2 as [E1 E2 E3 E4 E5].
  pose proof (lookup_lt_Some _ _ _ Hi) as Hlt. rewrite H3 in *. split; cbn; try done.
  - rewrite Hb. split; cbn; try done; [lia|]. rewrite (take_S_r _ _ _ Hi), effects_snoc, E3. done.
  - by rewrite (take_S_r _ _ _ Hi), effects_snoc.
  - intros j ij Hj Hk [Hd|Heq]%Hdone; [eapply H4; [exact Hj|lia|done]|].
    pose proof (item_ident_inj _ _ _ _ Hj Hi Heq). lia.
Qed.

Definition reserved (rs : list (BatchItem * IdempotencyDecision (BatchItemReceipt T))) d : Prop :=
  Forall (fun p => exists t, p.2 = Execute t /\ assigned (item_store d) t (item_ident p.1)) rs.

Lemma reserved_mono rs d d' : (forall t id, assigned (item_store d) t id -> assigned (item_store d') t id) ->
  reserved rs d -> reserved rs d'.
Proof. intros Hm Hrs. eapply Forall_impl; [exact Hrs|]. intros p (t & Ht & Ha). eauto. Qed.

Lemma apply_reserved_inv k w l i j t rs l' receipt w' :
  inv_at k w.1 -> mine l -> items !! j = Some i -> next_index l = Z.of_nat j ->
  assigned (item_store w.1) t (item_ident i) -> reserved rs w.1 ->
  _apply_reserved_item alias policy mutate l i (Execute t) w = (Ok (l', receipt), w') ->
  j = k /\ inv_at (S k) w'.1 /\ mine l' /\ next_index l' = Z.of_nat (S k) /\ reserved rs w'.1 /\
  set_replayed false receipt = mkItemReceipt (item_id i) (fst (effect i (snd (effects (take k items) a0)))) false.
Proof.
  intros Hinv Hm Hj Hn Ha Hrs Hrun. unfold _apply_reserved_item in Hrun.
  apply bind_ok in Hrun as (l1 & w1 & Hren & Hrun).
  apply renew_batch_inv with (k := k) in Hren as (Hinv1 & [Hns Hbid] & Hk & Hn1 & _ & His); [|done|done].
  assert (j = k) as -> by lia. split; [done|].
  apply bind_ok in Hrun as (receipt0 & w2 & Hitem & Hrun).
  apply bind_ok in Hrun as (now7 & w3 & Hc7%embed_ok & Hrun).
  apply bind_ok in Hrun as (pr & w4 & Hadv%embed_ok & Hrun).
  apply bind_ok in Hitem as (now2 & v1 & Hc2%embed_ok & Hitem).
  apply bind_ok in Hitem as (rn & v2 & Hitr%embed_ok & Hitem). destruct rn; [|done].
  apply bind_ok in Hitem as (value & v3 & Hbody%embed_ok & Hitem).
  apply bind_ok in Hitem as (now5 & v4 & Hc5%embed_ok & Hitem).
  apply bind_ok in Hitem as (cp & v5 & Hcomp%embed_ok & Hitem). destruct cp; [|done].
  inversion Hitem; subst; clear Hitem. destruct pr as [l2|]; [|done]. inversion Hrun; subst; clear Hrun.
  apply clock_ok in Hc2 as [Hdb2 _], Hc5 as [Hdb5 _], Hc7 as [Hdb7 _].
  apply zoom_run in Hitr as (s2 & Hren & ->), Hbody as (a3 & Hbody & ->), Hcomp as (s5 & Hcomp & ->),
    Hadv as (b8 & Hadv & ->). apply faithful in Hbody.
  cbn in *. rewrite Hdb7 in *. cbn in *. rewrite Hdb5 in *. cbn in *. rewrite Hdb2 in *.
  pose proof (renew_step_items _ _ _ _ _ _ (at_items _ _ Hinv1) Hren) as [R1 R2 R3].
  rewrite <- His in Ha.
  pose proof (complete_step_items _ _ _ _ _ _ _ _ R1 (R3 _ _ Ha) Hcomp) as (C1 & C2 & C3).
  apply advance_ok in Hadv as (e & until & He & _ & _ & Hb & Hbwf & ->). rewrite Hns, Hbid in *.
  pose proof (at_app _ _ Hinv1) as Happ. rewrite Happ in Hbody.
  split_and!; cbn; [|done| | |].
  - eapply (commit_item_inv k w1.1 i); try done.
    + rewrite Happ, <- Hbody. done.
    + intros id [Hd| ->]%C2; [left; by apply R2|by right].
    + apply Hbwf, Hinv1.
    + exists e, until. split; [done|]. rewrite Hb, Happ, <- Hbody. done.
  - pose proof (at_entry _ _ Hinv1) as Hent. rewrite He in Hent. rewrite (entry_next _ _ Hent). lia.
  - eapply (reserved_mono _ w.1); [|done]. cbn. rewrite <- His. eauto.
  - by rewrite <- Hbody.
Qed.

Lemma reserve_loop_inv k zs : forall w acc acc' w', inv_at k w.1 -> mine acc.1 -> next_index acc.1 = Z.of_nat k ->
  reserved acc.2 w.1 -> (forall i, i ∈ zs -> exists j, (k <= j)%nat /\ items !! j = Some i) ->
  for_each zs acc (reserve_step rfc8785 sha256_hexdigest policy ns bid) w = (Ok acc', w') ->
  inv_at k w'.1 /\ mine acc'.1 /\ next_index acc'.1 = Z.of_nat k /\ reserved acc'.2 w'.1 /\
  acc'.2.*1 = acc.2.*1 ++ zs.
Proof.
  induction zs as [|i zs IH]; intros w acc acc' w' Hinv Hm Hn Hrs Hzs Hrun; cbn [for_each] in Hrun.
  { steps Hrun. by rewrite app_nil_r. }
  apply bind_ok in Hrun as (acc1 & w1 & H1 & Hrun). unfold reserve_step in H1.
  apply bind_ok in H1 as (l1 & w2 & Hren & H1).
  apply renew_batch_inv with (k := k) in Hren as (Hinv2 & Hm2 & _ & Hn2 & _ & His); [|done|done].
  apply bind_ok in H1 as (dec & w3 & Hres%embed_ok & H1).
  apply reserve_item_inv with (k := k) in Hres as (Hinv3 & _ & Hstep & Hrep & Hex); [|done].
  destruct (Hzs i) as (j & Hj & Hi); [left|].
  assert (exists t, dec = Execute t /\ w3 = w1 /\ acc1 = (l1, acc.2 ++ [(i, dec)])) as (t & -> & -> & ->).
  { destruct dec; cbn in H1; steps H1; [eauto|]. exfalso. eapply (at_undone _ _ Hinv2 j i); eauto. }
  apply IH in Hrun as (? & ? & ? & ? & Hf); [|done..| |].
  - split_and!; try done. rewrite Hf. cbn. by rewrite fmap_app, <- app_assoc.
  - cbn. apply Forall_app. split.
    + eapply reserved_mono; [|exact Hrs]. intros t' id Ha. apply (step_assigned _ _ Hstep). by rewrite His.
    + constructor; [|constructor]. exists t. split; [done|]. by apply Hex.
  - intros i' Hi'. apply Hzs. by right.
Qed.

Lemma drop_head (k : nat) i rest : drop k items = i :: rest -> items !! k = Some i /\ drop (S k) items = rest.
Proof.
  intros Hd. assert (items !! k = Some i) as Hi by (by rewrite <- (Nat.add_0_r k), <- lookup_drop, Hd).
  split; [done|]. rewrite (drop_S _ _ _ Hi) in Hd. congruence.
Qed.

(** The receipts of one more item. *)
Lemma same_results_snoc done k i receipt : same_results done k -> items !! k = Some i ->
  set_replayed false receipt = mkItemReceipt (item_id i) (fst (effect i (snd (effects (take k items) a0)))) false ->
  same_results (done ++ [receipt]) (S k).
Proof.
  unfold same_results. intros Hd Hi Hr. rewrite (take_S_r _ _ _ Hi), effects_snoc, map_app, Hd. cbn. by rewrite Hr.
Qed.

Lemma apply_loop_inv rs : forall k w acc acc' w', inv_at k w.1 -> mine acc.1 -> next_index acc.1 = Z.of_nat k ->
  reserved rs w.1 -> rs.*1 = drop k items -> same_results acc.2 k ->
  for_each rs acc (apply_step alias policy mutate) w = (Ok acc', w') ->
  inv_at (length items) w'.1 /\ mine acc'.1 /\ same_results acc'.2 (length items).
Proof.
  induction rs as [|[i dec] rs IH]; intros k w acc acc' w' Hinv Hm Hn Hrs Hk Hd Hrun; cbn [for_each] in Hrun.
  { steps Hrun. assert (length (drop k items) = 0%nat) as Hl by (by rewrite <- Hk).
    rewrite length_drop in Hl. pose proof (at_bound _ _ Hinv). replace (length items) with k by lia. done. }
  cbn in Hk. symmetry in Hk. apply drop_head in Hk as [Hi Hk].
  apply Forall_cons in Hrs as [(t & Hdec & Ha) Hrs]. cbn in Hdec, Ha. subst dec.
  apply bind_ok in Hrun as (acc1 & w1 & H1 & Hrun). unfold apply_step in H1. cbn [fst snd] in H1.
  apply bind_ok in H1 as ([l1 receipt] & w2 & H1 & H2). steps H2.
  eapply apply_reserved_inv in H1 as (_ & Hinv1 & Hm1 & Hn1 & Hrs1 & Hr); [|done..].
  eapply (IH (S k)); [..|exact Hrun]; try done. cbn. by eapply same_results_snoc.
Qed.

Lemma finish_inv k w l r w' : inv_at k w.1 -> mine l -> _finish policy l w = (Ok r, w') ->
  inv_at k w'.1 /\ (r = true -> k = length items).
Proof.
  intros Hinv [Hns Hbid] Hrun. unfold _finish in Hrun.
  apply bind_ok in Hrun as (now1 & w1 & Hc1 & Hrun). apply clock_ok in Hc1 as [Hdb1 _].
  apply bind_ok in Hrun as (rn & w2 & Hren & Hrun). apply zoom_run in Hren as (s2 & Hren & ->).
  cbn in Hren. rewrite Hdb1 in Hren. cbn in Hrun. rewrite Hdb1 in Hrun. destruct rn as [l1|reason]; cycle 1.
  { steps Hrun. apply renew_batch_stale in Hren as ->. cbn. split; [|done]. by destruct w as [[]]. }
  apply renew_batch_ok in Hren as (e & until & He & Hnext & Hrec & -> & ->). rewrite Hns, Hbid in *.
  pose proof (at_entry _ _ Hinv) as Hent. rewrite He in Hent. destruct Hent as [E1 E2 E3 E4 E5].
  assert (inv_at k (mkDatabase (updated (batches w.1) (ns, bid) (Batches.with_expiry until e))
    (item_store w.1) (app w.1))) as Hinv2.
  { eapply set_batches_inv; [done| |cbn; apply d_get_set_eq|by split]. cbn. apply d_set_wf, Hinv. }
  apply bind_ok in Hrun as (now3 & w3 & Hc3 & Hrun). apply clock_ok in Hc3 as [Hdb3 Hnow3]. cbn in Hdb3.
  apply bind_ok in Hrun as (cp & w4 & Hcomp & Hrun). apply zoom_run in Hcomp as (s4 & Hcomp & ->).
  cbn in Hcomp. rewrite Hdb3 in Hcomp. steps Hrun. cbn. rewrite Hdb3. cbn. destruct cp as [u|reason].
  - apply complete_batch_ok in Hcomp as (e2 & He2 & _ & Htot & Hu & Hb & Hwf). cbn in He2, Hb.
    rewrite d_get_set_eq in He2. injection He2 as <-. cbn in Htot. assert (k = length items) as Hkn by lia.
    split; [|done]. eapply (set_batches_inv k _ s4) in Hinv2; [exact Hinv2| |exact Hb|].
    + apply Hwf. cbn. apply d_set_wf, Hinv.
    + split; cbn; try done. intros u' [= <-]. lia.
  - apply complete_batch_stale in Hcomp as ->. by split.
Qed.

Lemma begin_spec_ok k cur r out :
  match cur with None => k = 0%nat | Some e => entry_ok k e end ->
  begin_spec (ns, bid) (Z.of_nat (length items)) cur r out ->
  match out with None => k = 0%nat | Some e => entry_ok k e end /\
  match r with
  | Ok (BeginLease l) => mine l /\ next_index l = Z.of_nat k /\ receipts l = fst (effects (take k items) a0)
  | Ok (BeginReplay rs) => k = length items /\ rs = fst (effects (take k items) a0)
  | _ => True
  end.
Proof.
  intros Hcur Hspec. destruct Hspec as [r Hr|e -> Hst Ht|e e' r -> Hx E1 E2 E3 E4 E5 Hr|fp token until r e -> Hr].
  - split; [done|]. by repeat case_match.
  - split; [done|]. split; apply Hcur. done.
  - destruct Hcur as [F1 F2 F3 F4 F5]. split.
    + split; [congruence|congruence|congruence| |].
      * rewrite E4. intros Hc'. by rewrite Hc' in Hx.
      * by rewrite E5.
    + destruct Hr as [->|[x ->]]; [|done]. cbn. split_and!; [done|congruence|congruence].
  - subst k. split; [split; cbn; try done; pose proof (effects_length [] a0); done|].
    destruct Hr as [->|[x ->]]; [|done]. by split_and!.
Qed.

Lemma begin_inv k fp w r w' : inv_at k w.1 ->
  _begin policy ns bid fp (Z.of_nat (length items)) w = (r, w') ->
  exists k', inv_at k' w'.1 /\
  match r with
  | Ok (BeginLease l) => mine l /\ next_index l = Z.of_nat k' /\ receipts l = fst (effects (take k' items) a0)
  | Ok (BeginReplay rs) => k' = length items /\ rs = fst (effects (take k' items) a0)
  | _ => True
  end.
Proof.
  intros Hinv Hrun. unfold _begin in Hrun. unfold bind in Hrun.
  destruct (clock_now w) as [[now|x] w1] eqn:Hc; cycle 1.
  { inversion Hrun; subst. apply clock_raises in Hc as ->. eauto. }
  apply clock_ok in Hc as [Hdb Hnow]. apply zoom_run in Hrun as (s & Hbeg & ->).
  cbn in Hbeg. rewrite Hdb in Hbeg. cbn. rewrite Hdb.
  pose proof Hinv as [K1 K2 K3 K4 K5 K6].
  apply begin_runs in Hbeg as [Hwf Hspec]; [|done|]; cycle 1.
  { intros e He. rewrite He in K2. unfold terminal_expired. cbn. destruct (retention_expires_at e) as [u|] eqn:Hu; [|apply andb_false_r].
    apply (entry_retained _ _ K2) in Hu. rewrite (proj2 (dt_leb_gt _ _)) by lia. apply andb_false_r. }
  exists k. apply (begin_spec_ok k) in Hspec as [Hout Hr]; [|done]. split; [|done].
  split; cbn; done.
Qed.

(** What an answer of the coordinator tells about the database. *)
Definition answer_ok (r : result exn (BatchResult T)) d : Prop :=
  match r with
  | Ok (BatchCommitted rs) | Ok (BatchReplay rs) | Ok (BatchItemsCommittedEnvelopeUnconfirmed rs) =>
      inv_at (length items) d /\ same_results rs (length items)
  | _ => exists k, inv_at k d
  end.

Lemma all_or_nothing_inv k fp w r w' : inv_at k w.1 ->
  all_or_nothing_body rfc8785 sha256_hexdigest alias policy mutate ns bid fp items w = (Ok r, w') ->
  answer_ok (Ok r) w'.1.
Proof.
  intros Hinv Hrun. unfold all_or_nothing_body in Hrun.
  apply bind_ok in Hrun as (dec & w1 & Hb%embed_ok & Hrun).
  apply (begin_inv k) in Hb as (k1 & Hinv1 & Hdec); [|done].
  destruct dec as [l|rs| | |]; cbn in Hrun; [|steps Hrun..|steps Hrun|steps Hrun]; cycle 1.
  { cbn. destruct Hdec as [-> ->]. split; [done|]. apply same_results_effects. }
  destruct Hdec as (Hm & Hn & Hrec). apply bind_ok in Hrun as ([l1 proven] & w2 & Hp & Hrun).
  eapply prove_prefix_inv in Hp as (Hinv2 & Hm1 & Hn1 & Hsame); [|done..].
  apply bind_ok in Hrun as ([l2 rsv] & w3 & Hrs & Hrun). rewrite Hn1, Nat2Z.id in Hrs.
  eapply reserve_loop_inv in Hrs as (Hinv3 & Hm2 & Hn2 & Hr2 & Hl2); [|done..|constructor|]; cycle 1.
  { intros i Hi. apply list_elem_of_lookup in Hi as (j & Hj). exists (k1 + j)%nat. split; [lia|].
    by rewrite lookup_drop in Hj. }
  apply bind_ok in Hrun as ([l3 out] & w4 & Happ & Hrun).
  eapply apply_loop_inv in Happ as (Hinv4 & Hm3 & Hs3); [|done..].
  apply bind_ok in Hrun as (fin & w5 & Hfin%embed_ok & Hrun).
  eapply finish_inv in Hfin as [Hinv5 _]; [|done..]. destruct fin; steps Hrun. by split.
Qed.

Lemma run_all_or_nothing k fp w : inv_at k w.1 ->
  let out := _all_or_nothing rfc8785 sha256_hexdigest alias policy mutate ns bid fp items w in
  answer_ok out.1 out.2.1.
Proof.
  intros Hinv. unfold _all_or_nothing, catch. rewrite database_atomic.
  destruct (all_or_nothing_body _ _ _ _ _ _ _ _ _ w) as [[r|[x|early]] w'] eqn:Hrun; cbn.
  - by eapply all_or_nothing_inv.
  - eauto.
  - destruct early; cbn; eauto.
Qed.

Lemma apply_item_inv k w l i l' receipt w' :
  inv_at k w.1 -> mine l -> items !! k = Some i ->
  _apply_item rfc8785 sha256_hexdigest alias policy mutate l bid i ns w = (Ok (l', receipt), w') ->
  inv_at (S k) w'.1 /\ mine l' /\ next_index l' = Z.of_nat (S k) /\
  set_replayed false receipt = mkItemReceipt (item_id i) (fst (effect i (snd (effects (take k items) a0)))) false.
Proof.
  intros Hinv Hm Hi Hrun. unfold _apply_item in Hrun.
  apply bind_ok in Hrun as (l1 & w1 & Hren & Hrun).
  apply renew_batch_inv with (k := k) in Hren as (Hinv1 & Hm1 & _ & Hn1 & _ & _); [|done|done].
  apply bind_ok in Hrun as (dec & w2 & Hres%embed_ok & Hrun).
  apply reserve_item_inv with (k := k) in Hres as (Hinv2 & _ & _ & Hrep & Hex); [|done].
  destruct dec as [t|v| | |]; cbn [_item_decision] in Hrun; [| |steps Hrun..].
  - eapply apply_reserved_inv with (rs := []) in Hrun as (_ & H1 & H2 & H3 & _ & H4); try done.
    + by apply Hex.
    + constructor.
  - exfalso. eapply (at_undone _ _ Hinv1 k i); eauto.
Qed.

(** A failed transaction leaves the database as it was. *)
Lemma atomic_catch {X} (m : M (exn + BatchFailure) W X) w :
  catch (let! x := atomic m in ret (inr x)) (fun failure => ret (inl failure)) w =
    match m w with
    | (Ok x, w') => (Ok (inr x), w')
    | (Raise (inl e), w') => (Raise e, (w.1, w'.2))
    | (Raise (inr f), w') => (Ok (inl f), (w.1, w'.2))
    end.
Proof. unfold catch, bind. rewrite database_atomic. by destruct (m w) as [[x|[e|f]] w']. Qed.

Lemma per_item_loop_inv rest : forall k w l done r w', inv_at k w.1 -> mine l -> drop k items = rest ->
  same_results done k ->
  per_item_loop rfc8785 sha256_hexdigest alias policy mutate ns bid rest l done w = (r, w') ->
  match r with
  | Ok (inr (l', done')) => inv_at (length items) w'.1 /\ mine l' /\ same_results done' (length items)
  | _ => exists k', inv_at k' w'.1
  end.
Proof.
  induction rest as [|i rest IH]; intros k w l done r w' Hinv Hm Hk Hd Hrun; cbn [per_item_loop] in Hrun.
  { assert (length (drop k items) = 0%nat) as Hl by (by rewrite Hk). rewrite length_drop in Hl.
    pose proof (at_bound _ _ Hinv). inversion Hrun; subst. by replace (length items) with k by lia. }
  apply drop_head in Hk as [Hi Hk]. unfold bind at 1 in Hrun. rewrite atomic_catch in Hrun.
  destruct (_apply_item _ _ _ _ _ _ _ _ _ w) as [[[l1 receipt]|[x|f]] w1] eqn:Hitem;
    [|inversion Hrun; subst; cbn; eauto..].
  eapply apply_item_inv in Hitem as (Hinv1 & Hm1 & _ & Hr); [|done..].
  eapply (IH (S k)); [..|exact Hrun]; try done. by eapply same_results_snoc.
Qed.

Lemma failure_answer k f d : inv_at k d -> answer_ok (Ok (failure_result f)) d.
Proof. destruct f; cbn; eauto. Qed.

Lemma run_per_item k fp w r w' : inv_at k w.1 ->
  _per_item rfc8785 sha256_hexdigest alias policy mutate ns bid fp items w = (r, w') -> answer_ok r w'.1.
Proof.
  intros Hinv Hrun. unfold _per_item in Hrun. unfold bind at 1 in Hrun.
  destruct (_begin policy ns bid fp (Z.of_nat (length items)) w) as [b w1] eqn:Hb.
  apply (begin_inv k) in Hb as (k1 & Hinv1 & Hdec); [|done].
  destruct b as [dec|x]; [|inversion Hrun; subst; cbn; eauto].
  destruct dec as [l|rs| | |]; cbn [_batch_decision] in Hrun; [|inversion Hrun; subst; cbn; eauto..].
  2:{ destruct Hdec as [-> ->]. split; [done|]. apply same_results_effects. }
  destruct Hdec as (Hm & Hn & Hrec). unfold bind at 1 in Hrun. rewrite atomic_catch in Hrun.
  destruct (_prove_prefix _ _ _ _ _ w1) as [[[l1 proven]|[x|f]] w2] eqn:Hp;
    [|inversion Hrun; subst; cbn; eauto|inversion Hrun; subst; by eapply failure_answer].
  eapply prove_prefix_inv in Hp as (Hinv2 & Hm1 & Hn1 & Hsame); [|done..].
  unfold bind at 1 in Hrun. rewrite Hn1, Nat2Z.id in Hrun.
  destruct (per_item_loop _ _ _ _ _ _ _ _ _ _ w2) as [o w3] eqn:Hloop.
  eapply per_item_loop_inv in Hloop; [|done..].
  destruct o as [[f|[l3 done3]]|x].
  - destruct Hloop as [k3 Hinv3]. inversion Hrun; subst. by eapply failure_answer.
  - destruct Hloop as (Hinv3 & Hm3 & Hs3). unfold bind in Hrun. rewrite database_atomic in Hrun.
    destruct (_finish policy l3 w3) as [[fin|x] w4] eqn:Hfin; [|inversion Hrun; subst; cbn; eauto].
    eapply finish_inv in Hfin as [Hinv4 _]; [|done..]. inversion Hrun; subst. by destruct fin.
  - inversion Hrun; subst. done.
Qed.

Lemma execute_inv k p w r w' : inv_at k w.1 ->
  execute rfc8785 sha256_hexdigest limits alias policy mutate ns bid items p w = (r, w') -> answer_ok r w'.1.
Proof.
  intros Hinv Hrun. unfold execute, bind at 1, raise_if at 1 in Hrun.
  destruct (str_empty bid || str_empty ns); [inversion Hrun; subst; cbn; eauto|]. unfold bind at 1 in Hrun.
  destruct (_validate_items _ _ items w) as [v w1] eqn:Hv.
  assert (w1 = w) as -> by (unfold _validate_items in Hv; by run Hv).
  destruct v as [[]|x]; [|inversion Hrun; subst; cbn; eauto]. unfold bind at 1, lift at 1 in Hrun.
  destruct (_fingerprint _ _ _) as [fp|x]; [|inversion Hrun; subst; cbn; eauto].
  destruct p; [|by eapply run_per_item].
  pose proof (run_all_or_nothing k fp w Hinv) as Ha. by rewrite Hrun in Ha.
Qed.
End Attempt.

(** *** Histories of attempts *)

(** An attempt: the policy, the mutation with its faults and the clock with its faults. A
    fault between two transactions is a clock that raises. *)
Record attempt := mkAttempt {
  attempt_policy : BatchPolicy;
  attempt_body : BatchItem -> M exn A T;
  attempt_clk : M exn C datetime
}.

(** The mutation performs the effect of its item or raises, and the clock stays in the window. *)
Definition sound (a : attempt) : Prop :=
  (forall i x v x', attempt_body a i x = (Ok v, x') -> (v, x') = effect i x) /\
  (forall c t c', attempt_clk a c = (Ok t, c') -> lo <= dt_instant t < hi).

Definition run_attempt (a : attempt) (w : W) : result exn (BatchResult T) * W :=
  execute (Clock0 := attempt_clock (attempt_clk a)) rfc8785 sha256_hexdigest limits alias policy
    (mutate (attempt_body a)) ns bid items (attempt_policy a) w.

(** The batch was never begun and none of its items is on record. *)
Record unstarted d : Prop := {
  unstarted_batch : d_get (ns, bid) (Batches.entries (batches d)) = None;
  unstarted_items : forall i, i ∈ items -> ~ item_done (item_store d) (item_ident i);
  unstarted_app : app d = a0;
  unstarted_wf : d_wf (Batches.entries (batches d));
  unstarted_inv : store_inv (item_store d)
}.

(** The number of items the batch store reports as committed. *)
Definition progress d : nat :=
  match d_get (ns, bid) (Batches.entries (batches d)) with
  | Some e => Z.to_nat (stored_next e)
  | None => 0%nat
  end.

Lemma unstarted_inv_at d : unstarted d -> inv_at 0 d.
Proof.
  intros [H1 H2 H3 H4 H5]. split; try done; [lia|by rewrite H1|].
  intros j i Hj _. apply H2. by eapply list_elem_of_lookup_2.
Qed.

Lemma inv_at_progress k d : inv_at k d -> progress d = k.
Proof.
  intros Hinv. unfold progress. pose proof (at_entry _ _ Hinv) as He.
  destruct (d_get _ _) as [e|]; [|done]. rewrite (entry_next _ _ He). lia.
Qed.

Lemma attempts_inv attempts w k : Forall sound attempts -> inv_at k w.1 ->
  exists k', inv_at k' (fold_left (fun w a => snd (run_attempt a w)) attempts w).1.
Proof.
  intros Hall. revert w k. induction Hall as [|a l [Hb Hc] _ IH]; intros w k Hinv; [by exists k|].
  cbn [fold_left]. destruct (run_attempt a w) as [r w1] eqn:Hrun. cbn [snd].
  assert (answer_ok r w1.1) as Ha by (eapply execute_inv; [exact Hc|exact Hb|exact Hinv|exact Hrun]).
  assert (exists k', inv_at k' w1.1) as [k' Hk']; [|by eapply IH].
  destruct r as [[]|x]; cbn in Ha; destruct_and?; eauto.
Qed.

(** C15. Mutation batches commit every item exactly once. Take a batch that was not begun and
    any number of attempts to execute it, under either policy, whose mutations may raise at
    any item, whose clock may fail between any two calls and whose leases may expire and be
    taken over in between, all within one retention window of the results. After any such
    history the state is the effect of exactly the first [k] items in order, each applied
    once, where [k] is the progress the batch store reports; and an attempt that answers
    [BatchCommitted], [BatchReplay] or [BatchItemsCommittedEnvelopeUnconfirmed] leaves the
    effect of all items and returns their results in order. *)
Theorem batch_exactly_once attempts a w0 :
  unstarted w0.1 -> Forall sound attempts -> sound a ->
  let w := fold_left (fun w a => snd (run_attempt a w)) attempts w0 in
  (progress w.1 <= length items)%nat /\
  app w.1 = snd (effects (take (progress w.1) items) a0) /\
  match run_attempt a w with
  | (Ok (BatchCommitted rs), w') | (Ok (BatchReplay rs), w')
  | (Ok (BatchItemsCommittedEnvelopeUnconfirmed rs), w') =>
      app w'.1 = snd (effects items a0) /\ map (set_replayed false) rs = fst (effects items a0)
  | _ => True
  end.
Proof.
  intros Hw Hall [Hb Hc] w. apply unstarted_inv_at in Hw.
  destruct (attempts_inv attempts w0 0 Hall Hw) as [k Hk]. fold w in Hk.
  rewrite (inv_at_progress _ _ Hk). split_and!; [apply Hk..|].
  destruct (run_attempt a w) as [r w'] eqn:Hrun.
  assert (answer_ok r w'.1) as Ha by (eapply execute_inv; [exact Hc|exact Hb|exact Hk|exact Hrun]).
  assert (forall rs, inv_at (length items) w'.1 /\ same_results rs (length items) ->
    app w'.1 = snd (effects items a0) /\ map (set_replayed false) rs = fst (effects items a0)) as Hdone.
  { intros rs [Hi Hs]. rewrite (at_app _ _ Hi). unfold same_results in Hs. by rewrite firstn_all in Hs |- *. }
  destruct r as [[]|x]; auto.
Qed.
End ExactlyOnce.

(** ** A concrete history *)

Section Sample.
#[local] Existing Instance unary_uuid.
#[local] Existing Instance usual_recursion.
#[local] Instance sample_atomic : Atomic (database Z (list Z) * Z) := rollback_atomic.

Definition sample_items : list BatchItem := [mkItem "a" (JInt 5); mkItem "b" (JInt 7)].
Definition sample_policy : IdempotencyPolicy := mkPolicy (seconds 60) (hours 2) (hours 2).
Definition sample_effect (i : BatchItem) (log : list Z) : Z * list Z :=
  match payload i with JInt n => (n * 10, log ++ [n]) | _ => (0, log) end.

(** A mutation that may refuse an item, and a clock that starts late and ticks. *)
Definition sample_body (refused : pystr) (i : BatchItem) : M exn (list Z) Z := fun log =>
  if bool_decide (item_id i = refused) then (Raise (RuntimeError "worker lost"), log)
  else let (v, log') := sample_effect i log in (Ok v, log').
Definition sample_clock (start : Z) : M exn Z datetime := fun c =>
  let t := start + c in
  if (0 <=? t) && (t <? hours 1) then (Ok (utc t), c + seconds 1) else (Raise (RuntimeError "clock"), c).

Definition sample_world : database Z (list Z) * Z :=
  (mkDatabase (Batches.mkStore 10 [] [] 0) (Idempotency.mkStore 10 [] [] 0) [], 0).
Definition sample_run (a : attempt) :=
  run_attempt (T := Z) (A := list Z) (C := Z) (Some (canonical_json_bytes (fun _ => "0"%py))) PyStr BatchLimits_default
    "default" sample_policy "sync" "batch" sample_items a.

(** The first worker is lost at the second item, the second one takes the batch over. *)
Definition lost : attempt := mkAttempt PER_ITEM (sample_body "b") (sample_clock 0).
Definition takeover : attempt := mkAttempt PER_ITEM (sample_body "") (sample_clock (minutes 5)).

Lemma sample_sound refused start pol :
  sound sample_effect 0 (hours 1) (mkAttempt pol (sample_body refused) (sample_clock start)).
Proof.
  split.
  - intros i x v x' Hrun. cbn in Hrun. unfold sample_body in Hrun. case_bool_decide; [done|].
    destruct (sample_effect i x). congruence.
  - intros c t c' Hrun. cbn in Hrun. unfold sample_clock in Hrun. case_match eqn:E; [|done].
    injection Hrun as <- <-. time_facts. rewrite dt_instant_utc. lia.
Qed.

Lemma batch_exactly_once_witness :
  let w := fold_left (fun w a => snd (sample_run a w)) [lost] sample_world in
  fst (sample_run takeover w) =
    Ok (BatchCommitted [mkItemReceipt "a" 50 true; mkItemReceipt "b" 70 false]) /\
  app w.1 = [5] /\ app (snd (sample_run takeover w)).1 = [5; 7] /\
  match sample_run takeover w with
  | (Ok (BatchCommitted rs), w') | (Ok (BatchReplay rs), w')
  | (Ok (BatchItemsCommittedEnvelopeUnconfirmed rs), w') =>
      app w'.1 = snd (effects sample_effect sample_items []) /\
      map (set_replayed false) rs = fst (effects sample_effect sample_items [])
  | _ => True
  end.
Proof.
  intros w. split_and!; [vm_compute; reflexivity..|].
  unshelve edestruct (batch_exactly_once (T := Z) (A := list Z) (C := Z) (H0 := unary_uuid_laws)
    (DatabaseAtomic0 := rollback_atomic_laws)
    (Some (canonical_json_bytes (fun _ => "0"%py))) PyStr BatchLimits_default "default" sample_policy "sync" "batch"
    sample_items sample_effect [] 0 (hours 1)) with (attempts := [lost]) (a := takeover) (w0 := sample_world)
    as (_ & _ & Hanswer).
  - vm_compute. discriminate.
  - refine (bool_decide_eq_true_1 _ _). vm_compute. reflexivity.
  - split; [done| |done|constructor|by apply inv_initial]. intros i _ (e & He & _). done.
  - constructor; [apply sample_sound|constructor].
  - apply sample_sound.
  - exact Hanswer.
Defined.

(** The batch of a lost worker whose item receipts are gone: the retry is answered
    [BatchUncertain], but the transaction that marked the batch uncertain was rolled back
    with the answer, so the stored batch is still executing. *)
Lemma unprovable_prefix_not_recorded :
  let w := snd (sample_run lost sample_world) in
  let forgotten := (mkDatabase (batches w.1) (Idempotency.mkStore 10 [] [] 0) (app w.1), w.2) in
  let out := sample_run takeover forgotten in
  fst out = Ok (BatchUncertain (Some "a"%py) prefix_reason) /\
  stored_state <$> d_get ("sync", "batch")%py (Batches.entries (batches out.2.1)) = Some PARTIALLY_COMMITTED.
Proof. split; vm_compute; reflexivity. Qed.

(** The conformance harness on the reference store, at a concrete instant. *)
Example batch_harness_runs :
  fst (Batches.exercise (W := Batches.store Z) (fun _ => "0"%py) PyStr 7 (utc 1000) (Batches.mkStore 10 [] [] 0)) = Ok tt.
Proof. vm_compute. reflexivity. Qed.
End Sample.
