(* ===== verification/Database.v ===== *)
(** * The database a model-backed store relies on

    The statements the Django stores issue for one model with a unique key, as an interface:
    [Orm] has one operation per statement, [Atomic] is [transaction.atomic], and [OrmLaws]
    states what PostgreSQL documents of them under Read Committed isolation: before each
    statement other transactions may commit, and they leave the rows this one has locked;
    what this one wrote is its own until it commits. [wp] is the reasoning about runs of such
    statements. [DatabaseModel] has
    a concrete database on which the laws hold. *)
From Stdlib Require Import ZArith Lia.
From stdpp Require Import base list gmap relations.
From S2P Require Import Prelude.

(** ** The statements *)

Definition IntegrityError : exn := OtherError "IntegrityError" "duplicate key value violates unique constraint".

(** [except IntegrityError]. *)
Definition is_integrity_error (e : exn) : bool := bool_decide (exn_name e = "IntegrityError"%py).

Class Orm (K R W : Type) `{Countable K} := {
  (** The rows this transaction sees, by their unique key. *)
  rows : W -> gmap K R;
  (** [objects.using(alias).filter( **key ).first()], and with [select_for_update()]. *)
  first : K -> M exn W (option R);
  locked_first : K -> M exn W (option R);
  (** [objects.create( **key, **row )]. *)
  create : K -> R -> M exn W R;
  (** [row.save(update_fields=...)] of the row with the key, and [row.delete()]. *)
  save : K -> (R -> R) -> M exn W unit;
  delete_row : K -> M exn W unit;
  (** [filter(p).update(f)] and [filter(p).delete()]: the number of rows. *)
  update_where : (K -> R -> bool) -> (R -> R) -> M exn W Z;
  delete_where : (K -> R -> bool) -> M exn W Z;
  (** [list(select_for_update(skip_locked=True).filter(p).order_by(key)[:limit])]. *)
  locked_query : (K -> R -> bool) -> (K * R -> K * R -> bool) -> Z -> M exn W (list (K * R))
}.

(** [uuid.uuid4().hex]. *)
Class Uuid (W : Type) := uuid4 : M exn W pystr.

(** [clock_timestamp()], the database's clock when a statement reads it. *)
Class DatabaseClock (W : Type) := clock_timestamp : M exn W datetime.
(** [greatest(a, b)]. *)
Definition greatest (a b : datetime) : datetime := if dt_ltb a b then b else a.

(** The stores' helper on top: a row, or the row that already has the key. *)
Section Helpers.
Context {K R W : Type} `{Countable K} `{!Orm K R W, !Atomic W}.

Definition _locked_first (lookup : K) : M exn W (option R) := locked_first lookup.

Definition _create_or_locked (lookup : K) (defaults : R) : M exn W (R * bool) :=
  atomic (try_except
    (atomic (let! row := create lookup defaults in ret (row, true)))
    (fun e =>
      if is_integrity_error e
      then
        let! row := _locked_first lookup in
        match row with None => raise e | Some row => ret (row, false) end
      else raise e)).
End Helpers.

(** ** What the statements do *)

Section Orders.
Context {K R : Type} `{Countable K}.

(** Rows sorted as [order_by] returns them. *)
Fixpoint insert_by (le : K * R -> K * R -> bool) (x : K * R) (l : list (K * R)) : list (K * R) :=
  match l with
  | [] => [x]
  | y :: l' => if le x y then x :: l else y :: insert_by le x l'
  end.
Definition order_by (le : K * R -> K * R -> bool) (l : list (K * R)) : list (K * R) := foldr (insert_by le) [] l.

(** The rows a filter selects, and the rows after an update of them. *)
Definition matching (p : K -> R -> bool) (T : gmap K R) : gmap K R := filter (fun kr => p kr.1 kr.2 = true) T.
Definition updated (p : K -> R -> bool) (f : R -> R) (T : gmap K R) : gmap K R := map_imap (fun k r => Some (if p k r then f r else r)) T.

Lemma insert_by_perm le x l : insert_by le x l ≡ₚ x :: l.
Proof. induction l as [|y l IH]; cbn; [done|]. destruct (le x y); [done|]. rewrite IH. constructor. Qed.
Lemma order_by_perm le l : order_by le l ≡ₚ l.
Proof. induction l as [|x l IH]; cbn; [done|]. by rewrite insert_by_perm, IH. Qed.

Lemma matching_lookup p T k r : matching p T !! k = Some r <-> T !! k = Some r /\ p k r = true.
Proof. unfold matching. by rewrite map_lookup_filter_Some. Qed.
Lemma updated_lookup p f T k : updated p f T !! k = (fun r => if p k r then f r else r) <$> T !! k.
Proof. unfold updated. rewrite map_lookup_imap. by destruct (T !! k). Qed.
Lemma deleted_lookup p T k : (T ∖ matching p T) !! k = match T !! k with Some r => if p k r then None else Some r | None => None end.
Proof.
  rewrite lookup_difference. destruct (matching p T !! k) as [r|] eqn:Hm.
  - apply matching_lookup in Hm as [-> ->]. done.
  - destruct (T !! k) as [r|] eqn:Hk; [|done]. destruct (p k r) eqn:Hp; [|done].
    exfalso. assert (matching p T !! k = Some r) by (by apply matching_lookup). congruence.
Qed.

(** What a query with a limit returns: distinct rows the filter selects. *)
Lemma taken_rows n le p T l : l = take n (order_by le (map_to_list (matching p T))) ->
  NoDup l.*1 /\ forall kr, kr ∈ l -> T !! kr.1 = Some kr.2 /\ p kr.1 kr.2 = true.
Proof.
  intros ->. pose proof (order_by_perm le (map_to_list (matching p T))) as Hp. split.
  - rewrite fmap_take. eapply sublist_NoDup; [|apply sublist_take]. rewrite Hp. apply NoDup_fst_map_to_list.
  - intros [k r] Hkr. apply elem_of_take in Hkr as (j & Hj & _). apply list_elem_of_lookup_2 in Hj. rewrite Hp in Hj.
    by apply elem_of_map_to_list, matching_lookup in Hj.
Qed.
End Orders.

(** A transaction: the rows the others see, the keys it holds locks of, the depth of its
    [atomic] blocks, and the errors the database itself may raise. *)
Class Session (K R W : Type) `{Countable K} := {
  base : W -> gmap K R;
  held : W -> gset K;
  nesting : W -> nat;
  failure : exn -> Prop
}.

Section Laws.
Context {K R W : Type} `{Countable K} `{!Orm K R W, !Session K R W, !Atomic W}.
(** How the rows change when another transaction commits. *)
Variable rely : relation (gmap K R).

(** Others may have committed and this transaction may have locked more rows; the rows it had
    locked are as they were, and it sees what the others committed where it wrote nothing. *)
Record sees (w w1 : W) : Prop := {
  sees_base : rtc rely (base w) (base w1);
  sees_held : held w ⊆ held w1;
  sees_locked : forall k, k ∈ held w -> base w1 !! k = base w !! k /\ rows w1 !! k = rows w !! k;
  sees_clean : forall k, rows w !! k = base w !! k -> rows w1 !! k = base w1 !! k
}.
Definition follows (w w1 : W) : Prop := sees w w1 /\ nesting w1 = nesting w.

(** A statement that wrote: the rows are [T], committed at once outside of a block; the locks
    are kept. *)
Record wrote (w1 : W) (T : gmap K R) (w2 : W) : Prop := {
  wrote_rows : rows w2 = T;
  wrote_base : base w2 = if bool_decide (nesting w1 = 0%nat) then T else base w1;
  wrote_held : held w1 ⊆ held w2;
  wrote_nesting : nesting w2 = nesting w1
}.

(** The statement answers [Ok] as described, or fails and writes nothing. *)
Definition answers {A} (run : result exn A * W) (w1 : W) (ok : A -> W -> Prop) : Prop :=
  match run with (Ok a, w2) => ok a w2 | (Raise e, w2) => failure e /\ w2 = w1 end.

(** A block is entered with nothing changed but its depth. *)
Record entered (w w0 : W) : Prop := {
  entered_rows : rows w0 = rows w;
  entered_base : base w0 = base w;
  entered_held : held w0 = held w;
  entered_nesting : nesting w0 = S (nesting w)
}.
(** A block that ended normally keeps its writes: it commits them when no block encloses it,
    else it keeps its locks as well. *)
Record left_block (w w1 w2 : W) : Prop := {
  left_rows : rows w2 = rows w1;
  left_base : base w2 = if bool_decide (nesting w = 0%nat) then rows w1 else base w1;
  left_nesting : nesting w2 = nesting w;
  left_held : nesting w <> 0%nat -> held w2 = held w1
}.

Class OrmLaws : Prop := {
  (** Locks are held by transactions, and what is written is locked. *)
  run_unlocked : forall w, nesting w = 0%nat -> held w = ∅;
  run_clean : forall w k, k ∉ held w -> rows w !! k = base w !! k;
  failure_not_integrity : forall e, failure e -> is_integrity_error e = false;
  run_first : forall k w, exists w1, follows w w1 /\ answers (first k w) w1 (fun a w2 => a = rows w1 !! k /\ w2 = w1);
  run_locked_first : forall k w, exists w1, follows w w1 /\
    answers (locked_first k w) w1 (fun a w2 => a = rows w1 !! k /\ w2 = w1 /\ (nesting w <> 0%nat -> is_Some a -> k ∈ held w1));
  run_create : forall k r w, exists w1, follows w w1 /\
    ((is_Some (rows w1 !! k) /\ create k r w = (Raise IntegrityError, w1)) \/
     answers (create k r w) w1 (fun a w2 => a = r /\ rows w1 !! k = None /\ wrote w1 (<[k := r]> (rows w1)) w2));
  run_save : forall k f r w, k ∈ held w -> rows w !! k = Some r -> exists w1, follows w w1 /\
    answers (save k f w) w1 (fun _ w2 => wrote w1 (<[k := f r]> (rows w1)) w2);
  run_delete_row : forall k r w, k ∈ held w -> rows w !! k = Some r -> exists w1, follows w w1 /\
    answers (delete_row k w) w1 (fun _ w2 => wrote w1 (delete k (rows w1)) w2);
  run_update_where : forall p f w, exists w1, follows w w1 /\
    answers (update_where p f w) w1 (fun n w2 => n = Z.of_nat (size (matching p (rows w1))) /\ wrote w1 (updated p f (rows w1)) w2);
  run_delete_where : forall p w, exists w1, follows w w1 /\
    answers (delete_where p w) w1 (fun n w2 => n = Z.of_nat (size (matching p (rows w1))) /\ wrote w1 (rows w1 ∖ matching p (rows w1)) w2);
  (** Rows another transaction has locked are skipped. *)
  run_locked_query : forall p le limit w, exists w1, follows w w1 /\
    answers (locked_query p le limit w) w1 (fun l w2 => w2 = w1 /\ (nesting w <> 0%nat -> forall k, k ∈ l.*1 -> k ∈ held w1) /\
      exists skipped : K -> bool, l = take (Z.to_nat limit) (order_by le (map_to_list (matching (fun k r => p k r && negb (skipped k)) (rows w1)))));
  (** A block that raises is undone. *)
  run_atomic : forall E A (m : M E W A) w, exists w0, entered w w0 /\
    match m w0 with
    | (Ok a, w1) => exists w2, atomic m w = (Ok a, w2) /\ left_block w w1 w2
    | (Raise e, _) => exists w2, atomic m w = (Raise e, w2) /\ follows w w2
    end
}.

(** A draw is not empty and touches no row. *)
Class UuidLaws `{!Uuid W} : Prop := run_uuid4 : forall w, exists token w1, uuid4 w = (Ok token, w1) /\ str_empty token = false /\
  rows w1 = rows w /\ base w1 = base w /\ held w1 = held w /\ nesting w1 = nesting w.

(** Reading the clock touches no row. *)
Class DatabaseClockLaws `{!DatabaseClock W} : Prop := run_clock_timestamp : forall w, exists t w1, clock_timestamp w = (Ok t, w1) /\
  rows w1 = rows w /\ base w1 = base w /\ held w1 = held w /\ nesting w1 = nesting w.

Lemma sees_refl w : sees w w.
Proof. by split. Qed.
Lemma sees_trans w1 w2 w3 : sees w1 w2 -> sees w2 w3 -> sees w1 w3.
Proof.
  intros [H1 H2 H3 H4] [G1 G2 G3 G4]. split; [by etrans|set_solver| |auto].
  intros k Hk. destruct (H3 k Hk), (G3 k ltac:(set_solver)). split; congruence.
Qed.
Lemma same_sees w w1 : rows w1 = rows w -> base w1 = base w -> held w1 = held w -> sees w w1.
Proof. intros Hr Hb Hh. split; rewrite ?Hr, ?Hb, ?Hh; done. Qed.
Lemma follows_refl w : follows w w.
Proof. split; [apply sees_refl|done]. Qed.
Lemma follows_trans w1 w2 w3 : follows w1 w2 -> follows w2 w3 -> follows w1 w3.
Proof. intros [H1 H2] [G1 G2]. split; [by eapply sees_trans|congruence]. Qed.
Lemma entered_sees w w0 : entered w w0 -> sees w w0.
Proof. intros []. by apply same_sees. Qed.
End Laws.

(** ** Reasoning about runs *)

Section Wp.
Context {K R W : Type} `{Countable K} `{!Orm K R W, !Session K R W, !Atomic W}.
Context (rely : relation (gmap K R)) `{!OrmLaws rely}.

(** Where a run ends: normally in [Q], or with an exception in [X]. *)
Definition wp {E A} (m : M E W A) (w : W) (Q : A -> W -> Prop) (X : E -> W -> Prop) : Prop :=
  match m w with (Ok a, w') => Q a w' | (Raise e, w') => X e w' end.

Lemma db_bind {E A B} (m : M E W A) (f : A -> M E W B) w Q X :
  wp m w (fun a w' => wp (f a) w' Q X) X -> wp (bind m f) w Q X.
Proof. unfold wp, bind. by destruct (m w) as [[a|e] w']. Qed.
Lemma wp_assoc {E A B C} (m : M E W A) (f : A -> M E W B) (g : B -> M E W C) w Q X :
  wp (bind (bind m f) g) w Q X -> wp (bind m (fun a => bind (f a) g)) w Q X.
Proof. unfold wp. by rewrite bind_assoc. Qed.
Lemma wp_ret {E A} (a : A) w (Q : A -> W -> Prop) (X : E -> W -> Prop) : Q a w -> wp (ret a) w Q X.
Proof. done. Qed.
Lemma db_raise {E A} e w (Q : A -> W -> Prop) (X : E -> W -> Prop) : X e w -> wp (raise e) w Q X.
Proof. done. Qed.
Lemma wp_lift {A} (r : result exn A) w (Q : A -> W -> Prop) (X : exn -> W -> Prop) :
  (forall a, r = Ok a -> Q a w) -> (forall e, r = Raise e -> X e w) -> wp (lift r) w Q X.
Proof. unfold wp, lift. destruct r; auto. Qed.
Lemma db_raise_if b e w (Q : unit -> W -> Prop) (X : exn -> W -> Prop) :
  (b = false -> Q tt w) -> (b = true -> X e w) -> wp (raise_if b e) w Q X.
Proof. unfold wp, raise_if. destruct b; auto. Qed.
Lemma db_mono {E A} (m : M E W A) w (Q Q' : A -> W -> Prop) (X X' : E -> W -> Prop) :
  wp m w Q X -> (forall a w', Q a w' -> Q' a w') -> (forall e w', X e w' -> X' e w') -> wp m w Q' X'.
Proof. unfold wp. destruct (m w) as [[a|e] w']; auto. Qed.
Lemma wp_embed {C A} (m : M exn W A) w (Q : A -> W -> Prop) (X : exn + C -> W -> Prop) :
  wp m w Q (fun e w' => X (inl e) w') -> wp (embed m) w Q X.
Proof. unfold wp, embed. by destruct (m w) as [[a|e] w']. Qed.
Lemma wp_catch {C A} (m : M (exn + C) W A) h w (Q : A -> W -> Prop) (X : exn -> W -> Prop) :
  wp m w Q (fun r w' => match r with inl e => X e w' | inr c => wp (h c) w' Q X end) -> wp (catch m h) w Q X.
Proof. unfold wp, catch. destruct (m w) as [[a|[e|c]] w']; done. Qed.

Lemma wp_answers {A} (m : M exn W A) w w1 (ok : A -> W -> Prop) (Q : A -> W -> Prop) (X : exn -> W -> Prop) :
  answers (m w) w1 ok -> (forall a w2, ok a w2 -> Q a w2) -> (forall e, failure e -> X e w1) -> wp m w Q X.
Proof. unfold answers, wp. destruct (m w) as [[a|e] w2]; [by auto|]. intros [? ->]; auto. Qed.

Lemma wp_first k w (Q : option R -> W -> Prop) (X : exn -> W -> Prop) :
  (forall w1, follows rely w w1 -> Q (rows w1 !! k) w1) -> (forall e w1, follows rely w w1 -> failure e -> X e w1) ->
  wp (first k) w Q X.
Proof. intros HQ HX. destruct (run_first rely k w) as (w1 & Hw & Ha). eapply wp_answers; [exact Ha| |by eauto]. intros a w2 [-> ->]. auto. Qed.

Lemma wp_locked_first k w (Q : option R -> W -> Prop) (X : exn -> W -> Prop) :
  (forall w1, follows rely w w1 -> (nesting w <> 0%nat -> is_Some (rows w1 !! k) -> k ∈ held w1) -> Q (rows w1 !! k) w1) ->
  (forall e w1, follows rely w w1 -> failure e -> X e w1) ->
  wp (_locked_first k) w Q X.
Proof.
  intros HQ HX. destruct (run_locked_first rely k w) as (w1 & Hw & Ha). eapply wp_answers; [exact Ha| |by eauto].
  intros a w2 (-> & -> & ?). auto.
Qed.

Lemma wp_save k f r w (Q : unit -> W -> Prop) (X : exn -> W -> Prop) : k ∈ held w -> rows w !! k = Some r ->
  (forall w1 w2, follows rely w w1 -> wrote w1 (<[k := f r]> (rows w1)) w2 -> Q tt w2) ->
  (forall e w1, follows rely w w1 -> failure e -> X e w1) -> wp (save k f) w Q X.
Proof.
  intros Hk Hr HQ HX. destruct (run_save rely k f r w Hk Hr) as (w1 & Hw & Ha). eapply wp_answers; [exact Ha| |by eauto]. intros [] w2 ?. eauto.
Qed.

Lemma wp_delete_row k r w (Q : unit -> W -> Prop) (X : exn -> W -> Prop) : k ∈ held w -> rows w !! k = Some r ->
  (forall w1 w2, follows rely w w1 -> wrote w1 (delete k (rows w1)) w2 -> Q tt w2) ->
  (forall e w1, follows rely w w1 -> failure e -> X e w1) -> wp (delete_row k) w Q X.
Proof.
  intros Hk Hr HQ HX. destruct (run_delete_row rely k r w Hk Hr) as (w1 & Hw & Ha). eapply wp_answers; [exact Ha| |by eauto]. intros [] w2 ?. eauto.
Qed.

Lemma wp_update_where p f w (Q : Z -> W -> Prop) (X : exn -> W -> Prop) :
  (forall w1 w2, follows rely w w1 -> wrote w1 (updated p f (rows w1)) w2 -> Q (Z.of_nat (size (matching p (rows w1)))) w2) ->
  (forall e w1, follows rely w w1 -> failure e -> X e w1) -> wp (update_where p f) w Q X.
Proof. intros HQ HX. destruct (run_update_where rely p f w) as (w1 & Hw & Ha). eapply wp_answers; [exact Ha| |by eauto]. intros a w2 [-> ?]. eauto. Qed.

Lemma wp_delete_where p w (Q : Z -> W -> Prop) (X : exn -> W -> Prop) :
  (forall w1 w2, follows rely w w1 -> wrote w1 (rows w1 ∖ matching p (rows w1)) w2 -> Q (Z.of_nat (size (matching p (rows w1)))) w2) ->
  (forall e w1, follows rely w w1 -> failure e -> X e w1) -> wp (delete_where p) w Q X.
Proof. intros HQ HX. destruct (run_delete_where rely p w) as (w1 & Hw & Ha). eapply wp_answers; [exact Ha| |by eauto]. intros a w2 [-> ?]. eauto. Qed.

Lemma wp_locked_query p le limit w (Q : list (K * R) -> W -> Prop) (X : exn -> W -> Prop) :
  (forall l w1, follows rely w w1 -> NoDup l.*1 -> (forall kr, kr ∈ l -> rows w1 !! kr.1 = Some kr.2 /\ p kr.1 kr.2 = true) ->
    (nesting w <> 0%nat -> forall k, k ∈ l.*1 -> k ∈ held w1) -> Z.of_nat (length l) <= Z.max 0 limit -> Q l w1) ->
  (forall e w1, follows rely w w1 -> failure e -> X e w1) -> wp (locked_query p le limit) w Q X.
Proof.
  intros HQ HX. destruct (run_locked_query rely p le limit w) as (w1 & Hw & Ha). eapply wp_answers; [exact Ha| |by eauto].
  intros l w2 (-> & Hlock & skipped & Hl). destruct (taken_rows _ _ _ _ _ Hl) as [Hnd Hin].
  apply HQ; [done|done| |done|rewrite Hl, length_take; lia].
  intros kr Hkr. destruct (Hin kr Hkr) as [? [? _]%andb_true_iff]. done.
Qed.

(** A block: its own run, then what it leaves or what others left. *)
Lemma wp_atomic {E A} (m : M E W A) w (Q : A -> W -> Prop) (X : E -> W -> Prop) :
  (forall w0, entered w w0 ->
    wp m w0 (fun a w1 => forall w2, left_block w w1 w2 -> Q a w2) (fun e _ => forall w2, follows rely w w2 -> X e w2)) ->
  wp (atomic m) w Q X.
Proof.
  intros Hm. destruct (run_atomic rely E A m w) as (w0 & Hw0 & Hrun). specialize (Hm w0 Hw0). unfold wp in *.
  destruct (m w0) as [[a|e] w1]; destruct Hrun as (w2 & -> & Hw2); auto.
Qed.

Lemma wp_create k r w (Q : R -> W -> Prop) (X : exn -> W -> Prop) :
  (forall w1 w2, follows rely w w1 -> rows w1 !! k = None -> wrote w1 (<[k := r]> (rows w1)) w2 -> Q r w2) ->
  (forall w1, follows rely w w1 -> is_Some (rows w1 !! k) -> X IntegrityError w1) ->
  (forall e w1, follows rely w w1 -> failure e -> X e w1) -> wp (create k r) w Q X.
Proof.
  intros HQ HI HX. destruct (run_create rely k r w) as (w1 & Hw & [[Hs Hrun]|Ha]).
  - unfold wp. rewrite Hrun. auto.
  - eapply wp_answers; [exact Ha| |by eauto]. intros a w2 (-> & ? & ?). eauto.
Qed.

Lemma wp_try_except {A} (m : M exn W A) h w (Q : A -> W -> Prop) (X : exn -> W -> Prop) :
  wp m w Q (fun e w' => wp (h e) w' Q X) -> wp (try_except m h) w Q X.
Proof. unfold wp, try_except. by destruct (m w) as [[a|e] w']. Qed.

Lemma all_clean w : nesting w = 0%nat -> rows w = base w.
Proof. intros Hn. apply map_eq. intros k. apply (run_clean rely). rewrite (run_unlocked rely w Hn). set_solver. Qed.

(** What a block read, seen from outside it. *)
Lemma left_sees w w0 w1 w2 : entered w w0 -> sees rely w0 w1 -> left_block w w1 w2 -> follows rely w w2.
Proof.
  intros He Hs [Hr Hb Hn Hh]. split; [|done]. eapply sees_trans in Hs; [|by apply entered_sees].
  destruct (decide (nesting w = 0%nat)) as [Hz|Hz].
  - rewrite bool_decide_true in Hb by done. assert (rows w1 = base w1) as Hc.
    { apply map_eq. intros k. apply (sees_clean rely w w1 Hs). by rewrite all_clean. }
    split; rewrite ?(run_unlocked rely w Hz); [rewrite Hb, Hc; apply Hs|set_solver|set_solver|intros; congruence].
  - rewrite bool_decide_false in Hb by done. destruct Hs. split; rewrite ?Hr, ?Hb, ?Hh by done; done.
Qed.

(** The row is created at an instant when its key is free, or the row that took the key is
    locked; when that row is gone again the error continues. *)
Lemma wp_create_or_locked k r w (Q : R * bool -> W -> Prop) (X : exn -> W -> Prop) :
  (forall w1 w2, sees rely w w1 -> rows w1 !! k = None -> rows w2 = <[k := r]> (rows w1) ->
    base w2 = (if bool_decide (nesting w = 0%nat) then rows w2 else base w1) -> (nesting w <> 0%nat -> held w1 ⊆ held w2) ->
    nesting w2 = nesting w -> Q (r, true) w2) ->
  (forall w1 r', follows rely w w1 -> rows w1 !! k = Some r' -> (nesting w <> 0%nat -> k ∈ held w1) -> Q (r', false) w1) ->
  (forall e w1, follows rely w w1 -> failure e \/ e = IntegrityError -> X e w1) -> wp (_create_or_locked k r) w Q X.
Proof.
  intros HQ HF HX. apply wp_atomic. intros w0 He0. apply wp_try_except.
  apply wp_atomic. intros w1 He1. apply db_bind. apply wp_create.
  - intros w2 w3 [Hs2 Hn2] Hnone [Hr3 Hb3 Hh3 Hn3]. apply wp_ret. intros w4 [Hr4 Hb4 Hn4 Hh4] w5 [Hr5 Hb5 Hn5 Hh5].
    destruct He0 as [Hr0 Hb0 Hh0 Hn0], He1 as [Hr1 Hb1 Hh1 Hn1].
    rewrite bool_decide_false in Hb3, Hb4 by lia.
    apply (HQ w2); [|done|congruence| | |congruence].
    + eapply sees_trans; [|exact Hs2]. apply same_sees; congruence.
    + case_bool_decide; congruence.
    + intros Hz. rewrite Hh5, Hh4 by (done || lia). done.
  - intros w2 [Hs2 Hn2] Hex w3 [Hs3 Hn3]. cbv beta. change (is_integrity_error IntegrityError) with true. apply db_bind, wp_locked_first.
    + intros w4 [Hs4 Hn4] Hk. destruct (rows w4 !! k) as [r'|] eqn:Hr'.
      * apply wp_ret. intros w5 Hl5. assert (sees rely w0 w4) as Hs by (by eapply sees_trans).
        apply HF; [by eapply left_sees|by rewrite (left_rows _ _ _ Hl5)|].
        intros Hz. rewrite (left_held _ _ _ Hl5) by done. apply Hk; [|done]. rewrite Hn3, (entered_nesting _ _ He0). lia.
      * apply db_raise. intros w5 Hf5. apply HX; [done|by right].
    + intros e w4 Hf4 He w5 Hf5. apply HX; [done|by left].
  - intros e w2 Hf He w3 Hf3. cbv beta. rewrite (failure_not_integrity rely) by done. apply db_raise. intros w4 Hf4. apply HX; [done|by left].
Qed.

Lemma wp_uuid4 `{!Uuid W, !UuidLaws} w (Q : pystr -> W -> Prop) X :
  (forall token w1, uuid4 w = (Ok token, w1) -> str_empty token = false -> follows rely w w1 -> rows w1 = rows w -> Q token w1) -> wp uuid4 w Q X.
Proof.
  intros HQ. destruct (run_uuid4 w) as (token & w1 & Hrun & Hne & Hr & Hb & Hh & Hn). unfold wp. rewrite Hrun.
  apply HQ; [done|done| |done]. split; [by apply same_sees|done].
Qed.

Lemma wp_clock_timestamp `{!DatabaseClock W, !DatabaseClockLaws} w (Q : datetime -> W -> Prop) X :
  (forall t w1, follows rely w w1 -> rows w1 = rows w -> Q t w1) -> wp clock_timestamp w Q X.
Proof.
  intros HQ. destruct (run_clock_timestamp w) as (t & w1 & Hrun & Hr & Hb & Hh & Hn). unfold wp. rewrite Hrun.
  apply HQ; [|done]. split; [by apply same_sees|done].
Qed.
End Wp.
