(* ===== verification/DatabaseModel.v ===== *)
(** * A concrete database

    What the others see, what this transaction wrote and locked, the depth of its blocks, and
    what the other transactions commit before each next statement; a commit that would touch a
    locked row never comes. The laws of [Database] hold of it. *)
From Stdlib Require Import ZArith Lia.
From stdpp Require Import base list gmap relations.
From S2P Require Import Prelude Database.

(** Runs evaluated step by step. *)
Definition after {S A} (m : M exn S A) (w : S) : S := snd (m w).
Definition answers_with {S A} (m : M exn S A) (w : S) (a : A) : Prop := fst (m w) = Ok a.
Lemma answers_after {S A} (m : M exn S A) w a : answers_with m w a -> m w = (Ok a, after m w).
Proof. unfold answers_with, after. destruct (m w). by intros [= ->]. Qed.

Section Concrete.
Context {K R : Type} `{Countable K} `{!EqDecision R}.
Context `{Uuid4}.
Context (rely : relation (gmap K R)).

Record db := mkDb {
  db_base : gmap K R;
  db_writes : gmap K (option R);
  db_locks : gset K;
  db_depth : nat;
  db_draws : nat;
  db_others : list { f : gmap K R -> gmap K R | forall T, rely T (f T) }
}.

Definition written (c : option (option R)) (r : option R) : option R := match c with Some o => o | None => r end.
Definition apply_writes (c : gmap K (option R)) (T : gmap K R) : gmap K R := merge written c T.

Definition db_held (w : db) : gset K := match db_depth w with 0%nat => ∅ | _ => db_locks w end.
(** A write counts while its row is locked. *)
Definition own (w : db) : gmap K (option R) := filter (fun kc => kc.1 ∈ db_held w) (db_writes w).
Definition db_rows (w : db) : gmap K R := apply_writes (own w) (db_base w).

Definition lock (L : gset K) (w : db) : db := mkDb (db_base w) (own w) (L ∪ db_held w) (db_depth w) (db_draws w) (db_others w).
Definition put (c : gmap K (option R)) (w : db) : db :=
  match db_depth w with
  | 0%nat => mkDb (apply_writes c (db_base w)) ∅ ∅ 0 (db_draws w) (db_others w)
  | n => mkDb (db_base w) (c ∪ own w) (dom c ∪ db_held w) n (db_draws w) (db_others w)
  end.

(** [select_for_update] outside of a block. *)
Definition outside_transaction : exn := OtherError "TransactionManagementError" "select_for_update cannot be used outside of a transaction.".

(** The next commit of another transaction. *)
Definition interleave (w : db) : db :=
  match db_others w with
  | [] => w
  | f :: others =>
      let T := proj1_sig f (db_base w) in
      let T' := if forallb (fun k => bool_decide (T !! k = db_base w !! k)) (elements (db_held w)) then T else db_base w in
      mkDb T' (db_writes w) (db_locks w) (db_depth w) (db_draws w) others
  end.

#[export] Instance db_orm : Orm K R db := {
  rows := db_rows;
  first := fun k w => let w1 := interleave w in (Ok (db_rows w1 !! k), w1);
  locked_first := fun k w =>
    match db_depth w with
    | 0%nat => (Raise outside_transaction, w)
    | _ => let w1 := lock {[k]} (interleave w) in (Ok (db_rows w1 !! k), w1)
    end;
  create := fun k r w => let w1 := interleave w in
    match db_rows w1 !! k with
    | Some _ => (Raise IntegrityError, w1)
    | None => (Ok r, put {[k := Some r]} w1)
    end;
  save := fun k f w => let w1 := interleave w in (Ok tt, put {[k := f <$> db_rows w1 !! k]} w1);
  delete_row := fun k w => let w1 := interleave w in (Ok tt, put {[k := None]} w1);
  update_where := fun p f w => let w1 := interleave w in
    let chosen := matching p (db_rows w1) in (Ok (Z.of_nat (size chosen)), put ((fun r => Some (f r)) <$> chosen) w1);
  delete_where := fun p w => let w1 := interleave w in
    let chosen := matching p (db_rows w1) in (Ok (Z.of_nat (size chosen)), put ((fun _ => None) <$> chosen) w1);
  locked_query := fun p le limit w =>
    match db_depth w with
    | 0%nat => (Raise outside_transaction, w)
    | _ =>
        let w1 := interleave w in
        let l := take (Z.to_nat limit) (order_by le (map_to_list (matching p (db_rows w1)))) in
        (Ok l, lock (list_to_set l.*1) w1)
    end
}.

#[export] Instance db_session : Session K R db := { base := db_base; held := db_held; nesting := db_depth; failure := fun e => e = outside_transaction }.

#[export] Instance db_uuid : Uuid db := fun w =>
  (Ok (uuid4_hex (db_draws w)), mkDb (db_base w) (db_writes w) (db_locks w) (db_depth w) (S (db_draws w)) (db_others w)).

(** Its clock moves with the draws of identifiers. *)
#[export] Instance db_clock : DatabaseClock db := fun w => (Ok (utc (Z.of_nat (db_draws w))), w).

#[export] Instance db_atomic : Atomic db := fun E A m w =>
  match m (mkDb (db_base w) (own w) (db_held w) (S (db_depth w)) (db_draws w) (db_others w)) with
  | (Ok a, w1) => (Ok a,
      match db_depth w with
      | 0%nat => mkDb (db_rows w1) ∅ ∅ 0 (db_draws w1) (db_others w1)
      | n => mkDb (db_base w1) (own w1) (db_held w1) n (db_draws w1) (db_others w1)
      end)
  | (Raise e, _) => (Raise e, w)
  end.

Lemma apply_lookup c T k : apply_writes c T !! k = written (c !! k) (T !! k).
Proof. unfold apply_writes. rewrite lookup_merge. by destruct (c !! k), (T !! k). Qed.
Lemma own_lookup w k : own w !! k = if decide (k ∈ db_held w) then db_writes w !! k else None.
Proof.
  apply option_eq. intros c. unfold own. rewrite map_lookup_filter_Some. cbn. case_decide; naive_solver.
Qed.
Lemma rows_lookup w k : db_rows w !! k = written (own w !! k) (db_base w !! k).
Proof. apply apply_lookup. Qed.
Lemma own_held w k : k ∉ db_held w -> own w !! k = None.
Proof. intros Hk. rewrite own_lookup. by case_decide. Qed.
Lemma own_own w L d n f : db_held w ⊆ db_held (mkDb (db_base w) (own w) L d n f) -> own (mkDb (db_base w) (own w) L d n f) = own w.
Proof.
  intros Hsub. apply map_eq. intros k. rewrite !own_lookup. cbn -[db_held]. rewrite own_lookup. repeat case_decide; try done; set_solver.
Qed.

Lemma rows_base w : db_depth w = 0%nat -> db_rows w = db_base w.
Proof. intros Hd. apply map_eq. intros k. by rewrite rows_lookup, own_held by (unfold db_held; rewrite Hd; set_solver). Qed.

Lemma put_wrote c w : wrote w (apply_writes c (db_rows w)) (put c w).
Proof.
  unfold put. destruct (db_depth w) eqn:Hd; split; cbn; rewrite ?Hd; try done.
  - by rewrite !rows_base.
  - rewrite bool_decide_true by done. by rewrite rows_base.
  - unfold db_held. by rewrite Hd.
  - apply map_eq. intros k. rewrite rows_lookup, !apply_lookup, rows_lookup, own_lookup. cbn. rewrite lookup_union.
    destruct (c !! k) eqn:Hc.
    + rewrite decide_True by (apply elem_of_union_l; by eapply elem_of_dom_2). cbn. by destruct (own w !! k).
    + case_decide as Hk; [by destruct (own w !! k)|]. rewrite own_held by set_solver. done.
  - unfold db_held at 2. cbn. set_solver.
Qed.

Lemma interleave_follows w : follows rely w (interleave w).
Proof.
  unfold interleave. destruct (db_others w) as [|[f Hf] others]; [apply follows_refl|]. cbn.
  destruct (forallb _ _) eqn:Hall.
  - assert (forall k, k ∈ db_held w -> f (db_base w) !! k = db_base w !! k) as Hk.
    { intros k Hk. rewrite forallb_forall in Hall. specialize (Hall k). rewrite <- list_elem_of_In, elem_of_elements in Hall.
      by apply bool_decide_eq_true in Hall. }
    split; [|done]. split; cbn; [by apply rtc_once|done| |].
    + intros k Hin. split; [by apply Hk|]. rewrite !rows_lookup. cbn. by rewrite Hk.
    + intros k Hc. rewrite rows_lookup in Hc |- *. cbn in *. 
      destruct (decide (k ∈ db_held w)) as [Hin|Hin]; [by rewrite Hk|]. by rewrite own_held.
  - split; [|done]. by apply same_sees.
Qed.

Lemma interleave_depth w : db_depth (interleave w) = db_depth w.
Proof. apply interleave_follows. Qed.

Lemma lock_sub L w : db_depth w <> 0%nat -> db_held w ⊆ db_held (lock L w).
Proof. intros Hd. unfold db_held at 2. cbn. destruct (db_depth w); [done|set_solver]. Qed.
Lemma lock_rows L w : db_depth w <> 0%nat -> db_rows (lock L w) = db_rows w.
Proof. intros Hd. unfold db_rows. f_equal. by apply own_own, lock_sub. Qed.
Lemma lock_sees L w : db_depth w <> 0%nat -> follows rely w (lock L w).
Proof. intros Hd. split; [|done]. split; cbn; rewrite ?lock_rows by done; try done. by apply lock_sub. Qed.
Lemma lock_held L w k : db_depth w <> 0%nat -> k ∈ L -> k ∈ db_held (lock L w).
Proof. intros Hd Hk. unfold db_held. cbn. destruct (db_depth w); [done|set_solver]. Qed.

(** The writes of the statements, as changes of the rows. *)
Lemma apply_insert k r T : apply_writes {[k := Some r]} T = <[k := r]> T.
Proof.
  apply map_eq. intros j. rewrite apply_lookup. destruct (decide (j = k)) as [->|Hj]; [by rewrite lookup_singleton_eq, lookup_insert_eq|].
  by rewrite lookup_singleton_ne, lookup_insert_ne.
Qed.
Lemma apply_delete k T : apply_writes {[k := None]} T = delete k T.
Proof.
  apply map_eq. intros j. rewrite apply_lookup. destruct (decide (j = k)) as [->|Hj]; [by rewrite lookup_singleton_eq, lookup_delete_eq|].
  by rewrite lookup_singleton_ne, lookup_delete_ne.
Qed.
Lemma apply_update p f T : apply_writes ((fun r => Some (f r)) <$> matching p T) T = updated p f T.
Proof.
  apply map_eq. intros j. rewrite apply_lookup, updated_lookup, lookup_fmap. destruct (matching p T !! j) as [r|] eqn:Hm; cbn.
  - apply matching_lookup in Hm as [-> Hp]. cbn. by rewrite Hp.
  - destruct (T !! j) as [r|] eqn:Hj; [|done]. cbn. destruct (p j r) eqn:Hp; [|done].
    exfalso. assert (matching p T !! j = Some r) by (by apply matching_lookup). congruence.
Qed.
Lemma apply_deletes p T : apply_writes ((fun _ => None) <$> matching p T) T = T ∖ matching p T.
Proof.
  apply map_eq. intros j. rewrite apply_lookup, lookup_difference, lookup_fmap. by destruct (matching p T !! j), (T !! j).
Qed.

#[export] Instance db_laws : OrmLaws rely.
Proof.
  split.
  - intros w Hw. cbn in *. unfold db_held. by rewrite Hw.
  - intros w k Hk. cbn in *. by rewrite rows_lookup, own_held.
  - by intros e ->.
  - intros k w. exists (interleave w). split; [apply interleave_follows|done].
  - intros k w. cbn. destruct (db_depth w) eqn:Hd; [exists w; split; [apply follows_refl|done]|].
    exists (lock {[k]} (interleave w)). assert (db_depth (interleave w) <> 0%nat) as Hd' by (rewrite interleave_depth; lia).
    split; [eapply follows_trans; [apply interleave_follows|by apply lock_sees]|]. cbn. split_and!; try done. intros _ _. apply lock_held; [done|set_solver].
  - intros k r w. exists (interleave w). split; [apply interleave_follows|]. cbn. destruct (db_rows (interleave w) !! k) eqn:Hk; [by left; eauto|].
    right. split_and!; try done. rewrite <- apply_insert. apply put_wrote.
  - intros k f r w Hh Hk. exists (interleave w). pose proof (interleave_follows w) as Hf. split; [done|].
    pose proof (proj2 (sees_locked rely _ _ (proj1 Hf) k Hh)) as He. cbn in *. rewrite Hk in He. rewrite He. cbn. rewrite <- apply_insert. apply put_wrote.
  - intros k r w Hh Hk. exists (interleave w). split; [apply interleave_follows|]. cbn. rewrite <- apply_delete. apply put_wrote.
  - intros p f w. exists (interleave w). split; [apply interleave_follows|]. cbn. split; [done|]. rewrite <- apply_update. apply put_wrote.
  - intros p w. exists (interleave w). split; [apply interleave_follows|]. cbn. split; [done|]. rewrite <- apply_deletes. apply put_wrote.
  - intros p le limit w. cbn. destruct (db_depth w) eqn:Hd; [exists w; split; [apply follows_refl|done]|].
    set (w1 := interleave w). set (l := take _ _). exists (lock (list_to_set l.*1) w1).
    assert (db_depth w1 <> 0%nat) as Hd' by (unfold w1; rewrite interleave_depth; lia).
    split; [eapply follows_trans; [apply interleave_follows|by apply lock_sees]|]. split_and!; [done| |].
    + intros _ k Hk. apply lock_held; [done|set_solver].
    + exists (fun _ => false). cbn. rewrite lock_rows by done. unfold l. do 3 f_equal. apply map_filter_ext. intros k r _. cbn. by rewrite andb_true_r.
  - intros E A m w. unfold atomic, db_atomic. set (w0 := mkDb _ _ _ _ _ _). exists w0.
    assert (db_held w0 = db_held w) as Hh by done. 
    split; [split; cbn; [unfold db_rows; f_equal; by apply own_own|done..]|].
    destruct (m w0) as [[a|e] w1]; eexists; (split; [reflexivity|]); [|apply follows_refl].
    destruct (db_depth w) eqn:Hd; split; cbn; rewrite ?Hd; try done; [by rewrite rows_base|]. unfold db_rows. f_equal. by apply own_own.
Qed.

#[export] Instance db_uuid_laws `{!Uuid4Laws} : UuidLaws.
Proof. intros w. eexists _, _. split; [reflexivity|]. cbn. split; [apply uuid4_nonempty|done]. Qed.
#[export] Instance db_clock_laws : DatabaseClockLaws.
Proof. intros w. by eexists _, _. Qed.
End Concrete.

(** ** Beside the rows

    A database with other tables, whose contents [B] belong to the same transactions. *)

Section Beside.
Context {K R W B : Type} `{Countable K} `{!Orm K R W, !Session K R W, !Atomic W}.
Context (rely : relation (gmap K R)) `{!OrmLaws rely}.

Definition beside_orm : Orm K R (W * B) := {|
  rows := fun w => rows w.1;
  first := fun k => zoom fst_lens (first k);
  locked_first := fun k => zoom fst_lens (locked_first k);
  create := fun k r => zoom fst_lens (create k r);
  save := fun k f => zoom fst_lens (save k f);
  delete_row := fun k => zoom fst_lens (delete_row k);
  update_where := fun p f => zoom fst_lens (update_where p f);
  delete_where := fun p => zoom fst_lens (delete_where p);
  locked_query := fun p le limit => zoom fst_lens (locked_query p le limit)
|}.
Definition beside_session : Session K R (W * B) := {|
  base := fun w => base w.1; held := fun w => held w.1; nesting := fun w => nesting w.1; failure := failure
|}.
(** A block that ends normally keeps both, one that raises neither. *)
Definition beside_block {E A} (m : M E (W * B) A) (b : B) : M E W (A * B) := fun w =>
  match m (w, b) with
  | (Ok a, (w', b')) => (Ok (a, b'), w')
  | (Raise e, (w', _)) => (Raise e, w')
  end.
Definition beside_atomic : Atomic (W * B) := fun E A m w =>
  match atomic (beside_block m w.2) w.1 with
  | (Ok (a, b), w') => (Ok a, (w', b))
  | (Raise e, w') => (Raise e, (w', w.2))
  end.

#[local] Existing Instances beside_orm beside_session beside_atomic.

Lemma beside_follows w w1 b b1 : follows rely w w1 -> follows rely (w, b) (w1, b1).
Proof. intros [[H1 H2 H3 H4] Hn]. by split. Qed.

Lemma zoom_answers {A} (m : M exn W A) w b w1 (ok : A -> W -> Prop) (ok' : A -> W * B -> Prop) :
  (forall a w2, ok a w2 -> ok' a (w2, b)) -> answers (m w) w1 ok -> answers (zoom fst_lens m (w, b)) (w1, b) ok'.
Proof.
  intros Hok. unfold answers, zoom. cbn. destruct (m w) as [[a|e] w2]; [apply Hok|]. by intros [? ->].
Qed.

Lemma beside_wrote w1 T w2 b : wrote w1 T w2 -> wrote (W := W * B) (w1, b) T (w2, b).
Proof. by intros []. Qed.

(** What a block left in the other tables is there after it. *)
Lemma beside_kept E A (m : M E (W * B) A) w : exists w0, entered w w0 /\
  match m w0 with
  | (Ok a, w1) => exists w2, atomic m w = (Ok a, w2) /\ left_block w w1 w2 /\ w2.2 = w1.2
  | (Raise e, _) => exists w2, atomic m w = (Raise e, w2) /\ follows rely w w2
  end.
Proof.
  destruct w as [w b]. destruct (run_atomic rely E _ (beside_block m b) w) as (w0 & [He1 He2 He3 He4] & Hrun).
  exists (w0, b). split; [by split|]. unfold atomic, beside_atomic. cbn [fst snd]. unfold beside_block in *.
  destruct (m (w0, b)) as [[a|e] [w1 b1]]; destruct Hrun as (w2 & Hrun & Hl); rewrite Hrun.
  - exists (w2, b1). split; [done|]. split; [by destruct Hl|done].
  - exists (w2, b). split; [done|by apply beside_follows].
Qed.

Lemma beside_laws : OrmLaws (W := W * B) rely.
Proof.
  split.
  - intros [w b] Hn. exact (run_unlocked rely w Hn).
  - intros [w b] k Hk. exact (run_clean rely w k Hk).
  - intros e He. exact (failure_not_integrity (W := W) rely e He).
  - intros k [w b]. destruct (run_first rely k w) as (w1 & Hf & Ha). exists (w1, b). split; [by apply beside_follows|].
    eapply zoom_answers; [|exact Ha]. by intros a w2 [-> ->].
  - intros k [w b]. destruct (run_locked_first rely k w) as (w1 & Hf & Ha). exists (w1, b). split; [by apply beside_follows|].
    eapply zoom_answers; [|exact Ha]. by intros a w2 (-> & -> & ?).
  - intros k r [w b]. destruct (run_create rely k r w) as (w1 & Hf & Ha). exists (w1, b). split; [by apply beside_follows|].
    destruct Ha as [[Hs Hrun]|Ha]; [left; split; [done|]; cbn; unfold zoom; cbn; by rewrite Hrun|right].
    eapply zoom_answers; [|exact Ha]. intros a w2 (-> & ? & ?). split_and!; [done..|by apply beside_wrote].
  - intros k f r [w b] Hh Hk. destruct (run_save rely k f r w Hh Hk) as (w1 & Hf & Ha). exists (w1, b). split; [by apply beside_follows|].
    eapply zoom_answers; [|exact Ha]. intros a w2. apply beside_wrote.
  - intros k r [w b] Hh Hk. destruct (run_delete_row rely k r w Hh Hk) as (w1 & Hf & Ha). exists (w1, b). split; [by apply beside_follows|].
    eapply zoom_answers; [|exact Ha]. intros a w2. apply beside_wrote.
  - intros p f [w b]. destruct (run_update_where rely p f w) as (w1 & Hf & Ha). exists (w1, b). split; [by apply beside_follows|].
    eapply zoom_answers; [|exact Ha]. intros a w2 [-> ?]. split; [done|by apply beside_wrote].
  - intros p [w b]. destruct (run_delete_where rely p w) as (w1 & Hf & Ha). exists (w1, b). split; [by apply beside_follows|].
    eapply zoom_answers; [|exact Ha]. intros a w2 [-> ?]. split; [done|by apply beside_wrote].
  - intros p le limit [w b]. destruct (run_locked_query rely p le limit w) as (w1 & Hf & Ha). exists (w1, b). split; [by apply beside_follows|].
    eapply zoom_answers; [|exact Ha]. intros a w2 (-> & ? & ?). by split_and!.
  - intros E A m w. destruct (beside_kept E A m w) as (w0 & He & Hrun). exists w0. split; [done|].
    destruct (m w0) as [[a|e] w1]; [|done]. destruct Hrun as (w2 & ? & ? & _). by exists w2.
Qed.
End Beside.
