(* ===== verification/Django.v ===== *)
(** * What the Django stores share ([django/stores.py])

    The checks of aliases, arguments and timestamps, the check that a consumer's model has
    the unique constraint a store needs, and the operations a run linearizes to. *)
From Stdlib Require Import ZArith Lia.
From stdpp Require Import base list gmap relations.
From S2P Require Import Prelude Core Database.

(** [connections[using].vendor]. *)
Class Connections := vendor : pystr -> pystr.

Section Checks.
Context {W : Type}.

Definition _postgresql `{!Connections} (alias : pystr) : M exn W unit :=
  raise_if (negb (bool_decide (vendor alias = "postgresql"%py))) (ValueError "Django stores require an explicit PostgreSQL database alias").

Definition _required (value name : pystr) : M exn W unit :=
  raise_if (str_empty value) (ValueError (str_app name " must not be empty")).

Definition _alias (alias : pystr) : M exn W pystr :=
  _required alias "Django database alias" ;;;
  ret alias.

Definition _utc (value : datetime) : M exn W unit := check_utc value "timestamps must be timezone-aware UTC".

(** [_meta] of a model: its fields, and the fields of its unique constraints. *)
Record field := mkField { field_name : pystr; field_unique : bool; field_primary_key : bool }.
Record meta := mkMeta { meta_fields : list field; unique_together : list (list pystr); total_unique_constraints : list (list pystr) }.

Definition candidates (m : meta) : list (gset pystr) :=
  map (fun f => {[field_name f]}) (List.filter (fun f => field_unique f && negb (field_primary_key f)) (meta_fields m)) ++
  map list_to_set (unique_together m) ++ map list_to_set (total_unique_constraints m).

Definition _unique (m : meta) (required : gset pystr) : M exn W unit :=
  raise_if (negb (bool_decide (required ∈ candidates m)))
    (ValueError (str_app "consumer model requires a unique constraint on: "
      (str_join ", " (sorted_by str_compare (fun x => x) (elements required))))).
End Checks.

(** The member of an enumeration with a value, as the stores read it from a row. *)
Definition member {A} (value : A -> pystr) (members : list A) (text : pystr) : result exn A :=
  match list_find (fun m => value m = text) members with
  | Some (_, m) => Ok m
  | None => Raise (ValueError "not a valid value of the enumeration")
  end.

(** ** Linearization *)

Section Linearizes.
Context {K R W : Type} `{Countable K} `{!Orm K R W, !Session K R W, !Atomic W}.
Context (rely : relation (gmap K R)) `{!OrmLaws rely}.

(** The rows as a transaction would find them when the others have committed [B]: those it
    has locked are as it left them. *)
Definition overlay (w : W) (B : gmap K R) : gmap K R :=
  filter (fun kr => kr.1 ∈ held w) (rows w) ∪ filter (fun kr => kr.1 ∉ held w) B.

(** The rows at an instant after the start of a run. *)
Definition instant (w : W) (T : gmap K R) : Prop :=
  exists B, rtc rely (base w) B /\ (forall k, k ∈ held w -> B !! k = base w !! k) /\ T = overlay w B.

(** Inside a block the others' commits go on and the locks are kept. *)
Definition grew (w w' : W) : Prop := rtc rely (base w) (base w') /\ held w ⊆ held w'.
Definition later (w w' : W) : Prop := nesting w' = nesting w /\ (nesting w <> 0%nat -> grew w w').

(** An operation that ends normally acted in one step on the rows of one instant of its run;
    one that raises left what other transactions committed. *)
Definition linearizes {A} (m : M exn W A) (w : W) (step : gmap K R -> A -> gmap K R -> Prop) (raises : exn -> Prop) : Prop :=
  wp m w (fun a w' => later w w' /\ exists T, instant w T /\ step T a (rows w')) (fun e w' => follows rely w w' /\ raises e).

Lemma grew_sees w w1 : sees rely w w1 -> grew w w1.
Proof. intros Hs. split; apply Hs. Qed.
Lemma grew_trans w1 w2 w3 : grew w1 w2 -> grew w2 w3 -> grew w1 w3.
Proof. intros [H1 H2] [G1 G2]. split; [exact (transitivity H1 G1)|exact (transitivity H2 G2)]. Qed.
Lemma grew_wrote w1 T w2 : wrote w1 T w2 -> nesting w1 <> 0%nat -> grew w1 w2.
Proof. intros [_ Hb Hh _] Hn. rewrite bool_decide_false in Hb by done. split; [by rewrite Hb|done]. Qed.
Lemma later_follows w w1 : follows rely w w1 -> later w w1.
Proof. intros [Hs Hn]. split; [done|]. intros _. by apply grew_sees. Qed.
Lemma later_trans w1 w2 w3 : later w1 w2 -> later w2 w3 -> later w1 w3.
Proof. intros [Hn Hg] [Hn' Hg']. split; [congruence|]. intros Hz. eapply grew_trans; [by apply Hg|]. apply Hg'. congruence. Qed.
Lemma later_wrote w1 T w2 : wrote w1 T w2 -> later w1 w2.
Proof. intros Hw. split; [apply Hw|]. by eapply grew_wrote. Qed.

Lemma grew_created w w1 w2 : sees rely w w1 -> base w2 = (if bool_decide (nesting w = 0%nat) then rows w2 else base w1) ->
  (nesting w <> 0%nat -> held w1 ⊆ held w2) -> nesting w <> 0%nat -> grew w w2.
Proof. intros [Hs Hh _ _] Hb Hk Hn. rewrite bool_decide_false in Hb by done. split; [by rewrite Hb|]. etrans; [exact Hh|by apply Hk]. Qed.

Lemma overlay_lookup w B k : overlay w B !! k = if decide (k ∈ held w) then rows w !! k else B !! k.
Proof.
  apply option_eq. intros r. unfold overlay. rewrite lookup_union_Some_raw, map_lookup_filter_None, !map_lookup_filter_Some. cbn.
  case_decide; naive_solver.
Qed.

Lemma sees_overlay w w1 : sees rely w w1 -> rows w1 = overlay w (base w1).
Proof.
  intros Hs. apply map_eq. intros k. rewrite overlay_lookup. case_decide as Hk; [by apply (sees_locked rely w w1)|].
  apply (sees_clean rely w w1 Hs). by apply (run_clean rely).
Qed.

Lemma sees_instant w w1 : sees rely w w1 -> instant w (rows w1).
Proof. intros Hs. exists (base w1). split_and!; [apply Hs|intros k Hk; by apply (sees_locked rely w w1)|by apply sees_overlay]. Qed.

(** Outside of a block the instants are what the others' commits lead to. *)
Lemma instant_top w T : nesting w = 0%nat -> instant w T <-> rtc rely (rows w) T.
Proof.
  intros Hn. pose proof (run_unlocked rely w Hn) as Hu. assert (forall B, overlay w B = B) as Ho.
  { intros B. apply map_eq. intros k. rewrite overlay_lookup, Hu. by case_decide; [set_solver|]. }
  unfold instant. rewrite (all_clean rely w Hn). setoid_rewrite Ho. split; [by intros (B & ? & _ & ->)|].
  intros HT. exists T. split_and!; try done. rewrite Hu. set_solver.
Qed.

Lemma entered_instant w w0 T : entered w w0 -> instant w0 T <-> instant w T.
Proof. intros [Hr Hb Hh _]. unfold instant, overlay. by rewrite Hr, Hb, Hh. Qed.

Lemma later_left w w0 w1 w2 : entered w w0 -> grew w0 w1 -> left_block w w1 w2 -> later w w2.
Proof.
  intros He Hg [_ Hb Hn Hh]. split; [done|]. intros Hz. rewrite bool_decide_false in Hb by done. unfold grew in *. rewrite Hb, (Hh Hz).
  by destruct He as [_ <- <- _].
Qed.

(** A block of a call: its run inside gives the run outside. *)
Lemma linearizes_atomic {A} (m : M exn W A) w (step : gmap K R -> A -> gmap K R -> Prop) (raises : exn -> Prop) :
  (forall w0, nesting w0 <> 0%nat ->
    wp m w0 (fun a w1 => grew w0 w1 /\ exists T, instant w0 T /\ step T a (rows w1)) (fun e _ => raises e)) ->
  linearizes (atomic m) w step raises.
Proof.
  intros Hm. apply (wp_atomic rely). intros w0 He. eapply db_mono; [apply Hm; rewrite (entered_nesting _ _ He); lia| |].
  - intros a w1 (Hg & T & HT & Hs) w2 Hl. split; [by eapply later_left|]. destruct Hl as [Hr _ Hn _]. exists T. split; [by apply (entered_instant w w0)|by rewrite Hr].
  - intros e w1 He' w2 Hf. done.
Qed.

(** Calls that are one statement. *)
Lemma linearizes_update {A} p f (g : Z -> A) w (step : gmap K R -> A -> gmap K R -> Prop) (raises : exn -> Prop) :
  (forall T, step T (g (Z.of_nat (size (matching p T)))) (updated p f T)) -> (forall e, failure e -> raises e) ->
  linearizes (let! n := update_where p f in ret (g n)) w step raises.
Proof.
  intros Hs HX. apply db_bind, (wp_update_where rely); [|intros e w1 Hf He; by auto].
  intros w1 w2 Hf1 Hw. apply wp_ret. split; [eapply later_trans; [by apply later_follows|by eapply later_wrote]|].
  exists (rows w1). split; [apply sees_instant, Hf1|]. by rewrite (wrote_rows _ _ _ Hw).
Qed.
Lemma linearizes_delete {A} p (g : Z -> A) w (step : gmap K R -> A -> gmap K R -> Prop) (raises : exn -> Prop) :
  (forall T, step T (g (Z.of_nat (size (matching p T)))) (T ∖ matching p T)) -> (forall e, failure e -> raises e) ->
  linearizes (let! n := delete_where p in ret (g n)) w step raises.
Proof.
  intros Hs HX. apply db_bind, (wp_delete_where rely); [|intros e w1 Hf He; by auto].
  intros w1 w2 Hf1 Hw. apply wp_ret. split; [eapply later_trans; [by apply later_follows|by eapply later_wrote]|].
  exists (rows w1). split; [apply sees_instant, Hf1|]. by rewrite (wrote_rows _ _ _ Hw).
Qed.

(** The checks and the pure computations before them. *)
Lemma linearizes_check {A} b e (m : M exn W A) w (step : gmap K R -> A -> gmap K R -> Prop) (raises : exn -> Prop) :
  (b = true -> raises e) -> (b = false -> linearizes m w step raises) -> linearizes (raise_if b e ;;; m) w step raises.
Proof. intros HX Hm. apply db_bind, db_raise_if; [done|]. intros Hb. split; [apply follows_refl|auto]. Qed.
Lemma linearizes_lift {A B} (r : result exn B) (m : B -> M exn W A) w (step : gmap K R -> A -> gmap K R -> Prop) (raises : exn -> Prop) :
  (forall e, r = Raise e -> raises e) -> (forall b, r = Ok b -> linearizes (m b) w step raises) -> linearizes (let! b := lift r in m b) w step raises.
Proof. intros HX Hm. apply db_bind, wp_lift; [done|]. intros e He. split; [apply follows_refl|auto]. Qed.

Lemma linearizes_map {A B} (f : A -> B) (m : M exn W A) w (step : gmap K R -> B -> gmap K R -> Prop) (raises : exn -> Prop) :
  linearizes m w (fun T a => step T (f a)) raises -> linearizes (let! a := m in ret (f a)) w step raises.
Proof.
  intros Hm. apply db_bind. eapply db_mono; [exact Hm| |done].
  intros a w' (Hn & T & HT & Ha). apply wp_ret. split; [done|]. by exists T.
Qed.

Lemma linearizes_mono {A} (m : M exn W A) w (step step' : gmap K R -> A -> gmap K R -> Prop) (raises : exn -> Prop) :
  linearizes m w step raises -> (forall T a T', step T a T' -> step' T a T') -> linearizes m w step' raises.
Proof. intros Hm Hs. eapply db_mono; [exact Hm| |done]. intros a w' (Hn & T & HT & Ha). split; [done|]. exists T. auto. Qed.

(** Later instants are instants. *)
Lemma instant_sees w w1 T : sees rely w w1 -> instant w1 T -> instant w T.
Proof.
  intros [Hb Hh Hl Hc] (B & HB & Hk & ->). exists B. split_and!; [by etrans| |].
  - intros k Hin. rewrite Hk by set_solver. by apply Hl.
  - apply map_eq. intros k. rewrite !overlay_lookup. destruct (decide (k ∈ held w)) as [Hin|Hin].
    + rewrite decide_True by set_solver. by apply Hl.
    + case_decide as Hin1; [|done]. rewrite Hk by done. apply Hc. by apply (run_clean rely).
Qed.

(** A row that was deleted and created again was replaced at the instant of its creation: the
    others could not touch it in between. *)
Lemma recreated w w1 w2 w3 w4 i r r' : sees rely w w1 -> rows w1 !! i = Some r -> i ∈ held w1 -> nesting w1 <> 0%nat -> follows rely w1 w2 ->
  wrote w2 (delete i (rows w2)) w3 -> sees rely w3 w4 ->
  instant w (overlay w (base w4)) /\ overlay w (base w4) !! i = Some r /\ <[i := r']> (rows w4) = <[i := r']> (overlay w (base w4)).
Proof.
  intros H1 Hi Hh Hn [H2 Hn2] [Hr3 Hb3 Hh3 Hn3] H4. rewrite bool_decide_false in Hb3 by lia.
  pose proof (sees_held rely _ _ H1) as Hh1. pose proof (sees_held rely _ _ H2) as Hh2.
  split_and!.
  - exists (base w4). split_and!; [|intros k Hk|done].
    + etrans; [apply H1|]. etrans; [apply H2|]. rewrite <- Hb3. apply H4.
    + destruct (sees_locked rely _ _ H1 k Hk), (sees_locked rely _ _ H2 k ltac:(set_solver)), (sees_locked rely _ _ H4 k ltac:(set_solver)). congruence.
  - rewrite overlay_lookup. case_decide as Hk; [by rewrite <- (proj2 (sees_locked rely _ _ H1 i Hk))|].
    rewrite (proj1 (sees_locked rely _ _ H4 i ltac:(set_solver))), Hb3, (proj1 (sees_locked rely _ _ H2 i Hh)), <- Hi. symmetry.
    by apply (sees_clean rely w w1 H1), (run_clean rely).
  - apply map_eq. intros j. destruct (decide (j = i)) as [->|Hj]; [by rewrite !lookup_insert_eq|].
    rewrite !lookup_insert_ne, overlay_lookup by done. case_decide as Hk.
    + rewrite (proj2 (sees_locked rely _ _ H4 j ltac:(set_solver))), Hr3, lookup_delete_ne, (proj2 (sees_locked rely _ _ H2 j ltac:(set_solver))) by done.
      by apply (sees_locked rely _ _ H1).
    + apply (sees_clean rely w3 w4 H4). rewrite Hr3, Hb3, lookup_delete_ne by done.
      by apply (sees_clean rely w1 w2 H2), (sees_clean rely w w1 H1), (run_clean rely).
Qed.

(** A row read under a lock, and saved later in the block. *)
Lemma wp_saved w w1 k r f : sees rely w w1 -> rows w1 !! k = Some r -> k ∈ held w1 -> nesting w1 <> 0%nat ->
  wp (save k f) w1 (fun _ w2 => grew w w2 /\ exists T, instant w T /\ T !! k = Some r /\ rows w2 = <[k := f r]> T) (fun e _ => failure e).
Proof.
  intros Hs Hr Hk Hn. eapply (wp_save rely); [done|exact Hr| |auto]. intros w2 w3 [Hs2 Hn2] Hw.
  split; [eapply grew_trans; [by apply grew_sees|eapply grew_trans; [by apply grew_sees|eapply grew_wrote; [done|congruence]]]|]. exists (rows w2).
  split_and!; [eapply sees_instant, sees_trans; [exact Hs|exact Hs2]| |apply Hw]. by rewrite (proj2 (sees_locked rely _ _ Hs2 k Hk)).
Qed.

(** What runs beside a store in its transaction works on other tables: on this one it lets
    others commit and no more. *)
Definition aside {A} (m : M exn W A) : Prop := forall w, wp m w (fun _ w' => follows rely w w') (fun _ _ => True).

Lemma aside_bind {A B} (m : M exn W A) (f : A -> M exn W B) : aside m -> (forall a, aside (f a)) -> aside (bind m f).
Proof.
  intros Hm Hf w. apply db_bind. eapply db_mono; [apply Hm| |auto]. intros a w1 H1.
  eapply db_mono; [apply Hf| |auto]. intros b w2 H2. exact (follows_trans rely _ _ _ H1 H2).
Qed.
Lemma aside_ret {A} (a : A) : aside (ret a).
Proof. intros w. apply wp_ret, follows_refl. Qed.
Lemma aside_for_each {A B} (l : list A) (acc : B) (f : B -> A -> M exn W B) : (forall b a, aside (f b a)) -> aside (for_each l acc f).
Proof. intros Hf. revert acc. induction l as [|x l IH]; intros acc; [apply aside_ret|]. cbn. apply aside_bind; auto. Qed.

End Linearizes.
