(* ===== verification/DjangoIdempotency.v ===== *)
(** * The Django idempotency store ([django/stores.py], [DjangoIdempotencyStore])

    The callbacks built from a consumer's model, the store that checks arguments and calls
    them, and the step on the rows every call linearizes to. *)
From Stdlib Require Import ZArith Lia.
From stdpp Require Import base list gmap relations.
From S2P Require Import Prelude Core Maintenance Idempotency Database DatabaseModel Django.

(** A row beside its unique key: scope and idempotency key. *)
Record idempotency_row := mkRow {
  row_fingerprint : pystr; reservation_token : pystr; row_state : pystr; row_expires_at : datetime;
  row_value : json; uncertainty_reason : option pystr; row_updated_at : datetime
}.

#[export] Instance idempotency_row_eq_dec : EqDecision idempotency_row.
Proof. solve_decision. Defined.

(** The callbacks, [using] included. *)
Record DjangoIdempotencyStore (W V : Type) := mkStore {
  store_using : pystr;
  on_reserve : IdempotencyScope -> pystr -> RequestFingerprint -> datetime -> timedelta -> pystr -> M exn W (IdempotencyDecision V);
  on_renew : ReservationToken -> datetime -> timedelta -> pystr -> M exn W RenewReservationResult;
  on_complete : ReservationToken -> V -> datetime -> timedelta -> pystr -> M exn W CompleteReservationResult;
  on_mark_uncertain : ReservationToken -> pystr -> datetime -> timedelta -> pystr -> M exn W MarkUncertainResult;
  on_abandon : ReservationToken -> datetime -> pystr -> M exn W AbandonReservationResult
}.
Arguments mkStore {W V}.
Arguments store_using {W V}.
Arguments on_reserve {W V}.
Arguments on_renew {W V}.
Arguments on_complete {W V}.
Arguments on_mark_uncertain {W V}.
Arguments on_abandon {W V}.

Section Store.
Context {W V : Type}.

(** [DjangoIdempotencyStore(using=..., ...)] and [from_callbacks]. *)
Definition from_callbacks (s : DjangoIdempotencyStore W V) : M exn W (DjangoIdempotencyStore W V) :=
  let! _ := _alias (store_using s) in ret s.

Definition reserve (s : DjangoIdempotencyStore W V) (scope : IdempotencyScope) (key : pystr) (fingerprint : RequestFingerprint)
    (now : datetime) (lease_ttl : timedelta) : M exn W (IdempotencyDecision V) :=
  _utc now ;;;
  _required key "idempotency key" ;;;
  check_positive lease_ttl "execution lease ttl must be positive" ;;;
  on_reserve s scope key fingerprint now lease_ttl (store_using s).

Definition renew (s : DjangoIdempotencyStore W V) (token : ReservationToken) (now : datetime) (lease_ttl : timedelta) : M exn W RenewReservationResult :=
  _utc now ;;;
  check_positive lease_ttl "execution lease ttl must be positive" ;;;
  on_renew s token now lease_ttl (store_using s).

Definition complete (s : DjangoIdempotencyStore W V) (token : ReservationToken) (value : V) (now : datetime) (retention_ttl : timedelta) :
    M exn W CompleteReservationResult :=
  _utc now ;;;
  check_positive retention_ttl "result retention ttl must be positive" ;;;
  on_complete s token value now retention_ttl (store_using s).

Definition mark_uncertain (s : DjangoIdempotencyStore W V) (token : ReservationToken) (reason : pystr) (now : datetime) (retention_ttl : timedelta) :
    M exn W MarkUncertainResult :=
  _utc now ;;;
  _required reason "uncertainty reason" ;;;
  check_positive retention_ttl "uncertainty retention ttl must be positive" ;;;
  on_mark_uncertain s token reason now retention_ttl (store_using s).

Definition abandon (s : DjangoIdempotencyStore W V) (token : ReservationToken) (now : datetime) : M exn W AbandonReservationResult :=
  _utc now ;;;
  on_abandon s token now (store_using s).

Definition django_idempotency_port (s : DjangoIdempotencyStore W V) : IdempotencyStore W V := {|
  port_reserve := reserve s;
  port_renew := renew s;
  port_complete := complete s;
  port_mark_uncertain := mark_uncertain s;
  port_abandon := abandon s
|}.
End Store.

(** ** The callbacks of a model *)

Section Model.
Context {W V : Type} `{!Orm (IdempotencyScope * pystr) idempotency_row W, !Atomic W, !Uuid W, !Connections}.
Variable encode_value : V -> result exn json.
Variable decode_value : json -> result exn V.

(** The answer to a row that is there. *)
Definition decision_of (fingerprint : RequestFingerprint) (row : idempotency_row) : result exn (IdempotencyDecision V) :=
  if negb (bool_decide (row_fingerprint row = fingerprint_value fingerprint)) then Ok Conflict
  else if bool_decide (row_state row = "completed"%py) then let? v := decode_value (row_value row) in Ok (Replay (Some v))
  else if bool_decide (row_state row = "uncertain"%py) then
    Ok (Uncertain (match uncertainty_reason row with
      | Some r => if str_empty r then "the prior outcome is unknown" else r
      | None => "the prior outcome is unknown"
      end)%py)
  else Ok (InProgress (row_expires_at row)).

(** [row.expires_at <= now and row.state != "uncertain"]. *)
Definition reclaimable (now : datetime) (row : idempotency_row) : bool :=
  dt_leb (row_expires_at row) now && negb (bool_decide (row_state row = "uncertain"%py)).

Definition reserved_row (fingerprint : RequestFingerprint) (token : ReservationToken) (until now : datetime) : idempotency_row :=
  mkRow (fingerprint_value fingerprint) (token_value token) "reserved" until JNull None now.

Definition reserve_block (scope : IdempotencyScope) (key : pystr) (fingerprint : RequestFingerprint) (now : datetime) (lease_ttl : timedelta) :
    M exn W (IdempotencyDecision V) :=
  let lookup := (scope, key) in
  let! found := _locked_first lookup in
  let! row := match found with
    | Some row => if reclaimable now row then delete_row lookup ;;; ret None else ret (Some row)
    | None => ret None
    end in
  match row with
  | Some row => lift (decision_of fingerprint row)
  | None =>
      let! hex := uuid4 in
      let! token := ReservationToken_new hex in
      let! until := lift (dt_add now lease_ttl) in
      let! rc := _create_or_locked lookup (reserved_row fingerprint token until now) in
      let '(row, created) := rc in
      if created : bool then ret (Execute token) else lift (decision_of fingerprint row)
  end.

Definition model_reserve (scope : IdempotencyScope) (key : pystr) (fingerprint : RequestFingerprint) (now : datetime) (lease_ttl : timedelta)
    (alias : pystr) : M exn W (IdempotencyDecision V) :=
  _postgresql alias ;;;
  _utc now ;;;
  raise_if (str_empty key || (lease_ttl <=? 0)) (ValueError "idempotency key and a positive lease_ttl are required") ;;;
  atomic (reserve_block scope key fingerprint now lease_ttl).

(** The rows a token has authority over. *)
Definition authorised (token : ReservationToken) (now : datetime) (_ : IdempotencyScope * pystr) (row : idempotency_row) : bool :=
  bool_decide (reservation_token row = token_value token) && bool_decide (row_state row = "reserved"%py) && dt_ltb now (row_expires_at row).

Definition renewed (until now : datetime) (r : idempotency_row) : idempotency_row :=
  mkRow (row_fingerprint r) (reservation_token r) (row_state r) until (row_value r) (uncertainty_reason r) now.
Definition model_renew (token : ReservationToken) (now : datetime) (lease_ttl : timedelta) (alias : pystr) : M exn W RenewReservationResult :=
  _postgresql alias ;;;
  _utc now ;;;
  check_positive lease_ttl "lease_ttl must be positive" ;;;
  let! expires_at := lift (dt_add now lease_ttl) in
  let! n := update_where (authorised token now) (renewed expires_at now) in
  ret (if n =? 0 then RenewStale else ReservationRenewed expires_at).

Definition completed (encoded : json) (until now : datetime) (r : idempotency_row) : idempotency_row :=
  mkRow (row_fingerprint r) (reservation_token r) "completed" until encoded (uncertainty_reason r) now.
Definition model_complete (token : ReservationToken) (value : V) (now : datetime) (retention_ttl : timedelta) (alias : pystr) :
    M exn W CompleteReservationResult :=
  _postgresql alias ;;;
  _utc now ;;;
  check_positive retention_ttl "retention_ttl must be positive" ;;;
  let! encoded := lift (encode_value value) in
  validate_json encoded ;;;
  let! retained_until := lift (dt_add now retention_ttl) in
  let! n := update_where (authorised token now) (completed encoded retained_until now) in
  ret (if n =? 0 then CompleteStale else ReservationCompleted retained_until).

Definition marked (reason : pystr) (until now : datetime) (r : idempotency_row) : idempotency_row :=
  mkRow (row_fingerprint r) (reservation_token r) "uncertain" until (row_value r) (Some reason) now.
Definition model_mark_uncertain (token : ReservationToken) (reason : pystr) (now : datetime) (retention_ttl : timedelta) (alias : pystr) :
    M exn W MarkUncertainResult :=
  _postgresql alias ;;;
  _utc now ;;;
  raise_if (str_empty reason) (ValueError "an uncertainty reason is required") ;;;
  check_positive retention_ttl "retention_ttl must be positive" ;;;
  let! retained_until := lift (dt_add now retention_ttl) in
  let! n := update_where (authorised token now) (marked reason retained_until now) in
  ret (if n =? 0 then MarkUncertainStale else ReservationMarkedUncertain retained_until).

Definition model_abandon (token : ReservationToken) (now : datetime) (alias : pystr) : M exn W AbandonReservationResult :=
  _postgresql alias ;;;
  _utc now ;;;
  let! n := delete_where (authorised token now) in
  ret (if n =? 0 then AbandonStale else ReservationAbandoned).

(** [DjangoIdempotencyStore.from_model]. *)
Definition from_model (model : meta) (alias : pystr) : M exn W (DjangoIdempotencyStore W V) :=
  _unique model {["namespace"; "subject"; "operation"; "idempotency_key"]}%py ;;;
  from_callbacks (mkStore alias model_reserve model_renew model_complete model_mark_uncertain model_abandon).
End Model.

(** ** Idempotency over a shared database

    What one call of the Django store does while other sessions commit theirs, and the
    guarantee over whole histories: the result that was recorded is the one replayed. *)

Abbreviation id := (IdempotencyScope * pystr)%type.
Abbreviation table := (gmap id idempotency_row).

(** ** The calls of the sessions, as steps on the rows *)

Inductive call :=
  | CallReserve (i : id) (fp : RequestFingerprint) (now : datetime) (until : datetime) (drawn : ReservationToken)
  | CallRenew (token : ReservationToken) (now until : datetime)
  | CallComplete (token : ReservationToken) (encoded : json) (now until : datetime)
  | CallUncertain (token : ReservationToken) (reason : pystr) (now until : datetime)
  | CallAbandon (token : ReservationToken) (now : datetime).

(** Free for a reservation: no row, or one that may be reclaimed. *)
Definition available (now : datetime) (row : option idempotency_row) : bool :=
  match row with None => true | Some r => reclaimable now r end.

Definition apply_call (c : call) (T : table) : table :=
  match c with
  | CallReserve i fp now until drawn => if available now (T !! i) then <[i := reserved_row fp drawn until now]> T else T
  | CallRenew token now until => updated (authorised token now) (renewed until now) T
  | CallComplete token encoded now until => updated (authorised token now) (completed encoded until now) T
  | CallUncertain token reason now until => updated (authorised token now) (marked reason until now) T
  | CallAbandon token now => T ∖ matching (authorised token now) T
  end.

Definition clock_of (c : call) : datetime :=
  match c with
  | CallReserve _ _ now _ _ | CallRenew _ now _ | CallComplete _ _ now _ | CallUncertain _ _ now _ | CallAbandon _ now => now
  end.
(** The token a call draws or presents. *)
Definition token_of (c : call) : ReservationToken :=
  match c with
  | CallReserve _ _ _ _ t | CallRenew t _ _ | CallComplete t _ _ _ | CallUncertain t _ _ _ | CallAbandon t _ => t
  end.

(** Calls with tokens of other sessions and clocks before an instant. *)
Definition others (foreign : ReservationToken -> Prop) (t : Z) : relation table := fun T T' =>
  exists c, foreign (token_of c) /\ dt_instant (clock_of c) < t /\ T' = apply_call c T.
(** Calls that do not know a token. *)
Abbreviation others_than token := (others (fun t' => t' <> token)).

(** ** What one call does *)

Section Runs.
Context {W V : Type} `{!Orm id idempotency_row W, !Session id idempotency_row W, !Atomic W, !Uuid W, !Connections}.
Context (rely : relation table) `{!OrmLaws rely, !UuidLaws}.
Variable encode_value : V -> result exn json.
Variable decode_value : json -> result exn V.

(** Others created the row of an identity that was free. *)
Definition raced (i : id) (row : idempotency_row) : Prop := exists B B', rtc rely B B' /\ B !! i = None /\ B' !! i = Some row.

Lemma raced_row i row w1 w2 : rows w1 !! i = None -> sees rely w1 w2 -> rows w2 !! i = Some row -> raced i row.
Proof.
  intros Hn Hs Hr. destruct (decide (i ∈ held w1)) as [Hk|Hk].
  - destruct (sees_locked rely _ _ Hs i Hk). congruence.
  - exists (base w1), (base w2). pose proof (run_clean rely w1 i Hk) as Hc. pose proof (sees_clean rely _ _ Hs i Hc).
    split_and!; [apply Hs|congruence..].
Qed.

(** What [uuid4] may return. *)
Definition drawn (token : ReservationToken) : Prop := str_empty (token_value token) = false /\ exists w w', uuid4 w = (Ok (token_value token), w').

(** A reservation: the row is created when the identity is available, and described when it
    is not; a row that others created during the call is described as well. *)
Inductive reserve_step (i : id) (fp : RequestFingerprint) (now : datetime) (ttl : timedelta) (T : table) : IdempotencyDecision V -> table -> Prop :=
  | reserve_executes token until : available now (T !! i) = true -> dt_add now ttl = Ok until -> drawn token ->
      reserve_step i fp now ttl T (Execute token) (<[i := reserved_row fp token until now]> T)
  | reserve_describes row d : T !! i = Some row -> reclaimable now row = false \/ raced i row ->
      decision_of decode_value fp row = Ok d -> reserve_step i fp now ttl T d T.

Definition reserve_creates (scope : IdempotencyScope) (key : pystr) (fp : RequestFingerprint) (now : datetime) (ttl : timedelta) : M exn W (IdempotencyDecision V) :=
  let! hex := uuid4 in
  let! token := ReservationToken_new hex in
  let! until := lift (dt_add now ttl) in
  let! rc := _create_or_locked (scope, key) (reserved_row fp token until now) in
  let '(row, created) := rc in
  if created : bool then ret (Execute token) else lift (decision_of decode_value fp row).

(** The creation of a row: at that instant the identity is free, or its row is described. *)
Lemma create_runs scope key fp now ttl w (step : IdempotencyDecision V -> W -> Prop) (X : exn -> W -> Prop) : nesting w <> 0%nat ->
  (forall e w', failure e \/ e = IntegrityError \/ dt_add now ttl = Raise e \/ (exists fp row, decision_of decode_value fp row = Raise e) -> X e w') ->
  (forall w1 w2 token until, sees rely w w1 -> rows w1 !! (scope, key) = None -> dt_add now ttl = Ok until -> drawn token ->
    grew rely w w2 -> rows w2 = <[(scope, key) := reserved_row fp token until now]> (rows w1) -> step (Execute token) w2) ->
  (forall w1 row d, follows rely w w1 -> rows w1 !! (scope, key) = Some row -> decision_of decode_value fp row = Ok d -> step d w1) ->
  wp (reserve_creates scope key fp now ttl) w step X.
Proof.
  intros Hz HX Hnew Hold. unfold reserve_creates. apply db_bind, (wp_uuid4 rely). intros hex w1 Hdraw Hne Hf1 _.
  apply db_bind. unfold ReservationToken_new. apply db_bind, db_raise_if; [intros _|congruence]. apply wp_ret.
  apply db_bind, wp_lift; [|eauto 6]. intros u Hu. apply db_bind, (wp_create_or_locked rely).
  - intros w2 w3 Hs Hnone Hr Hb Hh Hn. apply wp_ret. eapply (Hnew w2); try done; [by eapply sees_trans; [apply Hf1|]|by split; eauto|].
    eapply (grew_trans rely w w1); [by apply grew_sees, Hf1|]. eapply (grew_created rely w1 w2); try done. by rewrite (proj2 Hf1).
  - intros w2 row Hf Hrow _. apply wp_lift; [|eauto 8]. intros d Hd. eapply Hold; [by eapply follows_trans|done|done].
  - intros e w2 _ [He|He]; apply HX; auto.
Qed.

Lemma reserve_block_creates scope key fp now ttl : reserve_block decode_value scope key fp now ttl =
  let! found := _locked_first (scope, key) in
  let! row := match found with
    | Some row => if reclaimable now row then delete_row (scope, key) ;;; ret None else ret (Some row)
    | None => ret None
    end in
  match row with Some row => lift (decision_of decode_value fp row) | None => reserve_creates scope key fp now ttl end.
Proof. done. Qed.

(** One reservation among the commits of the others. *)
Lemma reserve_block_runs scope key fp now ttl (X : exn -> Prop) w :
  (forall e, failure e \/ e = IntegrityError \/ dt_add now ttl = Raise e \/ (exists fp row, decision_of decode_value fp row = Raise e) -> X e) -> nesting w <> 0%nat ->
  wp (reserve_block decode_value scope key fp now ttl) w
    (fun d w' => grew rely w w' /\ exists T, instant rely w T /\ reserve_step (scope, key) fp now ttl T d (rows w'))
    (fun e _ => X e).
Proof.
  intros HX Hn. rewrite reserve_block_creates. apply db_bind, (wp_locked_first rely); [|intros e w1 _ He; by auto].
  intros w1 [Hs1 Hn1] Hlock. assert (nesting w1 <> 0%nat) as Hz1 by congruence. pose proof (grew_sees rely w w1 Hs1) as Hg1.
  apply db_bind. destruct (rows w1 !! (scope, key)) as [row|] eqn:Hrow.
  - destruct (reclaimable now row) eqn:Hrec.
    + apply db_bind. eapply (wp_delete_row rely); [by apply Hlock|exact Hrow| |intros e w2 _ He; by auto].
      intros w2 w3 Hf2 Hw3. assert (nesting w2 <> 0%nat) as Hz2 by (by rewrite (proj2 Hf2)).
      assert (grew rely w w3) as Hg3 by (eapply grew_trans; [exact Hg1|]; eapply grew_trans; [by apply grew_sees, Hf2|by eapply grew_wrote]).
      apply wp_ret. apply create_runs; [by rewrite (wrote_nesting _ _ _ Hw3)|by auto| |].
      * intros w4 w5 token until Hs4 Hnone Hu Hne Hg5 Hr5. split; [by eapply grew_trans|].
        destruct (recreated rely w w1 w2 w3 w4 (scope, key) row (reserved_row fp token until now) Hs1 Hrow (Hlock Hn ltac:(done)) Hz1 Hf2 Hw3 Hs4) as (Hi & Hl & He).
        exists (overlay w (base w4)). split; [done|]. rewrite Hr5, He. apply reserve_executes; [by rewrite Hl|done|done].
      * intros w4 row' d Hf4 Hrow' _. exfalso. 
        pose proof (sees_locked rely w3 w4 (proj1 Hf4) (scope, key)) as [_ Hl].
        { apply (wrote_held _ _ _ Hw3), (sees_held rely _ _ (proj1 Hf2)). by apply Hlock. }
        rewrite (wrote_rows _ _ _ Hw3), lookup_delete_eq in Hl. congruence.
    + apply wp_ret, wp_lift; [|intros e He; apply HX; eauto 8]. intros d Hd. split; [done|]. exists (rows w1). split; [by apply sees_instant|]. eapply reserve_describes; eauto.
  - apply wp_ret, create_runs; [done|by auto| |].
    + intros w2 w3 token until Hs2 Hnone Hu Hne Hg3 Hr3. split; [by eapply grew_trans|]. exists (rows w2).
      assert (sees rely w w2) by (eapply sees_trans; [exact Hs1|exact Hs2]). split; [by apply (sees_instant rely)|]. rewrite Hr3. apply reserve_executes; [by rewrite Hnone|done|done].
    + intros w2 row d Hf2 Hrow' Hd.
      assert (sees rely w w2) by (eapply sees_trans; [exact Hs1|apply Hf2]). split; [by apply grew_sees|]. exists (rows w2). split; [by apply (sees_instant rely)|].
      eapply reserve_describes; [done|right; eapply raced_row; [exact Hrow|apply Hf2|done]|done].
Qed.

(** ** Requests *)

Inductive request :=
  | ReserveRequest (scope : IdempotencyScope) (key : pystr) (fp : RequestFingerprint) (now : datetime) (ttl : timedelta)
  | RenewRequest (token : ReservationToken) (now : datetime) (ttl : timedelta)
  | CompleteRequest (token : ReservationToken) (value : V) (now : datetime) (ttl : timedelta)
  | UncertainRequest (token : ReservationToken) (reason : pystr) (now : datetime) (ttl : timedelta)
  | AbandonRequest (token : ReservationToken) (now : datetime).

Inductive answer :=
  | Decided (d : IdempotencyDecision V) | DidRenew (r : RenewReservationResult) | DidComplete (r : CompleteReservationResult)
  | DidMark (r : MarkUncertainResult) | DidAbandon (r : AbandonReservationResult).

Definition run_request (s : DjangoIdempotencyStore W V) (r : request) : M exn W answer :=
  match r with
  | ReserveRequest scope key fp now ttl => let! d := reserve s scope key fp now ttl in ret (Decided d)
  | RenewRequest token now ttl => let! x := renew s token now ttl in ret (DidRenew x)
  | CompleteRequest token value now ttl => let! x := complete s token value now ttl in ret (DidComplete x)
  | UncertainRequest token reason now ttl => let! x := mark_uncertain s token reason now ttl in ret (DidMark x)
  | AbandonRequest token now => let! x := abandon s token now in ret (DidAbandon x)
  end.

(** The store of a model. *)
Definition model_store (alias : pystr) : DjangoIdempotencyStore W V :=
  mkStore alias (model_reserve decode_value) model_renew (model_complete encode_value) model_mark_uncertain model_abandon.

Definition stale (p : id -> idempotency_row -> bool) (T : table) : bool := Z.of_nat (size (matching p T)) =? 0.

(** What a request does to the rows in one step, and its answer. *)
Inductive request_step : request -> table -> answer -> table -> Prop :=
  | step_reserve scope key fp now ttl T d T' : reserve_step (scope, key) fp now ttl T d T' -> request_step (ReserveRequest scope key fp now ttl) T (Decided d) T'
  | step_renew token now ttl until T : dt_add now ttl = Ok until ->
      request_step (RenewRequest token now ttl) T (DidRenew (if stale (authorised token now) T then RenewStale else ReservationRenewed until))
        (apply_call (CallRenew token now until) T)
  | step_complete token value encoded now ttl until T : encode_value value = Ok encoded -> dt_add now ttl = Ok until ->
      request_step (CompleteRequest token value now ttl) T (DidComplete (if stale (authorised token now) T then CompleteStale else ReservationCompleted until))
        (apply_call (CallComplete token encoded now until) T)
  | step_uncertain token reason now ttl until T : dt_add now ttl = Ok until ->
      request_step (UncertainRequest token reason now ttl) T
        (DidMark (if stale (authorised token now) T then MarkUncertainStale else ReservationMarkedUncertain until)) (apply_call (CallUncertain token reason now until) T)
  | step_abandon token now T :
      request_step (AbandonRequest token now) T (DidAbandon (if stale (authorised token now) T then AbandonStale else ReservationAbandoned))
        (apply_call (CallAbandon token now) T).

(** The requests the checks let through. *)
Definition accepted (alias : pystr) (r : request) : Prop :=
  vendor alias = "postgresql"%py /\
  match r with
  | ReserveRequest _ key _ now ttl => is_utc now = true /\ str_empty key = false /\ 0 < ttl
  | RenewRequest _ now ttl | CompleteRequest _ _ now ttl => is_utc now = true /\ 0 < ttl
  | UncertainRequest _ reason now ttl => is_utc now = true /\ str_empty reason = false /\ 0 < ttl
  | AbandonRequest _ now => is_utc now = true
  end.

(** What a request may raise: a database error, also when the row that took the identity is
    gone again; an instant outside the calendar; what the consumer's codec or the JSON
    validator raise; the error of a check that refuses the request. *)
Definition request_raises (alias : pystr) (r : request) (e : exn) : Prop :=
  failure e \/ e = IntegrityError \/ (exists now ttl, dt_add now ttl = Raise e) \/ (exists j, decode_value j = Raise e) \/
  (exists v, encode_value v = Raise e) \/ (exists j, fst (validate_json (S := unit) j tt) = Raise e) \/ (~ accepted alias r /\ exists m, e = ValueError m).

Lemma decision_raises fp row e : decision_of decode_value fp row = Raise e -> exists j, decode_value j = Raise e.
Proof. unfold decision_of. repeat case_match; try done. destruct (decode_value (row_value row)) eqn:Hd; [done|]. intros [= ->]. eauto. Qed.

Lemma run_validate_json j (w : W) : (validate_json j w = (Ok tt, w)) \/ exists e, validate_json j w = (Raise e, w) /\ fst (validate_json (S := unit) j tt) = Raise e.
Proof. unfold validate_json, lift. cbn. destruct (validate_json_with _ _) as [[]|e]; eauto. Qed.

Lemma refused alias r m : ~ accepted alias r -> request_raises alias r (ValueError m).
Proof. intros Hr. do 6 right. eauto. Qed.

Lemma linearizes_json {A} (j : json) (m : M exn W A) (w : W) (step : table -> A -> table -> Prop) (raises : exn -> Prop) :
  (forall e : exn, fst (validate_json (S := unit) j tt) = Raise e -> raises e) -> linearizes rely m w step raises ->
  linearizes rely (validate_json j ;;; m) w step raises.
Proof.
  intros HX Hm. apply db_bind. unfold wp at 1. destruct (run_validate_json j w) as [->|(e & -> & He)]; [done|]. split; [apply follows_refl|auto].
Qed.

(** A check that refuses only what is not accepted. *)
Ltac refuse := let Hb := fresh in let Hacc := fresh in
  intros Hb; apply refused; unfold accepted; intros Hacc; cbv beta iota in Hacc;
  rewrite ?orb_true_iff, ?negb_true_iff, ?bool_decide_eq_false, ?Z.leb_le in Hb; destruct_and?; destruct_or?; (lia || congruence).
(** The checks of the store and of the callback in turn. *)
Ltac pass_checks := repeat (apply (linearizes_check rely); [refuse|intros _]; unfold model_store; cbn [store_using on_reserve on_renew on_complete on_mark_uncertain on_abandon]).

Lemma reserve_linearizes alias scope key fp now ttl w : linearizes rely (reserve (model_store alias) scope key fp now ttl) w
  (reserve_step (scope, key) fp now ttl) (request_raises alias (ReserveRequest scope key fp now ttl)).
Proof.
  pass_checks. apply (linearizes_atomic rely). intros w0 Hn. apply (reserve_block_runs scope key fp now ttl); [|done].
  intros e [?|[?|[?|(? & ? & ?%decision_raises)]]]; unfold request_raises; eauto 8.
Qed.

Lemma complete_linearizes alias token value now ttl w : linearizes rely (complete (model_store alias) token value now ttl) w
  (fun T a T' => exists encoded until, encode_value value = Ok encoded /\ dt_add now ttl = Ok until /\
    a = (if stale (authorised token now) T then CompleteStale else ReservationCompleted until) /\ T' = apply_call (CallComplete token encoded now until) T)
  (request_raises alias (CompleteRequest token value now ttl)).
Proof.
  pass_checks. apply (linearizes_lift rely); [unfold request_raises; eauto 8|]. intros encoded Henc.
  apply (linearizes_json encoded); [unfold request_raises; eauto 8|].
  apply (linearizes_lift rely); [unfold request_raises; eauto 8|]. intros until_ Hu.
  apply (linearizes_update rely (authorised token now) (completed encoded until_ now) (fun n => if n =? 0 then CompleteStale else ReservationCompleted until_));
    [intros T; by exists encoded, until_|unfold request_raises; eauto].
Qed.

(** C10. Over PostgreSQL, each call of the Django idempotency store that returns took effect
    in one step at one instant of its run, and answered what that step answers there: a
    reservation creates the row when the identity is available at that instant, and describes
    a row that is not available or that others created during the call; the other calls act on exactly the rows their token has unexpired authority over. A call
    that raises leaves no write, and raises only what a check, the codec, the calendar or the
    database raises. *)
Theorem requests_linearize alias r w : linearizes rely (run_request (model_store alias) r) w (request_step r) (request_raises alias r).
Proof.
  destruct r as [scope key fp now ttl|token now ttl|token value now ttl|token reason now ttl|token now]; apply (linearizes_map rely).
  - eapply (linearizes_mono rely); [apply reserve_linearizes|by constructor].
  - pass_checks. apply (linearizes_lift rely); [unfold request_raises; eauto 8|]. intros until_ Hu.
    apply (linearizes_update rely); [intros T; by constructor|unfold request_raises; eauto].
  - eapply (linearizes_mono rely); [apply complete_linearizes|]. intros T a T' (encoded & u & ? & ? & -> & ->). by constructor.
  - pass_checks. apply (linearizes_lift rely); [unfold request_raises; eauto 8|]. intros until_ Hu.
    apply (linearizes_update rely); [intros T; by constructor|unfold request_raises; eauto].
  - pass_checks. apply (linearizes_delete rely); [intros T; by constructor|unfold request_raises; eauto].
Qed.
End Runs.

(** ** What the calls of others leave alone *)

Lemma foreign_token t token now k r : t <> token -> reservation_token r = token_value token -> authorised t now k r = false.
Proof. intros Ht Hr. unfold authorised. rewrite bool_decide_false; [done|]. rewrite Hr. destruct token, t. cbn. congruence. Qed.

(** A row another session's call changes either carries another token, or may be reclaimed
    by that call; what it becomes then carries another token. *)
Lemma call_lookup c token T i : token_of c <> token ->
  (forall r, T !! i = Some r -> reservation_token r = token_value token -> apply_call c T !! i = Some r \/
     (reclaimable (clock_of c) r = true /\ forall r', apply_call c T !! i = Some r' -> reservation_token r' <> token_value token)) /\
  (forall r', apply_call c T !! i = Some r' -> reservation_token r' = token_value token -> T !! i = Some r').
Proof.
  intros Hc. split.
  - intros r Hr Ht. destruct c as [j fp now until drawn|t now until|t encoded now until|t reason now until|t now]; cbn in *;
      rewrite ?updated_lookup, ?deleted_lookup, ?Hr; cbn; rewrite ?(foreign_token t token now i r) by done; [|by left..].
    destruct (available now (T !! j)) eqn:Ha; [|by left]. destruct (decide (j = i)) as [->|Hj]; [|left; by rewrite lookup_insert_ne].
    right. rewrite Hr in Ha. split; [done|]. rewrite lookup_insert_eq. intros r' [= <-]. cbn. destruct drawn, token; cbn in *; congruence.
  - destruct c as [j fp now until drawn|t now until|t encoded now until|t reason now until|t now]; cbn in *; intros r' Hr' Ht.
    2-4: rewrite updated_lookup in Hr'; destruct (T !! i) as [r|]; [|done]; cbn in Hr'; injection Hr' as <-;
      rewrite (foreign_token t token now i r) in * by (done || destruct (authorised _ _ _ _); done); done.
    + destruct (available now (T !! j)); [|done]. destruct (decide (j = i)) as [->|Hj]; [|by rewrite lookup_insert_ne in Hr'].
      rewrite lookup_insert_eq in Hr'. injection Hr' as <-. cbn in *. destruct drawn, token; cbn in *; congruence.
    + rewrite deleted_lookup in Hr'. destruct (T !! i) as [r|]; [|done]. by destruct (authorised t now i r).
Qed.

(** The token's row, if there is one, is the reservation of this request. *)
Definition sole (token : ReservationToken) (i : id) (fp : RequestFingerprint) (T : table) : Prop :=
  forall j r, T !! j = Some r -> reservation_token r = token_value token -> j = i /\ row_fingerprint r = fingerprint_value fp.
Definition unused (token : ReservationToken) (T : table) : Prop := forall j r, T !! j = Some r -> reservation_token r <> token_value token.
Definition recorded (token : ReservationToken) (i : id) (fp : RequestFingerprint) (encoded : json) (until : datetime) (T : table) : Prop :=
  exists r, T !! i = Some r /\ reservation_token r = token_value token /\ row_fingerprint r = fingerprint_value fp /\
    row_state r = "completed"%py /\ row_value r = encoded /\ row_expires_at r = until.

Section Kept.
Variable foreign : ReservationToken -> Prop.
Variables (token : ReservationToken) (t : Z).
Hypothesis Htoken : ~ foreign token.

Lemma others_lookup T T' j r : others foreign t T T' -> T' !! j = Some r -> reservation_token r = token_value token -> T !! j = Some r.
Proof. intros (c & Hc & _ & ->) Hr Ht. assert (token_of c <> token) as Hne by congruence. by apply (call_lookup c token T j Hne). Qed.

Lemma unused_kept T T' : rtc (others foreign t) T T' -> unused token T -> unused token T'.
Proof. induction 1 as [|T T1 T2 Ho _ IH]; [done|]. intros Hu. apply IH. intros j r Hr Ht. eapply Hu; [|exact Ht]. by eapply others_lookup. Qed.
Lemma sole_kept i fp T T' : rtc (others foreign t) T T' -> sole token i fp T -> sole token i fp T'.
Proof. induction 1 as [|T T1 T2 Ho _ IH]; [done|]. intros Hu. apply IH. intros j r Hr Ht. eapply Hu; [|exact Ht]. by eapply others_lookup. Qed.
Lemma recorded_kept i fp encoded until T T' : t <= dt_instant until -> rtc (others foreign t) T T' ->
  recorded token i fp encoded until T -> recorded token i fp encoded until T'.
Proof.
  intros Hle. induction 1 as [|T T1 T2 (c & Hc & Hnow & ->) _ IH]; [done|]. intros (r & Hr & Ht & Hfp & Hs & Hv & Hu). apply IH. exists r. split; [|done].
  assert (token_of c <> token) as Hne by congruence. destruct (proj1 (call_lookup c token T i Hne) r Hr Ht) as [?|[Hrec _]]; [done|]. exfalso.
  unfold reclaimable, dt_leb in Hrec. rewrite Hu in Hrec. lia.
Qed.
End Kept.

(** ** The guarantee *)

Section Guarantee.
Context {W V : Type} `{!Orm id idempotency_row W, !Session id idempotency_row W, !Atomic W, !Uuid W, !Connections}.
Variable encode_value : V -> result exn json.
Variable decode_value : json -> result exn V.

(** A completion that is not stale found the token's one row. *)
Lemma completion_records token i fp encoded now until T : sole token i fp T -> stale (authorised token now) T = false ->
  recorded token i fp encoded until (apply_call (CallComplete token encoded now until) T).
Proof.
  intros Hsole Hn. unfold stale in Hn. apply Z.eqb_neq in Hn.
  destruct (map_choose (matching (authorised token now) T)) as (j & r & Hr); [intros He; rewrite He in Hn; by rewrite map_size_empty in Hn|].
  apply matching_lookup in Hr as [Hr Ha]. assert (reservation_token r = token_value token) as Ht.
  { unfold authorised in Ha. by apply andb_true_iff in Ha as [[?%bool_decide_eq_true _]%andb_true_iff _]. }
  destruct (Hsole j r Hr Ht) as [-> Hfp]. exists (completed encoded until now r). cbn [apply_call]. rewrite updated_lookup, Hr. cbn. by rewrite Ha.
Qed.

(** A fresh reservation is the token's one row. *)
Lemma reservation_is_sole rely token i fp now ttl T T' : unused token T -> reserve_step (W := W) rely decode_value i fp now ttl T (Execute token) T' -> sole token i fp T'.
Proof.
  intros Hu Hs. inversion Hs as [token' until Ha Hadd Hne Htok HT|row d Hrow _ Hd]; subst.
  - intros j r Hr Ht. destruct (decide (j = i)) as [->|Hj].
    + rewrite lookup_insert_eq in Hr. injection Hr as <-. done.
    + rewrite lookup_insert_ne in Hr by done. by destruct (Hu j r Hr).
  - exfalso. unfold decision_of in Hd. repeat case_match; try done. by destruct (decode_value _).
Qed.

Lemma reservation_drawn rely token i fp now ttl T T' : reserve_step (W := W) rely decode_value i fp now ttl T (Execute token) T' -> drawn (W := W) token.
Proof.
  intros Hs. inversion Hs as [token' until Ha Hadd Hne Htok HT|row d Hrow _ Hd]; subst; [done|].
  exfalso. unfold decision_of in Hd. repeat case_match; try done. by destruct (decode_value _).
Qed.

(** A reservation that meets a recorded result replays it. *)
Lemma recorded_replays rely token i fp encoded until now ttl T d T' : dt_ltb now until = true -> recorded token i fp encoded until T ->
  reserve_step (W := W) rely decode_value i fp now ttl T d T' -> T' = T /\ exists replayed, decode_value encoded = Ok replayed /\ d = Replay (Some replayed).
Proof.
  intros Hnow (r & Hr & Ht & Hfp & Hst & Hv & Hu) Hs. inversion Hs as [token' until' Ha Hadd Hne Htok HT|row d' Hrow _ Hd]; subst.
  - exfalso. rewrite Hr in Ha. cbn in Ha. unfold reclaimable, dt_leb, dt_ltb in *. lia.
  - split; [done|]. rewrite Hr in Hrow. injection Hrow as <-. unfold decision_of in Hd. rewrite Hfp, Hst, !bool_decide_true in Hd by done. cbn in Hd.
    destruct (decode_value (row_value r)) as [v|]; [|done]. injection Hd as <-. eauto.
Qed.

(** C9. A result that was recorded is the one replayed, whatever other sessions commit in
    between: when a reservation of an identity was granted with a fresh token, and a
    completion under this token was answered [ReservationCompleted until], then every later
    reservation of the identity with the same fingerprint and a clock before [until] replays
    the recorded value. It never executes again; other sessions may expire, reclaim, renew
    and complete what they like with their own tokens and clocks before [until]. *)
Theorem django_result_replayed alias scope key fp now ttl w0 token w1 value now1 ttl1 until w2 now2 ttl2 :
  OrmLaws (others_than token (dt_instant until)) -> UuidLaws -> nesting w0 = 0%nat -> unused token (rows w0) ->
  reserve (model_store encode_value decode_value alias) scope key fp now ttl w0 = (Ok (Execute token), w1) ->
  complete (model_store encode_value decode_value alias) token value now1 ttl1 w1 = (Ok (ReservationCompleted until), w2) ->
  dt_ltb now2 until = true ->
  wp (reserve (model_store encode_value decode_value alias) scope key fp now2 ttl2) w2
    (fun d w3 => exists encoded replayed, encode_value value = Ok encoded /\ decode_value encoded = Ok replayed /\
      d = Replay (Some replayed) /\ recorded token (scope, key) fp encoded until (rows w3))
    (fun e _ => request_raises encode_value decode_value alias (ReserveRequest scope key fp now2 ttl2) e).
Proof.
  intros Hlaws Huuid Hn Hfresh Hres Hcomp Hnow. set (rely := others_than token (dt_instant until)). assert (~ token <> token) as Hne by auto.
  pose proof (reserve_linearizes rely encode_value decode_value alias scope key fp now ttl w0) as H1. unfold linearizes, wp in H1. rewrite Hres in H1.
  destruct H1 as ([Hn1 _] & T1 & HT1 & Hs1). apply (instant_top rely) in HT1; [|done].
  assert (sole token (scope, key) fp (rows w1)) as Hsole.
  { eapply reservation_is_sole; [|exact Hs1]. by eapply (unused_kept _ token _ Hne). }
  pose proof (complete_linearizes rely encode_value decode_value alias token value now1 ttl1 w1) as H2. unfold linearizes, wp in H2. rewrite Hcomp in H2.
  destruct H2 as ([Hn2 _] & T2 & HT2 & encoded & u & Henc & Hu & Hans & Hrows). apply (instant_top rely) in HT2; [|congruence].
  assert (recorded token (scope, key) fp encoded until (rows w2)) as Hrec.
  { rewrite Hrows. destruct (stale _ T2) eqn:Hst; [done|]. injection Hans as <-. apply completion_records; [|done]. by eapply (sole_kept _ token _ Hne). }
  eapply db_mono; [apply (reserve_linearizes rely encode_value decode_value)| |by intros e w' [_ He]].
  intros d w3 ([Hn3 _] & T3 & HT3 & Hs3). apply (instant_top rely) in HT3; [|congruence].
  apply (recorded_kept (fun t' => t' <> token) token (dt_instant until) Hne (scope, key) fp encoded until _ T3) in Hrec; [|done|done].
  destruct (recorded_replays rely token (scope, key) fp encoded until now2 ttl2 T3 d (rows w3) Hnow Hrec Hs3) as (-> & replayed & Hdec & ->).
  by exists encoded, replayed.
Qed.
End Guarantee.

(** ** A concrete history: another session reserves and renews, then asks for the same
    identity. *)

Section Example.
#[local] Existing Instance unary_uuid.
#[local] Existing Instance unary_uuid_laws.
#[local] Instance only_postgresql : Connections := fun _ => "postgresql"%py.

Definition example_id : id := (mkScope "n" "s" "o", "k")%py.
Definition example_token : ReservationToken := mkToken "a".
Definition example_until : datetime := utc 150.

Definition other_call (c : call) (Hc : token_of c <> example_token) (Hnow : dt_instant (clock_of c) < dt_instant example_until) :
    { f : table -> table | forall T, others_than example_token (dt_instant example_until) T (f T) } :=
  exist _ (apply_call c) (fun T => ex_intro _ c (conj Hc (conj Hnow eq_refl))).

Definition example_others : list { f : table -> table | forall T, others_than example_token (dt_instant example_until) T (f T) } :=
  [other_call (CallReserve (mkScope "n" "s" "o", "other")%py (mkFingerprint "g") (utc 0) (utc 50) (mkToken "z")) ltac:(done) ltac:(done);
   other_call (CallAbandon (mkToken "y") (utc 1)) ltac:(done) ltac:(done);
   other_call (CallRenew (mkToken "z") (utc 10) (utc 60)) ltac:(done) ltac:(done);
   other_call (CallReserve example_id (mkFingerprint "f") (utc 130) (utc 140) (mkToken "z")) ltac:(done) ltac:(done)].

Definition example_db : db (others_than example_token (dt_instant example_until)) := mkDb _ ∅ ∅ ∅ 0 0 example_others.

Abbreviation example_store := (model_store (W := db (others_than example_token (dt_instant example_until))) (V := json) Ok Ok "default").
Definition example_reserve now := reserve example_store (mkScope "n" "s" "o") "k" (mkFingerprint "f") now 60.

Definition reserved_db := after (example_reserve (utc 0)) example_db.
Definition completed_db := after (complete example_store example_token (JInt 7) (utc 50) 100) reserved_db.

Definition example_request : request (V := json) := ReserveRequest (mkScope "n" "s" "o") "k" (mkFingerprint "f") (utc 0) 60.

Lemma requests_linearize_witness :
  answers_with (run_request example_store example_request) example_db (Decided (Execute example_token)) /\
  linearizes (others_than example_token (dt_instant example_until)) (run_request example_store example_request) example_db
    (request_step (W := db (others_than example_token (dt_instant example_until))) (others_than example_token (dt_instant example_until)) Ok Ok example_request) (request_raises (W := db (others_than example_token (dt_instant example_until))) Ok Ok "default" example_request).
Proof. split; [by vm_compute|]. apply (requests_linearize (others_than example_token (dt_instant example_until)) Ok Ok "default" example_request example_db). Defined.

Lemma django_result_replayed_witness :
  answers_with (example_reserve (utc 0)) example_db (Execute example_token) /\
  answers_with (complete example_store example_token (JInt 7) (utc 50) 100) reserved_db (ReservationCompleted example_until) /\
  answers_with (example_reserve (utc 120)) completed_db (Replay (Some (JInt 7))) /\
  wp (example_reserve (utc 120)) completed_db
    (fun d w3 => exists encoded replayed, Ok (E := exn) (JInt 7) = Ok encoded /\ Ok (E := exn) encoded = Ok replayed /\
      d = Replay (Some replayed) /\ recorded example_token example_id (mkFingerprint "f") encoded example_until (rows w3))
    (fun e _ => request_raises (W := db (others_than example_token (dt_instant example_until))) Ok Ok "default"
      (ReserveRequest (mkScope "n" "s" "o") "k" (mkFingerprint "f") (utc 120) 60) e).
Proof.
  split_and!; [by vm_compute..|].
  apply (django_result_replayed Ok Ok "default" (mkScope "n" "s" "o") "k" (mkFingerprint "f") (utc 0) 60 example_db example_token reserved_db
    (JInt 7) (utc 50) 100 example_until completed_db (utc 120) 60).
  - apply db_laws.
  - exact (db_uuid_laws _).
  - done.
  - intros j r Hr. assert (rows example_db = ∅) as He by (by vm_compute). by rewrite He in Hr.
  - apply (answers_after (example_reserve (utc 0))). by vm_compute.
  - apply (answers_after (complete example_store example_token (JInt 7) (utc 50) 100)). by vm_compute.
  - done.
Defined.
End Example.
