(* ===== verification/DjangoLeases.v ===== *)
(** * The Django lease store and fenced commit ([django/stores.py], [django/leases.py])

    The callbacks built from a consumer's model, the store that checks arguments and calls
    them, the fenced commit that holds the authority's row locked while the mutation runs,
    and what they do among the commits of other transactions. *)
From Stdlib Require Import ZArith Lia.
From stdpp Require Import base list gmap relations.
From S2P Require Import Prelude Leases Database DatabaseModel Django.

(** A row beside its unique resource key; a released lease keeps its row and its token. *)
Record lease_row := mkLeaseRow { row_owner : option pystr; row_token : Z; row_expires : option datetime }.

#[export] Instance lease_row_eq_dec : EqDecision lease_row.
Proof. solve_decision. Defined.

(** The callbacks, [using] included. *)
Record DjangoLeaseStore (W R : Type) := mkDjangoLeases {
  lease_using : pystr;
  on_acquire : R -> pystr -> datetime -> timedelta -> pystr -> M exn W (AcquireResult R);
  on_renew : Lease R -> datetime -> timedelta -> pystr -> M exn W (RenewResult R);
  on_release : Lease R -> datetime -> pystr -> M exn W ReleaseResult;
  on_authority : R -> pystr -> M exn W (option Z);
  on_lock_authority : R -> pystr -> M exn W (option LeaseAuthority)
}.
Arguments mkDjangoLeases {W R}.
Arguments lease_using {W R}.
Arguments on_acquire {W R}.
Arguments on_renew {W R}.
Arguments on_release {W R}.
Arguments on_authority {W R}.
Arguments on_lock_authority {W R}.

Section Store.
Context {W R : Type}.

Definition from_callbacks (s : DjangoLeaseStore W R) : M exn W (DjangoLeaseStore W R) :=
  let! _ := _alias (lease_using s) in ret s.

Definition acquire (s : DjangoLeaseStore W R) (r : R) (o : pystr) (now : datetime) (ttl : timedelta) : M exn W (AcquireResult R) :=
  Django._utc now ;;;
  raise_if (str_empty o || (ttl <=? 0)) (ValueError "owner and positive ttl are required") ;;;
  on_acquire s r o now ttl (lease_using s).

Definition renew (s : DjangoLeaseStore W R) (l : Lease R) (now : datetime) (ttl : timedelta) : M exn W (RenewResult R) :=
  Django._utc now ;;;
  check_positive ttl "ttl must be positive" ;;;
  on_renew s l now ttl (lease_using s).

Definition release (s : DjangoLeaseStore W R) (l : Lease R) (now : datetime) : M exn W ReleaseResult :=
  Django._utc now ;;;
  on_release s l now (lease_using s).

Definition authority (s : DjangoLeaseStore W R) (r : R) : M exn W (option Z) := on_authority s r (lease_using s).
Definition lock_authority (s : DjangoLeaseStore W R) (r : R) : M exn W (option LeaseAuthority) := on_lock_authority s r (lease_using s).

Definition django_lease_port (s : DjangoLeaseStore W R) : LeaseStore W R := {|
  port_acquire := acquire s;
  port_renew_lease := renew s;
  port_release := release s;
  port_authority := authority s
|}.
End Store.

(** ** The callbacks of a model *)

Section Model.
Context {W R : Type} `{!Orm pystr lease_row W, !Atomic W, !Connections}.
Variable encode_resource : R -> pystr.

(** The owner and expiry of an unexpired row. *)
Definition claimant (now : datetime) (row : lease_row) : option (pystr * datetime) :=
  match row_owner row, row_expires row with
  | Some o, Some e => if dt_ltb now e then Some (o, e) else None
  | _, _ => None
  end.

Definition acquire_block (r : R) (o : pystr) (now : datetime) (ttl : timedelta) : M exn W (AcquireResult R) :=
  let key := encode_resource r in
  let! found := _locked_first key in
  let! rc := match found with
    | Some row => ret (row, false)
    | None => let! until := lift (dt_add now ttl) in _create_or_locked key (mkLeaseRow (Some o) 1 (Some until))
    end in
  let '(row, created) := rc in
  if created : bool then
    let! until := lift (dt_add now ttl) in
    let! l := Lease_new r o 1 until in
    ret (LeaseAcquired l)
  else
    match claimant now row with
    | Some (o', e) => ret (LeaseBusy o' e)
    | None =>
        let! until := lift (dt_add now ttl) in
        save key (fun _ => mkLeaseRow (Some o) (row_token row + 1) (Some until)) ;;;
        let! l := Lease_new r o (row_token row + 1) until in
        ret (LeaseAcquired l)
    end.

Definition model_acquire (r : R) (o : pystr) (now : datetime) (ttl : timedelta) (alias : pystr) : M exn W (AcquireResult R) :=
  _postgresql alias ;;;
  Django._utc now ;;;
  atomic (acquire_block r o now ttl).

Definition _authoritative (row : option lease_row) (l : Lease R) (now : datetime) : bool :=
  match row with
  | Some row =>
      bool_decide (row_owner row = Some (owner l)) && (row_token row =? fencing_token l) &&
      match row_expires row with Some e => (dt_instant e =? dt_instant (expires_at l)) && dt_ltb now e | None => false end
  | None => false
  end.

Definition _renewed (l : Lease R) (until : datetime) : M exn W (RenewResult R) :=
  let! renewed := Lease_new (resource l) (owner l) (fencing_token l) until in ret (LeaseRenewed renewed).

Definition renew_block (l : Lease R) (now : datetime) (ttl : timedelta) : M exn W (RenewResult R) :=
  let key := encode_resource (resource l) in
  let! row := _locked_first key in
  if negb (_authoritative row l now) then ret (StaleLease stale_reason)
  else
    let! until := lift (dt_add now ttl) in
    save key (fun row => mkLeaseRow (row_owner row) (row_token row) (Some until)) ;;;
    _renewed l until.

Definition model_renew (l : Lease R) (now : datetime) (ttl : timedelta) (alias : pystr) : M exn W (RenewResult R) :=
  _postgresql alias ;;;
  Django._utc now ;;;
  atomic (renew_block l now ttl).

Definition release_block (l : Lease R) (now : datetime) : M exn W ReleaseResult :=
  let key := encode_resource (resource l) in
  let! row := _locked_first key in
  if negb (_authoritative row l now) then ret (ReleaseStale stale_reason)
  else
    save key (fun row => mkLeaseRow None (row_token row) None) ;;;
    ret LeaseReleased.

Definition model_release (l : Lease R) (now : datetime) (alias : pystr) : M exn W ReleaseResult :=
  _postgresql alias ;;;
  Django._utc now ;;;
  atomic (release_block l now).

Definition model_authority (r : R) (alias : pystr) : M exn W (option Z) :=
  _postgresql alias ;;;
  let! row := first (encode_resource r) in
  ret (match row with
    | Some row => match row_owner row with Some _ => Some (row_token row) | None => None end
    | None => None
    end).

Definition model_lock_authority (r : R) (alias : pystr) : M exn W (option LeaseAuthority) :=
  _postgresql alias ;;;
  let! row := locked_first (encode_resource r) in
  match row with
  | Some row =>
      match row_owner row, row_expires row with
      | Some o, Some e => let! a := LeaseAuthority_new o (row_token row) e in ret (Some a)
      | _, _ => ret None
      end
  | None => ret None
  end.

Definition model_store (alias : pystr) : DjangoLeaseStore W R :=
  mkDjangoLeases alias model_acquire model_renew model_release model_authority model_lock_authority.

(** [DjangoLeaseStore.from_model]. *)
Definition from_model (model : meta) (alias : pystr) : M exn W (DjangoLeaseStore W R) :=
  _unique model {["resource_key"%py]} ;;;
  from_callbacks (model_store alias).
End Model.

(** ** The fenced commit *)

Record DjangoFencedCommit (W R : Type) := mkFenced {
  fenced_using : pystr;
  fenced_lock : R -> pystr -> M exn W (option LeaseAuthority)
}.
Arguments mkFenced {W R}.
Arguments fenced_using {W R}.
Arguments fenced_lock {W R}.

Section Fenced.
Context {W R A : Type} `{!Atomic W, !Clock W}.

Definition DjangoFencedCommit_new (f : DjangoFencedCommit W R) : M exn W (DjangoFencedCommit W R) :=
  raise_if (str_empty (fenced_using f)) (ValueError "a Django database alias is required") ;;;
  ret f.

(** [DjangoFencedCommit.from_store]; a value of the store type has the attributes it asks for. *)
Definition from_store (s : DjangoLeaseStore W R) : M exn W (DjangoFencedCommit W R) :=
  raise_if (str_empty (lease_using s)) (ValueError "a Django lease store with an explicit alias is required") ;;;
  DjangoFencedCommit_new (mkFenced (lease_using s) (fun r _ => lock_authority s r)).

(** [authority is None or ... or authority.expires_at <= self._now()]: the clock is read last. *)
Definition fenced_out (l : Lease R) (a : option LeaseAuthority) : M exn W bool :=
  match a with
  | None => ret true
  | Some a =>
      if negb (bool_decide (authority_owner a = owner l)) || negb (authority_token a =? fencing_token l) then ret true
      else let! now := clock_now in ret (dt_leb (authority_expires_at a) now)
  end.

Definition commit (f : DjangoFencedCommit W R) (l : Lease R) (mutation : M exn W A) : M exn W (FencedResult A) :=
  atomic
    (let! a := fenced_lock f (resource l) (fenced_using f) in
     let! out := fenced_out l a in
     if out : bool then ret (FencedStale "lease is expired or no longer authoritative")
     else let! value := mutation in ret (FencedCommitted value)).
End Fenced.

(** ** Leases over a shared database

    What one call of the Django lease store does while other sessions acquire, renew and
    release, and the guarantees over whole histories: fencing tokens increase, a superseded
    lease does nothing any more, and a fenced mutation runs under its row's lock. *)

Abbreviation lease_table := (gmap pystr lease_row).

Section Steps.
Context {R : Type}.
Variable encode_resource : R -> pystr.

(** ** The calls of the sessions, as steps on the rows *)

Inductive lease_call :=
  | CallAcquire (r : R) (o : pystr) (now until : datetime)
  | CallRenewLease (l : Lease R) (now until : datetime)
  | CallRelease (l : Lease R) (now : datetime).

(** The next token of a resource that nobody holds. *)
Definition next_token (row : option lease_row) : Z := default 0 (row_token <$> row) + 1.
Definition holder (now : datetime) (row : option lease_row) : option (pystr * datetime) := row ≫= claimant now.

Definition renewed_row (until : datetime) (row : lease_row) : lease_row := mkLeaseRow (row_owner row) (row_token row) (Some until).
Definition released_row (row : lease_row) : lease_row := mkLeaseRow None (row_token row) None.

Definition apply_lease (c : lease_call) (T : lease_table) : lease_table :=
  match c with
  | CallAcquire r o now until =>
      let k := encode_resource r in
      match holder now (T !! k) with
      | Some _ => T
      | None => <[k := mkLeaseRow (Some o) (next_token (T !! k)) (Some until)]> T
      end
  | CallRenewLease l now until =>
      let k := encode_resource (resource l) in if _authoritative (T !! k) l now then alter (renewed_row until) k T else T
  | CallRelease l now =>
      let k := encode_resource (resource l) in if _authoritative (T !! k) l now then alter released_row k T else T
  end.

Definition lease_calls : relation lease_table := fun T T' => exists c, T' = apply_lease c T.

(** The token of a resource never goes back. *)
Definition token_at (k : pystr) (T : lease_table) : Z := default 0 (row_token <$> T !! k).

Lemma lease_tokens_grow k T T' : rtc lease_calls T T' -> token_at k T <= token_at k T'.
Proof.
  induction 1 as [|T T1 T2 [c ->] _ IH]; [lia|]. etrans; [|exact IH]. clear. unfold token_at.
  destruct c as [r o now until|l now until|l now]; cbn.
  - destruct (holder now (T !! encode_resource r)); [lia|]. destruct (decide (encode_resource r = k)) as [<-|Hk].
    + rewrite lookup_insert_eq. cbn. unfold next_token. lia.
    + rewrite lookup_insert_ne by done. lia.
  - case_match; [|lia]. rewrite lookup_alter. case_decide; [|lia]. subst. destruct (T !! _); cbn; lia.
  - case_match; [|lia]. rewrite lookup_alter. case_decide; [|lia]. subst. destruct (T !! _); cbn; lia.
Qed.
End Steps.

(** ** What one call does *)

Section Runs.
Context {W R : Type} `{!Orm pystr lease_row W, !Session pystr lease_row W, !Atomic W, !Connections}.
Context (rely : relation lease_table) `{!OrmLaws rely}.
Variable encode_resource : R -> pystr.

Inductive acquire_step (r : R) (o : pystr) (now : datetime) (ttl : timedelta) (T : lease_table) : AcquireResult R -> lease_table -> Prop :=
  | acquire_busy o' e : holder now (T !! encode_resource r) = Some (o', e) -> acquire_step r o now ttl T (LeaseBusy o' e) T
  | acquire_granted until : holder now (T !! encode_resource r) = None -> dt_add now ttl = Ok until ->
      acquire_step r o now ttl T (LeaseAcquired (mkLease r o (next_token (T !! encode_resource r)) until))
        (apply_lease encode_resource (CallAcquire r o now until) T).

Inductive renew_step (l : Lease R) (now : datetime) (ttl : timedelta) (T : lease_table) : RenewResult R -> lease_table -> Prop :=
  | renew_stale : _authoritative (T !! encode_resource (resource l)) l now = false -> renew_step l now ttl T (StaleLease stale_reason) T
  | renew_granted until : _authoritative (T !! encode_resource (resource l)) l now = true -> dt_add now ttl = Ok until ->
      renew_step l now ttl T (LeaseRenewed (mkLease (resource l) (owner l) (fencing_token l) until))
        (apply_lease encode_resource (CallRenewLease l now until) T).

Inductive release_step (l : Lease R) (now : datetime) (T : lease_table) : ReleaseResult -> lease_table -> Prop :=
  | release_stale : _authoritative (T !! encode_resource (resource l)) l now = false -> release_step l now T (ReleaseStale stale_reason) T
  | release_done : _authoritative (T !! encode_resource (resource l)) l now = true ->
      release_step l now T LeaseReleased (apply_lease encode_resource (CallRelease l now) T).

(** What a call may raise: a check's error, a database error, an instant outside the calendar. *)
Definition lease_raises (e : exn) : Prop :=
  failure e \/ e = IntegrityError \/ (exists now ttl, dt_add now ttl = Raise e) \/ (exists m, e = ValueError m).

Lemma lease_failure e : failure e -> lease_raises e.
Proof. by left. Qed.
Lemma lease_refused m : lease_raises (ValueError m).
Proof. do 3 right. eauto. Qed.
Lemma lease_overflow now ttl e : dt_add now ttl = Raise e -> lease_raises e.
Proof. do 2 right. left. eauto. Qed.
#[local] Hint Resolve lease_failure lease_refused lease_overflow : core.

Lemma wp_lease_new r o token until w (Q : Lease R -> W -> Prop) (X : exn -> W -> Prop) : Q (mkLease r o token until) w -> (forall m, X (ValueError m) w) ->
  wp (Lease_new r o token until) w Q X.
Proof. intros HQ HX. unfold Lease_new. apply db_bind, db_raise_if; [intros _|by auto]. apply db_bind, db_raise_if; [intros _|by auto]. by apply wp_ret. Qed.

(** The rest of an acquisition once the row is there and locked. *)
Lemma take_runs r o now ttl row w w1 : sees rely w w1 -> nesting w1 <> 0%nat -> rows w1 !! encode_resource r = Some row -> encode_resource r ∈ held w1 ->
  wp (match claimant now row with
      | Some (o', e) => ret (LeaseBusy o' e)
      | None =>
          let! until := lift (dt_add now ttl) in
          save (encode_resource r) (fun _ => mkLeaseRow (Some o) (row_token row + 1) (Some until)) ;;;
          let! l := Lease_new r o (row_token row + 1) until in
          ret (LeaseAcquired l)
      end) w1 (fun a w' => grew rely w w' /\ exists T, instant rely w T /\ acquire_step r o now ttl T a (rows w')) (fun e _ => lease_raises e).
Proof.
  intros Hs Hz Hrow Hk. destruct (claimant now row) as [[o' e]|] eqn:Hc.
  - apply wp_ret. split; [by apply grew_sees|]. exists (rows w1). split; [by apply sees_instant|]. apply acquire_busy. by rewrite Hrow.
  - apply db_bind, wp_lift; [|eauto]. intros u Hu. apply db_bind. eapply db_mono; [eapply (wp_saved rely w w1); [done|exact Hrow|done|done]| |auto].
    intros _ w2 (Hg & T & HT & HTk & Hr). apply db_bind, wp_lease_new; [|auto]. apply wp_ret. split; [done|]. exists T. split; [done|].
    assert (holder now (T !! encode_resource r) = None) as Hh by (by rewrite HTk).
    pose proof (acquire_granted r o now ttl T u Hh Hu) as Hstep. cbn [apply_lease] in Hstep. rewrite Hh, HTk in Hstep. unfold next_token in Hstep. cbn in Hstep. by rewrite Hr.
Qed.

Lemma acquire_block_runs r o now ttl w : nesting w <> 0%nat ->
  wp (acquire_block encode_resource r o now ttl) w (fun a w' => grew rely w w' /\ exists T, instant rely w T /\ acquire_step r o now ttl T a (rows w')) (fun e _ => lease_raises e).
Proof.
  intros Hn. apply db_bind, (wp_locked_first rely); [|auto]. intros w1 [Hs1 Hn1] Hlock.
  apply db_bind. destruct (rows w1 !! encode_resource r) as [row|] eqn:Hrow.
  - apply wp_ret. apply take_runs; [done|by rewrite Hn1|done|by apply Hlock].
  - apply db_bind, wp_lift; [|eauto]. intros u Hu. apply (wp_create_or_locked rely).
    + intros w2 w3 Hs2 Hnone Hr Hb Hk _. apply db_bind. rewrite Hu. apply wp_lift; [intros ? [= <-]|done]. apply db_bind, wp_lease_new; [|auto]. apply wp_ret.
      split; [eapply (grew_trans rely); [by apply grew_sees|eapply (grew_created rely w1 w2); try done; by rewrite Hn1]|]. exists (rows w2). split; [by eapply sees_instant, sees_trans|].
      assert (holder now (rows w2 !! encode_resource r) = None) as Hh by (by rewrite Hnone).
      pose proof (acquire_granted r o now ttl (rows w2) u Hh Hu) as Hstep. cbn [apply_lease] in Hstep. rewrite Hh, Hnone in Hstep. by rewrite Hr.
    + intros w2 row [Hs2 Hn2] Hrow' Hk. apply take_runs; [by eapply sees_trans|by rewrite Hn2, Hn1|done|]. apply Hk. lia.
    + intros e w2 _ [He|He]; [auto|by right; left].
Qed.

Lemma altered (k : pystr) (f : lease_row -> lease_row) row (T : lease_table) : T !! k = Some row -> <[k := f row]> T = alter f k T.
Proof.
  intros Hk. apply map_eq. intros j. destruct (decide (j = k)) as [->|Hj]; [by rewrite lookup_insert_eq, lookup_alter_eq, Hk|].
  by rewrite lookup_insert_ne, lookup_alter_ne.
Qed.

Lemma renew_block_runs l now ttl w : nesting w <> 0%nat ->
  wp (renew_block encode_resource l now ttl) w (fun a w' => grew rely w w' /\ exists T, instant rely w T /\ renew_step l now ttl T a (rows w')) (fun e _ => lease_raises e).
Proof.
  intros Hn. apply db_bind, (wp_locked_first rely); [|auto]. intros w1 [Hs1 Hn1] Hlock.
  destruct (_authoritative (rows w1 !! encode_resource (resource l)) l now) eqn:Ha; cbn [negb].
  - destruct (rows w1 !! encode_resource (resource l)) as [row|] eqn:Hrow; [|done].
    apply db_bind, wp_lift; [|eauto]. intros u Hu. apply db_bind. eapply db_mono; [eapply (wp_saved rely w w1); [done|exact Hrow|by apply Hlock|by rewrite Hn1]| |auto].
    intros _ w2 (Hg & T & HT & HTk & Hr). apply db_bind, wp_lease_new; [|auto]. apply wp_ret. split; [done|]. exists T. split; [done|].
    rewrite <- HTk in Ha. pose proof (renew_granted l now ttl T u Ha Hu) as Hstep. cbn [apply_lease] in Hstep. rewrite Ha in Hstep.
    rewrite <- (altered _ (renewed_row u) row T HTk) in Hstep. by rewrite Hr.
  - apply wp_ret. split; [by apply grew_sees|]. exists (rows w1). split; [by apply sees_instant|by apply renew_stale].
Qed.

Lemma release_block_runs l now w : nesting w <> 0%nat ->
  wp (release_block encode_resource l now) w (fun a w' => grew rely w w' /\ exists T, instant rely w T /\ release_step l now T a (rows w')) (fun e _ => lease_raises e).
Proof.
  intros Hn. apply db_bind, (wp_locked_first rely); [|auto]. intros w1 [Hs1 Hn1] Hlock.
  destruct (_authoritative (rows w1 !! encode_resource (resource l)) l now) eqn:Ha; cbn [negb].
  - destruct (rows w1 !! encode_resource (resource l)) as [row|] eqn:Hrow; [|done].
    apply db_bind. eapply db_mono; [eapply (wp_saved rely w w1); [done|exact Hrow|by apply Hlock|by rewrite Hn1]| |auto].
    intros _ w2 (Hg & T & HT & HTk & Hr). apply wp_ret. split; [done|]. exists T. split; [done|].
    rewrite <- HTk in Ha. pose proof (release_done l now T Ha) as Hstep. cbn [apply_lease] in Hstep. rewrite Ha in Hstep.
    rewrite <- (altered _ released_row row T HTk) in Hstep. by rewrite Hr.
  - apply wp_ret. split; [by apply grew_sees|]. exists (rows w1). split; [by apply sees_instant|by apply release_stale].
Qed.

(** ** Requests *)

Ltac pass_lease_checks := repeat (apply (linearizes_check rely); [auto|intros _]; unfold model_store; cbn [lease_using on_acquire on_renew on_release]).

Lemma acquire_linearizes alias r o now ttl w : linearizes rely (acquire (model_store encode_resource alias) r o now ttl) w (acquire_step r o now ttl) lease_raises.
Proof. pass_lease_checks. apply (linearizes_atomic rely). intros w0 Hn. by apply acquire_block_runs. Qed.
Lemma renew_linearizes alias l now ttl w : linearizes rely (renew (model_store encode_resource alias) l now ttl) w (renew_step l now ttl) lease_raises.
Proof. pass_lease_checks. apply (linearizes_atomic rely). intros w0 Hn. by apply renew_block_runs. Qed.
Lemma release_linearizes alias l now w : linearizes rely (release (model_store encode_resource alias) l now) w (release_step l now) lease_raises.
Proof. pass_lease_checks. apply (linearizes_atomic rely). intros w0 Hn. by apply release_block_runs. Qed.
End Runs.

(** ** The guarantees *)

Section Guarantee.
Context {W R : Type} `{!Orm pystr lease_row W, !Session pystr lease_row W, !Atomic W, !Connections}.
Variable encode_resource : R -> pystr.
Context (rely : relation lease_table) `{!OrmLaws rely}.
(** The clock of the fenced commit. *)
Variable reading : datetime.
#[local] Instance reading_clock : Clock W := ret reading.

(** The row of a lease that may still write. *)
Definition grants (l : Lease R) (row : lease_row) : Prop :=
  row_owner row = Some (owner l) /\ row_token row = fencing_token l /\ exists e, row_expires row = Some e /\ dt_ltb reading e = true.

Definition commit_of {A} (alias : pystr) (l : Lease R) (mutation : M exn W A) : M exn W (FencedResult A) :=
  commit (mkFenced alias (fun r _ => lock_authority (model_store encode_resource alias) r)) l mutation.

(** The authority read under the row's lock, compared to the lease. *)
Lemma wp_fenced_out alias l w0 (Q : bool -> W -> Prop) (X : exn -> W -> Prop) :
  (forall w1, sees rely w0 w1 -> nesting w1 = nesting w0 -> nesting w0 <> 0%nat ->
    (forall row, rows w1 !! encode_resource (resource l) = Some row -> grants l row -> encode_resource (resource l) ∈ held w1 -> Q false w1) /\
    ((forall row, rows w1 !! encode_resource (resource l) = Some row -> ~ grants l row) -> Q true w1)) ->
  (forall e w1, X e w1) -> nesting w0 <> 0%nat ->
  wp (let! a := lock_authority (model_store encode_resource alias) (resource l) in fenced_out l a) w0 Q X.
Proof.
  intros HQ HX Hn. unfold lock_authority, model_store. cbn [on_lock_authority lease_using]. unfold model_lock_authority.
  apply db_bind, db_bind, db_raise_if; [intros _|by auto]. apply db_bind.
  apply (wp_locked_first rely); [|by auto]. intros w1 [Hs1 Hn1] Hlock. destruct (HQ w1 Hs1 Hn1 Hn) as [Hf Ht]. 
  destruct (rows w1 !! encode_resource (resource l)) as [row|] eqn:Hrow; [|by apply wp_ret, wp_ret, Ht].
  destruct (row_owner row) as [o|] eqn:Ho; [|apply wp_ret, wp_ret, Ht; intros row' [= <-] (Ho' & _); congruence].
  destruct (row_expires row) as [e|] eqn:He; [|apply wp_ret, wp_ret, Ht; intros row' [= <-] (_ & _ & e & He' & _); congruence].
  apply db_bind. unfold LeaseAuthority_new. apply db_bind, db_raise_if; [intros _|by auto]. apply db_bind, db_raise_if; [intros _|by auto]. apply wp_ret, wp_ret.
  unfold fenced_out. cbn [authority_owner authority_token authority_expires_at].
  destruct (decide (o = owner l)) as [->|Hne]; [rewrite bool_decide_true by done|rewrite bool_decide_false by done; apply wp_ret, Ht; intros row' [= <-] (Ho' & _); congruence].
  destruct (row_token row =? fencing_token l) eqn:Htok; [|apply wp_ret, Ht; intros row' [= <-] (_ & Ht' & _); lia].
  apply Z.eqb_eq in Htok. cbn [negb orb]. apply db_bind, wp_ret, wp_ret.
  destruct (dt_leb e reading) eqn:Hle; unfold dt_leb in *.
  - apply Ht. intros row' [= <-] (_ & _ & e' & He' & Hlt). unfold dt_ltb in Hlt. replace e' with e in * by congruence. lia.
  - eapply Hf; [done| |by apply Hlock]. repeat split; [done|done|]. exists e. unfold dt_ltb. split; [done|lia].
Qed.

(** How a fenced commit ends: the mutation ran with the resource's row locked and granting the
    lease, and the block that ran it was kept; or the row did not grant the lease and nothing
    was written; or an exception undid the block. *)
Definition fenced_outcome {A} (l : Lease R) (mutation : M exn W A) (w : W) (run : result exn (FencedResult A) * W) : Prop :=
  match run with
  | (Ok (FencedCommitted v), w2) => exists w1 w1' row, sees rely w w1 /\ rows w1 !! encode_resource (resource l) = Some row /\ grants l row /\
      encode_resource (resource l) ∈ held w1 /\ nesting w1 <> 0%nat /\ mutation w1 = (Ok v, w1') /\ left_block w w1' w2
  | (Ok (FencedStale _), w2) => follows rely w w2 /\ forall row, rows w2 !! encode_resource (resource l) = Some row -> ~ grants l row
  | (Raise _, w2) => follows rely w w2
  end.

Lemma fenced_commit_runs {A} alias l (mutation : M exn W A) w :
  wp (commit_of alias l mutation) w (fun a w2 => fenced_outcome l mutation w (Ok a, w2)) (fun e w2 => follows rely w w2).
Proof.
  apply (wp_atomic rely). intros w0 He. pose proof (entered_nesting _ _ He) as Hn0.
  change (wp (let! a := lock_authority (model_store encode_resource alias) (resource l) in let! out := fenced_out l a in
    if out : bool then ret (FencedStale "lease is expired or no longer authoritative") else let! value := mutation in ret (FencedCommitted value)) w0
    (fun a w1 => forall w2, left_block w w1 w2 -> fenced_outcome l mutation w (Ok a, w2)) (fun _ _ => forall w2, follows rely w w2 -> follows rely w w2)).
  apply wp_assoc, db_bind, (wp_fenced_out alias l w0); [|by auto|lia]. intros w1 Hs Hn _. split.
  + intros row Hrow Hg Hk. apply db_bind. unfold wp. destruct (mutation w1) as [[v|e] w1'] eqn:Hm; [|by auto]. intros w2 Hl.
    exists w1, w1', row. split_and!; [eapply sees_trans; [by apply entered_sees|done]|done..|lia|done|done].
  + intros Hno. apply wp_ret. intros w2 Hl. split; [by eapply left_sees|]. by rewrite (left_rows _ _ _ Hl).
Qed.

(** A fenced commit either ran its mutation with the row of the resource locked, granting
    exactly the owner and token of the lease and unexpired at the clock's reading, and kept
    everything that block wrote; or it found the lease no longer granted and wrote nothing;
    or it raised and was undone. No other transaction can grant the resource between the
    check and the end of the mutation. *)
Theorem fenced_commit_outcome {A} alias l (mutation : M exn W A) w : fenced_outcome l mutation w (commit_of alias l mutation w).
Proof.
  pose proof (fenced_commit_runs alias l mutation w) as Hwp. unfold wp in Hwp. by destruct (commit_of alias l mutation w) as [[]].
Qed.
End Guarantee.

(** ** Fencing over histories *)

Section Fencing.
Context {W R : Type} `{!Orm pystr lease_row W, !Session pystr lease_row W, !Atomic W, !Connections}.
Variable encode_resource : R -> pystr.
Variable reading : datetime.

Lemma granted_token (r : R) o now ttl T l T' : acquire_step encode_resource r o now ttl T (LeaseAcquired l) T' ->
  resource l = r /\ fencing_token l = token_at (encode_resource r) T + 1 /\ token_at (encode_resource r) T' = fencing_token l.
Proof.
  intros Hs. inversion Hs as [|until Hh Hu Hl HT]; subst. cbn. split_and!; [done|done|]. rewrite Hh. unfold token_at. by rewrite lookup_insert_eq.
Qed.

(** An acquisition among the others' calls, by its tokens. *)
Lemma acquired_token `{!OrmLaws (lease_calls encode_resource)} alias r o now ttl w l w' : nesting w = 0%nat ->
  acquire (model_store encode_resource alias) r o now ttl w = (Ok (LeaseAcquired l), w') ->
  nesting w' = 0%nat /\ resource l = r /\ token_at (encode_resource r) (rows w) < fencing_token l /\ token_at (encode_resource r) (rows w') = fencing_token l.
Proof.
  intros Hn Hrun. pose proof (acquire_linearizes (lease_calls encode_resource) encode_resource alias r o now ttl w) as Hl. unfold linearizes, wp in Hl. rewrite Hrun in Hl.
  destruct Hl as ([Hn' _] & T & HT & (Hres & Htok & Hrow)%granted_token). apply (instant_top (lease_calls encode_resource)) in HT; [|done].
  pose proof (lease_tokens_grow encode_resource (encode_resource r) _ _ HT). split_and!; [congruence|done|lia|done].
Qed.

(** C8. Fencing tokens strictly increase across sessions, and a lease that was superseded
    writes nothing any more: when a session was granted a resource twice, whatever other
    sessions acquired, renewed and released in between and around, the second lease has the
    larger token, and a fenced commit under the first runs no mutation and leaves the rows to
    the others. *)
Theorem django_fencing `{!OrmLaws (lease_calls encode_resource)} alias r o1 now1 ttl1 w0 l1 w1 o2 now2 ttl2 l2 w2 : nesting w0 = 0%nat ->
  acquire (model_store encode_resource alias) r o1 now1 ttl1 w0 = (Ok (LeaseAcquired l1), w1) ->
  acquire (model_store encode_resource alias) r o2 now2 ttl2 w1 = (Ok (LeaseAcquired l2), w2) ->
  fencing_token l1 < fencing_token l2 /\
  forall A (mutation : M exn W A),
    match commit_of encode_resource reading alias l1 mutation w2 with
    | (Ok (FencedCommitted _), _) => False
    | (_, w3) => follows (lease_calls encode_resource) w2 w3
    end.
Proof.
  intros Hn Hrun1 Hrun2. apply acquired_token in Hrun1 as (Hn1 & Hr1 & _ & Ht1); [|done].
  apply acquired_token in Hrun2 as (Hn2 & _ & Ht2 & Ht3); [|done]. rewrite Ht1 in Ht2. split; [done|]. intros A mutation.
  pose proof (fenced_commit_runs encode_resource (lease_calls encode_resource) reading alias l1 mutation w2) as Hwp. unfold wp in Hwp.
  destruct (commit_of encode_resource reading alias l1 mutation w2) as [[[v|]|e] w3]; [|apply Hwp|done].
  destruct Hwp as (wa & wa' & row & Hs & Hrow & (_ & Htok & _) & _). apply (sees_instant _ w2), (instant_top _ w2) in Hs; [|done].
  pose proof (lease_tokens_grow encode_resource (encode_resource r) _ _ Hs) as Hgrow. rewrite Hr1 in Hrow. unfold token_at at 2 in Hgrow.
  rewrite Hrow in Hgrow. cbn in Hgrow. lia.
Qed.
End Fencing.

(** ** A concrete history: between two grants of one session, another one takes the resource. *)

Section Example.
#[local] Instance lease_postgresql : Connections := fun _ => "postgresql"%py.
#[local] Existing Instance unary_uuid.

Definition takeover (c : lease_call (R := pystr)) : { f : lease_table -> lease_table | forall T, lease_calls (fun r : pystr => r) T (f T) } :=
  exist _ (apply_lease (fun r => r) c) (fun T => ex_intro _ c eq_refl).

Definition lease_db : db (lease_calls (fun r : pystr => r)) :=
  mkDb _ ∅ ∅ ∅ 0 0 [takeover (CallRelease (mkLease "r" "a" 9 (utc 10)) (utc 0))%py; takeover (CallRelease (mkLease "r" "a" 9 (utc 10)) (utc 0))%py;
    takeover (CallAcquire "r" "b" (utc 20) (utc 30))%py].

Abbreviation shared_leases := (model_store (W := db (lease_calls (fun r : pystr => r))) (fun r : pystr => r) "default").
Definition first_grant := acquire shared_leases "r" "a" (utc 0) 10.
Definition second_grant := acquire shared_leases "r" "a" (utc 40) 10.
Definition granted_db := after first_grant lease_db.
Definition regranted_db := after second_grant granted_db.
Definition first_lease : Lease pystr := mkLease "r" "a" 1 (utc 10).
Definition write_nothing : M exn (db (lease_calls (fun r : pystr => r))) unit := ret tt.

(** Nobody else commits. *)
Definition quiet_db : db (lease_calls (fun r : pystr => r)) := after first_grant (mkDb _ ∅ ∅ ∅ 0 0 []).

Lemma django_fencing_witness :
  answers_with first_grant lease_db (LeaseAcquired first_lease) /\
  answers_with second_grant granted_db (LeaseAcquired (mkLease "r" "a" 3 (utc 50))%py) /\
  answers_with (commit_of (fun r => r) (utc 5) "default" first_lease write_nothing) granted_db (FencedStale "lease is expired or no longer authoritative") /\
  (fencing_token first_lease < 3 /\
   forall A (mutation : M exn (db (lease_calls (fun r : pystr => r))) A),
    match commit_of (fun r => r) (utc 5) "default" first_lease mutation regranted_db with
    | (Ok (FencedCommitted _), _) => False
    | (_, w3) => follows (lease_calls (fun r : pystr => r)) regranted_db w3
    end).
Proof.
  do 3 (split; [by vm_compute|]).
  apply (django_fencing (fun r : pystr => r) (utc 5) "default" "r" "a" (utc 0) 10 lease_db first_lease granted_db "a" (utc 40) 10
    (mkLease "r" "a" 3 (utc 50))%py regranted_db); [done| |].
  - apply (answers_after first_grant). by vm_compute.
  - apply (answers_after second_grant). by vm_compute.
Defined.

Lemma fenced_commit_outcome_witness :
  answers_with (commit_of (fun r => r) (utc 5) "default" first_lease write_nothing) quiet_db (FencedCommitted tt) /\
  fenced_outcome (fun r => r) (lease_calls (fun r : pystr => r)) (utc 5) first_lease write_nothing quiet_db
    (commit_of (fun r => r) (utc 5) "default" first_lease write_nothing quiet_db).
Proof.
  split; [by vm_compute|].
  apply (fenced_commit_outcome (fun r : pystr => r) (lease_calls (fun r : pystr => r)) (utc 5) "default" first_lease write_nothing quiet_db).
Defined.
End Example.
