(* ===== verification/DjangoCheckpoints.v ===== *)
(** * The Django checkpoint and generation stores ([django/stores.py])

    Two stores of one value per row, changed by compare-and-set, and what the coordinators
    of [Checkpoints] and [Generations] guarantee when they run on them among the commits of
    other transactions. *)
From Stdlib Require Import ZArith Lia.
From stdpp Require Import base list gmap relations.
From S2P Require Import Prelude Core Database DatabaseModel Django Checkpoints Generations.

(** ** Compare-and-set of a row *)

Section Swap.
Context {K V W : Type} `{Countable K} `{!EqDecision V} `{!Orm K V W, !Atomic W}.

Definition is_row (k : K) (v : V) (k' : K) (v' : V) : bool := bool_decide (k' = k) && bool_decide (v' = v).

Definition swap_row (k : K) (expected : option V) (v : V) : M exn W bool :=
  match expected with
  | None => let! rc := _create_or_locked k v in ret rc.2
  | Some e => let! n := update_where (is_row k e) (fun _ => v) in ret (negb (n =? 0))
  end.
End Swap.

(** ** The checkpoint store *)

Record DjangoCheckpointStore (W : Type) := mkCheckpoints {
  checkpoint_using : pystr;
  on_load : pystr -> pystr -> M exn W (option Checkpoint);
  on_load_for_update : pystr -> pystr -> M exn W (option Checkpoint);
  on_advance : pystr -> option Checkpoint -> Checkpoint -> pystr -> M exn W bool
}.
Arguments mkCheckpoints {W}.
Arguments checkpoint_using {W}.
Arguments on_load {W}.
Arguments on_load_for_update {W}.
Arguments on_advance {W}.

Section CheckpointStore.
Context {W : Type}.

Definition checkpoints_from_callbacks (s : DjangoCheckpointStore W) : M exn W (DjangoCheckpointStore W) :=
  let! _ := _alias (checkpoint_using s) in ret s.

Definition load (s : DjangoCheckpointStore W) (stream : pystr) : M exn W (option Checkpoint) :=
  _required stream "stream" ;;;
  on_load s stream (checkpoint_using s).
Definition load_for_update (s : DjangoCheckpointStore W) (stream : pystr) : M exn W (option Checkpoint) :=
  _required stream "stream" ;;;
  on_load_for_update s stream (checkpoint_using s).
Definition advance (s : DjangoCheckpointStore W) (stream : pystr) (expected : option Checkpoint) (c : Checkpoint) : M exn W bool :=
  _required stream "stream" ;;;
  on_advance s stream expected c (checkpoint_using s).

Definition django_checkpoint_port (s : DjangoCheckpointStore W) : CheckpointStore W := {|
  port_load := load s;
  Checkpoints.port_load_for_update := load_for_update s;
  port_advance := advance s
|}.
End CheckpointStore.

Section CheckpointModel.
(** A row beside its stream: the bytes of the checkpoint. *)
Context {W : Type} `{!Orm pystr (list N) W, !Atomic W, !Connections}.

Definition checkpoint_of (row : option (list N)) : M exn W (option Checkpoint) :=
  match row with None => ret None | Some bytes => let! c := Checkpoint_new bytes in ret (Some c) end.

Definition model_load (stream alias : pystr) : M exn W (option Checkpoint) :=
  _postgresql alias ;;;
  let! row := first stream in checkpoint_of row.
Definition model_load_for_update (stream alias : pystr) : M exn W (option Checkpoint) :=
  _postgresql alias ;;;
  let! row := locked_first stream in checkpoint_of row.
Definition model_advance (stream : pystr) (expected : option Checkpoint) (c : Checkpoint) (alias : pystr) : M exn W bool :=
  _postgresql alias ;;;
  swap_row stream (value <$> expected) (value c).

Definition checkpoint_store (alias : pystr) : DjangoCheckpointStore W := mkCheckpoints alias model_load model_load_for_update model_advance.

(** [DjangoCheckpointStore.from_model]. *)
Definition checkpoints_from_model (model : meta) (alias : pystr) : M exn W (DjangoCheckpointStore W) :=
  _unique model {["stream"%py]} ;;;
  checkpoints_from_callbacks (checkpoint_store alias).
End CheckpointModel.

(** ** The generation store *)

Record DjangoGenerationStore (W : Type) := mkGenerations {
  generation_using : pystr;
  on_load_generation : pystr -> pystr -> pystr -> M exn W (option Z);
  on_compare_and_set : pystr -> pystr -> option Z -> Z -> pystr -> M exn W bool
}.
Arguments mkGenerations {W}.
Arguments generation_using {W}.
Arguments on_load_generation {W}.
Arguments on_compare_and_set {W}.

Section GenerationStore.
Context {W : Type}.

Definition generations_from_callbacks (s : DjangoGenerationStore W) : M exn W (DjangoGenerationStore W) :=
  let! _ := _alias (generation_using s) in ret s.

Definition load_generation (s : DjangoGenerationStore W) (dataset partition : pystr) : M exn W (option Z) :=
  _required dataset "dataset" ;;;
  _required partition "partition" ;;;
  on_load_generation s dataset partition (generation_using s).
Definition compare_and_set (s : DjangoGenerationStore W) (dataset partition : pystr) (expected : option Z) (generation : Z) : M exn W bool :=
  _required dataset "dataset" ;;;
  _required partition "partition" ;;;
  raise_if (generation <? 0) (ValueError "generation must be a non-negative integer") ;;;
  raise_if (match expected with Some e => e <? 0 | None => false end) (ValueError "expected generation must be a non-negative integer or None") ;;;
  on_compare_and_set s dataset partition expected generation (generation_using s).

Definition django_generation_port (s : DjangoGenerationStore W) : GenerationStore W := {|
  Generations.port_load_for_update := load_generation s;
  port_compare_and_set := compare_and_set s
|}.
End GenerationStore.

Section GenerationModel.
(** A row beside its dataset and partition: the generation. *)
Context {W : Type} `{!Orm (pystr * pystr) Z W, !Atomic W, !Connections}.

Definition model_load_generation (dataset partition alias : pystr) : M exn W (option Z) :=
  _postgresql alias ;;;
  locked_first (dataset, partition).
Definition model_compare_and_set (dataset partition : pystr) (expected : option Z) (generation : Z) (alias : pystr) : M exn W bool :=
  _postgresql alias ;;;
  swap_row (dataset, partition) expected generation.

Definition generation_store (alias : pystr) : DjangoGenerationStore W := mkGenerations alias model_load_generation model_compare_and_set.

(** [DjangoGenerationStore.from_model]. *)
Definition generations_from_model (model : meta) (alias : pystr) : M exn W (DjangoGenerationStore W) :=
  _unique model {["dataset"; "partition"]}%py ;;;
  generations_from_callbacks (generation_store alias).
End GenerationModel.

(** ** What a compare-and-set does *)

Section Runs.
Context {K V W : Type} `{Countable K} `{!EqDecision V} `{!Orm K V W, !Session K V W, !Atomic W}.
Context (rely : relation (gmap K V)) `{!OrmLaws rely}.

(** The row is replaced exactly when it is the expected one. *)
Definition swap_step (k : K) (expected : option V) (v : V) (T : gmap K V) (b : bool) (T' : gmap K V) : Prop :=
  b = bool_decide (T !! k = expected) /\ T' = if b then <[k := v]> T else T.

Definition swap_raises (e : exn) : Prop := failure e \/ e = IntegrityError.

Lemma matching_row k e v (T : gmap K V) : swap_step k (Some e) v T (negb (Z.of_nat (base.size (matching (is_row k e) T)) =? 0)) (updated (is_row k e) (fun _ => v) T).
Proof.
  assert (forall k' v', matching (is_row k e) T !! k' = Some v' <-> k' = k /\ v' = e /\ T !! k = Some e) as Hm.
  { intros k' v'. rewrite matching_lookup. unfold is_row. rewrite andb_true_iff, !bool_decide_eq_true. naive_solver. }
  destruct (decide (T !! k = Some e)) as [Hk|Hk].
  - assert (matching (is_row k e) T = {[k := e]}) as ->. { apply map_eq. intros k'. apply option_eq. intros v'. rewrite Hm, lookup_singleton_Some. naive_solver. }
    rewrite map_size_singleton. split; [by rewrite bool_decide_true|]. change (negb (Z.of_nat 1 =? 0)) with true. cbv iota. apply map_eq. intros k'. rewrite updated_lookup. unfold is_row.
    destruct (decide (k' = k)) as [->|Hne]; [rewrite Hk, lookup_insert_eq; cbn; by rewrite !bool_decide_true|].
    rewrite lookup_insert_ne, bool_decide_false by done. cbn. by destruct (T !! k').
  - assert (matching (is_row k e) T = ∅) as ->. { apply map_eq. intros k'. rewrite lookup_empty. apply option_eq. intros v'. rewrite Hm. naive_solver. }
    rewrite map_size_empty. split; [by rewrite bool_decide_false|]. change (negb (Z.of_nat 0 =? 0)) with false. cbv iota. apply map_eq. intros k'. rewrite updated_lookup. destruct (T !! k') as [v'|] eqn:Hk'; [|done]. cbn.
    unfold is_row. case_bool_decide; [subst|done]. rewrite bool_decide_false; [done|]. naive_solver.
Qed.

Lemma swap_linearizes k expected v w : linearizes rely (swap_row k expected v) w (swap_step k expected v) swap_raises.
Proof.
  destruct expected as [e|]; unfold swap_row.
  - apply (linearizes_update rely); [intros T; apply matching_row|by left].
  - apply db_bind, (wp_create_or_locked rely).
    + intros w1 w2 Hs Hnone Hr Hb Hh Hn. apply wp_ret. split; [split; [done|by eapply grew_created]|]. exists (rows w1). split; [by apply (sees_instant rely)|].
      split; [by rewrite bool_decide_true|done].
    + intros w1 r Hf Hk _. apply wp_ret. split; [by apply later_follows|]. exists (rows w1). split; [apply (sees_instant rely), Hf|].
      split; [|done]. rewrite bool_decide_false; [done|congruence].
    + intros e w1 Hf He. split; [done|]. destruct He; [by left|by right].
Qed.
End Runs.

(** ** Checkpoints applied in one transaction *)

Section AtomicCheckpoints.
Context {W P : Type} `{!Orm pystr (list N) W, !Session pystr (list N) W, !Atomic W, !Connections}.
Context (rely : relation (gmap pystr (list N))) `{!OrmLaws rely}.
Variable alias : pystr.
#[local] Instance checkpoint_port : CheckpointStore W := django_checkpoint_port (checkpoint_store alias).
(** The consumer's states are on other tables. *)
Variable apply_state : P -> M exn W unit.
Hypothesis Hstate : forall x, aside rely (apply_state x).

Definition last_checkpoint (items : list (CheckpointItem P)) : option Checkpoint := checkpoint <$> last items.

(** What a batch does to the checkpoints at one instant. *)
Definition batch_step (stream : pystr) (items : list (CheckpointItem P)) (T : gmap pystr (list N)) (r : AtomicCheckpointResult) (T' : gmap pystr (list N)) : Prop :=
  match r with
  | AtomicCheckpointConfirmed b => applied b = Z.of_nat (length items) /\ pending b = last_checkpoint items /\
      match pending b with
      | Some c => T !! stream = value <$> previous b /\ T' = <[stream := value c]> T
      | None => T' = T
      end
  | AtomicCheckpointStale s => stale_previous s = None /\ T' = T
  end.

Lemma items_run items acc w :
  wp (for_each items acc (fun acc item => apply_state (payload item) ;;; ret (Some (checkpoint item), acc.2 + 1))) w
    (fun r w' => follows rely w w' /\ r = (match last items with Some item => Some (checkpoint item) | None => acc.1 end, acc.2 + Z.of_nat (length items))) (fun _ _ => True).
Proof.
  revert acc w. induction items as [|item items IH]; intros acc w.
  - apply wp_ret. split; [apply follows_refl|]. destruct acc. cbn. f_equal. lia.
  - cbn [for_each]. apply db_bind, db_bind. eapply db_mono; [apply Hstate| |auto]. intros [] w1 H1. apply wp_ret.
    eapply db_mono; [apply IH| |auto]. intros r w2 [H2 Hr]. split; [exact (follows_trans rely _ _ _ H1 H2)|].
    rewrite Hr, last_cons. cbn [fst snd length]. f_equal; [by destruct (last items)|lia].
Qed.

(** The checkpoint read for update stays as read while its row is locked. *)
Lemma wp_load_for_update stream w (Q : option Checkpoint -> W -> Prop) (X : exn -> W -> Prop) : nesting w <> 0%nat ->
  (forall w1 c, follows rely w w1 -> rows w1 !! stream = value <$> c -> (is_Some c -> stream ∈ held w1) -> Q c w1) -> (forall e w1, X e w1) ->
  wp (Checkpoints.port_load_for_update stream) w Q X.
Proof.
  intros Hn HQ HX. apply db_bind, db_raise_if; [intros _|by auto]. apply db_bind, db_raise_if; [intros _|by auto].
  apply db_bind, (wp_locked_first rely); [|by auto]. intros w1 Hf Hlock. unfold checkpoint_of.
  destruct (rows w1 !! stream) as [bytes|] eqn:Hrow; [|apply wp_ret, HQ; [done|done|by intros []]].
  apply db_bind, db_bind, db_raise_if; [intros _|by auto]. apply wp_ret, wp_ret, HQ; [done|done|]. intros _. by apply Hlock.
Qed.

(** The advance of a checkpoint read for update. *)
Lemma advance_runs stream prev c w0 w : nesting w <> 0%nat -> sees rely w0 w ->
  (is_Some prev -> stream ∈ held w /\ rows w !! stream = value <$> prev) ->
  wp (port_advance stream prev c) w
    (fun ok w' => grew rely w0 w' /\ (ok = true \/ prev = None) /\ exists T, instant rely w0 T /\ swap_step stream (value <$> prev) (value c) T ok (rows w')) (fun _ _ => True).
Proof.
  intros Hn Hs Hprev. apply db_bind, db_raise_if; [intros _|auto]. apply db_bind, db_raise_if; [intros _|auto].
  eapply db_mono; [apply (swap_linearizes rely)| |auto]. intros ok w' ([_ Hg] & T & HT & Hok & HT').
  split; [eapply grew_trans; [by apply grew_sees|by apply Hg]|]. split.
  - destruct prev as [p|]; [left|by right]. destruct (Hprev ltac:(done)) as [Hh Hrow]. destruct HT as (B & _ & _ & ->).
    rewrite Hok, bool_decide_true; [done|]. by rewrite overlay_lookup, decide_True.
  - exists T. split; [by eapply instant_sees|done].
Qed.

(** C20. A batch of items applied by [AtomicCheckpointCoordinator] over the Django checkpoint
    store moves the checkpoint from the one it read to the one of its last item in one step,
    at one instant of its transaction, having applied every item once in that transaction; or
    it finds the stream changed, which happens only when it had no checkpoint to lock, and
    writes nothing; or it raises and writes nothing. The others may commit anything. *)
Theorem django_checkpoint_moves_once stream items w : linearizes rely (atomic_apply stream items apply_state) w (batch_step stream items) (fun _ => True).
Proof.
  apply db_bind, db_raise_if; [intros _|intros _; split; [apply follows_refl|done]].
  apply wp_catch, (wp_atomic rely). intros w0 He. pose proof (entered_nesting _ _ He) as Hn0.
  assert (forall r w1, grew rely w0 w1 /\ (exists T, instant rely w0 T /\ batch_step stream items T r (rows w1)) ->
    forall w2, left_block w w1 w2 -> later rely w w2 /\ (exists T, instant rely w T /\ batch_step stream items T r (rows w2))) as Hleave.
  { intros r w1 [Hg (T & HT & Hstep)] w2 Hl. split; [|exists T; rewrite (left_rows _ _ _ Hl); split; [by apply (entered_instant rely w w0)|done]].
    by eapply later_left. }
  apply db_bind, wp_embed, wp_load_for_update; [lia| |intros e w1 w2 Hf; by split].
  intros w1 prev [Hs1 Hn1] Hrow Hlock. apply db_bind, wp_embed. eapply db_mono; [apply items_run| |intros e w2 _ w3 Hf; by split].
  intros [lst n] w2 [[Hs2 Hn2] [= Hlast Hn]]. destruct lst as [c|].
  - apply db_bind, wp_embed. eapply db_mono; [eapply (advance_runs stream prev c w0 w2)| |intros e w3 _ w4 Hf; by split].
    + by rewrite Hn2, Hn1, Hn0.
    + exact (sees_trans rely _ _ _ Hs1 Hs2).
    + intros Hp. specialize (Hlock Hp). split; [by apply (sees_held rely _ _ Hs2)|]. rewrite (proj2 (sees_locked rely _ _ Hs2 stream Hlock)). exact Hrow.
    + intros ok w3 (Hg & Hprev & T & HT & Hok & HT'). destruct ok.
      * apply wp_ret. apply Hleave. split; [done|]. exists T. split; [done|]. symmetry in Hok. apply bool_decide_eq_true in Hok. 
        unfold batch_step, last_checkpoint. cbn [applied pending previous]. destruct (last items); simplify_eq. split_and!; [lia|done..].
      * apply db_raise. intros w4 Hf. apply wp_ret. split; [by apply later_follows|]. exists (rows w4). split; [apply (sees_instant rely), Hf|].
        cbn. by destruct Hprev.
  - apply wp_ret, Hleave. split; [apply grew_sees; exact (sees_trans rely _ _ _ Hs1 Hs2)|]. exists (rows w2).
    split; [apply (sees_instant rely); exact (sees_trans rely _ _ _ Hs1 Hs2)|]. unfold batch_step, last_checkpoint. cbn [applied pending previous]. destruct (last items); simplify_eq. split_and!; [lia|done..].
Qed.
End AtomicCheckpoints.

(** ** A mutation guarded by a generation *)

Section GuardedGeneration.
Context {W A : Type} `{!Orm (pystr * pystr) Z W, !Session (pystr * pystr) Z W, !Atomic W, !Connections}.
Context (rely : relation (gmap (pystr * pystr) Z)) `{!OrmLaws rely}.
Variable alias : pystr.
#[local] Instance generation_port : GenerationStore W := django_generation_port (generation_store alias).

(** How a guarded commit ends: the mutation ran while the row of the dataset was locked at the
    expected generation, and its block was kept; or the generation is another one and nothing
    was written; or an exception undid the block. *)
Definition guarded_outcome (dataset partition : pystr) (expected : Z) (mutation : M exn W A) (w : W) (run : result exn (GenerationResult A) * W) : Prop :=
  match run with
  | (Ok (GenerationCommitted v g), w2) => g = expected /\ exists w1 w1', sees rely w w1 /\ rows w1 !! (dataset, partition) = Some expected /\
      (dataset, partition) ∈ held w1 /\ nesting w1 <> 0%nat /\ mutation w1 = (Ok v, w1') /\ left_block w w1' w2
  | (Ok (StaleGeneration _ actual), w2) => follows rely w w2 /\ rows w2 !! (dataset, partition) = actual /\ actual <> Some expected
  | (Raise _, w2) => follows rely w w2
  end.

Lemma generation_guarded dataset partition expected mutation w :
  guarded_outcome dataset partition expected mutation w (commit dataset partition expected mutation w).
Proof.
  assert (wp (commit dataset partition expected mutation) w (fun a w2 => guarded_outcome dataset partition expected mutation w (Ok a, w2)) (fun _ w2 => follows rely w w2)) as Hwp;
    [|unfold wp in Hwp; by destruct (commit dataset partition expected mutation w) as [[]]].
  apply db_bind, db_raise_if; [intros _|intros _; apply follows_refl]. apply (wp_atomic rely). intros w0 He. pose proof (entered_nesting _ _ He) as Hn0.
  apply db_bind, db_bind, db_raise_if; [intros _|by auto]. apply db_bind, db_raise_if; [intros _|by auto]. apply db_bind, db_raise_if; [intros _|by auto].
  apply (wp_locked_first rely); [|by auto]. intros w1 [Hs1 Hn1] Hlock. pose proof (sees_trans rely _ _ _ (entered_sees rely _ _ He) Hs1) as Hs.
  assert (forall w2, rows w1 !! (dataset, partition) <> Some expected -> left_block w w1 w2 ->
    guarded_outcome dataset partition expected mutation w (Ok (StaleGeneration expected (rows w1 !! (dataset, partition))), w2)) as Hstale.
  { intros w2 Hne Hl. split; [by eapply left_sees|]. by rewrite (left_rows _ _ _ Hl). }
  destruct (rows w1 !! (dataset, partition)) as [g|] eqn:Hrow; [|apply wp_ret; by auto].
  case_bool_decide as Hg; [subst|apply wp_ret; intros w2; apply Hstale; congruence].
  apply db_bind. unfold wp. destruct (mutation w1) as [[v|e] w1'] eqn:Hm; [|by auto]. intros w2 Hl. split; [done|]. exists w1, w1'.
  split_and!; [done|done|by apply Hlock; [lia|]|lia|done|done].
Qed.
End GuardedGeneration.

(** ** A concrete batch: another consumer moved the stream on before the row was locked. *)

Section Example.
#[local] Instance checkpoint_postgresql : Connections := fun _ => "postgresql"%py.
#[local] Existing Instance unary_uuid.

Definition anything : relation (gmap pystr (list N)) := fun _ _ => True.
Definition moved (f : gmap pystr (list N) -> gmap pystr (list N)) : { f : gmap pystr (list N) -> gmap pystr (list N) | forall T, anything T (f T) } := exist _ f (fun _ => I).
Abbreviation cp_db := (db anything).
Definition cp_db0 : cp_db := mkDb _ ∅ ∅ ∅ 0 0 [moved (<["s"%py := [1%N]]>); moved (<["s"%py := [9%N]]>)].
Definition cp_items : list (CheckpointItem Z) := [mkItem (mkCheckpoint [2%N]) 20; mkItem (mkCheckpoint [3%N]) 30].
Abbreviation cp_apply := (atomic_apply (CheckpointStore0 := checkpoint_port "default") "s" cp_items (fun _ => ret tt)).

Lemma django_checkpoint_moves_once_witness :
  answers_with cp_apply cp_db0 (AtomicCheckpointConfirmed (mkBatchResult 2 (Some (mkCheckpoint [1%N])) (Some (mkCheckpoint [3%N])))) /\
  linearizes anything cp_apply cp_db0 (batch_step "s" cp_items) (fun _ => True).
Proof.
  split; [by vm_compute|].
  apply (django_checkpoint_moves_once anything "default" (fun _ => ret tt)). intros x w. apply wp_ret, follows_refl.
Defined.
End Example.
