(* ===== verification/DjangoInbox.v ===== *)
(** * The Django inbox store ([django/stores.py], [DjangoInboxStore])

    The store, the callbacks built from a consumer's model, the step every call linearizes to,
    and the guarantee over a shared database: a message that one session completed is never
    accepted again by any. *)
From Stdlib Require Import ZArith Lia.
From stdpp Require Import base list gmap relations.
From S2P Require Import Prelude Core Maintenance Inbox Database DatabaseModel Django.

#[export] Instance InboxScope_countable : Countable InboxScope.
Proof.
  by apply (inj_countable' (fun s => (inbox_namespace s, source s, consumer s))
    (fun t => mkInboxScope t.1.1 t.1.2 t.2)); intros [].
Defined.

(** A row beside its unique key: scope and message ID. *)
Record inbox_row := mkInboxRow { row_reservation : pystr; row_until : datetime; row_completed : option datetime }.

#[export] Instance inbox_row_eq_dec : EqDecision inbox_row.
Proof. solve_decision. Defined.

Abbreviation inbox_key := (InboxScope * pystr)%type.
Abbreviation inbox_table := (gmap inbox_key inbox_row).

(** The callbacks, [using] included. *)
Record DjangoInboxStore (W : Type) := mkDjangoInbox {
  inbox_using : pystr;
  on_begin : InboxScope -> OpaqueId -> pystr -> datetime -> timedelta -> pystr -> M exn W InboxDecision;
  on_inbox_complete : InboxScope -> OpaqueId -> pystr -> datetime -> pystr -> M exn W bool;
  on_inbox_abandon : InboxScope -> OpaqueId -> pystr -> pystr -> M exn W bool
}.
Arguments mkDjangoInbox {W}.
Arguments inbox_using {W}.
Arguments on_begin {W}.
Arguments on_inbox_complete {W}.
Arguments on_inbox_abandon {W}.

Section Store.
Context {W : Type}.

Definition from_callbacks (s : DjangoInboxStore W) : M exn W (DjangoInboxStore W) :=
  let! _ := _alias (inbox_using s) in ret s.

Definition begin (s : DjangoInboxStore W) (scope : InboxScope) (message_id : OpaqueId) (token : pystr) (now : datetime) (ttl : timedelta) :
    M exn W InboxDecision :=
  Django._utc now ;;;
  raise_if (str_empty token || (ttl <=? 0)) (ValueError "token and a positive ttl are required") ;;;
  on_begin s scope message_id token now ttl (inbox_using s).

Definition complete (s : DjangoInboxStore W) (scope : InboxScope) (message_id : OpaqueId) (token : pystr) (now : datetime) : M exn W bool :=
  Django._utc now ;;;
  on_inbox_complete s scope message_id token now (inbox_using s).

Definition abandon (s : DjangoInboxStore W) (scope : InboxScope) (message_id : OpaqueId) (token : pystr) : M exn W bool :=
  on_inbox_abandon s scope message_id token (inbox_using s).

Definition django_inbox_port (s : DjangoInboxStore W) : InboxStore W := {|
  port_begin := begin s;
  port_inbox_complete := complete s;
  port_inbox_abandon := abandon s
|}.
End Store.

(** ** The callbacks of a model *)

Section Model.
Context {W : Type} `{!Orm inbox_key inbox_row W, !Atomic W, !Connections}.

(** The answer to a row that may not be taken. *)
Definition kept (now : datetime) (row : inbox_row) : option InboxDecision :=
  match row_completed row with
  | Some completed_at => Some (InboxDuplicate completed_at)
  | None => if dt_ltb now (row_until row) then Some (InboxInProgress (row_until row)) else None
  end.

Definition begin_block (key : inbox_key) (token : pystr) (now : datetime) (ttl : timedelta) : M exn W InboxDecision :=
  let! found := _locked_first key in
  let! rc := match found with
    | Some row => ret (row, false)
    | None => let! until := lift (dt_add now ttl) in _create_or_locked key (mkInboxRow token until None)
    end in
  let '(row, created) := rc in
  if created : bool then ret (InboxAccepted token)
  else
    match kept now row with
    | Some d => ret d
    | None =>
        let! until := lift (dt_add now ttl) in
        save key (fun _ => mkInboxRow token until None) ;;;
        ret (InboxAccepted token)
    end.

Definition model_begin (scope : InboxScope) (message_id : OpaqueId) (token : pystr) (now : datetime) (ttl : timedelta) (alias : pystr) : M exn W InboxDecision :=
  _postgresql alias ;;;
  Django._utc now ;;;
  atomic (begin_block (scope, opaque_value message_id) token now ttl).

(** The row a token may complete, or abandon. *)
Definition completable (key : inbox_key) (token : pystr) (now : datetime) (k : inbox_key) (row : inbox_row) : bool :=
  bool_decide (k = key) && bool_decide (row_reservation row = token) && bool_decide (row_completed row = None) && dt_ltb now (row_until row).
Definition abandonable (key : inbox_key) (token : pystr) (k : inbox_key) (row : inbox_row) : bool :=
  bool_decide (k = key) && bool_decide (row_reservation row = token) && bool_decide (row_completed row = None).

Definition completed_row (now : datetime) (row : inbox_row) : inbox_row := mkInboxRow (row_reservation row) (row_until row) (Some now).

Definition model_complete (scope : InboxScope) (message_id : OpaqueId) (token : pystr) (now : datetime) (alias : pystr) : M exn W bool :=
  _postgresql alias ;;;
  Django._utc now ;;;
  let! n := update_where (completable (scope, opaque_value message_id) token now) (completed_row now) in
  ret (negb (n =? 0)).

Definition model_abandon (scope : InboxScope) (message_id : OpaqueId) (token : pystr) (alias : pystr) : M exn W bool :=
  _postgresql alias ;;;
  let! n := delete_where (abandonable (scope, opaque_value message_id) token) in
  ret (negb (n =? 0)).

Definition inbox_store (alias : pystr) : DjangoInboxStore W := mkDjangoInbox alias model_begin model_complete model_abandon.

(** [DjangoInboxStore.from_model]. *)
Definition from_model (model : meta) (alias : pystr) : M exn W (DjangoInboxStore W) :=
  _unique model {["namespace"; "source"; "consumer"; "message_id"]}%py ;;;
  from_callbacks (inbox_store alias).
End Model.

(** ** The calls of the sessions, as steps on the rows *)

(** A completion is checked at one instant and recorded with one. *)
Inductive inbox_call :=
  | CallBegin (key : inbox_key) (token : pystr) (now until : datetime)
  | CallInboxComplete (key : inbox_key) (token : pystr) (now at_ : datetime)
  | CallInboxAbandon (key : inbox_key) (token : pystr).

Definition apply_inbox (c : inbox_call) (T : inbox_table) : inbox_table :=
  match c with
  | CallBegin key token now until =>
      match T !! key ≫= kept now with Some _ => T | None => <[key := mkInboxRow token until None]> T end
  | CallInboxComplete key token now at_ => updated (completable key token now) (completed_row at_) T
  | CallInboxAbandon key token => T ∖ matching (abandonable key token) T
  end.

Definition inbox_calls : relation inbox_table := fun T T' => exists c, T' = apply_inbox c T.

(** A completed delivery stays. *)
Definition delivered (key : inbox_key) (at_ : datetime) (T : inbox_table) : Prop := exists row, T !! key = Some row /\ row_completed row = Some at_.

Lemma delivered_kept key at_ T T' : rtc inbox_calls T T' -> delivered key at_ T -> delivered key at_ T'.
Proof.
  induction 1 as [|T T1 T2 [c ->] _ IH]; [done|]. intros (row & Hrow & Hc). apply IH. exists row. split; [|done].
  assert (forall p : inbox_key -> inbox_row -> bool, (forall k r, p k r = true -> row_completed r = None) -> p key row = false) as Hp.
  { intros p Hp. destruct (p key row) eqn:He; [|done]. apply Hp in He. congruence. }
  destruct c as [k token now until|k token now at'|k token]; cbn.
  - destruct (T !! k ≫= kept now) eqn:Hk; [done|]. destruct (decide (k = key)) as [->|Hne]; [|by rewrite lookup_insert_ne].
    rewrite Hrow in Hk. cbn in Hk. unfold kept in Hk. by rewrite Hc in Hk.
  - rewrite updated_lookup, Hrow. cbn. rewrite Hp; [done|]. intros k' r. unfold completable. rewrite !andb_true_iff, !bool_decide_eq_true. naive_solver.
  - rewrite deleted_lookup, Hrow, Hp; [done|]. intros k' r. unfold abandonable. rewrite !andb_true_iff, !bool_decide_eq_true. naive_solver.
Qed.

(** ** What one call does *)

Section Runs.
Context {W : Type} `{!Orm inbox_key inbox_row W, !Session inbox_key inbox_row W, !Atomic W, !Connections}.
Context (rely : relation inbox_table) `{!OrmLaws rely}.

Inductive begin_step (key : inbox_key) (token : pystr) (now : datetime) (ttl : timedelta) (T : inbox_table) : InboxDecision -> inbox_table -> Prop :=
  | begin_kept d : T !! key ≫= kept now = Some d -> begin_step key token now ttl T d T
  | begin_accepted until : T !! key ≫= kept now = None -> dt_add now ttl = Ok until ->
      begin_step key token now ttl T (InboxAccepted token) (apply_inbox (CallBegin key token now until) T).

Definition inbox_raises (e : exn) : Prop :=
  failure e \/ e = IntegrityError \/ (exists now ttl, dt_add now ttl = Raise e) \/ (exists m, e = ValueError m).

Lemma inbox_failure e : failure e -> inbox_raises e.
Proof. by left. Qed.
Lemma inbox_refused m : inbox_raises (ValueError m).
Proof. do 3 right. eauto. Qed.
Lemma inbox_overflow now ttl e : dt_add now ttl = Raise e -> inbox_raises e.
Proof. do 2 right. left. eauto. Qed.
#[local] Hint Resolve inbox_failure inbox_refused inbox_overflow : core.

(** The rest of [begin] once the row is there and locked. *)
Lemma existing_runs key token now ttl row w w1 : sees rely w w1 -> nesting w1 <> 0%nat -> rows w1 !! key = Some row -> key ∈ held w1 ->
  wp (match kept now row with
      | Some d => ret d
      | None =>
          let! until := lift (dt_add now ttl) in
          save key (fun _ => mkInboxRow token until None) ;;;
          ret (InboxAccepted token)
      end) w1 (fun d w' => grew rely w w' /\ exists T, instant rely w T /\ begin_step key token now ttl T d (rows w')) (fun e _ => inbox_raises e).
Proof.
  intros Hs Hz Hrow Hk. destruct (kept now row) as [d|] eqn:Hd.
  - apply wp_ret. split; [by apply grew_sees|]. exists (rows w1). split; [by apply (sees_instant rely)|]. apply begin_kept. by rewrite Hrow.
  - apply db_bind, wp_lift; [|eauto]. intros u Hu. apply db_bind. eapply db_mono; [eapply (wp_saved rely w w1); [done|exact Hrow|done|done]| |auto].
    intros _ w2 (Hg & T & HT & HTk & Hr). apply wp_ret. split; [done|]. exists T. split; [done|].
    assert (T !! key ≫= kept now = None) as Hnone by (by rewrite HTk).
    pose proof (begin_accepted key token now ttl T u Hnone Hu) as Hstep. cbn [apply_inbox] in Hstep. rewrite Hnone in Hstep. by rewrite Hr.
Qed.

Lemma begin_block_runs key token now ttl w : nesting w <> 0%nat ->
  wp (begin_block key token now ttl) w (fun d w' => grew rely w w' /\ exists T, instant rely w T /\ begin_step key token now ttl T d (rows w')) (fun e _ => inbox_raises e).
Proof.
  intros Hn. apply db_bind, (wp_locked_first rely); [|auto]. intros w1 [Hs1 Hn1] Hlock. apply db_bind. destruct (rows w1 !! key) as [row|] eqn:Hrow.
  - apply wp_ret, existing_runs; [done|by rewrite Hn1|done|by apply Hlock].
  - apply db_bind, wp_lift; [|eauto]. intros u Hu. apply (wp_create_or_locked rely).
    + intros w2 w3 Hs2 Hnone Hr Hb Hk _. apply wp_ret.
      split; [eapply (grew_trans rely); [by apply grew_sees|eapply (grew_created rely w1 w2); try done; by rewrite Hn1]|]. exists (rows w2).
      split; [apply (sees_instant rely); exact (sees_trans rely _ _ _ Hs1 Hs2)|].
      assert (rows w2 !! key ≫= kept now = None) as Hnone' by (by rewrite Hnone).
      pose proof (begin_accepted key token now ttl (rows w2) u Hnone' Hu) as Hstep. cbn [apply_inbox] in Hstep. rewrite Hnone' in Hstep. by rewrite Hr.
    + intros w2 row [Hs2 Hn2] Hrow' Hk. apply existing_runs; [exact (sees_trans rely _ _ _ Hs1 Hs2)|by rewrite Hn2, Hn1|done|]. apply Hk. by rewrite Hn1.
    + intros e w2 _ [He|He]; [auto|by right; left].
Qed.

Ltac pass_inbox_checks := repeat (apply (linearizes_check rely); [auto|intros _]; unfold inbox_store; cbn [inbox_using on_begin on_inbox_complete on_inbox_abandon]).

Lemma begin_linearizes alias scope message_id token now ttl w :
  linearizes rely (begin (inbox_store alias) scope message_id token now ttl) w (begin_step (scope, opaque_value message_id) token now ttl) inbox_raises.
Proof. pass_inbox_checks. apply (linearizes_atomic rely). intros w0 Hn. by apply begin_block_runs. Qed.

Lemma inbox_complete_linearizes alias scope message_id token now w :
  let key := (scope, opaque_value message_id) in
  linearizes rely (complete (inbox_store alias) scope message_id token now) w
    (fun T b T' => b = negb (Z.of_nat (size (matching (completable key token now) T)) =? 0) /\ T' = apply_inbox (CallInboxComplete key token now now) T) inbox_raises.
Proof. intros key. pass_inbox_checks. apply (linearizes_update rely); [done|auto]. Qed.
End Runs.

(** A completion that found its row. *)
Lemma completion_delivers key token now at_ T :
  Z.of_nat (size (matching (completable key token now) T)) =? 0 = false -> delivered key at_ (apply_inbox (CallInboxComplete key token now at_) T).
Proof.
  intros Hn. apply Z.eqb_neq in Hn.
  destruct (map_choose (matching (completable key token now) T)) as (k & row & Hr); [intros He; rewrite He in Hn; by rewrite map_size_empty in Hn|].
  apply matching_lookup in Hr as [Hr Hc]. pose proof Hc as Hp. unfold completable in Hc. rewrite !andb_true_iff, !bool_decide_eq_true in Hc.
  destruct Hc as [[[-> _] _] _]. exists (completed_row at_ row). cbn [apply_inbox]. rewrite updated_lookup, Hr. cbn. by rewrite Hp.
Qed.

(** A message that one session completed is never accepted again: every later [begin] of
    it, in any session, with any token and clock, answers [InboxDuplicate] with the instant of
    that completion, whatever deliveries other sessions begin, complete or abandon in
    between; or it raises, and writes nothing. *)
Theorem django_inbox_no_second_delivery {W} `{!Orm inbox_key inbox_row W, !Session inbox_key inbox_row W, !Atomic W, !Connections, !OrmLaws inbox_calls}
    alias scope message_id token now w0 w1 token2 now2 ttl2 : nesting w0 = 0%nat ->
  complete (inbox_store alias) scope message_id token now w0 = (Ok true, w1) ->
  wp (begin (inbox_store alias) scope message_id token2 now2 ttl2) w1
    (fun d _ => d = InboxDuplicate now) (fun e w2 => follows inbox_calls w1 w2 /\ inbox_raises e).
Proof.
  intros Hn Hrun. pose proof (inbox_complete_linearizes inbox_calls alias scope message_id token now w0) as Hl. unfold linearizes, wp in Hl. rewrite Hrun in Hl.
  destruct Hl as ([Hn1 _] & T & _ & Hb & HT'). symmetry in Hb. apply negb_true_iff, (completion_delivers _ _ _ now) in Hb. rewrite <- HT' in Hb.
  eapply db_mono; [apply (begin_linearizes inbox_calls)| |done]. intros d w2 (_ & T2 & HT2 & Hs). apply (instant_top inbox_calls) in HT2; [|congruence].
  apply (delivered_kept _ _ _ _ HT2) in Hb as (row & Hrow & Hc).
  assert (T2 !! (scope, opaque_value message_id) ≫= kept now2 = Some (InboxDuplicate now)) as Hk by (rewrite Hrow; cbn; unfold kept; by rewrite Hc).
  inversion Hs; congruence.
Qed.

(** ** A concrete history: between two calls another session begins the same message. *)

Section Example.
#[local] Instance inbox_postgresql : Connections := fun _ => "postgresql"%py.
#[local] Existing Instance unary_uuid.

Definition their_delivery (c : inbox_call) : { f : inbox_table -> inbox_table | forall T, inbox_calls T (f T) } :=
  exist _ (apply_inbox c) (fun T => ex_intro _ c eq_refl).

Abbreviation inbox_db := (db inbox_calls).
Definition demo_scope : InboxScope := mkInboxScope "n" "s" "c".
Definition inbox_db0 : inbox_db :=
  mkDb _ ∅ ∅ ∅ 0 0 
    (their_delivery (CallBegin (demo_scope, "n")%py "z" (utc 1) (utc 20)) :: repeat (their_delivery (CallBegin (demo_scope, "m")%py "z" (utc 9) (utc 20))) 4).

Definition begin_demo token now : M exn inbox_db InboxDecision := begin (inbox_store "default") demo_scope (mkOpaqueId "m") token now 10.
Definition complete_demo : M exn inbox_db bool := complete (inbox_store "default") demo_scope (mkOpaqueId "m") "t" (utc 5).
Definition begun_db := after (begin_demo "t" (utc 0)) inbox_db0.
Definition done_db := after complete_demo begun_db.

Lemma django_inbox_no_second_delivery_witness :
  answers_with (begin_demo "t" (utc 0)) inbox_db0 (InboxAccepted "t") /\
  answers_with complete_demo begun_db true /\
  answers_with (begin_demo "u" (utc 500)) done_db (InboxDuplicate (utc 5)) /\
  wp (begin_demo "u" (utc 500)) done_db (fun d _ => d = InboxDuplicate (utc 5)) (fun e w2 => follows inbox_calls done_db w2 /\ inbox_raises (W := inbox_db) e).
Proof.
  do 3 (split; [by vm_compute|]).
  apply (django_inbox_no_second_delivery "default" demo_scope (mkOpaqueId "m") "t" (utc 5) begun_db done_db "u" (utc 500) 10); [by vm_compute|].
  apply (answers_after complete_demo). by vm_compute.
Defined.
End Example.
