(* ===== verification/DjangoReplay.v ===== *)
(** * The Django replay store ([django/stores.py], [DjangoReplayStore])

    The store over a consumer's model and the guarantee over a shared database: inside its
    window an identity is accepted by one session only. SHA-256 is a parameter. *)
From Stdlib Require Import ZArith Lia.
From stdpp Require Import base list gmap relations.
From S2P Require Import Prelude Core Canonical Maintenance Replay Database DatabaseModel Django.

(** A row beside its unique key, namespace and digest: the end of its window. *)
Abbreviation replay_key := (pystr * pystr)%type.
Abbreviation replay_table := (gmap replay_key datetime).

Record DjangoReplayStore (W : Type) := mkReplay {
  replay_using : pystr;
  on_reserve_digest : pystr -> pystr -> datetime -> timedelta -> pystr -> M exn W ReplayDecision
}.
Arguments mkReplay {W}.
Arguments replay_using {W}.
Arguments on_reserve_digest {W}.

Section Store.
Context {W : Type}.
Variable sha256_hexdigest : list N -> pystr.

Definition from_callbacks (s : DjangoReplayStore W) : M exn W (DjangoReplayStore W) :=
  let! _ := _alias (replay_using s) in ret s.

Definition reserve (s : DjangoReplayStore W) (namespace value : pystr) (now : datetime) (ttl : timedelta) : M exn W ReplayDecision :=
  Django._utc now ;;;
  raise_if (str_empty namespace || str_empty value || (ttl <=? 0)) (ValueError "namespace, value, and positive ttl are required") ;;;
  let! encoded := lift (str_encode value) in
  on_reserve_digest s namespace (sha256_hexdigest encoded) now ttl (replay_using s).

Definition django_replay_port (s : DjangoReplayStore W) : ReplayStore W := reserve s.
End Store.

Section Model.
Context {W : Type} `{!Orm replay_key datetime W, !Atomic W, !Connections}.

Definition reserve_block (key : replay_key) (now : datetime) (ttl : timedelta) : M exn W ReplayDecision :=
  let! found := _locked_first key in
  let! row := match found with
    | Some until => if dt_leb until now then delete_row key ;;; ret None else ret (Some until)
    | None => ret None
    end in
  match row with
  | Some until => ret (ReplayDetected until)
  | None =>
      let! expires_at := lift (dt_add now ttl) in
      let! rc := _create_or_locked key expires_at in
      let '(until, created) := rc in
      ret (if created : bool then ReplayAccepted until else ReplayDetected until)
  end.

Definition model_reserve (namespace digest : pystr) (now : datetime) (ttl : timedelta) (alias : pystr) : M exn W ReplayDecision :=
  _postgresql alias ;;;
  Django._utc now ;;;
  atomic (reserve_block (namespace, digest) now ttl).

Definition replay_store (alias : pystr) : DjangoReplayStore W := mkReplay alias model_reserve.

(** [DjangoReplayStore.from_model]. *)
Definition from_model (model : meta) (alias : pystr) : M exn W (DjangoReplayStore W) :=
  _unique model {["namespace"; "digest"]}%py ;;;
  from_callbacks (replay_store alias).
End Model.

(** ** Reservations as steps on the rows *)

Definition free (now : datetime) (row : option datetime) : bool := match row with Some until => dt_leb until now | None => true end.

Definition reserve_row (key : replay_key) (now until : datetime) (T : replay_table) : replay_table :=
  if free now (T !! key) then <[key := until]> T else T.

(** Reservations of others with clocks before an instant. *)
Definition reservations (t : Z) : relation replay_table := fun T T' =>
  exists key now until, dt_instant now < t /\ T' = reserve_row key now until T.

Lemma window_kept t key until T T' : t <= dt_instant until -> rtc (reservations t) T T' -> T !! key = Some until -> T' !! key = Some until.
Proof.
  intros Ht. induction 1 as [|T T1 T2 (k & now & u & Hnow & ->) _ IH]; [done|]. intros Hk. apply IH. unfold reserve_row, free.
  destruct (decide (k = key)) as [->|Hne].
  - rewrite Hk. unfold dt_leb. destruct (dt_instant until <=? dt_instant now) eqn:Hle; [lia|done].
  - case_match; [by rewrite lookup_insert_ne|done].
Qed.

(** ** What one call does *)

Section Runs.
Context {W : Type} `{!Orm replay_key datetime W, !Session replay_key datetime W, !Atomic W, !Connections}.
Context (rely : relation replay_table) `{!OrmLaws rely}.

(** A row that took the key during the call is detected, also when its window is over. *)
Inductive replay_step (key : replay_key) (now : datetime) (ttl : timedelta) (T : replay_table) : ReplayDecision -> replay_table -> Prop :=
  | step_accepted until : free now (T !! key) = true -> dt_add now ttl = Ok until -> replay_step key now ttl T (ReplayAccepted until) (<[key := until]> T)
  | step_detected until : T !! key = Some until -> replay_step key now ttl T (ReplayDetected until) T.

Definition replay_raises (e : exn) : Prop :=
  failure e \/ e = IntegrityError \/ (exists now ttl, dt_add now ttl = Raise e) \/ (exists s, str_encode s = Raise e) \/ (exists m, e = ValueError m).

Lemma replay_failure e : failure e -> replay_raises e.
Proof. by left. Qed.
Lemma replay_refused m : replay_raises (ValueError m).
Proof. do 4 right. eauto. Qed.
Lemma replay_overflow now ttl e : dt_add now ttl = Raise e -> replay_raises e.
Proof. do 2 right. left. eauto. Qed.
#[local] Hint Resolve replay_failure replay_refused replay_overflow : core.

Lemma reserve_block_linearizes key now ttl w : nesting w <> 0%nat ->
  wp (reserve_block key now ttl) w (fun d w' => grew rely w w' /\ exists T, instant rely w T /\ replay_step key now ttl T d (rows w')) (fun e _ => replay_raises e).
Proof.
  intros Hn. apply db_bind, (wp_locked_first rely); [|auto]. intros w1 [Hs1 Hn1] Hlock. assert (nesting w1 <> 0%nat) as Hz1 by congruence.
  pose proof (grew_sees rely w w1 Hs1) as Hg1. apply db_bind. destruct (rows w1 !! key) as [row|] eqn:Hrow.
  - destruct (dt_leb row now) eqn:Hle.
    + apply db_bind. eapply (wp_delete_row rely); [by apply Hlock|exact Hrow| |auto].
      intros w2 w3 Hf2 Hw3. assert (nesting w2 <> 0%nat) as Hz2 by (by rewrite (proj2 Hf2)).
      assert (grew rely w w3) as Hg3 by (eapply (grew_trans rely); [exact Hg1|]; eapply (grew_trans rely); [by apply grew_sees, Hf2|by eapply grew_wrote]).
      apply wp_ret, db_bind, wp_lift; [|eauto]. intros u Hu. apply db_bind, (wp_create_or_locked rely).
      * intros w4 w5 Hs4 Hnone Hr Hb Hh _. apply wp_ret. split; [eapply (grew_trans rely); [exact Hg3|]; eapply (grew_created rely w3 w4); try done; by rewrite (wrote_nesting _ _ _ Hw3)|].
        destruct (recreated rely w w1 w2 w3 w4 key row u Hs1 Hrow (Hlock Hn ltac:(done)) Hz1 Hf2 Hw3 Hs4) as (Hi & Hl & He).
        exists (overlay w (base w4)). split; [done|]. rewrite Hr, He. apply step_accepted; [by rewrite Hl|done].
      * intros w4 row' Hf4 Hrow' _. exfalso. pose proof (sees_locked rely w3 w4 (proj1 Hf4) key) as [_ Hl].
        { apply (wrote_held _ _ _ Hw3), (sees_held rely _ _ (proj1 Hf2)). by apply Hlock. }
        rewrite (wrote_rows _ _ _ Hw3), lookup_delete_eq in Hl. congruence.
      * intros e w4 _ [He|He]; [auto|by right; left].
    + apply wp_ret, wp_ret. split; [done|]. exists (rows w1). split; [by apply (sees_instant rely)|]. by apply step_detected.
  - apply wp_ret, db_bind, wp_lift; [|eauto]. intros u Hu. apply db_bind, (wp_create_or_locked rely).
    + intros w2 w3 Hs2 Hnone Hr Hb Hh _. apply wp_ret. split; [eapply (grew_trans rely); [exact Hg1|by eapply (grew_created rely w1 w2)]|].
      exists (rows w2). split; [apply (sees_instant rely); exact (sees_trans rely _ _ _ Hs1 Hs2)|]. rewrite Hr. apply step_accepted; [by rewrite Hnone|done].
    + intros w2 row [Hs2 Hn2] Hrow' _. apply wp_ret. split; [eapply (grew_trans rely); [exact Hg1|by apply grew_sees]|].
      exists (rows w2). split; [apply (sees_instant rely); exact (sees_trans rely _ _ _ Hs1 Hs2)|]. by apply step_detected.
    + intros e w2 _ [He|He]; [auto|by right; left].
Qed.

Lemma reserve_digest_linearizes alias sha256_hexdigest namespace v now ttl bytes w : str_encode v = Ok bytes ->
  linearizes rely (reserve sha256_hexdigest (replay_store alias) namespace v now ttl) w (replay_step (namespace, sha256_hexdigest bytes) now ttl) replay_raises.
Proof.
  intros Hv. do 2 (apply (linearizes_check rely); [auto|intros _]). rewrite Hv. apply (linearizes_lift rely); [done|]. intros b [= <-].
  unfold replay_store. cbn [on_reserve_digest replay_using]. do 2 (apply (linearizes_check rely); [auto|intros _]).
  apply (linearizes_atomic rely). intros w0 Hn. by apply reserve_block_linearizes.
Qed.
End Runs.

(** A value that one session accepted is not accepted again inside its window by any:
    after [reserve] answered [ReplayAccepted until], every later [reserve] of the same value
    in the namespace with a clock before [until] answers [ReplayDetected until], whatever
    other sessions reserve in between with clocks before [until]; or it raises and writes
    nothing. *)
Theorem django_replay_accepted_once {W} `{!Orm replay_key datetime W, !Session replay_key datetime W, !Atomic W, !Connections}
    sha256_hexdigest alias namespace v now ttl until w0 w1 now2 ttl2 : OrmLaws (reservations (dt_instant until)) -> nesting w0 = 0%nat ->
  reserve sha256_hexdigest (replay_store alias) namespace v now ttl w0 = (Ok (ReplayAccepted until), w1) -> dt_ltb now2 until = true ->
  wp (reserve sha256_hexdigest (replay_store alias) namespace v now2 ttl2) w1
    (fun d _ => d = ReplayDetected until) (fun e w2 => follows (reservations (dt_instant until)) w1 w2 /\ replay_raises e).
Proof.
  intros Hlaws Hn Hrun Hnow. destruct (str_encode v) as [bytes|e] eqn:Hv.
  2: { exfalso. revert Hrun. unfold reserve, lift, bind, check_utc, Django._utc, check_utc, raise_if. rewrite Hv. repeat case_match; simplify_eq; done. }
  pose proof (reserve_digest_linearizes (reservations (dt_instant until)) alias sha256_hexdigest namespace v now ttl bytes w0 Hv) as Hl.
  unfold linearizes, wp in Hl. rewrite Hrun in Hl. destruct Hl as ([Hn1 _] & T & _ & Hs).
  assert (rows w1 !! (namespace, sha256_hexdigest bytes) = Some until) as Hrow by (inversion Hs; by rewrite lookup_insert_eq).
  eapply db_mono; [by apply (reserve_digest_linearizes (reservations (dt_instant until)))| |done]. intros d w2 (_ & T2 & HT2 & Hs2).
  apply (instant_top (reservations (dt_instant until))) in HT2; [|congruence]. eapply window_kept in HT2; [|done|exact Hrow].
  inversion Hs2 as [u Hfree _|u Hu]; [|congruence]. exfalso. rewrite HT2 in Hfree. cbn in Hfree. unfold dt_leb, dt_ltb in *. lia.
Qed.

(** ** A concrete history: another session tries the same value. *)

Section Example.
#[local] Instance replay_postgresql : Connections := fun _ => "postgresql"%py.
#[local] Existing Instance unary_uuid.

Abbreviation replay_db := (db (reservations 60)).
Definition their_reservation (key : replay_key) (now until : datetime) (Hnow : dt_instant now < 60) :
    { f : replay_table -> replay_table | forall T, reservations 60 T (f T) } :=
  exist _ (reserve_row key now until) (fun T => ex_intro _ key (ex_intro _ now (ex_intro _ until (conj Hnow eq_refl)))).

Definition replay_db0 : replay_db :=
  mkDb _ ∅ ∅ ∅ 0 0
    (their_reservation ("dpop", "other")%py (utc 1) (utc 9) eq_refl :: repeat (their_reservation ("dpop", "v")%py (utc 20) (utc 90) eq_refl) 4).
Definition replay_demo now ttl : M exn replay_db ReplayDecision := reserve (fun bytes => PyStr bytes) (replay_store "default") "dpop" "v" now ttl.
Definition replay_db1 := after (replay_demo (utc 10) 50) replay_db0.

Lemma django_replay_accepted_once_witness :
  answers_with (replay_demo (utc 10) 50) replay_db0 (ReplayAccepted (utc 60)) /\
  answers_with (replay_demo (utc 59) 50) replay_db1 (ReplayDetected (utc 60)) /\
  wp (replay_demo (utc 59) 50) replay_db1 (fun d _ => d = ReplayDetected (utc 60)) (fun e w2 => follows (reservations 60) replay_db1 w2 /\ replay_raises (W := replay_db) e).
Proof.
  do 2 (split; [by vm_compute|]).
  apply (django_replay_accepted_once (fun bytes => PyStr bytes) "default" "dpop" "v" (utc 10) 50 (utc 60) replay_db0 replay_db1 (utc 59) 50); [apply db_laws|done| |done].
  apply (answers_after (replay_demo (utc 10) 50)). by vm_compute.
Defined.
End Example.
