(* ===== verification/DjangoOutbox.v ===== *)
(** * The Django outbox store ([django/stores.py], [DjangoOutboxStore])

    The store over a consumer's model, its claims under [skip_locked], and the guarantee over
    a shared database: a message one session settled is never claimed again. The collation of
    message IDs is a parameter. *)
From Stdlib Require Import ZArith Lia.
From stdpp Require Import base list gmap relations.
From S2P Require Import Prelude Core Maintenance Outbox Database DatabaseModel Django.

(** A row beside its message ID, with a payload column of type [B]; the columns an insert does
    not name are null. *)
Record outbox_row (B : Type) := mkOutboxRow {
  row_topic : pystr; row_payload : B; row_occurred_at : datetime; row_available_at : datetime; row_attempt : Z;
  row_claim : option pystr; row_claimed_until : option datetime; row_delivered_at : option datetime;
  row_failure : option pystr; row_failed_at : option datetime
}.

Arguments mkOutboxRow {B}.
Arguments row_topic {B}.
Arguments row_payload {B}.
Arguments row_occurred_at {B}.
Arguments row_available_at {B}.
Arguments row_attempt {B}.
Arguments row_claim {B}.
Arguments row_claimed_until {B}.
Arguments row_delivered_at {B}.
Arguments row_failure {B}.
Arguments row_failed_at {B}.

#[export] Instance outbox_row_eq_dec {B} `{!EqDecision B} : EqDecision (outbox_row B).
Proof. solve_decision. Defined.

(** Rows with a JSON column. *)
Abbreviation json_row := (outbox_row json).
Abbreviation outbox_table := (gmap pystr json_row).

(** The callbacks, [using] included. *)
Record DjangoOutboxStore (W P : Type) := mkDjangoOutbox {
  outbox_using : pystr;
  on_add : OutboxEnvelope P -> pystr -> M exn W OutboxAddResult;
  on_claim : datetime -> Z -> timedelta -> pystr -> M exn W (list (OutboxClaim P));
  on_delivered : OutboxClaim P -> datetime -> pystr -> M exn W bool;
  on_retry : OutboxClaim P -> datetime -> pystr -> M exn W bool;
  on_failed : OutboxClaim P -> pystr -> datetime -> pystr -> M exn W bool
}.
Arguments mkDjangoOutbox {W P}.
Arguments outbox_using {W P}.
Arguments on_add {W P}.
Arguments on_claim {W P}.
Arguments on_delivered {W P}.
Arguments on_retry {W P}.
Arguments on_failed {W P}.

Section Store.
Context {W P : Type}.

Definition from_callbacks (s : DjangoOutboxStore W P) : M exn W (DjangoOutboxStore W P) :=
  let! _ := _alias (outbox_using s) in ret s.

Definition add (s : DjangoOutboxStore W P) (e : OutboxEnvelope P) : M exn W OutboxAddResult := on_add s e (outbox_using s).

Definition claim (s : DjangoOutboxStore W P) (now : datetime) (limit : Z) (claim_ttl : timedelta) : M exn W (list (OutboxClaim P)) :=
  Django._utc now ;;;
  raise_if (limit <=? 0) (ValueError "claim limit must be a positive integer") ;;;
  check_positive claim_ttl "claim limit and ttl must be positive" ;;;
  on_claim s now limit claim_ttl (outbox_using s).

Definition delivered (s : DjangoOutboxStore W P) (c : OutboxClaim P) (at_ : datetime) : M exn W bool :=
  Django._utc at_ ;;;
  on_delivered s c at_ (outbox_using s).

Definition retry (s : DjangoOutboxStore W P) (c : OutboxClaim P) (available : datetime) : M exn W bool :=
  Django._utc available ;;;
  on_retry s c available (outbox_using s).

Definition failed (s : DjangoOutboxStore W P) (c : OutboxClaim P) (reason : pystr) (at_ : datetime) : M exn W bool :=
  Django._utc at_ ;;;
  raise_if (str_empty reason) (ValueError "outbox failure reason must not be empty") ;;;
  on_failed s c reason at_ (outbox_using s).

Definition django_outbox_port (s : DjangoOutboxStore W P) : OutboxStore W P := {|
  port_add := add s;
  port_claim := claim s;
  port_delivered := delivered s;
  port_retry := retry s;
  port_failed := failed s
|}.
End Store.

(** ** The columns the operations read and write *)

Section Rows.
Context {B P : Type}.
Implicit Types row : outbox_row B.

Definition added_row (encoded : B) (e : OutboxEnvelope P) : outbox_row B :=
  mkOutboxRow (topic e) encoded (occurred_at e) (available_at e) (attempt e) None None None None None.

(** [_outbox_envelope]. *)
Definition _outbox_envelope {W} (decode_payload : B -> result exn P) (id : pystr) (row : outbox_row B) : M exn W (OutboxEnvelope P) :=
  let! message_id := OpaqueId_new id in
  let! decoded := lift (decode_payload (row_payload row)) in
  OutboxEnvelope_new message_id (row_topic row) decoded (row_occurred_at row) (row_available_at row) (row_attempt row).

(** The filter and the order of [claim]. *)
Definition claimable (now : datetime) (_ : pystr) (row : outbox_row B) : bool :=
  bool_decide (row_delivered_at row = None) && bool_decide (row_failure row = None) && dt_leb (row_available_at row) now &&
  match row_claimed_until row with None => true | Some until => dt_leb until now end.
Definition claim_order (collate : pystr -> pystr -> bool) (a b : pystr * outbox_row B) : bool :=
  dt_ltb (row_available_at a.2) (row_available_at b.2) || (dt_leb (row_available_at a.2) (row_available_at b.2) && collate a.1 b.1).

Definition claimed_row (id : pystr) (until : datetime) (row : outbox_row B) : outbox_row B :=
  mkOutboxRow (row_topic row) (row_payload row) (row_occurred_at row) (row_available_at row) (row_attempt row)
    (Some id) (Some until) (row_delivered_at row) (row_failure row) (row_failed_at row).

Definition delivered_row (at_ : datetime) (row : outbox_row B) : outbox_row B :=
  mkOutboxRow (row_topic row) (row_payload row) (row_occurred_at row) (row_available_at row) (row_attempt row)
    None None (Some at_) (row_failure row) (row_failed_at row).
Definition failed_row (reason : pystr) (at_ : datetime) (row : outbox_row B) : outbox_row B :=
  mkOutboxRow (row_topic row) (row_payload row) (row_occurred_at row) (row_available_at row) (row_attempt row)
    None None (row_delivered_at row) (Some reason) (Some at_).
End Rows.

(** ** The callbacks of a model *)

Section Model.
Context {W P : Type} `{!Orm pystr json_row W, !Atomic W, !Uuid W, !Connections}.
Variable encode_payload : P -> result exn json.
Variable decode_payload : json -> result exn P.
(** The order of message IDs in the database's collation. *)
Variable collate : pystr -> pystr -> bool.

(** [add], for a model whose rows hold these columns; [model_row] gives the other columns
    their defaults. *)
Definition model_add_row {R} `{!Orm pystr R W} (model_row : json_row -> R) (e : OutboxEnvelope P) (alias : pystr) : M exn W OutboxAddResult :=
  _postgresql alias ;;;
  let! encoded := lift (encode_payload (payload e)) in
  validate_json encoded ;;;
  let! rc := _create_or_locked (opaque_value (message_id e)) (model_row (added_row encoded e)) in
  ret (if rc.2 : bool then OutboxAdded else OutboxDuplicate).
Definition model_add := model_add_row (fun row => row).

Definition claim_row (now : datetime) (claim_ttl : timedelta) (kr : pystr * json_row) : M exn W (OutboxClaim P) :=
  let! id := uuid4 in
  let! until := lift (dt_add now claim_ttl) in
  save kr.1 (claimed_row id until) ;;;
  let! e := _outbox_envelope decode_payload kr.1 kr.2 in
  OutboxClaim_new id e until.

Definition model_claim (now : datetime) (limit : Z) (claim_ttl : timedelta) (alias : pystr) : M exn W (list (OutboxClaim P)) :=
  _postgresql alias ;;;
  Django._utc now ;;;
  atomic
    (let! found := locked_query (claimable now) (claim_order collate) limit in
     for_each found [] (fun output kr => let! c := claim_row now claim_ttl kr in ret (output ++ [c]))).

(** The row of a claim, and the row of a claim that is not settled. *)
Definition of_claim (c : OutboxClaim P) (k : pystr) (row : json_row) : bool :=
  bool_decide (k = opaque_value (message_id (claim_envelope c))) && bool_decide (row_claim row = Some (claim_id c)).
Definition unsettled (c : OutboxClaim P) (k : pystr) (row : json_row) : bool :=
  of_claim c k row && bool_decide (row_delivered_at row = None) && bool_decide (row_failure row = None).

Definition model_delivered (c : OutboxClaim P) (at_ : datetime) (alias : pystr) : M exn W bool :=
  _postgresql alias ;;;
  Django._utc at_ ;;;
  let! n := update_where (unsettled c) (delivered_row at_) in
  ret (negb (n =? 0)).

Definition retried_row (c : OutboxClaim P) (available : datetime) (row : json_row) : json_row :=
  mkOutboxRow (row_topic row) (row_payload row) (row_occurred_at row) available (attempt (claim_envelope c) + 1)
    None None (row_delivered_at row) (row_failure row) (row_failed_at row).
Definition model_retry (c : OutboxClaim P) (available : datetime) (alias : pystr) : M exn W bool :=
  _postgresql alias ;;;
  Django._utc available ;;;
  let! n := update_where (of_claim c) (retried_row c available) in
  ret (negb (n =? 0)).

Definition model_failed (c : OutboxClaim P) (reason : pystr) (at_ : datetime) (alias : pystr) : M exn W bool :=
  _postgresql alias ;;;
  Django._utc at_ ;;;
  raise_if (str_empty reason) (ValueError "outbox failure reason must not be empty") ;;;
  let! n := update_where (unsettled c) (failed_row reason at_) in
  ret (negb (n =? 0)).

Definition outbox_store (alias : pystr) : DjangoOutboxStore W P :=
  mkDjangoOutbox alias model_add model_claim model_delivered model_retry model_failed.

(** [DjangoOutboxStore.from_model]. *)
Definition from_model (model : meta) (alias : pystr) : M exn W (DjangoOutboxStore W P) :=
  _unique model {["message_id"%py]} ;;;
  from_callbacks (outbox_store alias).
End Model.

(** ** The calls of the sessions, as steps on the rows *)

Section Steps.
Context {P : Type}.

(** A claim chooses rows and draws an identifier for each. *)
Inductive outbox_call :=
  | CallAdd (k : pystr) (encoded : json) (e : OutboxEnvelope P)
  | CallClaim (now until : datetime) (chosen : pystr -> option pystr)
  | CallDelivered (c : OutboxClaim P) (at_ : datetime)
  | CallRetry (c : OutboxClaim P) (available : datetime)
  | CallFailed (c : OutboxClaim P) (reason : pystr) (at_ : datetime).

Definition apply_outbox (c : outbox_call) (T : outbox_table) : outbox_table :=
  match c with
  | CallAdd k encoded e => match T !! k with Some _ => T | None => <[k := added_row encoded e]> T end
  | CallClaim now until chosen => map_imap (fun k row => Some (match chosen k with
      | Some id => if claimable now k row then claimed_row id until row else row
      | None => row
      end)) T
  | CallDelivered c at_ => updated (unsettled c) (delivered_row at_) T
  | CallRetry c available => updated (of_claim c) (retried_row c available) T
  | CallFailed c reason at_ => updated (unsettled c) (failed_row reason at_) T
  end.

Definition outbox_calls : relation outbox_table := fun T T' => exists c, T' = apply_outbox c T.

(** Delivered or failed: no claim holds the row, and no filter of a claim selects it. *)
Definition settled (k : pystr) (T : outbox_table) : Prop :=
  exists row, T !! k = Some row /\ row_claim row = None /\ (is_Some (row_delivered_at row) \/ is_Some (row_failure row)).

Lemma settled_not_claimable now k (row : json_row) : is_Some (row_delivered_at row) \/ is_Some (row_failure row) -> claimable now k row = false.
Proof. intros Hs. unfold claimable. destruct Hs as [[x Hx]|[x Hx]]; rewrite Hx; repeat case_bool_decide; done. Qed.
Lemma unclaimed_not_of_claim (c : OutboxClaim P) k row : row_claim row = None -> of_claim c k row = false.
Proof. intros Hc. unfold of_claim. rewrite Hc. by repeat case_bool_decide. Qed.

Lemma settled_kept k T T' : rtc outbox_calls T T' -> settled k T -> settled k T'.
Proof.
  induction 1 as [|T T1 T2 [c ->] _ IH]; [done|]. intros (row & Hrow & Hc & Hs). apply IH. exists row. split; [|done].
  destruct c as [j encoded e|now until chosen|c at_|c available|c reason at_]; cbn.
  - destruct (T !! j) eqn:Hj; [done|]. rewrite lookup_insert_ne; [done|congruence].
  - rewrite map_lookup_imap, Hrow. cbn. rewrite settled_not_claimable by done. by destruct (chosen k).
  - rewrite updated_lookup, Hrow. cbn. unfold unsettled. by rewrite unclaimed_not_of_claim.
  - rewrite updated_lookup, Hrow. cbn. by rewrite unclaimed_not_of_claim.
  - rewrite updated_lookup, Hrow. cbn. unfold unsettled. by rewrite unclaimed_not_of_claim.
Qed.

(** A settlement that found its row. *)
Lemma settlement_settles (c : OutboxClaim P) f T : (forall row, row_claim (f row) = None /\ (is_Some (row_delivered_at (f row)) \/ is_Some (row_failure (f row)))) ->
  Z.of_nat (size (matching (unsettled c) T)) =? 0 = false -> settled (opaque_value (message_id (claim_envelope c))) (updated (unsettled c) f T).
Proof.
  intros Hf Hn. apply Z.eqb_neq in Hn.
  destruct (map_choose (matching (unsettled c) T)) as (k & row & Hr); [intros He; rewrite He in Hn; by rewrite map_size_empty in Hn|].
  apply matching_lookup in Hr as [Hr Hc]. pose proof Hc as Hp. unfold unsettled, of_claim in Hc. rewrite !andb_true_iff, !bool_decide_eq_true in Hc.
  destruct Hc as [[[-> _] _] _]. exists (f row). rewrite updated_lookup, Hr. cbn. rewrite Hp. split; [done|apply Hf].
Qed.
End Steps.

(** ** What one call does *)

(** An addition creates the row when no row has the message ID, and nothing else. *)
Section Additions.
Context {R W P : Type} `{!Orm pystr R W, !Session pystr R W, !Atomic W, !Connections}.
Context (rely : relation (gmap pystr R)) `{!OrmLaws rely}.
Variable encode_payload : P -> result exn json.
Variable model_row : json_row -> R.

Lemma add_linearizes (e : OutboxEnvelope P) alias (w : W) :
  linearizes rely (model_add_row encode_payload model_row e alias) w
    (fun T r T' => exists encoded, encode_payload (payload e) = Ok encoded /\
       match T !! opaque_value (message_id e) with
       | Some _ => r = OutboxDuplicate /\ T' = T
       | None => r = OutboxAdded /\ T' = <[opaque_value (message_id e) := model_row (added_row encoded e)]> T
       end) (fun _ => True).
Proof.
  apply (linearizes_check rely); [done|intros _]. apply (linearizes_lift rely); [done|intros encoded Henc]. apply (linearizes_lift rely); [done|intros _ _].
  apply db_bind, (wp_create_or_locked rely).
  - intros w1 w2 Hs Hnone Hr Hb Hh Hn. apply wp_ret. split; [split; [done|by eapply grew_created]|].
    exists (rows w1). split; [by apply (sees_instant rely)|]. exists encoded. by rewrite Hnone.
  - intros w1 r Hf Hr Hh. apply wp_ret. split; [by apply later_follows|]. exists (rows w1). split; [apply (sees_instant rely), Hf|]. exists encoded. by rewrite Hr.
  - intros e' w1 Hf _. done.
Qed.
End Additions.

Section Runs.
Context {W P : Type} `{!Orm pystr json_row W, !Session pystr json_row W, !Atomic W, !Uuid W, !Connections}.
Context (rely : relation outbox_table) `{!OrmLaws rely, !UuidLaws}.
Variable encode_payload : P -> result exn json.
Variable decode_payload : json -> result exn P.
Variable collate : pystr -> pystr -> bool.

Definition outbox_raises (e : exn) : Prop :=
  failure e \/ (exists now ttl, dt_add now ttl = Raise e) \/ (exists j, decode_payload j = Raise e) \/ (exists m, e = ValueError m).

Lemma outbox_failure e : failure e -> outbox_raises e.
Proof. by left. Qed.
Lemma outbox_refused m : outbox_raises (ValueError m).
Proof. do 3 right. eauto. Qed.
#[local] Hint Resolve outbox_failure outbox_refused : core.

Abbreviation store := (outbox_store encode_payload decode_payload collate).

Lemma delivered_linearizes alias c at_ w :
  linearizes rely (delivered (store alias) c at_) w
    (fun T b T' => b = negb (Z.of_nat (size (matching (unsettled c) T)) =? 0) /\ T' = apply_outbox (CallDelivered c at_) T) outbox_raises.
Proof.
  apply (linearizes_check rely); [auto|intros _]. unfold outbox_store. cbn [outbox_using on_delivered].
  do 2 (apply (linearizes_check rely); [auto|intros _]). apply (linearizes_update rely); [done|auto].
Qed.
Lemma failed_linearizes alias c reason at_ w :
  linearizes rely (failed (store alias) c reason at_) w
    (fun T b T' => b = negb (Z.of_nat (size (matching (unsettled c) T)) =? 0) /\ T' = apply_outbox (CallFailed c reason at_) T) outbox_raises.
Proof.
  do 2 (apply (linearizes_check rely); [auto|intros _]). unfold outbox_store. cbn [outbox_using on_failed].
  do 3 (apply (linearizes_check rely); [auto|intros _]). apply (linearizes_update rely); [done|auto].
Qed.

(** The envelope of a row carries the row's message ID. *)
Lemma wp_envelope id row w (Q : OutboxEnvelope P -> W -> Prop) (X : exn -> W -> Prop) :
  (forall e, opaque_value (message_id e) = id -> Q e w) -> (forall e, outbox_raises e -> X e w) -> wp (_outbox_envelope decode_payload id row) w Q X.
Proof.
  intros HQ HX. apply db_bind, db_bind, db_raise_if; [intros _|by auto]. apply wp_ret. apply db_bind, wp_lift; [|intros e He; apply HX; right; right; left; eauto].
  intros p _. do 4 (apply db_bind, db_raise_if; [intros _|by auto]). apply wp_ret. by apply HQ.
Qed.

(** The rows still to claim, as the query returned and locked them. *)
Definition pending (l : list (pystr * json_row)) (w : W) : Prop :=
  nesting w <> 0%nat /\ forall kr, kr ∈ l -> kr.1 ∈ held w /\ rows w !! kr.1 = Some kr.2.

Lemma pending_follows l w w' : pending l w -> follows rely w w' -> pending l w'.
Proof.
  intros [Hn Hl] [Hs Hn']. split; [congruence|]. intros kr Hkr. destruct (Hl kr Hkr) as [Hh Hr].
  split; [by apply (sees_held rely _ _ Hs)|]. by rewrite (proj2 (sees_locked rely _ _ Hs _ Hh)).
Qed.
Lemma pending_wrote kr l r w w' : NoDup (kr :: l).*1 -> pending (kr :: l) w -> wrote w (<[kr.1 := r]> (rows w)) w' -> pending l w'.
Proof.
  intros Hnd [Hn Hl] [Hr _ Hh Hn']. split; [congruence|]. intros x Hx. destruct (Hl x ltac:(set_solver)) as [Hxh Hxr].
  split; [by apply Hh|]. rewrite Hr, lookup_insert_ne; [done|]. intros He. apply NoDup_cons in Hnd as [Hni _]. apply Hni. rewrite He. by apply list_elem_of_fmap_2.
Qed.

Lemma claims_run now ttl l output w : NoDup l.*1 -> pending l w ->
  wp (for_each l output (fun output kr => let! c := claim_row decode_payload now ttl kr in ret (output ++ [c]))) w
    (fun out _ => exists cs, out = output ++ cs /\ (fun c => opaque_value (message_id (claim_envelope c))) <$> cs = l.*1) (fun e _ => outbox_raises e).
Proof.
  revert output w. induction l as [|kr l IH]; intros output w Hnd Hp; [apply wp_ret; exists []; by rewrite app_nil_r|].
  cbn [for_each]. apply db_bind, db_bind, db_bind, (wp_uuid4 rely). intros id w1 _ _ Hf1 _. eapply pending_follows in Hp; [|exact Hf1].
  apply db_bind, wp_lift; [|intros e He; right; left; eauto]. intros u _. destruct (proj2 Hp kr ltac:(set_solver)) as [Hh Hr].
  apply db_bind. eapply (wp_save rely); [done|exact Hr| |auto]. intros w2 w3 Hf2 Hw3. eapply pending_follows in Hp; [|exact Hf2].
  eapply pending_wrote in Hw3; [|done|done]. apply db_bind, wp_envelope; [|auto]. intros e He.
  apply db_bind, db_raise_if; [intros _|by auto]. apply wp_ret, wp_ret. eapply db_mono; [apply IH; [by inversion Hnd|done]| |auto].
  intros out w4 (cs & -> & Hcs). exists (mkClaim id e u :: cs). by rewrite <- app_assoc, fmap_cons, Hcs, fmap_cons, <- He.
Qed.

(** The rows a claim returned were claimable at one instant of its run. *)
Lemma claim_selects_claimable alias now limit ttl w :
  wp (claim (store alias) now limit ttl) w
    (fun claims _ => Z.of_nat (length claims) <= limit /\ NoDup ((fun c => opaque_value (message_id (claim_envelope c))) <$> claims) /\
       exists T, instant rely w T /\ forall c, c ∈ claims -> exists row, T !! opaque_value (message_id (claim_envelope c)) = Some row /\
         claimable now (opaque_value (message_id (claim_envelope c))) row = true)
    (fun e w' => follows rely w w' /\ outbox_raises e).
Proof.
  apply db_bind, db_raise_if; [intros _|by split; [apply follows_refl|]]. apply db_bind, db_raise_if; [intros Hlimit|by split; [apply follows_refl|]].
  apply db_bind, db_raise_if; [intros _|by split; [apply follows_refl|]]. unfold outbox_store. cbn [outbox_using on_claim].
  do 2 (apply db_bind, db_raise_if; [intros _|by split; [apply follows_refl|]]).
  apply (wp_atomic rely). intros w0 He. pose proof (entered_nesting _ _ He) as Hn0.
  apply db_bind, (wp_locked_query rely); [|by auto]. intros l w1 [Hs1 Hn1] Hnd Hl Hlock Hlen. eapply db_mono; [apply claims_run; [done|]| |by auto].
  - split; [lia|]. intros kr Hkr. split; [apply Hlock; [lia|by apply list_elem_of_fmap_2]|by apply Hl].
  - intros out w2 (cs & -> & Hcs) w3 _. cbn [app]. rewrite Hcs. split_and!; [|done|].
    { apply (f_equal length) in Hcs. rewrite !length_fmap in Hcs. lia. }
    exists (rows w1). split; [apply (proj1 (entered_instant rely w w0 (rows w1) He)); by apply (sees_instant rely)|].
    intros c Hc. assert (opaque_value (message_id (claim_envelope c)) ∈ l.*1) as Hk by (rewrite <- Hcs; apply list_elem_of_fmap; by exists c).
    apply list_elem_of_fmap in Hk as ([k row] & Hk & Hin). exists row. rewrite Hk. by apply (Hl (k, row)).
Qed.
End Runs.

(** A message that a claim settled is never handed out again: after [delivered] or
    [failed] of a claim answered [True], no later [claim] of any session returns the message,
    whatever other sessions add, claim, deliver, retry or fail in between. *)
Theorem django_outbox_settlement_final {W P} `{!Orm pystr json_row W, !Session pystr json_row W, !Atomic W, !Uuid W, !Connections}
    `{!OrmLaws (outbox_calls (P := P)), !UuidLaws}
    encode_payload decode_payload collate alias (c : OutboxClaim P) reason at_ w0 w1 now limit ttl : nesting w0 = 0%nat ->
  delivered (outbox_store encode_payload decode_payload collate alias) c at_ w0 = (Ok true, w1) \/
    failed (outbox_store encode_payload decode_payload collate alias) c reason at_ w0 = (Ok true, w1) ->
  wp (claim (outbox_store encode_payload decode_payload collate alias) now limit ttl) w1
    (fun claims _ => forall c', c' ∈ claims -> message_id (claim_envelope c') <> message_id (claim_envelope c))
    (fun e w2 => follows (outbox_calls (P := P)) w1 w2 /\ outbox_raises decode_payload e).
Proof.
  intros Hn Hrun. assert (nesting w1 = 0%nat /\ settled (opaque_value (message_id (claim_envelope c))) (rows w1)) as [Hn1 Hset].
  { destruct Hrun as [Hrun|Hrun].
    - pose proof (delivered_linearizes outbox_calls encode_payload decode_payload collate alias c at_ w0) as Hl. unfold linearizes, wp in Hl. rewrite Hrun in Hl.
      destruct Hl as ([Hn1 _] & T & _ & Hb & ->). symmetry in Hb. apply negb_true_iff in Hb. split; [congruence|]. apply settlement_settles; [|done]. intros row. cbn. eauto.
    - pose proof (failed_linearizes outbox_calls encode_payload decode_payload collate alias c reason at_ w0) as Hl. unfold linearizes, wp in Hl. rewrite Hrun in Hl.
      destruct Hl as ([Hn1 _] & T & _ & Hb & ->). symmetry in Hb. apply negb_true_iff in Hb. split; [congruence|]. apply settlement_settles; [|done]. intros row. cbn. eauto. }
  eapply db_mono; [apply (claim_selects_claimable outbox_calls)| |done]. intros claims w2 (_ & _ & T & HT & Hc) c' Hin Heq.
  apply (instant_top outbox_calls) in HT; [|done]. apply (settled_kept _ _ _ HT) in Hset as (row & Hrow & _ & Hs).
  destruct (Hc c' Hin) as (row' & Hrow' & Hcl). rewrite Heq in *. assert (row' = row) as -> by congruence. by rewrite settled_not_claimable in Hcl.
Qed.

(** ** A concrete history: another session claims every second row it may. *)

Section Example.
#[local] Instance outbox_postgresql : Connections := fun _ => "postgresql"%py.
#[local] Existing Instance unary_uuid.
#[local] Existing Instance unary_uuid_laws.

Abbreviation outbox_db := (db (outbox_calls (P := Z))).
Definition their_claim (now until : datetime) : { f : outbox_table -> outbox_table | forall T, outbox_calls (P := Z) T (f T) } :=
  exist _ (apply_outbox (P := Z) (CallClaim now until (fun k => if bool_decide (k = "b"%py) then Some "z"%py else None)))
    (fun T => ex_intro _ (CallClaim now until (fun k => if bool_decide (k = "b"%py) then Some "z"%py else None)) eq_refl).
Definition waiting_row (at_ : datetime) : json_row := mkOutboxRow "topic" (JInt 7) at_ at_ 0 None None None None None.
Definition outbox_db0 : outbox_db :=
  mkDb _ {["a"%py := waiting_row (utc 1); "b"%py := waiting_row (utc 2); "c"%py := waiting_row (utc 3)]} ∅ ∅ 0 0
    (repeat (their_claim (utc 10) (utc 40)) 4).

Definition read_integer (j : json) : result exn Z := match j with JInt n => Ok n | _ => Raise (ValueError "not an integer") end.
Abbreviation demo_store := (outbox_store (W := outbox_db) (fun n => Ok (JInt n)) read_integer (fun a b => bool_decide (str_compare a b <> Gt)) "default").
Definition claim_demo now : M exn outbox_db (list (OutboxClaim Z)) := claim demo_store now 2 20.
Definition claimed_db := after (claim_demo (utc 10)) outbox_db0.
Definition demo_claim (id k : pystr) (at_ : datetime) (until : Z) : OutboxClaim Z := mkClaim id (mkEnvelope (mkOpaqueId k) "topic" 7 at_ at_ 0) (utc until).
Definition delivered_demo : M exn outbox_db bool := delivered demo_store (demo_claim "a" "a" (utc 1) 30) (utc 12).
Definition delivered_db := after delivered_demo claimed_db.

Lemma django_outbox_settlement_final_witness :
  answers_with (claim_demo (utc 10)) outbox_db0 [demo_claim "a" "a" (utc 1) 30; demo_claim "aa" "c" (utc 3) 30] /\
  answers_with delivered_demo claimed_db true /\
  answers_with (claim_demo (utc 90)) delivered_db [demo_claim "aaa" "b" (utc 2) 110; demo_claim "aaaa" "c" (utc 3) 110] /\
  wp (claim_demo (utc 90)) delivered_db (fun claims _ => forall c', c' ∈ claims -> message_id (claim_envelope c') <> mkOpaqueId "a")
    (fun e w2 => follows (outbox_calls (P := Z)) delivered_db w2 /\ outbox_raises (W := outbox_db) read_integer e).
Proof.
  do 3 (split; [by vm_compute|]).
  apply (django_outbox_settlement_final (fun n => Ok (JInt n)) read_integer (fun a b => bool_decide (str_compare a b <> Gt)) "default"
    (demo_claim "a" "a" (utc 1) 30) "reason" (utc 12) claimed_db delivered_db (utc 90) 2 20); [by vm_compute|left].
  apply (answers_after delivered_demo). by vm_compute.
Defined.
End Example.
