(* ===== verification/RelayRows.v ===== *)
(** * Relayed messages as rows

    What the Django and the SQLAlchemy relay stores share: the row of a message, which one a
    claim selects and which one a settlement may change, the byte budget of a claim, and the
    calls of the sessions as steps on the rows. [RelayContract] is what a store behind the
    asynchronous port promises; from it follows that a message that was delivered, failed or
    is uncertain is not handed out. [B] is the type of the payload column. *)
From Stdlib Require Import ZArith Lia.
From stdpp Require Import base list gmap relations.
From S2P Require Import Prelude Core Maintenance Outbox Resilience AsyncOutbox Database DatabaseModel Django DjangoOutbox.

(** A row: the columns of the outbox, and those of an uncertain publication. *)
Record relay_row (B : Type) := mkRelayRow {
  columns : outbox_row B;
  uncertain_at : option datetime;
  uncertainty_reason : option pystr
}.
Arguments mkRelayRow {B}.
Arguments columns {B}.
Arguments uncertain_at {B}.
Arguments uncertainty_reason {B}.

#[export] Instance relay_row_eq_dec {B} `{!EqDecision B} : EqDecision (relay_row B).
Proof. solve_decision. Defined.

Abbreviation relay_table B := (gmap pystr (relay_row B)).

(** A column equals an instant, as the database compares them. *)
Definition same_instant (column : option datetime) (t : datetime) : bool :=
  match column with Some t' => dt_instant t' =? dt_instant t | None => false end.

(** The loop over [metadata]: a row that does not fit is passed over. *)
Definition fits (max_bytes : option Z) (n : Z) : bool := match max_bytes with None => true | Some m => n <=? m end.
Definition retain (max_bytes : option Z) (kept : Z * list pystr) (row : pystr * Z) : Z * list pystr :=
  if fits max_bytes (kept.1 + row.2) then (kept.1 + row.2, kept.2 ++ [row.1]) else kept.
Definition retained (max_bytes : option Z) (metadata : list (pystr * Z)) : list pystr := (fold_left (retain max_bytes) metadata (0, [])).2.

Section Rows.
Context {B P : Type}.

Definition on_columns (f : outbox_row B -> outbox_row B) (row : relay_row B) : relay_row B := mkRelayRow (f (columns row)) (uncertain_at row) (uncertainty_reason row).
Definition new_row (c : outbox_row B) : relay_row B := mkRelayRow c None None.

(** The filter and the order of [claim]. *)
Definition relay_claimable (now : datetime) (k : pystr) (row : relay_row B) : bool :=
  claimable now k (columns row) && bool_decide (uncertain_at row = None).
Definition relay_order (collate : pystr -> pystr -> bool) (a b : pystr * relay_row B) : bool := claim_order collate (a.1, columns a.2) (b.1, columns b.2).

(** The length of the payload column in the database. *)
Definition payload_bytes (octet_length : B -> Z) (row : relay_row B) : Z := octet_length (row_payload (columns row)).

(** The row of a claim that still has authority at [t]. *)
Definition authorised (c : OutboxClaim P) (t : datetime) (k : pystr) (row : relay_row B) : bool :=
  bool_decide (k = opaque_value (message_id (claim_envelope c))) && bool_decide (row_claim (columns row) = Some (claim_id c)) &&
  same_instant (row_claimed_until (columns row)) (claimed_until c) &&
  match row_claimed_until (columns row) with Some until => dt_ltb t until | None => false end &&
  bool_decide (row_delivered_at (columns row) = None) && bool_decide (uncertain_at row = None) && bool_decide (row_failure (columns row) = None).

(** [values], with [claim_id=None, claimed_until=None]. *)
Definition unclaimed_row (row : outbox_row B) : outbox_row B :=
  mkOutboxRow (row_topic row) (row_payload row) (row_occurred_at row) (row_available_at row) (row_attempt row)
    None None (row_delivered_at row) (row_failure row) (row_failed_at row).
Definition released (values : relay_row B -> relay_row B) (row : relay_row B) : relay_row B := on_columns unclaimed_row (values row).

(** The columns each settlement names. *)
Definition set_delivered (at_ : datetime) : relay_row B -> relay_row B := on_columns (delivered_row at_).
Definition set_retry (available : datetime) : relay_row B -> relay_row B := on_columns (fun row =>
  mkOutboxRow (row_topic row) (row_payload row) (row_occurred_at row) available (row_attempt row + 1)
    (row_claim row) (row_claimed_until row) (row_delivered_at row) (row_failure row) (row_failed_at row)).
Definition set_available (available : datetime) : relay_row B -> relay_row B := on_columns (fun row =>
  mkOutboxRow (row_topic row) (row_payload row) (row_occurred_at row) available (row_attempt row)
    (row_claim row) (row_claimed_until row) (row_delivered_at row) (row_failure row) (row_failed_at row)).
Definition set_uncertain (reason : pystr) (at_ : datetime) (row : relay_row B) : relay_row B := mkRelayRow (columns row) (Some at_) (Some reason).
Definition set_failed (reason : pystr) (at_ : datetime) : relay_row B -> relay_row B := on_columns (failed_row reason at_).

(** The row of an uncertain publication, and what its resolution leaves. *)
Definition unresolved (id : OpaqueId) (expected : datetime) (k : pystr) (row : relay_row B) : bool :=
  bool_decide (k = opaque_value id) && same_instant (uncertain_at row) expected &&
  bool_decide (row_delivered_at (columns row) = None) && bool_decide (row_failure (columns row) = None).
Definition resolved_row (was_delivered : bool) (available at_ : datetime) (row : relay_row B) : relay_row B :=
  let c := columns row in
  mkRelayRow (mkOutboxRow (row_topic c) (row_payload c) (row_occurred_at c) available (row_attempt c)
    (row_claim c) (row_claimed_until c) (if was_delivered then Some at_ else None) (row_failure c) (row_failed_at c)) None None.
End Rows.

(** ** The calls of the sessions, as steps on the rows *)

Section Steps.
Context {B P : Type}.
Implicit Types row : relay_row B.

(** What a settlement writes beside the release of the claim. *)
Inductive settlement :=
  | ToDelivered (at_ : datetime)
  | ToRetry (available : datetime)
  | ToAvailable (available : datetime)
  | ToUncertain (reason : pystr) (at_ : datetime)
  | ToFailed (reason : pystr) (at_ : datetime).

Definition values_of (s : settlement) : relay_row B -> relay_row B :=
  match s with
  | ToDelivered at_ => set_delivered at_
  | ToRetry available => set_retry available
  | ToAvailable available => set_available available
  | ToUncertain reason at_ => set_uncertain reason at_
  | ToFailed reason at_ => set_failed reason at_
  end.

Inductive relay_call :=
  | CallAdd (k : pystr) (encoded : B) (e : OutboxEnvelope P)
  | CallClaim (now until : datetime) (chosen : pystr -> option pystr)
  | CallSettle (c : OutboxClaim P) (t : datetime) (s : settlement)
  | CallResolve (id : OpaqueId) (expected : datetime) (was_delivered : bool) (available at_ : datetime).

Definition apply_relay (c : relay_call) (T : relay_table B) : relay_table B :=
  match c with
  | CallAdd k encoded e => match T !! k with Some _ => T | None => <[k := new_row (added_row encoded e)]> T end
  | CallClaim now until chosen => map_imap (fun k row => Some (match chosen k with
      | Some id => if relay_claimable now k row then on_columns (claimed_row id until) row else row
      | None => row
      end)) T
  | CallSettle c t s => updated (authorised c t) (released (values_of s)) T
  | CallResolve id expected was_delivered available at_ => updated (unresolved id expected) (resolved_row was_delivered available at_) T
  end.

(** The calls other sessions may make. *)
Definition relay_calls (allowed : relay_call -> Prop) : relation (relay_table B) := fun T T' => exists c, allowed c /\ T' = apply_relay c T.

Definition resolves (k : pystr) (c : relay_call) : bool :=
  match c with CallResolve id _ _ _ _ => bool_decide (opaque_value id = k) | _ => false end.

(** Delivered or failed; or held back by an uncertain publication. *)
Definition closed (row : relay_row B) : Prop := is_Some (row_delivered_at (columns row)) \/ is_Some (row_failure (columns row)).
Definition unavailable (row : relay_row B) : Prop := closed row \/ is_Some (uncertain_at row).

Lemma unavailable_not_claimable now k row : unavailable row -> relay_claimable now k row = false.
Proof.
  unfold relay_claimable, claimable. intros [[[x Hx]|[x Hx]]|[x Hx]]; rewrite Hx; repeat case_bool_decide; try done; by rewrite ?andb_false_r.
Qed.
Lemma unavailable_not_authorised (c : OutboxClaim P) t k row : unavailable row -> authorised c t k row = false.
Proof. unfold authorised. intros [[[x Hx]|[x Hx]]|[x Hx]]; rewrite Hx, !(bool_decide_false (Some _ = None)) by done; by rewrite ?andb_false_r. Qed.
Lemma closed_not_unresolved id expected k row : closed row -> unresolved id expected k row = false.
Proof. unfold unresolved. intros [[x Hx]|[x Hx]]; rewrite Hx, !(bool_decide_false (Some _ = None)) by done; by rewrite ?andb_false_r. Qed.
Lemma other_not_unresolved id expected k row : opaque_value id <> k -> unresolved id expected k row = false.
Proof. unfold unresolved. intros Hk. by rewrite bool_decide_false by congruence. Qed.

(** A call leaves the row of an unavailable message as it is, unless it resolves it. *)
Lemma unavailable_step c k row T : T !! k = Some row -> unavailable row -> closed row \/ resolves k c = false -> apply_relay c T !! k = Some row.
Proof.
  intros Hrow Hu Hr. destruct c as [j encoded e|now until chosen|c t s|id expected d a at_]; cbn in *.
  - destruct (T !! j) eqn:Hj; [done|]. rewrite lookup_insert_ne; [done|congruence].
  - rewrite map_lookup_imap, Hrow. cbn. rewrite unavailable_not_claimable by done. by destruct (chosen k).
  - rewrite updated_lookup, Hrow. cbn. by rewrite unavailable_not_authorised.
  - rewrite updated_lookup, Hrow. cbn. destruct Hr as [Hc|Hr%bool_decide_eq_false]; [by rewrite closed_not_unresolved|by rewrite other_not_unresolved].
Qed.
Lemma unavailable_kept allowed k row T T' : rtc (relay_calls allowed) T T' -> T !! k = Some row -> unavailable row ->
  closed row \/ (forall c, allowed c -> resolves k c = false) -> T' !! k = Some row.
Proof.
  induction 1 as [|T T1 T2 (c & Hc & ->) _ IH]; [done|]. intros Hrow Hu Hr. apply IH; [|done..].
  apply unavailable_step; [done..|]. destruct Hr; auto.
Qed.

(** A settlement that found its row. *)
Lemma authorised_row (c : OutboxClaim P) t f T : Z.of_nat (size (matching (authorised c t) T)) =? 0 = false ->
  exists row, T !! opaque_value (message_id (claim_envelope c)) = Some row /\ updated (authorised c t) f T !! opaque_value (message_id (claim_envelope c)) = Some (f row).
Proof.
  intros Hn. apply Z.eqb_neq in Hn.
  destruct (map_choose (matching (authorised c t) T)) as (k & row & Hr); [intros He; rewrite He in Hn; by rewrite map_size_empty in Hn|].
  apply matching_lookup in Hr as [Hr Hc]. pose proof Hc as Hp. unfold authorised in Hc. rewrite !andb_true_iff, !bool_decide_eq_true in Hc.
  destruct Hc as [[[[[[-> _] _] _] _] _] _]. exists row. split; [done|]. rewrite updated_lookup, Hr. cbn. by rewrite Hp.
Qed.
End Steps.
Arguments relay_call : clear implicits.

(** ** The byte budget *)

Definition total (l : list Z) : Z := foldr Z.add 0 l.

Lemma total_app l k : total (l ++ k) = total l + total k.
Proof. unfold total. induction l as [|x l IH]; cbn in *; lia. Qed.
Lemma total_snoc {A} (l : list (A * Z)) x : total (l ++ [x]).*2 = total l.*2 + x.2.
Proof. rewrite fmap_app, total_app. cbn. lia. Qed.
Lemma relay_total_perm l k : l ≡ₚ k -> total l = total k.
Proof. unfold total. induction 1; cbn in *; lia. Qed.
Lemma total_submseteq l k : l ⊆+ k -> Forall (Z.le 0) k -> total l <= total k.
Proof.
  intros Hs Hk. apply submseteq_Permutation in Hs as [k' Hp]. rewrite (relay_total_perm _ _ Hp), total_app.
  rewrite Hp, Forall_app in Hk. destruct Hk as [_ Hk]. assert (0 <= total k') by (unfold total; clear Hp; induction Hk; cbn in *; lia). lia.
Qed.

(** The rows kept by the loop: their identities in order, and their sizes within the budget. *)
Lemma retained_sublist max_bytes metadata : match max_bytes with Some m => 0 <= m | None => True end ->
  exists kept, kept `sublist_of` metadata /\ retained max_bytes metadata = kept.*1 /\ fits max_bytes (total kept.*2) = true.
Proof.
  intros Hm. unfold retained. assert (fits max_bytes 0 = true) as H0 by (destruct max_bytes; cbn; [by apply Z.leb_le|done]).
  enough (forall kept, fits max_bytes (total kept.*2) = true -> exists more, more `sublist_of` metadata /\
    fold_left (retain max_bytes) metadata (total kept.*2, kept.*1) = (total (kept ++ more).*2, (kept ++ more).*1) /\ fits max_bytes (total (kept ++ more).*2) = true) as Hloop.
  { destruct (Hloop [] H0) as (more & Hs & Hf & Hb). exists more. cbn in Hf. by rewrite Hf. }
  induction metadata as [|x metadata IH]; intros kept Hk; [exists []; by rewrite app_nil_r|]. cbn [fold_left]. unfold retain at 2. cbn [fst snd].
  destruct (fits max_bytes (total kept.*2 + x.2)) eqn:Hx.
  - destruct (IH (kept ++ [x])) as (more & Hs & Hf & Hb); [by rewrite total_snoc|].
    exists (x :: more). rewrite total_snoc, fmap_app, <- app_assoc in Hf. rewrite <- app_assoc in Hb. split_and!; [by constructor|exact Hf|exact Hb].
  - destruct (IH kept Hk) as (more & Hs & Hf & Hb). exists more. split_and!; [by constructor|done..].
Qed.

(** Rows with distinct keys among the identities kept stay within the budget. *)
Lemma retained_budget {R} (bytes : R -> Z) max_bytes (all l : list (pystr * R)) : match max_bytes with Some m => 0 <= m | None => True end ->
  (forall r, 0 <= bytes r) -> NoDup all.*1 -> NoDup l.*1 -> (forall kr, kr ∈ l -> kr ∈ all /\ kr.1 ∈ retained max_bytes ((fun kr => (kr.1, bytes kr.2)) <$> all)) ->
  fits max_bytes (total (bytes ∘ snd <$> l)) = true.
Proof.
  intros Hm Hb Hall Hl Hin. set (metadata := (fun kr : pystr * R => (kr.1, bytes kr.2)) <$> all) in *.
  destruct (retained_sublist max_bytes metadata Hm) as (kept & Hs & Hk & Hf). rewrite Hk in Hin.
  assert (NoDup metadata.*1) as Hmeta by (unfold metadata; by rewrite <- list_fmap_compose).
  assert ((fun kr : pystr * R => (kr.1, bytes kr.2)) <$> l ⊆+ kept) as Hsub.
  { apply NoDup_submseteq; [apply (NoDup_fmap_1 fst); by rewrite <- list_fmap_compose|].
    intros y (kr & -> & Hkr)%list_elem_of_fmap. destruct (Hin kr Hkr) as [Ha Hi]. apply list_elem_of_fmap in Hi as ([k n] & Hkn & Hi). cbn in Hkn.
    assert ((k, n) ∈ metadata) as Hmem by (by eapply elem_of_sublist).
    assert ((kr.1, bytes kr.2) ∈ metadata) as Hmem' by (apply list_elem_of_fmap; by exists kr).
    rewrite <- Hkn in Hmem, Hi. apply list_elem_of_lookup in Hmem as [i Hi1], Hmem' as [j Hj1].
    assert (i = j) as -> by (eapply NoDup_lookup; [exact Hmeta| |]; rewrite list_lookup_fmap; [by rewrite Hi1|by rewrite Hj1]).
    congruence. }
  destruct max_bytes as [m|]; [|done]. cbn in *. apply Z.leb_le. apply Z.leb_le in Hf. etrans; [|exact Hf].
  replace (bytes ∘ snd <$> l) with (((fun kr : pystr * R => (kr.1, bytes kr.2)) <$> l).*2) by (by rewrite <- list_fmap_compose).
  apply total_submseteq; [by apply fmap_submseteq|]. apply Forall_forall. intros x (kr & -> & Hkr)%list_elem_of_fmap.
  apply (elem_of_sublist _ _ _ Hkr) in Hs. apply list_elem_of_fmap in Hs as (y & -> & _). apply Hb.
Qed.

(** ** Claiming and settling *)

Section Operations.
Context {W B P : Type} `{!Orm pystr (relay_row B) W, !Uuid W}.
Variable decode_payload : B -> result exn P.
Variable collate : pystr -> pystr -> bool.
Variable octet_length : B -> Z.

(** [metadata] of the rows a claim may take, then those of them within the budget; [limit2]
    bounds the second query. *)
Definition select_rows (now : datetime) (limit : Z) (max_bytes : option Z) (limit2 : list pystr -> Z) : M exn W (list (pystr * relay_row B)) :=
  let! metadata := locked_query (relay_claimable now) (relay_order collate) limit in
  let identities := retained max_bytes ((fun kr => (kr.1, payload_bytes octet_length kr.2)) <$> metadata) in
  locked_query (fun k row => relay_claimable now k row && bool_decide (k ∈ identities)) (relay_order collate) (limit2 identities).

(** The loop over the rows: a row is claimed and its envelope is read. *)
Definition claim_one (now : datetime) (claim_ttl : timedelta) (kr : pystr * relay_row B) : M exn W (OutboxClaim P) :=
  let! id := uuid4 in
  let! until := lift (dt_add now claim_ttl) in
  save kr.1 (on_columns (claimed_row id until)) ;;;
  let! e := _outbox_envelope decode_payload kr.1 (columns kr.2) in
  OutboxClaim_new id e until.
Definition claim_rows (now : datetime) (claim_ttl : timedelta) (found : list (pystr * relay_row B)) : M exn W (list (OutboxClaim P)) :=
  for_each found [] (fun claims kr => let! c := claim_one now claim_ttl kr in ret (claims ++ [c])).

(** What a claim hands out, at one instant of its run. *)
Definition claims_row (now : datetime) (ttl : timedelta) (c : OutboxClaim P) (kr : pystr * relay_row B) : Prop :=
  opaque_value (message_id (claim_envelope c)) = kr.1 /\ decode_payload (row_payload (columns kr.2)) = Ok (payload (claim_envelope c)) /\
  attempt (claim_envelope c) = row_attempt (columns kr.2) /\ dt_add now ttl = Ok (claimed_until c).
Definition handed_out (now : datetime) (limit : Z) (ttl : timedelta) (max_bytes : option Z) (T : relay_table B) (claims : list (OutboxClaim P)) : Prop :=
  exists found, Forall2 (claims_row now ttl) claims found /\ NoDup found.*1 /\ Z.of_nat (length claims) <= limit /\
    (forall kr, kr ∈ found -> T !! kr.1 = Some kr.2 /\ relay_claimable now kr.1 kr.2 = true) /\
    fits max_bytes (total (payload_bytes octet_length ∘ snd <$> found)) = true.
End Operations.

Section Runs.
Context {W B P : Type} `{!Orm pystr (relay_row B) W, !Session pystr (relay_row B) W, !Atomic W, !Uuid W}.
Context (rely : relation (relay_table B)) `{!OrmLaws rely, !UuidLaws}.
Variable decode_payload : B -> result exn P.
Variable collate : pystr -> pystr -> bool.
Variable octet_length : B -> Z.
Hypothesis octet_length_nonneg : forall j, 0 <= octet_length j.

Definition raises (e : exn) : Prop :=
  failure e \/ (exists now ttl, dt_add now ttl = Raise e) \/ (exists j, decode_payload j = Raise e) \/ (exists m, e = ValueError m).

Lemma raises_failure e : failure e -> raises e.
Proof. by left. Qed.
Lemma raises_refused m : raises (ValueError m).
Proof. do 3 right. eauto. Qed.
#[local] Hint Resolve raises_failure raises_refused : core.

(** The rows still to claim, locked as a query returned them. *)
Definition pending (l : list (pystr * relay_row B)) (w : W) : Prop :=
  nesting w <> 0%nat /\ forall kr, kr ∈ l -> kr.1 ∈ held w /\ rows w !! kr.1 = Some kr.2.

Lemma relay_pending_follows l w w' : pending l w -> follows rely w w' -> pending l w'.
Proof.
  intros [Hn Hl] [Hs Hn']. split; [congruence|]. intros kr Hkr. destruct (Hl kr Hkr) as [Hh Hr].
  split; [by apply (sees_held rely _ _ Hs)|]. by rewrite (proj2 (sees_locked rely _ _ Hs _ Hh)).
Qed.
Lemma relay_pending_wrote kr l r w w' : NoDup (kr :: l).*1 -> pending (kr :: l) w -> wrote w (<[kr.1 := r]> (rows w)) w' -> pending l w'.
Proof.
  intros Hnd [Hn Hl] [Hr _ Hh Hn']. split; [congruence|]. intros x Hx. destruct (Hl x ltac:(set_solver)) as [Hxh Hxr].
  split; [by apply Hh|]. rewrite Hr, lookup_insert_ne; [done|]. intros He. apply NoDup_cons in Hnd as [Hni _]. apply Hni. rewrite He. by apply list_elem_of_fmap_2.
Qed.

Lemma wp_envelope_of id (row : outbox_row B) (w : W) (Q : OutboxEnvelope P -> W -> Prop) (X : exn -> W -> Prop) :
  (forall e, opaque_value (message_id e) = id -> decode_payload (row_payload row) = Ok (payload e) -> attempt e = row_attempt row -> Q e w) ->
  (forall e, raises e -> X e w) -> wp (_outbox_envelope decode_payload id row) w Q X.
Proof.
  intros HQ HX. apply db_bind, db_bind, db_raise_if; [intros _|by auto]. apply wp_ret. apply db_bind, wp_lift; [|intros e He; apply HX; right; right; left; eauto].
  intros p Hp. do 4 (apply db_bind, db_raise_if; [intros _|by auto]). apply wp_ret. by apply HQ.
Qed.

Lemma relay_claims_run now ttl l output w : NoDup l.*1 -> pending l w ->
  wp (for_each l output (fun claims kr => let! c := claim_one decode_payload now ttl kr in ret (claims ++ [c]))) w
    (fun out w' => exists cs, out = output ++ cs /\ Forall2 (claims_row decode_payload now ttl) cs l) (fun e _ => raises e).
Proof.
  revert output w. induction l as [|kr l IH]; intros output w Hnd Hp; [apply wp_ret; exists []; by rewrite app_nil_r|].
  cbn [for_each]. apply db_bind, db_bind, db_bind, (wp_uuid4 rely). intros id w1 _ _ Hf1 _. eapply relay_pending_follows in Hp; [|exact Hf1].
  apply db_bind, wp_lift; [|intros e He; right; left; eauto]. intros u Hu. destruct (proj2 Hp kr ltac:(set_solver)) as [Hh Hr].
  apply db_bind. eapply (wp_save rely); [done|exact Hr| |auto]. intros w2 w3 Hf2 Hw3. eapply relay_pending_follows in Hp; [|exact Hf2].
  eapply relay_pending_wrote in Hw3; [|done|done]. apply db_bind, wp_envelope_of; [|auto]. intros e He Hpl Ha.
  apply db_bind, db_raise_if; [intros _|by auto]. apply wp_ret, wp_ret. eapply db_mono; [apply IH; [by inversion Hnd|done]| |auto].
  intros out w4 (cs & -> & Hcs). exists (mkClaim id e u :: cs). by rewrite <- app_assoc; split; [|constructor].
Qed.

(** The rows selected, as they were at the first query. *)
Lemma select_run now limit max_bytes limit2 w : nesting w <> 0%nat -> 0 < limit -> match max_bytes with Some m => 0 < m | None => True end ->
  wp (select_rows collate octet_length now limit max_bytes limit2) w
    (fun found w2 => pending found w2 /\ NoDup found.*1 /\ Z.of_nat (length found) <= limit /\ exists T, instant rely w T /\
       (forall kr, kr ∈ found -> T !! kr.1 = Some kr.2 /\ relay_claimable now kr.1 kr.2 = true) /\ fits max_bytes (total (payload_bytes octet_length ∘ snd <$> found)) = true)
    (fun e _ => raises e).
Proof.
  intros Hn Hlimit Hbytes. apply db_bind, (wp_locked_query rely); [|by auto]. intros all w1 [Hs1 Hn1] Hall Hin1 Hlock1 Hlen1.
  apply (wp_locked_query rely); [|by auto]. intros found w2 [Hs2 Hn2] Hfound Hin2 Hlock2 _.
  assert (forall kr, kr ∈ found -> relay_claimable now kr.1 kr.2 = true /\ kr ∈ all /\
    kr.1 ∈ retained max_bytes ((fun kr => (kr.1, payload_bytes octet_length kr.2)) <$> all)) as Hkept.
  { intros [k r] Hkr. destruct (Hin2 _ Hkr) as [Hr [Hc Hi%bool_decide_eq_true]%andb_true_iff]. split; [done|]. split; [|done].
    destruct (retained_sublist max_bytes ((fun kr => (kr.1, payload_bytes octet_length kr.2)) <$> all)) as (kept & Hs & Hk & _); [destruct max_bytes; [lia|done]|].
    rewrite Hk in Hi. apply list_elem_of_fmap in Hi as (x & Hx & Hi). eapply elem_of_sublist in Hi; [|exact Hs].
    apply list_elem_of_fmap in Hi as ([k' r'] & -> & Hi). cbn in *. subst k'.
    assert (k ∈ held w1) as Hh by (apply Hlock1; [lia|]; by apply (list_elem_of_fmap_2 fst _ (k, r'))).
    destruct (Hin1 _ Hi) as [Hr1 _]. cbn in Hr1. rewrite (proj2 (sees_locked rely _ _ Hs2 k Hh)), Hr1 in Hr. congruence. }
  split_and!; [split; [lia|]|done| |].
  - intros kr Hkr. split; [apply Hlock2; [lia|by apply list_elem_of_fmap_2]|by apply Hin2].
  - assert (length found <= length all)%nat; [|lia]. apply submseteq_length, NoDup_submseteq; [by apply (NoDup_fmap_1 fst)|]. intros kr Hkr. by apply Hkept.
  - exists (rows w1). split; [by apply (sees_instant rely)|]. split.
    + intros kr Hkr. destruct (Hkept kr Hkr) as (Hc & Ha & _). split; [by apply Hin1|done].
    + eapply retained_budget; [destruct max_bytes; [lia|done]|intros; apply octet_length_nonneg|exact Hall|done|]. intros kr Hkr. by apply Hkept.
Qed.

(** A claim: the rows selected, then the loop. *)
Lemma claim_selected now limit ttl max_bytes (select : M exn W (list (pystr * relay_row B))) w :
  wp select w (fun found w2 => pending found w2 /\ NoDup found.*1 /\ Z.of_nat (length found) <= limit /\ exists T, instant rely w T /\
       (forall kr, kr ∈ found -> T !! kr.1 = Some kr.2 /\ relay_claimable now kr.1 kr.2 = true) /\ fits max_bytes (total (payload_bytes octet_length ∘ snd <$> found)) = true)
    (fun e _ => raises e) ->
  wp (let! found := select in claim_rows decode_payload now ttl found) w
    (fun claims _ => exists T, instant rely w T /\ handed_out decode_payload octet_length now limit ttl max_bytes T claims) (fun e _ => raises e).
Proof.
  intros Hselect. apply db_bind. eapply db_mono; [exact Hselect| |by auto]. intros found w2 (Hp & Hnd & Hlen & T & HT & Hin & Hfit).
  eapply db_mono; [by apply relay_claims_run| |by auto]. intros out w3 (cs & -> & Hcs). exists T. split; [done|]. exists found. cbn [app].
  split_and!; [done..|by rewrite (Forall2_length _ _ _ Hcs)|done|done].
Qed.

(** What a settlement leaves that found its row. *)
Definition settle_step (c : OutboxClaim P) (at_ : datetime) (values : relay_row B -> relay_row B) (T : relay_table B) (r : SettlementResult) (T' : relay_table B) : Prop :=
  exists t, T' = updated (authorised c (greatest at_ t)) (released values) T /\
    r = if Z.of_nat (size (matching (authorised c (greatest at_ t)) T)) =? 0 then STALE else APPLIED.

Lemma settle_step_row c at_ values T T' : settle_step c at_ values T APPLIED T' ->
  exists row, T' !! opaque_value (message_id (claim_envelope c)) = Some (released values row).
Proof.
  intros (t & -> & Hr). destruct (_ =? 0) eqn:Hsize in Hr; [done|]. destruct (authorised_row c _ (released values) T Hsize) as (row & _ & Hrow). by exists row.
Qed.
End Runs.

(** ** The contract of a relay store *)

(** A settlement that answered [APPLIED] left the row of the message delivered, failed or
    uncertain, and a claim hands out rows that were claimable at one instant of its run; it
    ends with an exception as [raised] says. *)
Class RelayContract {W B P} `{!Orm pystr (relay_row B) W, !Session pystr (relay_row B) W} (rely : relation (relay_table B)) (store : AsyncOutboxStore W P)
    (decode_payload : B -> result exn P) (octet_length : B -> Z) (raised : W -> exn -> W -> Prop) : Prop := {
  contract_delivered : forall c at_ w0 w1, nesting w0 = 0%nat -> aport_delivered c at_ w0 = (Ok APPLIED, w1) ->
    nesting w1 = 0%nat /\ exists row, rows w1 !! opaque_value (message_id (claim_envelope c)) = Some row /\ closed row;
  contract_failed : forall c reason at_ w0 w1, nesting w0 = 0%nat -> aport_failed c reason at_ w0 = (Ok APPLIED, w1) ->
    nesting w1 = 0%nat /\ exists row, rows w1 !! opaque_value (message_id (claim_envelope c)) = Some row /\ closed row;
  contract_uncertain : forall c reason at_ w0 w1, nesting w0 = 0%nat -> aport_uncertain c reason at_ w0 = (Ok APPLIED, w1) ->
    nesting w1 = 0%nat /\ exists row, rows w1 !! opaque_value (message_id (claim_envelope c)) = Some row /\ unavailable row;
  contract_claim : forall now limit ttl max_bytes w, nesting w = 0%nat ->
    wp (aport_claim now limit ttl max_bytes) w
      (fun claims _ => exists T, instant rely w T /\ handed_out decode_payload octet_length now limit ttl max_bytes T claims) (raised w)
}.

Section Client.
Context {W B P : Type} `{!Orm pystr (relay_row B) W, !Session pystr (relay_row B) W, !Atomic W}.
Variable allowed : relay_call B P -> Prop.
Context `{!OrmLaws (relay_calls allowed)} (store : AsyncOutboxStore W P) decode_payload octet_length raised
  `{!RelayContract (relay_calls allowed) store decode_payload octet_length raised}.

Lemma held_back (c : OutboxClaim P) reason at_ w0 w1 now limit ttl max_bytes : nesting w0 = 0%nat ->
  (aport_delivered c at_ w0 = (Ok APPLIED, w1) \/ aport_failed c reason at_ w0 = (Ok APPLIED, w1) \/
   aport_uncertain c reason at_ w0 = (Ok APPLIED, w1) /\
     (forall call, allowed call -> resolves (opaque_value (message_id (claim_envelope c))) call = false)) ->
  wp (aport_claim now limit ttl max_bytes) w1
    (fun claims _ => forall c', c' ∈ claims -> message_id (claim_envelope c') <> message_id (claim_envelope c)) (raised w1).
Proof.
  intros Hn Hrun.
  assert (nesting w1 = 0%nat /\ exists row, rows w1 !! opaque_value (message_id (claim_envelope c)) = Some row /\ unavailable row /\
    (closed row \/ (forall call, allowed call -> resolves (opaque_value (message_id (claim_envelope c))) call = false))) as (Hn1 & row & Hrow & Hu & Hr).
  { unfold unavailable. destruct Hrun as [Hrun|[Hrun|[Hrun Hallowed]]].
    - destruct (contract_delivered _ _ _ _ Hn Hrun) as (? & row & ? & ?). eauto 8.
    - destruct (contract_failed _ _ _ _ _ Hn Hrun) as (? & row & ? & ?). eauto 8.
    - destruct (contract_uncertain _ _ _ _ _ Hn Hrun) as (? & row & ? & ?). eauto 8. }
  eapply db_mono; [by apply contract_claim| |done]. intros claims w2 (T & HT & found & Hrows & _ & _ & Hin & _) c' Hc' Heq.
  apply (instant_top (relay_calls allowed)) in HT; [|done]. apply (unavailable_kept allowed _ _ _ _ HT) in Hrow; [|done..].
  apply list_elem_of_lookup in Hc' as [i Hi]. destruct (Forall2_lookup_l _ _ _ _ _ Hrows Hi) as (kr & Hkr & Hid & _). apply list_elem_of_lookup_2, Hin in Hkr as [HT' Hcl].
  rewrite <- Hid, Heq in HT'. assert (kr.2 = row) as Hrow' by congruence. rewrite Hrow', unavailable_not_claimable in Hcl by done. done.
Qed.
End Client.
