(* ===== verification/DjangoRelay.v ===== *)
(** * The Django relay store ([django/relay.py], [DjangoRelayStore])

    The outbox operations behind the asynchronous runtime over a consumer's model: claims
    within a byte budget, settlements that hold only while the database's clock allows the
    claim, and uncertain publications that wait until they are resolved. The length of a
    payload's JSON text in the database is a parameter. *)
From Stdlib Require Import ZArith Lia.
From stdpp Require Import base list gmap relations.
From S2P Require Import Prelude Core Maintenance Outbox Resilience Database DatabaseModel Django DjangoOutbox RelayRows.

(** ** The operations *)

Section Store.
Context {W P : Type} `{!Orm pystr (relay_row json) W, !Atomic W, !Uuid W, !DatabaseClock W, !Connections}.
Variable encode_payload : P -> result exn json.
Variable decode_payload : json -> result exn P.
Variable collate : pystr -> pystr -> bool.
(** [octet_length(payload::text)]. *)
Variable octet_length : json -> Z.
Variable using_ : pystr.

(** [DjangoRelayStore(model, using=...)]: the checks of the outbox store it wraps. *)
Definition DjangoRelayStore_new (model : meta) : M exn W unit :=
  _unique model {["message_id"%py]} ;;;
  let! _ := _alias using_ in
  ret tt.

Definition add (e : OutboxEnvelope P) : M exn W OutboxAddResult := model_add_row encode_payload new_row e using_.

(** The second query has no limit of its own: at most one row has each identity. *)
Definition claim (now : datetime) (limit : Z) (claim_ttl : timedelta) (max_bytes : option Z) : M exn W (list (OutboxClaim P)) :=
  _postgresql using_ ;;;
  Django._utc now ;;;
  raise_if ((limit <=? 0) || (claim_ttl <=? 0)) (ValueError "positive claim limit and ttl required") ;;;
  raise_if (match max_bytes with Some m => m <=? 0 | None => false end) (ValueError "max_bytes must be positive") ;;;
  let! found := select_rows collate octet_length now limit max_bytes (fun identities => Z.of_nat (length identities)) in
  claim_rows decode_payload now claim_ttl found.

Definition _settle (c : OutboxClaim P) (at_ : datetime) (values : relay_row json -> relay_row json) : M exn W SettlementResult :=
  _postgresql using_ ;;;
  Django._utc at_ ;;;
  let! _ := locked_first (opaque_value (message_id (claim_envelope c))) in
  let! t := clock_timestamp in
  let! changed := update_where (authorised c (greatest at_ t)) (released values) in
  ret (if changed =? 0 then STALE else APPLIED).

Definition delivered (c : OutboxClaim P) (at_ : datetime) : M exn W SettlementResult := _settle c at_ (set_delivered at_).

Definition retry (c : OutboxClaim P) (available at_ : datetime) : M exn W SettlementResult :=
  Django._utc available ;;;
  _settle c at_ (set_retry available).

Definition defer (c : OutboxClaim P) (available at_ : datetime) : M exn W SettlementResult :=
  Django._utc available ;;;
  let! r := _settle c at_ (set_available available) in
  ret (if settlement_bool r then DEFERRED else r).

Definition uncertain (c : OutboxClaim P) (reason : pystr) (at_ : datetime) : M exn W SettlementResult :=
  raise_if (str_empty reason) (ValueError "uncertainty reason must not be empty") ;;;
  _settle c at_ (set_uncertain reason at_).

Definition failed (c : OutboxClaim P) (reason : pystr) (at_ : datetime) : M exn W SettlementResult :=
  raise_if (str_empty reason) (ValueError "failure reason must not be empty") ;;;
  _settle c at_ (set_failed reason at_).

Definition resolve_uncertain (id : OpaqueId) (expected : datetime) (was_delivered : bool) (available at_ : datetime) : M exn W SettlementResult :=
  Django._utc expected ;;; Django._utc available ;;; Django._utc at_ ;;;
  let! changed := update_where (unresolved id expected) (resolved_row was_delivered available at_) in
  ret (if changed =? 0 then STALE else APPLIED).
End Store.

(** ** What one call does *)

Section Runs.
Context {W P : Type} `{!Orm pystr (relay_row json) W, !Session pystr (relay_row json) W, !Atomic W, !Uuid W, !DatabaseClock W, !Connections}.
Context (rely : relation (relay_table json)) `{!OrmLaws rely, !UuidLaws, !DatabaseClockLaws}.
Variable decode_payload : json -> result exn P.
Variable collate : pystr -> pystr -> bool.
Variable octet_length : json -> Z.
Variable using_ : pystr.

#[local] Hint Resolve raises_failure raises_refused : core.
Abbreviation raises := (raises (W := W) decode_payload).

(** A settlement acts in one step, at a reading of the database's clock. *)
Lemma relay_settle_linearizes (c : OutboxClaim P) at_ values (w : W) :
  linearizes rely (_settle using_ c at_ values) w (settle_step c at_ values) raises.
Proof.
  do 2 (apply (linearizes_check rely); [auto|intros _]).
  apply db_bind, (wp_locked_first rely); [|by auto]. intros w1 Hf1 _. apply db_bind, (wp_clock_timestamp rely). intros t w2 Hf2 _.
  eapply follows_trans in Hf2; [|exact Hf1]. apply db_bind, (wp_update_where rely).
  - intros w3 w4 Hf3 Hw. eapply follows_trans in Hf3; [|exact Hf2]. apply wp_ret.
    split; [eapply later_trans; [by apply later_follows|by eapply later_wrote]|].
    exists (rows w3). split; [apply (sees_instant rely), Hf3|]. exists t. split; [apply Hw|done].
  - intros e w3 Hf3 He. split; [by eapply follows_trans|auto].
Qed.

Lemma relay_failed_linearizes (c : OutboxClaim P) reason at_ (w : W) : linearizes rely (failed using_ c reason at_) w (settle_step c at_ (set_failed reason at_)) raises.
Proof. apply (linearizes_check rely); [auto|intros _; apply relay_settle_linearizes]. Qed.
Lemma relay_uncertain_linearizes (c : OutboxClaim P) reason at_ (w : W) : linearizes rely (uncertain using_ c reason at_) w (settle_step c at_ (set_uncertain reason at_)) raises.
Proof. apply (linearizes_check rely); [auto|intros _; apply relay_settle_linearizes]. Qed.

Lemma resolve_linearizes id expected was_delivered available at_ (w : W) :
  linearizes rely (resolve_uncertain id expected was_delivered available at_) w
    (fun T r T' => T' = apply_relay (P := P) (CallResolve id expected was_delivered available at_) T /\
       r = if Z.of_nat (size (matching (unresolved id expected) T)) =? 0 then STALE else APPLIED) raises.
Proof. do 3 (apply (linearizes_check rely); [auto|intros _]). apply (linearizes_update rely); [done|auto]. Qed.

Lemma claim_run now limit ttl max_bytes (w : W) : (forall j, 0 <= octet_length j) -> nesting w <> 0%nat ->
  wp (claim decode_payload collate octet_length using_ now limit ttl max_bytes) w
    (fun claims _ => exists T, instant rely w T /\ handed_out decode_payload octet_length now limit ttl max_bytes T claims) (fun e _ => raises e).
Proof.
  intros Hbytes Hn. do 2 (apply db_bind, db_raise_if; [intros _|by auto]). apply db_bind, db_raise_if; [intros Hlimit|by auto].
  apply db_bind, db_raise_if; [intros Hmax|by auto]. apply orb_false_iff in Hlimit as [Hlimit _]. apply Z.leb_gt in Hlimit.
  apply (claim_selected rely decode_payload collate octet_length Hbytes), (select_run rely decode_payload collate octet_length Hbytes); [done..|]. destruct max_bytes; [lia|done].
Qed.
End Runs.
