(* ===== verification/DjangoEvents.v ===== *)
(** * Asynchronous runtimes over Django transactions ([django/event_processing.py])

    The bridge that runs a synchronous operation for a coroutine, the runner that wraps it in
    one transaction, the relay store behind the asynchronous port, and the consumer that
    settles a delivery after its transaction. The thread pool behind the bridge is a
    parameter: it runs the operation once, and other transactions may commit before. *)
From Stdlib Require Import ZArith Lia.
From stdpp Require Import base list gmap relations.
From S2P Require Import Prelude Core Maintenance Outbox Application Messages Resilience AsyncOutbox Consumer Database DatabaseModel Django DjangoOutbox RelayRows DjangoRelay.

(** ** The bridge and the transaction runner *)

(** [AsyncSyncBridge]. *)
Class AsyncSyncBridge (W : Type) := bridge_run : forall A, M exn W A -> M exn W A.
Arguments bridge_run {W _ A}.

(** [DjangoAsyncBridge.__init__]: the number of operations that may run at once. *)
Definition DjangoAsyncBridge_new {S} (concurrency : Z) : M exn S Z :=
  raise_if (concurrency <=? 0) (ValueError "bridge concurrency must be a positive integer") ;;;
  ret concurrency.

(** [DjangoTransactionRunner]. *)
Definition DjangoTransactionRunner_new {S} (using_ : pystr) : M exn S pystr :=
  raise_if (str_empty using_) (ValueError "a Django database alias is required") ;;;
  ret using_.

Section Runner.
Context {W : Type} `{!Atomic W}.

Definition transaction_run {A} (operation : M exn W A) : M exn W A := atomic operation.

(** [DjangoAsyncOutboxStore._run]. *)
Definition _run `{!AsyncSyncBridge W} {A} (operation : M exn W A) : M exn W A := bridge_run (transaction_run operation).
End Runner.

(** What a bridge does: other transactions commit while the operation waits for a thread, and
    then it runs, once, to its end. *)
Class BridgeLaws {K R W} `{Countable K} `{!Orm K R W, !Session K R W, !AsyncSyncBridge W} (rely : relation (gmap K R)) : Prop :=
  run_bridge : forall A (m : M exn W A) w, exists w1, follows rely w w1 /\ bridge_run m w = m w1.

(** ** The relay store behind the asynchronous port *)

Section Outbox.
Context {W P : Type} `{!Orm pystr (relay_row json) W, !Atomic W, !Uuid W, !DatabaseClock W, !Connections, !AsyncSyncBridge W}.
Variable encode_payload : P -> result exn json.
Variable decode_payload : json -> result exn P.
Variable collate : pystr -> pystr -> bool.
Variable octet_length : json -> Z.
Variable using_ : pystr.

(** [DjangoAsyncOutboxStore]. *)
Definition DjangoAsyncOutboxStore : AsyncOutboxStore W P := {|
  aport_add := fun e => _run (DjangoRelay.add encode_payload using_ e);
  aport_claim := fun now limit claim_ttl max_bytes => _run (DjangoRelay.claim decode_payload collate octet_length using_ now limit claim_ttl max_bytes);
  aport_delivered := fun c at_ => _run (DjangoRelay.delivered using_ c at_);
  aport_retry := fun c available at_ => _run (DjangoRelay.retry using_ c available at_);
  aport_defer := fun c available at_ => _run (DjangoRelay.defer using_ c available at_);
  aport_uncertain := fun c reason at_ => _run (DjangoRelay.uncertain using_ c reason at_);
  aport_resolve_uncertain := fun id expected was_delivered available at_ => _run (DjangoRelay.resolve_uncertain id expected was_delivered available at_);
  aport_failed := fun c reason at_ => _run (DjangoRelay.failed using_ c reason at_)
|}.
End Outbox.

(** ** The consumer *)

Inductive DjangoDeliveryResult :=
  | DjangoDeliveryCommitted
  | DjangoDeliveryRetryable (delay : option timedelta)
  | DjangoDeliveryQuarantined (quarantine_id : pystr).

Definition DjangoDeliveryQuarantined_new (id : pystr) : result exn DjangoDeliveryResult :=
  reject_if (str_empty id) (ValueError "quarantined delivery requires a durable quarantine ID") ??; Ok (DjangoDeliveryQuarantined id).

Section Consumer.
Context {W : Type} `{!Atomic W, !AsyncSyncBridge W}.
Variable handler : MessageValue -> HandlingContext -> M exn W DjangoDeliveryResult.

Definition settle_delivery (d : AsyncDelivery W) (r : DjangoDeliveryResult) : M exn W unit :=
  match r with
  | DjangoDeliveryCommitted => Consumer.ack d
  | DjangoDeliveryRetryable delay => Consumer.retry d delay
  | DjangoDeliveryQuarantined _ => Consumer.terminate d
  end.

(** [DjangoTransactionalConsumer.process]. *)
Definition process (d : AsyncDelivery W) : M exn W DjangoDeliveryResult :=
  let m := Consumer.message d in
  let! context := lift (HandlingContext_new (message_identity m) (of_message (fun _ e => Messages.correlationid e) m)
    (of_message (fun _ e => Messages.causationid e) m) []) in
  let! r := bridge_run (transaction_run (handler m context)) in
  settle_delivery d r ;;;
  ret r.

Lemma process_run d context w :
  HandlingContext_new (message_identity (Consumer.message d)) (of_message (fun _ e => Messages.correlationid e) (Consumer.message d))
    (of_message (fun _ e => Messages.causationid e) (Consumer.message d)) [] = Ok context ->
  process d w = match bridge_run (transaction_run (handler (Consumer.message d) context)) w with
    | (Ok r, w2) => (settle_delivery d r ;;; ret r) w2
    | (Raise e, w2) => (Raise e, w2)
    end.
Proof. intros Hc. unfold process. by rewrite Hc. Qed.
End Consumer.

(** ** Runs *)

Section Runs.
Context {K R W : Type} `{Countable K} `{!Orm K R W, !Session K R W, !Atomic W, !AsyncSyncBridge W}.
Context (rely : relation (gmap K R)) `{!OrmLaws rely, !BridgeLaws rely}.

Lemma wp_bridge {A} (m : M exn W A) w (Q : A -> W -> Prop) (X : exn -> W -> Prop) :
  (forall w1, follows rely w w1 -> wp m w1 Q X) -> wp (bridge_run m) w Q X.
Proof. intros Hm. unfold wp. destruct (run_bridge A m w) as (w1 & Hf & ->). by apply Hm. Qed.

(** An operation on the bridge, in its transaction, acts in one step as well. *)
Lemma run_linearizes {A} (m : M exn W A) w (step : gmap K R -> A -> gmap K R -> Prop) (raises : exn -> Prop) :
  (forall w0, nesting w0 <> 0%nat -> linearizes rely m w0 step raises) -> linearizes rely (_run m) w step raises.
Proof.
  intros Hm. apply wp_bridge. intros w1 Hf1.
  assert (linearizes rely (transaction_run m) w1 step raises) as Hl.
  { apply (linearizes_atomic rely). intros w0 Hn. eapply db_mono; [by apply Hm| |by intros e w2 [_ ?]]. intros a w2 [[_ Hg] HT]. split; [by apply Hg|done]. }
  eapply db_mono; [exact Hl| |].
  - intros a w2 (Hlat & T & HT & Hs). split; [eapply later_trans; [by apply later_follows|exact Hlat]|].
    exists T. split; [|done]. eapply (instant_sees rely); [apply Hf1|done].
  - intros e w2 [Hf2 He]. split; [by eapply follows_trans|done].
Qed.
End Runs.

Section Relay.
Context {W P : Type} `{!Orm pystr (relay_row json) W, !Session pystr (relay_row json) W, !Atomic W, !Uuid W, !DatabaseClock W, !Connections, !AsyncSyncBridge W}.
Context (rely : relation (relay_table json)) `{!OrmLaws rely, !UuidLaws, !DatabaseClockLaws, !BridgeLaws rely}.
Variable encode_payload : P -> result exn json.
Variable decode_payload : json -> result exn P.
Variable collate : pystr -> pystr -> bool.
Variable octet_length : json -> Z.
Variable using_ : pystr.

#[local] Existing Instance DjangoAsyncOutboxStore.
Abbreviation store := (DjangoAsyncOutboxStore encode_payload decode_payload collate octet_length using_).
Abbreviation raises := (raises (W := W) decode_payload).

(** A claim hands out what it selected at one instant of its run. *)
Lemma async_claim_run (Hbytes : forall j, 0 <= octet_length j) now limit ttl max_bytes (w : W) :
  wp (@aport_claim _ _ store now limit ttl max_bytes) w
    (fun claims _ => exists T, instant rely w T /\ handed_out decode_payload octet_length now limit ttl max_bytes T claims)
    (fun e w' => follows rely w w' /\ raises e).
Proof.
  apply (wp_bridge rely). intros w1 Hf1. apply (wp_atomic rely). intros w0 He. pose proof (entered_nesting _ _ He) as Hn.
  eapply db_mono; [apply (claim_run rely); [done|lia]| |].
  - intros claims w2 (T & HT & Hc) w3 _. exists T. split; [|done]. eapply (instant_sees rely); [apply Hf1|]. by apply (entered_instant rely w1 w0).
  - intros e w2 Hr w3 Hf3. split; [by eapply follows_trans|done].
Qed.

(** What an applied settlement leaves. *)
Lemma applied_row (c : OutboxClaim P) at_ values (m : M exn W SettlementResult) w0 w1 : nesting w0 = 0%nat ->
  (forall w, linearizes rely m w (settle_step c at_ values) raises) -> _run m w0 = (Ok APPLIED, w1) ->
  nesting w1 = 0%nat /\ exists row, rows w1 !! opaque_value (message_id (claim_envelope c)) = Some (released values row).
Proof.
  intros Hn Hm Hrun. pose proof (run_linearizes rely m w0 _ _ (fun w _ => Hm w)) as Hl. unfold linearizes, wp in Hl. rewrite Hrun in Hl.
  destruct Hl as ([Hn1 _] & T & _ & Hstep). split; [congruence|]. by eapply settle_step_row.
Qed.

#[export] Instance django_relay_contract (Hbytes : forall j, 0 <= octet_length j) :
  RelayContract rely store decode_payload octet_length (fun w e w' => follows rely w w' /\ raises e).
Proof.
  split.
  - intros c at_ w0 w1 Hn Hrun. eapply applied_row in Hrun as [Hn1 [row Hrow]]; [|done|apply (relay_settle_linearizes rely)].
    split; [done|]. eexists. split; [exact Hrow|]. left. by eexists.
  - intros c reason at_ w0 w1 Hn Hrun. eapply applied_row in Hrun as [Hn1 [row Hrow]]; [|done|apply (relay_failed_linearizes rely)].
    split; [done|]. eexists. split; [exact Hrow|]. right. by eexists.
  - intros c reason at_ w0 w1 Hn Hrun. eapply applied_row in Hrun as [Hn1 [row Hrow]]; [|done|apply (relay_uncertain_linearizes rely)].
    split; [done|]. eexists. split; [exact Hrow|]. right. by eexists.
  - intros now limit ttl max_bytes w _. by apply async_claim_run.
Qed.
End Relay.

(** C23. Through the asynchronous store over Django, a message that was delivered or failed is
    never handed out again, and one whose publication is uncertain is not handed out until
    somebody resolves it: after the settlement answered [APPLIED], no [claim] returns the
    message, whatever other sessions add, claim, settle and resolve in between, an uncertain
    message's own resolution excepted. *)
Theorem django_relay_settlement_holds {W P} `{!Orm pystr (relay_row json) W, !Session pystr (relay_row json) W, !Atomic W, !Uuid W, !DatabaseClock W, !Connections, !AsyncSyncBridge W}
    (allowed : relay_call json P -> Prop) `{!OrmLaws (relay_calls allowed), !UuidLaws, !DatabaseClockLaws, !BridgeLaws (relay_calls allowed)}
    encode_payload decode_payload collate octet_length using_ (c : OutboxClaim P) reason at_ w0 w1 now limit ttl max_bytes :
  let store := DjangoAsyncOutboxStore encode_payload decode_payload collate octet_length using_ in
  (forall j, 0 <= octet_length j) -> nesting w0 = 0%nat ->
  (aport_delivered (AsyncOutboxStore := store) c at_ w0 = (Ok APPLIED, w1) \/ aport_failed (AsyncOutboxStore := store) c reason at_ w0 = (Ok APPLIED, w1) \/
   aport_uncertain (AsyncOutboxStore := store) c reason at_ w0 = (Ok APPLIED, w1) /\
     (forall call, allowed call -> resolves (opaque_value (message_id (claim_envelope c))) call = false)) ->
  wp (aport_claim (AsyncOutboxStore := store) now limit ttl max_bytes) w1
    (fun claims _ => forall c', c' ∈ claims -> message_id (claim_envelope c') <> message_id (claim_envelope c))
    (fun e w2 => follows (relay_calls allowed) w1 w2 /\ raises (W := W) decode_payload e).
Proof.
  intros store Hbytes. pose proof (django_relay_contract (relay_calls allowed) encode_payload decode_payload collate octet_length using_ Hbytes).
  by apply (held_back allowed store decode_payload octet_length (fun w e w' => follows (relay_calls allowed) w w' /\ raises (W := W) decode_payload e) c reason at_ w0).
Qed.

(** C25. A claim through the asynchronous store stays within its limits: the messages it hands
    out are distinct, at most [limit], each claimable at one instant of the run, with the
    payload and the attempts of its row, and the JSON texts of their payloads together take
    at most [max_bytes] bytes. *)
Theorem django_relay_claim_within_budget {W P} `{!Orm pystr (relay_row json) W, !Session pystr (relay_row json) W, !Atomic W, !Uuid W, !DatabaseClock W, !Connections, !AsyncSyncBridge W}
    (rely : relation (relay_table json)) `{!OrmLaws rely, !UuidLaws, !DatabaseClockLaws, !BridgeLaws rely}
    encode_payload decode_payload collate octet_length using_ now limit ttl max_bytes (w : W) : (forall j, 0 <= octet_length j) ->
  wp (aport_claim (P := P) (AsyncOutboxStore := DjangoAsyncOutboxStore encode_payload decode_payload collate octet_length using_) now limit ttl (Some max_bytes)) w
    (fun claims _ => Z.of_nat (length claims) <= limit /\ exists T found, instant rely w T /\ NoDup found.*1 /\
       Forall2 (fun c kr => opaque_value (message_id (claim_envelope c)) = kr.1 /\ T !! kr.1 = Some kr.2 /\ relay_claimable now kr.1 kr.2 = true /\
         decode_payload (row_payload (columns kr.2)) = Ok (Outbox.payload (claim_envelope c)) /\ attempt (claim_envelope c) = row_attempt (columns kr.2)) claims found /\
       total (payload_bytes octet_length ∘ snd <$> found) <= max_bytes)
    (fun e w' => follows rely w w' /\ raises (W := W) decode_payload e).
Proof.
  intros Hbytes. eapply db_mono; [by apply (async_claim_run rely)| |done].
  intros claims w' (T & HT & found & Hrows & Hnd & Hlen & Hin & Hfit). split; [done|]. exists T, found. split_and!; [done|done| |by apply Z.leb_le].
  apply Forall2_same_length_lookup_2; [by eapply Forall2_length|]. intros i c kr Hc Hkr. destruct (Forall2_lookup_lr _ _ _ _ _ _ Hrows Hc Hkr) as (? & ? & ? & ?).
  destruct (Hin kr) as [? ?]; [by eapply list_elem_of_lookup_2|]. done.
Qed.

(** C26. A delivery is settled after its transaction, and only then: when the handler's
    transaction raised, nothing of it is left, no settlement is attempted and the error goes
    on; when it ended, everything it wrote is committed before the settlement its result asks
    for starts, and that is the one settlement. *)
Theorem django_delivery_settled_after_commit {K R W} `{Countable K} `{!Orm K R W, !Session K R W, !Atomic W, !AsyncSyncBridge W}
    (rely : relation (gmap K R)) `{!OrmLaws rely, !BridgeLaws rely} handler (d : AsyncDelivery W) context w : nesting w = 0%nat ->
  let m := Consumer.message d in
  HandlingContext_new (message_identity m) (of_message (fun _ e => Messages.correlationid e) m) (of_message (fun _ e => Messages.causationid e) m) [] = Ok context ->
  exists w0, nesting w0 = 1%nat /\ rtc rely (rows w) (rows w0) /\
    match handler m context w0 with
    | (Raise e, _) => exists w2, process handler d w = (Raise e, w2) /\ nesting w2 = 0%nat /\ rtc rely (rows w) (rows w2)
    | (Ok r, w1) => exists w2, nesting w2 = 0%nat /\ rows w2 = rows w1 /\ base w2 = rows w1 /\
        process handler d w = (settle_delivery d r ;;; ret r) w2
    end.
Proof.
  intros Hn m Hc.
  destruct (run_bridge DjangoDeliveryResult (transaction_run (handler m context)) w) as (wb & [Hsb Hnb] & Hb).
  destruct (run_atomic rely exn DjangoDeliveryResult (handler m context) wb) as (w0 & He & Hrun).
  assert (forall w', nesting w' = 0%nat -> sees rely w w' -> rtc rely (rows w) (rows w')) as Hcommitted.
  { intros w' Hn' Hs. rewrite !(all_clean rely) by done. apply Hs. }
  exists w0. split_and!; [rewrite (entered_nesting _ _ He); lia|rewrite (entered_rows _ _ He); apply Hcommitted; [congruence|done]|].
  rewrite (process_run handler d context w Hc). fold m. rewrite Hb. unfold transaction_run.
  destruct (handler m context w0) as [[r|e] w1]; destruct Hrun as (w2 & Hrun & Hw2); exists w2.
  - destruct Hw2 as [Hr Hbase Hn2 _]. rewrite bool_decide_true in Hbase by congruence. rewrite Hrun. by split_and!; [congruence|..].
  - destruct Hw2 as [Hs2 Hn2]. rewrite Hrun. split_and!; [done|congruence|]. apply Hcommitted; [congruence|]. by eapply sees_trans.
Qed.

(** ** A concrete history: another session claims the second message. *)

Section Example.
#[local] Instance relay_postgresql : Connections := fun _ => "postgresql"%py.
#[local] Existing Instance unary_uuid.
#[local] Existing Instance unary_uuid_laws.

(** Nobody resolves the message a. *)
Definition others_allowed (call : relay_call json Z) : Prop := resolves "a" call = false.
Abbreviation relay_db := (db (relay_calls others_allowed)).
#[local] Instance relay_bridge : AsyncSyncBridge relay_db := fun A m w => m (interleave (relay_calls others_allowed) w).
#[local] Instance relay_bridge_laws : BridgeLaws (relay_calls others_allowed).
Proof. intros A m w. exists (interleave (relay_calls others_allowed) w). split; [apply interleave_follows|done]. Qed.

Definition their_claim : relay_call json Z := CallClaim (utc 9) (utc 40) (fun k => if bool_decide (k = "b"%py) then Some "z"%py else None).
Definition their_step : { f : relay_table json -> relay_table json | forall T, relay_calls others_allowed T (f T) } :=
  exist _ (apply_relay their_claim) (fun T => ex_intro _ their_claim (conj eq_refl eq_refl)).
Definition waiting (at_ : datetime) : relay_row json := new_row (waiting_row at_).
Definition relay_db0 : relay_db :=
  mkDb _ {["a"%py := waiting (utc 1); "b"%py := waiting (utc 2); "c"%py := waiting (utc 3); "d"%py := waiting (utc 4)]} ∅ ∅ 0 0 (repeat their_step 9).

Definition demo_bytes (j : json) : Z := 10.
Abbreviation demo_async_store := (DjangoAsyncOutboxStore (W := relay_db) (fun n => Ok (JInt n)) read_integer
  (fun a b => bool_decide (str_compare a b <> Gt)) demo_bytes "default").
Definition async_claim (now : datetime) (max_bytes : option Z) : M exn relay_db (list (OutboxClaim Z)) :=
  aport_claim (AsyncOutboxStore := demo_async_store) now 3 20 max_bytes.
Definition async_uncertain (at_ : datetime) : M exn relay_db SettlementResult :=
  aport_uncertain (AsyncOutboxStore := demo_async_store) (demo_claim "a" "a" (utc 1) 30) "timeout" at_.
Definition after_claim : relay_db := after (async_claim (utc 10) (Some 25)) relay_db0.
Definition after_uncertain : relay_db := after (async_uncertain (utc 12)) after_claim.

Lemma django_relay_settlement_holds_witness :
  answers_with (async_claim (utc 10) (Some 25)) relay_db0 [demo_claim "a" "a" (utc 1) 30; demo_claim "aa" "c" (utc 3) 30] /\
  answers_with (async_uncertain (utc 12)) after_claim APPLIED /\
  answers_with (async_claim (utc 90) None) after_uncertain
    [demo_claim "aaa" "b" (utc 2) 110; demo_claim "aaaa" "c" (utc 3) 110; demo_claim "aaaaa" "d" (utc 4) 110] /\
  wp (async_claim (utc 90) None) after_uncertain (fun claims _ => forall c', c' ∈ claims -> message_id (claim_envelope c') <> mkOpaqueId "a")
    (fun e w2 => follows (relay_calls others_allowed) after_uncertain w2 /\ raises (W := relay_db) read_integer e).
Proof.
  do 3 (split; [by vm_compute|]).
  apply (django_relay_settlement_holds others_allowed (fun n => Ok (JInt n)) read_integer (fun a b => bool_decide (str_compare a b <> Gt)) demo_bytes "default"
    (demo_claim "a" "a" (utc 1) 30) "timeout" (utc 12) after_claim after_uncertain (utc 90) 3 20 None); [intros j; by vm_compute|by vm_compute|].
  right; right. split; [apply (answers_after (async_uncertain (utc 12))); by vm_compute|done].
Defined.

(** Two of the three messages that may be claimed fit in 25 bytes. *)
Lemma django_relay_claim_within_budget_witness :
  answers_with (async_claim (utc 10) (Some 25)) relay_db0 [demo_claim "a" "a" (utc 1) 30; demo_claim "aa" "c" (utc 3) 30] /\
  wp (async_claim (utc 10) (Some 25)) relay_db0
    (fun claims _ => Z.of_nat (length claims) <= 3 /\ exists T found, instant (relay_calls others_allowed) relay_db0 T /\ NoDup found.*1 /\
       Forall2 (fun c kr => opaque_value (message_id (claim_envelope c)) = kr.1 /\ T !! kr.1 = Some kr.2 /\ relay_claimable (utc 10) kr.1 kr.2 = true /\
         read_integer (row_payload (columns kr.2)) = Ok (Outbox.payload (claim_envelope c)) /\ attempt (claim_envelope c) = row_attempt (columns kr.2)) claims found /\
       total (payload_bytes demo_bytes ∘ snd <$> found) <= 25)
    (fun e w' => follows (relay_calls others_allowed) relay_db0 w' /\ raises (W := relay_db) read_integer e).
Proof.
  split; [by vm_compute|].
  apply (django_relay_claim_within_budget (relay_calls others_allowed) (fun n => Ok (JInt n)) read_integer (fun a b => bool_decide (str_compare a b <> Gt)) demo_bytes "default").
  intros j. by vm_compute.
Defined.

(** A handler that removes the row its message names, and a delivery whose acknowledgement
    removes the row c. *)
Definition demo_handler (m : MessageValue) (context : HandlingContext) : M exn relay_db DjangoDeliveryResult :=
  let! _ := delete_where (fun k _ => bool_decide (k = message_identity m)) in ret DjangoDeliveryCommitted.
Definition demo_message : MessageValue :=
  Ordinary (Messages.mkEnvelope "d" "shop" "order.placed" "order/7" (utc 0) "urn:order:1" JNull None None
    CLOUD_EVENTS_SPEC_VERSION JSON_CONTENT_TYPE MESSAGE_PROFILE).
Definition demo_delivery : AsyncDelivery relay_db :=
  mkDelivery demo_message (let! _ := delete_where (fun k _ => bool_decide (k = "c"%py)) in ret tt) (fun _ => ret tt) (ret tt).
Definition demo_context : HandlingContext := mkContext "d" None None [].

Lemma django_delivery_settled_after_commit_witness :
  answers_with (process demo_handler demo_delivery) relay_db0 DjangoDeliveryCommitted /\
  dom (rows (after (process demo_handler demo_delivery) relay_db0)) = {["a"%py; "b"%py]} /\
  exists w0, nesting w0 = 1%nat /\ rtc (relay_calls others_allowed) (rows relay_db0) (rows w0) /\
    match demo_handler demo_message demo_context w0 with
    | (Raise e, _) => exists w2, process demo_handler demo_delivery relay_db0 = (Raise e, w2) /\ nesting w2 = 0%nat /\ rtc (relay_calls others_allowed) (rows relay_db0) (rows w2)
    | (Ok r, w1) => exists w2, nesting w2 = 0%nat /\ rows w2 = rows w1 /\ base w2 = rows w1 /\
        process demo_handler demo_delivery relay_db0 = (settle_delivery demo_delivery r ;;; ret r) w2
    end.
Proof.
  split; [by vm_compute|]. split; [by vm_compute|].
  apply (django_delivery_settled_after_commit (relay_calls others_allowed) demo_handler demo_delivery demo_context relay_db0); by vm_compute.
Defined.
End Example.
