(* ===== verification/DjangoReceipts.v ===== *)
(** * The Django receipt store ([django/stores.py], [DjangoReceiptStore])

    The store over a consumer's model and the guarantee over a shared database: of the
    sessions that update the same snapshot of a receipt one wins, and the others change
    nothing. *)
From Stdlib Require Import ZArith Lia.
From stdpp Require Import base list gmap relations.
From S2P Require Import Prelude Core Maintenance Receipts Database DatabaseModel Django.

(** ** Rows *)

(** A row beside its receipt ID: enumeration values as text, and JSON, whose null is [None]. *)
Record receipt_row := mkReceiptRow {
  row_kind : pystr; row_receipt_state : pystr; row_created_at : datetime; row_changed_at : datetime;
  row_result : json; row_metadata : gmap pystr json
}.

#[export] Instance receipt_row_eq_dec : EqDecision receipt_row.
Proof. solve_decision. Defined.

Abbreviation receipt_table := (gmap pystr receipt_row).

(** [ReceiptState.value] and [ReceiptState(...)]. *)
Definition state_value (s : ReceiptState) : pystr :=
  match s with
  | ACCEPTED => "accepted" | PROCESSING => "processing" | COMPLETED => "completed"
  | REJECTED => "rejected" | CONFLICTED => "conflicted" | UNCERTAIN => "uncertain"
  end.
Definition kind_value (k : ReceiptKind) : pystr :=
  match k with
  | MUTATION => "mutation" | COMMAND => "command" | RUN => "run" | OPERATION => "operation" | TERMINAL_BOUNDARY => "terminal_boundary"
  end.

Definition ReceiptState_members : list ReceiptState := [ACCEPTED; PROCESSING; COMPLETED; REJECTED; CONFLICTED; UNCERTAIN].
Definition ReceiptKind_members : list ReceiptKind := [MUTATION; COMMAND; RUN; OPERATION; TERMINAL_BOUNDARY].

Lemma state_value_inj s s' : state_value s = state_value s' -> s = s'.
Proof. by destruct s, s'. Qed.

(** The callbacks, [using] included. *)
Record DjangoReceiptStore (W T : Type) := mkDjangoReceipts {
  receipt_using : pystr;
  on_get : OpaqueId -> pystr -> M exn W (option (Receipt T json));
  on_receipt_add : Receipt T json -> pystr -> M exn W bool;
  on_transition : Receipt T json -> Receipt T json -> pystr -> M exn W bool;
  on_reconcile : Receipt T json -> Receipt T json -> pystr -> M exn W bool
}.
Arguments mkDjangoReceipts {W T}.
Arguments receipt_using {W T}.
Arguments on_get {W T}.
Arguments on_receipt_add {W T}.
Arguments on_transition {W T}.
Arguments on_reconcile {W T}.

Section Store.
Context {W T : Type}.

Definition from_callbacks (s : DjangoReceiptStore W T) : M exn W (DjangoReceiptStore W T) :=
  let! _ := _alias (receipt_using s) in ret s.

Definition get (s : DjangoReceiptStore W T) (id : OpaqueId) : M exn W (option (Receipt T json)) := on_get s id (receipt_using s).
Definition add (s : DjangoReceiptStore W T) (rc : Receipt T json) : M exn W bool := on_receipt_add s rc (receipt_using s).
Definition transition (s : DjangoReceiptStore W T) (rc target : Receipt T json) : M exn W bool := on_transition s rc target (receipt_using s).
Definition reconcile_uncertain (s : DjangoReceiptStore W T) (rc target : Receipt T json) : M exn W bool := on_reconcile s rc target (receipt_using s).

Definition django_receipt_port (s : DjangoReceiptStore W T) : ReceiptStore W T json := {|
  port_get := get s;
  port_add := add s;
  port_transition := transition s;
  port_reconcile_uncertain := reconcile_uncertain s
|}.
End Store.

(** ** The callbacks of a model *)

Section Model.
Context {W T : Type} `{!EqDecision T} `{!Orm pystr receipt_row W, !Atomic W, !Connections}.
Variable encode_result : T -> result exn json.
Variable decode_result : json -> result exn T.

(** [_receipt]. *)
Definition _receipt (id : pystr) (row : receipt_row) : M exn W (Receipt T json) :=
  let! r := (if bool_decide (row_result row = JNull) then ret None else let! x := lift (decode_result (row_result row)) in ret (Some x)) in
  let! receipt_id := OpaqueId_new id in
  let! s := lift (member state_value ReceiptState_members (row_receipt_state row)) in
  let! k := lift (member kind_value ReceiptKind_members (row_kind row)) in
  Receipt_new true receipt_id k s (row_created_at row) (row_changed_at row) r (row_metadata row).

Definition model_get (id : OpaqueId) (alias : pystr) : M exn W (option (Receipt T json)) :=
  _postgresql alias ;;;
  let! row := first (opaque_value id) in
  match row with None => ret None | Some row => let! rc := _receipt (opaque_value id) row in ret (Some rc) end.

(** The stored form of a result. *)
Definition encoded_result (r : option T) : M exn W json :=
  let! encoded := (match r with None => ret JNull | Some r => lift (encode_result r) end) in
  (if bool_decide (encoded = JNull) then ret tt else validate_json encoded) ;;;
  ret encoded.

Definition metadata_document (m : gmap pystr json) : json := JDict ((fun kv => (KeyStr kv.1, kv.2)) <$> map_to_list m).

Definition model_add (rc : Receipt T json) (alias : pystr) : M exn W bool :=
  _postgresql alias ;;;
  let! encoded := encoded_result (result_ rc) in
  validate_json (metadata_document (metadata rc)) ;;;
  let! created := _create_or_locked (opaque_value (receipt_id rc))
    (mkReceiptRow (kind_value (kind rc)) (state_value (state rc)) (created_at rc) (updated_at rc) encoded (metadata rc)) in
  ret created.2.

(** The row of a snapshot, compared by state and time; what an update writes. *)
Definition is_snapshot (s : ReceiptState) (at_ : datetime) (row : receipt_row) : bool :=
  bool_decide (row_receipt_state row = state_value s) && (dt_instant (row_changed_at row) =? dt_instant at_).
Definition updated_row (target : Receipt T json) (encoded : json) (row : receipt_row) : receipt_row :=
  mkReceiptRow (row_kind row) (state_value (state target)) (row_created_at row) (updated_at target) encoded (row_metadata row).

(** The transaction both updates end with. *)
Definition update_block (key : pystr) (s : ReceiptState) (at_ : datetime) (target : Receipt T json) (encoded : json) : M exn W bool :=
  let! row := locked_first key in
  match row with
  | None => ret false
  | Some row =>
      if negb (is_snapshot s at_ row) then ret false
      else save key (updated_row target encoded) ;;; ret true
  end.

Definition model_transition (rc target : Receipt T json) (alias : pystr) : M exn W bool :=
  _postgresql alias ;;;
  let! proposed := Receipts.transition rc (state target) (updated_at target) (result_ target) in
  match proposed with
  | ReceiptTransitioned rc' =>
      if negb (bool_decide (rc' = target)) then ret false
      else
        let! encoded := encoded_result (result_ target) in
        atomic (update_block (opaque_value (receipt_id rc)) (state rc) (updated_at rc) target encoded)
  | InvalidTransition _ _ _ => ret false
  end.

Definition model_reconcile (rc target : Receipt T json) (alias : pystr) : M exn W bool :=
  _postgresql alias ;;;
  if negb (_valid_reconciliation rc target) then ret false
  else
    let! encoded := encoded_result (result_ target) in
    atomic (update_block (opaque_value (receipt_id rc)) UNCERTAIN (updated_at rc) target encoded).

Definition receipt_store (alias : pystr) : DjangoReceiptStore W T := mkDjangoReceipts alias model_get model_add model_transition model_reconcile.

(** [DjangoReceiptStore.from_model]. *)
Definition from_model (model : meta) (alias : pystr) : M exn W (DjangoReceiptStore W T) :=
  _unique model {["receipt_id"%py]} ;;;
  from_callbacks (receipt_store alias).
End Model.

(** ** Updates as steps on the rows *)

(** How far a receipt has come; every update moves it on. *)
Definition rank (s : ReceiptState) : Z := match s with ACCEPTED => 0 | PROCESSING => 1 | UNCERTAIN => 2 | COMPLETED | REJECTED | CONFLICTED => 3 end.
Definition row_rank (row : receipt_row) : Z := match member state_value ReceiptState_members (row_receipt_state row) with Ok s => rank s | Raise _ => 4 end.

Lemma rank_value row s : row_receipt_state row = state_value s -> row_rank row = rank s.
Proof. intros Hs. unfold row_rank. rewrite Hs. by destruct s. Qed.

(** The updates the store accepts: a transition, or the resolution of an uncertain receipt. *)
Definition moves (s s' : ReceiptState) : Prop := s' ∈ _TRANSITIONS s \/ (s = UNCERTAIN /\ s' ∈ confirmed_states).

Lemma moves_rank s s' : moves s s' -> rank s < rank s'.
Proof. intros [Hm|[-> Hm]]; [destruct s|]; cbn in Hm; set_unfold in Hm; intuition (subst; cbn; lia). Qed.

Section Steps.
Context {T : Type}.

Inductive receipt_call :=
  | CallAddReceipt (k : pystr) (row : receipt_row)
  | CallUpdate (k : pystr) (s : ReceiptState) (at_ : datetime) (target : Receipt T json) (encoded : json) (Hmoves : moves s (state target)).

Definition apply_receipt (c : receipt_call) (R : receipt_table) : receipt_table :=
  match c with
  | CallAddReceipt k row => match R !! k with Some _ => R | None => <[k := row]> R end
  | CallUpdate k s at_ target encoded _ =>
      match R !! k with
      | Some row => if is_snapshot s at_ row then <[k := updated_row target encoded row]> R else R
      | None => R
      end
  end.

Definition receipt_calls : relation receipt_table := fun R R' => exists c, R' = apply_receipt c R.

(** The receipt has come at least this far. *)
Definition past (k : pystr) (n : Z) (R : receipt_table) : Prop := exists row, R !! k = Some row /\ n <= row_rank row.

Lemma updated_rank s at_ (target : Receipt T json) encoded row : moves s (state target) -> is_snapshot s at_ row = true ->
  row_rank row = rank s /\ row_rank (updated_row target encoded row) = rank (state target) /\ rank s < rank (state target).
Proof.
  intros Hm Hs. unfold is_snapshot in Hs. apply andb_true_iff in Hs as [Hs%bool_decide_eq_true _].
  split_and!; [by apply rank_value|by apply rank_value|by apply moves_rank].
Qed.

Lemma past_kept k n R R' : rtc receipt_calls R R' -> past k n R -> past k n R'.
Proof.
  induction 1 as [|R R1 R2 [c ->] _ IH]; [done|]. intros (row & Hrow & Hn). apply IH. destruct c as [j row'|j s at_ target encoded Hm]; cbn.
  - exists row. split; [|done]. destruct (R !! j) eqn:Hj; [done|]. rewrite lookup_insert_ne; [done|congruence].
  - destruct (R !! j) as [old|] eqn:Hj; [|by exists row]. destruct (is_snapshot s at_ old) eqn:Hs; [|by exists row].
    destruct (decide (j = k)) as [->|Hne]; [|exists row; by rewrite lookup_insert_ne].
    exists (updated_row target encoded old). rewrite lookup_insert_eq. split; [done|]. destruct (updated_rank s at_ target encoded old Hm Hs) as (? & ? & ?).
    assert (old = row) as -> by congruence. lia.
Qed.
End Steps.

(** ** What one update does *)

Section Runs.
Context {W T : Type} `{!EqDecision T} `{!Orm pystr receipt_row W, !Session pystr receipt_row W, !Atomic W, !Connections}.
Context (rely : relation receipt_table) `{!OrmLaws rely}.
Variable encode_result : T -> result exn json.
Variable decode_result : json -> result exn T.

Definition update_step (k : pystr) (s : ReceiptState) (at_ : datetime) (target : Receipt T json) (encoded : json) (R : receipt_table) (b : bool) (R' : receipt_table) : Prop :=
  if b then exists row, R !! k = Some row /\ is_snapshot s at_ row = true /\ R' = <[k := updated_row target encoded row]> R
  else R' = R /\ forall row, R !! k = Some row -> is_snapshot s at_ row = false.

Lemma update_linearizes k s at_ (target : Receipt T json) encoded w :
  linearizes rely (atomic (update_block k s at_ target encoded)) w (update_step k s at_ target encoded) (fun _ => True).
Proof.
  apply (linearizes_atomic rely). intros w0 Hn. apply db_bind, (wp_locked_first rely); [|done]. intros w1 [Hs1 Hn1] Hlock.
  destruct (rows w1 !! k) as [row|] eqn:Hrow; [destruct (is_snapshot s at_ row) eqn:Hs; cbn [negb]|].
  - apply db_bind. eapply db_mono; [eapply (wp_saved rely w0 w1); [done|exact Hrow|by apply Hlock|by rewrite Hn1]| |done].
    intros _ w2 (Hg & R & HR & HRk & Hr). apply wp_ret. split; [done|]. exists R. split; [done|]. by exists row.
  - apply wp_ret. split; [by apply grew_sees|]. exists (rows w1). split; [by apply (sees_instant rely)|]. split; [done|]. intros row'. rewrite Hrow. by intros [= <-].
  - apply wp_ret. split; [by apply grew_sees|]. exists (rows w1). split; [by apply (sees_instant rely)|]. split; [done|]. intros row'. by rewrite Hrow.
Qed.

Lemma wp_encoded r w (Q : json -> W -> Prop) (X : exn -> W -> Prop) : (forall j, Q j w) -> (forall e, X e w) -> wp (encoded_result encode_result r) w Q X.
Proof.
  intros HQ HX. apply db_bind. assert (forall j, wp ((if bool_decide (j = JNull) then ret tt else validate_json j) ;;; ret j) w Q X) as Hrest.
  { intros j. apply db_bind. case_bool_decide; [by apply wp_ret, wp_ret|]. apply wp_lift; [intros ? _; by apply wp_ret|auto]. }
  destruct r as [r|]; [apply wp_lift; auto|apply wp_ret; auto].
Qed.

Lemma wp_proposed (rc : Receipt T json) s at_ r w (Q : TransitionResult T json -> W -> Prop) (X : exn -> W -> Prop) :
  (forall rc', s ∈ _TRANSITIONS (state rc) -> Q (ReceiptTransitioned rc') w) -> (forall a b m, Q (InvalidTransition a b m) w) -> (forall e, X e w) ->
  wp (Receipts.transition rc s at_ r) w Q X.
Proof.
  intros HQ HI HX. apply db_bind, db_raise_if; [intros _|auto]. destruct (dt_ltb at_ (updated_at rc)); [by apply wp_ret|].
  destruct (bool_decide (s ∈ _TRANSITIONS (state rc))) eqn:Hs; cbn [negb]; [|by apply wp_ret]. apply bool_decide_eq_true in Hs.
  destruct (bool_decide (s = COMPLETED) && bool_decide (r = None)); [by apply wp_ret|]. apply db_bind.
  unfold replace_receipt, Receipt_new. do 4 (apply db_bind, db_raise_if; [intros _|auto]). apply wp_ret, wp_ret. auto.
Qed.

Abbreviation store := (receipt_store encode_result decode_result).

(** Both updates: one of the two moves, from the snapshot presented. *)
Definition applied_step (rc target : Receipt T json) (R : receipt_table) (b : bool) (R' : receipt_table) : Prop :=
  if b then moves (state rc) (state target) /\ exists encoded, update_step (opaque_value (receipt_id rc)) (state rc) (updated_at rc) target encoded R true R'
  else R' = R.

Lemma applied_update rc target encoded w : moves (state rc) (state target) ->
  linearizes rely (atomic (update_block (opaque_value (receipt_id rc)) (state rc) (updated_at rc) target encoded)) w (applied_step rc target) (fun _ => True).
Proof.
  intros Hm. eapply (linearizes_mono rely); [apply update_linearizes|]. intros R b R'. unfold applied_step. destruct b; [|by intros [-> _]]. eauto.
Qed.

Lemma linearizes_refused rc target w : linearizes rely (ret false) w (applied_step rc target) (fun _ => True).
Proof. apply wp_ret. split; [apply later_follows, follows_refl|]. exists (rows w). split; [apply (sees_instant rely), sees_refl|done]. Qed.

Lemma transition_linearizes alias rc target w : linearizes rely (transition (store alias) rc target) w (applied_step rc target) (fun _ => True).
Proof.
  apply (linearizes_check rely); [done|intros _]. apply db_bind, wp_proposed; [|intros; by apply linearizes_refused|intros; by split; [apply follows_refl|]].
  intros rc' Hm. case_bool_decide; cbn [negb]; [|by apply linearizes_refused]. apply db_bind, wp_encoded; [|intros; by split; [apply follows_refl|]].
  intros encoded. apply applied_update. by left.
Qed.
Lemma reconcile_linearizes alias rc target w : linearizes rely (reconcile_uncertain (store alias) rc target) w (applied_step rc target) (fun _ => True).
Proof.
  apply (linearizes_check rely); [done|intros _]. destruct (_valid_reconciliation rc target) eqn:Hv; cbn [negb]; [|by apply linearizes_refused].
  unfold _valid_reconciliation in Hv. rewrite !andb_true_iff, !bool_decide_eq_true in Hv. destruct Hv as [[[[[[[Hu Hc] _] _] _] _] _] _].
  apply db_bind, wp_encoded; [|intros; by split; [apply follows_refl|]]. intros encoded. rewrite <- Hu. apply applied_update. right. done.
Qed.
End Runs.

(** Of all updates of one snapshot of a receipt one wins: after a transition or a
    reconciliation of the snapshot answered [True], every later one of the same snapshot
    answers [False] and writes nothing, or raises and writes nothing, whatever receipts other
    sessions add and update in between. *)
Theorem django_receipt_update_once {W T} `{!EqDecision T} `{!Orm pystr receipt_row W, !Session pystr receipt_row W, !Atomic W, !Connections}
    `{!OrmLaws (receipt_calls (T := T))} encode_result decode_result alias (rc target target2 : Receipt T json) w0 w1 : nesting w0 = 0%nat ->
  transition (receipt_store encode_result decode_result alias) rc target w0 = (Ok true, w1) \/
    reconcile_uncertain (receipt_store encode_result decode_result alias) rc target w0 = (Ok true, w1) ->
  wp (transition (receipt_store encode_result decode_result alias) rc target2) w1 (fun b _ => b = false) (fun _ w2 => follows (receipt_calls (T := T)) w1 w2) /\
  wp (reconcile_uncertain (receipt_store encode_result decode_result alias) rc target2) w1 (fun b _ => b = false) (fun _ w2 => follows (receipt_calls (T := T)) w1 w2).
Proof.
  intros Hn Hrun. assert (nesting w1 = 0%nat /\ past (opaque_value (receipt_id rc)) (rank (state rc) + 1) (rows w1)) as [Hn1 Hpast].
  { pose proof (transition_linearizes (receipt_calls (T := T)) encode_result decode_result alias rc target w0) as Ht.
    pose proof (reconcile_linearizes (receipt_calls (T := T)) encode_result decode_result alias rc target w0) as Hr. unfold linearizes, wp in Ht, Hr.
    assert (later (receipt_calls (T := T)) w0 w1 /\ exists R, instant (receipt_calls (T := T)) w0 R /\ applied_step rc target R true (rows w1)) as ([Hn1 _] & R & _ & Hm & encoded & row & Hrow & Hs & ->)
      by (destruct Hrun as [Hrun|Hrun]; [by rewrite Hrun in Ht|by rewrite Hrun in Hr]).
    split; [congruence|]. exists (updated_row target encoded row). rewrite lookup_insert_eq. split; [done|].
    destruct (updated_rank _ _ target encoded row Hm Hs) as (? & ? & ?). lia. }
  assert (forall m, linearizes (receipt_calls (T := T)) m w1 (applied_step rc target2) (fun _ => True) -> wp m w1 (fun b _ => b = false) (fun _ w2 => follows (receipt_calls (T := T)) w1 w2)) as Hlose.
  { intros m Hm. eapply db_mono; [exact Hm| |by intros e w2 []]. intros b w2 (_ & R & HR & Hstep). apply (instant_top (receipt_calls (T := T))) in HR; [|done].
    apply (past_kept _ _ _ _ HR) in Hpast as (row & Hrow & Hrank). destruct b; [|done]. exfalso. destruct Hstep as (Hmv & encoded & row' & Hrow' & Hs & _).
    destruct (updated_rank _ _ target2 encoded row' Hmv Hs) as (? & _ & _). assert (row' = row) as -> by congruence. lia. }
  split; apply Hlose; [by apply (transition_linearizes (receipt_calls (T := T)))|by apply (reconcile_linearizes (receipt_calls (T := T)))].
Qed.

(** ** A concrete history: between two updates other sessions record other receipts. *)

Section Example.
#[local] Instance receipts_postgresql : Connections := fun _ => "postgresql"%py.
#[local] Existing Instance unary_uuid.

Abbreviation receipt_db := (db (receipt_calls (T := Z))).
Definition demo_row (t : Z) : receipt_row := mkReceiptRow "command" "accepted" (utc t) (utc t) JNull ∅.
Definition their_receipt (c : receipt_call (T := Z)) : { f : receipt_table -> receipt_table | forall R, receipt_calls (T := Z) R (f R) } :=
  exist _ (apply_receipt c) (fun R => ex_intro _ c eq_refl).
Definition receipt_db0 : receipt_db := mkDb _ ∅ ∅ ∅ 0 0 (repeat (their_receipt (CallAddReceipt "other" (demo_row 90))) 8).

Definition snapshot (s : ReceiptState) (up : Z) (r : option Z) : Receipt Z json := mkReceipt true (mkOpaqueId "r") COMMAND s (utc 100) (utc up) r ∅.
Abbreviation demo_store := (receipt_store (W := receipt_db) (fun z => Ok (JInt z)) (fun j => match j with JInt z => Ok z | _ => Raise (ValueError "not an integer") end) "default"%py).
Abbreviation add_demo := (add demo_store (snapshot PROCESSING 100 None)).
Abbreviation finish_demo := (transition demo_store (snapshot PROCESSING 100 None) (snapshot COMPLETED 120 (Some 7))).
Definition added_db := after add_demo receipt_db0.
Definition finished_db := after finish_demo added_db.

Lemma django_receipt_update_once_witness :
  answers_with add_demo receipt_db0 true /\ answers_with finish_demo added_db true /\
  answers_with (transition demo_store (snapshot PROCESSING 100 None) (snapshot REJECTED 130 None)) finished_db false /\
  answers_with (get demo_store (mkOpaqueId "r")) finished_db (Some (snapshot COMPLETED 120 (Some 7))) /\
  wp (transition demo_store (snapshot PROCESSING 100 None) (snapshot REJECTED 130 None)) finished_db (fun b _ => b = false) (fun _ w2 => follows (receipt_calls (T := Z)) finished_db w2) /\
  wp (reconcile_uncertain demo_store (snapshot PROCESSING 100 None) (snapshot REJECTED 130 None)) finished_db (fun b _ => b = false) (fun _ w2 => follows (receipt_calls (T := Z)) finished_db w2).
Proof.
  do 4 (split; [by vm_compute|]).
  apply (django_receipt_update_once _ _ "default" (snapshot PROCESSING 100 None) (snapshot COMPLETED 120 (Some 7)) (snapshot REJECTED 130 None) added_db finished_db); [by vm_compute|].
  left. apply (answers_after finish_demo). by vm_compute.
Defined.
End Example.
