(* ===== verification/DjangoBatches.v ===== *)
(** * The Django mutation batch store ([django/stores.py], [DjangoMutationBatchStore])

    The store, the callbacks built from a consumer's model with the stored form of item
    receipts, and the step on the rows every call linearizes to. *)
From Stdlib Require Import ZArith Lia.
From stdpp Require Import base list gmap relations.
From S2P Require Import Prelude Core Maintenance Idempotency Batches Database DatabaseModel Django.

(** ** Rows *)

(** A row beside its unique key: namespace and batch ID. *)
Record batch_row := mkBatchRow {
  row_fingerprint : pystr; row_token : pystr; row_state : pystr; row_total : Z; row_next : Z; row_receipts : json;
  row_lease_until : datetime; row_retention : option datetime; row_reason : option pystr; row_changed_at : datetime
}.

#[export] Instance batch_row_eq_dec : EqDecision batch_row.
Proof. solve_decision. Defined.

Abbreviation batch_key := (pystr * pystr)%type.
Abbreviation batch_table := (gmap batch_key batch_row).

(** [MutationBatchState.value]. *)
Definition batch_state_value (s : MutationBatchState) : pystr :=
  match s with
  | PROCESSING => "processing" | PARTIALLY_COMMITTED => "partially_committed" | COMPLETED => "completed" | UNCERTAIN => "uncertain"
  end.
Definition MutationBatchState_members : list MutationBatchState := [PROCESSING; PARTIALLY_COMMITTED; COMPLETED; UNCERTAIN].

(** The callbacks, [using] included. *)
Record DjangoMutationBatchStore (W T : Type) := mkDjangoBatches {
  batch_using : pystr;
  on_batch_begin : pystr -> pystr -> RequestFingerprint -> Z -> datetime -> timedelta -> pystr -> M exn W (MutationBatchBeginResult T);
  on_batch_renew : MutationBatchLease T -> datetime -> timedelta -> pystr -> M exn W (MutationBatchRenewResult T);
  on_batch_advance : MutationBatchLease T -> BatchItemReceipt T -> datetime -> timedelta -> pystr -> M exn W (MutationBatchAdvanceResult T);
  on_batch_complete : MutationBatchLease T -> datetime -> timedelta -> pystr -> M exn W MutationBatchCompleteResult;
  on_batch_uncertain : MutationBatchLease T -> pystr -> datetime -> timedelta -> pystr -> M exn W MutationBatchUncertainResult
}.
Arguments mkDjangoBatches {W T}.
Arguments batch_using {W T}.
Arguments on_batch_begin {W T}.
Arguments on_batch_renew {W T}.
Arguments on_batch_advance {W T}.
Arguments on_batch_complete {W T}.
Arguments on_batch_uncertain {W T}.

Section Store.
Context {W T : Type}.

Definition from_callbacks (s : DjangoMutationBatchStore W T) : M exn W (DjangoMutationBatchStore W T) :=
  let! _ := _alias (batch_using s) in ret s.

Definition begin (s : DjangoMutationBatchStore W T) (ns batch_id : pystr) (fingerprint : RequestFingerprint) (total : Z) (now : datetime) (lease_ttl : timedelta) :
    M exn W (MutationBatchBeginResult T) :=
  Django._utc now ;;;
  _required ns "namespace" ;;;
  _required batch_id "batch id" ;;;
  raise_if (total <? 0) (ValueError "total_items must be a non-negative integer") ;;;
  check_positive lease_ttl "execution lease ttl must be positive" ;;;
  on_batch_begin s ns batch_id fingerprint total now lease_ttl (batch_using s).

Definition renew (s : DjangoMutationBatchStore W T) (lease : MutationBatchLease T) (now : datetime) (lease_ttl : timedelta) : M exn W (MutationBatchRenewResult T) :=
  Django._utc now ;;;
  check_positive lease_ttl "execution lease ttl must be positive" ;;;
  on_batch_renew s lease now lease_ttl (batch_using s).

Definition advance (s : DjangoMutationBatchStore W T) (lease : MutationBatchLease T) (receipt : BatchItemReceipt T) (now : datetime) (lease_ttl : timedelta) :
    M exn W (MutationBatchAdvanceResult T) :=
  Django._utc now ;;;
  check_positive lease_ttl "execution lease ttl must be positive" ;;;
  on_batch_advance s lease receipt now lease_ttl (batch_using s).

Definition complete (s : DjangoMutationBatchStore W T) (lease : MutationBatchLease T) (now : datetime) (retention_ttl : timedelta) : M exn W MutationBatchCompleteResult :=
  Django._utc now ;;;
  check_positive retention_ttl "result retention ttl must be positive" ;;;
  on_batch_complete s lease now retention_ttl (batch_using s).

Definition mark_uncertain (s : DjangoMutationBatchStore W T) (lease : MutationBatchLease T) (reason : pystr) (now : datetime) (retention_ttl : timedelta) :
    M exn W MutationBatchUncertainResult :=
  Django._utc now ;;;
  _required reason "uncertainty reason" ;;;
  check_positive retention_ttl "uncertainty retention ttl must be positive" ;;;
  on_batch_uncertain s lease reason now retention_ttl (batch_using s).

Definition django_batch_port (s : DjangoMutationBatchStore W T) : MutationBatchStore W T := {|
  port_begin := begin s;
  port_renew_batch := renew s;
  port_advance := advance s;
  port_complete_batch := complete s;
  port_batch_uncertain := mark_uncertain s
|}.
End Store.

(** ** Stored receipts *)

Section Receipts.
Context {T : Type}.
Variable encode_result : T -> result exn json.
Variable decode_result : json -> result exn T.

Definition encode_receipt (r : BatchItemReceipt T) : result exn json :=
  let? x := encode_result (receipt_result r) in
  validate_json_with Limits_default x ??;
  Ok (JDict [(KeyStr "item_id", JStr (receipt_item r)); (KeyStr "result", x)]).
Definition encode_receipts (rs : list (BatchItemReceipt T)) : result exn json :=
  let? encoded := map_result encode_receipt rs in
  validate_json_with Limits_default (JList encoded) ??;
  Ok (JList encoded).

(** [set(raw) == {"item_id", "result"}]. *)
Definition receipt_members (raw : list (json_key * json)) : bool :=
  forallb (fun kv => bool_decide (kv.1 = KeyStr "item_id" \/ kv.1 = KeyStr "result")) raw &&
  bool_decide (is_Some (d_get (KeyStr "item_id") raw)) && bool_decide (is_Some (d_get (KeyStr "result") raw)).

Definition decode_receipt (raw : json) : result exn (BatchItemReceipt T) :=
  match raw with
  | JDict members =>
      reject_if (negb (receipt_members members)) (ValueError "stored mutation batch receipt is invalid") ??;
      match d_get (KeyStr "item_id") members with
      | Some (JStr item_id) =>
          reject_if (str_empty item_id) (ValueError "stored mutation batch item ID is invalid") ??;
          let x := default JNull (d_get (KeyStr "result") members) in
          validate_json_with Limits_default x ??;
          let? r := decode_result x in
          Ok (mkItemReceipt item_id r false)
      | _ => Raise (ValueError "stored mutation batch item ID is invalid")
      end
  | _ => Raise (ValueError "stored mutation batch receipt is invalid")
  end.
Definition decode_receipts (value : json) : result exn (list (BatchItemReceipt T)) :=
  match value with
  | JList items => map_result decode_receipt items
  | _ => Raise (ValueError "stored mutation batch receipts must be a list")
  end.
End Receipts.

(** ** The callbacks of a model *)

Section Model.
Context {W T : Type} `{!EqDecision T} `{!Orm batch_key batch_row W, !Atomic W, !Uuid W, !Connections}.
Variable encode_result : T -> result exn json.
Variable decode_result : json -> result exn T.
Implicit Types (l : MutationBatchLease T) (row : batch_row) (now : datetime).

Abbreviation decoded := (decode_receipts decode_result).

(** [lease(row, resumed=...)]. *)
Definition lease (key : batch_key) row (is_resumed : bool) : M exn W (MutationBatchLease T) :=
  let! s := lift (member batch_state_value MutationBatchState_members (row_state row)) in
  let! rs := lift (decoded (row_receipts row)) in
  MutationBatchLease_new (mkBatchLease key.1 key.2 (row_token row) s (row_next row) (row_total row) rs (row_lease_until row) is_resumed).

(** The conditions of [active] before the stored receipts are decoded, and [active]. *)
Definition executing (text : pystr) : bool := bool_decide (text = batch_state_value PROCESSING) || bool_decide (text = batch_state_value PARTIALLY_COMMITTED).
Definition active_fields l now row : bool :=
  bool_decide (row_token row = lease_token l) && executing (row_state row) && dt_ltb now (row_lease_until row) &&
  (dt_instant (row_lease_until row) =? dt_instant (lease_expires_at l)) && (row_next row =? next_index l).
Definition active (found : option batch_row) l now : result exn bool :=
  match found with
  | None => Ok false
  | Some row =>
      if active_fields l now row then let? rs := decoded (row_receipts row) in Ok (bool_decide (rs = receipts l))
      else Ok false
  end.

(** The locked row of a lease, when it is active. *)
Definition key_of l : batch_key := (lease_namespace l, lease_batch_id l).
Definition active_row l now : M exn W (option batch_row) :=
  let! found := _locked_first (key_of l) in
  let! is_active := lift (active found l now) in
  ret (if is_active : bool then found else None).

(** *** [begin] *)

Definition purgeable now row : bool :=
  bool_decide (row_state row = batch_state_value COMPLETED) &&
  match row_retention row with Some at_ => dt_leb at_ now | None => false end.

Definition new_row (fingerprint : RequestFingerprint) (total : Z) (token : pystr) (until now : datetime) : batch_row :=
  mkBatchRow (fingerprint_value fingerprint) token (batch_state_value PROCESSING) total 0 (JList []) until None None now.
Definition taken_over (token : pystr) (until now : datetime) row : batch_row :=
  mkBatchRow (row_fingerprint row) token (row_state row) (row_total row) (row_next row) (row_receipts row) until (row_retention row) (row_reason row) now.

Definition differs (fingerprint : RequestFingerprint) (total : Z) row : bool :=
  negb (bool_decide (row_fingerprint row = fingerprint_value fingerprint)) || negb (row_total row =? total).
Definition reason_or (d : pystr) (o : option pystr) : pystr := match o with Some r => if str_empty r then d else r | None => d end.

(** [begin] of a batch whose row is there. *)
Definition begin_existing (key : batch_key) (fingerprint : RequestFingerprint) (total : Z) now (lease_ttl : timedelta) row :
    M exn W (MutationBatchBeginResult T) :=
  if differs fingerprint total row then ret (BeginConflict None "the batch ID was used with different items")
  else if bool_decide (row_state row = batch_state_value COMPLETED) then let! rs := lift (decoded (row_receipts row)) in ret (BeginReplay rs)
  else if bool_decide (row_state row = batch_state_value UNCERTAIN) then
    ret (BeginUncertain None (reason_or "the prior batch outcome is unknown" (row_reason row)))
  else if dt_ltb now (row_lease_until row) then ret (BeginInProgress None (row_lease_until row))
  else
    let! token := uuid4 in
    let! until := lift (dt_add now lease_ttl) in
    save key (taken_over token until now) ;;;
    let! l := lease key (taken_over token until now row) true in
    ret (BeginLease l).

Definition begin_block (key : batch_key) (fingerprint : RequestFingerprint) (total : Z) now (lease_ttl : timedelta) :
    M exn W (MutationBatchBeginResult T) :=
  let! found := _locked_first key in
  let! row := match found with
    | Some row => if purgeable now row then delete_row key ;;; ret None else ret (Some row)
    | None => ret None
    end in
  match row with
  | Some row => begin_existing key fingerprint total now lease_ttl row
  | None =>
      let! token := uuid4 in
      let! until := lift (dt_add now lease_ttl) in
      let! rc := _create_or_locked key (new_row fingerprint total token until now) in
      let '(row, created) := rc in
      if created : bool then let! l := lease key row false in ret (BeginLease l)
      else begin_existing key fingerprint total now lease_ttl row
  end.

Definition model_begin (ns batch_id : pystr) (fingerprint : RequestFingerprint) (total : Z) now (lease_ttl : timedelta) (alias : pystr) :
    M exn W (MutationBatchBeginResult T) :=
  _postgresql alias ;;;
  Django._utc now ;;;
  raise_if (str_empty ns || str_empty batch_id || (total <? 0) || (lease_ttl <=? 0))
    (ValueError "valid batch identity, item count, and lease_ttl are required") ;;;
  atomic (begin_block (ns, batch_id) fingerprint total now lease_ttl).

(** *** The calls of a lease's owner *)

Definition renewed (until now : datetime) row : batch_row :=
  mkBatchRow (row_fingerprint row) (row_token row) (row_state row) (row_total row) (row_next row) (row_receipts row) until (row_retention row) (row_reason row) now.
Definition model_renew l now (lease_ttl : timedelta) (alias : pystr) : M exn W (MutationBatchRenewResult T) :=
  _postgresql alias ;;;
  Django._utc now ;;;
  check_positive lease_ttl "lease_ttl must be positive" ;;;
  atomic
    (let! found := active_row l now in
     match found with
     | None => ret (RenewStaleBatch stale_batch)
     | Some row =>
         let! until := lift (dt_add now lease_ttl) in
         save (key_of l) (renewed until now) ;;;
         let! l' := lease (key_of l) (renewed until now row) (resumed l) in
         ret (MutationBatchLeaseRenewed l')
     end).

Definition progressed (encoded : json) (until now : datetime) row : batch_row :=
  mkBatchRow (row_fingerprint row) (row_token row) (batch_state_value PARTIALLY_COMMITTED) (row_total row) (row_next row + 1) encoded until
    (row_retention row) (row_reason row) now.
Definition model_advance l (receipt : BatchItemReceipt T) now (lease_ttl : timedelta) (alias : pystr) : M exn W (MutationBatchAdvanceResult T) :=
  _postgresql alias ;;;
  Django._utc now ;;;
  check_positive lease_ttl "lease_ttl must be positive" ;;;
  atomic
    (let! found := active_row l now in
     match found with
     | None => ret (AdvanceStaleBatch "batch progress is stale or already complete")
     | Some row =>
         if row_total row <=? row_next row then ret (AdvanceStaleBatch "batch progress is stale or already complete")
         else
           let! encoded := lift (encode_receipts encode_result (receipts l ++ [receipt])) in
           let! until := lift (dt_add now lease_ttl) in
           save (key_of l) (progressed encoded until now) ;;;
           let! l' := lease (key_of l) (progressed encoded until now row) (resumed l) in
           ret (MutationBatchProgressed l')
     end).

Definition finished (s : MutationBatchState) (reason : option pystr) (until now : datetime) row : batch_row :=
  mkBatchRow (row_fingerprint row) (row_token row) (batch_state_value s) (row_total row) (row_next row) (row_receipts row) (row_lease_until row)
    (Some until) (match reason with Some r => Some r | None => row_reason row end) now.
Definition model_complete l now (retention_ttl : timedelta) (alias : pystr) : M exn W MutationBatchCompleteResult :=
  _postgresql alias ;;;
  Django._utc now ;;;
  check_positive retention_ttl "retention_ttl must be positive" ;;;
  atomic
    (let! found := active_row l now in
     match found with
     | None => ret (CompleteStaleBatch "batch is stale or has uncommitted items")
     | Some row =>
         if negb (row_next row =? row_total row) then ret (CompleteStaleBatch "batch is stale or has uncommitted items")
         else
           let! until := lift (dt_add now retention_ttl) in
           save (key_of l) (finished COMPLETED None until now) ;;;
           ret (MutationBatchCompleted until)
     end).

Definition model_mark_uncertain l (reason : pystr) now (retention_ttl : timedelta) (alias : pystr) : M exn W MutationBatchUncertainResult :=
  _postgresql alias ;;;
  Django._utc now ;;;
  raise_if (str_empty reason || (retention_ttl <=? 0)) (ValueError "an uncertainty reason and positive retention_ttl are required") ;;;
  atomic
    (let! found := active_row l now in
     match found with
     | None => ret (UncertainStaleBatch stale_batch)
     | Some row =>
         let! until := lift (dt_add now retention_ttl) in
         save (key_of l) (finished UNCERTAIN (Some reason) until now) ;;;
         ret (MutationBatchMarkedUncertain until)
     end).

Definition batch_store (alias : pystr) : DjangoMutationBatchStore W T :=
  mkDjangoBatches alias model_begin model_renew model_advance model_complete model_mark_uncertain.

(** [DjangoMutationBatchStore.from_model]. *)
Definition from_model (model : meta) (alias : pystr) : M exn W (DjangoMutationBatchStore W T) :=
  _unique model {["namespace"; "batch_id"]}%py ;;;
  from_callbacks (batch_store alias).
End Model.

(** ** Mutation batches over a shared database

    The calls of the Django batch store as steps on the rows, what one call does while other
    sessions commit theirs, and the two guarantees over histories: a lease settles one item at
    most once, and the progress a batch recorded is what it is resumed or replayed from. *)

(** ** Steps on the rows *)

Section Steps.
Context {T : Type} `{!EqDecision T}.
Variable decode_result : json -> result exn T.
Implicit Types (l : MutationBatchLease T) (row : batch_row) (now until : datetime) (R : batch_table).

Abbreviation decoded := (decode_receipts decode_result).

(** The row a lease is active for. *)
Definition holds l now row : Prop := active_fields l now row = true /\ decoded (row_receipts row) = Ok (receipts l).
#[export] Instance holds_dec l now row : Decision (holds l now row).
Proof.
  unfold holds. apply and_dec; [apply _|]. destruct (decoded (row_receipts row)) as [rs|e]; [|right; congruence].
  destruct (decide (rs = receipts l)) as [->|]; [by left|right; congruence].
Defined.

(** Available to a new batch, and to a takeover. *)
Definition available now (found : option batch_row) : bool := match found with None => true | Some row => purgeable now row end.
Definition resumable (fp : RequestFingerprint) (total : Z) now row : bool :=
  negb (differs fp total row) && negb (bool_decide (row_state row = batch_state_value COMPLETED)) &&
  negb (bool_decide (row_state row = batch_state_value UNCERTAIN)) && negb (dt_ltb now (row_lease_until row)).

Inductive batch_call :=
  | CallBegin (key : batch_key) (fp : RequestFingerprint) (total : Z) (now until : datetime) (token : pystr)
  | CallRenew l (now until : datetime)
  | CallAdvance l (receipt : BatchItemReceipt T) (encoded : json) (now until : datetime) (Hstored : decoded encoded = Ok (receipts l ++ [receipt]))
  | CallComplete l (now until : datetime)
  | CallUncertain l (reason : pystr) (now until : datetime).

Definition update_held l now (f : batch_row -> batch_row) R : batch_table :=
  match R !! key_of l with
  | Some row => if decide (holds l now row) then <[key_of l := f row]> R else R
  | None => R
  end.

Definition apply_batch (c : batch_call) R : batch_table :=
  match c with
  | CallBegin key fp total now until token =>
      match R !! key with
      | Some row =>
          if purgeable now row then <[key := new_row fp total token until now]> R
          else if resumable fp total now row then <[key := taken_over token until now row]> R
          else R
      | None => <[key := new_row fp total token until now]> R
      end
  | CallRenew l now until => update_held l now (renewed until now) R
  | CallAdvance l _ encoded now until _ => update_held l now (progressed encoded until now) R
  | CallComplete l now until => update_held l now (finished COMPLETED None until now) R
  | CallUncertain l reason now until => update_held l now (finished UNCERTAIN (Some reason) until now) R
  end.

Definition batch_calls (allowed : batch_call -> Prop) : relation batch_table := fun R R' => exists c, allowed c /\ R' = apply_batch c R.

(** What one call does to one row. *)
Inductive row_step (c : batch_call) : option batch_row -> option batch_row -> Prop :=
  | row_same o : row_step c o o
  | row_new key fp total now until token o : c = CallBegin key fp total now until token -> available now o = true ->
      row_step c o (Some (new_row fp total token until now))
  | row_taken key fp total now until token row : c = CallBegin key fp total now until token -> resumable fp total now row = true ->
      row_step c (Some row) (Some (taken_over token until now row))
  | row_renewed l now until row : c = CallRenew l now until -> holds l now row -> row_step c (Some row) (Some (renewed until now row))
  | row_advanced l r encoded now until H row : c = CallAdvance l r encoded now until H -> holds l now row -> row_step c (Some row) (Some (progressed encoded until now row))
  | row_completed l now until row : c = CallComplete l now until -> holds l now row -> row_step c (Some row) (Some (finished COMPLETED None until now row))
  | row_uncertain l reason now until row : c = CallUncertain l reason now until -> holds l now row ->
      row_step c (Some row) (Some (finished UNCERTAIN (Some reason) until now row)).

Lemma update_held_row c l now f R key : (forall row, holds l now row -> row_step c (Some row) (Some (f row))) ->
  row_step c (R !! key) (update_held l now f R !! key).
Proof.
  intros Hf. unfold update_held. destruct (R !! key_of l) as [row|] eqn:Hr; [|constructor]. destruct (decide _) as [Hh|]; [|constructor].
  destruct (decide (key_of l = key)) as [<-|Hne]; [rewrite lookup_insert_eq, Hr; auto|rewrite lookup_insert_ne by done; constructor].
Qed.

Lemma apply_batch_row c R key : row_step c (R !! key) (apply_batch c R !! key).
Proof.
  destruct c as [j fp total now until token| | | |]; cbn [apply_batch]; [|apply update_held_row; intros; econstructor; by eauto..].
  assert (forall row', (j = key -> row_step (CallBegin j fp total now until token) (R !! key) (Some row')) ->
    row_step (CallBegin j fp total now until token) (R !! key) (<[j := row']> R !! key)) as Hput.
  { intros row' Hr. destruct (decide (j = key)) as [<-|Hne]; [rewrite lookup_insert_eq; auto|rewrite lookup_insert_ne by done; constructor]. }
  destruct (R !! j) as [row|] eqn:Hr; [destruct (purgeable now row) eqn:Hp; [|destruct (resumable fp total now row) eqn:Hs]|];
    try constructor; apply Hput; intros <-; rewrite Hr; econstructor; eauto.
Qed.

(** *** What the steps keep *)

(** A lease whose item is settled, or whose batch is: its token shows it no more at its
    index in an executing state. *)
Definition spent l (o : option batch_row) : Prop :=
  forall row, o = Some row -> row_token row = lease_token l -> next_index l < row_next row \/ executing (row_state row) = false.
(** Calls that do not draw a token again. *)
Definition undrawn (token : pystr) (c : batch_call) : Prop := match c with CallBegin _ _ _ _ _ t => t <> token | _ => True end.

Lemma holds_executing l now row : holds l now row -> executing (row_state row) = true.
Proof. intros [Ha _]. unfold active_fields in Ha. rewrite !andb_true_iff in Ha. naive_solver. Qed.

Lemma spent_step l c o o' : undrawn (lease_token l) c -> row_step c o o' -> spent l o -> spent l o'.
Proof.
  intros Hu Hs Hsp. inversion Hs as [|key fp total now until token ? -> Ha|key fp total now until token row -> Hr|l' now until row -> Hh|l' r encoded now until H row -> Hh
    |l' now until row -> Hh|l' reason now until row -> Hh]; subst; try done; intros row' [= <-] Ht; cbn in *; [congruence..| | |by right|by right].
  - by apply Hsp.
  - left. destruct (Hsp row eq_refl Ht) as [?|He]; [lia|]. apply holds_executing in Hh. congruence.
Qed.

Lemma spent_kept l key R R' : rtc (batch_calls (undrawn (lease_token l))) R R' -> spent l (R !! key) -> spent l (R' !! key).
Proof. induction 1 as [|R R1 R2 (c & Hc & ->) _ IH]; [done|]. intros Hs. apply IH. eapply spent_step; [exact Hc|apply apply_batch_row|done]. Qed.

Lemma spent_inactive l now row : spent l (Some row) -> active_fields l now row = false.
Proof.
  intros Hs. destruct (active_fields l now row) eqn:Ha; [|done]. unfold active_fields in Ha. rewrite !andb_true_iff, !bool_decide_eq_true in Ha.
  destruct Ha as [[[[Ht He] _] _] Hn%Z.eqb_eq]. destruct (Hs row eq_refl Ht) as [?|?]; [lia|congruence].
Qed.

(** The progress of a batch: its items, and receipts that go on from the given ones; once it is
    complete it is retained beyond the horizon. *)
Definition progress (fp : RequestFingerprint) (total : Z) (rs : list (BatchItemReceipt T)) (h : datetime) (o : option batch_row) : Prop :=
  exists row rs', o = Some row /\ differs fp total row = false /\ decoded (row_receipts row) = Ok rs' /\ rs `prefix_of` rs' /\
    (row_state row = batch_state_value COMPLETED -> exists u, row_retention row = Some u /\ dt_ltb h u = true).
(** Calls up to a horizon, and completions that are retained beyond it. *)
Definition within (h : datetime) (c : batch_call) : Prop :=
  match c with
  | CallBegin _ _ _ now _ _ => dt_leb now h = true
  | CallComplete _ _ until => dt_ltb h until = true
  | _ => True
  end.

Lemma progress_retained fp total rs h now row : progress fp total rs h (Some row) -> dt_leb now h = true -> purgeable now row = false.
Proof.
  intros (r & rs' & [= <-] & _ & _ & _ & Hc) Hn. unfold purgeable. case_bool_decide as Hs; [|done]. destruct (Hc Hs) as (u & -> & Hu). cbn.
  unfold dt_leb, dt_ltb in *. lia.
Qed.

Lemma progress_step fp total rs h c o o' : within h c -> row_step c o o' -> progress fp total rs h o -> progress fp total rs h o'.
Proof.
  intros Hw Hs Hp. inversion Hs as [|key fp' total' now until token ? -> Ha|key fp' total' now until token row -> Hr|l' now until row -> Hh|l' r encoded now until H row -> Hh
    |l' now until row -> Hh|l' reason now until row -> Hh]; subst; [done| |destruct Hp as (r' & rs' & [= <-] & Hd & Hrs & Hpre & Hc)..].
  - exfalso. pose proof Hp as (row & ? & -> & _). cbn in *. by rewrite (progress_retained _ _ _ _ _ _ Hp) in Ha.
  - exists (taken_over token until now row), rs'. done.
  - exists (renewed until now row), rs'. done.
  - exists (progressed encoded until now row), (receipts l' ++ [r]). split_and!; try done. destruct Hh as [_ Hh]. assert (rs' = receipts l') as -> by congruence. by apply prefix_app_r.
  - exists (finished COMPLETED None until now row), rs'. split_and!; try done. eauto.
  - exists (finished UNCERTAIN (Some reason) until now row), rs'. done.
Qed.

Lemma progress_kept fp total rs h key R R' : rtc (batch_calls (within h)) R R' -> progress fp total rs h (R !! key) -> progress fp total rs h (R' !! key).
Proof. induction 1 as [|R R1 R2 (c & Hc & ->) _ IH]; [done|]. intros Hs. apply IH. eapply progress_step; [exact Hc|apply apply_batch_row|done]. Qed.
End Steps.

(** ** What one call does *)

Section Runs.
Context {W T : Type} `{!EqDecision T} `{!Orm batch_key batch_row W, !Session batch_key batch_row W, !Atomic W, !Uuid W, !Connections}.
Context (rely : relation batch_table) `{!OrmLaws rely, !UuidLaws}.
Variable encode_result : T -> result exn json.
Variable decode_result : json -> result exn T.
Implicit Types (l : MutationBatchLease T) (row : batch_row) (now until : datetime) (R : batch_table).

Abbreviation decoded := (decode_receipts decode_result).
Abbreviation holds := (holds decode_result).
Abbreviation store := (batch_store encode_result decode_result).
Abbreviation runs := (fun m w step => linearizes rely m w step (fun _ => True)).

(** The lease of a row. *)
Definition leased (key : batch_key) row (b : bool) l : Prop :=
  batch_state_value (lease_state l) = row_state row /\ decoded (row_receipts row) = Ok (receipts l) /\
  l = mkBatchLease key.1 key.2 (row_token row) (lease_state l) (row_next row) (row_total row) (receipts l) (row_lease_until row) b.

Lemma member_value {A} (value : A -> pystr) members text a : member value members text = Ok a -> value a = text.
Proof. unfold member. destruct (list_find _ members) as [[i m]|] eqn:Hf; [|done]. intros [= ->]. by apply list_find_Some in Hf as (_ & ? & _). Qed.

Lemma wp_lease key row b w (Q : MutationBatchLease T -> W -> Prop) (X : exn -> W -> Prop) :
  (forall l, leased key row b l -> Q l w) -> (forall e, X e w) -> wp (lease decode_result key row b) w Q X.
Proof.
  intros HQ HX. apply db_bind, wp_lift; [|auto]. intros s Hs%member_value. apply db_bind, wp_lift; [|auto]. intros rs Hrs.
  unfold MutationBatchLease_new. do 5 (apply db_bind, db_raise_if; [intros _|auto]). apply wp_ret, HQ. done.
Qed.

(** *** [begin] *)

Definition described (fp : RequestFingerprint) (total : Z) now row (d : MutationBatchBeginResult T) : Prop :=
  if differs fp total row then d = BeginConflict None "the batch ID was used with different items"
  else if bool_decide (row_state row = batch_state_value COMPLETED) then exists rs, decoded (row_receipts row) = Ok rs /\ d = BeginReplay rs
  else if bool_decide (row_state row = batch_state_value UNCERTAIN) then
    d = BeginUncertain None (reason_or "the prior batch outcome is unknown" (row_reason row))
  else dt_ltb now (row_lease_until row) = true /\ d = BeginInProgress None (row_lease_until row).

Inductive begin_step (key : batch_key) (fp : RequestFingerprint) (total : Z) now (ttl : timedelta) R : MutationBatchBeginResult T -> batch_table -> Prop :=
  | begin_created token until l : available now (R !! key) = true -> dt_add now ttl = Ok until -> leased key (new_row fp total token until now) false l ->
      begin_step key fp total now ttl R (BeginLease l) (<[key := new_row fp total token until now]> R)
  | begin_described row d : R !! key = Some row -> described fp total now row d -> begin_step key fp total now ttl R d R
  | begin_taken row token until l : R !! key = Some row -> resumable fp total now row = true -> dt_add now ttl = Ok until ->
      leased key (taken_over token until now row) true l ->
      begin_step key fp total now ttl R (BeginLease l) (<[key := taken_over token until now row]> R).

Abbreviation begins key fp total now ttl w := (fun d w' => grew rely w w' /\ exists R, instant rely w R /\ begin_step key fp total now ttl R d (rows w')).

Lemma batch_existing_runs key fp total now ttl row w w1 : sees rely w w1 -> nesting w1 <> 0%nat -> rows w1 !! key = Some row -> key ∈ held w1 ->
  wp (begin_existing decode_result key fp total now ttl row) w1 (begins key fp total now ttl w) (fun _ _ => True).
Proof.
  intros Hs Hz Hr Hk. assert (forall d, described fp total now row d -> grew rely w w1 /\ exists R, instant rely w R /\ begin_step key fp total now ttl R d (rows w1)) as Hd.
  { intros d Hd. split; [by apply grew_sees|]. exists (rows w1). split; [by apply (sees_instant rely)|]. by eapply begin_described. }
  unfold described in Hd. unfold begin_existing. destruct (differs fp total row) eqn:Hdf; [by apply wp_ret, Hd|].
  destruct (bool_decide (row_state row = batch_state_value COMPLETED)) eqn:Hc; [apply db_bind, wp_lift; [|done]; intros rs Hrs; apply wp_ret, Hd; by eauto|].
  destruct (bool_decide (row_state row = batch_state_value UNCERTAIN)) eqn:Hun; [by apply wp_ret, Hd|]. destruct (dt_ltb now (row_lease_until row)) eqn:Hl; [by apply wp_ret, Hd|].
  apply db_bind, (wp_uuid4 rely). intros token w2 _ _ [Hs2 Hn2] Hr2. apply db_bind, wp_lift; [|done]. intros u Hu. apply db_bind.
  eapply db_mono; [eapply (wp_saved rely w w2); [by eapply sees_trans|by rewrite Hr2|by apply (sees_held rely _ _ Hs2)|congruence]| |done].
  intros _ w3 (Hg & R & HR & HRk & Hrows). apply db_bind, wp_lease; [|done]. intros l Hle. apply wp_ret. split; [done|]. exists R. split; [done|]. rewrite Hrows.
  apply begin_taken; try done. unfold resumable. by rewrite Hdf, Hc, Hun, Hl.
Qed.

Definition begin_creates (key : batch_key) (fp : RequestFingerprint) (total : Z) now ttl : M exn W (MutationBatchBeginResult T) :=
  let! token := uuid4 in
  let! until := lift (dt_add now ttl) in
  let! rc := _create_or_locked key (new_row fp total token until now) in
  let '(row, created) := rc in
  if created : bool then let! l := lease decode_result key row false in ret (BeginLease l)
  else begin_existing decode_result key fp total now ttl row.

(** The creation of a row: at that instant the identity is free, or others took it. *)
Lemma creates_runs key fp total now ttl w (Q : MutationBatchBeginResult T -> W -> Prop) : nesting w <> 0%nat ->
  (forall w1 w2 token until l, sees rely w w1 -> rows w1 !! key = None -> dt_add now ttl = Ok until -> leased key (new_row fp total token until now) false l ->
    grew rely w w2 -> rows w2 = <[key := new_row fp total token until now]> (rows w1) -> Q (BeginLease l) w2) ->
  (forall w1 row, follows rely w w1 -> rows w1 !! key = Some row -> key ∈ held w1 -> wp (begin_existing decode_result key fp total now ttl row) w1 Q (fun _ _ => True)) ->
  wp (begin_creates key fp total now ttl) w Q (fun _ _ => True).
Proof.
  intros Hz Hnew Hold. apply db_bind, (wp_uuid4 rely). intros token w1 _ _ Hf1 _. apply db_bind, wp_lift; [|done]. intros u Hu.
  apply db_bind, (wp_create_or_locked rely); [| |done].
  - intros w2 w3 Hs Hnone Hr Hb Hh Hn. apply db_bind, wp_lease; [|done]. intros l Hl. apply wp_ret. eapply (Hnew w2); try done; [by eapply sees_trans; [apply Hf1|]|].
    eapply (grew_trans rely w w1); [by apply grew_sees, Hf1|]. eapply (grew_created rely w1 w2); try done. by rewrite (proj2 Hf1).
  - intros w2 row Hf Hrow Hk. apply Hold; [by eapply follows_trans|done|]. apply Hk. by rewrite (proj2 Hf1).
Qed.

Lemma batch_begin_block_runs key fp total now ttl w : nesting w <> 0%nat ->
  wp (begin_block decode_result key fp total now ttl) w (begins key fp total now ttl w) (fun _ _ => True).
Proof.
  intros Hn. apply db_bind, (wp_locked_first rely); [|done]. intros w1 [Hs1 Hn1] Hlock. assert (nesting w1 <> 0%nat) as Hz1 by congruence.
  apply db_bind. destruct (rows w1 !! key) as [row|] eqn:Hrow; [destruct (purgeable now row) eqn:Hp|].
  - apply db_bind. eapply (wp_delete_row rely); [by apply Hlock|exact Hrow| |done]. intros w2 w3 Hf2 Hw3. assert (nesting w2 <> 0%nat) as Hz2 by (by rewrite (proj2 Hf2)).
    apply wp_ret, creates_runs; [by rewrite (wrote_nesting _ _ _ Hw3)| |].
    + intros w4 w5 token u l Hs4 Hnone Hu Hl Hg5 Hr5.
      split; [eapply (grew_trans rely w w1); [by apply grew_sees|]; eapply grew_trans; [apply grew_sees, Hf2|]; eapply grew_trans; [by eapply grew_wrote|done]|].
      destruct (recreated rely w w1 w2 w3 w4 key row (new_row fp total token u now) Hs1 Hrow (Hlock Hn ltac:(done)) Hz1 Hf2 Hw3 Hs4) as (Hi & Hlk & He).
      exists (overlay w (base w4)). split; [done|]. rewrite Hr5, He. apply begin_created; [by rewrite Hlk|done|done].
    + intros w4 row' Hf4 Hrow' _. exfalso. pose proof (sees_locked rely w3 w4 (proj1 Hf4) key) as [_ Hl].
      { apply (wrote_held _ _ _ Hw3), (sees_held rely _ _ (proj1 Hf2)). by apply Hlock. }
      rewrite (wrote_rows _ _ _ Hw3), lookup_delete_eq in Hl. congruence.
  - apply wp_ret, batch_existing_runs; [done|done|done|by apply Hlock].
  - apply wp_ret, creates_runs; [done| |].
    + intros w2 w3 token u l Hs2 Hnone Hu Hl Hg3 Hr3. split; [eapply (grew_trans rely w w1); [by apply grew_sees|done]|]. exists (rows w2).
      split; [apply (sees_instant rely); by eapply sees_trans|]. rewrite Hr3. apply begin_created; [by rewrite Hnone|done|done].
    + intros w2 row [Hs2 Hn2] Hrow' Hk. apply batch_existing_runs; [by eapply sees_trans|by rewrite Hn2|done|done].
Qed.

Lemma batch_begin_linearizes alias ns batch_id fp total now ttl w :
  runs (begin (store alias) ns batch_id fp total now ttl) w (begin_step (ns, batch_id) fp total now ttl).
Proof.
  do 5 (apply (linearizes_check rely); [done|intros _]). cbn [batch_store on_batch_begin batch_using]. do 3 (apply (linearizes_check rely); [done|intros _]).
  apply (linearizes_atomic rely). intros w0 Hn. by apply batch_begin_block_runs.
Qed.

(** *** The calls of a lease's owner *)

(** Stale, with nothing changed, unless the lease holds the row and the call is not refused;
    else the row as the call leaves it. *)
Definition owner_step {A} l now (stale : A) (refuses : batch_row -> bool) (acts : batch_row -> A -> batch_row -> Prop) R (a : A) R' : Prop :=
  (a = stale /\ R' = R /\ forall row, R !! key_of l = Some row -> holds l now row -> refuses row = true) \/
  exists row row', R !! key_of l = Some row /\ holds l now row /\ refuses row = false /\ acts row a row' /\ R' = <[key_of l := row']> R.

Abbreviation owns l now stale refuses acts w := (fun a w' => grew rely w w' /\ exists R, instant rely w R /\ owner_step l now stale refuses acts R a (rows w')).

Lemma active_decides l now (found : option batch_row) b : active decode_result found l now = Ok b ->
  if b then exists row, found = Some row /\ holds l now row else forall row, found = Some row -> ~ holds l now row.
Proof.
  destruct found as [row|]; cbn; [|by intros [= <-]]. unfold holds. destruct (active_fields l now row) eqn:Ha; [|intros [= <-] row' [= <-] [? _]; congruence].
  destruct (decoded (row_receipts row)) as [rs|e] eqn:Hrs; [|done]. cbn. intros [= <-]. case_bool_decide as He.
  - exists row. by subst.
  - intros row' [= <-] [_ ?]. congruence.
Qed.

Lemma owner_runs {A} l now (stale : A) refuses acts (body : batch_row -> M exn W A) w :
  (forall w0 w1 row, sees rely w0 w1 -> nesting w1 <> 0%nat -> rows w1 !! key_of l = Some row -> key_of l ∈ held w1 -> holds l now row -> refuses row = false ->
    wp (body row) w1 (owns l now stale refuses acts w0) (fun _ _ => True)) ->
  runs (atomic (let! found := active_row decode_result l now in
    match found with None => ret stale | Some row => if refuses row then ret stale else body row end)) w (owner_step l now stale refuses acts).
Proof.
  intros Hbody. apply (linearizes_atomic rely). intros w0 Hn. apply db_bind, db_bind, (wp_locked_first rely); [|done]. intros w1 [Hs1 Hn1] Hlock.
  assert ((forall row, rows w1 !! key_of l = Some row -> holds l now row -> refuses row = true) -> owns l now stale refuses acts w0 stale w1) as Hstale.
  { intros Hr. split; [by apply grew_sees|]. exists (rows w1). split; [by apply (sees_instant rely)|]. by left. }
  apply db_bind, wp_lift; [|done]. intros b Hb%active_decides. apply wp_ret. destruct b.
  - destruct Hb as (row & Hr & Hh). rewrite Hr. destruct (refuses row) eqn:Hre; [apply wp_ret, Hstale; congruence|]. apply Hbody; try done; [by rewrite Hn1|by apply Hlock; [|eexists]].
  - apply wp_ret, Hstale. intros row Hr Hh. by destruct (Hb row Hr).
Qed.

Definition never (_ : batch_row) : bool := false.
Lemma owner_always {A} l now (stale : A) acts (body : batch_row -> M exn W A) w :
  (forall w0 w1 row, sees rely w0 w1 -> nesting w1 <> 0%nat -> rows w1 !! key_of l = Some row -> key_of l ∈ held w1 -> holds l now row -> never row = false ->
    wp (body row) w1 (owns l now stale never acts w0) (fun _ _ => True)) ->
  runs (atomic (let! found := active_row decode_result l now in match found with None => ret stale | Some row => body row end)) w (owner_step l now stale never acts).
Proof. exact (owner_runs l now stale never acts body w). Qed.

(** A call that saves the row and then answers. *)
Lemma owner_saves {A} l now (stale : A) refuses (acts : batch_row -> A -> batch_row -> Prop) f (m : M exn W A) w0 w1 row :
  sees rely w0 w1 -> nesting w1 <> 0%nat -> rows w1 !! key_of l = Some row -> key_of l ∈ held w1 -> holds l now row -> refuses row = false ->
  (forall w2 (P : A -> W -> Prop), (forall a, acts row a (f row) -> P a w2) -> wp m w2 P (fun _ _ => True)) ->
  wp (save (key_of l) f ;;; m) w1 (owns l now stale refuses acts w0) (fun _ _ => True).
Proof.
  intros Hs Hz Hr Hk Hh Hre Hm. apply db_bind. eapply db_mono; [by eapply (wp_saved rely w0 w1)| |done].
  intros _ w2 (Hg & R & HR & HRk & Hrows). apply Hm. intros a Ha. split; [done|]. exists R. split; [done|]. right. by exists row, (f row).
Qed.

Definition no_item_left row : bool := row_total row <=? row_next row.
Definition items_left row : bool := negb (row_next row =? row_total row).

Definition renew_acts l now (ttl : timedelta) row (a : MutationBatchRenewResult T) row' : Prop :=
  exists until l', dt_add now ttl = Ok until /\ row' = renewed until now row /\ leased (key_of l) row' (resumed l) l' /\ a = MutationBatchLeaseRenewed l'.
Definition advance_acts l (receipt : BatchItemReceipt T) now (ttl : timedelta) row (a : MutationBatchAdvanceResult T) row' : Prop :=
  exists encoded until l', encode_receipts encode_result (receipts l ++ [receipt]) = Ok encoded /\ dt_add now ttl = Ok until /\
    row' = progressed encoded until now row /\ leased (key_of l) row' (resumed l) l' /\ a = MutationBatchProgressed l'.
Definition complete_acts now (ttl : timedelta) row (a : MutationBatchCompleteResult) row' : Prop :=
  exists until, dt_add now ttl = Ok until /\ row' = finished COMPLETED None until now row /\ a = MutationBatchCompleted until.
Definition uncertain_acts (reason : pystr) now (ttl : timedelta) row (a : MutationBatchUncertainResult) row' : Prop :=
  exists until, dt_add now ttl = Ok until /\ row' = finished UNCERTAIN (Some reason) until now row /\ a = MutationBatchMarkedUncertain until.

Ltac pass_batch_checks := repeat (apply (linearizes_check rely); [done|intros _]; cbn [batch_store on_batch_renew on_batch_advance on_batch_complete on_batch_uncertain batch_using]).

Lemma batch_renew_linearizes alias l now ttl w :
  runs (renew (store alias) l now ttl) w (owner_step l now (RenewStaleBatch stale_batch) never (renew_acts l now ttl)).
Proof.
  pass_batch_checks. apply owner_always. intros w0 w1 row Hs Hz Hr Hk Hh Hre. apply db_bind, wp_lift; [|done]. intros u Hu.
  eapply owner_saves; try done. intros w2 P HP. apply db_bind, wp_lease; [|done]. intros l' Hl. apply wp_ret, HP. by exists u, l'.
Qed.
Lemma batch_advance_linearizes alias l receipt now ttl w :
  runs (advance (store alias) l receipt now ttl) w (owner_step l now (AdvanceStaleBatch "batch progress is stale or already complete") no_item_left (advance_acts l receipt now ttl)).
Proof.
  pass_batch_checks. apply owner_runs. intros w0 w1 row Hs Hz Hr Hk Hh Hre. apply db_bind, wp_lift; [|done]. intros encoded He. apply db_bind, wp_lift; [|done]. intros u Hu.
  eapply owner_saves; try done. intros w2 P HP. apply db_bind, wp_lease; [|done]. intros l' Hl. apply wp_ret, HP. by exists encoded, u, l'.
Qed.
Lemma batch_complete_linearizes alias l now ttl w :
  runs (complete (store alias) l now ttl) w (owner_step l now (CompleteStaleBatch "batch is stale or has uncommitted items") items_left (complete_acts now ttl)).
Proof.
  pass_batch_checks. apply owner_runs. intros w0 w1 row Hs Hz Hr Hk Hh Hre. apply db_bind, wp_lift; [|done]. intros u Hu.
  eapply owner_saves; try done. intros w2 P HP. apply wp_ret, HP. by exists u.
Qed.
Lemma batch_uncertain_linearizes alias l reason now ttl w :
  runs (mark_uncertain (store alias) l reason now ttl) w (owner_step l now (UncertainStaleBatch stale_batch) never (uncertain_acts reason now ttl)).
Proof.
  pass_batch_checks. apply owner_always. intros w0 w1 row Hs Hz Hr Hk Hh Hre. apply db_bind, wp_lift; [|done]. intros u Hu.
  eapply owner_saves; try done. intros w2 P HP. apply wp_ret, HP. by exists u.
Qed.
End Runs.

(** ** The guarantees *)

Section Guarantees.
Context {W T : Type} `{!EqDecision T} `{!Orm batch_key batch_row W, !Session batch_key batch_row W, !Atomic W, !Uuid W, !Connections}.
Variable encode_result : T -> result exn json.
Variable decode_result : json -> result exn T.
Implicit Types (l : MutationBatchLease T) (row : batch_row) (R : batch_table).

Abbreviation store := (batch_store (W := W) encode_result decode_result).

Lemma holds_index l now row : holds decode_result l now row -> row_next row = next_index l.
Proof. intros [Ha _]. unfold active_fields in Ha. rewrite !andb_true_iff in Ha. by destruct Ha as [_ ?%Z.eqb_eq]. Qed.

Lemma spent_stale {A} l now (stale : A) refuses acts R a R' : spent l (R !! key_of l) -> owner_step decode_result l now stale refuses acts R a R' -> a = stale /\ R' = R.
Proof.
  intros Hs [(-> & -> & _)|(row & row' & Hr & [Ha _] & _)]; [done|]. rewrite Hr in Hs. apply spent_inactive with (now := now) in Hs. congruence.
Qed.

(** A call of the owner that is not stale leaves the lease spent. *)
Lemma settled_spends {A} l now (stale a : A) refuses acts R R' : a <> stale -> (forall row row', holds decode_result l now row -> acts row a row' -> spent l (Some row')) ->
  owner_step decode_result l now stale refuses acts R a R' -> spent l (R' !! key_of l).
Proof. intros Ha Hacts [[-> _]|(row & row' & Hr & Hh & _ & Hact & ->)]; [done|]. rewrite lookup_insert_eq. by eapply Hacts. Qed.

Lemma settled_runs {A} rely `{!OrmLaws rely} (m : M exn W A) l now (stale a : A) refuses acts w w' :
  linearizes rely m w (owner_step decode_result l now stale refuses acts) (fun _ => True) -> m w = (Ok a, w') -> a <> stale ->
  (forall row row', holds decode_result l now row -> acts row a row' -> spent l (Some row')) -> nesting w' = nesting w /\ spent l (rows w' !! key_of l).
Proof.
  intros Hl Hrun Ha Hacts. unfold linearizes, wp in Hl. rewrite Hrun in Hl. destruct Hl as ([Hn _] & R & _ & Hstep). split; [done|]. by eapply settled_spends.
Qed.

(** A batch lease settles at most one thing: after an [advance], a [complete] or a
    [mark_uncertain] of a lease was answered with success by any session, every later call
    with the same lease ([advance], [complete], [mark_uncertain] and [renew]) answers stale
    and writes nothing, or raises and writes nothing, whatever batches other sessions begin,
    take over, advance, complete or purge in between, as long as none draws the token again. *)
Theorem django_batch_lease_settles_once alias l receipt reason now ttl w0 w1 :
  OrmLaws (batch_calls decode_result (undrawn decode_result (lease_token l))) -> UuidLaws -> nesting w0 = 0%nat ->
  (exists l', advance (store alias) l receipt now ttl w0 = (Ok (MutationBatchProgressed l'), w1)) \/
  (exists until, complete (store alias) l now ttl w0 = (Ok (MutationBatchCompleted until), w1)) \/
  (exists until, mark_uncertain (store alias) l reason now ttl w0 = (Ok (MutationBatchMarkedUncertain until), w1)) ->
  let rely := batch_calls decode_result (undrawn decode_result (lease_token l)) in
  let unchanged := fun w2 => rtc rely (rows w1) (rows w2) in
  let raised := fun (_ : exn) w2 => follows rely w1 w2 in
  forall receipt2 reason2 now2 ttl2,
    wp (advance (store alias) l receipt2 now2 ttl2) w1 (fun a w2 => a = AdvanceStaleBatch "batch progress is stale or already complete" /\ unchanged w2) raised /\
    wp (complete (store alias) l now2 ttl2) w1 (fun a w2 => a = CompleteStaleBatch "batch is stale or has uncommitted items" /\ unchanged w2) raised /\
    wp (mark_uncertain (store alias) l reason2 now2 ttl2) w1 (fun a w2 => a = UncertainStaleBatch stale_batch /\ unchanged w2) raised /\
    wp (renew (store alias) l now2 ttl2) w1 (fun a w2 => a = RenewStaleBatch stale_batch /\ unchanged w2) raised.
Proof.
  intros Hlaws Huuid Hn Hrun rely unchanged raised receipt2 reason2 now2 ttl2. fold rely in Hlaws.
  assert (nesting w1 = nesting w0 /\ spent l (rows w1 !! key_of l)) as [Hn1 Hs].
  { destruct Hrun as [(l' & Hr)|[(u & Hr)|(u & Hr)]]; (eapply (settled_runs rely); [|exact Hr| |]).
    - apply (batch_advance_linearizes rely).
    - done.
    - intros row row' Hh (encoded & u & l2 & _ & _ & -> & _) r [= <-] _. left. cbn. apply holds_index in Hh. lia.
    - apply (batch_complete_linearizes rely).
    - done.
    - intros row row' Hh (u' & _ & -> & _) r [= <-] _. by right.
    - apply (batch_uncertain_linearizes rely).
    - done.
    - intros row row' Hh (u' & _ & -> & _) r [= <-] _. by right. }
  assert (forall A (m : M exn W A) stale refuses acts, linearizes rely m w1 (owner_step decode_result l now2 stale refuses acts) (fun _ => True) ->
    wp m w1 (fun a w2 => a = stale /\ unchanged w2) raised) as Hstale.
  { intros A m stale refuses acts Hm. eapply db_mono; [exact Hm| |by intros e w2 []]. intros a w2 (_ & R & HR & Hstep). apply (instant_top rely) in HR; [|congruence].
    apply spent_stale in Hstep as [-> He]; [|by eapply spent_kept]. split; [done|]. unfold unchanged. by rewrite He. }
  split_and!; eapply Hstale; [apply (batch_advance_linearizes rely)|apply (batch_complete_linearizes rely)|apply (batch_uncertain_linearizes rely)|apply (batch_renew_linearizes rely)].
Qed.

(** What a later [begin] of the same items answers: a lease that goes on from the recorded
    receipts, the replay of a batch that went on from them, or that it may not run now. *)
Definition goes_on (rs : list (BatchItemReceipt T)) (now : datetime) (d : MutationBatchBeginResult T) : Prop :=
  match d with
  | BeginLease l => resumed l = true /\ rs `prefix_of` receipts l
  | BeginReplay rs' => rs `prefix_of` rs'
  | BeginInProgress _ until => dt_ltb now until = true
  | BeginUncertain _ _ => True
  | BeginConflict _ _ => False
  end.

Lemma begun_progress key fp total now ttl h R l R' : begin_step decode_result key fp total now ttl R (BeginLease l) R' -> progress decode_result fp total [] h (R' !! key).
Proof.
  intros Hs. inversion Hs as [token u l' Ha Hu Hl|row d Hr Hd|row token u l' Hr Hre Hu (Hst & Hrs & _)]; subst.
  - rewrite lookup_insert_eq. exists (new_row fp total token u now), []. split_and!; try done. unfold differs. cbn. by rewrite bool_decide_true, Z.eqb_refl.
  - exfalso. unfold described in Hd. repeat case_match; naive_solver.
  - rewrite lookup_insert_eq. exists (taken_over token u now row), (receipts l). unfold resumable in Hre. rewrite !andb_true_iff, !negb_true_iff, !bool_decide_eq_false in Hre.
    destruct Hre as [[[? ?] _] _]. split_and!; try done. apply prefix_nil.
Qed.

Lemma advanced_progress fp total h l receipt now ttl stale refuses R l' R' : progress decode_result fp total [] h (R !! key_of l) -> MutationBatchProgressed l' <> stale ->
  owner_step decode_result l now stale refuses (advance_acts encode_result decode_result l receipt now ttl) R (MutationBatchProgressed l') R' ->
  progress decode_result fp total (receipts l') h (R' !! key_of l).
Proof.
  intros (row & rs & Hr & Hd & _) Hne [[? _]|(row1 & row' & Hr1 & _ & _ & (encoded & u & l2 & _ & _ & -> & (_ & Hrs & _) & [= <-]) & ->)]; [done|].
  assert (row1 = row) as -> by congruence. rewrite lookup_insert_eq. by exists (progressed encoded u now row), (receipts l').
Qed.

Lemma progress_resumed key fp total rs now ttl h R d R' : dt_leb now h = true -> progress decode_result fp total rs h (R !! key) ->
  begin_step decode_result key fp total now ttl R d R' -> goes_on rs now d.
Proof.
  intros Hn Hp Hs. inversion Hs as [token u l' Ha Hu Hl|row d' Hr Hd|row token u l' Hr Hre Hu (Hst & Hrs & Hl)]; subst.
  - exfalso. destruct (R !! key) as [row|]; [|by destruct Hp as (? & ? & [=] & _)]. cbn in Ha. by rewrite (progress_retained _ _ _ _ _ _ _ Hp) in Ha.
  - destruct Hp as (row1 & rs1 & Hr1 & Hdf & Hrs & Hpre & _). assert (row1 = row) as -> by congruence. unfold described in Hd. rewrite Hdf in Hd.
    destruct (bool_decide (row_state row = batch_state_value COMPLETED)); [destruct Hd as (rs2 & Hrs2 & ->); cbn; congruence|].
    destruct (bool_decide (row_state row = batch_state_value UNCERTAIN)); [by subst|by destruct Hd as [? ->]].
  - destruct Hp as (row1 & rs1 & Hr1 & Hdf & Hrs1 & Hpre & _). assert (row1 = row) as -> by congruence. cbn in *. rewrite Hl. cbn. split; [done|]. congruence.
Qed.

(** C29. The progress of a batch is never lost nor repeated while it is retained: once a batch
    was begun and an [advance] of it was answered with a lease whose receipts are [rs], every
    later [begin] with the same items, in any session, goes on from [rs]: it resumes with a
    lease that starts with [rs], replays receipts that start with [rs], or says that the batch
    is in progress or uncertain. It never starts over. Other sessions may begin, take over,
    advance, complete and abandon any batch, up to a horizon their completions outlive. *)
Theorem django_batch_progress_kept h alias ns batch_id fp total now ttl l0 w0 w1 l receipt now1 ttl1 l' w2 now2 ttl2 :
  OrmLaws (batch_calls decode_result (within decode_result h)) -> UuidLaws -> nesting w0 = 0%nat ->
  begin (store alias) ns batch_id fp total now ttl w0 = (Ok (BeginLease l0), w1) ->
  key_of l = (ns, batch_id) -> advance (store alias) l receipt now1 ttl1 w1 = (Ok (MutationBatchProgressed l'), w2) ->
  dt_leb now2 h = true ->
  wp (begin (store alias) ns batch_id fp total now2 ttl2) w2 (fun d _ => goes_on (receipts l') now2 d)
    (fun _ w3 => follows (batch_calls decode_result (within decode_result h)) w2 w3).
Proof.
  intros Hlaws Huuid Hn Hbegin Hk Hadv Hnow. set (rely := batch_calls decode_result (within decode_result h)) in *.
  pose proof (batch_begin_linearizes rely encode_result decode_result alias ns batch_id fp total now ttl w0) as H1. unfold linearizes, wp in H1. rewrite Hbegin in H1.
  destruct H1 as ([Hn1 _] & R0 & _ & Hs1%(begun_progress _ _ _ _ _ h)).
  pose proof (batch_advance_linearizes rely encode_result decode_result alias l receipt now1 ttl1 w1) as H2. unfold linearizes, wp in H2. rewrite Hadv in H2.
  destruct H2 as ([Hn2 _] & R1 & HR1 & Hs2). apply (instant_top rely) in HR1; [|congruence]. rewrite <- Hk in Hs1.
  apply (progress_kept _ _ _ _ _ _ _ _ HR1) in Hs1. apply (advanced_progress fp total h) in Hs2; [|done|done].
  eapply db_mono; [apply (batch_begin_linearizes rely)| |by intros e w3 []]. intros d w3 (_ & R2 & HR2 & Hs3). apply (instant_top rely) in HR2; [|congruence].
  rewrite Hk in Hs2. apply (progress_kept _ _ _ _ _ _ _ _ HR2) in Hs2. by eapply progress_resumed.
Qed.
End Guarantees.

(** ** Concrete histories: between the calls another session begins another batch, and takes
    this one over when its lease is out. *)

Section Example.
#[local] Existing Instance unary_uuid.
#[local] Existing Instance unary_uuid_laws.
#[local] Instance batches_postgresql : Connections := fun _ => "postgresql"%py.

Definition integer_of (j : json) : result exn Z := match j with JInt z => Ok z | _ => Raise (ValueError "not an integer") end.
Abbreviation demo_call := (batch_call (T := Z) integer_of).
Abbreviation demo_calls := (batch_calls (T := Z) integer_of).

Definition their_batch (allowed : demo_call -> Prop) (c : demo_call) (Hc : allowed c) : { f : batch_table -> batch_table | forall R, demo_calls allowed R (f R) } :=
  exist _ (apply_batch integer_of c) (fun R => ex_intro _ c (conj Hc eq_refl)).
Definition begin_other : demo_call := CallBegin integer_of ("n", "other")%py (mkFingerprint "g") 1 (utc 1) (utc 50) "y".
Definition take_over : demo_call := CallBegin integer_of ("n", "b")%py (mkFingerprint "f") 2 (utc 20) (utc 40) "z".

Definition batch_db0 (allowed : demo_call -> Prop) (H1 : allowed begin_other) (H2 : allowed take_over) : db (demo_calls allowed) :=
  mkDb _ ∅ ∅ ∅ 0 0 (replicate 4 (their_batch allowed begin_other H1) ++ [their_batch allowed take_over H2]).

Abbreviation demo_batches := (batch_store (fun z => Ok (JInt z)) integer_of "default"%py).
Definition first_item : BatchItemReceipt Z := mkItemReceipt "i" 7 false.
Definition demo_lease : MutationBatchLease Z := mkBatchLease "n" "b" "a" PROCESSING 0 2 [] (utc 10) false.
Definition next_lease : MutationBatchLease Z := mkBatchLease "n" "b" "a" PARTIALLY_COMMITTED 1 2 [first_item] (utc 15) false.

Abbreviation horizon := (within integer_of (utc 100)).
Abbreviation kept_db0 := (batch_db0 horizon eq_refl eq_refl).
Abbreviation begin_demo now := (begin (W := db (demo_calls horizon)) demo_batches "n" "b" (mkFingerprint "f") 2 now 10).
Abbreviation advance_demo := (advance (W := db (demo_calls horizon)) demo_batches demo_lease first_item (utc 5) 10).
Definition begun_db := after (begin_demo (utc 0)) kept_db0.
Definition advanced_db := after advance_demo begun_db.

Lemma django_batch_progress_kept_witness :
  answers_with (begin_demo (utc 0)) kept_db0 (BeginLease demo_lease) /\ answers_with advance_demo begun_db (MutationBatchProgressed next_lease) /\
  answers_with (begin_demo (utc 60)) advanced_db (BeginLease (mkBatchLease "n" "b" "aa" PARTIALLY_COMMITTED 1 2 [first_item] (utc 70) true)) /\
  wp (begin_demo (utc 60)) advanced_db (fun d _ => goes_on (receipts next_lease) (utc 60) d) (fun _ w3 => follows (demo_calls horizon) advanced_db w3).
Proof.
  do 3 (split; [by vm_compute|]).
  apply (django_batch_progress_kept _ _ (utc 100) "default" "n" "b" (mkFingerprint "f") 2 (utc 0) 10 demo_lease kept_db0 begun_db demo_lease first_item (utc 5) 10 next_lease
    advanced_db (utc 60) 10).
  - apply db_laws.
  - exact (db_uuid_laws _).
  - done.
  - apply (answers_after (begin_demo (utc 0))). by vm_compute.
  - done.
  - apply (answers_after advance_demo). by vm_compute.
  - done.
Defined.

Abbreviation drawn_elsewhere := (undrawn integer_of "a"%py).
Definition spent_db0 : db (demo_calls drawn_elsewhere) := batch_db0 drawn_elsewhere ltac:(done) ltac:(done).
Abbreviation begin_first := (begin (W := db (demo_calls drawn_elsewhere)) demo_batches "n" "b" (mkFingerprint "f") 2 (utc 0) 10).
Abbreviation advance_first := (advance (W := db (demo_calls drawn_elsewhere)) demo_batches demo_lease first_item (utc 5) 10).
Definition held_db := after begin_first spent_db0.
Definition settled_db := after advance_first held_db.

Lemma django_batch_lease_settles_once_witness :
  answers_with begin_first spent_db0 (BeginLease demo_lease) /\ answers_with advance_first held_db (MutationBatchProgressed next_lease) /\
  answers_with (advance demo_batches demo_lease first_item (utc 6) 10) settled_db (AdvanceStaleBatch "batch progress is stale or already complete") /\
  wp (advance demo_batches demo_lease first_item (utc 6) 10) settled_db
    (fun a w2 => a = AdvanceStaleBatch "batch progress is stale or already complete" /\ rtc (demo_calls drawn_elsewhere) (rows settled_db) (rows w2))
    (fun _ w2 => follows (demo_calls drawn_elsewhere) settled_db w2).
Proof.
  do 3 (split; [by vm_compute|]).
  refine (proj1 (django_batch_lease_settles_once _ _ "default" demo_lease first_item "unused" (utc 5) 10 held_db settled_db (db_laws _) (db_uuid_laws _) _ _ first_item "unused" (utc 6) 10)).
  - by vm_compute.
  - left. exists next_lease. apply (answers_after advance_first). by vm_compute.
Defined.
End Example.
