(* ===== verification/DjangoTransactions.v ===== *)
(** * The transactional operation ([django/transactions.py])

    One transaction that reserves an idempotency key, runs the domain mutation, records its
    receipt and outbox messages and completes the reservation; and the guarantee that an
    operation that committed is replayed and not run again. *)
From Stdlib Require Import ZArith Lia.
From stdpp Require Import base list gmap relations.
From S2P Require Import Prelude Core Maintenance Idempotency Receipts Outbox Database DatabaseModel Django DjangoIdempotency.

Record DjangoTransactionBoundary := mkBoundary { boundary_using : pystr }.

Definition DjangoTransactionBoundary_new {S} (b : DjangoTransactionBoundary) : M exn S DjangoTransactionBoundary :=
  raise_if (str_empty (boundary_using b)) (ValueError "a Django database alias is required") ;;;
  ret b.

(** [T] is the type of the values a mutation returns, with [None] for Python's [None]. *)
Inductive TransactionalOperationResult (T Meta : Type) :=
  | TransactionalOperationCommitted (value : option T) (receipt : Receipt T Meta) (outbox_messages : Z)
  | TransactionalOperationRolledBack (reason : pystr)
  | OperationDecision (d : IdempotencyDecision (option T)).
Arguments TransactionalOperationCommitted {T Meta}.
Arguments TransactionalOperationRolledBack {T Meta}.
Arguments OperationDecision {T Meta}.

Record DjangoTransactionalOperation := mkOperation { operation_using : pystr; operation_policy : IdempotencyPolicy }.

(** The [using] attributes of the stores, when they have one. *)
Definition DjangoTransactionalOperation_new {S} (o : DjangoTransactionalOperation) (domain_using : pystr)
    (idempotency receipts outbox : option pystr) : M exn S DjangoTransactionalOperation :=
  raise_if (str_empty (operation_using o) || str_empty domain_using) (ValueError "one database alias is required") ;;;
  raise_if (negb (bool_decide (([Some (operation_using o); Some domain_using; idempotency; receipts; outbox] : list (option pystr)) ⊆ [Some (operation_using o)])))
    (ValueError "domain, idempotency, receipts, and outbox must use exactly one alias") ;;;
  ret o.

Section Operation.
Context {W T Meta P : Type} `{!EqDecision T}.
Context `{!IdempotencyStore W (option T), !ReceiptStore W T Meta, !OutboxStore W P, !Atomic W, !Clock W}.

Definition terminal_receipt (value : option T) (r : Receipt T Meta) : bool :=
  bool_decide (result_ r = value) && bool_decide (state r ∈ [COMPLETED; REJECTED; CONFLICTED; UNCERTAIN]).

(** [raise _ExpectedRollback(reason)]. *)
Definition rollback {A} (reason : pystr) : M (exn + pystr) W A := raise (inr reason).

Definition add_messages (envelopes : list (OutboxEnvelope P)) : M (exn + pystr) W unit :=
  for_each envelopes tt (fun _ envelope =>
    let! r := embed (port_add (OutboxStore := _) envelope) in
    match r with OutboxAdded => ret tt | _ => rollback "outbox compare-and-set failed" end).

Definition run_operation (o : DjangoTransactionalOperation) (token : ReservationToken) (mutate : pystr -> M exn W (option T))
    (make_receipt : option T -> M exn W (Receipt T Meta)) (make_outbox : option T -> M exn W (list (OutboxEnvelope P))) :
    M (exn + pystr) W (TransactionalOperationResult T Meta) :=
  let! value := embed (mutate (operation_using o)) in
  let! receipt := embed (make_receipt value) in
  embed (raise_if (negb (terminal_receipt value receipt)) (ValueError "transactional operations require a matching terminal receipt")) ;;;
  let! added := embed (Receipts.port_add receipt) in
  (if added : bool then ret tt else rollback "receipt compare-and-set failed") ;;;
  let! envelopes := embed (make_outbox value) in
  add_messages envelopes ;;;
  let! now := embed clock_now in
  let! completed := embed (port_complete token value now (result_retention_ttl (operation_policy o))) in
  match completed with
  | ReservationCompleted _ => ret (TransactionalOperationCommitted value receipt (Z.of_nat (length envelopes)))
  | CompleteStale => rollback "idempotency compare-and-set failed"
  end.

Definition execute (o : DjangoTransactionalOperation) (scope : IdempotencyScope) (key : pystr) (fingerprint : RequestFingerprint)
    (mutate : pystr -> M exn W (option T)) (make_receipt : option T -> M exn W (Receipt T Meta)) (make_outbox : option T -> M exn W (list (OutboxEnvelope P))) :
    M exn W (TransactionalOperationResult T Meta) :=
  let! now := clock_now in
  catch
    (atomic
      (let! decision := embed (port_reserve scope key fingerprint now (execution_lease_ttl (operation_policy o))) in
       match decision with
       | Execute token => run_operation o token mutate make_receipt make_outbox
       | d => ret (OperationDecision d)
       end))
    (fun reason => ret (TransactionalOperationRolledBack reason)).
End Operation.

(** ** An operation that committed is replayed *)

Section Once.
Context {W T Meta P : Type} `{!EqDecision T}.
Context `{!Orm id idempotency_row W, !Session id idempotency_row W, !Atomic W, !Uuid W, !Connections}.
Variable encode_value : option T -> result exn json.
Variable decode_value : json -> result exn (option T).
Variable alias : pystr.
#[local] Instance django_port : IdempotencyStore W (option T) := django_idempotency_port (model_store encode_value decode_value alias).

(** The other sessions' tokens, and an instant their clocks stay before. *)
Variable foreign : ReservationToken -> Prop.
Variable t : Z.
Context `{!OrmLaws (others foreign t), !UuidLaws}.

(** The rows of a transaction that reserved with a token nobody else has. *)
Record reserving (token : ReservationToken) (i : id) (fp : RequestFingerprint) (w : W) : Prop := {
  reserving_sole : sole token i fp (rows w);
  reserving_base : unused token (base w)
}.

Lemma reserving_follows token i fp w w' : ~ foreign token -> reserving token i fp w -> follows (others foreign t) w w' -> reserving token i fp w'.
Proof.
  intros Hf [Hs Hb] [Hsees _]. assert (unused token (base w')) as Hb' by (eapply (unused_kept foreign token t Hf); [apply Hsees|done]).
  split; [|done]. intros j r Hr Ht. destruct (decide (j ∈ held w)) as [Hj|Hj].
  - eapply Hs; [|done]. by rewrite <- (proj2 (sees_locked _ _ _ Hsees j Hj)).
  - exfalso. apply (Hb' j r); [|done]. rewrite <- Hr. symmetry. by apply (sees_clean _ _ _ Hsees), (run_clean (others foreign t)).
Qed.

(** At every later instant the token's one row is this reservation. *)
Lemma reserving_instant token i fp w T1 : ~ foreign token -> reserving token i fp w -> instant (others foreign t) w T1 -> sole token i fp T1.
Proof.
  intros Hf [Hs Hb] (B & HB & _ & ->) j r Hr Ht. rewrite overlay_lookup in Hr. case_decide; [by eapply Hs|].
  exfalso. by eapply (unused_kept foreign token t Hf _ B HB Hb).
Qed.

Lemma reserve_reserving token scope key fp now ttl w w' : nesting w <> 0%nat ->
  (drawn (W := W) token -> ~ foreign token /\ unused token (rows w) /\ unused token (base w)) ->
  port_reserve (IdempotencyStore := django_port) scope key fp now ttl w = (Ok (Execute token), w') ->
  ~ foreign token /\ reserving token (scope, key) fp w' /\ nesting w' = nesting w.
Proof.
  intros Hn Hfresh Hrun. pose proof (reserve_linearizes (others foreign t) encode_value decode_value alias scope key fp now ttl w) as Hl.
  unfold linearizes, wp in Hl. cbn in Hrun. rewrite Hrun in Hl. destruct Hl as ([Hn' Hg] & T1 & (B & HB & _ & ->) & Hs).
  destruct (Hfresh (reservation_drawn _ _ _ _ _ _ _ _ _ Hs)) as (Hf & Hr & Hb). destruct (Hg Hn) as [Hbase _]. split_and!; [done| |done]. split.
  - eapply reservation_is_sole; [|exact Hs]. intros j r Hj Ht. rewrite overlay_lookup in Hj. case_decide; [by eapply Hr|].
    by eapply (unused_kept foreign token t Hf _ B HB Hb).
  - by eapply (unused_kept foreign token t Hf).
Qed.

Context `{!ReceiptStore W T Meta, !OutboxStore W P, !Clock W}.
(** The earliest reading of this session's clock. *)
Variable lo : Z.
Hypothesis Hreceipts : forall r, aside (others foreign t) (Receipts.port_add r).
Hypothesis Houtbox : forall e, aside (others foreign t) (Outbox.port_add e).
Hypothesis Hclock : forall w, wp clock_now w (fun now w' => follows (others foreign t) w w' /\ lo <= dt_instant now < t) (fun _ _ => False).

Lemma complete_records token i fp value now ttl w until w' : ~ foreign token -> reserving token i fp w -> 
  port_complete (IdempotencyStore := django_port) token value now ttl w = (Ok (ReservationCompleted until), w') ->
  dt_add now ttl = Ok until /\ exists encoded, encode_value value = Ok encoded /\ recorded token i fp encoded until (rows w') /\ nesting w' = nesting w.
Proof.
  intros Hf Hres Hrun. pose proof (complete_linearizes (others foreign t) encode_value decode_value alias token value now ttl w) as Hl.
  unfold linearizes, wp in Hl. cbn in Hrun. rewrite Hrun in Hl. destruct Hl as ([Hn _] & T1 & HT & encoded & u & Henc & Hu & Hans & Hrows).
  destruct (stale _ T1) eqn:Hst; [done|]. injection Hans as ->. split; [done|]. exists encoded. split; [done|]. split; [|done].
  rewrite Hrows. apply completion_records; [|done]. by eapply reserving_instant.
Qed.

(** One step beside the store, in a transaction that reserved. *)
Lemma step_aside {E A B} token i fp (m : M exn W A) (f : A -> M (exn + E) W B) w Q : ~ foreign token -> aside (others foreign t) m -> reserving token i fp w -> nesting w <> 0%nat ->
  (forall a w', reserving token i fp w' -> nesting w' <> 0%nat -> wp (f a) w' Q (fun _ _ => True)) ->
  wp (bind (embed m) f) w Q (fun _ _ => True).
Proof.
  intros Hf Hm Hres Hn Hrest. apply db_bind, wp_embed. eapply db_mono; [apply Hm| |auto]. intros a w' Hw.
  apply Hrest; [by eapply reserving_follows|]. by rewrite (proj2 Hw).
Qed.

Lemma step_checked {E A B} token i fp (m : M (exn + E) W A) (f : A -> M (exn + E) W B) w Q :
  wp m w (fun _ w' => reserving token i fp w' /\ nesting w' <> 0%nat) (fun _ _ => True) ->
  (forall a w', reserving token i fp w' -> nesting w' <> 0%nat -> wp (f a) w' Q (fun _ _ => True)) ->
  wp (bind m f) w Q (fun _ _ => True).
Proof. intros Hm Hrest. apply db_bind. eapply db_mono; [exact Hm| |auto]. intros a w' [? ?]. auto. Qed.

Lemma messages_aside token i fp envelopes w : ~ foreign token -> reserving token i fp w -> nesting w <> 0%nat ->
  wp (add_messages envelopes) w (fun _ w' => reserving token i fp w' /\ nesting w' <> 0%nat) (fun _ _ => True).
Proof.
  intros Hf. unfold add_messages. revert w. induction envelopes as [|e l IH]; intros w Hres Hn; [by apply wp_ret|]. cbn.
  eapply step_checked; [|intros [] w' ? ?; by apply IH].
  eapply step_aside; [done|apply Houtbox|done|done|]. intros [] w' Hres' Hn'; [by apply wp_ret|by apply db_raise].
Qed.

(** The rest of an operation whose reservation was granted. *)
Lemma operation_records o token i fp mutate make_receipt make_outbox w : ~ foreign token -> reserving token i fp w -> nesting w <> 0%nat ->
  (forall a, aside (others foreign t) (mutate a)) -> (forall v, aside (others foreign t) (make_receipt v)) -> (forall v, aside (others foreign t) (make_outbox v)) ->
  wp (run_operation (IdempotencyStore0 := django_port) o token mutate make_receipt make_outbox) w
    (fun r w' => match r with
       | TransactionalOperationCommitted value _ _ => exists encoded until, encode_value value = Ok encoded /\
           lo + result_retention_ttl (operation_policy o) <= dt_instant until /\ recorded token i fp encoded until (rows w')
       | _ => False
       end) (fun _ _ => True).
Proof.
  intros Hf Hres Hn Hm Hr Ho. unfold run_operation.
  eapply step_aside; [done|apply Hm|done|done|]. intros value w1 Hres1 Hn1.
  eapply step_aside; [done|apply Hr|done|done|]. intros receipt w2 Hres2 Hn2.
  apply (step_checked token i fp); [by apply wp_embed, db_raise_if|]. intros _ w3 Hres3 Hn3.
  eapply step_aside; [done|apply Hreceipts|done|done|]. intros added w4 Hres4 Hn4.
  apply (step_checked token i fp); [destruct added; [by apply wp_ret|by apply db_raise]|]. intros _ w5 Hres5 Hn5.
  eapply step_aside; [done|apply Ho|done|done|]. intros envelopes w6 Hres6 Hn6.
  apply (step_checked token i fp); [by apply messages_aside|]. intros _ w7 Hres7 Hn7.
  apply db_bind, wp_embed. eapply db_mono; [apply Hclock| |done]. intros now w8 [Hw8 Hnow].
  apply (reserving_follows token i fp w7 w8 Hf Hres7) in Hw8. 
  apply db_bind, wp_embed. unfold wp. destruct (port_complete token value now _ w8) as [[[until|]|e] w9] eqn:Hc; [|done|done].
  eapply complete_records in Hc as (Hu & encoded & Henc & Hrec & _); [|done|done]. cbn. exists encoded, until. split_and!; [done| |done].
  apply dt_add_ok in Hu as [-> _]. lia.
Qed.

Abbreviation operation := (execute (IdempotencyStore0 := django_port) (Meta := Meta) (P := P)).

(** What a transaction that committed left in the table. *)
Definition operation_recorded (o : DjangoTransactionalOperation) (i : id) (fp : RequestFingerprint) (value : option T) (T1 : table) : Prop :=
  exists token encoded until, ~ foreign token /\ encode_value value = Ok encoded /\
    lo + result_retention_ttl (operation_policy o) <= dt_instant until /\ recorded token i fp encoded until T1.

Lemma operation_commits o scope key fp mutate make_receipt make_outbox w : nesting w = 0%nat ->
  (forall token, drawn (W := W) token -> ~ foreign token /\ unused token (rows w)) ->
  (forall a, aside (others foreign t) (mutate a)) -> (forall v, aside (others foreign t) (make_receipt v)) -> (forall v, aside (others foreign t) (make_outbox v)) ->
  wp (operation o scope key fp mutate make_receipt make_outbox) w
    (fun r w' => match r with
       | TransactionalOperationCommitted value _ _ => nesting w' = 0%nat /\ operation_recorded o (scope, key) fp value (rows w')
       | _ => True
       end) (fun _ _ => True).
Proof.
  intros Hn Hfresh Hm Hr Ho. unfold execute. apply db_bind. eapply db_mono; [apply Hclock| |done]. intros now w1 [Hf1 _].
  apply wp_catch, (wp_atomic (others foreign t)). intros w2 He2. pose proof (entered_nesting _ _ He2) as Hn2.
  apply db_bind, wp_embed. unfold wp at 1. destruct (port_reserve scope key fp now _ w2) as [[d|e] w3] eqn:Hres; [|done].
  destruct d as [token| | | |]; try (by apply wp_ret).
  assert (base w2 = rows w2 /\ rtc (others foreign t) (rows w) (rows w2)) as [Hclean Hreach].
  { rewrite (entered_rows _ _ He2), (entered_base _ _ He2), (all_clean (others foreign t) w Hn), (all_clean (others foreign t) w1) by (by rewrite (proj2 Hf1)). split; [done|apply Hf1]. }
  apply reserve_reserving in Hres as (Hf & Hres & Hn3); [|lia|].
  2: { intros [Hnf Hu]%Hfresh. rewrite Hclean. split; [done|]. assert (unused token (rows w2)) by (by eapply (unused_kept foreign token t Hnf)). done. }
  eapply db_mono; [eapply operation_records; [done|exact Hres|lia|done..]| |].
  - intros r w4 Hpost w5 Hl. destruct r as [value receipt n|reason|d]; [|done|done]. destruct Hpost as (encoded & until & Henc & Hle & Hrec).
    split; [by rewrite (left_nesting _ _ _ Hl), (proj2 Hf1)|]. exists token, encoded, until. by rewrite (left_rows _ _ _ Hl).
  - intros [e|reason] w4 _ w5 _; [done|by apply wp_ret].
Qed.

(** C2. A transactional operation that committed is replayed, and not run again, while its
    result is retained: after [execute] committed a value under an identity, every later
    [execute] of the identity with the same fingerprint, while the clocks read less than the
    retention of the result, answers [Replay] of the recorded value whatever its mutation,
    receipt and outbox callbacks are, or raises what the reservation raises and leaves the rows
    to the others; and this holds among any calls of other sessions. The mutations and the receipt and outbox stores work on other tables,
    and this session's tokens are its own. *)
Theorem django_operation_once o scope key fp mutate make_receipt make_outbox w0 value receipt n w1 o2 mutate2 make_receipt2 make_outbox2 :
  nesting w0 = 0%nat -> (forall token, drawn (W := W) token -> ~ foreign token /\ unused token (rows w0)) ->
  (forall a, aside (others foreign t) (mutate a)) -> (forall v, aside (others foreign t) (make_receipt v)) -> (forall v, aside (others foreign t) (make_outbox v)) ->
  operation o scope key fp mutate make_receipt make_outbox w0 = (Ok (TransactionalOperationCommitted value receipt n), w1) ->
  t <= lo + result_retention_ttl (operation_policy o) ->
  wp (operation o2 scope key fp mutate2 make_receipt2 make_outbox2) w1
    (fun r _ => exists encoded replayed, encode_value value = Ok encoded /\ decode_value encoded = Ok replayed /\ r = OperationDecision (Replay (Some replayed)))
    (fun e w2 => follows (others foreign t) w1 w2 /\
       exists now, request_raises encode_value decode_value alias (ReserveRequest scope key fp now (execution_lease_ttl (operation_policy o2))) e).
Proof.
  intros Hn Hfresh Hm Hr Ho Hrun Ht. pose proof (operation_commits o scope key fp mutate make_receipt make_outbox w0 Hn Hfresh Hm Hr Ho) as Hwp.
  unfold wp in Hwp. rewrite Hrun in Hwp. destruct Hwp as (Hn1 & token & encoded & until & Hf & Henc & Huntil & Hrec). clear Hrun.
  unfold execute. apply db_bind. eapply db_mono; [apply Hclock| |done]. intros now w2 [Hf2 Hnow].
  apply wp_catch, (wp_atomic (others foreign t)). intros w3 He3. apply db_bind, wp_embed.
  assert (nesting w2 = 0%nat) as Hn2 by (by rewrite (proj2 Hf2)).
  eapply db_mono; [apply (reserve_linearizes (others foreign t) encode_value decode_value)| |].
  - intros d w4 (_ & T1 & HT & Hs). apply (entered_instant (others foreign t) w2 w3), (instant_top (others foreign t)) in HT; [|done|done].
    assert (recorded token (scope, key) fp encoded until T1) as HrecT.
    { eapply (recorded_kept foreign token t Hf); [lia| |exact Hrec]. etrans; [|exact HT].
      rewrite (all_clean (others foreign t) w1 Hn1), (all_clean (others foreign t) w2 Hn2). apply Hf2. }
    assert (dt_ltb now until = true) as Hlt by (unfold dt_ltb; lia).
    destruct (recorded_replays _ _ _ _ _ _ _ _ _ _ _ _ Hlt HrecT Hs) as (_ & replayed & Hdec & ->).
    apply wp_ret. intros w5 _. by exists encoded, replayed.
  - intros e w4 [_ He] w5 Hf5. split; [by eapply (follows_trans (others foreign t))|]. by exists now.
Qed.
End Once.

(** ** A concrete operation, among another session's reservations of the same identity. *)

Section Example.
#[local] Existing Instance unary_uuid.
#[local] Existing Instance unary_uuid_laws.
#[local] Instance operation_postgresql : Connections := fun _ => "postgresql"%py.

Definition their_token (token : ReservationToken) : Prop := token_value token = "z"%py.
Abbreviation their_calls := (others their_token 100).
Abbreviation op_db := (db their_calls).

Definition their_call (c : call) (Hc : their_token (token_of c)) (Hnow : dt_instant (clock_of c) < 100) :
    { f : table -> table | forall T, their_calls T (f T) } :=
  exist _ (apply_call c) (fun T => ex_intro _ c (conj Hc (conj Hnow eq_refl))).

Definition op_scope : IdempotencyScope := mkScope "n" "s" "o".
Definition op_db0 : op_db :=
  mkDb _ ∅ ∅ ∅ 0 0
    [their_call (CallReserve (op_scope, "other")%py (mkFingerprint "g") (utc 1) (utc 50) (mkToken "z")) eq_refl eq_refl;
     their_call (CallReserve (op_scope, "k")%py (mkFingerprint "g") (utc 1) (utc 50) (mkToken "z")) eq_refl eq_refl;
     their_call (CallRenew (mkToken "z") (utc 10) (utc 60)) eq_refl eq_refl;
     their_call (CallReserve (op_scope, "k")%py (mkFingerprint "f") (utc 99) (utc 140) (mkToken "z")) eq_refl eq_refl].

Definition write_optional (v : option Z) : result exn json := Ok (match v with Some n => JInt n | None => JNull end).
Definition read_optional (j : json) : result exn (option Z) :=
  match j with JInt n => Ok (Some n) | JNull => Ok None | _ => Raise (ValueError "not an integer") end.

(** Receipts and messages are accepted by stores on other tables. *)
#[local] Instance op_receipts : ReceiptStore op_db Z pystr := {|
  port_get := fun _ => ret None; Receipts.port_add := fun _ => ret true; port_transition := fun _ _ => ret false; port_reconcile_uncertain := fun _ _ => ret false
|}.
#[local] Instance op_outbox : OutboxStore op_db unit := {|
  Outbox.port_add := fun _ => ret OutboxAdded; port_claim := fun _ _ _ => ret []; port_delivered := fun _ _ => ret true; Outbox.port_retry := fun _ _ => ret true; port_failed := fun _ _ _ => ret true
|}.
#[local] Instance op_clock : Clock op_db := ret (utc 5).

Definition op : DjangoTransactionalOperation := mkOperation "default" (mkPolicy 60 100 100).
Definition op_receipt (v : option Z) : Receipt Z pystr := mkReceipt true (mkOpaqueId "r") OPERATION COMPLETED (utc 5) (utc 5) v ∅.
Abbreviation op_execute v :=
  (execute (W := op_db) (T := Z) (IdempotencyStore0 := django_port write_optional read_optional "default") (P := unit) op op_scope "k" (mkFingerprint "f")
    (fun _ => ret (Some v%Z)) (fun x => ret (op_receipt x)) (fun _ => ret [])).
Definition op_db1 : op_db := after (op_execute 7) op_db0.


Lemma op_token token : drawn (W := op_db) token -> ~ their_token token /\ unused token (rows op_db0).
Proof.
  intros (_ & w & w' & Hd). split.
  - unfold their_token. injection Hd as Hd _. rewrite <- Hd. unfold uuid4_hex, unary_uuid. by destruct (db_draws _ w).
  - intros j r Hr. assert (rows op_db0 = ∅) as He by (by vm_compute). by rewrite He in Hr.
Qed.
Lemma op_aside {A} (a : A) : aside (W := op_db) their_calls (ret a).
Proof. intros w. apply wp_ret, follows_refl. Qed.

Lemma django_operation_once_witness :
  answers_with (op_execute 7) op_db0 (TransactionalOperationCommitted (Some 7) (op_receipt (Some 7)) 0) /\
  answers_with (op_execute 8) op_db1 (OperationDecision (Replay (Some (Some 7)))) /\
  wp (op_execute 8) op_db1
    (fun r _ => exists encoded replayed, write_optional (Some 7) = Ok encoded /\ read_optional encoded = Ok replayed /\ r = OperationDecision (Replay (Some replayed)))
    (fun e w2 => follows their_calls op_db1 w2 /\
       exists now, request_raises (W := op_db) write_optional read_optional "default" (ReserveRequest op_scope "k" (mkFingerprint "f") now 60) e).
Proof.
  split; [by vm_compute|]. split; [by vm_compute|].
  apply (django_operation_once write_optional read_optional "default" their_token 100 (P := unit) 5) with (o := op) (w0 := op_db0)
    (mutate := fun _ => ret (Some 7)) (make_receipt := fun v => ret (op_receipt v)) (make_outbox := fun _ => ret []) (value := Some 7)
    (receipt := op_receipt (Some 7)) (n := 0).
  all: try (intros; apply op_aside).
  - intros w. apply wp_ret. split; [apply follows_refl|done].
  - done.
  - exact op_token.
  - apply (answers_after (op_execute 7)). by vm_compute.
  - done.
Defined.
End Example.
