(* ===== verification/DjangoMaintenance.v ===== *)
(** * Retention maintenance of the Django stores ([django/maintenance.py])

    Purges that lock a bounded batch of rows and delete exactly those, the archival of failed
    messages before their deletion, and the check of the indexes behind the filters. *)
From Stdlib Require Import ZArith Lia.
From stdpp Require Import base list gmap relations.
From S2P Require Import Prelude Core Maintenance Idempotency Inbox Outbox Database DatabaseModel Django DjangoOutbox DjangoReceipts DjangoBatches DjangoIdempotency DjangoInbox.

(** [DjangoRetentionMaintenance.__init__]. *)
Definition DjangoRetentionMaintenance_new {S} (using_ : pystr) : M exn S pystr :=
  raise_if (str_empty using_) (ValueError "an explicit database alias is required") ;;;
  ret using_.

(** ** Selecting and deleting *)

Section Delete.
Context {K R W : Type} `{Countable K} `{!Orm K R W, !Atomic W, !Connections}.
Variable using_ : pystr.
(** The order of the primary keys of two rows. *)
Variable pk_leb : K -> K -> bool.

Definition _postgresql : M exn W unit :=
  raise_if (negb (bool_decide (vendor using_ = "postgresql"%py))) (ValueError "Django maintenance requires an explicit PostgreSQL database alias").

(** [order_by( *columns, "pk")]: ascending, nulls last. *)
Fixpoint ordered (columns : list (R -> option datetime)) (a b : K * R) : bool :=
  match columns with
  | [] => pk_leb a.1 b.1
  | column :: columns =>
      match column a.2, column b.2 with
      | Some x, Some y => dt_ltb x y || (dt_leb x y && ordered columns a b)
      | Some _, None => true
      | None, Some _ => false
      | None, None => ordered columns a b
      end
  end.

Definition _delete_selected (found : list (K * R)) (dry : bool) : M exn W MaintenanceSummary :=
  let n := Z.of_nat (length found) in
  if dry || bool_decide (found = []) then MaintenanceSummary_new n 0 dry
  else
    let! _ := delete_where (fun k _ => bool_decide (k ∈ found.*1)) in
    MaintenanceSummary_new n n false.

Definition _delete (filters : K -> R -> bool) (columns : list (R -> option datetime)) (plan : MaintenancePlan) : M exn W MaintenanceSummary :=
  _postgresql ;;;
  atomic
    (let! found := locked_query filters (ordered columns) (batch_size plan) in
     _delete_selected found (dry_run plan)).
End Delete.

(** [state__in=states], and [column__lte=cutoff], which a null column fails. *)
Definition state_in (states : list pystr) (s : pystr) : bool := bool_decide (s ∈ states).
Definition until_cutoff (plan : MaintenancePlan) (column : option datetime) : bool :=
  match column with Some t => dt_leb t (cutoff plan) | None => false end.
(** The states of a plan, and those it adds when it includes uncertain rows. *)
Definition with_uncertain (plan : MaintenancePlan) (states : list pystr) : list pystr :=
  if include_uncertain plan then states ++ ["uncertain"%py] else states.

Section Purges.
Context {W : Type} `{!Atomic W, !Connections}.
Variable using_ : pystr.

Definition idempotency_filter (plan : MaintenancePlan) (_ : IdempotencyScope * pystr) (row : idempotency_row) : bool :=
  state_in (with_uncertain plan ["reserved"; "completed"]%py) (DjangoIdempotency.row_state row) && until_cutoff plan (Some (row_expires_at row)).
Definition purge_idempotency `{!Orm (IdempotencyScope * pystr) idempotency_row W} pk_leb (plan : MaintenancePlan) : M exn W MaintenanceSummary :=
  _delete using_ pk_leb (idempotency_filter plan) [fun row => Some (row_expires_at row)] plan.

Definition purge_replay `{!Orm (pystr * pystr) datetime W} pk_leb (plan : MaintenancePlan) : M exn W MaintenanceSummary :=
  _delete using_ pk_leb (fun _ expires_at => until_cutoff plan (Some expires_at)) [Some] plan.

Definition batch_filter (plan : MaintenancePlan) (_ : batch_key) (row : batch_row) : bool :=
  state_in (with_uncertain plan ["completed"%py]) (DjangoBatches.row_state row) && until_cutoff plan (row_retention row).
Definition purge_mutation_batches `{!Orm batch_key batch_row W} pk_leb (plan : MaintenancePlan) : M exn W MaintenanceSummary :=
  _delete using_ pk_leb (batch_filter plan) [row_retention] plan.

Definition inbox_filter (plan : MaintenancePlan) (_ : inbox_key) (row : inbox_row) : bool :=
  match row_completed row with
  | Some completed_at => dt_leb completed_at (cutoff plan)
  | None => dt_leb (row_until row) (cutoff plan)
  end.
Definition purge_inbox `{!Orm inbox_key inbox_row W} pk_leb (plan : MaintenancePlan) : M exn W MaintenanceSummary :=
  _postgresql using_ ;;;
  atomic
    (let! found := locked_query (inbox_filter plan) (ordered pk_leb [row_completed; fun row => Some (row_until row)]) (batch_size plan) in
     _delete_selected found (dry_run plan)).

Definition receipt_filter (plan : MaintenancePlan) (_ : pystr) (row : receipt_row) : bool :=
  state_in (with_uncertain plan ["completed"; "rejected"; "conflicted"]%py) (row_receipt_state row) && until_cutoff plan (Some (DjangoReceipts.row_changed_at row)).
Definition purge_receipts `{!Orm pystr receipt_row W} pk_leb (plan : MaintenancePlan) : M exn W MaintenanceSummary :=
  _delete using_ pk_leb (receipt_filter plan) [fun row => Some (DjangoReceipts.row_changed_at row)] plan.

Definition purge_delivered_outbox `{!Orm pystr json_row W} pk_leb (plan : MaintenancePlan) : M exn W MaintenanceSummary :=
  _delete using_ pk_leb (fun _ row => until_cutoff plan (row_delivered_at row)) [row_delivered_at] plan.

Definition archive_filter (plan : MaintenancePlan) (_ : pystr) (row : json_row) : bool :=
  negb (bool_decide (row_failure row = None)) && until_cutoff plan (row_failed_at row).

(** The records of the rows selected. *)
Section Archive.
Context {P : Type} (decode_payload : json -> result exn P) (archive : list (FailedOutboxEnvelope P) -> M exn W unit).

Definition failed_record (kr : pystr * json_row) : M exn W (FailedOutboxEnvelope P) :=
  let! e := _outbox_envelope decode_payload kr.1 kr.2 in
  FailedOutboxEnvelope_new e (default "" (row_failure kr.2)) (default (utc 0) (row_failed_at kr.2)).
Definition failed_records (found : list (pystr * json_row)) : M exn W (list (FailedOutboxEnvelope P)) :=
  for_each found [] (fun records kr => let! record := failed_record kr in ret (records ++ [record])).

Definition archive_failed_outbox `{!Orm pystr json_row W} pk_leb (plan : MaintenancePlan) : M exn W MaintenanceSummary :=
  _postgresql using_ ;;;
  atomic
    (let! found := locked_query (archive_filter plan) (ordered pk_leb [row_failed_at]) (batch_size plan) in
     (if negb (dry_run plan) && negb (bool_decide (found = []))
      then
        let! records := failed_records found in
        archive records
      else ret tt) ;;;
     _delete_selected found (dry_run plan)).
End Archive.
End Purges.

(** ** The index check *)

(** What the check reads of a model: its label, its fields with [db_index or unique], and the
    fields of its indexes. *)
Record index_model := mkIndexModel { label : pystr; index_fields : list (pystr * bool); indexes : list (list pystr) }.

Record RetentionIndexModels := mkRetentionIndexModels {
  idempotency_model : option index_model; batches_model : option index_model; replay_model : option index_model;
  inbox_model : option index_model; receipts_model : option index_model; outbox_model : option index_model
}.

Definition prefixes (fields : list pystr) : list (list pystr) := map (fun n => take n fields) (seq 1 (length fields)).
Definition _index_prefixes (m : index_model) : gset (list pystr) :=
  list_to_set (map (fun f => [f.1]) (List.filter snd (index_fields m)) ++ concat (map prefixes (indexes m))).

Definition requirements (models : RetentionIndexModels) : list (option index_model * list (list pystr)) := [
  (idempotency_model models, [["state"; "expires_at"]]);
  (batches_model models, [["state"; "retention_expires_at"]]);
  (replay_model models, [["expires_at"]]);
  (inbox_model models, [["completed_at"]; ["expires_at"]]);
  (receipts_model models, [["state"; "updated_at"]]);
  (outbox_model models, [["delivered_at"]; ["failed_at"]])
]%py.

(** A [Warning] pytitect.W001 about a model. *)
Record index_warning := mkIndexWarning { warning_message : pystr; warning_model : index_model }.
Definition index_warning_of (m : index_model) (fields : list pystr) : index_warning :=
  mkIndexWarning (str_app (label m) (str_app " has no retention index beginning with (" (str_app (str_join ", " fields) ")."))) m.

(** [check] of [build_retention_index_check(models)]. *)
Definition retention_index_check (models : RetentionIndexModels) : list index_warning :=
  concat (map (fun requirement => match requirement with
    | (None, _) => []
    | (Some m, expected) => map (index_warning_of m) (List.filter (fun fields => negb (bool_decide (fields ∈ _index_prefixes m))) expected)
    end) (requirements models)).

(** ** What a purge removes *)

Section Exact.
Context {K R W : Type} `{Countable K} `{!Orm K R W, !Session K R W, !Atomic W, !Connections}.
Context (rely : relation (gmap K R)) `{!OrmLaws rely}.
Variable using_ : pystr.
Variable pk_leb : K -> K -> bool.

(** The rows [found] were selected on the rows [T]; the summary counts them, and exactly they
    are gone, unless the run was dry. *)
Record purged (p : K -> R -> bool) (plan : MaintenancePlan) (found : list (K * R)) (T : gmap K R) (s : MaintenanceSummary) (T' : gmap K R) : Prop := {
  purged_distinct : NoDup found.*1;
  purged_selected : forall kr, kr ∈ found -> T !! kr.1 = Some kr.2 /\ p kr.1 kr.2 = true;
  purged_bounded : Z.of_nat (length found) <= Z.max 0 (batch_size plan);
  purged_summary : s = mkMaintenanceSummary (Z.of_nat (length found)) (if dry_run plan then 0 else Z.of_nat (length found)) (dry_run plan);
  purged_rows : forall k, T' !! k = if dry_run plan then T !! k else if bool_decide (k ∈ found.*1) then None else T !! k
}.

Lemma summary_run n m dry (w : W) (Q : MaintenanceSummary -> W -> Prop) (X : exn -> W -> Prop) : 0 <= m <= n -> (dry = true -> m = 0) ->
  Q (mkMaintenanceSummary n m dry) w -> wp (MaintenanceSummary_new n m dry) w Q X.
Proof.
  intros Hm Hdry HQ. apply db_bind, db_raise_if; [intros _|rewrite !orb_true_iff, !Z.ltb_lt; lia].
  apply db_bind, db_raise_if; [intros _; by apply wp_ret|]. destruct dry; [by rewrite (Hdry eq_refl)|done].
Qed.

Lemma delete_selected_run p plan found w0 w : nesting w <> 0%nat -> sees rely w0 w -> NoDup found.*1 ->
  (forall kr, kr ∈ found -> rows w !! kr.1 = Some kr.2 /\ p kr.1 kr.2 = true) -> (forall k, k ∈ found.*1 -> k ∈ held w) ->
  Z.of_nat (length found) <= Z.max 0 (batch_size plan) ->
  wp (_delete_selected found (dry_run plan)) w (fun s w' => grew rely w0 w' /\ exists T, instant rely w0 T /\ purged p plan found T s (rows w')) (fun e _ => failure e).
Proof.
  intros Hn Hs Hnd Hin Hlock Hlen. unfold _delete_selected. destruct (dry_run plan || bool_decide (found = [])) eqn:Hskip.
  - apply summary_run; [lia|done|]. split; [by apply grew_sees|]. exists (rows w). split; [by apply (sees_instant rely)|].
    destruct (dry_run plan) eqn:Hdry; [split; rewrite ?Hdry; done|]. apply bool_decide_eq_true in Hskip as ->. split; rewrite ?Hdry; done.
  - apply orb_false_iff in Hskip as [Hdry _]. apply db_bind, (wp_delete_where rely); [|done].
    intros w1 w2 [Hs1 Hn1] Hw. apply summary_run; [lia|done|]. rewrite <- Hdry.
    split; [eapply grew_trans; [by apply grew_sees|eapply grew_trans; [by apply grew_sees|eapply grew_wrote; [done|congruence]]]|].
    exists (rows w1). split; [apply (sees_instant rely); by eapply sees_trans|]. split; [done| |done|by rewrite Hdry|].
    + intros kr Hkr. destruct (Hin kr Hkr) as [Hr Hp]. split; [|done].
      by rewrite (proj2 (sees_locked rely _ _ Hs1 _ (Hlock kr.1 ltac:(by apply list_elem_of_fmap_2)))).
    + intros k. rewrite (wrote_rows _ _ _ Hw), deleted_lookup, Hdry. destruct (rows w1 !! k); by case_bool_decide.
Qed.

Lemma delete_linearizes p columns plan w :
  linearizes rely (_delete using_ pk_leb p columns plan) w (fun T s T' => exists found, purged p plan found T s T')
    (fun e => failure e \/ e = ValueError "Django maintenance requires an explicit PostgreSQL database alias").
Proof.
  apply (linearizes_check rely); [by right|intros _]. apply (linearizes_atomic rely). intros w0 Hn.
  apply db_bind, (wp_locked_query rely); [|by left]. intros found w1 [Hs1 Hn1] Hnd Hin Hlock Hlen.
  eapply db_mono; [apply (delete_selected_run p plan found w0); [congruence|done|done|done|by apply Hlock|done]| |by left].
  intros s w2 (Hg & T & HT & Hp). split; [done|]. exists T. split; [done|]. by exists found.
Qed.
End Exact.

(** C28. A purge deletes exactly what it reports: the rows that are gone are rows its filter
    selected, distinct and at most [batch_size], the summary counts them, every other row of
    that instant is as it was, and a dry run deletes nothing; a purge that raises leaves the
    rows as the others left them. *)
Theorem django_purge_exact {K R W} `{Countable K} `{!Orm K R W, !Session K R W, !Atomic W, !Connections}
    (rely : relation (gmap K R)) `{!OrmLaws rely} using_ pk_leb filters columns plan (w : W) :
  wp (_delete using_ pk_leb filters columns plan) w
    (fun s w' => exists T found, instant rely w T /\ NoDup found.*1 /\ Z.of_nat (length found) <= Z.max 0 (batch_size plan) /\
       (forall k row, (k, row) ∈ found -> T !! k = Some row /\ filters k row = true) /\
       s = mkMaintenanceSummary (Z.of_nat (length found)) (if dry_run plan then 0 else Z.of_nat (length found)) (dry_run plan) /\
       (dry_run plan = true -> rows w' = T) /\
       (dry_run plan = false -> forall k, rows w' !! k = if bool_decide (k ∈ found.*1) then None else T !! k))
    (fun e w' => follows rely w w').
Proof.
  eapply db_mono; [apply (delete_linearizes rely)| |by intros e w' [? _]]. intros s w' (_ & T & HT & found & [Hnd Hin Hlen Hsum Hrows]).
  exists T, found. split_and!; [done..|intros k row; apply (Hin (k, row))|done| |].
  - intros Hdry. apply map_eq. intros k. by rewrite Hrows, Hdry.
  - intros Hdry k. by rewrite Hrows, Hdry.
Qed.

(** A purge of reservations keeps those that have not expired, and uncertain ones unless the
    plan includes them. *)
Lemma purge_idempotency_keeps {W} `{!Orm (IdempotencyScope * pystr) idempotency_row W, !Session (IdempotencyScope * pystr) idempotency_row W, !Atomic W, !Connections}
    rely `{!OrmLaws rely} using_ pk_leb plan (w : W) :
  linearizes rely (purge_idempotency using_ pk_leb plan) w
    (fun T s T' => forall k row, T !! k = Some row ->
       dt_ltb (cutoff plan) (row_expires_at row) = true \/ DjangoIdempotency.row_state row = "uncertain"%py /\ include_uncertain plan = false -> T' !! k = Some row)
    (fun e => failure e \/ e = ValueError "Django maintenance requires an explicit PostgreSQL database alias").
Proof.
  eapply (linearizes_mono rely); [apply (delete_linearizes rely)|]. intros T s T' (found & [_ Hin _ _ Hrows]) k row Hk Hlive.
  rewrite Hrows. destruct (dry_run plan); [done|]. case_bool_decide as Hf; [|done]. exfalso.
  apply list_elem_of_fmap in Hf as ([k' row'] & -> & Hf). destruct (Hin _ Hf) as [Hr Hp]. cbn in *. assert (row' = row) as -> by congruence.
  unfold idempotency_filter, until_cutoff, state_in, with_uncertain in Hp. apply andb_true_iff in Hp as [Hstate Hcut]. apply bool_decide_eq_true in Hstate.
  destruct Hlive as [Hlive|[Hlive Hinc]]; [time_facts; lia|]. rewrite Hlive, Hinc in Hstate. set_solver.
Qed.

(** ** The archival *)

Section Archival.
Context {W P : Type} `{!Orm pystr json_row W, !Session pystr json_row W, !Atomic W, !Connections}.
Context (rely : relation outbox_table) `{!OrmLaws rely}.
Variable decode_payload : json -> result exn P.

(** The record of a row. *)
Definition record_of (record : FailedOutboxEnvelope P) (kr : pystr * json_row) : Prop :=
  opaque_value (message_id (failed_envelope record)) = kr.1 /\ decode_payload (row_payload kr.2) = Ok (payload (failed_envelope record)) /\
  Some (failed_envelope_reason P record) = row_failure kr.2 /\ Some (failed_envelope_at P record) = row_failed_at kr.2.

Lemma failed_record_run kr (w : W) : is_Some (row_failure kr.2) -> is_Some (row_failed_at kr.2) ->
  wp (failed_record decode_payload kr) w (fun record w' => w' = w /\ record_of record kr) (fun _ _ => True).
Proof.
  intros [reason Hreason] [at_ Hat]. apply db_bind, db_bind, db_bind, db_raise_if; [intros _|done]. apply wp_ret. apply db_bind, wp_lift; [|done].
  intros p Hp. do 4 (apply db_bind, db_raise_if; [intros _|done]). apply wp_ret.
  do 2 (apply db_bind, db_raise_if; [intros _|done]). apply wp_ret. split; [done|]. unfold record_of. cbn. by rewrite Hreason, Hat.
Qed.

Lemma failed_records_run found acc (w : W) : (forall kr, kr ∈ found -> is_Some (row_failure kr.2) /\ is_Some (row_failed_at kr.2)) ->
  wp (for_each found acc (fun records kr => let! record := failed_record decode_payload kr in ret (records ++ [record]))) w
    (fun records w' => w' = w /\ exists more, records = acc ++ more /\ Forall2 record_of more found) (fun _ _ => True).
Proof.
  revert acc. induction found as [|kr found IH]; intros acc Hin; [apply wp_ret; split; [done|]; exists []; by rewrite app_nil_r|].
  destruct (Hin kr ltac:(set_solver)) as [Hf Ha]. cbn [for_each]. apply db_bind, db_bind. eapply db_mono; [by apply failed_record_run| |done].
  intros record w' [-> Hr]. apply wp_ret. eapply db_mono; [apply IH; intros; apply Hin; set_solver| |done].
  intros records w' [-> (more & -> & Hm)]. split; [done|]. exists (record :: more). by rewrite <- app_assoc; split; [|constructor].
Qed.

(** What an archive promises ([DurableOutboxArchive]): it leaves the outbox rows alone, and
    having returned normally it keeps the records in its own rows, which statements on the
    outbox do not touch and which a transaction that ends normally keeps with the rest. *)
Class DurableArchive (archive : list (FailedOutboxEnvelope P) -> M exn W unit) (kept : list (FailedOutboxEnvelope P) -> W -> Prop) : Prop := {
  archive_aside records : aside rely (archive records);
  archive_keeps records w w' : archive records w = (Ok tt, w') -> kept records w';
  delete_keeps p records w n w' : delete_where p w = (Ok n, w') -> kept records w -> kept records w';
  atomic_keeps A (m : M exn W A) w : exists w0, entered w w0 /\
    match m w0 with
    | (Ok a, w1) => exists w2, atomic m w = (Ok a, w2) /\ left_block w w1 w2 /\ forall records, kept records w1 -> kept records w2
    | (Raise e, _) => exists w2, atomic m w = (Raise e, w2) /\ follows rely w w2
    end
}.

Context (archive : list (FailedOutboxEnvelope P) -> M exn W unit) (kept : list (FailedOutboxEnvelope P) -> W -> Prop) `{!DurableArchive archive kept}.
Variable using_ : pystr.
Variable pk_leb : pystr -> pystr -> bool.

Lemma wp_both {A} (m : M exn W A) w (Q Q' : A -> W -> Prop) (X X' : exn -> W -> Prop) :
  wp m w Q X -> wp m w Q' X' -> wp m w (fun a w' => Q a w' /\ Q' a w') (fun e w' => X e w' /\ X' e w').
Proof. unfold wp. by destruct (m w) as [[a|e] w']. Qed.

Lemma delete_selected_keeps records found dry w : kept records w ->
  wp (_delete_selected found dry) w (fun _ w' => kept records w') (fun _ _ => True).
Proof.
  intros Hk. assert (forall n m w, kept records w -> wp (MaintenanceSummary_new n m dry) w (fun _ w' => kept records w') (fun _ _ => True)) as Hsum.
  { intros n m w0 H0. apply db_bind, db_raise_if; [intros _|done]. apply db_bind, db_raise_if; [intros _|done]. by apply wp_ret. }
  unfold _delete_selected. destruct (dry || _) eqn:Hd; [by apply Hsum|]. apply orb_false_iff in Hd as [-> _].
  apply db_bind. unfold wp at 1. destruct (delete_where _ w) as [[n|e] w1] eqn:Hrun; [|done]. apply Hsum. by eapply delete_keeps.
Qed.

(** Within the block: the archive was given the records of the rows, and it keeps them. *)
Definition archived (plan : MaintenancePlan) (found : list (pystr * json_row)) (w0 w' : W) : Prop :=
  dry_run plan = false -> found <> [] -> exists records w1 w2, follows rely w0 w1 /\ archive records w1 = (Ok tt, w2) /\
    Forall2 record_of records found /\ kept records w'.

Lemma archive_records plan found w0 w : follows rely w0 w -> (forall kr, kr ∈ found -> archive_filter plan kr.1 kr.2 = true) ->
  wp (if negb (dry_run plan) && negb (bool_decide (found = [])) then let! records := failed_records decode_payload found in archive records else ret tt) w
    (fun _ w' => follows rely w w' /\ archived plan found w0 w') (fun _ _ => True).
Proof.
  intros Hf Hin. unfold archived. destruct (dry_run plan) eqn:Hdry; [apply wp_ret; split; [apply follows_refl|done]|].
  case_bool_decide as Hnil; [apply wp_ret; split; [apply follows_refl|done]|]. cbn [negb andb].
  apply db_bind. eapply db_mono; [apply failed_records_run| |done].
  - intros kr Hkr. pose proof (Hin kr Hkr) as Hp. unfold archive_filter, until_cutoff in Hp. apply andb_true_iff in Hp as [Hfail Hat].
    split; [destruct (row_failure kr.2); [by eexists|done]|destruct (row_failed_at kr.2); [by eexists|done]].
  - intros records w' [-> (more & -> & Hm)]. cbn [app]. pose proof (archive_aside more w) as Ha. unfold wp in Ha |- *.
    destruct (archive more w) as [[[]|e] w2] eqn:Hrun; [|done]. split; [done|]. intros _ _. exists more, w, w2. split_and!; [done..|by eapply archive_keeps].
Qed.

(** The block: selection, archival, deletion. *)
Lemma archive_block_run plan w0 : nesting w0 <> 0%nat ->
  wp (let! found := locked_query (archive_filter plan) (ordered pk_leb [row_failed_at]) (batch_size plan) in
      (if negb (dry_run plan) && negb (bool_decide (found = [])) then let! records := failed_records decode_payload found in archive records else ret tt) ;;;
      _delete_selected found (dry_run plan)) w0
    (fun s w' => exists T found, instant rely w0 T /\ purged (archive_filter plan) plan found T s (rows w') /\ archived plan found w0 w') (fun _ _ => True).
Proof.
  intros Hn. apply db_bind, (wp_locked_query rely); [|done]. intros found w1 [Hs1 Hn1] Hnd Hin Hlock Hlen.
  apply db_bind. eapply db_mono; [apply (archive_records plan found w0); [done|intros kr Hkr; by apply Hin]| |done]. intros _ w2 [[Hs2 Hn2] Ha].
  assert (wp (_delete_selected found (dry_run plan)) w2 (fun _ w' => archived plan found w0 w') (fun _ _ => True)) as Hkeep.
  { unfold archived in *. destruct (dry_run plan) eqn:Hdry; [unfold wp; by case_match; case_match|].
    destruct (decide (found = [])) as [->|Hf]; [unfold wp; by case_match; case_match|].
    destruct (Ha eq_refl Hf) as (records & v1 & v2 & Hfv & Hrun & Hr & Hk).
    eapply db_mono; [by apply (delete_selected_keeps records)| |done]. intros s w3 Hk3 _ _. by exists records, v1, v2. }
  eapply db_mono; [apply wp_both; [apply (delete_selected_run rely (archive_filter plan) plan found w0); [congruence|by eapply sees_trans|done| | |done]|exact Hkeep]| |done].
  - intros kr Hkr. destruct (Hin kr Hkr) as [Hr Hp]. split; [|done].
    rewrite (proj2 (sees_locked rely _ _ Hs2 kr.1 ltac:(apply Hlock; [done|by apply list_elem_of_fmap_2]))). done.
  - intros k Hk. apply (sees_held rely _ _ Hs2). by apply Hlock.
  - intros s w3 ((Hg & T & HT & Hp) & Ha3). by exists T, found.
Qed.

Lemma archive_run plan w :
  wp (archive_failed_outbox using_ decode_payload archive pk_leb plan) w
    (fun s w' => exists T found, instant rely w T /\ purged (archive_filter plan) plan found T s (rows w') /\
       exists w0, entered w w0 /\ archived plan found w0 w')
    (fun _ w' => follows rely w w').
Proof.
  apply db_bind, db_raise_if; [intros _|intros _; apply follows_refl].
  match goal with |- wp (atomic ?b) _ _ _ => set (block := b) end. unfold wp. destruct (atomic_keeps _ block w) as (w0 & He & Hrun).
  pose proof (archive_block_run plan w0 ltac:(rewrite (entered_nesting _ _ He); lia)) as Hb. fold block in Hb. unfold wp in Hb.
  destruct (block w0) as [[s|e] w1]; destruct Hrun as (w2 & -> & Hrun); [|done]. destruct Hrun as [Hl Hk].
  destruct Hb as (T & found & HT & Hp & Ha). exists T, found. rewrite (left_rows _ _ _ Hl). split; [by apply (entered_instant rely w w0)|]. split; [done|].
  exists w0. split; [done|]. intros Hdry Hf. destruct (Ha Hdry Hf) as (records & v1 & v2 & Hfv & Har & Hr & Hkept). exists records, v1, v2. auto.
Qed.
End Archival.

(** C27. A failed message is deleted only with its archival: the rows an archival removed are
    failed ones, in a batch of at most [batch_size]; within its transaction the archive
    accepted their records, each with the message ID, payload, reason and instant of its row;
    and in the state in which the rows are gone the archive keeps those records. When the
    archive or anything else raises, nothing is deleted. *)
Theorem django_archive_before_delete {W P} `{!Orm pystr json_row W, !Session pystr json_row W, !Atomic W, !Connections}
    (rely : relation outbox_table) `{!OrmLaws rely} decode_payload archive kept using_ pk_leb plan (w : W) :
  DurableArchive (P := P) rely archive kept ->
  wp (archive_failed_outbox using_ decode_payload archive pk_leb plan) w
    (fun s w' => exists T, instant rely w T /\
       ((dry_run plan = true \/ affected s = 0) /\ rows w' = T \/
        exists found records w0 w1 w2, (entered w w0 /\ follows rely w0 w1 /\ archive records w1 = (Ok tt, w2) /\ kept records w') /\
          Forall2 (fun record kr => opaque_value (message_id (failed_envelope record)) = kr.1 /\ decode_payload (row_payload kr.2) = Ok (payload (failed_envelope record)) /\
            Some (failed_envelope_reason P record) = row_failure kr.2 /\ Some (failed_envelope_at P record) = row_failed_at kr.2) records found /\
          affected s = Z.of_nat (length found) /\ Z.of_nat (length found) <= Z.max 0 (batch_size plan) /\
          (forall k row, (k, row) ∈ found -> T !! k = Some row /\ archive_filter plan k row = true) /\
          (forall k, rows w' !! k = if bool_decide (k ∈ found.*1) then None else T !! k)))
    (fun e w' => follows rely w w').
Proof.
  intros Hdurable. eapply db_mono; [by apply (archive_run rely decode_payload archive kept)| |done].
  intros s w' (T & found & HT & [Hnd Hin Hlen -> Hrows] & w0 & He & Ha). exists T. split; [done|]. destruct (dry_run plan) eqn:Hdry.
  - left. split; [by left|]. apply map_eq. intros k. apply Hrows.
  - destruct (decide (found = [])) as [->|Hf]; [left; split; [by right|apply map_eq; intros k; apply Hrows]|]. right.
    destruct (Ha Hdry Hf) as (records & w1 & w2 & Hf1 & Hrun & Hr & Hk). exists found, records, w0, w1, w2.
    split_and!; [done..|intros k row; apply (Hin (k, row))|done].
Qed.

(** ** The index check is silent exactly when every model has its indexes. *)

Lemma prefixes_spec fields l : fields ∈ prefixes l <-> fields <> [] /\ fields `prefix_of` l.
Proof.
  unfold prefixes. rewrite list_elem_of_In, in_map_iff. split.
  - intros (n & <- & [H1 H2]%in_seq). split; [destruct n, l; cbn in *; [lia..|done]|apply prefix_take].
  - intros [Hne [rest ->]]. exists (length fields). split; [apply take_app_length|]. apply in_seq. rewrite length_app. destruct fields; cbn; [done|lia].
Qed.

Lemma indexed_field_spec m fields : fields ∈ map (fun f => [f.1]) (List.filter snd (index_fields m)) <-> exists f, fields = [f] /\ (f, true) ∈ index_fields m.
Proof.
  rewrite list_elem_of_In, in_map_iff. split.
  - intros ([f b] & <- & [Hf Hb]%filter_In). cbn in *. subst b. exists f. by rewrite list_elem_of_In.
  - intros (f & -> & Hf). exists (f, true). rewrite filter_In, <- list_elem_of_In. done.
Qed.
Lemma index_fields_spec l fields : fields ∈ concat (map prefixes l) <-> fields <> [] /\ exists index, index ∈ l /\ fields `prefix_of` index.
Proof.
  rewrite list_elem_of_In, in_concat. split.
  - intros (ps & Hps & Hin). apply in_map_iff in Hps as (index & <- & Hi). apply list_elem_of_In, prefixes_spec in Hin as [Hne Hp].
    split; [done|]. exists index. by rewrite list_elem_of_In.
  - intros [Hne (index & Hi & Hp)]. exists (prefixes index). split; [apply in_map_iff; exists index; by rewrite <- list_elem_of_In|].
    by apply list_elem_of_In, prefixes_spec.
Qed.
Lemma index_prefixes_spec m fields : fields ∈ _index_prefixes m <->
  (exists f, fields = [f] /\ (f, true) ∈ index_fields m) \/ fields <> [] /\ exists index, index ∈ indexes m /\ fields `prefix_of` index.
Proof. unfold _index_prefixes. by rewrite elem_of_list_to_set, elem_of_app, indexed_field_spec, index_fields_spec. Qed.

Lemma index_check_silent models : retention_index_check models = [] <->
  forall m expected fields, (Some m, expected) ∈ requirements models -> fields ∈ expected -> fields ∈ _index_prefixes m.
Proof.
  unfold retention_index_check. split.
  - intros Hnil m expected fields Hreq Hf. destruct (decide (fields ∈ _index_prefixes m)) as [|Hno]; [done|exfalso].
    assert (index_warning_of m fields ∈ (@nil index_warning)) as Hw; [|by apply not_elem_of_nil in Hw]. rewrite <- Hnil.
    apply list_elem_of_In, in_concat. eexists. split; [apply in_map_iff; exists (Some m, expected); split; [reflexivity|by apply list_elem_of_In]|].
    apply in_map, filter_In. split; [by apply list_elem_of_In|]. by rewrite bool_decide_false.
  - intros Hall. apply concat_nil_Forall, Forall_map, Forall_forall. intros [[m|] expected] Hreq; [|done]. cbn.
    destruct (List.filter _ _) as [|fields l] eqn:Hf; [done|exfalso].
    assert (In fields (fields :: l)) as Hin by (by left). rewrite <- Hf in Hin. apply filter_In in Hin as [Hin Hno].
    rewrite bool_decide_true in Hno; [done|]. eapply Hall; [exact Hreq|by apply list_elem_of_In].
Qed.

(** ** A concrete database: other sessions add messages. *)

Section Example.
#[local] Instance maintenance_postgresql : Connections := fun _ => "postgresql"%py.
#[local] Existing Instance unary_uuid.

Definition additions : relation outbox_table := fun T T' => T ⊆ T'.
Definition failed_at_row (reason : pystr) (at_ : Z) : json_row := mkOutboxRow "topic" (JInt 7) (utc 1) (utc 1) 3 None None None (Some reason) (Some (utc at_)).
Definition their_addition : { f : outbox_table -> outbox_table | forall T, additions T (f T) } :=
  exist (fun f => forall T, additions T (f T)) (fun T => T ∪ {["z"%py := failed_at_row "new" 9]}) (fun T => map_union_subseteq_l T {["z"%py := failed_at_row "new" 9]}).
Abbreviation maintenance_db := (db additions).
Definition maintenance_db0 : maintenance_db :=
  mkDb _ {["a"%py := failed_at_row "rejected" 2; "b"%py := failed_at_row "rejected" 30; "c"%py := failed_at_row "rejected" 4; "d"%py := failed_at_row "rejected" 1]} ∅ ∅ 0 0 [their_addition].

Definition demo_plan (dry : bool) : MaintenancePlan := mkMaintenancePlan (utc 10) 2 dry false.
Definition by_id (a b : pystr) : bool := bool_decide (str_compare a b <> Gt).
Definition demo_purge (dry : bool) : M exn maintenance_db MaintenanceSummary := _delete "default" by_id (archive_filter (demo_plan dry)) [row_failed_at] (demo_plan dry).

Lemma django_purge_exact_witness :
  answers_with (demo_purge false) maintenance_db0 (mkMaintenanceSummary 2 2 false) /\
  dom (rows (after (demo_purge false) maintenance_db0)) = {["b"%py; "c"%py; "z"%py]} /\
  wp (demo_purge false) maintenance_db0
    (fun s w' => exists T found, instant additions maintenance_db0 T /\ NoDup found.*1 /\ Z.of_nat (length found) <= 2 /\
       (forall k row, (k, row) ∈ found -> T !! k = Some row /\ archive_filter (demo_plan false) k row = true) /\
       s = mkMaintenanceSummary (Z.of_nat (length found)) (Z.of_nat (length found)) false /\
       (false = true -> rows w' = T) /\
       (false = false -> forall k, rows w' !! k = if bool_decide (k ∈ found.*1) then None else T !! k))
    (fun e w' => follows additions maintenance_db0 w').
Proof.
  split; [by vm_compute|]. split; [by vm_compute|].
  exact (django_purge_exact additions "default" by_id (archive_filter (demo_plan false)) [row_failed_at] (demo_plan false) maintenance_db0).
Defined.

(** An archive table beside the outbox that takes two records at a time. *)
Definition archive_world : Type := maintenance_db * list (FailedOutboxEnvelope Z).
#[local] Instance archive_orm : Orm pystr json_row archive_world := beside_orm.
#[local] Instance archive_session : Session pystr json_row archive_world := beside_session.
#[local] Instance archive_atomic : Atomic archive_world := beside_atomic.
#[local] Instance archive_orm_laws : OrmLaws (W := archive_world) additions := beside_laws additions.

Definition demo_archive (records : list (FailedOutboxEnvelope Z)) : M exn archive_world unit :=
  raise_if (2 <? Z.of_nat (length records)) (ValueError "archive full") ;;;
  zoom snd_lens (modify (fun archive => archive ++ records)).
Definition in_archive (records : list (FailedOutboxEnvelope Z)) (w : archive_world) : Prop := records ⊆ w.2.
Definition demo_archival (n : Z) : M exn archive_world MaintenanceSummary :=
  archive_failed_outbox "default" read_integer demo_archive by_id (mkMaintenancePlan (utc 10) n false false).
Definition archive_world0 : archive_world := (maintenance_db0, []).

#[local] Instance demo_durable : DurableArchive additions demo_archive in_archive.
Proof.
  split.
  - intros records [w b]. apply db_bind, db_raise_if; [intros _|done]. exact (beside_follows additions _ _ b (b ++ records) (follows_refl additions w)).
  - intros records [w b] w'. unfold demo_archive, in_archive. intros ([] & w1 & Hr & Hrun)%bind_ok. unfold raise_if in Hr.
    destruct (2 <? _); [done|]. injection Hr as <-. injection Hrun as <-. cbn. set_solver.
  - intros p records [w b] n w'. intros [= _ <-]. done.
  - intros A m w. destruct (beside_kept additions exn A m w) as (w0 & He & Hrun). exists w0. split; [done|].
    destruct (m w0) as [[a|e] w1]; [|done]. destruct Hrun as (w2 & ? & ? & Hb). exists w2. split_and!; [done..|]. intros records. unfold in_archive. by rewrite Hb.
Qed.

Lemma django_archive_before_delete_witness :
  answers_with (demo_archival 2) archive_world0 (mkMaintenanceSummary 2 2 false) /\
  (map (fun record => opaque_value (message_id (failed_envelope record))) (after (demo_archival 2) archive_world0).2 = ["d"; "a"]%py) /\
  demo_archival 5 archive_world0 = (Raise (ValueError "archive full"), archive_world0) /\
  wp (demo_archival 2) archive_world0
    (fun s w' => exists T, instant additions archive_world0 T /\
       ((false = true \/ affected s = 0) /\ rows w' = T \/
        exists found records w0 w1 w2, (entered archive_world0 w0 /\ follows additions w0 w1 /\ demo_archive records w1 = (Ok tt, w2) /\ in_archive records w') /\
          Forall2 (fun record kr => opaque_value (message_id (failed_envelope record)) = kr.1 /\ read_integer (row_payload kr.2) = Ok (payload (failed_envelope record)) /\
            Some (failed_envelope_reason Z record) = row_failure kr.2 /\ Some (failed_envelope_at Z record) = row_failed_at kr.2) records found /\
          affected s = Z.of_nat (length found) /\ Z.of_nat (length found) <= 2 /\
          (forall k row, (k, row) ∈ found -> T !! k = Some row /\ archive_filter (mkMaintenancePlan (utc 10) 2 false false) k row = true) /\
          (forall k, rows w' !! k = if bool_decide (k ∈ found.*1) then None else T !! k)))
    (fun e w' => follows additions archive_world0 w').
Proof.
  split; [by vm_compute|]. split; [by vm_compute|]. split; [by vm_compute|].
  exact (django_archive_before_delete additions read_integer demo_archive in_archive "default" by_id (mkMaintenancePlan (utc 10) 2 false false) archive_world0 demo_durable).
Defined.
End Example.
