(* ===== verification/SqlAlchemy.v ===== *)
(** * The sessions of the SQLAlchemy adapters ([sqlalchemy/])

    The statements these stores issue beside those of [Database], and the block
    [async with session.begin()]: an insert that does nothing on a conflict, a lock of the
    rows a condition selects, and a commit whose outcome may be lost with the connection.
    [SqlLaws] and [BeginLaws] state what PostgreSQL and the session document; the database of
    [DatabaseModel] satisfies them. *)
From Stdlib Require Import ZArith Lia.
From stdpp Require Import base list gmap relations.
From S2P Require Import Prelude Database DatabaseModel Django.

(** ** The statements *)

Class Sql (K R W : Type) `{Countable K} := {
  (** [insert(model).values(...).on_conflict_do_nothing(...).returning(...)]: a row came back. *)
  insert_nothing : K -> R -> M exn W bool;
  (** [select(...).where(p).with_for_update()], its rows unused. *)
  lock_rows : (K -> R -> bool) -> M exn W unit
}.

Definition NoResultFound : exn := OtherError "NoResultFound" "No row was found when one was required".
Definition MultipleResultsFound : exn := OtherError "MultipleResultsFound" "Multiple rows were found when one or none was required".

(** [scalar_one()] of a query by the unique key. *)
Definition scalar_one {R W} (row : option R) : M exn W R := match row with Some row => ret row | None => raise NoResultFound end.

(** [scalar_one_or_none() is not None] of the rows a statement returned. *)
Definition scalar_one_or_none {W} (n : Z) : M exn W bool :=
  if n =? 0 then ret false else if n =? 1 then ret true else raise MultipleResultsFound.

(** A condition on the key selects one row at most. *)
Lemma matching_one {K R} `{Countable K} (p : K -> R -> bool) k (T : gmap K R) : (forall j r, p j r = true -> j = k) -> (size (matching p T) <= 1)%nat.
Proof.
  intros Hp. assert (dom (matching p T) ⊆ {[k]}) as Hd.
  { intros j [r Hr]%elem_of_dom. apply matching_lookup in Hr as [_ Hr]. apply Hp in Hr. set_solver. }
  apply subseteq_size in Hd. rewrite size_dom, size_singleton in Hd. exact Hd.
Qed.

(** What a statement with such a condition does to the row of the key. *)
Lemma matching_key {K R} `{Countable K} (p : K -> R -> bool) (f : R -> R) k row (T : gmap K R) : (forall j r, p j r = true -> j = k) -> T !! k = Some row ->
  size (matching p T) = (if p k row then 1 else 0)%nat /\ updated p f T = if p k row then <[k := f row]> T else T.
Proof.
  intros Hp Hrow. assert (forall j r, j <> k -> p j r = false) as Hother.
  { intros j r Hj. destruct (p j r) eqn:He; [|done]. by apply Hp in He. }
  split.
  - destruct (p k row) eqn:He.
    + pose proof (matching_one p k T Hp) as Hle. destruct (size (matching p T)) as [|[|n]] eqn:Hs; [|done|lia].
      apply map_size_empty_iff in Hs. assert (matching p T !! k = Some row) as Hk by by apply matching_lookup. by rewrite Hs in Hk.
    + apply map_size_empty_iff, map_empty. intros j. apply eq_None_not_Some. intros [r [Hr Hpr]%matching_lookup]. pose proof (Hp _ _ Hpr). subst. congruence.
  - apply map_eq. intros j. rewrite updated_lookup. destruct (decide (j = k)) as [->|Hj].
    + rewrite Hrow. cbn. destruct (p k row); by rewrite ?lookup_insert_eq, ?Hrow.
    + assert (forall T', (if p k row then <[k := f row]> T' else T') !! j = T' !! j) as -> by (intros T'; by destruct (p k row); rewrite ?lookup_insert_ne).
      destruct (T !! j) as [r|]; [|done]. cbn. by rewrite Hother.
Qed.

(** [async with session.begin(): body]: a body that raises is rolled back, and its error goes
    on; a body that ended with a value is committed, or the commit raises. *)
Class SessionBegin (W : Type) := begin : forall A, M exn W A -> M exn W (A * option exn).
Arguments begin {W _ A}.

(** [async with self._sessions() as session, session.begin(): return ...] *)
Definition in_session {W A} `{!SessionBegin W} (body : M exn W A) : M exn W A :=
  let! r := begin body in
  match r.2 with None => ret r.1 | Some e => raise e end.

(** [asyncio.CancelledError]. *)
Definition is_cancelled (e : exn) : bool := bool_decide (exn_name e = "CancelledError"%py).

(** ** What the statements do *)

Section Laws.
Context {K R W : Type} `{Countable K} `{!Orm K R W, !Session K R W, !Sql K R W}.
Variable rely : relation (gmap K R).

Class SqlLaws : Prop := {
  (** The insert waits for a transaction that holds the key, and then does nothing when a row
      has it. *)
  run_insert_nothing : forall k r w, exists w1, follows rely w w1 /\
    answers (insert_nothing k r w) w1 (fun b w2 => match rows w1 !! k with
      | Some _ => b = false /\ w2 = w1
      | None => b = true /\ wrote w1 (<[k := r]> (rows w1)) w2
      end);
  run_lock_rows : forall p w, exists w1, follows rely w w1 /\ answers (lock_rows p w) w1 (fun _ w2 => w2 = w1)
}.

(** A commit that raised may have happened or not; after it others commit as well. *)
Class BeginLaws `{!SessionBegin W} : Prop :=
  run_begin : forall A (m : M exn W A) w, nesting w = 0%nat -> exists w0, entered w w0 /\
    match m w0 with
    | (Raise e, _) => exists w2, begin m w = (Raise e, w2) /\ follows rely w w2
    | (Ok a, w1) => exists w2, left_block w w1 w2 /\
        (begin m w = (Ok (a, None), w2) \/
         exists e w3, begin m w = (Ok (a, Some e), w3) /\ (follows rely w2 w3 \/ follows rely w w3))
    end.
End Laws.

Section Wp.
Context {K R W : Type} `{Countable K} `{!Orm K R W, !Session K R W, !Atomic W, !Sql K R W}.
Context (rely : relation (gmap K R)) `{!OrmLaws rely, !SqlLaws rely}.

Lemma wp_insert_nothing k r w (Q : bool -> W -> Prop) (X : exn -> W -> Prop) :
  (forall w1 w2, follows rely w w1 -> rows w1 !! k = None -> wrote w1 (<[k := r]> (rows w1)) w2 -> Q true w2) ->
  (forall w1, follows rely w w1 -> is_Some (rows w1 !! k) -> Q false w1) ->
  (forall e w1, follows rely w w1 -> failure e -> X e w1) -> wp (insert_nothing k r) w Q X.
Proof.
  intros HQ HF HX. destruct (run_insert_nothing rely k r w) as (w1 & Hw & Ha). eapply wp_answers; [exact Ha| |by eauto].
  intros b w2. destruct (rows w1 !! k) eqn:Hk; [intros [-> ->]|intros [-> ?]]; eauto.
Qed.

Lemma wp_lock_rows p w (Q : unit -> W -> Prop) (X : exn -> W -> Prop) :
  (forall w1, follows rely w w1 -> Q tt w1) -> (forall e w1, follows rely w w1 -> failure e -> X e w1) -> wp (lock_rows p) w Q X.
Proof. intros HQ HX. destruct (run_lock_rows rely p w) as (w1 & Hw & Ha). eapply wp_answers; [exact Ha| |by eauto]. intros [] w2 ->. auto. Qed.

Lemma wp_scalar_one (row : option R) w (Q : R -> W -> Prop) (X : exn -> W -> Prop) :
  (forall r, row = Some r -> Q r w) -> (row = None -> X NoResultFound w) -> wp (scalar_one row) w Q X.
Proof. intros HQ HX. destruct row; [by apply wp_ret, HQ|by apply db_raise, HX]. Qed.

Lemma wp_scalar_one_or_none n w (Q : bool -> W -> Prop) (X : exn -> W -> Prop) :
  Q (negb (n =? 0)) w -> X MultipleResultsFound w -> wp (scalar_one_or_none n) w Q X.
Proof. intros HQ HX. unfold scalar_one_or_none. destruct (n =? 0); [done|]. by destruct (n =? 1). Qed.

Lemma wp_begin `{!SessionBegin W, !BeginLaws rely} {A} (m : M exn W A) w (Q : A * option exn -> W -> Prop) (X : exn -> W -> Prop) : nesting w = 0%nat ->
  (forall w0, entered w w0 ->
    wp m w0 (fun a w1 => forall w2, left_block w w1 w2 -> Q (a, None) w2 /\ forall e w3, follows rely w2 w3 \/ follows rely w w3 -> Q (a, Some e) w3)
      (fun e _ => forall w2, follows rely w w2 -> X e w2)) ->
  wp (begin m) w Q X.
Proof.
  intros Hn Hm. destruct (run_begin rely A m w Hn) as (w0 & Hw0 & Hrun). specialize (Hm w0 Hw0). unfold wp in *. destruct (m w0) as [[a|e] w1].
  - destruct Hrun as (w2 & Hl & [->|(e & w3 & -> & Hf)]); [by apply (Hm w2 Hl)|]. by apply (Hm w2 Hl).
  - destruct Hrun as (w2 & -> & Hf). auto.
Qed.

(** A session of its own: a body that ended is committed when the operation answers, and no
    transaction is left open. *)
Lemma wp_session `{!SessionBegin W, !BeginLaws rely} {A} (m : M exn W A) w (Q : A -> W -> Prop) (X : exn -> W -> Prop) : nesting w = 0%nat ->
  (forall w0, entered w w0 -> wp m w0 (fun a w1 => forall w2, left_block w w1 w2 -> Q a w2) (fun _ _ => True)) ->
  (forall e w1, nesting w1 = 0%nat -> X e w1) -> wp (in_session m) w Q X.
Proof.
  intros Hn Hm HX. apply db_bind, wp_begin; [done|]. intros w0 He. eapply db_mono; [by apply Hm| |].
  - intros a w1 HQ w2 Hl. split; [apply wp_ret; by apply HQ|]. intros e w3 Hf. apply db_raise, HX. destruct Hf as [[_ Hf]|[_ Hf]]; [rewrite Hf, (left_nesting _ _ _ Hl)|]; congruence.
  - intros e _ _ w2 [_ Hf]. apply HX. congruence.
Qed.

(** A transaction that wrote nothing yet sees what is committed. *)
Definition clean (w : W) : Prop := rows w = base w.

Lemma clean_follows w w1 : clean w -> follows rely w w1 -> clean w1.
Proof. intros Hc [Hs _]. apply map_eq. intros k. apply (sees_clean rely _ _ Hs). by rewrite Hc. Qed.

(** A transaction that wrote the row [i] only, over a committed row it found available; the
    committed rows come from [T0]. *)
Record alone (T0 : gmap K R) (i : K) (ok : option R -> Prop) (row : R) (w : W) : Prop := {
  alone_rows : rows w = <[i := row]> (base w);
  alone_held : i ∈ held w;
  alone_nesting : nesting w <> 0%nat;
  alone_base : rtc rely T0 (base w);
  alone_found : ok (base w !! i)
}.

Lemma alone_follows T0 i ok row w w1 : alone T0 i ok row w -> follows rely w w1 -> alone T0 i ok row w1.
Proof.
  intros [Hr Hh Hn Hb Hok] [Hs Hn1]. destruct (sees_locked rely _ _ Hs i Hh) as [Hbi Hri]. split; [|by apply (sees_held rely _ _ Hs)|congruence|etrans; [exact Hb|apply Hs]|by rewrite Hbi].
  apply map_eq. intros k. destruct (decide (k = i)) as [->|Hk]; [by rewrite Hri, Hr, !lookup_insert_eq|].
  rewrite lookup_insert_ne by done. apply (sees_clean rely _ _ Hs). by rewrite Hr, lookup_insert_ne.
Qed.

(** The first write of a transaction. *)
Lemma alone_written T0 i (ok : option R -> Prop) row w w1 : clean w -> nesting w <> 0%nat -> rtc rely T0 (base w) -> ok (base w !! i) ->
  (rows w !! i <> Some row \/ i ∈ held w) -> wrote w (<[i := row]> (rows w)) w1 -> alone T0 i ok row w1.
Proof.
  intros Hc Hn Hb Hok Hi [Hr1 Hb1 Hh1 Hn1]. rewrite bool_decide_false in Hb1 by done.
  split; [by rewrite Hr1, Hb1, Hc| |congruence|by rewrite Hb1|by rewrite Hb1].
  destruct Hi as [Hi|Hi]; [|by apply Hh1]. destruct (decide (i ∈ held w1)) as [|Hni]; [done|exfalso].
  apply (run_clean rely) in Hni. rewrite Hr1, lookup_insert_eq, Hb1, <- Hc in Hni. by apply Hi.
Qed.

(** A later write of the same row. *)
Lemma alone_rewritten T0 i ok row row' w w1 : alone T0 i ok row w -> wrote w (<[i := row']> (rows w)) w1 -> alone T0 i ok row' w1.
Proof.
  intros [Hr Hh Hn Hb Hok] [Hr1 Hb1 Hh1 Hn1]. rewrite bool_decide_false in Hb1 by done.
  split; [by rewrite Hr1, Hr, Hb1, insert_insert_eq|by apply Hh1|congruence|by rewrite Hb1|by rewrite Hb1].
Qed.
End Wp.

(** ** The concrete database *)

Section Concrete.
Context {K R : Type} `{Countable K} `{!EqDecision R} `{Uuid4}.
Context (rely : relation (gmap K R)).
(** What happens to a commit: it succeeds, or its answer is lost, after it took effect or
    before. *)
Variable commit_answer : db (K := K) (R := R) rely -> option bool.

#[export] Instance db_sql : Sql K R (db rely) := {
  insert_nothing := fun k r w => let w1 := interleave rely w in
    match db_rows rely w1 !! k with
    | Some _ => (Ok false, w1)
    | None => (Ok true, put rely {[k := Some r]} w1)
    end;
  lock_rows := fun p w => let w1 := interleave rely w in
    match db_depth rely w1 with
    | 0%nat => (Ok tt, w1)
    | _ => (Ok tt, lock rely (dom (matching p (db_rows rely w1))) w1)
    end
}.

Definition connection_lost : exn := OtherError "OperationalError" "connection lost".
Definition db_begin : SessionBegin (db rely) := fun A m w =>
  match atomic m w with
  | (Raise e, w1) => (Raise e, w1)
  | (Ok a, w1) =>
      match commit_answer w1 with
      | None => (Ok (a, None), w1)
      | Some true => (Ok (a, Some connection_lost), interleave rely w1)
      | Some false => (Ok (a, Some connection_lost), w)
      end
  end.

#[export] Instance db_sql_laws : SqlLaws rely.
Proof.
  split.
  - intros k r w. exists (interleave rely w). split; [apply interleave_follows|]. cbn. destruct (db_rows rely (interleave rely w) !! k); [done|].
    split; [done|]. rewrite <- (apply_insert k r). apply put_wrote.
  - intros p w. cbn. destruct (db_depth rely (interleave rely w)) eqn:Hd; [exists (interleave rely w); by split; [apply interleave_follows|]|].
    exists (lock rely (dom (matching p (db_rows rely (interleave rely w)))) (interleave rely w)). split; [|done].
    eapply follows_trans; [apply interleave_follows|apply lock_sees; lia].
Qed.

Lemma db_begin_laws : @BeginLaws _ _ _ _ _ _ _ rely db_begin.
Proof.
  intros A m w Hn. destruct (run_atomic rely exn A m w) as (w0 & He & Hrun). exists w0. split; [done|]. unfold begin, db_begin.
  destruct (m w0) as [[a|e] w1]; destruct Hrun as (w2 & Hrun & Hw2); exists w2; rewrite Hrun; [|done].
  split; [done|]. destruct (commit_answer w2) as [[|]|]; [right|right|by left]; eexists _, _; (split; [reflexivity|]).
  - left. apply interleave_follows.
  - right. apply follows_refl.
Qed.
End Concrete.
