(* ===== verification/SqlIdempotency.v ===== *)
(** * The SQLAlchemy idempotency store ([sqlalchemy/idempotency.py], [SQLAlchemyIdempotencyStore])

    Reservations as rows of a consumer's model: inserted unless the key is taken, reclaimed
    under a lock, and changed only under the authority of their token by the database's own
    clock. The serializer of results is a parameter. *)
From Stdlib Require Import ZArith Lia.
From stdpp Require Import base list gmap relations.
From S2P Require Import Prelude Core Maintenance Idempotency Database DatabaseModel Django SqlAlchemy.

(** A row beside its unique key: scope and idempotency key. *)
Record sql_reservation := mkSqlReservation {
  row_fingerprint : pystr; row_token : pystr; row_state : pystr; row_expires_at : datetime;
  row_result : option (list N); row_reason : option pystr
}.

#[export] Instance sql_reservation_eq_dec : EqDecision sql_reservation.
Proof. solve_decision. Defined.

Abbreviation identity := (IdempotencyScope * pystr)%type.
Abbreviation reservation_table := (gmap identity sql_reservation).

Section Store.
Context {W V : Type} `{!Orm identity sql_reservation W, !Sql identity sql_reservation W, !Uuid W, !DatabaseClock W}.
Variable encode_value : V -> result exn (list N).
(** [serializer.decode(row.result)]; the column may be null. *)
Variable decode_value : option (list N) -> result exn V.

Definition _utc (now : datetime) : M exn W unit := check_utc now "idempotency timestamps must be timezone-aware UTC".
Definition _positive (t : timedelta) (name : pystr) : M exn W unit := check_positive t (str_app name " must be positive").

Definition _identity (scope : IdempotencyScope) (key : pystr) : M exn W identity :=
  raise_if (str_empty key) (ValueError "idempotency key must not be empty") ;;;
  ret (scope, key).

Definition _decision (row : sql_reservation) (fingerprint : RequestFingerprint) : result exn (IdempotencyDecision V) :=
  if negb (bool_decide (row_fingerprint row = fingerprint_value fingerprint)) then Ok Conflict
  else if bool_decide (row_state row = "completed"%py) then let? v := decode_value (row_result row) in Ok (Replay (Some v))
  else if bool_decide (row_state row = "uncertain"%py) then
    Ok (Uncertain (match row_reason row with Some r => if str_empty r then "outcome unknown" else r | None => "outcome unknown" end)%py)
  else Ok (InProgress (row_expires_at row)).

(** [row.expires_at <= now and row.state != "uncertain"]. *)
Definition reclaimable (now : datetime) (row : sql_reservation) : bool :=
  dt_leb (row_expires_at row) now && negb (bool_decide (row_state row = "uncertain"%py)).

(** The row of a reservation, inserted or reclaimed. *)
Definition reserved_row (fingerprint : RequestFingerprint) (token : pystr) (until : datetime) : sql_reservation :=
  mkSqlReservation (fingerprint_value fingerprint) token "reserved" until None None.

Definition reserve (scope : IdempotencyScope) (key : pystr) (fingerprint : RequestFingerprint) (now : datetime) (lease_ttl : timedelta) :
    M exn W (IdempotencyDecision V) :=
  _utc now ;;;
  _positive lease_ttl "lease_ttl" ;;;
  let! i := _identity scope key in
  let! token := uuid4 in
  let! until := lift (dt_add now lease_ttl) in
  let! inserted := insert_nothing i (reserved_row fingerprint token until) in
  if inserted : bool then let! t := ReservationToken_new token in ret (Execute t)
  else
    let! found := locked_first i in
    let! row := scalar_one found in
    if reclaimable now row then
      let! again := lift (dt_add now lease_ttl) in
      save i (fun _ => reserved_row fingerprint token again) ;;;
      let! t := ReservationToken_new token in ret (Execute t)
    else lift (_decision row fingerprint).

Definition lookup (scope : IdempotencyScope) (key : pystr) (fingerprint : RequestFingerprint) (now : datetime) : M exn W (option (IdempotencyDecision V)) :=
  _utc now ;;;
  let! i := _identity scope key in
  let! current := first i in
  match current with
  | None => ret None
  | Some row => if reclaimable now row then ret None else let! d := lift (_decision row fingerprint) in ret (Some d)
  end.

(** [_authority]: the rows a token has authority over, at the database's clock. *)
Definition authorised (token : ReservationToken) (t : datetime) (_ : identity) (row : sql_reservation) : bool :=
  bool_decide (row_token row = token_value token) && bool_decide (row_state row = "reserved"%py) && dt_ltb t (row_expires_at row).

Definition _change (token : ReservationToken) (now : datetime) (values : sql_reservation -> sql_reservation) : M exn W bool :=
  lock_rows (fun _ row => bool_decide (row_token row = token_value token)) ;;;
  _utc now ;;;
  let! t := clock_timestamp in
  let! n := update_where (authorised token (greatest now t)) values in
  scalar_one_or_none n.

Definition renewed (until : datetime) (row : sql_reservation) : sql_reservation :=
  mkSqlReservation (row_fingerprint row) (row_token row) (row_state row) until (row_result row) (row_reason row).
Definition renew (token : ReservationToken) (now : datetime) (lease_ttl : timedelta) : M exn W RenewReservationResult :=
  _positive lease_ttl "lease_ttl" ;;;
  let! until := lift (dt_add now lease_ttl) in
  let! changed := _change token now (renewed until) in
  ret (if changed : bool then ReservationRenewed until else RenewStale).

Definition completed (encoded : list N) (until : datetime) (row : sql_reservation) : sql_reservation :=
  mkSqlReservation (row_fingerprint row) (row_token row) "completed" until (Some encoded) (row_reason row).
Definition complete (token : ReservationToken) (value : V) (now : datetime) (retention_ttl : timedelta) : M exn W CompleteReservationResult :=
  _positive retention_ttl "retention_ttl" ;;;
  let! encoded := lift (encode_value value) in
  let! until := lift (dt_add now retention_ttl) in
  let! changed := _change token now (completed encoded until) in
  ret (if changed : bool then ReservationCompleted until else CompleteStale).

Definition marked (reason : pystr) (until : datetime) (row : sql_reservation) : sql_reservation :=
  mkSqlReservation (row_fingerprint row) (row_token row) "uncertain" until (row_result row) (Some reason).
Definition mark_uncertain (token : ReservationToken) (reason : pystr) (now : datetime) (retention_ttl : timedelta) : M exn W MarkUncertainResult :=
  _positive retention_ttl "retention_ttl" ;;;
  raise_if (str_empty reason) (ValueError "uncertainty reason must not be empty") ;;;
  let! until := lift (dt_add now retention_ttl) in
  let! changed := _change token now (marked reason until) in
  ret (if changed : bool then ReservationMarkedUncertain until else MarkUncertainStale).

Definition abandon (token : ReservationToken) (now : datetime) : M exn W AbandonReservationResult :=
  _utc now ;;;
  let! t := clock_timestamp in
  let! n := delete_where (authorised token (greatest now t)) in
  let! deleted := scalar_one_or_none n in
  ret (if deleted : bool then ReservationAbandoned else AbandonStale).

(** The store behind the port. *)
Definition sql_idempotency_port : IdempotencyStore W V := {|
  port_reserve := reserve; port_renew := renew; port_complete := complete; port_mark_uncertain := mark_uncertain; port_abandon := abandon
|}.
End Store.

(** ** The calls of the sessions, as steps on the rows *)

Inductive sql_call :=
  | SqlReserve (i : identity) (fp : RequestFingerprint) (now until : datetime) (drawn : ReservationToken)
  | SqlRenew (token : ReservationToken) (t until : datetime)
  | SqlComplete (token : ReservationToken) (encoded : list N) (t until : datetime)
  | SqlUncertain (token : ReservationToken) (reason : pystr) (t until : datetime)
  | SqlAbandon (token : ReservationToken) (t : datetime).

(** Free for a reservation: no row, or one that may be reclaimed. *)
Definition available (now : datetime) (row : option sql_reservation) : bool :=
  match row with None => true | Some r => reclaimable now r end.

Definition apply_sql (c : sql_call) (T : reservation_table) : reservation_table :=
  match c with
  | SqlReserve i fp now until drawn => if available now (T !! i) then <[i := reserved_row fp (token_value drawn) until]> T else T
  | SqlRenew token t until => updated (authorised token t) (renewed until) T
  | SqlComplete token encoded t until => updated (authorised token t) (completed encoded until) T
  | SqlUncertain token reason t until => updated (authorised token t) (marked reason until) T
  | SqlAbandon token t => T ∖ matching (authorised token t) T
  end.

(** The token a call draws or presents, and the clock of a reservation. *)
Definition token_of (c : sql_call) : ReservationToken :=
  match c with SqlReserve _ _ _ _ t | SqlRenew t _ _ | SqlComplete t _ _ _ | SqlUncertain t _ _ _ | SqlAbandon t _ => t end.
Definition before (t : Z) (c : sql_call) : Prop := match c with SqlReserve _ _ now _ _ => dt_instant now < t | _ => True end.

(** The other sessions: their tokens, and an instant their reservations come before. *)
Definition others (foreign : ReservationToken -> Prop) (t : Z) : relation reservation_table := fun T T' =>
  exists c, foreign (token_of c) /\ before t c /\ T' = apply_sql c T.

(** ** What the calls of others leave alone *)

Definition unused (token : ReservationToken) (T : reservation_table) : Prop := forall j r, T !! j = Some r -> row_token r <> token_value token.

(** The recorded result of a request. *)
Definition recorded (token : ReservationToken) (i : identity) (fp : RequestFingerprint) (encoded : list N) (until : datetime) (T : reservation_table) : Prop :=
  exists r, T !! i = Some r /\ row_token r = token_value token /\ row_fingerprint r = fingerprint_value fp /\
    row_state r = "completed"%py /\ row_result r = Some encoded /\ row_expires_at r = until.

Section Kept.
Variable foreign : ReservationToken -> Prop.
Variables (token : ReservationToken) (t : Z).
Hypothesis Htoken : ~ foreign token.

Lemma token_inj (a b : ReservationToken) : token_value a = token_value b -> a = b.
Proof. destruct a, b. cbn. congruence. Qed.

Lemma foreign_authorised c t' k r : foreign c -> row_token r = token_value token -> authorised c t' k r = false.
Proof.
  intros Hc Hr. unfold authorised. rewrite bool_decide_false; [done|]. rewrite Hr. intros He%token_inj. subst. done.
Qed.

(** A call of another session gives no row this token, and changes a row that has it only by
    reclaiming it. *)
Lemma other_call_lookup T T' j r : others foreign t T T' -> T' !! j = Some r -> row_token r = token_value token -> T !! j = Some r.
Proof.
  intros (c & Hc & _ & ->) Hr Ht. destruct c as [i fp now until drawn|c t' until|c encoded t' until|c reason t' until|c t']; cbn in *.
  2-4: rewrite updated_lookup in Hr; destruct (T !! j) as [r0|]; [|done]; cbn in Hr; injection Hr as <-;
    rewrite (foreign_authorised c t' j r0) in * by (done || by destruct (authorised _ _ _ _)); done.
  - destruct (available now (T !! i)); [|done]. destruct (decide (i = j)) as [->|Hj]; [|by rewrite lookup_insert_ne in Hr].
    rewrite lookup_insert_eq in Hr. injection Hr as <-. cbn in Ht. apply token_inj in Ht. by subst.
  - rewrite deleted_lookup in Hr. destruct (T !! j) as [r0|]; [|done]. by destruct (authorised c t' j r0).
Qed.

Lemma sql_unused_kept T T' : rtc (others foreign t) T T' -> unused token T -> unused token T'.
Proof. induction 1 as [|T T1 T2 Ho _ IH]; [done|]. intros Hu. apply IH. intros j r Hr Ht. eapply Hu; [|exact Ht]. by eapply other_call_lookup. Qed.

Lemma sql_recorded_kept i fp encoded until T T' : t <= dt_instant until -> rtc (others foreign t) T T' ->
  recorded token i fp encoded until T -> recorded token i fp encoded until T'.
Proof.
  intros Hle. induction 1 as [|T T1 T2 (c & Hc & Hnow & ->) _ IH]; [done|]. intros (r & Hr & Ht & Hrest). apply IH. exists r. split; [|done].
  destruct c as [j fp' now until' drawn|c t' until'|c encoded' t' until'|c reason t' until'|c t']; cbn in *;
    rewrite ?updated_lookup, ?deleted_lookup, ?Hr; cbn; rewrite ?foreign_authorised by done; try done.
  destruct (available now (T !! j)) eqn:Ha; [|done]. destruct (decide (j = i)) as [->|Hj]; [|by rewrite lookup_insert_ne].
  exfalso. rewrite Hr in Ha. cbn in Ha. unfold reclaimable in Ha. apply andb_true_iff in Ha as [Ha _]. destruct Hrest as (_ & _ & _ & Hu). rewrite Hu in Ha. time_facts. lia.
Qed.
End Kept.

(** ** A row that vanishes

    Between the insert that found the key taken and the select that locks the row, another
    session may abandon the reservation: the select finds no row, and [reserve] raises
    instead of deciding. *)

Section Example.
#[local] Existing Instance unary_uuid.
Definition vanishing : relation reservation_table := others (fun _ => True) 100.
Definition vanishing_db0 : db vanishing :=
  mkDb _ {[(mkScope "n" "s" "o", "k"%py) := mkSqlReservation "f" "z" "reserved" (utc 50) None None]} ∅ ∅ 1 0
    [exist (fun f => forall T, vanishing T (f T)) (fun T => apply_sql (SqlRenew (mkToken "z") (utc 1) (utc 60)) T) (fun T => ex_intro _ (SqlRenew (mkToken "z") (utc 1) (utc 60)) (conj I (conj I eq_refl)));
     exist (fun f => forall T, vanishing T (f T)) (fun T => apply_sql (SqlAbandon (mkToken "z") (utc 2)) T) (fun T => ex_intro _ (SqlAbandon (mkToken "z") (utc 2)) (conj I (conj I eq_refl)))].

Example reserve_of_vanished_row :
  fst (reserve (V := Z) (fun _ => Raise (ValueError "no result")) (mkScope "n" "s" "o") "k" (mkFingerprint "f") (utc 5) 60 vanishing_db0) = Raise NoResultFound.
Proof. by vm_compute. Qed.
End Example.
