(* ===== verification/SqlReceipts.v ===== *)
(** * The SQLAlchemy receipt store ([sqlalchemy/idempotency.py], [SQLAlchemyReceiptStore])

    Receipts as rows of a consumer's model. An update locks the row, compares the complete
    record, the encoded result included, with the snapshot it is given, and replaces it; of
    the sessions that update one snapshot one wins. *)
From Stdlib Require Import ZArith Lia.
From stdpp Require Import base list gmap relations.
From S2P Require Import Prelude Core Maintenance Receipts Database DatabaseModel Django DjangoReceipts SqlAlchemy.

(** A row beside its receipt ID. *)
Record sql_receipt := mkSqlReceipt {
  sql_kind : pystr; sql_state : pystr; sql_created_at : datetime; sql_updated_at : datetime;
  sql_metadata : gmap pystr json; sql_result : option (list N)
}.

#[export] Instance sql_receipt_eq_dec : EqDecision sql_receipt.
Proof. solve_decision. Defined.

Abbreviation sql_receipt_table := (gmap pystr sql_receipt).

Section Store.
Context {W T : Type} `{!EqDecision T} `{!Orm pystr sql_receipt W, !Sql pystr sql_receipt W}.
Variable encode_value : T -> result exn (list N).
Variable decode_value : list N -> result exn T.

(** [_values]. *)
Definition _values (rc : Receipt T json) : result exn sql_receipt :=
  let? encoded := (match result_ rc with None => Ok None | Some r => let? b := encode_value r in Ok (Some b) end) in
  Ok (mkSqlReceipt (kind_value (kind rc)) (state_value (state rc)) (created_at rc) (updated_at rc) (metadata rc) encoded).

Definition get (id : OpaqueId) : M exn W (option (Receipt T json)) :=
  let! row := first (opaque_value id) in
  match row with
  | None => ret None
  | Some row =>
      let! k := lift (member kind_value ReceiptKind_members (sql_kind row)) in
      let! receipt_id := OpaqueId_new (opaque_value id) in
      let! s := lift (member state_value ReceiptState_members (sql_state row)) in
      let! r := (match sql_result row with None => ret None | Some b => let! x := lift (decode_value b) in ret (Some x) end) in
      let! rc := Receipt_new true receipt_id k s (sql_created_at row) (sql_updated_at row) r (sql_metadata row) in
      ret (Some rc)
  end.

Definition add (rc : Receipt T json) : M exn W bool :=
  let! row := lift (_values rc) in
  insert_nothing (opaque_value (receipt_id rc)) row.

(** Every column of the row is the value's. *)
Definition same_record (row values : sql_receipt) : bool :=
  bool_decide (sql_kind row = sql_kind values) && bool_decide (sql_state row = sql_state values) &&
  (dt_instant (sql_created_at row) =? dt_instant (sql_created_at values)) && (dt_instant (sql_updated_at row) =? dt_instant (sql_updated_at values)) &&
  bool_decide (sql_metadata row = sql_metadata values) && bool_decide (sql_result row = sql_result values).

Definition _cas (rc target : Receipt T json) : M exn W bool :=
  let! row := locked_first (opaque_value (receipt_id rc)) in
  match row with
  | None => ret false
  | Some row =>
      let! expected := lift (_values rc) in
      if negb (same_record row expected) then ret false
      else
        let! values := lift (_values target) in
        save (opaque_value (receipt_id rc)) (fun _ => values) ;;;
        ret true
  end.

Definition transition (rc target : Receipt T json) : M exn W bool :=
  let! proposed := Receipts.transition rc (state target) (updated_at target) (result_ target) in
  match proposed with
  | ReceiptTransitioned rc' => if bool_decide (rc' = target) then _cas rc target else ret false
  | InvalidTransition _ _ _ => ret false
  end.

Definition reconcile_uncertain (rc target : Receipt T json) : M exn W bool :=
  if negb (_valid_reconciliation rc target) then ret false else _cas rc target.

Definition sql_receipt_port : ReceiptStore W T json := {|
  port_get := get; port_add := add; port_transition := transition; port_reconcile_uncertain := reconcile_uncertain
|}.
End Store.

(** ** Updates as steps on the rows *)

Definition sql_rank (row : sql_receipt) : Z := match member state_value ReceiptState_members (sql_state row) with Ok s => rank s | Raise _ => 4 end.

Lemma sql_rank_value row s : sql_state row = state_value s -> sql_rank row = rank s.
Proof. intros Hs. unfold sql_rank. rewrite Hs. by destruct s. Qed.

(** A receipt is added, or one whose record is the snapshot's moves on. *)
Inductive sql_receipt_step (R : sql_receipt_table) : sql_receipt_table -> Prop :=
  | step_add k row : R !! k = None -> sql_receipt_step R (<[k := row]> R)
  | step_move k old new s s' : R !! k = Some old -> sql_state old = state_value s -> sql_state new = state_value s' -> moves s s' ->
      sql_receipt_step R (<[k := new]> R).

(** The receipt has come at least this far. *)
Definition sql_past (k : pystr) (n : Z) (R : sql_receipt_table) : Prop := exists row, R !! k = Some row /\ n <= sql_rank row.

Lemma sql_past_kept k n R R' : rtc sql_receipt_step R R' -> sql_past k n R -> sql_past k n R'.
Proof.
  induction 1 as [|R R1 R2 Hstep _ IH]; [done|]. intros (row & Hrow & Hn). apply IH. destruct Hstep as [j row' Hj|j old new s s' Hj Hs Hs' Hm].
  - exists row. rewrite lookup_insert_ne; [done|congruence].
  - destruct (decide (j = k)) as [->|Hne]; [|exists row; by rewrite lookup_insert_ne].
    exists new. rewrite lookup_insert_eq. split; [done|]. assert (old = row) as -> by congruence.
    rewrite (sql_rank_value _ _ Hs) in Hn. rewrite (sql_rank_value _ _ Hs'). apply moves_rank in Hm. lia.
Qed.

(** ** What a session's update does *)

Section Runs.
Context {W T : Type} `{!EqDecision T} `{!Orm pystr sql_receipt W, !Session pystr sql_receipt W, !Atomic W, !Sql pystr sql_receipt W}.
Context (rely : relation sql_receipt_table) `{!OrmLaws rely, !SqlLaws rely}.
Variable encode_value : T -> result exn (list N).

Lemma values_state rc row : _values encode_value rc = Ok row -> sql_state row = state_value (state rc).
Proof. unfold _values. destruct (result_ rc) as [r|]; [destruct (encode_value r); [|done]|]; by intros [= <-]. Qed.

Lemma same_record_state row values : same_record row values = true -> sql_state row = sql_state values.
Proof. unfold same_record. rewrite !andb_true_iff, !bool_decide_eq_true. tauto. Qed.

(** An update answers [True] when the row is the snapshot's, and then it is the target's. *)
Definition cas_step (rc target : Receipt T json) (R : sql_receipt_table) (b : bool) (R' : sql_receipt_table) : Prop :=
  if b then moves (state rc) (state target) /\ exists old new, R !! opaque_value (receipt_id rc) = Some old /\
    sql_state old = state_value (state rc) /\ _values encode_value target = Ok new /\ R' = <[opaque_value (receipt_id rc) := new]> R
  else R' = R.

Lemma cas_runs rc target (w : W) : nesting w <> 0%nat -> moves (state rc) (state target) ->
  linearizes rely (_cas encode_value rc target) w (cas_step rc target) (fun _ => True).
Proof.
  intros Hn Hm. apply db_bind, (wp_locked_first rely); [|intros e w1 Hf _; by split]. intros w1 Hf Hlock.
  assert (later rely w w1 /\ exists T1, instant rely w T1 /\ cas_step rc target T1 false (rows w1)) as Hfalse.
  { split; [by apply later_follows|]. exists (rows w1). split; [apply (sees_instant rely), Hf|done]. }
  destruct (rows w1 !! opaque_value (receipt_id rc)) as [row|] eqn:Hrow; [|by apply wp_ret].
  apply db_bind, wp_lift; [|intros e _; by split]. intros expected Hexp. destruct (same_record row expected) eqn:Hsame; [|by apply wp_ret]. cbn [negb].
  apply db_bind, wp_lift; [|intros e _; by split]. intros new Hnew. apply db_bind.
  eapply (wp_save rely); [by apply Hlock|exact Hrow| |intros e w2 Hf2 _; split; [by eapply follows_trans|done]].
  intros w2 w3 Hf2 Hw. pose proof (proj2 (sees_locked rely _ _ (proj1 Hf2) _ (Hlock Hn ltac:(done)))) as Hkept.
  eapply follows_trans in Hf2; [|exact Hf]. apply wp_ret.
  split; [eapply later_trans; [by apply later_follows|by eapply later_wrote]|]. exists (rows w2). split; [apply (sees_instant rely), Hf2|].
  split; [done|]. exists row, new. split_and!; [|by rewrite (same_record_state _ _ Hsame), (values_state _ _ Hexp)|done|apply Hw].
  by rewrite Hkept.
Qed.

Lemma refused_update rc target (w : W) : linearizes rely (ret false) w (cas_step rc target) (fun _ => True).
Proof. apply wp_ret. split; [apply later_follows, follows_refl|]. exists (rows w). split; [apply (sees_instant rely), sees_refl|done]. Qed.

Lemma sql_transition_linearizes rc target (w : W) : nesting w <> 0%nat ->
  linearizes rely (transition encode_value rc target) w (cas_step rc target) (fun _ => True).
Proof.
  intros Hn. apply db_bind. unfold Receipts.transition. apply db_bind, db_raise_if; [intros _|by split; [apply follows_refl|]].
  destruct (dt_ltb (updated_at target) (updated_at rc)); [apply wp_ret, refused_update|].
  destruct (bool_decide (state target ∈ _TRANSITIONS (state rc))) eqn:Hs; cbn [negb]; [|apply wp_ret, refused_update]. apply bool_decide_eq_true in Hs.
  destruct (_ && _); [apply wp_ret, refused_update|]. apply db_bind. unfold replace_receipt, Receipt_new.
  do 4 (apply db_bind, db_raise_if; [intros _|by split; [apply follows_refl|]]). apply wp_ret, wp_ret. case_bool_decide; [|apply refused_update].
  apply cas_runs; [done|by left].
Qed.
Lemma sql_reconcile_linearizes rc target (w : W) : nesting w <> 0%nat ->
  linearizes rely (reconcile_uncertain encode_value rc target) w (cas_step rc target) (fun _ => True).
Proof.
  intros Hn. unfold reconcile_uncertain. destruct (_valid_reconciliation rc target) eqn:Hv; cbn [negb]; [|apply refused_update].
  unfold _valid_reconciliation in Hv. rewrite !andb_true_iff, !bool_decide_eq_true in Hv. destruct Hv as [[[[[[[Hu Hc] _] _] _] _] _] _].
  apply cas_runs; [done|right]. done.
Qed.

(** An update in a transaction of its own. *)
Lemma committed_update `{!SessionBegin W, !BeginLaws rely} m rc target (w : W) : nesting w = 0%nat ->
  (forall w0, nesting w0 <> 0%nat -> linearizes rely m w0 (cas_step rc target) (fun _ => True)) ->
  wp (begin m) w (fun r w' => exists R, rtc rely (rows w) R /\ exists R', cas_step rc target R r.1 R' /\
    (r.2 = None -> nesting w' = 0%nat /\ rows w' = R')) (fun e w' => follows rely w w').
Proof.
  intros Hn Hm. apply (wp_begin rely); [done|]. intros w0 He. eapply db_mono; [apply Hm; rewrite (entered_nesting _ _ He); lia| |by auto].
  intros b w1 (_ & R & HR & Hs) w2 Hl. apply (entered_instant rely w w0 R He), (instant_top rely) in HR; [|done].
  split; [|intros e w3 _]; exists R; (split; [done|]); exists (rows w1); (split; [done|]); [intros _|done].
  by split; [rewrite (left_nesting _ _ _ Hl)|apply Hl].
Qed.
End Runs.

(** Of all updates of one snapshot of a receipt one wins: after a transition or a
    reconciliation of the snapshot was committed with [True], every later one of the same
    snapshot, in a transaction of its own, answers [False] or raises, whatever receipts other
    sessions add and update in between. *)
Theorem sql_receipt_update_once {W T} `{!EqDecision T} `{!Orm pystr sql_receipt W, !Session pystr sql_receipt W, !Atomic W, !Sql pystr sql_receipt W, !SessionBegin W}
    `{!OrmLaws sql_receipt_step, !SqlLaws sql_receipt_step, !BeginLaws sql_receipt_step} encode_value (rc target target2 : Receipt T json) (w0 w1 : W) : nesting w0 = 0%nat ->
  begin (transition encode_value rc target) w0 = (Ok (true, None), w1) \/ begin (reconcile_uncertain encode_value rc target) w0 = (Ok (true, None), w1) ->
  wp (begin (transition encode_value rc target2)) w1 (fun r _ => r.1 = false) (fun _ w2 => follows sql_receipt_step w1 w2) /\
  wp (begin (reconcile_uncertain encode_value rc target2)) w1 (fun r _ => r.1 = false) (fun _ w2 => follows sql_receipt_step w1 w2).
Proof.
  intros Hn Hrun. assert (nesting w1 = 0%nat /\ sql_past (opaque_value (receipt_id rc)) (rank (state rc) + 1) (rows w1)) as [Hn1 Hpast].
  { pose proof (committed_update sql_receipt_step encode_value (transition encode_value rc target) rc target w0 Hn (sql_transition_linearizes sql_receipt_step encode_value rc target)) as Ht.
    pose proof (committed_update sql_receipt_step encode_value (reconcile_uncertain encode_value rc target) rc target w0 Hn (sql_reconcile_linearizes sql_receipt_step encode_value rc target)) as Hr.
    unfold wp in Ht, Hr. assert (exists R, rtc sql_receipt_step (rows w0) R /\ exists R', cas_step encode_value rc target R true R' /\
      (None (A := exn) = None -> nesting w1 = 0%nat /\ rows w1 = R')) as (R & _ & R' & (Hm & old & new & _ & _ & Hnew & ->) & Hend)
      by (destruct Hrun as [Hrun|Hrun]; [rewrite Hrun in Ht; exact Ht|rewrite Hrun in Hr; exact Hr]).
    destruct (Hend eq_refl) as [Hn1 Hrows]. split; [done|]. rewrite Hrows. exists new. rewrite lookup_insert_eq. split; [done|].
    rewrite (sql_rank_value _ _ (values_state encode_value _ _ Hnew)). apply moves_rank in Hm. lia. }
  assert (forall m, (forall w0, nesting w0 <> 0%nat -> linearizes sql_receipt_step m w0 (cas_step encode_value rc target2) (fun _ => True)) ->
    wp (begin m) w1 (fun r _ => r.1 = false) (fun _ w2 => follows sql_receipt_step w1 w2)) as Hlose.
  { intros m Hm. eapply db_mono; [by apply (committed_update sql_receipt_step encode_value m rc target2)| |done]. intros [b err] w2 (R & HR & R' & Hstep & _). cbn in *.
    apply (sql_past_kept _ _ _ _ HR) in Hpast as (row & Hrow & Hrank). destruct b; [|done]. exfalso. destruct Hstep as (_ & old & new & Hold & Hs & _).
    assert (old = row) as -> by congruence. rewrite (sql_rank_value _ _ Hs) in Hrank. lia. }
  split; apply Hlose; [apply (sql_transition_linearizes sql_receipt_step)|apply (sql_reconcile_linearizes sql_receipt_step)].
Qed.

(** ** Two concrete updates of one snapshot *)

Section Example.
#[local] Existing Instance unary_uuid.
Abbreviation sql_receipt_db := (db sql_receipt_step).

Definition demo_record (s : pystr) (at_ : Z) (r : option (list N)) : sql_receipt := mkSqlReceipt "operation" s (utc 1) (utc at_) ∅ r.
Definition sql_receipt_db0 : sql_receipt_db := mkDb _ {["r"%py := demo_record "processing" 2 None]} ∅ ∅ 0 0 [].

Definition encode_number (n : Z) : result exn (list N) := Ok [Z.to_N n].
Definition snapshot (s : ReceiptState) (at_ : Z) (r : option Z) : Receipt Z json := mkReceipt true (mkOpaqueId "r") OPERATION s (utc 1) (utc at_) r ∅.
#[local] Instance receipt_begin : SessionBegin sql_receipt_db := db_begin sql_receipt_step (fun _ => None).
#[local] Instance receipt_begin_laws : BeginLaws sql_receipt_step := db_begin_laws sql_receipt_step (fun _ => None).

Definition first_update : M exn sql_receipt_db (bool * option exn) := begin (transition encode_number (snapshot PROCESSING 2 None) (snapshot COMPLETED 5 (Some 7))).
Definition second_update : M exn sql_receipt_db (bool * option exn) := begin (transition encode_number (snapshot PROCESSING 2 None) (snapshot REJECTED 6 None)).
Definition sql_receipt_db1 : sql_receipt_db := after first_update sql_receipt_db0.

Lemma sql_receipt_update_once_witness :
  answers_with first_update sql_receipt_db0 (true, None) /\ answers_with second_update sql_receipt_db1 (false, None) /\
  wp second_update sql_receipt_db1 (fun r _ => r.1 = false) (fun _ w2 => follows sql_receipt_step sql_receipt_db1 w2) /\
  wp (begin (reconcile_uncertain encode_number (snapshot PROCESSING 2 None) (snapshot REJECTED 6 None))) sql_receipt_db1
    (fun r _ => r.1 = false) (fun _ w2 => follows sql_receipt_step sql_receipt_db1 w2).
Proof.
  split; [by vm_compute|]. split; [by vm_compute|].
  apply (sql_receipt_update_once encode_number (snapshot PROCESSING 2 None) (snapshot COMPLETED 5 (Some 7)) (snapshot REJECTED 6 None) sql_receipt_db0 sql_receipt_db1); [by vm_compute|left].
  apply (answers_after first_update). by vm_compute.
Defined.
End Example.
