(* ===== verification/SqlRequests.v ===== *)
(** * The idempotent request ([sqlalchemy/idempotency.py], [SQLAlchemyIdempotentRequest])

    One transaction that reserves a key, runs the mutation, records its result and its
    receipt; a commit whose answer was lost is reconciled by a lookup, never repeated. The
    rows of the reservations end with the completed row of the request or with nothing of it,
    and a request that committed is replayed. *)
From Stdlib Require Import ZArith Lia.
From stdpp Require Import base list gmap relations.
From S2P Require Import Prelude Core Maintenance Idempotency Receipts Database DatabaseModel Django SqlAlchemy SqlReceipts SqlIdempotency.

Inductive request_result (V : Type) :=
  | RequestCommitted (value : V) (receipt : Receipt V json)
  | RequestDecision (d : IdempotencyDecision V).
Arguments RequestCommitted {V}.
Arguments RequestDecision {V}.

Definition RuntimeError (m : pystr) : exn := OtherError "RuntimeError" m.

Section Request.
Context {W V : Type} `{!EqDecision V} `{!Orm identity sql_reservation W, !Sql identity sql_reservation W, !Orm pystr sql_receipt W, !Sql pystr sql_receipt W}.
Context `{!Uuid W, !DatabaseClock W, !SessionBegin W, !Clock W}.
Variable encode_value : V -> result exn (list N).
Variable decode_value : option (list N) -> result exn V.
Variable policy : IdempotencyPolicy.
(** [session.flush()] of what the mutation added to the session. *)
Variable flush : M exn W unit.

(** The block of the transaction: a decision that returns early, or the value and receipt
    with which [committing] is set. *)
Definition request_body (scope : IdempotencyScope) (key : pystr) (fingerprint : RequestFingerprint) (receipt_id : OpaqueId) (mutate : M exn W V) :
    M exn W (IdempotencyDecision V + V * Receipt V json) :=
  let! now := clock_now in
  let! decision := reserve decode_value scope key fingerprint now (execution_lease_ttl policy) in
  match decision with
  | Execute token =>
      let! created_at := clock_now in
      let! value := mutate in
      let! now := clock_now in
      let! completed := complete encode_value token value now (result_retention_ttl policy) in
      match completed with
      | CompleteStale => raise (RuntimeError "idempotency execution authority expired")
      | ReservationCompleted _ =>
          let! receipt := Receipt_new true receipt_id OPERATION COMPLETED created_at (greatest created_at now) (Some value) ∅ in
          let! added := SqlReceipts.add encode_value receipt in
          raise_if (negb added) (ValueError "receipt identity already exists") ;;;
          flush ;;;
          ret (inr (value, receipt))
      end
  | d => ret (inl d)
  end.

(** The block of [reconcile]. *)
Definition reconcile_body (scope : IdempotencyScope) (key : pystr) (fingerprint : RequestFingerprint) : M exn W (IdempotencyDecision V) :=
  let! now := clock_now in
  let! found := lookup decode_value scope key fingerprint now in
  ret (default (Uncertain "no confirmed commit evidence") found).

Definition reconcile (scope : IdempotencyScope) (key : pystr) (fingerprint : RequestFingerprint) : M exn W (IdempotencyDecision V) :=
  try_except
    (let! r := begin (reconcile_body scope key fingerprint) in
     match r.2 with None => ret r.1 | Some e => raise e end)
    (fun e => if is_cancelled e then raise e else ret (Uncertain "reconciliation unavailable")).

Definition execute (scope : IdempotencyScope) (key : pystr) (fingerprint : RequestFingerprint) (receipt_id : OpaqueId) (mutate : M exn W V) :
    M exn W (request_result V) :=
  let! r := begin (request_body scope key fingerprint receipt_id mutate) in
  match r with
  | (inl d, None) => ret (RequestDecision d)
  | (inr (value, receipt), None) => ret (RequestCommitted value receipt)
  | (inl _, Some e) => raise e
  | (inr _, Some e) =>
      if is_cancelled e then raise e
      else let! d := reconcile scope key fingerprint in ret (RequestDecision d)
  end.
End Request.

(** ** What the transaction does to the reservations *)

Section Runs.
Context {W V : Type} `{!EqDecision V} `{!Orm identity sql_reservation W, !Session identity sql_reservation W, !Atomic W, !Sql identity sql_reservation W}.
Context `{!Orm pystr sql_receipt W, !Sql pystr sql_receipt W, !Uuid W, !DatabaseClock W, !SessionBegin W, !Clock W}.
Variable encode_value : V -> result exn (list N).
Variable decode_value : option (list N) -> result exn V.
Variable policy : IdempotencyPolicy.
Variable flush : M exn W unit.

(** The other sessions' tokens, an instant their reservations come before, and the earliest
    reading of this session's clock. *)
Variable foreign : ReservationToken -> Prop.
Variables (t lo : Z).
Abbreviation rely := (others foreign t).
Context `{!OrmLaws rely, !SqlLaws rely, !BeginLaws rely, !UuidLaws, !DatabaseClockLaws}.

Hypothesis Hclock : forall w, wp clock_now w (fun now w' => follows rely w w' /\ lo <= dt_instant now < t) (fun _ _ => False).
Hypothesis Hreceipts : forall rc, aside rely (SqlReceipts.add encode_value rc).
Hypothesis Hflush : aside rely flush.

(** What [uuid4] may return. *)
Definition drawn (token : ReservationToken) : Prop := exists w w', uuid4 w = (Ok (token_value token), w').
(** This session's tokens are its own. *)
Definition fresh (T0 : reservation_table) : Prop := forall token, drawn token -> ~ foreign token /\ unused token T0.

Lemma sql_reserve_runs scope key fp now ttl T0 (w : W) : fresh T0 -> clean w -> nesting w <> 0%nat -> rtc rely T0 (base w) ->
  wp (reserve decode_value scope key fp now ttl) w
    (fun d w' => nesting w' = nesting w /\ match d with
       | Execute token => ~ foreign token /\ unused token T0 /\ exists until,
           alone rely T0 (scope, key) (fun o => available now o = true) (reserved_row fp (token_value token) until) w'
       | d => clean w' /\ rtc rely T0 (base w') /\ exists row, base w' !! (scope, key) = Some row /\ _decision decode_value row fp = Ok d
       end) (fun _ _ => True).
Proof.
  intros Hfresh Hc Hn Hb. do 2 (apply db_bind, db_raise_if; [intros _|done]). apply db_bind, db_bind, db_raise_if; [intros _|done]. apply wp_ret.
  apply db_bind, (wp_uuid4 rely). intros hex w1 Hdraw Hne Hf1 _.
  assert (~ foreign (mkToken hex) /\ unused (mkToken hex) T0) as [Hforeign Hunused] by (apply Hfresh; by exists w, w1).
  apply db_bind, wp_lift; [|done]. intros u _. assert (nesting w1 <> 0%nat) as Hn1 by (by rewrite (proj2 Hf1)).
  pose proof (clean_follows rely _ _ Hc Hf1) as Hc1. assert (rtc rely T0 (base w1)) as Hb1 by (etrans; [exact Hb|apply (proj1 Hf1)]).
  apply db_bind, (wp_insert_nothing rely); [| |done].
  - intros w2 w3 Hf2 Hnone Hw. apply db_bind. unfold ReservationToken_new. apply db_bind, db_raise_if; [intros _|done]. apply wp_ret, wp_ret.
    pose proof (clean_follows rely _ _ Hc1 Hf2) as Hc2.
    split; [rewrite (wrote_nesting _ _ _ Hw), (proj2 Hf2); apply Hf1|]. split; [done|]. split; [done|]. exists u.
    eapply (alone_written rely); [exact Hc2|by rewrite (proj2 Hf2)|etrans; [exact Hb1|apply (proj1 Hf2)]|by rewrite <- Hc2, Hnone|left; by rewrite Hnone|exact Hw].
  - intros w2 Hf2 _. pose proof (clean_follows rely _ _ Hc1 Hf2) as Hc2. assert (nesting w2 <> 0%nat) as Hn2 by (by rewrite (proj2 Hf2)).
    apply db_bind, (wp_locked_first rely); [|done]. intros w3 Hf3 Hlock. pose proof (clean_follows rely _ _ Hc2 Hf3) as Hc3.
    assert (rtc rely T0 (base w3)) as Hb3 by (etrans; [exact Hb1|etrans; [apply (proj1 Hf2)|apply (proj1 Hf3)]]).
    assert (nesting w3 = nesting w) as Hn3 by (by rewrite (proj2 Hf3), (proj2 Hf2), (proj2 Hf1)).
    apply db_bind, wp_scalar_one; [|done]. intros row Hrow. destruct (reclaimable now row) eqn:Hrec.
    + apply db_bind, wp_lift; [|done]. intros again _. apply db_bind. eapply (wp_save rely); [apply Hlock; [done|by rewrite Hrow]|exact Hrow| |done].
      intros w4 w5 Hf4 Hw. apply db_bind. unfold ReservationToken_new. apply db_bind, db_raise_if; [intros _|done]. apply wp_ret, wp_ret.
      pose proof (clean_follows rely _ _ Hc3 Hf4) as Hc4. assert ((scope, key) ∈ held w3) as Hh by (apply Hlock; [done|by rewrite Hrow]).
      split; [by rewrite (wrote_nesting _ _ _ Hw), (proj2 Hf4)|]. split; [done|]. split; [done|]. exists again.
      eapply (alone_written rely); [exact Hc4|by rewrite (proj2 Hf4), Hn3|etrans; [exact Hb3|apply (proj1 Hf4)]| |right; by apply (sees_held rely _ _ (proj1 Hf4))|exact Hw].
      by rewrite (proj1 (sees_locked rely _ _ (proj1 Hf4) _ Hh)), <- Hc3, Hrow.
    + apply wp_lift; [|done]. intros d Hd. split; [done|].
      assert (clean w3 /\ rtc rely T0 (base w3) /\ exists row, base w3 !! (scope, key) = Some row /\ _decision decode_value row fp = Ok d) as Hdec
        by (split_and!; [done..|]; exists row; by rewrite <- Hc3).
      destruct d as [token| | | |]; [|done..]. exfalso. unfold _decision in Hd. repeat case_match; try done. by destruct (decode_value _).
Qed.

(** A change under the token of the transaction's own row changes that row, or is stale. *)
Lemma change_runs T0 i ok row token now values (w : W) : alone rely T0 i ok row w -> ~ foreign token -> unused token T0 -> row_token row = token_value token ->
  wp (_change token now values) w (fun b w' => alone rely T0 i ok (if b : bool then values row else row) w') (fun _ _ => True).
Proof.
  intros Ha Hforeign Hunused Htoken. apply db_bind, (wp_lock_rows rely); [|done]. intros w1 Hf1. eapply (alone_follows rely) in Ha; [|exact Hf1].
  apply db_bind, db_raise_if; [intros _|done]. apply db_bind, (wp_clock_timestamp rely). intros at_ w2 Hf2 _. eapply (alone_follows rely) in Ha; [|exact Hf2].
  apply db_bind, (wp_update_where rely); [|done]. intros w3 w4 Hf3 Hw. eapply (alone_follows rely) in Ha; [|exact Hf3].
  apply wp_scalar_one_or_none; [|done]. set (p := authorised token (greatest now at_)) in *.
  assert (forall k r, rows w3 !! k = Some r -> p k r = true -> k = i /\ r = row) as Hsole.
  { intros k r Hr Hp. rewrite (alone_rows _ _ _ _ _ _ Ha) in Hr. destruct (decide (k = i)) as [->|Hk]; [rewrite lookup_insert_eq in Hr; by injection Hr|].
    exfalso. rewrite lookup_insert_ne in Hr by done. unfold p, authorised in Hp. rewrite !andb_true_iff, !bool_decide_eq_true in Hp. destruct Hp as [[Hp _] _].
    by apply (sql_unused_kept foreign token t Hforeign _ _ (alone_base _ _ _ _ _ _ Ha) Hunused k r). }
  destruct (p i row) eqn:Hp.
  - assert (Z.of_nat (size (matching p (rows w3))) <> 0) as Hne.
    { assert (matching p (rows w3) !! i = Some row) as Hm by (apply matching_lookup; split; [by rewrite (alone_rows _ _ _ _ _ _ Ha), lookup_insert_eq|done]).
      assert (size (matching p (rows w3)) <> 0%nat); [|lia]. intros He%map_size_empty_inv. by rewrite He in Hm. }
    rewrite (proj2 (Z.eqb_neq _ _) Hne). cbn [negb]. eapply (alone_rewritten rely); [exact Ha|].
    replace (<[i:=values row]> (rows w3)) with (updated p values (rows w3)); [done|]. apply map_eq. intros k. rewrite updated_lookup.
    destruct (decide (k = i)) as [->|Hk]; [by rewrite (alone_rows _ _ _ _ _ _ Ha), !lookup_insert_eq; cbn; rewrite Hp|]. rewrite lookup_insert_ne by done.
    destruct (rows w3 !! k) as [r|] eqn:Hr; [|done]. cbn. destruct (p k r) eqn:Hpk; [by destruct (Hsole k r Hr Hpk)|done].
  - assert (matching p (rows w3) = ∅) as He.
    { apply map_eq. intros k. rewrite lookup_empty. destruct (matching p (rows w3) !! k) as [r|] eqn:Hm; [|done].
      apply matching_lookup in Hm as [Hr Hpk]. destruct (Hsole k r Hr Hpk) as [-> ->]. congruence. }
    rewrite He, map_size_empty. cbn. eapply (alone_rewritten rely _ _ _ row); [exact Ha|].
    replace (<[i:=row]> (rows w3)) with (updated p values (rows w3)); [done|]. apply map_eq. intros k. rewrite updated_lookup.
    destruct (decide (k = i)) as [->|Hk]; [rewrite (alone_rows _ _ _ _ _ _ Ha), !lookup_insert_eq; cbn; by rewrite Hp|]. rewrite lookup_insert_ne by done.
    destruct (rows w3 !! k) as [r|] eqn:Hr; [|done]. cbn. destruct (p k r) eqn:Hpk; [by destruct (Hsole k r Hr Hpk)|done].
Qed.

(** The rows with the completed row of a request, over rows [T] where the identity was free. *)
Definition committed (T0 : reservation_table) (i : identity) (fp : RequestFingerprint) (value : V) (T1 : reservation_table) : Prop :=
  exists T now token encoded u, rtc rely T0 T /\ available now (T !! i) = true /\ ~ foreign token /\ encode_value value = Ok encoded /\
    lo + result_retention_ttl policy <= dt_instant u /\ T1 = <[i := mkSqlReservation (fingerprint_value fp) (token_value token) "completed" u (Some encoded) None]> T.

(** The block of the request: a decision over unchanged rows, or its completed row over the
    rows the others committed. *)
Definition body_ends (T0 : reservation_table) (i : identity) (fp : RequestFingerprint) (r : IdempotencyDecision V + V * Receipt V json) (w : W) : Prop :=
  match r with
  | inl d => clean w /\ rtc rely T0 (base w) /\ exists row, base w !! i = Some row /\ _decision decode_value row fp = Ok d
  | inr (value, receipt) => committed T0 i fp value (rows w) /\ result_ receipt = Some value
  end.

Lemma body_runs scope key fp receipt_id mutate T0 (w : W) : fresh T0 -> clean w -> nesting w <> 0%nat -> rtc rely T0 (base w) -> aside rely mutate ->
  wp (request_body encode_value decode_value policy flush scope key fp receipt_id mutate) w
    (fun r w' => body_ends T0 (scope, key) fp r w') (fun _ _ => True).
Proof.
  intros Hfresh Hc Hn Hb Hmutate. apply db_bind. eapply db_mono; [apply Hclock| |done]. intros now w1 [Hf1 Hnow].
  apply db_bind. eapply db_mono; [apply (sql_reserve_runs scope key fp now _ T0); [done|by eapply (clean_follows rely)|by rewrite (proj2 Hf1)|etrans; [exact Hb|apply (proj1 Hf1)]]| |done].
  intros d w2 [Hn2 Hd]. destruct d as [token| | | |]; [|apply wp_ret; exact Hd..]. destruct Hd as (Hforeign & Hunused & u & Ha).
  apply db_bind. eapply db_mono; [apply Hclock| |done]. intros created w3 [Hf3 _]. eapply (alone_follows rely) in Ha; [|exact Hf3].
  apply db_bind. eapply db_mono; [apply Hmutate| |done]. intros value w4 Hf4. eapply (alone_follows rely) in Ha; [|exact Hf4].
  apply db_bind. eapply db_mono; [apply Hclock| |done]. intros finished w5 [Hf5 Hfinished]. eapply (alone_follows rely) in Ha; [|exact Hf5].
  apply db_bind. unfold complete. apply db_bind, db_raise_if; [intros _|done]. apply db_bind, wp_lift; [|done]. intros encoded Hencoded.
  apply db_bind, wp_lift; [|done]. intros retained Hretained. apply db_bind. eapply db_mono; [by eapply change_runs| |done].
  intros [|] w6 Ha6; apply wp_ret; [|by apply db_raise]. apply db_bind. unfold Receipt_new. do 4 (apply db_bind, db_raise_if; [intros _|done]). apply wp_ret.
  apply db_bind. eapply db_mono; [apply Hreceipts| |done]. intros added w7 Hf7. eapply (alone_follows rely) in Ha6; [|exact Hf7].
  apply db_bind, db_raise_if; [intros _|done]. apply db_bind. eapply db_mono; [apply Hflush| |done]. intros [] w8 Hf8. eapply (alone_follows rely) in Ha6; [|exact Hf8].
  apply wp_ret. cbn. split; [|done]. exists (base w8), now, token, encoded, retained. split_and!; [apply Ha6|apply Ha6|done|done| |apply Ha6].
  apply dt_add_ok in Hretained as [-> _]. lia.
Qed.

(** Everything a request may have left: what others committed, before or after its row. *)
Definition reached (T0 : reservation_table) (i : identity) (fp : RequestFingerprint) (T : reservation_table) : Prop :=
  rtc rely T0 T \/ exists value T1, committed T0 i fp value T1 /\ rtc rely T1 T.

Lemma reached_follows T0 i fp (w w' : W) : nesting w = 0%nat -> reached T0 i fp (rows w) -> follows rely w w' -> reached T0 i fp (rows w').
Proof.
  intros Hn Hr [Hs Hn']. assert (rtc rely (rows w) (rows w')) as Hrows by (rewrite !(all_clean rely) by congruence; apply Hs).
  destruct Hr as [Hr|(value & T1 & Hc & Hr)]; [left; by etrans|right; exists value, T1; split; [done|by etrans]].
Qed.

(** The answer of a decision is that of a row that was committed. *)
Definition evidence (T0 : reservation_table) (i : identity) (fp : RequestFingerprint) (d : IdempotencyDecision V) : Prop :=
  (exists T row, reached T0 i fp T /\ T !! i = Some row /\ _decision decode_value row fp = Ok d) \/
  d = Uncertain "no confirmed commit evidence" \/ d = Uncertain "reconciliation unavailable".

(** What a lookup answered, and what it left. *)
Definition reconciled (T0 : reservation_table) (i : identity) (fp : RequestFingerprint) (d : IdempotencyDecision V) (w : W) : Prop :=
  nesting w = 0%nat /\ reached T0 i fp (rows w) /\ evidence T0 i fp d.

(** The block of a lookup reads rows that were committed. *)
Lemma reconcile_body_runs scope key fp T0 (w0 : W) : clean w0 -> reached T0 (scope, key) fp (base w0) ->
  wp (reconcile_body decode_value scope key fp) w0 (fun d w2 => follows rely w0 w2 /\ evidence T0 (scope, key) fp d) (fun _ _ => True).
Proof.
  intros Hc Hr. apply db_bind. eapply db_mono; [apply Hclock| |done]. intros now w1 [Hf1 _].
  apply db_bind. unfold lookup. apply db_bind, db_raise_if; [intros _|done]. apply db_bind, db_bind, db_raise_if; [intros _|done]. apply wp_ret.
  apply db_bind, (wp_first rely); [|done]. intros w2 Hf2. assert (follows rely w0 w2) as Hf by (by eapply follows_trans).
  assert (reached T0 (scope, key) fp (rows w2)) as Hr2.
  { pose proof (sees_base _ _ _ (proj1 Hf)) as Hb. rewrite <- (clean_follows rely _ _ Hc Hf) in Hb.
    destruct Hr as [Hr|(value & T1 & Hcm & Hr)]; [left; by etrans|right; exists value, T1; split; [done|by etrans]]. }
  destruct (rows w2 !! (scope, key)) as [row|] eqn:Hrow; [destruct (reclaimable now row)|].
  - do 2 apply wp_ret. split; [done|]. right. by left.
  - apply db_bind, wp_lift; [|done]. intros d Hd. do 2 apply wp_ret. split; [done|]. left. by exists (rows w2), row.
  - do 2 apply wp_ret. split; [done|]. right. by left.
Qed.

Lemma reconcile_runs scope key fp T0 (w : W) : nesting w = 0%nat -> reached T0 (scope, key) fp (rows w) ->
  wp (reconcile decode_value scope key fp) w (reconciled T0 (scope, key) fp) (fun e w' => reached T0 (scope, key) fp (rows w')).
Proof.
  intros Hn Hr. apply wp_try_except.
  assert (forall e w1, follows rely w w1 -> wp (if is_cancelled e then raise e else ret (Uncertain "reconciliation unavailable")) w1
    (reconciled T0 (scope, key) fp) (fun e w' => reached T0 (scope, key) fp (rows w'))) as Hexcept.
  { intros e w1 Hf. destruct (is_cancelled e); [apply db_raise|apply wp_ret]; [by eapply reached_follows|].
    split; [by rewrite (proj2 Hf)|]. split; [by eapply reached_follows|right; by right]. }
  apply db_bind, (wp_begin rely); [done|]. intros w0 He. eapply db_mono; [apply (reconcile_body_runs scope key fp T0)| |].
  - unfold clean. rewrite (entered_rows _ _ He), (entered_base _ _ He). by apply (all_clean rely).
  - by rewrite (entered_base _ _ He), <- (all_clean rely).
  - intros d w1 [Hf1 Hd] w2 Hl. pose proof (left_sees rely w w0 w1 w2 He (proj1 Hf1) Hl) as Hf2. split.
    + apply wp_ret. split; [by rewrite (proj2 Hf2)|]. split; [by eapply reached_follows|done].
    + intros e w3 Hw3. apply db_raise, Hexcept. destruct Hw3 as [Hw3|]; [by eapply follows_trans|done].
  - intros e w1 _ w2 Hf2. by apply Hexcept.
Qed.

Abbreviation request := (execute encode_value decode_value policy flush).

(** One request, whatever its commit answers. *)
Lemma request_outcome scope key fp receipt_id mutate (w : W) : nesting w = 0%nat -> fresh (rows w) -> aside rely mutate ->
  wp (request scope key fp receipt_id mutate) w
    (fun r w' => nesting w' = 0%nat /\ match r with
       | RequestCommitted value receipt => committed (rows w) (scope, key) fp value (rows w') /\ result_ receipt = Some value
       | RequestDecision d => reached (rows w) (scope, key) fp (rows w') /\ evidence (rows w) (scope, key) fp d
       end) (fun _ w' => reached (rows w) (scope, key) fp (rows w')).
Proof.
  intros Hn Hfresh Hmutate. assert (reached (rows w) (scope, key) fp (rows w)) as Hnothing by (by left).
  apply db_bind, (wp_begin rely); [done|]. intros w0 He. eapply db_mono; [apply (body_runs scope key fp receipt_id mutate (rows w))| |].
  - done.
  - unfold clean. rewrite (entered_rows _ _ He), (entered_base _ _ He). by apply (all_clean rely).
  - rewrite (entered_nesting _ _ He). lia.
  - by rewrite (entered_base _ _ He), <- (all_clean rely).
  - done.
  - intros r w1 Hends w2 Hl. assert (nesting w2 = 0%nat) as Hn2 by (by rewrite (left_nesting _ _ _ Hl)).
    assert (reached (rows w) (scope, key) fp (rows w2)) as Hr2.
    { rewrite (left_rows _ _ _ Hl). destruct r as [d|[value receipt]]; [left; by destruct Hends as (-> & ? & _)|right]. exists value, (rows w1). by split; [apply Hends|]. }
    assert (forall w3, follows rely w2 w3 \/ follows rely w w3 -> nesting w3 = 0%nat /\ reached (rows w) (scope, key) fp (rows w3)) as Hlost
      by (intros w3 [Hf|Hf]; (split; [by rewrite (proj2 Hf)|]); [by apply (reached_follows _ _ _ w2)|by apply (reached_follows _ _ _ w)]).
    split; [|intros e w3 Hw3; destruct (Hlost w3 Hw3) as [Hn3 Hr3]]; destruct r as [d|[value receipt]].
    + apply wp_ret. split; [done|]. split; [done|]. destruct Hends as (Hc & Hb & row & Hrow & Hd). left. exists (base w1), row. by split; [left|].
    + apply wp_ret. split; [done|]. by rewrite (left_rows _ _ _ Hl).
    + by apply db_raise.
    + destruct (is_cancelled e); [by apply db_raise|]. apply db_bind. eapply db_mono; [by apply (reconcile_runs scope key fp (rows w))| |done].
      intros d w4 (Hn4 & Hr4 & Hd). apply wp_ret. done.
  - intros e w1 _ w2 Hf2. by eapply reached_follows.
Qed.

(** A reservation that meets a recorded result replays it. *)
Lemma recorded_reserve token scope key fp encoded until_ now ttl (w : W) : ~ foreign token -> t <= dt_instant until_ -> dt_instant now < t -> clean w ->
  recorded token (scope, key) fp encoded until_ (base w) ->
  wp (reserve decode_value scope key fp now ttl) w (fun d w' => follows rely w w' /\ exists replayed, decode_value (Some encoded) = Ok replayed /\ d = Replay (Some replayed)) (fun _ _ => True).
Proof.
  intros Hforeign Hle Hnow Hc Hrec. do 2 (apply db_bind, db_raise_if; [intros _|done]). apply db_bind, db_bind, db_raise_if; [intros _|done]. apply wp_ret.
  apply db_bind, (wp_uuid4 rely). intros hex w1 _ _ Hf1 _. apply db_bind, wp_lift; [|done]. intros u _.
  assert (forall w', follows rely w w' -> exists row, rows w' !! (scope, key) = Some row /\ row_fingerprint row = fingerprint_value fp /\
    row_state row = "completed"%py /\ row_result row = Some encoded /\ row_expires_at row = until_) as Hkept.
  { intros w' Hf. rewrite (clean_follows rely _ _ Hc Hf). destruct (sql_recorded_kept foreign token t Hforeign _ _ _ _ _ _ Hle (sees_base _ _ _ (proj1 Hf)) Hrec) as (row & Hrow & _ & Hrest). by exists row. }
  apply db_bind, (wp_insert_nothing rely); [| |done].
  - intros w2 w3 Hf2 Hnone _. exfalso. destruct (Hkept w2) as (row & Hrow & _); [by eapply follows_trans|congruence].
  - intros w2 Hf2 _. apply db_bind, (wp_locked_first rely); [|done]. intros w3 Hf3 _.
    assert (follows rely w w3) as Hf by (eapply follows_trans; [by eapply follows_trans|done]).
    destruct (Hkept w3 Hf) as (row & Hrow & Hfp & Hstate & Hresult & Hexp). rewrite Hrow.
    apply db_bind, wp_scalar_one; [|done]. intros row' [= <-]. assert (reclaimable now row = false) as ->.
    { unfold reclaimable. rewrite Hexp. replace (dt_leb until_ now) with false; [done|]. symmetry. apply dt_leb_gt. lia. }
    apply wp_lift; [|done]. intros d Hd. unfold _decision in Hd. rewrite Hfp, Hstate, Hresult, !bool_decide_true in Hd by done. cbn in Hd.
    destruct (decode_value (Some encoded)) as [replayed|]; [|done]. injection Hd as <-. split; [done|]. by exists replayed.
Qed.

(** C4. A request that committed is replayed and not run again: after a request answered
    [RequestCommitted] with a value, every later request of the identity with the same
    fingerprint, while the clocks read less than the retention, answers [Replay] of the
    recorded value whatever its mutation is, or raises and leaves the rows to the others. *)
Theorem sql_request_once scope key fp receipt_id mutate w0 value receipt w1 receipt_id2 mutate2 : nesting w0 = 0%nat -> fresh (rows w0) -> aside rely mutate ->
  request scope key fp receipt_id mutate w0 = (Ok (RequestCommitted value receipt), w1) -> t <= lo + result_retention_ttl policy ->
  wp (request scope key fp receipt_id2 mutate2) w1
    (fun r _ => exists encoded replayed, encode_value value = Ok encoded /\ decode_value (Some encoded) = Ok replayed /\ r = RequestDecision (Replay (Some replayed)))
    (fun _ w2 => rtc rely (rows w1) (rows w2)).
Proof.
  intros Hn Hfresh Hmutate Hrun Ht.
  assert (nesting w1 = 0%nat /\ committed (rows w0) (scope, key) fp value (rows w1)) as [Hn1 (T & now & token & encoded & u & _ & _ & Hforeign & Hencoded & Hle & Hrows)].
  { pose proof (request_outcome scope key fp receipt_id mutate w0 Hn Hfresh Hmutate) as Hwp. unfold wp in Hwp. rewrite Hrun in Hwp. by destruct Hwp as [? [? _]]. }
  assert (recorded token (scope, key) fp encoded u (rows w1)) as Hrec by (rewrite Hrows; eexists; by rewrite lookup_insert_eq).
  assert (forall w2, follows rely w1 w2 -> rtc rely (rows w1) (rows w2)) as Hcommits by (intros w2 [Hs Hn2]; rewrite !(all_clean rely) by congruence; apply Hs).
  apply db_bind, (wp_begin rely); [done|]. intros w2 He.
  assert (clean w2) as Hc2 by (unfold clean; rewrite (entered_rows _ _ He), (entered_base _ _ He); by apply (all_clean rely)).
  apply db_bind. eapply db_mono; [apply Hclock| |done]. intros now2 w3 [Hf3 Hnow2].
  apply db_bind. eapply db_mono; [apply (recorded_reserve token scope key fp encoded u now2); [done|lia|lia|by eapply (clean_follows rely)|]| |].
  - eapply (sql_recorded_kept foreign token t Hforeign); [|apply (sees_base _ _ _ (proj1 Hf3))|]; [lia|]. by rewrite (entered_base _ _ He), <- (all_clean rely).
  - intros d w4 [Hf4 (replayed & Hdec & ->)]. apply wp_ret. intros w5 Hl.
    assert (follows rely w1 w5) as Hf5 by (eapply (left_sees rely w1 w2 w4); [done|exact (proj1 (follows_trans _ _ _ _ Hf3 Hf4))|done]).
    split; [apply wp_ret; by exists encoded, replayed|]. intros e w6 [Hf6|Hf6]; apply db_raise, Hcommits; [by eapply follows_trans|done].
  - intros e w4 _ w5 Hf5. by apply Hcommits.
Qed.

(** C3. A request leaves its completed row, or nothing: whatever the mutation, the database
    and the answer of the commit do, the reservations end as the other sessions made them, or
    as they made them before and after one step in which the identity was free and the
    completed row of this request took it. [RequestCommitted] is answered in the second case
    only, with the recorded value; any other decision is that of a row that was committed,
    or says that there is no evidence; and a request that raises left one of the two as well.
    The mutation, the receipts and the flush work on other tables, and this session's tokens
    are its own. *)
Theorem sql_request_all_or_nothing scope key fp receipt_id mutate (w : W) : nesting w = 0%nat -> fresh (rows w) -> aside rely mutate ->
  wp (request scope key fp receipt_id mutate) w
    (fun r w' => match r with
       | RequestCommitted value receipt => committed (rows w) (scope, key) fp value (rows w') /\ result_ receipt = Some value
       | RequestDecision d => reached (rows w) (scope, key) fp (rows w') /\ evidence (rows w) (scope, key) fp d
       end) (fun _ w' => reached (rows w) (scope, key) fp (rows w')).
Proof. intros Hn Hfresh Hmutate. eapply db_mono; [by apply request_outcome|by intros r w' [_ Hr]|done]. Qed.
End Runs.

(** ** Concrete requests: another session's reservation of the identity has expired, and the
    answer of the commit is lost. *)

Section Example.
#[local] Existing Instance unary_uuid.
#[local] Existing Instance unary_uuid_laws.

Definition their_token (token : ReservationToken) : Prop := token_value token = "z"%py.
Abbreviation their_calls := (others their_token 100).
Abbreviation request_db := (db their_calls).

Definition their_call (c : sql_call) (Hc : their_token (token_of c)) (Hnow : before 100 c) : { f : reservation_table -> reservation_table | forall T, their_calls T (f T) } :=
  exist _ (apply_sql c) (fun T => ex_intro _ c (conj Hc (conj Hnow eq_refl))).

Definition request_scope : IdempotencyScope := mkScope "n" "s" "o".
Definition request_db0 : request_db :=
  mkDb _ ∅ ∅ ∅ 0 0
    [their_call (SqlReserve (request_scope, "k")%py (mkFingerprint "g") (utc 1) (utc 3) (mkToken "z")) eq_refl eq_refl;
     their_call (SqlReserve (request_scope, "other")%py (mkFingerprint "g") (utc 1) (utc 50) (mkToken "z")) eq_refl eq_refl;
     their_call (SqlRenew (mkToken "z") (utc 10) (utc 60)) eq_refl I;
     their_call (SqlReserve (request_scope, "k")%py (mkFingerprint "f") (utc 99) (utc 140) (mkToken "z")) eq_refl eq_refl;
     their_call (SqlAbandon (mkToken "z") (utc 10)) eq_refl I;
     their_call (SqlReserve (request_scope, "k")%py (mkFingerprint "g") (utc 99) (utc 140) (mkToken "z")) eq_refl eq_refl].

Definition write_number (n : Z) : result exn (list N) := Ok [Z.to_N n].
Definition read_number (b : option (list N)) : result exn Z := match b with Some [n] => Ok (Z.of_N n) | _ => Raise (ValueError "not a number") end.

(** The receipts are kept in another table. *)
#[local] Instance other_receipts : Sql pystr sql_receipt request_db := {| insert_nothing := fun _ _ => ret true; lock_rows := fun _ => ret tt |}.
#[local] Instance request_clock : Clock request_db := ret (utc 5).

(** The answer of the commit after the request's five statements; later commits answer. *)
Definition lossy (answer : option bool) (w : request_db) : option bool := match db_others _ w with [_] => answer | _ => None end.
Definition demo_request (answer : option bool) (n : Z) : M exn request_db (request_result Z) :=
  execute (SessionBegin0 := db_begin their_calls (lossy answer)) write_number read_number (mkPolicy 60 100 100) (ret tt) request_scope "k" (mkFingerprint "f") (mkOpaqueId "r") (ret n).
Definition demo_receipt (n : Z) : Receipt Z json := mkReceipt true (mkOpaqueId "r") OPERATION COMPLETED (utc 5) (utc 5) (Some n) ∅.
Definition request_db1 : request_db := after (demo_request None 7) request_db0.

Lemma request_token token : drawn (W := request_db) token -> ~ their_token token /\ unused token (rows request_db0).
Proof.
  intros (w & w' & Hd). split.
  - unfold their_token. injection Hd as Hd _. rewrite <- Hd. unfold uuid4_hex, unary_uuid. by destruct (db_draws _ w).
  - intros j r Hr. assert (rows request_db0 = ∅) as He by (by vm_compute). by rewrite He in Hr.
Qed.
Lemma request_aside {A} (a : A) : aside (W := request_db) their_calls (ret a).
Proof. intros w. apply wp_ret, follows_refl. Qed.
Lemma request_receipts rc : aside their_calls (SqlReceipts.add (W := request_db) write_number rc).
Proof. apply (aside_bind their_calls); [intros w; apply wp_lift; [intros ? _; apply follows_refl|done]|intros row; apply request_aside]. Qed.
Lemma request_clock_bounds (w : request_db) : wp clock_now w (fun now w' => follows their_calls w w' /\ 5 <= dt_instant now < 100) (fun _ _ => False).
Proof. apply wp_ret. split; [apply follows_refl|done]. Qed.

(** The commit took effect and its answer was lost: the lookup replays the result. The commit
    was lost: there is no evidence. *)
Lemma sql_request_all_or_nothing_witness :
  answers_with (demo_request (Some true) 7) request_db0 (RequestDecision (Replay (Some 7))) /\
  answers_with (demo_request (Some false) 7) request_db0 (RequestDecision (Uncertain "no confirmed commit evidence")) /\
  wp (demo_request (Some true) 7) request_db0
    (fun r w' => match r with
       | RequestCommitted value receipt =>
           committed write_number (mkPolicy 60 100 100) their_token 100 5 (rows request_db0) (request_scope, "k"%py) (mkFingerprint "f") value (rows w') /\ result_ receipt = Some value
       | RequestDecision d =>
           reached write_number (mkPolicy 60 100 100) their_token 100 5 (rows request_db0) (request_scope, "k"%py) (mkFingerprint "f") (rows w') /\
           evidence write_number read_number (mkPolicy 60 100 100) their_token 100 5 (rows request_db0) (request_scope, "k"%py) (mkFingerprint "f") d
       end)
    (fun _ w' => reached write_number (mkPolicy 60 100 100) their_token 100 5 (rows request_db0) (request_scope, "k"%py) (mkFingerprint "f") (rows w')).
Proof.
  split; [by vm_compute|]. split; [by vm_compute|].
  apply (sql_request_all_or_nothing (SessionBegin0 := db_begin their_calls (lossy (Some true))) write_number read_number (mkPolicy 60 100 100) (ret tt) their_token 100 5
    (BeginLaws0 := db_begin_laws their_calls (lossy (Some true)))).
  - exact request_clock_bounds.
  - exact request_receipts.
  - apply request_aside.
  - done.
  - exact request_token.
  - apply request_aside.
Defined.

Lemma sql_request_once_witness :
  answers_with (demo_request None 7) request_db0 (RequestCommitted 7 (demo_receipt 7)) /\
  answers_with (demo_request None 8) request_db1 (RequestDecision (Replay (Some 7))) /\
  wp (demo_request None 8) request_db1
    (fun r _ => exists encoded replayed, write_number 7 = Ok encoded /\ read_number (Some encoded) = Ok replayed /\ r = RequestDecision (Replay (Some replayed)))
    (fun _ w2 => rtc their_calls (rows request_db1) (rows w2)).
Proof.
  split; [by vm_compute|]. split; [by vm_compute|].
  apply (sql_request_once (SessionBegin0 := db_begin their_calls (lossy None)) write_number read_number (mkPolicy 60 100 100) (ret tt) their_token 100 5
    (BeginLaws0 := db_begin_laws their_calls (lossy None))) with (mutate := ret 7) (w0 := request_db0) (receipt_id := mkOpaqueId "r") (receipt := demo_receipt 7).
  - exact request_clock_bounds.
  - exact request_receipts.
  - apply request_aside.
  - done.
  - exact request_token.
  - apply request_aside.
  - apply (answers_after (demo_request None 7)). by vm_compute.
  - done.
Defined.
End Example.
