(* ===== verification/SqlOutbox.v ===== *)
(** * The SQLAlchemy relay store ([sqlalchemy/stores.py], [sqlalchemy/relay.py])

    The outbox of a caller's session, and the store behind the asynchronous relay that runs
    each operation in a session and a transaction of its own. The rows are those of
    [RelayRows], with the bytes of the payload. The relay store keeps [RelayContract], also
    when a commit raises after it took effect. *)
From Stdlib Require Import ZArith Lia.
From stdpp Require Import base list gmap relations.
From S2P Require Import Prelude Core Maintenance Outbox Resilience AsyncOutbox Database DatabaseModel Django DjangoOutbox RelayRows SqlAlchemy.

(** [octet_length(payload)] of a [bytea] column. *)
Definition octet_length (payload : list N) : Z := Z.of_nat (length payload).

(** ** The outbox of a session *)

Section Store.
Context {W P : Type} `{!Orm pystr (relay_row (list N)) W, !Sql pystr (relay_row (list N)) W, !Uuid W, !DatabaseClock W}.
Variable encode : P -> result exn (list N).
Variable decode : list N -> result exn P.
(** The order of message IDs in the database's collation. *)
Variable collate : pystr -> pystr -> bool.

Definition _utc (t : datetime) : M exn W unit := check_utc t "store timestamps must be timezone-aware UTC".

Definition add (e : OutboxEnvelope P) : M exn W OutboxAddResult :=
  let! encoded := lift (encode (payload e)) in
  let! added := insert_nothing (opaque_value (message_id e)) (new_row (added_row encoded e)) in
  ret (if added : bool then OutboxAdded else OutboxDuplicate).

Definition outbox_claim_statement (now : datetime) (limit : Z) : M exn W (M exn W (list (pystr * relay_row (list N)))) :=
  _utc now ;;;
  raise_if (limit <=? 0) (ValueError "claim limit must be a positive integer") ;;;
  ret (locked_query (relay_claimable now) (relay_order collate) limit).

(** Both queries of a claim with a byte budget carry the limit. *)
Definition claim (now : datetime) (limit : Z) (claim_ttl : timedelta) (max_bytes : option Z) : M exn W (list (OutboxClaim P)) :=
  _utc now ;;;
  raise_if (limit <=? 0) (ValueError "claim limit must be a positive integer") ;;;
  raise_if (claim_ttl <=? 0) (ValueError "claim ttl must be positive") ;;;
  let! statement := outbox_claim_statement now limit in
  let! found := match max_bytes with
    | None => statement
    | Some m =>
        raise_if (m <=? 0) (ValueError "max_bytes must be positive") ;;;
        select_rows collate octet_length now limit max_bytes (fun _ => limit)
    end in
  claim_rows decode now claim_ttl found.

(** The update reads the clock once for its condition, and once more for a column set to
    [greatest(at, clock_timestamp())]. *)
Definition _settle (c : OutboxClaim P) (at_ : datetime) (values : datetime -> relay_row (list N) -> relay_row (list N)) : M exn W SettlementResult :=
  _utc at_ ;;;
  lock_rows (fun k _ => bool_decide (k = opaque_value (message_id (claim_envelope c)))) ;;;
  let! t := clock_timestamp in
  let! t' := clock_timestamp in
  let! n := update_where (authorised c (greatest at_ t)) (released (values (greatest at_ t'))) in
  let! changed := scalar_one_or_none n in
  ret (if changed : bool then APPLIED else STALE).

Definition delivered (c : OutboxClaim P) (at_ : datetime) : M exn W SettlementResult := _settle c at_ set_delivered.

Definition retry (c : OutboxClaim P) (available at_ : datetime) : M exn W SettlementResult :=
  _utc available ;;;
  _settle c at_ (fun _ => set_retry available).

Definition defer (c : OutboxClaim P) (available at_ : datetime) : M exn W SettlementResult :=
  _utc available ;;;
  let! r := _settle c at_ (fun _ => set_available available) in
  ret (if settlement_bool r then DEFERRED else r).

Definition uncertain (c : OutboxClaim P) (reason : pystr) (at_ : datetime) : M exn W SettlementResult :=
  raise_if (str_empty reason) (ValueError "uncertainty reason must not be empty") ;;;
  _settle c at_ (fun _ => set_uncertain reason at_).

Definition failed (c : OutboxClaim P) (reason : pystr) (at_ : datetime) : M exn W SettlementResult :=
  raise_if (str_empty reason) (ValueError "outbox failure reason must not be empty") ;;;
  _settle c at_ (set_failed reason).

Definition resolve_uncertain (id : OpaqueId) (expected : datetime) (was_delivered : bool) (available at_ : datetime) : M exn W SettlementResult :=
  _utc expected ;;; _utc available ;;; _utc at_ ;;;
  let! n := update_where (unresolved id expected) (resolved_row was_delivered available at_) in
  let! changed := scalar_one_or_none n in
  ret (if changed : bool then APPLIED else STALE).
End Store.

(** ** The relay store *)

Section Relay.
Context {W P : Type} `{!Orm pystr (relay_row (list N)) W, !Sql pystr (relay_row (list N)) W, !Uuid W, !DatabaseClock W, !SessionBegin W}.
Variable encode : P -> result exn (list N).
Variable decode : list N -> result exn P.
Variable collate : pystr -> pystr -> bool.

(** [SQLAlchemyRelayStore]. *)
Definition SQLAlchemyRelayStore : AsyncOutboxStore W P := {|
  aport_add := fun e => in_session (add encode e);
  aport_claim := fun now limit claim_ttl max_bytes => in_session (claim decode collate now limit claim_ttl max_bytes);
  aport_delivered := fun c at_ => in_session (delivered c at_);
  aport_retry := fun c available at_ => in_session (retry c available at_);
  aport_defer := fun c available at_ => in_session (defer c available at_);
  aport_uncertain := fun c reason at_ => in_session (uncertain c reason at_);
  aport_resolve_uncertain := fun id expected was_delivered available at_ => in_session (resolve_uncertain id expected was_delivered available at_);
  aport_failed := fun c reason at_ => in_session (failed c reason at_)
|}.
End Relay.

(** ** Runs *)

Section Runs.
Context {W P : Type} `{!Orm pystr (relay_row (list N)) W, !Session pystr (relay_row (list N)) W, !Sql pystr (relay_row (list N)) W}.
Context `{!Atomic W, !Uuid W, !DatabaseClock W, !SessionBegin W}.
Context (rely : relation (relay_table (list N))) `{!OrmLaws rely, !SqlLaws rely, !UuidLaws, !DatabaseClockLaws, !BeginLaws rely}.
Variable encode : P -> result exn (list N).
Variable decode : list N -> result exn P.
Variable collate : pystr -> pystr -> bool.

#[local] Hint Resolve raises_failure raises_refused : core.
Abbreviation raises := (raises (W := W) decode).

Lemma wp_one_row (n : nat) (w : W) (Q : bool -> W -> Prop) (X : exn -> W -> Prop) :
  (n <= 1)%nat -> Q (negb (Z.of_nat n =? 0)) w -> wp (scalar_one_or_none (Z.of_nat n)) w Q X.
Proof. intros Hn HQ. unfold scalar_one_or_none. destruct n as [|[|n]]; [exact HQ..|lia]. Qed.

Lemma authorised_one (c : OutboxClaim P) t (T : relay_table (list N)) : (size (matching (authorised c t) T) <= 1)%nat.
Proof.
  apply (matching_one _ (opaque_value (message_id (claim_envelope c)))). intros j r. unfold authorised. rewrite !andb_true_iff, bool_decide_eq_true. tauto.
Qed.

(** A settlement acts in one step, at readings of the database's clock. *)
Lemma sql_settle_linearizes (c : OutboxClaim P) at_ values (w : W) :
  linearizes rely (_settle c at_ values) w (fun T r T' => exists t', settle_step c at_ (values t') T r T') raises.
Proof.
  apply (linearizes_check rely); [auto|intros _]. apply db_bind, (wp_lock_rows rely); [|by auto]. intros w1 Hf1.
  apply db_bind, (wp_clock_timestamp rely). intros t w2 Hf2 _. eapply follows_trans in Hf2; [|exact Hf1].
  apply db_bind, (wp_clock_timestamp rely). intros t' w3 Hf3 _. eapply follows_trans in Hf3; [|exact Hf2].
  apply db_bind, (wp_update_where rely).
  - intros w4 w5 Hf4 Hw. eapply follows_trans in Hf4; [|exact Hf3]. apply db_bind, wp_one_row; [apply authorised_one|]. apply wp_ret.
    split; [eapply later_trans; [by apply later_follows|by eapply later_wrote]|].
    exists (rows w4). split; [apply (sees_instant rely), Hf4|]. exists (greatest at_ t'), t. split; [apply Hw|]. by destruct (_ =? 0).
  - intros e w4 Hf4 He. split; [by eapply follows_trans|auto].
Qed.
Lemma sql_failed_linearizes (c : OutboxClaim P) reason at_ (w : W) :
  linearizes rely (failed c reason at_) w (fun T r T' => exists t', settle_step c at_ (set_failed reason t') T r T') raises.
Proof. apply (linearizes_check rely); [auto|intros _; apply sql_settle_linearizes]. Qed.
Lemma sql_uncertain_linearizes (c : OutboxClaim P) reason at_ (w : W) :
  linearizes rely (uncertain c reason at_) w (fun T r T' => exists t' : datetime, settle_step c at_ (set_uncertain reason at_) T r T') raises.
Proof. apply (linearizes_check rely); [auto|intros _; apply (sql_settle_linearizes c at_ (fun _ => set_uncertain reason at_))]. Qed.

Lemma sql_claim_run now limit ttl max_bytes (w : W) : nesting w <> 0%nat ->
  wp (claim decode collate now limit ttl max_bytes) w
    (fun claims _ => exists T, instant rely w T /\ handed_out decode octet_length now limit ttl max_bytes T claims) (fun e _ => raises e).
Proof.
  intros Hn. assert (forall b, 0 <= octet_length b) as Hbytes by (intros b; unfold octet_length; lia).
  apply db_bind, db_raise_if; [intros _|by auto]. apply db_bind, db_raise_if; [intros Hlimit%Z.leb_gt|by auto].
  apply db_bind, db_raise_if; [intros _|by auto]. apply db_bind, db_bind, db_raise_if; [intros _|by auto].
  apply db_bind, db_raise_if; [intros _|by auto]. apply wp_ret. apply (claim_selected rely decode collate octet_length Hbytes). destruct max_bytes as [m|].
  - apply db_bind, db_raise_if; [intros Hm%Z.leb_gt|by auto]. apply (select_run rely decode collate octet_length Hbytes); [done..|lia].
  - apply (wp_locked_query rely); [|by auto]. intros l w1 [Hs1 Hn1] Hnd Hin Hlock Hlen.
    split; [split; [congruence|]|]. 2: split_and!; [done|lia|].
    + intros kr Hkr. split; [apply Hlock; [congruence|by apply list_elem_of_fmap_2]|by apply Hin].
    + exists (rows w1). split; [by apply (sees_instant rely)|]. by split.
Qed.

Lemma sql_applied_row (c : OutboxClaim P) at_ (values : datetime -> relay_row (list N) -> relay_row (list N)) (m : M exn W SettlementResult) w0 w1 : nesting w0 = 0%nat ->
  (forall w, linearizes rely m w (fun T r T' => exists t', settle_step c at_ (values t') T r T') raises) -> in_session m w0 = (Ok APPLIED, w1) ->
  nesting w1 = 0%nat /\ exists t' row, rows w1 !! opaque_value (message_id (claim_envelope c)) = Some (released (values t') row).
Proof.
  intros Hn Hm Hrun.
  assert (wp (in_session m) w0 (fun r w' => r = APPLIED -> nesting w' = 0%nat /\ exists t' row, rows w' !! opaque_value (message_id (claim_envelope c)) = Some (released (values t') row))
    (fun _ _ => True)) as Hw; [|unfold wp in Hw; rewrite Hrun in Hw; by apply Hw].
  apply (wp_session rely); [done| |done]. intros w He. eapply db_mono; [apply Hm| |done]. intros r w2 (_ & T & _ & t' & Hstep) w3 Hl ->.
  split; [by rewrite (left_nesting _ _ _ Hl)|]. exists t'. rewrite (left_rows _ _ _ Hl). by eapply settle_step_row.
Qed.

Lemma sql_relay_contract :
  RelayContract rely (SQLAlchemyRelayStore encode decode collate) decode octet_length (fun _ _ w' => nesting w' = 0%nat).
Proof.
  split.
  - intros c at_ w0 w1 Hn Hrun. eapply sql_applied_row in Hrun as [Hn1 (t' & row & Hrow)]; [|done|apply sql_settle_linearizes].
    split; [done|]. eexists. split; [exact Hrow|]. left. by eexists.
  - intros c reason at_ w0 w1 Hn Hrun. eapply sql_applied_row in Hrun as [Hn1 (t' & row & Hrow)]; [|done|apply sql_failed_linearizes].
    split; [done|]. eexists. split; [exact Hrow|]. right. by eexists.
  - intros c reason at_ w0 w1 Hn Hrun. eapply (sql_applied_row _ _ (fun _ => set_uncertain reason at_)) in Hrun as [Hn1 (t' & row & Hrow)]; [|done|apply sql_uncertain_linearizes].
    split; [done|]. eexists. split; [exact Hrow|]. right. by eexists.
  - intros now limit ttl max_bytes w Hn. apply (wp_session rely); [done| |done]. intros w0 He. eapply db_mono; [apply sql_claim_run; rewrite (entered_nesting _ _ He); lia| |done].
    intros claims w1 (T & HT & Hc) w2 _. exists T. split; [|done]. by apply (entered_instant rely w w0).
Qed.
End Runs.


(** ** A concrete history: another session claims the second message. *)

Section Example.
#[local] Existing Instance unary_uuid.
#[local] Existing Instance unary_uuid_laws.

(** Nobody resolves the message a. *)
Definition sql_allowed (call : relay_call (list N) Z) : Prop := resolves "a" call = false.
Abbreviation sql_relay_db := (db (relay_calls sql_allowed)).
Definition their_claim : relay_call (list N) Z := CallClaim (utc 9) (utc 40) (fun k => if bool_decide (k = "b"%py) then Some "z"%py else None).
Definition their_step : { f : relay_table (list N) -> relay_table (list N) | forall T, relay_calls sql_allowed T (f T) } :=
  exist _ (apply_relay their_claim) (fun T => ex_intro _ their_claim (conj eq_refl eq_refl)).
Definition waiting (at_ : datetime) (payload : list N) : relay_row (list N) := new_row (mkOutboxRow "topic" payload at_ at_ 0 None None None None None).
Definition sql_relay_db0 : sql_relay_db :=
  mkDb _ {["a"%py := waiting (utc 1) [7%N]; "b"%py := waiting (utc 2) [7%N]; "c"%py := waiting (utc 3) [7%N]; "d"%py := waiting (utc 4) [7%N; 7%N]]} ∅ ∅ 0 0
    (repeat their_step 9).

(** The answers of the commits near the end of the history are lost, after they took effect. *)
Definition late_loss (w : sql_relay_db) : option bool := if bool_decide (length (db_others _ w) < 2)%nat then Some true else None.
Definition read_bytes (b : list N) : result exn Z := match b with n :: _ => Ok (Z.of_N n) | [] => Raise (ValueError "empty") end.
Abbreviation late_begin := (db_begin (relay_calls sql_allowed) late_loss).
Abbreviation demo_relay := (SQLAlchemyRelayStore (SessionBegin0 := late_begin) (W := sql_relay_db)
  (fun n => Ok [Z.to_N n]) read_bytes (fun a b => bool_decide (str_compare a b <> Gt))).
Definition sql_claim (now : datetime) (max_bytes : option Z) : M exn sql_relay_db (list (OutboxClaim Z)) :=
  aport_claim (AsyncOutboxStore := demo_relay) now 3 20 max_bytes.
Definition sql_failed (at_ : datetime) : M exn sql_relay_db SettlementResult :=
  aport_failed (AsyncOutboxStore := demo_relay) (demo_claim "a" "a" (utc 1) 30) "unroutable" at_.
Definition sql_claimed : sql_relay_db := after (sql_claim (utc 10) (Some 2)) sql_relay_db0.
Definition sql_failed_db : sql_relay_db := after (sql_failed (utc 12)) sql_claimed.
Definition sql_lost_db : sql_relay_db := after (sql_claim (utc 90) None) sql_failed_db.

End Example.
