(* ===== verification/SqlInbox.v ===== *)
(** * The SQLAlchemy inbox, checkpoint and quarantine stores ([sqlalchemy/stores.py])

    The stores over a caller's session: deliveries reserved by an insert that yields to an
    existing row and completed under the database's clock, checkpoints changed by
    compare-and-set, rejected deliveries kept once. The rows and the steps of the inbox are
    those of [DjangoInbox]. *)
From Stdlib Require Import ZArith Lia.
From stdpp Require Import base list gmap relations.
From S2P Require Import Prelude Core Maintenance Inbox Quarantine Checkpoints Database DatabaseModel Django DjangoInbox DjangoCheckpoints SqlAlchemy.

(** ** The inbox *)

(** [SQLAlchemyInboxStore(session, model, capacity=...)]. *)
Definition SQLAlchemyInboxStore_new {S} (capacity : option Z) : M exn S (option Z) :=
  raise_if (match capacity with Some c => c <=? 0 | None => false end) (ValueError "capacity must be positive when specified") ;;;
  ret capacity.

Section Inbox.
Context {W : Type} `{!Orm inbox_key inbox_row W, !Sql inbox_key inbox_row W, !DatabaseClock W}.

Definition _utc (t : datetime) : M exn W unit := check_utc t "store timestamps must be timezone-aware UTC".

Definition _locked (key : inbox_key) : M exn W (option inbox_row) := locked_first key.

(** The attributes set on a row that may be taken. *)
Definition retaken (token : pystr) (until : datetime) (row : inbox_row) : inbox_row := mkInboxRow token until (row_completed row).

Definition begin (scope : InboxScope) (message_id : OpaqueId) (token : pystr) (now : datetime) (ttl : timedelta) : M exn W InboxDecision :=
  _utc now ;;;
  raise_if (str_empty token || (ttl <=? 0)) (ValueError "token and a positive ttl are required") ;;;
  let key := (scope, opaque_value message_id) in
  let! until := lift (dt_add now ttl) in
  let! inserted := insert_nothing key (mkInboxRow token until None) in
  if inserted : bool then ret (InboxAccepted token)
  else
    let! found := locked_first key in
    let! row := scalar_one found in
    match kept now row with
    | Some d => ret d
    | None =>
        let! again := lift (dt_add now ttl) in
        save key (retaken token again) ;;;
        ret (InboxAccepted token)
    end.

(** The update reads the clock for its condition, and again for the column. *)
Definition complete (scope : InboxScope) (message_id : OpaqueId) (token : pystr) (now : datetime) : M exn W bool :=
  _utc now ;;;
  let key := (scope, opaque_value message_id) in
  let! _ := _locked key in
  let! t := clock_timestamp in
  let! t' := clock_timestamp in
  let! n := update_where (completable key token (greatest now t)) (completed_row (greatest now t')) in
  scalar_one_or_none n.

Definition abandon (scope : InboxScope) (message_id : OpaqueId) (token : pystr) : M exn W bool :=
  let key := (scope, opaque_value message_id) in
  let! found := _locked key in
  match found with
  | None => ret false
  | Some row =>
      if negb (bool_decide (row_reservation row = token)) || negb (bool_decide (row_completed row = None)) then ret false
      else delete_row key ;;; ret true
  end.

(** The store behind the port. *)
Definition sql_inbox_port : InboxStore W := {| port_begin := begin; port_inbox_complete := complete; port_inbox_abandon := abandon |}.
End Inbox.

(** ** The checkpoints *)

Definition _stream {S} (stream : pystr) : M exn S unit := raise_if (str_empty stream) (ValueError "checkpoint stream must not be empty").

Section CheckpointStore.
(** A row beside its stream: the bytes of the checkpoint. *)
Context {W : Type} `{!Orm pystr (list N) W, !Sql pystr (list N) W}.

Definition load (stream : pystr) : M exn W (option Checkpoint) :=
  _stream stream ;;;
  let! row := first stream in checkpoint_of row.
Definition load_for_update (stream : pystr) : M exn W (option Checkpoint) :=
  _stream stream ;;;
  let! row := locked_first stream in checkpoint_of row.
Definition advance (stream : pystr) (expected : option Checkpoint) (c : Checkpoint) : M exn W bool :=
  _stream stream ;;;
  match expected with
  | None => insert_nothing stream (value c)
  | Some e =>
      let! n := update_where (is_row stream (value e)) (fun _ => value c) in
      scalar_one_or_none n
  end.

Definition sql_checkpoint_port : CheckpointStore W := {| port_load := load; Checkpoints.port_load_for_update := load_for_update; port_advance := advance |}.
End CheckpointStore.

(** ** The quarantine *)

(** [SQLAlchemyRejectedDeliveryStore.add]; a row beside its quarantine ID. *)
Definition rejected_add {W} `{!Orm pystr RejectedDelivery W, !Sql pystr RejectedDelivery W} (delivery : RejectedDelivery) : M exn W bool :=
  insert_nothing (quarantine_id delivery) delivery.
Definition sql_rejected_port {W} `{!Orm pystr RejectedDelivery W, !Sql pystr RejectedDelivery W} : RejectedDeliveryStore W := rejected_add.

(** ** Runs *)

(** What a transaction has done to a key, the rest of its rows untouched: nothing, or it holds
    the key's row, over a committed row that [kept] lets it take. *)
Section Runs.
Context {W : Type} `{!Orm inbox_key inbox_row W, !Session inbox_key inbox_row W, !Sql inbox_key inbox_row W, !Atomic W, !DatabaseClock W}.
Context (rely : relation inbox_table) `{!OrmLaws rely, !SqlLaws rely, !DatabaseClockLaws}.

Record idle (T0 : inbox_table) (w : W) : Prop := {
  idle_clean : clean w;
  idle_nesting : nesting w <> 0%nat;
  idle_base : rtc rely T0 (base w)
}.
Lemma idle_follows T0 w w1 : idle T0 w -> follows rely w w1 -> idle T0 w1.
Proof.
  intros [Hc Hn Hb] Hf. split; [by eapply (clean_follows rely)|rewrite (proj2 Hf); done|]. etrans; [exact Hb|apply Hf].
Qed.

(** A transaction that is open, whatever it wrote. *)
Record begun (T0 : inbox_table) (w : W) : Prop := {
  begun_nesting : nesting w <> 0%nat;
  begun_base : rtc rely T0 (base w)
}.
Lemma begun_follows T0 w w1 : begun T0 w -> follows rely w w1 -> begun T0 w1.
Proof. intros [Hn Hb] Hf. split; [by rewrite (proj2 Hf)|]. etrans; [exact Hb|apply Hf]. Qed.
Lemma idle_begun T0 w : idle T0 w -> begun T0 w.
Proof. by intros []. Qed.

(** Free at [now]: no row, or one whose reservation ran out. *)
Definition takeable (now : datetime) (row : option inbox_row) : Prop := row ≫= kept now = None.

Definition held_by (T0 : inbox_table) (key : inbox_key) (now : datetime) (row : inbox_row) : W -> Prop := alone rely T0 key (takeable now) row.

Lemma held_begun T0 key now row w : held_by T0 key now row w -> begun T0 w.
Proof. by intros []. Qed.
#[local] Hint Resolve idle_begun held_begun begun_follows idle_follows : core.

Definition reserved (T0 : inbox_table) (key : inbox_key) (token : pystr) (now : datetime) (d : InboxDecision) (w : W) : Prop :=
  match d with
  | InboxAccepted drawn => drawn = token /\ exists until, held_by T0 key now (mkInboxRow token until None) w
  | InboxDuplicate at_ => idle T0 w /\ delivered key at_ (rows w)
  | _ => idle T0 w /\ forall at_, ~ delivered key at_ (rows w)
  end.

Lemma kept_undecided now row : kept now row = None -> row_completed row = None.
Proof. unfold kept. by destruct (row_completed row). Qed.
Lemma kept_reserved T0 key token now row d w : idle T0 w -> rows w !! key = Some row -> kept now row = Some d -> reserved T0 key token now d w.
Proof.
  unfold kept. intros Hi Hr Hk. destruct (row_completed row) as [at_|] eqn:Hc; [|destruct (dt_ltb _ _); [|done]]; injection Hk as <-; (split; [done|]).
  - by exists row.
  - intros at_ (r & Hr' & Hc'). congruence.
Qed.

Lemma inbox_begin_runs scope message_id token now ttl T0 w : idle T0 w ->
  wp (begin scope message_id token now ttl) w (reserved T0 (scope, opaque_value message_id) token now) (fun _ => begun T0).
Proof.
  intros Hi. set (key := (scope, opaque_value message_id)). do 2 (apply db_bind, db_raise_if;[intros _|by auto]).
  apply db_bind, wp_lift; [|by eauto]. intros until' _. apply db_bind, (wp_insert_nothing rely); [| |by eauto].
  - intros w1 w2 Hf Hnone Hw. eapply idle_follows in Hf as Hi1; [|done]. apply wp_ret. split; [done|]. exists until'.
    eapply (alone_written rely); [apply Hi1..| | |done].
    + rewrite <- (idle_clean _ _ Hi1). unfold takeable. fold key in Hnone |- *. by rewrite Hnone.
    + left. fold key in Hnone |- *. by rewrite Hnone.
  - intros w1 Hf _. eapply idle_follows in Hf as Hi1; [|done]. apply db_bind, (wp_locked_first rely); [|by eauto]. intros w2 Hf2 Hlock.
    eapply idle_follows in Hi1 as Hi2; [|done]. apply db_bind, wp_scalar_one; [|by eauto]. intros row Hrow. destruct (kept now row) as [d|] eqn:Hk.
    + apply wp_ret. by eapply kept_reserved.
    + assert (key ∈ held w2) as Hheld by (apply Hlock; [apply Hi1|by eexists]).
      apply db_bind, wp_lift; [|by eauto]. intros again _. apply db_bind. eapply (wp_save rely); [done|done| |by eauto]. intros w3 w4 Hf3 Hw.
      eapply idle_follows in Hi2 as Hi3; [|done]. destruct (sees_locked rely _ _ (proj1 Hf3) key Hheld) as [_ Hrow3].
      apply wp_ret. split; [done|]. exists again. unfold retaken in Hw. rewrite (kept_undecided _ _ Hk) in Hw.
      eapply (alone_written rely); [apply Hi3..| | |exact Hw].
      * unfold takeable. fold key in Hrow, Hrow3 |- *. rewrite <- (idle_clean _ _ Hi3), Hrow3, Hrow. exact Hk.
      * right. by apply (sees_held rely _ _ (proj1 Hf3)).
Qed.

(** A completion of the row this transaction reserved. *)
Lemma inbox_complete_runs scope message_id token now now0 until T0 w : held_by T0 (scope, opaque_value message_id) now0 (mkInboxRow token until None) w ->
  wp (complete scope message_id token now) w
    (fun b w' => if b : bool then exists at_, held_by T0 (scope, opaque_value message_id) now0 (mkInboxRow token until (Some at_)) w'
                 else held_by T0 (scope, opaque_value message_id) now0 (mkInboxRow token until None) w') (fun _ => begun T0).
Proof.
  set (key := (scope, opaque_value message_id)). intros Ha. apply db_bind, db_raise_if; [intros _|by eauto].
  apply db_bind, (wp_locked_first rely); [|by eauto]. intros w1 Hf1 _. eapply (alone_follows rely) in Ha; [|exact Hf1].
  apply db_bind, (wp_clock_timestamp rely). intros t w2 Hf2 _. eapply (alone_follows rely) in Ha; [|exact Hf2].
  apply db_bind, (wp_clock_timestamp rely). intros t' w3 Hf3 _. eapply (alone_follows rely) in Ha; [|exact Hf3].
  apply db_bind, (wp_update_where rely); [|by eauto]. intros w4 w5 Hf4 Hw. eapply (alone_follows rely) in Ha; [|exact Hf4].
  fold key in Hw |- *. assert (rows w4 !! key = Some (mkInboxRow token until None)) as Hrow by (by rewrite (alone_rows _ _ _ _ _ _ Ha), lookup_insert_eq).
  destruct (matching_key (completable key token (greatest now t)) (completed_row (greatest now t')) key (mkInboxRow token until None) (rows w4)) as [Hsize Hup]; [|done|].
  { intros j r. unfold completable. rewrite !andb_true_iff, bool_decide_eq_true. tauto. }
  rewrite Hup in Hw. rewrite Hsize. destruct (completable _ _ _ _ _).
  - apply wp_ret. exists (greatest now t'). by eapply (alone_rewritten rely).
  - apply wp_ret. eapply (alone_rewritten rely); [exact Ha|]. rewrite (alone_rows _ _ _ _ _ _ Ha) in Hw. by rewrite (alone_rows _ _ _ _ _ _ Ha), insert_insert_eq.
Qed.
End Runs.
