(* ===== verification/SqlUnit.v ===== *)
(** * The SQLAlchemy unit of work ([sqlalchemy/uow.py]) under the asynchronous consumer

    A unit of work is one transaction of a session of its own; the consumer of [Consumer] runs
    on it unchanged. A delivery's transaction ends with the completion of its message
    committed, or with nothing of it, unless the answer of the commit was lost; and a message
    that is completed is never handled again. *)
From Stdlib Require Import ZArith Lia SpecFloat.
From stdpp Require Import base list gmap relations.
From S2P Require Import Prelude Core Messages Application Inbox UnitOfWork Quarantine Resilience Consumer Database DatabaseModel Django DjangoInbox SqlAlchemy SqlInbox.

(** ** The session *)

(** [begin], [commit], [rollback] and [close] of an [AsyncSession]. *)
Class AsyncSession (W : Type) := {
  session_begin : M exn W unit;
  session_commit : M exn W unit;
  session_rollback : M exn W unit;
  session_close : M exn W unit
}.

Section Laws.
Context {K R W : Type} `{Countable K} `{!Orm K R W, !Session K R W, !AsyncSession W}.
Variable rely : relation (gmap K R).

(** No transaction is open, and the rows are what others made of [T]. *)
Definition settled_at (T : gmap K R) (w : W) : Prop := nesting w = 0%nat /\ rtc rely T (rows w).

(** A commit that raised may have happened or not; what a rollback or a close did not commit
    is gone, also when they raise. *)
Class AsyncSessionLaws : Prop := {
  run_session_begin : forall w, nesting w = 0%nat ->
    (exists w0, session_begin w = (Ok tt, w0) /\ entered w w0) \/ (exists e w1, session_begin w = (Raise e, w1) /\ follows rely w w1);
  run_session_commit : forall w, nesting w <> 0%nat ->
    (exists w1, session_commit w = (Ok tt, w1) /\ nesting w1 = 0%nat /\ rows w1 = rows w) \/
    (exists e w1, session_commit w = (Raise e, w1) /\ (settled_at (rows w) w1 \/ settled_at (base w) w1));
  run_session_rollback : forall w, exists r w1, session_rollback w = (r, w1) /\ settled_at (base w) w1;
  run_session_close : forall w, exists r w1, session_close w = (r, w1) /\ settled_at (base w) w1
}.
End Laws.

(** ** The unit of work *)

Section Unit.
Context {W D : Type} `{!Orm inbox_key inbox_row W, !Sql inbox_key inbox_row W, !DatabaseClock W, !AsyncSession W}.
(** The callback [save_decision], given the session. *)
Variable save : D -> M exn W unit.

(** The world, and [_finished]. *)
Abbreviation S := (W * bool)%type.
Definition in_session {A} (m : M exn W A) : M exn S A := zoom fst_lens m.
Definition set_finished : M exn S unit := modify (fun s => (fst s, true)).

Definition unit_aenter : M exn S unit := in_session (try_except session_begin (fun e => session_close ;;; raise e)).

Definition unit_aexit : M exn S unit :=
  try_finally
    (let! finished := gets snd in if finished : bool then ret tt else in_session session_rollback)
    (in_session session_close).

Definition unit_commit : M exn S unit := in_session session_commit ;;; set_finished.

Definition unit_rollback : M exn S unit :=
  let! finished := gets snd in
  if finished : bool then ret tt else in_session session_rollback ;;; set_finished.

(** [_SQLAlchemyUnitOfWork]; the factory keeps nothing of a unit. *)
Definition sql_unit_of_work : AsyncUnitOfWork W bool D := {|
  unit_of_work := fun _ => false;
  aenter := unit_aenter;
  aexit := unit_aexit;
  reserve_message := fun scope id token now ttl => in_session (SqlInbox.begin scope id token now ttl);
  complete_message := fun scope id token now => in_session (SqlInbox.complete scope id token now);
  UnitOfWork.save_decision := fun d => in_session (save d);
  UnitOfWork.commit := unit_commit;
  UnitOfWork.rollback := unit_rollback
|}.
End Unit.

(** ** Runs of the consumer's transaction *)

Section Runs.
Context {W D : Type} `{!Orm inbox_key inbox_row W, !Session inbox_key inbox_row W, !Sql inbox_key inbox_row W, !Atomic W}.
Context `{!DatabaseClock W, !AsyncSession W, !Clock W, !Monotonic W}.
Context `{!OrmLaws inbox_calls, !SqlLaws inbox_calls, !DatabaseClockLaws, !AsyncSessionLaws inbox_calls}.
Variable save : D -> M exn W unit.
Variable handler : MessageValue -> HandlingContext -> M exn W D.
Variable config : ConsumerConfig.

#[local] Instance the_unit : AsyncUnitOfWork W bool D := sql_unit_of_work save.

(** What runs beside the inbox lets others commit and touches no delivery. *)
Definition beside {A} (m : M exn W A) : Prop := forall w, wp m w (fun _ w' => follows inbox_calls w w') (fun _ w' => follows inbox_calls w w').
Hypothesis Hhandler : forall m context, beside (handler m context).
Hypothesis Hsave : forall d, beside (save d).
Hypothesis Hclock : beside clock_now.
Hypothesis Hmonotonic : beside monotonic.

Abbreviation TS := (W * (bool * bool))%type.

Lemma wp_in_world {A} (m : M exn W A) w x (Q : A -> TS -> Prop) (X : exn -> TS -> Prop) :
  wp m w (fun a w' => Q a (w', x)) (fun e w' => X e (w', x)) -> wp (in_world m) (w, x) Q X.
Proof. unfold wp, in_world, zoom. cbn. by destruct (m w) as [[a|e] w']. Qed.
Lemma wp_in_unit {A} (m : M exn W A) w x (Q : A -> TS -> Prop) (X : exn -> TS -> Prop) :
  wp m w (fun a w' => Q a (w', x)) (fun e w' => X e (w', x)) -> wp (in_unit id_lens (in_session m)) (w, x) Q X.
Proof. destruct x. unfold wp, in_unit, in_session, zoom. cbn. by destruct (m w) as [[a|e] w']. Qed.
Lemma wp_beside {A} (m : M exn W A) w (Q : A -> W -> Prop) (X : exn -> W -> Prop) : beside m ->
  (forall a w', follows inbox_calls w w' -> Q a w') -> (forall e w', follows inbox_calls w w' -> X e w') -> wp m w Q X.
Proof. intros Hm HQ HX. eapply db_mono; [apply Hm|auto..]. Qed.

(** The completion took effect: over a row it could take, and others went on from there. *)
Definition took (T0 : inbox_table) (key : inbox_key) (T : inbox_table) : Prop :=
  exists T1 now row, rtc inbox_calls T0 T1 /\ takeable now (T1 !! key) /\ is_Some (row_completed row) /\ rtc inbox_calls (<[key := row]> T1) T.
Definition outcome (T0 : inbox_table) (key : inbox_key) (T : inbox_table) : Prop := rtc inbox_calls T0 T \/ took T0 key T.

Lemma outcome_later T0 key T T' : outcome T0 key T -> rtc inbox_calls T T' -> outcome T0 key T'.
Proof. intros [Hr|(T1 & now & row & ? & ? & ? & Hr)] HT; [left; by etrans|right]. exists T1, now, row. split_and!; try done. by etrans. Qed.

(** The world as the statements of the unit leave it: open, committed, or ended by a commit
    that raised. *)
Definition open_at (T0 : inbox_table) (s : TS) : Prop := s.2 = (false, false) /\ rtc inbox_calls T0 (base (fst s)).
Definition ended_at (T0 : inbox_table) (key : inbox_key) (s : TS) : Prop := nesting (fst s) = 0%nat /\ outcome T0 key (rows (fst s)).

Definition body_post (T0 : inbox_table) (key : inbox_key) (b : bool) (s : TS) : Prop :=
  if b then s.2 = (true, true) /\ ended_at T0 key s /\ exists at_, delivered key at_ (rows (fst s))
  else s.2 = (true, false) /\ nesting (fst s) = 0%nat /\ rtc inbox_calls T0 (rows (fst s)).
Definition body_raised (T0 : inbox_table) (key : inbox_key) (s : TS) : Prop := open_at T0 s \/ s.2 = (false, true) /\ ended_at T0 key s.

Lemma wp_commit w c (Q : unit -> TS -> Prop) (X : exn -> TS -> Prop) : nesting w <> 0%nat ->
  (forall w1, nesting w1 = 0%nat -> rows w1 = rows w -> Q tt (w1, (true, c))) ->
  (forall e w1, settled_at inbox_calls (rows w) w1 \/ settled_at inbox_calls (base w) w1 -> X e (w1, (false, c))) ->
  wp (in_unit id_lens commit) (w, (false, c)) Q X.
Proof.
  intros Hn HQ HX. unfold wp, in_unit, commit, the_unit, sql_unit_of_work, unit_commit, in_session, set_finished, zoom, bind. cbn.
  destruct (run_session_commit inbox_calls w Hn) as [(w1 & -> & ? & ?)|(e & w1 & -> & ?)]; cbn; auto.
Qed.

Lemma wp_rollback w (Q : unit -> TS -> Prop) (X : exn -> TS -> Prop) T0 : begun inbox_calls T0 w ->
  (forall w1, settled_at inbox_calls T0 w1 -> Q tt (w1, (true, false))) ->
  (forall e w1, settled_at inbox_calls T0 w1 -> X e (w1, (false, false))) ->
  wp (in_unit id_lens rollback) (w, (false, false)) Q X.
Proof.
  intros Hb HQ HX. unfold wp, in_unit, rollback, the_unit, sql_unit_of_work, unit_rollback, in_session, set_finished, zoom, bind. cbn.
  destruct (run_session_rollback inbox_calls w) as (r & w1 & -> & [Hn Hr]). assert (settled_at inbox_calls T0 w1) by (split; [done|by etrans; [apply Hb|]]).
  destruct r; cbn; auto.
Qed.

(** What runs beside an open transaction leaves what it holds. *)
Lemma beside_held {A} (m : M exn W A) T0 key now row w (Q : A -> W -> Prop) (X : exn -> W -> Prop) : beside m -> held_by inbox_calls T0 key now row w ->
  (forall a w', held_by inbox_calls T0 key now row w' -> Q a w') -> (forall e w', begun inbox_calls T0 w' -> X e w') -> wp m w Q X.
Proof.
  intros Hm Ha HQ HX. apply wp_beside; [done|..]; intros a w' Hf; eapply (alone_follows inbox_calls) in Ha; try exact Hf; [by apply HQ|].
  apply HX. by eapply held_begun.
Qed.
Lemma open_begun T0 w : begun inbox_calls T0 w -> open_at T0 (w, (false, false)).
Proof. intros Hb. split; [done|apply Hb]. Qed.
Lemma held_open T0 key now row w : held_by inbox_calls T0 key now row w -> open_at T0 (w, (false, false)).
Proof. intros Ha. by eapply open_begun, held_begun. Qed.
#[local] Hint Resolve open_begun held_open : core.

(** The decision of the handler is saved, and the message completed. *)
Lemma decide_runs scope token authority m T0 now until w : held_by inbox_calls T0 (scope, message_identity m) now (mkInboxRow token until None) w ->
  wp (decide_message id_lens handler scope token authority m) (w, (false, false))
    (fun _ s => exists w' at_, s = (w', (false, false)) /\ held_by inbox_calls T0 (scope, message_identity m) now (mkInboxRow token until (Some at_)) w')
    (fun _ => open_at T0).
Proof.
  intros Ha. apply db_bind, wp_lift; [intros context _|by eauto]. apply db_bind, wp_in_world. eapply beside_held; [apply Hhandler|exact Ha|clear w Ha; intros d w Ha|by eauto].
  apply db_bind, wp_in_unit. eapply beside_held; [apply Hsave|exact Ha|clear w Ha; intros _ w Ha|by eauto].
  apply db_bind, wp_in_world, db_bind. eapply beside_held; [apply Hmonotonic|exact Ha|clear w Ha; intros t w Ha; apply wp_ret|by eauto].
  apply db_bind. destruct (float_bool _); [|apply wp_ret, db_raise; by eauto].
  apply db_bind, db_bind, db_raise_if; [intros _; apply wp_ret|by eauto]. apply db_bind, wp_in_world.
  eapply beside_held; [apply Hclock|exact Ha|clear w Ha; intros t' w Ha|by eauto].
  apply wp_in_unit. eapply db_mono; [apply (inbox_complete_runs inbox_calls), Ha| |by eauto]. intros [|] w'; [intros [at_ Ha']|intros Ha'].
  - apply wp_ret. eauto.
  - apply db_raise. eauto.
Qed.

(** The end of the body: a commit, of the completion or of nothing, or a rollback. *)
Lemma commits_held T0 key now row at_ w : held_by inbox_calls T0 key now row w -> row_completed row = Some at_ ->
  wp (in_unit id_lens commit ;;; ret true) (w, (false, true)) (body_post T0 key) (fun _ => body_raised T0 key).
Proof.
  intros [Hr _ Hn Hb Hok] Hc. assert (forall T, rtc inbox_calls (rows w) T -> took T0 key T) as Htook.
  { intros T HT. exists (base w), now, row. split_and!; [done..|by eexists|by rewrite <- Hr]. }
  apply db_bind, wp_commit; [done| |].
  - intros w1 Hn1 Hr1. apply wp_ret. split; [done|]. split; [split; [done|right; apply Htook; by rewrite <- Hr1]|].
    exists at_, row. cbn. by rewrite Hr1, Hr, lookup_insert_eq.
  - intros e w1 Hw1. right. split; [done|]. destruct Hw1 as [[Hn1 Hr1]|[Hn1 Hr1]]; (split; [done|]); [right; by apply Htook|left; by etrans].
Qed.
Lemma commits_idle T0 key at_ w : idle inbox_calls T0 w -> delivered key at_ (rows w) ->
  wp (in_unit id_lens commit ;;; ret true) (w, (false, true)) (body_post T0 key) (fun _ => body_raised T0 key).
Proof.
  intros [Hc Hn Hb] Hd. unfold clean in Hc. apply db_bind, wp_commit; [done| |].
  - intros w1 Hn1 Hr1. apply wp_ret. split; [done|]. split; [split; [done|left; cbn; by rewrite Hr1, Hc]|]. exists at_. cbn. by rewrite Hr1.
  - intros e w1 Hw1. right. split; [done|]. destruct Hw1 as [[Hn1 Hr1]|[Hn1 Hr1]]; (split; [done|left; etrans; [exact Hb|]]); [by rewrite <- Hc|done].
Qed.
Lemma rolls_back T0 key w : idle inbox_calls T0 w ->
  wp (in_unit id_lens rollback ;;; ret false) (w, (false, false)) (body_post T0 key) (fun _ => body_raised T0 key).
Proof.
  intros Hi. apply db_bind. apply (wp_rollback w _ _ T0); [by apply idle_begun| |].
  - intros w1 [Hn1 Hr1]. by apply wp_ret.
  - intros e w1 [Hn1 Hr1]. left. split; [done|]. cbn. by rewrite <- (all_clean inbox_calls).
Qed.

Lemma unit_body_runs scope token authority m T0 w : idle inbox_calls T0 w ->
  wp (body id_lens handler config scope token authority m) (w, (false, false)) (body_post T0 (scope, message_identity m)) (fun _ => body_raised T0 (scope, message_identity m)).
Proof.
  intros Hi. assert (forall w', begun inbox_calls T0 w' -> body_raised T0 (scope, message_identity m) (w', (false, false))) as Hraised by (left; by apply open_begun).
  assert (forall w', idle inbox_calls T0 w' -> begun inbox_calls T0 w') as Hbegun by (intros w'; apply idle_begun).
  apply db_bind, db_bind, db_raise_if; [intros _; apply wp_ret|by auto]. apply db_bind, wp_in_world, wp_beside; [apply Hclock| |].
  2: intros e w1 Hf; apply Hraised, Hbegun; by eapply idle_follows.
  intros now w1 Hf. eapply idle_follows in Hf; [|exact Hi]. apply db_bind, wp_in_unit. eapply db_mono; [apply (inbox_begin_runs inbox_calls), Hf| |by auto].
  intros [drawn|at_|until|cap] w2; cbn [reserved opaque_value].
  - intros [-> [until Ha]]. apply db_bind. eapply db_mono; [by apply decide_runs| |by left]. intros _ s (w3 & at_ & -> & Ha').
    apply db_bind, wp_ret. by eapply commits_held.
  - intros [Hi2 Hd]. apply db_bind, wp_ret. by eapply commits_idle.
  - intros [Hi2 _]. by apply rolls_back.
  - intros [Hi2 _]. by apply rolls_back.
Qed.

(** The end of the unit: what it did not commit is gone. *)
Lemma aexit_runs w (f c : bool) : (f = true -> nesting w = 0%nat) ->
  exists r w1, in_unit id_lens aexit (w, (f, c)) = (r, (w1, (f, c))) /\ settled_at inbox_calls (base w) w1.
Proof.
  intros Hf. unfold in_unit, aexit, the_unit, sql_unit_of_work, unit_aexit, try_finally, in_session, gets, get, bind, ret, zoom. cbn. destruct f; cbn.
  - destruct (run_session_close inbox_calls w) as (r & w1 & -> & Hw). destruct r; by eexists _, _.
  - destruct (run_session_rollback inbox_calls w) as (r & w1 & -> & [Hn1 Hr1]). cbn.
    destruct (run_session_close inbox_calls w1) as (r' & w2 & -> & [Hn2 Hr2]). rewrite <- (all_clean inbox_calls w1 Hn1) in Hr2.
    assert (settled_at inbox_calls (base w) w2) as Hs by (split; [done|by etrans]). destruct r'; by eexists _, _.
Qed.

Lemma aenter_runs w c : nesting w = 0%nat ->
  (exists w0, in_unit id_lens aenter (w, (false, c)) = (Ok tt, (w0, (false, c))) /\ idle inbox_calls (rows w) w0) \/
  (exists e w1, in_unit id_lens aenter (w, (false, c)) = (Raise e, (w1, (false, c))) /\ settled_at inbox_calls (rows w) w1).
Proof.
  intros Hn. unfold in_unit, aenter, the_unit, sql_unit_of_work, unit_aenter, try_except, in_session, bind, zoom. cbn.
  destruct (run_session_begin inbox_calls w Hn) as [(w0 & -> & [Hr Hb _ Hn0])|(e & w1 & -> & [Hs Hn1])]; cbn.
  - left. eexists. split; [reflexivity|]. pose proof (all_clean inbox_calls w Hn). split; [unfold clean|rewrite Hn0|]; congruence || (rewrite Hb; by rewrite (all_clean inbox_calls w Hn)).
  - destruct (run_session_close inbox_calls w1) as (r & w2 & -> & [Hn2 Hr2]). right.
    assert (settled_at inbox_calls (rows w) w2) as Hw2 by (split; [done|]; etrans; [|exact Hr2]; rewrite (all_clean inbox_calls w Hn); apply Hs).
    destruct r; cbn; by eexists _, _.
Qed.

(** How the transaction of a delivery ends. *)
Definition transaction_end (T0 : inbox_table) (key : inbox_key) (r : result exn bool) (committing : bool) (w : W) : Prop :=
  nesting w = 0%nat /\
  match r with
  | Ok true => (exists at_, delivered key at_ (rows w)) /\ outcome T0 key (rows w)
  | Ok false => rtc inbox_calls T0 (rows w)
  | Raise _ => if committing then outcome T0 key (rows w) else rtc inbox_calls T0 (rows w)
  end.

Lemma transaction_runs scope token authority m w : nesting w = 0%nat ->
  exists r committing w', transaction id_lens handler config scope token authority m w = (Ok (r, committing), w') /\
    transaction_end (rows w) (scope, message_identity m) r committing w'.
Proof.
  intros Hn. unfold transaction. change (unit_of_work (view id_lens w)) with false. set (key := (scope, message_identity m)).
  destruct (aenter_runs w false Hn) as [(w0 & Henter & Hi)|(e & w1 & Henter & [Hn1 Hr1])]; unfold bind at 1; rewrite Henter; [|by eexists _, _, _].
  pose proof (unit_body_runs scope token authority m (rows w) w0 Hi) as Hbody. fold key in Hbody. unfold try_finally, wp in *.
  destruct (body _ _ _ _ _ _ _ _) as [[[|]|e] [w1 [f c]]].
  - destruct Hbody as ([= -> ->] & [Hn1 Ho] & at_ & Hd). cbn [fst snd] in *. destruct (aexit_runs w1 true true) as (r & w2 & -> & [Hn2 Hr2]); [done|].
    rewrite <- (all_clean inbox_calls w1 Hn1) in Hr2. eapply outcome_later in Ho; [|exact Hr2]. destruct r; eexists _, _, _; (split; [reflexivity|]); split; try done.
    split; [|done]. exists at_. by eapply delivered_kept.
  - destruct Hbody as ([= -> ->] & Hn1 & Ho). cbn [fst snd] in *. destruct (aexit_runs w1 true false) as (r & w2 & -> & [Hn2 Hr2]); [done|].
    rewrite <- (all_clean inbox_calls w1 Hn1) in Hr2. assert (rtc inbox_calls (rows w) (rows w2)) by by etrans. destruct r; by eexists _, _, _.
  - destruct Hbody as [[[= -> ->] Ho]|[[= -> ->] [Hn1 Ho]]]; cbn [fst snd] in *.
    + destruct (aexit_runs w1 false false) as (r & w2 & -> & [Hn2 Hr2]); [done|]. assert (rtc inbox_calls (rows w) (rows w2)) by by etrans. destruct r; by eexists _, _, _.
    + destruct (aexit_runs w1 false true) as (r & w2 & -> & [Hn2 Hr2]); [done|]. rewrite <- (all_clean inbox_calls w1 Hn1) in Hr2.
      eapply outcome_later in Ho; [|exact Hr2]. destruct r; by eexists _, _, _.
Qed.

(** A message that is completed is not reserved, so its handler does not matter. *)
Lemma body_same handler' scope token authority m T0 at_ w : idle inbox_calls T0 w -> delivered (scope, message_identity m) at_ T0 ->
  body id_lens handler config scope token authority m (w, (false, false)) = body id_lens handler' config scope token authority m (w, (false, false)).
Proof.
  intros Hi Hd. unfold body, OpaqueId_new. destruct (str_empty _ || _); [done|]. unfold raise_if, ret, in_world, zoom, bind. cbn.
  pose proof (Hclock w) as Hc. unfold wp in Hc. destruct (clock_now w) as [[now|e] w1]; [|done]. cbn in *. eapply idle_follows in Hc; [|exact Hi].
  set (k := mkOpaqueId (message_identity m)).
  pose proof (inbox_begin_runs inbox_calls scope k token now (reservation_ttl config) T0 w1 Hc) as Hb.
  unfold in_unit, reserve_message, the_unit, sql_unit_of_work, in_session, zoom, wp in *. cbn in *.
  destruct (SqlInbox.begin _ _ _ _ _ _) as [[[drawn|? |? |?]|e] w2]; try done. exfalso. destruct Hb as (_ & until & [_ _ _ Hb Hok]).
  apply (delivered_kept _ _ _ _ Hb) in Hd as (row & Hrow & Hr). unfold takeable in Hok. rewrite Hrow in Hok. cbn in Hok. unfold kept in Hok. by rewrite Hr in Hok.
Qed.

Lemma transaction_same handler' scope token authority m at_ w : nesting w = 0%nat -> delivered (scope, message_identity m) at_ (rows w) ->
  transaction id_lens handler config scope token authority m w = transaction id_lens handler' config scope token authority m w.
Proof.
  intros Hn Hd. unfold transaction. change (unit_of_work (view id_lens w)) with false.
  destruct (aenter_runs w false Hn) as [(w0 & Henter & Hi)|(e & w1 & Henter & _)]; unfold bind; rewrite Henter; [|done].
  unfold try_finally. by rewrite (body_same handler' scope token authority m (rows w) at_ w0 Hi Hd).
Qed.
End Runs.

(** C5. The transaction of a delivery on the SQLAlchemy unit of work is all or nothing. It
    always ends with no transaction open. When it answers that the delivery may be
    acknowledged, the message is completed, by this transaction over a row that was free, or
    before it; when it answers that it may not, or raises before the commit, it left nothing;
    when the commit raised, it left all of the completion or nothing. *)
Theorem sql_delivery_all_or_nothing {W D : Type} `{!Orm inbox_key inbox_row W, !Session inbox_key inbox_row W, !Sql inbox_key inbox_row W, !Atomic W}
    `{!DatabaseClock W, !AsyncSession W, !Clock W, !Monotonic W}
    `{!OrmLaws inbox_calls, !SqlLaws inbox_calls, !DatabaseClockLaws, !AsyncSessionLaws inbox_calls}
    (save : D -> M exn W unit) handler config scope token authority m (w : W) :
  (forall m context, beside (handler m context)) -> (forall d, beside (save d)) -> beside (clock_now (W := W)) -> beside (monotonic (W := W)) -> nesting w = 0%nat ->
  exists r committing w',
    transaction (AsyncUnitOfWork0 := sql_unit_of_work save) id_lens handler config scope token authority m w = (Ok (r, committing), w') /\
    transaction_end (rows w) (scope, message_identity m) r committing w'.
Proof. intros. by apply transaction_runs. Qed.

(** C6. A message is handled once: after a transaction that answered that its delivery may be
    acknowledged, and whatever other sessions do, every later transaction of a delivery of
    the message behaves the same with every handler, so none of them is run. *)
Theorem sql_message_handled_once {W D : Type} `{!Orm inbox_key inbox_row W, !Session inbox_key inbox_row W, !Sql inbox_key inbox_row W, !Atomic W}
    `{!DatabaseClock W, !AsyncSession W, !Clock W, !Monotonic W}
    `{!OrmLaws inbox_calls, !SqlLaws inbox_calls, !DatabaseClockLaws, !AsyncSessionLaws inbox_calls}
    (save : D -> M exn W unit) handler config scope token authority m (w w1 w2 : W) committing :
  (forall m context, beside (handler m context)) -> (forall d, beside (save d)) -> beside (clock_now (W := W)) -> beside (monotonic (W := W)) -> nesting w = 0%nat ->
  let unit := sql_unit_of_work save in
  transaction (AsyncUnitOfWork0 := unit) id_lens handler config scope token authority m w = (Ok (Ok true, committing), w1) ->
  nesting w2 = 0%nat -> rtc inbox_calls (rows w1) (rows w2) ->
  forall handler1 handler2 config' token' authority' m', message_identity m' = message_identity m ->
  transaction (AsyncUnitOfWork0 := unit) id_lens handler1 config' scope token' authority' m' w2 =
  transaction (AsyncUnitOfWork0 := unit) id_lens handler2 config' scope token' authority' m' w2.
Proof.
  intros Hh Hs Hc Hm Hn unit Hrun Hn2 Hlater handler1 handler2 config' token' authority' m' Heq.
  destruct (transaction_runs save handler config Hh Hs Hc Hm scope token authority m w Hn) as (r & committing' & w' & Hrun' & Hend).
  pose proof (eq_trans (eq_sym Hrun) Hrun') as [= <- _ <-]. destruct Hend as (_ & [at_ Hd] & _). eapply delivered_kept in Hd; [|exact Hlater].
  eapply transaction_same; [done..|]. rewrite Heq. exact Hd.
Qed.

(** ** A concrete history: the answer of a commit is lost, and the message comes again. *)

Section Concrete.
Context {K R : Type} `{Countable K} `{!EqDecision R} `{Uuid4}.
Context (rely : relation (gmap K R)).
Variable commit_answer : db (K := K) (R := R) rely -> option bool.

Definition outside (T : gmap K R) (w : db rely) : db rely := mkDb rely T ∅ ∅ 0 (db_draws _ w) (db_others _ w).
Definition db_async_session : AsyncSession (db rely) := {|
  session_begin := fun w => (Ok tt, mkDb rely (db_base _ w) (own _ w) (db_held _ w) (Datatypes.S (db_depth _ w)) (db_draws _ w) (db_others _ w));
  session_commit := fun w => match commit_answer w with
    | None => (Ok tt, outside (db_rows _ w) w)
    | Some true => (Raise connection_lost, outside (db_rows _ w) w)
    | Some false => (Raise connection_lost, outside (db_base _ w) w)
    end;
  session_rollback := fun w => (Ok tt, outside (db_base _ w) w);
  session_close := fun w => (Ok tt, outside (db_base _ w) w)
|}.

Lemma db_async_session_laws : AsyncSessionLaws (AsyncSession0 := db_async_session) rely.
Proof.
  assert (forall T w, rows (outside T w) = T) as Hout by (intros T w; by apply rows_base).
  assert (forall T w, settled_at rely T (outside T w)) as Hend by (intros T w; split; [done|by rewrite Hout]).
  split; cbn.
  - intros w Hn. left. eexists. split; [reflexivity|]. split; cbn; [unfold db_rows; f_equal; by apply own_own|done..|by rewrite Hn].
  - intros w _. destruct (commit_answer w) as [[|]|]; [right; eexists _, _; (split; [reflexivity|auto])..|left; eexists; split_and!; [reflexivity|done|apply Hout]].
  - intros w. by eexists _, _.
  - intros w. by eexists _, _.
Qed.
End Concrete.

Section Example.
#[local] Existing Instance unary_uuid.
#[local] Existing Instance unary_uuid_laws.

Abbreviation unit_db := (db inbox_calls).
#[local] Instance unit_clock : Clock unit_db := ret (utc 5).
#[local] Instance unit_monotonic : Monotonic unit_db := ret (S754_zero false).

Definition their_begin : { f : inbox_table -> inbox_table | forall T, inbox_calls T (f T) } :=
  exist _ (apply_inbox (CallBegin (mkInboxScope "n" "s" "c", "m2")%py "z" (utc 1) (utc 99))) (fun T => ex_intro _ (CallBegin (mkInboxScope "n" "s" "c", "m2")%py "z" (utc 1) (utc 99)) eq_refl).
Definition unit_db0 : unit_db := mkDb _ ∅ ∅ ∅ 0 0 (repeat their_begin 6).

(** The answer of the first commit is lost, after it took effect. *)
Definition first_lost (w : unit_db) : option bool := if bool_decide (2 <= length (db_others _ w))%nat then Some true else None.
#[local] Instance unit_session : AsyncSession unit_db := db_async_session inbox_calls first_lost.
#[local] Instance unit_session_laws : AsyncSessionLaws inbox_calls := db_async_session_laws inbox_calls first_lost.

Definition demo_config : ConsumerConfig := mkConsumerConfig "c" "n" QuarantinePolicy_default 30 10 1 1 100 2.
Definition demo_message : MessageValue :=
  Ordinary (Messages.mkEnvelope "m" "s" "order.placed" "order/7" (utc 0) "urn:order:1" JNull None None
    CLOUD_EVENTS_SPEC_VERSION JSON_CONTENT_TYPE MESSAGE_PROFILE).
Definition deliver (handler : MessageValue -> HandlingContext -> M exn unit_db Z) (token : pystr) : M exn unit_db (result exn bool * bool) :=
  transaction (AsyncUnitOfWork0 := sql_unit_of_work (fun _ => ret tt)) id_lens handler demo_config (mkInboxScope "n" "s" "c") token
    (mkDeadline (S754_finite false 1 0)) demo_message.
Definition place : MessageValue -> HandlingContext -> M exn unit_db Z := fun _ _ => ret 7.
Definition unit_db1 : unit_db := after (deliver place "t") unit_db0.
Definition unit_db2 : unit_db := after (deliver place "u") unit_db1.
Definition unit_key : inbox_key := (mkInboxScope "n" "s" "c", "m"%py).

Lemma beside_ret {A} (a : A) : beside (W := unit_db) (ret a).
Proof. intros w. apply wp_ret, follows_refl. Qed.

(** The completion was committed, and its commit raised. *)
Lemma sql_delivery_all_or_nothing_witness :
  answers_with (deliver place "t") unit_db0 (Raise connection_lost, true) /\
  rows unit_db1 !! unit_key = Some (mkInboxRow "t" (utc 35) (Some (utc 5))) /\
  exists r committing w',
    deliver place "t" unit_db0 = (Ok (r, committing), w') /\ transaction_end (rows unit_db0) unit_key r committing w'.
Proof.
  do 2 (split; [by vm_compute|]).
  apply (sql_delivery_all_or_nothing (fun _ => ret tt) place demo_config); [intros; apply beside_ret..|done].
Defined.

(** The message comes again: it is acknowledged, and no handler is run. *)
Lemma sql_message_handled_once_witness :
  answers_with (deliver place "u") unit_db1 (Ok true, true) /\
  rows unit_db2 !! unit_key = Some (mkInboxRow "t" (utc 35) (Some (utc 5))) /\
  deliver (fun _ _ => raise connection_lost) "v" unit_db2 = deliver place "v" unit_db2.
Proof.
  do 2 (split; [by vm_compute|]).
  apply (sql_message_handled_once (fun _ => ret tt) place demo_config (mkInboxScope "n" "s" "c") "u" (mkDeadline (S754_finite false 1 0)) demo_message unit_db1 unit_db2 unit_db2 true);
    [intros; apply beside_ret..|by vm_compute| |by vm_compute|done|done].
  apply (answers_after (deliver place "u")). by vm_compute.
Defined.
End Example.
