(* ===== verification/SqlMaintenance.v ===== *)
(** * Retention of the SQLAlchemy stores ([sqlalchemy/maintenance.py])

    Purges in a transaction of the caller: a batch of rows is locked and deleted one by one
    by its primary key. The rows deleted are those of one instant of the run. *)
From Stdlib Require Import ZArith Lia.
From stdpp Require Import base list gmap relations.
From S2P Require Import Prelude Core Maintenance Idempotency Database DatabaseModel Django DjangoOutbox DjangoMaintenance RelayRows SqlAlchemy SqlIdempotency SqlReceipts SqlOutbox.

Section Purge.
Context {K R W : Type} `{Countable K} `{!Orm K R W}.
(** The order of two primary keys. *)
Variable pk_leb : K -> K -> bool.

(** The loop of the deletes. *)
Definition delete_rows (found : list (K * R)) : M exn W unit :=
  for_each found tt (fun _ kr => let! _ := delete_where (fun k _ => bool_decide (k = kr.1)) in ret tt).

Definition _purge (criteria : K -> R -> bool) (limit : Z) (dry : bool) : M exn W MaintenanceSummary :=
  let! found := locked_query criteria (fun a b => pk_leb a.1 b.1) limit in
  (if dry then ret tt else delete_rows found) ;;;
  MaintenanceSummary_new (Z.of_nat (length found)) (if dry then 0 else Z.of_nat (length found)) dry.
End Purge.

Section Purges.
Context {W : Type}.

Definition delivered_criteria {B} (plan : MaintenancePlan) (_ : pystr) (row : relay_row B) : bool :=
  until_cutoff plan (row_delivered_at (columns row)) && bool_decide (uncertain_at row = None).
Definition purge_delivered {B} `{!Orm pystr (relay_row B) W} pk_leb (plan : MaintenancePlan) : M exn W MaintenanceSummary :=
  _purge pk_leb (delivered_criteria plan) (batch_size plan) (dry_run plan).

Definition completed_criteria (plan : MaintenancePlan) (_ : identity) (row : sql_reservation) : bool :=
  bool_decide (row_state row = "completed"%py) && dt_leb (row_expires_at row) (cutoff plan).
Definition purge_idempotency `{!Orm identity sql_reservation W} pk_leb (plan : MaintenancePlan) : M exn W MaintenanceSummary :=
  _purge pk_leb (completed_criteria plan) (batch_size plan) (dry_run plan).

Definition receipt_criteria (plan : MaintenancePlan) (_ : pystr) (row : sql_receipt) : bool :=
  state_in ["completed"; "rejected"; "conflicted"]%py (sql_state row) && dt_leb (sql_updated_at row) (cutoff plan).
Definition purge_receipts `{!Orm pystr sql_receipt W} pk_leb (plan : MaintenancePlan) : M exn W MaintenanceSummary :=
  raise_if (include_uncertain plan) (ValueError "uncertain receipts require reconciliation before retention") ;;;
  _purge pk_leb (receipt_criteria plan) (batch_size plan) (dry_run plan).
End Purges.

(** ** What a purge removes *)

Section Exact.
Context {K R W : Type} `{Countable K} `{!Orm K R W, !Session K R W, !Atomic W}.
Context (rely : relation (gmap K R)) `{!OrmLaws rely}.
Variable pk_leb : K -> K -> bool.

(** Since [w1] locked them, the rows [gone] were deleted and the others committed. *)
Record deleting (w1 : W) (gone : gset K) (w : W) : Prop := {
  deleting_rows : forall k, rows w !! k = if decide (k ∈ gone) then None else overlay w1 (base w) !! k;
  deleting_base : rtc rely (base w1) (base w);
  deleting_locked : forall k, k ∈ held w1 -> base w !! k = base w1 !! k;
  deleting_held : held w1 ⊆ held w;
  deleting_gone : gone ⊆ held w1;
  deleting_nesting : nesting w <> 0%nat
}.

Lemma deleting_start w : nesting w <> 0%nat -> deleting w ∅ w.
Proof.
  intros Hn. split; try done. intros k. rewrite overlay_lookup. case_decide; [set_solver|]. case_decide as Hk; [done|]. by apply (run_clean rely).
Qed.

Lemma deleting_follows w1 gone w w' : deleting w1 gone w -> follows rely w w' -> deleting w1 gone w'.
Proof.
  intros [Hr Hb Hl Hh Hg Hn] [[Sb Sh Sl Sc] Hn']. split; [|by etrans|intros k Hk; rewrite <- Hl by done; by apply Sl, Hh|by etrans|done|congruence].
  intros k. specialize (Hr k). rewrite overlay_lookup in *. destruct (decide (k ∈ gone)) as [Hk|Hk].
  - rewrite <- Hr. by apply Sl, Hh, Hg.
  - destruct (decide (k ∈ held w1)) as [Hk1|Hk1]; [rewrite <- Hr; by apply Sl, Hh|]. by apply Sc.
Qed.

Lemma deleting_wrote w1 gone w w' k0 : deleting w1 gone w -> k0 ∈ held w1 ->
  wrote w (rows w ∖ matching (fun k _ => bool_decide (k = k0)) (rows w)) w' -> deleting w1 ({[k0]} ∪ gone) w'.
Proof.
  intros [Hr Hb Hl Hh Hg Hn] Hk0 [Wr Wb Wh Wn]. rewrite bool_decide_false in Wb by done.
  split; [|by rewrite Wb|by rewrite Wb|by etrans|set_solver|congruence].
  intros k. rewrite Wr, deleted_lookup, Wb, Hr. destruct (decide (k ∈ gone)) as [Hk|Hk]; [by rewrite decide_True by set_solver|].
  destruct (decide (k = k0)) as [->|Hne].
  - rewrite decide_True by set_solver. rewrite bool_decide_true by done. by destruct (overlay _ _ !! k0).
  - rewrite decide_False by set_solver. rewrite bool_decide_false by done. by destruct (overlay _ _ !! k).
Qed.

Lemma delete_rows_run w1 found gone w : deleting w1 gone w -> (forall kr, kr ∈ found -> kr.1 ∈ held w1) ->
  wp (delete_rows found) w (fun _ w' => deleting w1 (list_to_set found.*1 ∪ gone) w') (fun e _ => failure e).
Proof.
  unfold delete_rows. revert gone w. induction found as [|kr found IH]; intros gone w Hd Hin.
  - apply wp_ret. by rewrite fmap_nil, list_to_set_nil, (left_id_L ∅ (∪)).
  - cbn [for_each]. apply db_bind, db_bind, (wp_delete_where rely); [|done]. intros w2 w3 Hf Hw. apply wp_ret.
    eapply deleting_follows in Hd; [|exact Hf]. pose proof (deleting_wrote _ _ _ _ kr.1 Hd ltac:(apply Hin; left) Hw) as Hd3.
    eapply db_mono; [apply IH; [exact Hd3|intros; apply Hin; set_solver]| |done]. intros u w4 Hd4.
    assert (list_to_set (kr :: found).*1 ∪ gone = list_to_set found.*1 ∪ ({[kr.1]} ∪ gone)) as He by set_solver. by rewrite He.
Qed.

(** In a transaction of the caller, a purge deletes exactly the rows it counts: rows its
    criteria selected at one instant of the run, distinct and at most [limit]; a dry run
    deletes nothing. *)
Lemma sql_purge_exact criteria plan w : nesting w <> 0%nat ->
  wp (_purge pk_leb criteria (batch_size plan) (dry_run plan)) w
    (fun s w' => exists T found, instant rely w T /\ purged criteria plan found T s (rows w')) (fun e _ => failure e).
Proof.
  intros Hn. apply db_bind, (wp_locked_query rely); [|done]. intros found w1 [Hs1 Hn1] Hnd Hin Hlock Hlen.
  assert (nesting w1 <> 0%nat) as Hn1' by congruence. apply db_bind. destruct (dry_run plan) eqn:Hdry.
  - apply wp_ret, summary_run; [lia|done|]. exists (rows w1), found. split; [by apply sees_instant|]. split; rewrite ?Hdry; done.
  - eapply db_mono; [apply (delete_rows_run w1 found ∅); [by apply deleting_start|intros kr Hkr; apply Hlock; [done|by apply list_elem_of_fmap_2]]| |done].
    intros u w2 [Hr Hb Hl _ _ _]. apply summary_run; [lia|done|]. exists (overlay w1 (base w2)), found.
    split; [eapply instant_sees; [done|exact Hs1|]; by exists (base w2)|]. split; rewrite ?Hdry; [done| |done|done|].
    + intros kr Hkr. rewrite overlay_lookup, decide_True by (apply Hlock; [done|by apply list_elem_of_fmap_2]). by apply Hin.
    + intros k. rewrite Hr. rewrite (right_id_L ∅ (∪)). destruct (decide (k ∈ found.*1)) as [Hk|Hk]; [rewrite decide_True, bool_decide_true|rewrite decide_False, bool_decide_false]; set_solver.
Qed.
End Exact.
