(* ===== verification/SqlJobs.v ===== *)
(** * The SQLAlchemy job store ([sqlalchemy/workflows.py], [SQLAlchemyJobStore])

    Jobs as rows of a consumer's model, changed in a transaction of the caller: a claim raises
    the fencing token of each row it takes, and a settlement holds only under the claim's
    identity, token and time. A job is settled once, and a claim that was superseded settles
    nothing. *)
From Stdlib Require Import ZArith Lia.
From stdpp Require Import base list gmap relations.
From S2P Require Import Prelude Core Outbox Jobs Database DatabaseModel Django RelayRows SqlAlchemy SqlOutbox.

(** A row beside its job ID. *)
Record job_row := mkJobRow {
  row_task : pystr; row_payload : json; row_run_at : datetime; row_max_attempts : Z; row_attempt : Z;
  row_state : pystr; row_terminal : bool; row_failure : option pystr; row_token : Z;
  row_claim : option pystr; row_claimed_until : option datetime
}.

#[export] Instance job_row_eq_dec : EqDecision job_row.
Proof. solve_decision. Defined.

#[export] Instance JobTransition_eq_dec : EqDecision JobTransition.
Proof. solve_decision. Defined.

Abbreviation job_table := (gmap pystr job_row).

(** The values of [JobState]. *)
Definition state_value (s : JobState) : pystr :=
  match s with SCHEDULED => "scheduled" | SUCCEEDED => "succeeded" | TERMINAL => "terminal" | CANCELLED => "cancelled" end.
Definition JobState_members : list JobState := [SCHEDULED; SUCCEEDED; TERMINAL; CANCELLED].

Section Store.
Context {W D : Type} `{!Orm pystr job_row W, !Sql pystr job_row W, !Atomic W, !Uuid W, !DatabaseClock W}.
(** The callback [save_decision], given the session. *)
Variable save_decision : D -> M exn W unit.
(** The order of job IDs in the database's collation. *)
Variable collate : pystr -> pystr -> bool.

Definition _job (id : pystr) (row : job_row) : M exn W Job :=
  let! s := lift (member state_value JobState_members (row_state row)) in
  Job_new id (row_task row) (row_payload row) (row_run_at row) (row_max_attempts row) (row_attempt row) s (row_failure row).

Definition get (id : pystr) : M exn W (option Job) :=
  let! row := first id in
  match row with None => ret None | Some row => let! j := _job id row in ret (Some j) end.

(** The row of a new job. *)
Definition scheduled_row (j : Job) : job_row :=
  mkJobRow (task j) (payload j) (run_at j) (max_attempts j) (attempt j) (state_value (state j)) (negb (bool_decide (state j = SCHEDULED)))
    (last_failure j) 0 None None.

Definition schedule (j : Job) : M exn W JobScheduleResult :=
  let! changed := insert_nothing (job_id j) (scheduled_row j) in
  ret (if changed : bool then JobScheduled else JobDuplicate).

(** The filter and the order of [claim]. *)
Definition claimable (now : datetime) (_ : pystr) (row : job_row) : bool :=
  bool_decide (row_state row = state_value SCHEDULED) && dt_leb (row_run_at row) now &&
  match row_claimed_until row with None => true | Some until => dt_leb until now end.
Definition claim_order (a b : pystr * job_row) : bool :=
  dt_ltb (row_run_at a.2) (row_run_at b.2) || (dt_leb (row_run_at a.2) (row_run_at b.2) && collate a.1 b.1).

Definition claimed_row (id : pystr) (until : datetime) (row : job_row) : job_row :=
  mkJobRow (row_task row) (row_payload row) (row_run_at row) (row_max_attempts row) (row_attempt row) (row_state row) (row_terminal row)
    (row_failure row) (row_token row + 1) (Some id) (Some until).

(** The loop of [claim]. *)
Definition claim_one (now : datetime) (claim_ttl : timedelta) (kr : pystr * job_row) : M exn W JobClaim :=
  let! id := uuid4 in
  let! until := lift (dt_add now claim_ttl) in
  save kr.1 (claimed_row id until) ;;;
  let! j := _job kr.1 kr.2 in
  JobClaim_new j id until (row_token kr.2 + 1).

Definition claim (now : datetime) (limit : Z) (claim_ttl : timedelta) : M exn W (list JobClaim) :=
  _utc now ;;;
  _claim_arguments limit claim_ttl ;;;
  let! found := locked_query (claimable now) claim_order limit in
  for_each found [] (fun claims kr => let! c := claim_one now claim_ttl kr in ret (claims ++ [c])).

(** The row a claim may settle at an instant. *)
Definition settleable (c : JobClaim) (t : datetime) (k : pystr) (row : job_row) : bool :=
  bool_decide (k = job_id (claim_job c)) && bool_decide (row_claim row = Some (claim_id c)) && (row_token row =? fencing_token c) &&
  same_instant (row_claimed_until row) (claimed_until c) &&
  match row_claimed_until row with Some until => dt_ltb t until | None => false end &&
  bool_decide (row_state row = state_value SCHEDULED).

(** [values] and the release of the claim. *)
Definition succeeded_row (row : job_row) : job_row :=
  mkJobRow (row_task row) (row_payload row) (row_run_at row) (row_max_attempts row) (row_attempt row) (state_value SUCCEEDED) true
    (row_failure row) (row_token row) None None.
Definition retried_row (n : Z) (at_ : datetime) (reason : pystr) (terminal : bool) (row : job_row) : job_row :=
  mkJobRow (row_task row) (row_payload row) at_ (row_max_attempts row) n (state_value (if terminal then TERMINAL else SCHEDULED)) terminal
    (Some reason) (row_token row) None None.
Definition terminated_row (reason : pystr) (row : job_row) : job_row :=
  mkJobRow (row_task row) (row_payload row) (row_run_at row) (row_max_attempts row) (row_attempt row) (state_value TERMINAL) true
    (Some reason) (row_token row) None None.

Definition _settle (c : JobClaim) (at_ : datetime) (values : job_row -> job_row) : M exn W bool :=
  _utc at_ ;;;
  lock_rows (fun k _ => bool_decide (k = job_id (claim_job c))) ;;;
  let! t := clock_timestamp in
  let! n := update_where (settleable c (greatest at_ t)) values in
  scalar_one_or_none n.

(** The block [begin_nested]; a stale settlement rolls it back, the decision included. *)
Definition succeed (c : JobClaim) (decision : D) (at_ : datetime) : M exn W JobTransition :=
  catch
    (atomic
      (embed (save_decision decision) ;;;
       let! settled := embed (_settle c at_ succeeded_row) in
       if settled : bool then ret JobSucceeded else raise (inr StaleJobClaim)))
    ret.

Definition retry (c : JobClaim) (reason : pystr) (run_at at_ : datetime) : M exn W JobTransition :=
  _utc run_at ;;;
  let! reason := _reason reason in
  let n := attempt (claim_job c) + 1 in
  let terminal := max_attempts (claim_job c) <=? n in
  let! settled := _settle c at_ (retried_row n run_at reason terminal) in
  ret (if negb settled then StaleJobClaim else if terminal then JobTerminated reason else JobRetried run_at).

Definition terminate (c : JobClaim) (reason : pystr) (at_ : datetime) : M exn W JobTransition :=
  let! reason := _reason reason in
  let! settled := _settle c at_ (terminated_row reason) in
  ret (if settled : bool then JobTerminated reason else StaleJobClaim).

(** The settlement of a claim. *)
Inductive transition := Succeed (decision : D) | Retry (reason : pystr) (run_at : datetime) | Terminate (reason : pystr).
Definition settle_job (c : JobClaim) (tr : transition) (at_ : datetime) : M exn W JobTransition :=
  match tr with
  | Succeed decision => succeed c decision at_
  | Retry reason run_at => retry c reason run_at at_
  | Terminate reason => terminate c reason at_
  end.
End Store.
Arguments transition : clear implicits.

(** ** The calls of the sessions, as steps on the rows *)

Inductive job_call :=
  | CallSchedule (j : Job)
  | CallClaimJobs (now until : datetime) (chosen : pystr -> option pystr)
  | CallSettleJob (c : JobClaim) (t : datetime) (values : job_row -> job_row).

Definition apply_job (c : job_call) (T : job_table) : job_table :=
  match c with
  | CallSchedule j => match T !! job_id j with Some _ => T | None => <[job_id j := scheduled_row j]> T end
  | CallClaimJobs now until chosen => map_imap (fun k row => Some (match chosen k with
      | Some id => if claimable now k row then claimed_row id until row else row
      | None => row
      end)) T
  | CallSettleJob c t values => updated (settleable c t) values T
  end.

(** A settlement keeps the fencing token. *)
Definition keeps_token (c : job_call) : Prop := match c with CallSettleJob _ _ values => forall row, row_token (values row) = row_token row | _ => True end.
Definition job_calls : relation job_table := fun T T' => exists c, keeps_token c /\ T' = apply_job c T.

(** The state of a job left [SCHEDULED]. *)
Definition decided (id : pystr) (T : job_table) : Prop := exists row, T !! id = Some row /\ row_state row <> state_value SCHEDULED.
(** The fencing token of a job reached [n]. *)
Definition reached (id : pystr) (n : Z) (T : job_table) : Prop := exists row, T !! id = Some row /\ n <= row_token row.

Lemma decided_kept id T T' : rtc job_calls T T' -> decided id T -> decided id T'.
Proof.
  induction 1 as [|T T1 T2 (c & _ & ->) _ IH]; [done|]. intros (row & Hrow & Hs). apply IH. exists row. split; [|done].
  destruct c as [j|now until chosen|c t values]; cbn.
  - destruct (T !! job_id j) eqn:Hj; [done|]. rewrite lookup_insert_ne; [done|congruence].
  - rewrite map_lookup_imap, Hrow. cbn. unfold claimable. rewrite (bool_decide_false (row_state row = _)) by done. by destruct (chosen id).
  - rewrite updated_lookup, Hrow. cbn. unfold settleable. rewrite (bool_decide_false (row_state row = _)) by done. by rewrite andb_false_r.
Qed.

Lemma reached_kept id n T T' : rtc job_calls T T' -> reached id n T -> reached id n T'.
Proof.
  induction 1 as [|T T1 T2 (c & Hc & ->) _ IH]; [done|]. intros (row & Hrow & Hs). apply IH.
  destruct c as [j|now until chosen|c t values]; cbn in *.
  - exists row. split; [|done]. destruct (T !! job_id j) eqn:Hj; [done|]. rewrite lookup_insert_ne; [done|congruence].
  - eexists. rewrite map_lookup_imap, Hrow. cbn. split; [reflexivity|]. destruct (chosen id); [|done]. destruct (claimable now id row); cbn; lia.
  - eexists. rewrite updated_lookup, Hrow. cbn. split; [reflexivity|]. destruct (settleable c t id row); [by rewrite Hc|done].
Qed.

(** ** Runs *)

Section Runs.
Context {W D : Type} `{!Orm pystr job_row W, !Session pystr job_row W, !Sql pystr job_row W, !Atomic W, !Uuid W, !DatabaseClock W, !SessionBegin W}.
Context `{!OrmLaws job_calls, !SqlLaws job_calls, !UuidLaws, !DatabaseClockLaws, !BeginLaws job_calls}.
Variable save_decision : D -> M exn W unit.
Variable collate : pystr -> pystr -> bool.
Hypothesis save_aside : forall d, aside job_calls (save_decision d).

(** Rows this transaction has locked, as they are. *)
Definition locked_rows (l : list (pystr * job_row)) (w : W) : Prop :=
  nesting w <> 0%nat /\ forall kr, kr ∈ l -> kr.1 ∈ held w /\ rows w !! kr.1 = Some kr.2.

Lemma locked_follows l w w' : locked_rows l w -> follows job_calls w w' -> locked_rows l w'.
Proof.
  intros [Hn Hl] [Hs Hn']. split; [congruence|]. intros kr Hkr. destruct (Hl kr Hkr) as [Hh Hr].
  split; [by apply (sees_held job_calls _ _ Hs)|]. by rewrite (proj2 (sees_locked job_calls _ _ Hs _ Hh)).
Qed.
Lemma locked_wrote l1 kr l2 r w w' : NoDup (l1 ++ kr :: l2).*1 -> locked_rows (l1 ++ kr :: l2) w -> wrote w (<[kr.1 := r]> (rows w)) w' ->
  locked_rows (l1 ++ (kr.1, r) :: l2) w'.
Proof.
  intros Hnd [Hn Hl] [Hr _ Hh Hn']. split; [congruence|]. rewrite fmap_app, fmap_cons in Hnd. apply NoDup_app in Hnd as (_ & H1 & [H2 _]%NoDup_cons).
  intros x Hx. assert (x = (kr.1, r) \/ x ∈ l1 ++ kr :: l2 /\ x.1 <> kr.1) as [->|[Hin Hne]].
  - apply elem_of_app in Hx as [Hx|Hx]; [|apply elem_of_cons in Hx as [Hx|Hx]; [by left|]]; right; (split; [set_solver|]).
    + intros He. apply (H1 kr.1); [rewrite <- He; by apply list_elem_of_fmap_2|by left].
    + intros He. apply H2. rewrite <- He. by apply list_elem_of_fmap_2.
  - destruct (Hl kr ltac:(set_solver)) as [Hk _]. cbn. rewrite Hr, lookup_insert_eq. auto.
  - destruct (Hl x Hin) as [Hk Hrow]. rewrite Hr, lookup_insert_ne by done. auto.
Qed.

(** What a claim hands out over a row, and what it leaves of it. *)
Definition claims_job (c : JobClaim) (kr : pystr * job_row) : Prop := job_id (claim_job c) = kr.1 /\ fencing_token c = row_token kr.2 + 1.
Definition leaves_job (c : JobClaim) (kr : pystr * job_row) : Prop := job_id (claim_job c) = kr.1 /\ fencing_token c = row_token kr.2.

Lemma wp_job id row (w : W) (Q : Job -> W -> Prop) (X : exn -> W -> Prop) : (forall j, job_id j = id -> Q j w) -> (forall e, X e w) -> wp (_job id row) w Q X.
Proof.
  intros HQ HX. apply db_bind, wp_lift; [intros s _|by auto]. do 2 (apply db_bind, db_raise_if; [intros _|by auto]). apply db_bind, wp_lift; [intros [] _|by auto].
  apply db_bind, db_raise_if; [intros _; by apply wp_ret, HQ|by auto].
Qed.

Lemma job_claims_run now ttl l output left w : NoDup (left ++ l).*1 -> locked_rows (left ++ l) w ->
  wp (for_each l output (fun claims kr => let! c := claim_one now ttl kr in ret (claims ++ [c]))) w
    (fun out w' => exists cs rest, out = output ++ cs /\ Forall2 claims_job cs l /\ Forall2 leaves_job cs rest /\ locked_rows (left ++ rest) w') (fun _ _ => True).
Proof.
  revert output left w. induction l as [|kr l IH]; intros output left w Hnd Hl; [apply wp_ret; exists [], []; by rewrite app_nil_r|].
  cbn [for_each]. apply db_bind, db_bind, db_bind, (wp_uuid4 job_calls). intros id w1 _ _ Hf1 _. eapply locked_follows in Hl; [|exact Hf1].
  apply db_bind, wp_lift; [|done]. intros u Hu. destruct (proj2 Hl kr ltac:(set_solver)) as [Hh Hr].
  apply db_bind. eapply (wp_save job_calls); [done|exact Hr| |done]. intros w2 w3 Hf2 Hw3. eapply locked_follows in Hl; [|exact Hf2].
  eapply locked_wrote in Hw3; [|done|done]. apply db_bind, wp_job; [|done]. intros j Hj.
  apply db_bind, db_raise_if; [intros _|done]. apply db_bind, db_raise_if; [intros _|done]. apply wp_ret, wp_ret.
  assert (left ++ (kr.1, claimed_row id u kr.2) :: l = (left ++ [(kr.1, claimed_row id u kr.2)]) ++ l) as He by (by rewrite <- app_assoc). rewrite He in Hw3.
  eapply db_mono; [apply (IH (output ++ [mkClaim j id u (row_token kr.2 + 1)]) (left ++ [(kr.1, claimed_row id u kr.2)]) w3); [|exact Hw3]| |done].
  - rewrite <- He. rewrite fmap_app, fmap_cons in Hnd |- *. exact Hnd.
  - intros out w4 (cs & rest & -> & Hc & Hrest & Hw4). exists (mkClaim j id u (row_token kr.2 + 1) :: cs), ((kr.1, claimed_row id u kr.2) :: rest).
    split_and!; [by rewrite <- app_assoc|by constructor|by constructor|by rewrite <- app_assoc in Hw4].
Qed.

(** A claim takes claimable rows of one instant, and leaves their tokens raised. *)
Lemma job_claim_run now limit ttl w : nesting w <> 0%nat ->
  wp (claim collate now limit ttl) w
    (fun cs w' => exists T found rest, instant job_calls w T /\ Forall2 claims_job cs found /\ Forall2 leaves_job cs rest /\ locked_rows rest w' /\
       forall kr, kr ∈ found -> T !! kr.1 = Some kr.2 /\ claimable now kr.1 kr.2 = true) (fun _ _ => True).
Proof.
  intros Hn. apply db_bind, db_raise_if; [intros _|done]. apply db_bind, db_bind, db_raise_if; [intros _|done]. apply db_raise_if; [intros _|done].
  apply db_bind, (wp_locked_query job_calls); [|done]. intros found w1 [Hs1 Hn1] Hnd Hin Hlock _.
  eapply db_mono; [apply (job_claims_run now ttl found [] []); [done|]| |done].
  - split; [congruence|]. intros kr Hkr. split; [apply Hlock; [congruence|by apply list_elem_of_fmap_2]|by apply Hin].
  - intros cs w2 (cs' & rest & -> & Hc & Hrest & Hl). exists (rows w1), found, rest. split_and!; [by apply (sees_instant job_calls)|done..].
Qed.

(** A settlement changes the row it was authorised for, or nothing. *)
Definition settles (c : JobClaim) (values : job_row -> job_row) (w : W) (b : bool) (w' : W) : Prop :=
  exists T t, instant job_calls w T /\ rows w' = updated (settleable c t) values T /\
    if b then exists row, T !! job_id (claim_job c) = Some row /\ settleable c t (job_id (claim_job c)) row = true else True.

Lemma settleable_key c t k row : settleable c t k row = true -> k = job_id (claim_job c).
Proof. unfold settleable. rewrite !andb_true_iff, bool_decide_eq_true. tauto. Qed.

Lemma job_settle_runs c at_ values w : wp (_settle c at_ values) w (fun b w' => settles c values w b w') (fun _ _ => True).
Proof.
  apply db_bind, db_raise_if; [intros _|done]. apply db_bind, (wp_lock_rows job_calls); [|done]. intros w1 Hf1.
  apply db_bind, (wp_clock_timestamp job_calls). intros t w2 Hf2 _. eapply follows_trans in Hf2; [|exact Hf1].
  apply db_bind, (wp_update_where job_calls); [|done]. intros w3 w4 Hf3 Hw. eapply follows_trans in Hf3; [|exact Hf2].
  apply wp_one_row; [apply (matching_one _ (job_id (claim_job c))); intros; by eapply settleable_key|].
  exists (rows w3), (greatest at_ t). split_and!; [apply (sees_instant job_calls), Hf3|apply Hw|]. destruct (_ =? 0) eqn:Hz; [done|]. cbn. apply Z.eqb_neq in Hz.
  destruct (map_choose (matching (settleable c (greatest at_ t)) (rows w3))) as (k & row & Hr); [intros He; rewrite He in Hz; by rewrite map_size_empty in Hz|].
  apply matching_lookup in Hr as [Hr Hc]. pose proof (settleable_key _ _ _ _ Hc) as ->. by exists row.
Qed.

Lemma settles_sees c values w w1 b w' : sees job_calls w w1 -> settles c values w1 b w' -> settles c values w b w'.
Proof. intros Hs (T & t & HT & Hrest). exists T, t. split; [by eapply (instant_sees job_calls)|done]. Qed.

(** What a settlement that was not stale did. *)
Definition settled_by (c : JobClaim) (w : W) (r : JobTransition) (w' : W) : Prop :=
  exists values, settles c values w true w' /\ match r with JobRetried _ => True | StaleJobClaim => False | _ => forall row, row_state (values row) <> state_value SCHEDULED end.

Lemma transition_runs c tr at_ w : nesting w <> 0%nat ->
  wp (settle_job save_decision c tr at_) w (fun r w' => r <> StaleJobClaim -> settled_by c w r w') (fun _ _ => True).
Proof.
  intros Hn. destruct tr as [d|reason run_at|reason]; cbn [settle_job].
  - apply wp_catch, (wp_atomic job_calls). intros w0 He. apply db_bind, wp_embed. eapply db_mono; [apply (save_aside d)| |by intros e w' _ w2 _].
    intros u w1 [Hs1 _]. apply db_bind, wp_embed. eapply db_mono; [apply job_settle_runs| |by intros e w' _ w2 _]. intros b w2 Hset. destruct b.
    + apply wp_ret. intros w3 Hl _. exists succeeded_row. split; [|done]. eapply settles_sees in Hset; [|exact Hs1].
      destruct Hset as (T & t & HT & Hr & Hrow). exists T, t. split; [by apply (entered_instant job_calls w w0)|]. by rewrite (left_rows _ _ _ Hl).
    + apply db_raise. intros w3 Hf. by apply wp_ret.
  - apply db_bind, db_raise_if; [intros _|done]. apply db_bind, db_bind, db_raise_if; [intros _|done]. apply wp_ret.
    apply db_bind. eapply db_mono; [apply job_settle_runs| |done]. intros b w' Hset. apply wp_ret. destruct b; cbn [negb]; [|done]. intros _.
    eexists. split; [exact Hset|]. destruct (_ <=? _); [by intros row|done].
  - apply db_bind, db_bind, db_raise_if; [intros _|done]. apply wp_ret.
    apply db_bind. eapply db_mono; [apply job_settle_runs| |done]. intros b w' Hset. apply wp_ret. destruct b; [|done]. intros _. by eexists.
Qed.

(** The same calls in sessions of their own. *)
Lemma transition_session c tr at_ w : nesting w = 0%nat ->
  wp (in_session (settle_job save_decision c tr at_)) w
    (fun r w' => r <> StaleJobClaim -> nesting w' = 0%nat /\ exists w0, entered w w0 /\ settled_by c w0 r w') (fun _ w' => nesting w' = 0%nat).
Proof.
  intros Hn. apply (wp_session job_calls); [done| |done]. intros w0 He. eapply db_mono; [apply transition_runs; rewrite (entered_nesting _ _ He); lia| |done].
  intros r w1 Hset w2 Hl Hr. split; [by rewrite (left_nesting _ _ _ Hl)|]. exists w0. split; [done|].
  destruct (Hset Hr) as (values & (T & t & HT & Hrows & Hrow) & Hv). exists values. split; [|done]. exists T, t. by rewrite (left_rows _ _ _ Hl).
Qed.

(** The rows a settlement needs are not there once the job is decided, or its token passed. *)
Lemma settled_by_row c w w0 r w' : nesting w = 0%nat -> entered w w0 -> settled_by c w0 r w' ->
  exists T row, rtc job_calls (rows w) T /\ T !! job_id (claim_job c) = Some row /\ row_state row = state_value SCHEDULED /\ row_token row = fencing_token c.
Proof.
  intros Hn He (values & (T & t & HT & _ & row & Hrow & Hset) & _). exists T, row.
  split; [apply (instant_top job_calls); [done|]; by apply (entered_instant job_calls w w0)|]. split; [done|].
  unfold settleable in Hset. rewrite !andb_true_iff, !bool_decide_eq_true, Z.eqb_eq in Hset. tauto.
Qed.
Lemma decided_stale c tr at_ w : nesting w = 0%nat -> decided (job_id (claim_job c)) (rows w) ->
  wp (in_session (settle_job save_decision c tr at_)) w (fun r _ => r = StaleJobClaim) (fun _ w' => nesting w' = 0%nat).
Proof.
  intros Hn Hd. eapply db_mono; [by apply transition_session| |done]. intros r w' Hr. destruct (decide (r = StaleJobClaim)) as [|Hne]; [done|exfalso].
  destruct (Hr Hne) as (_ & w0 & He & Hset). destruct (settled_by_row _ _ _ _ _ Hn He Hset) as (T & row & HT & Hrow & Hs & _).
  apply (decided_kept _ _ _ HT) in Hd as (row' & Hrow' & Hs'). congruence.
Qed.
Lemma reached_stale c tr at_ n w : nesting w = 0%nat -> reached (job_id (claim_job c)) n (rows w) -> fencing_token c < n ->
  wp (in_session (settle_job save_decision c tr at_)) w (fun r _ => r = StaleJobClaim) (fun _ w' => nesting w' = 0%nat).
Proof.
  intros Hn Hd Hlt. eapply db_mono; [by apply transition_session| |done]. intros r w' Hr. destruct (decide (r = StaleJobClaim)) as [|Hne]; [done|exfalso].
  destruct (Hr Hne) as (_ & w0 & He & Hset). destruct (settled_by_row _ _ _ _ _ Hn He Hset) as (T & row & HT & Hrow & _ & Ht).
  apply (reached_kept _ _ _ _ HT) in Hd as (row' & Hrow' & Hle). assert (row' = row) as -> by congruence. lia.
Qed.

Lemma claim_session now limit ttl w : nesting w = 0%nat ->
  wp (in_session (claim collate now limit ttl)) w
    (fun cs w' => nesting w' = 0%nat /\ forall c, c ∈ cs -> reached (job_id (claim_job c)) (fencing_token c) (rows w') /\
       exists T row, rtc job_calls (rows w) T /\ T !! job_id (claim_job c) = Some row /\ fencing_token c = row_token row + 1 /\ row_state row = state_value SCHEDULED)
    (fun _ w' => nesting w' = 0%nat).
Proof.
  intros Hn. apply (wp_session job_calls); [done| |done]. intros w0 He. eapply db_mono; [apply job_claim_run; rewrite (entered_nesting _ _ He); lia| |done].
  intros cs w1 (T & found & rest & HT & Hcs & Hrest & Hl & Hin) w2 Hleft. split; [by rewrite (left_nesting _ _ _ Hleft)|].
  intros c [i Hc]%list_elem_of_lookup. destruct (Forall2_lookup_l _ _ _ _ _ Hrest Hc) as ([k r] & Hr & Hk & Ht). cbn in *. split.
  - exists r. rewrite (left_rows _ _ _ Hleft), Hk. split; [apply (proj2 Hl (k, r)); by eapply list_elem_of_lookup_2|lia].
  - destruct (Forall2_lookup_l _ _ _ _ _ Hcs Hc) as ([k' r'] & Hr' & Hk' & Ht'). cbn in *. apply list_elem_of_lookup_2, Hin in Hr' as [HT' Hcl]. cbn in *.
    exists T, r'. rewrite Hk'. split_and!; [|done|done|].
    + apply (instant_top job_calls); [done|]. by apply (entered_instant job_calls w w0).
    + unfold claimable in Hcl. rewrite !andb_true_iff, bool_decide_eq_true in Hcl. tauto.
Qed.
End Runs.

(** C22. A job is settled once: when a session settled its claim as succeeded or terminated,
    then in every later session, whatever others schedule, claim and settle in between, no
    claim hands the job out, and every settlement of any claim of it answers [StaleJobClaim];
    or the session raises, and leaves no transaction open. *)
Theorem sql_job_settled_once {W D : Type} `{!Orm pystr job_row W, !Session pystr job_row W, !Sql pystr job_row W, !Atomic W, !Uuid W, !DatabaseClock W, !SessionBegin W}
    `{!OrmLaws job_calls, !SqlLaws job_calls, !UuidLaws, !DatabaseClockLaws, !BeginLaws job_calls}
    (save_decision : D -> M exn W unit) collate c tr at_ r (w0 w1 w2 : W) :
  (forall d, aside job_calls (save_decision d)) -> nesting w0 = 0%nat ->
  in_session (settle_job save_decision c tr at_) w0 = (Ok r, w1) -> (r = JobSucceeded \/ exists reason, r = JobTerminated reason) ->
  nesting w2 = 0%nat -> rtc job_calls (rows w1) (rows w2) ->
  (forall now limit ttl, wp (in_session (claim collate now limit ttl)) w2
     (fun cs _ => forall c', c' ∈ cs -> job_id (claim_job c') <> job_id (claim_job c)) (fun _ w3 => nesting w3 = 0%nat)) /\
  (forall c' tr' at', job_id (claim_job c') = job_id (claim_job c) ->
     wp (in_session (settle_job save_decision c' tr' at')) w2 (fun r' _ => r' = StaleJobClaim) (fun _ w3 => nesting w3 = 0%nat)).
Proof.
  intros Hs Hn Hrun Hr Hn2 Hlater. pose proof (transition_session save_decision collate Hs c tr at_ w0 Hn) as Hw. unfold wp in Hw. rewrite Hrun in Hw.
  assert (decided (job_id (claim_job c)) (rows w1)) as Hd.
  { destruct Hw as (_ & w & _ & values & (T & t & _ & Hrows & row & Hrow & Hset) & Hv); [destruct Hr as [->|[? ->]]; done|].
    exists (values row). rewrite Hrows, updated_lookup, Hrow. cbn. rewrite Hset. split; [done|]. destruct Hr as [->|[? ->]]; apply Hv. }
  apply (decided_kept _ _ _ Hlater) in Hd. split.
  - intros now limit ttl. eapply db_mono; [by apply (claim_session save_decision collate Hs)| |done]. intros cs w3 [_ Hcs] c' Hc' He.
    destruct (Hcs c' Hc') as (_ & T & row & HT & Hrow & _ & Hst). rewrite He in Hrow. apply (decided_kept _ _ _ HT) in Hd as (row' & Hrow' & Hne). congruence.
  - intros c' tr' at' He. apply (decided_stale _ collate); [done|done|by rewrite He].
Qed.

(** C21. Claims of a job are fenced: a later claim of it carries a greater fencing token, and
    from then on every settlement of the earlier claim answers [StaleJobClaim], in every later
    session and whatever others do; or the session raises, and leaves no transaction open. *)
Theorem sql_job_fenced {W D : Type} `{!Orm pystr job_row W, !Session pystr job_row W, !Sql pystr job_row W, !Atomic W, !Uuid W, !DatabaseClock W, !SessionBegin W}
    `{!OrmLaws job_calls, !SqlLaws job_calls, !UuidLaws, !DatabaseClockLaws, !BeginLaws job_calls}
    (save_decision : D -> M exn W unit) collate now limit ttl now' limit' ttl' cs cs' c c' (w0 w1 w2 w3 w4 : W) tr at_ :
  (forall d, aside job_calls (save_decision d)) ->
  nesting w0 = 0%nat -> in_session (claim collate now limit ttl) w0 = (Ok cs, w1) -> c ∈ cs ->
  nesting w2 = 0%nat -> rtc job_calls (rows w1) (rows w2) ->
  in_session (claim collate now' limit' ttl') w2 = (Ok cs', w3) -> c' ∈ cs' -> job_id (claim_job c') = job_id (claim_job c) ->
  nesting w4 = 0%nat -> rtc job_calls (rows w3) (rows w4) ->
  fencing_token c < fencing_token c' /\
  wp (in_session (settle_job save_decision c tr at_)) w4 (fun r _ => r = StaleJobClaim) (fun _ w5 => nesting w5 = 0%nat).
Proof.
  intros Hs Hn0 Hrun Hc Hn2 H12 Hrun' Hc' Hid Hn4 H34.
  pose proof (claim_session save_decision collate Hs now limit ttl w0 Hn0) as Hw. pose proof (claim_session save_decision collate Hs now' limit' ttl' w2 Hn2) as Hw'. unfold wp in Hw, Hw'. rewrite Hrun in Hw. rewrite Hrun' in Hw'.
  destruct (proj2 Hw c Hc) as [Hr _]. destruct (proj2 Hw' c' Hc') as [Hr' (T & row & HT & Hrow & Ht & _)]. rewrite Hid in *.
  assert (fencing_token c < fencing_token c') as Hlt.
  { apply (reached_kept _ _ _ _ H12), (reached_kept _ _ _ _ HT) in Hr as (row' & Hrow' & Hle). assert (row' = row) as -> by congruence. lia. }
  split; [done|]. eapply (reached_stale _ collate); [done|done|by eapply reached_kept|done].
Qed.

(** ** A concrete history: two workers claim a job, another session schedules more. *)

Section Example.
#[local] Existing Instance unary_uuid.
#[local] Existing Instance unary_uuid_laws.

Abbreviation job_db := (db job_calls).
Definition demo_job (id : pystr) (at_ : Z) : Job := mkJob id "send" JNull (utc at_) 3 0 SCHEDULED None.
Definition their_job : job_call := CallSchedule (demo_job "b" 2).
Definition their_schedule : { f : job_table -> job_table | forall T, job_calls T (f T) } :=
  exist _ (apply_job their_job) (fun T => ex_intro _ their_job (conj I eq_refl)).
Definition job_db0 : job_db := mkDb _ {["a"%py := scheduled_row (demo_job "a" 1)]} ∅ ∅ 0 0 (repeat their_schedule 30).

(** Every commit is answered. *)
#[local] Instance job_begin : SessionBegin job_db := db_begin job_calls (fun _ => None).
#[local] Instance job_begin_laws : BeginLaws job_calls := db_begin_laws job_calls (fun _ => None).
Definition job_claims (now : datetime) (ttl : timedelta) : M exn job_db (list JobClaim) :=
  in_session (claim (fun a b => bool_decide (str_compare a b <> Gt)) now 1 ttl).
Definition job_settle (c : JobClaim) (tr : transition Z) (at_ : datetime) : M exn job_db JobTransition := in_session (settle_job (fun _ => ret tt) c tr at_).

Definition job_db1 : job_db := after (job_claims (utc 5) 10) job_db0.
Definition job_db2 : job_db := after (job_claims (utc 20) 10) job_db1.
Definition first_claim : JobClaim := mkClaim (demo_job "a" 1) "a" (utc 15) 1.
Definition second_claim : JobClaim := mkClaim (demo_job "a" 1) "aa" (utc 30) 2.
Definition job_db3 : job_db := after (job_settle second_claim (Succeed 7) (utc 25)) job_db2.
Lemma job_aside (d : Z) : aside (W := job_db) job_calls (ret tt).
Proof. intros w. apply wp_ret, follows_refl. Qed.

(** The second claim settles the job; the job b is there to claim, the job a is not. *)
Lemma sql_job_settled_once_witness :
  answers_with (job_claims (utc 20) 10) job_db1 [second_claim] /\
  answers_with (job_settle second_claim (Succeed 7) (utc 25)) job_db2 JobSucceeded /\
  answers_with (job_claims (utc 90) 10) job_db3 [mkClaim (demo_job "b" 2) "aaa" (utc 100) 1] /\
  wp (job_claims (utc 90) 10) job_db3 (fun cs _ => forall c', c' ∈ cs -> job_id (claim_job c') <> "a"%py) (fun _ w3 => nesting w3 = 0%nat).
Proof.
  do 3 (split; [by vm_compute|]).
  assert (job_settle second_claim (Succeed 7) (utc 25) job_db2 = (Ok JobSucceeded, job_db3)) as Hrun by (apply answers_after; vm_compute; reflexivity).
  assert (nesting job_db2 = 0%nat /\ nesting job_db3 = 0%nat) as [Hn2 Hn3] by (split; vm_compute; reflexivity).
  exact (proj1 (sql_job_settled_once (fun _ => ret tt) (fun a b => bool_decide (str_compare a b <> Gt)) second_claim (Succeed 7) (utc 25) JobSucceeded job_db2 job_db3 job_db3
    job_aside Hn2 Hrun (or_introl eq_refl) Hn3 (rtc_refl _ _)) (utc 90) 1 10).
Defined.

(** The first claim is superseded, and stale while the second one runs. *)
Lemma sql_job_fenced_witness :
  answers_with (job_claims (utc 5) 10) job_db0 [first_claim] /\
  answers_with (job_claims (utc 20) 10) job_db1 [second_claim] /\
  answers_with (job_settle first_claim (Terminate "late") (utc 21)) job_db2 StaleJobClaim /\
  (1 < 2 /\ wp (job_settle first_claim (Terminate "late") (utc 21)) job_db2 (fun r _ => r = StaleJobClaim) (fun _ w5 => nesting w5 = 0%nat)).
Proof.
  do 3 (split; [by vm_compute|]).
  assert (job_claims (utc 5) 10 job_db0 = (Ok [first_claim], job_db1)) as Hrun by (apply answers_after; vm_compute; reflexivity).
  assert (job_claims (utc 20) 10 job_db1 = (Ok [second_claim], job_db2)) as Hrun' by (apply answers_after; vm_compute; reflexivity).
  assert (nesting job_db0 = 0%nat /\ nesting job_db1 = 0%nat /\ nesting job_db2 = 0%nat) as (Hn0 & Hn1 & Hn2) by (split_and!; vm_compute; reflexivity).
  exact (sql_job_fenced (fun _ => ret tt) (fun a b => bool_decide (str_compare a b <> Gt)) (utc 5) 1 10 (utc 20) 1 10 [first_claim] [second_claim]
    first_claim second_claim job_db0 job_db1 job_db1 job_db2 job_db2 (Terminate "late") (utc 21) job_aside
    Hn0 Hrun (list_elem_of_here _ _) Hn1 (rtc_refl _ _) Hrun' (list_elem_of_here _ _) eq_refl Hn2 (rtc_refl _ _)).
Defined.

(** A job scheduled with its last attempt behind it is claimed as any other; its retry answers
    that it is terminal and leaves an attempt beyond the limit, and the row cannot be read as
    a job any more. *)
Definition last_attempt : Job := mkJob "a" "send" JNull (utc 1) 3 3 SCHEDULED None.
Definition last_db1 : job_db := after (job_claims (utc 5) 10) (mkDb _ {["a"%py := scheduled_row last_attempt]} ∅ ∅ 0 0 []).
Definition last_retry : M exn job_db JobTransition := job_settle (mkClaim last_attempt "a" (utc 15) 1) (Retry "again" (utc 50)) (utc 6).

Example retried_job_unreadable :
  answers_with last_retry last_db1 (JobTerminated "again") /\
  fst (get "a" (after last_retry last_db1)) = Raise (ValueError "job attempts are invalid").
Proof. split; by vm_compute. Qed.
End Example.
